(* ===== verification/_CoqProject ===== *)
-Q . S2P
Prelude.v
Label.v
LabelOrder.v
LabelCache.v
BlowfishData.v
Blowfish.v
BlowfishProofs.v
KState.v
KThread.v
KObj.v
KOps.v
KGc.v
KSys.v
KAs.v
KSched.v
KLogic.v
KNoErr.v
KInv.v
KExample.v
KFlow.v
KReach.v
KEvolve.v
KLabels.v
KBounds.v
KAccess.v
NegCache.v
KRun.v
Hashtable.v
HashtableProofs.v
Dstack.v
BTree.v
BTreeRep.v
BTreeSearch.v
BTreeNodes.v
BTreeInsert.v
BTreeRemove.v
BTreeRows.v
BTreeDelete.v
Log.v
LogProofs.v
LogApply.v
LogCommit.v
Cache.v
Index.v
Freelist.v
FreelistSpace.v
FreelistInv.v
FreelistProofs.v
Pstate.v
PstateIO.v
PstateInv.v
PstateProofs.v
PstateMap.v
PstateSync.v
PstateSpec.v
PstateSim.v
PstateSnap.v
PstateSteps.v
PstateCkpt.v
PstateRun.v
PstateObject.v
Pagetree.v
PagetreeCore.v
PagetreeInv.v
PagetreeFree.v
PagetreeView.v
PagetreeStep.v
PagetreeCow.v
PagetreeOps.v
PagetreeTrees.v
PagetreeSpec.v
PagetreeKobj.v
PagetreeRun.v
