(* ===== verification/Prelude.v ===== *)
(** * HiStar kernel: verification library

    HiStar is an operating system whose kernel enforces information flow
    control: every kernel object has a label, and a thread can observe or
    modify an object only as its own label and clearance allow.  The kernel
    keeps all objects persistent in a single-level store on disk.  This library
    models the kernel's own logic (the C code of [src/kern/kern], [src/kern/btree]
    and the parts of [src/lib] and [src/inc] that the kernel links) as executable
    Rocq functions and proves the properties that make it correct.

    ** Conventions

    A C integer of width [n] is a [Z] and every operation that can leave its
    range wraps ([u8], [u16], [u32], [u64], [i32], [i64]).  A function that
    returns [int] with negative error codes returns [res]: [Ok], [Err e], or
    [Panic] for a failed [assert], a call of [panic] or an access outside an
    array.  Code that changes state is written in a state-and-error monad whose
    errors keep the state, as the C code does: [M] over the kernel state
    ([KState]), [LM] over the log and the disk ([Log]), [BM] over the nodes of a tree ([BTree]), [HM] over the pages of memory ([Pagetree]);
    small components pass their state explicitly.  Definitions keep the names of
    the source.  Loops that are not structural take fuel, with a bound from the
    data of the loop: the number of objects ([kobject_gc_passes], [schedule_loop]: each
    round takes an object or a runnable thread away; [KRun.schedule_loop_ends]
    proves for the scheduler that what the loop does when the fuel is used up cannot
    be reached), the depth of a tree plus one ([search_from],
    [insertKey], [delete_from]), the capacity of a table ([probe]), and the length of
    the oracle for retried disk operations ([retry]).

    ** Labels ([src/kern/kern/label.c])

    [Label]: the arrays of entries, the level comparators, comparison, maximum,
    user labels.  [LabelOrder]: [label_compare] decides the pointwise order of
    the functions from handles to levels that labels stand for, that order is a
    preorder, [label_max] is a least upper bound, [label_set] changes one
    handle, the conversion to user labels and back loses nothing.
    [LabelCache]: the ring of comparison results and that it never changes an
    answer.  [KLabels]: label objects of the object table refine label values.

    ** Identifiers ([src/lib/bf60.c], [src/kern/kern/handle.c])

    [BlowfishData], [Blowfish], [BlowfishProofs]: the 60, 61 and 64 bit Blowfish
    ciphers with their key schedule, and the allocation of handles by
    enciphering a counter: handles do not repeat.

    ** The object layer ([kobj.c], [container.c], [thread.c], [gate.c], [segment.c], [as.c], [sched.c], [sync.c], [syscall.c])

    The whole mutable state is the record of [KState]; the operations are, from
    the bottom up, [KThread] (pins, queues, thread states, wait slots), [KObj] (lookup with
    the label checks, labels, quota, references, allocation), [KOps]
    (containers, segments, label objects, gates, threads), [KGc] (swapping,
    garbage collection), [KSys] (system call handlers), [KAs] (address spaces,
    snapshots and page faults), [KSched] (scheduler, waiting, the system call
    switch).  Memory and disk outside the object layer are an oracle: whether a page
    is free for [page_alloc], which otherwise asks for a sync, suspends the thread and
    returns [E_RESTART]; and whether an object has to be read from disk.
    [KLogic] and [KNoErr] are the program logic.  [KInv] and [KReach]: the
    invariant of the object table (every object has the contents its type calls for unless it is
    marked dead, is on the list of objects once, and on the garbage list only as garbage), kept by every operation, also by those that
    fail, and so true of every state that system calls, page faults, scheduling
    and garbage collection can reach.  [KFlow], [KAccess]: an object is handed
    out only when both labels exist and compare as the access asks for (label objects
    themselves are readable by all), and
    naming an object through a container mediates both; quota transfers.
    [KEvolve], [KBounds]: labels of objects never change, and the system calls by which a
    thread changes its own labels stay within its clearance and the bounds of
    gates.  [KRun]: the scheduler picks the least pass in spite of wrap-around,
    and ends.  [NegCache]: the cache of missing objects, checked integer
    arithmetic.  [KExample] is a concrete kernel state for the witnesses.

    ** The persistent store ([log.c], [pstate.c], [hashtable.c], [dstack.c], [freelist.c], [src/kern/btree])

    [Hashtable], [HashtableProofs]: open addressing with tombstones, over one
    array or over pages, refines a finite map.  [Dstack]: the paged stack is a
    stack.  [BTree] models nodes, search, insertion, deletion and traversal of
    the B+-trees over a store of nodes by disk offset; [BTreeRep] relates a
    well-formed tree in the store to the ordered list of its entries;
    [BTreeSearch]: the three searches find the entry the ordered list has;
    [BTreeNodes], [BTreeInsert]: insertion inserts into the ordered list and
    keeps the tree well formed; [BTreeRemove], [BTreeRows], [BTreeDelete]: so does
    deletion, which borrows from siblings and merges nodes.  [Index] is what the
    free list relies on in such a tree, as an interface that the trees implement.
    [Cache]: the cache of nodes never takes an entry that is referenced.  [Log]: the
    write-ahead log, with every disk that a write leaves
    recorded, and the commit, roll-back and recovery code of [pstate.c].  Every access to the
    disk may fail; a failed write of the log or of blocks leaves any part of it on disk,
    and one of the header, which is a single sector, the old header or the new one.  [LogProofs],
    [LogApply], [LogCommit]: the log with the disk is a store of blocks; a
    commit is atomic, whatever accesses fail: a restart from any disk that occurs on the way
    brings up the contents of before or of after it; and going back after a
    failed commit gives the contents of before.  They are about a log that has room for
    the update and from which no block was freed; two runs in [LogCommit] show what is lost otherwise.

    [Freelist] models the free extents of the disk and the buffer of blocks for the
    nodes of its own trees; [FreelistSpace], [FreelistInv], [FreelistProofs]: every
    byte is at any time free, in use by the trees, waiting for a commit or handed out,
    and never two of these, as long as an extent is free that is large enough ([roomy]).  [Pstate] models the records of objects and their
    transfer to and from the disk; [PstateIO], [PstateInv], [PstateProofs], [PstateMap]:
    the disk holds a map of objects that a swap-out updates and a swap-in reads,
    and the map of the last commit stays intact whatever fails.

    [PstateSync] models a global sync in its parts (snapshots, swapping out, commit,
    going back after an error), the flags of objects in memory, swap-in, reclaiming
    and restart.  [PstateSpec] interleaves the parts with what threads do, as a step
    relation, and states the specification: a map of objects with a current and a
    durable version.  [PstateSim], [PstateSnap], [PstateSteps], [PstateCkpt]: the steps
    implement it (with room on the disk, and with the log as a whole that commits or
    fails), a swap-in that fails never loses an object, a time stamp that
    [pstate_sync_user] reports is durable, and the
    end of a sync lets go of all that it held in memory.  The loops over snapshots take fuel:
    a round of service for every object in memory.  [PstateRun] is a run for the witnesses.
    [PstateObject] models the sync of a part of one object in place, apart from the step
    relation: what it writes, what it leaves alone, and three ways in which it reports
    success for data that is not on disk.

    ** Pages ([pagetree.c], [pagealloc.c], [kobj.c])

    [Pagetree] models the contents of objects as trees of pages, with indirect pages,
    reference counts, copy on write, pins, sharing with snapshots, and the free list
    of pages; and the loops of [kobject_set_nbytes] that add and drop pages.  The
    recursions follow the levels of a tree, at most four of them and the data
    page ([pt_depth]).  [PagetreeCore] is a program logic over what the proofs look at;
    [PagetreeInv], [PagetreeFree], [PagetreeStep]: the count of every page is the number
    of entries that have it, also while an operation runs; [PagetreeView]: what a
    tree holds, and the way to a page; [PagetreeCow], [PagetreeOps], [PagetreeTrees]: copy on
    write cannot be noticed, and each operation changes one page of one tree, or one
    tree; [PagetreeSpec]: the trees refine one map for each tree, fail only for want
    of memory, and lose no page; [PagetreeKobj]: growing an object is all or
    nothing.  These are about pages that are neither pinned nor shared for writing.  [PagetreeRun]: runs, and what goes wrong with
    pinned pages and without memory.  The object layer above does not use these
    trees: its objects have lists of pages.

    ** Not modelled

    Devices, interrupts, hardware page tables and boot code ([src/kern/dev],
    [src/kern/arch] but for a few functions of the object layer): register level
    I/O.  The coroutines of [stackwrap.c], the queue of delayed operations of [pstate.c]
    ([pstate_op_check]) and the partition table.  Console, profiling and
    timers.  The user-level libraries and servers and the vendored packages, which
    are above the system call interface.

    ** Plan

    What is left: pinned pages in the proofs about page trees; syncs of a single
    object among the steps of [PstateSpec]; the composition of cache, log and trees in
    one store; the user traps of threads. *)

From Stdlib Require Export ZArith Lia.
From stdpp Require Export base list gmap numbers.
From stdpp Require Import options.

Set Default Goal Selector "!".

Open Scope Z_scope.

(** ** Machine integers

    A C unsigned integer of width [n] is a [Z] in [[0, 2^n)]; every operation
    that can leave the range is followed by the wrap of its width. *)

Definition u8 (z : Z) : Z := z mod 2 ^ 8.
Definition u32 (z : Z) : Z := z mod 2 ^ 32.
Definition u64 (z : Z) : Z := z mod 2 ^ 64.

(** Conversion of an unsigned value to the signed type of the same width. *)
Definition i32 (z : Z) : Z := let u := u32 z in if u <? 2 ^ 31 then u else u - 2 ^ 32.
Definition i64 (z : Z) : Z := let u := u64 z in if u <? 2 ^ 63 then u else u - 2 ^ 64.

Definition is_u32 (z : Z) : Prop := 0 <= z < 2 ^ 32.
Definition is_u64 (z : Z) : Prop := 0 <= z < 2 ^ 64.

(** ** Error codes of [inc/error.h] (the kernel returns their negation) *)

Definition E_UNSPEC : Z := 1.
Definition E_INVAL : Z := 2.
Definition E_NO_MEM : Z := 3.
Definition E_RESTART : Z := 4.
Definition E_NOT_FOUND : Z := 5.
Definition E_LABEL : Z := 6.
Definition E_BUSY : Z := 7.
Definition E_NO_SPACE : Z := 8.
Definition E_AGAIN : Z := 9.
Definition E_IO : Z := 10.
Definition E_FIXED_QUOTA : Z := 11.
Definition E_VAR_QUOTA : Z := 12.
Definition E_RESOURCE : Z := 13.
Definition E_BAD_TYPE : Z := 14.
Definition E_READ_ONLY : Z := 15.
Definition E_RANGE : Z := 16.

(** ** Outcomes of C functions

    A function that returns [int] with negative error codes returns [Ok] of
    its useful result or [Err e] for the code [- e].  [Panic] is a failed
    [assert], a call of [panic], or an access out of the bounds of an array. *)

Inductive res (A : Type) : Type :=
| Ok (a : A)
| Err (e : Z)
| Panic.
Arguments Ok {A} a.
Arguments Err {A} e.
Arguments Panic {A}.

Definition res_bind {A B} (r : res A) (f : A -> res B) : res B :=
  match r with
  | Ok a => f a
  | Err e => Err e
  | Panic => Panic
  end.

Declare Scope res_scope.
Delimit Scope res_scope with res.
Notation "'do' x <- c ; k" := (res_bind c (fun x => k))
  (at level 60, x pattern, c at next level, right associativity) : res_scope.

(** [assert(0 == f(...))]: any failure of [f] is a panic. *)
Definition res_assert {A} (r : res A) : res A :=
  match r with
  | Ok a => Ok a
  | _ => Panic
  end.

(** The entry of an array, a panic when the index is out of bounds. *)
Definition res_nth {A} (l : list A) (i : nat) : res A :=
  match l !! i with
  | Some a => Ok a
  | None => Panic
  end.

Definition is_ok {A} (r : res A) : bool :=
  match r with Ok _ => true | _ => false end.

Lemma res_bind_Ok {A B} (r : res A) (f : A -> res B) b :
  res_bind r f = Ok b <-> exists a, r = Ok a /\ f a = Ok b.
Proof. destruct r; simpl; naive_solver. Qed.

Lemma res_nth_lookup {A} (l : list A) i a :
  l !! i = Some a -> res_nth l i = Ok a.
Proof. unfold res_nth. by intros ->. Qed.

(** ** Tactics *)

Ltac destr :=
  match goal with
  | |- context [match ?x with _ => _ end] => destruct x eqn:?
  | H : context [match ?x with _ => _ end] |- _ => destruct x eqn:?
  end.

(** Turns boolean comparisons in hypotheses into propositions. *)
Ltac bool_hyps :=
  repeat match goal with
  | H : _ && _ = true |- _ => apply andb_true_iff in H as [??]
  | H : _ || _ = false |- _ => apply orb_false_iff in H as [??]
  | H : negb _ = true |- _ => apply negb_true_iff in H
  | H : negb _ = false |- _ => apply negb_false_iff in H
  | H : (_ =? _) = true |- _ => apply Z.eqb_eq in H
  | H : (_ =? _) = false |- _ => apply Z.eqb_neq in H
  | H : (_ <? _) = true |- _ => apply Z.ltb_lt in H
  | H : (_ <? _) = false |- _ => apply Z.ltb_ge in H
  | H : (_ <=? _) = true |- _ => apply Z.leb_le in H
  | H : (_ <=? _) = false |- _ => apply Z.leb_gt in H
  | H : (_ =? _)%nat = true |- _ => apply Nat.eqb_eq in H
  | H : (_ =? _)%nat = false |- _ => apply Nat.eqb_neq in H
  | H : (_ <? _)%nat = true |- _ => apply Nat.ltb_lt in H
  | H : (_ <? _)%nat = false |- _ => apply Nat.ltb_ge in H
  | H : (_ <=? _)%nat = true |- _ => apply Nat.leb_le in H
  | H : (_ <=? _)%nat = false |- _ => apply Nat.leb_gt in H
  end.

(** Splits every match of the context and closes the contradictory cases. *)
Ltac destr_all := repeat (destr; simplify_eq/=); bool_hyps.

Create HintDb histar discriminated.

(** ** Width lemmas *)

Lemma u64_range z : is_u64 (u64 z).
Proof. apply Z.mod_pos_bound. lia. Qed.

Lemma u32_range z : is_u32 (u32 z).
Proof. apply Z.mod_pos_bound. lia. Qed.

Lemma u64_small z : is_u64 z -> u64 z = z.
Proof. unfold is_u64, u64. intros. by apply Z.mod_small. Qed.

Lemma u32_small z : is_u32 z -> u32 z = z.
Proof. unfold is_u32, u32. intros. by apply Z.mod_small. Qed.

Lemma u64_idemp z : u64 (u64 z) = u64 z.
Proof. apply u64_small, u64_range. Qed.

Lemma u64_add_l a b : u64 (u64 a + b) = u64 (a + b).
Proof. unfold u64. by rewrite Zplus_mod_idemp_l. Qed.

Lemma u64_add_r a b : u64 (a + u64 b) = u64 (a + b).
Proof. unfold u64. by rewrite Zplus_mod_idemp_r. Qed.

Lemma u64_sub_l a b : u64 (u64 a - b) = u64 (a - b).
Proof. unfold u64. by rewrite Zminus_mod_idemp_l. Qed.

Lemma u64_sub_r a b : u64 (a - u64 b) = u64 (a - b).
Proof. unfold u64. by rewrite Zminus_mod_idemp_r. Qed.

#[export] Hint Resolve u64_range u32_range : histar.

(** ** Bit fields: [a] below bit [n], [b] from bit [n] up *)

Lemma lor_shiftl_add a b n :
  0 <= n -> 0 <= a < 2 ^ n -> Z.lor a (Z.shiftl b n) = a + b * 2 ^ n.
Proof.
  intros Hn Ha. rewrite <- Z.shiftl_mul_pow2 by lia.
  rewrite <- Z.lxor_lor.
  - symmetry. apply Z.add_nocarry_lxor.
    apply Z.bits_inj'. intros i Hi. rewrite Z.land_spec, Z.bits_0.
    destruct (decide (i < n)).
    + by rewrite (Z.shiftl_spec_low b n i) by lia; rewrite andb_false_r.
    + rewrite <- (Z.mod_small a (2 ^ n)) by lia.
      by rewrite Z.mod_pow2_bits_high by lia.
  - apply Z.bits_inj'. intros i Hi. rewrite Z.land_spec, Z.bits_0.
    destruct (decide (i < n)).
    + by rewrite (Z.shiftl_spec_low b n i) by lia; rewrite andb_false_r.
    + rewrite <- (Z.mod_small a (2 ^ n)) by lia.
      by rewrite Z.mod_pow2_bits_high by lia.
Qed.

Lemma land_ones_mod a n : 0 <= n -> Z.land a (2 ^ n - 1) = a mod 2 ^ n.
Proof. intros. rewrite <- Z.land_ones by lia. by rewrite Z.ones_equiv, Z.sub_1_r. Qed.

Lemma add_mul_mod a b n : 0 <= a < 2 ^ n -> (a + b * 2 ^ n) mod 2 ^ n = a.
Proof. intros. rewrite Z.mod_add by lia. by apply Z.mod_small. Qed.

Lemma add_mul_div a b n : 0 <= a < 2 ^ n -> (a + b * 2 ^ n) / 2 ^ n = b.
Proof. intros. rewrite Z.div_add by lia. rewrite Z.div_small by lia. lia. Qed.

(** ** Arrays split into pages of [n] entries *)

Lemma div_mod_step i n :
  (0 < n <= i)%nat -> (i / n = S ((i - n) / n) /\ i mod n = (i - n) mod n)%nat.
Proof.
  intros. assert (Hi : i = (i - n + 1 * n)%nat) by lia. rewrite Hi at 1 3.
  rewrite Nat.div_add, Nat.Div0.mod_add by lia. lia.
Qed.

Lemma concat_lookup_uniform {A} (n : nat) (ls : list (list A)) i :
  (0 < n)%nat -> Forall (fun p => length p = n) ls ->
  concat ls !! i = (p ← ls !! (i / n)%nat; p !! (i mod n)%nat).
Proof.
  intros Hn Hls. revert i. induction Hls as [|p ls Hp Hls IH]; intros i; [done|].
  simpl. destruct (decide (i < n)%nat).
  - rewrite lookup_app_l by lia. rewrite Nat.div_small, Nat.mod_small by lia. done.
  - rewrite lookup_app_r by lia. rewrite IH, Hp.
    destruct (div_mod_step i n) as [-> ->]; [lia|]. done.
Qed.

Lemma concat_insert_uniform {A} (n : nat) (ls : list (list A)) i v :
  (0 < n)%nat -> Forall (fun p => length p = n) ls ->
  concat (alter (fun p => <[(i mod n)%nat := v]> p) (i / n)%nat ls) = <[i := v]> (concat ls).
Proof.
  intros Hn Hls. revert i. induction Hls as [|p ls Hp Hls IH]; intros i; [done|].
  simpl. destruct (decide (i < n)%nat).
  - rewrite Nat.div_small, Nat.mod_small by lia. simpl. by rewrite insert_app_l by lia.
  - rewrite insert_app_r_alt by lia. rewrite <- IH, Hp.
    destruct (div_mod_step i n) as [-> ->]; [lia|]. done.
Qed.

Lemma length_concat_uniform {A} (n : nat) (ls : list (list A)) :
  Forall (fun p => length p = n) ls -> length (concat ls) = (length ls * n)%nat.
Proof. induction 1; simpl; [done|]. rewrite length_app. lia. Qed.
