(* ===== verification/Label.v ===== *)
(** * Labels ([kern/kern/label.c], [kern/kern/label.h], [inc/label.h])

    A label maps every category handle to a taint level: a default level and
    an array of explicit entries, each a 64-bit word holding a 61-bit handle
    and a 3-bit level.  The first 32 entries are inline in the object, the
    others in the pages of the label object.  This file models the level
    comparators, the slot accessors and every label operation, and proves
    that the arrays implement functions from handles to levels, ordered
    pointwise. *)

From S2P Require Import Prelude.
From stdpp Require Import options.
Set Default Goal Selector "!".

(** ** Levels *)

Definition LB_LEVEL_STAR : Z := 4.
Definition LB_LEVEL_UNDEF : Z := 5.

Definition LB_HANDLE (ent : Z) : Z := Z.land ent 0x1fffffffffffffff.
Definition LB_LEVEL (ent : Z) : Z := u8 (Z.shiftr ent 61).
Definition LB_CODE (h level : Z) : Z := Z.lor h (u64 (Z.shiftl level 61)).

(** The two comparators: [*] is below every level, or above every level. *)
Inductive level_comparator := label_leq_starlo | label_leq_starhi.

#[export] Instance level_comparator_eq_dec : EqDecision level_comparator.
Proof. solve_decision. Defined.

Definition label_leq_starlo_fn (a b : Z) : Z :=
  if a =? LB_LEVEL_STAR then 0
  else if b =? LB_LEVEL_STAR then - E_LABEL
  else if a <=? b then 0 else - E_LABEL.

Definition label_leq_starhi_fn (a b : Z) : Z :=
  if b =? LB_LEVEL_STAR then 0
  else if a =? LB_LEVEL_STAR then - E_LABEL
  else if a <=? b then 0 else - E_LABEL.

(** [.gen] of the two [level_comparator_buf]s. *)
Definition comparator_gen (c : level_comparator) : Z -> Z -> Z :=
  match c with
  | label_leq_starlo => label_leq_starlo_fn
  | label_leq_starhi => label_leq_starhi_fn
  end.

(** The tables [cmp] and [max], both (LB_LEVEL_STAR+1) x (LB_LEVEL_STAR+1). *)
Record level_comparator_buf := LevelComparatorBuf {
  lc_cmp : list (list Z);
  lc_max : list (list Z)
}.

Definition levels : list Z := [0; 1; 2; 3; 4].

Definition level_comparator_init (c : level_comparator) : level_comparator_buf :=
  let gen := comparator_gen c in
  {| lc_cmp := map (fun a => map (fun b => gen a b) levels) levels;
     lc_max := map (fun a => map (fun b => if gen a b =? 0 then b else a) levels) levels |}.

(** A table access, a panic (an access out of bounds) outside the table. *)
Definition level_table (t : list (list Z)) (a b : Z) : res Z :=
  if (0 <=? a) && (0 <=? b) then
    (do row <- res_nth t (Z.to_nat a); res_nth row (Z.to_nat b))%res
  else Panic.

(** ** The label object *)

Definition NUM_LB_ENT_INLINE : nat := 32.
Definition NUM_LB_ENT_PER_PAGE : nat := 512.
#[global] Arguments NUM_LB_ENT_INLINE : simpl never.
#[global] Arguments NUM_LB_ENT_PER_PAGE : simpl never.

Record Label := mkLabel {
  lb_def_level : Z;
  lb_nent : nat;
  lb_ent : list Z;          (* the inline entries *)
  lb_pages : list (list Z)  (* the pages of the object, in words *)
}.

Definition zero_label_page : list Z := replicate NUM_LB_ENT_PER_PAGE 0.

Definition label_nslots (l : Label) : nat :=
  NUM_LB_ENT_INLINE + length (lb_pages l) * NUM_LB_ENT_PER_PAGE.

(** [kobject_get_page] fails with [E_INVAL] past the last page. *)
Definition label_get_slotp_read (l : Label) (slotnum : nat) : res Z :=
  if (slotnum <? NUM_LB_ENT_INLINE)%nat then res_nth (lb_ent l) slotnum
  else
    let n := (slotnum - NUM_LB_ENT_INLINE)%nat in
    match lb_pages l !! (n / NUM_LB_ENT_PER_PAGE)%nat with
    | None => Err E_INVAL
    | Some lpg => res_nth lpg (n mod NUM_LB_ENT_PER_PAGE)
    end.

(** [label_get_slotp_write] followed by the store through the pointer: the
    entry count grows first, even when the page is missing. *)
Definition label_grow_nent (l : Label) (slotnum : nat) : Label :=
  if (lb_nent l <=? slotnum)%nat
  then {| lb_def_level := lb_def_level l; lb_nent := S slotnum;
          lb_ent := lb_ent l; lb_pages := lb_pages l |}
  else l.

Definition label_store_slot (l : Label) (slotnum : nat) (v : Z) : Label :=
  if (slotnum <? NUM_LB_ENT_INLINE)%nat
  then {| lb_def_level := lb_def_level l; lb_nent := lb_nent l;
          lb_ent := <[slotnum := v]> (lb_ent l); lb_pages := lb_pages l |}
  else
    let n := (slotnum - NUM_LB_ENT_INLINE)%nat in
    {| lb_def_level := lb_def_level l; lb_nent := lb_nent l; lb_ent := lb_ent l;
       lb_pages := alter (fun lpg => <[(n mod NUM_LB_ENT_PER_PAGE)%nat := v]> lpg)
                         (n / NUM_LB_ENT_PER_PAGE)%nat (lb_pages l) |}.

(** ** Reading a label *)

Fixpoint label_get_level_loop (l : Label) (handle : Z) (idxs : list nat) : res Z :=
  match idxs with
  | [] => Ok (lb_def_level l)
  | i :: idxs' =>
      (do ent <- res_assert (label_get_slotp_read l i);
       if negb (ent =? 0) && (LB_HANDLE ent =? handle) then Ok (LB_LEVEL ent)
       else label_get_level_loop l handle idxs')%res
  end.

Definition label_get_level (l : Label) (handle : Z) : res Z :=
  label_get_level_loop l handle (seq 0 (lb_nent l)).

(** ** Allocation and update *)

Definition label_alloc (def : Z) : Label :=
  {| lb_def_level := def; lb_nent := 0;
     lb_ent := replicate NUM_LB_ENT_INLINE 0; lb_pages := [] |}.

Definition label_copy (src : Label) : Label :=
  let dst := label_alloc LB_LEVEL_UNDEF in
  {| lb_def_level := lb_def_level src; lb_nent := lb_nent src;
     lb_ent := take NUM_LB_ENT_INLINE (lb_ent src) ++ drop NUM_LB_ENT_INLINE (lb_ent dst);
     lb_pages := lb_pages src |}.

(** The search loop of [label_set]: the first empty slot seen so far, or the
    slot that already holds the handle. *)
Fixpoint label_set_loop (l : Label) (handle : Z) (slot_idx : option nat) (idxs : list nat)
  : res (option nat) :=
  match idxs with
  | [] => Ok slot_idx
  | i :: idxs' =>
      (do ent <- res_assert (label_get_slotp_read l i);
       if (ent =? 0) && bool_decide (slot_idx = None)
       then label_set_loop l handle (Some i) idxs'
       else if negb (ent =? 0) && (LB_HANDLE ent =? handle) then Ok (Some i)
       else label_set_loop l handle slot_idx idxs')%res
  end.

(** The slot [label_set] will use, if the label has one; otherwise it must
    add a page first. *)
Definition label_set_slot (l : Label) (handle : Z) : res (option nat) :=
  (do s <- label_set_loop l handle None (seq 0 (lb_nent l));
   match s with
   | Some i => Ok (Some i)
   | None => if (lb_nent l <? label_nslots l)%nat then Ok (Some (lb_nent l)) else Ok None
   end)%res.

(** [kobject_set_nbytes(ko_nbytes + PGSIZE)] adds a page of zeroes. *)
Definition label_add_page (l : Label) : Label :=
  {| lb_def_level := lb_def_level l; lb_nent := lb_nent l; lb_ent := lb_ent l;
     lb_pages := lb_pages l ++ [zero_label_page] |}.

Definition label_set_write (l : Label) (slot : nat) (handle level : Z) : res Label :=
  let l := label_grow_nent l slot in
  (do ent <- label_get_slotp_read l slot;
   if (ent =? 0) || (LB_HANDLE ent =? handle)
   then Ok (label_store_slot l slot
              (if level =? lb_def_level l then 0 else LB_CODE handle level))
   else Panic)%res.

(** [grow n] is the return code of the [kobject_set_nbytes] that would give
    the label its page number [n]: [0], or the negated code of an exhausted
    quota or memory. *)
Definition label_set (grow : nat -> Z) (l : Label) (handle level : Z) : res Label :=
  (do s <- label_set_slot l handle;
   match s with
   | Some slot => label_set_write l slot handle level
   | None =>
       let r := grow (length (lb_pages l)) in
       if r <? 0 then Err (- r)
       else label_set_write (label_add_page l) (label_nslots l) handle level
   end)%res.

(** ** Comparison and maximum *)

(** One of the two loops of [label_compare]: [f] reads the pair of levels
    of a handle from the entry. *)
Fixpoint label_for_ents (l : Label) (f : Z -> Z -> res unit) (idxs : list nat) : res unit :=
  match idxs with
  | [] => Ok tt
  | i :: idxs' =>
      (do ent <- label_get_slotp_read l i;
       if ent =? 0 then label_for_ents l f idxs'
       else do _ <- f (LB_HANDLE ent) (LB_LEVEL ent); label_for_ents l f idxs')%res
  end.

Definition level_check (t : list (list Z)) (a b : Z) : res unit :=
  (do r <- level_table t a b; if r <? 0 then Err (- r) else Ok tt)%res.

Definition label_compare (l1 l2 : Label) (c : level_comparator) : res unit :=
  let t := lc_cmp (level_comparator_init c) in
  (do _ <- label_for_ents l1
             (fun h lv1 => do lv2 <- label_get_level l2 h; level_check t lv1 lv2)
             (seq 0 (lb_nent l1));
   do _ <- label_for_ents l2
             (fun h lv2 => do lv1 <- label_get_level l1 h; level_check t lv1 lv2)
             (seq 0 (lb_nent l2));
   level_check t (lb_def_level l1) (lb_def_level l2))%res.

(** One of the two loops of [label_max]: the entries of [src] update [dst]. *)
Fixpoint label_max_loop (grow : nat -> Z) (src : Label) (f : Z -> Z -> res Z)
  (idxs : list nat) (dst : Label) : res Label :=
  match idxs with
  | [] => Ok dst
  | i :: idxs' =>
      (do ent <- label_get_slotp_read src i;
       if ent =? 0 then label_max_loop grow src f idxs' dst
       else do lv <- f (LB_HANDLE ent) (LB_LEVEL ent);
            do dst' <- label_set grow dst (LB_HANDLE ent) lv;
            label_max_loop grow src f idxs' dst')%res
  end.

Definition label_max (grow : nat -> Z) (a b : Label) (leq : level_comparator) : res Label :=
  let t := lc_max (level_comparator_init leq) in
  (do def <- level_table t (lb_def_level a) (lb_def_level b);
   do dst <- label_max_loop grow a
               (fun h alv => do blv <- label_get_level b h; level_table t alv blv)
               (seq 0 (lb_nent a)) (label_alloc def);
   label_max_loop grow b
     (fun h blv => do alv <- label_get_level a h; level_table t alv blv)
     (seq 0 (lb_nent b)) dst)%res.

(** ** User labels *)

(** The fields of [struct ulabel] that the kernel reads and writes, with the
    array [ul_ent] of [ul_size] words. *)
Record ulabel := mkUlabel {
  ul_size : nat;
  ul_nent : nat;
  ul_default : Z;
  ul_needed : nat;
  ul_ent : list Z
}.

Fixpoint label_to_ulabel_loop (l : Label) (ul_size : nat) (idxs : list nat)
  (ents : list Z) (slot overflow : nat) : res (list Z * nat * nat) :=
  match idxs with
  | [] => Ok (ents, slot, overflow)
  | i :: idxs' =>
      (do ent <- label_get_slotp_read l i;
       if ent =? 0 then label_to_ulabel_loop l ul_size idxs' ents slot overflow
       else if (slot <? ul_size)%nat
       then label_to_ulabel_loop l ul_size idxs' (<[slot := ent]> ents) (S slot) overflow
       else label_to_ulabel_loop l ul_size idxs' ents slot (S overflow))%res
  end.

(** The user memory at [ul] after the call and the code of the call; the user
    access checks of the arguments are those of the caller. *)
Definition label_to_ulabel (l : Label) (ul : ulabel) : res (ulabel * Z) :=
  (do (ents, slot, overflow) <-
       label_to_ulabel_loop l (ul_size ul) (seq 0 (lb_nent l)) (ul_ent ul) 0 0;
   Ok ({| ul_size := ul_size ul; ul_nent := slot; ul_default := lb_def_level l;
          ul_needed := overflow; ul_ent := ents |},
       if (overflow =? 0)%nat then 0 else - E_NO_SPACE))%res.

Fixpoint ulabel_to_label_loop (grow : nat -> Z) (ents : list Z) (idxs : list nat) (l : Label)
  : res Label :=
  match idxs with
  | [] => Ok l
  | i :: idxs' =>
      (do ul_val <- res_nth ents i;
       let level := LB_LEVEL ul_val in
       if LB_LEVEL_STAR <? level then Err E_INVAL
       else do l' <- label_set grow l (LB_HANDLE ul_val) level;
            ulabel_to_label_loop grow ents idxs' l')%res
  end.

Definition ulabel_to_label (grow : nat -> Z) (ul : ulabel) : res Label :=
  if LB_LEVEL_STAR <? ul_default ul then Err E_INVAL
  else ulabel_to_label_loop grow (ul_ent ul) (seq 0 (ul_nent ul)) (label_alloc (ul_default ul)).

(** * Theory *)

(** ** The bit layout of an entry *)

Definition is_handle (h : Z) : Prop := 0 <= h < 2 ^ 61.
Definition is_level (lv : Z) : Prop := 0 <= lv <= LB_LEVEL_STAR.

Lemma LB_HANDLE_mod e : LB_HANDLE e = e mod 2 ^ 61.
Proof. apply (land_ones_mod e 61). lia. Qed.

Lemma LB_HANDLE_range e : is_handle (LB_HANDLE e).
Proof. rewrite LB_HANDLE_mod. apply Z.mod_pos_bound. lia. Qed.

Lemma LB_LEVEL_div e : is_u64 e -> LB_LEVEL e = e / 2 ^ 61.
Proof.
  intros He. unfold LB_LEVEL, u8. rewrite Z.shiftr_div_pow2 by lia.
  apply Z.mod_small. unfold is_u64 in He.
  assert (0 <= e / 2 ^ 61 < 2 ^ 3); [|lia]. split.
  - apply Z.div_pos; lia.
  - apply Z.div_lt_upper_bound; lia.
Qed.

Lemma LB_CODE_add h lv :
  is_handle h -> 0 <= lv < 8 -> LB_CODE h lv = h + lv * 2 ^ 61.
Proof.
  unfold is_handle. intros Hh Hlv. unfold LB_CODE.
  rewrite u64_small.
  - apply lor_shiftl_add; lia.
  - rewrite Z.shiftl_mul_pow2 by lia. unfold is_u64. lia.
Qed.

Lemma LB_CODE_spec h lv :
  is_handle h -> is_level lv ->
  is_u64 (LB_CODE h lv) /\ LB_HANDLE (LB_CODE h lv) = h /\ LB_LEVEL (LB_CODE h lv) = lv.
Proof.
  unfold is_level, LB_LEVEL_STAR. intros Hh Hlv.
  rewrite LB_CODE_add by (done || lia). unfold is_handle in Hh.
  assert (is_u64 (h + lv * 2 ^ 61)) by (unfold is_u64; lia).
  rewrite LB_HANDLE_mod, LB_LEVEL_div by done.
  rewrite add_mul_mod, add_mul_div by lia. done.
Qed.

Lemma LB_CODE_zero h lv :
  is_handle h -> is_level lv -> LB_CODE h lv = 0 <-> h = 0 /\ lv = 0.
Proof.
  unfold is_level, LB_LEVEL_STAR, is_handle. intros Hh Hlv.
  rewrite LB_CODE_add by (done || lia). lia.
Qed.

(** ** Arrays of entries as finite functions *)

Definition ent_for (h e : Z) : bool := negb (e =? 0) && (LB_HANDLE e =? h).

Fixpoint ents_find (h : Z) (ents : list Z) : option Z :=
  match ents with
  | [] => None
  | e :: es => if ent_for h e then Some (LB_LEVEL e) else ents_find h es
  end.

(** No two entries carry the same handle. *)
Definition ents_unique (ents : list Z) : Prop :=
  forall i j ei ej, ents !! i = Some ei -> ents !! j = Some ej ->
    ei <> 0 -> ej <> 0 -> LB_HANDLE ei = LB_HANDLE ej -> i = j.

Lemma ent_for_true h e : ent_for h e = true <-> e <> 0 /\ LB_HANDLE e = h.
Proof. unfold ent_for. rewrite andb_true_iff, negb_true_iff, Z.eqb_neq, Z.eqb_eq. done. Qed.

Lemma ent_for_false h e : ent_for h e = false <-> (e <> 0 -> LB_HANDLE e <> h).
Proof.
  rewrite <- not_true_iff_false, ent_for_true.
  destruct (decide (e = 0)); naive_solver.
Qed.

Lemma ents_find_None h ents :
  ents_find h ents = None <-> forall i e, ents !! i = Some e -> ent_for h e = false.
Proof.
  induction ents as [|e es IH]; simpl; [by split|].
  destruct (ent_for h e) eqn:He.
  - split; [done|]. intros H. specialize (H 0%nat e eq_refl). congruence.
  - rewrite IH. split.
    + intros H [|i] e' Hi; simpl in Hi; naive_solver.
    + intros H i e' Hi. exact (H (S i) e' Hi).
Qed.

Lemma ents_find_Some_1 h ents lv :
  ents_find h ents = Some lv ->
  exists i e, ents !! i = Some e /\ ent_for h e = true /\ LB_LEVEL e = lv.
Proof.
  induction ents as [|e es IH]; simpl; [done|].
  destruct (ent_for h e) eqn:He.
  - intros [= <-]. by exists 0%nat, e.
  - intros (i & e' & Hi & ?)%IH. by exists (S i), e'.
Qed.

Lemma ents_unique_cons e es : ents_unique (e :: es) -> ents_unique es.
Proof. intros H i j ei ej Hi Hj H1 H2 H3. specialize (H (S i) (S j) ei ej). naive_solver. Qed.

Lemma ents_find_Some_2 h ents i e :
  ents_unique ents -> ents !! i = Some e -> ent_for h e = true ->
  ents_find h ents = Some (LB_LEVEL e).
Proof.
  revert i. induction ents as [|e' es IH]; intros i Hu Hi He; [done|]. simpl.
  destruct (ent_for h e') eqn:He'.
  - apply ent_for_true in He as [??], He' as [??].
    assert (i = 0%nat) as -> by (eapply (Hu i 0%nat); eauto; congruence).
    by simplify_eq/=.
  - destruct i as [|i]; simplify_eq/=; [congruence|]. eauto using ents_unique_cons.
Qed.

(** Writing [v] over an empty slot, or over the slot of the handle. *)
Lemma ents_unique_insert h ents j e0 v :
  ents_unique ents -> ents !! j = Some e0 ->
  e0 = 0 /\ ents_find h ents = None \/ ent_for h e0 = true ->
  v = 0 \/ ent_for h v = true ->
  ents_unique (<[j := v]> ents).
Proof.
  intros Hu Hj He0 Hv.
  assert (Hothers : forall i e, i <> j -> ents !! i = Some e -> ent_for h e = false).
  { intros i e Hne Hi. destruct He0 as [[-> Hn]|He0].
    - eapply ents_find_None; eauto.
    - apply ent_for_false. intros ? Hh. apply ent_for_true in He0 as [??].
      apply Hne. eapply Hu; eauto. congruence. }
  intros a b ea eb. rewrite !list_lookup_insert_Some.
  intros [(->&<-&_)|[Hja Ha]] [(->&<-&_)|[Hjb Hb]] Ha0 Hb0 Heq; try done.
  - exfalso. destruct Hv as [?|Hv]; [done|]. apply ent_for_true in Hv as [_ Hv].
    specialize (Hothers b eb). rewrite ent_for_false in Hothers. naive_solver.
  - exfalso. destruct Hv as [?|Hv]; [done|]. apply ent_for_true in Hv as [_ Hv].
    specialize (Hothers a ea). rewrite ent_for_false in Hothers. naive_solver.
  - by eapply Hu.
Qed.

Lemma ents_find_insert_ne h h' ents j e0 v :
  ents !! j = Some e0 -> h' <> h ->
  e0 = 0 \/ ent_for h e0 = true -> v = 0 \/ ent_for h v = true ->
  ents_find h' (<[j := v]> ents) = ents_find h' ents.
Proof.
  assert (Hno : forall e, h' <> h -> e = 0 \/ ent_for h e = true -> ent_for h' e = false).
  { intros e ? [->|He]; [done|]. apply ent_for_true in He as [_ He].
    apply ent_for_false. congruence. }
  revert j. induction ents as [|e es IH]; intros j Hj Hne He0 Hv; [done|].
  destruct j as [|j]; simplify_eq/=.
  - rewrite !Hno by done. done.
  - by rewrite IH.
Qed.

Lemma ents_find_insert_eq h ents j e0 v :
  ents_unique ents -> ents !! j = Some e0 ->
  e0 = 0 /\ ents_find h ents = None \/ ent_for h e0 = true ->
  v = 0 \/ ent_for h v = true ->
  ents_find h (<[j := v]> ents) = if v =? 0 then None else Some (LB_LEVEL v).
Proof.
  intros Hu Hj He0 Hv. pose proof (ents_unique_insert h ents j e0 v Hu Hj He0 Hv) as Hu'.
  assert (Hlt := lookup_lt_Some _ _ _ Hj).
  destruct (Z.eqb_spec v 0) as [->|Hne].
  - apply ents_find_None. intros i e. rewrite list_lookup_insert_Some.
    intros [(->&<-&_)|[Hji Hi]]; [done|].
    destruct He0 as [[-> Hn]|He0]; [by eapply ents_find_None|].
    apply ent_for_false. intros ? Hh. apply ent_for_true in He0 as [??].
    apply Hji. eapply (Hu j i); eauto. congruence.
  - destruct Hv as [?|Hv]; [done|]. eapply (ents_find_Some_2 h _ j v); eauto.
    by apply list_lookup_insert_eq.
Qed.

Lemma ents_find_zeroes h ents n : ents_find h (ents ++ replicate n 0) = ents_find h ents.
Proof.
  induction ents as [|e es IH]; simpl.
  - induction n; done.
  - by rewrite IH.
Qed.

(** ** Labels as functions from handles to levels *)

Definition label_slots (l : Label) : list Z := lb_ent l ++ concat (lb_pages l).

(** The level of a handle: what [label_get_level] computes. *)
Definition label_fun (l : Label) (h : Z) : Z :=
  default (lb_def_level l) (ents_find h (label_slots l)).

(** The shape of the arrays of a label object. *)
Record label_shape (l : Label) : Prop := {
  ls_ent : length (lb_ent l) = NUM_LB_ENT_INLINE;
  ls_pages : Forall (fun p => length p = NUM_LB_ENT_PER_PAGE) (lb_pages l);
  ls_nent : (lb_nent l <= label_nslots l)%nat
}.

Definition ent_ok (e : Z) : Prop := e = 0 \/ is_u64 e /\ is_level (LB_LEVEL e).

(** Well-formed labels: the invariant of every label operation. *)
Record label_wf (l : Label) : Prop := {
  lw_shape : label_shape l;
  lw_def : is_level (lb_def_level l);
  lw_ents : forall i e, label_slots l !! i = Some e -> ent_ok e;
  lw_unused : forall i e, label_slots l !! i = Some e -> (lb_nent l <= i)%nat -> e = 0;
  lw_unique : ents_unique (label_slots l)
}.

Lemma label_slots_length l : label_shape l -> length (label_slots l) = label_nslots l.
Proof.
  intros [H1 H2 _]. unfold label_slots, label_nslots. rewrite length_app, H1.
  by rewrite (length_concat_uniform NUM_LB_ENT_PER_PAGE).
Qed.

Lemma label_read_slot l i e :
  label_shape l -> label_slots l !! i = Some e -> label_get_slotp_read l i = Ok e.
Proof.
  intros Hs. unfold label_slots, label_get_slotp_read. destruct (Nat.ltb_spec i NUM_LB_ENT_INLINE).
  - rewrite lookup_app_l by (rewrite (ls_ent l Hs); lia). apply res_nth_lookup.
  - rewrite lookup_app_r by (rewrite (ls_ent l Hs); lia). rewrite (ls_ent l Hs).
    rewrite (concat_lookup_uniform NUM_LB_ENT_PER_PAGE) by (apply Hs || (unfold NUM_LB_ENT_PER_PAGE; lia)).
    destruct (lb_pages l !! _); simpl; [|done]. apply res_nth_lookup.
Qed.

Lemma label_slots_lookup l i :
  label_shape l -> (i < label_nslots l)%nat -> exists e, label_slots l !! i = Some e.
Proof. intros Hs Hi. apply lookup_lt_is_Some_2. by rewrite label_slots_length. Qed.

Lemma label_store_slots l i v :
  label_shape l -> label_slots (label_store_slot l i v) = <[i := v]> (label_slots l).
Proof.
  intros Hs. unfold label_slots, label_store_slot.
  destruct (Nat.ltb_spec i NUM_LB_ENT_INLINE); cbn [lb_ent lb_pages].
  - rewrite insert_app_l by (rewrite (ls_ent l Hs); lia). done.
  - rewrite insert_app_r_alt by (rewrite (ls_ent l Hs); lia). rewrite (ls_ent l Hs).
    by rewrite (concat_insert_uniform NUM_LB_ENT_PER_PAGE)
      by (apply Hs || (unfold NUM_LB_ENT_PER_PAGE; lia)).
Qed.

Lemma label_store_shape l i v : label_shape l -> label_shape (label_store_slot l i v).
Proof.
  intros [H1 H2 H3]. unfold label_store_slot. destruct (Nat.ltb_spec i NUM_LB_ENT_INLINE); split; simpl; try done.
  - by rewrite length_insert.
  - apply Forall_alter; [done|]. intros p _ Hp. by rewrite length_insert.
  - unfold label_nslots in *. simpl. by rewrite length_alter.
Qed.

Lemma label_store_fields l i v :
  lb_def_level (label_store_slot l i v) = lb_def_level l /\
  lb_nent (label_store_slot l i v) = lb_nent l.
Proof. unfold label_store_slot. by destruct (_ <? _)%nat. Qed.

Lemma label_get_level_loop_ok l h i n :
  label_shape l -> (i + n <= label_nslots l)%nat ->
  label_get_level_loop l h (seq i n) =
    Ok (default (lb_def_level l) (ents_find h (take n (drop i (label_slots l))))).
Proof.
  intros Hs. revert i. induction n as [|n IH]; intros i Hi; [done|].
  destruct (label_slots_lookup l i Hs) as [e He]; [lia|].
  simpl. rewrite (label_read_slot l i e) by done. simpl.
  rewrite (drop_S (label_slots l) e i) by done. simpl. fold (ent_for h e).
  destruct (ent_for h e); [done|]. apply IH. lia.
Qed.

(** Past the entry count all slots are empty. *)
Lemma label_slots_split l :
  label_wf l -> label_slots l =
    take (lb_nent l) (label_slots l) ++ replicate (label_nslots l - lb_nent l) 0.
Proof.
  intros [Hs _ _ Hz _]. rewrite <- (take_drop (lb_nent l) (label_slots l)) at 1. f_equal.
  apply list_eq_same_length with (label_nslots l - lb_nent l)%nat.
  - apply length_replicate.
  - rewrite length_drop, label_slots_length by done. done.
  - intros i x y Hi. rewrite lookup_drop. intros Hx [-> _]%lookup_replicate.
    eapply Hz; [done|lia].
Qed.

Lemma label_get_level_ok l h : label_wf l -> label_get_level l h = Ok (label_fun l h).
Proof.
  intros Hwf. unfold label_get_level, label_fun.
  rewrite label_get_level_loop_ok by (try apply Hwf; simpl; apply Hwf). simpl.
  rewrite drop_0. by rewrite (label_slots_split l Hwf) at 2; rewrite ents_find_zeroes.
Qed.

(** ** [label_set] *)

Lemma label_set_loop_ok l h acc i n :
  label_shape l -> (i + n <= label_nslots l)%nat ->
  exists r, label_set_loop l h acc (seq i n) = Ok r /\
    match r with
    | Some j =>
        ((acc = Some j \/ acc = None /\ (i <= j < i + n)%nat /\ label_slots l !! j = Some 0) /\
         forall k e, (i <= k < i + n)%nat -> label_slots l !! k = Some e -> ent_for h e = false) \/
        ((i <= j < i + n)%nat /\ exists e, label_slots l !! j = Some e /\ ent_for h e = true)
    | None => acc = None /\
        forall k e, (i <= k < i + n)%nat -> label_slots l !! k = Some e -> ent_for h e = false
    end.
Proof.
  intros Hs. revert i acc. induction n as [|n IH]; intros i acc Hi.
  { exists acc. split; [done|]. destruct acc; [left|]; split; auto; intros; lia. }
  destruct (label_slots_lookup l i Hs) as [e He]; [lia|].
  assert (Hcons : forall P : Z -> Prop, P e ->
    (forall k e, (S i <= k < S i + n)%nat -> label_slots l !! k = Some e -> P e) ->
    forall k e, (i <= k < i + S n)%nat -> label_slots l !! k = Some e -> P e).
  { intros P Pe HP k e' Hk Hk'. destruct (decide (k = i)) as [->|]; [congruence|].
    apply (HP k); [lia|done]. }
  simpl. rewrite (label_read_slot l i e) by done. simpl.
  destruct (Z.eqb_spec e 0) as [->|Hne]; simpl.
  - assert (H0 : ent_for h 0 = false) by done.
    destruct acc as [a|]; simpl;
      [destruct (IH (S i) (Some a)) as (r & Hr & Hspec)|destruct (IH (S i) (Some i)) as (r & Hr & Hspec)];
      try lia; exists r; (split; [done|]).
    + destruct r as [j|]; [|naive_solver].
      destruct Hspec as [[Hj Hall]|[Hj Hex]]; [left|right; split; [lia|done]].
      split; [naive_solver|]. by apply (Hcons (fun e => ent_for h e = false)).
    + destruct r as [j|]; [|naive_solver].
      destruct Hspec as [[Hj Hall]|[Hj Hex]]; [left|right; split; [lia|done]].
      split; [|by apply (Hcons (fun e => ent_for h e = false))].
      right. destruct Hj as [[= ->]|[??]]; [|done]. split; [done|]. split; [lia|done].
  - destruct (LB_HANDLE e =? h) eqn:Hh.
    + exists (Some i). split; [done|]. right. split; [lia|]. exists e. split; [done|].
      apply ent_for_true. split; [done|]. by apply Z.eqb_eq.
    + assert (ent_for h e = false) by (apply ent_for_false; intros _; by apply Z.eqb_neq).
      destruct (IH (S i) acc) as (r & Hr & Hspec); [lia|]. exists r. split; [done|].
      destruct r as [j|].
      * destruct Hspec as [[Hj Hall]|[Hj Hex]]; [left|right; split; [lia|done]].
        split; [|by apply (Hcons (fun e => ent_for h e = false))].
        destruct Hj as [?|(?&?&?)]; [by left|right]. split; [done|]. split; [lia|done].
      * destruct Hspec as [? Hall]. split; [done|]. by apply (Hcons (fun e => ent_for h e = false)).
Qed.

(** The slot that [label_set] may overwrite for [h]. *)
Definition slot_for (l : Label) (h : Z) (j : nat) : Prop :=
  exists e0, label_slots l !! j = Some e0 /\
    (e0 = 0 /\ ents_find h (label_slots l) = None \/ ent_for h e0 = true).

Lemma label_absent l h :
  label_wf l ->
  (forall k e, (0 <= k < 0 + lb_nent l)%nat -> label_slots l !! k = Some e -> ent_for h e = false) ->
  ents_find h (label_slots l) = None.
Proof.
  intros Hwf Hall. apply ents_find_None. intros k e Hk.
  destruct (decide (k < lb_nent l)%nat); [apply (Hall k); [lia|done]|].
  rewrite (lw_unused l Hwf k e) by (done || lia). done.
Qed.

Lemma label_set_slot_ok l h :
  label_wf l ->
  exists r, label_set_slot l h = Ok r /\
    match r with
    | Some j => slot_for l h j
    | None => lb_nent l = label_nslots l /\ ents_find h (label_slots l) = None
    end.
Proof.
  intros Hwf. unfold label_set_slot.
  destruct (label_set_loop_ok l h None 0 (lb_nent l)) as (r & -> & Hr);
    [apply Hwf|apply (lw_shape l Hwf)|]. simpl.
  destruct r as [j|].
  - exists (Some j). split; [done|]. destruct Hr as [[Hj Hall]|[Hj (e & He & Hf)]].
    + destruct Hj as [?|(_&_&Hj)]; [done|]. exists 0. split; [done|]. left.
      split; [done|]. by apply label_absent.
    + exists e. auto.
  - destruct Hr as [_ Hall]. apply label_absent in Hall; [|done].
    destruct (Nat.ltb_spec (lb_nent l) (label_nslots l)) as [Hlt|Hge].
    + exists (Some (lb_nent l)). split; [done|].
      destruct (label_slots_lookup l (lb_nent l)) as [e He]; [apply Hwf|done|].
      exists e. split; [done|]. left. split; [|done]. by eapply lw_unused.
    + exists None. split; [done|]. pose proof (ls_nent l (lw_shape l Hwf)). split; [lia|done].
Qed.

(** Adding a page keeps the function. *)
Lemma label_add_page_wf l :
  label_wf l -> label_wf (label_add_page l) /\
    (forall h, label_fun (label_add_page l) h = label_fun l h) /\
    label_slots (label_add_page l) = label_slots l ++ zero_label_page /\
    label_nslots (label_add_page l) = (label_nslots l + NUM_LB_ENT_PER_PAGE)%nat.
Proof.
  intros [[H1 H2 H3] Hd He Hz Hu].
  assert (Hsl : label_slots (label_add_page l) = label_slots l ++ zero_label_page).
  { unfold label_slots, label_add_page. cbn [lb_ent lb_pages]. rewrite concat_app.
    cbn [concat]. by rewrite app_nil_r, app_assoc. }
  assert (Hn : label_nslots (label_add_page l) = (label_nslots l + NUM_LB_ENT_PER_PAGE)%nat).
  { unfold label_nslots. simpl. rewrite length_app. simpl. lia. }
  assert (Hlk : forall i e, (label_slots l ++ zero_label_page) !! i = Some e ->
                            label_slots l !! i = Some e \/ e = 0).
  { intros i e. rewrite lookup_app_Some. intros [?|[_ [? _]%lookup_replicate]]; auto. }
  split_and!; [|intros h; unfold label_fun, zero_label_page in *; by rewrite Hsl, ents_find_zeroes|done|done].
  split; rewrite ?Hsl; [|done| | |].
  - split; [done| |rewrite Hn; cbn [lb_nent label_add_page]; lia].
    cbn [lb_pages label_add_page]. apply Forall_app. split; [done|].
    constructor; [|done]. apply length_replicate.
  - intros i e [?| ->]%Hlk; [eauto|by left].
  - intros i e [?| ->]%Hlk; [|done]. simpl. eauto.
  - intros i j ei ej [Hi|?]%Hlk [Hj|?]%Hlk ??; [eauto|done..].
Qed.

(** The level a handle gets; only the pair [(0, 0)] cannot be written. *)
Definition stored_level (def h level : Z) : Z :=
  if LB_CODE h level =? 0 then def else level.

Lemma stored_level_nz def h level :
  is_handle h -> is_level level -> h <> 0 -> stored_level def h level = level.
Proof.
  intros Hh Hl Hne. unfold stored_level.
  destruct (Z.eqb_spec (LB_CODE h level) 0) as [H|]; [|done].
  apply LB_CODE_zero in H; naive_solver.
Qed.

Lemma label_grow_nent_spec l j :
  label_wf l -> (j < label_nslots l)%nat ->
  label_wf (label_grow_nent l j) /\ label_slots (label_grow_nent l j) = label_slots l /\
  lb_def_level (label_grow_nent l j) = lb_def_level l /\
  (j < lb_nent (label_grow_nent l j))%nat.
Proof.
  intros Hwf Hj. unfold label_grow_nent.
  destruct (Nat.leb_spec (lb_nent l) j); [|done]. destruct Hwf as [[H1 H2 H3] Hd He Hz Hu].
  split_and!; [|done|done|simpl; lia]. split; try done.
  intros i e Hi Hle. simpl in Hle. eapply Hz; [done|lia].
Qed.

Lemma label_set_write_ok l j h level :
  label_wf l -> is_handle h -> is_level level -> slot_for l h j ->
  exists l', label_set_write l j h level = Ok l' /\ label_wf l' /\
    lb_def_level l' = lb_def_level l /\
    forall h', label_fun l' h' =
      if decide (h' = h) then stored_level (lb_def_level l) h level else label_fun l h'.
Proof.
  intros Hwf0 Hh Hlv (e0 & He0 & Hcase).
  assert (Hj : (j < label_nslots l)%nat).
  { rewrite <- label_slots_length by apply Hwf0. by eapply lookup_lt_Some. }
  unfold label_set_write.
  destruct (label_grow_nent_spec l j Hwf0 Hj) as (Hwf & Hsl & Hdef & Hjn).
  set (l1 := label_grow_nent l j) in *. rewrite <- Hsl in He0, Hcase.
  rewrite (label_read_slot l1 j e0) by (apply Hwf || done). simpl.
  assert ((e0 =? 0) || (LB_HANDLE e0 =? h) = true) as ->.
  { apply orb_true_iff. destruct Hcase as [[-> _]|Hf]; [by left|].
    apply ent_for_true in Hf as [_ ?]. right. by apply Z.eqb_eq. }
  set (v := if level =? _ then 0 else _).
  assert (Hv : v = 0 \/ ent_for h v = true).
  { subst v. destruct (_ =? lb_def_level l1); [by left|].
    destruct (decide (LB_CODE h level = 0)); [by left|right].
    apply ent_for_true. split; [done|]. by apply LB_CODE_spec. }
  destruct (label_store_fields l1 j v) as [Hfd Hfn].
  exists (label_store_slot l1 j v). split; [done|]. split_and!.
  - destruct Hwf as [Hs Hd He Hz Hu]. split.
    + by apply label_store_shape.
    + by rewrite Hfd.
    + intros i e. rewrite label_store_slots by done. rewrite list_lookup_insert_Some.
      intros [(->&<-&_)|[_ ?]]; [|eauto]. destruct (decide (v = 0)) as [|Hne]; [by left|right].
      subst v. destruct (_ =? lb_def_level l1); [done|].
      destruct (LB_CODE_spec h level) as (?&?&Hl); [done..|]. by rewrite Hl.
    + intros i e. rewrite label_store_slots, Hfn by done. rewrite list_lookup_insert_Some.
      intros [(->&<-&_)|[_ ?]]; [lia|eauto].
    + rewrite label_store_slots by done. by eapply ents_unique_insert.
  - by rewrite Hfd.
  - intros h'. unfold label_fun. rewrite Hfd, label_store_slots by apply Hwf.
    destruct (decide (h' = h)) as [->|Hne].
    + rewrite (ents_find_insert_eq h _ j e0 v) by (apply Hwf || done). rewrite <- Hdef.
      unfold stored_level, v. destruct (Z.eqb_spec level (lb_def_level l1)) as [->|].
      * by destruct (LB_CODE h _ =? 0).
      * destruct (LB_CODE_spec h level) as (?&?&Hl); [done..|].
        destruct (LB_CODE h level =? 0); simpl; [done|by rewrite Hl].
    + rewrite (ents_find_insert_ne h h' _ j e0 v), Hsl, Hdef by naive_solver. done.
Qed.

(** What [label_set] does, on every branch. *)
Lemma label_set_spec grow l h level :
  label_wf l -> is_handle h -> is_level level ->
  (exists l', label_set grow l h level = Ok l' /\ label_wf l' /\
     lb_def_level l' = lb_def_level l /\
     forall h', label_fun l' h' =
       if decide (h' = h) then stored_level (lb_def_level l) h level else label_fun l h') \/
  (exists r, r < 0 /\ grow (length (lb_pages l)) = r /\ lb_nent l = label_nslots l /\
     ents_find h (label_slots l) = None /\ label_set grow l h level = Err (- r)).
Proof.
  intros Hwf Hh Hlv. unfold label_set.
  destruct (label_set_slot_ok l h Hwf) as (r & -> & Hr). simpl. destruct r as [j|].
  - left. by apply label_set_write_ok.
  - destruct Hr as [Hn Habs]. destruct (Z.ltb_spec (grow (length (lb_pages l))) 0) as [Hg|Hg].
    + right. by exists (grow (length (lb_pages l))).
    + left. destruct (label_add_page_wf l Hwf) as (Hwf' & Hf & Hsl & Hns).
      destruct (label_set_write_ok (label_add_page l) (label_nslots l) h level)
        as (l' & ? & ? & ? & Hf'); [done..| |].
      { exists 0. rewrite Hsl. unfold zero_label_page. split; [|left; split; [done|by rewrite ents_find_zeroes]].
        rewrite lookup_app_r by (rewrite label_slots_length by apply Hwf; lia).
        rewrite label_slots_length, Nat.sub_diag by apply Hwf. done. }
      exists l'. split_and!; try done. intros h'. rewrite Hf'. by rewrite Hf.
Qed.
