(* ===== verification/LabelOrder.v ===== *)
(** * The order on labels: [label_compare], [label_max] and user labels

    Functional correctness of the label operations of [Label]: comparison is
    the pointwise order of the label functions, maximum is the pointwise
    least upper bound, and the user representation round-trips. *)

From S2P Require Import Prelude Label.
From stdpp Require Import options.
Set Default Goal Selector "!".

(** ** The two orders on levels *)

Definition level_leq (c : level_comparator) (a b : Z) : Prop := comparator_gen c a b = 0.

#[export] Instance level_leq_dec c a b : Decision (level_leq c a b).
Proof. apply Z.eq_dec. Defined.

Definition level_max (c : level_comparator) (a b : Z) : Z :=
  if decide (level_leq c a b) then b else a.

Lemma is_level_cases (P : Z -> Prop) :
  P 0 -> P 1 -> P 2 -> P 3 -> P 4 -> forall a, is_level a -> P a.
Proof.
  intros ????? a Ha. unfold is_level, LB_LEVEL_STAR in Ha.
  assert (a = 0 \/ a = 1 \/ a = 2 \/ a = 3 \/ a = 4) as [->|[->|[->|[->| ->]]]] by lia; done.
Qed.

(** Case analysis on every level of the goal. *)
Ltac level_cases :=
  repeat match goal with
  | H : is_level ?a |- _ => revert a H; refine (is_level_cases _ _ _ _ _ _); intros
  end.

Lemma level_cmp_table c a b :
  is_level a -> is_level b ->
  level_table (lc_cmp (level_comparator_init c)) a b = Ok (comparator_gen c a b).
Proof. intros. destruct c; level_cases; reflexivity. Qed.

Lemma level_max_table c a b :
  is_level a -> is_level b ->
  level_table (lc_max (level_comparator_init c)) a b = Ok (level_max c a b).
Proof. intros. destruct c; level_cases; reflexivity. Qed.

Lemma comparator_gen_codes c a b : comparator_gen c a b = 0 \/ comparator_gen c a b = - E_LABEL.
Proof.
  destruct c; simpl; unfold label_leq_starlo_fn, label_leq_starhi_fn; repeat destr; auto.
Qed.

Lemma level_check_spec c a b :
  is_level a -> is_level b ->
  level_check (lc_cmp (level_comparator_init c)) a b =
    if decide (level_leq c a b) then Ok tt else Err E_LABEL.
Proof.
  intros. unfold level_check. rewrite level_cmp_table by done. simpl.
  case_decide as H'; unfold level_leq in H'; [by rewrite H'|].
  destruct (comparator_gen_codes c a b) as [Hc|Hc]; [done|by rewrite Hc].
Qed.

Lemma level_leq_refl c a : level_leq c a a.
Proof.
  unfold level_leq. destruct c; simpl; unfold label_leq_starlo_fn, label_leq_starhi_fn;
    rewrite ?Z.leb_refl; by destruct (a =? _).
Qed.

Lemma level_leq_trans c x y z : level_leq c x y -> level_leq c y z -> level_leq c x z.
Proof.
  unfold level_leq, LB_LEVEL_STAR.
  destruct c; simpl; unfold label_leq_starlo_fn, label_leq_starhi_fn, LB_LEVEL_STAR, E_LABEL;
    repeat destr; bool_hyps; try lia.
Qed.

Lemma level_leq_antisym c x y :
  is_level x -> is_level y -> level_leq c x y -> level_leq c y x -> x = y.
Proof.
  unfold level_leq, is_level, LB_LEVEL_STAR.
  destruct c; simpl; unfold label_leq_starlo_fn, label_leq_starhi_fn, LB_LEVEL_STAR, E_LABEL;
    repeat destr; bool_hyps; lia.
Qed.

Lemma level_max_level c a b : is_level a -> is_level b -> is_level (level_max c a b).
Proof. unfold level_max. by case_decide. Qed.

Lemma level_max_same c a : level_max c a a = a.
Proof. unfold level_max. by case_decide. Qed.

Lemma level_leq_total c a b :
  is_level a -> is_level b -> level_leq c a b \/ level_leq c b a.
Proof. unfold level_leq. intros. destruct c; level_cases; first [by left|by right]. Qed.

Lemma level_max_lub c a b z :
  is_level a -> is_level b -> level_leq c (level_max c a b) z <-> level_leq c a z /\ level_leq c b z.
Proof.
  intros Ha Hb. unfold level_max. case_decide as H.
  - split; [|naive_solver]. intros Hz. split; [|done]. by eapply level_leq_trans.
  - split; [|naive_solver]. intros Hz. split; [done|].
    destruct (level_leq_total c a b Ha Hb); [done|]. by eapply level_leq_trans.
Qed.

(** ** Labels as functions *)

Lemma ent_level l i e : label_wf l -> label_slots l !! i = Some e -> e <> 0 -> is_level (LB_LEVEL e).
Proof. intros Hwf Hi Hne. destruct (lw_ents l Hwf i e Hi) as [?|[_ ?]]; done. Qed.

Lemma label_fun_level l h : label_wf l -> is_level (label_fun l h).
Proof.
  intros Hwf. unfold label_fun. destruct (ents_find h (label_slots l)) eqn:Hf; simpl; [|apply Hwf].
  apply ents_find_Some_1 in Hf as (i & e & Hi & He & <-). apply ent_for_true in He as [??].
  by eapply ent_level.
Qed.

Lemma label_fun_ent l i e :
  label_wf l -> label_slots l !! i = Some e -> e <> 0 -> label_fun l (LB_HANDLE e) = LB_LEVEL e.
Proof.
  intros Hwf Hi Hne. unfold label_fun.
  rewrite (ents_find_Some_2 (LB_HANDLE e) (label_slots l) i e); [done|apply Hwf|done|].
  by apply ent_for_true.
Qed.

Definition label_le (c : level_comparator) (l1 l2 : Label) : Prop :=
  forall h, is_handle h -> level_leq c (label_fun l1 h) (label_fun l2 h).

Definition label_equiv (l1 l2 : Label) : Prop :=
  forall h, is_handle h -> label_fun l1 h = label_fun l2 h.

#[export] Instance label_equiv_equivalence : Equivalence label_equiv.
Proof.
  split.
  - by intros l h _.
  - intros l1 l2 H h Hh. symmetry. by apply H.
  - intros l1 l2 l3 H1 H2 h Hh. by rewrite H1, H2.
Qed.

#[export] Instance label_le_proper c :
  Proper (label_equiv ==> label_equiv ==> iff) (label_le c).
Proof.
  intros l1 l1' H1 l2 l2' H2. split; intros H h Hh.
  - rewrite <- H1, <- H2 by done. by apply H.
  - rewrite H1, H2 by done. by apply H.
Qed.

#[export] Instance label_le_preorder c : PreOrder (label_le c).
Proof.
  split.
  - intros l h _. apply level_leq_refl.
  - intros l1 l2 l3 H1 H2 h Hh. eapply level_leq_trans; eauto.
Qed.

(** ** A handle outside a finite list *)

Lemma fresh_handle (hs : list Z) : exists h, 0 <= h <= Z.of_nat (length hs) /\ h ∉ hs.
Proof.
  destruct (decide (Exists (fun h => h ∉ hs) (seqZ 0 (Z.of_nat (S (length hs)))))) as [H|H].
  - apply Exists_exists in H as (h & Hin & Hh). exists h. split; [|done].
    apply list_elem_of_In, elem_of_seqZ in Hin. lia.
  - exfalso. assert (Hsub : forall x, x ∈ seqZ 0 (Z.of_nat (S (length hs))) -> x ∈ hs).
    { intros x Hx. destruct (decide (x ∈ hs)); [done|]. exfalso.
      apply H, Exists_exists. exists x. by rewrite <- list_elem_of_In. }
    assert (Hlen := submseteq_length _ _ (NoDup_submseteq _ hs (NoDup_seqZ 0 (Z.of_nat (S (length hs)))) Hsub)).
    rewrite length_seqZ in Hlen. lia.
Qed.

(** A handle without an explicit entry in either label. *)
Lemma fresh_label_handle l1 l2 :
  label_shape l1 -> label_shape l2 -> Z.of_nat (label_nslots l1 + label_nslots l2) < 2 ^ 61 ->
  exists h, is_handle h /\ label_fun l1 h = lb_def_level l1 /\ label_fun l2 h = lb_def_level l2.
Proof.
  intros H1 H2 Hn.
  destruct (fresh_handle (map LB_HANDLE (label_slots l1 ++ label_slots l2))) as (h & Hh & Hnin).
  rewrite length_map, length_app, !label_slots_length in Hh by done.
  exists h. split; [unfold is_handle; lia|].
  assert (Hnone : forall i e, (label_slots l1 ++ label_slots l2) !! i = Some e -> ent_for h e = false).
  { intros i e Hi. apply ent_for_false. intros _ <-. apply Hnin.
    apply list_elem_of_fmap. exists e. split; [done|]. by eapply list_elem_of_lookup_2. }
  unfold label_fun. split; (replace (ents_find h _) with (@None Z); [done|]); symmetry;
    apply ents_find_None; intros i e Hi.
  - apply (Hnone i). by apply lookup_app_l_Some.
  - apply (Hnone (length (label_slots l1) + i)%nat). rewrite lookup_app_r by lia.
    by replace (length (label_slots l1) + i - length (label_slots l1))%nat with i by lia.
Qed.

(** ** [label_compare] *)

(** A loop over the entries whose body succeeds or fails with [E]. *)
Lemma label_for_ents_spec l f E i n :
  label_shape l -> (i + n <= label_nslots l)%nat ->
  (forall k e, label_slots l !! k = Some e -> e <> 0 ->
     f (LB_HANDLE e) (LB_LEVEL e) = Ok tt \/ f (LB_HANDLE e) (LB_LEVEL e) = Err E) ->
  label_for_ents l f (seq i n) = Ok tt /\
    (forall k e, (i <= k < i + n)%nat -> label_slots l !! k = Some e -> e <> 0 ->
       f (LB_HANDLE e) (LB_LEVEL e) = Ok tt) \/
  label_for_ents l f (seq i n) = Err E /\
    exists k e, label_slots l !! k = Some e /\ e <> 0 /\ f (LB_HANDLE e) (LB_LEVEL e) = Err E.
Proof.
  intros Hs. revert i. induction n as [|n IH]; intros i Hi Hf.
  { left. split; [done|]. intros. lia. }
  destruct (label_slots_lookup l i Hs) as [e He]; [lia|].
  simpl. rewrite (label_read_slot l i e) by done. simpl.
  specialize (IH (S i) ltac:(lia) Hf).
  destruct (Z.eqb_spec e 0) as [->|Hne].
  - destruct IH as [[? Hall]|?]; [left|by right]. split; [done|].
    intros k e' Hk Hk' Hne. destruct (decide (k = i)) as [->|]; [congruence|].
    apply (Hall k); [lia|done..].
  - destruct (Hf i e He Hne) as [Hok|Herr]; rewrite ?Hok, ?Herr; simpl.
    + destruct IH as [[? Hall]|?]; [left|by right]. split; [done|].
      intros k e' Hk Hk' Hne'. destruct (decide (k = i)) as [->|]; [congruence|].
      apply (Hall k); [lia|done..].
    + right. split; [done|]. eauto.
Qed.

Lemma seq_all_entries l k e :
  label_wf l -> label_slots l !! k = Some e -> e <> 0 -> (0 <= k < 0 + lb_nent l)%nat.
Proof.
  intros Hwf Hk Hne. destruct (decide (k < lb_nent l)%nat); [lia|].
  exfalso. apply Hne. eapply (lw_unused l Hwf); [done|lia].
Qed.

Lemma label_compare_spec l1 l2 c :
  label_wf l1 -> label_wf l2 -> Z.of_nat (label_nslots l1 + label_nslots l2) < 2 ^ 61 ->
  label_compare l1 l2 c = Ok tt /\ label_le c l1 l2 \/
  label_compare l1 l2 c = Err E_LABEL /\
    exists h, is_handle h /\ ~ level_leq c (label_fun l1 h) (label_fun l2 h).
Proof.
  intros H1 H2 Hn. unfold label_compare. set (t := lc_cmp _).
  set (f1 := fun h lv1 => (do lv2 <- label_get_level l2 h; level_check t lv1 lv2)%res).
  set (f2 := fun h lv2 => (do lv1 <- label_get_level l1 h; level_check t lv1 lv2)%res).
  assert (Hf1 : forall k e, label_slots l1 !! k = Some e -> e <> 0 ->
    f1 (LB_HANDLE e) (LB_LEVEL e) =
      if decide (level_leq c (label_fun l1 (LB_HANDLE e)) (label_fun l2 (LB_HANDLE e)))
      then Ok tt else Err E_LABEL).
  { intros k e Hk Hne. unfold f1. rewrite label_get_level_ok by done. simpl.
    rewrite (label_fun_ent l1 k e) by done.
    apply level_check_spec; [by apply (ent_level l1 k)|by apply label_fun_level]. }
  assert (Hf2 : forall k e, label_slots l2 !! k = Some e -> e <> 0 ->
    f2 (LB_HANDLE e) (LB_LEVEL e) =
      if decide (level_leq c (label_fun l1 (LB_HANDLE e)) (label_fun l2 (LB_HANDLE e)))
      then Ok tt else Err E_LABEL).
  { intros k e Hk Hne. unfold f2. rewrite label_get_level_ok by done. simpl.
    rewrite (label_fun_ent l2 k e) by done.
    apply level_check_spec; [by apply label_fun_level|by apply (ent_level l2 k)]. }
  destruct (label_for_ents_spec l1 f1 E_LABEL 0 (lb_nent l1)) as [[-> Hall1]|[-> (k&e&Hk&Hne&Hfe)]];
    [apply H1|apply (lw_shape l1 H1)|intros; rewrite (Hf1 k) by done; case_decide; auto| |].
  2:{ right. split; [done|]. exists (LB_HANDLE e). split; [apply LB_HANDLE_range|].
      rewrite (Hf1 k) in Hfe by done. by case_decide. }
  destruct (label_for_ents_spec l2 f2 E_LABEL 0 (lb_nent l2)) as [[-> Hall2]|[-> (k&e&Hk&Hne&Hfe)]];
    [apply H2|apply (lw_shape l2 H2)|intros; rewrite (Hf2 k) by done; case_decide; auto| |].
  2:{ right. split; [done|]. exists (LB_HANDLE e). split; [apply LB_HANDLE_range|].
      rewrite (Hf2 k) in Hfe by done. by case_decide. }
  simpl. unfold t. rewrite level_check_spec by (apply H1 || apply H2). case_decide as Hd.
  - left. split; [done|]. intros h Hh.
    destruct (ents_find h (label_slots l1)) as [lv1|] eqn:Hl1.
    { apply ents_find_Some_1 in Hl1 as (k & e & Hk & [Hne <-]%ent_for_true & <-).
      specialize (Hall1 k e (seq_all_entries l1 k e H1 Hk Hne) Hk Hne).
      rewrite (Hf1 k) in Hall1 by done. by case_decide. }
    destruct (ents_find h (label_slots l2)) as [lv2|] eqn:Hl2.
    { apply ents_find_Some_1 in Hl2 as (k & e & Hk & [Hne <-]%ent_for_true & <-).
      specialize (Hall2 k e (seq_all_entries l2 k e H2 Hk Hne) Hk Hne).
      rewrite (Hf2 k) in Hall2 by done. by case_decide. }
    unfold label_fun. by rewrite Hl1, Hl2.
  - right. split; [done|].
    destruct (fresh_label_handle l1 l2) as (h & Hh & Hd1 & Hd2); [apply H1|apply H2|done|].
    exists h. split; [done|]. by rewrite Hd1, Hd2.
Qed.

(** A label whose slots are far fewer than the handles (every real label: the
    bound is 2^61 words). *)
Definition label_small (l : Label) : Prop := Z.of_nat (label_nslots l) < 2 ^ 60.

Lemma label_compare_ok_iff l1 l2 c :
  label_wf l1 -> label_wf l2 -> label_small l1 -> label_small l2 ->
  label_compare l1 l2 c = Ok tt <-> label_le c l1 l2.
Proof.
  intros H1 H2 Hs1 Hs2. unfold label_small in *.
  destruct (label_compare_spec l1 l2 c) as [[-> Hle]|[-> (h&Hh&Hnle)]]; [done|done|lia|done|].
  split; [done|]. intros Hle. by destruct (Hnle (Hle h Hh)).
Qed.

(** ** [label_max] *)

(** The handle has an entry among the slots [i .. i+n-1]. *)
Definition entry_in (l : Label) (i n : nat) (h : Z) : Prop :=
  exists k e, (i <= k < i + n)%nat /\ label_slots l !! k = Some e /\ ent_for h e = true.

Lemma entry_in_S l i n h e :
  label_slots l !! i = Some e ->
  entry_in l i (S n) h <-> ent_for h e = true \/ entry_in l (S i) n h.
Proof.
  intros He. split.
  - intros (k & e' & Hk & Hk' & Hf). destruct (decide (k = i)) as [->|].
    + left. congruence.
    + right. exists k, e'. split; [lia|done].
  - intros [Hf|(k & e' & Hk & Hk' & Hf)].
    + exists i, e. split; [lia|done].
    + exists k, e'. split; [lia|done].
Qed.

Lemma entry_in_all l h :
  label_wf l -> ~ entry_in l 0 (lb_nent l) h -> label_fun l h = lb_def_level l.
Proof.
  intros Hwf Hno. unfold label_fun. destruct (ents_find h (label_slots l)) eqn:Hf; [|done].
  exfalso. apply Hno. apply ents_find_Some_1 in Hf as (k & e & Hk & He & _).
  exists k, e. split; [|done]. eapply seq_all_entries; eauto. by apply ent_for_true in He as [??].
Qed.

Lemma entry_in_dec l i n h : entry_in l i n h \/ ~ entry_in l i n h.
Proof.
  destruct (ents_find h (take n (drop i (label_slots l)))) eqn:Hfind.
  - left. apply ents_find_Some_1 in Hfind as (k & e' & Hk & Hf' & _).
    apply lookup_take_Some in Hk as [Hk Hlt]. rewrite lookup_drop in Hk.
    exists (i + k)%nat, e'. split; [lia|done].
  - right. intros (k & e' & Hk & Hk' & Hf').
    rewrite ents_find_None in Hfind. specialize (Hfind (k - i)%nat e').
    rewrite lookup_take_lt, lookup_drop in Hfind by lia.
    replace (i + (k - i))%nat with k in Hfind by lia. rewrite Hfind in Hf'; done.
Qed.

(** The outcome of a loop that sets handle [h] to the level [g h] for every
    entry of [src]: the levels of [dst] are overridden, or a page could not
    be added. *)
Lemma label_max_loop_spec grow src f g i n dst :
  label_shape src -> (i + n <= label_nslots src)%nat -> label_wf dst ->
  (forall k e, label_slots src !! k = Some e -> e <> 0 ->
     f (LB_HANDLE e) (LB_LEVEL e) = Ok (g (LB_HANDLE e)) /\ is_level (g (LB_HANDLE e))) ->
  (exists dst', label_max_loop grow src f (seq i n) dst = Ok dst' /\ label_wf dst' /\
     lb_def_level dst' = lb_def_level dst /\
     forall h, (entry_in src i n h -> label_fun dst' h = stored_level (lb_def_level dst) h (g h)) /\
               (~ entry_in src i n h -> label_fun dst' h = label_fun dst h)) \/
  (exists k, grow k < 0 /\ label_max_loop grow src f (seq i n) dst = Err (- grow k)).
Proof.
  intros Hs. revert i dst. induction n as [|n IH]; intros i dst Hi Hwf Hf.
  { left. exists dst. split_and!; try done. intros h. split; [|done].
    intros (k & e & Hk & _). lia. }
  destruct (label_slots_lookup src i Hs) as [e He]; [lia|].
  simpl. rewrite (label_read_slot src i e) by done. simpl.
  destruct (Z.eqb_spec e 0) as [->|Hne].
  { destruct (IH (S i) dst ltac:(lia) Hwf Hf) as [(d&?&?&?&Hd)|?]; [left|by right].
    exists d. split_and!; try done. intros h. rewrite (entry_in_S _ _ _ _ _ He).
    specialize (Hd h) as [Hd1 Hd2]. split; [|naive_solver]. intros [?|?]; [done|auto]. }
  destruct (Hf i e He Hne) as [-> Hlv]. simpl.
  destruct (label_set_spec grow dst (LB_HANDLE e) (g (LB_HANDLE e)))
    as [(d1 & -> & Hwf1 & Hdef1 & Hfun1)|(r & Hr & Hg & _ & _ & ->)];
    [done|apply LB_HANDLE_range|done| |right; exists (length (lb_pages dst)); by subst]. simpl.
  destruct (IH (S i) d1 ltac:(lia) Hwf1 Hf) as [(d&?&?&Hdefd&Hd)|?]; [left|by right].
  exists d. rewrite Hdefd, Hdef1. split_and!; try done. intros h.
  rewrite (entry_in_S _ _ _ _ _ He). specialize (Hd h) as [Hd1 Hd2]. rewrite Hdef1 in Hd1.
  assert (Hdec := entry_in_dec src (S i) n h).
  split.
  - intros [Hfe|?]; [|auto]. apply ent_for_true in Hfe as [_ <-].
    destruct Hdec as [?|Hno]; [auto|]. rewrite (Hd2 Hno), Hfun1. by rewrite decide_True.
  - intros Hno. rewrite Hd2 by naive_solver. rewrite Hfun1. apply decide_False.
    intros ->. apply Hno. left. by apply ent_for_true.
Qed.

Lemma label_alloc_wf def :
  is_level def -> label_wf (label_alloc def) /\ (forall h, label_fun (label_alloc def) h = def).
Proof.
  intros Hd.
  assert (Hsl : label_slots (label_alloc def) = replicate NUM_LB_ENT_INLINE 0).
  { unfold label_slots, label_alloc. cbn [lb_ent lb_pages concat]. by rewrite app_nil_r. }
  split.
  - split; rewrite ?Hsl; [|done|..].
    + split; [done|constructor|]. unfold label_nslots. simpl. lia.
    + intros i e [-> _]%lookup_replicate. by left.
    + by intros i e [-> _]%lookup_replicate.
    + by intros i j ei ej [-> _]%lookup_replicate.
  - intros h. unfold label_fun. rewrite Hsl.
    by rewrite <- (app_nil_l (replicate _ _)), ents_find_zeroes.
Qed.

Lemma label_max_spec grow a b c :
  label_wf a -> label_wf b ->
  (exists d, label_max grow a b c = Ok d /\ label_wf d /\
     forall h, (h <> 0 \/ ents_find 0 (label_slots a) = None /\ ents_find 0 (label_slots b) = None) ->
       is_handle h -> label_fun d h = level_max c (label_fun a h) (label_fun b h)) \/
  (exists k, grow k < 0 /\ label_max grow a b c = Err (- grow k)).
Proof.
  intros Ha Hb. unfold label_max.
  set (t := lc_max (level_comparator_init c)).
  set (def := level_max c (lb_def_level a) (lb_def_level b)).
  assert (level_table t (lb_def_level a) (lb_def_level b) = Ok def) as ->
    by (apply level_max_table; [apply Ha|apply Hb]).
  cbn [res_bind].
  destruct (label_alloc_wf def) as [Hwf0 Hf0]; [apply level_max_level; [apply Ha|apply Hb]|].
  pose (g h := level_max c (label_fun a h) (label_fun b h)).
  assert (Hg : forall h, is_level (g h)) by (intros; apply level_max_level; by apply label_fun_level).
  set (fa := fun h alv => (do blv <- label_get_level b h; level_table t alv blv)%res).
  set (fb := fun h blv => (do alv <- label_get_level a h; level_table t alv blv)%res).
  destruct (label_max_loop_spec grow a fa g 0 (lb_nent a) (label_alloc def))
    as [(d1 & -> & Hwf1 & Hdef1 & Hd1)|(k & Hk & ->)];
    [apply Ha|apply (lw_shape a Ha)|done| | |right; by exists k].
  { intros k e Hk Hne. split; [|done]. unfold fa. rewrite label_get_level_ok by done. cbn [res_bind].
    unfold g. rewrite (label_fun_ent a k e) by done.
    apply level_max_table; [by apply (ent_level a k)|by apply label_fun_level]. }
  cbn [res_bind]. destruct (label_max_loop_spec grow b fb g 0 (lb_nent b) d1)
    as [(d2 & -> & Hwf2 & Hdef2 & Hd2)|(k & Hk & ->)];
    [apply Hb|apply (lw_shape b Hb)|done| | |right; by exists k].
  { intros k e Hk Hne. split; [|done]. unfold fb. rewrite label_get_level_ok by done. cbn [res_bind].
    unfold g. rewrite (label_fun_ent b k e) by done.
    apply level_max_table; [by apply label_fun_level|by apply (ent_level b k)]. }
  left. exists d2. split; [done|]. split; [done|]. intros h Hcase Hh. fold (g h).
  specialize (Hd1 h) as [Hd11 Hd12]. specialize (Hd2 h) as [Hd21 Hd22].
  assert (Hst : forall x, entry_in a 0 (lb_nent a) h \/ entry_in b 0 (lb_nent b) h ->
                          stored_level x h (g h) = g h).
  { intros x He. destruct (decide (h = 0)) as [->|]; [|by apply stored_level_nz].
    destruct Hcase as [?|[Hna Hnb]]; [done|]. exfalso.
    rewrite ents_find_None in Hna, Hnb.
    destruct He as [(k&e&_&Hk&Hf)|(k&e&_&Hk&Hf)]; [apply Hna in Hk|apply Hnb in Hk]; congruence. }
  destruct (entry_in_dec b 0 (lb_nent b) h) as [Hinb|Hninb]; [rewrite Hd21, Hst by auto; done|].
  rewrite Hd22 by done.
  destruct (entry_in_dec a 0 (lb_nent a) h) as [Hina|Hnina]; [rewrite Hd11, Hst by auto; done|].
  rewrite Hd12, Hf0 by done. unfold g. rewrite !entry_in_all by done. done.
Qed.

(** ** User labels *)

Definition nonzero (e : Z) : Prop := e <> 0.
#[export] Instance nonzero_dec e : Decision (nonzero e).
Proof. unfold nonzero. apply _. Defined.

Lemma label_to_ulabel_loop_spec l size i n ents slot ov :
  label_shape l -> (i + n <= label_nslots l)%nat -> (size <= length ents)%nat -> (slot <= size)%nat ->
  let nz := filter nonzero (take n (drop i (label_slots l))) in
  exists ents',
    label_to_ulabel_loop l size (seq i n) ents slot ov =
      Ok (ents', (slot + length nz) `min` size, ov + (length nz - (size - slot)))%nat /\
    length ents' = length ents /\
    take ((slot + length nz) `min` size) ents' = take slot ents ++ take (size - slot) nz.
Proof.
  intros Hs. revert i ents slot ov. induction n as [|n IH]; intros i ents slot ov Hi Hlen Hslot.
  { exists ents. simpl. rewrite Nat.add_0_r, Nat.min_l by lia.
    by rewrite firstn_nil, app_nil_r, Nat.add_0_r. }
  cbn [seq label_to_ulabel_loop].
  destruct (label_slots_lookup l i Hs) as [e He]; [lia|].
  rewrite (label_read_slot l i e) by done. cbn [res_bind].
  rewrite (drop_S (label_slots l) e i) by done. cbn [take]. rewrite filter_cons.
  destruct (Z.eqb_spec e 0) as [->|Hne]; [rewrite decide_False by (by intros []); apply IH; lia|].
  rewrite decide_True by done. cbn [length].
  set (nz := filter nonzero (take n (drop (S i) (label_slots l)))).
  destruct (Nat.ltb_spec slot size) as [Hlt|Hge].
  - destruct (IH (S i) (<[slot := e]> ents) (S slot) ov) as (ents' & Hr & Hl' & Ht);
      [lia|by rewrite length_insert|lia|]. fold nz in Hr, Ht.
    exists ents'. rewrite Hr. rewrite length_insert in Hl'. split_and!; [|done|].
    + do 2 f_equal; [f_equal|]; lia.
    + replace (slot + S (length nz))%nat with (S slot + length nz)%nat by lia. rewrite Ht.
      replace (size - slot)%nat with (S (size - S slot)) by lia. cbn [take].
      rewrite (take_S_r _ _ e) by (apply list_lookup_insert_eq; lia).
      rewrite take_insert_ge by lia. by rewrite <- app_assoc.
  - destruct (IH (S i) ents slot (S ov)) as (ents' & Hr & Hl' & Ht); [lia..|]. fold nz in Hr, Ht.
    exists ents'. rewrite Hr. assert (size - slot = 0)%nat as Hz by lia. rewrite Hz in Ht |- *.
    split_and!; [do 2 f_equal; [f_equal|]; lia|done|].
    rewrite (Nat.min_r _ size) by lia. rewrite (Nat.min_r _ size) in Ht by lia. done.
Qed.

(** The user label gets the entries in order; when they do not fit, the call
    fails and [ul_needed] counts the missing ones. *)
Lemma label_to_ulabel_spec l ul :
  label_wf l -> (ul_size ul <= length (ul_ent ul))%nat ->
  let nz := filter nonzero (label_slots l) in
  exists ents, label_to_ulabel l ul =
    Ok ({| ul_size := ul_size ul; ul_nent := length nz `min` ul_size ul;
           ul_default := lb_def_level l; ul_needed := length nz - ul_size ul; ul_ent := ents |},
        if (length nz <=? ul_size ul)%nat then 0 else - E_NO_SPACE) /\
    take (length nz `min` ul_size ul) ents = take (ul_size ul) nz.
Proof.
  intros Hwf Hlen nz. unfold label_to_ulabel.
  assert (Hnz : nz = filter nonzero (take (lb_nent l) (drop 0 (label_slots l)))).
  { unfold nz. rewrite (label_slots_split l Hwf) at 1. rewrite drop_0, list.filter_app.
    replace (filter nonzero (replicate (label_nslots l - lb_nent l) 0)) with (@nil Z);
      [by rewrite app_nil_r|].
    symmetry. induction (label_nslots l - lb_nent l)%nat; [done|]. simpl.
    rewrite filter_cons_False; [done|]. by intros []. }
  destruct (label_to_ulabel_loop_spec l (ul_size ul) 0 (lb_nent l) (ul_ent ul) 0 0)
    as (ents & -> & _ & Ht); [apply Hwf|apply (lw_shape l Hwf)|done|lia|].
  rewrite <- Hnz in Ht |- *. cbn [res_bind]. exists ents.
  rewrite !Nat.add_0_l, Nat.sub_0_r in *. rewrite take_0 in Ht. split; [|done].
  destruct (Nat.leb_spec (length nz) (ul_size ul)), (Nat.eqb_spec (length nz - ul_size ul) 0);
    (done || lia).
Qed.

(** Setting the levels of a list of entries, in order. *)
Fixpoint set_ents (def : Z) (f : Z -> Z) (es : list Z) : Z -> Z :=
  match es with
  | [] => f
  | e :: es' =>
      set_ents def (fun h => if decide (h = LB_HANDLE e)
                             then stored_level def (LB_HANDLE e) (LB_LEVEL e) else f h) es'
  end.

Lemma set_ents_ext def f g es h :
  (forall h, f h = g h) -> set_ents def f es h = set_ents def g es h.
Proof.
  revert f g. induction es as [|e es IH]; intros f g Hfg; simpl; [done|].
  apply IH. intros h'. by case_decide.
Qed.

Lemma LB_LEVEL_nonneg e : 0 <= LB_LEVEL e.
Proof. unfold LB_LEVEL, u8. apply Z.mod_pos_bound. lia. Qed.

Lemma ulabel_to_label_loop_spec grow ents i n l :
  label_wf l -> (i + n <= length ents)%nat ->
  (forall k, 0 <= grow k) ->
  (forall k e, (i <= k < i + n)%nat -> ents !! k = Some e -> LB_LEVEL e <= LB_LEVEL_STAR) ->
  exists l', ulabel_to_label_loop grow ents (seq i n) l = Ok l' /\ label_wf l' /\
    lb_def_level l' = lb_def_level l /\
    forall h, label_fun l' h = set_ents (lb_def_level l) (label_fun l) (take n (drop i ents)) h.
Proof.
  revert i l. induction n as [|n IH]; intros i l Hwf Hi Hg Hlv.
  { exists l. split_and!; [reflexivity|assumption|reflexivity|reflexivity]. }
  cbn [seq ulabel_to_label_loop]. destruct (lookup_lt_is_Some_2 ents i) as [e He]; [lia|].
  rewrite (res_nth_lookup _ _ _ He). cbn [res_bind].
  assert (LB_LEVEL e <= LB_LEVEL_STAR) by (apply (Hlv i); [lia|done]).
  destruct (Z.ltb_spec LB_LEVEL_STAR (LB_LEVEL e)); [lia|].
  destruct (label_set_spec grow l (LB_HANDLE e) (LB_LEVEL e))
    as [(l1 & -> & Hwf1 & Hdef1 & Hf1)|(r & Hr & Hgr & _)];
    [done|apply LB_HANDLE_range|split; [apply LB_LEVEL_nonneg|done]| |specialize (Hg (length (lb_pages l))); lia].
  cbn [res_bind]. destruct (IH (S i) l1) as (l' & ? & ? & Hd & Hf); [done|lia|done|intros k ? ?; apply Hlv; lia|].
  exists l'. split_and!; [done|done|congruence|]. intros h. rewrite Hf, Hdef1.
  rewrite (drop_S ents e i) by done. simpl. by apply set_ents_ext.
Qed.

Lemma set_ents_unique def f es h :
  ents_unique es -> (forall e, e ∈ es -> e <> 0 /\ is_u64 e) ->
  set_ents def f es h = default (f h) (ents_find h es).
Proof.
  revert f. induction es as [|e es IH]; intros f Hu Hnz; [done|]. simpl.
  destruct (Hnz e) as [Hne Hu64]; [by left|].
  rewrite IH by (eauto using ents_unique_cons; intros; apply Hnz; by right).
  destruct (ent_for h e) eqn:He.
  - apply ent_for_true in He as [_ <-]. rewrite decide_True by done.
    assert (ents_find (LB_HANDLE e) es = None) as ->.
    { apply ents_find_None. intros i e' Hi. apply ent_for_false. intros Hne' Heq.
      assert (S i = 0%nat) by (apply (Hu (S i) 0%nat e' e); done). done. }
    simpl. unfold stored_level. destruct (Z.eqb_spec (LB_CODE (LB_HANDLE e) (LB_LEVEL e)) 0) as [Hc|]; [|done].
    exfalso. apply Hne. rewrite LB_HANDLE_mod, LB_LEVEL_div in Hc by done.
    unfold is_u64 in Hu64. rewrite LB_CODE_add in Hc.
    + rewrite (Z.div_mod e (2 ^ 61)) by lia. lia.
    + apply Z.mod_pos_bound. lia.
    + split; [apply Z.div_pos; lia|apply Z.div_lt_upper_bound; lia].
  - rewrite ent_for_false in He. rewrite decide_False; [done|].
    intros ->. by apply He.
Qed.

Lemma filter_nonzero_ents es :
  ents_unique es ->
  ents_unique (filter nonzero es) /\ forall h, ents_find h (filter nonzero es) = ents_find h es.
Proof.
  induction es as [|e es IH]; [done|].
  intros Hu. destruct (IH (ents_unique_cons _ _ Hu)) as [Hu' Hf'].
  assert (Hin : forall k x, filter nonzero es !! k = Some x -> exists k', es !! k' = Some x).
  { intros k x Hk. apply list_elem_of_lookup_2, list_elem_of_filter in Hk as [_ Hk].
    by apply list_elem_of_lookup in Hk. }
  rewrite filter_cons. case_decide as Hne.
  - split; [|intros h; simpl; by rewrite Hf']. intros i j ei ej Hi Hj Hei Hej Heq.
    destruct i as [|i], j as [|j]; simplify_eq/=; [done| | |f_equal; by eapply Hu'].
    + apply Hin in Hj as [k' Hk']. by specialize (Hu 0%nat (S k') ei ej eq_refl Hk' Hei Hej Heq).
    + apply Hin in Hi as [k' Hk']. by specialize (Hu (S k') 0%nat ei ej Hk' eq_refl Hei Hej Heq).
  - split; [done|]. intros h. simpl. rewrite Hf'.
    assert (e = 0) as -> by (destruct (decide (e = 0)); [done|by destruct Hne]). done.
Qed.

(** ** Properties *)

(** A label with an explicit entry, as [label_set] builds it. *)
Definition no_limit (_ : nat) : Z := 0.

Definition mk_label (def : Z) (ents : list (Z * Z)) : Label :=
  fold_left (fun l '(h, lv) => match label_set no_limit l h lv with Ok l' => l' | _ => l end)
    ents (label_alloc def).

Lemma mk_label_wf def ents :
  is_level def -> Forall (fun '(h, lv) => is_handle h /\ is_level lv) ents ->
  label_wf (mk_label def ents).
Proof.
  intros Hd Hents. unfold mk_label. pose proof (proj1 (label_alloc_wf def Hd)) as Hwf.
  revert Hwf. generalize (label_alloc def). induction Hents as [|[h lv] es [Hh Hlv] _ IH]; simpl; [done|].
  intros l Hwf. apply IH.
  destruct (label_set_spec no_limit l h lv) as [(l' & -> & ? & _)|(r & Hr & Hg & _)]; [done..|].
  unfold no_limit in Hg. lia.
Qed.

(** C8: [label_compare] decides the pointwise order of the two label
    functions over all 61-bit handles, for both comparators; whenever the
    order fails its error is [E_LABEL], and it never panics. *)
Theorem label_compare_correct l1 l2 c :
  label_wf l1 -> label_wf l2 -> label_small l1 -> label_small l2 ->
  (label_compare l1 l2 c = Ok tt <-> label_le c l1 l2) /\
  (label_compare l1 l2 c = Err E_LABEL <-> ~ label_le c l1 l2).
Proof.
  intros H1 H2 Hs1 Hs2. split; [by apply label_compare_ok_iff|]. unfold label_small in *.
  destruct (label_compare_spec l1 l2 c) as [[-> Hle]|[-> (h&Hh&Hnle)]]; [done|done|lia| |].
  - naive_solver.
  - split; [|done]. intros _ Hle. by apply Hnle, Hle.
Qed.

Lemma label_compare_correct_witness :
  label_compare (mk_label 1 [(7, 4); (9, 3)]) (mk_label 1 [(9, 3)]) label_leq_starlo = Ok tt <->
  label_le label_leq_starlo (mk_label 1 [(7, 4); (9, 3)]) (mk_label 1 [(9, 3)]).
Proof.
  apply (label_compare_correct (mk_label 1 [(7, 4); (9, 3)]) (mk_label 1 [(9, 3)]) label_leq_starlo).
  - apply mk_label_wf; [split; discriminate|repeat constructor; discriminate].
  - apply mk_label_wf; [split; discriminate|repeat constructor; discriminate].
  - vm_compute. reflexivity.
  - vm_compute. reflexivity.
Defined.

(** [label_compare] is reflexive and transitive as a test on well-formed
    labels: the label order is a preorder on the objects the kernel holds. *)
Theorem label_compare_preorder c l1 l2 l3 :
  label_wf l1 -> label_wf l2 -> label_wf l3 ->
  label_small l1 -> label_small l2 -> label_small l3 ->
  label_compare l1 l1 c = Ok tt /\
  (label_compare l1 l2 c = Ok tt -> label_compare l2 l3 c = Ok tt -> label_compare l1 l3 c = Ok tt).
Proof.
  intros H1 H2 H3 S1 S2 S3.
  rewrite !label_compare_ok_iff by done. split; [reflexivity|].
  intros. by transitivity l2.
Qed.

Lemma label_compare_preorder_witness :
  label_compare (mk_label 0 []) (mk_label 3 []) label_leq_starhi = Ok tt.
Proof.
  apply (label_compare_preorder label_leq_starhi (mk_label 0 []) (mk_label 1 [(5, 2)]) (mk_label 3 []));
    try (apply mk_label_wf; [split; discriminate|repeat constructor; discriminate]);
    vm_compute; reflexivity.
Defined.

(** C9: [label_set] stores a level for a handle and changes no other handle;
    it keeps the label well-formed, never panics, and its only failure is the
    return code of the page it needed.  There is one exception, of an entry that
    is all zeros: level 0 of handle 0 stores an empty slot, so that the handle has
    the default level. *)
Theorem label_set_correct grow l h level :
  label_wf l -> is_handle h -> is_level level ->
  match label_set grow l h level with
  | Ok l' => label_wf l' /\ label_fun l' h = (if decide (h = 0 /\ level = 0) then lb_def_level l else level) /\
             forall h', h' <> h -> label_fun l' h' = label_fun l h'
  | Err e => grow (length (lb_pages l)) = - e /\ 0 < e /\ lb_nent l = label_nslots l
  | Panic => False
  end.
Proof.
  intros Hwf Hh Hlv.
  destruct (label_set_spec grow l h level) as [(l' & -> & Hwf' & _ & Hf)|(r & Hr & Hg & Hn & _ & ->)];
    [done..| |split_and!; [lia..|done]].
  split; [done|]. split.
  - rewrite Hf, decide_True by done. unfold stored_level. case_decide as E; [destruct E as [-> ->]; done|].
    destruct (Z.eqb_spec (LB_CODE h level) 0) as [Hz|]; [|done]. apply LB_CODE_zero in Hz; naive_solver.
  - intros h' Hh'. by rewrite Hf, decide_False.
Qed.

Lemma label_set_correct_witness :
  match label_set no_limit (mk_label 1 [(9, 3)]) 7 4 with
  | Ok l' => label_fun l' 7 = 4
  | _ => False
  end.
Proof.
  pose proof (label_set_correct no_limit (mk_label 1 [(9, 3)]) 7 4) as H.
  assert (Hwf : label_wf (mk_label 1 [(9, 3)]))
    by (apply mk_label_wf; [split; discriminate|repeat constructor; discriminate]).
  specialize (H Hwf ltac:(split; [discriminate|reflexivity]) ltac:(split; discriminate)).
  vm_compute in H |- *. apply H.
Defined.

(** No entry carries handle 0, which [handle_alloc] never returns. *)
Definition no_handle0 (l : Label) : Prop := ents_find 0 (label_slots l) = None.

(** C10: [label_max] computes the least upper bound of two labels in the order
    of its comparator (for labels without handle 0), or fails with the code of
    a page it could not add. *)
Theorem label_max_lub grow a b c :
  label_wf a -> label_wf b -> no_handle0 a -> no_handle0 b ->
  match label_max grow a b c with
  | Ok d => label_wf d /\ label_le c a d /\ label_le c b d /\
            (forall z, label_le c a z -> label_le c b z -> label_le c d z)
  | Err e => exists k, grow k = - e /\ 0 < e
  | Panic => False
  end.
Proof.
  intros Ha Hb Hna Hnb.
  destruct (label_max_spec grow a b c) as [(d & -> & Hwf & Hf)|(k & Hk & ->)];
    [done..| |exists k; lia].
  assert (Hmax : forall h, is_handle h -> label_fun d h = level_max c (label_fun a h) (label_fun b h))
    by (intros; apply Hf; auto).
  assert (Hlub : forall z, label_le c d z <-> label_le c a z /\ label_le c b z).
  { intros z. unfold label_le. split.
    - intros H. split; intros h Hh; specialize (H h Hh); rewrite Hmax in H by done;
        apply level_max_lub in H; try (by apply label_fun_level); tauto.
    - intros [H1 H2] h Hh. rewrite Hmax by done.
      apply level_max_lub; [by apply label_fun_level..|auto]. }
  split; [done|]. destruct (Hlub d) as [Hub _]. destruct Hub as [??]; [reflexivity|].
  split_and!; [done..|]. intros z ??. by apply Hlub.
Qed.

Lemma label_max_lub_witness :
  exists d, label_max no_limit (mk_label 1 [(7, 4)]) (mk_label 2 [(7, 3)]) label_leq_starhi = Ok d /\
    label_fun d 7 = 4 /\ label_le label_leq_starhi (mk_label 1 [(7, 4)]) d.
Proof.
  pose proof (label_max_lub no_limit (mk_label 1 [(7, 4)]) (mk_label 2 [(7, 3)]) label_leq_starhi
    ltac:(apply mk_label_wf; [split; discriminate|repeat constructor; discriminate])
    ltac:(apply mk_label_wf; [split; discriminate|repeat constructor; discriminate])
    ltac:(vm_compute; reflexivity) ltac:(vm_compute; reflexivity)) as H.
  destruct (label_max no_limit _ _ _) as [d|e|] eqn:E; [|vm_compute in E; discriminate..].
  exists d. split; [reflexivity|]. split; [|apply H].
  vm_compute in E. injection E as <-. reflexivity.
Defined.

(** A label written out to user space by [label_to_ulabel] and read back
    by [ulabel_to_label] is the same function from handles to levels. *)
Theorem ulabel_roundtrip grow l ul :
  label_wf l -> (forall k, 0 <= grow k) ->
  (ul_size ul <= length (ul_ent ul))%nat ->
  (length (filter nonzero (label_slots l)) <= ul_size ul)%nat ->
  exists ul' l', label_to_ulabel l ul = Ok (ul', 0) /\ ulabel_to_label grow ul' = Ok l' /\
    label_wf l' /\ label_equiv l l'.
Proof.
  intros Hwf Hg Hlen Hfit. pose (nz := filter nonzero (label_slots l)). fold nz in Hfit.
  destruct (label_to_ulabel_spec l ul Hwf Hlen) as (ents & Hto & Ht). fold nz in Hto, Ht.
  assert ((length nz <=? ul_size ul)%nat = true) as Hb by (by apply Nat.leb_le). rewrite Hb in Hto.
  rewrite Nat.min_l in Hto, Ht by done. rewrite (take_ge nz) in Ht by done.
  destruct (label_alloc_wf (lb_def_level l) (lw_def l Hwf)) as [Hwf0 Hf0].
  assert (Hnz : forall e, e ∈ nz -> e <> 0 /\ is_u64 e /\ is_level (LB_LEVEL e)).
  { intros e [Hne Hin]%list_elem_of_filter. apply list_elem_of_lookup in Hin as [k Hk].
    destruct (lw_ents l Hwf k e Hk) as [?|[??]]; done. }
  assert (Hel : (length nz <= length ents)%nat).
  { rewrite <- Ht at 1. rewrite length_take. lia. }
  destruct (ulabel_to_label_loop_spec grow ents 0 (length nz) (label_alloc (lb_def_level l)))
    as (l' & Hl' & Hwf' & _ & Hf); [done|lia|done| |].
  { intros k e Hk Hke. apply Hnz. rewrite <- Ht. apply list_elem_of_lookup. exists k.
    rewrite lookup_take_lt by lia. done. }
  eexists _, l'. split; [exact Hto|]. split_and!; [|done|].
  - unfold ulabel_to_label. simpl. pose proof (lw_def l Hwf) as [_ Hd].
    destruct (Z.ltb_spec LB_LEVEL_STAR (lb_def_level l)); [lia|exact Hl'].
  - intros h _. rewrite Hf, drop_0, Ht. cbn [lb_def_level label_alloc].
    destruct (filter_nonzero_ents (label_slots l) (lw_unique l Hwf)) as [Hun Hfind].
    rewrite set_ents_unique; [|done|intros e He; by destruct (Hnz e He) as (?&?&?)].
    by rewrite Hf0, Hfind.
Qed.

Lemma ulabel_roundtrip_witness :
  exists ul' l', label_to_ulabel (mk_label 1 [(7, 4); (9, 3)])
                   {| ul_size := 4; ul_nent := 0; ul_default := 0; ul_needed := 0;
                      ul_ent := replicate 4 0 |} = Ok (ul', 0) /\
    ulabel_to_label no_limit ul' = Ok l' /\ label_wf l' /\
    label_equiv (mk_label 1 [(7, 4); (9, 3)]) l'.
Proof.
  apply (ulabel_roundtrip no_limit (mk_label 1 [(7, 4); (9, 3)])
    {| ul_size := 4; ul_nent := 0; ul_default := 0; ul_needed := 0; ul_ent := replicate 4 0 |}).
  - apply mk_label_wf; [split; discriminate|repeat constructor; discriminate].
  - intros. unfold no_limit. lia.
  - vm_compute. lia.
  - vm_compute. lia.
Defined.
