(* ===== verification/LabelCache.v ===== *)
(** * The comparison cache ([label_compare], [label_compare_id] of
    [kern/kern/label.c])

    Successful comparisons of label objects are remembered, by the ids of the
    two objects and the comparator, in a 16-entry ring.  The entries are never
    invalidated; that is sound because a label object that is referenced does
    not change and object ids are not reused. *)

From S2P Require Import Prelude Label LabelOrder.
From stdpp Require Import options.
Set Default Goal Selector "!".

Record compare_cache_ent := CompareCacheEnt {
  cc_lhs : Z;
  cc_rhs : Z;
  cc_cmp : option level_comparator  (* [None]: the null pointer of an unused entry *)
}.

#[export] Instance compare_cache_ent_eq_dec : EqDecision compare_cache_ent.
Proof. solve_decision. Defined.

Definition compare_cache_size : nat := 16.

Record compare_cache := CompareCache {
  cc_ents : list compare_cache_ent;
  cc_next : Z   (* a C int *)
}.

Definition compare_cache_init : compare_cache :=
  {| cc_ents := replicate compare_cache_size (CompareCacheEnt 0 0 None); cc_next := 0 |}.

Definition compare_cache_hit (cc : compare_cache) (lhs rhs : Z) (c : level_comparator) : bool :=
  existsb (fun e => (cc_lhs e =? lhs) && (cc_rhs e =? rhs) && bool_decide (cc_cmp e = Some c))
          (cc_ents cc).

(** The slot is [(compare_cache_next++) % compare_cache_size] on C ints: the
    remainder has the sign of the counter, and the counter wraps. *)
Definition compare_cache_insert (cc : compare_cache) (lhs rhs : Z) (c : level_comparator)
  : res compare_cache :=
  let slot := Z.rem (cc_next cc) (Z.of_nat compare_cache_size) in
  let next := i32 (cc_next cc + 1) in
  if slot <? 0 then Panic
  else Ok {| cc_ents := <[Z.to_nat slot := CompareCacheEnt lhs rhs (Some c)]> (cc_ents cc);
             cc_next := next |}.

(** [label_compare] on label objects, each an id and a label. *)
Definition label_compare_obj (cc : compare_cache) (l1 l2 : Z * Label) (c : level_comparator)
  (cacheable : bool) : res unit * compare_cache :=
  let '(lhs_id, lb1) := l1 in
  let '(rhs_id, lb2) := l2 in
  if cacheable && compare_cache_hit cc lhs_id rhs_id c then (Ok tt, cc)
  else match label_compare lb1 lb2 c with
       | Ok _ =>
           if cacheable then
             match compare_cache_insert cc lhs_id rhs_id c with
             | Ok cc' => (Ok tt, cc')
             | Err e => (Err e, cc)
             | Panic => (Panic, cc)
             end
           else (Ok tt, cc)
       | Err e => (Err e, cc)
       | Panic => (Panic, cc)
       end.

(** [get] is [kobject_get(id, kobj_label, iflow_none)]. *)
Definition label_compare_id (cc : compare_cache) (get : Z -> res Label) (l1_id l2_id : Z)
  (c : level_comparator) : res unit * compare_cache :=
  if compare_cache_hit cc l1_id l2_id c then (Ok tt, cc)
  else match get l1_id with
       | Ok l1 =>
           match get l2_id with
           | Ok l2 => label_compare_obj cc (l1_id, l1) (l2_id, l2) c true
           | Err e => (Err e, cc)
           | Panic => (Panic, cc)
           end
       | Err e => (Err e, cc)
       | Panic => (Panic, cc)
       end.

(** * Theory *)

(** A cache agrees with the label objects of a store. *)
Definition cache_sound (store : Z -> option Label) (cc : compare_cache) : Prop :=
  forall e c l1 l2, e ∈ cc_ents cc -> cc_cmp e = Some c ->
    store (cc_lhs e) = Some l1 -> store (cc_rhs e) = Some l2 -> label_compare l1 l2 c = Ok tt.

Record cache_wf (cc : compare_cache) : Prop := {
  cw_len : length (cc_ents cc) = compare_cache_size;
  cw_next : 0 <= cc_next cc < 2 ^ 31
}.

Lemma compare_cache_hit_spec cc lhs rhs c :
  compare_cache_hit cc lhs rhs c = true <-> CompareCacheEnt lhs rhs (Some c) ∈ cc_ents cc.
Proof.
  unfold compare_cache_hit. rewrite existsb_exists. split.
  - intros ([lhs' rhs' c'] & Hin & H). bool_hyps. apply bool_decide_eq_true in H0.
    simplify_eq/=. by apply list_elem_of_In.
  - intros Hin. eexists. split; [by apply list_elem_of_In|]. simpl.
    rewrite !Z.eqb_refl. by rewrite bool_decide_true.
Qed.

Lemma cache_sound_extend store store' cc :
  cache_sound store cc -> (forall id l, store' id = Some l -> store id = Some l) ->
  cache_sound store' cc.
Proof. intros Hs Hsub e c l1 l2 ????. eapply Hs; eauto. Qed.

Lemma compare_cache_insert_sound store cc cc' lhs rhs c :
  cache_sound store cc ->
  (forall l1 l2, store lhs = Some l1 -> store rhs = Some l2 -> label_compare l1 l2 c = Ok tt) ->
  compare_cache_insert cc lhs rhs c = Ok cc' -> cache_sound store cc'.
Proof.
  intros Hs Hnew. unfold compare_cache_insert. destr; [done|]. intros [= <-].
  intros e c' l1 l2 Hin Hc. simpl in Hin.
  apply list_elem_of_lookup in Hin as [i Hi]. apply list_lookup_insert_Some in Hi.
  destruct Hi as [(_&<-&_)|[_ Hi]]; simplify_eq/=; [apply Hnew|].
  eapply Hs; [by eapply list_elem_of_lookup_2|done].
Qed.

Lemma compare_cache_insert_ok cc lhs rhs c :
  cache_wf cc -> exists cc', compare_cache_insert cc lhs rhs c = Ok cc' /\
    length (cc_ents cc') = compare_cache_size /\ cc_next cc' = i32 (cc_next cc + 1).
Proof.
  intros [Hlen Hnext]. unfold compare_cache_insert.
  assert (0 <= Z.rem (cc_next cc) (Z.of_nat compare_cache_size)) by (apply Z.rem_nonneg; unfold compare_cache_size; lia).
  destruct (Z.ltb_spec (Z.rem (cc_next cc) (Z.of_nat compare_cache_size)) 0); [lia|].
  eexists. split; [done|]. simpl. by rewrite length_insert.
Qed.

(** C39: with the cache, [label_compare_id] gives the same verdict as comparing
    the two label objects afresh, and the cache stays sound. *)
Theorem label_compare_id_sound store cc c id1 id2 l1 l2 :
  cache_wf cc -> cache_sound store cc ->
  store id1 = Some l1 -> store id2 = Some l2 ->
  let get id := match store id with Some l => Ok l | None => Err E_NOT_FOUND end in
  let '(r, cc') := label_compare_id cc get id1 id2 c in
  r = label_compare l1 l2 c /\ cache_sound store cc'.
Proof.
  intros Hwf Hs H1 H2 get. unfold label_compare_id.
  destruct (compare_cache_hit cc id1 id2 c) eqn:Hhit.
  - apply compare_cache_hit_spec in Hhit. split; [|done]. symmetry. by eapply (Hs _ c l1 l2 Hhit).
  - unfold get. rewrite H1, H2. simpl. rewrite Hhit.
    destruct (label_compare l1 l2 c) as [[]| |] eqn:Hc; [|done..].
    destruct (compare_cache_insert_ok cc id1 id2 c Hwf) as (cc' & Hins & _). rewrite Hins.
    split; [done|]. eapply compare_cache_insert_sound; [exact Hs| |done]. naive_solver.
Qed.

Lemma label_compare_id_sound_witness :
  let store id := if id =? 10 then Some (mk_label 1 [(7, 4)])
                  else if id =? 11 then Some (mk_label 2 []) else None in
  let get id := match store id with Some l => Ok l | None => Err E_NOT_FOUND end in
  let '(r, cc') := label_compare_id compare_cache_init get 10 11 label_leq_starlo in
  r = label_compare (mk_label 1 [(7, 4)]) (mk_label 2 []) label_leq_starlo /\ cache_sound store cc'.
Proof.
  intros store.
  apply (label_compare_id_sound store compare_cache_init label_leq_starlo 10 11
           (mk_label 1 [(7, 4)]) (mk_label 2 [])).
  - split; [reflexivity|]. split; [discriminate|reflexivity].
  - intros e c l1 l2 Hin Hc. apply elem_of_replicate_inv in Hin as ->. discriminate Hc.
  - reflexivity.
  - reflexivity.
Defined.

(** The ring index of the cache stays within its 16 slots for the first
    2^31 insertions, and the insertion after the counter wraps to [-2^31 + 1]
    writes outside the array. *)
Theorem compare_cache_counter cc lhs rhs c :
  (cache_wf cc -> cc_next cc < 2 ^ 31 - 1 ->
   exists cc', compare_cache_insert cc lhs rhs c = Ok cc' /\ cache_wf cc' /\
     CompareCacheEnt lhs rhs (Some c) ∈ cc_ents cc') /\
  (cc_next cc = - 2 ^ 31 + 1 -> compare_cache_insert cc lhs rhs c = Panic) /\
  i32 (2 ^ 31 - 1 + 1) = - 2 ^ 31.
Proof.
  split_and!; [|unfold compare_cache_insert; by intros -> |reflexivity].
  intros Hwf Hlt. destruct (compare_cache_insert_ok cc lhs rhs c Hwf) as (cc' & Hins & Hlen & Hnext).
  exists cc'. split; [done|]. destruct Hwf as [Hlen0 Hn]. split.
  - split; [done|]. rewrite Hnext. unfold i32. rewrite u32_small by (unfold is_u32; lia).
    destruct (Z.ltb_spec (cc_next cc + 1) (2 ^ 31)); lia.
  - unfold compare_cache_insert in Hins. destr; [done|]. injection Hins as <-. simpl.
    assert (Z.rem (cc_next cc) 16 < 16) by (apply Z.rem_bound_pos; lia).
    bool_hyps. unfold compare_cache_size in *. eapply list_elem_of_lookup_2, list_lookup_insert_eq.
    rewrite Hlen0. lia.
Qed.

Lemma compare_cache_counter_witness :
  exists cc', compare_cache_insert compare_cache_init 10 11 label_leq_starlo = Ok cc' /\
    cache_wf cc' /\ CompareCacheEnt 10 11 (Some label_leq_starlo) ∈ cc_ents cc'.
Proof.
  apply (compare_cache_counter compare_cache_init 10 11 label_leq_starlo).
  - split; [reflexivity|]. split; [discriminate|reflexivity].
  - reflexivity.
Defined.
