(* ===== verification/BlowfishProofs.v ===== *)
(** * Correctness of the Blowfish variants and of handle allocation

    Deciphering inverts enciphering for the 60- and 64-bit variants; for the
    61-bit variant it recovers the 59 low bits only, which is enough for the
    handles to be distinct as long as the counter stays below 2^59. *)

From S2P Require Import Prelude Blowfish BlowfishData.
From stdpp Require Import options.
Set Default Goal Selector "!".

(** ** Exclusive or *)

Lemma lxor_cancel a b : Z.lxor (Z.lxor a b) b = a.
Proof. by rewrite Z.lxor_assoc, Z.lxor_nilpotent, Z.lxor_0_r. Qed.

Lemma lxor_swap a b c : Z.lxor (Z.lxor a b) c = Z.lxor (Z.lxor a c) b.
Proof. rewrite !Z.lxor_assoc. f_equal. apply Z.lxor_comm. Qed.

Lemma lxor_range n a b : 0 <= n -> 0 <= a < 2 ^ n -> 0 <= b < 2 ^ n -> 0 <= Z.lxor a b < 2 ^ n.
Proof.
  intros Hn Ha Hb. assert (H0 : 0 <= Z.lxor a b) by (apply Z.lxor_nonneg; lia).
  split; [done|]. destruct (decide (Z.lxor a b = 0)) as [->|Hne]; [lia|].
  apply Z.log2_lt_pow2; [lia|]. eapply Z.le_lt_trans; [apply Z.log2_lxor; lia|].
  destruct (decide (n = 0)) as [->|]; [assert (a = 0) as -> by lia; assert (b = 0) as -> by lia; done|].
  apply Z.max_lub_lt.
  - destruct (decide (a = 0)) as [->|]; [simpl; lia|]. apply Z.log2_lt_pow2; lia.
  - destruct (decide (b = 0)) as [->|]; [simpl; lia|]. apply Z.log2_lt_pow2; lia.
Qed.

Lemma mask31_mod v : mask31 v = v mod 2 ^ 31.
Proof. by apply (land_ones_mod v 31). Qed.

Lemma mask30_mod v : mask30 v = v mod 2 ^ 30.
Proof. by apply (land_ones_mod v 30). Qed.

Lemma mask30_range x : 0 <= mask30 x < 2 ^ 30.
Proof. rewrite mask30_mod. apply Z.mod_pos_bound. lia. Qed.

Lemma mask31_range x : 0 <= mask31 x < 2 ^ 31.
Proof. rewrite mask31_mod. apply Z.mod_pos_bound. lia. Qed.

(** ** The Feistel network *)

Section Feistel.
Context (mkl mkr : Z -> Z) (c : bf_ctx).

(** The last double round of [n + 1]. *)
Lemma bf_enc_rounds_snoc i n Xl Xr :
  bf_enc_rounds mkl mkr c i (S n) Xl Xr =
    let '(l, r) := bf_enc_rounds mkl mkr c i n Xl Xr in
    bf_enc_rounds mkl mkr c (i + 2 * n) 1 l r.
Proof.
  revert i Xl Xr. induction n as [|n IH]; intros i Xl Xr.
  - simpl. by rewrite Nat.add_0_r.
  - remember (S n) as m. cbn [bf_enc_rounds]. rewrite IH. subst m. cbn [bf_enc_rounds].
    destruct (bf_enc_rounds _ _ _ _ n _ _) as [l r].
    by replace (i + 2 + 2 * n)%nat with (i + 2 * S n)%nat by lia.
Qed.

(** Running the deciphering loop down from the enciphered state undoes the
    enciphering rounds, with the roles of the halves exchanged. *)
Lemma bf_dec_enc_rounds n Xl Xr l r :
  bf_enc_rounds mkl mkr c 0 n Xl Xr = (l, r) ->
  bf_dec_rounds mkr mkl c (2 * n + 1) n
    (Z.lxor r (mkr (bf_p c (2 * n + 1)))) (Z.lxor l (mkl (bf_p c (2 * n)))) =
  (Z.lxor Xr (mkr (bf_p c 1)), Z.lxor Xl (mkl (bf_p c 0))).
Proof.
  revert l r. induction n as [|n IH]; intros l r; [by intros [= <- <-]|].
  rewrite bf_enc_rounds_snoc. destruct (bf_enc_rounds mkl mkr c 0 n Xl Xr) as [l' r'].
  specialize (IH l' r' eq_refl). rewrite Nat.add_0_l. cbn [bf_enc_rounds].
  set (l1 := Z.lxor l' (mkl (bf_p c (2 * n)))).
  set (r1 := Z.lxor (Z.lxor r' (mkr (bf_F c l1))) (mkr (bf_p c (2 * n + 1)))).
  intros [= <- <-]. cbn [bf_dec_rounds].
  replace (2 * S n + 1 - 1)%nat with (2 * S n)%nat by lia.
  replace (2 * S n + 1 - 2)%nat with (2 * n + 1)%nat by lia.
  rewrite lxor_cancel, (lxor_swap (Z.lxor l1 _)), !lxor_cancel.
  rewrite <- IH. fold l1. f_equal. unfold r1. rewrite lxor_swap, lxor_cancel. done.
Qed.

(** The halves stay within their widths. *)
Lemma bf_enc_rounds_range wl wr i n Xl Xr :
  0 <= wl -> 0 <= wr ->
  (forall i, 0 <= mkl (bf_p c i) < 2 ^ wl) -> (forall i, 0 <= mkr (bf_p c i) < 2 ^ wr) ->
  (forall x, 0 <= mkl (bf_F c x) < 2 ^ wl) -> (forall x, 0 <= mkr (bf_F c x) < 2 ^ wr) ->
  0 <= Xl < 2 ^ wl -> 0 <= Xr < 2 ^ wr ->
  let '(l, r) := bf_enc_rounds mkl mkr c i n Xl Xr in 0 <= l < 2 ^ wl /\ 0 <= r < 2 ^ wr.
Proof.
  intros ??????. revert i Xl Xr. induction n as [|n IH]; intros i Xl Xr Hl Hr; [done|].
  cbn [bf_enc_rounds]. apply IH; auto using lxor_range.
Qed.
End Feistel.

(** Two halves packed in one word and unpacked. *)
Lemma pack_halves wl l r :
  0 <= wl -> 0 <= l < 2 ^ wl -> 0 <= r ->
  let v := Z.lor l (Z.shiftl r wl) in v mod 2 ^ wl = l /\ v / 2 ^ wl = r /\ v = l + r * 2 ^ wl.
Proof.
  intros Hw Hl Hr v. assert (Hv : v = l + r * 2 ^ wl) by (by apply lor_shiftl_add).
  rewrite Hv. rewrite add_mul_mod, add_mul_div by lia. done.
Qed.

(** ** The 61-bit variant *)

(** The halves of [bf61_encipher]'s result. *)
Lemma bf61_encipher_halves c val :
  exists l r, 0 <= l < 2 ^ 30 /\ 0 <= r < 2 ^ 31 /\
    bf61_encipher c val = l + r * 2 ^ 30 /\
    bf_dec_rounds mask31 mask30 c 17 8 r l =
      (Z.lxor (mask31 val) (mask31 (bf_p c 1)),
       Z.lxor (mask30 (Z.shiftr val 29)) (mask30 (bf_p c 0))).
Proof.
  unfold bf61_encipher. fold (mask30 (Z.shiftr val 29)) (mask31 val).
  pose proof (bf_enc_rounds_range mask30 mask31 c 30 31 0 8 (mask30 (Z.shiftr val 29)) (mask31 val)
    ltac:(lia) ltac:(lia) (fun i => mask30_range _) (fun i => mask31_range _)
    (fun i => mask30_range _) (fun i => mask31_range _) (mask30_range _) (mask31_range _)) as Hrange.
  change (JOS_BF_N / 2)%nat with 8%nat. change (JOS_BF_N + 1)%nat with 17%nat. change JOS_BF_N with 16%nat.
  destruct (bf_enc_rounds mask30 mask31 c 0 8 _ _) as [l r] eqn:Henc. destruct Hrange as [Hl Hr].
  pose proof (bf_dec_enc_rounds mask30 mask31 c 8 _ _ l r Henc) as Hdec.
  pose proof (lxor_range 30 l (mask30 (bf_p c 16)) ltac:(lia) Hl (mask30_range _)).
  pose proof (lxor_range 31 r (mask31 (bf_p c 17)) ltac:(lia) Hr (mask31_range _)).
  exists (Z.lxor l (mask30 (bf_p c 16))), (Z.lxor r (mask31 (bf_p c 17))).
  split_and!; try lia; [|exact Hdec]. apply lor_shiftl_add; lia.
Qed.

Lemma bf61_encipher_range c val : 0 <= bf61_encipher c val < 2 ^ 61.
Proof.
  destruct (bf61_encipher_halves c val) as (l & r & Hl & Hr & -> & _).
  change (2 ^ 61) with (2 ^ 31 * 2 ^ 30). nia.
Qed.

(** What deciphering a 61-bit ciphertext gives back. *)
Lemma bf61_decipher_encipher c val :
  bf61_decipher c (bf61_encipher c val) = mask31 val + mask30 (Z.shiftr val 29) * 2 ^ 31.
Proof.
  destruct (bf61_encipher_halves c val) as (l & r & Hl & Hr & -> & Hdec).
  unfold bf61_decipher. rewrite Z.shiftr_div_pow2 by lia.
  fold (mask31 ((l + r * 2 ^ 30) / 2 ^ 30)) (mask30 (l + r * 2 ^ 30)).
  rewrite mask31_mod, (mask30_mod (l + _)).
  rewrite add_mul_mod, add_mul_div by lia. rewrite (Z.mod_small r) by lia.
  change (JOS_BF_N / 2)%nat with 8%nat. change (JOS_BF_N + 1)%nat with 17%nat.
  rewrite Hdec, !lxor_cancel. apply lor_shiftl_add; [lia|apply mask31_range].
Qed.

(** Two values with the same ciphertext agree on their 59 low bits. *)
Lemma bf61_encipher_inj c v w :
  0 <= v < 2 ^ 59 -> 0 <= w < 2 ^ 59 -> bf61_encipher c v = bf61_encipher c w -> v = w.
Proof.
  intros Hv Hw Heq.
  assert (H : bf61_decipher c (bf61_encipher c v) = bf61_decipher c (bf61_encipher c w)) by congruence.
  rewrite !bf61_decipher_encipher in H.
  pose proof (mask31_range v) as Hv1. pose proof (mask31_range w) as Hw1.
  assert (Hlow : mask31 v = mask31 w).
  { rewrite <- (add_mul_mod (mask31 v) (mask30 (Z.shiftr v 29)) 31) by lia.
    rewrite <- (add_mul_mod (mask31 w) (mask30 (Z.shiftr w 29)) 31) by lia. by rewrite H. }
  assert (Hhigh : mask30 (Z.shiftr v 29) = mask30 (Z.shiftr w 29)) by lia.
  rewrite !mask30_mod, !Z.shiftr_div_pow2 in Hhigh by lia.
  assert (Hsm : forall x, 0 <= x < 2 ^ 59 -> x / 2 ^ 29 mod 2 ^ 30 = x / 2 ^ 29).
  { intros x Hx. apply Z.mod_small. split; [apply Z.div_pos; lia|].
    apply Z.div_lt_upper_bound; lia. }
  rewrite !Hsm in Hhigh by done. rewrite !mask31_mod in Hlow.
  assert (Hlow29 : v mod 2 ^ 29 = w mod 2 ^ 29).
  { assert (Hm : forall x, x mod 2 ^ 29 = (x mod 2 ^ 31) mod 2 ^ 29).
    { intros x. change (2 ^ 31) with (2 ^ 29 * 2 ^ 2). rewrite Z.rem_mul_r by lia.
      rewrite (Z.mul_comm (2 ^ 29)), Z.mod_add by lia. by rewrite Z.mod_mod by lia. }
    by rewrite (Hm v), (Hm w), Hlow. }
  rewrite (Z.div_mod v (2 ^ 29)), (Z.div_mod w (2 ^ 29)) by lia. by rewrite Hhigh, Hlow29.
Qed.

(** ** The 32+32, 60- and 64-bit variants *)

(** A context whose words fit 32 bits, as [bf_setkey] builds. *)
Record bf_wf (c : bf_ctx) : Prop := {
  bw_P : Forall is_u32 (bf_P c);
  bw_S : Forall (Forall is_u32) (bf_S c)
}.

Lemma nth_u32 (l : list Z) i : Forall is_u32 l -> is_u32 (nth i l 0).
Proof.
  intros Hl. destruct (nth_in_or_default i l 0) as [Hin| ->]; [|split; [lia|reflexivity]].
  by apply (proj1 (List.Forall_forall is_u32 l) Hl).
Qed.

Lemma bf_p_range c i : bf_wf c -> is_u32 (bf_p c i).
Proof. intros [H _]. by apply nth_u32. Qed.

Lemma bf_encipher_range c xl xr :
  bf_wf c -> is_u32 xl -> is_u32 xr ->
  is_u32 (fst (bf_encipher c xl xr)) /\ is_u32 (snd (bf_encipher c xl xr)).
Proof.
  intros Hc Hl Hr. unfold bf_encipher.
  pose proof (bf_enc_rounds_range no_mask no_mask c 32 32 0 (JOS_BF_N / 2) xl xr
    ltac:(lia) ltac:(lia) (fun i => bf_p_range c i Hc) (fun i => bf_p_range c i Hc)
    (fun x => u32_range _) (fun x => u32_range _) Hl Hr) as Hrange.
  destruct (bf_enc_rounds _ _ _ _ _ _ _) as [l r]. destruct Hrange.
  split; apply lxor_range; try lia; try done; by apply bf_p_range.
Qed.

Lemma bf_decipher_encipher c xl xr :
  let '(yl, yr) := bf_encipher c xl xr in bf_decipher c yl yr = (xl, xr).
Proof.
  unfold bf_encipher, bf_decipher.
  change (JOS_BF_N / 2)%nat with 8%nat. change (JOS_BF_N + 1)%nat with 17%nat. change JOS_BF_N with 16%nat.
  destruct (bf_enc_rounds no_mask no_mask c 0 8 xl xr) as [l r] eqn:Henc.
  pose proof (bf_dec_enc_rounds no_mask no_mask c 8 _ _ l r Henc) as Hdec.
  change (2 * 8 + 1)%nat with 17%nat in Hdec. change (2 * 8)%nat with 16%nat in Hdec.
  unfold no_mask in Hdec at 3 4 5 6. rewrite Hdec. by rewrite !lxor_cancel.
Qed.

Lemma bf60_decipher_encipher c val : bf60_decipher c (bf60_encipher c val) = val mod 2 ^ 60.
Proof.
  unfold bf60_encipher. fold (mask30 (Z.shiftr val 30)) (mask30 val).
  pose proof (bf_enc_rounds_range mask30 mask30 c 30 30 0 8 (mask30 (Z.shiftr val 30)) (mask30 val)
    ltac:(lia) ltac:(lia) (fun i => mask30_range _) (fun i => mask30_range _)
    (fun i => mask30_range _) (fun i => mask30_range _) (mask30_range _) (mask30_range _)) as Hrange.
  change (JOS_BF_N / 2)%nat with 8%nat. change (JOS_BF_N + 1)%nat with 17%nat. change JOS_BF_N with 16%nat.
  destruct (bf_enc_rounds mask30 mask30 c 0 8 _ _) as [l r] eqn:Henc. destruct Hrange as [Hl Hr].
  pose proof (bf_dec_enc_rounds mask30 mask30 c 8 _ _ l r Henc) as Hdec.
  pose proof (lxor_range 30 l (mask30 (bf_p c 16)) ltac:(lia) Hl (mask30_range _)) as Hl'.
  pose proof (lxor_range 30 r (mask30 (bf_p c 17)) ltac:(lia) Hr (mask30_range _)) as Hr'.
  change (2 * 8 + 1)%nat with 17%nat in Hdec. change (2 * 8)%nat with 16%nat in Hdec.
  set (l' := Z.lxor l (mask30 (bf_p c 16))) in *. set (r' := Z.lxor r (mask30 (bf_p c 17))) in *.
  rewrite lor_shiftl_add by lia. unfold bf60_decipher. rewrite Z.shiftr_div_pow2 by lia.
  fold (mask30 ((l' + r' * 2 ^ 30) / 2 ^ 30)) (mask30 (l' + r' * 2 ^ 30)).
  rewrite !mask30_mod, add_mul_mod, add_mul_div by lia. rewrite (Z.mod_small r') by lia.
  change (JOS_BF_N / 2)%nat with 8%nat. change (JOS_BF_N + 1)%nat with 17%nat.
  rewrite <- !mask30_mod, Hdec, !lxor_cancel. rewrite lor_shiftl_add by (lia || apply mask30_range).
  rewrite !mask30_mod, Z.shiftr_div_pow2 by lia. change (2 ^ 60) with (2 ^ 30 * 2 ^ 30).
  rewrite Z.rem_mul_r by lia. lia.
Qed.

Lemma bf64_decipher_encipher c val :
  bf_wf c -> is_u64 val -> bf64_decipher c (bf64_encipher c val) = val.
Proof.
  intros Hc Hval. unfold bf64_encipher.
  pose proof (bf_enc_rounds_range no_mask no_mask c 32 32 0 8 (u32 (Z.shiftr val 32)) (u32 val)
    ltac:(lia) ltac:(lia) (fun i => bf_p_range c i Hc) (fun i => bf_p_range c i Hc)
    (fun x => u32_range _) (fun x => u32_range _) (u32_range _) (u32_range _)) as Hrange.
  change (JOS_BF_N / 2)%nat with 8%nat. change (JOS_BF_N + 1)%nat with 17%nat. change JOS_BF_N with 16%nat.
  destruct (bf_enc_rounds no_mask no_mask c 0 8 _ _) as [l r] eqn:Henc. destruct Hrange as [Hl Hr].
  pose proof (bf_dec_enc_rounds no_mask no_mask c 8 _ _ l r Henc) as Hdec.
  pose proof (lxor_range 32 l (bf_p c 16) ltac:(lia) Hl (bf_p_range c 16 Hc)) as Hl'.
  pose proof (lxor_range 32 r (bf_p c 17) ltac:(lia) Hr (bf_p_range c 17 Hc)) as Hr'.
  change (2 * 8 + 1)%nat with 17%nat in Hdec. change (2 * 8)%nat with 16%nat in Hdec.
  unfold no_mask in Hdec at 3 4 5 6. fold no_mask in Hdec.
  set (l' := Z.lxor l (bf_p c 16)) in *. set (r' := Z.lxor r (bf_p c 17)) in *.
  rewrite lor_shiftl_add by lia. unfold bf64_decipher. rewrite Z.shiftr_div_pow2 by lia.
  unfold u32 at 1 2. rewrite add_mul_mod, add_mul_div by lia. rewrite (Z.mod_small r') by lia.
  change (JOS_BF_N / 2)%nat with 8%nat. change (JOS_BF_N + 1)%nat with 17%nat.
  rewrite Hdec, !lxor_cancel. rewrite lor_shiftl_add by (lia || apply u32_range).
  rewrite Z.shiftr_div_pow2 by lia. unfold u32. unfold is_u64 in Hval.
  rewrite (Z.mod_small (val / 2 ^ 32)).
  - rewrite (Z.div_mod val (2 ^ 32)) at 3 by lia. lia.
  - split; [apply Z.div_pos; lia|apply Z.div_lt_upper_bound; lia].
Qed.

(** ** The key schedule keeps 32-bit words *)

Lemma key_word_range key k pos data :
  is_u32 data -> is_u32 (fst (key_word key k pos data)).
Proof.
  revert pos data. induction k as [|k IH]; intros pos data Hd; [done|].
  cbn [key_word]. apply IH, u32_range.
Qed.

Lemma mix_key_range key P pos : Forall is_u32 P -> Forall is_u32 (mix_key key P pos).
Proof.
  intros HP. revert pos. induction HP as [|p P Hp _ IH]; intros pos; [constructor|].
  cbn [mix_key]. destruct (key_word key 4 pos 0) as [data pos'] eqn:Hw. constructor; [|apply IH].
  apply lxor_range; [lia|done|].
  change data with (fst (data, pos')). rewrite <- Hw. apply key_word_range. split; [lia|reflexivity].
Qed.

Lemma sched_P_wf idxs c dl dr :
  bf_wf c -> is_u32 dl -> is_u32 dr ->
  let '(c', dl', dr') := sched_P idxs c dl dr in bf_wf c' /\ is_u32 dl' /\ is_u32 dr'.
Proof.
  revert c dl dr. induction idxs as [|i idxs IH]; intros c dl dr Hc Hl Hr; [done|].
  cbn [sched_P]. pose proof (bf_encipher_range c dl dr Hc Hl Hr) as [H1 H2].
  destruct (bf_encipher c dl dr) as [dl' dr']. simpl in H1, H2. apply IH; [|done..].
  split; [|apply Hc]. simpl. apply Forall_insert; [|done]. apply Forall_insert; [apply Hc|done].
Qed.

Lemma sched_S_wf idxs c dl dr :
  bf_wf c -> is_u32 dl -> is_u32 dr ->
  let '(c', dl', dr') := sched_S idxs c dl dr in bf_wf c' /\ is_u32 dl' /\ is_u32 dr'.
Proof.
  revert c dl dr. induction idxs as [|[i j] idxs IH]; intros c dl dr Hc Hl Hr; [done|].
  cbn [sched_S]. pose proof (bf_encipher_range c dl dr Hc Hl Hr) as [H1 H2].
  destruct (bf_encipher c dl dr) as [dl' dr']. simpl in H1, H2. apply IH; [|done..].
  split; [apply Hc|]. simpl. apply Forall_alter; [apply Hc|]. intros box _ Hbox.
  apply Forall_insert; [|done]. by apply Forall_insert.
Qed.

Lemma pihex_u32 : Forall is_u32 pihex.
Proof.
  assert (H : forallb (fun x => (0 <=? x) && (x <? 2 ^ 32)) pihex = true) by (vm_compute; reflexivity).
  apply List.Forall_forall. intros x Hx. rewrite forallb_forall in H. specialize (H x Hx).
  bool_hyps. done.
Qed.

Lemma bf_setkey_wf key : bf_wf (bf_setkey key).
Proof.
  assert (H0 : bf_wf bf_initstate).
  { split; [apply Forall_take, pihex_u32|].
    apply List.Forall_forall. intros box Hin.
    unfold bf_initstate, bf_S in Hin. apply in_map_iff in Hin as (i & <- & _).
    apply Forall_take, Forall_drop, pihex_u32. }
  unfold bf_setkey, bf_keysched.
  set (c0 := if (0 <? length key)%nat then _ else _).
  assert (Hc0 : bf_wf c0).
  { unfold c0. destruct (0 <? length key)%nat; [|done].
    split; [apply mix_key_range, H0|apply H0]. }
  pose proof (sched_P_wf (even_indices (JOS_BF_N + 2)) c0 0 0 Hc0 ltac:(split; [lia|reflexivity])
    ltac:(split; [lia|reflexivity])) as H1.
  destruct (sched_P _ c0 0 0) as [[c1 dl] dr]. destruct H1 as (Hc1 & Hl & Hr).
  pose proof (sched_S_wf (flat_map (fun i => map (fun j => (i, j)) (even_indices 256)) (seq 0 4))
    c1 dl dr Hc1 Hl Hr) as H2.
  destruct (sched_S _ c1 dl dr) as [[c2 dl'] dr']. apply H2.
Qed.

(** ** Properties *)

Definition example_ctx : bf_ctx := bf_setkey key_generate_system_key.

(** [bf_decipher] inverts [bf_encipher] on every pair of words, and the
    60-bit and 64-bit variants invert on their widths, for every key. *)
Theorem bf_roundtrip key xl xr v60 v64 :
  0 <= v60 < 2 ^ 60 -> is_u64 v64 ->
  let c := bf_setkey key in
  (let '(yl, yr) := bf_encipher c xl xr in bf_decipher c yl yr = (xl, xr)) /\
  bf60_decipher c (bf60_encipher c v60) = v60 /\
  bf64_decipher c (bf64_encipher c v64) = v64.
Proof.
  intros H60 H64. cbv zeta. split_and!.
  - apply bf_decipher_encipher.
  - rewrite bf60_decipher_encipher. by apply Z.mod_small.
  - apply bf64_decipher_encipher; [apply bf_setkey_wf|done].
Qed.

Lemma bf_roundtrip_witness :
  bf60_decipher (bf_setkey [1; 2; 3]) (bf60_encipher (bf_setkey [1; 2; 3]) 77) = 77.
Proof.
  apply (bf_roundtrip [1; 2; 3] 5 6 77 78); unfold is_u64; lia.
Defined.

(** The 61-bit variant: deciphering gives the plaintext back only below
    2^29; in general it gives the 31 low bits and, above them, the 30 bits
    from bit 29 up, so that the bits 59 and 60 of the plaintext are lost. *)
Theorem bf61_roundtrip c val :
  bf61_decipher c (bf61_encipher c val) = val mod 2 ^ 31 + (val / 2 ^ 29) mod 2 ^ 30 * 2 ^ 31 /\
  (0 <= val < 2 ^ 29 -> bf61_decipher c (bf61_encipher c val) = val) /\
  bf61_decipher c (bf61_encipher c (2 ^ 29)) = 2 ^ 29 + 2 ^ 31 /\
  bf61_encipher c (val + 2 ^ 59) = bf61_encipher c val.
Proof.
  assert (Hgen : forall v, bf61_decipher c (bf61_encipher c v) =
                           v mod 2 ^ 31 + (v / 2 ^ 29) mod 2 ^ 30 * 2 ^ 31).
  { intros v. by rewrite bf61_decipher_encipher, mask31_mod, mask30_mod, Z.shiftr_div_pow2 by lia. }
  split_and!; [done| |by rewrite Hgen|].
  - intros Hval. rewrite Hgen. rewrite Z.mod_small by lia. rewrite Z.div_small, Z.mod_0_l by lia. lia.
  - unfold bf61_encipher. rewrite !Z.shiftr_div_pow2 by lia.
    fold (mask30 ((val + 2 ^ 59) / 2 ^ 29)) (mask30 (val / 2 ^ 29)) (mask31 (val + 2 ^ 59)) (mask31 val).
    rewrite !mask30_mod, !mask31_mod.
    replace (val + 2 ^ 59) with (val + 2 ^ 30 * 2 ^ 29) at 1 by lia. rewrite Z.div_add by lia.
    replace (val / 2 ^ 29 + 2 ^ 30) with (val / 2 ^ 29 + 1 * 2 ^ 30) by lia. rewrite Z.mod_add by lia.
    replace (val + 2 ^ 59) with (val + 2 ^ 28 * 2 ^ 31) by lia. by rewrite Z.mod_add by lia.
Qed.

Lemma bf61_roundtrip_witness :
  bf61_decipher example_ctx (bf61_encipher example_ctx 12345) = 12345.
Proof. apply (bf61_roundtrip example_ctx 12345). split; [discriminate|reflexivity]. Defined.

(** ** Handle allocation *)

(** One allocation below the limit: the handle is the ciphertext of a counter
    that is consumed. *)
Lemma handle_alloc_spec ctx ctr :
  0 <= ctr -> ctr + 2 <= 2 ^ 59 ->
  exists k, ctr <= k < ctr + 2 /\
    handle_alloc 2 ctx ctr = Ok (bf61_encipher ctx k, k + 1) /\ bf61_encipher ctx k <> 0.
Proof.
  intros H0 Hlim. cbn [handle_alloc].
  rewrite (u64_small (ctr + 1)) by (unfold is_u64; lia).
  destruct (Z.leb_spec (2 ^ 61) (ctr + 1)); [lia|].
  destruct (Z.eqb_spec (bf61_encipher ctx ctr) 0) as [Hz|Hnz].
  - rewrite (u64_small (ctr + 1 + 1)) by (unfold is_u64; lia).
    destruct (Z.leb_spec (2 ^ 61) (ctr + 1 + 1)); [lia|].
    assert (Hne : bf61_encipher ctx (ctr + 1) <> 0).
    { intros Heq. assert (ctr = ctr + 1); [|lia]. apply (bf61_encipher_inj ctx); [lia..|congruence]. }
    destruct (Z.eqb_spec (bf61_encipher ctx (ctr + 1)) 0); [done|].
    exists (ctr + 1). split_and!; [lia..|done|done].
  - exists ctr. split_and!; [lia..|done|done].
Qed.

Lemma handle_alloc_range fuel ctx ctr p : handle_alloc fuel ctx ctr = Ok p -> 0 < p.1 < 2 ^ 61.
Proof.
  revert ctr. induction fuel as [|fuel IH]; intros ctr H; [done|]. cbn [handle_alloc] in H.
  destruct (bf61_encipher ctx ctr =? 0) eqn:E; destruct (_ <=? _); try discriminate H; [by apply IH in H|].
  injection H as <-. cbn [fst].
  apply Z.eqb_neq in E. pose proof (bf61_encipher_range ctx ctr). lia.
Qed.

Lemma handle_allocs_spec n ctx ctr :
  0 <= ctr -> ctr + 2 * Z.of_nat n <= 2 ^ 59 ->
  exists ks ctr', handle_allocs n ctx ctr = Ok (map (bf61_encipher ctx) ks, ctr') /\
    length ks = n /\ NoDup ks /\
    Forall (fun k => ctr <= k < ctr + 2 * Z.of_nat n /\ bf61_encipher ctx k <> 0) ks.
Proof.
  revert ctr. induction n as [|n IH]; intros ctr H0 Hlim.
  { exists [], ctr. repeat split; constructor. }
  destruct (handle_alloc_spec ctx ctr) as (k & Hk & Ha & Hne); [lia..|].
  destruct (IH (k + 1)) as (ks & ctr' & Hks & Hlen & Hnd & Hall); [lia..|].
  exists (k :: ks), ctr'. cbn [handle_allocs]. rewrite Ha. cbn [res_bind]. rewrite Hks. cbn [res_bind].
  split_and!.
  - done.
  - simpl. by rewrite Hlen.
  - constructor; [|done]. intros Hin. rewrite list.Forall_forall in Hall. specialize (Hall k Hin). lia.
  - constructor; [lia|]. eapply list.Forall_impl; [exact Hall|]. simpl. intros x [Hx Hx']. split; [lia|done].
Qed.

(** C40: handles are 61-bit, never zero and never repeated, as long as the
    counter stays below 2^59 (each allocation consumes at most two counter
    values); the recursion of [handle_alloc] for a zero ciphertext is at most
    one deep. *)
Theorem handle_alloc_unique n ctx ctr :
  0 <= ctr -> ctr + 2 * Z.of_nat n <= 2 ^ 59 ->
  exists hs ctr', handle_allocs n ctx ctr = Ok (hs, ctr') /\ length hs = n /\ NoDup hs /\
    Forall (fun h => 0 < h < 2 ^ 61) hs.
Proof.
  intros H0 Hlim. destruct (handle_allocs_spec n ctx ctr H0 Hlim) as (ks & ctr' & Hks & Hlen & Hnd & Hall).
  eexists _, _. split; [exact Hks|]. split_and!.
  - by rewrite length_map.
  - clear Hks Hlen. induction Hnd as [|k ks Hnin Hnd IH]; [constructor|]. inversion_clear Hall as [|?? [Hk _] Hall'].
    constructor; [|by apply IH]. intros (k' & Heq & Hin)%list_elem_of_fmap. rewrite list.Forall_forall in Hall'.
    destruct (Hall' k' Hin) as [Hk' _]. apply Hnin.
    by rewrite (bf61_encipher_inj ctx k k') by (lia || done).
  - clear Hks Hlen Hnd. induction Hall as [|k ks [_ Hne] _ IH]; constructor; [|done].
    pose proof (bf61_encipher_range ctx k). lia.
Qed.

Lemma handle_alloc_unique_witness :
  exists hs ctr', handle_allocs 3 example_ctx 0 = Ok (hs, ctr') /\ length hs = 3%nat /\ NoDup hs /\
    Forall (fun h => 0 < h < 2 ^ 61) hs.
Proof. apply (handle_alloc_unique 3 example_ctx 0); [reflexivity|discriminate]. Defined.
