(* ===== verification/KState.v ===== *)
(** * Kernel state

    The data the kernel's object layer works on, as one record: the headers
    and bodies of the kernel objects ([kern/kern/kobjhdr.h], [container.h],
    [thread.h], [gate.h], [segment.h], [as.h], [device.h]), the lists they are
    linked on, and the global variables of [kobj.c], [thread.c], [sched.c],
    [sync.c] and [pstate.c]; and the state-and-error monad in which the
    operations are written.  A pointer to a kernel object is its identifier. *)

From S2P Require Import Prelude Label LabelCache Blowfish.
From stdpp Require Import options.

Set Default Goal Selector "!".

(** ** Constants *)

Definition PGSIZE : Z := 4096.
Definition KOBJ_DISK_SIZE : Z := 512.
Definition CT_QUOTA_INF : Z := 2 ^ 62.
Definition kobject_id_thread_sg : Z := 0x4000000000000002.

Definition KOBJ_ON_DISK : Z := 0x0002.
Definition KOBJ_SNAPSHOTING : Z := 0x0004.
Definition KOBJ_DIRTY : Z := 0x0008.
Definition KOBJ_SNAPSHOT_DIRTY : Z := 0x0010.
Definition KOBJ_LABEL_MUTABLE : Z := 0x0020.
Definition KOBJ_FIXED_QUOTA : Z := 0x0040.
Definition KOBJ_SHARED_MAPPINGS : Z := 0x0080.
Definition KOBJ_DIRTY_LATER : Z := 0x0100.
Definition KOBJ_READONLY : Z := 0x0200.
Definition KOBJ_SNAP_SHARE_PIN : Z := 0x0400.

Definition kolabel_tracking : nat := 0.
Definition kolabel_clearance : nat := 1.
Definition kolabel_verify_tracking : nat := 2.
Definition kolabel_verify_clearance : nat := 3.
Definition kolabel_max : nat := 4.

Inductive kobject_type :=
| kobj_container | kobj_thread | kobj_gate | kobj_segment
| kobj_address_space | kobj_device | kobj_label | kobj_dead.

#[export] Instance kobject_type_eq_dec : EqDecision kobject_type.
Proof. solve_decision. Defined.

(** The number of a type in [enum kobject_type_enum]. *)
Definition kobject_type_num (t : kobject_type) : Z :=
  match t with
  | kobj_container => 0 | kobj_thread => 1 | kobj_gate => 2 | kobj_segment => 3
  | kobj_address_space => 4 | kobj_device => 5 | kobj_label => 6 | kobj_dead => 7
  end.

(** The type asked for in [kobject_get]: [None] is [kobj_any]. *)
Definition type_query : Type := option kobject_type.

Inductive info_flow_type := iflow_read | iflow_rw | iflow_none | iflow_alloc.

#[export] Instance info_flow_type_eq_dec : EqDecision info_flow_type.
Proof. solve_decision. Defined.

Inductive thread_status_t := thread_not_started | thread_runnable | thread_suspended | thread_halted.

#[export] Instance thread_status_eq_dec : EqDecision thread_status_t.
Proof. solve_decision. Defined.

(** The thread lists a thread can be linked on. *)
Definition TL_runnable : Z := 0.
Definition TL_pstate_waiting : Z := 1.
Definition TL_snapshot_waiting : Z := 2.
Definition TL_sync_time : Z := 3.
Definition TL_console : Z := 4.

(** ** Object bodies *)

(** [struct cobj_ref] of [inc/container.h]. *)
Record cobj_ref := COBJ {
  container : Z;
  object : Z
}.

#[export] Instance cobj_ref_eq_dec : EqDecision cobj_ref.
Proof. solve_decision. Defined.

(** [struct container_slot] of [container.h]. *)
Record container_slot := ContainerSlot {
  cs_id : Z;
  cs_ref : Z
}.

Definition set_cs_id (v : Z) (r : container_slot) : container_slot :=
  ContainerSlot v (cs_ref r).
Definition set_cs_ref (v : Z) (r : container_slot) : container_slot :=
  ContainerSlot (cs_id r) v.

Definition zero_slot : container_slot := ContainerSlot 0 0.

(** [struct Container], with the slots of the object's pages. *)
Record Container := mkContainer {
  ct_avoid_types : Z;
  ct_slots : list container_slot;
  ct_pages : list (list container_slot)
}.

Definition set_ct_avoid_types (v : Z) (r : Container) : Container :=
  mkContainer v (ct_slots r) (ct_pages r).
Definition set_ct_slots (v : list container_slot) (r : Container) : Container :=
  mkContainer (ct_avoid_types r) v (ct_pages r).
Definition set_ct_pages (v : list (list container_slot)) (r : Container) : Container :=
  mkContainer (ct_avoid_types r) (ct_slots r) v.

(** [struct thread_entry] of [inc/thread.h]. *)
Record thread_entry := ThreadEntry {
  te_as : cobj_ref;
  te_entry : Z;
  te_stack : Z;
  te_arg : list Z
}.

(** [struct Gate] of [gate.h]. *)
Record Gate := mkGate {
  gt_te : thread_entry;
  gt_te_visible : bool;
  gt_te_unspec : bool
}.

Definition set_gt_te (v : thread_entry) (r : Gate) : Gate :=
  mkGate v (gt_te_visible r) (gt_te_unspec r).
Definition set_gt_te_visible (v : bool) (r : Gate) : Gate :=
  mkGate (gt_te r) v (gt_te_unspec r).
Definition set_gt_te_unspec (v : bool) (r : Gate) : Gate :=
  mkGate (gt_te r) (gt_te_visible r) v.

(** [struct Trapframe] of [kern/arch/amd64/mmu.h]. *)
Record Trapframe := mkTrapframe {
  tf_rcx : Z;
  tf_rdx : Z;
  tf_rdi : Z;
  tf_r8 : Z;
  tf_r9 : Z;
  tf_r10 : Z;
  tf_r11 : Z;
  tf_rbx : Z;
  tf_rbp : Z;
  tf_r12 : Z;
  tf_r13 : Z;
  tf_r14 : Z;
  tf_r15 : Z;
  tf_rsi : Z;
  tf_rax : Z;
  tf_err : Z;
  tf_rip : Z;
  tf_cs : Z;
  tf_ds : Z;
  tf_es : Z;
  tf_fs : Z;
  tf_rflags : Z;
  tf_rsp : Z;
  tf_ss : Z;
  tf_gs : Z
}.

(** [struct sync_wait_slot] of [thread.h]; the links are lists of slot references. *)
Record sync_wait_slot := SyncWaitSlot {
  sw_seg : Z;
  sw_offset : Z;
  sw_cobj : cobj_ref
}.

(** [struct Thread] and [struct Thread_ephemeral] of [thread.h].  [th_sched_pass] and [th_sched_remain] share their storage; [te_slots] holds the wait slots (0 is [te_sync], the others are in the thread's pages) and [te_wait_slots] is the list of the slots in use. *)
Record Thread := mkThread {
  th_tf : Trapframe;
  th_sg : Z;
  th_asref : cobj_ref;
  th_as : option Z;
  th_status : thread_status_t;
  th_pinned : bool;
  th_fp_enabled : bool;
  th_fp_space : bool;
  th_sched_joined : bool;
  th_sync_waiting : bool;
  th_cache_flush : bool;
  th_linked : bool;
  th_sched_tickets : Z;
  th_multi_slots : Z;
  th_sched_parents : Z * Z;
  th_sched_pass : Z;
  te_wakeup_nsec : Z;
  te_slots : list sync_wait_slot;
  te_wait_slots : list nat
}.

Definition set_th_tf (v : Trapframe) (r : Thread) : Thread :=
  mkThread v (th_sg r) (th_asref r) (th_as r) (th_status r) (th_pinned r) (th_fp_enabled r) (th_fp_space r) (th_sched_joined r) (th_sync_waiting r) (th_cache_flush r) (th_linked r) (th_sched_tickets r) (th_multi_slots r) (th_sched_parents r) (th_sched_pass r) (te_wakeup_nsec r) (te_slots r) (te_wait_slots r).
Definition set_th_sg (v : Z) (r : Thread) : Thread :=
  mkThread (th_tf r) v (th_asref r) (th_as r) (th_status r) (th_pinned r) (th_fp_enabled r) (th_fp_space r) (th_sched_joined r) (th_sync_waiting r) (th_cache_flush r) (th_linked r) (th_sched_tickets r) (th_multi_slots r) (th_sched_parents r) (th_sched_pass r) (te_wakeup_nsec r) (te_slots r) (te_wait_slots r).
Definition set_th_asref (v : cobj_ref) (r : Thread) : Thread :=
  mkThread (th_tf r) (th_sg r) v (th_as r) (th_status r) (th_pinned r) (th_fp_enabled r) (th_fp_space r) (th_sched_joined r) (th_sync_waiting r) (th_cache_flush r) (th_linked r) (th_sched_tickets r) (th_multi_slots r) (th_sched_parents r) (th_sched_pass r) (te_wakeup_nsec r) (te_slots r) (te_wait_slots r).
Definition set_th_as (v : option Z) (r : Thread) : Thread :=
  mkThread (th_tf r) (th_sg r) (th_asref r) v (th_status r) (th_pinned r) (th_fp_enabled r) (th_fp_space r) (th_sched_joined r) (th_sync_waiting r) (th_cache_flush r) (th_linked r) (th_sched_tickets r) (th_multi_slots r) (th_sched_parents r) (th_sched_pass r) (te_wakeup_nsec r) (te_slots r) (te_wait_slots r).
Definition set_th_status (v : thread_status_t) (r : Thread) : Thread :=
  mkThread (th_tf r) (th_sg r) (th_asref r) (th_as r) v (th_pinned r) (th_fp_enabled r) (th_fp_space r) (th_sched_joined r) (th_sync_waiting r) (th_cache_flush r) (th_linked r) (th_sched_tickets r) (th_multi_slots r) (th_sched_parents r) (th_sched_pass r) (te_wakeup_nsec r) (te_slots r) (te_wait_slots r).
Definition set_th_pinned (v : bool) (r : Thread) : Thread :=
  mkThread (th_tf r) (th_sg r) (th_asref r) (th_as r) (th_status r) v (th_fp_enabled r) (th_fp_space r) (th_sched_joined r) (th_sync_waiting r) (th_cache_flush r) (th_linked r) (th_sched_tickets r) (th_multi_slots r) (th_sched_parents r) (th_sched_pass r) (te_wakeup_nsec r) (te_slots r) (te_wait_slots r).
Definition set_th_fp_enabled (v : bool) (r : Thread) : Thread :=
  mkThread (th_tf r) (th_sg r) (th_asref r) (th_as r) (th_status r) (th_pinned r) v (th_fp_space r) (th_sched_joined r) (th_sync_waiting r) (th_cache_flush r) (th_linked r) (th_sched_tickets r) (th_multi_slots r) (th_sched_parents r) (th_sched_pass r) (te_wakeup_nsec r) (te_slots r) (te_wait_slots r).
Definition set_th_fp_space (v : bool) (r : Thread) : Thread :=
  mkThread (th_tf r) (th_sg r) (th_asref r) (th_as r) (th_status r) (th_pinned r) (th_fp_enabled r) v (th_sched_joined r) (th_sync_waiting r) (th_cache_flush r) (th_linked r) (th_sched_tickets r) (th_multi_slots r) (th_sched_parents r) (th_sched_pass r) (te_wakeup_nsec r) (te_slots r) (te_wait_slots r).
Definition set_th_sched_joined (v : bool) (r : Thread) : Thread :=
  mkThread (th_tf r) (th_sg r) (th_asref r) (th_as r) (th_status r) (th_pinned r) (th_fp_enabled r) (th_fp_space r) v (th_sync_waiting r) (th_cache_flush r) (th_linked r) (th_sched_tickets r) (th_multi_slots r) (th_sched_parents r) (th_sched_pass r) (te_wakeup_nsec r) (te_slots r) (te_wait_slots r).
Definition set_th_sync_waiting (v : bool) (r : Thread) : Thread :=
  mkThread (th_tf r) (th_sg r) (th_asref r) (th_as r) (th_status r) (th_pinned r) (th_fp_enabled r) (th_fp_space r) (th_sched_joined r) v (th_cache_flush r) (th_linked r) (th_sched_tickets r) (th_multi_slots r) (th_sched_parents r) (th_sched_pass r) (te_wakeup_nsec r) (te_slots r) (te_wait_slots r).
Definition set_th_cache_flush (v : bool) (r : Thread) : Thread :=
  mkThread (th_tf r) (th_sg r) (th_asref r) (th_as r) (th_status r) (th_pinned r) (th_fp_enabled r) (th_fp_space r) (th_sched_joined r) (th_sync_waiting r) v (th_linked r) (th_sched_tickets r) (th_multi_slots r) (th_sched_parents r) (th_sched_pass r) (te_wakeup_nsec r) (te_slots r) (te_wait_slots r).
Definition set_th_linked (v : bool) (r : Thread) : Thread :=
  mkThread (th_tf r) (th_sg r) (th_asref r) (th_as r) (th_status r) (th_pinned r) (th_fp_enabled r) (th_fp_space r) (th_sched_joined r) (th_sync_waiting r) (th_cache_flush r) v (th_sched_tickets r) (th_multi_slots r) (th_sched_parents r) (th_sched_pass r) (te_wakeup_nsec r) (te_slots r) (te_wait_slots r).
Definition set_th_sched_tickets (v : Z) (r : Thread) : Thread :=
  mkThread (th_tf r) (th_sg r) (th_asref r) (th_as r) (th_status r) (th_pinned r) (th_fp_enabled r) (th_fp_space r) (th_sched_joined r) (th_sync_waiting r) (th_cache_flush r) (th_linked r) v (th_multi_slots r) (th_sched_parents r) (th_sched_pass r) (te_wakeup_nsec r) (te_slots r) (te_wait_slots r).
Definition set_th_multi_slots (v : Z) (r : Thread) : Thread :=
  mkThread (th_tf r) (th_sg r) (th_asref r) (th_as r) (th_status r) (th_pinned r) (th_fp_enabled r) (th_fp_space r) (th_sched_joined r) (th_sync_waiting r) (th_cache_flush r) (th_linked r) (th_sched_tickets r) v (th_sched_parents r) (th_sched_pass r) (te_wakeup_nsec r) (te_slots r) (te_wait_slots r).
Definition set_th_sched_parents (v : Z * Z) (r : Thread) : Thread :=
  mkThread (th_tf r) (th_sg r) (th_asref r) (th_as r) (th_status r) (th_pinned r) (th_fp_enabled r) (th_fp_space r) (th_sched_joined r) (th_sync_waiting r) (th_cache_flush r) (th_linked r) (th_sched_tickets r) (th_multi_slots r) v (th_sched_pass r) (te_wakeup_nsec r) (te_slots r) (te_wait_slots r).
Definition set_th_sched_pass (v : Z) (r : Thread) : Thread :=
  mkThread (th_tf r) (th_sg r) (th_asref r) (th_as r) (th_status r) (th_pinned r) (th_fp_enabled r) (th_fp_space r) (th_sched_joined r) (th_sync_waiting r) (th_cache_flush r) (th_linked r) (th_sched_tickets r) (th_multi_slots r) (th_sched_parents r) v (te_wakeup_nsec r) (te_slots r) (te_wait_slots r).
Definition set_te_wakeup_nsec (v : Z) (r : Thread) : Thread :=
  mkThread (th_tf r) (th_sg r) (th_asref r) (th_as r) (th_status r) (th_pinned r) (th_fp_enabled r) (th_fp_space r) (th_sched_joined r) (th_sync_waiting r) (th_cache_flush r) (th_linked r) (th_sched_tickets r) (th_multi_slots r) (th_sched_parents r) (th_sched_pass r) v (te_slots r) (te_wait_slots r).
Definition set_te_slots (v : list sync_wait_slot) (r : Thread) : Thread :=
  mkThread (th_tf r) (th_sg r) (th_asref r) (th_as r) (th_status r) (th_pinned r) (th_fp_enabled r) (th_fp_space r) (th_sched_joined r) (th_sync_waiting r) (th_cache_flush r) (th_linked r) (th_sched_tickets r) (th_multi_slots r) (th_sched_parents r) (th_sched_pass r) (te_wakeup_nsec r) v (te_wait_slots r).
Definition set_te_wait_slots (v : list nat) (r : Thread) : Thread :=
  mkThread (th_tf r) (th_sg r) (th_asref r) (th_as r) (th_status r) (th_pinned r) (th_fp_enabled r) (th_fp_space r) (th_sched_joined r) (th_sync_waiting r) (th_cache_flush r) (th_linked r) (th_sched_tickets r) (th_multi_slots r) (th_sched_parents r) (th_sched_pass r) (te_wakeup_nsec r) (te_slots r) v.

(** [struct u_segment_mapping] of [inc/segment.h]. *)
Record u_segment_mapping := USegMap {
  usm_segment : cobj_ref;
  usm_start_page : Z;
  usm_num_pages : Z;
  usm_kslot : Z;
  usm_flags : Z;
  usm_va : Z
}.

(** [struct segment_mapping] of [as.h]; [sm_as] is the address space that holds it. *)
Record segment_mapping := SegMap {
  sm_rw_mappings : bool;
  sm_ct_id : Z;
  sm_as_slot : Z;
  sm_ko : option Z
}.

(** [struct Segment] of [segment.h]: the pages and the mappings of it, each an address space and a slot of it. *)
Record Segment := mkSegment {
  sg_pages : list (list Z);
  sg_segmap_list : list (Z * Z)
}.

Definition set_sg_pages (v : list (list Z)) (r : Segment) : Segment :=
  mkSegment v (sg_segmap_list r).
Definition set_sg_segmap_list (v : list (Z * Z)) (r : Segment) : Segment :=
  mkSegment (sg_pages r) v.

(** [struct Address_space] of [as.h].  [as_pgmap] maps a page address to the object, the page of it and the flags that were put in the page table. *)
Record Address_space := mkAs {
  as_utrap_entry : Z;
  as_utrap_stack_base : Z;
  as_utrap_stack_top : Z;
  as_pages : list (list u_segment_mapping);
  as_segmap : gmap Z segment_mapping;
  as_pgmap : option (gmap Z (Z * Z * Z));
  as_pgmap_label_id : Z;
  as_pgmap_tls_id : Z
}.

Definition set_as_utrap_entry (v : Z) (r : Address_space) : Address_space :=
  mkAs v (as_utrap_stack_base r) (as_utrap_stack_top r) (as_pages r) (as_segmap r) (as_pgmap r) (as_pgmap_label_id r) (as_pgmap_tls_id r).
Definition set_as_utrap_stack_base (v : Z) (r : Address_space) : Address_space :=
  mkAs (as_utrap_entry r) v (as_utrap_stack_top r) (as_pages r) (as_segmap r) (as_pgmap r) (as_pgmap_label_id r) (as_pgmap_tls_id r).
Definition set_as_utrap_stack_top (v : Z) (r : Address_space) : Address_space :=
  mkAs (as_utrap_entry r) (as_utrap_stack_base r) v (as_pages r) (as_segmap r) (as_pgmap r) (as_pgmap_label_id r) (as_pgmap_tls_id r).
Definition set_as_pages (v : list (list u_segment_mapping)) (r : Address_space) : Address_space :=
  mkAs (as_utrap_entry r) (as_utrap_stack_base r) (as_utrap_stack_top r) v (as_segmap r) (as_pgmap r) (as_pgmap_label_id r) (as_pgmap_tls_id r).
Definition set_as_segmap (v : gmap Z segment_mapping) (r : Address_space) : Address_space :=
  mkAs (as_utrap_entry r) (as_utrap_stack_base r) (as_utrap_stack_top r) (as_pages r) v (as_pgmap r) (as_pgmap_label_id r) (as_pgmap_tls_id r).
Definition set_as_pgmap (v : option (gmap Z (Z * Z * Z))) (r : Address_space) : Address_space :=
  mkAs (as_utrap_entry r) (as_utrap_stack_base r) (as_utrap_stack_top r) (as_pages r) (as_segmap r) v (as_pgmap_label_id r) (as_pgmap_tls_id r).
Definition set_as_pgmap_label_id (v : Z) (r : Address_space) : Address_space :=
  mkAs (as_utrap_entry r) (as_utrap_stack_base r) (as_utrap_stack_top r) (as_pages r) (as_segmap r) (as_pgmap r) v (as_pgmap_tls_id r).
Definition set_as_pgmap_tls_id (v : Z) (r : Address_space) : Address_space :=
  mkAs (as_utrap_entry r) (as_utrap_stack_base r) (as_utrap_stack_top r) (as_pages r) (as_segmap r) (as_pgmap r) (as_pgmap_label_id r) v.

(** [struct Device] of [device.h]. *)
Record Device := mkDevice {
  dv_type : Z;
  dv_idx : Z;
  dv_segmap_list : list (Z * Z)
}.

Definition set_dv_type (v : Z) (r : Device) : Device :=
  mkDevice v (dv_idx r) (dv_segmap_list r).
Definition set_dv_idx (v : Z) (r : Device) : Device :=
  mkDevice (dv_type r) v (dv_segmap_list r).
Definition set_dv_segmap_list (v : list (Z * Z)) (r : Device) : Device :=
  mkDevice (dv_type r) (dv_idx r) v.

Inductive ko_body_t :=
| BLabel (l : Label)
| BContainer (c : Container)
| BThread (t : Thread)
| BGate (g : Gate)
| BSegment (sg : Segment)
| BAs (a : Address_space)
| BDevice (d : Device).

Definition body_type (b : ko_body_t) : kobject_type :=
  match b with
  | BLabel _ => kobj_label
  | BContainer _ => kobj_container
  | BThread _ => kobj_thread
  | BGate _ => kobj_gate
  | BSegment _ => kobj_segment
  | BAs _ => kobj_address_space
  | BDevice _ => kobj_device
  end.

(** ** Kernel objects *)

(** [struct kobject_hdr] of [kobjhdr.h].  Checksums are compiled out ([kobject_checksum_enable] is 0), so [ko_cksum] is always 0 and has no field. *)
Record kobject_hdr := mkHdr {
  ko_id : Z;
  ko_ref : Z;
  ko_quota_total : Z;
  ko_quota_used : Z;
  ko_parent : Z;
  ko_label : list Z;
  ko_nbytes : Z;
  ko_name : list Z;
  ko_meta : list Z;
  ko_flags : Z;
  ko_type : kobject_type;
  ko_sync_ts : Z;
  ko_pin_pg : Z;
  ko_pin : Z
}.

Definition set_ko_id (v : Z) (r : kobject_hdr) : kobject_hdr :=
  mkHdr v (ko_ref r) (ko_quota_total r) (ko_quota_used r) (ko_parent r) (ko_label r) (ko_nbytes r) (ko_name r) (ko_meta r) (ko_flags r) (ko_type r) (ko_sync_ts r) (ko_pin_pg r) (ko_pin r).
Definition set_ko_ref (v : Z) (r : kobject_hdr) : kobject_hdr :=
  mkHdr (ko_id r) v (ko_quota_total r) (ko_quota_used r) (ko_parent r) (ko_label r) (ko_nbytes r) (ko_name r) (ko_meta r) (ko_flags r) (ko_type r) (ko_sync_ts r) (ko_pin_pg r) (ko_pin r).
Definition set_ko_quota_total (v : Z) (r : kobject_hdr) : kobject_hdr :=
  mkHdr (ko_id r) (ko_ref r) v (ko_quota_used r) (ko_parent r) (ko_label r) (ko_nbytes r) (ko_name r) (ko_meta r) (ko_flags r) (ko_type r) (ko_sync_ts r) (ko_pin_pg r) (ko_pin r).
Definition set_ko_quota_used (v : Z) (r : kobject_hdr) : kobject_hdr :=
  mkHdr (ko_id r) (ko_ref r) (ko_quota_total r) v (ko_parent r) (ko_label r) (ko_nbytes r) (ko_name r) (ko_meta r) (ko_flags r) (ko_type r) (ko_sync_ts r) (ko_pin_pg r) (ko_pin r).
Definition set_ko_parent (v : Z) (r : kobject_hdr) : kobject_hdr :=
  mkHdr (ko_id r) (ko_ref r) (ko_quota_total r) (ko_quota_used r) v (ko_label r) (ko_nbytes r) (ko_name r) (ko_meta r) (ko_flags r) (ko_type r) (ko_sync_ts r) (ko_pin_pg r) (ko_pin r).
Definition set_ko_label (v : list Z) (r : kobject_hdr) : kobject_hdr :=
  mkHdr (ko_id r) (ko_ref r) (ko_quota_total r) (ko_quota_used r) (ko_parent r) v (ko_nbytes r) (ko_name r) (ko_meta r) (ko_flags r) (ko_type r) (ko_sync_ts r) (ko_pin_pg r) (ko_pin r).
Definition set_ko_nbytes (v : Z) (r : kobject_hdr) : kobject_hdr :=
  mkHdr (ko_id r) (ko_ref r) (ko_quota_total r) (ko_quota_used r) (ko_parent r) (ko_label r) v (ko_name r) (ko_meta r) (ko_flags r) (ko_type r) (ko_sync_ts r) (ko_pin_pg r) (ko_pin r).
Definition set_ko_name (v : list Z) (r : kobject_hdr) : kobject_hdr :=
  mkHdr (ko_id r) (ko_ref r) (ko_quota_total r) (ko_quota_used r) (ko_parent r) (ko_label r) (ko_nbytes r) v (ko_meta r) (ko_flags r) (ko_type r) (ko_sync_ts r) (ko_pin_pg r) (ko_pin r).
Definition set_ko_meta (v : list Z) (r : kobject_hdr) : kobject_hdr :=
  mkHdr (ko_id r) (ko_ref r) (ko_quota_total r) (ko_quota_used r) (ko_parent r) (ko_label r) (ko_nbytes r) (ko_name r) v (ko_flags r) (ko_type r) (ko_sync_ts r) (ko_pin_pg r) (ko_pin r).
Definition set_ko_flags (v : Z) (r : kobject_hdr) : kobject_hdr :=
  mkHdr (ko_id r) (ko_ref r) (ko_quota_total r) (ko_quota_used r) (ko_parent r) (ko_label r) (ko_nbytes r) (ko_name r) (ko_meta r) v (ko_type r) (ko_sync_ts r) (ko_pin_pg r) (ko_pin r).
Definition set_ko_type (v : kobject_type) (r : kobject_hdr) : kobject_hdr :=
  mkHdr (ko_id r) (ko_ref r) (ko_quota_total r) (ko_quota_used r) (ko_parent r) (ko_label r) (ko_nbytes r) (ko_name r) (ko_meta r) (ko_flags r) v (ko_sync_ts r) (ko_pin_pg r) (ko_pin r).
Definition set_ko_sync_ts (v : Z) (r : kobject_hdr) : kobject_hdr :=
  mkHdr (ko_id r) (ko_ref r) (ko_quota_total r) (ko_quota_used r) (ko_parent r) (ko_label r) (ko_nbytes r) (ko_name r) (ko_meta r) (ko_flags r) (ko_type r) v (ko_pin_pg r) (ko_pin r).
Definition set_ko_pin_pg (v : Z) (r : kobject_hdr) : kobject_hdr :=
  mkHdr (ko_id r) (ko_ref r) (ko_quota_total r) (ko_quota_used r) (ko_parent r) (ko_label r) (ko_nbytes r) (ko_name r) (ko_meta r) (ko_flags r) (ko_type r) (ko_sync_ts r) v (ko_pin r).
Definition set_ko_pin (v : Z) (r : kobject_hdr) : kobject_hdr :=
  mkHdr (ko_id r) (ko_ref r) (ko_quota_total r) (ko_quota_used r) (ko_parent r) (ko_label r) (ko_nbytes r) (ko_name r) (ko_meta r) (ko_flags r) (ko_type r) (ko_sync_ts r) (ko_pin_pg r) v.

(** [struct kobject_pair]: the active object, its cache of label pointers and its snapshot. *)
Record kobject := mkKobject {
  hdr : kobject_hdr;
  body : ko_body_t;
  ko_label_cache : list (option Z);
  ko_snapshot : option (kobject_hdr * ko_body_t)
}.

Definition set_hdr (v : kobject_hdr) (r : kobject) : kobject :=
  mkKobject v (body r) (ko_label_cache r) (ko_snapshot r).
Definition set_body (v : ko_body_t) (r : kobject) : kobject :=
  mkKobject (hdr r) v (ko_label_cache r) (ko_snapshot r).
Definition set_ko_label_cache (v : list (option Z)) (r : kobject) : kobject :=
  mkKobject (hdr r) (body r) v (ko_snapshot r).
Definition set_ko_snapshot (v : option (kobject_hdr * ko_body_t)) (r : kobject) : kobject :=
  mkKobject (hdr r) (body r) (ko_label_cache r) v.

(** The delayed operation of [pstate.c]; the priority determines the function. *)
Record pstate_op_t := PstateOp {
  op_prio : Z;
  op_arg : Z * Z * Z
}.

(** ** The kernel state *)

(** The globals: [ks_heap] holds the objects in memory by identifier; [ks_list] is [ko_list], the objects that [ko_hash] finds; [ks_gc] is [ko_gc_list]; [ks_neg] the negative cache; [ks_cmp] the label comparison cache; [ks_tlists] the thread lists; [ks_sync_addr] and [ks_sync_cobj] the wait lists of [sync.c]; [ks_tickets], [ks_pass], [ks_last_tsc] the scheduler; [ks_part] tells whether there is a partition to swap from; [ks_cur_as] and [ks_cur_pgmap] are [cur_as] and the address space whose page table is loaded.  The last three are the environment: the clock, the readings of the time stamp counter and the outcomes of page allocations still to come (a missing outcome is a success). *)
Record kstate := KState {
  ks_heap : gmap Z kobject;
  ks_list : list Z;
  ks_gc : list Z;
  ks_neg : list (nat * list Z);
  ks_cmp : compare_cache;
  ks_cur : option Z;
  ks_waitlist : option Z;
  ks_tlists : gmap Z (list Z);
  ks_sync_addr : gmap Z (list (Z * nat));
  ks_sync_cobj : gmap Z (list (Z * nat));
  ks_handle_key : bf_ctx;
  ks_handle_counter : Z;
  ks_tickets : Z;
  ks_pass : Z;
  ks_last_tsc : Z;
  ks_part : bool;
  ks_opq : pstate_op_t;
  ks_cur_as : option Z;
  ks_cur_pgmap : option Z;
  ks_root_ct : Z;
  ks_now : Z;
  ks_tsc : list Z;
  ks_mem : list bool
}.

Definition set_ks_heap (v : gmap Z kobject) (r : kstate) : kstate :=
  KState v (ks_list r) (ks_gc r) (ks_neg r) (ks_cmp r) (ks_cur r) (ks_waitlist r) (ks_tlists r) (ks_sync_addr r) (ks_sync_cobj r) (ks_handle_key r) (ks_handle_counter r) (ks_tickets r) (ks_pass r) (ks_last_tsc r) (ks_part r) (ks_opq r) (ks_cur_as r) (ks_cur_pgmap r) (ks_root_ct r) (ks_now r) (ks_tsc r) (ks_mem r).
Definition set_ks_list (v : list Z) (r : kstate) : kstate :=
  KState (ks_heap r) v (ks_gc r) (ks_neg r) (ks_cmp r) (ks_cur r) (ks_waitlist r) (ks_tlists r) (ks_sync_addr r) (ks_sync_cobj r) (ks_handle_key r) (ks_handle_counter r) (ks_tickets r) (ks_pass r) (ks_last_tsc r) (ks_part r) (ks_opq r) (ks_cur_as r) (ks_cur_pgmap r) (ks_root_ct r) (ks_now r) (ks_tsc r) (ks_mem r).
Definition set_ks_gc (v : list Z) (r : kstate) : kstate :=
  KState (ks_heap r) (ks_list r) v (ks_neg r) (ks_cmp r) (ks_cur r) (ks_waitlist r) (ks_tlists r) (ks_sync_addr r) (ks_sync_cobj r) (ks_handle_key r) (ks_handle_counter r) (ks_tickets r) (ks_pass r) (ks_last_tsc r) (ks_part r) (ks_opq r) (ks_cur_as r) (ks_cur_pgmap r) (ks_root_ct r) (ks_now r) (ks_tsc r) (ks_mem r).
Definition set_ks_neg (v : list (nat * list Z)) (r : kstate) : kstate :=
  KState (ks_heap r) (ks_list r) (ks_gc r) v (ks_cmp r) (ks_cur r) (ks_waitlist r) (ks_tlists r) (ks_sync_addr r) (ks_sync_cobj r) (ks_handle_key r) (ks_handle_counter r) (ks_tickets r) (ks_pass r) (ks_last_tsc r) (ks_part r) (ks_opq r) (ks_cur_as r) (ks_cur_pgmap r) (ks_root_ct r) (ks_now r) (ks_tsc r) (ks_mem r).
Definition set_ks_cmp (v : compare_cache) (r : kstate) : kstate :=
  KState (ks_heap r) (ks_list r) (ks_gc r) (ks_neg r) v (ks_cur r) (ks_waitlist r) (ks_tlists r) (ks_sync_addr r) (ks_sync_cobj r) (ks_handle_key r) (ks_handle_counter r) (ks_tickets r) (ks_pass r) (ks_last_tsc r) (ks_part r) (ks_opq r) (ks_cur_as r) (ks_cur_pgmap r) (ks_root_ct r) (ks_now r) (ks_tsc r) (ks_mem r).
Definition set_ks_cur (v : option Z) (r : kstate) : kstate :=
  KState (ks_heap r) (ks_list r) (ks_gc r) (ks_neg r) (ks_cmp r) v (ks_waitlist r) (ks_tlists r) (ks_sync_addr r) (ks_sync_cobj r) (ks_handle_key r) (ks_handle_counter r) (ks_tickets r) (ks_pass r) (ks_last_tsc r) (ks_part r) (ks_opq r) (ks_cur_as r) (ks_cur_pgmap r) (ks_root_ct r) (ks_now r) (ks_tsc r) (ks_mem r).
Definition set_ks_waitlist (v : option Z) (r : kstate) : kstate :=
  KState (ks_heap r) (ks_list r) (ks_gc r) (ks_neg r) (ks_cmp r) (ks_cur r) v (ks_tlists r) (ks_sync_addr r) (ks_sync_cobj r) (ks_handle_key r) (ks_handle_counter r) (ks_tickets r) (ks_pass r) (ks_last_tsc r) (ks_part r) (ks_opq r) (ks_cur_as r) (ks_cur_pgmap r) (ks_root_ct r) (ks_now r) (ks_tsc r) (ks_mem r).
Definition set_ks_tlists (v : gmap Z (list Z)) (r : kstate) : kstate :=
  KState (ks_heap r) (ks_list r) (ks_gc r) (ks_neg r) (ks_cmp r) (ks_cur r) (ks_waitlist r) v (ks_sync_addr r) (ks_sync_cobj r) (ks_handle_key r) (ks_handle_counter r) (ks_tickets r) (ks_pass r) (ks_last_tsc r) (ks_part r) (ks_opq r) (ks_cur_as r) (ks_cur_pgmap r) (ks_root_ct r) (ks_now r) (ks_tsc r) (ks_mem r).
Definition set_ks_sync_addr (v : gmap Z (list (Z * nat))) (r : kstate) : kstate :=
  KState (ks_heap r) (ks_list r) (ks_gc r) (ks_neg r) (ks_cmp r) (ks_cur r) (ks_waitlist r) (ks_tlists r) v (ks_sync_cobj r) (ks_handle_key r) (ks_handle_counter r) (ks_tickets r) (ks_pass r) (ks_last_tsc r) (ks_part r) (ks_opq r) (ks_cur_as r) (ks_cur_pgmap r) (ks_root_ct r) (ks_now r) (ks_tsc r) (ks_mem r).
Definition set_ks_sync_cobj (v : gmap Z (list (Z * nat))) (r : kstate) : kstate :=
  KState (ks_heap r) (ks_list r) (ks_gc r) (ks_neg r) (ks_cmp r) (ks_cur r) (ks_waitlist r) (ks_tlists r) (ks_sync_addr r) v (ks_handle_key r) (ks_handle_counter r) (ks_tickets r) (ks_pass r) (ks_last_tsc r) (ks_part r) (ks_opq r) (ks_cur_as r) (ks_cur_pgmap r) (ks_root_ct r) (ks_now r) (ks_tsc r) (ks_mem r).
Definition set_ks_handle_key (v : bf_ctx) (r : kstate) : kstate :=
  KState (ks_heap r) (ks_list r) (ks_gc r) (ks_neg r) (ks_cmp r) (ks_cur r) (ks_waitlist r) (ks_tlists r) (ks_sync_addr r) (ks_sync_cobj r) v (ks_handle_counter r) (ks_tickets r) (ks_pass r) (ks_last_tsc r) (ks_part r) (ks_opq r) (ks_cur_as r) (ks_cur_pgmap r) (ks_root_ct r) (ks_now r) (ks_tsc r) (ks_mem r).
Definition set_ks_handle_counter (v : Z) (r : kstate) : kstate :=
  KState (ks_heap r) (ks_list r) (ks_gc r) (ks_neg r) (ks_cmp r) (ks_cur r) (ks_waitlist r) (ks_tlists r) (ks_sync_addr r) (ks_sync_cobj r) (ks_handle_key r) v (ks_tickets r) (ks_pass r) (ks_last_tsc r) (ks_part r) (ks_opq r) (ks_cur_as r) (ks_cur_pgmap r) (ks_root_ct r) (ks_now r) (ks_tsc r) (ks_mem r).
Definition set_ks_tickets (v : Z) (r : kstate) : kstate :=
  KState (ks_heap r) (ks_list r) (ks_gc r) (ks_neg r) (ks_cmp r) (ks_cur r) (ks_waitlist r) (ks_tlists r) (ks_sync_addr r) (ks_sync_cobj r) (ks_handle_key r) (ks_handle_counter r) v (ks_pass r) (ks_last_tsc r) (ks_part r) (ks_opq r) (ks_cur_as r) (ks_cur_pgmap r) (ks_root_ct r) (ks_now r) (ks_tsc r) (ks_mem r).
Definition set_ks_pass (v : Z) (r : kstate) : kstate :=
  KState (ks_heap r) (ks_list r) (ks_gc r) (ks_neg r) (ks_cmp r) (ks_cur r) (ks_waitlist r) (ks_tlists r) (ks_sync_addr r) (ks_sync_cobj r) (ks_handle_key r) (ks_handle_counter r) (ks_tickets r) v (ks_last_tsc r) (ks_part r) (ks_opq r) (ks_cur_as r) (ks_cur_pgmap r) (ks_root_ct r) (ks_now r) (ks_tsc r) (ks_mem r).
Definition set_ks_last_tsc (v : Z) (r : kstate) : kstate :=
  KState (ks_heap r) (ks_list r) (ks_gc r) (ks_neg r) (ks_cmp r) (ks_cur r) (ks_waitlist r) (ks_tlists r) (ks_sync_addr r) (ks_sync_cobj r) (ks_handle_key r) (ks_handle_counter r) (ks_tickets r) (ks_pass r) v (ks_part r) (ks_opq r) (ks_cur_as r) (ks_cur_pgmap r) (ks_root_ct r) (ks_now r) (ks_tsc r) (ks_mem r).
Definition set_ks_part (v : bool) (r : kstate) : kstate :=
  KState (ks_heap r) (ks_list r) (ks_gc r) (ks_neg r) (ks_cmp r) (ks_cur r) (ks_waitlist r) (ks_tlists r) (ks_sync_addr r) (ks_sync_cobj r) (ks_handle_key r) (ks_handle_counter r) (ks_tickets r) (ks_pass r) (ks_last_tsc r) v (ks_opq r) (ks_cur_as r) (ks_cur_pgmap r) (ks_root_ct r) (ks_now r) (ks_tsc r) (ks_mem r).
Definition set_ks_opq (v : pstate_op_t) (r : kstate) : kstate :=
  KState (ks_heap r) (ks_list r) (ks_gc r) (ks_neg r) (ks_cmp r) (ks_cur r) (ks_waitlist r) (ks_tlists r) (ks_sync_addr r) (ks_sync_cobj r) (ks_handle_key r) (ks_handle_counter r) (ks_tickets r) (ks_pass r) (ks_last_tsc r) (ks_part r) v (ks_cur_as r) (ks_cur_pgmap r) (ks_root_ct r) (ks_now r) (ks_tsc r) (ks_mem r).
Definition set_ks_cur_as (v : option Z) (r : kstate) : kstate :=
  KState (ks_heap r) (ks_list r) (ks_gc r) (ks_neg r) (ks_cmp r) (ks_cur r) (ks_waitlist r) (ks_tlists r) (ks_sync_addr r) (ks_sync_cobj r) (ks_handle_key r) (ks_handle_counter r) (ks_tickets r) (ks_pass r) (ks_last_tsc r) (ks_part r) (ks_opq r) v (ks_cur_pgmap r) (ks_root_ct r) (ks_now r) (ks_tsc r) (ks_mem r).
Definition set_ks_cur_pgmap (v : option Z) (r : kstate) : kstate :=
  KState (ks_heap r) (ks_list r) (ks_gc r) (ks_neg r) (ks_cmp r) (ks_cur r) (ks_waitlist r) (ks_tlists r) (ks_sync_addr r) (ks_sync_cobj r) (ks_handle_key r) (ks_handle_counter r) (ks_tickets r) (ks_pass r) (ks_last_tsc r) (ks_part r) (ks_opq r) (ks_cur_as r) v (ks_root_ct r) (ks_now r) (ks_tsc r) (ks_mem r).
Definition set_ks_root_ct (v : Z) (r : kstate) : kstate :=
  KState (ks_heap r) (ks_list r) (ks_gc r) (ks_neg r) (ks_cmp r) (ks_cur r) (ks_waitlist r) (ks_tlists r) (ks_sync_addr r) (ks_sync_cobj r) (ks_handle_key r) (ks_handle_counter r) (ks_tickets r) (ks_pass r) (ks_last_tsc r) (ks_part r) (ks_opq r) (ks_cur_as r) (ks_cur_pgmap r) v (ks_now r) (ks_tsc r) (ks_mem r).
Definition set_ks_now (v : Z) (r : kstate) : kstate :=
  KState (ks_heap r) (ks_list r) (ks_gc r) (ks_neg r) (ks_cmp r) (ks_cur r) (ks_waitlist r) (ks_tlists r) (ks_sync_addr r) (ks_sync_cobj r) (ks_handle_key r) (ks_handle_counter r) (ks_tickets r) (ks_pass r) (ks_last_tsc r) (ks_part r) (ks_opq r) (ks_cur_as r) (ks_cur_pgmap r) (ks_root_ct r) v (ks_tsc r) (ks_mem r).
Definition set_ks_tsc (v : list Z) (r : kstate) : kstate :=
  KState (ks_heap r) (ks_list r) (ks_gc r) (ks_neg r) (ks_cmp r) (ks_cur r) (ks_waitlist r) (ks_tlists r) (ks_sync_addr r) (ks_sync_cobj r) (ks_handle_key r) (ks_handle_counter r) (ks_tickets r) (ks_pass r) (ks_last_tsc r) (ks_part r) (ks_opq r) (ks_cur_as r) (ks_cur_pgmap r) (ks_root_ct r) (ks_now r) v (ks_mem r).
Definition set_ks_mem (v : list bool) (r : kstate) : kstate :=
  KState (ks_heap r) (ks_list r) (ks_gc r) (ks_neg r) (ks_cmp r) (ks_cur r) (ks_waitlist r) (ks_tlists r) (ks_sync_addr r) (ks_sync_cobj r) (ks_handle_key r) (ks_handle_counter r) (ks_tickets r) (ks_pass r) (ks_last_tsc r) (ks_part r) (ks_opq r) (ks_cur_as r) (ks_cur_pgmap r) (ks_root_ct r) (ks_now r) (ks_tsc r) v.

(** ** The monad

    An operation takes the state and returns its outcome with the new state.
    The state is kept when the outcome is an error: the kernel does not roll
    back what a failed call changed. *)

Definition M (A : Type) : Type := kstate -> res A * kstate.

#[export] Instance M_ret : MRet M := fun A a s => (Ok a, s).
#[export] Instance M_bind : MBind M := fun A B f m s =>
  match m s with
  | (Ok a, s') => f a s'
  | (Err e, s') => (Err e, s')
  | (Panic, s') => (Panic, s')
  end.

Definition fail {A} (e : Z) : M A := fun s => (Err e, s).
Definition panic {A} : M A := fun s => (Panic, s).
Definition gets {A} (f : kstate -> A) : M A := fun s => (Ok (f s), s).
Definition modify (f : kstate -> kstate) : M unit := fun s => (Ok tt, f s).

(** A pure outcome. *)
Definition lift {A} (r : res A) : M A := fun s => (r, s).

(** The return code of a call whose failure the caller handles itself. *)
Definition catch {A} (m : M A) : M (A + Z) := fun s =>
  match m s with
  | (Ok a, s') => (Ok (inl a), s')
  | (Err e, s') => (Ok (inr e), s')
  | (Panic, s') => (Panic, s')
  end.

(** [assert]. *)
Definition assertM (b : bool) : M unit := if b then mret tt else panic.

(** Conditional statement. *)
Definition whenM (b : bool) (m : M unit) : M unit := if b then m else mret tt.

(** ** Access to the objects *)

Definition get_ko (id : Z) : M kobject := fun s =>
  match ks_heap s !! id with
  | Some ko => (Ok ko, s)
  | None => (Panic, s)
  end.

Definition put_ko (id : Z) (ko : kobject) : M unit :=
  modify (fun s => set_ks_heap (<[id := ko]> (ks_heap s)) s).

Definition get_hdr (id : Z) : M kobject_hdr := ko ← get_ko id; mret (hdr ko).

(** Assignments to fields of the header and of the body of an object. *)
Definition upd_ko (id : Z) (f : kobject -> kobject) : M unit :=
  ko ← get_ko id; put_ko id (f ko).

Definition upd_hdr (id : Z) (f : kobject_hdr -> kobject_hdr) : M unit :=
  upd_ko id (fun ko => set_hdr (f (hdr ko)) ko).

Definition get_label_body (id : Z) : M Label :=
  ko ← get_ko id; match body ko with BLabel l => mret l | _ => panic end.
Definition get_container (id : Z) : M Container :=
  ko ← get_ko id; match body ko with BContainer c => mret c | _ => panic end.
Definition get_thread (id : Z) : M Thread :=
  ko ← get_ko id; match body ko with BThread t => mret t | _ => panic end.
Definition get_gate (id : Z) : M Gate :=
  ko ← get_ko id; match body ko with BGate g => mret g | _ => panic end.
Definition get_segment (id : Z) : M Segment :=
  ko ← get_ko id; match body ko with BSegment g => mret g | _ => panic end.
Definition get_as (id : Z) : M Address_space :=
  ko ← get_ko id; match body ko with BAs g => mret g | _ => panic end.

Definition put_body (id : Z) (b : ko_body_t) : M unit := upd_ko id (set_body b).

Definition upd_label (id : Z) (f : Label -> Label) : M unit :=
  l ← get_label_body id; put_body id (BLabel (f l)).
Definition upd_thread (id : Z) (f : Thread -> Thread) : M unit :=
  t ← get_thread id; put_body id (BThread (f t)).
Definition upd_container (id : Z) (f : Container -> Container) : M unit :=
  c ← get_container id; put_body id (BContainer (f c)).
Definition upd_segment (id : Z) (f : Segment -> Segment) : M unit :=
  g ← get_segment id; put_body id (BSegment (f g)).
Definition upd_as (id : Z) (f : Address_space -> Address_space) : M unit :=
  a ← get_as id; put_body id (BAs (f a)).
Definition upd_gate (id : Z) (f : Gate -> Gate) : M unit :=
  g ← get_gate id; put_body id (BGate (f g)).

(** The thread that runs; a null dereference when there is none. *)
Definition cur_thread_id : M Z :=
  c ← gets ks_cur; match c with Some t => mret t | None => panic end.

(** Flags of [ko_flags]. *)
Definition has_flag (h : kobject_hdr) (f : Z) : bool := negb (Z.land (ko_flags h) f =? 0).
Definition add_flag (f : Z) (h : kobject_hdr) : kobject_hdr := set_ko_flags (Z.lor (ko_flags h) f) h.
Definition del_flag (f : Z) (h : kobject_hdr) : kobject_hdr :=
  set_ko_flags (Z.land (ko_flags h) (Z.lnot f)) h.

(** Whether the list of free pages has one for the next allocation. *)
Definition next_page : M bool := fun s =>
  match ks_mem s with
  | [] => (Ok true, s)
  | b :: m => (Ok b, set_ks_mem m s)
  end.

(** The next reading of the time stamp counter. *)
Definition karch_get_tsc : M Z := fun s =>
  match ks_tsc s with
  | [] => (Ok (ks_last_tsc s), s)
  | t :: r => (Ok (u64 t), set_ks_tsc r s)
  end.

(** Lists of [inc/queue.h]: [LIST_REMOVE] of an element that is not on the
    list would follow a dangling link. *)
Definition list_remove (x : Z) (l : list Z) : res (list Z) :=
  if bool_decide (x ∈ l) then Ok (filter (fun y => y <> x) l) else Panic.

Definition tlist_get (s : kstate) (q : Z) : list Z := default [] (ks_tlists s !! q).

(** ** Reasoning about the monad

    [keeps R m]: whenever [m] does not panic, the state it leaves is related
    by [R] to the state it started from.  With [R] a preorder this composes
    along the code, and an invariant [I] is preserved when [m] keeps
    [fun s s' => I s -> I s']. *)

Class Keeps (R : kstate -> kstate -> Prop) {A} (m : M A) : Prop :=
  keeps : forall s r s', m s = (r, s') -> r <> Panic -> R s s'.

(** [post m Q]: the result and state of a successful run satisfy [Q]. *)
Definition post {A} (m : M A) (s : kstate) (Q : A -> kstate -> Prop) : Prop :=
  forall a s', m s = (Ok a, s') -> Q a s'.
