(* ===== verification/KThread.v ===== *)
(** * Pinning, the scheduler queues and thread states

    The lower half of the kernel's object layer: dirty bits, pinning and the
    garbage list of [kern/kern/kobj.c], stride scheduling ([sched.c]), the wait
    slots of [sync.c], thread state changes ([thread.c]), and the request to
    swap an object in ([pstate.c]).  These operations call each other but none
    of the label or quota code, which builds on them ([KObj]). *)

From S2P Require Import Prelude Label LabelCache Blowfish KState.
From stdpp Require Import options.

Set Default Goal Selector "!".

(** ** Dirty bits, pinning, the garbage list *)

Definition kobject_dirty (id : Z) : M unit := upd_hdr id (add_flag KOBJ_DIRTY).

Definition gc_remove (id : Z) : M unit :=
  g ← gets ks_gc;
  g' ← lift (list_remove id g);
  modify (set_ks_gc g').

Definition gc_insert (id : Z) : M unit := modify (fun s => set_ks_gc (id :: ks_gc s) s).

(** No reference and no pin: the object belongs on the garbage list. *)
Definition is_garbage (h : kobject_hdr) : bool := (ko_ref h =? 0) && (ko_pin h =? 0).

Definition kobject_pin_hdr (id : Z) : M unit :=
  h ← get_hdr id;
  whenM (is_garbage h) (gc_remove id);;
  upd_hdr id (fun h => set_ko_pin (u32 (ko_pin h + 1)) h).

Definition kobject_unpin_hdr (id : Z) : M unit :=
  h ← get_hdr id;
  (if ko_pin h =? 0 then panic else mret tt);;
  upd_hdr id (fun h => set_ko_pin (ko_pin h - 1) h);;
  h ← get_hdr id;
  whenM (is_garbage h) (gc_insert id).

Definition kobject_pin_page (id : Z) : M unit :=
  upd_hdr id (fun h => set_ko_pin_pg (u32 (ko_pin_pg h + 1)) h);;
  kobject_pin_hdr id.

Definition kobject_unpin_page (id : Z) : M unit :=
  h ← get_hdr id;
  (if ko_pin_pg h =? 0 then panic else mret tt);;
  upd_hdr id (fun h => set_ko_pin_pg (ko_pin_pg h - 1) h);;
  kobject_unpin_hdr id.

(** ** Stride scheduling *)

Definition stride1 : Z := 2 ^ 32.

Definition global_pass_update (new_global_pass : Z) : M unit :=
  tsc ← karch_get_tsc;
  last_tsc ← gets ks_last_tsc;
  let elapsed := u64 (tsc - last_tsc) in
  modify (set_ks_last_tsc (u64 (last_tsc + elapsed)));;
  if negb (new_global_pass =? 0) then modify (set_ks_pass new_global_pass)
  else
    tickets ← gets ks_tickets;
    whenM (negb (tickets =? 0))
      (modify (fun s => set_ks_pass (u64 (ks_pass s + (stride1 / tickets) * elapsed)) s)).

(** Pass values wrap around: only the sign of the difference is meaningful. *)
Definition sched_pass_below (pass thresh : Z) : bool := i64 (pass - thresh) <? 0.

Definition sched_join (t : Z) : M unit :=
  global_pass_update 0;;
  pass ← gets ks_pass;
  upd_thread t (fun th => set_th_sched_pass (u64 (pass + th_sched_pass th)) th);;
  th ← get_thread t;
  modify (fun s => set_ks_tickets (u64 (ks_tickets s + th_sched_tickets th)) s).

Definition sched_leave (t : Z) : M unit :=
  global_pass_update 0;;
  pass ← gets ks_pass;
  upd_thread t (fun th => set_th_sched_pass (u64 (th_sched_pass th - pass)) th);;
  th ← get_thread t;
  modify (fun s => set_ks_tickets (u64 (ks_tickets s - th_sched_tickets th)) s).

Definition sched_stop (t : Z) (elapsed : Z) : M unit :=
  upd_thread t (fun th =>
    let tickets := if th_sched_tickets th =? 0 then 1 else th_sched_tickets th in
    set_th_sched_pass (u64 (th_sched_pass th + (stride1 / tickets) * elapsed)) th).

(** ** The wait lists of sync.c *)

Definition sync_addr_head (seg_id offset : Z) : Z :=
  Z.land (Z.lxor seg_id (Z.shiftr offset 3)) 511.
Definition sync_cobj_head (c : cobj_ref) : Z :=
  Z.land (Z.lxor (container c) (object c)) 511.

Definition slot_list (m : gmap Z (list (Z * nat))) (h : Z) : list (Z * nat) := default [] (m !! h).

(** [LIST_REMOVE] of a wait slot from the chain it is on. *)
Definition slot_remove (r : Z * nat) (h : Z) (m : gmap Z (list (Z * nat))) :
  res (gmap Z (list (Z * nat))) :=
  let l := slot_list m h in
  if bool_decide (r ∈ l) then Ok (<[h := filter (fun y => y <> r) l]> m) else Panic.

Fixpoint sync_remove_slots (t : Z) (slots : list nat) : M unit :=
  match slots with
  | [] => mret tt
  | i :: rest =>
      th ← get_thread t;
      sw ← lift (res_nth (te_slots th) i);
      upd_thread t (set_te_wait_slots rest);;
      a ← gets ks_sync_addr;
      a' ← lift (slot_remove (t, i) (sync_addr_head (sw_seg sw) (sw_offset sw)) a);
      modify (set_ks_sync_addr a');;
      whenM (negb (object (sw_cobj sw) =? 0))
        (c ← gets ks_sync_cobj;
         c' ← lift (slot_remove (t, i) (sync_cobj_head (sw_cobj sw)) c);
         modify (set_ks_sync_cobj c'));;
      sync_remove_slots t rest
  end.

Definition sync_remove_thread (t : Z) : M unit :=
  th ← get_thread t;
  assertM (th_sync_waiting th);;
  upd_thread t (set_th_sync_waiting false);;
  sync_remove_slots t (te_wait_slots th).

(** ** Thread states *)

Definition thread_pin (t : Z) : M unit :=
  th ← get_thread t;
  whenM (negb (th_pinned th))
    (upd_thread t (set_th_pinned true);; kobject_pin_hdr t).

Definition thread_unpin (t : Z) : M unit :=
  th ← get_thread t;
  whenM (th_pinned th)
    (upd_thread t (set_th_pinned false);; kobject_unpin_hdr t).

(** [LIST_REMOVE(t, th_link)] takes the thread off whichever list it is on. *)
Definition tlists_remove (t : Z) (m : gmap Z (list Z)) : res (gmap Z (list Z)) :=
  if existsb (fun p : Z * list Z => bool_decide (t ∈ p.2)) (map_to_list m)
  then Ok (filter (fun y => y <> t) <$> m) else Panic.

Definition thread_unlink (t : Z) : M unit :=
  th ← get_thread t;
  whenM (th_linked th)
    (q ← gets ks_tlists;
     q' ← lift (tlists_remove t q);
     modify (set_ks_tlists q');;
     upd_thread t (set_th_linked false));;
  th ← get_thread t;
  whenM (th_sync_waiting th) (sync_remove_thread t).

Definition thread_link (t : Z) (tlist : Z) : M unit :=
  th ← get_thread t;
  assertM (negb (th_linked th));;
  modify (fun s => set_ks_tlists (<[tlist := t :: tlist_get s tlist]> (ks_tlists s)) s);;
  upd_thread t (set_th_linked true).

Definition thread_sched_adjust (t : Z) (runnable : bool) : M unit :=
  th ← get_thread t;
  whenM (th_sched_joined th && negb runnable)
    (sched_leave t;; upd_thread t (set_th_sched_joined false));;
  th ← get_thread t;
  whenM (negb (th_sched_joined th) && runnable)
    (sched_join t;; upd_thread t (set_th_sched_joined true)).

Definition thread_set_runnable (t : Z) : M unit :=
  kobject_dirty t;;
  thread_sched_adjust t false;;
  thread_unlink t;;
  thread_link t TL_runnable;;
  upd_thread t (set_th_status thread_runnable);;
  thread_sched_adjust t true;;
  thread_pin t.

Definition thread_suspend (t : Z) (waitq : Z) : M unit :=
  kobject_dirty t;;
  thread_sched_adjust t false;;
  thread_unlink t;;
  thread_link t waitq;;
  upd_thread t (set_th_status thread_suspended);;
  thread_pin t.

Definition thread_halt (t : Z) : M unit :=
  kobject_dirty t;;
  thread_sched_adjust t false;;
  thread_unlink t;;
  upd_thread t (set_th_status thread_halted);;
  thread_unpin t;;
  cur ← gets ks_cur;
  whenM (bool_decide (cur = Some t)) (modify (set_ks_cur None)).

Definition thread_swapin (t : Z) : M unit :=
  upd_thread t (fun th =>
    set_th_sched_pass 0 (set_th_linked false (set_th_sync_waiting false
      (set_th_sched_joined false (set_th_pinned false (set_th_as None th))))));;
  th ← get_thread t;
  whenM (bool_decide (th_status th = thread_suspended))
    (upd_thread t (set_th_status thread_runnable));;
  th ← get_thread t;
  whenM (bool_decide (th_status th = thread_runnable))
    (thread_link t TL_runnable;;
     thread_sched_adjust t true;;
     thread_pin t).

Definition thread_clear_as (t : Z) : M unit :=
  th ← get_thread t;
  match th_as th with
  | Some a => kobject_unpin_hdr a;; upd_thread t (set_th_as None)
  | None => mret tt
  end.

Definition thread_swapout (t : Z) : M unit :=
  thread_unpin t;;
  thread_sched_adjust t false;;
  thread_unlink t;;
  thread_clear_as t.

Definition thread_change_as (t : Z) (a : cobj_ref) : M unit :=
  kobject_dirty t;;
  thread_clear_as t;;
  upd_thread t (set_th_asref a).

Definition thread_suspend_cur (waitq : Z) : M unit :=
  cur ← gets ks_cur;
  match cur with
  | Some t => thread_suspend t waitq
  | None =>
      wl ← gets ks_waitlist;
      match wl with
      | Some q =>
          if bool_decide (q = waitq) then mret tt
          else
            l ← gets (fun s => tlist_get s q);
            match l with
            | t :: _ => thread_suspend t waitq
            | [] => mret tt
            end
      | None => mret tt
      end
  end.

(** ** Negative cache of object identifiers *)

Definition kobj_neg_size : nat := 2.
Definition kobj_neg_hash : nat := 64.

Definition neg_idx (id : Z) : nat := Z.to_nat (id mod Z.of_nat kobj_neg_hash).

Definition neg_bucket (s : kstate) (id : Z) : nat * list Z :=
  default (0%nat, []) (ks_neg s !! neg_idx id).

Definition kobject_negative_insert (id : Z) : M unit := modify (fun s =>
  let '(next, ents) := neg_bucket s id in
  set_ks_neg (<[neg_idx id := ((next + 1) mod kobj_neg_size, <[next := id]> ents)%nat]> (ks_neg s)) s).

Definition kobject_negative_remove (id : Z) : M unit := modify (fun s =>
  let '(next, ents) := neg_bucket s id in
  set_ks_neg (<[neg_idx id := (next, map (fun e => if e =? id then 0 else e) ents)]> (ks_neg s)) s).

Definition kobject_negative_contains (id : Z) : M bool := gets (fun s =>
  existsb (fun e => e =? id) (neg_bucket s id).2).

Definition neg_init : list (nat * list Z) := replicate kobj_neg_hash (0%nat, replicate kobj_neg_size 0).

(** ** Requests to the persistent store *)

Definition op_swapin : Z := 1.
Definition op_swapout_global : Z := 3.
Definition op_swapout_global_gc : Z := 4.

Definition pstate_op_schedule (prio : Z) (args : Z * Z * Z) : M unit :=
  q ← gets ks_opq;
  whenM (op_prio q <? prio) (modify (set_ks_opq (PstateOp prio args))).

(** The requested object is not in memory: the caller has to be restarted
    after the swap-in. *)
Definition pstate_swapin {A} (id : Z) : M A :=
  part ← gets ks_part;
  if negb part then kobject_negative_insert id;; fail E_RESTART
  else
    thread_suspend_cur TL_pstate_waiting;;
    pstate_op_schedule op_swapin (id, 0, 0);;
    fail E_RESTART.

Definition pstate_sync_schedule (gc : bool) : M unit :=
  pstate_op_schedule (if gc then op_swapout_global_gc else op_swapout_global) (0, 0, 0).

Definition pstate_sync (gc : bool) : M unit :=
  part ← gets ks_part;
  whenM part
    (thread_suspend_cur TL_pstate_waiting;;
     pstate_sync_schedule gc).

(** Without a free page the thread waits for a sync that frees memory, and the
    caller is restarted. *)
Definition page_alloc : M unit :=
  ok ← next_page;
  if (ok : bool) then mret tt
  else
    pstate_sync true;;
    fail E_RESTART.
