(* ===== verification/KObj.v ===== *)
(** * Kernel objects: lookup, labels, quota and references

    [kern/kern/kobj.c] above pinning: finding an object with an information
    flow check, the labels of an object, quota reservation, resizing,
    reference counts and allocation; with the parts of [container.c],
    [thread.c], [segment.c], [sync.c] and [as.c] that dropping a reference
    runs. *)

From S2P Require Import Prelude Label LabelCache Blowfish KState KThread.
From stdpp Require Import options.

Set Default Goal Selector "!".

#[global] Arguments handle_alloc : simpl never.

(** ** Finding an object *)

Definition kobject_translate_id (id : Z) : M Z :=
  if id =? kobject_id_thread_sg then
    t ← cur_thread_id; th ← get_thread t; mret (th_sg th)
  else mret id.

(** The search of [ko_hash]. *)
Definition kobject_incore (id : Z) : M bool := gets (fun s => bool_decide (id ∈ ks_list s)).

Definition type_matches (q : type_query) (t : kobject_type) : bool :=
  match q with
  | None => true
  | Some t' => bool_decide (t' = t)
  end.

(** [kobject_get] with the information flow check as an argument. *)
Definition kobject_get_with (check : Z -> M unit) (id : Z) (type : type_query) : M Z :=
  id ← kobject_translate_id id;
  inc ← kobject_incore id;
  if (inc : bool) then
    h ← get_hdr id;
    if ko_ref h =? 0 then fail E_NOT_FOUND
    else
      (if bool_decide (ko_type h = kobj_label) then mret tt else check id);;
      if type_matches type (ko_type h) then mret id else fail E_NOT_FOUND
  else
    neg ← kobject_negative_contains id;
    if (neg : bool) then fail E_NOT_FOUND else pstate_swapin id.

(** [kobject_get(..., iflow_none)], which makes no check. *)
Definition kobject_get_none : Z -> type_query -> M Z := kobject_get_with (fun _ => mret tt).

(** [label_compare_id] of [label.c]: the cache, then the two label objects. *)
Definition kobject_label_compare_id (l1_id l2_id : Z) (c : level_comparator) : M unit :=
  cc ← gets ks_cmp;
  if compare_cache_hit cc l1_id l2_id c then mret tt
  else
    k1 ← kobject_get_none l1_id (Some kobj_label);
    k2 ← kobject_get_none l2_id (Some kobj_label);
    l1 ← get_label_body k1;
    l2 ← get_label_body k2;
    cc ← gets ks_cmp;
    let '(r, cc') := label_compare_obj cc (k1, l1) (k2, l2) c true in
    modify (set_ks_cmp cc');;
    lift r.

Definition hdr_label (h : kobject_hdr) (idx : nat) : Z := nth idx (ko_label h) 0.

Definition kobject_iflow_check (ko : Z) (iflow : info_flow_type) : M unit :=
  if bool_decide (iflow = iflow_none) then mret tt
  else
    cur ← gets ks_cur;
    match cur with
    | None => mret tt
    | Some t =>
        th ← get_hdr t;
        h ← get_hdr ko;
        let th_label_id := hdr_label th kolabel_tracking in
        let th_clear_id := hdr_label th kolabel_clearance in
        let ko_label_id := hdr_label h kolabel_tracking in
        let ko_clear_id := hdr_label h kolabel_clearance in
        assertM (negb (th_label_id =? 0) && negb (th_clear_id =? 0));;
        if ko_label_id =? 0 then fail E_LABEL
        else
          match iflow with
          | iflow_read => kobject_label_compare_id ko_label_id th_label_id label_leq_starhi
          | iflow_rw =>
              if has_flag h KOBJ_READONLY then fail E_READ_ONLY
              else
                kobject_label_compare_id th_label_id ko_label_id label_leq_starlo;;
                kobject_label_compare_id ko_label_id th_label_id label_leq_starhi
          | iflow_alloc =>
              kobject_label_compare_id th_label_id ko_label_id label_leq_starlo;;
              if negb (ko_clear_id =? 0) then
                kobject_label_compare_id ko_label_id ko_clear_id label_leq_starlo;;
                kobject_label_compare_id ko_clear_id th_clear_id label_leq_starlo
              else kobject_label_compare_id ko_label_id th_clear_id label_leq_starlo
          | iflow_none => panic
          end
    end.

Definition kobject_get (id : Z) (type : type_query) (iflow : info_flow_type) : M Z :=
  kobject_get_with (fun ko => kobject_iflow_check ko iflow) id type.

(** ** The labels of an object *)

(** The label cache holds weak pointers ([kocache.c]). *)
Definition kobj_weak_put (id : Z) (idx : nat) (l : option Z) : M unit :=
  upd_ko id (fun ko => set_ko_label_cache (<[idx := l]> (ko_label_cache ko)) ko).

(** The weak pointers to an object that goes away are cleared. *)
Definition kobj_weak_drop (id : Z) : M unit := modify (fun s =>
  set_ks_heap ((fun ko => set_ko_label_cache
    (map (fun w => if bool_decide (w = Some id) then None else w) (ko_label_cache ko)) ko)
    <$> ks_heap s) s).

(** The label at an index, [None] for a null pointer. *)
Definition kobject_get_label (id : Z) (idx : nat) : M (option Z) :=
  ko ← get_ko id;
  let lid := hdr_label (hdr ko) idx in
  let slow :=
    if negb (lid =? 0) then
      l ← kobject_get_none lid (Some kobj_label);
      kobj_weak_put id idx (Some l);;
      mret (Some l)
    else mret None in
  match ko_label_cache ko !! idx with
  | Some (Some l) =>
      lh ← get_hdr l;
      if ko_id lh =? lid then mret (Some l) else slow
  | _ => slow
  end.

(** ** Quota *)

Definition quota_total_add (n : Z) (h : kobject_hdr) : kobject_hdr :=
  set_ko_quota_total (u64 (ko_quota_total h + n)) h.
Definition quota_used_add (n : Z) (h : kobject_hdr) : kobject_hdr :=
  set_ko_quota_used (u64 (ko_quota_used h + n)) h.
Definition quota_avail (h : kobject_hdr) : Z := u64 (ko_quota_total h - ko_quota_used h).

(** One attempt to borrow from the parent.  [again] is the value to return on
    success: [true] stands for the code [-E_AGAIN].  The chain of parents is
    followed at most [fuel] times. *)
Fixpoint kobject_borrow_parent_quota_one (fuel : nat) (ko nbytes : Z) (again : bool) : M bool :=
  match fuel with
  | O => panic
  | S fuel =>
      h ← get_hdr ko;
      if has_flag h KOBJ_FIXED_QUOTA then fail E_FIXED_QUOTA
      else if ko_ref h =? 0 then
        upd_hdr ko (quota_total_add nbytes);; mret again
      else
        assertM (negb (ko_parent h =? 0));;
        p ← kobject_get (ko_parent h) None iflow_rw;
        kobject_dirty p;;
        ph ← get_hdr p;
        if negb (ko_quota_total ph =? CT_QUOTA_INF) && (quota_avail ph <? nbytes) then
          kobject_borrow_parent_quota_one fuel p (u64 (nbytes - quota_avail ph)) true
        else
          upd_hdr p (quota_used_add nbytes);;
          upd_hdr ko (quota_total_add nbytes);;
          mret again
  end.

(** [do ... while (r == -E_AGAIN)]. *)
Fixpoint kobject_borrow_loop (fuel chain : nat) (ko nbytes : Z) : M unit :=
  match fuel with
  | O => panic
  | S fuel =>
      again ← kobject_borrow_parent_quota_one chain ko nbytes false;
      if (again : bool) then kobject_borrow_loop fuel chain ko nbytes else mret tt
  end.

(** Without cycles among the parents a chain visits each object once, and each
    repetition leaves the quota missing one level closer to the object. *)
Definition kobject_borrow_parent_quota (ko nbytes : Z) : M unit :=
  n ← gets (fun s => S (size (ks_heap s)));
  kobject_borrow_loop n n ko nbytes.

Record kobject_quota_resv := QuotaResv {
  qr_ko : Z;
  qr_nbytes : Z
}.

Definition kobject_qres_init (ko : Z) : kobject_quota_resv := QuotaResv ko 0.

Definition kobject_qres_reserve (qr : kobject_quota_resv) (ko : Z) : M kobject_quota_resv :=
  qh ← get_hdr (qr_ko qr);
  if negb (ko_quota_total qh =? CT_QUOTA_INF) then
    kh ← get_hdr ko;
    (if quota_avail qh <? ko_quota_total kh then
       r ← catch (kobject_borrow_parent_quota (qr_ko qr) (u64 (ko_quota_total kh - quota_avail qh)));
       match r with
       | inl _ => mret tt
       | inr e => if e =? E_RESTART then fail e else fail E_RESOURCE
       end
     else mret tt);;
    kh ← get_hdr ko;
    upd_hdr (qr_ko qr) (quota_used_add (ko_quota_total kh));;
    mret (QuotaResv (qr_ko qr) (u64 (qr_nbytes qr + ko_quota_total kh)))
  else mret qr.

Definition kobject_qres_take (qr : kobject_quota_resv) (ko : Z) : M kobject_quota_resv :=
  qh ← get_hdr (qr_ko qr);
  if negb (ko_quota_total qh =? CT_QUOTA_INF) then
    kh ← get_hdr ko;
    assertM (ko_quota_total kh <=? qr_nbytes qr);;
    mret (QuotaResv (qr_ko qr) (qr_nbytes qr - ko_quota_total kh))
  else mret qr.

Definition kobject_qres_release (qr : kobject_quota_resv) : M unit :=
  upd_hdr (qr_ko qr) (quota_used_add (- qr_nbytes qr)).

(** ** Pages *)

Definition ROUNDUP (a n : Z) : Z := let r := u64 (a + n - 1) in r - r mod n.

Definition npages_of (nbytes : Z) : Z := ROUNDUP nbytes PGSIZE / PGSIZE.
Definition kobject_npages (h : kobject_hdr) : Z := npages_of (ko_nbytes h).

Definition PAGETREE_DIRECT_PAGES : Z := 4.
Definition PAGETREE_INDIRECTS : nat := 4.
Definition PAGETREE_ENTRIES_PER_PAGE : Z := 128.

Fixpoint indirect_pages (n : nat) (indirs : Z) : Z :=
  match n with
  | O => 0
  | S n =>
      let indirs := indirs * PAGETREE_ENTRIES_PER_PAGE in indirs + indirect_pages n indirs
  end.

Definition pagetree_maxpages : Z := PAGETREE_DIRECT_PAGES + indirect_pages PAGETREE_INDIRECTS 1.

Inductive page_sharing_mode := page_shared_ro | page_excl_dirty | page_excl_dirty_later.

#[export] Instance page_sharing_mode_eq_dec : EqDecision page_sharing_mode.
Proof. solve_decision. Defined.

Definition N_USEGMAP_PER_PAGE : nat := 85.
Definition NUM_CT_SLOT_INLINE : nat := 16.
Definition NUM_CT_SLOT_PER_PAGE : nat := 256.

Definition zero_usm : u_segment_mapping := USegMap (COBJ 0 0) 0 0 0 0 0.
Definition zero_words : list Z := replicate 512 0.

(** Pages past the new end are dropped and new pages are zero. *)
Definition resize_pages {P} (zero : P) (n : nat) (pages : list P) : list P :=
  take n pages ++ replicate (n - length pages) zero.

Definition body_resize (n : nat) (b : ko_body_t) : ko_body_t :=
  match b with
  | BLabel l => BLabel (mkLabel (lb_def_level l) (lb_nent l) (lb_ent l)
                  (resize_pages zero_label_page n (lb_pages l)))
  | BContainer c => BContainer (set_ct_pages
                      (resize_pages (replicate NUM_CT_SLOT_PER_PAGE zero_slot) n (ct_pages c)) c)
  | BSegment g => BSegment (set_sg_pages (resize_pages zero_words n (sg_pages g)) g)
  | BAs a => BAs (set_as_pages (resize_pages (replicate N_USEGMAP_PER_PAGE zero_usm) n (as_pages a)) a)
  | _ => b
  end.

(** Each new page takes an allocation for the page and possibly one for the
    page tree. *)
Fixpoint alloc_pages (n : nat) : M unit :=
  match n with
  | O => mret tt
  | S n => page_alloc;; page_alloc;; alloc_pages n
  end.

Definition kobject_set_nbytes (kp nbytes : Z) : M unit :=
  h ← get_hdr kp;
  let curnpg := kobject_npages h in
  let npages := npages_of nbytes in
  if pagetree_maxpages <? npages then fail E_RANGE
  else
    let quota_diff := i64 ((npages - curnpg) * PGSIZE) in
    let abs_qdiff := u64 (if 0 <? quota_diff then quota_diff else - quota_diff) in
    (if (0 <? quota_diff) && negb (ko_quota_total h =? CT_QUOTA_INF) && (quota_avail h <? abs_qdiff)
     then
       r ← catch (kobject_borrow_parent_quota kp abs_qdiff);
       match r with
       | inl _ => mret tt
       | inr _ => fail E_RESOURCE
       end
     else mret tt);;
    if CT_QUOTA_INF <=? nbytes then fail E_RESOURCE
    else
      h ← get_hdr kp;
      whenM (npages <? curnpg) (assertM (ko_pin_pg h =? 0));;
      whenM (npages <? curnpg)
        (upd_ko kp (fun ko => set_body (body_resize (Z.to_nat npages) (body ko)) ko));;
      alloc_pages (Z.to_nat (npages - curnpg));;
      upd_ko kp (fun ko => set_body (body_resize (Z.to_nat npages) (body ko)) ko);;
      upd_hdr kp (fun h => quota_used_add quota_diff (set_ko_nbytes nbytes h)).

(** Access to a page of kernel data (label entries, container slots, segment
    mappings); an exclusive access may have to copy the page. *)
Definition kobject_get_page (kp : Z) (npage : nat) (rw : page_sharing_mode) : M unit :=
  h ← get_hdr kp;
  if kobject_npages h <=? Z.of_nat npage then fail E_INVAL
  else
    whenM (bool_decide (rw = page_excl_dirty)) (kobject_dirty kp);;
    whenM (negb (bool_decide (rw = page_shared_ro))) page_alloc.

(** ** Container slots *)

Definition slot_matches (id : Z) (cs : container_slot) : Prop := cs_id cs = id /\ 0 < cs_ref cs.

#[export] Instance slot_matches_dec id cs : Decision (slot_matches id cs).
Proof. unfold slot_matches. apply _. Defined.

(** The pages from [page] on, [n] of them; a slot is its position among all. *)
Fixpoint slot_search_pages (P : container_slot -> Prop) `{!forall cs, Decision (P cs)}
  (c : Z) (rw : page_sharing_mode) (page n : nat) : M (option nat) :=
  match n with
  | O => mret None
  | S n =>
      kobject_get_page c page rw;;
      ct ← get_container c;
      pg ← lift (res_nth (ct_pages ct) page);
      match list_find P pg with
      | Some (i, _) => mret (Some (NUM_CT_SLOT_INLINE + page * NUM_CT_SLOT_PER_PAGE + i)%nat)
      | None => slot_search_pages P c rw (S page) n
      end
  end.

Definition container_slot_find (c ko_id : Z) (rw : page_sharing_mode) : M nat :=
  ct ← get_container c;
  match list_find (slot_matches ko_id) (ct_slots ct) with
  | Some (i, _) =>
      whenM (bool_decide (rw = page_excl_dirty)) (kobject_dirty c);; mret i
  | None =>
      h ← get_hdr c;
      r ← slot_search_pages (slot_matches ko_id) c rw 0 (Z.to_nat (kobject_npages h));
      match r with
      | Some i => mret i
      | None => fail E_NOT_FOUND
      end
  end.

Definition container_find (id : Z) (iflow : info_flow_type) : M Z :=
  kobject_get id (Some kobj_container) iflow.

Definition container_has (c id : Z) : M unit :=
  container_slot_find c id page_shared_ro;; mret tt.

(** ** What dropping a reference runs *)

(** One of the two scheduling parents: [true] when the thread may go on. *)
Definition sched_parent_ok (t parent : Z) : M bool :=
  r ← catch (container_find parent iflow_read);
  match r with
  | inr e => mret (e =? E_RESTART)
  | inl c =>
      r ← catch (container_has c t);
      match r with
      | inr e => mret (e =? E_RESTART)
      | inl _ => mret true
      end
  end.

Definition thread_check_sched_parents (t : Z) : M unit :=
  cur ← gets ks_cur;
  if bool_decide (cur = Some t) then
    th ← get_thread t;
    ok ← sched_parent_ok t (th_sched_parents th).1;
    if (ok : bool) then mret tt
    else
      ok ← sched_parent_ok t (th_sched_parents th).2;
      if (ok : bool) then mret tt else thread_halt t
  else mret tt.

Definition thread_set_sched_parents (t p0 p1 : Z) : M unit :=
  kobject_dirty t;;
  upd_thread t (set_th_sched_parents (p0, p1));;
  thread_check_sched_parents t.

Definition thread_on_decref (t parent_ct : Z) : M unit :=
  h ← get_hdr t;
  if ko_ref h =? 0 then thread_halt t
  else
    th ← get_thread t;
    whenM ((parent_ct =? (th_sched_parents th).1) || (parent_ct =? (th_sched_parents th).2))
      (thread_check_sched_parents t).

Definition usm_at (a : Address_space) (slot : Z) : option u_segment_mapping :=
  pg ← as_pages a !! Z.to_nat (slot / Z.of_nat N_USEGMAP_PER_PAGE);
  pg !! Z.to_nat (slot mod Z.of_nat N_USEGMAP_PER_PAGE).

(** Page table entries between two addresses are removed. *)
Definition page_map_clear (first last : Z) (pt : gmap Z (Z * Z * Z)) : gmap Z (Z * Z * Z) :=
  filter (fun p => ~ (first <= p.1 <= last)) pt.

Definition seg_unlink (ko : Z) (as_id slot : Z) : M unit :=
  o ← get_ko ko;
  match body o with
  | BSegment g =>
      if bool_decide ((as_id, slot) ∈ sg_segmap_list g)
      then put_body ko (BSegment (set_sg_segmap_list (filter (fun p => p <> (as_id, slot)) (sg_segmap_list g)) g))
      else panic
  | BDevice d =>
      if bool_decide ((as_id, slot) ∈ dv_segmap_list d)
      then put_body ko (BDevice (set_dv_segmap_list (filter (fun p => p <> (as_id, slot)) (dv_segmap_list d)) d))
      else panic
  | _ => panic
  end.

Definition as_invalidate_sm (as_id slot : Z) : M unit :=
  a ← get_as as_id;
  match as_segmap a !! slot with
  | Some (SegMap rw ct sl (Some ko)) =>
      match usm_at a sl, as_pgmap a with
      | Some usm, Some pt =>
          let map_last := u64 (usm_va usm + (usm_num_pages usm - 1) * PGSIZE) in
          upd_as as_id (set_as_pgmap (Some (page_map_clear (usm_va usm) map_last pt)));;
          seg_unlink ko as_id slot;;
          kobject_unpin_page ko;;
          upd_as as_id (fun a => set_as_segmap (<[slot := SegMap false ct sl None]> (as_segmap a)) a)
      | _, _ => panic
      end
  | _ => mret tt
  end.

(** The mappings of a segment made through the container, or all of them. *)
Fixpoint segment_invalidate_loop (parent_ct : Z) (sms : list (Z * Z)) : M unit :=
  match sms with
  | [] => mret tt
  | (as_id, slot) :: rest =>
      a ← get_as as_id;
      let ct := match as_segmap a !! slot with Some sm => sm_ct_id sm | None => 0 end in
      whenM ((parent_ct =? 0) || (parent_ct =? ct)) (as_invalidate_sm as_id slot);;
      segment_invalidate_loop parent_ct rest
  end.

Definition segment_invalidate (sg parent_ct : Z) : M unit :=
  g ← get_segment sg;
  segment_invalidate_loop parent_ct (sg_segmap_list g).

(** Wakes the threads waiting on a segment through a container.  Waking a
    thread takes its slots off the chain, so the chain is read again. *)
Fixpoint sync_wakeup_segment_loop (fuel : nat) (seg : cobj_ref) : M unit :=
  match fuel with
  | O => mret tt
  | S fuel =>
      chain ← gets (fun s => slot_list (ks_sync_cobj s) (sync_cobj_head seg));
      let waits (s : kstate) (r : Z * nat) : bool :=
        match ks_heap s !! r.1 with
        | Some ko => match body ko with
                     | BThread th => match te_slots th !! r.2 with
                                     | Some sw => bool_decide (sw_cobj sw = seg)
                                     | None => false
                                     end
                     | _ => false
                     end
        | None => false
        end in
      hit ← gets (fun s => find (waits s) chain);
      match hit with
      | None => mret tt
      | Some (t, _) => thread_set_runnable t;; sync_wakeup_segment_loop fuel seg
      end
  end.

Definition sync_wakeup_segment (seg : cobj_ref) : M unit :=
  n ← gets (fun s => length (slot_list (ks_sync_cobj s) (sync_cobj_head seg)));
  sync_wakeup_segment_loop n seg.

Definition segment_on_decref (sg parent_ct : Z) : M unit :=
  segment_invalidate sg parent_ct;;
  h ← get_hdr sg;
  sync_wakeup_segment (COBJ parent_ct (ko_id h)).

(** ** References *)

Definition kobject_incref_resv (ko : Z) (qr : option kobject_quota_resv) : M (option kobject_quota_resv) :=
  kobject_dirty ko;;
  h ← get_hdr ko;
  whenM (is_garbage h) (gc_remove ko);;
  upd_hdr ko (fun h => set_ko_ref (u64 (ko_ref h + 1)) h);;
  match qr with
  | Some qr =>
      qr ← kobject_qres_take qr ko;
      qh ← get_hdr (qr_ko qr);
      upd_hdr ko (set_ko_parent (ko_id qh));;
      mret (Some qr)
  | None => mret None
  end.

Definition kobject_incref (ko refholder : Z) : M unit :=
  qr ← kobject_qres_reserve (kobject_qres_init refholder) ko;
  kobject_incref_resv ko (Some qr);;
  mret tt.

Definition kobject_decref (ko refholder : Z) : M unit :=
  kobject_dirty ko;;
  h ← get_hdr ko;
  assertM (negb (ko_ref h =? 0));;
  upd_hdr ko (fun h => set_ko_ref (ko_ref h - 1) h);;
  h ← get_hdr ko;
  upd_hdr refholder (quota_used_add (- ko_quota_total h));;
  rh ← get_hdr refholder;
  whenM (ko_id rh =? ko_parent h) (upd_hdr ko (set_ko_parent 0));;
  h ← get_hdr ko;
  whenM (is_garbage h) (gc_insert ko);;
  whenM (bool_decide (ko_type h = kobj_thread)) (thread_on_decref ko (ko_id rh));;
  whenM (bool_decide (ko_type h = kobj_segment)) (segment_on_decref ko (ko_id rh)).

(** ** Setting the labels of an object *)

Definition kobject_set_label_prepared (kp : Z) (idx : nat) (old_label new_label : option Z)
  (qr : option kobject_quota_resv) : M (option kobject_quota_resv) :=
  h ← get_hdr kp;
  match old_label with
  | Some o =>
      oh ← get_hdr o;
      assertM (hdr_label h idx =? ko_id oh);;
      kobject_decref o kp
  | None => assertM (hdr_label h idx =? 0)
  end;;
  qr ← match new_label with
       | Some n => kobject_incref_resv n qr
       | None => mret qr
       end;
  new_id ← match new_label with
           | Some n => nh ← get_hdr n; mret (ko_id nh)
           | None => mret 0
           end;
  upd_hdr kp (fun h => set_ko_label (<[idx := new_id]> (ko_label h)) h);;
  mret qr.

Definition kobject_set_label (kp : Z) (idx : nat) (new_label : option Z) : M unit :=
  old_label ← kobject_get_label kp idx;
  qr ← match new_label with
       | Some n => kobject_qres_reserve (kobject_qres_init kp) n
       | None => mret (kobject_qres_init kp)
       end;
  kobject_set_label_prepared kp idx old_label new_label (Some qr);;
  mret tt.

(** ** Allocation *)

Definition new_hdr (id : Z) (type : kobject_type) : kobject_hdr :=
  mkHdr id 0 KOBJ_DISK_SIZE KOBJ_DISK_SIZE 0 (replicate kolabel_max 0) 0
    (replicate 32 0) (replicate 64 0) KOBJ_DIRTY type 0 0 0.

Definition zero_tf : Trapframe := mkTrapframe 0 0 0 0 0 0 0 0 0 0 0 0 0 0 0 0 0 0 0 0 0 0 0 0 0.
Definition zero_te : thread_entry := ThreadEntry (COBJ 0 0) 0 0 (replicate 6 0).

(** The zeroed body of a new object.  A new thread has status 0, which is no
    status; [thread_alloc] assigns [thread_not_started]. *)
Definition new_body (type : kobject_type) : ko_body_t :=
  match type with
  | kobj_container => BContainer (mkContainer 0 (replicate NUM_CT_SLOT_INLINE zero_slot) [])
  | kobj_thread => BThread (mkThread zero_tf 0 (COBJ 0 0) None thread_not_started false false false
                     false false false false 0 0 (0, 0) 0 0 [] [])
  | kobj_gate => BGate (mkGate zero_te false false)
  | kobj_segment => BSegment (mkSegment [] [])
  | kobj_address_space => BAs (mkAs 0 0 0 [] ∅ None 0 0)
  | kobj_device => BDevice (mkDevice 0 0 [])
  | kobj_label | kobj_dead => BLabel (label_alloc 0)
  end.

(** The identifier of a new object is fresh ([handle_alloc]); the heap is
    keyed by identifiers, so a repeated one has no representation here. *)
Definition kobject_new_id : M Z :=
  key ← gets ks_handle_key;
  ctr ← gets ks_handle_counter;
  p ← lift (handle_alloc 2 key ctr);
  modify (set_ks_handle_counter p.2);;
  used ← gets (fun s => bool_decide (is_Some (ks_heap s !! p.1)));
  if (used : bool) then panic else mret p.1.

Definition page_free_ko (id : Z) : M unit := modify (fun s => set_ks_heap (delete id (ks_heap s)) s).

Definition kobject_alloc (type : kobject_type) (l c : option Z) : M Z :=
  assertM (xorb (bool_decide (type = kobj_label)) (bool_decide (is_Some l)));;
  assertM (xorb (bool_decide (type = kobj_thread) || bool_decide (type = kobj_gate)) (bool_decide (c = None)));;
  page_alloc;;
  kh ← kobject_new_id;
  put_ko kh (mkKobject (new_hdr kh type) (new_body type) (replicate kolabel_max None) None);;
  r ← catch (kobject_set_label kh kolabel_tracking l);
  match r with
  | inr e => page_free_ko kh;; fail e
  | inl _ =>
      r ← catch (kobject_set_label kh kolabel_clearance c);
      match r with
      | inr e =>
          kobject_set_label_prepared kh kolabel_tracking l None None;;
          page_free_ko kh;; fail e
      | inl _ =>
          r ← catch (if bool_decide (type = kobj_label) then mret tt
                     else kobject_iflow_check kh iflow_alloc);
          match r with
          | inr e =>
              kobject_set_label_prepared kh kolabel_clearance c None None;;
              kobject_set_label_prepared kh kolabel_tracking l None None;;
              page_free_ko kh;; fail e
          | inl _ =>
              kobject_negative_remove kh;;
              modify (fun s => set_ks_list (kh :: ks_list s) s);;
              gc_insert kh;;
              mret kh
          end
      end
  end.
