(* ===== verification/KOps.v ===== *)
(** * Operations on containers, segments, labels, gates and threads

    The rest of [kern/kern/container.c], [segment.c], [gate.c] and the label
    manipulation and allocation parts of [thread.c] and [label.c] as operations
    on the kernel state. *)

From S2P Require Import Prelude Label LabelCache Blowfish KState KThread KObj.
From stdpp Require Import options.

Set Default Goal Selector "!".

(** ** Containers *)

Definition container_alloc (l : Z) : M Z := kobject_alloc kobj_container (Some l) None.

Definition container_nslots (h : kobject_hdr) : Z :=
  Z.of_nat NUM_CT_SLOT_INLINE + kobject_npages h * Z.of_nat NUM_CT_SLOT_PER_PAGE.

(** The slot at a position, and the assignment to it. *)
Definition slot_lookup (ct : Container) (i : nat) : option container_slot :=
  if (i <? NUM_CT_SLOT_INLINE)%nat then ct_slots ct !! i
  else
    let n := (i - NUM_CT_SLOT_INLINE)%nat in
    pg ← ct_pages ct !! (n / NUM_CT_SLOT_PER_PAGE)%nat; pg !! (n mod NUM_CT_SLOT_PER_PAGE)%nat.

Definition slot_store (i : nat) (cs : container_slot) (ct : Container) : Container :=
  if (i <? NUM_CT_SLOT_INLINE)%nat then set_ct_slots (<[i := cs]> (ct_slots ct)) ct
  else
    let n := (i - NUM_CT_SLOT_INLINE)%nat in
    set_ct_pages (alter (fun pg => <[(n mod NUM_CT_SLOT_PER_PAGE)%nat := cs]> pg)
                        (n / NUM_CT_SLOT_PER_PAGE)%nat (ct_pages ct)) ct.

Definition get_slot (c : Z) (i : nat) : M container_slot :=
  ct ← get_container c;
  match slot_lookup ct i with
  | Some cs => mret cs
  | None => panic
  end.

Definition container_slot_get (c : Z) (slotn : Z) (rw : page_sharing_mode) : M nat :=
  if slotn <? Z.of_nat NUM_CT_SLOT_INLINE then
    whenM (bool_decide (rw = page_excl_dirty)) (kobject_dirty c);;
    mret (Z.to_nat slotn)
  else
    let n := (Z.to_nat slotn - NUM_CT_SLOT_INLINE)%nat in
    kobject_get_page c (n / NUM_CT_SLOT_PER_PAGE)%nat rw;;
    mret (Z.to_nat slotn).

Definition slot_free (cs : container_slot) : Prop := cs_ref cs = 0.

#[export] Instance slot_free_dec cs : Decision (slot_free cs).
Proof. unfold slot_free. apply _. Defined.

Definition container_slot_alloc (c : Z) : M nat :=
  ct ← get_container c;
  match list_find slot_free (ct_slots ct) with
  | Some (i, _) => mret i
  | None =>
      h ← get_hdr c;
      r ← slot_search_pages slot_free c page_excl_dirty 0 (Z.to_nat (kobject_npages h));
      match r with
      | Some i => mret i
      | None =>
          h ← get_hdr c;
          let newpage := kobject_npages h in
          kobject_set_nbytes c (u64 ((newpage + 1) * PGSIZE));;
          r ← catch (kobject_get_page c (Z.to_nat newpage) page_excl_dirty);
          match r with
          | inr _ => panic
          | inl _ =>
              upd_container c (fun ct => set_ct_pages
                (alter (map (set_cs_ref 0)) (Z.to_nat newpage) (ct_pages ct)) ct);;
              mret (NUM_CT_SLOT_INLINE + Z.to_nat newpage * NUM_CT_SLOT_PER_PAGE)%nat
          end
      end
  end.

Definition upd_slot (c : Z) (i : nat) (f : container_slot -> container_slot) : M unit :=
  cs ← get_slot c i;
  upd_container c (slot_store i (f cs)).

Definition container_slot_addref (c : Z) (i : nat) (ko extra_refs : Z) : M unit :=
  cs ← get_slot c i;
  (if cs_ref cs =? 0 then
     h ← get_hdr ko;
     if (extra_refs <? ko_ref h) && negb (has_flag h KOBJ_FIXED_QUOTA) then fail E_VAR_QUOTA
     else
       kobject_incref ko c;;
       upd_slot c i (set_cs_id (ko_id h))
   else mret tt);;
  upd_slot c i (fun cs => set_cs_ref (u64 (cs_ref cs + 1)) cs).

Definition container_slot_decref (c : Z) (i : nat) (ko : Z) : M unit :=
  upd_slot c i (fun cs => set_cs_ref (u64 (cs_ref cs - 1)) cs);;
  cs ← get_slot c i;
  whenM (cs_ref cs =? 0) (kobject_decref ko c).

Definition container_put (c ko extra_refs : Z) : M unit :=
  h ← get_hdr ko;
  ct ← get_container c;
  if negb (Z.land (ct_avoid_types ct) (Z.shiftl 1 (kobject_type_num (ko_type h))) =? 0)
  then fail E_BAD_TYPE
  else
    r ← catch (container_slot_find c (ko_id h) page_excl_dirty);
    i ← match r with
        | inl i => mret i
        | inr e => if e =? E_NOT_FOUND then container_slot_alloc c else fail e
        end;
    container_slot_addref c i ko extra_refs.

Definition container_get (c slot : Z) : M Z :=
  i ← container_slot_get c slot page_shared_ro;
  cs ← get_slot c i;
  if cs_ref cs =? 0 then fail E_NOT_FOUND else mret (cs_id cs).

Definition container_unref (c ko : Z) (preponly : bool) : M unit :=
  h ← get_hdr ko;
  i ← container_slot_find c (ko_id h) page_excl_dirty;
  if preponly then mret tt else container_slot_decref c i ko.

Fixpoint container_gc_slot (fuel : nat) (c : Z) (i : nat) : M unit :=
  match fuel with
  | O => mret tt
  | S fuel =>
      cs ← get_slot c i;
      if 0 <? cs_ref cs then
        ko ← kobject_get (cs_id cs) None iflow_none;
        container_slot_decref c i ko;;
        container_gc_slot fuel c i
      else mret tt
  end.

Fixpoint container_gc_loop (c : Z) (idxs : list nat) : M unit :=
  match idxs with
  | [] => mret tt
  | i :: rest =>
      container_slot_get c (Z.of_nat i) page_excl_dirty;;
      cs ← get_slot c i;
      container_gc_slot (Z.to_nat (cs_ref cs)) c i;;
      container_gc_loop c rest
  end.

Definition container_gc (c : Z) : M unit :=
  h ← get_hdr c;
  container_gc_loop c (seq 0 (Z.to_nat (container_nslots h))).

(** ** Naming an object through a container *)

Definition cobj_get (ref : cobj_ref) (type : type_query) (iflow : info_flow_type) : M Z :=
  cur ← gets ks_cur;
  let global_object := (container ref =? 0) &&
    ((object ref =? kobject_id_thread_sg) || bool_decide (cur = Some (object ref))) in
  r0 ← catch (kobject_get (object ref) type iflow);
  (if negb global_object then
     r ← catch (container_find (container ref) iflow_read);
     match r with
     | inr e => if e =? E_RESTART then fail e else fail E_NOT_FOUND
     | inl c =>
         ch ← get_hdr c;
         if object ref =? ko_id ch then mret tt
         else
           parent ← match r0 with
                    | inl ko => kh ← get_hdr ko; mret (ko_parent kh =? container ref)
                    | inr _ => mret false
                    end;
           if (parent : bool) then mret tt
           else container_slot_find c (object ref) page_shared_ro;; mret tt
     end
   else mret tt);;
  match r0 with
  | inl ko => mret ko
  | inr e => fail e
  end.

(** The chain of parents is followed at most [fuel] times. *)
Fixpoint container_has_ancestor_loop (fuel : nat) (c ancestor : Z) : M unit :=
  match fuel with
  | O => panic
  | S fuel =>
      h ← get_hdr c;
      if ko_id h =? ancestor then mret tt
      else if ko_parent h =? 0 then fail E_NOT_FOUND
      else
        cobj_get (COBJ (ko_parent h) (ko_id h)) (Some kobj_container) iflow_none;;
        p ← kobject_get (ko_parent h) (Some kobj_container) iflow_read;
        container_has_ancestor_loop fuel p ancestor
  end.

Definition container_has_ancestor (c ancestor : Z) : M unit :=
  n ← gets (fun s => S (size (ks_heap s)));
  container_has_ancestor_loop n c ancestor.

(** ** Copying the pages of an object *)

Definition body_copy_pages (src dst : ko_body_t) : ko_body_t :=
  match src, dst with
  | BLabel a, BLabel b => BLabel (mkLabel (lb_def_level b) (lb_nent b) (lb_ent b) (lb_pages a))
  | BSegment a, BSegment b => BSegment (set_sg_pages (sg_pages a) b)
  | BAs a, BAs b => BAs (set_as_pages (as_pages a) b)
  | _, _ => dst
  end.

Definition kobject_copy_pages (src dst : Z) : M unit :=
  kobject_set_nbytes dst 0;;
  dh ← get_hdr dst;
  if negb (ko_ref dh =? 0) then fail E_INVAL
  else
    page_alloc;;
    so ← get_ko src;
    upd_ko dst (fun ko => set_body (body_copy_pages (body so) (body ko)) ko);;
    let n := ROUNDUP (ko_nbytes (hdr so)) PGSIZE in
    upd_hdr dst (fun h => quota_used_add n (quota_total_add n (set_ko_nbytes (ko_nbytes (hdr so)) h))).

(** ** Segments *)

Definition segment_swapin (sg : Z) : M unit := upd_segment sg (set_sg_segmap_list []).

Definition segment_alloc (l : Z) : M Z :=
  sg ← kobject_alloc kobj_segment (Some l) None;
  segment_swapin sg;;
  mret sg.

Definition segment_copy (src newl : Z) : M Z :=
  dst ← segment_alloc newl;
  segment_invalidate src 0;;
  kobject_copy_pages src dst;;
  mret dst.

Definition segment_set_nbytes (sg num_bytes : Z) : M unit :=
  h ← get_hdr sg;
  (if num_bytes <? ko_nbytes h then
     segment_invalidate sg 0;;
     h ← get_hdr sg;
     if negb (ko_pin_pg h =? 0) then fail E_BUSY else mret tt
   else mret tt);;
  h ← get_hdr sg;
  whenM (negb (ko_nbytes h =? num_bytes)) (kobject_set_nbytes sg num_bytes).

(** ** Label objects *)

Definition klabel_alloc (def : Z) : M Z :=
  l ← kobject_alloc kobj_label None None;
  upd_label l (fun _ => label_alloc def);;
  mret l.

Definition klabel_copy (src : Z) : M Z :=
  dst ← klabel_alloc LB_LEVEL_UNDEF;
  sl ← get_label_body src;
  upd_label dst (fun dl => mkLabel (lb_def_level sl) (lb_nent sl)
    (take NUM_LB_ENT_INLINE (lb_ent sl)) (lb_pages dl));;
  kobject_copy_pages src dst;;
  mret dst.

(** [label_set] on an object: the slot search and the store are those of
    [Label], the page comes from [kobject_set_nbytes]. *)
Definition klabel_set (l handle level : Z) : M unit :=
  lb ← get_label_body l;
  s ← lift (label_set_slot lb handle);
  slot ← match s with
         | Some slot => mret slot
         | None =>
             h ← get_hdr l;
             kobject_set_nbytes l (u64 (ko_nbytes h + PGSIZE));;
             mret (label_nslots lb)
         end;
  upd_label l (fun lb => label_grow_nent lb slot);;
  whenM (negb (slot <? NUM_LB_ENT_INLINE)%nat)
    (kobject_get_page l ((slot - NUM_LB_ENT_INLINE) / NUM_LB_ENT_PER_PAGE)%nat page_excl_dirty);;
  lb ← get_label_body l;
  lb' ← lift (label_set_write lb slot handle level);
  upd_label l (fun _ => lb').

Fixpoint klabel_max_loop (src : Label) (f : Z -> Z -> res Z) (idxs : list nat) (dst : Z) : M unit :=
  match idxs with
  | [] => mret tt
  | i :: rest =>
      ent ← lift (label_get_slotp_read src i);
      if ent =? 0 then klabel_max_loop src f rest dst
      else
        lv ← lift (f (LB_HANDLE ent) (LB_LEVEL ent));
        klabel_set dst (LB_HANDLE ent) lv;;
        klabel_max_loop src f rest dst
  end.

Definition klabel_max (a b : Z) (leq : level_comparator) : M Z :=
  la ← get_label_body a;
  lb ← get_label_body b;
  let t := lc_max (level_comparator_init leq) in
  def ← lift (level_table t (lb_def_level la) (lb_def_level lb));
  dst ← klabel_alloc def;
  klabel_max_loop la (fun h alv => do blv <- label_get_level lb h; level_table t alv blv)%res
    (seq 0 (lb_nent la)) dst;;
  klabel_max_loop lb (fun h blv => do alv <- label_get_level la h; level_table t alv blv)%res
    (seq 0 (lb_nent lb)) dst;;
  mret dst.

(** [label_compare] of two label objects, without the cache. *)
Definition klabel_compare (a b : Z) (c : level_comparator) : M unit :=
  la ← get_label_body a;
  lb ← get_label_body b;
  lift (label_compare la lb c).

Fixpoint kulabel_loop (ents : list Z) (idxs : list nat) (l : Z) : M unit :=
  match idxs with
  | [] => mret tt
  | i :: rest =>
      ul_val ← lift (res_nth ents i);
      if LB_LEVEL_STAR <? LB_LEVEL ul_val then fail E_INVAL
      else
        klabel_set l (LB_HANDLE ul_val) (LB_LEVEL ul_val);;
        kulabel_loop ents rest l
  end.

Definition kulabel_to_label (ul : ulabel) : M Z :=
  if LB_LEVEL_STAR <? ul_default ul then fail E_INVAL
  else
    l ← klabel_alloc (ul_default ul);
    kulabel_loop (ul_ent ul) (seq 0 (ul_nent ul)) l;;
    mret l.

(** ** Gates *)

Definition gate_alloc (l clearance : Z) (verify : option Z) : M Z :=
  g ← kobject_alloc kobj_gate (Some l) (Some clearance);
  kobject_set_label g kolabel_verify_tracking verify;;
  mret g.

(** ** Threads *)

Definition UTLS_DEFSIZE : Z := PGSIZE.

Definition thread_alloc (tracking clearance : Z) : M Z :=
  t ← kobject_alloc kobj_thread (Some tracking) (Some clearance);
  upd_thread t (fun th => set_th_status thread_not_started (set_th_sched_tickets 1024 th));;
  upd_hdr t (add_flag KOBJ_LABEL_MUTABLE);;
  sg ← segment_alloc tracking;
  segment_set_nbytes sg UTLS_DEFSIZE;;
  kobject_incref sg t;;
  sh ← get_hdr sg;
  upd_thread t (set_th_sg (ko_id sh));;
  thread_swapin t;;
  mret t.

Definition thread_gc (t : Z) : M unit :=
  th ← get_thread t;
  (if negb (th_sg th =? 0) then
     ko ← kobject_get (th_sg th) (Some kobj_segment) iflow_none;
     kobject_decref ko t;;
     upd_thread t (set_th_sg 0)
   else mret tt);;
  thread_swapout t.

Definition SIZEOF_FPREGS : Z := 512.

Definition thread_enable_fp (t : Z) : M unit :=
  kobject_dirty t;;
  th ← get_thread t;
  if th_fp_enabled th then mret tt
  else
    (if negb (th_fp_space th) then
       kobject_set_nbytes t SIZEOF_FPREGS;;
       upd_thread t (set_th_fp_space true)
     else mret tt);;
    kobject_get_page t 0 page_excl_dirty;;
    upd_thread t (set_th_fp_enabled true).

Definition thread_disable_fp (t : Z) : M unit :=
  kobject_dirty t;; upd_thread t (set_th_fp_enabled false).

(** [inc/safeint.h]: the result and whether it overflowed. *)
Definition safe_add64 (a b : Z) : Z * bool :=
  let r := u64 (a + b) in (r, (r <? a) || (r <? b)).
Definition safe_mul64 (a b : Z) : Z * bool :=
  let r := u64 (a * b) in (r, negb (b =? 0) && negb (r / b =? a)).

(** Five words and three list links of two words each. *)
Definition SIZEOF_SYNC_WAIT_SLOT : Z := 88.

Definition thread_set_waitslots (t nslots : Z) : M unit :=
  let '(m, of1) := safe_mul64 SIZEOF_SYNC_WAIT_SLOT nslots in
  let '(nbytes, of2) := safe_add64 PGSIZE m in
  if of1 || of2 then fail E_INVAL
  else
    kobject_dirty t;;
    kobject_set_nbytes t nbytes;;
    upd_thread t (fun th => set_th_fp_space true (set_th_multi_slots nslots th)).

(** Label change: everything is reserved before the commit point. *)
Definition thread_change_label (t new_label : Z) : M unit :=
  kobject_dirty t;;
  th ← get_thread t;
  ko_sg ← kobject_get (th_sg th) (Some kobj_segment) iflow_rw;
  cur_th_label ← kobject_get_label t kolabel_tracking;
  cur_sg_label ← kobject_get_label ko_sg kolabel_tracking;
  sg_new ← match cur_th_label with
           | Some l => segment_copy ko_sg l
           | None => panic
           end;
  segment_set_nbytes sg_new UTLS_DEFSIZE;;
  let qr_th := kobject_qres_init t in
  let qr_sg := kobject_qres_init sg_new in
  let qrelease (qr_th qr_sg : kobject_quota_resv) (e : Z) : M unit :=
    kobject_qres_release qr_th;; kobject_qres_release qr_sg;; fail e in
  r ← catch (kobject_qres_reserve qr_sg new_label);
  match r with
  | inr e => qrelease qr_th qr_sg e
  | inl qr_sg =>
      r ← catch (kobject_qres_reserve qr_th sg_new);
      match r with
      | inr e => qrelease qr_th qr_sg e
      | inl qr_th =>
          r ← catch (kobject_qres_reserve qr_th new_label);
          match r with
          | inr e => qrelease qr_th qr_sg e
          | inl qr_th =>
              sh ← get_hdr sg_new;
              upd_thread t (set_th_sg (ko_id sh));;
              kobject_decref ko_sg t;;
              qr ← kobject_incref_resv sg_new (Some qr_th);
              kobject_set_label_prepared t kolabel_tracking cur_th_label (Some new_label) qr;;
              kobject_set_label_prepared sg_new kolabel_tracking cur_sg_label (Some new_label) (Some qr_sg);;
              thread_check_sched_parents t
          end
      end
  end.

(** [thread_arch_jump] on amd64. *)
Definition FL_IF : Z := 0x200.
Definition GD_UT_NMASK : Z := 0x2b.
Definition GD_UD : Z := 0x23.

Definition thread_arch_jump (te : thread_entry) : Trapframe :=
  let arg i := nth i (te_arg te) 0 in
  let ud := Z.lor GD_UD 3 in
  mkTrapframe (arg 3%nat) (arg 2%nat) (arg 0%nat) (arg 4%nat) (arg 5%nat) 0 0 0 0 0 0 0 0 (arg 1%nat) 0 0
    (te_entry te) (Z.lor GD_UT_NMASK 3) ud ud ud FL_IF (te_stack te) ud ud.

Definition thread_jump (t label clearance : Z) (te : thread_entry) : M unit :=
  kobject_dirty t;;
  cur_clearance ← kobject_get_label t kolabel_clearance;
  qr_th ← kobject_qres_reserve (kobject_qres_init t) clearance;
  r ← catch (thread_change_label t label);
  match r with
  | inr e => kobject_qres_release qr_th;; fail e
  | inl _ =>
      kobject_set_label_prepared t kolabel_clearance cur_clearance (Some clearance) (Some qr_th);;
      thread_change_as t (te_as te);;
      upd_thread t (fun th => set_th_tf (thread_arch_jump te) (set_th_cache_flush false th))
  end.
