(* ===== verification/KGc.v ===== *)
(** * Swapping and garbage collection of kernel objects

    [kobject_swapin], [kobject_swapout], the snapshots and [kobject_gc_scan] of
    [kern/kern/kobj.c], with [as_swapout] and the like of [as.c]. *)

From S2P Require Import Prelude Label LabelCache Blowfish KState KThread KObj KOps.
From stdpp Require Import options.

Set Default Goal Selector "!".

(** ** Address spaces *)

Definition as_nents (h : kobject_hdr) : Z := kobject_npages h * Z.of_nat N_USEGMAP_PER_PAGE.

Definition as_swapin (a : Z) : M unit :=
  upd_as a (fun x => set_as_segmap ∅ (set_as_pgmap None x)).

(** [cur_pgmap == as->as_pgmap]; two null pointers are equal. *)
Definition pgmap_loaded (s : kstate) (a : Z) (x : Address_space) : bool :=
  match as_pgmap x with
  | None => bool_decide (ks_cur_pgmap s = None)
  | Some _ => bool_decide (ks_cur_pgmap s = Some a)
  end.

(** [as_switch(0)]. *)
Definition as_switch_none : M unit :=
  modify (fun s => set_ks_cur_as None (set_ks_cur_pgmap None s)).

Fixpoint as_unmap_slots (a : Z) (slots : list Z) : M unit :=
  match slots with
  | [] => mret tt
  | i :: rest =>
      x ← get_as a;
      match as_segmap x !! i with
      | Some (SegMap _ _ _ (Some ko)) => seg_unlink ko a i;; kobject_unpin_page ko
      | _ => mret tt
      end;;
      as_unmap_slots a rest
  end.

Definition as_swapout (a : Z) : M unit :=
  x ← get_as a;
  loaded ← gets (fun s => pgmap_loaded s a x);
  whenM loaded as_switch_none;;
  h ← get_hdr a;
  as_unmap_slots a (Z.of_nat <$> seq 0 (Z.to_nat (as_nents h)));;
  upd_as a (set_as_segmap ∅).

Definition as_gc (a : Z) : M unit := as_swapout a.

Definition as_alloc (l : Z) : M Z :=
  a ← kobject_alloc kobj_address_space (Some l) None;
  as_swapin a;;
  mret a.

Definition as_copy (a l : Z) : M Z :=
  nas ← as_alloc l;
  kobject_copy_pages a nas;;
  x ← get_as a;
  upd_as nas (fun y => set_as_utrap_entry (as_utrap_entry x)
    (set_as_utrap_stack_base (as_utrap_stack_base x) (set_as_utrap_stack_top (as_utrap_stack_top x) y)));;
  mret nas.

Definition as_invalidate (a : Z) : M unit :=
  kobject_dirty a;;
  as_swapout a;;
  as_swapin a.

(** ** Swap-out and swap-in *)

Definition hdr_del_flags (fs : list Z) (h : kobject_hdr) : kobject_hdr := foldr del_flag h fs.

Definition kobject_swapout (ko : Z) : M unit :=
  h ← get_hdr ko;
  assertM (ko_pin h =? 0);;
  assertM (negb (has_flag h KOBJ_SNAPSHOTING));;
  whenM (bool_decide (ko_type h = kobj_thread)) (thread_swapout ko);;
  whenM (bool_decide (ko_type h = kobj_address_space)) (as_swapout ko);;
  upd_ko ko (set_ko_label_cache (replicate kolabel_max None));;
  kobj_weak_drop ko;;
  l ← gets ks_list;
  l' ← lift (list_remove ko l);
  modify (set_ks_list l');;
  h ← get_hdr ko;
  whenM (is_garbage h) (gc_remove ko);;
  page_free_ko ko.

(** The object read from the disk, with the header fields as they were. *)
Definition kobject_swapin (o : kobject) : M unit :=
  let id := ko_id (hdr o) in
  assertM (negb (id =? 0));;
  inc ← kobject_incore id;
  (if (inc : bool) then panic else mret tt);;
  kobject_negative_remove id;;
  put_ko id (set_ko_label_cache (replicate kolabel_max None) o);;
  modify (fun s => set_ks_list (id :: ks_list s) s);;
  whenM (ko_ref (hdr o) =? 0) (gc_insert id);;
  upd_hdr id (fun h => hdr_del_flags [KOBJ_SNAPSHOTING; KOBJ_DIRTY; KOBJ_SHARED_MAPPINGS; KOBJ_SNAPSHOT_DIRTY]
    (set_ko_pin_pg 0 (set_ko_pin 0 h)));;
  whenM (bool_decide (ko_type (hdr o) = kobj_thread)) (thread_swapin id);;
  whenM (bool_decide (ko_type (hdr o) = kobj_address_space)) (as_swapin id);;
  whenM (bool_decide (ko_type (hdr o) = kobj_segment)) (segment_swapin id).

(** ** Garbage collection *)

Fixpoint kobject_gc_labels (ko : Z) (idxs : list nat) : M (list (option Z)) :=
  match idxs with
  | [] => mret []
  | i :: rest =>
      l ← kobject_get_label ko i;
      ls ← kobject_gc_labels ko rest;
      mret (l :: ls)
  end.

Fixpoint kobject_gc_drop_labels (ko : Z) (idx : nat) (ls : list (option Z)) : M unit :=
  match ls with
  | [] => mret tt
  | l :: rest =>
      kobject_set_label_prepared ko idx l None None;;
      kobject_gc_drop_labels ko (S idx) rest
  end.

(** [written] tells whether a page of the segment was written through a
    mapping. *)
Definition kobject_dirty_eval (ko : Z) (written : bool) : M unit :=
  h ← get_hdr ko;
  whenM (has_flag h KOBJ_DIRTY_LATER)
    (upd_hdr ko (del_flag KOBJ_DIRTY_LATER);;
     (if bool_decide (ko_type h = kobj_segment) then mret tt else panic);;
     whenM written (upd_hdr ko (add_flag KOBJ_DIRTY))).

(** The object is dirty already, so what [kobject_dirty_eval] finds makes no
    difference. *)
Definition kobject_gc (ko : Z) : M unit :=
  ls ← kobject_gc_labels ko (seq 0 kolabel_max);
  kobject_dirty_eval ko false;;
  h ← get_hdr ko;
  match ko_type h with
  | kobj_thread => thread_gc ko
  | kobj_container => container_gc ko
  | kobj_address_space => as_gc ko
  | kobj_gate | kobj_device | kobj_segment | kobj_label => mret tt
  | kobj_dead => panic
  end;;
  kobject_gc_drop_labels ko 0 ls;;
  upd_ko ko (fun o => set_body (body_resize 0 (body o)) o);;
  upd_hdr ko (fun h => set_ko_type kobj_dead (set_ko_nbytes 0 h)).

(** One pass over the garbage list as it was when the pass began; the result
    tells whether an object was collected. *)
Fixpoint kobject_gc_pass (objs : list Z) (progress : bool) : M bool :=
  match objs with
  | [] => mret progress
  | ko :: rest =>
      h ← get_hdr ko;
      if negb (is_garbage h) then kobject_gc_pass rest progress
      else if bool_decide (ko_type h = kobj_dead) then
        whenM (negb (has_flag h KOBJ_ON_DISK)) (kobject_swapout ko);;
        kobject_gc_pass rest progress
      else
        kobject_dirty ko;;
        r ← catch (kobject_gc ko);
        match r with
        | inl _ => kobject_gc_pass rest true
        | inr _ => kobject_gc_pass rest progress
        end
  end.

(** Every pass but the last turns an object into a dead one. *)
Fixpoint kobject_gc_passes (fuel : nat) : M unit :=
  match fuel with
  | O => panic
  | S fuel =>
      objs ← gets ks_gc;
      progress ← kobject_gc_pass objs false;
      if (progress : bool) then kobject_gc_passes fuel else mret tt
  end.

Definition kobject_gc_scan : M unit :=
  t ← gets ks_cur;
  modify (set_ks_cur None);;
  n ← gets (fun s => S (size (ks_heap s)));
  kobject_gc_passes n;;
  modify (set_ks_cur t).

(** ** Reclaiming memory *)

Definition kobject_initial (o : kobject) : bool :=
  if ko_ref (hdr o) =? 0 then true
  else match ko_type (hdr o), body o with
       | kobj_thread, BThread th =>
           bool_decide (th_status th = thread_runnable) || bool_decide (th_status th = thread_suspended)
       | _, _ => false
       end.

Fixpoint kobject_reclaim_loop (objs : list Z) : M unit :=
  match objs with
  | [] => mret tt
  | ko :: rest =>
      o ← get_ko ko;
      (if negb (ko_pin (hdr o) =? 0) || kobject_initial o then mret tt
       else if has_flag (hdr o) (Z.lor KOBJ_DIRTY KOBJ_SNAPSHOT_DIRTY) then mret tt
       else kobject_swapout ko);;
      kobject_reclaim_loop rest
  end.

Definition kobject_reclaim : M unit :=
  t ← gets ks_cur;
  modify (set_ks_cur None);;
  objs ← gets ks_list;
  kobject_reclaim_loop objs;;
  modify (set_ks_cur t).

(** ** Snapshots *)

Fixpoint wake_all (fuel : nat) (q : Z) : M unit :=
  match fuel with
  | O => mret tt
  | S fuel =>
      l ← gets (fun s => tlist_get s q);
      match l with
      | [] => mret tt
      | t :: _ => thread_set_runnable t;; wake_all fuel q
      end
  end.

Definition kobject_snapshot_release (ko : Z) : M unit :=
  h ← get_hdr ko;
  assertM (has_flag h KOBJ_SNAPSHOTING);;
  upd_hdr ko (del_flag KOBJ_SNAPSHOTING);;
  kobject_unpin_hdr ko;;
  upd_ko ko (set_ko_snapshot None);;
  n ← gets (fun s => length (tlist_get s TL_snapshot_waiting));
  wake_all n TL_snapshot_waiting.
