(* ===== verification/KSys.v ===== *)
(** * System calls

    The handlers of [kern/kern/syscall.c] that work on the object layer.  A
    handler gets the labels of the calling thread, which [syscall_exec] loads
    first, and its user pointers as the outcome of the access check. *)

From S2P Require Import Prelude Label LabelCache Blowfish KState KThread KObj KOps KGc.
From stdpp Require Import options.

Set Default Goal Selector "!".

(** A user pointer: null, refused by [check_user_access] with a code, or the
    value it points to. *)
Inductive uptr (A : Type) : Type :=
| UNull
| UFault (e : Z)
| UVal (a : A).
Arguments UNull {A}.
Arguments UFault {A} e.
Arguments UVal {A} a.

(** An access that has to succeed; a null pointer is no valid address. *)
Definition user_read {A} (p : uptr A) : M A :=
  match p with
  | UNull => fail E_INVAL
  | UFault e => fail e
  | UVal a => mret a
  end.

Section handlers.

(** [cur_th_label] and [cur_th_clearance]. *)
Context (cur_th_label cur_th_clearance : Z).

Definition KOBJ_NAME_LEN : nat := 32.

(** [strncpy(dst, src, 31)]: the rest of the 31 bytes is zero, byte 31 stays. *)
Fixpoint cstring (s : list Z) : list Z :=
  match s with
  | [] => []
  | c :: s => if c =? 0 then [] else c :: cstring s
  end.

Definition strncpy (n : nat) (src dst : list Z) : list Z :=
  let c := take n (cstring src) in c ++ replicate (n - length c) 0 ++ drop n dst.

Definition alloc_set_name (ko : Z) (name : uptr (list Z)) : M unit :=
  match name with
  | UNull => mret tt
  | _ =>
      s ← user_read name;
      upd_hdr ko (fun h => set_ko_name (strncpy (KOBJ_NAME_LEN - 1) s (ko_name h)) h)
  end.

Definition alloc_ulabel (ul : uptr ulabel) (inherit_from : option Z) : M Z :=
  match ul, inherit_from with
  | UNull, None => fail E_INVAL
  | UNull, Some ko =>
      h ← get_hdr ko;
      if bool_decide (ko_type h = kobj_label) then mret ko
      else
        l ← kobject_get_label ko kolabel_tracking;
        match l with
        | Some l => mret l
        | None => fail E_INVAL
        end
  | _, _ => u ← user_read ul; kulabel_to_label u
  end.

(** ** Containers *)

Definition sys_container_alloc (parent_ct : Z) (ul : uptr ulabel) (name : uptr (list Z))
  (avoid_types quota : Z) : M Z :=
  parent ← container_find parent_ct iflow_rw;
  l ← alloc_ulabel ul (Some parent);
  c ← container_alloc l;
  alloc_set_name c name;;
  pct ← get_container parent;
  upd_container c (set_ct_avoid_types (Z.lor (ct_avoid_types pct) avoid_types));;
  let quota := if CT_QUOTA_INF <? quota then CT_QUOTA_INF else quota in
  upd_hdr c (fun h => set_ko_quota_total (Z.min (u64 (ko_quota_total h + quota)) CT_QUOTA_INF) h);;
  kobject_dirty parent;;
  container_put parent c 0;;
  mret c.

Definition sys_obj_unref (cobj : cobj_ref) : M Z :=
  c ← container_find (container cobj) iflow_rw;
  ko ← cobj_get cobj None iflow_none;
  kobject_dirty c;;
  container_unref c ko false;;
  kobject_gc_scan;;
  mret 0.

Definition sys_container_get_slot_id (ct slot : Z) : M Z :=
  c ← container_find ct iflow_read;
  container_get c slot.

Definition sys_container_get_nslots (ct : Z) : M Z :=
  c ← container_find ct iflow_read;
  h ← get_hdr c;
  mret (container_nslots h).

Definition sys_container_get_parent (ct : Z) : M Z :=
  c ← container_find ct iflow_read;
  h ← get_hdr c;
  mret (ko_parent h).

Definition sys_container_move_quota (parent_id child_id nbytes : Z) : M Z :=
  let abs_nbytes := u64 (if 0 <? nbytes then nbytes else - nbytes) in
  if nbytes =? 0 then mret 0
  else
    parent ← container_find parent_id iflow_rw;
    child ← cobj_get (COBJ parent_id child_id) None iflow_rw;
    ch ← get_hdr child;
    ph ← get_hdr parent;
    if has_flag ch KOBJ_FIXED_QUOTA then fail E_FIXED_QUOTA
    else
      new_child_total ←
        (if 0 <? nbytes then
           if negb (ko_quota_total ph =? CT_QUOTA_INF) && (quota_avail ph <? abs_nbytes)
           then fail E_RESOURCE
           else if (CT_QUOTA_INF <=? ko_quota_total ch) || (CT_QUOTA_INF <=? abs_nbytes)
           then mret CT_QUOTA_INF
           else mret (Z.min (u64 (ko_quota_total ch + abs_nbytes)) (CT_QUOTA_INF - 1))
         else
           if ko_quota_total ch =? CT_QUOTA_INF then fail E_RESOURCE
           else
             let n := u64 (ko_quota_total ch - abs_nbytes) in
             if n <? ko_quota_used ch then fail E_RESOURCE else mret n);
      kobject_dirty parent;;
      upd_hdr parent (quota_used_add nbytes);;
      kobject_dirty child;;
      upd_hdr child (set_ko_quota_total new_child_total);;
      mret 0.

Definition sys_obj_move (o : cobj_ref) (new_parent ancestor : Z) : M Z :=
  ko ← cobj_get o None iflow_none;
  src ← container_find (container o) iflow_rw;
  dst ← container_find new_parent iflow_rw;
  container_has_ancestor src ancestor;;
  container_has_ancestor dst ancestor;;
  kobject_dirty src;;
  container_unref src ko true;;
  kobject_dirty dst;;
  container_put dst ko 1;;
  kobject_dirty src;;
  r ← catch (container_unref src ko false);
  match r with
  | inl _ => mret 0
  | inr _ => panic
  end.

(** ** Objects of any type *)

Definition sys_obj_get_type (cobj : cobj_ref) : M Z :=
  ko ← cobj_get cobj None iflow_none;
  h ← get_hdr ko;
  mret (kobject_type_num (ko_type h)).

(** The user label that is written back, with the code of the call. *)
Definition user_put_label (l : Z) (ul : uptr ulabel) : M ulabel :=
  lb ← get_label_body l;
  u ← user_read ul;
  p ← lift (label_to_ulabel lb u);
  if p.2 =? 0 then mret p.1 else fail (- p.2).

Definition sys_obj_get_label (cobj : cobj_ref) (ul : uptr ulabel) : M ulabel :=
  ko ← cobj_get cobj None iflow_none;
  h ← get_hdr ko;
  ko ← (if has_flag h KOBJ_LABEL_MUTABLE then cobj_get cobj None iflow_read else mret ko);
  l ← kobject_get_label ko kolabel_tracking;
  match l with
  | Some l => user_put_label l ul
  | None => panic
  end.

Definition sys_obj_get_name (cobj : cobj_ref) (buf : uptr (list Z)) : M (list Z) :=
  ko ← cobj_get cobj None iflow_none;
  b ← user_read buf;
  h ← get_hdr ko;
  mret (strncpy KOBJ_NAME_LEN (ko_name h) b).

Definition sys_obj_get_quota_total (o : cobj_ref) : M Z :=
  ko ← cobj_get o None iflow_none;
  h ← get_hdr ko;
  mret (ko_quota_total h).

Definition sys_obj_get_quota_avail (o : cobj_ref) : M Z :=
  ko ← cobj_get o None iflow_read;
  h ← get_hdr ko;
  if ko_quota_total h =? CT_QUOTA_INF then mret CT_QUOTA_INF
  else mret (quota_avail h).

Definition sys_obj_get_meta (o : cobj_ref) (meta : uptr (list Z)) : M (list Z) :=
  ko ← cobj_get o None iflow_read;
  user_read meta;;
  h ← get_hdr ko;
  mret (ko_meta h).

Definition sys_obj_set_meta (o : cobj_ref) (oldm newm : uptr (list Z)) : M Z :=
  ko ← cobj_get o None iflow_rw;
  new ← user_read newm;
  h ← get_hdr ko;
  match oldm with
  | UNull => mret tt
  | _ =>
      old ← user_read oldm;
      if bool_decide (old = ko_meta h) then mret tt else fail E_AGAIN
  end;;
  kobject_dirty ko;;
  upd_hdr ko (set_ko_meta new);;
  mret 0.

Definition sys_obj_set_fixedquota (o : cobj_ref) : M Z :=
  ko ← cobj_get o None iflow_rw;
  kobject_dirty ko;;
  upd_hdr ko (add_flag KOBJ_FIXED_QUOTA);;
  mret 0.

Definition sys_obj_set_readonly (o : cobj_ref) : M Z :=
  ko ← cobj_get o None iflow_rw;
  h ← get_hdr ko;
  if bool_decide (ko_type h = kobj_thread) then fail E_INVAL
  else
    kobject_dirty ko;;
    upd_hdr ko (add_flag KOBJ_READONLY);;
    mret 0.

Definition sys_obj_get_readonly (o : cobj_ref) : M Z :=
  ko ← cobj_get o None iflow_read;
  h ← get_hdr ko;
  mret (if has_flag h KOBJ_READONLY then 1 else 0).

(** ** Handles *)

Definition sys_handle_create : M Z :=
  t ← cur_thread_id;
  key ← gets ks_handle_key;
  ctr ← gets ks_handle_counter;
  p ← lift (handle_alloc 2 key ctr);
  modify (set_ks_handle_counter p.2);;
  let handle := p.1 in
  l ← klabel_copy cur_th_label;
  klabel_set l handle LB_LEVEL_STAR;;
  c ← klabel_copy cur_th_clearance;
  klabel_set c handle 3;;
  kobject_dirty t;;
  qr ← kobject_qres_reserve (kobject_qres_init t) c;
  r ← catch (thread_change_label t l);
  match r with
  | inr e => kobject_qres_release qr;; fail e
  | inl _ =>
      kobject_dirty t;;
      kobject_set_label_prepared t kolabel_clearance (Some cur_th_clearance) (Some c) (Some qr);;
      mret handle
  end.

(** ** Gates *)

Definition sys_gate_create (ct : Z) (ute : uptr thread_entry) (u_label u_clear u_guard : uptr ulabel)
  (name : uptr (list Z)) (entry_visible : bool) : M Z :=
  c ← container_find ct iflow_rw;
  g_label ← alloc_ulabel u_label (Some cur_th_label);
  g_clear ← alloc_ulabel u_clear (Some cur_th_clearance);
  g_guard ← match u_guard with
            | UNull => mret None
            | _ => l ← alloc_ulabel u_guard None; mret (Some l)
            end;
  g ← gate_alloc g_label g_clear g_guard;
  alloc_set_name g name;;
  match ute with
  | UNull =>
      upd_gate g (fun x => set_gt_te_visible entry_visible (set_gt_te_unspec true x));;
      if entry_visible then fail E_INVAL else mret tt
  | _ =>
      upd_gate g (fun x => set_gt_te_visible entry_visible (set_gt_te_unspec false x));;
      te ← user_read ute;
      upd_gate g (fun x => set_gt_te_unspec false (set_gt_te te x))
  end;;
  kobject_dirty c;;
  container_put c g 0;;
  mret g.

Definition sys_gate_clearance (gate : cobj_ref) (ul : uptr ulabel) : M ulabel :=
  ko ← cobj_get gate (Some kobj_gate) iflow_none;
  l ← kobject_get_label ko kolabel_clearance;
  match l with
  | Some l => user_put_label l ul
  | None => panic
  end.

Definition sys_gate_get_entry (gate : cobj_ref) (te : uptr thread_entry) : M thread_entry :=
  ko ← cobj_get gate (Some kobj_gate) iflow_none;
  g ← get_gate ko;
  if negb (gt_te_visible g) then fail E_INVAL
  else user_read te;; mret (gt_te g).

(** A comparison with a label that may be missing. *)
Definition compare_opt_r (a : Z) (b : option Z) (c : level_comparator) : M unit :=
  match b with Some b => klabel_compare a b c | None => mret tt end.
Definition compare_opt_l (a : option Z) (b : Z) (c : level_comparator) : M unit :=
  match a with Some a => klabel_compare a b c | None => mret tt end.

(** The labels of a thread that has entered a gate: the checks of
    [sys_gate_enter] before the thread jumps. *)
Definition gate_check_labels (gt : Z) (ulab uclear : uptr ulabel) : M (Z * Z) :=
  gt_label ← kobject_get_label gt kolabel_tracking;
  gt_clear ← kobject_get_label gt kolabel_clearance;
  gt_verify ← kobject_get_label gt kolabel_verify_tracking;
  compare_opt_r cur_th_label gt_verify label_leq_starlo;;
  match gt_label, gt_clear with
  | Some gl, Some gc =>
      label_bound ← klabel_max gl cur_th_label label_leq_starhi;
      clear_bound ← klabel_max gc cur_th_clearance label_leq_starlo;
      new_label ← alloc_ulabel ulab None;
      new_clear ← alloc_ulabel uclear None;
      klabel_compare label_bound new_label label_leq_starlo;;
      klabel_compare new_label new_clear label_leq_starlo;;
      klabel_compare new_clear clear_bound label_leq_starhi;;
      mret (new_label, new_clear)
  | _, _ => panic
  end.

Definition uptr_null {A} (p : uptr A) : bool := match p with UNull => true | _ => false end.

Definition sys_gate_enter (gt : cobj_ref) (ulab uclear : uptr ulabel) (ute : uptr thread_entry) : M Z :=
  t ← cur_thread_id;
  ko ← cobj_get gt (Some kobj_gate) iflow_none;
  p ← gate_check_labels ko ulab uclear;
  g ← get_gate ko;
  if (negb (uptr_null ute) && negb (gt_te_unspec g)) || (uptr_null ute && gt_te_unspec g)
  then fail E_INVAL
  else
    (if uptr_null ute then
       vl ← kobject_get_label t kolabel_verify_tracking;
       vc ← kobject_get_label t kolabel_verify_clearance;
       compare_opt_r cur_th_label vl label_leq_starlo;;
       compare_opt_l vc cur_th_clearance label_leq_starhi
     else mret tt);;
    te ← (if uptr_null ute then mret (gt_te g) else user_read ute);
    thread_jump t p.1 p.2 te;;
    mret 0.

(** ** Threads *)

Definition sys_thread_create (ct : Z) (name : uptr (list Z)) : M Z :=
  c ← container_find ct iflow_rw;
  t ← thread_alloc cur_th_label cur_th_clearance;
  alloc_set_name t name;;
  kobject_dirty c;;
  container_put c t 0;;
  mret t.

Definition sys_thread_start (thread : cobj_ref) (ute : uptr thread_entry) (ul uclear : uptr ulabel) : M Z :=
  te ← user_read ute;
  t ← cobj_get thread (Some kobj_thread) iflow_rw;
  kobject_dirty t;;
  th ← get_thread t;
  if negb (bool_decide (th_status th = thread_not_started)) then fail E_INVAL
  else
    new_label ← alloc_ulabel ul (Some cur_th_label);
    new_clearance ← alloc_ulabel uclear (Some cur_th_clearance);
    klabel_compare cur_th_label new_label label_leq_starlo;;
    klabel_compare new_label new_clearance label_leq_starlo;;
    klabel_compare new_clearance cur_th_clearance label_leq_starhi;;
    thread_jump t new_label new_clearance te;;
    thread_set_sched_parents t (container thread) 0;;
    thread_set_runnable t;;
    mret 0.

Definition sys_self_halt : M Z :=
  t ← cur_thread_id; thread_halt t;; mret 0.

Definition sys_self_id : M Z :=
  t ← cur_thread_id; h ← get_hdr t; mret (ko_id h).

Definition sys_self_addref (ct : Z) : M Z :=
  c ← container_find ct iflow_rw;
  t ← cur_thread_id;
  kobject_dirty c;;
  container_put c t 0;;
  mret 0.

Definition sys_self_get_as (buf : uptr cobj_ref) : M cobj_ref :=
  user_read buf;;
  t ← cur_thread_id; th ← get_thread t; mret (th_asref th).

Definition sys_self_set_as (as_ref : cobj_ref) : M Z :=
  t ← cur_thread_id; thread_change_as t as_ref;; mret 0.

Definition sys_self_set_label (ul : uptr ulabel) : M Z :=
  l ← alloc_ulabel ul None;
  klabel_compare cur_th_label l label_leq_starlo;;
  klabel_compare l cur_th_clearance label_leq_starlo;;
  t ← cur_thread_id;
  thread_change_label t l;;
  mret 0.

Definition sys_self_set_clearance (uclear : uptr ulabel) : M Z :=
  clearance ← alloc_ulabel uclear None;
  clearance_bound ← klabel_max cur_th_clearance cur_th_label label_leq_starhi;
  klabel_compare cur_th_label clearance label_leq_starlo;;
  klabel_compare clearance clearance_bound label_leq_starhi;;
  t ← cur_thread_id;
  kobject_dirty t;;
  kobject_set_label t kolabel_clearance (Some clearance);;
  mret 0.

Definition sys_self_get_clearance (uclear : uptr ulabel) : M ulabel :=
  user_put_label cur_th_clearance uclear.

Definition sys_self_set_verify (uvl uvc : uptr ulabel) : M Z :=
  vl ← alloc_ulabel uvl None;
  vc ← alloc_ulabel uvc None;
  t ← cur_thread_id;
  kobject_dirty t;;
  ovl ← kobject_get_label t kolabel_verify_tracking;
  ovc ← kobject_get_label t kolabel_verify_clearance;
  qr ← kobject_qres_reserve (kobject_qres_init t) vl;
  r ← catch (kobject_qres_reserve qr vc);
  match r with
  | inr e => kobject_qres_release qr;; fail e
  | inl qr =>
      qr ← kobject_set_label_prepared t kolabel_verify_tracking ovl (Some vl) (Some qr);
      kobject_set_label_prepared t kolabel_verify_clearance ovc (Some vc) qr;;
      mret 0
  end.

Definition sys_self_get_verify (uvl uvc : uptr ulabel) : M (ulabel * ulabel) :=
  t ← cur_thread_id;
  vl ← kobject_get_label t kolabel_verify_tracking;
  vc ← kobject_get_label t kolabel_verify_clearance;
  vl ← match vl with Some l => mret l | None => klabel_alloc 3 end;
  vc ← match vc with Some l => mret l | None => klabel_alloc 0 end;
  a ← user_put_label vl uvl;
  b ← user_put_label vc uvc;
  mret (a, b).

Definition sys_self_fp_enable : M Z := t ← cur_thread_id; thread_enable_fp t;; mret 0.
Definition sys_self_fp_disable : M Z := t ← cur_thread_id; thread_disable_fp t;; mret 0.

Definition sys_self_set_waitslots (nslots : Z) : M Z :=
  t ← cur_thread_id; thread_set_waitslots t nslots;; mret 0.

Definition sys_self_set_sched_parents (p0 p1 : Z) : M Z :=
  t ← cur_thread_id; thread_set_sched_parents t p0 p1;; mret 0.

Definition sys_self_set_cflush (cflush : Z) : M Z :=
  t ← cur_thread_id;
  kobject_dirty t;;
  upd_thread t (set_th_cache_flush (negb (cflush =? 0)));;
  mret 0.

(** ** Segments *)

Definition sys_segment_create (ct num_bytes : Z) (ul : uptr ulabel) (name : uptr (list Z)) : M Z :=
  c ← container_find ct iflow_rw;
  l ← alloc_ulabel ul (Some c);
  sg ← segment_alloc l;
  alloc_set_name sg name;;
  segment_set_nbytes sg num_bytes;;
  kobject_dirty c;;
  container_put c sg 0;;
  mret sg.

Definition sys_segment_copy (seg : cobj_ref) (ct : Z) (ul : uptr ulabel) (name : uptr (list Z)) : M Z :=
  c ← container_find ct iflow_rw;
  src ← cobj_get seg (Some kobj_segment) iflow_read;
  l ← alloc_ulabel ul (Some c);
  sg ← segment_copy src l;
  alloc_set_name sg name;;
  kobject_dirty c;;
  container_put c sg 0;;
  mret sg.

Definition sys_segment_addref (seg : cobj_ref) (ct : Z) : M Z :=
  c ← container_find ct iflow_rw;
  ko ← cobj_get seg (Some kobj_segment) iflow_read;
  kobject_dirty c;;
  container_put c ko 0;;
  mret 0.

Definition sys_segment_resize (seg : cobj_ref) (num_bytes : Z) : M Z :=
  ko ← cobj_get seg (Some kobj_segment) iflow_rw;
  kobject_dirty ko;;
  segment_set_nbytes ko num_bytes;;
  mret 0.

Definition sys_segment_get_nbytes (seg : cobj_ref) : M Z :=
  ko ← cobj_get seg (Some kobj_segment) iflow_read;
  h ← get_hdr ko;
  mret (ko_nbytes h).

(** ** Address spaces *)

Definition sys_as_create (ct : Z) (ul : uptr ulabel) (name : uptr (list Z)) : M Z :=
  c ← container_find ct iflow_rw;
  l ← alloc_ulabel ul (Some c);
  a ← as_alloc l;
  alloc_set_name a name;;
  kobject_dirty c;;
  container_put c a 0;;
  mret a.

Definition sys_as_copy (a : cobj_ref) (ct : Z) (ul : uptr ulabel) (name : uptr (list Z)) : M Z :=
  c ← container_find ct iflow_rw;
  src ← cobj_get a (Some kobj_address_space) iflow_read;
  l ← alloc_ulabel ul (Some c);
  nas ← as_copy src l;
  alloc_set_name nas name;;
  kobject_dirty c;;
  container_put c nas 0;;
  mret nas.

End handlers.

(** [syscall_exec]: the labels are loaded, then the handler runs.  A running
    thread has both labels. *)
Definition syscall_exec {A} (handler : Z -> Z -> M A) : M A :=
  t ← cur_thread_id;
  l ← kobject_get_label t kolabel_tracking;
  c ← kobject_get_label t kolabel_clearance;
  match l, c with
  | Some l, Some c => handler l c
  | _, _ => panic
  end.
