(* ===== verification/KAs.v ===== *)
(** * Address spaces

    [kern/kern/as.c]: the mappings of an address space, page faults, and the
    invalidation of mappings when another thread or another label takes over.
    A page table is a finite map from page addresses to the object page put
    there and its flags.  Whether a page is shared by copy-on-write is not part
    of the state: the code's tests of it may come out either way.  There is no
    frame buffer device. *)

From S2P Require Import Prelude Label LabelCache Blowfish KState KThread KObj KOps KGc KSys.
From stdpp Require Import options.

Set Default Goal Selector "!".

Definition SEGMAP_EXEC : Z := 0x01.
Definition SEGMAP_WRITE : Z := 0x02.
Definition SEGMAP_READ : Z := 0x04.
Definition SEGMAP_REVERSE_PAGES : Z := 0x08.

Definition flag_in (flags f : Z) : bool := negb (Z.land flags f =? 0).

Definition as_courtesy_pages : Z := 8.

(** 56 bytes each. *)
Definition N_SEGMAP_PER_PAGE : Z := 73.

Definition ROUNDDOWN (a n : Z) : Z := a - a mod n.
Definition PGOFF (va : Z) : Z := va mod PGSIZE.

(** The outcome of a test of page sharing. *)
Definition page_is_shared : M bool := fun s =>
  match ks_mem s with
  | [] => (Ok false, s)
  | b :: m => (Ok (negb b), set_ks_mem m s)
  end.

(** ** Slots *)

Definition as_get_usegmap (a : Z) (smi : Z) (rw : page_sharing_mode) : M u_segment_mapping :=
  kobject_get_page a (Z.to_nat (smi / Z.of_nat N_USEGMAP_PER_PAGE)) rw;;
  x ← get_as a;
  match usm_at x smi with
  | Some usm => mret usm
  | None => panic
  end.

(** A page of kernel mappings is allocated on first use. *)
Definition segmap_page_present (m : gmap Z segment_mapping) (smi : Z) : bool :=
  existsb (fun p => p.1 / N_SEGMAP_PER_PAGE =? smi / N_SEGMAP_PER_PAGE) (map_to_list m).

Definition zero_sm : segment_mapping := SegMap false 0 0 None.

Definition as_get_segmap (a : Z) (smi : Z) : M segment_mapping :=
  x ← get_as a;
  (if segmap_page_present (as_segmap x) smi then mret tt
   else
     page_alloc;; page_alloc;;
     upd_as a (fun x => set_as_segmap (<[smi := zero_sm]> (as_segmap x)) x));;
  x ← get_as a;
  mret (default zero_sm (as_segmap x !! smi)).

Definition put_segmap (a smi : Z) (sm : segment_mapping) : M unit :=
  upd_as a (fun x => set_as_segmap (<[smi := sm]> (as_segmap x)) x).

Definition put_usegmap (a smi : Z) (usm : u_segment_mapping) : M unit :=
  upd_as a (fun x => set_as_pages
    (alter (fun pg => <[Z.to_nat (smi mod Z.of_nat N_USEGMAP_PER_PAGE) := usm]> pg)
           (Z.to_nat (smi / Z.of_nat N_USEGMAP_PER_PAGE)) (as_pages x)) x).

Definition as_resize (a nent : Z) : M unit :=
  let n := Z.of_nat N_USEGMAP_PER_PAGE in
  let npages := u64 (nent + n - 1) / n in
  let '(nbytes, ovf) := safe_mul64 npages PGSIZE in
  if ovf then fail E_INVAL else kobject_set_nbytes a nbytes.

(** ** User view *)

Record u_address_space := UAs {
  uas_size : Z;
  uas_nent : Z;
  uas_ents : list u_segment_mapping;
  uas_trap_handler : Z;
  uas_trap_stack_base : Z;
  uas_trap_stack_top : Z
}.

Definition SIZEOF_USM : Z := 48.

Fixpoint as_to_user_loop (a size : Z) (slots : list Z) (acc : list u_segment_mapping) :
  M (list u_segment_mapping) :=
  match slots with
  | [] => mret acc
  | i :: rest =>
      usm ← as_get_usegmap a i page_shared_ro;
      if usm_flags usm =? 0 then as_to_user_loop a size rest acc
      else if size <=? Z.of_nat (length acc) then fail E_NO_SPACE
      else as_to_user_loop a size rest (acc ++ [usm])
  end.

Definition slot_range (h : kobject_hdr) : list Z := Z.of_nat <$> seq 0 (Z.to_nat (as_nents h)).

(** The structure written back: entries, count and trap handler. *)
Definition as_to_user (a : Z) (uas : uptr u_address_space) : M u_address_space :=
  u ← user_read uas;
  if (safe_mul64 SIZEOF_USM (uas_size u)).2 then fail E_INVAL
  else
    h ← get_hdr a;
    ents ← as_to_user_loop a (uas_size u) (slot_range h) [];
    x ← get_as a;
    mret (UAs (uas_size u) (Z.of_nat (length ents)) ents (as_utrap_entry x) (as_utrap_stack_base x)
            (as_utrap_stack_top x)).

Fixpoint as_from_user_loop (a : Z) (u : u_address_space) (slots : list Z) : M unit :=
  match slots with
  | [] => mret tt
  | i :: rest =>
      as_get_usegmap a i page_excl_dirty;;
      sm ← as_get_segmap a i;
      match sm_ko sm with
      | Some ko => seg_unlink ko a i;; kobject_unpin_page ko
      | None => mret tt
      end;;
      put_segmap a i zero_sm;;
      put_usegmap a i zero_usm;;
      (if i <? uas_nent u then
         match uas_ents u !! Z.to_nat i with
         | Some e => put_usegmap a i (USegMap (usm_segment e) (usm_start_page e) (usm_num_pages e) i
                                        (usm_flags e) (usm_va e))
         | None => panic
         end
       else mret tt);;
      as_from_user_loop a u rest
  end.

Definition as_from_user (a : Z) (uas : uptr u_address_space) : M unit :=
  u ← user_read uas;
  if (safe_mul64 SIZEOF_USM (uas_nent u)).2 then fail E_INVAL
  else
    h ← get_hdr a;
    (if as_nents h <? uas_nent u then as_resize a (uas_nent u) else mret tt);;
    h ← get_hdr a;
    r ← catch (as_from_user_loop a u (slot_range h);;
               upd_as a (fun x => set_as_utrap_entry (uas_trap_handler u)
                 (set_as_utrap_stack_base (uas_trap_stack_base u)
                    (set_as_utrap_stack_top (uas_trap_stack_top u) x))));
    as_invalidate a;;
    match r with
    | inl _ => mret tt
    | inr e => fail e
    end.

Definition as_get_uslot (a : Z) (usm : uptr u_segment_mapping) : M u_segment_mapping :=
  u ← user_read usm;
  as_get_usegmap a (usm_kslot u) page_shared_ro.

(** The mapping only grows: what is mapped stays valid. *)
Definition usm_grows (old new : u_segment_mapping) : bool :=
  bool_decide (usm_segment old = usm_segment new) && (usm_start_page old =? usm_start_page new) &&
  (usm_kslot old =? usm_kslot new) && (usm_flags old =? usm_flags new) && (usm_va old =? usm_va new) &&
  (usm_num_pages old <=? usm_num_pages new) && negb (flag_in (usm_flags old) SEGMAP_REVERSE_PAGES).

Definition as_set_uslot (a : Z) (usm_new : uptr u_segment_mapping) : M unit :=
  u ← user_read usm_new;
  let slot := usm_kslot u in
  usm ← as_get_usegmap a slot page_excl_dirty;
  as_get_segmap a slot;;
  (if usm_grows usm u then mret tt else as_invalidate_sm a slot);;
  put_usegmap a slot u.

(** ** Page faults *)

Definition as_va_to_segment_page (usm : u_segment_mapping) (va : Z) : res Z :=
  let va0 := ROUNDDOWN (usm_va usm) PGSIZE in
  if (va0 <=? va) && (va <? va0 + usm_num_pages usm * PGSIZE) then
    let mapping_page := (va - va0) / PGSIZE in
    let mapping_page := if flag_in (usm_flags usm) SEGMAP_REVERSE_PAGES
                        then u64 (usm_num_pages usm - mapping_page - 1) else mapping_page in
    Ok (u64 (usm_start_page usm + mapping_page))
  else Panic.

(** [kobject_get_page] on a segment, for a mapping. *)
Definition segment_get_page (sg : Z) (npage : Z) (rw : page_sharing_mode) : M unit :=
  h ← get_hdr sg;
  if kobject_npages h <=? npage then fail E_INVAL
  else
    whenM (bool_decide (rw = page_excl_dirty)) (kobject_dirty sg);;
    whenM (bool_decide (rw = page_excl_dirty_later)) (upd_hdr sg (add_flag KOBJ_DIRTY_LATER));;
    whenM (negb (bool_decide (rw = page_shared_ro)))
      (page_alloc;;
       copied ← page_is_shared;
       h ← get_hdr sg;
       whenM (copied && has_flag h KOBJ_SHARED_MAPPINGS)
         (upd_hdr sg (del_flag KOBJ_SHARED_MAPPINGS);; segment_invalidate sg 0));;
    shared ← page_is_shared;
    whenM shared (upd_hdr sg (add_flag KOBJ_SHARED_MAPPINGS)).

(** [as_arch_putpage]: enters a page in the page table, which may need memory. *)
Definition as_arch_putpage (a va : Z) (pte : Z * Z * Z) : M unit :=
  page_alloc;;
  x ← get_as a;
  match as_pgmap x with
  | Some pt => upd_as a (set_as_pgmap (Some (<[va := pte]> pt)))
  | None => panic
  end.

(** The pages of one fault: [need] has to be mapped, the others are a
    courtesy and their failures are ignored. *)
Fixpoint as_fill_pages (a ko : Z) (usm : u_segment_mapping) (need flags : Z) (vas : list Z) : M unit :=
  match vas with
  | [] => mret tt
  | va :: rest =>
      segpage ← lift (as_va_to_segment_page usm va);
      h ← get_hdr ko;
      skip ← (if negb (va =? need) && flag_in flags SEGMAP_WRITE && bool_decide (ko_type h = kobj_segment)
              then if kobject_npages h <=? segpage then mret true else page_is_shared
              else mret false);
      if (skip : bool) then as_fill_pages a ko usm need flags rest
      else
        r ← catch (match ko_type h with
                   | kobj_segment =>
                       segment_get_page ko segpage
                         (if flag_in flags SEGMAP_WRITE then page_excl_dirty_later else page_shared_ro);;
                       as_arch_putpage a va (ko, segpage, flags)
                   | _ => fail E_INVAL
                   end);
        match r with
        | inl _ => as_fill_pages a ko usm need flags rest
        | inr e => if va =? need then fail e else as_fill_pages a ko usm need flags rest
        end
  end.

(** The page addresses from [first] to [last]. *)
Definition page_range (first last : Z) : list Z :=
  (fun i => first + Z.of_nat i * PGSIZE) <$> seq 0 (Z.to_nat ((last - first) / PGSIZE + 1)).

Definition as_pmap_fill_kobj (a ko slot : Z) (usm : u_segment_mapping) (need_va flags : Z) : M unit :=
  if usm_num_pages usm =? 0 then fail E_INVAL
  else
    let need := ROUNDDOWN need_va PGSIZE in
    let usm_first := ROUNDDOWN (usm_va usm) PGSIZE in
    let '(len, of1) := safe_mul64 (usm_num_pages usm - 1) PGSIZE in
    let '(usm_last, of2) := safe_add64 usm_first len in
    if of1 || of2 || negb (PGOFF (usm_va usm) =? 0) then fail E_INVAL
    else
      assertM ((usm_first <=? need) && (need <=? usm_last));;
      let courtesy := as_courtesy_pages * PGSIZE in
      let map_first := if courtesy <? need - usm_first then need - courtesy else usm_first in
      let map_last := if courtesy <? usm_last - need then need + courtesy else usm_last in
      sm ← as_get_segmap a slot;
      match sm_ko sm with
      | Some old => seg_unlink old a slot;; kobject_unpin_page old
      | None => mret tt
      end;;
      put_segmap a slot (SegMap (sm_rw_mappings sm) (sm_ct_id sm) (sm_as_slot sm) None);;
      r ← catch (as_fill_pages a ko usm need flags (page_range map_first map_last));
      match r with
      | inr e =>
          x ← get_as a;
          match as_pgmap x with
          | Some pt => upd_as a (set_as_pgmap (Some (page_map_clear usm_first usm_last pt)))
          | None => panic
          end;;
          fail e
      | inl _ =>
          put_segmap a slot (SegMap (sm_rw_mappings sm || flag_in flags SEGMAP_WRITE) (sm_ct_id sm)
            (sm_as_slot sm) (Some ko));;
          kobject_dirty ko;;
          upd_segment ko (fun g => set_sg_segmap_list ((a, slot) :: sg_segmap_list g) g);;
          kobject_pin_page ko
      end.

(** The first mapping that covers the address with the requested rights; a
    writable mapping that may only be read serves a read fault. *)
Fixpoint as_pmap_fill_loop (a va reqflags : Z) (slots : list Z) : M unit :=
  match slots with
  | [] => fail E_NOT_FOUND
  | i :: rest =>
      usm ← as_get_usegmap a i page_shared_ro;
      let flags := usm_flags usm in
      let va_start := ROUNDDOWN (usm_va usm) PGSIZE in
      let '(len, of1) := safe_mul64 (usm_num_pages usm) PGSIZE in
      let '(va_end, of2) := safe_add64 va_start len in
      if negb (flag_in flags SEGMAP_READ) || negb (Z.land flags reqflags =? reqflags) ||
         of1 || of2 || (va <? va_start) || (va_end <=? va)
      then as_pmap_fill_loop a va reqflags rest
      else
        r ← catch (cobj_get (usm_segment usm) None (if flag_in flags SEGMAP_WRITE then iflow_rw else iflow_read));
        p ← match r with
            | inl ko => mret (ko, flags)
            | inr e =>
                if (e =? E_LABEL) && flag_in flags SEGMAP_WRITE && negb (flag_in reqflags SEGMAP_WRITE) then
                  ko ← cobj_get (usm_segment usm) None iflow_read;
                  mret (ko, Z.land flags (Z.lnot SEGMAP_WRITE))
                else fail e
            end;
        h ← get_hdr p.1;
        if negb (bool_decide (ko_type h = kobj_segment)) && negb (bool_decide (ko_type h = kobj_device))
        then fail E_INVAL
        else
          sm ← as_get_segmap a i;
          put_segmap a i (SegMap (sm_rw_mappings sm) (container (usm_segment usm)) i (sm_ko sm));;
          as_pmap_fill_kobj a p.1 i usm va p.2
  end.

Definition as_pmap_fill (a va reqflags : Z) : M unit :=
  h ← get_hdr a;
  as_pmap_fill_loop a va reqflags (slot_range h).

Definition as_pagefault (a va reqflags : Z) : M unit :=
  x ← get_as a;
  match as_pgmap x with
  | Some _ => mret tt
  | None =>
      kobject_dirty a;;
      page_alloc;;
      t ← cur_thread_id;
      th ← get_thread t;
      h ← get_hdr t;
      upd_as a (fun x => set_as_pgmap_label_id (hdr_label h kolabel_tracking)
        (set_as_pgmap_tls_id (th_sg th) (set_as_pgmap (Some ∅) x)))
  end;;
  as_pmap_fill a va reqflags.

(** ** Switching *)

Fixpoint as_switch_invalidate_loop (a : Z) (invalidate_tls check_label : bool) (slots : list Z) : M unit :=
  match slots with
  | [] => mret tt
  | i :: rest =>
      sm ← as_get_segmap a i;
      match sm_ko sm with
      | None => mret tt
      | Some _ =>
          usm ← as_get_usegmap a i page_shared_ro;
          let tls := invalidate_tls && (object (usm_segment usm) =? kobject_id_thread_sg) in
          do_invalidate ←
            (if tls then mret true
             else if check_label then
               r ← catch (cobj_get (usm_segment usm) (Some kobj_segment)
                            (if flag_in (usm_flags usm) SEGMAP_WRITE then iflow_rw else iflow_read));
               match r with
               | inl _ => mret false
               | inr _ => mret true
               end
             else mret false);
          whenM do_invalidate (as_invalidate_sm a i)
      end;;
      as_switch_invalidate_loop a invalidate_tls check_label rest
  end.

Definition as_switch_invalidate (a : Z) (invalidate_tls check_label : bool) : M unit :=
  if negb invalidate_tls && negb check_label then mret tt
  else
    h ← get_hdr a;
    r ← catch (as_switch_invalidate_loop a invalidate_tls check_label (slot_range h));
    match r with
    | inl _ => mret tt
    | inr _ => as_invalidate a
    end.

Definition as_switch (oa : option Z) : M unit :=
  cur ← gets ks_cur;
  match oa, cur with
  | Some a, Some t =>
      th ← get_thread t;
      h ← get_hdr t;
      let cur_tls := th_sg th in
      let cur_lbl := hdr_label h kolabel_tracking in
      x ← get_as a;
      as_switch_invalidate a (negb (as_pgmap_tls_id x =? cur_tls)) (negb (as_pgmap_label_id x =? cur_lbl));;
      kobject_dirty a;;
      upd_as a (fun x => set_as_pgmap_label_id cur_lbl (set_as_pgmap_tls_id cur_tls x))
  | _, _ => mret tt
  end;;
  match oa with
  | Some a =>
      x ← get_as a;
      modify (fun s => set_ks_cur_as (Some a)
        (set_ks_cur_pgmap (match as_pgmap x with Some _ => Some a | None => None end) s))
  | None => as_switch_none
  end.

(** A mapping of a segment that is being written to disk turns read-only. *)
Definition as_map_ro_sm (a slot : Z) : M unit :=
  x ← get_as a;
  match as_segmap x !! slot with
  | Some (SegMap true ct sl ko) =>
      match usm_at x sl, as_pgmap x with
      | Some usm, Some pt =>
          let last := u64 (usm_va usm + (usm_num_pages usm - 1) * PGSIZE) in
          let ro va (pte : Z * Z * Z) :=
            if (usm_va usm <=? va) && (va <=? last)
            then (pte.1, Z.land pte.2 (Z.lnot SEGMAP_WRITE)) else pte in
          upd_as a (fun x => set_as_segmap (<[slot := SegMap false ct sl ko]> (as_segmap x))
            (set_as_pgmap (Some (map_imap (fun va pte => Some (ro va pte)) pt)) x))
      | _, _ => panic
      end
  | _ => mret tt
  end.

Fixpoint segment_map_ro_loop (sms : list (Z * Z)) : M unit :=
  match sms with
  | [] => mret tt
  | (a, slot) :: rest => as_map_ro_sm a slot;; segment_map_ro_loop rest
  end.

Definition segment_map_ro (sg : Z) : M unit :=
  g ← get_segment sg;
  segment_map_ro_loop (sg_segmap_list g).

(** [share_pinned] is what [pagetree_copy] reports: a page is pinned for a device and
    shared with the snapshot.  It does not fail when it is asked to report that. *)
Definition kobject_snapshot (ko : Z) (share_pinned : bool) : M unit :=
  h ← get_hdr ko;
  assertM (negb (has_flag h KOBJ_SNAPSHOTING));;
  whenM (bool_decide (ko_type h = kobj_segment)) (segment_map_ro ko);;
  upd_hdr ko (hdr_del_flags [KOBJ_DIRTY; KOBJ_SNAP_SHARE_PIN]);;
  kobject_pin_hdr ko;;
  upd_ko ko (fun o => set_ko_snapshot
    (Some (if share_pinned then add_flag KOBJ_SNAP_SHARE_PIN (hdr o) else hdr o, body o)) o);;
  upd_hdr ko (add_flag KOBJ_SNAPSHOTING).

(** ** Threads and their address space *)

Definition thread_load_as (t : Z) : M unit :=
  th ← get_thread t;
  match th_as th with
  | Some _ => mret tt
  | None =>
      a ← cobj_get (th_asref th) (Some kobj_address_space) iflow_read;
      upd_thread t (set_th_as (Some a));;
      kobject_pin_hdr a
  end.

Definition thread_switch (t : Z) : M unit :=
  th ← get_thread t;
  match th_as th with
  | Some a =>
      h ← get_hdr a;
      whenM (ko_ref h =? 0) (thread_clear_as t)
  | None => mret tt
  end;;
  modify (set_ks_cur (Some t));;
  th ← get_thread t;
  as_switch (th_as th).

Definition thread_pagefault (t fault_va reqflags : Z) : M unit :=
  thread_load_as t;;
  th ← get_thread t;
  match th_as th with
  | Some a => as_pagefault a fault_va reqflags
  | None => panic
  end.

(** ** System calls on address spaces *)

Definition sys_as_get (asref : cobj_ref) (uas : uptr u_address_space) : M u_address_space :=
  a ← cobj_get asref (Some kobj_address_space) iflow_read;
  as_to_user a uas.

Definition sys_as_set (asref : cobj_ref) (uas : uptr u_address_space) : M Z :=
  a ← cobj_get asref (Some kobj_address_space) iflow_rw;
  kobject_dirty a;;
  as_from_user a uas;;
  mret 0.

Definition sys_as_get_slot (asref : cobj_ref) (usm : uptr u_segment_mapping) : M u_segment_mapping :=
  a ← cobj_get asref (Some kobj_address_space) iflow_read;
  kobject_dirty a;;
  as_get_uslot a usm.

Definition sys_as_set_slot (asref : cobj_ref) (usm : uptr u_segment_mapping) : M Z :=
  a ← cobj_get asref (Some kobj_address_space) iflow_rw;
  kobject_dirty a;;
  as_set_uslot a usm;;
  mret 0.
