(* ===== verification/KSched.v ===== *)
(** * Scheduling, waiting and waking up

    [schedule] of [kern/kern/sched.c], [sync_wait] and the wake-ups of
    [sync.c], the remaining handlers of [syscall.c] that use them, and the
    switch over all modelled system calls. *)

From S2P Require Import Prelude Label LabelCache Blowfish KState KThread KObj KOps KGc KSys KAs.
From stdpp Require Import options.

Set Default Goal Selector "!".

(** ** Wake-ups *)

Fixpoint sync_wakeup_timer_loop (now_nsec : Z) (ts : list Z) : M unit :=
  match ts with
  | [] => mret tt
  | t :: rest =>
      th ← get_thread t;
      whenM (te_wakeup_nsec th <=? now_nsec) (thread_set_runnable t);;
      sync_wakeup_timer_loop now_nsec rest
  end.

(** [timer_user_nsec] is the clock [ks_now]. *)
Definition sync_wakeup_timer : M unit :=
  now ← gets ks_now;
  ts ← gets (fun s => tlist_get s TL_sync_time);
  sync_wakeup_timer_loop now ts.

(** The slot waits for the address. *)
Definition waits_addr (s : kstate) (seg_id offset : Z) (r : Z * nat) : bool :=
  match ks_heap s !! r.1 with
  | Some ko => match body ko with
               | BThread th => match te_slots th !! r.2 with
                               | Some sw => (sw_seg sw =? seg_id) && (sw_offset sw =? offset)
                               | None => false
                               end
               | _ => false
               end
  | None => false
  end.

Fixpoint sync_wakeup_addr_loop (fuel : nat) (seg_id offset : Z) : M unit :=
  match fuel with
  | O => mret tt
  | S fuel =>
      hit ← gets (fun s => find (waits_addr s seg_id offset)
                             (slot_list (ks_sync_addr s) (sync_addr_head seg_id offset)));
      match hit with
      | None => mret tt
      | Some (t, _) => thread_set_runnable t;; sync_wakeup_addr_loop fuel seg_id offset
      end
  end.

(** [inverted] is the outcome of [as_invert_mapped] for the address. *)
Definition sync_wakeup_addr (inverted : res (Z * Z)) : M unit :=
  t ← cur_thread_id;
  thread_load_as t;;
  th ← get_thread t;
  as_switch (th_as th);;
  p ← lift inverted;
  n ← gets (fun s => length (slot_list (ks_sync_addr s) (sync_addr_head p.1 p.2)));
  sync_wakeup_addr_loop n p.1 p.2.

(** ** Waiting *)

(** One address to wait on: what is read there, the value it is compared with,
    the container that keeps the segment, and where the address is mapped. *)
Record wait_arg := WaitArg {
  wa_cur : uptr Z;
  wa_val : Z;
  wa_refct : Z;
  wa_inverted : res (Z * Z)
}.

(** The result tells whether the thread has to wait: the value is unchanged. *)
Definition sync_waitslot_init (w : wait_arg) (i : nat) (t : Z) : M bool :=
  cur ← user_read (wa_cur w);
  if negb (cur =? wa_val w) then mret false
  else
    p ← lift (wa_inverted w);
    let cobj := if negb (wa_refct w =? 0) then COBJ (wa_refct w) p.1 else COBJ 0 0 in
    (if negb (wa_refct w =? 0) then cobj_get cobj (Some kobj_segment) iflow_none;; mret tt else mret tt);;
    upd_thread t (fun th =>
      let slots := te_slots th ++ replicate (S i - length (te_slots th)) (SyncWaitSlot 0 0 (COBJ 0 0)) in
      set_te_wait_slots (i :: te_wait_slots th) (set_te_slots (<[i := SyncWaitSlot p.1 p.2 cobj]> slots) th));;
    mret true.

(** The slots of the second and later addresses are in the thread's pages. *)
Fixpoint sync_wait_init (t : Z) (i : nat) (ws : list wait_arg) : M bool :=
  match ws with
  | [] => mret true
  | w :: rest =>
      (if (0 <? i)%nat
       then kobject_get_page t ((i - 1) / Z.to_nat (PGSIZE / SIZEOF_SYNC_WAIT_SLOT) + 1)%nat page_excl_dirty
       else mret tt);;
      waits ← sync_waitslot_init w i t;
      if (waits : bool) then sync_wait_init t (S i) rest else mret false
  end.

Fixpoint sync_wait_link (t : Z) (idxs : list nat) : M unit :=
  match idxs with
  | [] => mret tt
  | i :: rest =>
      th ← get_thread t;
      sw ← lift (res_nth (te_slots th) i);
      let ha := sync_addr_head (sw_seg sw) (sw_offset sw) in
      modify (fun s => set_ks_sync_addr (<[ha := (t, i) :: slot_list (ks_sync_addr s) ha]> (ks_sync_addr s)) s);;
      whenM (negb (object (sw_cobj sw) =? 0))
        (let hc := sync_cobj_head (sw_cobj sw) in
         modify (fun s => set_ks_sync_cobj (<[hc := (t, i) :: slot_list (ks_sync_cobj s) hc]> (ks_sync_cobj s)) s));;
      sync_wait_link t rest
  end.

Definition sync_wait (ws : list wait_arg) (wakeup_nsec : Z) : M Z :=
  now ← gets ks_now;
  t ← cur_thread_id;
  th ← get_thread t;
  if (length ws =? 0)%nat then mret 0
  else if u64 (th_multi_slots th + 1) <? Z.of_nat (length ws) then fail E_NO_SPACE
  else if wakeup_nsec <=? now then mret 0
  else
    thread_load_as t;;
    th ← get_thread t;
    as_switch (th_as th);;
    upd_thread t (set_te_wait_slots []);;
    waits ← sync_wait_init t 0 ws;
    if (waits : bool) then
      th ← get_thread t;
      sync_wait_link t (te_wait_slots th);;
      upd_thread t (set_te_wakeup_nsec wakeup_nsec);;
      thread_suspend t TL_sync_time;;
      upd_thread t (set_th_sync_waiting true);;
      mret 1
    else mret 0.

(** ** The scheduler *)

(** The first thread of least pass, in the sense of [sched_pass_below]. *)
Fixpoint min_pass (best : option (Z * Z)) (ts : list (Z * Z)) : option (Z * Z) :=
  match ts with
  | [] => best
  | (t, pass) :: rest =>
      match best with
      | None => min_pass (Some (t, pass)) rest
      | Some (b, bpass) => if sched_pass_below pass bpass then min_pass (Some (t, pass)) rest
                           else min_pass best rest
      end
  end.

Fixpoint thread_passes (ts : list Z) : M (list (Z * Z)) :=
  match ts with
  | [] => mret []
  | t :: rest =>
      th ← get_thread t;
      ps ← thread_passes rest;
      mret ((t, th_sched_pass th) :: ps)
  end.

(** A thread that may not know of its own existence is halted and another one
    is chosen; each such round takes a thread off the run queue. *)
Fixpoint schedule_loop (fuel : nat) : M unit :=
  match fuel with
  | O => panic
  | S fuel =>
      ts ← gets (fun s => tlist_get s TL_runnable);
      ps ← thread_passes ts;
      let choice := fst <$> min_pass None ps in
      modify (set_ks_cur choice);;
      match choice with
      | None => mret tt
      | Some t =>
          th ← get_thread t;
          assertM (bool_decide (th_status th = thread_runnable));;
          thread_check_sched_parents t;;
          cur ← gets ks_cur;
          match cur with
          | None => schedule_loop fuel
          | Some t =>
              th ← get_thread t;
              if bool_decide (th_status th = thread_runnable)
              then global_pass_update (th_sched_pass th)
              else schedule_loop fuel
          end
      end
  end.

(** [periodic] is the work that [timer_periodic_notify] finds due. *)
Definition schedule (periodic : M unit) : M unit :=
  sync_wakeup_timer;;
  periodic;;
  n ← gets (fun s => length (tlist_get s TL_runnable));
  schedule_loop (S n).

(** ** Handlers *)

Definition sys_self_yield (periodic : M unit) : M Z := schedule periodic;; mret 0.

Definition sys_sync_wait (w : wait_arg) (wakeup_at_nsec : Z) : M Z :=
  sync_wait [w] wakeup_at_nsec;; mret 0.

(** The three arrays have [num] words each. *)
Definition sys_sync_wait_multi (ws : uptr (list wait_arg)) (num nsec : Z) : M Z :=
  l ← user_read ws;
  if (safe_mul64 8 num).2 then fail E_INVAL
  else sync_wait l nsec;; mret 0.

Definition sys_sync_wakeup (addr : uptr Z) (inverted : res (Z * Z)) : M Z :=
  user_read addr;;
  sync_wakeup_addr inverted;;
  mret 0.

Definition sys_clock_nsec : M Z := gets ks_now.

(** ** The system call switch *)

Inductive syscall :=
| SYS_container_alloc (parent_ct : Z) (ul : uptr ulabel) (name : uptr (list Z)) (avoid_types quota : Z)
| SYS_container_get_nslots (ct : Z)
| SYS_container_get_parent (ct : Z)
| SYS_container_get_slot_id (ct slot : Z)
| SYS_container_move_quota (parent_id child_id nbytes : Z)
| SYS_obj_unref (o : cobj_ref)
| SYS_obj_get_type (o : cobj_ref)
| SYS_obj_get_label (o : cobj_ref) (ul : uptr ulabel)
| SYS_obj_get_name (o : cobj_ref) (buf : uptr (list Z))
| SYS_obj_get_quota_total (o : cobj_ref)
| SYS_obj_get_quota_avail (o : cobj_ref)
| SYS_obj_get_meta (o : cobj_ref) (buf : uptr (list Z))
| SYS_obj_set_meta (o : cobj_ref) (oldm newm : uptr (list Z))
| SYS_obj_set_fixedquota (o : cobj_ref)
| SYS_obj_set_readonly (o : cobj_ref)
| SYS_obj_get_readonly (o : cobj_ref)
| SYS_obj_move (o : cobj_ref) (new_parent ancestor : Z)
| SYS_gate_create (ct : Z) (ute : uptr thread_entry) (u_label u_clear u_guard : uptr ulabel)
    (name : uptr (list Z)) (entry_visible : bool)
| SYS_gate_enter (gt : cobj_ref) (ulab uclear : uptr ulabel) (ute : uptr thread_entry)
| SYS_gate_clearance (gt : cobj_ref) (ul : uptr ulabel)
| SYS_gate_get_entry (gt : cobj_ref) (te : uptr thread_entry)
| SYS_thread_create (ct : Z) (name : uptr (list Z))
| SYS_thread_start (thread : cobj_ref) (ute : uptr thread_entry) (ul uclear : uptr ulabel)
| SYS_self_yield (gc : bool)
| SYS_self_halt
| SYS_self_id
| SYS_self_addref (ct : Z)
| SYS_self_set_label (ul : uptr ulabel)
| SYS_self_set_clearance (ul : uptr ulabel)
| SYS_self_get_clearance (ul : uptr ulabel)
| SYS_self_set_verify (uvl uvc : uptr ulabel)
| SYS_self_get_verify (uvl uvc : uptr ulabel)
| SYS_self_get_as (buf : uptr cobj_ref)
| SYS_self_set_as (a : cobj_ref)
| SYS_self_fp_enable
| SYS_self_fp_disable
| SYS_self_set_waitslots (nslots : Z)
| SYS_self_set_sched_parents (p0 p1 : Z)
| SYS_self_set_cflush (cflush : Z)
| SYS_sync_wait (w : wait_arg) (nsec : Z)
| SYS_sync_wait_multi (ws : uptr (list wait_arg)) (num nsec : Z)
| SYS_sync_wakeup (addr : uptr Z) (inverted : res (Z * Z))
| SYS_clock_nsec
| SYS_handle_create
| SYS_segment_create (ct num_bytes : Z) (ul : uptr ulabel) (name : uptr (list Z))
| SYS_segment_copy (seg : cobj_ref) (ct : Z) (ul : uptr ulabel) (name : uptr (list Z))
| SYS_segment_addref (seg : cobj_ref) (ct : Z)
| SYS_segment_resize (seg : cobj_ref) (num_bytes : Z)
| SYS_segment_get_nbytes (seg : cobj_ref)
| SYS_as_create (ct : Z) (ul : uptr ulabel) (name : uptr (list Z))
| SYS_as_copy (a : cobj_ref) (ct : Z) (ul : uptr ulabel) (name : uptr (list Z))
| SYS_as_get (a : cobj_ref) (uas : uptr u_address_space)
| SYS_as_set (a : cobj_ref) (uas : uptr u_address_space)
| SYS_as_get_slot (a : cobj_ref) (usm : uptr u_segment_mapping)
| SYS_as_set_slot (a : cobj_ref) (usm : uptr u_segment_mapping).

(** A handler that writes its result to user memory returns 0. *)
Definition to_user {A} (m : M A) : M Z := m;; mret 0.

(** The periodic task of [kobject_init]. *)
Definition periodic_gc (due : bool) : M unit := whenM due kobject_gc_scan.

Definition syscall_dispatch (l c : Z) (sc : syscall) : M Z :=
  match sc with
  | SYS_container_alloc p ul name avoid quota => sys_container_alloc p ul name avoid quota
  | SYS_container_get_nslots ct => sys_container_get_nslots ct
  | SYS_container_get_parent ct => sys_container_get_parent ct
  | SYS_container_get_slot_id ct slot => sys_container_get_slot_id ct slot
  | SYS_container_move_quota p ch n => sys_container_move_quota p ch n
  | SYS_obj_unref o => sys_obj_unref o
  | SYS_obj_get_type o => sys_obj_get_type o
  | SYS_obj_get_label o ul => to_user (sys_obj_get_label o ul)
  | SYS_obj_get_name o buf => to_user (sys_obj_get_name o buf)
  | SYS_obj_get_quota_total o => sys_obj_get_quota_total o
  | SYS_obj_get_quota_avail o => sys_obj_get_quota_avail o
  | SYS_obj_get_meta o buf => to_user (sys_obj_get_meta o buf)
  | SYS_obj_set_meta o a b => sys_obj_set_meta o a b
  | SYS_obj_set_fixedquota o => sys_obj_set_fixedquota o
  | SYS_obj_set_readonly o => sys_obj_set_readonly o
  | SYS_obj_get_readonly o => sys_obj_get_readonly o
  | SYS_obj_move o p a => sys_obj_move o p a
  | SYS_gate_create ct te ul uc ug name v => sys_gate_create l c ct te ul uc ug name v
  | SYS_gate_enter gt ul uc te => sys_gate_enter l c gt ul uc te
  | SYS_gate_clearance gt ul => to_user (sys_gate_clearance gt ul)
  | SYS_gate_get_entry gt te => to_user (sys_gate_get_entry gt te)
  | SYS_thread_create ct name => sys_thread_create l c ct name
  | SYS_thread_start t te ul uc => sys_thread_start l c t te ul uc
  | SYS_self_yield gc => sys_self_yield (periodic_gc gc)
  | SYS_self_halt => sys_self_halt
  | SYS_self_id => sys_self_id
  | SYS_self_addref ct => sys_self_addref ct
  | SYS_self_set_label ul => sys_self_set_label l c ul
  | SYS_self_set_clearance ul => sys_self_set_clearance l c ul
  | SYS_self_get_clearance ul => to_user (sys_self_get_clearance c ul)
  | SYS_self_set_verify a b => sys_self_set_verify a b
  | SYS_self_get_verify a b => to_user (sys_self_get_verify a b)
  | SYS_self_get_as buf => to_user (sys_self_get_as buf)
  | SYS_self_set_as a => sys_self_set_as a
  | SYS_self_fp_enable => sys_self_fp_enable
  | SYS_self_fp_disable => sys_self_fp_disable
  | SYS_self_set_waitslots n => sys_self_set_waitslots n
  | SYS_self_set_sched_parents a b => sys_self_set_sched_parents a b
  | SYS_self_set_cflush b => sys_self_set_cflush b
  | SYS_sync_wait w n => sys_sync_wait w n
  | SYS_sync_wait_multi ws num n => sys_sync_wait_multi ws num n
  | SYS_sync_wakeup a i => sys_sync_wakeup a i
  | SYS_clock_nsec => sys_clock_nsec
  | SYS_handle_create => sys_handle_create l c
  | SYS_segment_create ct n ul name => sys_segment_create ct n ul name
  | SYS_segment_copy seg ct ul name => sys_segment_copy seg ct ul name
  | SYS_segment_addref seg ct => sys_segment_addref seg ct
  | SYS_segment_resize seg n => sys_segment_resize seg n
  | SYS_segment_get_nbytes seg => sys_segment_get_nbytes seg
  | SYS_as_create ct ul name => sys_as_create ct ul name
  | SYS_as_copy a ct ul name => sys_as_copy a ct ul name
  | SYS_as_get a u => to_user (sys_as_get a u)
  | SYS_as_set a u => sys_as_set a u
  | SYS_as_get_slot a u => to_user (sys_as_get_slot a u)
  | SYS_as_set_slot a u => sys_as_set_slot a u
  end.

Definition kern_syscall (sc : syscall) : M Z :=
  syscall_exec (fun l c => syscall_dispatch l c sc).
