(* ===== verification/KLogic.v ===== *)
(** * Reasoning about kernel operations

    Rules for [Keeps] (a relation between the states before and after an
    operation that does not panic) and for successful runs, and the tactics
    [keeps] and [minv] that apply them along the code of an operation. *)

From S2P Require Import Prelude Label LabelCache Blowfish KState.
From stdpp Require Import options.

Set Default Goal Selector "!".
Set Default Proof Using "Type*".

(** ** Runs *)

Lemma bind_run {A B} (m : M A) (f : A -> M B) s r s' :
  (m ≫= f) s = (r, s') ->
  (exists a s1, m s = (Ok a, s1) /\ f a s1 = (r, s')) \/
  (exists e, m s = (Err e, s') /\ r = Err e) \/
  (m s = (Panic, s') /\ r = Panic).
Proof.
  unfold mbind, M_bind. destruct (m s) as [[a|e|] s1]; intros H; simplify_eq/=; eauto 10.
Qed.

Lemma bind_ok {A B} (m : M A) (f : A -> M B) s b s' :
  (m ≫= f) s = (Ok b, s') <-> exists a s1, m s = (Ok a, s1) /\ f a s1 = (Ok b, s').
Proof.
  split.
  - intros [(a & s1 & ? & ?)|[(e & ? & ?)|[? ?]]]%bind_run; simplify_eq; eauto.
  - intros (a & s1 & H1 & H2). unfold mbind, M_bind. by rewrite H1.
Qed.

(** A run of a sequence, from a run of its head. *)
Lemma bind_run_ok {A B} (m : M A) (f : A -> M B) s a s1 :
  m s = (Ok a, s1) -> (m ≫= f) s = f a s1.
Proof. intros H. unfold mbind, M_bind. by rewrite H. Qed.

Lemma catch_run {A} (m : M A) s r s' :
  catch m s = (r, s') ->
  (exists a, m s = (Ok a, s') /\ r = Ok (inl a)) \/
  (exists e, m s = (Err e, s') /\ r = Ok (inr e)) \/
  (m s = (Panic, s') /\ r = Panic).
Proof. unfold catch. destruct (m s) as [[a|e|] s1]; intros; simplify_eq/=; eauto 10. Qed.

Lemma get_ko_ok id s ko s' : get_ko id s = (Ok ko, s') <-> ks_heap s !! id = Some ko /\ s' = s.
Proof.
  unfold get_ko. destruct (ks_heap s !! id) as [x|] eqn:E; split; intros H.
  - simplify_eq. done.
  - destruct H. by simplify_eq.
  - simplify_eq.
  - destruct H. simplify_eq.
Qed.

Lemma get_hdr_ok id s h s' :
  get_hdr id s = (Ok h, s') <-> exists ko, ks_heap s !! id = Some ko /\ h = hdr ko /\ s' = s.
Proof.
  unfold get_hdr. rewrite bind_ok. split.
  - intros (ko & s1 & [H ->]%get_ko_ok & Hr). unfold mret, M_ret in Hr. simplify_eq. eauto.
  - intros (ko & H & -> & ->). exists ko, s. by rewrite get_ko_ok.
Qed.

Lemma upd_ko_run id f s r s' :
  upd_ko id f s = (r, s') -> r <> Panic ->
  exists ko, ks_heap s !! id = Some ko /\ r = Ok tt /\ s' = set_ks_heap (<[id := f ko]> (ks_heap s)) s.
Proof.
  unfold upd_ko. intros [(ko & s1 & [H ->]%get_ko_ok & Hr)|[(e & H & ->)|[H ->]]]%bind_run Hp; [| |done].
  - unfold put_ko, modify in Hr. simplify_eq. eauto.
  - unfold get_ko in H. destruct (ks_heap s !! id); by simplify_eq.
Qed.

Lemma upd_ko_ok id f s ko :
  ks_heap s !! id = Some ko -> upd_ko id f s = (Ok tt, set_ks_heap (<[id := f ko]> (ks_heap s)) s).
Proof. intros H. unfold upd_ko, mbind, M_bind, get_ko. rewrite H. reflexivity. Qed.

Lemma upd_hdr_ok id f s ko :
  ks_heap s !! id = Some ko ->
  upd_hdr id f s = (Ok tt, set_ks_heap (<[id := set_hdr (f (hdr ko)) ko]> (ks_heap s)) s).
Proof. intros H. unfold upd_hdr. by rewrite (upd_ko_ok id _ s ko H). Qed.

(** The same rules with the result of the read left in the goal. *)
Lemma get_ko_run id s ko : ks_heap s !! id = Some ko -> get_ko id s = (Ok ko, s).
Proof. intros H. by apply get_ko_ok. Qed.

Lemma get_hdr_run id s ko : ks_heap s !! id = Some ko -> get_hdr id s = (Ok (hdr ko), s).
Proof. intros H. apply get_hdr_ok. eauto. Qed.

Lemma get_thread_ok id s t s' :
  get_thread id s = (Ok t, s') <->
  exists ko, ks_heap s !! id = Some ko /\ body ko = BThread t /\ s' = s.
Proof.
  unfold get_thread. rewrite bind_ok. split.
  - intros (ko & s1 & [H ->]%get_ko_ok & Hr). exists ko.
    destruct (body ko) eqn:E; unfold panic, mret, M_ret in Hr; simplify_eq. done.
  - intros (ko & H & Hb & ->). exists ko, s. rewrite get_ko_ok, Hb. done.
Qed.

Lemma get_thread_run id s ko t :
  ks_heap s !! id = Some ko -> body ko = BThread t -> get_thread id s = (Ok t, s).
Proof. intros. apply get_thread_ok. eauto. Qed.

Lemma get_label_body_ok id s l s' :
  get_label_body id s = (Ok l, s') <->
  exists ko, ks_heap s !! id = Some ko /\ body ko = BLabel l /\ s' = s.
Proof.
  unfold get_label_body. rewrite bind_ok. split.
  - intros (ko & s1 & [H ->]%get_ko_ok & Hr). exists ko.
    destruct (body ko) eqn:E; unfold panic, mret, M_ret in Hr; simplify_eq. done.
  - intros (ko & H & Hb & ->). exists ko, s. rewrite get_ko_ok, Hb. done.
Qed.

(** ** Keeps *)

Section keeps_rules.

Context (R : kstate -> kstate -> Prop) `{!PreOrder R}.

Lemma keeps_ret {A} (a : A) : Keeps R (mret a).
Proof. intros s r s' H _. unfold mret, M_ret in H. by simplify_eq. Qed.

Lemma keeps_bind {A B} (m : M A) (f : A -> M B) :
  Keeps R m -> (forall a, Keeps R (f a)) -> Keeps R (m ≫= f).
Proof.
  intros Hm Hf s r s' [(a & s1 & H1 & H2)|[(e & H & ->)|[H ->]]]%bind_run Hp; [| |done].
  - etrans; [by eapply Hm|by eapply Hf].
  - by eapply Hm.
Qed.

Lemma keeps_catch {A} (m : M A) : Keeps R m -> Keeps R (catch m).
Proof.
  intros Hm s r s' [(a & H & ->)|[(e & H & ->)|[H ->]]]%catch_run Hp; [by eapply Hm..|done].
Qed.

Lemma keeps_fail {A} e : Keeps R (@fail A e).
Proof. intros s r s' H _. unfold fail in H. by simplify_eq. Qed.

Lemma keeps_panic {A} : Keeps R (@panic A).
Proof. intros s r s' H Hp. unfold panic in H. by simplify_eq. Qed.

Lemma keeps_gets {A} (f : kstate -> A) : Keeps R (gets f).
Proof. intros s r s' H _. unfold gets in H. by simplify_eq. Qed.

Lemma keeps_lift {A} (x : res A) : Keeps R (lift x).
Proof. intros s r s' H _. unfold lift in H. by simplify_eq. Qed.

Lemma keeps_assert b : Keeps R (assertM b).
Proof. destruct b; [apply keeps_ret|apply keeps_panic]. Qed.

Lemma keeps_when b m : Keeps R m -> Keeps R (whenM b m).
Proof. destruct b; [done|intros; apply keeps_ret]. Qed.

Lemma keeps_get_ko id : Keeps R (get_ko id).
Proof. intros s r s' H _. unfold get_ko in H. destruct (ks_heap s !! id); by simplify_eq. Qed.

Lemma keeps_get_hdr id : Keeps R (get_hdr id).
Proof. apply keeps_bind; [apply keeps_get_ko|intros; apply keeps_ret]. Qed.

Lemma keeps_modify f : (forall s, R s (f s)) -> Keeps R (modify f).
Proof. intros Hf s r s' H _. unfold modify in H. by simplify_eq. Qed.

Lemma keeps_upd_ko id f :
  (forall s ko, ks_heap s !! id = Some ko -> R s (set_ks_heap (<[id := f ko]> (ks_heap s)) s)) ->
  Keeps R (upd_ko id f).
Proof. intros Hf s r s' H Hp. apply upd_ko_run in H as (ko & Hk & _ & ->); [|done]. by apply Hf. Qed.

Lemma keeps_body_read {A} id (f : ko_body_t -> option A) :
  Keeps R (ko ← get_ko id; match f (body ko) with Some a => mret a | None => panic end).
Proof.
  apply keeps_bind; [apply keeps_get_ko|]. intros ko. destruct (f (body ko)); [apply keeps_ret|apply keeps_panic].
Qed.

Lemma keeps_get_label_body id : Keeps R (get_label_body id).
Proof. apply keeps_bind; [apply keeps_get_ko|]. intros ko. destruct (body ko); (apply keeps_ret || apply keeps_panic). Qed.
Lemma keeps_get_container id : Keeps R (get_container id).
Proof. apply keeps_bind; [apply keeps_get_ko|]. intros ko. destruct (body ko); (apply keeps_ret || apply keeps_panic). Qed.
Lemma keeps_get_thread id : Keeps R (get_thread id).
Proof. apply keeps_bind; [apply keeps_get_ko|]. intros ko. destruct (body ko); (apply keeps_ret || apply keeps_panic). Qed.
Lemma keeps_get_gate id : Keeps R (get_gate id).
Proof. apply keeps_bind; [apply keeps_get_ko|]. intros ko. destruct (body ko); (apply keeps_ret || apply keeps_panic). Qed.
Lemma keeps_get_segment id : Keeps R (get_segment id).
Proof. apply keeps_bind; [apply keeps_get_ko|]. intros ko. destruct (body ko); (apply keeps_ret || apply keeps_panic). Qed.
Lemma keeps_get_as id : Keeps R (get_as id).
Proof. apply keeps_bind; [apply keeps_get_ko|]. intros ko. destruct (body ko); (apply keeps_ret || apply keeps_panic). Qed.

Lemma keeps_cur : Keeps R cur_thread_id.
Proof. apply keeps_bind; [apply keeps_gets|]. intros [t|]; [apply keeps_ret|apply keeps_panic]. Qed.

Lemma keeps_next_page : (forall s m, R s (set_ks_mem m s)) -> Keeps R next_page.
Proof.
  intros Hf s r s' H _. unfold next_page in H.
  destruct (ks_mem s) as [|b m]; simplify_eq; [done|apply Hf].
Qed.

Lemma keeps_tsc : (forall s m, R s (set_ks_tsc m s)) -> Keeps R karch_get_tsc.
Proof.
  intros Hf s r s' H _. unfold karch_get_tsc in H.
  destruct (ks_tsc s) as [|t m]; simplify_eq; [done|apply Hf].
Qed.

End keeps_rules.

(** A smaller relation is kept where a bigger one is. *)
Lemma keeps_weaken (R R' : kstate -> kstate -> Prop) {A} (m : M A) :
  (forall s s', R s s' -> R' s s') -> Keeps R m -> Keeps R' m.
Proof. intros HR Hm s r s' H Hp. by eapply HR, Hm. Qed.

Lemma keeps_and (R R' : kstate -> kstate -> Prop) {A} (m : M A) :
  Keeps R m -> Keeps R' m -> Keeps (fun s s' => R s s' /\ R' s s') m.
Proof. intros H1 H2 s r s' H Hp. split; [by eapply H1|by eapply H2]. Qed.

(** ** Invariants *)

Definition stays (I : kstate -> Prop) (s s' : kstate) : Prop := I s -> I s'.

#[export] Instance stays_preorder I : PreOrder (stays I).
Proof. split; [by intros ??|intros ??? H1 H2 H; by apply H2, H1]. Qed.

Notation "'Preserves' I" := (Keeps (stays I)) (at level 10, I at next level, only parsing).

Create HintDb keeps discriminated.

(** One step along the code of an operation. *)
Ltac keeps_step :=
  match goal with
  | |- Keeps _ (mbind _ _) => apply keeps_bind; [apply _| |intros ?]
  | |- Keeps _ (mret _) => apply keeps_ret; apply _
  | |- Keeps _ (fail _) => apply keeps_fail; apply _
  | |- Keeps _ panic => apply keeps_panic; apply _
  | |- Keeps _ (gets _) => apply keeps_gets; apply _
  | |- Keeps _ (lift _) => apply keeps_lift; apply _
  | |- Keeps _ (assertM _) => apply keeps_assert; apply _
  | |- Keeps _ (whenM _ _) => apply keeps_when; [apply _|]
  | |- Keeps _ (catch _) => apply keeps_catch; [apply _|]
  | |- Keeps _ (get_ko _) => apply keeps_get_ko; apply _
  | |- Keeps _ (get_hdr _) => apply keeps_get_hdr; apply _
  | |- Keeps _ (get_label_body _) => apply keeps_get_label_body; apply _
  | |- Keeps _ (get_container _) => apply keeps_get_container; apply _
  | |- Keeps _ (get_thread _) => apply keeps_get_thread; apply _
  | |- Keeps _ (get_gate _) => apply keeps_get_gate; apply _
  | |- Keeps _ (get_segment _) => apply keeps_get_segment; apply _
  | |- Keeps _ (get_as _) => apply keeps_get_as; apply _
  | |- Keeps _ cur_thread_id => apply keeps_cur; apply _
  | |- Keeps _ (if ?b then _ else _) => destruct b
  | |- Keeps _ (let '(_, _) := ?x in _) => destruct x
  | |- Keeps _ (match ?x with _ => _ end) => destruct x
  end.

(** Walks through an operation, closing the calls with the [keeps] hints. *)
Ltac keeps := repeat first [keeps_step | solve [auto 2 with keeps nocore] | progress cbv zeta].

(** The result and the state of a run that is known. *)
Ltac run_subst H := first [injection H as <- <- | injection H as ? <- | injection H as <- | simplify_eq].

(** Takes a successful run apart. *)
Ltac minv H :=
  lazymatch type of H with
  | (mbind _ _) _ = (Ok _, _) =>
      apply bind_ok in H;
      let a := fresh "a" in let s := fresh "s" in let H1 := fresh "H" in
      destruct H as (a & s & H1 & H); cbv beta in H
  | mret _ _ = (Ok _, _) => unfold mret, M_ret in H; run_subst H
  | gets _ _ = (Ok _, _) => unfold gets in H; run_subst H
  | get_ko _ _ = (Ok _, _) => apply get_ko_ok in H as [H ->]
  | get_hdr _ _ = (Ok _, _) =>
      apply get_hdr_ok in H; let ko := fresh "ko" in destruct H as (ko & H & -> & ->)
  | assertM ?b _ = (Ok _, _) => destruct b eqn:?; unfold assertM, panic, mret, M_ret in H; [run_subst H|discriminate H]
  | fail _ _ = (Ok _, _) => discriminate H
  | panic _ = (Ok _, _) => discriminate H
  end.

(** The same for all the runs among the hypotheses. *)
Ltac minvs :=
  repeat match goal with
  | H : (mbind _ _) _ = (Ok _, _) |- _ => minv H
  | H : mret _ _ = (Ok _, _) |- _ => minv H
  | H : gets _ _ = (Ok _, _) |- _ => minv H
  | H : get_ko _ _ = (Ok _, _) |- _ => minv H
  | H : get_hdr _ _ = (Ok _, _) |- _ => minv H
  | H : assertM _ _ = (Ok _, _) |- _ => minv H
  | H : fail _ _ = (Ok _, _) |- _ => minv H
  | H : panic _ = (Ok _, _) |- _ => minv H
  | H : modify _ _ = (Ok _, _) |- _ => unfold modify in H; run_subst H
  | H : lift _ _ = (Ok _, _) |- _ => unfold lift in H; run_subst H
  end.
