(* ===== verification/KNoErr.v ===== *)
(** * Operations that cannot fail

    [NoErr m]: the operation returns normally or panics, it never returns an
    error code.  These are the operations the kernel calls at points of no
    return (dropping references, thread state changes). *)

From S2P Require Import Prelude Label LabelCache Blowfish KState KThread KObj KOps KGc KLogic.
From stdpp Require Import options.

Set Default Goal Selector "!".

Class NoErr {A} (m : M A) : Prop := no_err : forall s e s', m s <> (Err e, s').

Lemma noerr_ret {A} (a : A) : NoErr (mret a).
Proof. intros s e s'. discriminate. Qed.

Lemma noerr_bind {A B} (m : M A) (f : A -> M B) : NoErr m -> (forall a, NoErr (f a)) -> NoErr (m ≫= f).
Proof.
  intros Hm Hf s e s' [(a & s1 & H1 & H2)|[(e' & H & _)|[_ H]]]%bind_run; [|by eapply Hm|done].
  by eapply Hf.
Qed.

Lemma noerr_catch {A} (m : M A) : NoErr (catch m).
Proof. intros s e s'. unfold catch. destruct (m s) as [[]?]; discriminate. Qed.

Lemma noerr_panic {A} : NoErr (@panic A).
Proof. intros s e s'. discriminate. Qed.

Lemma noerr_gets {A} (f : kstate -> A) : NoErr (gets f).
Proof. intros s e s'. discriminate. Qed.

Lemma noerr_modify f : NoErr (modify f).
Proof. intros s e s'. discriminate. Qed.

Lemma noerr_assert b : NoErr (assertM b).
Proof. destruct b; intros s e s'; discriminate. Qed.

Lemma noerr_when b m : NoErr m -> NoErr (whenM b m).
Proof. destruct b; [done|]. intros _ s e s'. discriminate. Qed.

Lemma noerr_lift {A} (r : res A) : (forall e, r <> Err e) -> NoErr (lift r).
Proof. intros H s e s' [= Hr _]. by eapply H. Qed.

Lemma noerr_get_ko id : NoErr (get_ko id).
Proof. intros s e s'. unfold get_ko. by destruct (ks_heap s !! id). Qed.

Lemma noerr_tsc : NoErr karch_get_tsc.
Proof. intros s e s'. unfold karch_get_tsc. by destruct (ks_tsc s). Qed.

Ltac noerr_step :=
  match goal with
  | |- NoErr (mbind _ _) => apply noerr_bind; [|intros ?]
  | |- NoErr (mret _) => apply noerr_ret
  | |- NoErr panic => apply noerr_panic
  | |- NoErr (gets _) => apply noerr_gets
  | |- NoErr (modify _) => apply noerr_modify
  | |- NoErr (assertM _) => apply noerr_assert
  | |- NoErr (whenM _ _) => apply noerr_when
  | |- NoErr (catch _) => apply noerr_catch
  | |- NoErr (get_ko _) => apply noerr_get_ko
  | |- NoErr karch_get_tsc => apply noerr_tsc
  | |- NoErr (if ?b then _ else _) => destruct b
  | |- NoErr (match ?x with _ => _ end) => destruct x
  end.

Ltac noerr := repeat first [noerr_step | solve [auto 2 with noerr nocore] | progress cbv zeta].

Create HintDb noerr discriminated.

Ltac lift_noerr := apply noerr_lift; intros e;
  unfold list_remove, slot_remove, tlists_remove, res_nth; repeat case_match; discriminate.

#[export] Hint Extern 2 (NoErr (lift _)) => lift_noerr : noerr.

Lemma noerr_put_ko id o : NoErr (put_ko id o).
Proof. unfold put_ko. noerr. Qed.
#[export] Hint Resolve noerr_put_ko : noerr.
Lemma noerr_get_hdr id : NoErr (get_hdr id).
Proof. unfold get_hdr. noerr. Qed.
#[export] Hint Resolve noerr_get_hdr : noerr.
Lemma noerr_upd_ko id f : NoErr (upd_ko id f).
Proof. unfold upd_ko. noerr. Qed.
#[export] Hint Resolve noerr_upd_ko : noerr.
Lemma noerr_upd_hdr id f : NoErr (upd_hdr id f).
Proof. unfold upd_hdr. noerr. Qed.
#[export] Hint Resolve noerr_upd_hdr : noerr.
Lemma noerr_get_label_body id : NoErr (get_label_body id).
Proof. unfold get_label_body. noerr. Qed.
#[export] Hint Resolve noerr_get_label_body : noerr.
Lemma noerr_get_container id : NoErr (get_container id).
Proof. unfold get_container. noerr. Qed.
#[export] Hint Resolve noerr_get_container : noerr.
Lemma noerr_get_thread id : NoErr (get_thread id).
Proof. unfold get_thread. noerr. Qed.
#[export] Hint Resolve noerr_get_thread : noerr.
Lemma noerr_get_segment id : NoErr (get_segment id).
Proof. unfold get_segment. noerr. Qed.
#[export] Hint Resolve noerr_get_segment : noerr.
Lemma noerr_get_as id : NoErr (get_as id).
Proof. unfold get_as. noerr. Qed.
#[export] Hint Resolve noerr_get_as : noerr.
Lemma noerr_put_body id b : NoErr (put_body id b).
Proof. unfold put_body. noerr. Qed.
#[export] Hint Resolve noerr_put_body : noerr.
Lemma noerr_upd_thread id f : NoErr (upd_thread id f).
Proof. unfold upd_thread. noerr. Qed.
#[export] Hint Resolve noerr_upd_thread : noerr.
Lemma noerr_upd_container id f : NoErr (upd_container id f).
Proof. unfold upd_container. noerr. Qed.
#[export] Hint Resolve noerr_upd_container : noerr.
Lemma noerr_upd_segment id f : NoErr (upd_segment id f).
Proof. unfold upd_segment. noerr. Qed.
#[export] Hint Resolve noerr_upd_segment : noerr.
Lemma noerr_upd_as id f : NoErr (upd_as id f).
Proof. unfold upd_as. noerr. Qed.
#[export] Hint Resolve noerr_upd_as : noerr.
Lemma noerr_kobject_dirty id : NoErr (kobject_dirty id).
Proof. unfold kobject_dirty. noerr. Qed.
#[export] Hint Resolve noerr_kobject_dirty : noerr.
Lemma noerr_gc_remove id : NoErr (gc_remove id).
Proof. unfold gc_remove. noerr. Qed.
#[export] Hint Resolve noerr_gc_remove : noerr.
Lemma noerr_gc_insert id : NoErr (gc_insert id).
Proof. unfold gc_insert. noerr. Qed.
#[export] Hint Resolve noerr_gc_insert : noerr.
Lemma noerr_kobject_pin_hdr id : NoErr (kobject_pin_hdr id).
Proof. unfold kobject_pin_hdr. noerr. Qed.
#[export] Hint Resolve noerr_kobject_pin_hdr : noerr.
Lemma noerr_kobject_unpin_hdr id : NoErr (kobject_unpin_hdr id).
Proof. unfold kobject_unpin_hdr. noerr. Qed.
#[export] Hint Resolve noerr_kobject_unpin_hdr : noerr.
Lemma noerr_kobject_pin_page id : NoErr (kobject_pin_page id).
Proof. unfold kobject_pin_page. noerr. Qed.
#[export] Hint Resolve noerr_kobject_pin_page : noerr.
Lemma noerr_kobject_unpin_page id : NoErr (kobject_unpin_page id).
Proof. unfold kobject_unpin_page. noerr. Qed.
#[export] Hint Resolve noerr_kobject_unpin_page : noerr.
Lemma noerr_global_pass_update p : NoErr (global_pass_update p).
Proof. unfold global_pass_update. noerr. Qed.
#[export] Hint Resolve noerr_global_pass_update : noerr.
Lemma noerr_sched_join t : NoErr (sched_join t).
Proof. unfold sched_join. noerr. Qed.
#[export] Hint Resolve noerr_sched_join : noerr.
Lemma noerr_sched_leave t : NoErr (sched_leave t).
Proof. unfold sched_leave. noerr. Qed.
#[export] Hint Resolve noerr_sched_leave : noerr.
Lemma noerr_sync_remove_slots t slots : NoErr (sync_remove_slots t slots).
Proof. revert t. induction slots as [|i rest IH]; intros t; simpl; noerr. Qed.
#[export] Hint Resolve noerr_sync_remove_slots : noerr.
Lemma noerr_sync_remove_thread t : NoErr (sync_remove_thread t).
Proof. unfold sync_remove_thread. noerr. Qed.
#[export] Hint Resolve noerr_sync_remove_thread : noerr.
Lemma noerr_thread_pin t : NoErr (thread_pin t).
Proof. unfold thread_pin. noerr. Qed.
#[export] Hint Resolve noerr_thread_pin : noerr.
Lemma noerr_thread_unpin t : NoErr (thread_unpin t).
Proof. unfold thread_unpin. noerr. Qed.
#[export] Hint Resolve noerr_thread_unpin : noerr.
Lemma noerr_thread_unlink t : NoErr (thread_unlink t).
Proof. unfold thread_unlink. noerr. Qed.
#[export] Hint Resolve noerr_thread_unlink : noerr.
Lemma noerr_thread_link t q : NoErr (thread_link t q).
Proof. unfold thread_link. noerr. Qed.
#[export] Hint Resolve noerr_thread_link : noerr.
Lemma noerr_thread_sched_adjust t b : NoErr (thread_sched_adjust t b).
Proof. unfold thread_sched_adjust. noerr. Qed.
#[export] Hint Resolve noerr_thread_sched_adjust : noerr.
Lemma noerr_thread_set_runnable t : NoErr (thread_set_runnable t).
Proof. unfold thread_set_runnable. noerr. Qed.
#[export] Hint Resolve noerr_thread_set_runnable : noerr.
Lemma noerr_thread_suspend t q : NoErr (thread_suspend t q).
Proof. unfold thread_suspend. noerr. Qed.
#[export] Hint Resolve noerr_thread_suspend : noerr.
Lemma noerr_thread_halt t : NoErr (thread_halt t).
Proof. unfold thread_halt. noerr. Qed.
#[export] Hint Resolve noerr_thread_halt : noerr.
Lemma noerr_thread_swapin t : NoErr (thread_swapin t).
Proof. unfold thread_swapin. noerr. Qed.
#[export] Hint Resolve noerr_thread_swapin : noerr.
Lemma noerr_thread_clear_as t : NoErr (thread_clear_as t).
Proof. unfold thread_clear_as. noerr. Qed.
#[export] Hint Resolve noerr_thread_clear_as : noerr.
Lemma noerr_thread_swapout t : NoErr (thread_swapout t).
Proof. unfold thread_swapout. noerr. Qed.
#[export] Hint Resolve noerr_thread_swapout : noerr.
Lemma noerr_thread_change_as t a : NoErr (thread_change_as t a).
Proof. unfold thread_change_as. noerr. Qed.
#[export] Hint Resolve noerr_thread_change_as : noerr.
Lemma noerr_kobject_negative_remove id : NoErr (kobject_negative_remove id).
Proof. unfold kobject_negative_remove. noerr. Qed.
#[export] Hint Resolve noerr_kobject_negative_remove : noerr.
Lemma noerr_sched_parent_ok t p : NoErr (sched_parent_ok t p).
Proof. unfold sched_parent_ok. noerr. Qed.
#[export] Hint Resolve noerr_sched_parent_ok : noerr.
Lemma noerr_thread_check_sched_parents t : NoErr (thread_check_sched_parents t).
Proof. unfold thread_check_sched_parents. noerr. Qed.
#[export] Hint Resolve noerr_thread_check_sched_parents : noerr.
Lemma noerr_thread_set_sched_parents t p0 p1 : NoErr (thread_set_sched_parents t p0 p1).
Proof. unfold thread_set_sched_parents. noerr. Qed.
#[export] Hint Resolve noerr_thread_set_sched_parents : noerr.
Lemma noerr_thread_on_decref t p : NoErr (thread_on_decref t p).
Proof. unfold thread_on_decref. noerr. Qed.
#[export] Hint Resolve noerr_thread_on_decref : noerr.
Lemma noerr_seg_unlink ko a s : NoErr (seg_unlink ko a s).
Proof. unfold seg_unlink. noerr. Qed.
#[export] Hint Resolve noerr_seg_unlink : noerr.
Lemma noerr_as_invalidate_sm a s : NoErr (as_invalidate_sm a s).
Proof. unfold as_invalidate_sm. noerr. Qed.
#[export] Hint Resolve noerr_as_invalidate_sm : noerr.
Lemma noerr_segment_invalidate_loop p sms : NoErr (segment_invalidate_loop p sms).
Proof. induction sms as [|[a s] rest IH]; simpl; noerr. Qed.
#[export] Hint Resolve noerr_segment_invalidate_loop : noerr.
Lemma noerr_segment_invalidate sg p : NoErr (segment_invalidate sg p).
Proof. unfold segment_invalidate. noerr. Qed.
#[export] Hint Resolve noerr_segment_invalidate : noerr.
Lemma noerr_sync_wakeup_segment_loop fuel seg : NoErr (sync_wakeup_segment_loop fuel seg).
Proof. induction fuel as [|fuel IH]; simpl; noerr. Qed.
#[export] Hint Resolve noerr_sync_wakeup_segment_loop : noerr.
Lemma noerr_sync_wakeup_segment seg : NoErr (sync_wakeup_segment seg).
Proof. unfold sync_wakeup_segment. noerr. Qed.
#[export] Hint Resolve noerr_sync_wakeup_segment : noerr.
Lemma noerr_segment_on_decref sg p : NoErr (segment_on_decref sg p).
Proof. unfold segment_on_decref. noerr. Qed.
#[export] Hint Resolve noerr_segment_on_decref : noerr.
Lemma noerr_kobject_qres_take qr ko : NoErr (kobject_qres_take qr ko).
Proof. unfold kobject_qres_take. noerr. Qed.
#[export] Hint Resolve noerr_kobject_qres_take : noerr.
Lemma noerr_kobject_incref_resv ko qr : NoErr (kobject_incref_resv ko qr).
Proof. unfold kobject_incref_resv. noerr. Qed.
#[export] Hint Resolve noerr_kobject_incref_resv : noerr.
Lemma noerr_kobject_decref ko r : NoErr (kobject_decref ko r).
Proof. unfold kobject_decref. noerr. Qed.
#[export] Hint Resolve noerr_kobject_decref : noerr.
Lemma noerr_kobject_set_label_prepared kp idx o n qr : NoErr (kobject_set_label_prepared kp idx o n qr).
Proof. unfold kobject_set_label_prepared. noerr. Qed.
#[export] Hint Resolve noerr_kobject_set_label_prepared : noerr.
Lemma noerr_kobject_qres_release qr : NoErr (kobject_qres_release qr).
Proof. unfold kobject_qres_release. noerr. Qed.
#[export] Hint Resolve noerr_kobject_qres_release : noerr.
Lemma noerr_as_switch_none : NoErr (as_switch_none).
Proof. unfold as_switch_none. noerr. Qed.
#[export] Hint Resolve noerr_as_switch_none : noerr.
Lemma noerr_as_unmap_slots a l : NoErr (as_unmap_slots a l).
Proof. induction l as [|i rest IH]; simpl; noerr. Qed.
#[export] Hint Resolve noerr_as_unmap_slots : noerr.
Lemma noerr_as_swapout a : NoErr (as_swapout a).
Proof. unfold as_swapout. noerr. Qed.
#[export] Hint Resolve noerr_as_swapout : noerr.
Lemma noerr_as_swapin a : NoErr (as_swapin a).
Proof. unfold as_swapin. noerr. Qed.
#[export] Hint Resolve noerr_as_swapin : noerr.
Lemma noerr_kobj_weak_drop id : NoErr (kobj_weak_drop id).
Proof. unfold kobj_weak_drop. noerr. Qed.
#[export] Hint Resolve noerr_kobj_weak_drop : noerr.
Lemma noerr_page_free_ko id : NoErr (page_free_ko id).
Proof. unfold page_free_ko. noerr. Qed.
#[export] Hint Resolve noerr_page_free_ko : noerr.
Lemma noerr_kobject_swapout ko : NoErr (kobject_swapout ko).
Proof. unfold kobject_swapout. noerr. Qed.
#[export] Hint Resolve noerr_kobject_swapout : noerr.
Lemma noerr_kobject_gc_drop_labels ko idx ls : NoErr (kobject_gc_drop_labels ko idx ls).
Proof. revert idx. induction ls as [|l rest IH]; intros idx; simpl; noerr. Qed.
#[export] Hint Resolve noerr_kobject_gc_drop_labels : noerr.
Lemma noerr_kobject_dirty_eval ko w : NoErr (kobject_dirty_eval ko w).
Proof. unfold kobject_dirty_eval. noerr. Qed.
#[export] Hint Resolve noerr_kobject_dirty_eval : noerr.
Lemma noerr_wake_all fuel q : NoErr (wake_all fuel q).
Proof. induction fuel as [|fuel IH]; simpl; noerr. Qed.
#[export] Hint Resolve noerr_wake_all : noerr.
Lemma noerr_kobject_snapshot_release ko : NoErr (kobject_snapshot_release ko).
Proof. unfold kobject_snapshot_release. noerr. Qed.
#[export] Hint Resolve noerr_kobject_snapshot_release : noerr.
Lemma noerr_kobject_gc_pass objs p : NoErr (kobject_gc_pass objs p).
Proof. revert p. induction objs as [|ko rest IH]; intros p; simpl; noerr. Qed.
#[export] Hint Resolve noerr_kobject_gc_pass : noerr.
Lemma noerr_kobject_gc_passes fuel : NoErr (kobject_gc_passes fuel).
Proof. induction fuel as [|fuel IH]; simpl; noerr. Qed.
#[export] Hint Resolve noerr_kobject_gc_passes : noerr.
Lemma noerr_kobject_gc_scan : NoErr (kobject_gc_scan).
Proof. unfold kobject_gc_scan. noerr. Qed.
#[export] Hint Resolve noerr_kobject_gc_scan : noerr.
