(* ===== verification/KInv.v ===== *)
(** * The object invariant

    Every object in memory is filed under its identifier, a nonzero 61-bit
    number, and its type tag agrees with its body; [ko_list] holds objects in memory, each once; and
    every object on the garbage list is on [ko_list], has no reference and is
    not pinned.  All operations preserve it, also when they fail. *)

From S2P Require Import Prelude Label LabelCache Blowfish BlowfishProofs KState KThread KObj KOps KGc KSys KLogic KNoErr.
From stdpp Require Import options.

Set Default Goal Selector "!".

(** An object under construction: in memory, on no list. *)
Definition limbo (s : kstate) (x : Z) : Prop :=
  (x ∉ ks_list s) /\ (x ∉ ks_gc s) /\ exists ko, ks_heap s !! x = Some ko /\ is_garbage (hdr ko) = true.

(** The invariant while the objects of [X] are under construction. *)
Record kinvL (X : list Z) (s : kstate) : Prop := {
  inv_obj : forall id ko, ks_heap s !! id = Some ko ->
    ko_id (hdr ko) = id /\ (ko_type (hdr ko) = body_type (body ko) \/ ko_type (hdr ko) = kobj_dead);
  inv_range : forall id ko, ks_heap s !! id = Some ko -> 0 < id < 2 ^ 61;
  inv_dom : forall id ko, ks_heap s !! id = Some ko -> id ∈ ks_list s \/ id ∈ X;
  inv_list_nodup : NoDup (ks_list s);
  inv_list : forall id, id ∈ ks_list s -> is_Some (ks_heap s !! id);
  inv_gc_nodup : NoDup (ks_gc s);
  inv_gc : forall id, id ∈ ks_gc s ->
    (id ∈ ks_list s) /\ exists ko, ks_heap s !! id = Some ko /\ is_garbage (hdr ko) = true;
  inv_limbo : forall x, x ∈ X -> limbo s x
}.

Definition kinv : kstate -> Prop := kinvL [].

(** ** Updates that keep it *)

(** Reference and pin counts, identifier and tags stay. *)
Definition benign (f : kobject -> kobject) : Prop := forall ko,
  ko_ref (hdr (f ko)) = ko_ref (hdr ko) /\ ko_pin (hdr (f ko)) = ko_pin (hdr ko) /\
  ko_id (hdr (f ko)) = ko_id (hdr ko) /\
  ((ko_type (hdr ko) = body_type (body ko) \/ ko_type (hdr ko) = kobj_dead) ->
   ko_type (hdr (f ko)) = body_type (body (f ko)) \/ ko_type (hdr (f ko)) = kobj_dead).

Lemma benign_garbage f ko : benign f -> is_garbage (hdr (f ko)) = is_garbage (hdr ko).
Proof. intros Hf. destruct (Hf ko) as (H1 & H2 & _). unfold is_garbage. by rewrite H1, H2. Qed.

(** One object changes, and possibly its place on the garbage list. *)
Lemma kinvL_put X s s' id ko ko' :
  ks_heap s !! id = Some ko -> ks_heap s' = <[id := ko']> (ks_heap s) -> ks_list s' = ks_list s ->
  (ko_id (hdr ko') = ko_id (hdr ko)) ->
  (ko_type (hdr ko') = body_type (body ko') \/ ko_type (hdr ko') = kobj_dead) ->
  NoDup (ks_gc s') ->
  (forall i, i ∈ ks_gc s' -> i <> id /\ (i ∈ ks_gc s) \/ i = id /\ (id ∈ ks_list s) /\ is_garbage (hdr ko') = true) ->
  (id ∈ X -> is_garbage (hdr ko') = true /\ (id ∉ ks_gc s')) ->
  kinvL X s -> kinvL X s'.
Proof.
  intros Hk Hh Hl Hid Ht Hnd Hg HX [Ho Hr Hd Hn Hls Hgn Hgc Hli].
  constructor; rewrite ?Hh, ?Hl; [| | |done| |done| |].
  - intros i k. destruct (decide (i = id)) as [->|Hne].
    + rewrite lookup_insert_eq. intros [= <-]. rewrite Hid. split; [by apply (Ho id ko)|done].
    + rewrite lookup_insert_ne by done. apply Ho.
  - intros i k. destruct (decide (i = id)) as [->|Hne]; [intros _; by eapply Hr|].
    rewrite lookup_insert_ne by done. apply Hr.
  - intros i k. destruct (decide (i = id)) as [->|Hne]; [intros _; by eapply Hd|].
    rewrite lookup_insert_ne by done. apply Hd.
  - intros i Hi. apply lookup_insert_is_Some'. auto.
  - intros i Hi. destruct (Hg i Hi) as [[Hne Hi']|(-> & ? & ?)].
    + destruct (Hgc i Hi') as [? (k & ? & ?)]. split; [done|]. exists k. by rewrite lookup_insert_ne by done.
    + split; [done|]. exists ko'. by rewrite lookup_insert_eq.
  - intros x Hx. destruct (Hli x Hx) as (Hx1 & Hx2 & k & Hk' & Hg'). unfold limbo. rewrite Hl, Hh.
    split; [done|]. destruct (decide (x = id)) as [->|Hne].
    + destruct (HX Hx). split; [done|]. exists ko'. by rewrite lookup_insert_eq.
    + split; [intros Hi; destruct (Hg x Hi) as [[_ ?]|(-> & _)]; done|].
      exists k. by rewrite lookup_insert_ne by done.
Qed.

(** A change that leaves the counts alone. *)
Lemma kinvL_upd X s id ko ko' :
  ks_heap s !! id = Some ko ->
  is_garbage (hdr ko') = is_garbage (hdr ko) -> ko_id (hdr ko') = ko_id (hdr ko) ->
  (ko_type (hdr ko') = body_type (body ko') \/ ko_type (hdr ko') = kobj_dead) ->
  kinvL X s -> kinvL X (set_ks_heap (<[id := ko']> (ks_heap s)) s).
Proof.
  intros Hk Hg Hid Ht HI. eapply kinvL_put; [done|done|done|done|done| | |..|done].
  - apply HI.
  - intros i Hi. destruct (inv_gc _ _ HI i Hi) as [? (k & ? & ?)].
    destruct (decide (i = id)) as [->|]; [right|by left]. simplify_eq. by rewrite Hg.
  - intros Hx. destruct (inv_limbo _ _ HI id Hx) as (? & ? & k & ? & ?). simplify_eq. by rewrite Hg.
Qed.

Lemma pres_upd_ko X id f : benign f -> Preserves (kinvL X) (upd_ko id f).
Proof.
  intros Hf. apply keeps_upd_ko; [apply _|]. intros s ko Hk HI. destruct (Hf ko) as (? & ? & ? & Ht).
  eapply kinvL_upd; [done|by apply benign_garbage|done| |done].
  apply Ht. by apply (inv_obj _ s HI id).
Qed.

Lemma pres_upd_hdr X id f :
  (forall h, ko_ref (f h) = ko_ref h /\ ko_pin (f h) = ko_pin h /\ ko_id (f h) = ko_id h /\
             (ko_type (f h) = ko_type h \/ ko_type (f h) = kobj_dead)) ->
  Preserves (kinvL X) (upd_hdr id f).
Proof.
  intros Hf. apply pres_upd_ko. intros ko. simpl. destruct (Hf (hdr ko)) as (?&?&?&[Ht|Ht]).
  - split_and!; [done..|]. by rewrite Ht.
  - split_and!; [done..|]. auto.
Qed.

(** The lists and the heap stay. *)
Lemma kinvL_eq X s s' :
  ks_heap s' = ks_heap s -> ks_list s' = ks_list s -> ks_gc s' = ks_gc s -> kinvL X s -> kinvL X s'.
Proof.
  intros Hh Hl Hg [Ho Hr Hd Hn Hls Hgn Hgc HX].
  constructor; rewrite ?Hh, ?Hl, ?Hg; [done..|].
  intros x Hx. unfold limbo. rewrite Hh, Hl, Hg. by apply HX.
Qed.

Lemma pres_modify X f :
  (forall s, ks_heap (f s) = ks_heap s /\ ks_list (f s) = ks_list s /\ ks_gc (f s) = ks_gc s) ->
  Preserves (kinvL X) (modify f).
Proof. intros Hf. apply keeps_modify; [apply _|]. intros s. destruct (Hf s) as (?&?&?). intros HI. by apply (kinvL_eq X s). Qed.

Lemma pres_next_page X : Preserves (kinvL X) next_page.
Proof. apply keeps_next_page; [apply _|]. intros s m HI. by apply (kinvL_eq X s). Qed.

Lemma pres_tsc X : Preserves (kinvL X) karch_get_tsc.
Proof. apply keeps_tsc; [apply _|]. intros s m HI. by apply (kinvL_eq X s). Qed.

(** Writing back the body of an object that was read as that kind of body. *)
Lemma pres_upd_body {B} X id (get : Z -> M B) (inj : B -> ko_body_t) (f : B -> B) :
  (forall s b s', get id s = (Ok b, s') ->
     exists ko, ks_heap s !! id = Some ko /\ body ko = inj b /\ s' = s) ->
  (forall b b', body_type (inj b) = body_type (inj b')) ->
  Keeps (stays (kinvL X)) (get id) ->
  Preserves (kinvL X) (b ← get id; put_body id (inj (f b))).
Proof.
  intros Hget Hty Hk s r s' [(b & s1 & H1 & H2)|[(e & H & ->)|[H ->]]]%bind_run Hp; [| |done].
  - destruct (Hget s b s1 H1) as (ko & Hko & Hb & ->).
    unfold put_body in H2. apply upd_ko_run in H2 as (ko' & Hko' & _ & ->); [|done]. rewrite Hko in Hko'. injection Hko' as <-.
    intros HI. eapply kinvL_upd; [done|done|done| |done]. simpl.
    destruct (inv_obj _ s HI id ko Hko) as [_ [Ht|Ht]]; [left|by right].
    by rewrite Ht, Hb.
  - by eapply Hk.
Qed.

Ltac upd_body_tac :=
  apply pres_upd_body; [|done|keeps];
  intros s b s' H; apply bind_ok in H as (ko & s1 & [H ->]%get_ko_ok & Hr);
  exists ko; destruct (body ko); unfold panic, mret, M_ret in Hr; simplify_eq; done.

Lemma pres_upd_thread X id f : Preserves (kinvL X) (upd_thread id f).
Proof. unfold upd_thread. upd_body_tac. Qed.
Lemma pres_upd_label X id f : Preserves (kinvL X) (upd_label id f).
Proof. unfold upd_label. upd_body_tac. Qed.
Lemma pres_upd_container X id f : Preserves (kinvL X) (upd_container id f).
Proof. unfold upd_container. upd_body_tac. Qed.
Lemma pres_upd_segment X id f : Preserves (kinvL X) (upd_segment id f).
Proof. unfold upd_segment. upd_body_tac. Qed.
Lemma pres_upd_as X id f : Preserves (kinvL X) (upd_as id f).
Proof. unfold upd_as. upd_body_tac. Qed.
Lemma pres_upd_gate X id f : Preserves (kinvL X) (upd_gate id f).
Proof. unfold upd_gate. upd_body_tac. Qed.

#[export] Hint Resolve pres_next_page pres_tsc pres_upd_label pres_upd_thread pres_upd_container pres_upd_segment
  pres_upd_as pres_upd_gate : keeps.

(** ** Pins *)

Lemma gc_remove_run id s r s' :
  gc_remove id s = (r, s') -> r <> Panic ->
  r = Ok tt /\ (id ∈ ks_gc s) /\ s' = set_ks_gc (filter (fun y => y <> id) (ks_gc s)) s.
Proof.
  unfold gc_remove, mbind, M_bind, gets, lift, list_remove, modify. intros H Hp.
  case_bool_decide; simplify_eq; done.
Qed.

Lemma upd_hdr_run id f s r s' :
  upd_hdr id f s = (r, s') -> r <> Panic ->
  exists ko, ks_heap s !! id = Some ko /\ r = Ok tt /\
    s' = set_ks_heap (<[id := set_hdr (f (hdr ko)) ko]> (ks_heap s)) s.
Proof. apply upd_ko_run. Qed.

(** A referenced or pinned object is on no list of garbage. *)
Lemma kinvL_not_garbage X s id ko :
  kinvL X s -> ks_heap s !! id = Some ko -> is_garbage (hdr ko) = false ->
  (id ∉ ks_gc s) /\ (id ∉ X) /\ (id ∈ ks_list s).
Proof.
  intros HI Hk Hg.
  assert (id ∉ X).
  { intros Hx. destruct (inv_limbo _ _ HI id Hx) as (? & ? & k & ? & ?). simplify_eq. congruence. }
  split_and!; [|done|].
  - intros Hx. destruct (inv_gc _ _ HI id Hx) as (? & k & ? & ?). simplify_eq. congruence.
  - destruct (inv_dom _ _ HI id ko Hk); done.
Qed.

(** The object may leave the garbage list: [gc_remove] when it was garbage,
    then a change of its counts. *)
Lemma pres_gc_leave X id h f s r s' ko :
  (forall h, ko_id (f h) = ko_id h /\ ko_type (f h) = ko_type h) ->
  ks_heap s !! id = Some ko -> h = hdr ko ->
  (whenM (is_garbage h) (gc_remove id);; upd_hdr id f) s = (r, s') -> r <> Panic ->
  kinvL X s -> kinvL X s'.
Proof.
  intros Hf Hk -> H Hp HI. destruct (Hf (hdr ko)) as [Hid Hty].
  pose proof (inv_obj _ _ HI id ko Hk) as [_ Ht].
  apply bind_run in H as [([] & s1 & H1 & H2)|[(e & H1 & ->)|[_ ->]]]; [| |done].
  - apply upd_hdr_run in H2 as (ko' & Hk' & _ & ->); [|done].
    destruct (is_garbage (hdr ko)) eqn:Eg; simpl in H1.
    + apply gc_remove_run in H1 as (_ & Hin & ->); [|done]. simpl in *. simplify_eq.
      destruct (inv_gc _ _ HI id Hin) as [Hl _].
      eapply (kinvL_put X s _ id); [done|done|done|done| | | |..|done].
      * simpl. by rewrite Hty.
      * simpl. apply list.NoDup_filter, HI.
      * simpl. intros i [Hne Hi]%list_elem_of_filter. by left.
      * simpl. intros Hx. destruct (inv_limbo _ _ HI id Hx) as (? & _). done.
    + unfold mret, M_ret in H1. simplify_eq.
      destruct (kinvL_not_garbage X s1 id ko HI Hk Eg) as (Hn1 & Hn2 & Hn3). simplify_eq.
      eapply (kinvL_put X s1 _ id); [done|done|done|done| | | |..|done].
      * simpl. by rewrite Hty.
      * simpl. apply HI.
      * simpl. intros i Hi. left. split; [|done]. by intros ->.
      * done.
  - destruct (is_garbage (hdr ko)); simpl in H1; [|done].
    by apply gc_remove_run in H1 as (? & _).
Qed.

Lemma pres_pin X id : Preserves (kinvL X) (kobject_pin_hdr id).
Proof.
  intros s r s' H Hp. unfold kobject_pin_hdr in H.
  apply bind_run in H as [(h & s1 & (ko & Hk & -> & ->)%get_hdr_ok & H2)|[(e & H1 & ->)|[_ ->]]]; [| |done].
  - intros HI. eapply (pres_gc_leave X id _ _ s r s' ko); [|exact Hk|reflexivity|exact H2|done|done].
    intros h. done.
  - by eapply (keeps_get_hdr (stays (kinvL X))).
Qed.

(** The object may enter the garbage list: its counts change, then [gc_insert]
    when it has become garbage. *)
Lemma kinvL_gc_enter X s id ko ko' :
  ks_heap s !! id = Some ko -> is_garbage (hdr ko) = false ->
  ko_id (hdr ko') = ko_id (hdr ko) ->
  (ko_type (hdr ko') = body_type (body ko') \/ ko_type (hdr ko') = kobj_dead) ->
  kinvL X s ->
  kinvL X (set_ks_gc (if is_garbage (hdr ko') then id :: ks_gc s else ks_gc s)
             (set_ks_heap (<[id := ko']> (ks_heap s)) s)).
Proof.
  intros Hk Hg Hid Ht HI. destruct (kinvL_not_garbage X s id ko HI Hk Hg) as (Hn1 & Hn2 & Hn3).
  eapply (kinvL_put X s _ id ko ko'); [done|done|done|done|done| | |done|done]; simpl.
  - destruct (is_garbage (hdr ko')); [constructor; [done|]|]; apply HI.
  - intros i Hi. destruct (is_garbage (hdr ko')) eqn:E.
    + apply elem_of_cons in Hi as [->|Hi]; [by right|]. left. split; [|done]. by intros ->.
    + left. split; [|done]. by intros ->.
Qed.

Lemma pres_unpin X id : Preserves (kinvL X) (kobject_unpin_hdr id).
Proof.
  intros s r s' H Hp HI. unfold kobject_unpin_hdr in H.
  apply bind_run in H as [(h & s1 & (ko & Hk & -> & ->)%get_hdr_ok & H2)|[(e & H1 & ->)|[_ ->]]]; [| |done].
  2:{ by eapply (keeps_get_hdr (stays (kinvL X))). }
  destruct (ko_pin (hdr ko) =? 0) eqn:E; [by injection H2 as <- <-|].
  apply bind_run in H2 as [([] & s1 & H1 & H2)|[(e & H1 & ->)|[H1 ->]]]; [|done..].
  injection H1 as <-.
  rewrite (bind_run_ok _ _ s tt _ (upd_hdr_ok id _ s ko Hk)) in H2.
  erewrite bind_run_ok in H2; [|apply get_hdr_run; simpl; by rewrite lookup_insert_eq].
  simpl in H2. set (ko' := set_hdr _ ko) in *.
  pose proof (kinvL_gc_enter X s id ko ko' Hk) as HE.
  assert (Hs : s' = set_ks_gc (if is_garbage (hdr ko') then id :: ks_gc s else ks_gc s)
             (set_ks_heap (<[id := ko']> (ks_heap s)) s)).
  { unfold whenM, gc_insert, modify, mret, M_ret in H2. change (hdr ko') with (set_ko_pin (ko_pin (hdr ko) - 1) (hdr ko)).
    destruct (is_garbage _); simplify_eq; [done|]. by destruct s. }
  rewrite Hs. apply HE; [|done| |done].
  - unfold is_garbage. rewrite E. apply andb_false_r.
  - apply (inv_obj _ _ HI id ko Hk).
Qed.

Ltac benign_tac := first [apply pres_upd_hdr; intros ?; split_and!; (done || (by left) || (by right))
                         | apply pres_upd_ko; intros [? [] ? ?]; split_and!; done
                         | apply pres_modify; done].

#[export] Hint Resolve pres_pin pres_unpin : keeps.
#[export] Hint Extern 3 (Keeps (stays (kinvL _)) (upd_hdr _ _)) => benign_tac : keeps.
#[export] Hint Extern 3 (Keeps (stays (kinvL _)) (upd_ko _ _)) => benign_tac : keeps.
#[export] Hint Extern 3 (Keeps (stays (kinvL _)) (modify _)) => benign_tac : keeps.

(** ** The operations of KThread *)

Lemma pres_kobject_dirty X id : Preserves (kinvL X) (kobject_dirty id).
Proof. unfold kobject_dirty. keeps. Qed.
#[export] Hint Resolve pres_kobject_dirty : keeps.
Lemma pres_kobject_pin_page X id : Preserves (kinvL X) (kobject_pin_page id).
Proof. unfold kobject_pin_page. keeps. Qed.
#[export] Hint Resolve pres_kobject_pin_page : keeps.
Lemma pres_kobject_unpin_page X id : Preserves (kinvL X) (kobject_unpin_page id).
Proof. unfold kobject_unpin_page. keeps. Qed.
#[export] Hint Resolve pres_kobject_unpin_page : keeps.
Lemma pres_global_pass_update X p : Preserves (kinvL X) (global_pass_update p).
Proof. unfold global_pass_update. keeps. Qed.
#[export] Hint Resolve pres_global_pass_update : keeps.
Lemma pres_sched_join X t : Preserves (kinvL X) (sched_join t).
Proof. unfold sched_join. keeps. Qed.
#[export] Hint Resolve pres_sched_join : keeps.
Lemma pres_sched_leave X t : Preserves (kinvL X) (sched_leave t).
Proof. unfold sched_leave. keeps. Qed.
#[export] Hint Resolve pres_sched_leave : keeps.
Lemma pres_sched_stop X t e : Preserves (kinvL X) (sched_stop t e).
Proof. unfold sched_stop. keeps. Qed.
#[export] Hint Resolve pres_sched_stop : keeps.
Lemma pres_sync_remove_slots X t slots : Preserves (kinvL X) (sync_remove_slots t slots).
Proof. revert t. induction slots as [|i rest IH]; intros t; cbn [sync_remove_slots]; keeps. Qed.
#[export] Hint Resolve pres_sync_remove_slots : keeps.
Lemma pres_sync_remove_thread X t : Preserves (kinvL X) (sync_remove_thread t).
Proof. unfold sync_remove_thread. keeps. Qed.
#[export] Hint Resolve pres_sync_remove_thread : keeps.
Lemma pres_thread_pin X t : Preserves (kinvL X) (thread_pin t).
Proof. unfold thread_pin. keeps. Qed.
#[export] Hint Resolve pres_thread_pin : keeps.
Lemma pres_thread_unpin X t : Preserves (kinvL X) (thread_unpin t).
Proof. unfold thread_unpin. keeps. Qed.
#[export] Hint Resolve pres_thread_unpin : keeps.
Lemma pres_thread_unlink X t : Preserves (kinvL X) (thread_unlink t).
Proof. unfold thread_unlink. keeps. Qed.
#[export] Hint Resolve pres_thread_unlink : keeps.
Lemma pres_thread_link X t q : Preserves (kinvL X) (thread_link t q).
Proof. unfold thread_link. keeps. Qed.
#[export] Hint Resolve pres_thread_link : keeps.
Lemma pres_thread_sched_adjust X t b : Preserves (kinvL X) (thread_sched_adjust t b).
Proof. unfold thread_sched_adjust. keeps. Qed.
#[export] Hint Resolve pres_thread_sched_adjust : keeps.
Lemma pres_thread_set_runnable X t : Preserves (kinvL X) (thread_set_runnable t).
Proof. unfold thread_set_runnable. keeps. Qed.
#[export] Hint Resolve pres_thread_set_runnable : keeps.
Lemma pres_thread_suspend X t q : Preserves (kinvL X) (thread_suspend t q).
Proof. unfold thread_suspend. keeps. Qed.
#[export] Hint Resolve pres_thread_suspend : keeps.
Lemma pres_thread_halt X t : Preserves (kinvL X) (thread_halt t).
Proof. unfold thread_halt. keeps. Qed.
#[export] Hint Resolve pres_thread_halt : keeps.
Lemma pres_thread_swapin X t : Preserves (kinvL X) (thread_swapin t).
Proof. unfold thread_swapin. keeps. Qed.
#[export] Hint Resolve pres_thread_swapin : keeps.
Lemma pres_thread_clear_as X t : Preserves (kinvL X) (thread_clear_as t).
Proof. unfold thread_clear_as. keeps. Qed.
#[export] Hint Resolve pres_thread_clear_as : keeps.
Lemma pres_thread_swapout X t : Preserves (kinvL X) (thread_swapout t).
Proof. unfold thread_swapout. keeps. Qed.
#[export] Hint Resolve pres_thread_swapout : keeps.
Lemma pres_thread_change_as X t a : Preserves (kinvL X) (thread_change_as t a).
Proof. unfold thread_change_as. keeps. Qed.
#[export] Hint Resolve pres_thread_change_as : keeps.
Lemma pres_thread_suspend_cur X q : Preserves (kinvL X) (thread_suspend_cur q).
Proof. unfold thread_suspend_cur. keeps. Qed.
#[export] Hint Resolve pres_thread_suspend_cur : keeps.
Lemma pres_kobject_negative_insert X id : Preserves (kinvL X) (kobject_negative_insert id).
Proof. apply pres_modify. intros s. by destruct (neg_bucket s id). Qed.
#[export] Hint Resolve pres_kobject_negative_insert : keeps.
Lemma pres_kobject_negative_remove X id : Preserves (kinvL X) (kobject_negative_remove id).
Proof. apply pres_modify. intros s. by destruct (neg_bucket s id). Qed.
#[export] Hint Resolve pres_kobject_negative_remove : keeps.
Lemma pres_kobject_negative_contains X id : Preserves (kinvL X) (kobject_negative_contains id).
Proof. unfold kobject_negative_contains. keeps. Qed.
#[export] Hint Resolve pres_kobject_negative_contains : keeps.
Lemma pres_pstate_op_schedule X p a : Preserves (kinvL X) (pstate_op_schedule p a).
Proof. unfold pstate_op_schedule. keeps. Qed.
#[export] Hint Resolve pres_pstate_op_schedule : keeps.
Lemma pres_pstate_swapin X {A} id : Preserves (kinvL X) (@pstate_swapin A id).
Proof. unfold pstate_swapin. keeps. Qed.
#[export] Hint Resolve pres_pstate_swapin : keeps.

Lemma pres_page_alloc X : Preserves (kinvL X) page_alloc.
Proof. unfold page_alloc, pstate_sync, pstate_sync_schedule. keeps. Qed.
#[export] Hint Resolve pres_page_alloc : keeps.

(** ** References *)

(** A header read, and what is done with it in the same state. *)
Lemma keeps_with_hdr R `{!PreOrder R} {A} id (f : kobject_hdr -> M A) :
  (forall s ko r s', ks_heap s !! id = Some ko -> f (hdr ko) s = (r, s') -> r <> Panic -> R s s') ->
  Keeps R (h ← get_hdr id; f h).
Proof.
  intros Hf s r s' [(h & s1 & (ko & Hk & -> & ->)%get_hdr_ok & H2)|[(e & H1 & ->)|[_ ->]]]%bind_run Hp; [| |done].
  - by eapply Hf.
  - by eapply (keeps_get_hdr R).
Qed.

Lemma bind_assoc_run {A B C} (m : M A) (k : M B) (f : B -> M C) s :
  (m ≫= fun _ => k ≫= f) s = ((m;; k) ≫= f) s.
Proof. unfold mbind, M_bind. by destruct (m s) as [[]?]. Qed.

Lemma pres_kobject_qres_take X qr ko : Preserves (kinvL X) (kobject_qres_take qr ko).
Proof. unfold kobject_qres_take. keeps. Qed.
#[export] Hint Resolve pres_kobject_qres_take : keeps.

Lemma pres_kobject_incref_resv X ko qr : Preserves (kinvL X) (kobject_incref_resv ko qr).
Proof.
  unfold kobject_incref_resv. apply keeps_bind; [apply _|keeps|intros _].
  apply keeps_with_hdr; [apply _|]. intros s o r s' Hk H Hp.
  rewrite bind_assoc_run in H. revert r s' H Hp.
  intros r s' [([] & s1 & H1 & H2)|[(e & H1 & ->)|[_ ->]]]%bind_run Hp HI; [| |done].
  - assert (HI1 : kinvL X s1).
    { eapply (pres_gc_leave X ko); [|exact Hk|reflexivity|exact H1|done|done]. done. }
    revert H2 Hp HI1. generalize s1 r s'. clear.
    change (Preserves (kinvL X) (match qr with
      | Some qr0 => qr1 ← kobject_qres_take qr0 ko; qh ← get_hdr (qr_ko qr1);
                    upd_hdr ko (set_ko_parent (ko_id qh));; mret (Some qr1)
      | None => mret None end)).
    keeps.
  - eapply (pres_gc_leave X ko); [|exact Hk|reflexivity|exact H1|done|done]. done.
Qed.
#[export] Hint Resolve pres_kobject_incref_resv : keeps.

(** The count drops to zero, the parent link may be cleared, and the object
    goes on the garbage list. *)
Definition decref_counts (ko refholder : Z) : M (kobject_hdr * kobject_hdr) :=
  h ← get_hdr ko;
  assertM (negb (ko_ref h =? 0));;
  upd_hdr ko (fun h => set_ko_ref (ko_ref h - 1) h);;
  h ← get_hdr ko;
  upd_hdr refholder (quota_used_add (- ko_quota_total h));;
  rh ← get_hdr refholder;
  whenM (ko_id rh =? ko_parent h) (upd_hdr ko (set_ko_parent 0));;
  h ← get_hdr ko;
  whenM (is_garbage h) (gc_insert ko);;
  mret (h, rh).

(** The notifications of [kobject_decref]. *)
Definition decref_notify (ko : Z) (p : kobject_hdr * kobject_hdr) : M unit :=
  whenM (bool_decide (ko_type p.1 = kobj_thread)) (thread_on_decref ko (ko_id p.2));;
  whenM (bool_decide (ko_type p.1 = kobj_segment)) (segment_on_decref ko (ko_id p.2)).

Ltac bind_cases :=
  match goal with
  | |- context [match ?m ?s with (_, _) => _ end] => destruct (m s) as [[?|?|] ?]; try reflexivity
  end.

Lemma kobject_decref_split ko refholder s :
  kobject_decref ko refholder s =
  (kobject_dirty ko;; p ← decref_counts ko refholder; decref_notify ko p) s.
Proof.
  unfold kobject_decref, decref_counts, decref_notify, mbind, M_bind, mret, M_ret.
  repeat bind_cases.
Qed.

Lemma pres_kobject_get_with X check id type :
  (forall ko, Preserves (kinvL X) (check ko)) -> Preserves (kinvL X) (kobject_get_with check id type).
Proof.
  intros Hc. unfold kobject_get_with, kobject_translate_id, kobject_incore. keeps.
Qed.

Lemma pres_kobject_get_none X id type : Preserves (kinvL X) (kobject_get_none id type).
Proof. apply pres_kobject_get_with. intros ko. keeps. Qed.
#[export] Hint Resolve pres_kobject_get_none : keeps.

Lemma pres_kobject_label_compare_id X a b c : Preserves (kinvL X) (kobject_label_compare_id a b c).
Proof. unfold kobject_label_compare_id. keeps. Qed.
#[export] Hint Resolve pres_kobject_label_compare_id : keeps.
Lemma pres_kobject_iflow_check X ko iflow : Preserves (kinvL X) (kobject_iflow_check ko iflow).
Proof. unfold kobject_iflow_check. keeps. Qed.
#[export] Hint Resolve pres_kobject_iflow_check : keeps.
Lemma pres_kobject_get X id type iflow : Preserves (kinvL X) (kobject_get id type iflow).
Proof. apply pres_kobject_get_with. intros ko. keeps. Qed.
#[export] Hint Resolve pres_kobject_get : keeps.
Lemma pres_kobj_weak_put X id idx l : Preserves (kinvL X) (kobj_weak_put id idx l).
Proof. unfold kobj_weak_put. keeps. Qed.
#[export] Hint Resolve pres_kobj_weak_put : keeps.
Lemma pres_kobject_get_label X id idx : Preserves (kinvL X) (kobject_get_label id idx).
Proof. unfold kobject_get_label. keeps. Qed.
#[export] Hint Resolve pres_kobject_get_label : keeps.
Lemma pres_kobject_borrow_parent_quota_one X fuel ko n again : Preserves (kinvL X) (kobject_borrow_parent_quota_one fuel ko n again).
Proof. revert ko n again. induction fuel as [|fuel IH]; intros; cbn [kobject_borrow_parent_quota_one]; keeps. Qed.
#[export] Hint Resolve pres_kobject_borrow_parent_quota_one : keeps.
Lemma pres_kobject_borrow_loop X fuel chain ko n : Preserves (kinvL X) (kobject_borrow_loop fuel chain ko n).
Proof. induction fuel as [|fuel IH]; cbn [kobject_borrow_loop]; keeps. Qed.
#[export] Hint Resolve pres_kobject_borrow_loop : keeps.
Lemma pres_kobject_borrow_parent_quota X ko n : Preserves (kinvL X) (kobject_borrow_parent_quota ko n).
Proof. unfold kobject_borrow_parent_quota. keeps. Qed.
#[export] Hint Resolve pres_kobject_borrow_parent_quota : keeps.
Lemma pres_kobject_qres_reserve X qr ko : Preserves (kinvL X) (kobject_qres_reserve qr ko).
Proof. unfold kobject_qres_reserve. keeps. Qed.
#[export] Hint Resolve pres_kobject_qres_reserve : keeps.
Lemma pres_kobject_qres_release X qr : Preserves (kinvL X) (kobject_qres_release qr).
Proof. unfold kobject_qres_release. keeps. Qed.
#[export] Hint Resolve pres_kobject_qres_release : keeps.
Lemma pres_alloc_pages X n : Preserves (kinvL X) (alloc_pages n).
Proof. induction n as [|n IH]; cbn [alloc_pages]; keeps. Qed.
#[export] Hint Resolve pres_alloc_pages : keeps.
Lemma pres_kobject_set_nbytes X kp n : Preserves (kinvL X) (kobject_set_nbytes kp n).
Proof. unfold kobject_set_nbytes. keeps. Qed.
#[export] Hint Resolve pres_kobject_set_nbytes : keeps.
Lemma pres_kobject_get_page X kp n rw : Preserves (kinvL X) (kobject_get_page kp n rw).
Proof. unfold kobject_get_page. keeps. Qed.
#[export] Hint Resolve pres_kobject_get_page : keeps.
Lemma pres_slot_search_pages X P `{!forall cs, Decision (P cs)} c rw page n :
  Preserves (kinvL X) (slot_search_pages P c rw page n).
Proof. revert page. induction n as [|n IH]; intros page; simpl; keeps. Qed.
#[export] Hint Resolve pres_slot_search_pages : keeps.
Lemma pres_container_slot_find X c id rw : Preserves (kinvL X) (container_slot_find c id rw).
Proof. unfold container_slot_find. keeps. Qed.
#[export] Hint Resolve pres_container_slot_find : keeps.
Lemma pres_container_find X id iflow : Preserves (kinvL X) (container_find id iflow).
Proof. unfold container_find. keeps. Qed.
#[export] Hint Resolve pres_container_find : keeps.
Lemma pres_container_has X c id : Preserves (kinvL X) (container_has c id).
Proof. unfold container_has. keeps. Qed.
#[export] Hint Resolve pres_container_has : keeps.
Lemma pres_sched_parent_ok X t p : Preserves (kinvL X) (sched_parent_ok t p).
Proof. unfold sched_parent_ok. keeps. Qed.
#[export] Hint Resolve pres_sched_parent_ok : keeps.
Lemma pres_thread_check_sched_parents X t : Preserves (kinvL X) (thread_check_sched_parents t).
Proof. unfold thread_check_sched_parents. keeps. Qed.
#[export] Hint Resolve pres_thread_check_sched_parents : keeps.
Lemma pres_thread_set_sched_parents X t p0 p1 : Preserves (kinvL X) (thread_set_sched_parents t p0 p1).
Proof. unfold thread_set_sched_parents. keeps. Qed.
#[export] Hint Resolve pres_thread_set_sched_parents : keeps.
Lemma pres_thread_on_decref X t p : Preserves (kinvL X) (thread_on_decref t p).
Proof. unfold thread_on_decref. keeps. Qed.
#[export] Hint Resolve pres_thread_on_decref : keeps.

Lemma pres_seg_unlink X ko a slot : Preserves (kinvL X) (seg_unlink ko a slot).
Proof.
  unfold seg_unlink. intros s r s' [(o & s1 & [Hk ->]%get_ko_ok & H2)|[(e & H1 & ->)|[_ ->]]]%bind_run Hp HI; [| |done].
  - destruct (inv_obj _ _ HI ko o Hk) as [_ Ht].
    destruct (body o) eqn:Eb; try (by injection H2 as <- <-); case_bool_decide; try (by injection H2 as <- <-).
    all: apply upd_ko_run in H2 as (o' & Hk' & _ & ->); [|done]; rewrite Hk in Hk'; injection Hk' as <-.
    all: eapply kinvL_upd; [done|done|done| |done]; simpl; done.
  - by eapply (keeps_get_ko (stays (kinvL X))).
Qed.
#[export] Hint Resolve pres_seg_unlink : keeps.
Lemma pres_as_invalidate_sm X a slot : Preserves (kinvL X) (as_invalidate_sm a slot).
Proof. unfold as_invalidate_sm. keeps. Qed.
#[export] Hint Resolve pres_as_invalidate_sm : keeps.
Lemma pres_segment_invalidate_loop X p sms : Preserves (kinvL X) (segment_invalidate_loop p sms).
Proof. induction sms as [|[a slot] rest IH]; cbn [segment_invalidate_loop]; keeps. Qed.
#[export] Hint Resolve pres_segment_invalidate_loop : keeps.
Lemma pres_segment_invalidate X sg p : Preserves (kinvL X) (segment_invalidate sg p).
Proof. unfold segment_invalidate. keeps. Qed.
#[export] Hint Resolve pres_segment_invalidate : keeps.
Lemma pres_sync_wakeup_segment_loop X fuel seg : Preserves (kinvL X) (sync_wakeup_segment_loop fuel seg).
Proof. induction fuel as [|fuel IH]; cbn [sync_wakeup_segment_loop]; keeps. Qed.
#[export] Hint Resolve pres_sync_wakeup_segment_loop : keeps.
Lemma pres_sync_wakeup_segment X seg : Preserves (kinvL X) (sync_wakeup_segment seg).
Proof. unfold sync_wakeup_segment. keeps. Qed.
#[export] Hint Resolve pres_sync_wakeup_segment : keeps.
Lemma pres_segment_on_decref X sg p : Preserves (kinvL X) (segment_on_decref sg p).
Proof. unfold segment_on_decref. keeps. Qed.
#[export] Hint Resolve pres_segment_on_decref : keeps.

(** The state between the decrement and the insertion on the garbage list:
    [g] tells whether the object has become garbage. *)
Definition entering (X : list Z) (ko : Z) (g : bool) (s : kstate) : Prop :=
  kinvL X (set_ks_gc (if g then ko :: ks_gc s else ks_gc s) s) /\
  exists o, ks_heap s !! ko = Some o /\ is_garbage (hdr o) = g.

Lemma pres_upd_hdr_entering X ko g id f :
  (forall h, ko_ref (f h) = ko_ref h /\ ko_pin (f h) = ko_pin h /\ ko_id (f h) = ko_id h /\ ko_type (f h) = ko_type h) ->
  Preserves (entering X ko g) (upd_hdr id f).
Proof.
  intros Hf. apply keeps_upd_ko; [apply _|]. intros s o Ho [HI (ok & Hok & Hg)].
  destruct (Hf (hdr o)) as (H1 & H2 & H3 & H4). split.
  - pose proof (kinvL_upd X (set_ks_gc (if g then ko :: ks_gc s else ks_gc s) s) id o (set_hdr (f (hdr o)) o) Ho) as HU.
    apply HU; [| done | | done]; simpl.
    + unfold is_garbage. by rewrite H1, H2.
    + rewrite H4. apply (inv_obj _ _ HI id o Ho).
  - simpl. destruct (decide (id = ko)) as [->|Hne].
    + rewrite Ho in Hok. injection Hok as ->. eexists. rewrite lookup_insert_eq. split; [done|]. simpl.
      unfold is_garbage in *. by rewrite H1, H2.
    + exists ok. by rewrite lookup_insert_ne by done.
Qed.

(** Operations that read the header of an object fail by a panic only. *)
Lemma get_hdr_no_err id s e s' : get_hdr id s <> (Err e, s').
Proof. unfold get_hdr, mbind, M_bind, get_ko. by destruct (ks_heap s !! id). Qed.

Lemma pres_decref_counts X ko refholder : Preserves (kinvL X) (decref_counts ko refholder).
Proof.
  unfold decref_counts. apply keeps_with_hdr; [apply _|]. intros s o r s' Hk H Hp HI.
  apply bind_run in H as [([] & s1 & H1 & H)|[(e & H1 & ->)|[_ ->]]]; [| |done].
  2:{ by eapply (keeps_assert (stays (kinvL X))). }
  destruct (ko_ref (hdr o) =? 0) eqn:E; [done|]. injection H1 as <-.
  rewrite (bind_run_ok _ _ s tt _ (upd_hdr_ok ko _ s o Hk)) in H.
  set (o' := set_hdr _ o) in *. set (s1 := set_ks_heap _ s) in *.
  assert (Hg : is_garbage (hdr o) = false) by (unfold is_garbage; by rewrite E).
  assert (Ht : ko_type (hdr o') = body_type (body o') \/ ko_type (hdr o') = kobj_dead)
    by apply (inv_obj _ _ HI ko o Hk).
  pose proof (kinvL_gc_enter X s ko o o' Hk Hg eq_refl Ht HI) as HE.
  assert (HJ : entering X ko (is_garbage (hdr o')) s1).
  { split; [exact HE|]. exists o'. simpl. by rewrite lookup_insert_eq. }
  clearbody s1. generalize dependent (is_garbage (hdr o')). intros g _ HJ. clear HI Hk.
  apply bind_run in H as [(h & s2 & (o2 & Hk2 & -> & ->)%get_hdr_ok & H)|[(e & []%get_hdr_no_err & _)|[_ ->]]]; [|done].
  apply bind_run in H as [([] & s3 & H1 & H)|[(e & (? & ? & ? & ?)%upd_hdr_run & ->)|[_ ->]]]; [|done..].
  assert (HJ3 : entering X ko g s3) by (by eapply (pres_upd_hdr_entering X ko); [|exact H1|..]).
  apply bind_run in H as [(rh & s4 & (o4 & Hk4 & -> & ->)%get_hdr_ok & H)|[(e & []%get_hdr_no_err & _)|[_ ->]]]; [|done].
  apply bind_run in H as [([] & s5 & H2 & H)|[(e & H2 & ->)|[_ ->]]]; [| |done].
  2:{ destruct (ko_id (hdr o4) =? _); [|done]. apply upd_hdr_run in H2 as (? & ? & ? & ?); done. }
  assert (HJ5 : entering X ko g s5).
  { destruct (ko_id (hdr o4) =? _); simpl in H2; [|injection H2 as <-; done].
    by eapply (pres_upd_hdr_entering X ko); [|exact H2|..]. }
  destruct HJ5 as [HI5 (o5 & Hk5 & Hg5)].
  rewrite (bind_run_ok _ _ s5 _ _ (get_hdr_run ko s5 o5 Hk5)), Hg5 in H.
  destruct g; injection H as <- <-; [exact HI5|]. by destruct s5.
Qed.
#[export] Hint Resolve pres_decref_counts : keeps.

Lemma pres_kobject_decref X ko refholder : Preserves (kinvL X) (kobject_decref ko refholder).
Proof.
  intros s r s' H. rewrite kobject_decref_split in H. revert s r s' H.
  change (Preserves (kinvL X) (kobject_dirty ko;; p ← decref_counts ko refholder; decref_notify ko p)).
  unfold decref_notify. keeps.
Qed.
#[export] Hint Resolve pres_kobject_decref : keeps.

Lemma pres_kobject_incref X ko r : Preserves (kinvL X) (kobject_incref ko r).
Proof. unfold kobject_incref. keeps. Qed.
#[export] Hint Resolve pres_kobject_incref : keeps.
Lemma pres_kobject_set_label_prepared X kp idx o n qr : Preserves (kinvL X) (kobject_set_label_prepared kp idx o n qr).
Proof. unfold kobject_set_label_prepared. keeps. Qed.
#[export] Hint Resolve pres_kobject_set_label_prepared : keeps.
Lemma pres_kobject_set_label X kp idx n : Preserves (kinvL X) (kobject_set_label kp idx n).
Proof. unfold kobject_set_label. keeps. Qed.
#[export] Hint Resolve pres_kobject_set_label : keeps.

(** ** Allocation *)

Lemma kobject_new_id_fresh s id s' :
  kobject_new_id s = (Ok id, s') ->
  0 < id < 2 ^ 61 /\ ks_heap s' !! id = None /\ ks_heap s' = ks_heap s /\ ks_list s' = ks_list s /\ ks_gc s' = ks_gc s.
Proof.
  unfold kobject_new_id. intros H.
  minvs. simpl in *.
  case_bool_decide as E; [discriminate H|]. injection H as <- <-. simpl.
  rewrite <- eq_None_not_Some in E. split; [|done].
  by eapply handle_alloc_range.
Qed.

Lemma pres_kobject_new_id X : Preserves (kinvL X) kobject_new_id.
Proof. unfold kobject_new_id. keeps. Qed.

(** The zeroed object enters the heap. *)
Lemma kinvL_new X s x o :
  0 < x < 2 ^ 61 -> ks_heap s !! x = None -> ko_id (hdr o) = x ->
  (ko_type (hdr o) = body_type (body o) \/ ko_type (hdr o) = kobj_dead) -> is_garbage (hdr o) = true ->
  kinvL X s -> kinvL (x :: X) (set_ks_heap (<[x := o]> (ks_heap s)) s).
Proof.
  intros Hr Hx Hid Ht Hg HI.
  assert (Hnl : x ∉ ks_list s) by (intros [? H]%(inv_list _ _ HI); congruence).
  assert (Hng : x ∉ ks_gc s) by (intros [? _]%(inv_gc _ _ HI); done).
  constructor; simpl; [| | |apply HI| |apply HI| |].
  - intros i k [[-> ->]|[Hne Hk]]%lookup_insert_Some; [done|]. by apply (inv_obj _ _ HI).
  - intros i k [[-> ->]|[Hne Hk]]%lookup_insert_Some; [done|]. by eapply (inv_range _ _ HI).
  - intros i k [[-> ->]|[Hne Hk]]%lookup_insert_Some; [right; by left|].
    destruct (inv_dom _ _ HI i k Hk); [by left|right; by right].
  - intros i Hi. apply lookup_insert_is_Some'. right. by apply (inv_list _ _ HI).
  - intros i Hi. destruct (inv_gc _ _ HI i Hi) as [? (k & ? & ?)]. split; [done|]. exists k.
    rewrite lookup_insert_ne by (intros ->; done). done.
  - intros i [->|Hi]%elem_of_cons.
    + split_and!; [done..|]. exists o. simpl. by rewrite lookup_insert_eq.
    + destruct (inv_limbo _ _ HI i Hi) as (? & ? & k & Hk & ?). split_and!; [done..|]. exists k. simpl.
      rewrite lookup_insert_ne by (intros ->; congruence). done.
Qed.

Lemma kinvL_free X s x :
  x ∉ X -> kinvL (x :: X) s -> kinvL X (set_ks_heap (delete x (ks_heap s)) s).
Proof.
  intros HX HI. destruct (inv_limbo _ _ HI x) as (Hnl & Hng & _); [by left|].
  constructor; simpl; [| | |apply HI| |apply HI| |].
  - intros i k [_ Hk]%lookup_delete_Some. by apply (inv_obj _ _ HI).
  - intros i k [_ Hk]%lookup_delete_Some. by eapply (inv_range _ _ HI).
  - intros i k [Hne Hk]%lookup_delete_Some. destruct (inv_dom _ _ HI i k Hk) as [?|[->|?]%elem_of_cons]; auto; done.
  - intros i Hi. rewrite lookup_delete_ne by (intros ->; done). by apply (inv_list _ _ HI).
  - intros i Hi. destruct (inv_gc _ _ HI i Hi) as [? (k & ? & ?)]. split; [done|]. exists k.
    rewrite lookup_delete_ne by (intros ->; done). done.
  - intros i Hi. destruct (inv_limbo _ _ HI i) as (? & ? & k & Hk & ?); [by right|]. split_and!; [done..|].
    exists k. simpl. rewrite lookup_delete_ne by (intros ->; done). done.
Qed.

Lemma kinvL_publish X s x :
  x ∉ X -> kinvL (x :: X) s -> kinvL X (set_ks_gc (x :: ks_gc s) (set_ks_list (x :: ks_list s) s)).
Proof.
  intros HX HI. destruct (inv_limbo _ _ HI x) as (Hnl & Hng & o & Ho & Hg); [by left|].
  constructor; simpl.
  - apply HI.
  - apply HI.
  - intros i k Hk. rewrite elem_of_cons. destruct (inv_dom _ _ HI i k Hk) as [?|[->|?]%elem_of_cons]; auto.
  - constructor; [done|apply HI].
  - intros i [->|Hi]%elem_of_cons; [eauto|]. by apply (inv_list _ _ HI).
  - constructor; [done|apply HI].
  - intros i [->|Hi]%elem_of_cons; [split; [by left|eauto]|].
    destruct (inv_gc _ _ HI i Hi) as [? ?]. split; [by right|done].
  - intros i Hi. destruct (inv_limbo _ _ HI i) as (? & ? & ?); [by right|].
    unfold limbo. simpl. rewrite !elem_of_cons. split_and!; [intros [->|?]; done..|done].
Qed.

(** From a state with [x] under construction to one without it. *)
Definition closes (X : list Z) (x : Z) {A} (m : M A) : Prop :=
  forall s r s', m s = (r, s') -> r <> Panic -> kinvL (x :: X) s -> kinvL X s'.

Lemma closes_bind X x {A B} (m : M A) (f : A -> M B) :
  Preserves (kinvL (x :: X)) m -> NoErr m -> (forall a, closes X x (f a)) -> closes X x (m ≫= f).
Proof.
  intros Hm Hn Hf s r s' [(a & s1 & H1 & H2)|[(e & H & _)|[_ ->]]]%bind_run Hp HI; [| |done].
  - eapply Hf; [done..|]. by eapply Hm.
  - by apply Hn in H.
Qed.

Lemma closes_free X x {A} e : x ∉ X -> closes X x (page_free_ko x;; @fail A e).
Proof. intros Hx s r s' [= <- <-] _ HI. by apply kinvL_free. Qed.

Lemma closes_publish X x :
  x ∉ X -> closes X x (modify (fun s => set_ks_list (x :: ks_list s) s);; gc_insert x;; mret x).
Proof. intros Hx s r s' [= <- <-] _ HI. by apply kinvL_publish. Qed.

Lemma pres_kobject_alloc X type l c : Preserves (kinvL X) (kobject_alloc type l c).
Proof.
  unfold kobject_alloc.
  apply keeps_bind; [apply _|keeps|intros _]. apply keeps_bind; [apply _|keeps|intros _].
  apply keeps_bind; [apply _|keeps|intros _].
  intros s r s' [(x & s1 & H1 & H)|[(e & H1 & ->)|[_ ->]]]%bind_run Hp HI; [| |done].
  2:{ by eapply pres_kobject_new_id. }
  pose proof (pres_kobject_new_id X s _ s1 H1 ltac:(done) HI) as HI1.
  apply kobject_new_id_fresh in H1 as (Hr & Hx & _).
  assert (HxX : x ∉ X) by (intros (_ & _ & o & Ho & _)%(inv_limbo _ _ HI1); congruence).
  erewrite bind_run_ok in H by reflexivity.
  assert (HI2 : kinvL (x :: X) (set_ks_heap (<[x := mkKobject (new_hdr x type) (new_body type)
                  (replicate kolabel_max None) None]> (ks_heap s1)) s1)).
  { apply kinvL_new; [done|done|done| |done|done]. destruct type; simpl; auto. }
  revert HI2. generalize dependent (set_ks_heap (<[x := mkKobject (new_hdr x type) (new_body type)
    (replicate kolabel_max None) None]> (ks_heap s1)) s1). intros s2 H HI2.
  revert s2 r s' H Hp HI2. clear s s1 HI HI1 Hx Hr.
  match goal with |- forall s2 r s', ?m s2 = _ -> _ => change (closes X x m) end.
  apply closes_bind; [keeps|apply noerr_catch|intros [[]|e]]; [|by apply closes_free].
  apply closes_bind; [keeps|apply noerr_catch|intros [[]|e]].
  - apply closes_bind; [keeps|apply noerr_catch|intros [[]|e]].
    + apply closes_bind; [keeps|noerr|intros _]. by apply closes_publish.
    + apply closes_bind; [keeps|noerr|intros _]. apply closes_bind; [keeps|noerr|intros _]. by apply closes_free.
  - apply closes_bind; [keeps|noerr|intros _]. by apply closes_free.
Qed.
#[export] Hint Resolve pres_kobject_alloc : keeps.

(** ** Swapping out and in *)

Lemma pres_kobj_weak_drop X id : Preserves (kinvL X) (kobj_weak_drop id).
Proof.
  apply keeps_modify; [apply _|]. intros s HI. unfold kobj_weak_drop.
  constructor; simpl; [| | |apply HI| |apply HI| |].
  - intros i k Hk. rewrite lookup_fmap in Hk. apply fmap_Some in Hk as (k' & Hk & ->). simpl. by apply (inv_obj _ _ HI).
  - intros i k Hk. rewrite lookup_fmap in Hk. apply fmap_Some in Hk as (k' & Hk & ->). by eapply (inv_range _ _ HI).
  - intros i k Hk. rewrite lookup_fmap in Hk. apply fmap_Some in Hk as (k' & Hk & ->). by eapply (inv_dom _ _ HI).
  - intros i Hi. rewrite lookup_fmap, fmap_is_Some. by apply (inv_list _ _ HI).
  - intros i Hi. destruct (inv_gc _ _ HI i Hi) as [? (k & Hk & ?)]. split; [done|].
    eexists. rewrite lookup_fmap, Hk. simpl. done.
  - intros i Hi. destruct (inv_limbo _ _ HI i Hi) as (? & ? & k & Hk & ?). split_and!; [done..|].
    eexists. simpl. rewrite lookup_fmap, Hk. simpl. done.
Qed.
#[export] Hint Resolve pres_kobj_weak_drop : keeps.

Lemma pres_as_swapin X a : Preserves (kinvL X) (as_swapin a).
Proof. unfold as_swapin. keeps. Qed.
#[export] Hint Resolve pres_as_swapin : keeps.
Lemma pres_as_switch_none X : Preserves (kinvL X) (as_switch_none).
Proof. unfold as_switch_none. keeps. Qed.
#[export] Hint Resolve pres_as_switch_none : keeps.
Lemma pres_as_unmap_slots X a l : Preserves (kinvL X) (as_unmap_slots a l).
Proof. induction l as [|i rest IH]; cbn [as_unmap_slots]; keeps. Qed.
#[export] Hint Resolve pres_as_unmap_slots : keeps.
Lemma pres_as_swapout X a : Preserves (kinvL X) (as_swapout a).
Proof. unfold as_swapout. keeps. Qed.
#[export] Hint Resolve pres_as_swapout : keeps.
Lemma pres_as_gc X a : Preserves (kinvL X) (as_gc a).
Proof. unfold as_gc. keeps. Qed.
#[export] Hint Resolve pres_as_gc : keeps.
Lemma pres_as_invalidate X a : Preserves (kinvL X) (as_invalidate a).
Proof. unfold as_invalidate. keeps. Qed.
#[export] Hint Resolve pres_as_invalidate : keeps.

(** The object leaves the lists and its memory is freed. *)
Lemma kinvL_swapout X s ko o :
  ks_heap s !! ko = Some o -> ko ∈ ks_list s -> kinvL X s ->
  kinvL X (set_ks_heap (delete ko (ks_heap s))
    (set_ks_gc (if is_garbage (hdr o) then filter (fun y => y <> ko) (ks_gc s) else ks_gc s)
       (set_ks_list (filter (fun y => y <> ko) (ks_list s)) s))).
Proof.
  intros Hk Hl HI.
  assert (HnX : ko ∉ X) by (intros (? & _)%(inv_limbo _ _ HI); done).
  assert (Hgc : forall i, i ∈ (if is_garbage (hdr o) then filter (fun y => y <> ko) (ks_gc s) else ks_gc s) ->
            i <> ko /\ i ∈ ks_gc s).
  { intros i. destruct (is_garbage (hdr o)) eqn:E; [by intros [? ?]%list_elem_of_filter|].
    intros Hi. split; [|done]. intros ->. by destruct (kinvL_not_garbage X s ko o HI Hk E). }
  constructor; simpl.
  - intros i k [_ Hi]%lookup_delete_Some. by apply (inv_obj _ _ HI).
  - intros i k [_ Hi]%lookup_delete_Some. by eapply (inv_range _ _ HI).
  - intros i k [Hne Hi]%lookup_delete_Some. destruct (inv_dom _ _ HI i k Hi); [left|by right].
    by apply list_elem_of_filter.
  - apply list.NoDup_filter, HI.
  - intros i [Hne Hi]%list_elem_of_filter. rewrite lookup_delete_ne by done. by apply (inv_list _ _ HI).
  - destruct (is_garbage (hdr o)); [apply list.NoDup_filter|]; apply HI.
  - intros i [Hne Hi]%Hgc. destruct (inv_gc _ _ HI i Hi) as [? (k & ? & ?)].
    split; [by apply list_elem_of_filter|]. exists k. by rewrite lookup_delete_ne by done.
  - intros i Hi. destruct (inv_limbo _ _ HI i Hi) as (? & ? & k & ? & ?). unfold limbo. simpl.
    split_and!; [by intros [? ?]%list_elem_of_filter|by intros [? ?]%Hgc|].
    exists k. rewrite lookup_delete_ne by (intros ->; done). done.
Qed.

Lemma pres_kobject_swapout X ko : Preserves (kinvL X) (kobject_swapout ko).
Proof.
  unfold kobject_swapout. do 7 (apply keeps_bind; [apply _|keeps|intros ?]).
  intros s r s' H Hp HI. unfold mbind at 1, M_bind at 1, gets at 1 in H.
  unfold lift, list_remove in H. unfold mbind at 1, M_bind at 1 in H.
  case_bool_decide as Hin; [|injection H as <- <-; done].
  erewrite bind_run_ok in H by reflexivity.
  destruct (inv_list _ _ HI ko Hin) as [o Ho].
  erewrite bind_run_ok in H; [|by apply get_hdr_run].
  pose proof (kinvL_swapout X s ko o Ho Hin HI) as HF.
  destruct (is_garbage (hdr o)) eqn:E; simpl in H.
  - apply bind_run in H as [([] & s1 & H1 & H)|[(e & H1 & ->)|[_ ->]]]; [| |done].
    + apply gc_remove_run in H1 as (_ & _ & ->); [|done]. injection H as <- <-. exact HF.
    + by apply gc_remove_run in H1 as (? & _).
  - injection H as <- <-. destruct s. exact HF.
Qed.
#[export] Hint Resolve pres_kobject_swapout : keeps.

(** ** The operations of KOps, KGc and KSys *)

Lemma pres_container_alloc X l : Preserves (kinvL X) (container_alloc l).
Proof. unfold container_alloc. keeps. Qed.
#[export] Hint Resolve pres_container_alloc : keeps.
Lemma pres_get_slot X c i : Preserves (kinvL X) (get_slot c i).
Proof. unfold get_slot. keeps. Qed.
#[export] Hint Resolve pres_get_slot : keeps.
Lemma pres_container_slot_get X c i rw : Preserves (kinvL X) (container_slot_get c i rw).
Proof. unfold container_slot_get. keeps. Qed.
#[export] Hint Resolve pres_container_slot_get : keeps.
Lemma pres_container_slot_alloc X c : Preserves (kinvL X) (container_slot_alloc c).
Proof. unfold container_slot_alloc. keeps. Qed.
#[export] Hint Resolve pres_container_slot_alloc : keeps.
Lemma pres_upd_slot X c i f : Preserves (kinvL X) (upd_slot c i f).
Proof. unfold upd_slot. keeps. Qed.
#[export] Hint Resolve pres_upd_slot : keeps.
Lemma pres_container_slot_addref X c i ko e : Preserves (kinvL X) (container_slot_addref c i ko e).
Proof. unfold container_slot_addref. keeps. Qed.
#[export] Hint Resolve pres_container_slot_addref : keeps.
Lemma pres_container_slot_decref X c i ko : Preserves (kinvL X) (container_slot_decref c i ko).
Proof. unfold container_slot_decref. keeps. Qed.
#[export] Hint Resolve pres_container_slot_decref : keeps.
Lemma pres_container_put X c ko e : Preserves (kinvL X) (container_put c ko e).
Proof. unfold container_put. keeps. Qed.
#[export] Hint Resolve pres_container_put : keeps.
Lemma pres_container_get X c slot : Preserves (kinvL X) (container_get c slot).
Proof. unfold container_get. keeps. Qed.
#[export] Hint Resolve pres_container_get : keeps.
Lemma pres_container_unref X c ko p : Preserves (kinvL X) (container_unref c ko p).
Proof. unfold container_unref. keeps. Qed.
#[export] Hint Resolve pres_container_unref : keeps.
Lemma pres_container_gc_slot X fuel c i : Preserves (kinvL X) (container_gc_slot fuel c i).
Proof. induction fuel as [|fuel IH]; cbn [container_gc_slot]; keeps. Qed.
#[export] Hint Resolve pres_container_gc_slot : keeps.
Lemma pres_container_gc_loop X c l : Preserves (kinvL X) (container_gc_loop c l).
Proof. induction l as [|i rest IH]; cbn [container_gc_loop]; keeps. Qed.
#[export] Hint Resolve pres_container_gc_loop : keeps.
Lemma pres_container_gc X c : Preserves (kinvL X) (container_gc c).
Proof. unfold container_gc. keeps. Qed.
#[export] Hint Resolve pres_container_gc : keeps.
Lemma pres_cobj_get X ref type iflow : Preserves (kinvL X) (cobj_get ref type iflow).
Proof. unfold cobj_get. keeps. Qed.
#[export] Hint Resolve pres_cobj_get : keeps.
Lemma pres_container_has_ancestor_loop X fuel c a : Preserves (kinvL X) (container_has_ancestor_loop fuel c a).
Proof. revert c. induction fuel as [|fuel IH]; intros c; cbn [container_has_ancestor_loop]; keeps. Qed.
#[export] Hint Resolve pres_container_has_ancestor_loop : keeps.
Lemma pres_container_has_ancestor X c a : Preserves (kinvL X) (container_has_ancestor c a).
Proof. unfold container_has_ancestor. keeps. Qed.
#[export] Hint Resolve pres_container_has_ancestor : keeps.

Lemma body_copy_pages_type src dst : body_type (body_copy_pages src dst) = body_type dst.
Proof. by destruct src, dst. Qed.

Lemma pres_kobject_copy_pages X src dst : Preserves (kinvL X) (kobject_copy_pages src dst).
Proof.
  unfold kobject_copy_pages. keeps. apply pres_upd_ko. intros ko. simpl. rewrite body_copy_pages_type. done.
Qed.
#[export] Hint Resolve pres_kobject_copy_pages : keeps.
Lemma pres_segment_swapin X sg : Preserves (kinvL X) (segment_swapin sg).
Proof. unfold segment_swapin. keeps. Qed.
#[export] Hint Resolve pres_segment_swapin : keeps.
Lemma pres_segment_alloc X l : Preserves (kinvL X) (segment_alloc l).
Proof. unfold segment_alloc. keeps. Qed.
#[export] Hint Resolve pres_segment_alloc : keeps.
Lemma pres_segment_copy X src l : Preserves (kinvL X) (segment_copy src l).
Proof. unfold segment_copy. keeps. Qed.
#[export] Hint Resolve pres_segment_copy : keeps.
Lemma pres_segment_set_nbytes X sg n : Preserves (kinvL X) (segment_set_nbytes sg n).
Proof. unfold segment_set_nbytes. keeps. Qed.
#[export] Hint Resolve pres_segment_set_nbytes : keeps.
Lemma pres_klabel_alloc X d : Preserves (kinvL X) (klabel_alloc d).
Proof. unfold klabel_alloc. keeps. Qed.
#[export] Hint Resolve pres_klabel_alloc : keeps.
Lemma pres_klabel_copy X src : Preserves (kinvL X) (klabel_copy src).
Proof. unfold klabel_copy. keeps. Qed.
#[export] Hint Resolve pres_klabel_copy : keeps.
Lemma pres_klabel_set X l h lv : Preserves (kinvL X) (klabel_set l h lv).
Proof. unfold klabel_set. keeps. Qed.
#[export] Hint Resolve pres_klabel_set : keeps.
Lemma pres_klabel_max_loop X src f idxs dst : Preserves (kinvL X) (klabel_max_loop src f idxs dst).
Proof. induction idxs as [|i rest IH]; cbn [klabel_max_loop]; keeps. Qed.
#[export] Hint Resolve pres_klabel_max_loop : keeps.
Lemma pres_klabel_max X a b c : Preserves (kinvL X) (klabel_max a b c).
Proof. unfold klabel_max. keeps. Qed.
#[export] Hint Resolve pres_klabel_max : keeps.
Lemma pres_klabel_compare X a b c : Preserves (kinvL X) (klabel_compare a b c).
Proof. unfold klabel_compare. keeps. Qed.
#[export] Hint Resolve pres_klabel_compare : keeps.
Lemma pres_kulabel_loop X ents idxs l : Preserves (kinvL X) (kulabel_loop ents idxs l).
Proof. induction idxs as [|i rest IH]; cbn [kulabel_loop]; keeps. Qed.
#[export] Hint Resolve pres_kulabel_loop : keeps.
Lemma pres_kulabel_to_label X ul : Preserves (kinvL X) (kulabel_to_label ul).
Proof. unfold kulabel_to_label. keeps. Qed.
#[export] Hint Resolve pres_kulabel_to_label : keeps.
Lemma pres_gate_alloc X l c v : Preserves (kinvL X) (gate_alloc l c v).
Proof. unfold gate_alloc. keeps. Qed.
#[export] Hint Resolve pres_gate_alloc : keeps.
Lemma pres_thread_alloc X l c : Preserves (kinvL X) (thread_alloc l c).
Proof. unfold thread_alloc. keeps. Qed.
#[export] Hint Resolve pres_thread_alloc : keeps.
Lemma pres_thread_gc X t : Preserves (kinvL X) (thread_gc t).
Proof. unfold thread_gc. keeps. Qed.
#[export] Hint Resolve pres_thread_gc : keeps.
Lemma pres_thread_enable_fp X t : Preserves (kinvL X) (thread_enable_fp t).
Proof. unfold thread_enable_fp. keeps. Qed.
#[export] Hint Resolve pres_thread_enable_fp : keeps.
Lemma pres_thread_disable_fp X t : Preserves (kinvL X) (thread_disable_fp t).
Proof. unfold thread_disable_fp. keeps. Qed.
#[export] Hint Resolve pres_thread_disable_fp : keeps.
Lemma pres_thread_set_waitslots X t n : Preserves (kinvL X) (thread_set_waitslots t n).
Proof. unfold thread_set_waitslots. keeps. Qed.
#[export] Hint Resolve pres_thread_set_waitslots : keeps.
Lemma pres_thread_change_label X t l : Preserves (kinvL X) (thread_change_label t l).
Proof. unfold thread_change_label. keeps. Qed.
#[export] Hint Resolve pres_thread_change_label : keeps.
Lemma pres_thread_jump X t l c te : Preserves (kinvL X) (thread_jump t l c te).
Proof. unfold thread_jump. keeps. Qed.
#[export] Hint Resolve pres_thread_jump : keeps.
Lemma pres_as_alloc X l : Preserves (kinvL X) (as_alloc l).
Proof. unfold as_alloc. keeps. Qed.
#[export] Hint Resolve pres_as_alloc : keeps.
Lemma pres_as_copy X a l : Preserves (kinvL X) (as_copy a l).
Proof. unfold as_copy. keeps. Qed.
#[export] Hint Resolve pres_as_copy : keeps.
Lemma pres_kobject_gc_labels X ko idxs : Preserves (kinvL X) (kobject_gc_labels ko idxs).
Proof. induction idxs as [|i rest IH]; cbn [kobject_gc_labels]; keeps. Qed.
#[export] Hint Resolve pres_kobject_gc_labels : keeps.
Lemma pres_kobject_gc_drop_labels X ko idx ls : Preserves (kinvL X) (kobject_gc_drop_labels ko idx ls).
Proof. revert idx. induction ls as [|l rest IH]; intros idx; cbn [kobject_gc_drop_labels]; keeps. Qed.
#[export] Hint Resolve pres_kobject_gc_drop_labels : keeps.
Lemma pres_kobject_dirty_eval X ko w : Preserves (kinvL X) (kobject_dirty_eval ko w).
Proof. unfold kobject_dirty_eval. keeps. Qed.
#[export] Hint Resolve pres_kobject_dirty_eval : keeps.
Lemma pres_kobject_gc X ko : Preserves (kinvL X) (kobject_gc ko).
Proof. unfold kobject_gc. keeps. Qed.
#[export] Hint Resolve pres_kobject_gc : keeps.
Lemma pres_kobject_gc_pass X objs p : Preserves (kinvL X) (kobject_gc_pass objs p).
Proof. revert p. induction objs as [|ko rest IH]; intros p; cbn [kobject_gc_pass]; keeps. Qed.
#[export] Hint Resolve pres_kobject_gc_pass : keeps.
Lemma pres_kobject_gc_passes X fuel : Preserves (kinvL X) (kobject_gc_passes fuel).
Proof. induction fuel as [|fuel IH]; cbn [kobject_gc_passes]; keeps. Qed.
#[export] Hint Resolve pres_kobject_gc_passes : keeps.
Lemma pres_kobject_gc_scan X : Preserves (kinvL X) (kobject_gc_scan).
Proof. unfold kobject_gc_scan. keeps. Qed.
#[export] Hint Resolve pres_kobject_gc_scan : keeps.
Lemma pres_kobject_reclaim_loop X objs : Preserves (kinvL X) (kobject_reclaim_loop objs).
Proof. induction objs as [|ko rest IH]; cbn [kobject_reclaim_loop]; keeps. Qed.
#[export] Hint Resolve pres_kobject_reclaim_loop : keeps.
Lemma pres_kobject_reclaim X : Preserves (kinvL X) (kobject_reclaim).
Proof. unfold kobject_reclaim. keeps. Qed.
#[export] Hint Resolve pres_kobject_reclaim : keeps.
Lemma pres_wake_all X fuel q : Preserves (kinvL X) (wake_all fuel q).
Proof. induction fuel as [|fuel IH]; cbn [wake_all]; keeps. Qed.
#[export] Hint Resolve pres_wake_all : keeps.
Lemma pres_kobject_snapshot_release X ko : Preserves (kinvL X) (kobject_snapshot_release ko).
Proof. unfold kobject_snapshot_release. keeps. Qed.
#[export] Hint Resolve pres_kobject_snapshot_release : keeps.

Lemma pres_user_read X {A} (p : uptr A) : Preserves (kinvL X) (user_read p).
Proof. destruct p; simpl; keeps. Qed.
#[export] Hint Resolve pres_user_read : keeps.
Lemma pres_alloc_set_name X ko n : Preserves (kinvL X) (alloc_set_name ko n).
Proof. unfold alloc_set_name. keeps. Qed.
#[export] Hint Resolve pres_alloc_set_name : keeps.
Lemma pres_alloc_ulabel X ul i : Preserves (kinvL X) (alloc_ulabel ul i).
Proof. unfold alloc_ulabel. keeps. Qed.
#[export] Hint Resolve pres_alloc_ulabel : keeps.
Lemma pres_sys_container_alloc X p ul n a q : Preserves (kinvL X) (sys_container_alloc p ul n a q).
Proof. unfold sys_container_alloc. keeps. Qed.
#[export] Hint Resolve pres_sys_container_alloc : keeps.
Lemma pres_sys_obj_unref X o : Preserves (kinvL X) (sys_obj_unref o).
Proof. unfold sys_obj_unref. keeps. Qed.
#[export] Hint Resolve pres_sys_obj_unref : keeps.
Lemma pres_sys_container_get_slot_id X c i : Preserves (kinvL X) (sys_container_get_slot_id c i).
Proof. unfold sys_container_get_slot_id. keeps. Qed.
#[export] Hint Resolve pres_sys_container_get_slot_id : keeps.
Lemma pres_sys_container_get_nslots X c : Preserves (kinvL X) (sys_container_get_nslots c).
Proof. unfold sys_container_get_nslots. keeps. Qed.
#[export] Hint Resolve pres_sys_container_get_nslots : keeps.
Lemma pres_sys_container_get_parent X c : Preserves (kinvL X) (sys_container_get_parent c).
Proof. unfold sys_container_get_parent. keeps. Qed.
#[export] Hint Resolve pres_sys_container_get_parent : keeps.
Lemma pres_sys_container_move_quota X p c n : Preserves (kinvL X) (sys_container_move_quota p c n).
Proof. unfold sys_container_move_quota. keeps. Qed.
#[export] Hint Resolve pres_sys_container_move_quota : keeps.
Lemma pres_sys_obj_move X o p a : Preserves (kinvL X) (sys_obj_move o p a).
Proof. unfold sys_obj_move. keeps. Qed.
#[export] Hint Resolve pres_sys_obj_move : keeps.
Lemma pres_sys_obj_get_type X o : Preserves (kinvL X) (sys_obj_get_type o).
Proof. unfold sys_obj_get_type. keeps. Qed.
#[export] Hint Resolve pres_sys_obj_get_type : keeps.
Lemma pres_user_put_label X l ul : Preserves (kinvL X) (user_put_label l ul).
Proof. unfold user_put_label. keeps. Qed.
#[export] Hint Resolve pres_user_put_label : keeps.
Lemma pres_sys_obj_get_label X o ul : Preserves (kinvL X) (sys_obj_get_label o ul).
Proof. unfold sys_obj_get_label. keeps. Qed.
#[export] Hint Resolve pres_sys_obj_get_label : keeps.
Lemma pres_sys_obj_get_name X o b : Preserves (kinvL X) (sys_obj_get_name o b).
Proof. unfold sys_obj_get_name. keeps. Qed.
#[export] Hint Resolve pres_sys_obj_get_name : keeps.
Lemma pres_sys_obj_get_quota_total X o : Preserves (kinvL X) (sys_obj_get_quota_total o).
Proof. unfold sys_obj_get_quota_total. keeps. Qed.
#[export] Hint Resolve pres_sys_obj_get_quota_total : keeps.
Lemma pres_sys_obj_get_quota_avail X o : Preserves (kinvL X) (sys_obj_get_quota_avail o).
Proof. unfold sys_obj_get_quota_avail. keeps. Qed.
#[export] Hint Resolve pres_sys_obj_get_quota_avail : keeps.
Lemma pres_sys_obj_get_meta X o m : Preserves (kinvL X) (sys_obj_get_meta o m).
Proof. unfold sys_obj_get_meta. keeps. Qed.
#[export] Hint Resolve pres_sys_obj_get_meta : keeps.
Lemma pres_sys_obj_set_meta X o a b : Preserves (kinvL X) (sys_obj_set_meta o a b).
Proof. unfold sys_obj_set_meta. keeps. Qed.
#[export] Hint Resolve pres_sys_obj_set_meta : keeps.
Lemma pres_sys_obj_set_fixedquota X o : Preserves (kinvL X) (sys_obj_set_fixedquota o).
Proof. unfold sys_obj_set_fixedquota. keeps. Qed.
#[export] Hint Resolve pres_sys_obj_set_fixedquota : keeps.
Lemma pres_sys_obj_set_readonly X o : Preserves (kinvL X) (sys_obj_set_readonly o).
Proof. unfold sys_obj_set_readonly. keeps. Qed.
#[export] Hint Resolve pres_sys_obj_set_readonly : keeps.
Lemma pres_sys_obj_get_readonly X o : Preserves (kinvL X) (sys_obj_get_readonly o).
Proof. unfold sys_obj_get_readonly. keeps. Qed.
#[export] Hint Resolve pres_sys_obj_get_readonly : keeps.
Lemma pres_sys_handle_create X l c : Preserves (kinvL X) (sys_handle_create l c).
Proof. unfold sys_handle_create. keeps. Qed.
#[export] Hint Resolve pres_sys_handle_create : keeps.
Lemma pres_sys_gate_create X l c ct te ul uc ug n v : Preserves (kinvL X) (sys_gate_create l c ct te ul uc ug n v).
Proof. unfold sys_gate_create. keeps. Qed.
#[export] Hint Resolve pres_sys_gate_create : keeps.
Lemma pres_sys_gate_clearance X g ul : Preserves (kinvL X) (sys_gate_clearance g ul).
Proof. unfold sys_gate_clearance. keeps. Qed.
#[export] Hint Resolve pres_sys_gate_clearance : keeps.
Lemma pres_sys_gate_get_entry X g te : Preserves (kinvL X) (sys_gate_get_entry g te).
Proof. unfold sys_gate_get_entry. keeps. Qed.
#[export] Hint Resolve pres_sys_gate_get_entry : keeps.
Lemma pres_compare_opt_r X a b c : Preserves (kinvL X) (compare_opt_r a b c).
Proof. unfold compare_opt_r. keeps. Qed.
#[export] Hint Resolve pres_compare_opt_r : keeps.
Lemma pres_compare_opt_l X a b c : Preserves (kinvL X) (compare_opt_l a b c).
Proof. unfold compare_opt_l. keeps. Qed.
#[export] Hint Resolve pres_compare_opt_l : keeps.
Lemma pres_gate_check_labels X l c g ul uc : Preserves (kinvL X) (gate_check_labels l c g ul uc).
Proof. unfold gate_check_labels. keeps. Qed.
#[export] Hint Resolve pres_gate_check_labels : keeps.
Lemma pres_sys_gate_enter X l c g ul uc te : Preserves (kinvL X) (sys_gate_enter l c g ul uc te).
Proof. unfold sys_gate_enter. keeps. Qed.
#[export] Hint Resolve pres_sys_gate_enter : keeps.
Lemma pres_sys_thread_create X l c ct n : Preserves (kinvL X) (sys_thread_create l c ct n).
Proof. unfold sys_thread_create. keeps. Qed.
#[export] Hint Resolve pres_sys_thread_create : keeps.
Lemma pres_sys_thread_start X l c t te ul uc : Preserves (kinvL X) (sys_thread_start l c t te ul uc).
Proof. unfold sys_thread_start. keeps. Qed.
#[export] Hint Resolve pres_sys_thread_start : keeps.
Lemma pres_sys_self_halt X : Preserves (kinvL X) (sys_self_halt).
Proof. unfold sys_self_halt. keeps. Qed.
#[export] Hint Resolve pres_sys_self_halt : keeps.
Lemma pres_sys_self_id X : Preserves (kinvL X) (sys_self_id).
Proof. unfold sys_self_id. keeps. Qed.
#[export] Hint Resolve pres_sys_self_id : keeps.
Lemma pres_sys_self_addref X c : Preserves (kinvL X) (sys_self_addref c).
Proof. unfold sys_self_addref. keeps. Qed.
#[export] Hint Resolve pres_sys_self_addref : keeps.
Lemma pres_sys_self_get_as X b : Preserves (kinvL X) (sys_self_get_as b).
Proof. unfold sys_self_get_as. keeps. Qed.
#[export] Hint Resolve pres_sys_self_get_as : keeps.
Lemma pres_sys_self_set_as X a : Preserves (kinvL X) (sys_self_set_as a).
Proof. unfold sys_self_set_as. keeps. Qed.
#[export] Hint Resolve pres_sys_self_set_as : keeps.
Lemma pres_sys_self_set_label X l c ul : Preserves (kinvL X) (sys_self_set_label l c ul).
Proof. unfold sys_self_set_label. keeps. Qed.
#[export] Hint Resolve pres_sys_self_set_label : keeps.
Lemma pres_sys_self_set_clearance X l c ul : Preserves (kinvL X) (sys_self_set_clearance l c ul).
Proof. unfold sys_self_set_clearance. keeps. Qed.
#[export] Hint Resolve pres_sys_self_set_clearance : keeps.
Lemma pres_sys_self_get_clearance X c ul : Preserves (kinvL X) (sys_self_get_clearance c ul).
Proof. unfold sys_self_get_clearance. keeps. Qed.
#[export] Hint Resolve pres_sys_self_get_clearance : keeps.
Lemma pres_sys_self_set_verify X a b : Preserves (kinvL X) (sys_self_set_verify a b).
Proof. unfold sys_self_set_verify. keeps. Qed.
#[export] Hint Resolve pres_sys_self_set_verify : keeps.
Lemma pres_sys_self_get_verify X a b : Preserves (kinvL X) (sys_self_get_verify a b).
Proof. unfold sys_self_get_verify. keeps. Qed.
#[export] Hint Resolve pres_sys_self_get_verify : keeps.
Lemma pres_sys_self_fp_enable X : Preserves (kinvL X) (sys_self_fp_enable).
Proof. unfold sys_self_fp_enable. keeps. Qed.
#[export] Hint Resolve pres_sys_self_fp_enable : keeps.
Lemma pres_sys_self_fp_disable X : Preserves (kinvL X) (sys_self_fp_disable).
Proof. unfold sys_self_fp_disable. keeps. Qed.
#[export] Hint Resolve pres_sys_self_fp_disable : keeps.
Lemma pres_sys_self_set_waitslots X n : Preserves (kinvL X) (sys_self_set_waitslots n).
Proof. unfold sys_self_set_waitslots. keeps. Qed.
#[export] Hint Resolve pres_sys_self_set_waitslots : keeps.
Lemma pres_sys_self_set_sched_parents X a b : Preserves (kinvL X) (sys_self_set_sched_parents a b).
Proof. unfold sys_self_set_sched_parents. keeps. Qed.
#[export] Hint Resolve pres_sys_self_set_sched_parents : keeps.
Lemma pres_sys_self_set_cflush X b : Preserves (kinvL X) (sys_self_set_cflush b).
Proof. unfold sys_self_set_cflush. keeps. Qed.
#[export] Hint Resolve pres_sys_self_set_cflush : keeps.
Lemma pres_sys_segment_create X c n ul nm : Preserves (kinvL X) (sys_segment_create c n ul nm).
Proof. unfold sys_segment_create. keeps. Qed.
#[export] Hint Resolve pres_sys_segment_create : keeps.
Lemma pres_sys_segment_copy X s c ul n : Preserves (kinvL X) (sys_segment_copy s c ul n).
Proof. unfold sys_segment_copy. keeps. Qed.
#[export] Hint Resolve pres_sys_segment_copy : keeps.
Lemma pres_sys_segment_addref X s c : Preserves (kinvL X) (sys_segment_addref s c).
Proof. unfold sys_segment_addref. keeps. Qed.
#[export] Hint Resolve pres_sys_segment_addref : keeps.
Lemma pres_sys_segment_resize X s n : Preserves (kinvL X) (sys_segment_resize s n).
Proof. unfold sys_segment_resize. keeps. Qed.
#[export] Hint Resolve pres_sys_segment_resize : keeps.
Lemma pres_sys_segment_get_nbytes X s : Preserves (kinvL X) (sys_segment_get_nbytes s).
Proof. unfold sys_segment_get_nbytes. keeps. Qed.
#[export] Hint Resolve pres_sys_segment_get_nbytes : keeps.
Lemma pres_sys_as_create X c ul n : Preserves (kinvL X) (sys_as_create c ul n).
Proof. unfold sys_as_create. keeps. Qed.
#[export] Hint Resolve pres_sys_as_create : keeps.
Lemma pres_sys_as_copy X a c ul n : Preserves (kinvL X) (sys_as_copy a c ul n).
Proof. unfold sys_as_copy. keeps. Qed.
#[export] Hint Resolve pres_sys_as_copy : keeps.
