(* ===== verification/KExample.v ===== *)
(** * A small kernel state

    A concrete state with a running thread, a root container and a segment,
    used to show that the hypotheses of the theorems hold somewhere, and a
    decision procedure for the object invariant on such states. *)

From S2P Require Import Prelude Label LabelOrder LabelCache Blowfish KState KThread KObj KOps KLogic KNoErr KInv.
From stdpp Require Import options.

Set Default Goal Selector "!".

(** ** Deciding the invariant *)

Definition obj_okb (s : kstate) (p : Z * kobject) : bool :=
  let '(id, ko) := p in
  (ko_id (hdr ko) =? id) &&
  (bool_decide (ko_type (hdr ko) = body_type (body ko)) || bool_decide (ko_type (hdr ko) = kobj_dead)) &&
  (0 <? id) && (id <? 2 ^ 61) && bool_decide (id ∈ ks_list s).

Definition gc_okb (s : kstate) (id : Z) : bool :=
  bool_decide (id ∈ ks_list s) &&
  match ks_heap s !! id with
  | Some ko => is_garbage (hdr ko)
  | None => false
  end.

Definition kinvb (s : kstate) : bool :=
  forallb (obj_okb s) (map_to_list (ks_heap s)) &&
  bool_decide (NoDup (ks_list s)) &&
  forallb (fun id => bool_decide (is_Some (ks_heap s !! id))) (ks_list s) &&
  bool_decide (NoDup (ks_gc s)) && forallb (gc_okb s) (ks_gc s).

Lemma kinvb_sound s : kinvb s = true -> kinv s.
Proof.
  unfold kinvb. rewrite !andb_true_iff, !forallb_forall, !bool_decide_eq_true.
  intros ((((Ho & Hl) & Hls) & Hg) & Hgc).
  assert (Hobj : forall id ko, ks_heap s !! id = Some ko -> obj_okb s (id, ko) = true).
  { intros id ko Hk. apply Ho. apply list_elem_of_In. by apply elem_of_map_to_list. }
  unfold obj_okb in Hobj.
  constructor.
  - intros id ko Hk. specialize (Hobj id ko Hk). rewrite !andb_true_iff in Hobj.
    destruct Hobj as ((((H1 & H2) & _) & _) & _). apply Z.eqb_eq in H1. split; [done|].
    apply orb_true_iff in H2 as [H2|H2]; apply bool_decide_eq_true in H2; auto.
  - intros id ko Hk. specialize (Hobj id ko Hk). rewrite !andb_true_iff, !Z.ltb_lt in Hobj. lia.
  - intros id ko Hk. specialize (Hobj id ko Hk). rewrite !andb_true_iff, bool_decide_eq_true in Hobj. left. apply Hobj.
  - done.
  - intros id Hid. specialize (Hls id). rewrite bool_decide_eq_true in Hls. by apply Hls, list_elem_of_In.
  - done.
  - intros id Hid. assert (Hb : gc_okb s id = true) by (by apply Hgc, list_elem_of_In).
    unfold gc_okb in Hb. apply andb_true_iff in Hb as [H1 H2]. apply bool_decide_eq_true in H1. split; [done|].
    destruct (ks_heap s !! id) as [ko|]; [eauto|done].
  - intros x Hx. by apply not_elem_of_nil in Hx.
Qed.

(** ** The state *)

(** A cheap key schedule for examples: no properties depend on it. *)
Definition ex_key : bf_ctx := BfCtx (replicate 18 0) (replicate 4 (replicate 256 0)).

Definition ex_label_obj (id : Z) (l : Label) : kobject :=
  mkKobject (set_ko_ref 1 (new_hdr id kobj_label)) (BLabel l) (replicate kolabel_max None) None.

(** Labels: {9:*, 1} and clearance {2} of the thread, {9:0, 1} of the objects,
    {3} of an object nobody can read. *)
Definition ex_l7 : Label := mk_label 1 [(9, 4)].
Definition ex_l8 : Label := mk_label 2 [].
Definition ex_l10 : Label := mk_label 1 [(9, 0)].
Definition ex_l12 : Label := mk_label 3 [].

Definition ex_hdr (id : Z) (type : kobject_type) (labels : list Z) (total used parent : Z) : kobject_hdr :=
  mkHdr id 1 total used parent labels 0 (replicate 32 0) (replicate 64 0) KOBJ_DIRTY type 0 0 0.

Definition ex_thread : kobject :=
  mkKobject (set_ko_pin 1 (ex_hdr 5 kobj_thread [7; 8; 0; 0] 10000 6144 6))
    (BThread (mkThread zero_tf 11 (COBJ 0 0) None thread_runnable true false false true false false true
       1024 0 (6, 0) 0 0 [] []))
    (replicate kolabel_max None) None.

Definition ex_slots (ids : list Z) : list container_slot :=
  map (fun i => ContainerSlot i 1) ids ++ replicate (NUM_CT_SLOT_INLINE - length ids) zero_slot.

Definition ex_root : kobject :=
  mkKobject (ex_hdr 6 kobj_container [10; 0; 0; 0] CT_QUOTA_INF 300000 0)
    (BContainer (mkContainer 0 (ex_slots [5; 13; 14; 15; 16]) [])) (replicate kolabel_max None) None.

(** A container with a quota and a container nobody can read. *)
Definition ex_sub : kobject :=
  mkKobject (ex_hdr 13 kobj_container [10; 0; 0; 0] 100000 1024 6)
    (BContainer (mkContainer 0 (ex_slots []) [])) (replicate kolabel_max None) None.
Definition ex_secret : kobject :=
  mkKobject (ex_hdr 14 kobj_container [12; 0; 0; 0] 100000 1024 6)
    (BContainer (mkContainer 0 (ex_slots []) [])) (replicate kolabel_max None) None.

Definition ex_tls : kobject :=
  mkKobject (set_ko_nbytes PGSIZE (ex_hdr 11 kobj_segment [7; 0; 0; 0] 5120 5120 5))
    (BSegment (mkSegment [zero_words] [])) (replicate kolabel_max None) None.

(** A gate, and a thread that has not been started. *)
Definition ex_gate : kobject :=
  mkKobject (ex_hdr 15 kobj_gate [10; 8; 8; 0] 1536 1536 6)
    (BGate (mkGate zero_te true false)) (replicate kolabel_max None) None.
Definition ex_thread2 : kobject :=
  mkKobject (ex_hdr 16 kobj_thread [7; 8; 0; 0] 10000 6144 6)
    (BThread (mkThread zero_tf 17 (COBJ 0 0) None thread_not_started false false false false false false false
       1024 0 (0, 0) 0 0 [] []))
    (replicate kolabel_max None) None.
Definition ex_tls2 : kobject :=
  mkKobject (set_ko_nbytes PGSIZE (ex_hdr 17 kobj_segment [7; 0; 0; 0] 5120 5120 16))
    (BSegment (mkSegment [zero_words] [])) (replicate kolabel_max None) None.

Definition ex_heap : gmap Z kobject :=
  <[15 := ex_gate]> (<[16 := ex_thread2]> (<[17 := ex_tls2]> (<[5 := ex_thread]> (<[6 := ex_root]> (<[7 := ex_label_obj 7 ex_l7]> (<[8 := ex_label_obj 8 ex_l8]>
  (<[10 := ex_label_obj 10 ex_l10]> (<[11 := ex_tls]> (<[12 := ex_label_obj 12 ex_l12]>
  (<[13 := ex_sub]> (<[14 := ex_secret]> ∅))))))))))).

Definition ex_state : kstate :=
  KState ex_heap [5; 6; 7; 8; 10; 11; 12; 13; 14; 15; 16; 17] [] neg_init compare_cache_init (Some 5) None
    {[TL_runnable := [5]]} ∅ ∅ ex_key 1000 1024 0 0 false (PstateOp 0 (0, 0, 0)) None None 6 0 [] [].

Lemma ex_state_inv : kinv ex_state.
Proof. apply kinvb_sound. vm_compute. reflexivity. Qed.
