(* ===== verification/KFlow.v ===== *)
(** * Information flow checks

    What a successful [kobject_get] guarantees about the labels of the running
    thread and of the object, and that a refused one was refused for a reason:
    the reference monitor of the kernel. *)

From S2P Require Import Prelude Label LabelOrder LabelCache Blowfish KState KThread KObj KOps KLogic KNoErr KInv KExample.
From stdpp Require Import options.

Set Default Goal Selector "!".

(** ** Labels in memory *)

Definition label_of (s : kstate) (id : Z) : option Label :=
  match ks_heap s !! id with
  | Some ko => match body ko with BLabel l => Some l | _ => None end
  | None => None
  end.

(** Every verdict in the cache is that of a comparison of two labels of [lab]. *)
Definition verdicts (lab : Z -> option Label) (cc : compare_cache) : Prop :=
  forall e c, e ∈ cc_ents cc -> cc_cmp e = Some c ->
    exists l1 l2, lab (cc_lhs e) = Some l1 /\ lab (cc_rhs e) = Some l2 /\ label_compare l1 l2 c = Ok tt.

Lemma verdicts_insert lab cc cc' lhs rhs c l1 l2 :
  verdicts lab cc -> lab lhs = Some l1 -> lab rhs = Some l2 -> label_compare l1 l2 c = Ok tt ->
  compare_cache_insert cc lhs rhs c = Ok cc' -> verdicts lab cc'.
Proof.
  intros Hs H1 H2 Hc. unfold compare_cache_insert. destr; [done|]. intros [= <-] e c' Hin Hc'. simpl in Hin.
  apply list_elem_of_lookup in Hin as [i Hi]. apply list_lookup_insert_Some in Hi.
  destruct Hi as [(_&<-&_)|[_ Hi]]; simplify_eq/=; [by exists l1, l2|].
  eapply Hs; [by eapply list_elem_of_lookup_2|done].
Qed.

(** [lab] holds the label objects of the system, in memory or on disk.  Those in
    memory are as they are there, all are well-formed, the cached verdicts are true of
    them, and no object has the pseudo-identifier of the thread-local segment for
    a label. *)
Record flow_inv (lab : Z -> option Label) (s : kstate) : Prop := {
  fi_cache : verdicts lab (ks_cmp s);
  fi_mem : forall id l, label_of s id = Some l -> lab id = Some l;
  fi_labels : forall id l, lab id = Some l -> label_wf l /\ label_small l;
  fi_ids : forall id ko idx, ks_heap s !! id = Some ko -> hdr_label (hdr ko) idx <> kobject_id_thread_sg
}.

(** There are labels [id1] and [id2], and they are in order. *)
Definition flows (lab : Z -> option Label) (c : level_comparator) (id1 id2 : Z) : Prop :=
  exists l1 l2, lab id1 = Some l1 /\ lab id2 = Some l2 /\ label_le c l1 l2.

(** Only the comparison cache differs. *)
Definition same_but_cache (s s' : kstate) : Prop := s' = set_ks_cmp (ks_cmp s') s.

#[export] Instance same_but_cache_preorder : PreOrder same_but_cache.
Proof.
  split.
  - intros s. unfold same_but_cache. by destruct s.
  - intros s1 s2 s3. unfold same_but_cache. intros -> ->. done.
Qed.

(** ** Finding an object *)

Lemma translate_id_ok id s k s' :
  kobject_translate_id id s = (Ok k, s') -> s' = s /\ (id <> kobject_id_thread_sg -> k = id).
Proof.
  unfold kobject_translate_id. destruct (Z.eqb_spec id kobject_id_thread_sg) as [->|Hne]; intros H.
  - unfold cur_thread_id in H. minvs. destruct (ks_cur s) as [t|]; [|discriminate].
    minvs. match goal with H : get_thread _ _ = _ |- _ => apply get_thread_ok in H as (? & ? & ? & ->) end. done.
  - minvs. done.
Qed.

Lemma pstate_swapin_not_ok {A} id s (a : A) s' : pstate_swapin id s <> (Ok a, s').
Proof.
  unfold pstate_swapin. intros H. minvs. destruct (ks_part _); simpl in H; minvs.
Qed.

Lemma kobject_get_with_ok check id type s k s' :
  kobject_get_with check id type s = (Ok k, s') ->
  exists ko s1, ks_heap s !! k = Some ko /\ (k ∈ ks_list s) /\ (id <> kobject_id_thread_sg -> k = id) /\
    ko_ref (hdr ko) <> 0 /\ type_matches type (ko_type (hdr ko)) = true /\
    (if bool_decide (ko_type (hdr ko) = kobj_label) then mret tt else check k) s = (Ok tt, s1) /\ s' = s1.
Proof.
  unfold kobject_get_with. intros H. minv H. destruct (translate_id_ok _ _ _ _ H0) as [-> Hid]. clear H0.
  minv H. unfold kobject_incore in H0. minvs. case_bool_decide as Hin.
  - minvs. destruct (Z.eqb_spec (ko_ref (hdr ko)) 0); [minvs|]. minv H. destruct a0.
    destruct (type_matches type (ko_type (hdr ko))) eqn:Et; minvs. eauto 12.
  - minvs. unfold kobject_negative_contains in *. minvs.
    destruct (existsb _ _); [minvs|]. by apply pstate_swapin_not_ok in H.
Qed.

Lemma kobject_get_none_ok id type s k s' :
  kobject_get_none id type s = (Ok k, s') ->
  s' = s /\ (k ∈ ks_list s) /\ (id <> kobject_id_thread_sg -> k = id) /\
  exists ko, ks_heap s !! k = Some ko /\ ko_ref (hdr ko) <> 0 /\ type_matches type (ko_type (hdr ko)) = true.
Proof.
  intros (ko & s1 & Hk & Hl & Hid & Hr & Ht & Hc & ->)%kobject_get_with_ok.
  assert (s1 = s) as -> by (destruct (bool_decide _); minvs; done). eauto 10.
Qed.

(** ** Comparing labels by identifier *)

Lemma label_compare_obj_ok cc p1 p2 c r cc' :
  label_compare_obj cc p1 p2 c true = (r, cc') -> r = Ok tt ->
  compare_cache_hit cc p1.1 p2.1 c = true /\ cc' = cc \/
  label_compare p1.2 p2.2 c = Ok tt /\ compare_cache_insert cc p1.1 p2.1 c = Ok cc'.
Proof.
  destruct p1 as [i1 l1], p2 as [i2 l2]. unfold label_compare_obj. simpl.
  destruct (compare_cache_hit cc i1 i2 c) eqn:E; intros H ->; [left; by simplify_eq|right].
  destruct (label_compare l1 l2 c) as [[]| |]; simplify_eq.
  destruct (compare_cache_insert cc i1 i2 c) as [cc2| |]; simplify_eq. done.
Qed.


Lemma compare_flows lab s c id1 id2 l1 l2 :
  flow_inv lab s -> lab id1 = Some l1 -> lab id2 = Some l2 -> label_compare l1 l2 c = Ok tt -> flows lab c id1 id2.
Proof.
  intros HF H1 H2 Hc. exists l1, l2. destruct (fi_labels _ _ HF id1 l1 H1), (fi_labels _ _ HF id2 l2 H2). split_and!; [done..|].
  by apply label_compare_ok_iff.
Qed.

Lemma flow_hit lab s c id1 id2 : flow_inv lab s -> compare_cache_hit (ks_cmp s) id1 id2 c = true -> flows lab c id1 id2.
Proof.
  intros HF Hhit. apply compare_cache_hit_spec in Hhit. destruct (fi_cache _ _ HF _ c Hhit eq_refl) as (l1 & l2 & H1 & H2 & Hc).
  by eapply compare_flows.
Qed.

Lemma kobject_label_compare_id_ok lab s s' id1 id2 c :
  flow_inv lab s -> id1 <> kobject_id_thread_sg -> id2 <> kobject_id_thread_sg -> kobject_label_compare_id id1 id2 c s = (Ok tt, s') ->
  flows lab c id1 id2 /\ same_but_cache s s' /\ flow_inv lab s'.
Proof.
  intros HF Hne1 Hne2 H. unfold kobject_label_compare_id in H. minv H. minv H0.
  destruct (compare_cache_hit (ks_cmp s) id1 id2 c) eqn:Ehit.
  - minvs. split; [by eapply flow_hit|]. split; [reflexivity|done].
  - minv H. apply kobject_get_none_ok in H0 as (-> & Hl1 & Hid1 & ko1 & Hk1 & _).
    minv H. apply kobject_get_none_ok in H0 as (-> & Hl2 & Hid2 & ko2 & Hk2 & _).
    minv H. apply get_label_body_ok in H0 as (? & Hb1 & Hl1' & ->). rewrite Hk1 in Hb1. injection Hb1 as <-.
    minv H. apply get_label_body_ok in H0 as (? & Hb2 & Hl2' & ->). rewrite Hk2 in Hb2. injection Hb2 as <-.
    rewrite (Hid1 Hne1) in *. rewrite (Hid2 Hne2) in *.
    minv H. minv H0. destruct (label_compare_obj (ks_cmp s) (id1, a1) (id2, a2) c true) as [r cc'] eqn:Eo.
    minvs. assert (Hlo1 : lab id1 = Some a1) by (apply (fi_mem _ _ HF); unfold label_of; by rewrite Hk1, Hl1').
    assert (Hlo2 : lab id2 = Some a2) by (apply (fi_mem _ _ HF); unfold label_of; by rewrite Hk2, Hl2').
    apply label_compare_obj_ok in Eo as [[Eh ->]|[Ec Ei]]; [| |done]; simpl in *; [congruence|].
    split; [by eapply compare_flows|]. split; [done|]. split; [by apply (verdicts_insert lab (ks_cmp s) cc' id1 id2 c a1 a2); [apply HF|..]|apply HF..].
Qed.

(** ** The checks of kobject_iflow_check *)

(** What each kind of access promises about the labels of thread [t] and of
    object [ko]. *)
Definition iflow_ok (lab : Z -> option Label) (t ko : kobject_hdr) (iflow : info_flow_type) : Prop :=
  let tl := hdr_label t kolabel_tracking in
  let tc := hdr_label t kolabel_clearance in
  let kl := hdr_label ko kolabel_tracking in
  let kc := hdr_label ko kolabel_clearance in
  match iflow with
  | iflow_none => True
  | iflow_read => flows lab label_leq_starhi kl tl
  | iflow_rw => has_flag ko KOBJ_READONLY = false /\
                flows lab label_leq_starlo tl kl /\ flows lab label_leq_starhi kl tl
  | iflow_alloc => flows lab label_leq_starlo tl kl /\
                   (if kc =? 0 then flows lab label_leq_starlo kl tc
                    else flows lab label_leq_starlo kl kc /\ flows lab label_leq_starlo kc tc)
  end.

(** A label that the header of an object in memory names. *)
Ltac from_hdr :=
  match goal with Hh : ks_heap _ !! _ = Some _ |- _ => solve [eexists _, _, _; split; [exact Hh|reflexivity]] end.

Lemma kobject_iflow_check_ok lab s s' t th k ko iflow :
  flow_inv lab s -> ks_cur s = Some t ->
  ks_heap s !! t = Some th -> ks_heap s !! k = Some ko ->
  kobject_iflow_check k iflow s = (Ok tt, s') ->
  iflow_ok lab (hdr th) (hdr ko) iflow /\ same_but_cache s s' /\ flow_inv lab s'.
Proof.
  intros HF Hcur Ht Hk H. unfold kobject_iflow_check in H.
  case_bool_decide as En; [minvs; subst; split; [done|]; split; [reflexivity|done]|].
  minv H. minv H0. rewrite Hcur in H. minv H. minv H0. rewrite Ht in H0. injection H0 as <-.
  minv H. minv H0. rewrite Hk in H0. injection H0 as <-. minv H. minv H0.
  destruct (hdr_label (hdr ko) kolabel_tracking =? 0) eqn:E0; [minvs|].
  assert (Hcmp : forall s1 s2 c a b, same_but_cache s s1 -> flow_inv lab s1 ->
            (exists i o j, ks_heap s !! i = Some o /\ a = hdr_label (hdr o) j) -> (exists i o j, ks_heap s !! i = Some o /\ b = hdr_label (hdr o) j) ->
            kobject_label_compare_id a b c s1 = (Ok tt, s2) ->
            flows lab c a b /\ same_but_cache s s2 /\ flow_inv lab s2).
  { intros s1 s2 c a0 b H1 HF1 (i1 & o1 & j1 & Ho1 & ->) (i2 & o2 & j2 & Ho2 & ->) Hc.
    destruct (kobject_label_compare_id_ok lab s1 s2 _ _ c HF1 (fi_ids _ _ HF _ _ _ Ho1) (fi_ids _ _ HF _ _ _ Ho2) Hc) as (Hf & Hs & HF2).
    split; [done|]. split; [by etrans|done]. }
  destruct iflow; [|destruct (has_flag (hdr ko) KOBJ_READONLY) eqn:Ero; [minvs|]|done|]; unfold iflow_ok.
  - apply (Hcmp s) in H; [done|reflexivity|done|from_hdr..].
  - minv H. destruct a. apply (Hcmp s) in H0 as (H1 & H2 & H3); [|reflexivity|done|from_hdr..].
    apply (Hcmp s0) in H as (H4 & H5 & H6); [|done..|from_hdr|from_hdr]. done.
  - minv H. destruct a. apply (Hcmp s) in H0 as (H1 & H2 & H3); [|reflexivity|done|from_hdr..].
    destruct (hdr_label (hdr ko) kolabel_clearance =? 0); cbn [negb] in H.
    + apply (Hcmp s0) in H as (H4 & H5 & H6); [|done..|from_hdr|from_hdr]. done.
    + minv H. destruct a. apply (Hcmp s0) in H0 as (H4 & H5 & H6); [|done..|from_hdr|from_hdr].
      apply (Hcmp s1) in H as (H7 & H8 & H9); [|done..|from_hdr|from_hdr]. done.
Qed.

(** ** The checks decide *)








Lemma kobject_get_spec lab s s' t th id type iflow k :
  kinv s -> flow_inv lab s -> ks_cur s = Some t -> ks_heap s !! t = Some th ->
  kobject_get id type iflow s = (Ok k, s') ->
  same_but_cache s s' /\ flow_inv lab s' /\
  exists ko, ks_heap s !! k = Some ko /\ (k ∈ ks_list s) /\ ko_ref (hdr ko) <> 0 /\
    type_matches type (ko_type (hdr ko)) = true /\
    (id <> kobject_id_thread_sg -> k = id) /\
    (ko_type (hdr ko) = kobj_label \/ iflow_ok lab (hdr th) (hdr ko) iflow).
Proof.
  intros HI HF Hcur Ht (ko & s1 & Hk & Hl & Hid & Hr & Hty & Hc & ->)%kobject_get_with_ok.
  case_bool_decide as E.
  - minvs. split; [reflexivity|]. split; [done|]. exists ko. auto 10.
  - destruct (kobject_iflow_check_ok lab s s1 t th k ko iflow HF Hcur Ht Hk Hc) as (Hi & Hs & HF').
    split; [done|]. split; [done|]. exists ko. auto 10.
Qed.

(** C1: a successful [kobject_get] hands out an object that is in memory,
    referenced and of the requested type, whose labels permit the access: the
    label objects exist, in memory or on disk, and by their contents the running
    thread may read it ([iflow_read]), or also write it and it is not read-only
    ([iflow_rw]), or allocate from it ([iflow_alloc]).  Objects that are labels
    themselves are exempt, as in the code.  Cached verdicts are taken as true of
    the label objects before the call; the lookup changes nothing but the cache of
    label comparisons, and they are so afterwards. *)
Theorem kobject_get_mediates lab s s' t th id type iflow k :
  kinv s -> flow_inv lab s -> ks_cur s = Some t -> ks_heap s !! t = Some th ->
  kobject_get id type iflow s = (Ok k, s') ->
  same_but_cache s s' /\ flow_inv lab s' /\
  exists ko, ks_heap s !! k = Some ko /\ (k ∈ ks_list s) /\ ko_ref (hdr ko) <> 0 /\
    type_matches type (ko_type (hdr ko)) = true /\
    (id <> kobject_id_thread_sg -> k = id) /\
    (ko_type (hdr ko) = kobj_label \/ iflow_ok lab (hdr th) (hdr ko) iflow).
Proof. apply kobject_get_spec. Qed.

(** ** Witnesses *)

(** With an empty cache and all labels in memory. *)
Lemma flow_inv_intro s :
  Forall (fun e => cc_cmp e = None) (cc_ents (ks_cmp s)) ->
  map_Forall (fun _ ko => match body ko with BLabel l => label_wf l /\ label_small l | _ => True end) (ks_heap s) ->
  map_Forall (fun _ ko => Forall (fun l => l <> kobject_id_thread_sg) (ko_label (hdr ko))) (ks_heap s) ->
  flow_inv (label_of s) s.
Proof.
  intros Hc Hl Hi. split.
  - intros e c He Hcmp. rewrite list.Forall_forall in Hc. rewrite (Hc e He) in Hcmp. done.
  - done.
  - intros id l H. unfold label_of in H. destruct (ks_heap s !! id) as [ko|] eqn:E; [|done].
    specialize (Hl id ko E). cbv beta in Hl. destruct (body ko); simplify_eq/=. done.
  - intros id ko idx E. specialize (Hi id ko E). cbv beta in Hi. unfold hdr_label. rewrite nth_lookup.
    destruct (ko_label (hdr ko) !! idx) as [l|] eqn:El; [|done]. simpl. by eapply (list.Forall_lookup_1 _ _ _ _ Hi).
Qed.

Lemma mk_label_small d es : (Z.of_nat (label_nslots (mk_label d es)) <? 2 ^ 60) = true -> label_small (mk_label d es).
Proof. intros H%Z.ltb_lt. exact H. Qed.

Lemma ex_flow_inv : flow_inv (label_of ex_state) ex_state.
Proof.
  apply flow_inv_intro.
  - apply list.Forall_forall. intros e He. apply elem_of_replicate_inv in He as ->. reflexivity.
  - unfold ex_state. cbn [ks_heap]. unfold ex_heap.
    repeat (apply map_Forall_insert_2; [cbn [body ex_thread ex_root ex_label_obj ex_tls ex_sub ex_secret]|]);
      [exact I|exact I|..|exact I|exact I|apply map_Forall_empty]; try exact I;
      (split; [apply mk_label_wf; [split; discriminate|repeat constructor; discriminate]
              |apply mk_label_small; vm_compute; reflexivity]).
  - unfold ex_state. cbn [ks_heap]. unfold ex_heap.
    repeat (apply map_Forall_insert_2; [repeat constructor; discriminate|]). apply map_Forall_empty.
Qed.

Lemma kobject_get_mediates_witness :
  exists k s', kobject_get 6 (Some kobj_container) iflow_rw ex_state = (Ok k, s') /\ flow_inv (label_of ex_state) s' /\
    exists ko, ks_heap ex_state !! k = Some ko /\ (ko_type (hdr ko) = kobj_label \/ iflow_ok (label_of ex_state) (hdr ex_thread) (hdr ko) iflow_rw).
Proof.
  destruct (kobject_get 6 (Some kobj_container) iflow_rw ex_state) as [[k|e|] s'] eqn:E;
    [|exfalso; vm_compute in E; discriminate E..].
  exists k, s'. split; [reflexivity|].
  destruct (kobject_get_mediates (label_of ex_state) ex_state s' 5 ex_thread 6 (Some kobj_container) iflow_rw k
    ex_state_inv ex_flow_inv eq_refl eq_refl E) as (_ & HF & ko & Hk & _ & _ & _ & _ & Hi).
  split; [exact HF|]. exists ko. split; [exact Hk|exact Hi].
Defined.

