(* ===== verification/KReach.v ===== *)
(** * Reachable states

    The invariant of [KInv] for address spaces, the scheduler and the system
    call switch, and for every state the kernel can reach by handling system
    calls, page faults and its own periodic work. *)

From S2P Require Import Prelude Label LabelOrder LabelCache Blowfish KState KThread KObj KOps KGc KSys KAs KSched KLogic KNoErr KInv KExample.
From stdpp Require Import options.

Set Default Goal Selector "!".

(** ** The operations of KAs and KSched *)

Lemma pres_page_is_shared X : Preserves (kinvL X) page_is_shared.
Proof.
  intros s r s' H _ HI. unfold page_is_shared in H.
  destruct (ks_mem s); injection H as <- <-; [done|]. by apply (kinvL_eq X s).
Qed.
#[export] Hint Resolve pres_page_is_shared : keeps.
Lemma pres_as_get_usegmap X a i rw : Preserves (kinvL X) (as_get_usegmap a i rw).
Proof. unfold as_get_usegmap. keeps. Qed.
#[export] Hint Resolve pres_as_get_usegmap : keeps.
Lemma pres_as_get_segmap X a i : Preserves (kinvL X) (as_get_segmap a i).
Proof. unfold as_get_segmap. keeps. Qed.
#[export] Hint Resolve pres_as_get_segmap : keeps.
Lemma pres_put_segmap X a i sm : Preserves (kinvL X) (put_segmap a i sm).
Proof. unfold put_segmap. keeps. Qed.
#[export] Hint Resolve pres_put_segmap : keeps.
Lemma pres_put_usegmap X a i u : Preserves (kinvL X) (put_usegmap a i u).
Proof. unfold put_usegmap. keeps. Qed.
#[export] Hint Resolve pres_put_usegmap : keeps.
Lemma pres_as_resize X a n : Preserves (kinvL X) (as_resize a n).
Proof. unfold as_resize. keeps. Qed.
#[export] Hint Resolve pres_as_resize : keeps.
Lemma pres_as_to_user_loop X a size l acc : Preserves (kinvL X) (as_to_user_loop a size l acc).
Proof. revert acc. induction l as [|i rest IH]; intros acc; cbn [as_to_user_loop]; keeps. Qed.
#[export] Hint Resolve pres_as_to_user_loop : keeps.
Lemma pres_as_to_user X a u : Preserves (kinvL X) (as_to_user a u).
Proof. unfold as_to_user. keeps. Qed.
#[export] Hint Resolve pres_as_to_user : keeps.
Lemma pres_as_from_user_loop X a u l : Preserves (kinvL X) (as_from_user_loop a u l).
Proof. induction l as [|i rest IH]; cbn [as_from_user_loop]; keeps. Qed.
#[export] Hint Resolve pres_as_from_user_loop : keeps.
Lemma pres_as_from_user X a u : Preserves (kinvL X) (as_from_user a u).
Proof. unfold as_from_user. keeps. Qed.
#[export] Hint Resolve pres_as_from_user : keeps.
Lemma pres_as_get_uslot X a u : Preserves (kinvL X) (as_get_uslot a u).
Proof. unfold as_get_uslot. keeps. Qed.
#[export] Hint Resolve pres_as_get_uslot : keeps.
Lemma pres_as_set_uslot X a u : Preserves (kinvL X) (as_set_uslot a u).
Proof. unfold as_set_uslot. keeps. Qed.
#[export] Hint Resolve pres_as_set_uslot : keeps.
Lemma pres_segment_get_page X sg n rw : Preserves (kinvL X) (segment_get_page sg n rw).
Proof. unfold segment_get_page. keeps. Qed.
#[export] Hint Resolve pres_segment_get_page : keeps.
Lemma pres_as_arch_putpage X a va p : Preserves (kinvL X) (as_arch_putpage a va p).
Proof. unfold as_arch_putpage. keeps. Qed.
#[export] Hint Resolve pres_as_arch_putpage : keeps.
Lemma pres_as_fill_pages X a ko usm need flags vas : Preserves (kinvL X) (as_fill_pages a ko usm need flags vas).
Proof. induction vas as [|va rest IH]; cbn [as_fill_pages]; keeps. Qed.
#[export] Hint Resolve pres_as_fill_pages : keeps.
Lemma pres_as_pmap_fill_kobj X a ko slot usm va flags : Preserves (kinvL X) (as_pmap_fill_kobj a ko slot usm va flags).
Proof. unfold as_pmap_fill_kobj. keeps. Qed.
#[export] Hint Resolve pres_as_pmap_fill_kobj : keeps.
Lemma pres_as_pmap_fill_loop X a va f l : Preserves (kinvL X) (as_pmap_fill_loop a va f l).
Proof. induction l as [|i rest IH]; cbn [as_pmap_fill_loop]; keeps. Qed.
#[export] Hint Resolve pres_as_pmap_fill_loop : keeps.
Lemma pres_as_pmap_fill X a va f : Preserves (kinvL X) (as_pmap_fill a va f).
Proof. unfold as_pmap_fill. keeps. Qed.
#[export] Hint Resolve pres_as_pmap_fill : keeps.
Lemma pres_as_pagefault X a va f : Preserves (kinvL X) (as_pagefault a va f).
Proof. unfold as_pagefault. keeps. Qed.
#[export] Hint Resolve pres_as_pagefault : keeps.
Lemma pres_as_switch_invalidate_loop X a b c l : Preserves (kinvL X) (as_switch_invalidate_loop a b c l).
Proof. induction l as [|i rest IH]; cbn [as_switch_invalidate_loop]; keeps. Qed.
#[export] Hint Resolve pres_as_switch_invalidate_loop : keeps.
Lemma pres_as_switch_invalidate X a b c : Preserves (kinvL X) (as_switch_invalidate a b c).
Proof. unfold as_switch_invalidate. keeps. Qed.
#[export] Hint Resolve pres_as_switch_invalidate : keeps.
Lemma pres_as_switch X oa : Preserves (kinvL X) (as_switch oa).
Proof. unfold as_switch. keeps. Qed.
#[export] Hint Resolve pres_as_switch : keeps.
Lemma pres_as_map_ro_sm X a s : Preserves (kinvL X) (as_map_ro_sm a s).
Proof. unfold as_map_ro_sm. keeps. Qed.
#[export] Hint Resolve pres_as_map_ro_sm : keeps.
Lemma pres_segment_map_ro_loop X l : Preserves (kinvL X) (segment_map_ro_loop l).
Proof. induction l as [|[a s] rest IH]; cbn [segment_map_ro_loop]; keeps. Qed.
#[export] Hint Resolve pres_segment_map_ro_loop : keeps.
Lemma pres_segment_map_ro X sg : Preserves (kinvL X) (segment_map_ro sg).
Proof. unfold segment_map_ro. keeps. Qed.
#[export] Hint Resolve pres_segment_map_ro : keeps.
Lemma pres_kobject_snapshot X ko b : Preserves (kinvL X) (kobject_snapshot ko b).
Proof. unfold kobject_snapshot. keeps. Qed.
#[export] Hint Resolve pres_kobject_snapshot : keeps.
Lemma pres_thread_load_as X t : Preserves (kinvL X) (thread_load_as t).
Proof. unfold thread_load_as. keeps. Qed.
#[export] Hint Resolve pres_thread_load_as : keeps.
Lemma pres_thread_switch X t : Preserves (kinvL X) (thread_switch t).
Proof. unfold thread_switch. keeps. Qed.
#[export] Hint Resolve pres_thread_switch : keeps.
Lemma pres_thread_pagefault X t va f : Preserves (kinvL X) (thread_pagefault t va f).
Proof. unfold thread_pagefault. keeps. Qed.
#[export] Hint Resolve pres_thread_pagefault : keeps.
Lemma pres_sys_as_get X a u : Preserves (kinvL X) (sys_as_get a u).
Proof. unfold sys_as_get. keeps. Qed.
#[export] Hint Resolve pres_sys_as_get : keeps.
Lemma pres_sys_as_set X a u : Preserves (kinvL X) (sys_as_set a u).
Proof. unfold sys_as_set. keeps. Qed.
#[export] Hint Resolve pres_sys_as_set : keeps.
Lemma pres_sys_as_get_slot X a u : Preserves (kinvL X) (sys_as_get_slot a u).
Proof. unfold sys_as_get_slot. keeps. Qed.
#[export] Hint Resolve pres_sys_as_get_slot : keeps.
Lemma pres_sys_as_set_slot X a u : Preserves (kinvL X) (sys_as_set_slot a u).
Proof. unfold sys_as_set_slot. keeps. Qed.
#[export] Hint Resolve pres_sys_as_set_slot : keeps.
Lemma pres_sync_wakeup_timer_loop X n l : Preserves (kinvL X) (sync_wakeup_timer_loop n l).
Proof. induction l as [|i rest IH]; cbn [sync_wakeup_timer_loop]; keeps. Qed.
#[export] Hint Resolve pres_sync_wakeup_timer_loop : keeps.
Lemma pres_sync_wakeup_timer X : Preserves (kinvL X) (sync_wakeup_timer).
Proof. unfold sync_wakeup_timer. keeps. Qed.
#[export] Hint Resolve pres_sync_wakeup_timer : keeps.
Lemma pres_sync_wakeup_addr_loop X fuel a b : Preserves (kinvL X) (sync_wakeup_addr_loop fuel a b).
Proof. induction fuel as [|fuel IH]; cbn [sync_wakeup_addr_loop]; keeps. Qed.
#[export] Hint Resolve pres_sync_wakeup_addr_loop : keeps.
Lemma pres_sync_wakeup_addr X i : Preserves (kinvL X) (sync_wakeup_addr i).
Proof. unfold sync_wakeup_addr. keeps. Qed.
#[export] Hint Resolve pres_sync_wakeup_addr : keeps.
Lemma pres_sync_waitslot_init X w i t : Preserves (kinvL X) (sync_waitslot_init w i t).
Proof. unfold sync_waitslot_init. keeps. Qed.
#[export] Hint Resolve pres_sync_waitslot_init : keeps.
Lemma pres_sync_wait_init X t i l : Preserves (kinvL X) (sync_wait_init t i l).
Proof. revert i. induction l as [|w rest IH]; intros i; cbn [sync_wait_init]; keeps. Qed.
#[export] Hint Resolve pres_sync_wait_init : keeps.
Lemma pres_sync_wait_link X t l : Preserves (kinvL X) (sync_wait_link t l).
Proof. induction l as [|i rest IH]; cbn [sync_wait_link]; keeps. Qed.
#[export] Hint Resolve pres_sync_wait_link : keeps.
Lemma pres_sync_wait X l n : Preserves (kinvL X) (sync_wait l n).
Proof. unfold sync_wait. keeps. Qed.
#[export] Hint Resolve pres_sync_wait : keeps.
Lemma pres_thread_passes X l : Preserves (kinvL X) (thread_passes l).
Proof. induction l as [|i rest IH]; cbn [thread_passes]; keeps. Qed.
#[export] Hint Resolve pres_thread_passes : keeps.
Lemma pres_schedule_loop X fuel : Preserves (kinvL X) (schedule_loop fuel).
Proof. induction fuel as [|fuel IH]; cbn [schedule_loop]; keeps. Qed.
#[export] Hint Resolve pres_schedule_loop : keeps.
Lemma pres_schedule X p : Preserves (kinvL X) p -> Preserves (kinvL X) (schedule p).
Proof. intros Hp. unfold schedule. keeps. Qed.
#[export] Hint Resolve pres_schedule : keeps.
Lemma pres_to_user X {A} (m : M A) : Preserves (kinvL X) m -> Preserves (kinvL X) (to_user m).
Proof. intros Hp. unfold to_user. keeps. Qed.
#[export] Hint Resolve pres_to_user : keeps.
Lemma pres_periodic_gc X b : Preserves (kinvL X) (periodic_gc b).
Proof. unfold periodic_gc. keeps. Qed.
#[export] Hint Resolve pres_periodic_gc : keeps.
Lemma pres_sys_sync_wait X w n : Preserves (kinvL X) (sys_sync_wait w n).
Proof. unfold sys_sync_wait. keeps. Qed.
#[export] Hint Resolve pres_sys_sync_wait : keeps.
Lemma pres_sys_sync_wait_multi X ws num n : Preserves (kinvL X) (sys_sync_wait_multi ws num n).
Proof. unfold sys_sync_wait_multi. keeps. Qed.
#[export] Hint Resolve pres_sys_sync_wait_multi : keeps.
Lemma pres_sys_sync_wakeup X a i : Preserves (kinvL X) (sys_sync_wakeup a i).
Proof. unfold sys_sync_wakeup. keeps. Qed.
#[export] Hint Resolve pres_sys_sync_wakeup : keeps.
Lemma pres_sys_clock_nsec X : Preserves (kinvL X) (sys_clock_nsec).
Proof. unfold sys_clock_nsec. keeps. Qed.
#[export] Hint Resolve pres_sys_clock_nsec : keeps.
Lemma pres_sys_self_yield X b : Preserves (kinvL X) (sys_self_yield (periodic_gc b)).
Proof. unfold sys_self_yield. keeps. Qed.
#[export] Hint Resolve pres_sys_self_yield : keeps.

Lemma pres_syscall_dispatch X l c sc : Preserves (kinvL X) (syscall_dispatch l c sc).
Proof. destruct sc; cbn [syscall_dispatch]; auto 3 with keeps nocore. Qed.
#[export] Hint Resolve pres_syscall_dispatch : keeps.

Lemma pres_kern_syscall X sc : Preserves (kinvL X) (kern_syscall sc).
Proof. unfold kern_syscall, syscall_exec. keeps. Qed.
#[export] Hint Resolve pres_kern_syscall : keeps.

(** ** Steps of the kernel

    Whatever the outcome, short of a panic: a system call of the running
    thread, a page fault, a timer interrupt that reschedules, the garbage
    collector, reclaiming memory, writing out an object. *)
Inductive kstep : kstate -> kstate -> Prop :=
| step_syscall sc r s s' : kern_syscall sc s = (r, s') -> r <> Panic -> kstep s s'
| step_pagefault t va f r s s' : thread_pagefault t va f s = (r, s') -> r <> Panic -> kstep s s'
| step_schedule gc r s s' : schedule (periodic_gc gc) s = (r, s') -> r <> Panic -> kstep s s'
| step_switch t r s s' : thread_switch t s = (r, s') -> r <> Panic -> kstep s s'
| step_gc r s s' : kobject_gc_scan s = (r, s') -> r <> Panic -> kstep s s'
| step_reclaim r s s' : kobject_reclaim s = (r, s') -> r <> Panic -> kstep s s'
| step_snapshot ko share r s s' : kobject_snapshot ko share s = (r, s') -> r <> Panic -> kstep s s'
| step_snapshot_release ko r s s' : kobject_snapshot_release ko s = (r, s') -> r <> Panic -> kstep s s'
| step_clock n tsc mem s : kstep s (set_ks_now n (set_ks_tsc tsc (set_ks_mem mem s))).

Lemma kstep_inv s s' : kstep s s' -> kinv s -> kinv s'.
Proof.
  unfold kinv. intros [] HI.
  - by eapply pres_kern_syscall.
  - by eapply pres_thread_pagefault.
  - by eapply pres_schedule; [apply pres_periodic_gc|..].
  - by eapply pres_thread_switch.
  - by eapply pres_kobject_gc_scan.
  - by eapply pres_kobject_reclaim.
  - by eapply pres_kobject_snapshot.
  - by eapply pres_kobject_snapshot_release.
  - by eapply (kinvL_eq [] s0).
Qed.

(** C2: in every state the kernel reaches by system calls, page faults,
    scheduling, garbage collection and reclaiming, whether the calls succeed or
    fail, each object is filed under its identifier, its type tag agrees with
    its body unless the object is marked dead, and the garbage list holds only
    objects that are in memory, once each, with no reference and no pin. *)
Theorem reachable_invariant s s' : kinv s -> rtc kstep s s' -> kinv s'.
Proof. intros HI H. induction H as [|s1 s2 s3 Hs _ IH]; [done|]. apply IH. by eapply kstep_inv. Qed.

Definition ex_calls : M Z :=
  kern_syscall (SYS_segment_create 13 5000 UNull UNull).

Lemma reachable_invariant_witness :
  kinv (ex_calls ex_state).2 /\ kinv (kobject_gc_scan (ex_calls ex_state).2).2.
Proof.
  assert (H1 : kstep ex_state (ex_calls ex_state).2).
  { apply (step_syscall (SYS_segment_create 13 5000 UNull UNull) (ex_calls ex_state).1).
    - apply surjective_pairing.
    - vm_compute. discriminate. }
  split.
  - apply (reachable_invariant ex_state); [exact ex_state_inv|]. by apply rtc_once.
  - apply (reachable_invariant ex_state); [exact ex_state_inv|]. eapply rtc_l; [exact H1|]. apply rtc_once.
    apply (step_gc (kobject_gc_scan (ex_calls ex_state).2).1).
    + apply surjective_pairing.
    + vm_compute. discriminate.
Defined.

(** What the invariant gives to the code: an object found by [kobject_get] as
    a container, a segment, a gate, ... can be used as one. *)
Lemma kobject_type_body X s id ko :
  kinvL X s -> ks_heap s !! id = Some ko -> ko_type (hdr ko) <> kobj_dead ->
  body_type (body ko) = ko_type (hdr ko).
Proof. intros HI Hk Hd. destruct (inv_obj _ _ HI id ko Hk) as [_ [->|?]]; done. Qed.
