(* ===== verification/KEvolve.v ===== *)
(** * How objects evolve

    The labels of an object, the content of a label or a gate, and the
    permanent flags are fixed when the object is created.  The relation [ev]
    between two states says so, with three lists of exceptions: objects under
    construction, objects whose pages may change size, and objects whose
    labels may change (with [a], every thread).  Every operation that runs in a system call keeps it. *)

From S2P Require Import Prelude Label LabelOrder LabelCache Blowfish KState KThread KObj KOps KGc KSys KAs KSched KLogic KNoErr KInv KExample KFlow KReach.
From stdpp Require Import options.

Set Default Goal Selector "!".

(** ** The relation *)

(** The bodies that never change: labels and gates. *)
Definition fixed_body (ko : kobject) : option ko_body_t :=
  match ko_type (hdr ko), body ko with
  | kobj_label, BLabel l => Some (BLabel l)
  | kobj_gate, BGate g => Some (BGate g)
  | _, _ => None
  end.

Record obj_ev (a : bool) (b l : Prop) (ko ko' : kobject) : Prop := {
  oe_type : ko_type (hdr ko') = ko_type (hdr ko);
  oe_label : ~ l -> (a = true -> ko_type (hdr ko) <> kobj_thread) -> ko_label (hdr ko') = ko_label (hdr ko);
  oe_body : ~ b -> forall x, fixed_body ko = Some x -> body ko' = x;
  oe_nbytes : ~ b -> is_Some (fixed_body ko) -> ko_nbytes (hdr ko') = ko_nbytes (hdr ko);
  oe_ro : has_flag (hdr ko) KOBJ_READONLY = true -> has_flag (hdr ko') KOBJ_READONLY = true;
  oe_fq : has_flag (hdr ko) KOBJ_FIXED_QUOTA = true -> has_flag (hdr ko') KOBJ_FIXED_QUOTA = true
}.

(** [N]: under construction, [B]: the body may change, [L]: the labels may
    change.  The running thread is the same, or there is none any more. *)
Definition ev (a : bool) (N B L : list Z) (s s' : kstate) : Prop :=
  (ks_cur s' = ks_cur s \/ ks_cur s' = None) /\
  forall id ko, ks_heap s !! id = Some ko -> id ∉ N ->
    exists ko', ks_heap s' !! id = Some ko' /\ obj_ev a (id ∈ B) (id ∈ L) ko ko'.

Lemma obj_ev_refl a b l ko : obj_ev a b l ko ko.
Proof.
  constructor; [done..| |done|done|done].
  intros _ x. unfold fixed_body. destruct (ko_type (hdr ko)), (body ko); intros; by simplify_eq.
Qed.

Lemma fixed_body_eq ko ko' x :
  ko_type (hdr ko') = ko_type (hdr ko) -> fixed_body ko = Some x -> body ko' = x -> fixed_body ko' = Some x.
Proof. unfold fixed_body. intros -> H ->. destruct (ko_type (hdr ko)), (body ko); by simplify_eq. Qed.

Lemma obj_ev_trans a b l ko1 ko2 ko3 : obj_ev a b l ko1 ko2 -> obj_ev a b l ko2 ko3 -> obj_ev a b l ko1 ko3.
Proof.
  intros [T1 L1 B1 N1 R1 F1] [T2 L2 B2 N2 R2 F2]. constructor; [congruence| | | |auto|auto].
  - intros Hl Ha. rewrite L2, L1; [done..|]. by rewrite T1.
  - intros Hb x Hx. eapply B2; [done|]. eapply fixed_body_eq; [done|done|]. by apply B1.
  - intros Hb [x Hx]. rewrite N2, N1; [done..|by exists x|done|]. exists x. eapply fixed_body_eq; [done|done|]. by apply B1.
Qed.

#[export] Instance ev_preorder a N B L : PreOrder (ev a N B L).
Proof.
  split.
  - intros s. split; [by left|]. intros id ko Hk _. exists ko. split; [done|apply obj_ev_refl].
  - intros s1 s2 s3 [C1 H1] [C2 H2]. split; [destruct C1, C2; (left; congruence) || (right; congruence)|].
    intros id ko Hk Hn. destruct (H1 id ko Hk Hn) as (k2 & Hk2 & E2).
    destruct (H2 id k2 Hk2 Hn) as (k3 & Hk3 & E3). exists k3. split; [done|]. by eapply obj_ev_trans.
Qed.

(** More exceptions, less said. *)
Lemma ev_mono a N B L N' B' L' s s' :
  N ⊆ N' -> B ⊆ B' -> L ⊆ L' -> ev a N B L s s' -> ev a N' B' L' s s'.
Proof.
  intros HN HB HL [C H]. split; [done|]. intros id ko Hk Hn. destruct (H id ko Hk) as (k & Hk' & [T Lb Bd Nb R F]); [set_solver|].
  exists k. split; [done|]. constructor; [done| | | |done|done].
  - intros Hl. apply Lb. set_solver.
  - intros Hb. apply Bd. set_solver.
  - intros Hb. apply Nb. set_solver.
Qed.

(** An object made on the way was not there at the start. *)
Lemma ev_fresh a N B L x s s1 s2 :
  ks_heap s !! x = None -> ev a N B L s s1 -> ev a (x :: N) B L s1 s2 -> ev a N B L s s2.
Proof.
  intros Hx [C1 H1] [C2 H2]. split; [destruct C1, C2; (left; congruence) || (right; congruence)|].
  intros id ko Hk Hn. destruct (H1 id ko Hk Hn) as (k1 & Hk1 & E1).
  destruct (H2 id k1 Hk1) as (k2 & Hk2 & E2); [set_solver|].
  exists k2. split; [done|]. by eapply obj_ev_trans.
Qed.

(** ** Flags *)

Lemma has_flag_add f g h : has_flag h g = true -> has_flag (add_flag f h) g = true.
Proof.
  unfold has_flag, add_flag. simpl. rewrite !negb_true_iff, !Z.eqb_neq, Z.land_lor_distr_l, Z.lor_eq_0_iff. tauto.
Qed.

Lemma has_flag_del f g h : Z.land (Z.lnot f) g = g -> has_flag (del_flag f h) g = has_flag h g.
Proof. unfold has_flag, del_flag. simpl. intros Hf. by rewrite <- Z.land_assoc, Hf. Qed.

(** ** Updates *)

Lemma ev_upd_ko a N B L id f :
  (forall ko, id ∉ N -> obj_ev a (id ∈ B) (id ∈ L) ko (f ko)) -> Keeps (ev a N B L) (upd_ko id f).
Proof.
  intros Hf. apply keeps_upd_ko; [apply _|]. intros s ko Hk. split; [by left|]. intros i k Hi Hn. simpl.
  destruct (decide (i = id)) as [->|Hne].
  - rewrite lookup_insert_eq. rewrite Hk in Hi. injection Hi as <-. eauto.
  - rewrite lookup_insert_ne by done. exists k. split; [done|apply obj_ev_refl].
Qed.

Lemma ev_upd_hdr a N B L id f :
  (forall h, ko_type (f h) = ko_type h /\ (id ∈ N \/ id ∈ L \/ ko_label (f h) = ko_label h) /\
             (id ∈ N \/ id ∈ B \/ ko_nbytes (f h) = ko_nbytes h) /\
             (has_flag h KOBJ_READONLY = true -> has_flag (f h) KOBJ_READONLY = true) /\
             (has_flag h KOBJ_FIXED_QUOTA = true -> has_flag (f h) KOBJ_FIXED_QUOTA = true)) ->
  Keeps (ev a N B L) (upd_hdr id f).
Proof.
  intros Hf. apply ev_upd_ko. intros ko Hn. destruct (Hf (hdr ko)) as (Ht & Hl & Hnb & Hr & Hq).
  constructor; simpl; [done| | | |done|done].
  - intros ? _. destruct Hl as [?|[?|?]]; done.
  - intros _ x. unfold fixed_body. destruct (ko_type (hdr ko)), (body ko); intros; by simplify_eq.
  - intros ? _. destruct Hnb as [?|[?|?]]; done.
Qed.

Lemma ev_modify a N B L f : (forall s, ks_heap (f s) = ks_heap s /\ (ks_cur (f s) = ks_cur s \/ ks_cur (f s) = None)) -> Keeps (ev a N B L) (modify f).
Proof.
  intros Hf. apply keeps_modify; [apply _|]. intros s. destruct (Hf s) as [Hh Hc]. split; [done|]. intros id ko Hk _. rewrite Hh.
  exists ko. split; [done|apply obj_ev_refl].
Qed.

Lemma ev_next_page a N B L : Keeps (ev a N B L) next_page.
Proof. apply keeps_next_page; [apply _|]. intros s m. split; [by left|]. intros id ko Hk _. exists ko. split; [done|apply obj_ev_refl]. Qed.

Lemma ev_tsc a N B L : Keeps (ev a N B L) karch_get_tsc.
Proof. apply keeps_tsc; [apply _|]. intros s m. split; [by left|]. intros id ko Hk _. exists ko. split; [done|apply obj_ev_refl]. Qed.

(** Writing back a body that was read; [d]: the body is no label and no gate. *)
Lemma ev_upd_body {C} a N B L id (get : Z -> M C) (inj : C -> ko_body_t) (f : C -> C) :
  (forall s b s', get id s = (Ok b, s') -> exists ko, ks_heap s !! id = Some ko /\ body ko = inj b /\ s' = s) ->
  (id ∈ N \/ id ∈ B \/ forall h b lc sn, fixed_body (mkKobject h (inj b) lc sn) = None) ->
  Keeps (ev a N B L) (get id) ->
  Keeps (ev a N B L) (b ← get id; put_body id (inj (f b))).
Proof.
  intros Hget Hd Hk s r s' [(b & s1 & H1 & H2)|[(e & H & ->)|[H ->]]]%bind_run Hp; [| |done].
  - destruct (Hget s b s1 H1) as (ko & Hko & Hb & ->).
    unfold put_body in H2. apply upd_ko_run in H2 as (ko' & Hko' & _ & ->); [|done].
    rewrite Hko in Hko'. injection Hko' as <-. split; [by left|]. intros i k Hi Hn. simpl.
    destruct (decide (i = id)) as [->|Hne].
    + rewrite lookup_insert_eq. rewrite Hko in Hi. injection Hi as <-. eexists. split; [done|].
      constructor; simpl; [done..| |done|done|done]. intros HB x Hx. exfalso.
      destruct Hd as [?|[?|Hd]]; [done..|]. destruct ko as [h bd lc sn]. simpl in Hb. subst bd. by rewrite Hd in Hx.
    + rewrite lookup_insert_ne by done. exists k. split; [done|apply obj_ev_refl].
  - by eapply Hk.
Qed.

Ltac ev_body_tac :=
  apply ev_upd_body;
  [intros s b s' H; apply bind_ok in H as (ko & s1 & [H ->]%get_ko_ok & Hr);
   exists ko; destruct (body ko); unfold panic, mret, M_ret in Hr; simplify_eq; done
  |first [tauto | (right; right; intros h b lc sn; unfold fixed_body; cbn [body hdr]; by destruct (ko_type h))]|keeps].

Lemma ev_upd_thread a N B L id f : Keeps (ev a N B L) (upd_thread id f).
Proof. unfold upd_thread. ev_body_tac. Qed.
Lemma ev_upd_label a N B L id f : id ∈ N \/ id ∈ B -> Keeps (ev a N B L) (upd_label id f).
Proof. intros Hm. unfold upd_label. ev_body_tac. Qed.
Lemma ev_upd_container a N B L id f : Keeps (ev a N B L) (upd_container id f).
Proof. unfold upd_container. ev_body_tac. Qed.
Lemma ev_upd_segment a N B L id f : Keeps (ev a N B L) (upd_segment id f).
Proof. unfold upd_segment. ev_body_tac. Qed.
Lemma ev_upd_as a N B L id f : Keeps (ev a N B L) (upd_as id f).
Proof. unfold upd_as. ev_body_tac. Qed.
Lemma ev_upd_gate a N B L id f : id ∈ N \/ id ∈ B -> Keeps (ev a N B L) (upd_gate id f).
Proof. intros Hm. unfold upd_gate. ev_body_tac. Qed.

(** Membership in a literal list. *)
Ltac mem_tac := solve [assumption | repeat first [assumption | apply list_elem_of_here | apply list_elem_of_further]].
Ltac or_mem_tac :=
  solve [ assumption | left; or_mem_tac | right; or_mem_tac | mem_tac
        | match goal with H : ?x ∈ _ \/ ?x ∈ _ |- ?x ∈ _ \/ _ => destruct H; or_mem_tac end ].

Ltac ev_benign_tac :=
  first [ apply ev_upd_hdr; intros ?; split_and!;
          [done | first [(right; right; done) | tauto | or_mem_tac] | first [(right; right; done) | tauto | or_mem_tac] | (done || by apply has_flag_add || by rewrite has_flag_del)..]
        | apply ev_modify; intros ?; split; [done|first [by left | by right]] ].

#[export] Hint Resolve ev_next_page ev_tsc ev_upd_thread ev_upd_container ev_upd_segment ev_upd_as : keeps.
#[export] Hint Resolve ev_upd_label ev_upd_gate : keeps.
#[export] Hint Extern 3 (Keeps (ev _ _ _ _) (upd_hdr _ _)) => ev_benign_tac : keeps.
#[export] Hint Extern 3 (Keeps (ev _ _ _ _) (modify _)) => ev_benign_tac : keeps.
#[export] Hint Extern 1 (_ ∈ _ \/ _ ∈ _) => or_mem_tac : keeps.

(** An object just made is exempt in what follows. *)
Definition Fresh (m : M Z) : Prop := forall s x s', m s = (Ok x, s') -> ks_heap s !! x = None.

Lemma keeps_fresh {A} a N B L (m : M Z) (f : Z -> M A) :
  Fresh m -> Keeps (ev a N B L) m -> (forall x, Keeps (ev a (x :: N) B L) (f x)) -> Keeps (ev a N B L) (m ≫= f).
Proof.
  intros HF Hm Hf s r s' [(x & s1 & H1 & H2)|[(e & H & ->)|[H ->]]]%bind_run Hp; [| |done].
  - eapply ev_fresh; [by eapply HF|by eapply Hm|by eapply Hf].
  - by eapply Hm.
Qed.

Lemma fresh_bind (m : M Z) (f : Z -> M Z) :
  Fresh m -> (forall x s y s', f x s = (Ok y, s') -> y = x) -> Fresh (m ≫= f).
Proof. intros Hm Hf s y s' (x & s1 & H1 & H2)%bind_ok. apply Hf in H2 as ->. by eapply Hm. Qed.

(** An object known to be of another kind may change its body. *)
Lemma ev_other a N B L x ko s s1 s2 :
  ks_heap s1 !! x = Some ko -> fixed_body ko = None ->
  ev a N B L s s1 -> ev a N (x :: B) L s1 s2 -> ev a N B L s s2.
Proof.
  intros Hx Hf [C1 H1] [C2 H2]. split; [destruct C1, C2; (left; congruence) || (right; congruence)|].
  intros id k Hk Hn. destruct (H1 id k Hk Hn) as (k1 & Hk1 & E1).
  destruct (H2 id k1 Hk1 Hn) as (k2 & Hk2 & [T Lb Bd Nb R F]).
  exists k2. split; [done|]. eapply obj_ev_trans; [done|]. constructor; [done|done| | |done|done].
  - intros HB y Hy. destruct (decide (id = x)) as [->|]; [congruence|]. apply Bd; [set_solver|done].
  - intros HB [y Hy]. destruct (decide (id = x)) as [->|]; [congruence|]. apply Nb; [set_solver|by exists y].
Qed.

(** Likewise for its labels, once they are not protected. *)
Lemma keeps_other {A C} a N B L (m : M A) (id : A -> Z) (f : A -> M C) :
  (forall s y s', m s = (Ok y, s') -> exists ko, ks_heap s' !! id y = Some ko /\ fixed_body ko = None) ->
  Keeps (ev a N B L) m -> (forall y, Keeps (ev a N (id y :: B) L) (f y)) -> Keeps (ev a N B L) (m ≫= f).
Proof.
  intros HF Hm Hf s r s' [(x & s1 & H1 & H2)|[(e & H & ->)|[H ->]]]%bind_run Hp; [| |done].
  - destruct (HF _ _ _ H1) as (ko & Hk & Hb). eapply ev_other; [done|done|by eapply Hm|by eapply Hf].
  - by eapply Hm.
Qed.

Lemma keeps_with_container {A} a N B L c (f : Container -> M A) :
  (forall ct, Keeps (ev a N (c :: B) L) (f ct)) -> Keeps (ev a N B L) (get_container c ≫= f).
Proof.
  intros Hf. apply (keeps_other a N B L _ (fun _ => c)); [|keeps|done].
  intros s y s' (ko & s1 & [H ->]%get_ko_ok & Hr)%bind_ok. exists ko.
  unfold fixed_body. destruct (body ko) eqn:E; try discriminate. injection Hr as <- <-. by destruct (ko_type (hdr ko)).
Qed.

Lemma keeps_with_thread {A} a N B L t (f : Thread -> M A) :
  (forall th, Keeps (ev a N (t :: B) L) (f th)) -> Keeps (ev a N B L) (get_thread t ≫= f).
Proof.
  intros Hf. apply (keeps_other a N B L _ (fun _ => t)); [|keeps|done].
  intros s y s' (ko & s1 & [H ->]%get_ko_ok & Hr)%bind_ok. exists ko.
  unfold fixed_body. destruct (body ko) eqn:E; try discriminate. injection Hr as <- <-. by destruct (ko_type (hdr ko)).
Qed.

Lemma ev_upd_meta a N B L id f :
  (forall ko, hdr (f ko) = hdr ko /\ body (f ko) = body ko) -> Keeps (ev a N B L) (upd_ko id f).
Proof.
  intros Hf. apply ev_upd_ko. intros ko _. destruct (Hf ko) as [Hh Hb]. constructor; rewrite ?Hh, ?Hb; [done..| |done|done|done].
  intros _ x. apply (oe_body _ _ _ _ _ (obj_ev_refl a False False ko)). tauto.
Qed.

Lemma ev_set_body a N B L id f :
  id ∈ N \/ id ∈ B -> Keeps (ev a N B L) (upd_ko id (fun ko => set_body (f ko) ko)).
Proof. intros [?|?]; apply ev_upd_ko; intros ko Hn; constructor; done. Qed.

#[export] Hint Resolve ev_set_body : keeps.
#[export] Hint Extern 3 (Keeps (ev _ _ _ _) (upd_ko _ _)) => apply ev_upd_meta; intros ?; done : keeps.

Lemma ev_put_ko a N B L id o : id ∈ N -> Keeps (ev a N B L) (put_ko id o).
Proof.
  intros Hm. apply keeps_modify; [apply _|]. intros s. split; [by left|]. intros i k Hi Hn. simpl.
  rewrite lookup_insert_ne by (intros ->; done). exists k. split; [done|apply obj_ev_refl].
Qed.

Lemma ev_page_free_ko a N B L id : id ∈ N -> Keeps (ev a N B L) (page_free_ko id).
Proof.
  intros Hm. apply keeps_modify; [apply _|]. intros s. split; [by left|]. intros i k Hi Hn. simpl.
  rewrite lookup_delete_ne by (intros ->; done). exists k. split; [done|apply obj_ev_refl].
Qed.

#[export] Hint Resolve ev_put_ko ev_page_free_ko : keeps.
#[export] Hint Extern 1 (_ ∈ _) => mem_tac : keeps.

(** A body of another kind is replaced. *)
Lemma ev_put_other a N B L s id ko b :
  ks_heap s !! id = Some ko -> fixed_body ko = None ->
  ev a N B L s (set_ks_heap (<[id := set_body b ko]> (ks_heap s)) s).
Proof.
  intros Hk Hf. split; [by left|]. intros i k Hi Hn. simpl. destruct (decide (i = id)) as [->|Hne].
  - rewrite lookup_insert_eq. rewrite Hk in Hi. injection Hi as <-. eexists. split; [done|].
    constructor; [done..| |done|done|done]. intros _ x Hx. congruence.
  - rewrite lookup_insert_ne by done. exists k. split; [done|apply obj_ev_refl].
Qed.

Create HintDb fresh discriminated.

Lemma fresh_panic : Fresh panic.
Proof. intros s x s' H. discriminate H. Qed.
#[export] Hint Resolve fresh_panic : fresh.
#[export] Hint Extern 1 (Fresh (match ?x with _ => _ end)) => destruct x : fresh.

(** The object is made, worked on and returned. *)
Ltac fresh_tac :=
  apply fresh_bind; [auto with fresh|];
  let H := fresh in intros ? ? ? ? H;
  repeat (apply bind_ok in H as (? & ? & _ & H)); unfold mret, M_ret in H; by simplify_eq.

(** As [keeps], with the objects made on the way exempt. *)
Ltac kfresh :=
  repeat first [ apply keeps_fresh; [solve [auto 3 with fresh nocore] | solve [keeps] | intros ?]
               | keeps_step | solve [auto 2 with keeps nocore] | progress cbv zeta ].

(** ** The operations *)

Lemma ev_gc_insert a N B L id : Keeps (ev a N B L) (gc_insert id).
Proof. unfold gc_insert. keeps. Qed.
Lemma ev_gc_remove a N B L id : Keeps (ev a N B L) (gc_remove id).
Proof. unfold gc_remove. keeps. Qed.
#[export] Hint Resolve ev_gc_insert ev_gc_remove : keeps.

Lemma keeps_run (R : kstate -> kstate -> Prop) {A} (m : M A) s r s' :
  m s = (r, s') -> Keeps R m -> r <> Panic -> R s s'.
Proof. intros H Hk Hp. by eapply Hk. Qed.

Lemma ev_pin a N B L id : Keeps (ev a N B L) (kobject_pin_hdr id).
Proof. unfold kobject_pin_hdr. keeps. Qed.
#[export] Hint Resolve ev_pin : keeps.
Lemma ev_unpin a N B L id : Keeps (ev a N B L) (kobject_unpin_hdr id).
Proof. unfold kobject_unpin_hdr. keeps. Qed.
#[export] Hint Resolve ev_unpin : keeps.
Lemma ev_kobject_dirty a N B L id : Keeps (ev a N B L) (kobject_dirty id).
Proof. unfold kobject_dirty. keeps. Qed.
#[export] Hint Resolve ev_kobject_dirty : keeps.
Lemma ev_kobject_pin_page a N B L id : Keeps (ev a N B L) (kobject_pin_page id).
Proof. unfold kobject_pin_page. keeps. Qed.
#[export] Hint Resolve ev_kobject_pin_page : keeps.
Lemma ev_kobject_unpin_page a N B L id : Keeps (ev a N B L) (kobject_unpin_page id).
Proof. unfold kobject_unpin_page. keeps. Qed.
#[export] Hint Resolve ev_kobject_unpin_page : keeps.
Lemma ev_global_pass_update a N B L p : Keeps (ev a N B L) (global_pass_update p).
Proof. unfold global_pass_update. keeps. Qed.
#[export] Hint Resolve ev_global_pass_update : keeps.
Lemma ev_sched_join a N B L t : Keeps (ev a N B L) (sched_join t).
Proof. unfold sched_join. keeps. Qed.
#[export] Hint Resolve ev_sched_join : keeps.
Lemma ev_sched_leave a N B L t : Keeps (ev a N B L) (sched_leave t).
Proof. unfold sched_leave. keeps. Qed.
#[export] Hint Resolve ev_sched_leave : keeps.
Lemma ev_sched_stop a N B L t e : Keeps (ev a N B L) (sched_stop t e).
Proof. unfold sched_stop. keeps. Qed.
#[export] Hint Resolve ev_sched_stop : keeps.
Lemma ev_sync_remove_slots a N B L t slots : Keeps (ev a N B L) (sync_remove_slots t slots).
Proof. revert t. induction slots as [|i rest IH]; intros t; cbn [sync_remove_slots]; keeps. Qed.
#[export] Hint Resolve ev_sync_remove_slots : keeps.
Lemma ev_sync_remove_thread a N B L t : Keeps (ev a N B L) (sync_remove_thread t).
Proof. unfold sync_remove_thread. keeps. Qed.
#[export] Hint Resolve ev_sync_remove_thread : keeps.
Lemma ev_thread_pin a N B L t : Keeps (ev a N B L) (thread_pin t).
Proof. unfold thread_pin. keeps. Qed.
#[export] Hint Resolve ev_thread_pin : keeps.
Lemma ev_thread_unpin a N B L t : Keeps (ev a N B L) (thread_unpin t).
Proof. unfold thread_unpin. keeps. Qed.
#[export] Hint Resolve ev_thread_unpin : keeps.
Lemma ev_thread_unlink a N B L t : Keeps (ev a N B L) (thread_unlink t).
Proof. unfold thread_unlink. keeps. Qed.
#[export] Hint Resolve ev_thread_unlink : keeps.
Lemma ev_thread_link a N B L t q : Keeps (ev a N B L) (thread_link t q).
Proof. unfold thread_link. keeps. Qed.
#[export] Hint Resolve ev_thread_link : keeps.
Lemma ev_thread_sched_adjust a N B L t b : Keeps (ev a N B L) (thread_sched_adjust t b).
Proof. unfold thread_sched_adjust. keeps. Qed.
#[export] Hint Resolve ev_thread_sched_adjust : keeps.
Lemma ev_thread_set_runnable a N B L t : Keeps (ev a N B L) (thread_set_runnable t).
Proof. unfold thread_set_runnable. keeps. Qed.
#[export] Hint Resolve ev_thread_set_runnable : keeps.
Lemma ev_thread_suspend a N B L t q : Keeps (ev a N B L) (thread_suspend t q).
Proof. unfold thread_suspend. keeps. Qed.
#[export] Hint Resolve ev_thread_suspend : keeps.
Lemma ev_thread_halt a N B L t : Keeps (ev a N B L) (thread_halt t).
Proof. unfold thread_halt. keeps. Qed.
#[export] Hint Resolve ev_thread_halt : keeps.
Lemma ev_thread_swapin a N B L t : Keeps (ev a N B L) (thread_swapin t).
Proof. unfold thread_swapin. keeps. Qed.
#[export] Hint Resolve ev_thread_swapin : keeps.
Lemma ev_thread_clear_as a N B L t : Keeps (ev a N B L) (thread_clear_as t).
Proof. unfold thread_clear_as. keeps. Qed.
#[export] Hint Resolve ev_thread_clear_as : keeps.
Lemma ev_thread_change_as a N B L t a' : Keeps (ev a N B L) (thread_change_as t a').
Proof. unfold thread_change_as. keeps. Qed.
#[export] Hint Resolve ev_thread_change_as : keeps.
Lemma ev_thread_suspend_cur a N B L q : Keeps (ev a N B L) (thread_suspend_cur q).
Proof. unfold thread_suspend_cur. keeps. Qed.
#[export] Hint Resolve ev_thread_suspend_cur : keeps.
Lemma ev_kobject_negative_insert a N B L id : Keeps (ev a N B L) (kobject_negative_insert id).
Proof. apply ev_modify. intros s. destruct (neg_bucket s id). split; [done|by left]. Qed.
#[export] Hint Resolve ev_kobject_negative_insert : keeps.
Lemma ev_kobject_negative_remove a N B L id : Keeps (ev a N B L) (kobject_negative_remove id).
Proof. apply ev_modify. intros s. destruct (neg_bucket s id). split; [done|by left]. Qed.
#[export] Hint Resolve ev_kobject_negative_remove : keeps.
Lemma ev_kobject_negative_contains a N B L id : Keeps (ev a N B L) (kobject_negative_contains id).
Proof. unfold kobject_negative_contains. keeps. Qed.
#[export] Hint Resolve ev_kobject_negative_contains : keeps.
Lemma ev_pstate_op_schedule a N B L p a' : Keeps (ev a N B L) (pstate_op_schedule p a').
Proof. unfold pstate_op_schedule. keeps. Qed.
#[export] Hint Resolve ev_pstate_op_schedule : keeps.
Lemma ev_pstate_swapin a N B L {A} id : Keeps (ev a N B L) (@pstate_swapin A id).
Proof. unfold pstate_swapin. keeps. Qed.
#[export] Hint Resolve ev_pstate_swapin : keeps.

Lemma ev_page_alloc a N B L : Keeps (ev a N B L) page_alloc.
Proof. unfold page_alloc, pstate_sync, pstate_sync_schedule. keeps. Qed.
#[export] Hint Resolve ev_page_alloc : keeps.
Lemma ev_kobject_qres_take a N B L qr ko : Keeps (ev a N B L) (kobject_qres_take qr ko).
Proof. unfold kobject_qres_take. keeps. Qed.
#[export] Hint Resolve ev_kobject_qres_take : keeps.
Lemma ev_kobject_incref_resv a N B L ko qr : Keeps (ev a N B L) (kobject_incref_resv ko qr).
Proof. unfold kobject_incref_resv. keeps. Qed.
#[export] Hint Resolve ev_kobject_incref_resv : keeps.
Lemma ev_kobject_get_with a N B L check id type :
  (forall ko, Keeps (ev a N B L) (check ko)) -> Keeps (ev a N B L) (kobject_get_with check id type).
Proof. 
  intros Hc. unfold kobject_get_with, kobject_translate_id, kobject_incore. keeps.

 Qed.
#[export] Hint Resolve ev_kobject_get_with : keeps.
Lemma ev_kobject_get_none a N B L id type : Keeps (ev a N B L) (kobject_get_none id type).
Proof. apply ev_kobject_get_with. intros ko. keeps. Qed.
#[export] Hint Resolve ev_kobject_get_none : keeps.
Lemma ev_kobject_label_compare_id a N B L a' b c : Keeps (ev a N B L) (kobject_label_compare_id a' b c).
Proof. unfold kobject_label_compare_id. keeps. Qed.
#[export] Hint Resolve ev_kobject_label_compare_id : keeps.
Lemma ev_kobject_iflow_check a N B L ko iflow : Keeps (ev a N B L) (kobject_iflow_check ko iflow).
Proof. unfold kobject_iflow_check. keeps. Qed.
#[export] Hint Resolve ev_kobject_iflow_check : keeps.
Lemma ev_kobject_get a N B L id type iflow : Keeps (ev a N B L) (kobject_get id type iflow).
Proof. apply ev_kobject_get_with. intros ko. keeps. Qed.
#[export] Hint Resolve ev_kobject_get : keeps.
Lemma ev_kobj_weak_put a N B L id idx l : Keeps (ev a N B L) (kobj_weak_put id idx l).
Proof. unfold kobj_weak_put. keeps. Qed.
#[export] Hint Resolve ev_kobj_weak_put : keeps.
Lemma ev_kobject_get_label a N B L id idx : Keeps (ev a N B L) (kobject_get_label id idx).
Proof. unfold kobject_get_label. keeps. Qed.
#[export] Hint Resolve ev_kobject_get_label : keeps.
Lemma ev_kobject_borrow_parent_quota_one a N B L fuel ko n again : Keeps (ev a N B L) (kobject_borrow_parent_quota_one fuel ko n again).
Proof. revert ko n again. induction fuel as [|fuel IH]; intros; cbn [kobject_borrow_parent_quota_one]; keeps. Qed.
#[export] Hint Resolve ev_kobject_borrow_parent_quota_one : keeps.
Lemma ev_kobject_borrow_loop a N B L fuel chain ko n : Keeps (ev a N B L) (kobject_borrow_loop fuel chain ko n).
Proof. induction fuel as [|fuel IH]; cbn [kobject_borrow_loop]; keeps. Qed.
#[export] Hint Resolve ev_kobject_borrow_loop : keeps.
Lemma ev_kobject_borrow_parent_quota a N B L ko n : Keeps (ev a N B L) (kobject_borrow_parent_quota ko n).
Proof. unfold kobject_borrow_parent_quota. keeps. Qed.
#[export] Hint Resolve ev_kobject_borrow_parent_quota : keeps.
Lemma ev_kobject_qres_reserve a N B L qr ko : Keeps (ev a N B L) (kobject_qres_reserve qr ko).
Proof. unfold kobject_qres_reserve. keeps. Qed.
#[export] Hint Resolve ev_kobject_qres_reserve : keeps.
Lemma ev_kobject_qres_release a N B L qr : Keeps (ev a N B L) (kobject_qres_release qr).
Proof. unfold kobject_qres_release. keeps. Qed.
#[export] Hint Resolve ev_kobject_qres_release : keeps.
Lemma ev_alloc_pages a N B L n : Keeps (ev a N B L) (alloc_pages n).
Proof. induction n as [|n IH]; cbn [alloc_pages]; keeps. Qed.
#[export] Hint Resolve ev_alloc_pages : keeps.
Lemma ev_kobject_set_nbytes a N B L kp n : kp ∈ N \/ kp ∈ B -> Keeps (ev a N B L) (kobject_set_nbytes kp n).
Proof. intros Hm. unfold kobject_set_nbytes. keeps. Qed.
#[export] Hint Resolve ev_kobject_set_nbytes : keeps.
Lemma ev_kobject_get_page a N B L kp n rw : Keeps (ev a N B L) (kobject_get_page kp n rw).
Proof. unfold kobject_get_page. keeps. Qed.
#[export] Hint Resolve ev_kobject_get_page : keeps.
Lemma ev_slot_search_pages a N B L P `{!forall cs, Decision (P cs)} c rw page n :
  Keeps (ev a N B L) (slot_search_pages P c rw page n).
Proof. revert page. induction n as [|n IH]; intros page; simpl; keeps. Qed.
#[export] Hint Resolve ev_slot_search_pages : keeps.
Lemma ev_container_slot_find a N B L c id rw : Keeps (ev a N B L) (container_slot_find c id rw).
Proof. unfold container_slot_find. keeps. Qed.
#[export] Hint Resolve ev_container_slot_find : keeps.
Lemma ev_container_find a N B L id iflow : Keeps (ev a N B L) (container_find id iflow).
Proof. unfold container_find. keeps. Qed.
#[export] Hint Resolve ev_container_find : keeps.
Lemma ev_container_has a N B L c id : Keeps (ev a N B L) (container_has c id).
Proof. unfold container_has. keeps. Qed.
#[export] Hint Resolve ev_container_has : keeps.
Lemma ev_sched_parent_ok a N B L t p : Keeps (ev a N B L) (sched_parent_ok t p).
Proof. unfold sched_parent_ok. keeps. Qed.
#[export] Hint Resolve ev_sched_parent_ok : keeps.
Lemma ev_thread_check_sched_parents a N B L t : Keeps (ev a N B L) (thread_check_sched_parents t).
Proof. unfold thread_check_sched_parents. keeps. Qed.
#[export] Hint Resolve ev_thread_check_sched_parents : keeps.
Lemma ev_thread_set_sched_parents a N B L t p0 p1 : Keeps (ev a N B L) (thread_set_sched_parents t p0 p1).
Proof. unfold thread_set_sched_parents. keeps. Qed.
#[export] Hint Resolve ev_thread_set_sched_parents : keeps.
Lemma ev_thread_on_decref a N B L t p : Keeps (ev a N B L) (thread_on_decref t p).
Proof. unfold thread_on_decref. keeps. Qed.
#[export] Hint Resolve ev_thread_on_decref : keeps.
Lemma ev_seg_unlink a N B L ko a' slot : Keeps (ev a N B L) (seg_unlink ko a' slot).
Proof. 
  unfold seg_unlink. intros s r s' [(o & s1 & [Hk ->]%get_ko_ok & H2)|[(e & H1 & ->)|[_ ->]]]%bind_run Hp; [| |done].
  - assert (Hf : forall b, body o = b -> match b with BSegment _ | BDevice _ => fixed_body o = None | _ => True end).
    { intros b <-. unfold fixed_body. destruct (body o), (ko_type (hdr o)); done. }
    specialize (Hf _ eq_refl). unfold put_body in H2.
    destruct (body o) eqn:Eb; try (injection H2 as <- <-; reflexivity); case_bool_decide; try (injection H2 as <- <-; reflexivity).
    all: apply upd_ko_run in H2 as (o' & Hk' & _ & ->); [|done]; rewrite Hk in Hk'; injection Hk' as <-.
    all: by apply ev_put_other.
  - by eapply (keeps_get_ko (ev a N B L)).
 Qed.
#[export] Hint Resolve ev_seg_unlink : keeps.
Lemma ev_as_invalidate_sm a N B L a' slot : Keeps (ev a N B L) (as_invalidate_sm a' slot).
Proof. unfold as_invalidate_sm. keeps. Qed.
#[export] Hint Resolve ev_as_invalidate_sm : keeps.
Lemma ev_segment_invalidate_loop a N B L p sms : Keeps (ev a N B L) (segment_invalidate_loop p sms).
Proof. induction sms as [|[a' slot] rest IH]; cbn [segment_invalidate_loop]; keeps. Qed.
#[export] Hint Resolve ev_segment_invalidate_loop : keeps.
Lemma ev_segment_invalidate a N B L sg p : Keeps (ev a N B L) (segment_invalidate sg p).
Proof. unfold segment_invalidate. keeps. Qed.
#[export] Hint Resolve ev_segment_invalidate : keeps.
Lemma ev_sync_wakeup_segment_loop a N B L fuel seg : Keeps (ev a N B L) (sync_wakeup_segment_loop fuel seg).
Proof. induction fuel as [|fuel IH]; cbn [sync_wakeup_segment_loop]; keeps. Qed.
#[export] Hint Resolve ev_sync_wakeup_segment_loop : keeps.
Lemma ev_sync_wakeup_segment a N B L seg : Keeps (ev a N B L) (sync_wakeup_segment seg).
Proof. unfold sync_wakeup_segment. keeps. Qed.
#[export] Hint Resolve ev_sync_wakeup_segment : keeps.
Lemma ev_segment_on_decref a N B L sg p : Keeps (ev a N B L) (segment_on_decref sg p).
Proof. unfold segment_on_decref. keeps. Qed.
#[export] Hint Resolve ev_segment_on_decref : keeps.
Lemma ev_kobject_decref a N B L ko refholder : Keeps (ev a N B L) (kobject_decref ko refholder).
Proof. unfold kobject_decref. keeps. Qed.
#[export] Hint Resolve ev_kobject_decref : keeps.
Lemma ev_kobject_incref a N B L ko r : Keeps (ev a N B L) (kobject_incref ko r).
Proof. unfold kobject_incref. keeps. Qed.
#[export] Hint Resolve ev_kobject_incref : keeps.
Lemma ev_kobject_set_label_prepared a N B L kp idx o n qr : kp ∈ N \/ kp ∈ L -> Keeps (ev a N B L) (kobject_set_label_prepared kp idx o n qr).
Proof. intros Hm. unfold kobject_set_label_prepared. keeps. Qed.
#[export] Hint Resolve ev_kobject_set_label_prepared : keeps.
Lemma ev_kobject_set_label a N B L kp idx n : kp ∈ N \/ kp ∈ L -> Keeps (ev a N B L) (kobject_set_label kp idx n).
Proof. intros Hm. unfold kobject_set_label. keeps. Qed.
#[export] Hint Resolve ev_kobject_set_label : keeps.
Lemma ev_kobject_new_id a N B L : Keeps (ev a N B L) kobject_new_id.
Proof. unfold kobject_new_id. keeps. Qed.
#[export] Hint Resolve ev_kobject_new_id : keeps.
Lemma fresh_kobject_new_id : Fresh kobject_new_id.
Proof. intros s x s' H. apply kobject_new_id_fresh in H as (_ & Hx & <- & _). done. Qed.
#[export] Hint Resolve fresh_kobject_new_id : fresh.
Lemma ev_kobject_alloc a N B L type l c : Keeps (ev a N B L) (kobject_alloc type l c).
Proof. unfold kobject_alloc. kfresh. Qed.
#[export] Hint Resolve ev_kobject_alloc : keeps.
Lemma page_alloc_ok s s' : page_alloc s = (Ok tt, s') -> s' = set_ks_mem (tail (ks_mem s)) s.
Proof.
  unfold page_alloc. intros H. apply bind_ok in H as (b & s1 & H1 & H). unfold next_page in H1.
  destruct (ks_mem s) as [|b' m] eqn:Em; injection H1 as <- <-; [injection H as <-; by destruct s; simpl in *; subst|].
  destruct b'; [by injection H as <-|]. by apply bind_ok in H as (? & ? & _ & H).
Qed.
Lemma fresh_kobject_alloc type l c : Fresh (kobject_alloc type l c).
Proof. 
  intros s x s' H. unfold kobject_alloc in H.
  apply bind_ok in H as ([] & s1 & H1 & H). minv H1. apply bind_ok in H as ([] & s1 & H1 & H). minv H1.
  apply bind_ok in H as ([] & s2 & H2 & H). apply bind_ok in H as (k & s3 & H3 & H).
  assert (Hh : ks_heap s2 = ks_heap s).
  { apply page_alloc_ok in H2 as ->. done. }
  apply kobject_new_id_fresh in H3 as (_ & Hk & He & _). rewrite He, Hh in Hk.
  assert (x = k) as ->; [|done].
  apply bind_ok in H as (? & ? & _ & H). apply bind_ok in H as ([[]|] & ? & _ & H).
  2:{ by apply bind_ok in H as (? & ? & _ & H). }
  apply bind_ok in H as ([[]|] & ? & _ & H).
  2:{ apply bind_ok in H as (? & ? & _ & H). by apply bind_ok in H as (? & ? & _ & H). }
  apply bind_ok in H as ([[]|] & ? & _ & H).
  2:{ do 2 apply bind_ok in H as (? & ? & _ & H). by apply bind_ok in H as (? & ? & _ & H). }
  do 3 apply bind_ok in H as (? & ? & _ & H). unfold mret, M_ret in H. by simplify_eq. Qed.
#[export] Hint Resolve fresh_kobject_alloc : fresh.
Lemma ev_as_swapin a N B L a' : Keeps (ev a N B L) (as_swapin a').
Proof. unfold as_swapin. keeps. Qed.
#[export] Hint Resolve ev_as_swapin : keeps.
Lemma ev_as_switch_none a N B L : Keeps (ev a N B L) (as_switch_none).
Proof. unfold as_switch_none. keeps. Qed.
#[export] Hint Resolve ev_as_switch_none : keeps.
Lemma ev_as_unmap_slots a N B L a' l : Keeps (ev a N B L) (as_unmap_slots a' l).
Proof. induction l as [|i rest IH]; cbn [as_unmap_slots]; keeps. Qed.
#[export] Hint Resolve ev_as_unmap_slots : keeps.
Lemma ev_as_swapout a N B L a' : Keeps (ev a N B L) (as_swapout a').
Proof. unfold as_swapout. keeps. Qed.
#[export] Hint Resolve ev_as_swapout : keeps.
Lemma ev_as_invalidate a N B L a' : Keeps (ev a N B L) (as_invalidate a').
Proof. unfold as_invalidate. keeps. Qed.
#[export] Hint Resolve ev_as_invalidate : keeps.
Lemma ev_container_alloc a N B L l : Keeps (ev a N B L) (container_alloc l).
Proof. unfold container_alloc. kfresh. Qed.
#[export] Hint Resolve ev_container_alloc : keeps.
Lemma fresh_container_alloc l : Fresh (container_alloc l).
Proof. unfold container_alloc. auto with fresh. Qed.
#[export] Hint Resolve fresh_container_alloc : fresh.
Lemma ev_get_slot a N B L c i : Keeps (ev a N B L) (get_slot c i).
Proof. unfold get_slot. keeps. Qed.
#[export] Hint Resolve ev_get_slot : keeps.
Lemma ev_container_slot_get a N B L c i rw : Keeps (ev a N B L) (container_slot_get c i rw).
Proof. unfold container_slot_get. keeps. Qed.
#[export] Hint Resolve ev_container_slot_get : keeps.
Lemma ev_container_slot_alloc a N B L c : Keeps (ev a N B L) (container_slot_alloc c).
Proof. unfold container_slot_alloc. apply keeps_with_container. intros ct. keeps. Qed.
#[export] Hint Resolve ev_container_slot_alloc : keeps.
Lemma ev_upd_slot a N B L c i f : Keeps (ev a N B L) (upd_slot c i f).
Proof. unfold upd_slot. keeps. Qed.
#[export] Hint Resolve ev_upd_slot : keeps.
Lemma ev_container_slot_addref a N B L c i ko e : Keeps (ev a N B L) (container_slot_addref c i ko e).
Proof. unfold container_slot_addref. keeps. Qed.
#[export] Hint Resolve ev_container_slot_addref : keeps.
Lemma ev_container_slot_decref a N B L c i ko : Keeps (ev a N B L) (container_slot_decref c i ko).
Proof. unfold container_slot_decref. keeps. Qed.
#[export] Hint Resolve ev_container_slot_decref : keeps.
Lemma ev_container_put a N B L c ko e : Keeps (ev a N B L) (container_put c ko e).
Proof. unfold container_put. keeps. Qed.
#[export] Hint Resolve ev_container_put : keeps.
Lemma ev_container_get a N B L c slot : Keeps (ev a N B L) (container_get c slot).
Proof. unfold container_get. keeps. Qed.
#[export] Hint Resolve ev_container_get : keeps.
Lemma ev_container_unref a N B L c ko p : Keeps (ev a N B L) (container_unref c ko p).
Proof. unfold container_unref. keeps. Qed.
#[export] Hint Resolve ev_container_unref : keeps.
Lemma ev_cobj_get a N B L ref type iflow : Keeps (ev a N B L) (cobj_get ref type iflow).
Proof. unfold cobj_get. keeps. Qed.
#[export] Hint Resolve ev_cobj_get : keeps.

(** What a typed lookup returns is of that type. *)
Lemma cobj_get_type ref t iflow s k s' :
  cobj_get ref (Some t) iflow s = (Ok k, s') -> exists ko, ks_heap s' !! k = Some ko /\ ko_type (hdr ko) = t.
Proof.
  intros H. unfold cobj_get in H. apply bind_ok in H as (cur & s0 & H0 & H). minv H0. cbv zeta in H.
  apply bind_ok in H as (r0 & s1 & H1 & H). apply bind_ok in H as ([] & s2 & H2 & H).
  destruct r0 as [k0|e]; [|discriminate H]. unfold mret, M_ret in H. simplify_eq.
  assert (Hev : ev false [] [] [] s1 s').
  { eapply keeps_run; [exact H2| |done]. keeps. }
  unfold catch in H1. destruct (kobject_get (object ref) (Some t) iflow s) as [[k1|e|] s3] eqn:E; simplify_eq.
  pose proof (ev_kobject_get false [] [] [] _ _ _ _ _ _ E ltac:(done)) as Hg.
  apply kobject_get_with_ok in E as (ko & s4 & Hk & _ & _ & _ & Ht & _ & _).
  destruct (proj2 Hg k ko Hk ltac:(set_solver)) as (ko1 & Hk1 & E1).
  destruct (proj2 Hev k ko1 Hk1 ltac:(set_solver)) as (ko2 & Hk2 & E2).
  exists ko2. split; [done|]. rewrite (oe_type _ _ _ _ _ E2), (oe_type _ _ _ _ _ E1).
  simpl in Ht. by apply bool_decide_eq_true in Ht.
Qed.

Lemma keeps_with_cobj {A} a N B L ref t iflow (f : Z -> M A) :
  t <> kobj_label -> t <> kobj_gate ->
  (forall x, Keeps (ev a N (x :: B) L) (f x)) -> Keeps (ev a N B L) (cobj_get ref (Some t) iflow ≫= f).
Proof.
  intros H1 H2 Hf. apply (keeps_other a N B L _ (fun x => x)); [|keeps|done].
  intros s y s' (ko & Hk & Ht)%cobj_get_type. exists ko. split; [done|].
  unfold fixed_body. rewrite Ht. by destruct t.
Qed.

Lemma ev_container_has_ancestor_loop a N B L fuel c a' : Keeps (ev a N B L) (container_has_ancestor_loop fuel c a').
Proof. revert c. induction fuel as [|fuel IH]; intros c; cbn [container_has_ancestor_loop]; keeps. Qed.
#[export] Hint Resolve ev_container_has_ancestor_loop : keeps.
Lemma ev_container_has_ancestor a N B L c a' : Keeps (ev a N B L) (container_has_ancestor c a').
Proof. unfold container_has_ancestor. keeps. Qed.
#[export] Hint Resolve ev_container_has_ancestor : keeps.
Lemma ev_kobject_copy_pages a N B L dst src : dst ∈ N \/ dst ∈ B -> Keeps (ev a N B L) (kobject_copy_pages src dst).
Proof. intros Hm. unfold kobject_copy_pages. keeps. Qed.
#[export] Hint Resolve ev_kobject_copy_pages : keeps.
Lemma ev_segment_swapin a N B L sg : Keeps (ev a N B L) (segment_swapin sg).
Proof. unfold segment_swapin. keeps. Qed.
#[export] Hint Resolve ev_segment_swapin : keeps.
Lemma ev_segment_alloc a N B L l : Keeps (ev a N B L) (segment_alloc l).
Proof. unfold segment_alloc. kfresh. Qed.
#[export] Hint Resolve ev_segment_alloc : keeps.
Lemma fresh_segment_alloc l : Fresh (segment_alloc l).
Proof. unfold segment_alloc. fresh_tac. Qed.
#[export] Hint Resolve fresh_segment_alloc : fresh.
Lemma ev_segment_copy a N B L src l : Keeps (ev a N B L) (segment_copy src l).
Proof. unfold segment_copy. kfresh. Qed.
#[export] Hint Resolve ev_segment_copy : keeps.
Lemma fresh_segment_copy src l : Fresh (segment_copy src l).
Proof. unfold segment_copy. fresh_tac. Qed.
#[export] Hint Resolve fresh_segment_copy : fresh.
Lemma ev_segment_set_nbytes a N B L sg n : sg ∈ N \/ sg ∈ B -> Keeps (ev a N B L) (segment_set_nbytes sg n).
Proof. intros Hm. unfold segment_set_nbytes. keeps. Qed.
#[export] Hint Resolve ev_segment_set_nbytes : keeps.
Lemma ev_klabel_alloc a N B L d : Keeps (ev a N B L) (klabel_alloc d).
Proof. unfold klabel_alloc. kfresh. Qed.
#[export] Hint Resolve ev_klabel_alloc : keeps.
Lemma fresh_klabel_alloc d : Fresh (klabel_alloc d).
Proof. unfold klabel_alloc. fresh_tac. Qed.
#[export] Hint Resolve fresh_klabel_alloc : fresh.
Lemma ev_klabel_copy a N B L src : Keeps (ev a N B L) (klabel_copy src).
Proof. unfold klabel_copy. kfresh. Qed.
#[export] Hint Resolve ev_klabel_copy : keeps.
Lemma fresh_klabel_copy src : Fresh (klabel_copy src).
Proof. unfold klabel_copy. fresh_tac. Qed.
#[export] Hint Resolve fresh_klabel_copy : fresh.
Lemma ev_klabel_set a N B L l h lv : l ∈ N \/ l ∈ B -> Keeps (ev a N B L) (klabel_set l h lv).
Proof. intros Hm. unfold klabel_set. keeps. Qed.
#[export] Hint Resolve ev_klabel_set : keeps.
Lemma ev_klabel_max_loop a N B L src f idxs dst : dst ∈ N \/ dst ∈ B -> Keeps (ev a N B L) (klabel_max_loop src f idxs dst).
Proof. intros Hm. induction idxs as [|i rest IH]; cbn [klabel_max_loop]; keeps. Qed.
#[export] Hint Resolve ev_klabel_max_loop : keeps.
Lemma ev_klabel_max a N B L a' b c : Keeps (ev a N B L) (klabel_max a' b c).
Proof. unfold klabel_max. kfresh. Qed.
#[export] Hint Resolve ev_klabel_max : keeps.
Lemma ev_klabel_compare a N B L a' b c : Keeps (ev a N B L) (klabel_compare a' b c).
Proof. unfold klabel_compare. keeps. Qed.
#[export] Hint Resolve ev_klabel_compare : keeps.
Lemma ev_kulabel_loop a N B L ents idxs l : l ∈ N \/ l ∈ B -> Keeps (ev a N B L) (kulabel_loop ents idxs l).
Proof. intros Hm. induction idxs as [|i rest IH]; cbn [kulabel_loop]; keeps. Qed.
#[export] Hint Resolve ev_kulabel_loop : keeps.
Lemma ev_kulabel_to_label a N B L ul : Keeps (ev a N B L) (kulabel_to_label ul).
Proof. unfold kulabel_to_label. kfresh. Qed.
#[export] Hint Resolve ev_kulabel_to_label : keeps.
Lemma ev_gate_alloc a N B L l c v : Keeps (ev a N B L) (gate_alloc l c v).
Proof. unfold gate_alloc. kfresh. Qed.
#[export] Hint Resolve ev_gate_alloc : keeps.
Lemma fresh_gate_alloc l c v : Fresh (gate_alloc l c v).
Proof. unfold gate_alloc. fresh_tac. Qed.
#[export] Hint Resolve fresh_gate_alloc : fresh.
Lemma ev_thread_alloc a N B L l c : Keeps (ev a N B L) (thread_alloc l c).
Proof. unfold thread_alloc. kfresh. Qed.
#[export] Hint Resolve ev_thread_alloc : keeps.
Lemma fresh_thread_alloc l c : Fresh (thread_alloc l c).
Proof. unfold thread_alloc. fresh_tac. Qed.
#[export] Hint Resolve fresh_thread_alloc : fresh.
Lemma ev_thread_enable_fp a N B L t : Keeps (ev a N B L) (thread_enable_fp t).
Proof. unfold thread_enable_fp. apply keeps_bind; [apply _|keeps|intros _]. apply keeps_with_thread. intros th. keeps. Qed.
#[export] Hint Resolve ev_thread_enable_fp : keeps.
Lemma ev_thread_disable_fp a N B L t : Keeps (ev a N B L) (thread_disable_fp t).
Proof. unfold thread_disable_fp. keeps. Qed.
#[export] Hint Resolve ev_thread_disable_fp : keeps.
Lemma ev_thread_set_waitslots a N B L t n : t ∈ N \/ t ∈ B -> Keeps (ev a N B L) (thread_set_waitslots t n).
Proof. intros Hm. unfold thread_set_waitslots. keeps. Qed.
#[export] Hint Resolve ev_thread_set_waitslots : keeps.
Lemma ev_thread_change_label a N B L t l : t ∈ N \/ t ∈ L -> Keeps (ev a N B L) (thread_change_label t l).
Proof. intros Hm. unfold thread_change_label. kfresh. Qed.
#[export] Hint Resolve ev_thread_change_label : keeps.
Lemma ev_thread_jump a N B L t x y z : t ∈ N \/ t ∈ L -> Keeps (ev a N B L) (thread_jump t x y z).
Proof. intros Hm. unfold thread_jump. keeps. Qed.
#[export] Hint Resolve ev_thread_jump : keeps.
Lemma ev_as_alloc a N B L l : Keeps (ev a N B L) (as_alloc l).
Proof. unfold as_alloc. kfresh. Qed.
#[export] Hint Resolve ev_as_alloc : keeps.
Lemma fresh_as_alloc l : Fresh (as_alloc l).
Proof. unfold as_alloc. fresh_tac. Qed.
#[export] Hint Resolve fresh_as_alloc : fresh.
Lemma ev_as_copy a N B L a' l : Keeps (ev a N B L) (as_copy a' l).
Proof. unfold as_copy. kfresh. Qed.
#[export] Hint Resolve ev_as_copy : keeps.
Lemma fresh_as_copy a' l : Fresh (as_copy a' l).
Proof. unfold as_copy. fresh_tac. Qed.
#[export] Hint Resolve fresh_as_copy : fresh.
Lemma ev_user_read a N B L {A} (p : uptr A) : Keeps (ev a N B L) (user_read p).
Proof. destruct p; simpl; keeps. Qed.
#[export] Hint Resolve ev_user_read : keeps.
Lemma ev_alloc_set_name a N B L ko n : Keeps (ev a N B L) (alloc_set_name ko n).
Proof. unfold alloc_set_name. keeps. Qed.
#[export] Hint Resolve ev_alloc_set_name : keeps.
Lemma ev_alloc_ulabel a N B L ul i : Keeps (ev a N B L) (alloc_ulabel ul i).
Proof. unfold alloc_ulabel. keeps. Qed.
#[export] Hint Resolve ev_alloc_ulabel : keeps.
Lemma ev_sys_container_alloc a N B L p ul n a' q : Keeps (ev a N B L) (sys_container_alloc p ul n a' q).
Proof. unfold sys_container_alloc. kfresh. Qed.
#[export] Hint Resolve ev_sys_container_alloc : keeps.
Lemma ev_sys_container_get_slot_id a N B L c i : Keeps (ev a N B L) (sys_container_get_slot_id c i).
Proof. unfold sys_container_get_slot_id. keeps. Qed.
#[export] Hint Resolve ev_sys_container_get_slot_id : keeps.
Lemma ev_sys_container_get_nslots a N B L c : Keeps (ev a N B L) (sys_container_get_nslots c).
Proof. unfold sys_container_get_nslots. keeps. Qed.
#[export] Hint Resolve ev_sys_container_get_nslots : keeps.
Lemma ev_sys_container_get_parent a N B L c : Keeps (ev a N B L) (sys_container_get_parent c).
Proof. unfold sys_container_get_parent. keeps. Qed.
#[export] Hint Resolve ev_sys_container_get_parent : keeps.
Lemma ev_sys_container_move_quota a N B L p c n : Keeps (ev a N B L) (sys_container_move_quota p c n).
Proof. unfold sys_container_move_quota. keeps. Qed.
#[export] Hint Resolve ev_sys_container_move_quota : keeps.
Lemma ev_sys_obj_move a N B L o p a' : Keeps (ev a N B L) (sys_obj_move o p a').
Proof. unfold sys_obj_move. keeps. Qed.
#[export] Hint Resolve ev_sys_obj_move : keeps.
Lemma ev_sys_obj_get_type a N B L o : Keeps (ev a N B L) (sys_obj_get_type o).
Proof. unfold sys_obj_get_type. keeps. Qed.
#[export] Hint Resolve ev_sys_obj_get_type : keeps.
Lemma ev_user_put_label a N B L l ul : Keeps (ev a N B L) (user_put_label l ul).
Proof. unfold user_put_label. keeps. Qed.
#[export] Hint Resolve ev_user_put_label : keeps.
Lemma ev_sys_obj_get_label a N B L o ul : Keeps (ev a N B L) (sys_obj_get_label o ul).
Proof. unfold sys_obj_get_label. keeps. Qed.
#[export] Hint Resolve ev_sys_obj_get_label : keeps.
Lemma ev_sys_obj_get_name a N B L o b : Keeps (ev a N B L) (sys_obj_get_name o b).
Proof. unfold sys_obj_get_name. keeps. Qed.
#[export] Hint Resolve ev_sys_obj_get_name : keeps.
Lemma ev_sys_obj_get_quota_total a N B L o : Keeps (ev a N B L) (sys_obj_get_quota_total o).
Proof. unfold sys_obj_get_quota_total. keeps. Qed.
#[export] Hint Resolve ev_sys_obj_get_quota_total : keeps.
Lemma ev_sys_obj_get_quota_avail a N B L o : Keeps (ev a N B L) (sys_obj_get_quota_avail o).
Proof. unfold sys_obj_get_quota_avail. keeps. Qed.
#[export] Hint Resolve ev_sys_obj_get_quota_avail : keeps.
Lemma ev_sys_obj_get_meta a N B L o m : Keeps (ev a N B L) (sys_obj_get_meta o m).
Proof. unfold sys_obj_get_meta. keeps. Qed.
#[export] Hint Resolve ev_sys_obj_get_meta : keeps.
Lemma ev_sys_obj_set_meta a N B L o a' b : Keeps (ev a N B L) (sys_obj_set_meta o a' b).
Proof. unfold sys_obj_set_meta. keeps. Qed.
#[export] Hint Resolve ev_sys_obj_set_meta : keeps.
Lemma ev_sys_obj_set_fixedquota a N B L o : Keeps (ev a N B L) (sys_obj_set_fixedquota o).
Proof. unfold sys_obj_set_fixedquota. keeps. Qed.
#[export] Hint Resolve ev_sys_obj_set_fixedquota : keeps.
Lemma ev_sys_obj_set_readonly a N B L o : Keeps (ev a N B L) (sys_obj_set_readonly o).
Proof. unfold sys_obj_set_readonly. keeps. Qed.
#[export] Hint Resolve ev_sys_obj_set_readonly : keeps.
Lemma ev_sys_obj_get_readonly a N B L o : Keeps (ev a N B L) (sys_obj_get_readonly o).
Proof. unfold sys_obj_get_readonly. keeps. Qed.
#[export] Hint Resolve ev_sys_obj_get_readonly : keeps.
Lemma ev_sys_gate_create a N B L l c ct te ul uc ug n v : Keeps (ev a N B L) (sys_gate_create l c ct te ul uc ug n v).
Proof. unfold sys_gate_create. kfresh. Qed.
#[export] Hint Resolve ev_sys_gate_create : keeps.
Lemma ev_sys_gate_clearance a N B L g ul : Keeps (ev a N B L) (sys_gate_clearance g ul).
Proof. unfold sys_gate_clearance. keeps. Qed.
#[export] Hint Resolve ev_sys_gate_clearance : keeps.
Lemma ev_sys_gate_get_entry a N B L g te : Keeps (ev a N B L) (sys_gate_get_entry g te).
Proof. unfold sys_gate_get_entry. keeps. Qed.
#[export] Hint Resolve ev_sys_gate_get_entry : keeps.
Lemma ev_compare_opt_r a N B L a' b c : Keeps (ev a N B L) (compare_opt_r a' b c).
Proof. unfold compare_opt_r. keeps. Qed.
#[export] Hint Resolve ev_compare_opt_r : keeps.
Lemma ev_compare_opt_l a N B L a' b c : Keeps (ev a N B L) (compare_opt_l a' b c).
Proof. unfold compare_opt_l. keeps. Qed.
#[export] Hint Resolve ev_compare_opt_l : keeps.
Lemma ev_gate_check_labels a N B L l c g ul uc : Keeps (ev a N B L) (gate_check_labels l c g ul uc).
Proof. unfold gate_check_labels. keeps. Qed.
#[export] Hint Resolve ev_gate_check_labels : keeps.
Lemma ev_sys_thread_create a N B L l c ct n : Keeps (ev a N B L) (sys_thread_create l c ct n).
Proof. unfold sys_thread_create. kfresh. Qed.
#[export] Hint Resolve ev_sys_thread_create : keeps.
Lemma ev_sys_self_halt a N B L : Keeps (ev a N B L) (sys_self_halt).
Proof. unfold sys_self_halt. keeps. Qed.
#[export] Hint Resolve ev_sys_self_halt : keeps.
Lemma ev_sys_self_id a N B L : Keeps (ev a N B L) (sys_self_id).
Proof. unfold sys_self_id. keeps. Qed.
#[export] Hint Resolve ev_sys_self_id : keeps.
Lemma ev_sys_self_addref a N B L c : Keeps (ev a N B L) (sys_self_addref c).
Proof. unfold sys_self_addref. keeps. Qed.
#[export] Hint Resolve ev_sys_self_addref : keeps.
Lemma ev_sys_self_get_as a N B L b : Keeps (ev a N B L) (sys_self_get_as b).
Proof. unfold sys_self_get_as. keeps. Qed.
#[export] Hint Resolve ev_sys_self_get_as : keeps.
Lemma ev_sys_self_set_as a N B L a' : Keeps (ev a N B L) (sys_self_set_as a').
Proof. unfold sys_self_set_as. keeps. Qed.
#[export] Hint Resolve ev_sys_self_set_as : keeps.
Lemma ev_sys_self_get_clearance a N B L c ul : Keeps (ev a N B L) (sys_self_get_clearance c ul).
Proof. unfold sys_self_get_clearance. keeps. Qed.
#[export] Hint Resolve ev_sys_self_get_clearance : keeps.
Lemma ev_sys_self_get_verify a N B L a' b : Keeps (ev a N B L) (sys_self_get_verify a' b).
Proof. unfold sys_self_get_verify. keeps. Qed.
#[export] Hint Resolve ev_sys_self_get_verify : keeps.
Lemma ev_sys_self_fp_enable a N B L : Keeps (ev a N B L) (sys_self_fp_enable).
Proof. unfold sys_self_fp_enable. keeps. Qed.
#[export] Hint Resolve ev_sys_self_fp_enable : keeps.
Lemma ev_sys_self_fp_disable a N B L : Keeps (ev a N B L) (sys_self_fp_disable).
Proof. unfold sys_self_fp_disable. keeps. Qed.
#[export] Hint Resolve ev_sys_self_fp_disable : keeps.
Lemma ev_sys_self_set_sched_parents a N B L a' b : Keeps (ev a N B L) (sys_self_set_sched_parents a' b).
Proof. unfold sys_self_set_sched_parents. keeps. Qed.
#[export] Hint Resolve ev_sys_self_set_sched_parents : keeps.
Lemma ev_sys_self_set_cflush a N B L b : Keeps (ev a N B L) (sys_self_set_cflush b).
Proof. unfold sys_self_set_cflush. keeps. Qed.
#[export] Hint Resolve ev_sys_self_set_cflush : keeps.
Lemma ev_sys_segment_create a N B L c n ul nm : Keeps (ev a N B L) (sys_segment_create c n ul nm).
Proof. unfold sys_segment_create. kfresh. Qed.
#[export] Hint Resolve ev_sys_segment_create : keeps.
Lemma ev_sys_segment_copy a N B L s c ul n : Keeps (ev a N B L) (sys_segment_copy s c ul n).
Proof. unfold sys_segment_copy. kfresh. Qed.
#[export] Hint Resolve ev_sys_segment_copy : keeps.
Lemma ev_sys_segment_addref a N B L s c : Keeps (ev a N B L) (sys_segment_addref s c).
Proof. unfold sys_segment_addref. keeps. Qed.
#[export] Hint Resolve ev_sys_segment_addref : keeps.
Lemma ev_sys_segment_resize a N B L s n : Keeps (ev a N B L) (sys_segment_resize s n).
Proof. unfold sys_segment_resize. apply keeps_with_cobj; [done..|intros ko]. keeps. Qed.
#[export] Hint Resolve ev_sys_segment_resize : keeps.
Lemma ev_sys_segment_get_nbytes a N B L s : Keeps (ev a N B L) (sys_segment_get_nbytes s).
Proof. unfold sys_segment_get_nbytes. keeps. Qed.
#[export] Hint Resolve ev_sys_segment_get_nbytes : keeps.
Lemma ev_sys_as_create a N B L c ul n : Keeps (ev a N B L) (sys_as_create c ul n).
Proof. unfold sys_as_create. kfresh. Qed.
#[export] Hint Resolve ev_sys_as_create : keeps.
Lemma ev_sys_as_copy a N B L a' c ul n : Keeps (ev a N B L) (sys_as_copy a' c ul n).
Proof. unfold sys_as_copy. kfresh. Qed.
#[export] Hint Resolve ev_sys_as_copy : keeps.
Lemma ev_page_is_shared a N B L : Keeps (ev a N B L) page_is_shared.
Proof. 
  intros s r s' H _. unfold page_is_shared in H.
  destruct (ks_mem s); injection H as <- <-; [reflexivity|]. split; [by left|]. intros id ko Hk _.
  exists ko. split; [done|apply obj_ev_refl].
 Qed.
#[export] Hint Resolve ev_page_is_shared : keeps.
Lemma ev_as_get_usegmap a N B L a' i rw : Keeps (ev a N B L) (as_get_usegmap a' i rw).
Proof. unfold as_get_usegmap. keeps. Qed.
#[export] Hint Resolve ev_as_get_usegmap : keeps.
Lemma ev_as_get_segmap a N B L a' i : Keeps (ev a N B L) (as_get_segmap a' i).
Proof. unfold as_get_segmap. keeps. Qed.
#[export] Hint Resolve ev_as_get_segmap : keeps.
Lemma ev_put_segmap a N B L a' i sm : Keeps (ev a N B L) (put_segmap a' i sm).
Proof. unfold put_segmap. keeps. Qed.
#[export] Hint Resolve ev_put_segmap : keeps.
Lemma ev_put_usegmap a N B L a' i u : Keeps (ev a N B L) (put_usegmap a' i u).
Proof. unfold put_usegmap. keeps. Qed.
#[export] Hint Resolve ev_put_usegmap : keeps.
Lemma ev_as_resize a N B L a' n : a' ∈ N \/ a' ∈ B -> Keeps (ev a N B L) (as_resize a' n).
Proof. intros Hm. unfold as_resize. keeps. Qed.
#[export] Hint Resolve ev_as_resize : keeps.
Lemma ev_as_to_user_loop a N B L a' size l acc : Keeps (ev a N B L) (as_to_user_loop a' size l acc).
Proof. revert acc. induction l as [|i rest IH]; intros acc; cbn [as_to_user_loop]; keeps. Qed.
#[export] Hint Resolve ev_as_to_user_loop : keeps.
Lemma ev_as_to_user a N B L a' u : Keeps (ev a N B L) (as_to_user a' u).
Proof. unfold as_to_user. keeps. Qed.
#[export] Hint Resolve ev_as_to_user : keeps.
Lemma ev_as_from_user_loop a N B L a' u l : Keeps (ev a N B L) (as_from_user_loop a' u l).
Proof. induction l as [|i rest IH]; cbn [as_from_user_loop]; keeps. Qed.
#[export] Hint Resolve ev_as_from_user_loop : keeps.
Lemma ev_as_from_user a N B L a' u : a' ∈ N \/ a' ∈ B -> Keeps (ev a N B L) (as_from_user a' u).
Proof. intros Hm. unfold as_from_user. keeps. Qed.
#[export] Hint Resolve ev_as_from_user : keeps.
Lemma ev_as_get_uslot a N B L a' u : Keeps (ev a N B L) (as_get_uslot a' u).
Proof. unfold as_get_uslot. keeps. Qed.
#[export] Hint Resolve ev_as_get_uslot : keeps.
Lemma ev_as_set_uslot a N B L a' u : a' ∈ N \/ a' ∈ B -> Keeps (ev a N B L) (as_set_uslot a' u).
Proof. intros Hm. unfold as_set_uslot. keeps. Qed.
#[export] Hint Resolve ev_as_set_uslot : keeps.
Lemma ev_segment_get_page a N B L sg n rw : Keeps (ev a N B L) (segment_get_page sg n rw).
Proof. unfold segment_get_page. keeps. Qed.
#[export] Hint Resolve ev_segment_get_page : keeps.
Lemma ev_as_arch_putpage a N B L a' va p : Keeps (ev a N B L) (as_arch_putpage a' va p).
Proof. unfold as_arch_putpage. keeps. Qed.
#[export] Hint Resolve ev_as_arch_putpage : keeps.
Lemma ev_as_fill_pages a N B L a' ko usm need flags vas : Keeps (ev a N B L) (as_fill_pages a' ko usm need flags vas).
Proof. induction vas as [|va rest IH]; cbn [as_fill_pages]; keeps. Qed.
#[export] Hint Resolve ev_as_fill_pages : keeps.
Lemma ev_as_pmap_fill_kobj a N B L a' ko slot usm va flags : Keeps (ev a N B L) (as_pmap_fill_kobj a' ko slot usm va flags).
Proof. unfold as_pmap_fill_kobj. keeps. Qed.
#[export] Hint Resolve ev_as_pmap_fill_kobj : keeps.
Lemma ev_as_pmap_fill_loop a N B L a' va f l : Keeps (ev a N B L) (as_pmap_fill_loop a' va f l).
Proof. induction l as [|i rest IH]; cbn [as_pmap_fill_loop]; keeps. Qed.
#[export] Hint Resolve ev_as_pmap_fill_loop : keeps.
Lemma ev_as_pmap_fill a N B L a' va f : Keeps (ev a N B L) (as_pmap_fill a' va f).
Proof. unfold as_pmap_fill. keeps. Qed.
#[export] Hint Resolve ev_as_pmap_fill : keeps.
Lemma ev_as_pagefault a N B L a' va f : Keeps (ev a N B L) (as_pagefault a' va f).
Proof. unfold as_pagefault. keeps. Qed.
#[export] Hint Resolve ev_as_pagefault : keeps.
Lemma ev_as_switch_invalidate_loop a N B L a' b c l : Keeps (ev a N B L) (as_switch_invalidate_loop a' b c l).
Proof. induction l as [|i rest IH]; cbn [as_switch_invalidate_loop]; keeps. Qed.
#[export] Hint Resolve ev_as_switch_invalidate_loop : keeps.
Lemma ev_as_switch_invalidate a N B L a' b c : Keeps (ev a N B L) (as_switch_invalidate a' b c).
Proof. unfold as_switch_invalidate. keeps. Qed.
#[export] Hint Resolve ev_as_switch_invalidate : keeps.
Lemma ev_as_switch a N B L oa : Keeps (ev a N B L) (as_switch oa).
Proof. unfold as_switch. keeps. Qed.
#[export] Hint Resolve ev_as_switch : keeps.
Lemma ev_as_map_ro_sm a N B L a' s : Keeps (ev a N B L) (as_map_ro_sm a' s).
Proof. unfold as_map_ro_sm. keeps. Qed.
#[export] Hint Resolve ev_as_map_ro_sm : keeps.
Lemma ev_segment_map_ro_loop a N B L l : Keeps (ev a N B L) (segment_map_ro_loop l).
Proof. induction l as [|[a' s] rest IH]; cbn [segment_map_ro_loop]; keeps. Qed.
#[export] Hint Resolve ev_segment_map_ro_loop : keeps.
Lemma ev_segment_map_ro a N B L sg : Keeps (ev a N B L) (segment_map_ro sg).
Proof. unfold segment_map_ro. keeps. Qed.
#[export] Hint Resolve ev_segment_map_ro : keeps.
Lemma ev_thread_load_as a N B L t : Keeps (ev a N B L) (thread_load_as t).
Proof. unfold thread_load_as. keeps. Qed.
#[export] Hint Resolve ev_thread_load_as : keeps.
Lemma ev_thread_pagefault a N B L t va f : Keeps (ev a N B L) (thread_pagefault t va f).
Proof. unfold thread_pagefault. keeps. Qed.
#[export] Hint Resolve ev_thread_pagefault : keeps.
Lemma ev_sys_as_get a N B L a' u : Keeps (ev a N B L) (sys_as_get a' u).
Proof. unfold sys_as_get. keeps. Qed.
#[export] Hint Resolve ev_sys_as_get : keeps.
Lemma ev_sys_as_set a N B L a' u : Keeps (ev a N B L) (sys_as_set a' u).
Proof. unfold sys_as_set. apply keeps_with_cobj; [done..|intros ko]. keeps. Qed.
#[export] Hint Resolve ev_sys_as_set : keeps.
Lemma ev_sys_as_get_slot a N B L a' u : Keeps (ev a N B L) (sys_as_get_slot a' u).
Proof. unfold sys_as_get_slot. keeps. Qed.
#[export] Hint Resolve ev_sys_as_get_slot : keeps.
Lemma ev_sys_as_set_slot a N B L a' u : Keeps (ev a N B L) (sys_as_set_slot a' u).
Proof. unfold sys_as_set_slot. apply keeps_with_cobj; [done..|intros ko]. keeps. Qed.
#[export] Hint Resolve ev_sys_as_set_slot : keeps.
Lemma ev_sync_wakeup_timer_loop a N B L n l : Keeps (ev a N B L) (sync_wakeup_timer_loop n l).
Proof. induction l as [|i rest IH]; cbn [sync_wakeup_timer_loop]; keeps. Qed.
#[export] Hint Resolve ev_sync_wakeup_timer_loop : keeps.
Lemma ev_sync_wakeup_timer a N B L : Keeps (ev a N B L) (sync_wakeup_timer).
Proof. unfold sync_wakeup_timer. keeps. Qed.
#[export] Hint Resolve ev_sync_wakeup_timer : keeps.
Lemma ev_sync_wakeup_addr_loop a N B L fuel a' b : Keeps (ev a N B L) (sync_wakeup_addr_loop fuel a' b).
Proof. induction fuel as [|fuel IH]; cbn [sync_wakeup_addr_loop]; keeps. Qed.
#[export] Hint Resolve ev_sync_wakeup_addr_loop : keeps.
Lemma ev_sync_wakeup_addr a N B L i : Keeps (ev a N B L) (sync_wakeup_addr i).
Proof. unfold sync_wakeup_addr. keeps. Qed.
#[export] Hint Resolve ev_sync_wakeup_addr : keeps.
Lemma ev_sync_waitslot_init a N B L w i t : Keeps (ev a N B L) (sync_waitslot_init w i t).
Proof. unfold sync_waitslot_init. keeps. Qed.
#[export] Hint Resolve ev_sync_waitslot_init : keeps.
Lemma ev_sync_wait_init a N B L t i l : Keeps (ev a N B L) (sync_wait_init t i l).
Proof. revert i. induction l as [|w rest IH]; intros i; cbn [sync_wait_init]; keeps. Qed.
#[export] Hint Resolve ev_sync_wait_init : keeps.
Lemma ev_sync_wait_link a N B L t l : Keeps (ev a N B L) (sync_wait_link t l).
Proof. induction l as [|i rest IH]; cbn [sync_wait_link]; keeps. Qed.
#[export] Hint Resolve ev_sync_wait_link : keeps.
Lemma ev_sync_wait a N B L l n : Keeps (ev a N B L) (sync_wait l n).
Proof. unfold sync_wait. keeps. Qed.
#[export] Hint Resolve ev_sync_wait : keeps.
Lemma ev_thread_passes a N B L l : Keeps (ev a N B L) (thread_passes l).
Proof. induction l as [|i rest IH]; cbn [thread_passes]; keeps. Qed.
#[export] Hint Resolve ev_thread_passes : keeps.
Lemma ev_to_user a N B L {A} (m : M A) : Keeps (ev a N B L) m -> Keeps (ev a N B L) (to_user m).
Proof. intros Hp. unfold to_user. keeps. Qed.
#[export] Hint Resolve ev_to_user : keeps.
Lemma ev_sys_sync_wait a N B L w n : Keeps (ev a N B L) (sys_sync_wait w n).
Proof. unfold sys_sync_wait. keeps. Qed.
#[export] Hint Resolve ev_sys_sync_wait : keeps.
Lemma ev_sys_sync_wait_multi a N B L ws num n : Keeps (ev a N B L) (sys_sync_wait_multi ws num n).
Proof. unfold sys_sync_wait_multi. keeps. Qed.
#[export] Hint Resolve ev_sys_sync_wait_multi : keeps.
Lemma ev_sys_sync_wakeup a N B L a' i : Keeps (ev a N B L) (sys_sync_wakeup a' i).
Proof. unfold sys_sync_wakeup. keeps. Qed.
#[export] Hint Resolve ev_sys_sync_wakeup : keeps.
Lemma ev_sys_clock_nsec a N B L : Keeps (ev a N B L) (sys_clock_nsec).
Proof. unfold sys_clock_nsec. keeps. Qed.
#[export] Hint Resolve ev_sys_clock_nsec : keeps.

(** ** The handlers that act on the running thread *)

(** Thread [t0] is running, or none is. *)
Definition cur_is (t0 : Z) (s : kstate) : Prop := ks_cur s = Some t0 \/ ks_cur s = None.

Lemma ev_cur_is a N B L t0 s s' : ev a N B L s s' -> cur_is t0 s -> cur_is t0 s'.
Proof. unfold cur_is. intros [[E|E] _]; rewrite E; auto. Qed.

Definition evc (a : bool) (N B L : list Z) (t0 : Z) (s s' : kstate) : Prop := cur_is t0 s -> ev a N B L s s'.

#[export] Instance evc_preorder a N B L t0 : PreOrder (evc a N B L t0).
Proof.
  split; [by intros s _|]. intros s1 s2 s3 H1 H2 Hc. etrans; [by apply H1|]. apply H2.
  by eapply ev_cur_is; [apply H1|].
Qed.

Lemma evc_ev a N B L t0 {A} (m : M A) : Keeps (ev a N B L) m -> Keeps (evc a N B L t0) m.
Proof. apply keeps_weaken. by intros s s' H _. Qed.

Lemma evc_cur a N B L t0 {A} (f : Z -> M A) :
  Keeps (evc a N B L t0) (f t0) -> Keeps (evc a N B L t0) (cur_thread_id ≫= f).
Proof.
  intros Hf s r s' H Hp Hc.
  unfold cur_thread_id, gets, mbind, M_bind, mret, M_ret, panic in H. destruct Hc as [Hc|Hc]; rewrite Hc in H.
  - eapply (Hf s r s'); [exact H|done|by left].
  - by injection H as <- <-.
Qed.

(** An object just made, as in [keeps_fresh]. *)
Lemma evc_fresh {A} a N B L t0 (m : M Z) (f : Z -> M A) :
  Fresh m -> Keeps (ev a N B L) m -> (forall x, Keeps (evc a (x :: N) B L t0) (f x)) ->
  Keeps (evc a N B L t0) (m ≫= f).
Proof.
  intros HF Hm Hf s r s' [(x & s1 & H1 & H2)|[(e & H & ->)|[H ->]]]%bind_run Hp Hc; [| |done].
  - pose proof (Hm _ _ _ H1 ltac:(done)) as E1.
    eapply ev_fresh; [by eapply HF|exact E1|eapply Hf; [done..|by eapply ev_cur_is]].
  - by eapply Hm.
Qed.

Ltac kcur :=
  repeat first [ apply evc_cur
               | apply evc_fresh; [solve [auto 3 with fresh nocore] | solve [keeps] | intros ?]
               | solve [apply evc_ev; auto 2 with keeps nocore]
               | keeps_step | progress cbv zeta ].

Section self.
Context (a : bool) (N B L : list Z) (t : Z) (Ht : t ∈ L).

Lemma evc_sys_handle_create l c : Keeps (evc a N B L t) (sys_handle_create l c).
Proof using Ht. unfold sys_handle_create. kcur. Qed.
Lemma evc_sys_gate_enter l c g ul uc te : Keeps (evc a N B L t) (sys_gate_enter l c g ul uc te).
Proof using Ht. unfold sys_gate_enter. kcur. Qed.
Lemma evc_sys_self_set_label l c ul : Keeps (evc a N B L t) (sys_self_set_label l c ul).
Proof using Ht. unfold sys_self_set_label. kcur. Qed.
Lemma evc_sys_self_set_clearance l c ul : Keeps (evc a N B L t) (sys_self_set_clearance l c ul).
Proof using Ht. unfold sys_self_set_clearance. kcur. Qed.
Lemma evc_sys_self_set_verify ul uc : Keeps (evc a N B L t) (sys_self_set_verify ul uc).
Proof using Ht. unfold sys_self_set_verify. kcur. Qed.
Lemma evc_sys_self_set_waitslots n : t ∈ B -> Keeps (evc a N B L t) (sys_self_set_waitslots n).
Proof using. intros HB. unfold sys_self_set_waitslots. kcur. Qed.

End self.

Lemma keeps_relabel {A} N B L ref iflow (f : Z -> M A) :
  (forall x, Keeps (ev true N B (x :: L)) (f x)) -> Keeps (ev true N B L) (cobj_get ref (Some kobj_thread) iflow ≫= f).
Proof.
  intros Hf s r s' [(x & s1 & H1 & H2)|[(e & H & ->)|[H ->]]]%bind_run Hp; [| |done].
  - assert (E1 : ev true N B L s s1) by (eapply keeps_run; [exact H1|keeps|done]).
    pose proof (Hf x _ _ _ H2 Hp) as [C2 E2]. apply cobj_get_type in H1 as (kx & Hkx & Htx).
    etrans; [exact E1|]. split; [done|]. intros id ko Hk Hn. destruct (E2 id ko Hk Hn) as (k' & Hk' & [T Lb Bd Nb R F]).
    exists k'. split; [done|]. constructor; [done| |done..].
    intros Hl Ha. apply Lb; [|done]. destruct (decide (id = x)) as [->|]; [|set_solver].
    rewrite Hkx in Hk. injection Hk as <-. by specialize (Ha eq_refl).
  - eapply keeps_run; [exact H|keeps|done].
Qed.

Lemma ev_sys_thread_start N B L l c t te ul uc : Keeps (ev true N B L) (sys_thread_start l c t te ul uc).
Proof.
  unfold sys_thread_start. apply keeps_bind; [apply _|keeps|intros x]. apply keeps_relabel. intros y. keeps.
Qed.

(** ** System calls *)

(** The calls that may collect garbage. *)
Definition collects (sc : syscall) : bool :=
  match sc with SYS_obj_unref _ | SYS_self_yield _ => true | _ => false end.

(** The call that gives another thread its labels. *)
Definition starts (sc : syscall) : bool := match sc with SYS_thread_start _ _ _ _ => true | _ => false end.

#[export] Hint Resolve ev_sys_thread_start evc_sys_handle_create evc_sys_gate_enter evc_sys_self_set_label
  evc_sys_self_set_clearance evc_sys_self_set_verify evc_sys_self_set_waitslots : keeps.

Lemma evc_dispatch sc t l c :
  collects sc = false -> Keeps (evc (starts sc) [] [t] [t] t) (syscall_dispatch l c sc).
Proof.
  intros Hc. destruct sc; simplify_eq/=; unfold to_user; kcur; auto with keeps nocore.
Qed.

Lemma evc_kern_syscall sc t : collects sc = false -> Keeps (evc (starts sc) [] [t] [t] t) (kern_syscall sc).
Proof.
  intros Hc. pose proof (evc_dispatch sc t) as Hd. unfold kern_syscall, syscall_exec. kcur. auto.
Qed.

(** C3: No system call changes the labels of an existing object, the content of
    a label or of a gate, the type of an object, or clears its read-only or
    fixed-quota flag; no object disappears.  The exceptions are the labels of
    the running thread itself, those of threads during [sys_thread_start], and
    the two calls that collect garbage. *)
Theorem labels_immutable sc s r s' t kt id ko :
  kern_syscall sc s = (r, s') -> r <> Panic -> collects sc = false ->
  ks_cur s = Some t -> ks_heap s !! t = Some kt -> ko_type (hdr kt) = kobj_thread ->
  ks_heap s !! id = Some ko ->
  exists ko', ks_heap s' !! id = Some ko' /\ ko_type (hdr ko') = ko_type (hdr ko) /\
    (id <> t -> (starts sc = true -> ko_type (hdr ko) <> kobj_thread) -> ko_label (hdr ko') = ko_label (hdr ko)) /\
    (forall x, fixed_body ko = Some x -> body ko' = x) /\
    (has_flag (hdr ko) KOBJ_READONLY = true -> has_flag (hdr ko') KOBJ_READONLY = true) /\
    (has_flag (hdr ko) KOBJ_FIXED_QUOTA = true -> has_flag (hdr ko') KOBJ_FIXED_QUOTA = true).
Proof.
  intros H Hp Hc Hcur Ht Hty Hk. destruct (evc_kern_syscall sc t Hc s r s' H Hp (or_introl Hcur)) as [_ E].
  destruct (E id ko Hk ltac:(set_solver)) as (ko' & Hk' & [T Lb Bd Nb R F]). exists ko'. split_and!; [done..| | |done|done].
  - intros Hne Hs. apply Lb; [set_solver|done].
  - intros x Hx. apply Bd; [|done]. intros ->%list_elem_of_singleton. rewrite Ht in Hk. injection Hk as <-.
    unfold fixed_body in Hx. by rewrite Hty in Hx.
Qed.

(** [sys_handle_create] in the example state: container 13 keeps its label. *)
Lemma labels_immutable_witness :
  let s' := (kern_syscall SYS_handle_create ex_state).2 in
  exists ko ko', ks_heap ex_state !! 13 = Some ko /\ ks_heap s' !! 13 = Some ko' /\
    ko_label (hdr ko') = ko_label (hdr ko).
Proof.
  intros s'.
  destruct (ks_heap ex_state !! 13) as [ko|] eqn:Ek; [|vm_compute in Ek; discriminate Ek].
  destruct (ks_heap ex_state !! 5) as [kt|] eqn:Et; [|vm_compute in Et; discriminate Et].
  assert (Hty : ko_type (hdr kt) = kobj_thread) by (vm_compute in Et; injection Et as <-; reflexivity).
  destruct (labels_immutable SYS_handle_create ex_state (kern_syscall SYS_handle_create ex_state).1 s' 5 kt 13 ko)
    as (ko' & Hk' & _ & Hl & _); [by destruct (kern_syscall _ _)|vm_compute; discriminate|done|done|done|done|done|].
  exists ko, ko'. split_and!; [done..|]. by apply Hl.
Defined.
