(* ===== verification/KLabels.v ===== *)
(** * Label objects

    A label object of the object table behaves as the label value it holds:
    the operations on label objects refine those of [Label], so that the
    theorems of [LabelOrder] say what the labels of the kernel mean. *)

From S2P Require Import Prelude Label LabelOrder LabelCache Blowfish KState KThread KObj KOps KGc KSys KLogic KNoErr KInv KExample KFlow KReach KEvolve.
From stdpp Require Import options.

Set Default Goal Selector "!".

Lemma lift_ok {A} (r : res A) s a s' : lift r s = (Ok a, s') -> r = Ok a /\ s' = s.
Proof. unfold lift. intros H. by injection H as -> ->. Qed.

(** Label object [l] holds the value [lb], and its size says how many pages. *)
Definition klabel_rep (s : kstate) (l : Z) (lb : Label) : Prop :=
  exists ko, ks_heap s !! l = Some ko /\ ko_type (hdr ko) = kobj_label /\ body ko = BLabel lb /\
    ko_nbytes (hdr ko) = PGSIZE * Z.of_nat (length (lb_pages lb)) /\ ko_nbytes (hdr ko) < CT_QUOTA_INF.

Lemma rep_label_of s l lb : klabel_rep s l lb -> label_of s l = Some lb.
Proof. intros (ko & Hk & _ & Hb & _). unfold label_of. by rewrite Hk, Hb. Qed.

Lemma rep_ev a N B L s s' l lb :
  ev a N B L s s' -> l ∉ N -> l ∉ B -> klabel_rep s l lb -> klabel_rep s' l lb.
Proof.
  intros [_ E] HN HB (ko & Hk & Ht & Hb & Hn & Hs). destruct (E l ko Hk HN) as (ko' & Hk' & [T Lb Bd Nb R F]).
  assert (Hf : fixed_body ko = Some (BLabel lb)) by (unfold fixed_body; by rewrite Ht, Hb).
  exists ko'. rewrite (Nb HB (ltac:(by eexists))), T. split_and!; [done..|by apply Bd|done|done].
Qed.

(** Whole pages. *)
Lemma npages_of_pages n : 0 <= n -> PGSIZE * n < CT_QUOTA_INF -> npages_of (PGSIZE * n) = n.
Proof.
  unfold npages_of, ROUNDUP, PGSIZE, CT_QUOTA_INF, u64. intros H0 H1.
  rewrite (Z.mod_small (4096 * n + 4096 - 1)) by lia.
  replace (4096 * n + 4096 - 1) with (4095 + n * 4096) by lia.
  rewrite Z.mod_add by lia. rewrite (Z.mod_small 4095) by lia.
  replace (4095 + n * 4096 - 4095) with (n * 4096) by lia. apply Z.div_mul. lia.
Qed.

Lemma get_label_body_rep s l lb : klabel_rep s l lb -> get_label_body l s = (Ok lb, s).
Proof.
  intros (ko & Hk & _ & Hb & _). unfold get_label_body, get_ko, mbind, M_bind. rewrite Hk, Hb. done.
Qed.

Lemma upd_label_rep s l lb f s' :
  klabel_rep s l lb -> length (lb_pages (f lb)) = length (lb_pages lb) ->
  upd_label l f s = (Ok tt, s') -> klabel_rep s' l (f lb).
Proof.
  intros Hr Hlen H. unfold upd_label in H.
  rewrite (bind_run_ok _ _ _ _ _ (get_label_body_rep _ _ _ Hr)) in H.
  destruct Hr as (ko & Hk & Ht & Hb & Hn & Hs). unfold put_body in H.
  rewrite (upd_ko_ok _ _ _ _ Hk) in H. injection H as <-.
  eexists. simpl. rewrite lookup_insert_eq. split_and!; [done..| |done]. by rewrite Hlen.
Qed.

(** [k] pages of zeroes more. *)
Definition label_add_pages (k : nat) (lb : Label) : Label :=
  mkLabel (lb_def_level lb) (lb_nent lb) (lb_ent lb) (lb_pages lb ++ replicate k zero_label_page).

Lemma resize_add_pages k (ps : list (list Z)) :
  resize_pages zero_label_page (length ps + k) ps = ps ++ replicate k zero_label_page.
Proof.
  unfold resize_pages. rewrite take_ge by lia. by replace (length ps + k - length ps)%nat with k by lia.
Qed.

Lemma kobject_set_nbytes_grow s l lb k s' :
  klabel_rep s l lb ->
  kobject_set_nbytes l (PGSIZE * Z.of_nat (length (lb_pages lb) + k)) s = (Ok tt, s') ->
  klabel_rep s' l (label_add_pages k lb).
Proof.
  intros Hr H. set (n := length (lb_pages lb)) in *. unfold kobject_set_nbytes in H.
  apply bind_ok in H as (h & s0 & (ko & Hk & -> & ->)%get_hdr_ok & H). cbv zeta in H.
  assert (Hcur : kobject_npages (hdr ko) = Z.of_nat n).
  { destruct Hr as (k' & Hk' & _ & _ & Hn & Hs). simplify_eq. unfold kobject_npages. rewrite Hn in *.
    apply npages_of_pages; [lia|done]. }
  rewrite Hcur in H. destruct (pagetree_maxpages <? _); [discriminate H|].
  apply bind_ok in H as ([] & s1 & H1 & H).
  assert (Hr1 : klabel_rep s1 l lb).
  { eapply (rep_ev false [] [] []); [|set_solver..|exact Hr]. eapply keeps_run; [exact H1| |done]. keeps. }
  clear H1 Hr Hk Hcur.
  destruct (Z.leb_spec CT_QUOTA_INF (PGSIZE * Z.of_nat (n + k))) as [|Hlt]; [discriminate H|].
  rewrite npages_of_pages in H by (lia || done).
  apply bind_ok in H as (h & s2 & (k1 & Hk1 & -> & ->)%get_hdr_ok & H).
  replace (Z.of_nat (n + k) <? Z.of_nat n) with false in H by (symmetry; apply Z.ltb_ge; lia).
  cbn [whenM] in H. apply bind_ok in H as ([] & s3 & H3 & H). apply bind_ok in H as ([] & s4 & H4 & H).
  injection H3 as <-. injection H4 as <-.
  apply bind_ok in H as ([] & s5 & H5 & H).
  assert (Hr5 : klabel_rep s5 l lb).
  { eapply (rep_ev false [] [] []); [|set_solver..|exact Hr1]. eapply keeps_run; [exact H5| |done]. keeps. }
  destruct Hr5 as (k5 & Hk5 & Ht5 & Hb5 & Hn5 & Hs5).
  rewrite (bind_run_ok _ _ _ _ _ (upd_ko_ok _ _ _ _ Hk5)) in H.
  rewrite (upd_hdr_ok l _ _ (set_body (body_resize (Z.to_nat (Z.of_nat (n + k))) (body k5)) k5)) in H
    by (simpl; by rewrite lookup_insert_eq).
  injection H as <-. eexists. split; [simpl; by rewrite lookup_insert_eq|]. cbn. split_and!; [done| | |done].
  - rewrite Hb5. simpl. rewrite Nat2Z.id. unfold n. by rewrite resize_add_pages.
  - rewrite length_app, length_replicate. fold n. lia.
Qed.

Lemma label_grow_nent_idem l i : label_grow_nent (label_grow_nent l i) i = label_grow_nent l i.
Proof.
  unfold label_grow_nent. destruct (lb_nent l <=? i)%nat eqn:E; cbn [lb_nent]; [|by rewrite E].
  destruct (Nat.leb_spec (S i) i); [lia|done].
Qed.

Lemma label_set_write_pages l i h lv l' :
  label_set_write l i h lv = Ok l' -> length (lb_pages l') = length (lb_pages l).
Proof.
  unfold label_set_write. destruct (label_get_slotp_read _ i) as [e| |]; simpl; [|done..].
  destruct (_ || _); intros H; simplify_eq. unfold label_store_slot.
  assert (Hg : lb_pages (label_grow_nent l i) = lb_pages l) by (unfold label_grow_nent; by destruct (_ <=? _)%nat).
  destruct (_ <? _)%nat; simpl; rewrite ?length_alter, Hg; done.
Qed.

Lemma label_set_write_grow l i h lv : label_set_write (label_grow_nent l i) i h lv = label_set_write l i h lv.
Proof. unfold label_set_write. by rewrite label_grow_nent_idem. Qed.

(** The slot is known: the entry is written. *)
Definition klabel_set_tail (l : Z) (slot : nat) (handle level : Z) : M unit :=
  upd_label l (fun lb => label_grow_nent lb slot);;
  whenM (negb (slot <? NUM_LB_ENT_INLINE)%nat)
    (kobject_get_page l ((slot - NUM_LB_ENT_INLINE) / NUM_LB_ENT_PER_PAGE)%nat page_excl_dirty);;
  lb ← get_label_body l;
  lb' ← lift (label_set_write lb slot handle level);
  upd_label l (fun _ => lb').

Lemma klabel_set_tail_refines s l lb slot h lv s' :
  klabel_rep s l lb -> klabel_set_tail l slot h lv s = (Ok tt, s') ->
  exists lb', label_set_write lb slot h lv = Ok lb' /\ klabel_rep s' l lb'.
Proof.
  intros Hr H. unfold klabel_set_tail in H. apply bind_ok in H as ([] & s1 & H1 & H).
  apply (upd_label_rep _ _ lb) in H1; [|done|unfold label_grow_nent; by destruct (_ <=? _)%nat].
  apply bind_ok in H as ([] & s2 & H2 & H).
  assert (Hr2 : klabel_rep s2 l (label_grow_nent lb slot)).
  { eapply (rep_ev false [] [] []); [|set_solver..|exact H1]. eapply keeps_run; [exact H2| |done]. keeps. }
  rewrite (bind_run_ok _ _ _ _ _ (get_label_body_rep _ _ _ Hr2)), label_set_write_grow in H.
  apply bind_ok in H as (lb' & s3 & H3 & H). unfold lift in H3. injection H3 as Hw <-.
  exists lb'. split; [done|]. eapply (upd_label_rep _ _ _ (fun _ => lb')); [exact Hr2| |exact H].
  simpl. rewrite (label_set_write_pages _ _ _ _ _ Hw). unfold label_grow_nent. by destruct (_ <=? _)%nat.
Qed.

(** Setting a level in a label object sets it in its value. *)
Lemma klabel_set_refines s l lb h lv s' :
  klabel_rep s l lb -> klabel_set l h lv s = (Ok tt, s') ->
  exists lb', label_set (fun _ => 0) lb h lv = Ok lb' /\ klabel_rep s' l lb'.
Proof.
  intros Hr H. unfold klabel_set in H.
  rewrite (bind_run_ok _ _ _ _ _ (get_label_body_rep _ _ _ Hr)) in H.
  apply bind_ok in H as (o & s1 & H1 & H). unfold lift in H1. injection H1 as Hslot <-.
  unfold label_set. rewrite Hslot. simpl. apply bind_ok in H as (slot & s1 & H1 & H).
  destruct o as [i|].
  - injection H1 as -> <-. by eapply klabel_set_tail_refines.
  - apply bind_ok in H1 as (hd & s2 & (ko & Hk & -> & ->)%get_hdr_ok & H1).
    apply bind_ok in H1 as ([] & s2 & H2 & H1). injection H1 as <- <-.
    assert (Hnb : u64 (ko_nbytes (hdr ko) + PGSIZE) = PGSIZE * Z.of_nat (length (lb_pages lb) + 1)).
    { destruct Hr as (k & Hk' & _ & _ & Hn & Hs). simplify_eq. unfold CT_QUOTA_INF in Hs. rewrite Hn in *.
      unfold PGSIZE in *. rewrite u64_small by (unfold is_u64; lia). lia. }
    rewrite Hnb in H2. apply (kobject_set_nbytes_grow _ _ lb) in H2; [|done].
    by eapply klabel_set_tail_refines.
Qed.

(** A new object starts from its zeroed form; only its labels are set. *)
Lemma kobject_alloc_ev ty l c s x s' :
  kobject_alloc ty l c s = (Ok x, s') ->
  exists s1, ks_heap s1 !! x = Some (mkKobject (new_hdr x ty) (new_body ty) (replicate kolabel_max None) None) /\
    ev false [] [] [x] s1 s'.
Proof.
  intros H. pose proof H as H0. apply fresh_kobject_alloc in H0. unfold kobject_alloc in H.
  apply bind_ok in H as ([] & ? & H1 & H). minv H1. apply bind_ok in H as ([] & ? & H1 & H). minv H1.
  apply bind_ok in H as ([] & s2 & H2 & H). apply bind_ok in H as (k & s3 & H3 & H).
  apply bind_ok in H as ([] & s4 & H4 & H). unfold put_ko, modify in H4. injection H4 as <-.
  set (s4 := set_ks_heap _ _) in H.
  assert (Hk4 : forall y, y = k -> ks_heap s4 !! k = Some (mkKobject (new_hdr y ty) (new_body ty) (replicate kolabel_max None) None)).
  { intros y ->. unfold s4. simpl. by rewrite lookup_insert_eq. }
  clearbody s4. apply bind_ok in H as ([[]|] & s5 & H5 & H).
  2:{ by apply bind_ok in H as (? & ? & _ & H). }
  apply bind_ok in H as ([[]|] & s6 & H6 & H).
  2:{ apply bind_ok in H as (? & ? & _ & H). by apply bind_ok in H as (? & ? & _ & H). }
  apply bind_ok in H as ([[]|] & s7 & H7 & H).
  2:{ do 2 apply bind_ok in H as (? & ? & _ & H). by apply bind_ok in H as (? & ? & _ & H). }
  assert (E7 : ev false [] [] [k] s4 s7).
  { etrans; [eapply keeps_run; [exact H5| |done]; keeps|]. etrans; [eapply keeps_run; [exact H6| |done]; keeps|].
    eapply keeps_run; [exact H7| |done]. keeps. }
  assert (E8 : ev false [] [] [k] s7 s') by (eapply keeps_run; [exact H|keeps|done]).
  assert (x = k) as ->.
  { do 3 apply bind_ok in H as (? & ? & _ & H). unfold mret, M_ret in H. by simplify_eq. }
  exists s4. split; [by apply Hk4|]. by etrans.
Qed.

Lemma kobject_alloc_label s x s' :
  kobject_alloc kobj_label None None s = (Ok x, s') ->
  exists lb, klabel_rep s' x lb /\ lb_pages lb = [].
Proof.
  intros (s1 & Hk & E)%kobject_alloc_ev. eexists. split; [|shelve]. eapply rep_ev; [exact E|set_solver..|].
  eexists. split; [exact Hk|]. cbn. split_and!; done.
  Unshelve. done.
Qed.

Lemma klabel_alloc_refines d s x s' : klabel_alloc d s = (Ok x, s') -> klabel_rep s' x (label_alloc d).
Proof.
  intros H. unfold klabel_alloc in H. apply bind_ok in H as (y & s1 & H1 & H).
  apply bind_ok in H as ([] & s2 & H2 & H). injection H as <- <-.
  apply kobject_alloc_label in H1 as (lb & Hr & Hp).
  apply (upd_label_rep _ _ lb (fun _ => label_alloc d)) in H2; [done|done|by rewrite Hp].
Qed.

Lemma kulabel_loop_refines ents idxs l s lb s' :
  klabel_rep s l lb -> kulabel_loop ents idxs l s = (Ok tt, s') ->
  exists lb', ulabel_to_label_loop (fun _ => 0) ents idxs lb = Ok lb' /\ klabel_rep s' l lb'.
Proof.
  revert s lb. induction idxs as [|i rest IH]; intros s lb Hr H; cbn [kulabel_loop ulabel_to_label_loop] in *.
  - injection H as <-. eauto.
  - apply bind_ok in H as (e & s1 & H1 & H). unfold lift in H1. injection H1 as -> <-. cbn [res_bind].
    destruct (LB_LEVEL_STAR <? LB_LEVEL e); [discriminate H|].
    apply bind_ok in H as ([] & s2 & H2 & H).
    destruct (klabel_set_refines _ _ _ _ _ _ Hr H2) as (lb1 & -> & Hr1). cbn [res_bind]. eauto.
Qed.

(** A user label becomes a label object that holds its translation. *)
Lemma kulabel_to_label_refines ul s l s' :
  kulabel_to_label ul s = (Ok l, s') ->
  exists lb, ulabel_to_label (fun _ => 0) ul = Ok lb /\ klabel_rep s' l lb.
Proof.
  intros H. unfold kulabel_to_label in H. unfold ulabel_to_label.
  destruct (LB_LEVEL_STAR <? ul_default ul); [discriminate H|].
  apply bind_ok in H as (x & s1 & H1 & H). apply bind_ok in H as ([] & s2 & H2 & H). injection H as <- <-.
  apply klabel_alloc_refines in H1. by eapply kulabel_loop_refines.
Qed.

Lemma klabel_max_loop_refines src f idxs dst s lb s' :
  klabel_rep s dst lb -> klabel_max_loop src f idxs dst s = (Ok tt, s') ->
  exists lb', label_max_loop (fun _ => 0) src f idxs lb = Ok lb' /\ klabel_rep s' dst lb'.
Proof.
  revert s lb. induction idxs as [|i rest IH]; intros s lb Hr H; cbn [klabel_max_loop label_max_loop] in *.
  - injection H as <-. eauto.
  - apply bind_ok in H as (e & s1 & H1 & H). unfold lift in H1. injection H1 as -> <-. cbn [res_bind].
    destruct (e =? 0); [by eapply IH|].
    apply bind_ok in H as (lv & s1 & H1 & H). unfold lift in H1. injection H1 as -> <-. cbn [res_bind].
    apply bind_ok in H as ([] & s2 & H2 & H).
    destruct (klabel_set_refines _ _ _ _ _ _ Hr H2) as (lb1 & -> & Hr1). cbn [res_bind]. eauto.
Qed.

(** The maximum of two label objects is a new one that holds the maximum. *)
Lemma klabel_max_refines a b leq la lb s d s' :
  label_of s a = Some la -> label_of s b = Some lb ->
  klabel_max a b leq s = (Ok d, s') ->
  exists ld, label_max (fun _ => 0) la lb leq = Ok ld /\ klabel_rep s' d ld.
Proof.
  intros Ha Hb H. unfold klabel_max in H.
  apply bind_ok in H as (la' & s0 & (ka & Hka & Hba & ->)%get_label_body_ok & H).
  apply bind_ok in H as (lb' & s0 & (kb & Hkb & Hbb & ->)%get_label_body_ok & H).
  unfold label_of in Ha, Hb. rewrite Hka, Hba in Ha. rewrite Hkb, Hbb in Hb. simplify_eq. cbv zeta in H.
  unfold label_max. apply bind_ok in H as (def & s1 & [Hd ->]%lift_ok & H). cbv zeta. rewrite Hd.
  apply bind_ok in H as (x & s1 & H1 & H). apply klabel_alloc_refines in H1.
  apply bind_ok in H as ([] & s2 & H2 & H). apply bind_ok in H as ([] & s3 & H3 & H). injection H as <- <-.
  destruct (klabel_max_loop_refines _ _ _ _ _ _ _ H1 H2) as (l1 & E1 & Hr1).
  destruct (klabel_max_loop_refines _ _ _ _ _ _ _ Hr1 H3) as (l2 & E2 & Hr2).
  exists l2. cbn [res_bind]. rewrite E1. cbn [res_bind]. by rewrite E2.
Qed.

(** A copy holds the same value. *)
Lemma klabel_copy_refines src lb s d s' :
  klabel_rep s src lb -> length (lb_ent lb) = NUM_LB_ENT_INLINE ->
  klabel_copy src s = (Ok d, s') -> klabel_rep s' d lb.
Proof.
  intros Hsrc Hlen H. unfold klabel_copy in H. apply bind_ok in H as (x & s1 & H1 & H).
  assert (Hne : src <> x).
  { intros ->. apply fresh_klabel_alloc in H1. destruct Hsrc as (ko & Hk & _). congruence. }
  assert (Hsrc1 : klabel_rep s1 src lb).
  { eapply (rep_ev false [] [] []); [|set_solver..|exact Hsrc]. eapply keeps_run; [exact H1| |done]. keeps. }
  apply klabel_alloc_refines in H1.
  rewrite (bind_run_ok _ _ _ _ _ (get_label_body_rep _ _ _ Hsrc1)) in H.
  apply bind_ok in H as ([] & s2 & H2 & H).
  assert (Hsrc2 : klabel_rep s2 src lb).
  { eapply (rep_ev false [] [x] []); [|set_solver..|exact Hsrc1]. eapply keeps_run; [exact H2| |done]. keeps. }
  apply (upd_label_rep _ _ (label_alloc LB_LEVEL_UNDEF)) in H2; [|done..].
  rewrite take_ge in H2 by lia. apply bind_ok in H as ([] & s3 & H3 & H). injection H as <- <-.
  unfold kobject_copy_pages in H3. apply bind_ok in H3 as ([] & s4 & H4 & H3).
  assert (Hsrc4 : klabel_rep s4 src lb).
  { eapply (rep_ev false [] [x] []); [|set_solver..|exact Hsrc2]. eapply keeps_run; [exact H4| |done]. keeps. }
  apply (kobject_set_nbytes_grow _ _ _ 0 _ H2) in H4.
  apply bind_ok in H3 as (dh & s5 & (kd & Hkd & -> & ->)%get_hdr_ok & H3). destruct (negb _); [discriminate H3|].
  apply bind_ok in H3 as ([] & s5 & H5 & H3).
  assert (E5 : ev false [] [] [] s4 s5) by (eapply keeps_run; [exact H5|keeps|done]).
  destruct (rep_ev _ _ _ _ _ _ _ _ E5 (not_elem_of_nil _) (not_elem_of_nil _) Hsrc4) as (ks & Hks & _ & Hbs & Hns & Hss).
  destruct (rep_ev _ _ _ _ _ _ _ _ E5 (not_elem_of_nil _) (not_elem_of_nil _) H4) as (kx & Hkx & Htx & Hbx & _ & _).
  apply bind_ok in H3 as (so & s6 & [Hso ->]%get_ko_ok & H3). rewrite Hks in Hso. injection Hso as <-.
  rewrite (bind_run_ok _ _ _ _ _ (upd_ko_ok _ _ _ _ Hkx)) in H3. cbv zeta in H3.
  rewrite (upd_hdr_ok x _ _ (set_body (body_copy_pages (body ks) (body kx)) kx)) in H3
    by (simpl; by rewrite lookup_insert_eq).
  injection H3 as <-. eexists. split; [simpl; by rewrite lookup_insert_eq|]. cbn. split_and!; [done| |done|done].
  rewrite Hbs, Hbx. simpl. by destruct lb.
Qed.
