(* ===== verification/KBounds.v ===== *)
(** * Label changes

    What a system call that changes the labels of a thread checks before it
    does: the new tracking label is at least the old one and at most the
    clearance, the new clearance stays within its bound, a gate is entered only
    within the bounds of its own labels. *)

From S2P Require Import Prelude Label LabelOrder LabelCache Blowfish BlowfishProofs KState KThread KObj KOps KGc KSys KAs KSched KLogic KNoErr KInv KExample KFlow KReach KEvolve KLabels.
From stdpp Require Import options.

Set Default Goal Selector "!".

(** ** The labels of a thread *)

(** The invariant after a run. *)
Lemma run_inv {A} (m : M A) s r s' : m s = (r, s') -> Preserves (kinvL []) m -> r <> Panic -> kinv s -> kinv s'.
Proof. intros H Hk Hp. by eapply Hk. Qed.

Ltac inv_step H := eapply run_inv; [exact H|keeps|done|done].
Ltac ev_step H := eapply keeps_run; [exact H|keeps|done].

(** The labels of object [id]. *)
Definition labels_of (s : kstate) (id : Z) : option (list Z) := ko_label ∘ hdr <$> ks_heap s !! id.

Lemma labels_of_ev a N B L s s' id ls :
  ev a N B L s s' -> a = false -> id ∉ N -> id ∉ L -> labels_of s id = Some ls -> labels_of s' id = Some ls.
Proof.
  intros [_ E] -> HN HL Hl. unfold labels_of in *. apply fmap_Some in Hl as (ko & Hk & ->).
  destruct (E id ko Hk HN) as (ko' & Hk' & [T Lb Bd Nb R F]). rewrite Hk'. simpl. by rewrite Lb.
Qed.

Lemma hdr_label_lookup h idx : hdr_label h idx = default 0 (ko_label h !! idx).
Proof. unfold hdr_label. by rewrite nth_lookup. Qed.

(** The label object at an index, if it is in memory. *)
Lemma kobject_get_label_id s id idx l s' ls :
  kinv s -> labels_of s id = Some ls -> (forall x, ls !! idx = Some x -> x <> kobject_id_thread_sg) ->
  kobject_get_label id idx s = (Ok (Some l), s') -> ls !! idx = Some l.
Proof.
  intros HI Hl Hsg H. unfold kobject_get_label in H. unfold labels_of in Hl.
  apply bind_ok in H as (ko & s0 & [Hk ->]%get_ko_ok & H). cbv zeta in H. rewrite Hk in Hl. simpl in Hl. injection Hl as <-.
  assert (Hslow : forall s' : kstate, (if negb (hdr_label (hdr ko) idx =? 0)
    then l ← kobject_get_none (hdr_label (hdr ko) idx) (Some kobj_label); kobj_weak_put id idx (Some l);; mret (Some l)
    else mret None) s = (Ok (Some l), s') -> ko_label (hdr ko) !! idx = Some l).
  { clear s' H. intros s' H. destruct (Z.eqb_spec (hdr_label (hdr ko) idx) 0) as [|Hnz]; [discriminate H|]. simpl in H.
    apply bind_ok in H as (k & s1 & (-> & _ & Hid & _)%kobject_get_none_ok & H).
    apply bind_ok in H as ([] & s2 & _ & H). injection H as <- <-.
    rewrite hdr_label_lookup in *. destruct (ko_label (hdr ko) !! idx) as [x|] eqn:Ex; [|done]. simpl in *.
    rewrite Hid by (by eapply Hsg). done. }
  destruct (ko_label_cache ko !! idx) as [[c|]|]; [|by eapply Hslow..].
  apply bind_ok in H as (lh & s1 & (kc & Hkc & -> & ->)%get_hdr_ok & H).
  destruct (Z.eqb_spec (ko_id (hdr kc)) (hdr_label (hdr ko) idx)) as [E|]; [|by eapply Hslow].
  injection H as <- <-. rewrite (proj1 (inv_obj _ _ HI _ _ Hkc)) in E.
  rewrite hdr_label_lookup in E. destruct (ko_label (hdr ko) !! idx) eqn:Ex; simpl in E; [by subst|].
  apply (inv_range _ _ HI) in Hkc. lia.
Qed.

(** The label is stored; nothing else of the labels changes. *)
Lemma set_label_prepared_stores kp idx o n qr s q s' ls :
  kinv s -> labels_of s kp = Some ls ->
  kobject_set_label_prepared kp idx o (Some n) qr s = (Ok q, s') ->
  labels_of s' kp = Some (<[idx := n]> ls).
Proof.
  intros HI Hl H. unfold kobject_set_label_prepared in H.
  apply bind_ok in H as (h & s0 & (k0 & Hk0 & -> & ->)%get_hdr_ok & H).
  apply bind_ok in H as ([] & s1 & H1 & H). apply bind_ok in H as (q' & s2 & H2 & H).
  assert (E : ev false [] [] [] s s2) by (etrans; [ev_step H1|ev_step H2]).
  assert (HI2 : kinv s2).
  { assert (kinv s1) by (inv_step H1). inv_step H2. }
  apply bind_ok in H as (id & s3 & H3 & H).
  apply bind_ok in H3 as (nh & s4 & (kn & Hkn & -> & ->)%get_hdr_ok & H3). injection H3 as <- <-.
  rewrite (proj1 (inv_obj _ _ HI2 _ _ Hkn)) in H.
  apply (labels_of_ev _ _ _ _ _ _ kp ls E) in Hl; [|done|set_solver..].
  unfold labels_of in *. apply fmap_Some in Hl as (kp2 & Hkp2 & ->).
  rewrite (bind_run_ok _ _ _ _ _ (upd_hdr_ok _ _ _ _ Hkp2)) in H. injection H as <- <-.
  simpl. by rewrite lookup_insert_eq.
Qed.

(** A successful [thread_change_label] stores the new tracking label. *)
Lemma thread_change_label_stores t n s s' ls :
  kinv s -> labels_of s t = Some ls -> thread_change_label t n s = (Ok tt, s') ->
  labels_of s' t = Some (<[kolabel_tracking := n]> ls).
Proof.
  intros HI Hl H. unfold thread_change_label in H.
  apply bind_ok in H as ([] & s1 & H1 & H). apply bind_ok in H as (th & s2 & H2 & H).
  apply bind_ok in H as (sg & s3 & H3 & H). apply bind_ok in H as (cl & s4 & H4 & H).
  apply bind_ok in H as (csl & s5 & H5 & H). apply bind_ok in H as (sgn & s6 & H6 & H).
  assert (E5 : ev false [] [] [] s s5).
  { etrans; [ev_step H1|]. etrans; [ev_step H2|]. etrans; [ev_step H3|]. etrans; [ev_step H4|]. ev_step H5. }
  assert (HI5 : kinv s5).
  { assert (kinv s1) by (inv_step H1). assert (kinv s2) by (inv_step H2). assert (kinv s3) by (inv_step H3).
    assert (kinv s4) by (inv_step H4). inv_step H5. }
  apply (labels_of_ev _ _ _ _ _ _ t ls E5) in Hl; [|done|set_solver..].
  clear H1 H2 H3 H4 H5 E5 HI. destruct cl as [cl|]; [|discriminate H6].
  assert (Hne : t <> sgn).
  { intros ->. apply fresh_segment_copy in H6. unfold labels_of in Hl. by rewrite H6 in Hl. }
  assert (HI6 : kinv s6) by (inv_step H6).
  assert (E6 : ev false [] [] [] s5 s6) by (ev_step H6).
  apply (labels_of_ev _ _ _ _ _ _ t ls E6) in Hl; [|done|set_solver..]. clear H6 E6 HI5.
  apply bind_ok in H as ([] & s7 & H7 & H). cbv zeta in H.
  assert (HI7 : kinv s7) by (inv_step H7).
  assert (E7 : ev false [sgn] [] [] s6 s7) by (ev_step H7).
  apply (labels_of_ev _ _ _ _ _ _ t ls E7) in Hl; [|done|set_solver..]. clear H7 E7 HI6.
  apply bind_ok in H as ([q1|] & s8 & H8 & H); [|by repeat apply bind_ok in H as (? & ? & _ & H)].
  apply bind_ok in H as ([q2|] & s9 & H9 & H); [|by repeat apply bind_ok in H as (? & ? & _ & H)].
  apply bind_ok in H as ([q3|] & s10 & H10 & H); [|by repeat apply bind_ok in H as (? & ? & _ & H)].
  apply bind_ok in H as (sh & s11 & H11 & H). apply bind_ok in H as ([] & s12 & H12 & H).
  apply bind_ok in H as ([] & s13 & H13 & H). apply bind_ok in H as (q & s14 & H14 & H).
  assert (HI14 : kinv s14).
  { assert (kinv s8) by (inv_step H8). assert (kinv s9) by (inv_step H9). assert (kinv s10) by (inv_step H10).
    assert (kinv s11) by (inv_step H11). assert (kinv s12) by (inv_step H12). assert (kinv s13) by (inv_step H13).
    inv_step H14. }
  assert (E14 : ev false [sgn] [] [] s7 s14).
  { etrans; [ev_step H8|]. etrans; [ev_step H9|]. etrans; [ev_step H10|]. etrans; [ev_step H11|].
    etrans; [ev_step H12|]. etrans; [ev_step H13|]. ev_step H14. }
  apply (labels_of_ev _ _ _ _ _ _ t ls E14) in Hl; [|done|set_solver..]. clear H8 H9 H10 H11 H12 H13 H14 E14.
  apply bind_ok in H as (q' & s15 & H15 & H).
  apply (set_label_prepared_stores _ _ _ _ _ _ _ _ ls) in H15; [|done|done].
  apply bind_ok in H as (q4 & s16 & H16 & H).
  assert (E16 : ev false [sgn] [] [] s15 s').
  { etrans; [ev_step H16|]. ev_step H. }
  eapply labels_of_ev; [exact E16|done|set_solver..|done].
Qed.

(** [thread_jump] stores both labels. *)
Lemma thread_jump_stores t l c te s s' ls :
  kinv s -> labels_of s t = Some ls -> thread_jump t l c te s = (Ok tt, s') ->
  labels_of s' t = Some (<[kolabel_clearance := c]> (<[kolabel_tracking := l]> ls)).
Proof.
  intros HI Hl H. unfold thread_jump in H.
  apply bind_ok in H as ([] & s1 & H1 & H). apply bind_ok in H as (cc & s2 & H2 & H).
  apply bind_ok in H as (qr & s3 & H3 & H).
  assert (HI3 : kinv s3).
  { assert (kinv s1) by (inv_step H1). assert (kinv s2) by (inv_step H2). inv_step H3. }
  assert (E3 : ev false [] [] [] s s3) by (etrans; [ev_step H1|]; etrans; [ev_step H2|]; ev_step H3).
  apply (labels_of_ev _ _ _ _ _ _ t ls E3) in Hl; [|done|set_solver..]. clear H1 H2 H3 E3.
  apply bind_ok in H as ([[]|e] & s4 & H4 & H); [|by repeat apply bind_ok in H as (? & ? & _ & H)].
  assert (HI4 : kinv s4) by (inv_step H4).
  unfold catch in H4. destruct (thread_change_label t l s3) as [[[]|e|] s5] eqn:E; simplify_eq.
  apply (thread_change_label_stores _ _ _ _ ls) in E; [|done..].
  apply bind_ok in H as (q & s5 & H5 & H). apply (set_label_prepared_stores _ _ _ _ _ _ _ _ _ HI4 E) in H5.
  apply bind_ok in H as ([] & s6 & H6 & H).
  assert (E6 : ev false [] [] [] s5 s') by (etrans; [ev_step H6|]; ev_step H).
  eapply labels_of_ev; [exact E6|done|set_solver..|done].
Qed.

(** ** Running a system call *)

(** Thread [t] runs with tracking label [l] and clearance [c], whose values are
    [la] and [lc]. *)
Record runs_with (s : kstate) (t l c : Z) (la lc : Label) : Prop := {
  rw_inv : kinv s;
  rw_cur : ks_cur s = Some t;
  rw_ids : exists rest, labels_of s t = Some (l :: c :: rest);
  rw_track : klabel_rep s l la;
  rw_clear : klabel_rep s c lc
}.

Lemma rep_not_sg s l lb : kinv s -> klabel_rep s l lb -> l <> kobject_id_thread_sg.
Proof. intros HI (ko & Hk & _). apply (inv_range _ _ HI) in Hk. unfold kobject_id_thread_sg. lia. Qed.

Lemma cur_thread_id_is t s t' s' : cur_is t s -> cur_thread_id s = (Ok t', s') -> t' = t /\ s' = s.
Proof.
  unfold cur_thread_id, gets, mbind, M_bind, mret, M_ret, panic. intros [H|H]; rewrite H; intros E; by simplify_eq.
Qed.

(** The state in which the handler runs. *)
Lemma kern_syscall_runs sc s v s' t l c la lc :
  runs_with s t l c la lc -> kern_syscall sc s = (Ok v, s') ->
  exists s1, ev false [] [] [] s s1 /\ kinv s1 /\ cur_is t s1 /\ syscall_dispatch l c sc s1 = (Ok v, s').
Proof.
  intros [HI Hc [rest Hl] H1 H2] H. unfold kern_syscall, syscall_exec in H.
  apply bind_ok in H as (t' & s0 & H0 & H).
  apply (cur_thread_id_is t) in H0 as [-> ->]; [|by left].
  apply bind_ok in H as (ol & s1 & Hgl & H). apply bind_ok in H as (oc & s2 & Hgc & H).
  destruct ol as [l'|]; [|discriminate H]. destruct oc as [c'|]; [|discriminate H].
  assert (E1 : ev false [] [] [] s s1) by (ev_step Hgl). assert (HI1 : kinv s1) by (inv_step Hgl).
  assert (E2 : ev false [] [] [] s1 s2) by (ev_step Hgc). assert (HI2 : kinv s2) by (inv_step Hgc).
  pose proof (labels_of_ev _ _ _ _ _ _ t _ E1 eq_refl (not_elem_of_nil _) (not_elem_of_nil _) Hl) as Hl1.
  apply (kobject_get_label_id _ _ _ _ _ _ HI Hl) in Hgl.
  2:{ intros x Hx. change (Some l = Some x) in Hx. injection Hx as <-. by eapply (rep_not_sg s). }
  apply (kobject_get_label_id _ _ _ _ _ _ HI1 Hl1) in Hgc.
  2:{ intros x Hx. change (Some c = Some x) in Hx. injection Hx as <-. by eapply (rep_not_sg s). }
  change (Some l = Some l') in Hgl. change (Some c = Some c') in Hgc. simplify_eq. exists s2.
  assert (E : ev false [] [] [] s s2) by (by etrans). split_and!; [done|done| |done].
  eapply ev_cur_is; [exact E|by left].
Qed.

Lemma cobj_get_id ref type iflow s k s' :
  object ref <> kobject_id_thread_sg -> cobj_get ref type iflow s = (Ok k, s') -> k = object ref.
Proof.
  intros Hsg H. unfold cobj_get in H. apply bind_ok in H as (cur & s0 & H0 & H). minv H0. cbv zeta in H.
  apply bind_ok in H as (r0 & s1 & H1 & H). apply bind_ok in H as ([] & s2 & H2 & H).
  destruct r0 as [k0|e]; [|discriminate H]. injection H as <- <-.
  unfold catch in H1. destruct (kobject_get (object ref) type iflow s) as [[k1|e|] s3] eqn:E; simplify_eq.
  apply kobject_get_with_ok in E as (ko & s4 & _ & _ & Hid & _). by apply Hid.
Qed.

(** ** Comparing and making labels *)

Lemma klabel_compare_rep s a b c la lb s' :
  klabel_rep s a la -> klabel_rep s b lb -> klabel_compare a b c s = (Ok tt, s') ->
  label_compare la lb c = Ok tt /\ s' = s.
Proof.
  intros Ha Hb H. unfold klabel_compare in H.
  rewrite (bind_run_ok _ _ _ _ _ (get_label_body_rep _ _ _ Ha)) in H.
  rewrite (bind_run_ok _ _ _ _ _ (get_label_body_rep _ _ _ Hb)) in H. by apply lift_ok in H.
Qed.

(** A label the user supplies; [def] is what a null pointer stands for. *)
Definition user_label (ul : uptr ulabel) (def : option Label) (lb : Label) : Prop :=
  match ul with
  | UVal u => ulabel_to_label (fun _ => 0) u = Ok lb
  | UNull => def = Some lb
  | UFault _ => False
  end.

Lemma alloc_ulabel_rep ul s n s' :
  alloc_ulabel ul None s = (Ok n, s') -> exists lb, user_label ul None lb /\ klabel_rep s' n lb.
Proof.
  intros H. destruct ul as [|e|u]; [discriminate H|discriminate H|].
  unfold alloc_ulabel in H. apply bind_ok in H as (u' & s1 & H1 & H). injection H1 as <- <-.
  destruct (kulabel_to_label_refines _ _ _ _ H) as (lb & ? & ?). by exists lb.
Qed.

Lemma alloc_ulabel_inherit ul k lk s n s' :
  klabel_rep s k lk -> alloc_ulabel ul (Some k) s = (Ok n, s') ->
  exists lb, user_label ul (Some lk) lb /\ klabel_rep s' n lb.
Proof.
  intros Hk H. destruct ul as [|e|u]; [|discriminate H|].
  - unfold alloc_ulabel in H. destruct Hk as (ko & Hko & Ht & Hr).
    rewrite (bind_run_ok _ _ _ _ _ (get_hdr_run _ _ _ Hko)) in H. rewrite bool_decide_true in H by done.
    injection H as <- <-. exists lk. split; [done|]. by exists ko.
  - unfold alloc_ulabel in H. apply bind_ok in H as (u' & s1 & H1 & H). injection H1 as <- <-.
    destruct (kulabel_to_label_refines _ _ _ _ H) as (lb & ? & ?). by exists lb.
Qed.

Ltac rep_step E := eapply rep_ev; [exact E|set_solver..|eassumption].

(** C5: The running thread can set its tracking label only to a label between
    its present one (with [*] low) and its clearance: a successful
    [sys_self_set_label] has found [label <= new <= clearance], stores a new
    label object with exactly the levels the user gave, and leaves the other
    labels of the thread alone. *)
Theorem self_set_label_bounds ul s v s' t l c la lc :
  runs_with s t l c la lc -> kern_syscall (SYS_self_set_label ul) s = (Ok v, s') ->
  exists n lb rest, user_label ul None lb /\
    label_compare la lb label_leq_starlo = Ok tt /\ label_compare lb lc label_leq_starlo = Ok tt /\
    labels_of s t = Some (l :: c :: rest) /\ labels_of s' t = Some (n :: c :: rest) /\ klabel_rep s' n lb.
Proof.
  intros HR H. destruct (kern_syscall_runs _ _ _ _ _ _ _ _ _ HR H) as (s1 & E1 & HI1 & Hc1 & H1). clear H.
  destruct HR as [_ _ [rest Hl] Ra Rc]. cbn [syscall_dispatch] in H1. unfold sys_self_set_label in H1.
  apply bind_ok in H1 as (n & s2 & H2 & H1).
  assert (E2 : ev false [] [] [] s1 s2) by (ev_step H2). assert (HI2 : kinv s2) by (inv_step H2).
  apply alloc_ulabel_rep in H2 as (lb & Hu & Rn).
  assert (E : ev false [] [] [] s s2) by (by etrans).
  assert (Ra2 : klabel_rep s2 l la) by (rep_step E). assert (Rc2 : klabel_rep s2 c lc) by (rep_step E).
  apply bind_ok in H1 as ([] & s3 & (C1 & ->)%(klabel_compare_rep _ _ _ _ la lb) & H1); [|done..].
  apply bind_ok in H1 as ([] & s3 & (C2 & ->)%(klabel_compare_rep _ _ _ _ lb lc) & H1); [|done..].
  apply bind_ok in H1 as (t' & s3 & H3 & H1).
  apply (cur_thread_id_is t) in H3 as [-> ->]; [|eapply ev_cur_is; [exact E2|exact Hc1]].
  apply bind_ok in H1 as ([] & s3 & H3 & H1). injection H1 as <- <-.
  exists n, lb, rest. split_and!; [done..| |].
  - eapply (thread_change_label_stores t n s2 s3 (l :: c :: rest)); [done| |done].
    eapply labels_of_ev; [exact E|done|set_solver..|done].
  - assert (E3 : ev false [] [] [t] s2 s3) by (ev_step H3). rep_step E3.
Qed.

(** The running thread can change its clearance only within bounds: a
    successful [sys_self_set_clearance] has found the tracking label below the
    new clearance, and the new clearance (with [*] high) below the maximum of
    the old clearance and the label. *)
Theorem self_set_clearance_bounds ul s v s' t l c la lc :
  runs_with s t l c la lc -> kern_syscall (SYS_self_set_clearance ul) s = (Ok v, s') ->
  exists n lb bound rest, user_label ul None lb /\
    label_compare la lb label_leq_starlo = Ok tt /\
    label_max (fun _ => 0) lc la label_leq_starhi = Ok bound /\ label_compare lb bound label_leq_starhi = Ok tt /\
    labels_of s t = Some (l :: c :: rest) /\ labels_of s' t = Some (l :: n :: rest) /\ klabel_rep s' n lb.
Proof.
  intros HR H. destruct (kern_syscall_runs _ _ _ _ _ _ _ _ _ HR H) as (s1 & E1 & HI1 & Hc1 & H1). clear H.
  destruct HR as [_ _ [rest Hl] Ra Rc]. cbn [syscall_dispatch] in H1. unfold sys_self_set_clearance in H1.
  apply bind_ok in H1 as (n & s2 & H2 & H1).
  assert (E2 : ev false [] [] [] s1 s2) by (ev_step H2). assert (HI2 : kinv s2) by (inv_step H2).
  apply alloc_ulabel_rep in H2 as (lb & Hu & Rn).
  assert (E : ev false [] [] [] s s2) by (by etrans).
  assert (Ra2 : klabel_rep s2 l la) by (rep_step E). assert (Rc2 : klabel_rep s2 c lc) by (rep_step E).
  apply bind_ok in H1 as (b & s3 & H3 & H1).
  assert (E3 : ev false [] [] [] s2 s3) by (ev_step H3). assert (HI3 : kinv s3) by (inv_step H3).
  apply (klabel_max_refines _ _ _ lc la) in H3 as (bound & Hm & Rb); [|by apply rep_label_of..].
  assert (Ra3 : klabel_rep s3 l la) by (rep_step E3). assert (Rn3 : klabel_rep s3 n lb) by (rep_step E3).
  apply bind_ok in H1 as ([] & s4 & (C1 & ->)%(klabel_compare_rep _ _ _ _ la lb) & H1); [|done..].
  apply bind_ok in H1 as ([] & s4 & (C2 & ->)%(klabel_compare_rep _ _ _ _ lb bound) & H1); [|done..].
  apply bind_ok in H1 as (t' & s4 & H4 & H1).
  apply (cur_thread_id_is t) in H4 as [-> ->]; [|eapply ev_cur_is; [exact E3|eapply ev_cur_is; [exact E2|exact Hc1]]].
  apply bind_ok in H1 as ([] & s4 & H4 & H1). apply bind_ok in H1 as ([] & s5 & H5 & H1). injection H1 as <- <-.
  exists n, lb, bound, rest. split_and!; [done..| |].
  - unfold kobject_set_label in H5. apply bind_ok in H5 as (old & s6 & H6 & H5).
    apply bind_ok in H5 as (qr & s7 & H7 & H5). apply bind_ok in H5 as (q & s8 & H8 & H5). injection H5 as <-.
    assert (HI4 : kinv s4) by (inv_step H4). assert (HI6 : kinv s6) by (inv_step H6).
    assert (HI7 : kinv s7) by (inv_step H7).
    eapply (set_label_prepared_stores _ _ _ _ _ _ _ _ (l :: c :: rest) HI7) in H8; [done|].
    assert (E7 : ev false [] [] [] s3 s7) by (etrans; [ev_step H4|]; etrans; [ev_step H6|]; ev_step H7).
    eapply labels_of_ev; [exact (transitivity (transitivity E E3) E7)|done|set_solver..|done].
  - assert (E5 : ev false [] [] [t] s3 s5) by (etrans; [ev_step H4|]; ev_step H5). rep_step E5.
Qed.

(** C7: A thread can be started only with a tracking label between the label of
    the starter and its own new clearance, and a clearance below that of the
    starter (with [*] high); labels the starter leaves out are its own. *)
Theorem thread_start_bounds th ute ul uc s v s' t l c la lc ls :
  runs_with s t l c la lc -> object th <> kobject_id_thread_sg -> labels_of s (object th) = Some ls ->
  kern_syscall (SYS_thread_start th ute ul uc) s = (Ok v, s') ->
  exists nl nc lb cb, user_label ul (Some la) lb /\ user_label uc (Some lc) cb /\
    label_compare la lb label_leq_starlo = Ok tt /\ label_compare lb cb label_leq_starlo = Ok tt /\
    label_compare cb lc label_leq_starhi = Ok tt /\
    labels_of s' (object th) = Some (<[kolabel_clearance := nc]> (<[kolabel_tracking := nl]> ls)) /\
    klabel_rep s' nl lb /\ klabel_rep s' nc cb.
Proof.
  intros HR Hsg Hl H. destruct (kern_syscall_runs _ _ _ _ _ _ _ _ _ HR H) as (s1 & E1 & HI1 & Hc1 & H1). clear H.
  destruct HR as [_ _ _ Ra Rc]. cbn [syscall_dispatch] in H1. unfold sys_thread_start in H1.
  apply bind_ok in H1 as (te & s2 & H2 & H1). apply bind_ok in H1 as (x & s3 & H3 & H1).
  assert (x = object th) as -> by (by eapply cobj_get_id).
  apply bind_ok in H1 as ([] & s4 & H4 & H1). apply bind_ok in H1 as (thr & s5 & H5 & H1).
  assert (E5 : ev false [] [] [] s s5).
  { etrans; [exact E1|]. etrans; [ev_step H2|]. etrans; [ev_step H3|]. etrans; [ev_step H4|]. ev_step H5. }
  assert (HI5 : kinv s5).
  { assert (kinv s2) by (inv_step H2). assert (kinv s3) by (inv_step H3). assert (kinv s4) by (inv_step H4). inv_step H5. }
  clear H2 H3 H4 H5. destruct (negb _); [discriminate H1|].
  assert (Ra5 : klabel_rep s5 l la) by (rep_step E5). assert (Rc5 : klabel_rep s5 c lc) by (rep_step E5).
  apply bind_ok in H1 as (nl & s6 & H6 & H1).
  assert (E6 : ev false [] [] [] s5 s6) by (ev_step H6). assert (HI6 : kinv s6) by (inv_step H6).
  apply (alloc_ulabel_inherit _ _ la) in H6 as (lb & Hu & Rn); [|done].
  assert (Ra6 : klabel_rep s6 l la) by (rep_step E6). assert (Rc6 : klabel_rep s6 c lc) by (rep_step E6).
  apply bind_ok in H1 as (nc & s7 & H7 & H1).
  assert (E7 : ev false [] [] [] s6 s7) by (ev_step H7). assert (HI7 : kinv s7) by (inv_step H7).
  apply (alloc_ulabel_inherit _ _ lc) in H7 as (cb & Huc & Rnc); [|done].
  assert (Ra7 : klabel_rep s7 l la) by (rep_step E7). assert (Rc7 : klabel_rep s7 c lc) by (rep_step E7).
  assert (Rn7 : klabel_rep s7 nl lb) by (rep_step E7).
  apply bind_ok in H1 as ([] & s8 & (C1 & ->)%(klabel_compare_rep _ _ _ _ la lb) & H1); [|done..].
  apply bind_ok in H1 as ([] & s8 & (C2 & ->)%(klabel_compare_rep _ _ _ _ lb cb) & H1); [|done..].
  apply bind_ok in H1 as ([] & s8 & (C3 & ->)%(klabel_compare_rep _ _ _ _ cb lc) & H1); [|done..].
  apply bind_ok in H1 as ([] & s8 & H8 & H1). apply bind_ok in H1 as ([] & s9 & H9 & H1).
  apply bind_ok in H1 as ([] & s10 & H10 & H1). injection H1 as <- <-.
  assert (E8 : ev false [] [] [object th] s7 s8) by (ev_step H8).
  assert (E9 : ev false [] [] [] s8 s10) by (etrans; [ev_step H9|]; ev_step H10).
  exists nl, nc, lb, cb. split_and!; [done..| | |].
  - eapply labels_of_ev; [exact E9|done|set_solver..|].
    eapply thread_jump_stores; [exact HI7| |exact H8].
    eapply labels_of_ev; [exact (transitivity (transitivity E5 E6) E7)|done|set_solver..|done].
  - eapply rep_ev; [exact E9|set_solver..|]. rep_step E8.
  - eapply rep_ev; [exact E9|set_solver..|]. rep_step E8.
Qed.

(** ** Gates *)

Lemma kobject_get_label_none s id idx s' ls :
  labels_of s id = Some ls -> kobject_get_label id idx s = (Ok None, s') -> default 0 (ls !! idx) = 0.
Proof.
  intros Hl H. unfold kobject_get_label in H. unfold labels_of in Hl.
  apply bind_ok in H as (ko & s0 & [Hk ->]%get_ko_ok & H). cbv zeta in H. rewrite Hk in Hl. injection Hl as <-.
  rewrite <- hdr_label_lookup.
  assert (Hslow : (if negb (hdr_label (hdr ko) idx =? 0)
    then l ← kobject_get_none (hdr_label (hdr ko) idx) (Some kobj_label); kobj_weak_put id idx (Some l);; mret (Some l)
    else mret None) s = (Ok None, s') -> hdr_label (hdr ko) idx = 0).
  { clear H. destruct (Z.eqb_spec (hdr_label (hdr ko) idx) 0) as [|Hnz]; [done|]. intros H.
    apply bind_ok in H as (k & s1 & _ & H). apply bind_ok in H as ([] & s2 & _ & H). discriminate H. }
  destruct (ko_label_cache ko !! idx) as [[c|]|]; [|by apply Hslow..].
  apply bind_ok in H as (lh & s1 & (kc & Hkc & -> & ->)%get_hdr_ok & H).
  destruct (ko_id (hdr kc) =? hdr_label (hdr ko) idx); [discriminate H|by apply Hslow].
Qed.

(** The label at an index, when it is the label object [x]. *)
Lemma kobject_get_label_rep s id idx o s' ls x lx :
  kinv s -> labels_of s id = Some ls -> ls !! idx = Some x -> klabel_rep s x lx ->
  kobject_get_label id idx s = (Ok o, s') -> o = Some x.
Proof.
  intros HI Hl Hx Hr H. destruct o as [y|].
  - assert (Hsg : forall z, ls !! idx = Some z -> z <> kobject_id_thread_sg).
    { intros z Hz. rewrite Hx in Hz. injection Hz as <-. by eapply (rep_not_sg s). }
    pose proof (kobject_get_label_id _ _ _ _ _ _ HI Hl Hsg H). congruence.
  - pose proof (kobject_get_label_none _ _ _ _ _ Hl H) as H0. clear H. rename H0 into H. rewrite Hx in H. simpl in H. subst x.
    destruct Hr as (ko & Hk & _). apply (inv_range _ _ HI) in Hk. lia.
Qed.

(** The labels of gate [g]: a tracking label, a clearance, and a guard unless
    the identifier is 0. *)
Record gate_labels (s : kstate) (g gl gc gv : Z) (lgl lgc : Label) : Prop := {
  gl_ids : exists rest, labels_of s g = Some (gl :: gc :: gv :: rest);
  gl_track : klabel_rep s gl lgl;
  gl_clear : klabel_rep s gc lgc
}.

Lemma gate_labels_ev s s' g gl gc gv lgl lgc :
  ev false [] [] [] s s' -> gate_labels s g gl gc gv lgl lgc -> gate_labels s' g gl gc gv lgl lgc.
Proof.
  intros E [[rest Hl] H1 H2]. constructor; [|rep_step E..].
  exists rest. eapply labels_of_ev; [exact E|done|set_solver..|done].
Qed.

(** What [sys_gate_enter] checks, with the values of the new labels. *)
Definition gate_bounds (la lc lgl lgc lb cb : Label) : Prop :=
  exists bound cbound,
    label_max (fun _ => 0) lgl la label_leq_starhi = Ok bound /\
    label_max (fun _ => 0) lgc lc label_leq_starlo = Ok cbound /\
    label_compare bound lb label_leq_starlo = Ok tt /\
    label_compare lb cb label_leq_starlo = Ok tt /\
    label_compare cb cbound label_leq_starhi = Ok tt.

Lemma gate_check_labels_bounds l c g ulab uclear s p s' la lc gl gc gv lgl lgc :
  kinv s -> klabel_rep s l la -> klabel_rep s c lc -> gate_labels s g gl gc gv lgl lgc ->
  gate_check_labels l c g ulab uclear s = (Ok p, s') ->
  exists lb cb, user_label ulab None lb /\ user_label uclear None cb /\ gate_bounds la lc lgl lgc lb cb /\
    klabel_rep s' p.1 lb /\ klabel_rep s' p.2 cb /\
    (forall lgv, klabel_rep s gv lgv -> label_compare la lgv label_leq_starlo = Ok tt).
Proof.
  intros HI Ra Rc HG H. unfold gate_check_labels in H.
  apply bind_ok in H as (o1 & s1 & H1 & H).
  assert (E1 : ev false [] [] [] s s1) by (ev_step H1). assert (HI1 : kinv s1) by (inv_step H1).
  destruct (HG) as [[rest Hl] Rgl Rgc].
  pose proof (kobject_get_label_rep _ _ kolabel_tracking _ _ _ gl _ HI Hl eq_refl Rgl H1) as ->.
  pose proof (gate_labels_ev _ _ _ _ _ _ _ _ E1 HG) as [[rest1 Hl1] Rgl1 Rgc1].
  apply bind_ok in H as (o2 & s2 & H2 & H).
  assert (E2 : ev false [] [] [] s1 s2) by (ev_step H2). assert (HI2 : kinv s2) by (inv_step H2).
  pose proof (kobject_get_label_rep _ _ kolabel_clearance _ _ _ gc _ HI1 Hl1 eq_refl Rgc1 H2) as ->.
  pose proof (gate_labels_ev _ _ _ _ _ _ _ _ (transitivity E1 E2) HG) as [[rest2 Hl2] Rgl2 Rgc2].
  apply bind_ok in H as (o3 & s3 & H3 & H).
  assert (E3 : ev false [] [] [] s s3) by (etrans; [exact (transitivity E1 E2)|ev_step H3]).
  assert (HI3 : kinv s3) by (inv_step H3).
  assert (Ra3 : klabel_rep s3 l la) by (rep_step E3). assert (Rc3 : klabel_rep s3 c lc) by (rep_step E3).
  assert (Rgl3 : klabel_rep s3 gl lgl) by (rep_step E3). assert (Rgc3 : klabel_rep s3 gc lgc) by (rep_step E3).
  apply bind_ok in H as ([] & s4 & H4 & H).
  assert (Hv : s4 = s3 /\ forall lgv, klabel_rep s gv lgv -> label_compare la lgv label_leq_starlo = Ok tt).
  { destruct o3 as [y|]; unfold compare_opt_r in H4.
    - assert (s4 = s3) as ->.
      { unfold klabel_compare in H4. apply bind_ok in H4 as (la' & sa & Ha & H4').
        apply bind_ok in H4' as (lb' & sb & Hb & H4'). apply get_label_body_ok in Ha as (ka & _ & _ & ->).
        apply get_label_body_ok in Hb as (kb & _ & _ & ->). by apply lift_ok in H4' as [_ ->]. }
      split; [done|]. intros lgv Rv.
      assert (Rv2 : klabel_rep s2 gv lgv) by (eapply rep_ev; [exact (transitivity E1 E2)|set_solver..|done]).
      pose proof (kobject_get_label_rep _ _ kolabel_verify_tracking _ _ _ gv _ HI2 Hl2 eq_refl Rv2 H3) as Ho. injection Ho as ->.
      assert (Rv3 : klabel_rep s3 gv lgv) by (rep_step E3).
      by destruct (klabel_compare_rep _ _ _ _ la lgv _ Ra3 Rv3 H4) as [? _].
    - injection H4 as <-. split; [done|]. intros lgv Rv.
      assert (Rv2 : klabel_rep s2 gv lgv) by (eapply rep_ev; [exact (transitivity E1 E2)|set_solver..|done]).
      pose proof (kobject_get_label_rep _ _ kolabel_verify_tracking _ _ _ gv _ HI2 Hl2 eq_refl Rv2 H3) as Ho. discriminate Ho. }
  destruct Hv as [-> Hv]. clear H3 H4.
  apply bind_ok in H as (b & s5 & H5 & H). assert (E5 : ev false [] [] [] s3 s5) by (ev_step H5).
  apply (klabel_max_refines _ _ _ lgl la) in H5 as (bound & Hm1 & Rb); [|by apply rep_label_of..].
  assert (Rc5 : klabel_rep s5 c lc) by (rep_step E5). assert (Rgc5 : klabel_rep s5 gc lgc) by (rep_step E5).
  apply bind_ok in H as (cb & s6 & H6 & H). assert (E6 : ev false [] [] [] s5 s6) by (ev_step H6).
  apply (klabel_max_refines _ _ _ lgc lc) in H6 as (cbound & Hm2 & Rcb); [|by apply rep_label_of..].
  assert (Rb6 : klabel_rep s6 b bound) by (rep_step E6).
  apply bind_ok in H as (nl & s7 & H7 & H). assert (E7 : ev false [] [] [] s6 s7) by (ev_step H7).
  apply alloc_ulabel_rep in H7 as (lb & Hu & Rn).
  apply bind_ok in H as (nc & s8 & H8 & H). assert (E8 : ev false [] [] [] s7 s8) by (ev_step H8).
  apply alloc_ulabel_rep in H8 as (clb & Huc & Rnc).
  assert (Rn8 : klabel_rep s8 nl lb) by (rep_step E8).
  assert (Rb8 : klabel_rep s8 b bound) by (eapply rep_ev; [exact (transitivity E7 E8)|set_solver..|done]).
  assert (Rcb8 : klabel_rep s8 cb cbound) by (eapply rep_ev; [exact (transitivity E7 E8)|set_solver..|done]).
  apply bind_ok in H as ([] & s9 & (C1 & ->)%(klabel_compare_rep _ _ _ _ bound lb) & H); [|done..].
  apply bind_ok in H as ([] & s9 & (C2 & ->)%(klabel_compare_rep _ _ _ _ lb clb) & H); [|done..].
  apply bind_ok in H as ([] & s9 & (C3 & ->)%(klabel_compare_rep _ _ _ _ clb cbound) & H); [|done..].
  injection H as <- <-. exists lb, clb. split_and!; [done|done| |done|done|done].
  exists bound, cbound. done.
Qed.

(** C4: A gate is entered only within its bounds.  With [L], [C] the label and
    clearance of the caller and [GL], [GC] those of the gate, the new label is
    above the maximum of [GL] and [L] (with [*] high), below the new clearance,
    and the new clearance is below the maximum of [GC] and [C]; if the gate has
    a guard label, [L] is below it.  The thread then has exactly these labels. *)
Theorem gate_enter_bounds gt ulab uclear ute s v s' t l c la lc gl gc gv lgl lgc :
  runs_with s t l c la lc -> object gt <> kobject_id_thread_sg -> gate_labels s (object gt) gl gc gv lgl lgc ->
  kern_syscall (SYS_gate_enter gt ulab uclear ute) s = (Ok v, s') ->
  exists nl nc lb cb rest, user_label ulab None lb /\ user_label uclear None cb /\
    gate_bounds la lc lgl lgc lb cb /\
    (forall lgv, klabel_rep s gv lgv -> label_compare la lgv label_leq_starlo = Ok tt) /\
    labels_of s t = Some (l :: c :: rest) /\ labels_of s' t = Some (nl :: nc :: rest) /\
    klabel_rep s' nl lb /\ klabel_rep s' nc cb.
Proof.
  intros HR Hsg HG H. destruct (kern_syscall_runs _ _ _ _ _ _ _ _ _ HR H) as (s1 & E1 & HI1 & Hc1 & H1). clear H.
  destruct HR as [_ _ [rest Hl] Ra Rc]. cbn [syscall_dispatch] in H1. unfold sys_gate_enter in H1.
  apply bind_ok in H1 as (t' & s2 & H2 & H1). apply (cur_thread_id_is t) in H2 as [-> ->]; [|done].
  apply bind_ok in H1 as (x & s2 & H2 & H1).
  assert (x = object gt) as -> by (by eapply cobj_get_id).
  assert (E2 : ev false [] [] [] s s2) by (etrans; [exact E1|ev_step H2]). assert (HI2 : kinv s2) by (inv_step H2).
  assert (Ra2 : klabel_rep s2 l la) by (rep_step E2). assert (Rc2 : klabel_rep s2 c lc) by (rep_step E2).
  pose proof (gate_labels_ev _ _ _ _ _ _ _ _ E2 HG) as HG2.
  apply bind_ok in H1 as (p & s3 & H3 & H1).
  assert (E3 : ev false [] [] [] s2 s3) by (ev_step H3). assert (HI3 : kinv s3) by (inv_step H3).
  destruct (gate_check_labels_bounds _ _ _ _ _ _ _ _ _ _ _ _ _ _ _ HI2 Ra2 Rc2 HG2 H3)
    as (lb & cb & Hu & Huc & Hb & Rn & Rnc & Hv).
  apply bind_ok in H1 as (g & s4 & H4 & H1). destruct (_ || _); [discriminate H1|].
  apply bind_ok in H1 as ([] & s5 & H5 & H1). apply bind_ok in H1 as (te & s6 & H6 & H1).
  assert (E6 : ev false [] [] [] s3 s6) by (etrans; [ev_step H4|]; etrans; [ev_step H5|]; ev_step H6).
  assert (HI6 : kinv s6).
  { assert (kinv s4) by (inv_step H4). assert (kinv s5) by (inv_step H5). inv_step H6. }
  apply bind_ok in H1 as ([] & s7 & H7 & H1). injection H1 as <- <-.
  assert (E7 : ev false [] [] [t] s6 s7) by (ev_step H7).
  exists p.1, p.2, lb, cb, rest. split_and!; [done..| |done| | |].
  - intros lgv Rv. apply Hv. rep_step E2.
  - change (p.1 :: p.2 :: rest) with (<[kolabel_clearance := p.2]> (<[kolabel_tracking := p.1]> (l :: c :: rest))).
    eapply thread_jump_stores; [exact HI6| |exact H7].
    eapply labels_of_ev; [exact (transitivity (transitivity E2 E3) E6)|done|set_solver..|done].
  - eapply rep_ev; [exact E7|set_solver..|]. rep_step E6.
  - eapply rep_ev; [exact E7|set_solver..|]. rep_step E6.
Qed.

(** ** New categories *)

(** A copy of label [k] with [h] set to [level]. *)
Lemma copy_set_rep k lk h level s n s1 s2 :
  kinv s -> label_wf lk -> 0 < h < 2 ^ 61 -> 0 <= level <= LB_LEVEL_STAR -> klabel_rep s k lk ->
  klabel_copy k s = (Ok n, s1) -> klabel_set n h level s1 = (Ok tt, s2) ->
  ev false [] [] [] s s2 /\ kinv s2 /\ exists lb, klabel_rep s2 n lb /\
    forall h', label_fun lb h' = if decide (h' = h) then level else label_fun lk h'.
Proof.
  intros HI Hwf Hh Hlv Hk H1 H2.
  split; [eapply ev_fresh; [by eapply fresh_klabel_copy|ev_step H1|ev_step H2]|].
  split; [assert (kinv s1) by (inv_step H1); inv_step H2|].
  apply (klabel_copy_refines _ lk) in H1; [|done|apply Hwf].
  apply (klabel_set_refines _ _ lk) in H2 as (lb & Hs & Hr); [|done].
  destruct (label_set_spec (fun _ => 0) lk h level Hwf) as [(lb' & E & Hwf' & _ & Hf)|(r & Hneg & E & _)];
    [unfold is_handle; lia|done| |lia].
  rewrite Hs in E. injection E as <-. exists lb. split; [done|]. intros h'. rewrite Hf.
  destruct (decide (h' = h)); [|done]. apply stored_level_nz; [unfold is_handle; lia|done|lia].
Qed.

(** C35: [sys_handle_create] gives the running thread ownership of a new
    category: its label becomes the old one with the new handle at level [*],
    its clearance the old one with the handle at level 3, and no other level
    changes. *)
Theorem handle_create_grants s v s' t l c la lc :
  runs_with s t l c la lc -> label_wf la -> label_wf lc ->
  kern_syscall SYS_handle_create s = (Ok v, s') ->
  exists nl nc lb cb rest, 0 < v < 2 ^ 61 /\
    (forall h, label_fun lb h = if decide (h = v) then LB_LEVEL_STAR else label_fun la h) /\
    (forall h, label_fun cb h = if decide (h = v) then 3 else label_fun lc h) /\
    labels_of s t = Some (l :: c :: rest) /\ labels_of s' t = Some (nl :: nc :: rest) /\
    klabel_rep s' nl lb /\ klabel_rep s' nc cb.
Proof.
  intros HR Hwa Hwc H. destruct (kern_syscall_runs _ _ _ _ _ _ _ _ _ HR H) as (s1 & E1 & HI1 & Hc1 & H1). clear H.
  destruct HR as [_ _ [rest Hl] Ra Rc]. cbn [syscall_dispatch] in H1. unfold sys_handle_create in H1.
  apply bind_ok in H1 as (t' & s2 & H2 & H1). apply (cur_thread_id_is t) in H2 as [-> ->]; [|done].
  apply bind_ok in H1 as (key & s2 & H2 & H1). minv H2. apply bind_ok in H1 as (ctr & s2 & H2 & H1). minv H2.
  apply bind_ok in H1 as (p & s2 & [Hp ->]%lift_ok & H1). destruct p as [h ctr']. cbn [fst snd] in H1.
  assert (Hh : 0 < h < 2 ^ 61) by exact (handle_alloc_range _ _ _ _ Hp).
  apply bind_ok in H1 as ([] & s2 & H2 & H1).
  assert (E2 : ev false [] [] [] s s2) by (etrans; [exact E1|ev_step H2]). assert (HI2 : kinv s2) by (inv_step H2).
  assert (Ra2 : klabel_rep s2 l la) by (rep_step E2). assert (Rc2 : klabel_rep s2 c lc) by (rep_step E2). clear H2.
  apply bind_ok in H1 as (nl & s3 & H3 & H1). apply bind_ok in H1 as ([] & s4 & H4 & H1).
  destruct (copy_set_rep _ _ _ LB_LEVEL_STAR _ _ _ _ HI2 Hwa Hh ltac:(done) Ra2 H3 H4) as (E24 & HI4 & lb & Rl & Fb).
  assert (Rc4 : klabel_rep s4 c lc) by (rep_step E24).
  apply bind_ok in H1 as (nc & s5 & H5 & H1). apply bind_ok in H1 as ([] & s6 & H6 & H1).
  destruct (copy_set_rep _ _ _ 3 _ _ _ _ HI4 Hwc Hh ltac:(done) Rc4 H5 H6) as (E46 & HI6 & cb & Rcl & Fcb).
  clear H3 H4 H5 H6. assert (Rl6 : klabel_rep s6 nl lb) by (rep_step E46).
  pose proof (transitivity (transitivity E2 E24) E46) as E. clear E2 E24 E46.
  apply (labels_of_ev _ _ _ _ _ _ t _ E eq_refl (not_elem_of_nil _) (not_elem_of_nil _)) in Hl as Hl6.
  apply bind_ok in H1 as ([] & s7 & H7 & H1). apply bind_ok in H1 as (qr & s8 & H8 & H1).
  assert (E8 : ev false [] [] [] s6 s8) by (etrans; [ev_step H7|]; ev_step H8).
  assert (HI8 : kinv s8) by (assert (kinv s7) by (inv_step H7); inv_step H8).
  apply (labels_of_ev _ _ _ _ _ _ t _ E8 eq_refl (not_elem_of_nil _) (not_elem_of_nil _)) in Hl6.
  apply bind_ok in H1 as ([[]|e] & s9 & H9 & H1); [|by repeat apply bind_ok in H1 as (? & ? & _ & H1)].
  assert (E9 : ev false [] [] [t] s8 s9) by (ev_step H9). assert (HI9 : kinv s9) by (inv_step H9).
  unfold catch in H9. destruct (thread_change_label t nl s8) as [[[]|e|] s9'] eqn:Ecl; simplify_eq.
  apply (thread_change_label_stores _ _ _ _ _ HI8 Hl6) in Ecl.
  apply bind_ok in H1 as ([] & s10 & H10 & H1).
  assert (E10 : ev false [] [] [] s9 s10) by (ev_step H10). assert (HI10 : kinv s10) by (inv_step H10).
  apply (labels_of_ev _ _ _ _ _ _ t _ E10 eq_refl (not_elem_of_nil _) (not_elem_of_nil _)) in Ecl.
  apply bind_ok in H1 as (q & s11 & H11 & H1). injection H1 as <- <-.
  assert (E11 : ev false [] [] [t] s10 s11) by (ev_step H11).
  apply (set_label_prepared_stores _ _ _ _ _ _ _ _ _ HI10 Ecl) in H11.
  assert (E811 : ev false [] [] [t] s6 s11).
  { etrans; [eapply ev_mono; [..|exact E8]; set_solver|]. etrans; [exact E9|].
    etrans; [eapply ev_mono; [..|exact E10]; set_solver|exact E11]. }
  exists nl, nc, lb, cb, rest. split_and!; [lia|lia|done..|rep_step E811|rep_step E811].
Qed.

(** ** The example state *)

Lemma ex_runs : runs_with ex_state 5 7 8 ex_l7 ex_l8.
Proof.
  constructor; [apply ex_state_inv|done|by eexists| |]; eexists; (split; [vm_compute; reflexivity|]); split_and!; done.
Qed.

Lemma ex_gate_labels : gate_labels ex_state 15 10 8 8 ex_l10 ex_l8.
Proof.
  constructor; [by eexists| |]; eexists; (split; [vm_compute; reflexivity|]); split_and!; done.
Qed.

Lemma run_is {A} (m : M A) s v : (m s).1 = Ok v -> m s = (Ok v, (m s).2).
Proof. destruct (m s); simpl. by intros ->. Qed.

(** The label {9:*, 1} and the clearance {2}, given by the user. *)
Definition ex_ul : uptr ulabel := UVal (mkUlabel 1 1 1 0 [LB_CODE 9 4]).
Definition ex_uc : uptr ulabel := UVal (mkUlabel 1 0 2 0 []).

Lemma self_set_label_bounds_witness :
  exists n lb rest, label_compare ex_l7 lb label_leq_starlo = Ok tt /\
    labels_of (kern_syscall (SYS_self_set_label ex_ul) ex_state).2 5 = Some (n :: 8 :: rest).
Proof.
  destruct (self_set_label_bounds ex_ul ex_state 0 (kern_syscall (SYS_self_set_label ex_ul) ex_state).2 5 7 8 ex_l7 ex_l8)
    as (n & lb & rest & _ & H1 & _ & _ & H2 & _); [apply ex_runs|apply run_is; vm_compute; reflexivity|].
  exists n, lb, rest. exact (conj H1 H2).
Defined.

Lemma self_set_clearance_bounds_witness :
  exists n lb rest, label_compare ex_l7 lb label_leq_starlo = Ok tt /\
    labels_of (kern_syscall (SYS_self_set_clearance ex_uc) ex_state).2 5 = Some (7 :: n :: rest).
Proof.
  destruct (self_set_clearance_bounds ex_uc ex_state 0 (kern_syscall (SYS_self_set_clearance ex_uc) ex_state).2
              5 7 8 ex_l7 ex_l8)
    as (n & lb & bd & rest & _ & H1 & _ & _ & _ & H2 & _); [apply ex_runs|apply run_is; vm_compute; reflexivity|].
  exists n, lb, rest. exact (conj H1 H2).
Defined.

Lemma thread_start_bounds_witness :
  let sc := SYS_thread_start (COBJ 6 16) (UVal zero_te) ex_ul ex_uc in
  exists lb, label_compare ex_l7 lb label_leq_starlo = Ok tt /\ is_Some (labels_of (kern_syscall sc ex_state).2 16).
Proof.
  intros sc.
  destruct (thread_start_bounds (COBJ 6 16) (UVal zero_te) ex_ul ex_uc ex_state 0 (kern_syscall sc ex_state).2
              5 7 8 ex_l7 ex_l8 [7; 8; 0; 0])
    as (nl & nc & lb & cb & _ & _ & H1 & _ & _ & H2 & _);
    [apply ex_runs|done|vm_compute; reflexivity|apply run_is; vm_compute; reflexivity|].
  exists lb. split; [exact H1|]. eexists. exact H2.
Defined.

Lemma gate_enter_bounds_witness :
  let sc := SYS_gate_enter (COBJ 6 15) ex_ul ex_uc UNull in
  exists lb cb, gate_bounds ex_l7 ex_l8 ex_l10 ex_l8 lb cb /\ is_Some (labels_of (kern_syscall sc ex_state).2 5).
Proof.
  intros sc.
  destruct (gate_enter_bounds (COBJ 6 15) ex_ul ex_uc UNull ex_state 0 (kern_syscall sc ex_state).2
              5 7 8 ex_l7 ex_l8 10 8 8 ex_l10 ex_l8)
    as (nl & nc & lb & cb & rest & _ & _ & H1 & _ & _ & H2 & _);
    [apply ex_runs|done|apply ex_gate_labels|apply run_is; vm_compute; reflexivity|].
  exists lb, cb. split; [exact H1|]. eexists. exact H2.
Defined.

Lemma handle_create_grants_witness :
  exists lb, label_fun lb 1073741824000 = LB_LEVEL_STAR /\ label_fun lb 9 = label_fun ex_l7 9.
Proof.
  destruct (handle_create_grants ex_state 1073741824000 (kern_syscall SYS_handle_create ex_state).2 5 7 8 ex_l7 ex_l8)
    as (nl & nc & lb & cb & rest & _ & H1 & _); [apply ex_runs|apply (fi_labels _ _ ex_flow_inv 7 ex_l7 eq_refl)|apply (fi_labels _ _ ex_flow_inv 8 ex_l8 eq_refl)
    |apply run_is; vm_compute; reflexivity|].
  exists lb. rewrite !H1. split; reflexivity.
Defined.
