(* ===== verification/KAccess.v ===== *)
(** * Access through containers

    A user names an object by a container and an identifier.  What a
    successful [cobj_get] guarantees about both, and what the quota transfer
    that is built on it does. *)

From S2P Require Import Prelude Label LabelOrder LabelCache Blowfish KState KThread KObj KOps KGc KSys KAs KSched KLogic KNoErr KInv KExample KFlow KReach KEvolve KLabels KBounds.
From stdpp Require Import options.

Set Default Goal Selector "!".

(** ** The slots of a container *)

Definition ct_all_slots (ct : Container) : list container_slot := ct_slots ct ++ concat (ct_pages ct).

(** Container [c] has a slot for [id] with a reference. *)
Definition holds (s : kstate) (c id : Z) : Prop :=
  exists ko ct, ks_heap s !! c = Some ko /\ body ko = BContainer ct /\
    Exists (slot_matches id) (ct_all_slots ct).

Lemma get_container_ok c s ct s' :
  get_container c s = (Ok ct, s') -> s' = s /\ exists ko, ks_heap s !! c = Some ko /\ body ko = BContainer ct.
Proof.
  intros (ko & s1 & [Hk ->]%get_ko_ok & H)%bind_ok.
  destruct (body ko) eqn:E; try discriminate H. injection H as <- <-. eauto.
Qed.

Lemma get_page_ro_ok c n s s' : kobject_get_page c n page_shared_ro s = (Ok tt, s') -> s' = s.
Proof.
  intros (h & s1 & (ko & _ & -> & ->)%get_hdr_ok & H)%bind_ok.
  destruct (_ <=? _); [discriminate H|]. by injection H.
Qed.

Lemma res_nth_ok {A} (l : list A) i a : res_nth l i = Ok a -> l !! i = Some a.
Proof. unfold res_nth. by destruct (l !! i); intros H; simplify_eq. Qed.

Lemma slot_search_pages_ok id c page n s i s' :
  slot_search_pages (slot_matches id) c page_shared_ro page n s = (Ok (Some i), s') -> s' = s /\ holds s c id.
Proof.
  revert page. induction n as [|n IH]; intros page H; cbn [slot_search_pages] in H; [discriminate H|].
  apply bind_ok in H as ([] & s1 & ->%get_page_ro_ok & H).
  apply bind_ok in H as (ct & s2 & (-> & ko & Hk & Hb)%get_container_ok & H).
  apply bind_ok in H as (pg & s2 & [Hp ->]%lift_ok & H).
  destruct (list_find (slot_matches id) pg) as [[j cs]|] eqn:E; [|by eapply IH].
  injection H as <- <-. split; [done|]. exists ko, ct. split_and!; [done..|].
  apply list_find_Some in E as (Hj & Hm & _). apply res_nth_ok in Hp.
  apply Exists_exists. exists cs. split; [|done]. apply in_or_app. right.
  apply in_concat. exists pg. rewrite <- !list_elem_of_In. split; by eapply list_elem_of_lookup_2.
Qed.

Lemma container_slot_find_ok c id s i s' :
  container_slot_find c id page_shared_ro s = (Ok i, s') -> s' = s /\ holds s c id.
Proof.
  intros H. unfold container_slot_find in H.
  apply bind_ok in H as (ct & s1 & (-> & ko & Hk & Hb)%get_container_ok & H).
  destruct (list_find (slot_matches id) (ct_slots ct)) as [[j cs]|] eqn:E.
  - injection H as <- <-. split; [done|]. exists ko, ct. split_and!; [done..|].
    apply list_find_Some in E as (Hj & Hm & _). apply Exists_exists. exists cs. split; [|done].
    apply in_or_app. left. apply list_elem_of_In. by eapply list_elem_of_lookup_2.
  - apply bind_ok in H as (h & s1 & (k1 & Hk1 & -> & ->)%get_hdr_ok & H).
    apply bind_ok in H as (o & s1 & H1 & H). destruct o as [j|]; [|discriminate H]. injection H as <- <-.
    by eapply slot_search_pages_ok.
Qed.

(** ** Looking up a reference *)

(** What holds of an object that was found for a thread with header [th]. *)
Definition found (lab : Z -> option Label) (s : kstate) (th : kobject_hdr) (id : Z) (type : type_query) (iflow : info_flow_type) (k : Z) : Prop :=
  exists ko, ks_heap s !! k = Some ko /\ (k ∈ ks_list s) /\ ko_ref (hdr ko) <> 0 /\
    type_matches type (ko_type (hdr ko)) = true /\ (id <> kobject_id_thread_sg -> k = id) /\
    (ko_type (hdr ko) = kobj_label \/ iflow_ok lab th (hdr ko) iflow).

Lemma same_kinv s s' : same_but_cache s s' -> kinv s -> kinv s'.
Proof. intros ->. by apply kinvL_eq. Qed.

Lemma same_found lab s s' th id type iflow k :
  same_but_cache s s' -> found lab s' th id type iflow k -> found lab s th id type iflow k.
Proof. intros Hs (ko & H1 & H2 & H3 & H4 & H5 & H6). exists ko. rewrite Hs in H1, H2. done. Qed.

(** The container part of [cobj_get]: the container is readable and holds the
    object, is its parent, or is the object. *)
Definition named_by (lab : Z -> option Label) (s : kstate) (th : kobject_hdr) (ref : cobj_ref) (k : Z) : Prop :=
  exists c, found lab s th (container ref) (Some kobj_container) iflow_read c /\
    (object ref = c \/ (exists ko, ks_heap s !! k = Some ko /\ ko_parent (hdr ko) = container ref) \/
     holds s c (object ref)).

(** The check of the container, once the object [k] was found. *)
Definition cobj_container_check (ref : cobj_ref) (k : Z) : M unit :=
  r ← catch (container_find (container ref) iflow_read);
  match r with
  | inr e => if e =? E_RESTART then fail e else fail E_NOT_FOUND
  | inl c =>
      ch ← get_hdr c;
      if object ref =? ko_id ch then mret tt
      else
        parent ← (kh ← get_hdr k; mret (ko_parent kh =? container ref));
        if (parent : bool) then mret tt
        else container_slot_find c (object ref) page_shared_ro;; mret tt
  end.

Lemma cobj_container_check_ok lab s s' t th ref k :
  kinv s -> flow_inv lab s -> ks_cur s = Some t -> ks_heap s !! t = Some th ->
  cobj_container_check ref k s = (Ok tt, s') ->
  same_but_cache s s' /\ flow_inv lab s' /\ named_by lab s (hdr th) ref k.
Proof.
  intros HI HF Hcur Ht H. unfold cobj_container_check in H. apply bind_ok in H as ([c|e] & s1 & H1 & H).
  2:{ by destruct (e =? E_RESTART). }
  unfold catch, container_find in H1.
  destruct (kobject_get (container ref) (Some kobj_container) iflow_read s) as [[k1|e|] s3] eqn:E; simplify_eq.
  destruct (kobject_get_spec _ _ _ _ _ _ _ _ _ HI HF Hcur Ht E) as (Hs & HF1 & Hfound).
  assert (Hres : s' = s1 /\ (object ref = c \/ (exists ko, ks_heap s1 !! k = Some ko /\ ko_parent (hdr ko) = container ref) \/
     holds s1 c (object ref))).
  { apply bind_ok in H as (ch & s2 & (kc & Hkc & -> & ->)%get_hdr_ok & H).
    rewrite (proj1 (inv_obj _ _ (same_kinv _ _ Hs HI) _ _ Hkc)) in H.
    destruct (Z.eqb_spec (object ref) c) as [|]; [injection H as <-; auto|].
    apply bind_ok in H as (b & s2 & H2 & H). apply bind_ok in H2 as (kh & s4 & (kk & Hkk & -> & ->)%get_hdr_ok & H2).
    injection H2 as <- <-. destruct (Z.eqb_spec (ko_parent (hdr kk)) (container ref)) as [Ep|].
    - injection H as <-. split; [done|]. right. left. eauto.
    - apply bind_ok in H as (j & s4 & [-> Hh]%container_slot_find_ok & H). injection H as <-. auto. }
  destruct Hres as [-> Hres]. split_and!; [done|done|]. exists c. split; [done|].
  rewrite Hs in Hres. exact Hres.
Qed.

Lemma cobj_get_spec lab s s' t th ref type iflow k :
  kinv s -> flow_inv lab s -> ks_cur s = Some t -> ks_heap s !! t = Some th ->
  cobj_get ref type iflow s = (Ok k, s') ->
  same_but_cache s s' /\ flow_inv lab s' /\ found lab s (hdr th) (object ref) type iflow k /\
  (named_by lab s (hdr th) ref k \/ container ref = 0 /\ (object ref = kobject_id_thread_sg \/ object ref = t)).
Proof.
  intros HI HF Hcur Ht H. unfold cobj_get in H. apply bind_ok in H as (cur & s0 & H0 & H). minv H0. cbv zeta in H.
  apply bind_ok in H as (r0 & s1 & H1 & H). apply bind_ok in H as ([] & s2 & H2 & H).
  destruct r0 as [k0|e]; [|discriminate H]. injection H as <- <-.
  unfold catch in H1. destruct (kobject_get (object ref) type iflow s) as [[k1|e|] s3] eqn:E; simplify_eq.
  destruct (kobject_get_spec _ _ _ _ _ _ _ _ _ HI HF Hcur Ht E) as (Hs & HF1 & Hfound).
  destruct (negb ((container ref =? 0) && _)) eqn:Eg.
  - change (cobj_container_check ref k0 s1 = (Ok tt, s2)) in H2.
    eapply (cobj_container_check_ok lab _ _ t th) in H2 as (Hs2 & HF2 & Hn);
      [|by eapply same_kinv|done|by rewrite Hs|by rewrite Hs].
    split_and!; [by etrans|done|done|]. left. destruct Hn as (c & Hc & Hrest). exists c. split; [by eapply same_found|].
    rewrite Hs in Hrest. exact Hrest.
  - injection H2 as <-. split_and!; [done|done|done|]. right.
    apply negb_false_iff, andb_true_iff in Eg as [Ec Eo]. apply Z.eqb_eq in Ec. split; [done|].
    apply orb_true_iff in Eo as [Eo|Eo]; [left; by apply Z.eqb_eq in Eo|right].
    apply bool_decide_eq_true in Eo. rewrite Hcur in Eo. by injection Eo.
Qed.

(** C6: A user reference [(container, object)] is honoured only if the object
    exists with a reference and the requested type, the information flow of the
    access is allowed for the running thread by the contents of the label objects,
    which exist in memory or on disk (objects that are labels are exempt from
    this check), and the container is readable by it and either holds the object, is recorded as its parent, or is the object
    itself; the exceptions without a container are the thread itself and its
    own thread-local segment.  The lookup changes nothing but the cache of
    label comparisons. *)
Theorem cobj_get_mediates lab s s' t th ref type iflow k :
  kinv s -> flow_inv lab s -> ks_cur s = Some t -> ks_heap s !! t = Some th ->
  cobj_get ref type iflow s = (Ok k, s') ->
  same_but_cache s s' /\ flow_inv lab s' /\ found lab s (hdr th) (object ref) type iflow k /\
  (named_by lab s (hdr th) ref k \/ container ref = 0 /\ (object ref = kobject_id_thread_sg \/ object ref = t)).
Proof. apply cobj_get_spec. Qed.

Lemma cobj_get_mediates_witness :
  found (label_of ex_state) ex_state (hdr ex_thread) 13 None iflow_rw 13 /\ named_by (label_of ex_state) ex_state (hdr ex_thread) (COBJ 6 13) 13.
Proof.
  destruct (cobj_get_mediates (label_of ex_state) ex_state (cobj_get (COBJ 6 13) None iflow_rw ex_state).2 5 ex_thread (COBJ 6 13) None
              iflow_rw 13) as (_ & _ & Hf & [Hn|[H0 _]]);
    [apply ex_state_inv|apply ex_flow_inv|done|done|apply run_is; vm_compute; reflexivity| |discriminate H0].
  exact (conj Hf Hn).
Defined.

(** ** Moving quota *)

Definition hdr_of (s : kstate) (id : Z) : option kobject_hdr := hdr <$> ks_heap s !! id.

(** The new total of the child, as the code computes it. *)
Definition moved_total (ch : kobject_hdr) (nbytes : Z) : Z :=
  if 0 <? nbytes then
    if (CT_QUOTA_INF <=? ko_quota_total ch) || (CT_QUOTA_INF <=? u64 nbytes) then CT_QUOTA_INF
    else Z.min (u64 (ko_quota_total ch + u64 nbytes)) (CT_QUOTA_INF - 1)
  else u64 (ko_quota_total ch - u64 (- nbytes)).

(** The condition under which the code goes ahead. *)
Definition move_allowed (ph ch : kobject_hdr) (nbytes : Z) : Prop :=
  has_flag ch KOBJ_FIXED_QUOTA = false /\
  if 0 <? nbytes then ko_quota_total ph = CT_QUOTA_INF \/ u64 nbytes <= quota_avail ph
  else ko_quota_total ch <> CT_QUOTA_INF /\ ko_quota_used ch <= moved_total ch nbytes.

(** The last part of the handler: both headers are updated. *)
Lemma move_quota_stores P C n x s kp kc :
  P <> C -> ks_heap s !! P = Some kp -> ks_heap s !! C = Some kc ->
  exists s', (kobject_dirty P;; upd_hdr P (quota_used_add n);; kobject_dirty C;;
    upd_hdr C (set_ko_quota_total x);; mret 0) s = (Ok 0, s') /\
    hdr_of s' P = Some (quota_used_add n (add_flag KOBJ_DIRTY (hdr kp))) /\
    hdr_of s' C = Some (set_ko_quota_total x (add_flag KOBJ_DIRTY (hdr kc))) /\
    (forall i, i <> P -> i <> C -> ks_heap s' !! i = ks_heap s !! i).
Proof.
  intros Hne Hp Hc. unfold kobject_dirty.
  rewrite (bind_run_ok _ _ _ _ _ (upd_hdr_ok _ _ _ _ Hp)).
  erewrite (bind_run_ok (upd_hdr P _)); [|apply upd_hdr_ok; simpl; by rewrite lookup_insert_eq].
  erewrite (bind_run_ok (upd_hdr C _)); [|apply upd_hdr_ok; simpl; rewrite !lookup_insert_ne by done; exact Hc].
  erewrite (bind_run_ok (upd_hdr C _)); [|apply upd_hdr_ok; simpl; by rewrite lookup_insert_eq].
  eexists. split; [reflexivity|]. unfold hdr_of. simpl. split_and!.
  - by rewrite !lookup_insert_ne, lookup_insert_eq by done.
  - by rewrite lookup_insert_eq.
  - intros i Hi1 Hi2. by rewrite !lookup_insert_ne by done.
Qed.

(** The whole handler. *)
Lemma move_quota_run lab p c n s v s' t th :
  kinv s -> flow_inv lab s -> ks_cur s = Some t -> ks_heap s !! t = Some th ->
  p <> kobject_id_thread_sg -> c <> kobject_id_thread_sg -> p <> c -> n <> 0 ->
  sys_container_move_quota p c n s = (Ok v, s') ->
  found lab s (hdr th) p (Some kobj_container) iflow_rw p /\ found lab s (hdr th) c None iflow_rw c /\
  exists ph ch, hdr_of s p = Some ph /\ hdr_of s c = Some ch /\ move_allowed ph ch n /\
    hdr_of s' p = Some (quota_used_add n (add_flag KOBJ_DIRTY ph)) /\
    hdr_of s' c = Some (set_ko_quota_total (moved_total ch n) (add_flag KOBJ_DIRTY ch)) /\
    (forall i, i <> p -> i <> c -> ks_heap s' !! i = ks_heap s !! i).
Proof.
  intros HI HF Hcur Ht Hp Hc Hpc Hn H. unfold sys_container_move_quota in H. cbv zeta in H.
  apply Z.eqb_neq in Hn. rewrite Hn in H. apply Z.eqb_neq in Hn.
  apply bind_ok in H as (P & s1 & H1 & H). apply bind_ok in H as (C & s2 & H2 & H).
  destruct (kobject_get_spec _ _ _ _ _ _ _ _ _ HI HF Hcur Ht H1) as (Hs1 & HF1 & Hf1).
  apply (cobj_get_spec lab _ _ t th) in H2 as (Hs2 & HF2 & Hf2 & _);
    [|by eapply same_kinv|done|by rewrite Hs1|by rewrite Hs1].
  assert (P = p) as -> by (destruct Hf1 as (? & _ & _ & _ & _ & Hid & _); by apply Hid).
  assert (C = c) as -> by (destruct Hf2 as (? & _ & _ & _ & _ & Hid & _); by apply Hid).
  apply (same_found lab s) in Hf2; [|done]. split; [done|]. split; [done|].
  assert (Hh : ks_heap s2 = ks_heap s) by (rewrite Hs2, Hs1; done).
  apply bind_ok in H as (ch & s3 & (kc & Hkc & -> & ->)%get_hdr_ok & H).
  apply bind_ok in H as (ph & s3 & (kp & Hkp & -> & ->)%get_hdr_ok & H).
  destruct (has_flag (hdr kc) KOBJ_FIXED_QUOTA) eqn:Efq; [discriminate H|].
  apply bind_ok in H as (x & s3 & H3 & H).
  assert (Hx : s3 = s2 /\ x = moved_total (hdr kc) n /\ move_allowed (hdr kp) (hdr kc) n).
  { unfold moved_total, move_allowed, moved_total. destruct (0 <? n).
    - destruct (Z.eqb_spec (ko_quota_total (hdr kp)) CT_QUOTA_INF); destruct (Z.ltb_spec (quota_avail (hdr kp)) (u64 n));
        simpl in H3; try discriminate H3; destruct (_ || _); injection H3 as <- <-; auto.
    - destruct (Z.eqb_spec (ko_quota_total (hdr kc)) CT_QUOTA_INF); [discriminate H3|].
      destruct (Z.ltb_spec (u64 (ko_quota_total (hdr kc) - u64 (- n))) (ko_quota_used (hdr kc))); [discriminate H3|].
      injection H3 as <- <-. auto. }
  destruct Hx as (-> & -> & Hall). exists (hdr kp), (hdr kc).
  destruct (move_quota_stores p c n (moved_total (hdr kc) n) s2 kp kc Hpc Hkp Hkc) as (s4 & E & R1 & R2 & R3).
  rewrite E in H. injection H as <- <-. unfold hdr_of. rewrite <- Hh, Hkp, Hkc. done.
Qed.


(** The quota of a header is not overcommitted. *)
Definition quota_ok (h : kobject_hdr) : Prop :=
  0 <= ko_quota_used h /\ 0 <= ko_quota_total h <= CT_QUOTA_INF /\
  (ko_quota_total h = CT_QUOTA_INF \/ ko_quota_used h <= ko_quota_total h).

(** The arithmetic of the transfer. *)
Lemma moved_conserves ph ch n :
  quota_ok ph -> quota_ok ch -> move_allowed ph ch n -> - CT_QUOTA_INF < n < CT_QUOTA_INF ->
  ko_quota_total ch + n < CT_QUOTA_INF -> ko_quota_total ch <= ko_quota_used ph < CT_QUOTA_INF ->
  - n <= ko_quota_total ch ->
  quota_ok (quota_used_add n ph) /\ quota_ok (set_ko_quota_total (moved_total ch n) ch) /\
  ko_quota_used (quota_used_add n ph) - moved_total ch n = ko_quota_used ph - ko_quota_total ch.
Proof.
  intros (Hu1 & Ht1 & Hq1) (Hu2 & Ht2 & Hq2) (_ & Hall) Hn Hlt Hacc Hrev.
  unfold quota_ok, quota_used_add, moved_total, quota_avail in *. simpl. unfold CT_QUOTA_INF in *.
  assert (Hmod : forall z, 0 <= z < 2 ^ 64 -> u64 z = z) by (intros; by apply u64_small).
  destruct (Z.ltb_spec 0 n) as [Hpos|Hneg].
  - rewrite (Hmod n) in * by lia. rewrite (Hmod (ko_quota_used ph + n)) by lia.
    rewrite (Hmod (ko_quota_total ch + n)) by lia.
    replace (2 ^ 62 <=? ko_quota_total ch) with false by (symmetry; apply Z.leb_gt; lia).
    replace (2 ^ 62 <=? n) with false by (symmetry; apply Z.leb_gt; lia). simpl.
    rewrite Z.min_l by lia. split_and!; try lia.
    destruct Hq1 as [?|Hq1]; [by left|]. destruct Hall as [?|Hall]; [by left|right]. rewrite Hmod in Hall by lia. lia.
  - destruct Hall as [Hninf Hused]. rewrite (Hmod (- n)) in * by lia.
    rewrite (Hmod (ko_quota_total ch - - n)) in * by lia. rewrite (Hmod (ko_quota_used ph + n)) by lia.
    split_and!; lia.
Qed.

(** A quota transfer keeps both sides within their quota and creates none,
    provided that the parent has accounted for the child's quota and that no
    more is taken back than the child has: then the parent's used quota and the
    child's total change by the same amount. *)
Theorem move_quota_conserves lab p c n s v s' t th ph ch :
  kinv s -> flow_inv lab s -> ks_cur s = Some t -> ks_heap s !! t = Some th ->
  p <> kobject_id_thread_sg -> c <> kobject_id_thread_sg -> p <> c -> n <> 0 ->
  hdr_of s p = Some ph -> hdr_of s c = Some ch -> quota_ok ph -> quota_ok ch ->
  - CT_QUOTA_INF < n < CT_QUOTA_INF -> ko_quota_total ch + n < CT_QUOTA_INF ->
  ko_quota_total ch <= ko_quota_used ph < CT_QUOTA_INF -> - n <= ko_quota_total ch ->
  sys_container_move_quota p c n s = (Ok v, s') ->
  exists ph' ch', hdr_of s' p = Some ph' /\ hdr_of s' c = Some ch' /\ quota_ok ph' /\ quota_ok ch' /\
    ko_quota_used ph' - ko_quota_total ch' = ko_quota_used ph - ko_quota_total ch.
Proof.
  intros HI HF Hcur Ht Hp Hc Hpc Hn Hph Hch Q1 Q2 Hb Hlt Hacc Hrev H.
  destruct (move_quota_run _ _ _ _ _ _ _ _ _ HI HF Hcur Ht Hp Hc Hpc Hn H) as (_ & _ & ph1 & ch1 & E1 & E2 & Ha & R1 & R2 & _).
  simplify_eq. destruct (moved_conserves ph ch n Q1 Q2 Ha Hb Hlt Hacc Hrev) as (A1 & A2 & A3).
  eexists _, _. split; [exact R1|]. split; [exact R2|]. done.
Qed.


Lemma move_quota_conserves_witness :
  exists ph' ch', hdr_of (sys_container_move_quota 6 13 (-4096) ex_state).2 6 = Some ph' /\
    hdr_of (sys_container_move_quota 6 13 (-4096) ex_state).2 13 = Some ch' /\
    ko_quota_used ph' - ko_quota_total ch' = 300000 - 100000.
Proof.
  destruct (move_quota_conserves (label_of ex_state) 6 13 (-4096) ex_state 0 (sys_container_move_quota 6 13 (-4096) ex_state).2 5 ex_thread
              (hdr ex_root) (hdr ex_sub)) as (ph' & ch' & H1 & H2 & _ & _ & H3);
    [apply ex_state_inv|apply ex_flow_inv|done|done|done|done|done|done|done|done| | |done|done|done|done
    |apply run_is; vm_compute; reflexivity|].
  - split_and!; [done..|by left].
  - split_and!; [done..|by right].
  - exists ph', ch'. exact (conj H1 (conj H2 H3)).
Defined.


