(* ===== verification/NegCache.v ===== *)
(** * Small kernel utilities

    The cache of identifiers known to be absent from the disk, and the checked
    arithmetic of inc/safeint.h. *)

From S2P Require Import Prelude Label LabelCache Blowfish KState KThread KObj KOps KLogic.
From stdpp Require Import options.

Set Default Goal Selector "!".

(** ** The negative cache *)

(** 64 buckets of two entries. *)
Definition neg_wf (s : kstate) : Prop :=
  length (ks_neg s) = kobj_neg_hash /\
  Forall (fun b : nat * list Z => (b.1 < kobj_neg_size)%nat /\ length b.2 = kobj_neg_size) (ks_neg s).

(** The identifiers the cache claims to be absent. *)
Definition neg_has (s : kstate) (id : Z) : Prop := id ∈ (neg_bucket s id).2.

Lemma neg_contains_spec s id : exists b, kobject_negative_contains id s = (Ok b, s) /\ (b = true <-> neg_has s id).
Proof.
  eexists. split; [reflexivity|]. rewrite existsb_exists. unfold neg_has. split.
  - intros (e & He & ->%Z.eqb_eq). by apply list_elem_of_In.
  - intros H. exists id. split; [by apply list_elem_of_In|apply Z.eqb_refl].
Qed.

Lemma neg_idx_lt id : (neg_idx id < kobj_neg_hash)%nat.
Proof. unfold neg_idx, kobj_neg_hash. pose proof (Z.mod_pos_bound id 64). lia. Qed.

Lemma neg_bucket_wf s id : neg_wf s ->
  ks_neg s !! neg_idx id = Some (neg_bucket s id) /\
  ((neg_bucket s id).1 < kobj_neg_size)%nat /\ length (neg_bucket s id).2 = kobj_neg_size.
Proof.
  intros [Hl Hf]. destruct (lookup_lt_is_Some_2 (ks_neg s) (neg_idx id)) as [b Hb]; [rewrite Hl; apply neg_idx_lt|].
  unfold neg_bucket. rewrite Hb. split; [done|]. by apply (proj1 (list.Forall_lookup _ _) Hf (neg_idx id)).
Qed.

(** Replacing the bucket of [id]. *)
Definition neg_put (id : Z) (b : nat * list Z) (s : kstate) : kstate := set_ks_neg (<[neg_idx id := b]> (ks_neg s)) s.

Lemma neg_put_bucket s id id' b :
  neg_wf s -> neg_bucket (neg_put id b s) id' = if decide (neg_idx id' = neg_idx id) then b else neg_bucket s id'.
Proof.
  intros [Hl _]. unfold neg_bucket, neg_put. simpl. destruct (decide (neg_idx id' = neg_idx id)) as [->|Hne].
  - rewrite list_lookup_insert_eq; [done|]. rewrite Hl. apply neg_idx_lt.
  - by rewrite list_lookup_insert_ne by done.
Qed.

Lemma neg_put_wf s id b :
  neg_wf s -> (b.1 < kobj_neg_size)%nat -> length b.2 = kobj_neg_size -> neg_wf (neg_put id b s).
Proof.
  intros [Hl Hf] H1 H2. split; simpl; [by rewrite length_insert|]. by apply Forall_insert.
Qed.

Lemma negative_insert_run id s : (kobject_negative_insert id s).2 =
  neg_put id ((((neg_bucket s id).1 + 1) mod kobj_neg_size)%nat, <[(neg_bucket s id).1 := id]> (neg_bucket s id).2) s.
Proof. unfold kobject_negative_insert, modify, neg_put. cbn [snd]. by destruct (neg_bucket s id). Qed.

Lemma negative_remove_run id s : (kobject_negative_remove id s).2 =
  neg_put id ((neg_bucket s id).1, map (fun e => if e =? id then 0 else e) (neg_bucket s id).2) s.
Proof. unfold kobject_negative_remove, modify, neg_put. cbn [snd]. by destruct (neg_bucket s id). Qed.

Lemma same_bucket s id id' : neg_idx id' = neg_idx id -> neg_bucket s id' = neg_bucket s id.
Proof. unfold neg_bucket. by intros ->. Qed.

Lemma negative_insert_spec s id id' :
  neg_wf s -> let si := (kobject_negative_insert id s).2 in
  neg_wf si /\ neg_has si id /\ (id' <> id -> neg_has si id' -> neg_has s id').
Proof.
  intros Hwf si. pose proof (neg_bucket_wf s id Hwf) as (Hb & Hn & Hlen). unfold si. rewrite negative_insert_run.
  split_and!.
  - apply neg_put_wf; [done|by apply Nat.mod_upper_bound|]. cbn [snd]. by rewrite length_insert.
  - unfold neg_has. rewrite neg_put_bucket, decide_True by done. cbn [snd].
    apply list_elem_of_lookup. exists (neg_bucket s id).1. apply list_lookup_insert_eq. lia.
  - unfold neg_has. intros Hne. rewrite neg_put_bucket by done.
    destruct (decide (neg_idx id' = neg_idx id)) as [Ei|]; [|done]. rewrite (same_bucket s id id' Ei). cbn [snd].
    intros [i Hi]%list_elem_of_lookup. apply list_elem_of_lookup. destruct (decide (i = (neg_bucket s id).1)) as [->|Hni].
    + rewrite list_lookup_insert_eq in Hi by lia. congruence.
    + rewrite list_lookup_insert_ne in Hi by done. eauto.
Qed.

Lemma negative_remove_spec s id id' :
  neg_wf s -> id <> 0 -> let sr := (kobject_negative_remove id s).2 in
  neg_wf sr /\ ~ neg_has sr id /\ (id' <> id -> id' <> 0 -> neg_has sr id' <-> neg_has s id').
Proof.
  intros Hwf Hnz sr. pose proof (neg_bucket_wf s id Hwf) as (Hb & Hn & Hlen). unfold sr. rewrite negative_remove_run.
  split_and!.
  - apply neg_put_wf; [done|done|]. cbn [snd]. by rewrite length_map.
  - unfold neg_has. rewrite neg_put_bucket, decide_True by done. cbn [snd].
    rewrite list_elem_of_In, in_map_iff. intros (e & He & _). destruct (Z.eqb_spec e id); congruence.
  - unfold neg_has. intros Hne Hnz'. rewrite neg_put_bucket by done.
    destruct (decide (neg_idx id' = neg_idx id)) as [Ei|]; [|done]. rewrite (same_bucket s id id' Ei). cbn [snd].
    rewrite !list_elem_of_In, in_map_iff. split.
    + intros (e & He & Hin). destruct (Z.eqb_spec e id); [congruence|by subst].
    + intros Hin. exists id'. split; [|done]. destruct (Z.eqb_spec id' id); [congruence|done].
Qed.

(** The cache of absent objects gives no false alarm: an inserted
    identifier is found at once, a removed one is gone, and any other
    identifier that is found after either operation was found before; removal
    loses no other identifier, and the buckets keep their shape. *)
Theorem negative_cache_correct s id id' :
  neg_wf s -> id <> 0 ->
  let si := (kobject_negative_insert id s).2 in
  let sr := (kobject_negative_remove id s).2 in
  (neg_wf si /\ neg_has si id /\ (id' <> id -> neg_has si id' -> neg_has s id')) /\
  (neg_wf sr /\ ~ neg_has sr id /\ (id' <> id -> id' <> 0 -> neg_has sr id' <-> neg_has s id')) /\
  (exists b, kobject_negative_contains id s = (Ok b, s) /\ (b = true <-> neg_has s id)).
Proof.
  intros Hwf Hnz. split; [by apply negative_insert_spec|]. split; [by apply negative_remove_spec|].
  apply neg_contains_spec.
Qed.

(** ** Checked arithmetic *)

(** The overflow flag of [safe_add] and [safe_mul] is raised exactly when
    the exact result does not fit in 64 bits; otherwise the result is exact. *)
Theorem safe_ops_exact a b :
  is_u64 a -> is_u64 b ->
  ((safe_add64 a b).2 = false <-> a + b < 2 ^ 64) /\ ((safe_add64 a b).2 = false -> (safe_add64 a b).1 = a + b) /\
  ((safe_mul64 a b).2 = false <-> a * b < 2 ^ 64) /\ ((safe_mul64 a b).2 = false -> (safe_mul64 a b).1 = a * b).
Proof.
  unfold is_u64. intros Ha Hb.
  assert (Hadd : (safe_add64 a b).2 = false <-> a + b < 2 ^ 64).
  { unfold safe_add64. cbn [snd]. rewrite orb_false_iff, !Z.ltb_ge. unfold u64.
    destruct (Z_lt_ge_dec (a + b) (2 ^ 64)); [rewrite Z.mod_small by lia; lia|].
    replace (a + b) with (a + b - 2 ^ 64 + 1 * 2 ^ 64) by lia. rewrite Z.mod_add, Z.mod_small by lia. lia. }
  assert (Hmul : (safe_mul64 a b).2 = false <-> a * b < 2 ^ 64).
  { unfold safe_mul64. cbn [snd]. rewrite andb_false_iff, !negb_false_iff, !Z.eqb_eq. split.
    - intros [->|Hq]; [lia|]. destruct (decide (b = 0)) as [->|Hb0]; [lia|].
      pose proof (Z.mul_div_le (u64 (a * b)) b ltac:(lia)). unfold u64 in *.
      pose proof (Z.mod_pos_bound (a * b) (2 ^ 64) ltac:(lia)). rewrite Hq in *. lia.
    - intros Hlt. destruct (decide (b = 0)) as [->|Hb0]; [by left|right].
      unfold u64. rewrite Z.mod_small by lia. apply Z.div_mul. lia. }
  split_and!; [done| |done|].
  - intros H%Hadd. unfold safe_add64, u64. cbn [fst]. apply Z.mod_small. lia.
  - intros H%Hmul. unfold safe_mul64, u64. cbn [fst]. apply Z.mod_small. lia.
Qed.

Lemma negative_cache_correct_witness :
  let s := KState ∅ [] [] neg_init compare_cache_init None None ∅ ∅ ∅ (BfCtx [] []) 0 0 0 0 false
             (PstateOp 0 (0, 0, 0)) None None 0 0 [] [] in
  neg_has (kobject_negative_insert 130 s).2 130 /\ ~ neg_has (kobject_negative_remove 130 s).2 130.
Proof.
  intros s. destruct (negative_cache_correct s 130 2) as ((_ & H1 & _) & (_ & H2 & _) & _); [|done|].
  - split; [done|]. apply Forall_replicate. split; [unfold kobj_neg_size; simpl; lia|reflexivity].
  - exact (conj H1 H2).
Defined.

Lemma safe_ops_exact_witness : (safe_mul64 (2 ^ 40) (2 ^ 30)).2 = true /\ (safe_add64 7 8).1 = 15.
Proof.
  destruct (safe_ops_exact (2 ^ 40) (2 ^ 30)) as (_ & _ & H & _); [split; lia|split; lia|].
  split; [|reflexivity]. destruct (safe_mul64 (2 ^ 40) (2 ^ 30)).2 eqn:E; [reflexivity|].
  pose proof (proj1 H eq_refl) as H0. lia.
Defined.
