(* ===== verification/KRun.v ===== *)
(** * Scheduling

    Which thread [schedule] chooses, in the presence of wrap-around of the pass
    values, and why its loop ends: every round that does not end takes a thread
    out of the set of runnable ones. *)

From S2P Require Import Prelude Label LabelOrder LabelCache Blowfish KState KThread KObj KOps KGc KSys KAs KSched KLogic KNoErr KInv KExample KFlow KReach KEvolve KLabels KBounds.
From stdpp Require Import options.

Set Default Goal Selector "!".

(** ** Pass values *)

(** The distance of a pass value from a base, modulo 2^64. *)
Definition pass_off (base p : Z) : Z := u64 (p - base).

(** Two values less than half the range apart compare by their distances. *)
Lemma sched_pass_below_window base p q :
  pass_off base p < 2 ^ 63 -> pass_off base q < 2 ^ 63 ->
  sched_pass_below p q = true <-> pass_off base p < pass_off base q.
Proof.
  unfold sched_pass_below, pass_off. intros Hp Hq.
  assert (Hm : u64 (p - q) = u64 (u64 (p - base) - u64 (q - base))).
  { rewrite u64_sub_l, u64_sub_r. replace (p - base - (q - base)) with (p - q) by lia. done. }
  pose proof (u64_range (p - base)) as Rp. pose proof (u64_range (q - base)) as Rq. unfold is_u64 in Rp, Rq.
  unfold i64. rewrite Hm. set (x := u64 (p - base)) in *. set (y := u64 (q - base)) in *.
  rewrite Z.ltb_lt. destruct (Z_lt_ge_dec x y) as [Hlt|Hge].
  - unfold u64. replace (x - y) with (x - y + 2 ^ 64 + (-1) * 2 ^ 64) by lia.
    rewrite Z.mod_add, Z.mod_small by lia. destruct (Z.ltb_spec (x - y + 2 ^ 64) (2 ^ 63)); lia.
  - rewrite u64_small by (unfold is_u64; lia). destruct (Z.ltb_spec (x - y) (2 ^ 63)); lia.
Qed.

Lemma min_pass_spec base best ps b bp :
  (forall t p, (t, p) ∈ ps -> pass_off base p < 2 ^ 63) ->
  (forall t p, best = Some (t, p) -> pass_off base p < 2 ^ 63) ->
  min_pass best ps = Some (b, bp) ->
  ((b, bp) ∈ ps \/ best = Some (b, bp)) /\
  (forall t p, (t, p) ∈ ps \/ best = Some (t, p) -> pass_off base bp <= pass_off base p).
Proof.
  revert best. induction ps as [|[t p] ps IH]; intros best Hps Hb H; cbn [min_pass] in H.
  - subst best. split; [by right|]. intros t p [[]%not_elem_of_nil|[= <- <-]]. lia.
  - assert (Hp : pass_off base p < 2 ^ 63) by (eapply (Hps t p); by left).
    assert (Hps' : forall t p, (t, p) ∈ ps -> pass_off base p < 2 ^ 63) by (intros; eapply (Hps t0 p0); by right).
    assert (Hnew : forall best', (best' = Some (t, p) \/ best' = best) ->
       (forall t0 p0, best' = Some (t0, p0) -> pass_off base p0 < 2 ^ 63)).
    { intros best' [->| ->] t0 p0 E; [by simplify_eq|by eapply Hb]. }
    destruct best as [[tb pb]|].
    + pose proof (sched_pass_below_window base p pb Hp (Hb _ _ eq_refl)) as Hw.
      destruct (sched_pass_below p pb).
      * destruct (IH _ Hps' (Hnew _ (or_introl eq_refl)) H) as [H1 H2]. split; [set_solver|].
        intros t0 p0 [[[= -> ->]|Hin]%elem_of_cons|[= -> ->]]; [eapply H2; by right|eapply H2; by left|].
        transitivity (pass_off base p); [eapply H2; by right|]. pose proof (proj1 Hw eq_refl). lia.
      * destruct (IH _ Hps' (Hnew _ (or_intror eq_refl)) H) as [H1 H2]. split; [set_solver|].
        intros t0 p0 [[[= -> ->]|Hin]%elem_of_cons|[= -> ->]]; [|eapply H2; by left|eapply H2; by right].
        transitivity (pass_off base pb); [eapply H2; by right|].
        destruct (Z_lt_ge_dec (pass_off base p) (pass_off base pb)) as [Hl|]; [apply Hw in Hl; done|lia].
    + destruct (IH _ Hps' (Hnew _ (or_introl eq_refl)) H) as [H1 H2]. split; [set_solver|].
      intros t0 p0 [[[= -> ->]|Hin]%elem_of_cons|[=]]; [eapply H2; by right|eapply H2; by left].
Qed.

Lemma min_pass_some best ps : min_pass best ps = None -> best = None /\ ps = [].
Proof.
  revert best. induction ps as [|[t p] ps IH]; intros best H; cbn [min_pass] in H; [done|].
  destruct best as [[tb pb]|]; [destruct (sched_pass_below p pb)|]; apply IH in H as [H _]; done.
Qed.

(** ** The threads that are ready *)

Definition thread_of (s : kstate) (t : Z) : option Thread :=
  ko ← ks_heap s !! t; match body ko with BThread th => Some th | _ => None end.

Lemma get_thread_thread_of t s th s' : get_thread t s = (Ok th, s') -> s' = s /\ thread_of s t = Some th.
Proof. intros (ko & Hk & Hb & ->)%get_thread_ok. unfold thread_of. rewrite Hk. simpl. by rewrite Hb. Qed.

(** What the scheduler reads of a thread. *)
Definition key (th : Thread) : thread_status_t * Z * bool := (th_status th, th_sched_pass th, th_linked th).

Definition runq (s : kstate) : list Z := tlist_get s TL_runnable.

(** A runnable thread that is not on the run queue. *)
Definition stray (s : kstate) (t : Z) : Prop :=
  (t ∉ runq s) /\ th_status <$> thread_of s t = Some thread_runnable.

(** Outside [T], no thread joins the run queue, those that stay on it keep their
    status, pass and link, and those that leave it are no longer runnable. *)
Definition rq (T : list Z) (s s' : kstate) : Prop :=
  ks_cur s' = ks_cur s /\
  (forall t, t ∉ T -> stray s' t -> stray s t) /\
  forall t, t ∉ T -> t ∈ runq s' -> (t ∈ runq s) /\ key <$> thread_of s' t = key <$> thread_of s t.

#[export] Instance rq_preorder T : PreOrder (rq T).
Proof.
  split; [done|]. intros s1 s2 s3 (C1 & S1 & H1) (C2 & S2 & H2). split_and!; [congruence|by auto|]. intros t Hn Ht.
  destruct (H2 t Hn Ht) as [Ht2 E2]. destruct (H1 t Hn Ht2) as [Ht1 E1]. split; [done|congruence].
Qed.

(** The part of the state that [rq] looks at. *)
Definition same_run (s s' : kstate) : Prop :=
  ks_cur s' = ks_cur s /\ ks_tlists s' = ks_tlists s /\ forall t, thread_of s' t = thread_of s t.

Lemma same_run_rq T s s' : same_run s s' -> rq T s s'.
Proof.
  intros (Hc & Hl & Ht). assert (Hq : runq s' = runq s) by (unfold runq, tlist_get; by rewrite Hl).
  split_and!; [done| |]; intros t _; unfold stray; by rewrite Hq, Ht.
Qed.

Lemma thread_of_insert s id ko t :
  thread_of (set_ks_heap (<[id := ko]> (ks_heap s)) s) t =
  if decide (t = id) then match body ko with BThread th => Some th | _ => None end else thread_of s t.
Proof.
  unfold thread_of. simpl. destruct (decide (t = id)) as [->|]; [by rewrite lookup_insert_eq|by rewrite lookup_insert_ne].
Qed.

Lemma rq_upd_hdr T id f : Keeps (rq T) (upd_hdr id f).
Proof.
  apply keeps_upd_ko; [apply _|]. intros s ko Hk. apply same_run_rq. split_and!; [done..|].
  intros t. rewrite thread_of_insert. destruct (decide (t = id)) as [->|]; [|done].
  unfold thread_of. rewrite Hk. done.
Qed.

Lemma rq_upd_thread T id f :
  (id ∈ T \/ forall th, key (f th) = key th) -> Keeps (rq T) (upd_thread id f).
Proof.
  intros Hf s r s' [(th & s1 & (ko & Hk & Hb & ->)%get_thread_ok & H2)|[(e & H & ->)|[_ ->]]]%bind_run Hp; [| |done].
  - unfold put_body in H2. rewrite (upd_ko_ok _ _ _ _ Hk) in H2. injection H2 as <- <-.
    assert (E : forall t, t ∉ T -> key <$> thread_of (set_ks_heap (<[id:=set_body (BThread (f th)) ko]> (ks_heap s)) s) t
      = key <$> thread_of s t).
    { intros t Hn. rewrite thread_of_insert. destruct (decide (t = id)) as [->|]; [|done].
      destruct Hf as [?|Hf]; [done|]. unfold thread_of. rewrite Hk. simpl. rewrite Hb. simpl. by rewrite Hf. }
    split_and!; [done| |intros t Hn H1; by rewrite E].
    intros t Hn [H1 H2]. split; [done|]. specialize (E t Hn). apply (f_equal (fmap (fst ∘ fst))) in E.
    rewrite <- !option_fmap_compose in E. etrans; [symmetry; exact E|exact H2].
  - by eapply (keeps_get_thread (rq T)).
Qed.

Lemma rq_modify T f : (forall s, same_run s (f s)) -> Keeps (rq T) (modify f).
Proof. intros Hf. apply keeps_modify; [apply _|]. intros s. by apply same_run_rq. Qed.

Lemma rq_next_page T : Keeps (rq T) next_page.
Proof. apply keeps_next_page; [apply _|]. intros. by apply same_run_rq. Qed.
Lemma rq_tsc T : Keeps (rq T) karch_get_tsc.
Proof. apply keeps_tsc; [apply _|]. intros. by apply same_run_rq. Qed.

Ltac rq_thread_tac :=
  apply rq_upd_thread; first [ by left | left; by apply list_elem_of_here | right; by intros [] ].

#[export] Hint Resolve rq_upd_hdr rq_next_page rq_tsc : keeps.
#[export] Hint Extern 3 (Keeps (rq _) (upd_thread _ _)) => rq_thread_tac : keeps.
#[export] Hint Extern 3 (Keeps (rq _) (modify _)) => apply rq_modify; intros ?; split_and!; done : keeps.

(** ** The operations that a round of the scheduler runs *)

Lemma rq_kobject_dirty T id : Keeps (rq T) (kobject_dirty id).
Proof. unfold kobject_dirty. keeps. Qed.
#[export] Hint Resolve rq_kobject_dirty : keeps.
Lemma rq_pin T id : Keeps (rq T) (kobject_pin_hdr id).
Proof. unfold kobject_pin_hdr, gc_remove. keeps. Qed.
Lemma rq_unpin T id : Keeps (rq T) (kobject_unpin_hdr id).
Proof. unfold kobject_unpin_hdr, gc_insert. keeps. Qed.
#[export] Hint Resolve rq_pin rq_unpin : keeps.
Lemma rq_thread_pin T t : Keeps (rq T) (thread_pin t).
Proof. unfold thread_pin. keeps. Qed.
Lemma rq_thread_unpin T t : Keeps (rq T) (thread_unpin t).
Proof. unfold thread_unpin. keeps. Qed.
Lemma rq_global_pass_update T p : Keeps (rq T) (global_pass_update p).
Proof. unfold global_pass_update. keeps. Qed.
#[export] Hint Resolve rq_thread_pin rq_thread_unpin rq_global_pass_update : keeps.
Lemma rq_sync_remove_slots T t slots : Keeps (rq T) (sync_remove_slots t slots).
Proof. revert t. induction slots as [|i rest IH]; intros t; cbn [sync_remove_slots]; keeps. Qed.
#[export] Hint Resolve rq_sync_remove_slots : keeps.
Lemma rq_sync_remove_thread T t : Keeps (rq T) (sync_remove_thread t).
Proof. unfold sync_remove_thread. keeps. Qed.
#[export] Hint Resolve rq_sync_remove_thread : keeps.

Lemma tlists_remove_sub t m m' q x :
  tlists_remove t m = Ok m' -> x ∈ default [] (m' !! q) <-> (x ∈ default [] (m !! q)) /\ x <> t.
Proof.
  unfold tlists_remove. destruct (existsb _ _); intros H; simplify_eq. rewrite lookup_fmap.
  destruct (m !! q) as [l|]; simpl; [|set_solver]. rewrite list_elem_of_filter. tauto.
Qed.

(** Only the threads in [T] change their place on the run queue. *)
Lemma rq_lists T q s :
  (forall x, x ∉ T -> (x ∈ runq (set_ks_tlists q s)) <-> (x ∈ runq s)) -> rq T s (set_ks_tlists q s).
Proof.
  intros H. split_and!; [done| |].
  - intros x Hn [H1 H2]. split; [by rewrite <- H|done].
  - intros x Hn Hx. split; [by apply H|done].
Qed.

Section transition.
Context (T : list Z) (t : Z) (Ht : t ∈ T).

Lemma rq_sched_join : Keeps (rq T) (sched_join t).
Proof using Ht. unfold sched_join. keeps. Qed.
Lemma rq_sched_leave : Keeps (rq T) (sched_leave t).
Proof using Ht. unfold sched_leave. keeps. Qed.
Hint Resolve rq_sched_join rq_sched_leave : keeps.
Lemma rq_thread_sched_adjust b : Keeps (rq T) (thread_sched_adjust t b).
Proof using Ht. unfold thread_sched_adjust. keeps. Qed.
Lemma rq_thread_link q : Keeps (rq T) (thread_link t q).
Proof using Ht.
  unfold thread_link. apply keeps_bind; [apply _|keeps|intros th]. apply keeps_bind; [apply _|keeps|intros _].
  apply keeps_bind; [apply _| |intros _; keeps]. apply keeps_modify; [apply _|]. intros s. apply rq_lists.
  intros x Hn. unfold runq, tlist_get. simpl. destruct (decide (q = TL_runnable)) as [->|Hne].
  - rewrite lookup_insert_eq. simpl. rewrite elem_of_cons. split; [intros [->|?]|]; auto. done.
  - by rewrite lookup_insert_ne by done.
Qed.

Lemma rq_thread_unlink : Keeps (rq T) (thread_unlink t).
Proof using Ht.
  unfold thread_unlink. apply keeps_bind; [apply _|keeps|intros th]. apply keeps_bind; [apply _| |intros _; keeps].
  apply keeps_when; [apply _|].
  intros s r s' H Hp.
  apply bind_run in H as [(q & s1 & H1 & H)|[(e & H1 & ->)|[_ ->]]]; [|discriminate H1|done].
  unfold gets in H1. injection H1 as <- <-.
  apply bind_run in H as [(q' & s1 & H1 & H)|[(e & H1 & ->)|[_ ->]]]; [| |done].
  2:{ unfold lift, tlists_remove in H1. by destruct (existsb _ _). }
  apply lift_ok in H1 as [Hq ->].
  apply bind_run in H as [([] & s1 & H1 & H)|[(e & H1 & ->)|[_ ->]]]; [|discriminate H1|done].
  unfold modify in H1. injection H1 as <-.
  assert (E1 : rq T s (set_ks_tlists q' s)).
  { apply rq_lists. intros x Hn. unfold runq, tlist_get. simpl. rewrite (tlists_remove_sub _ _ _ _ _ Hq).
    split; [tauto|]. intros Hx. split; [done|]. by intros ->. }
  etrans; [exact E1|]. eapply keeps_run; [exact H| |done]. keeps.
Qed.
End transition.
#[export] Hint Resolve rq_thread_sched_adjust rq_thread_link rq_thread_unlink : keeps.
#[export] Hint Extern 1 (_ ∈ [_]) => apply list_elem_of_here : keeps.

(** ** Leaving the run queue *)

(** A thread on the run queue knows that it is on a list. *)
Definition linkedq (t : Z) (s : kstate) : Prop :=
  t ∈ runq s -> exists th, thread_of s t = Some th /\ th_linked th = true.
Definition offq (t : Z) (s : kstate) : Prop := t ∉ runq s.

(** Operations that leave the lists, the link and the status alone keep both. *)
Definition link (th : Thread) : bool * thread_status_t := (th_linked th, th_status th).
Definition same_link (t : Z) (s s' : kstate) : Prop :=
  ks_tlists s' = ks_tlists s /\ link <$> thread_of s' t = link <$> thread_of s t.

#[export] Instance same_link_preorder t : PreOrder (same_link t).
Proof. split; [done|]. intros s1 s2 s3 [] []. split; congruence. Qed.

Lemma same_link_linkedq t s s' : same_link t s s' -> linkedq t s -> linkedq t s'.
Proof.
  intros [Hl E] H Hin. unfold runq, tlist_get in Hin. rewrite Hl in Hin. destruct (H Hin) as (th & Hth & Hk).
  rewrite Hth in E. simpl in E. apply fmap_Some in E as (th' & -> & E). exists th'. split; [done|]. unfold link in E. congruence.
Qed.

Lemma sl_upd_hdr t id f : Keeps (same_link t) (upd_hdr id f).
Proof.
  apply keeps_upd_ko; [apply _|]. intros s ko Hk. split; [done|]. rewrite thread_of_insert.
  destruct (decide (t = id)) as [->|]; [|done]. unfold thread_of. by rewrite Hk.
Qed.
Lemma sl_upd_thread t id f : (forall th, link (f th) = link th) -> Keeps (same_link t) (upd_thread id f).
Proof.
  intros Hf s r s' [(th & s1 & (ko & Hk & Hb & ->)%get_thread_ok & H2)|[(e & H & ->)|[_ ->]]]%bind_run Hp; [| |done].
  - unfold put_body in H2. rewrite (upd_ko_ok _ _ _ _ Hk) in H2. injection H2 as <- <-.
    split; [done|]. rewrite thread_of_insert. destruct (decide (t = id)) as [->|]; [|done].
    unfold thread_of. rewrite Hk. simpl. rewrite Hb. simpl. by rewrite Hf.
  - by eapply (keeps_get_thread (same_link t)).
Qed.
Lemma sl_modify t f :
  (forall s, ks_heap (f s) = ks_heap s /\ ks_tlists (f s) = ks_tlists s) -> Keeps (same_link t) (modify f).
Proof. intros Hf. apply keeps_modify; [apply _|]. intros s. destruct (Hf s) as [E1 E2]. split; [done|]. unfold thread_of. by rewrite E1. Qed.
Lemma sl_tsc t : Keeps (same_link t) karch_get_tsc.
Proof. apply keeps_tsc; [apply _|]. done. Qed.

#[export] Hint Resolve sl_upd_hdr sl_tsc : keeps.
#[export] Hint Extern 3 (Keeps (same_link _) (upd_thread _ _)) => apply sl_upd_thread; by intros [] : keeps.
#[export] Hint Extern 3 (Keeps (same_link _) (modify _)) => apply sl_modify; done : keeps.

Lemma sl_pin t id : Keeps (same_link t) (kobject_pin_hdr id).
Proof. unfold kobject_pin_hdr, gc_remove. keeps. Qed.
Lemma sl_unpin t id : Keeps (same_link t) (kobject_unpin_hdr id).
Proof. unfold kobject_unpin_hdr, gc_insert. keeps. Qed.
Lemma sl_sync_remove_slots t x slots : Keeps (same_link t) (sync_remove_slots x slots).
Proof. revert x. induction slots as [|i rest IH]; intros x; cbn [sync_remove_slots]; keeps. Qed.
Lemma sl_global_pass_update t p : Keeps (same_link t) (global_pass_update p).
Proof. unfold global_pass_update. keeps. Qed.
Lemma sl_kobject_dirty t id : Keeps (same_link t) (kobject_dirty id).
Proof. unfold kobject_dirty. keeps. Qed.
#[export] Hint Resolve sl_pin sl_unpin sl_sync_remove_slots sl_global_pass_update sl_kobject_dirty : keeps.
Lemma sl_thread_pin t x : Keeps (same_link t) (thread_pin x).
Proof. unfold thread_pin. keeps. Qed.
Lemma sl_thread_unpin t x : Keeps (same_link t) (thread_unpin x).
Proof. unfold thread_unpin. keeps. Qed.
Lemma sl_sync_remove_thread t x : Keeps (same_link t) (sync_remove_thread x).
Proof. unfold sync_remove_thread. keeps. Qed.
Lemma sl_thread_sched_adjust t x b : Keeps (same_link t) (thread_sched_adjust x b).
Proof. unfold thread_sched_adjust, sched_leave, sched_join. keeps. Qed.
#[export] Hint Resolve sl_thread_pin sl_thread_unpin sl_sync_remove_thread sl_thread_sched_adjust : keeps.

Lemma same_link_offq t s s' : same_link t s s' -> offq t s -> offq t s'.
Proof. intros [Hl _]. unfold offq, runq, tlist_get. by rewrite Hl. Qed.

Lemma offq_upd_thread t id f s s' : upd_thread id f s = (Ok tt, s') -> offq t s -> offq t s'.
Proof.
  intros (th & s1 & (ko & Hk & Hb & ->)%get_thread_ok & H)%bind_ok. unfold put_body in H.
  rewrite (upd_ko_ok _ _ _ _ Hk) in H. by injection H as <-.
Qed.

Lemma thread_unlink_offq t s s' : thread_unlink t s = (Ok tt, s') -> linkedq t s -> offq t s'.
Proof.
  intros H Hl. unfold thread_unlink in H.
  apply bind_ok in H as (th & s1 & [-> Hth]%get_thread_thread_of & H).
  apply bind_ok in H as ([] & s2 & H2 & H).
  assert (Ho : offq t s2).
  { destruct (th_linked th) eqn:El; cbn [whenM] in H2.
    - apply bind_ok in H2 as (q & s1 & H1 & H2). unfold gets in H1. injection H1 as <- <-.
      apply bind_ok in H2 as (q' & s1 & [Hq ->]%lift_ok & H2).
      apply bind_ok in H2 as ([] & s1 & H1 & H2). unfold modify in H1. injection H1 as <-.
      eapply offq_upd_thread; [exact H2|]. intros Hx. by apply (tlists_remove_sub _ _ _ _ _ Hq) in Hx as [_ ?].
    - injection H2 as <-. intros Hin. destruct (Hl Hin) as (th' & Hth' & E). congruence. }
  eapply same_link_offq; [|exact Ho]. eapply keeps_run; [exact H|keeps|done].
Qed.

Lemma thread_link_offq t q s s' : thread_link t q s = (Ok tt, s') -> q <> TL_runnable -> offq t s -> offq t s'.
Proof.
  intros H Hq Ho. unfold thread_link in H.
  apply bind_ok in H as (th & s1 & [-> Hth]%get_thread_thread_of & H).
  apply bind_ok in H as ([] & s2 & H2 & H). minv H2.
  apply bind_ok in H as ([] & s3 & H3 & H). unfold modify in H3. injection H3 as <-.
  eapply offq_upd_thread; [exact H|]. unfold offq, runq, tlist_get in *. simpl. by rewrite lookup_insert_ne.
Qed.

(** Every thread on the run queue knows that it is on a list. *)
Definition runq_linked (s : kstate) : Prop := forall t, linkedq t s.

(** The run queue does not grow; the current thread may be another one. *)
Definition shrinks (s s' : kstate) : Prop :=
  (forall t, stray s' t -> stray s t) /\
  forall t, t ∈ runq s' -> (t ∈ runq s) /\ key <$> thread_of s' t = key <$> thread_of s t.

#[export] Instance shrinks_preorder : PreOrder shrinks.
Proof.
  split; [done|]. intros s1 s2 s3 [S1 H1] [S2 H2]. split; [by auto|]. intros t Ht.
  destruct (H2 t Ht) as [Ht2 E2]. destruct (H1 t Ht2) as [Ht1 E1]. split; [done|congruence].
Qed.

Lemma rq_shrinks s s' : rq [] s s' -> shrinks s s'.
Proof. intros (_ & Hs & H). split; intros t; [apply Hs|apply H]; set_solver. Qed.

Lemma shrinks_linked s s' : shrinks s s' -> runq_linked s -> runq_linked s'.
Proof.
  intros [_ H] Hl t Hin. destruct (H t Hin) as [Hin0 E]. destruct (Hl t Hin0) as (th & Hth & Hk).
  rewrite Hth in E. simpl in E. apply fmap_Some in E as (th' & -> & E). exists th'. split; [done|].
  unfold key in E. congruence.
Qed.

Lemma rq_linked s s' : rq [] s s' -> runq_linked s -> runq_linked s'.
Proof. intros H. by apply shrinks_linked, rq_shrinks. Qed.

(** The run queue does not grow, in a state where it is consistent. *)
Definition crq (s s' : kstate) : Prop := runq_linked s -> rq [] s s'.

#[export] Instance crq_preorder : PreOrder crq.
Proof.
  split; [by intros s _|]. intros s1 s2 s3 H1 H2 Hl. etrans; [by apply H1|]. apply H2.
  eapply rq_linked; [by apply H1|done].
Qed.

Lemma crq_rq {A} (m : M A) : Keeps (rq []) m -> Keeps crq m.
Proof. apply keeps_weaken. by intros s s' H _. Qed.

(** The thread is off the run queue and no longer runnable. *)
Definition parked (t : Z) (s : kstate) : Prop := offq t s /\ th_status <$> thread_of s t <> Some thread_runnable.

Lemma rq_parked t s s' : parked t s' -> rq [t] s s' -> rq [] s s'.
Proof.
  intros [Ho Hst] (Hc & Hs & H). split_and!; [done| |].
  - intros x _ Hx. apply Hs; [|done]. intros ->%list_elem_of_singleton. by destruct Hx.
  - intros x _ Hx. apply H; [|done]. by intros ->%list_elem_of_singleton.
Qed.

Lemma same_link_parked t s s' : same_link t s s' -> parked t s -> parked t s'.
Proof.
  intros HE [Ho Hst]. split; [by eapply same_link_offq|]. destruct HE as [_ E]. apply (f_equal (fmap snd)) in E.
  rewrite <- !option_fmap_compose in E. intros H. apply Hst. etrans; [symmetry; exact E|exact H].
Qed.

(** The assignment of another status to a thread off the queue. *)
Lemma upd_status_parked t st s s' :
  st <> thread_runnable -> upd_thread t (set_th_status st) s = (Ok tt, s') -> offq t s -> parked t s'.
Proof.
  intros Hst H Ho. split; [by eapply offq_upd_thread|].
  apply bind_ok in H as (th & s1 & (ko & Hk & Hb & ->)%get_thread_ok & H). unfold put_body in H.
  rewrite (upd_ko_ok _ _ _ _ Hk) in H. injection H as <-. rewrite thread_of_insert, decide_True by done.
  simpl. congruence.
Qed.

Lemma crq_thread_suspend t q : q <> TL_runnable -> Keeps crq (thread_suspend t q).
Proof.
  intros Hq s r s' H Hp Hl.
  assert (E : rq [t] s s').
  { eapply keeps_run; [exact H| |done]. unfold thread_suspend. keeps. }
  destruct r as [[]|e|]; [|by apply noerr_thread_suspend in H|done].
  eapply rq_parked; [|exact E]. unfold thread_suspend in H.
  apply bind_ok in H as ([] & s1 & H1 & H). apply bind_ok in H as ([] & s2 & H2 & H).
  apply bind_ok in H as ([] & s3 & H3 & H). apply bind_ok in H as ([] & s4 & H4 & H).
  apply bind_ok in H as ([] & s5 & H5 & H).
  assert (L2 : linkedq t s2).
  { eapply same_link_linkedq; [|exact (Hl t)].
    etrans; [eapply keeps_run; [exact H1|keeps|done]|eapply keeps_run; [exact H2|keeps|done]]. }
  eapply same_link_parked; [eapply keeps_run; [exact H|keeps|done]|].
  eapply (upd_status_parked t thread_suspended); [done|exact H5|]. eapply thread_link_offq; [exact H4|done|].
  by eapply thread_unlink_offq.
Qed.

Lemma crq_thread_suspend_cur q : q <> TL_runnable -> Keeps crq (thread_suspend_cur q).
Proof. intros Hq. pose proof (fun t => crq_thread_suspend t q Hq). unfold thread_suspend_cur. keeps. Qed.
Lemma rq_kobject_negative_insert T id : Keeps (rq T) (kobject_negative_insert id).
Proof. apply rq_modify. intros s. destruct (neg_bucket s id). split_and!; done. Qed.
Lemma rq_kobject_negative_contains T id : Keeps (rq T) (kobject_negative_contains id).
Proof. unfold kobject_negative_contains. keeps. Qed.
Lemma rq_pstate_op_schedule T p a : Keeps (rq T) (pstate_op_schedule p a).
Proof. unfold pstate_op_schedule. keeps. Qed.
#[export] Hint Resolve rq_kobject_negative_insert rq_kobject_negative_contains rq_pstate_op_schedule : keeps.
#[export] Hint Extern 5 (Keeps crq _) => apply crq_rq; solve [auto 2 with keeps nocore] : keeps.

Lemma crq_pstate_swapin {A} id : Keeps crq (@pstate_swapin A id).
Proof. pose proof (crq_thread_suspend_cur TL_pstate_waiting ltac:(done)). unfold pstate_swapin. keeps. Qed.
#[export] Hint Resolve crq_pstate_swapin : keeps.
Lemma crq_page_alloc : Keeps crq page_alloc.
Proof. pose proof (crq_thread_suspend_cur TL_pstate_waiting ltac:(done)). unfold page_alloc, pstate_sync, pstate_sync_schedule. keeps. Qed.
#[export] Hint Resolve crq_page_alloc : keeps.
Lemma crq_kobject_get_with check id type :
  (forall ko, Keeps crq (check ko)) -> Keeps crq (kobject_get_with check id type).
Proof. intros Hc. unfold kobject_get_with, kobject_translate_id, kobject_incore. keeps. Qed.
Lemma crq_kobject_get_none id type : Keeps crq (kobject_get_none id type).
Proof. apply crq_kobject_get_with. intros ko. keeps. Qed.
#[export] Hint Resolve crq_kobject_get_none : keeps.
Lemma crq_kobject_label_compare_id a b c : Keeps crq (kobject_label_compare_id a b c).
Proof. unfold kobject_label_compare_id. keeps. Qed.
#[export] Hint Resolve crq_kobject_label_compare_id : keeps.
Lemma crq_kobject_iflow_check ko iflow : Keeps crq (kobject_iflow_check ko iflow).
Proof. unfold kobject_iflow_check. keeps. Qed.
#[export] Hint Resolve crq_kobject_iflow_check : keeps.
Lemma crq_kobject_get id type iflow : Keeps crq (kobject_get id type iflow).
Proof. apply crq_kobject_get_with. intros ko. keeps. Qed.
#[export] Hint Resolve crq_kobject_get : keeps.
Lemma crq_kobject_get_page kp n rw : Keeps crq (kobject_get_page kp n rw).
Proof. unfold kobject_get_page. keeps. Qed.
#[export] Hint Resolve crq_kobject_get_page : keeps.
Lemma crq_slot_search_pages P `{!forall cs, Decision (P cs)} c rw page n :
  Keeps crq (slot_search_pages P c rw page n).
Proof. revert page. induction n as [|n IH]; intros page; simpl; keeps. Qed.
#[export] Hint Resolve crq_slot_search_pages : keeps.
Lemma crq_container_has c id : Keeps crq (container_has c id).
Proof. unfold container_has, container_slot_find. keeps. Qed.
#[export] Hint Resolve crq_container_has : keeps.
Lemma crq_sched_parent_ok t p : Keeps crq (sched_parent_ok t p).
Proof. unfold sched_parent_ok, container_find. keeps. Qed.
#[export] Hint Resolve crq_sched_parent_ok : keeps.

Lemma same_run_preorder : PreOrder same_run.
Proof. split; [done|]. intros s1 s2 s3 (C1 & L1 & T1) (C2 & L2 & T2). split_and!; [congruence..|]. intros t. by rewrite T2. Qed.
#[export] Existing Instance same_run_preorder.
Lemma sr_global_pass_update p : Keeps same_run (global_pass_update p).
Proof.
  unfold global_pass_update. keeps.
  all: first [apply keeps_tsc; [apply _|done] | apply keeps_modify; [apply _|done]].
Qed.

(** ** One round of the scheduler *)

(** A halted thread leaves the run queue. *)
Lemma thread_halt_run t s s' :
  runq_linked s -> ks_cur s = Some t -> thread_halt t s = (Ok tt, s') ->
  shrinks s s' /\ ks_cur s' = None /\ offq t s'.
Proof.
  intros Hl Hcur H. unfold thread_halt in H.
  apply bind_ok in H as ([] & s1 & H1 & H). apply bind_ok in H as ([] & s2 & H2 & H).
  apply bind_ok in H as ([] & s3 & H3 & H). apply bind_ok in H as ([] & s4 & H4 & H).
  apply bind_ok in H as ([] & s5 & H5 & H). apply bind_ok in H as (cur & s6 & H6 & H).
  unfold gets in H6. injection H6 as <- <-.
  assert (E : rq [t] s s5).
  { etrans; [eapply keeps_run; [exact H1|keeps|done]|]. etrans; [eapply keeps_run; [exact H2|keeps|done]|].
    etrans; [eapply keeps_run; [exact H3|keeps|done]|]. etrans; [eapply keeps_run; [exact H4|keeps|done]|].
    eapply keeps_run; [exact H5|keeps|done]. }
  assert (Ho : parked t s5).
  { eapply same_link_parked; [eapply keeps_run; [exact H5|keeps|done]|]. eapply (upd_status_parked t thread_halted); [done|exact H4|].
    eapply thread_unlink_offq; [exact H3|]. eapply same_link_linkedq; [|exact (Hl t)].
    etrans; [eapply keeps_run; [exact H1|keeps|done]|eapply keeps_run; [exact H2|keeps|done]]. }
  rewrite bool_decide_true in H by (destruct E as (-> & _); done). cbn [whenM] in H. injection H as <-.
  split_and!; [|done|apply Ho]. etrans; [apply rq_shrinks; by eapply rq_parked|done].
Qed.

(** The check of the current thread: it is still current, or off the queue. *)
Lemma check_sched_parents_run t s s' :
  runq_linked s -> ks_cur s = Some t -> thread_check_sched_parents t s = (Ok tt, s') ->
  shrinks s s' /\ (ks_cur s' = Some t \/ ks_cur s' = None /\ offq t s').
Proof.
  intros Hl Hc H. unfold thread_check_sched_parents in H.
  apply bind_ok in H as (cur & s1 & H1 & H). unfold gets in H1. injection H1 as <- <-.
  rewrite Hc, bool_decide_true in H by done. apply bind_ok in H as (th & s1 & [-> Hth]%get_thread_thread_of & H).
  apply bind_ok in H as (ok1 & s1 & H1 & H).
  assert (E1 : crq s s1) by (eapply keeps_run; [exact H1|keeps|done]).
  destruct ok1.
  { injection H as <-. split; [by apply rq_shrinks, E1|]. left. destruct (E1 Hl) as (C1 & _). congruence. }
  apply bind_ok in H as (ok2 & s2 & H2 & H).
  assert (E2 : crq s s2) by (etrans; [exact E1|eapply keeps_run; [exact H2|keeps|done]]).
  destruct (E2 Hl) as (C2 & _). destruct ok2.
  { injection H as <-. split; [by apply rq_shrinks, E2|]. left. congruence. }
  apply thread_halt_run in H as [Hr Ho]; [|eapply rq_linked; [by apply E2|done]|congruence]. split; [|by right].
  etrans; [apply rq_shrinks, E2; done|exact Hr].
Qed.

(** ** The loop *)

Lemma thread_passes_run ts s ps s' :
  thread_passes ts s = (Ok ps, s') ->
  s' = s /\ ps.*1 = ts /\ forall t p, (t, p) ∈ ps -> exists th, thread_of s t = Some th /\ th_sched_pass th = p.
Proof.
  revert ps. induction ts as [|t ts IH]; intros ps H; cbn [thread_passes] in H.
  - injection H as <- <-. split_and!; [done..|set_solver].
  - apply bind_ok in H as (th & s1 & [-> Hth]%get_thread_thread_of & H).
    apply bind_ok in H as (ps' & s2 & H2 & H). injection H as <- <-.
    destruct (IH _ H2) as (-> & E & Hin). split_and!; [done|by rewrite fmap_cons, E|].
    intros x p [[= -> ->]|Hx]%elem_of_cons; [by exists th|by apply Hin].
Qed.

Lemma bind_ext {A B} (m : M A) (f g : A -> M B) s :
  (forall a s1, m s = (Ok a, s1) -> f a s1 = g a s1) -> (m ≫= f) s = (m ≫= g) s.
Proof. intros H. unfold mbind, M_bind. destruct (m s) as [[a|e|] s1] eqn:E; [|done..]. by apply H. Qed.

(** The body of the loop, with what follows when another round is needed. *)
Definition sched_round (again : M unit) : M unit :=
  ts ← gets (fun s => tlist_get s TL_runnable);
  ps ← thread_passes ts;
  let choice := fst <$> min_pass None ps in
  modify (set_ks_cur choice);;
  match choice with
  | None => mret tt
  | Some t =>
      th ← get_thread t;
      assertM (bool_decide (th_status th = thread_runnable));;
      thread_check_sched_parents t;;
      cur ← gets ks_cur;
      match cur with
      | None => again
      | Some t =>
          th ← get_thread t;
          if bool_decide (th_status th = thread_runnable)
          then global_pass_update (th_sched_pass th)
          else again
      end
  end.

Lemma schedule_loop_S n : schedule_loop (S n) = sched_round (schedule_loop n).
Proof. reflexivity. Qed.

(** Another round follows with a thread less on the run queue. *)
Definition one_less (s s' : kstate) : Prop := shrinks s s' /\ exists t, t ∈ runq s /\ offq t s'.

Lemma min_pass_in best ps b : min_pass best ps = Some b -> (b ∈ ps) \/ best = Some b.
Proof.
  revert best. induction ps as [|[t p] ps IH]; intros best H; cbn [min_pass] in H; [by right|].
  destruct best as [[tb pb]|]; [destruct (sched_pass_below p pb)|]; apply IH in H as [H|H]; simplify_eq; set_solver.
Qed.

(** What is known when the chosen thread has been checked. *)
Lemma sched_check_run s t th s1 :
  runq_linked s -> t ∈ runq s -> thread_of s t = Some th -> th_status th = thread_runnable ->
  thread_check_sched_parents t (set_ks_cur (Some t) s) = (Ok tt, s1) ->
  (one_less s s1 /\ forall c th', ks_cur s1 = Some c -> thread_of s1 c = Some th' -> th_status th' <> thread_runnable) \/
  (shrinks s s1 /\ ks_cur s1 = Some t /\ (t ∈ runq s1)).
Proof.
  intros Hl Hin Hth Hst H. apply check_sched_parents_run in H as [Hs Hc]; [|done..].
  assert (Hs' : shrinks s s1) by (etrans; [|exact Hs]; done).
  destruct (decide (t ∈ runq s1)) as [Ho|Ho].
  - destruct Hc as [Hc|[_ ?]]; [|done]. right. done.
  - left. split; [split; [done|by exists t]|]. intros c th' Hcur Hth' Hr. destruct Hc as [Hc|[Hc _]]; [|congruence].
    assert (c = t) as -> by congruence. destruct Hs' as [Hstray _].
    destruct (Hstray t) as [? _]; [|done]. split; [done|]. by rewrite Hth'; simpl; rewrite Hr.
Qed.

Lemma runq_thread s s' t th :
  shrinks s s' -> t ∈ runq s' -> thread_of s t = Some th -> exists th', thread_of s' t = Some th' /\ key th' = key th.
Proof.
  intros [_ Hs] Hin Hth. destruct (Hs t Hin) as [_ E]. rewrite Hth in E. simpl in E.
  apply fmap_Some in E as (th' & -> & E). by exists th'.
Qed.

Lemma sched_round_ext k1 k2 s :
  runq_linked s -> (forall s1, one_less s s1 -> k1 s1 = k2 s1) -> sched_round k1 s = sched_round k2 s.
Proof.
  intros Hl Hk. unfold sched_round. apply bind_ext. intros ts s0 H0. unfold gets in H0. injection H0 as <- <-.
  apply bind_ext. intros ps s0 (-> & Hf & Hin)%thread_passes_run.
  apply bind_ext. intros [] s0 H0. unfold modify in H0. injection H0 as <-.
  destruct (min_pass None ps) as [[t p]|] eqn:Em; simpl; [|done].
  apply min_pass_in in Em as [Em|?]; [|done].
  assert (Ht : t ∈ runq s) by (unfold runq; rewrite <- Hf; apply list_elem_of_fmap; by exists (t, p)).
  apply bind_ext. intros th s0 [-> Hth]%get_thread_thread_of.
  apply bind_ext. intros [] s0 H0. minv H0.
  match goal with H : bool_decide _ = true |- _ => apply bool_decide_eq_true in H as Hst end.
  apply bind_ext. intros [] s0 H0. apply bind_ext. intros cur s1 H1. unfold gets in H1. injection H1 as <- <-.
  destruct (sched_check_run s t th s0 Hl Ht Hth Hst H0) as [[Hone _]|(Hs & Hc & Hin0)].
  - pose proof (Hk s0 Hone) as Ek. destruct (ks_cur s0) as [c|]; [|done].
    apply bind_ext. intros th' s2 [-> _]%get_thread_thread_of. by destruct (bool_decide (th_status th' = thread_runnable)).
  - rewrite Hc. apply bind_ext. intros th' s2 [-> Hth']%get_thread_thread_of.
    destruct (runq_thread _ _ _ _ Hs Hin0 Hth) as (th2 & Hth2 & Ek). rewrite Hth' in Hth2. injection Hth2 as <-.
    rewrite bool_decide_true; [done|]. unfold key in Ek. congruence.
Qed.

Definition runq_size (s : kstate) : nat := size (list_to_set (runq s) : gset Z).

Lemma one_less_size s s' : one_less s s' -> (runq_size s' < runq_size s)%nat.
Proof.
  intros [[_ Hs] (t & Hin & Ho)]. unfold runq_size. apply subset_size. split.
  - intros x Hx%elem_of_list_to_set. apply elem_of_list_to_set. by apply Hs.
  - intros Hsub. apply Ho. apply (elem_of_list_to_set (C := gset Z)), Hsub. by apply elem_of_list_to_set.
Qed.

(** [n] rounds of the loop, and [k] when these are not enough. *)
Definition rounds (n : nat) (k : M unit) : M unit := Nat.iter n sched_round k.

Lemma schedule_loop_rounds n : schedule_loop n = rounds n panic.
Proof. induction n as [|n IH]; [done|]. rewrite schedule_loop_S, IH. done. Qed.

Lemma rounds_enough n s f g k k' :
  runq_linked s -> (runq_size s <= n)%nat -> (n < f)%nat -> (n < g)%nat -> rounds f k s = rounds g k' s.
Proof.
  revert s f g. induction n as [|n IH]; intros s f g Hl Hn Hf Hg;
    (destruct f as [|f]; [lia|]); (destruct g as [|g]; [lia|]); unfold rounds; cbn [Nat.iter nat_rect];
    (apply sched_round_ext; [done|]); intros s1 H1; pose proof (one_less_size _ _ H1); [lia|].
  apply IH; [by eapply shrinks_linked; [apply H1|]|lia..].
Qed.

Lemma runq_size_length s : (runq_size s <= length (runq s))%nat.
Proof.
  unfold runq_size. induction (runq s) as [|x l IH]; [done|]. rewrite list_to_set_cons.
  rewrite size_union_alt, size_singleton. assert (H : list_to_set l ∖ {[x]} ⊆ (list_to_set l : gset Z)) by set_solver.
  apply subseteq_size in H. simpl. lia.
Qed.

(** C12: the loop of [schedule] ends after at most one round more than there are
    threads on the run queue, since every round but the last takes the thread it
    has chosen off the run queue: whatever would follow when that many rounds
    were not enough - the panic of the model, or [k] in its place - is never
    reached, so that the outcome does not depend on it. *)
Theorem schedule_loop_ends s fuel k :
  runq_linked s -> (length (tlist_get s TL_runnable) < fuel)%nat ->
  schedule_loop fuel s = rounds fuel k s /\
  rounds fuel k s = rounds (S (length (tlist_get s TL_runnable))) k s.
Proof.
  intros Hl Hf. rewrite schedule_loop_rounds.
  split; apply (rounds_enough (length (runq s))); first [exact Hl|apply runq_size_length|exact Hf|unfold runq; lia].
Qed.

(** What the loop leaves: no thread to run, or the current one with the least
    pass of the run queue. *)
Definition least_pass (base : Z) (s : kstate) : Prop :=
  match ks_cur s with
  | None => runq s = []
  | Some t =>
      (t ∈ runq s) /\ exists th, thread_of s t = Some th /\ th_status th = thread_runnable /\
        forall x thx, x ∈ runq s -> thread_of s x = Some thx ->
          pass_off base (th_sched_pass th) <= pass_off base (th_sched_pass thx)
  end.

(** The passes of the run queue span less than half of their range. *)
Definition pass_window (base : Z) (s : kstate) : Prop :=
  forall t th, t ∈ runq s -> thread_of s t = Some th -> pass_off base (th_sched_pass th) < 2 ^ 63.

Lemma shrinks_window base s s' : shrinks s s' -> runq_linked s -> pass_window base s -> pass_window base s'.
Proof.
  intros Hs Hl Hw t th' Hin Hth'. destruct (proj2 Hs t Hin) as [Hin0 E]. destruct (Hl t Hin0) as (th & Hth & _).
  destruct (runq_thread _ _ _ _ Hs Hin Hth) as (th2 & Hth2 & Ek). rewrite Hth' in Hth2. injection Hth2 as <-.
  assert (th_sched_pass th' = th_sched_pass th) as -> by (unfold key in Ek; congruence). by eapply Hw.
Qed.

(** A round that ends leaves [least_pass]. *)
Lemma sched_round_least base k s s' :
  runq_linked s -> pass_window base s ->
  (forall s1, one_less s s1 -> k s1 = (Ok tt, s') -> least_pass base s') ->
  sched_round k s = (Ok tt, s') -> least_pass base s'.
Proof.
  intros Hl Hw Hk H. unfold sched_round in H.
  apply bind_ok in H as (ts & s0 & H0 & H). unfold gets in H0. injection H0 as <- <-.
  apply bind_ok in H as (ps & s0 & (-> & Hf & Hin)%thread_passes_run & H).
  apply bind_ok in H as ([] & s0 & H0 & H). unfold modify in H0. injection H0 as <-.
  destruct (min_pass None ps) as [[t p]|] eqn:Em; simpl in H.
  2:{ injection H as <-. apply min_pass_some in Em as [_ ->]. unfold least_pass. simpl. symmetry. exact Hf. }
  assert (Hps : forall x px, (x, px) ∈ ps -> pass_off base px < 2 ^ 63).
  { intros x px Hx. destruct (Hin x px Hx) as (th & Hth & <-). apply (Hw x); [|done].
    unfold runq. rewrite <- Hf. apply list_elem_of_fmap. by exists (x, th_sched_pass th). }
  apply (min_pass_spec base) in Em as [[Em|?] Hmin]; [|done..].
  assert (Ht : t ∈ runq s) by (unfold runq; rewrite <- Hf; apply list_elem_of_fmap; by exists (t, p)).
  apply bind_ok in H as (th & s0 & [-> Hth]%get_thread_thread_of & H).
  apply bind_ok in H as ([] & s0 & H0 & H). minv H0.
  match goal with H : bool_decide _ = true |- _ => apply bool_decide_eq_true in H as Hst end.
  apply bind_ok in H as ([] & s0 & H0 & H). apply bind_ok in H as (cur & s1 & H1 & H).
  unfold gets in H1. injection H1 as <- <-.
  destruct (sched_check_run s t th s0 Hl Ht Hth Hst H0) as [(Hone & Hst0)|(Hs & Hc & Hin0)].
  - destruct (ks_cur s0) as [c|] eqn:Ec; [|by eapply Hk].
    apply bind_ok in H as (th' & s2 & [-> Hth']%get_thread_thread_of & H).
    rewrite bool_decide_false in H; [by eapply Hk|]. by eapply Hst0.
  - rewrite Hc in H. apply bind_ok in H as (th' & s2 & [-> Hth']%get_thread_thread_of & H).
    destruct (runq_thread _ _ _ _ Hs Hin0 Hth) as (th2 & Hth2 & Ek). rewrite Hth' in Hth2. injection Hth2 as <-.
    assert (Hst' : th_status th' = thread_runnable) by (unfold key in Ek; congruence).
    rewrite bool_decide_true in H by done.
    assert (E : ks_cur s' = ks_cur s0 /\ ks_tlists s' = ks_tlists s0 /\ forall x, thread_of s' x = thread_of s0 x).
    { eapply (keeps_run same_run); [exact H|apply sr_global_pass_update|done]. }
    destruct E as (Ec & El & Et). assert (Eq : runq s' = runq s0) by (unfold runq, tlist_get; by rewrite El).
    unfold least_pass. rewrite Ec, Hc, Eq. split; [done|]. exists th'. rewrite Et. split_and!; [done..|].
    intros x thx Hx Hthx. rewrite Et in Hthx. destruct Hs as [Hstr Hs]. destruct (Hs x Hx) as [Hx0 Ekx].
    destruct (Hl x Hx0) as (thx0 & Hthx0 & _). rewrite Hthx, Hthx0 in Ekx. simpl in Ekx.
    assert (E1 : th_sched_pass thx = th_sched_pass thx0) by (unfold key in Ekx; congruence).
    assert (E2 : th_sched_pass th' = th_sched_pass th) by (unfold key in Ek; congruence).
    destruct (Hin t p Em) as (th0 & Hth0 & Hp0). rewrite E1, E2. change (thread_of s t = Some th) in Hth. rewrite Hth0 in Hth.
    injection Hth as <-. rewrite Hp0. apply (Hmin x (th_sched_pass thx0)). left.
    unfold runq in Hx0. rewrite <- Hf in Hx0. apply list_elem_of_fmap in Hx0 as ([y py] & -> & Hy).
    destruct (Hin y py Hy) as (thy & Hthy & <-). simpl in *. congruence.
Qed.

Lemma schedule_loop_least base fuel s s' :
  runq_linked s -> pass_window base s -> schedule_loop fuel s = (Ok tt, s') -> least_pass base s'.
Proof.
  revert s. induction fuel as [|fuel IH]; intros s Hl Hw H; [done|]. rewrite schedule_loop_S in H.
  eapply sched_round_least; [exact Hl|exact Hw| |exact H]. intros s1 [Hs _] H1. eapply IH; [| |exact H1].
  - by eapply shrinks_linked.
  - by eapply shrinks_window.
Qed.

(** C11: after the loop of [schedule], the current thread is on the run queue,
    runnable, and no other thread on the queue has a lesser pass, provided the
    passes span less than half of their 64-bit range (they are compared by the
    sign of their difference); without a current thread the queue is empty. *)
Theorem schedule_least_pass base fuel s s' :
  runq_linked s -> pass_window base s -> schedule_loop fuel s = (Ok tt, s') -> least_pass base s'.
Proof. apply schedule_loop_least. Qed.


(** Two threads on the run queue, one of whose passes has wrapped around; the
    second may not be scheduled. *)
Definition ex_two : kstate :=
  ((thread_set_runnable 16;;
    upd_thread 16 (set_th_sched_pass (2 ^ 64 - 10));; upd_thread 5 (set_th_sched_pass 7)) ex_state).2.

Lemma ex_two_queue : runq ex_two = [16; 5].
Proof. vm_compute. reflexivity. Qed.

Lemma ex_two_linked : runq_linked ex_two.
Proof.
  intros t Hin. rewrite ex_two_queue in Hin.
  repeat (apply elem_of_cons in Hin as [->|Hin]; [eexists; split; vm_compute; reflexivity|]). by apply not_elem_of_nil in Hin.
Qed.

Lemma ex_two_window : pass_window (2 ^ 64 - 100) ex_two.
Proof.
  intros t th Hin Hth. rewrite ex_two_queue in Hin.
  repeat (apply elem_of_cons in Hin as [->|Hin]; [vm_compute in Hth; injection Hth as <-; vm_compute; reflexivity|]).
  by apply not_elem_of_nil in Hin.
Qed.

Lemma schedule_loop_ends_witness : rounds 10 (fail E_INVAL) ex_two = schedule_loop 10 ex_two /\ is_ok (schedule_loop 10 ex_two).1 = true.
Proof.
  split; [|vm_compute; reflexivity]. symmetry.
  refine (proj1 (schedule_loop_ends ex_two 10 (fail E_INVAL) ex_two_linked _)). vm_compute. lia.
Defined.

Lemma schedule_least_pass_witness :
  least_pass (2 ^ 64 - 100) (schedule_loop 3 ex_two).2 /\ ks_cur (schedule_loop 3 ex_two).2 = Some 5.
Proof.
  split; [|vm_compute; reflexivity].
  apply (schedule_least_pass (2 ^ 64 - 100) 3 ex_two); [exact ex_two_linked|exact ex_two_window|].
  apply run_is. vm_compute. reflexivity.
Defined.
