(* ===== verification/Hashtable.v ===== *)
(** * The hash table of lib/hashtable.c

    Open addressing with linear probing and tombstones, over one array or over
    an array of pages ([hash_init2]).  The kernel's log keeps the places of the
    logged blocks in such a table. *)

From S2P Require Import Prelude.
From stdpp Require Import options.

Set Default Goal Selector "!".

Local Open Scope res_scope.

(** ** Hash function *)

Definition TOMB : Z := 0xFFFFFFFFFFFFFFFF.

(** [mix64]: [x -= y; x -= z; x ^= w], twelve times. *)
Definition mix_sub (x y z w : Z) : Z := Z.lxor (u64 (u64 (x - y) - z)) w.
Definition shr (x n : Z) : Z := Z.shiftr x n.
Definition shl (x n : Z) : Z := u64 (Z.shiftl x n).

Definition mix64 (abc : Z * Z * Z) : Z * Z * Z :=
  let '(a, b, c) := abc in
  let a := mix_sub a b c (shr c 43) in
  let b := mix_sub b c a (shl a 9) in
  let c := mix_sub c a b (shr b 8) in
  let a := mix_sub a b c (shr c 38) in
  let b := mix_sub b c a (shl a 23) in
  let c := mix_sub c a b (shr b 5) in
  let a := mix_sub a b c (shr c 35) in
  let b := mix_sub b c a (shl a 49) in
  let c := mix_sub c a b (shr b 11) in
  let a := mix_sub a b c (shr c 12) in
  let b := mix_sub b c a (shl a 18) in
  let c := mix_sub c a b (shr b 22) in
  (a, b, c).

(** The loop over the key and the words that are left. *)
Fixpoint hash2_loop (k : list Z) (length : Z) (abc : Z * Z * Z) : Z :=
  let '(a, b, c) := abc in
  match k with
  | k0 :: k1 :: k2 :: rest => hash2_loop rest length (mix64 (u64 (a + k0), u64 (b + k1), u64 (c + k2)))
  | [k0; k1] => (mix64 (u64 (a + k0), u64 (b + k1), u64 (c + length))).2
  | [k0] => (mix64 (u64 (a + k0), b, u64 (c + length))).2
  | [] => (mix64 (a, b, u64 (c + length))).2
  end.

Definition hash2 (k : list Z) (level : Z) : Z :=
  hash2_loop k (Z.of_nat (length k)) (level, level, 0x9e3779b97f4a7c13).

(** ** Tables *)

Record hashentry := HashEntry { he_key : Z; he_val : Z }.

Definition zero_entry : hashentry := HashEntry 0 0.

(** [entry] and [entry2] are a union: [pgents] tells which one is meant. *)
Record hashtable := mkHashtable {
  entry : list hashentry;
  entry2 : list (list hashentry);
  capacity : nat;
  ht_size : Z;
  pgents : nat
}.

Definition hash_ent (t : hashtable) (idx : nat) : res hashentry :=
  if negb (pgents t =? 0)%nat
  then do pg <- res_nth (entry2 t) (idx / pgents t); res_nth pg (idx mod pgents t)
  else res_nth (entry t) idx.

(** An assignment through the pointer that [hash_ent] returns. *)
Definition hash_ent_set (t : hashtable) (idx : nat) (e : hashentry) : res hashtable :=
  do _ <- hash_ent t idx;
  Ok (if negb (pgents t =? 0)%nat
      then mkHashtable (entry t) (alter (fun pg => <[(idx mod pgents t)%nat := e]> pg) (idx / pgents t)%nat (entry2 t))
             (capacity t) (ht_size t) (pgents t)
      else mkHashtable (<[idx := e]> (entry t)) (entry2 t) (capacity t) (ht_size t) (pgents t)).

Definition set_size (n : Z) (t : hashtable) : hashtable :=
  mkHashtable (entry t) (entry2 t) (capacity t) n (pgents t).

(** The place looked at in round [i]. *)
Definition probe (cap : nat) (key : Z) (i : nat) : nat :=
  Z.to_nat (u64 (hash2 [key] 0xDEADBEEF + Z.of_nat i) mod Z.of_nat cap).

Definition bad_key (key : Z) : bool := (key =? 0) || (key =? TOMB).

(** The loop of [hash_put]: the first place that is empty, deleted or has the
    key, otherwise the last place looked at. *)
Fixpoint put_loop (t : hashtable) (key : Z) (i n : nat) (last : res (nat * hashentry)) : res (nat * hashentry) :=
  match n with
  | O => last
  | S n =>
      let p := probe (capacity t) key i in
      do e <- hash_ent t p;
      if bad_key (he_key e) || (he_key e =? key) then Ok (p, e)
      else put_loop t key (S i) n (Ok (p, e))
  end.

Definition hash_put (t : hashtable) (key val : Z) : res hashtable :=
  if bad_key key then Err E_INVAL
  else if ht_size t =? Z.of_nat (capacity t) then Err E_NO_SPACE
  else
    do (p, e) <- put_loop t key 0 (capacity t) Panic;
    do t <- (if negb (he_key e =? key)
             then if bad_key (he_key e) then Ok (set_size (ht_size t + 1) t) else Panic
             else Ok t);
    hash_ent_set t p (HashEntry key val).

(** The loop of [hash_get] and [hash_del]. *)
Fixpoint find_loop (t : hashtable) (key : Z) (i n : nat) : res (option (nat * hashentry)) :=
  match n with
  | O => Ok None
  | S n =>
      let p := probe (capacity t) key i in
      do e <- hash_ent t p;
      if he_key e =? key then Ok (Some (p, e))
      else if he_key e =? 0 then Ok None
      else find_loop t key (S i) n
  end.

Definition hash_get (t : hashtable) (key : Z) : res Z :=
  if bad_key key then Err E_INVAL
  else
    do r <- find_loop t key 0 (capacity t);
    match r with
    | Some (_, e) => Ok (he_val e)
    | None => Err E_NOT_FOUND
    end.

Definition hash_del (t : hashtable) (key : Z) : res hashtable :=
  if bad_key key then Err E_INVAL
  else
    do r <- find_loop t key 0 (capacity t);
    match r with
    | Some (p, _) =>
        do t <- hash_ent_set t p (HashEntry TOMB 0);
        Ok (set_size (ht_size t - 1) t)
    | None => Err E_NOT_FOUND
    end.

Definition hash_init (back : list hashentry) (n : nat) : hashtable :=
  mkHashtable (replicate n zero_entry ++ drop n back) [] n 0 0.

Definition SIZEOF_HASHENTRY : nat := 16.

Fixpoint clear_loop (t : hashtable) (i n : nat) : res hashtable :=
  match n with
  | O => Ok t
  | S n => do t <- hash_ent_set t i zero_entry; clear_loop t (S i) n
  end.

Definition hash_init2 (back : list (list hashentry)) (n pgsize : nat) : res hashtable :=
  clear_loop (mkHashtable [] back n 0 (pgsize / SIZEOF_HASHENTRY)) 0 n.

(** ** Iteration *)

Record hashiter := HashIter { hi_index : nat; hi_key : Z; hi_val : Z }.

Definition hashiter_init : hashiter := HashIter 0 0 0.

Fixpoint iter_loop (t : hashtable) (i n : nat) : res (option hashiter) :=
  match n with
  | O => Ok None
  | S n =>
      do e <- hash_ent t i;
      if negb (bad_key (he_key e)) then Ok (Some (HashIter (S i) (he_key e) (he_val e)))
      else iter_loop t (S i) n
  end.

Definition hashiter_next (t : hashtable) (it : hashiter) : res (option hashiter) :=
  iter_loop t (hi_index it) (capacity t - hi_index it).
