(* ===== verification/HashtableProofs.v ===== *)
(** * The hash table as a finite map

    With no more than one live entry per key, and no empty place on the way to
    one, [hash_get], [hash_del] and [hash_put] of an absent key are lookup,
    deletion and insertion of a finite map; the paged table behaves like the
    flat one.  [hash_put] of a key that is present does not look beyond a
    deleted place, and then leaves two entries for the key. *)

From S2P Require Import Prelude Hashtable.
From stdpp Require Import options.

Set Default Goal Selector "!".

(** ** Places *)

Definition slots (t : hashtable) : list hashentry :=
  if negb (pgents t =? 0)%nat then concat (entry2 t) else entry t.

Record table_ok (t : hashtable) : Prop := {
  ok_pages : (pgents t =? 0)%nat = false -> Forall (fun pg => length pg = pgents t) (entry2 t);
  ok_room : (capacity t <= length (slots t))%nat;
}.

Lemma hash_ent_slots t i : table_ok t -> hash_ent t i = res_nth (slots t) i.
Proof.
  intros [Hp _]. unfold hash_ent, slots. destruct (pgents t =? 0)%nat eqn:E; simpl; [done|].
  unfold res_nth. rewrite (concat_lookup_uniform (pgents t)); [|bool_hyps; lia|auto].
  by destruct (entry2 t !! (i / pgents t)%nat).
Qed.

Lemma hash_ent_ok t i e : table_ok t -> slots t !! i = Some e -> hash_ent t i = Ok e.
Proof. intros Ht Hi. rewrite hash_ent_slots by done. by apply res_nth_lookup. Qed.

Lemma hash_ent_set_slots t i e :
  table_ok t -> (i < length (slots t))%nat ->
  exists t', hash_ent_set t i e = Ok t' /\ slots t' = <[i := e]> (slots t) /\ capacity t' = capacity t /\
    ht_size t' = ht_size t /\ table_ok t'.
Proof.
  intros Ht Hi. destruct (lookup_lt_is_Some_2 _ _ Hi) as [x Hx]. unfold hash_ent_set.
  rewrite (hash_ent_ok t i x) by done. cbn [res_bind]. eexists; split; [done|].
  destruct Ht as [Hp Hr]. unfold slots in *. destruct (pgents t =? 0)%nat eqn:E; cbn [negb] in *.
  - simpl. rewrite E. simpl. split_and!; [done..|]. split; unfold slots; simpl; rewrite E; simpl; [done|].
    by rewrite length_insert.
  - simpl. rewrite E. simpl. specialize (Hp eq_refl).
    assert (Hc : concat (alter (fun pg => <[(i mod pgents t)%nat:=e]> pg) (i / pgents t)%nat (entry2 t)) =
      <[i:=e]> (concat (entry2 t))) by (apply concat_insert_uniform; [bool_hyps; lia|done]).
    split_and!; [exact Hc|done..|]. split; unfold slots; simpl; rewrite E; simpl.
    + intros _. apply Forall_alter; [done|]. intros pg _ Hpg. by rewrite length_insert.
    + by rewrite Hc, length_insert.
Qed.

Lemma probe_lt cap key i : (0 < cap)%nat -> (probe cap key i < cap)%nat.
Proof.
  intros. unfold probe. pose proof (Z.mod_pos_bound (u64 (hash2 [key] 0xDEADBEEF + Z.of_nat i)) (Z.of_nat cap)). lia.
Qed.

Lemma mix64_nonneg abc : 0 <= (mix64 abc).2.
Proof.
  destruct abc as [[a b] c]. unfold mix64, mix_sub. simpl. apply Z.lxor_nonneg. split; intros _.
  - apply Z.shiftr_nonneg, Z.lxor_nonneg. split; intros _; apply u64_range.
  - apply u64_range.
Qed.

Lemma hash2_nonneg key : 0 <= hash2 [key] 0xDEADBEEF.
Proof. apply mix64_nonneg. Qed.

(** The entry looked at in round [i] for a key. *)
Definition seen (t : hashtable) (key : Z) (i : nat) : option hashentry := slots t !! probe (capacity t) key i.

Lemma seen_Some t key i : table_ok t -> (0 < capacity t)%nat -> exists e, seen t key i = Some e.
Proof.
  intros Ht Hc. apply lookup_lt_is_Some_2. pose proof (probe_lt (capacity t) key i Hc). pose proof (ok_room _ Ht). lia.
Qed.

(** ** The two loops *)

(** What [find_loop] finds: the entry of the first round with the key, unless
    an empty place comes before. *)
Lemma find_loop_spec t key i n :
  table_ok t -> (i + n <= capacity t)%nat ->
  (exists j e, (i <= j < i + n)%nat /\ find_loop t key i n = Ok (Some (probe (capacity t) key j, e)) /\
     seen t key j = Some e /\ he_key e = key) \/
  (find_loop t key i n = Ok None /\
   exists j, (i <= j <= i + n)%nat /\
     (forall j', (i <= j' < j)%nat -> exists e, seen t key j' = Some e /\ he_key e <> key) /\
     ((j = i + n)%nat \/ exists e, seen t key j = Some e /\ he_key e <> key /\ he_key e = 0)).
Proof.
  intros Ht. revert i. induction n as [|n IH]; intros i Hi.
  - right. split; [done|]. exists i. split; [lia|]. split; [lia|]. left. lia.
  - cbn [find_loop]. destruct (seen_Some t key i Ht ltac:(lia)) as [e He].
    rewrite (hash_ent_ok t _ e Ht He). cbn [res_bind].
    destruct (Z.eqb_spec (he_key e) key) as [Hk|Hk].
    { left. exists i, e. split; [lia|]. done. }
    destruct (Z.eqb_spec (he_key e) 0) as [Hz|Hz].
    { right. split; [done|]. exists i. split; [lia|]. split; [lia|]. right. by exists e. }
    destruct (IH (S i) ltac:(lia)) as [(j & e' & Hj & ?)|(Hf & j & Hj & Hall & Hend)].
    + left. exists j, e'. split; [lia|done].
    + right. split; [done|]. exists j. split; [lia|]. split.
      * intros j' Hj'. destruct (decide (j' = i)) as [->|]; [by exists e|]. apply Hall. lia.
      * destruct Hend as [->|?]; [left; lia|by right].
Qed.

(** What [put_loop] finds in [n] rounds, when one of them can take the key. *)
Lemma put_loop_spec t key i n last j0 e0 :
  table_ok t -> (i <= j0 < i + n)%nat -> (i + n <= capacity t)%nat ->
  seen t key j0 = Some e0 -> (bad_key (he_key e0) || (he_key e0 =? key)) = true ->
  exists j e, (i <= j <= j0)%nat /\ put_loop t key i n last = Ok (probe (capacity t) key j, e) /\
    seen t key j = Some e /\ (bad_key (he_key e) || (he_key e =? key)) = true /\
    forall j', (i <= j' < j)%nat -> exists e', seen t key j' = Some e' /\ (bad_key (he_key e') || (he_key e' =? key)) = false.
Proof.
  intros Ht. revert i last. induction n as [|n IH]; intros i last Hj Hn He0 Hb0; [lia|].
  cbn [put_loop]. destruct (seen_Some t key i Ht ltac:(lia)) as [e He].
  rewrite (hash_ent_ok t _ e Ht He). cbn [res_bind].
  destruct (bad_key (he_key e) || (he_key e =? key)) eqn:Eb.
  - exists i, e. split_and!; [lia|lia|done..|lia].
  - assert (i <> j0) by (intros ->; simplify_eq; congruence).
    edestruct (IH (S i) (Ok (probe (capacity t) key i, e))) as (j & e' & Hj' & Hl & Hs & Hb & Hall); [lia..|done|done|].
    exists j, e'. split_and!; [lia|lia|done..|]. intros j' ?.
    destruct (decide (j' = i)) as [->|]; [by exists e|]. apply Hall. lia.
Qed.

(** ** The invariant *)

Definition live (e : hashentry) : Prop := bad_key (he_key e) = false.

(** The table stands for the map [m]. *)
Record hinv (t : hashtable) (m : gmap Z Z) : Prop := {
  hi_ok : table_ok t;
  hi_pos : (0 < capacity t)%nat;
  hi_size : ht_size t = Z.of_nat (size m);
  hi_map : forall k v, m !! k = Some v <->
    bad_key k = false /\ exists j, (j < capacity t)%nat /\ slots t !! j = Some (HashEntry k v);
  hi_uniq : forall i j e e', (i < capacity t)%nat -> (j < capacity t)%nat ->
    slots t !! i = Some e -> slots t !! j = Some e' -> live e -> he_key e = he_key e' -> i = j;
  hi_path : forall j e, (j < capacity t)%nat -> slots t !! j = Some e -> live e ->
    exists i, (i < capacity t)%nat /\ probe (capacity t) (he_key e) i = j /\
      forall i', (i' < i)%nat -> exists e', seen t (he_key e) i' = Some e' /\ he_key e' <> 0;
}.

Section table.
Context (t : hashtable) (m : gmap Z Z) (HI : hinv t m).
Context (key : Z) (Hkey : bad_key key = false).

Lemma key_not_0 : key <> 0.
Proof using Hkey. intros ->. done. Qed.

(** The loop of [hash_get] and [hash_del] finds the entry of the key. *)
Lemma find_present v :
  m !! key = Some v ->
  exists p, (p < capacity t)%nat /\ slots t !! p = Some (HashEntry key v) /\
    find_loop t key 0 (capacity t) = Ok (Some (p, HashEntry key v)).
Proof using HI Hkey.
  intros Hm. pose proof (hi_ok _ _ HI) as Ht. pose proof (hi_pos _ _ HI) as Hc.
  apply (hi_map _ _ HI) in Hm as [_ (j & Hj & Hs)].
  destruct (hi_path _ _ HI j _ Hj Hs Hkey) as (i & Hi & Hp & Hpath). simpl in *.
  destruct (find_loop_spec t key 0 (capacity t) Ht ltac:(lia)) as [(i2 & e & Hi2 & Hf & Hs2 & Hk)|(Hf & i2 & Hi2 & Hall & Hend)].
  - assert (probe (capacity t) key i2 = j) as E.
    { eapply (hi_uniq _ _ HI _ _ e); [by apply probe_lt|done|exact Hs2|exact Hs| |done]. unfold live. by rewrite Hk. }
    exists j. split_and!; [done..|]. rewrite Hf. unfold seen in Hs2. rewrite E in *. congruence.
  - exfalso. pose proof key_not_0.
    assert (Hself : seen t key i = Some (HashEntry key v)) by (unfold seen; by rewrite Hp).
    destruct (decide (i < i2)%nat).
    + destruct (Hall i ltac:(lia)) as (e & He & Hne). rewrite Hself in He. by injection He as <-.
    + destruct Hend as [->|(e & He & Hne & Hz)]; [lia|]. destruct (decide (i2 = i)) as [->|].
      * rewrite Hself in He. by injection He as <-.
      * destruct (Hpath i2 ltac:(lia)) as (e' & He' & Hn'). congruence.
Qed.

Lemma find_absent : m !! key = None -> find_loop t key 0 (capacity t) = Ok None.
Proof using HI Hkey.
  intros Hm. destruct (find_loop_spec t key 0 (capacity t) (hi_ok _ _ HI) ltac:(lia)) as [(i & [k v] & Hi & _ & Hs & Hk)|[? _]]; [|done].
  simpl in Hk. subst k. assert (m !! key = Some v); [|congruence]. apply (hi_map _ _ HI). split; [done|].
  exists (probe (capacity t) key i). split; [apply probe_lt, HI|done].
Qed.

Lemma hash_get_spec :
  hash_get t key = match m !! key with Some v => Ok v | None => Err E_NOT_FOUND end.
Proof using HI Hkey.
  unfold hash_get. rewrite Hkey. destruct (m !! key) as [v|] eqn:E.
  - destruct (find_present v E) as (p & _ & _ & ->). done.
  - by rewrite find_absent.
Qed.

End table.

(** A changed place: what the invariant asks for. *)
Lemma hinv_insert t m t' m' p e :
  hinv t m -> (p < capacity t)%nat -> slots t' = <[p := e]> (slots t) -> capacity t' = capacity t ->
  table_ok t' -> he_key e <> 0 ->
  ht_size t' = Z.of_nat (size m') ->
  (forall k v, m' !! k = Some v <->
     (live e /\ k = he_key e /\ v = he_val e) \/
     (bad_key k = false /\ exists j, (j < capacity t)%nat /\ j <> p /\ slots t !! j = Some (HashEntry k v))) ->
  (live e -> forall j e', (j < capacity t)%nat -> j <> p -> slots t !! j = Some e' -> he_key e' <> he_key e) ->
  (live e -> exists i, (i < capacity t)%nat /\ probe (capacity t) (he_key e) i = p /\
     forall i', (i' < i)%nat -> exists e', seen t (he_key e) i' = Some e' /\ he_key e' <> 0) ->
  hinv t' m'.
Proof.
  intros HI Hp Hs Hc Hok Hnz Hsz Hmap Hu Hpath.
  assert (Hlen : (p < length (slots t))%nat) by (pose proof (ok_room _ (hi_ok _ _ HI)); lia).
  assert (Hsp : slots t' !! p = Some e) by (rewrite Hs; by apply list_lookup_insert_eq).
  assert (Hsne : forall j, j <> p -> slots t' !! j = slots t !! j) by (intros; rewrite Hs; by apply list_lookup_insert_ne).
  assert (Hseen : forall k i' e0, seen t k i' = Some e0 -> he_key e0 <> 0 -> exists e', seen t' k i' = Some e' /\ he_key e' <> 0).
  { intros k i' e0 He0 Hn. unfold seen in *. rewrite Hc. destruct (decide (probe (capacity t) k i' = p)) as [->|Hne].
    - by exists e.
    - rewrite Hsne by done. by exists e0. }
  split; [done|rewrite Hc; apply HI|done| | |].
  - intros k v. rewrite Hmap, Hc. split.
    + intros [(Hl & -> & ->)|(Hk & j & Hj & Hne & Hsj)].
      * split; [done|]. exists p. split; [done|]. rewrite Hsp. by destruct e.
      * split; [done|]. exists j. by rewrite Hsne.
    + intros (Hk & j & Hj & Hsj). destruct (decide (j = p)) as [->|Hne].
      * left. rewrite Hsp in Hsj. injection Hsj as ->. done.
      * right. split; [done|]. exists j. by rewrite Hsne in Hsj.
  - rewrite Hc. intros i j e1 e2 Hi Hj H1 H2 Hl Hk.
    destruct (decide (i = p)) as [->|Hi'], (decide (j = p)) as [->|Hj']; [done| | |].
    + rewrite Hsp in H1. injection H1 as <-. rewrite Hsne in H2 by done. by destruct (Hu Hl j e2 Hj Hj' H2).
    + rewrite Hsp in H2. injection H2 as <-. rewrite Hsne in H1 by done.
      destruct (Hu ltac:(unfold live in *; by rewrite <- Hk) i e1 Hi Hi' H1). done.
    + rewrite Hsne in H1, H2 by done. by eapply (hi_uniq _ _ HI i j e1 e2).
  - rewrite Hc. intros j e1 Hj H1 Hl.
    assert (exists i, (i < capacity t)%nat /\ probe (capacity t) (he_key e1) i = j /\
      forall i', (i' < i)%nat -> exists e', seen t (he_key e1) i' = Some e' /\ he_key e' <> 0) as (i & Hi & Hpi & Hall).
    { destruct (decide (j = p)) as [->|Hj'].
      - rewrite Hsp in H1. injection H1 as <-. by apply Hpath.
      - rewrite Hsne in H1 by done. by apply (hi_path _ _ HI). }
    exists i. split_and!; [done..|]. intros i' Hi'. destruct (Hall i' Hi') as (e' & He' & Hn). by eapply Hseen.
Qed.

Section update.
Context (t : hashtable) (m : gmap Z Z) (HI : hinv t m).
Context (key : Z) (Hkey : bad_key key = false).

(** Other places hold other keys. *)
Lemma others_lookup p k v :
  (p < capacity t)%nat -> (exists v0, slots t !! p = Some (HashEntry key v0)) ->
  (delete key m !! k = Some v <->
   bad_key k = false /\ exists j, (j < capacity t)%nat /\ j <> p /\ slots t !! j = Some (HashEntry k v)).
Proof using HI Hkey.
  intros Hp [v0 Hs]. rewrite lookup_delete_Some, (hi_map _ _ HI). split.
  - intros (Hne & Hk & j & Hj & Hsj). split; [done|]. exists j. split_and!; [done| |done].
    intros ->. rewrite Hs in Hsj. by injection Hsj.
  - intros (Hk & j & Hj & Hne & Hsj). split; [|by split; [|exists j]].
    intros <-. apply Hne. by eapply (hi_uniq _ _ HI j p (HashEntry key v) (HashEntry key v0)).
Qed.

Lemma hash_del_spec :
  match m !! key with
  | Some _ => exists t', hash_del t key = Ok t' /\ hinv t' (delete key m) /\ capacity t' = capacity t
  | None => hash_del t key = Err E_NOT_FOUND
  end.
Proof using HI Hkey.
  unfold hash_del. rewrite Hkey. destruct (m !! key) as [v|] eqn:E; [|by rewrite (find_absent t m)].
  destruct (find_present t m HI key Hkey v E) as (p & Hp & Hs & ->). cbn [res_bind].
  pose proof (hi_ok _ _ HI) as Ht.
  destruct (hash_ent_set_slots t p (HashEntry TOMB 0) Ht) as (t' & -> & Hs' & Hc' & Hsz & Hok).
  { pose proof (ok_room _ Ht). lia. }
  cbn [res_bind]. eexists. split; [done|]. split; [|by rewrite <- Hc'].
  eapply (hinv_insert t m _ _ p (HashEntry TOMB 0)); [done|done|exact Hs'|exact Hc'| |done| | |..].
  - by destruct Hok; split.
  - simpl. rewrite Hsz, (hi_size _ _ HI), map_size_delete_Some by (by exists v).
    assert (size m <> 0)%nat by (intros ->%map_size_empty_inv; by rewrite lookup_empty in E). lia.
  - intros k v'. rewrite (others_lookup p k v' Hp) by eauto. split; [by right|]. intros [[[=] _]|?]; done.
  - intros [=].
  - intros [=].
Qed.

(** ** Insertion *)

(** A map that is smaller than the table leaves a place that is not live. *)
Lemma free_place : (size m < capacity t)%nat -> exists j e, (j < capacity t)%nat /\ slots t !! j = Some e /\ ~ live e.
Proof using HI.
  intros Hsz. pose proof (ok_room _ (hi_ok _ _ HI)) as Hr.
  destruct (decide (Exists (fun e => bad_key (he_key e) = true) (take (capacity t) (slots t)))) as [Hex|Hno].
  { apply list.Exists_exists in Hex as (e & He & Hb). apply list_elem_of_lookup in He as [j Hj].
    apply lookup_take_Some in Hj as [Hj Hlt]. exists j, e. split_and!; [done..|]. unfold live. congruence. }
  exfalso. assert (Hlive : forall j e, (j < capacity t)%nat -> slots t !! j = Some e -> live e).
  { intros j e Hj Hs. unfold live. destruct (bad_key (he_key e)) eqn:E; [|done]. destruct Hno. apply list.Exists_exists.
    exists e. split; [|done]. apply list_elem_of_lookup. exists j. by apply lookup_take_Some. }
  set (ks := he_key <$> take (capacity t) (slots t)).
  assert (Hnd : NoDup ks).
  { apply NoDup_alt. intros i j k Hi Hj. unfold ks in Hi, Hj. rewrite list_lookup_fmap in Hi, Hj.
    apply fmap_Some in Hi as (e1 & [H1 L1]%lookup_take_Some & ->). apply fmap_Some in Hj as (e2 & [H2 L2]%lookup_take_Some & E).
    eapply (hi_uniq _ _ HI i j e1 e2); [done..| |done]. exact (Hlive i e1 L1 H1). }
  assert (Hsub : (list_to_set ks : gset Z) ⊆ dom m).
  { intros k Hk%elem_of_list_to_set. apply list_elem_of_fmap in Hk as ([k' v] & -> & He).
    apply list_elem_of_lookup in He as [j [Hj Hlt]%lookup_take_Some]. simpl. apply elem_of_dom. exists v.
    apply (hi_map _ _ HI). split; [exact (Hlive j _ Hlt Hj)|by exists j]. }
  apply subseteq_size in Hsub. rewrite size_list_to_set in Hsub by done. rewrite size_dom in Hsub.
  unfold ks in Hsub. rewrite length_fmap, length_take in Hsub. lia.
Qed.

(** Every place comes up, unless the hash value wraps around on the way. *)
Lemma probe_covers j :
  hash2 [key] 0xDEADBEEF + Z.of_nat (capacity t) <= 2 ^ 64 ->
  (j < capacity t)%nat -> exists i, (i < capacity t)%nat /\ probe (capacity t) key i = j.
Proof using.
  intros Hw Hj. pose proof (hash2_nonneg key) as H0. set (h := hash2 [key] 0xDEADBEEF) in *. set (c := Z.of_nat (capacity t)) in *.
  exists (Z.to_nat ((Z.of_nat j - h) mod c)).
  pose proof (Z.mod_pos_bound (Z.of_nat j - h) c ltac:(lia)) as Hb. split; [lia|].
  unfold probe. fold h c. rewrite Z2Nat.id by lia. rewrite u64_small by (unfold is_u64; lia).
  rewrite Z.add_mod_idemp_r by lia. replace (h + (Z.of_nat j - h)) with (Z.of_nat j) by lia.
  rewrite Z.mod_small by lia. lia.
Qed.

(** Writing the key into a place that is not live. *)
Lemma put_place val p e i :
  m !! key = None -> (p < capacity t)%nat -> slots t !! p = Some e -> ~ live e ->
  (i < capacity t)%nat -> probe (capacity t) key i = p ->
  (forall i', (i' < i)%nat -> exists e', seen t key i' = Some e' /\ he_key e' <> 0) ->
  exists t', hash_ent_set (set_size (ht_size t + 1) t) p (HashEntry key val) = Ok t' /\
    hinv t' (<[key := val]> m) /\ capacity t' = capacity t.
Proof using HI Hkey.
  intros Hm Hp Hs Hl Hi Hpi Hpath. pose proof (hi_ok _ _ HI) as Ht.
  assert (Hlen : (p < length (slots t))%nat) by (pose proof (ok_room _ Ht); lia).
  assert (Hok1 : table_ok (set_size (ht_size t + 1) t)) by (destruct Ht; by split).
  destruct (hash_ent_set_slots _ p (HashEntry key val) Hok1 Hlen) as (t' & -> & Hs' & Hc' & Hsz & Hok).
  eexists. split; [done|]. split; [|exact Hc'].
  assert (Habs : forall j e', (j < capacity t)%nat -> slots t !! j = Some e' -> he_key e' <> key).
  { intros j [k v] Hj Hsj Hk. simpl in Hk. subst k. assert (m !! key = Some v); [|congruence].
    apply (hi_map _ _ HI). split; [done|by exists j]. }
  eapply (hinv_insert t m _ _ p (HashEntry key val)); [done|done|exact Hs'|exact Hc'|done| | | | |].
  - intros E. cbn in E. subst key. discriminate Hkey.
  - rewrite Hsz. simpl. rewrite (hi_size _ _ HI), map_size_insert_None by done. lia.
  - intros k v. simpl. rewrite lookup_insert_Some, (hi_map _ _ HI). split.
    + intros [[<- <-]|(Hne & Hk & j & Hj & Hsj)]; [by left|]. right. split; [done|]. exists j. split_and!; [done| |done].
      intros ->. apply Hl. rewrite Hs in Hsj. injection Hsj as ->. done.
    + intros [(_ & -> & ->)|(Hk & j & Hj & Hne & Hsj)]; [by left|]. right. split; [|by split; [|exists j]].
      intros <-. by apply (Habs j _ Hj Hsj).
  - intros _ j e' Hj Hne Hsj. by eapply Habs.
  - intros _. by exists i.
Qed.

Lemma hash_put_spec val :
  m !! key = None -> (size m < capacity t)%nat ->
  hash2 [key] 0xDEADBEEF + Z.of_nat (capacity t) <= 2 ^ 64 ->
  exists t', hash_put t key val = Ok t' /\ hinv t' (<[key := val]> m) /\ capacity t' = capacity t.
Proof using HI Hkey.
  intros Hm Hsz Hw. pose proof (hi_ok _ _ HI) as Ht. unfold hash_put. rewrite Hkey.
  destruct (Z.eqb_spec (ht_size t) (Z.of_nat (capacity t))) as [E|_]; [rewrite (hi_size _ _ HI) in E; lia|].
  destruct (free_place Hsz) as (j & e & Hj & Hs & Hl). destruct (probe_covers j Hw Hj) as (i0 & Hi0 & Hp0).
  assert (Hbe : bad_key (he_key e) = true) by (unfold live in Hl; by destruct (bad_key (he_key e))).
  destruct (put_loop_spec t key 0 (capacity t) Panic i0 e) as (i & e' & Hi & -> & Hse & Hb & Hall);
    [done|lia|lia|unfold seen; by rewrite Hp0|by rewrite Hbe|].
  cbn [res_bind]. assert (Hne : he_key e' <> key).
  { intros Hk. destruct e' as [k v]. simpl in Hk. subst k. assert (m !! key = Some v); [|congruence].
    apply (hi_map _ _ HI). split; [done|]. eexists. split; [apply probe_lt, HI|exact Hse]. }
  rewrite (proj2 (Z.eqb_neq _ _) Hne) in Hb |- *. rewrite orb_false_r in Hb. cbn [negb]. rewrite Hb. cbn [res_bind].
  eapply (put_place val _ e' i); [done|apply probe_lt, HI|exact Hse| |lia|done|].
  - unfold live. congruence.
  - intros i' Hi'. destruct (Hall i' ltac:(lia)) as (e2 & He2 & Hb2). exists e2. split; [done|].
    intros E0. rewrite E0 in Hb2. done.
Qed.

(** Storing a key again, in a table from which nothing was deleted. *)
Lemma hash_put_present v val :
  m !! key = Some v -> (forall j e, (j < capacity t)%nat -> slots t !! j = Some e -> he_key e <> TOMB) ->
  (size m < capacity t)%nat ->
  exists t', hash_put t key val = Ok t' /\ hinv t' (<[key := val]> m) /\ capacity t' = capacity t.
Proof using HI Hkey.
  intros Hm Hnt Hsz. pose proof (hi_ok _ _ HI) as Ht. unfold hash_put. rewrite Hkey.
  destruct (Z.eqb_spec (ht_size t) (Z.of_nat (capacity t))) as [E|_]; [rewrite (hi_size _ _ HI) in E; lia|].
  pose proof Hm as Hm'. apply (hi_map _ _ HI) in Hm' as [_ (p & Hp & Hs)].
  destruct (hi_path _ _ HI p _ Hp Hs Hkey) as (i & Hi & Hpi & Hpath). simpl in *.
  assert (Hself : seen t key i = Some (HashEntry key v)) by (unfold seen; by rewrite Hpi).
  destruct (put_loop_spec t key 0 (capacity t) Panic i (HashEntry key v)) as (i1 & e & Hi1 & -> & Hse & Hb & _);
    [done|lia|lia|done|simpl; rewrite Z.eqb_refl; by rewrite orb_true_r|].
  assert (Hek : he_key e = key).
  { destruct (Z.eqb_spec (he_key e) key) as [|Hne]; [done|]. rewrite orb_false_r in Hb. unfold bad_key in Hb.
    apply orb_true_iff in Hb as [Hz|Hz]; bool_hyps.
    - destruct (decide (i1 = i)) as [->|]; [rewrite Hself in Hse; injection Hse as <-; done|].
      destruct (Hpath i1 ltac:(lia)) as (e' & He' & Hn). congruence.
    - by destruct (Hnt _ e (probe_lt (capacity t) key i1 ltac:(lia)) Hse). }
  assert (Ep : probe (capacity t) key i1 = p).
  { eapply (hi_uniq _ _ HI _ _ e); [apply probe_lt; lia|done|exact Hse|exact Hs| |done]. unfold live. by rewrite Hek. }
  cbn [res_bind]. rewrite Hek, Z.eqb_refl. cbn [negb res_bind]. rewrite Ep.
  destruct (hash_ent_set_slots t p (HashEntry key val) Ht) as (t' & -> & Hs' & Hc' & Hsz' & Hok).
  { pose proof (ok_room _ Ht). lia. }
  exists t'. split_and!; [done| |done].
  eapply (hinv_insert t m _ _ p (HashEntry key val)); [done|done|exact Hs'|exact Hc'|done| | | | |].
  - intros E. cbn in E. by apply key_not_0 in E.
  - rewrite Hsz', (hi_size _ _ HI). by rewrite map_size_insert_Some by (by exists v).
  - intros k v'. simpl. pose proof (others_lookup p k v' Hp ltac:(eauto)) as Ho. rewrite lookup_delete_Some in Ho.
    rewrite <- Ho, lookup_insert_Some. unfold live. simpl. split.
    + intros [[<- <-]|[Hne Hm2]]; [by left|by right].
    + intros [(_ & -> & ->)|[Hne Hm2]]; [by left|by right].
  - intros _ j e' Hj Hne Hsj Hk. apply Hne. by eapply (hi_uniq _ _ HI j p e' (HashEntry key v)); [..|unfold live; by rewrite Hk|].
  - intros _. exists i. split; [exact Hi|]. split; [exact Hpi|exact Hpath].
Qed.

End update.

(** No place is marked as deleted. *)
Definition no_tomb (t : hashtable) : Prop :=
  forall j e, (j < capacity t)%nat -> slots t !! j = Some e -> he_key e <> TOMB.

Lemma hash_put_slots t key val t' :
  hash_put t key val = Ok t' -> table_ok t ->
  exists p, slots t' = <[p := HashEntry key val]> (slots t) /\ capacity t' = capacity t.
Proof.
  intros H Ht. unfold hash_put in H. destruct (bad_key key); [done|]. destruct (_ =? _); [done|].
  destruct (put_loop _ _ _ _ _) as [[p e]| |]; simpl in H; [|done|done].
  assert (Hset : forall t0, slots t0 = slots t -> capacity t0 = capacity t -> table_ok t0 -> hash_ent_set t0 p (HashEntry key val) = Ok t' ->
    slots t' = <[p:=HashEntry key val]> (slots t) /\ capacity t' = capacity t).
  { intros t0 Hs0 Hc0 Hok H0. destruct (decide (p < length (slots t0))%nat) as [Hp|Hp].
    - destruct (hash_ent_set_slots t0 p (HashEntry key val) Hok Hp) as (t1 & E & Hs1 & Hc1 & _). rewrite E in H0. injection H0 as <-.
      split; congruence.
    - unfold hash_ent_set in H0. rewrite hash_ent_slots in H0 by done. unfold res_nth in H0.
      by rewrite lookup_ge_None_2 in H0 by lia. }
  exists p. destruct (negb _); [destruct (bad_key _); [|done]|]; simpl in H; (eapply Hset; [..|exact H]); try done.
  by destruct Ht; split.
Qed.

Lemma hash_put_no_tomb t key val t' :
  hash_put t key val = Ok t' -> table_ok t -> bad_key key = false -> no_tomb t -> no_tomb t'.
Proof.
  intros H Ht Hk Hnt j e Hj Hs. destruct (hash_put_slots _ _ _ _ H Ht) as (p & Hs' & Hc). rewrite Hs', list_lookup_insert in Hs.
  case_decide.
  - injection Hs as <-. simpl. intros ->. done.
  - eapply Hnt; [|exact Hs]. lia.
Qed.

(** Without deleted places, [hash_put] is the insertion into a map. *)
Lemma hash_put_clean t m key val :
  hinv t m -> no_tomb t -> bad_key key = false -> (size m < capacity t)%nat ->
  hash2 [key] 0xDEADBEEF + Z.of_nat (capacity t) <= 2 ^ 64 ->
  exists t', hash_put t key val = Ok t' /\ hinv t' (<[key := val]> m) /\ capacity t' = capacity t /\ no_tomb t'.
Proof.
  intros HI Hnt Hk Hsz Hw.
  assert (exists t', hash_put t key val = Ok t' /\ hinv t' (<[key := val]> m) /\ capacity t' = capacity t) as (t' & H & HI' & Hc).
  { destruct (m !! key) as [v|] eqn:E; [by eapply hash_put_present|by apply hash_put_spec]. }
  exists t'. split_and!; [done..|]. eapply hash_put_no_tomb; [done|apply HI|done|done].
Qed.

(** ** Empty tables *)

Lemma hinv_empty t :
  table_ok t -> (0 < capacity t)%nat -> ht_size t = 0 ->
  (forall j, (j < capacity t)%nat -> slots t !! j = Some zero_entry) -> hinv t ∅.
Proof.
  intros Hok Hc Hs Hz. split; [done|done|by rewrite map_size_empty| | |].
  - intros k v. rewrite lookup_empty. split; [done|]. intros (Hk & j & Hj & Hsj). rewrite Hz in Hsj by done.
    injection Hsj as <- <-. done.
  - intros i j e e' Hi _ Hsi _ Hl _. rewrite Hz in Hsi by done. injection Hsi as <-. done.
  - intros j e Hj Hsj Hl. rewrite Hz in Hsj by done. injection Hsj as <-. done.
Qed.

Lemma hash_init_empty back n : (0 < n)%nat -> hinv (hash_init back n) ∅.
Proof.
  intros Hn. apply hinv_empty; [|done|done|].
  - split; [done|]. unfold slots. simpl. rewrite length_app, length_replicate. lia.
  - intros j Hj. unfold slots. simpl in *. rewrite lookup_app_l by (rewrite length_replicate; lia).
    by apply lookup_replicate_2.
Qed.

Lemma clear_loop_spec t i n :
  table_ok t -> (i + n <= length (slots t))%nat ->
  exists t', clear_loop t i n = Ok t' /\ table_ok t' /\ capacity t' = capacity t /\ ht_size t' = ht_size t /\
    forall j, slots t' !! j = if decide (i <= j < i + n)%nat then Some zero_entry else slots t !! j.
Proof.
  revert t i. induction n as [|n IH]; intros t i Hok Hl; cbn [clear_loop].
  - exists t. split_and!; [done..|]. intros j. rewrite decide_False by lia. done.
  - destruct (hash_ent_set_slots t i zero_entry Hok ltac:(lia)) as (t1 & -> & Hs & Hc & Hz & Hok1). cbn [res_bind].
    destruct (IH t1 (S i) Hok1) as (t' & -> & Hok' & Hc' & Hz' & Hall); [rewrite Hs, length_insert; lia|].
    exists t'. split_and!; [done..|congruence|congruence|]. intros j. rewrite Hall, Hs.
    destruct (decide (S i <= j < S i + n)%nat); [by rewrite decide_True by lia|].
    destruct (decide (j = i)) as [->|].
    + rewrite list_lookup_insert_eq by lia. by rewrite decide_True by lia.
    + rewrite list_lookup_insert_ne by done. by rewrite decide_False by lia.
Qed.

Lemma hash_init2_empty back n pgsize :
  (0 < n)%nat -> (pgsize / SIZEOF_HASHENTRY =? 0)%nat = false ->
  Forall (fun pg => length pg = pgsize / SIZEOF_HASHENTRY)%nat back -> (n <= length (concat back))%nat ->
  exists t, hash_init2 back n pgsize = Ok t /\ hinv t ∅ /\ no_tomb t /\ capacity t = n.
Proof.
  intros Hn Hp Hb Hl. unfold hash_init2. set (t0 := mkHashtable [] back n 0 (pgsize / SIZEOF_HASHENTRY)).
  assert (Hs0 : slots t0 = concat back) by (unfold slots, t0; cbn [pgents entry2]; by rewrite Hp).
  destruct (clear_loop_spec t0 0 n) as (t' & -> & Hok & Hc & Hz & Hall).
  - split; [done|]. rewrite Hs0. done.
  - rewrite Hs0. lia.
  - assert (Hzero : forall j, (j < capacity t')%nat -> slots t' !! j = Some zero_entry).
    { intros j Hj. rewrite Hall, decide_True; [done|]. rewrite Hc in Hj. simpl in Hj. lia. }
    exists t'. split_and!; [done|apply hinv_empty; [done|rewrite Hc; done|done|done]| |done].
    intros j e Hj Hs. rewrite Hzero in Hs by done. by injection Hs as <-.
Qed.

(** ** Claims *)

(** C32: the hash table is a finite map.  In a table that stands for the map [m],
    [hash_get] looks the key up, [hash_del] deletes it, and [hash_put] of a key
    that is absent inserts it as long as there is room and the hash value does
    not wrap around within [capacity] rounds; a key that is absent is reported
    as such.  The tables left stand for the changed maps. *)
Theorem hash_refines_map t m key val :
  hinv t m -> bad_key key = false ->
  hash_get t key = match m !! key with Some v => Ok v | None => Err E_NOT_FOUND end /\
  match m !! key with
  | Some _ => exists t', hash_del t key = Ok t' /\ hinv t' (delete key m)
  | None => hash_del t key = Err E_NOT_FOUND /\
      ((size m < capacity t)%nat -> hash2 [key] 0xDEADBEEF + Z.of_nat (capacity t) <= 2 ^ 64 ->
       exists t', hash_put t key val = Ok t' /\ hinv t' (<[key := val]> m))
  end.
Proof.
  intros HI Hk. split; [by apply hash_get_spec|]. pose proof (hash_del_spec t m HI key Hk) as Hd.
  destruct (m !! key) as [v|] eqn:E.
  - destruct Hd as (t' & ? & ? & _). by exists t'.
  - split; [done|]. intros Hs Hw. destruct (hash_put_spec t m HI key Hk val E Hs Hw) as (t' & ? & ? & _). by exists t'.
Qed.

Definition ex_table : hashtable := hash_init [] 8.

Lemma hash_refines_map_witness :
  hash_get ex_table 5 = Err E_NOT_FOUND /\
  exists t', hash_put ex_table 5 7 = Ok t' /\ hinv t' {[5 := 7]} /\ hash_get t' 5 = Ok 7.
Proof.
  destruct (hash_refines_map ex_table ∅ 5 7 (hash_init_empty [] 8 ltac:(lia)) eq_refl) as [H1 [_ H2]].
  split; [exact H1|]. destruct H2 as (t' & Hp & HI).
  - rewrite map_size_empty. vm_compute. lia.
  - vm_compute. discriminate.
  - exists t'. split; [exact Hp|]. split; [exact HI|].
    destruct (hash_refines_map t' (<[5 := 7]> ∅) 5 0 HI eq_refl) as [H3 _]. by rewrite H3, lookup_insert_eq.
Defined.

(** The table with all its pages in one array. *)
Definition flatten (t : hashtable) : hashtable := mkHashtable (slots t) [] (capacity t) (ht_size t) 0.

Definition res_map {A B} (f : A -> B) (r : res A) : res B :=
  match r with Ok a => Ok (f a) | Err e => Err e | Panic => Panic end.

Lemma flatten_ent t i : table_ok t -> hash_ent (flatten t) i = hash_ent t i.
Proof. intros Ht. by rewrite (hash_ent_slots t). Qed.

Lemma flatten_set t i e : table_ok t -> hash_ent_set (flatten t) i e = res_map flatten (hash_ent_set t i e).
Proof.
  intros Ht. destruct (decide (i < length (slots t))%nat) as [Hi|Hi].
  - destruct (hash_ent_set_slots t i e Ht Hi) as (t' & -> & Hs & Hc & Hz & _).
    destruct (lookup_lt_is_Some_2 _ _ Hi) as [x Hx]. unfold hash_ent_set. rewrite flatten_ent by done.
    rewrite (hash_ent_ok t i x) by done. cbn [res_bind res_map pgents flatten negb Nat.eqb]. unfold flatten. cbn [entry entry2 capacity ht_size pgents]. by rewrite Hs, Hc, Hz.
  - unfold hash_ent_set. rewrite flatten_ent by done. rewrite hash_ent_slots by done. unfold res_nth.
    by rewrite lookup_ge_None_2 by lia.
Qed.

Lemma flatten_find t key i n : table_ok t -> find_loop (flatten t) key i n = find_loop t key i n.
Proof.
  intros Ht. revert i. induction n as [|n IH]; intros i; cbn [find_loop]; [done|].
  rewrite flatten_ent by done. simpl capacity. destruct (hash_ent t _); cbn [res_bind]; [|done..]. by rewrite IH.
Qed.

Lemma flatten_put t key i n last : table_ok t -> put_loop (flatten t) key i n last = put_loop t key i n last.
Proof.
  intros Ht. revert i last. induction n as [|n IH]; intros i last; cbn [put_loop]; [done|].
  rewrite flatten_ent by done. simpl capacity. destruct (hash_ent t _); cbn [res_bind]; [|done..]. by rewrite IH.
Qed.

(** C33: a table over pages ([hash_init2]) behaves like one over a single array
    ([hash_init]): every operation gives the same result and corresponding
    tables, failures and panics included. *)
Theorem hash_paged_flat t key val :
  table_ok t ->
  hash_get (flatten t) key = hash_get t key /\
  hash_put (flatten t) key val = res_map flatten (hash_put t key val) /\
  hash_del (flatten t) key = res_map flatten (hash_del t key).
Proof.
  intros Ht. unfold hash_get, hash_put, hash_del. destruct (bad_key key); [done|].
  change (capacity (flatten t)) with (capacity t). change (ht_size (flatten t)) with (ht_size t).
  rewrite flatten_find, flatten_put by done. split; [done|]. split.
  - destruct (ht_size t =? _); [done|]. destruct (put_loop t key 0 (capacity t) Panic) as [[p e]|e|]; cbn [res_bind res_map]; [|done..].
    assert (Hok : table_ok (set_size (ht_size t + 1) t)) by (destruct Ht; by split).
    destruct (negb _); [destruct (bad_key _)|]; cbn [res_bind res_map]; [|done|by apply flatten_set].
    exact (flatten_set _ p _ Hok).
  - destruct (find_loop t key 0 (capacity t)) as [[[p e]|]|e|]; cbn [res_bind res_map]; [|done..].
    rewrite flatten_set by done. by destruct (hash_ent_set t p _).
Qed.

Definition ex_paged : hashtable := mkHashtable [] (replicate 3 (replicate 2 zero_entry)) 5 0 2.

Lemma hash_paged_flat_witness :
  hash_put (flatten ex_paged) 9 1 = res_map flatten (hash_put ex_paged 9 1) /\
  is_ok (hash_put ex_paged 9 1) = true.
Proof.
  split; [|vm_compute; reflexivity]. apply (hash_paged_flat ex_paged 9 1).
  split; [intros _; by repeat constructor|vm_compute; lia].
Defined.

(** [hash_put] takes a deleted place without looking for the key beyond it:
    with 1 and 3 in the same chain, deleting 1 and storing 3 again leaves two
    entries for 3, and deleting 3 brings its old value back. *)
Theorem hash_put_duplicates :
  (do t <- hash_put (hash_init [] 4) 1 10;
   do t <- hash_put t 3 30;
   do t <- hash_del t 1;
   do t <- hash_put t 3 31;
   do t <- hash_del t 3;
   hash_get t 3)%res = Ok 30.
Proof. vm_compute. reflexivity. Qed.
