(* ===== verification/Dstack.v ===== *)
(** * The growing stack of kern/kern/dstack.c

    A list of pages, the first of which is filled from its end; [sp] is the
    index of the top in the first page, and 0 also when there is no page.  The
    free list keeps the blocks to be freed at the next commit in one. *)

From S2P Require Import Prelude.
From stdpp Require Import options.

Set Default Goal Selector "!".

(** [(PGSIZE - sizeof(LIST_ENTRY(dstack_page))) / sizeof(uint64_t)]. *)
Definition DSTACK_BUF_SIZE : nat := (4096 - 16) / 8.

Record dstack := mkDstack { sp : nat; pages : list (list Z) }.

Definition dstack_init : dstack := mkDstack 0 [].

(** [fresh] is the outcome of [page_alloc]: a page with whatever it holds. *)
Definition dstack_push (fresh : res (list Z)) (s : dstack) (n : Z) : res dstack :=
  (do s <- (if (sp s =? 0)%nat
            then do p <- fresh; Ok (mkDstack DSTACK_BUF_SIZE (p :: pages s))
            else Ok s);
   match pages s with
   | [] => Panic
   | p :: ps =>
       let sp' := (sp s - 1)%nat in
       do _ <- res_nth p sp';
       Ok (mkDstack sp' (<[sp' := n]> p :: ps))
   end)%res.

Definition dstack_pop (s : dstack) : res (Z * dstack) :=
  match pages s with
  | [] => Panic
  | p :: ps =>
      (do ret <- res_nth p (sp s);
       let sp' := S (sp s) in
       Ok (ret, if (sp' =? DSTACK_BUF_SIZE)%nat then mkDstack 0 ps else mkDstack sp' (p :: ps)))%res
  end.

Definition dstack_empty (s : dstack) : bool := match pages s with [] => true | _ => false end.

(** ** The stack as a list *)

Definition contents (s : dstack) : list Z :=
  match pages s with
  | [] => []
  | p :: ps => drop (sp s) p ++ concat ps
  end.

Definition dstack_ok (s : dstack) : Prop :=
  Forall (fun p => length p = DSTACK_BUF_SIZE) (pages s) /\
  match pages s with [] => sp s = 0%nat | _ => (sp s < DSTACK_BUF_SIZE)%nat end.

#[local] Opaque DSTACK_BUF_SIZE.

Lemma DSTACK_BUF_SIZE_pos : (0 < DSTACK_BUF_SIZE)%nat.
Proof. apply Nat.ltb_lt. vm_compute. reflexivity. Qed.

(** The top of the first page is written. *)
Lemma push_page n i p ps :
  length p = DSTACK_BUF_SIZE -> (0 < i <= DSTACK_BUF_SIZE)%nat -> Forall (fun p => length p = DSTACK_BUF_SIZE) ps ->
  exists s', (do _ <- res_nth p (i - 1); Ok (mkDstack (i - 1) (<[(i - 1)%nat := n]> p :: ps)))%res = Ok s' /\
    dstack_ok s' /\ contents s' = n :: drop i p ++ concat ps.
Proof.
  intros Hp Hi Hps. destruct (lookup_lt_is_Some_2 p (i - 1)) as [x Hx]; [lia|].
  rewrite (res_nth_lookup _ _ _ Hx). cbn [res_bind]. eexists. split; [done|]. split.
  - split; [constructor; [by rewrite length_insert|done]|]. simpl. lia.
  - unfold contents. simpl. rewrite (drop_S _ n (i - 1)) by (apply list_lookup_insert_eq; lia).
    rewrite drop_insert_lt by lia. by replace (S (i - 1)) with i by lia.
Qed.

Lemma dstack_push_ok fresh p s n :
  dstack_ok s -> fresh = Ok p -> length p = DSTACK_BUF_SIZE ->
  exists s', dstack_push fresh s n = Ok s' /\ dstack_ok s' /\ contents s' = n :: contents s.
Proof.
  intros [Hps Hsp] -> Hp. unfold dstack_push. destruct (sp s =? 0)%nat eqn:E; bool_hyps; cbn [res_bind pages sp].
  - destruct (push_page n DSTACK_BUF_SIZE p (pages s)) as (s' & Hr & Hok & Hc); [done|pose proof DSTACK_BUF_SIZE_pos; lia|done|].
    exists s'. split_and!; [done..|]. rewrite Hc, drop_ge by lia. unfold contents. rewrite E. by destruct (pages s).
  - unfold contents. destruct (pages s) as [|q ps]; [lia|]. apply list.Forall_cons in Hps as [Hq Hps].
    by apply push_page; [|lia|].
Qed.

Lemma dstack_pop_ok s n l :
  dstack_ok s -> contents s = n :: l ->
  exists s', dstack_pop s = Ok (n, s') /\ dstack_ok s' /\ contents s' = l.
Proof.
  intros [Hps Hsp] Hc. unfold contents, dstack_pop in *. destruct (pages s) as [|p ps]; [done|].
  apply list.Forall_cons in Hps as [Hp Hps]. destruct (lookup_lt_is_Some_2 p (sp s)) as [x Hx]; [lia|].
  rewrite (drop_S _ x) in Hc by done. simpl in Hc. injection Hc as -> Hc.
  rewrite (res_nth_lookup _ _ _ Hx). cbn [res_bind]. eexists. split; [done|].
  destruct (S (sp s) =? DSTACK_BUF_SIZE)%nat eqn:E; bool_hyps.
  - split; [split; [done|]|].
    + simpl. pose proof DSTACK_BUF_SIZE_pos. by destruct ps.
    + simpl. rewrite drop_ge in Hc by lia. simpl in Hc. by destruct ps.
  - split; [split; [by constructor|simpl; lia]|]. done.
Qed.

(** The stack of pages behaves as a stack: [dstack_push] adds its word on
    top, also when it has to allocate a page; [dstack_pop] takes the top off,
    also when the first page runs empty; and the stack is empty exactly when it
    has no page. *)
Theorem dstack_lifo fresh p s n :
  dstack_ok s -> fresh = Ok p -> length p = DSTACK_BUF_SIZE ->
  (exists s', dstack_push fresh s n = Ok s' /\ dstack_ok s' /\ contents s' = n :: contents s /\
     exists s'', dstack_pop s' = Ok (n, s'') /\ dstack_ok s'' /\ contents s'' = contents s) /\
  (contents s = [] <-> dstack_empty s = true).
Proof.
  intros Hs Hf Hp. split.
  - destruct (dstack_push_ok fresh p s n Hs Hf Hp) as (s' & H1 & Hs' & Hc). exists s'. split_and!; [done..|].
    by apply dstack_pop_ok.
  - destruct Hs as [Hps Hsp]. unfold contents, dstack_empty. destruct (pages s) as [|q ps]; [done|]. split; [|done].
    apply list.Forall_cons in Hps as [Hq _]. destruct (lookup_lt_is_Some_2 q (sp s)) as [x Hx]; [lia|].
    by rewrite (drop_S _ x).
Qed.

Lemma dstack_lifo_witness :
  exists s', dstack_push (Ok (replicate DSTACK_BUF_SIZE 0)) dstack_init 7 = Ok s' /\ contents s' = [7].
Proof.
  destruct (dstack_lifo (Ok (replicate DSTACK_BUF_SIZE 0)) (replicate DSTACK_BUF_SIZE 0) dstack_init 7) as [(s' & H & _ & Hc & _) _].
  - split; [constructor|reflexivity].
  - reflexivity.
  - apply length_replicate.
  - exists s'. exact (conj H Hc).
Defined.
