(* ===== verification/BTree.v ===== *)
(** * The B+-trees of kern/btree

    Nodes, searching ([btree_search.c]), insertion ([btree_insert.c]), deletion
    ([btree_delete.c]) and traversal ([btree_traverse.c]).  Nodes live in a store
    by their disk offset: a pointer to a node is its offset, and an assignment
    through the pointer changes the node in the store at once, since all users
    of a node share its copy in the cache.  Allocation of a node takes the next
    offset of a pool. *)

From S2P Require Import Prelude.
From stdpp Require Import options.

Set Default Goal Selector "!".

(** ** Nodes and trees *)

(** Keys and values are of [s_key] and [s_value] words. *)
Definition key := list Z.
Definition value := list Z.

(** The array behind [children] holds [order] words: the offsets of the children
    of an inner node, or [order / s_value] values of a leaf, the one after the
    last key starting with the offset of the next leaf. *)
Record btree_node := mkNode {
  is_leaf : bool;
  keyCount : nat;
  children : list Z;
  values : list value;
  keys : list key
}.

Definition set_keyCount (n : nat) (x : btree_node) : btree_node :=
  mkNode (is_leaf x) n (children x) (values x) (keys x).
Definition set_children (l : list Z) (x : btree_node) : btree_node :=
  mkNode (is_leaf x) (keyCount x) l (values x) (keys x).
Definition set_values (l : list value) (x : btree_node) : btree_node :=
  mkNode (is_leaf x) (keyCount x) (children x) l (keys x).
Definition set_keys (l : list key) (x : btree_node) : btree_node :=
  mkNode (is_leaf x) (keyCount x) (children x) (values x) l.

Record btree := mkBtree {
  order : nat;
  s_key : nat;
  s_value : nat;
  min_leaf : nat;
  min_intrn : nat;
  height : nat;
  bt_size : Z;
  root : Z;
  left_leaf : Z
}.

Definition set_tree (h : nat) (sz rt ll : Z) (t : btree) : btree :=
  mkBtree (order t) (s_key t) (s_value t) (min_leaf t) (min_intrn t) h sz rt ll.

Definition MAX_KEY_SIZE : nat := 2.
Definition MAX_VALUE_SIZE : nat := 2.

(** The assertions on the sizes, and a value size of 0 (a division by zero). *)
Definition btree_init_impl (ord key_size value_size : nat) : res btree :=
  if (key_size <=? MAX_KEY_SIZE)%nat && (value_size <=? MAX_VALUE_SIZE)%nat && (0 <? value_size)%nat
  then Ok (mkBtree ord key_size value_size (ord / value_size / 2) ((ord + 1) / 2 - 1) 0 0 0 0)
  else Panic.

Definition btree_size_impl (t : btree) : Z := bt_size t.
Definition btree_is_empty_impl (t : btree) : bool := btree_size_impl t =? 0.

(** The trees of [btree_manager_init]: the object map, the list of initial
    objects and the two indices of the free list, by size and by offset. *)
Definition BTREE_MAX_ORDER1 : nat := 252.
Definition BTREE_MAX_ORDER2 : nat := 168.
Definition btree_manager_init : res (btree * btree * btree * btree) :=
  (do objmap <- btree_init_impl BTREE_MAX_ORDER1 1 2;
   do iobj <- btree_init_impl BTREE_MAX_ORDER1 1 1;
   do fchunk <- btree_init_impl BTREE_MAX_ORDER2 2 1;
   do foffset <- btree_init_impl BTREE_MAX_ORDER1 1 1;
   Ok (objmap, iobj, fchunk, foffset))%res.

Definition LEAF_ORDER (t : btree) : nat := order t / s_value t.

(** A tree with its nodes, the offsets that allocation will return and those that
    were given back, the last one first. *)
Record bstate := mkBstate { bs_tree : btree; bs_nodes : gmap Z btree_node; bs_pool : list Z; bs_freed : list Z }.

(** ** The monad of the tree operations *)

Definition BM (A : Type) : Type := bstate -> res A * bstate.

#[export] Instance BM_ret : MRet BM := fun A a s => (Ok a, s).
#[export] Instance BM_bind : MBind BM := fun A B f m s =>
  match m s with
  | (Ok a, s') => f a s'
  | (Err e, s') => (Err e, s')
  | (Panic, s') => (Panic, s')
  end.

Definition bfail {A} (e : Z) : BM A := fun s => (Err e, s).
Definition bpanic {A} : BM A := fun s => (Panic, s).
Definition blift {A} (r : res A) : BM A := fun s => (r, s).
Definition get_tree : BM btree := fun s => (Ok (bs_tree s), s).
Definition put_tree (t : btree) : BM unit := fun s => (Ok tt, mkBstate t (bs_nodes s) (bs_pool s) (bs_freed s)).

Definition btree_read_node (off : Z) : BM btree_node := fun s =>
  match bs_nodes s !! off with
  | Some n => (Ok n, s)
  | None => (Panic, s)
  end.

(** Assignments to a node, and [btree_write_node]. *)
Definition btree_write_node (off : Z) (n : btree_node) : BM unit := fun s =>
  (Ok tt, mkBstate (bs_tree s) (<[off := n]> (bs_nodes s)) (bs_pool s) (bs_freed s)).

Definition btree_erase_node (off : Z) : BM unit := fun s =>
  (Ok tt, mkBstate (bs_tree s) (delete off (bs_nodes s)) (bs_pool s) (off :: bs_freed s)).

(** [btree_init_node] clears the arrays. *)
Definition btree_init_node (t : btree) : btree_node :=
  mkNode false 0 (replicate (order t) 0) (replicate (LEAF_ORDER t) (replicate (s_value t) 0))
    (replicate (order t - 1) (replicate (s_key t) 0)).

Definition btree_new_node : BM (Z * btree_node) := fun s =>
  match bs_pool s with
  | [] => (Panic, s)
  | off :: pool =>
      let n := btree_init_node (bs_tree s) in
      (Ok (off, n), mkBstate (bs_tree s) (<[off := n]> (bs_nodes s)) pool (bs_freed s))
  end.

Definition BTREE_SET_LEAF (n : btree_node) : btree_node :=
  mkNode true (keyCount n) (children n) (values n) (keys n).

(** ** Arrays *)

Definition arr_set {A} (l : list A) (i : nat) (x : A) : res (list A) :=
  if (i <? length l)%nat then Ok (<[i := x]> l) else Panic.

(** [memmove] of [n] entries from index [src] to index [dst]. *)
Definition arr_move {A} (l : list A) (dst src n : nat) : res (list A) :=
  if (n =? 0)%nat then Ok l
  else if (dst + n <=? length l)%nat && (src + n <=? length l)%nat
  then Ok (take dst l ++ take n (drop src l) ++ drop (dst + n) l)
  else Panic.

(** The loops that put [x] at index [i] and push the [n] entries from there on
    one place up; the result has the entry that is pushed out. *)
Fixpoint rotate_in {A} (l : list A) (i n : nat) (x : A) : res (list A * A) :=
  match n with
  | O => Ok (l, x)
  | S n => (do y <- res_nth l i; do l <- arr_set l i x; rotate_in l (S i) n y)%res
  end.

(** ** Keys *)

Fixpoint btree_keycmp (k1 k2 : key) : Z :=
  match k1, k2 with
  | x :: k1, y :: k2 => if x >? y then 1 else if x <? y then -1 else btree_keycmp k1 k2
  | _, _ => 0
  end.

(** The first of [n] keys that is not below the given one, as the loops of
    searching and deletion and those of insertion write it. *)
Fixpoint search_idx (ks : list key) (n : nat) (k : key) : nat :=
  match n, ks with
  | S n, x :: ks => if btree_keycmp x k <? 0 then S (search_idx ks n k) else 0
  | _, _ => 0
  end.
Fixpoint insert_idx (ks : list key) (n : nat) (k : key) : nat :=
  match n, ks with
  | S n, x :: ks => if btree_keycmp k x >? 0 then S (insert_idx ks n k) else 0
  | _, _ => 0
  end.

(** [i < keyCount && btree_keycmp(key, btree_key(node, i)) == 0]. *)
Definition key_at (ks : list key) (i n : nat) (k : key) : bool :=
  (i <? n)%nat && match ks !! i with Some x => btree_keycmp k x =? 0 | None => false end.

(** A value that holds the offset of a leaf. *)
Definition ptr_value (t : btree) (off : Z) : value := off :: replicate (s_value t - 1) 0.
Definition value_ptr (v : value) : Z := hd 0 v.

(** ** Searching *)

Inductive match_t := match_eq | match_ltet | match_gtet.

(** [while (!BTREE_IS_LEAF(n)) n = n->children[n->keyCount]]. *)
Fixpoint last_leaf (fuel : nat) (n : btree_node) : BM btree_node :=
  if is_leaf n then mret n
  else match fuel with
       | O => bpanic
       | S fuel => c ← blift (res_nth (children n) (keyCount n)); n ← btree_read_node c; last_leaf fuel n
       end.

(** The key and value with index [i] of a leaf. *)
Definition leaf_entry (n : btree_node) (i : nat) : res (key * value) :=
  (do k <- res_nth (keys n) i; do v <- res_nth (values n) i; Ok (k, v))%res.

(** The search in a leaf that has been reached; [last_right] and [div] tell the
    nearest node on the way that has a child further left.  [h] bounds the way
    down from there. *)
Definition search_leaf (h : nat) (n : btree_node) (k : key) (m : match_t)
    (last_right : option btree_node) (div : nat) : BM (option (key * value)) :=
  let i := search_idx (keys n) (keyCount n) k in
  if (i <? keyCount n)%nat && match keys n !! i with Some x => btree_keycmp x k =? 0 | None => false end
  then e ← blift (leaf_entry n i); mret (Some e)
  else
    match m with
    | match_ltet =>
        if (0 <? i)%nat then e ← blift (leaf_entry n (i - 1)); mret (Some e)
        else if (0 <? div)%nat then
          match last_right with
          | None => bpanic
          | Some r =>
              c ← blift (res_nth (children r) (div - 1));
              n ← btree_read_node c;
              n ← last_leaf h n;
              e ← blift (leaf_entry n (keyCount n - 1));
              mret (Some e)
          end
        else mret None
    | match_gtet =>
        if (i <? keyCount n)%nat then e ← blift (leaf_entry n i); mret (Some e)
        else
          nx ← blift (res_nth (values n) (keyCount n));
          if value_ptr nx =? 0 then mret None
          else n ← btree_read_node (value_ptr nx); e ← blift (leaf_entry n 0); mret (Some e)
    | match_eq => mret None
    end.

Fixpoint search_from (h fuel : nat) (off : Z) (k : key) (m : match_t)
    (last_right : option btree_node) (div : nat) : BM (option (key * value)) :=
  match fuel with
  | O => bpanic
  | S fuel =>
      n ← btree_read_node off;
      if is_leaf n then search_leaf h n k m last_right div
      else
        let i := search_idx (keys n) (keyCount n) k in
        c ← blift (res_nth (children n) i);
        if (0 <? i)%nat then search_from h fuel c k m (Some n) i
        else search_from h fuel c k m last_right div
  end.

(** The depth of the recursion is the height of the tree. *)
Definition search (k : key) (m : match_t) : BM (key * value) :=
  t ← get_tree;
  if root t =? 0 then bfail E_NOT_FOUND
  else if bt_size t =? 0 then bfail E_NOT_FOUND
  else
    r ← search_from (height t) (height t) (root t) k m None 0;
    match r with
    | Some e => mret e
    | None => bfail E_NOT_FOUND
    end.

Definition btree_search_impl (k : key) : BM (key * value) := search k match_eq.
Definition btree_ltet_impl (k : key) : BM (key * value) := search k match_ltet.
Definition btree_gtet_impl (k : key) : BM (key * value) := search k match_gtet.

(** ** Insertion *)

Definition zero_key (t : btree) : key := replicate (s_key t) 0.
Definition zero_value (t : btree) : value := replicate (s_value t) 0.

(** The loops that move [n] entries from index [i] of one array to index [j] of
    another one and clear them. *)
Fixpoint move_out {A} (src dst : list A) (i j n : nat) (zero : A) : res (list A * list A) :=
  match n with
  | O => Ok (src, dst)
  | S n =>
      (do x <- res_nth src i; do dst <- arr_set dst j x; do src <- arr_set src i zero;
       move_out src dst (S i) (S j) n zero)%res
  end.

(** [__addKeyToLeaf]; no result when the key is present. *)
Definition addKeyToLeaf (n : btree_node) (k : key) (v : value) : res (option btree_node) :=
  (let i := insert_idx (keys n) (keyCount n) k in
   if key_at (keys n) i (keyCount n) k then Ok None
   else
     do ks <- arr_move (keys n) (S i) i (keyCount n - i);
     do vs <- arr_move (values n) (S i) i (keyCount n - i + 1);
     do ks <- arr_set ks i k;
     do vs <- arr_set vs i v;
     Ok (Some (set_keyCount (S (keyCount n)) (set_values vs (set_keys ks n)))))%res.

(** [__splitLeaf]: the key that separates the halves, and both; [temp] is the
    new node and [filePos] its offset. *)
Definition splitLeaf (t : btree) (n temp : btree_node) (filePos : Z) (k : key) (v : value) :
  res (key * btree_node * btree_node) :=
  (let L := LEAF_ORDER t in
   let i := insert_idx (keys n) (L - 1) k in
   do (ks, temp1, vs, offset1) <-
     (if (i <? L - 1)%nat then
        do (ks, temp1) <- rotate_in (keys n) i (L - 1 - i) k;
        do (vs, offset1) <- rotate_in (values n) i (L - i) v;
        Ok (ks, temp1, vs, offset1)
      else
        do offset1 <- res_nth (values n) (L - 1);
        do vs <- arr_set (values n) (L - 1) v;
        Ok (keys n, k, vs, offset1));
   let div := ((L + 1) / 2 - 1)%nat in
   do sep <- res_nth ks div;
   let cnt := (L - 1 - div)%nat in
   do (ks, tks) <- move_out ks (keys temp) (S div) 0 (cnt - 1) (zero_key t);
   do (vs, tvs) <- move_out vs (values temp) (S div) 0 (cnt - 1) (zero_value t);
   let i := (S div + (cnt - 1))%nat in
   let j := (cnt - 1)%nat in
   do tks <- arr_set tks j temp1;
   do x <- res_nth vs i;
   do tvs <- arr_set tvs j x;
   do vs <- arr_set vs i (zero_value t);
   do tvs <- arr_set tvs (S j) offset1;
   do vs <- arr_set vs (S div) (ptr_value t filePos);
   Ok (sep, set_keyCount (S div) (set_values vs (set_keys ks n)),
       set_keyCount cnt (set_values tvs (set_keys tks (BTREE_SET_LEAF temp)))))%res.

(** [__addKey]: a separator and the node to its right. *)
Definition addKey (n : btree_node) (k : key) (filePos : Z) : res (option btree_node) :=
  (let i := insert_idx (keys n) (keyCount n) k in
   if key_at (keys n) i (keyCount n) k then Ok None
   else
     let cnt := S (keyCount n) in
     do (ks, cs) <-
       (if (i <? cnt)%nat then
          do (ks, _) <- rotate_in (keys n) i (cnt - i) k;
          do (cs, _) <- rotate_in (children n) (S i) (cnt - i) filePos;
          Ok (ks, cs)
        else
          do ks <- arr_set (keys n) i k;
          do cs <- arr_set (children n) (S i) filePos;
          Ok (ks, cs));
     Ok (Some (set_keyCount cnt (set_children cs (set_keys ks n)))))%res.

(** [__splitNode]. *)
Definition splitNode (t : btree) (n temp : btree_node) (k : key) (filePos : Z) :
  res (key * btree_node * btree_node) :=
  (let O := order t in
   let i := insert_idx (keys n) (O - 1) k in
   do (ks, temp1, cs, offset1) <-
     (if (i <? O - 1)%nat then
        do (ks, temp1) <- rotate_in (keys n) i (O - 1 - i) k;
        do (cs, offset1) <- rotate_in (children n) (S i) (O - 1 - i) filePos;
        Ok (ks, temp1, cs, offset1)
      else Ok (keys n, k, children n, filePos));
   let div := (O / 2)%nat in
   do sep <- res_nth ks div;
   let cnt := (O - 1 - div)%nat in
   do (ks, tks) <- move_out ks (keys temp) (S div) 0 (cnt - 1) (zero_key t);
   do (cs, tcs) <- move_out cs (children temp) (S div) 0 (cnt - 1) 0;
   let i := (S div + (cnt - 1))%nat in
   let j := (cnt - 1)%nat in
   do tks <- arr_set tks j temp1;
   do x <- res_nth cs i;
   do tcs <- arr_set tcs j x;
   do cs <- arr_set cs i 0;
   do tcs <- arr_set tcs (S j) offset1;
   do ks <- arr_set ks div (zero_key t);
   Ok (sep, set_keyCount div (set_children cs (set_keys ks n)),
       set_keyCount cnt (set_children tcs (set_keys tks temp))))%res.

(** The part of [__insertKey] after a child was split: the separator and the new
    node go into the inner node at [off]. *)
Definition insert_split (off : Z) (sep : key) (filePos : Z) : BM (option (option (key * Z))) :=
  t ← get_tree;
  n ← btree_read_node off;
  if (keyCount n <? order t - 1)%nat then
    r ← blift (addKey n sep filePos);
    match r with
    | None => mret (Some None)
    | Some n => btree_write_node off n;; mret (Some None)
    end
  else if key_at (keys n) (insert_idx (keys n) (order t - 1) sep) (order t - 1) sep then mret (Some None)
  else
    '(noff, temp) ← btree_new_node;
    '(sep, n, temp) ← blift (splitNode t n temp sep filePos);
    btree_write_node noff temp;;
    btree_write_node off n;;
    mret (Some (Some (sep, noff))).

(** [__insertKey]: no result when the key is present; otherwise the separator
    and the offset of a new node, if the node had to be split. *)
Fixpoint insertKey (fuel : nat) (off : Z) (k : key) (v : value) : BM (option (option (key * Z))) :=
  match fuel with
  | O => bpanic
  | S fuel =>
      t ← get_tree;
      n ← btree_read_node off;
      if is_leaf n then
        if (keyCount n <? LEAF_ORDER t - 1)%nat then
          r ← blift (addKeyToLeaf n k v);
          match r with
          | None => mret None
          | Some n => btree_write_node off n;; mret (Some None)
          end
        else if key_at (keys n) (insert_idx (keys n) (LEAF_ORDER t - 1) k) (LEAF_ORDER t - 1) k then mret None
        else
          '(noff, temp) ← btree_new_node;
          '(sep, n, temp) ← blift (splitLeaf t n temp noff k v);
          btree_write_node noff temp;;
          btree_write_node off n;;
          mret (Some (Some (sep, noff)))
      else
        c ← blift (res_nth (children n) (insert_idx (keys n) (keyCount n) k));
        r ← insertKey fuel c k v;
        match r with
        | Some (Some (sep, filePos)) => insert_split off sep filePos
        | _ => mret r
        end
  end.

Definition btree_insert_impl (k : key) (v : value) : BM unit :=
  t ← get_tree;
  r ← (if root t =? 0 then mret (Some None) else insertKey (height t) (root t) k v);
  match r with
  | None => bfail E_INVAL
  | Some split =>
      t ← get_tree;
      let t := set_tree (height t) (u64 (bt_size t + 1)) (root t) (left_leaf t) t in
      put_tree t;;
      if root t =? 0 then
        '(off, n) ← btree_new_node;
        ks ← blift (arr_set (keys n) 0 k);
        vs ← blift (arr_set (values n) 0 v);
        btree_write_node off (set_keyCount 1 (set_values vs (set_keys ks (BTREE_SET_LEAF n))));;
        put_tree (set_tree (S (height t)) (bt_size t) off off t)
      else
        match split with
        | None => mret tt
        | Some (sep, filePos) =>
            '(off, n) ← btree_new_node;
            ks ← blift (arr_set (keys n) 0 sep);
            cs ← blift (arr_set (children n) 0 (root t));
            cs ← blift (arr_set cs 1 filePos);
            btree_write_node off (set_keyCount 1 (set_children cs (set_keys ks n)));;
            put_tree (set_tree (S (height t)) (bt_size t) off (left_leaf t) t)
        end
  end.

(** ** Deletion *)

(** The loops that move the [n] entries above index [i] one place down. *)
Fixpoint shift_left {A} (l : list A) (i n : nat) : res (list A) :=
  match n with
  | O => Ok l
  | S n => (do x <- res_nth l (S i); do l <- arr_set l i x; shift_left l (S i) n)%res
  end.

(** The loops that move the first [n] entries one place up, from the last on. *)
Fixpoint shift_right {A} (l : list A) (n : nat) : res (list A) :=
  match n with
  | O => Ok l
  | S j => (do x <- res_nth l j; do l <- arr_set l (S j) x; shift_right l j)%res
  end.

(** The loops that copy [n] entries from index [j] on to index [i] on. *)
Fixpoint copy_in {A} (dst src : list A) (i j n : nat) : res (list A) :=
  match n with
  | O => Ok dst
  | S n => (do x <- res_nth src j; do dst <- arr_set dst i x; copy_in dst src (S i) (S j) n)%res
  end.

(** [__removeKey]; no result when the key is absent. *)
Definition removeKey (t : btree) (n : btree_node) (k : key) : res (option btree_node) :=
  (let i := search_idx (keys n) (keyCount n) k in
   if (i <? keyCount n)%nat && match keys n !! i with Some x => btree_keycmp x k =? 0 | None => false end then
     do ks <- arr_move (keys n) i (S i) (keyCount n - i - 1);
     do vs <- arr_move (values n) i (S i) (keyCount n - i);
     do ks <- arr_set ks (keyCount n - 1) (zero_key t);
     do vs <- arr_set vs (keyCount n) (zero_value t);
     Ok (Some (set_keyCount (keyCount n - 1) (set_values vs (set_keys ks n))))
   else Ok None)%res.

(** [__removeKey2] and [__removeKeyLeaf2]. *)
Definition removeKey2 (t : btree) (n : btree_node) (index : nat) : res btree_node :=
  (let cnt := (keyCount n - 1 - index)%nat in
   let i := (index + cnt)%nat in
   do ks <- shift_left (keys n) index cnt;
   do cs <- shift_left (children n) index cnt;
   do ks <- arr_set ks i (zero_key t);
   do x <- res_nth cs (S i);
   do cs <- arr_set cs i x;
   do cs <- arr_set cs (S i) 0;
   Ok (set_keyCount (keyCount n - 1) (set_children cs (set_keys ks n))))%res.

Definition removeKeyLeaf2 (t : btree) (n : btree_node) (index : nat) : res btree_node :=
  (let cnt := (keyCount n - 1 - index)%nat in
   let i := (index + cnt)%nat in
   do ks <- shift_left (keys n) index cnt;
   do vs <- shift_left (values n) index cnt;
   do ks <- arr_set ks i (zero_key t);
   do x <- res_nth vs (S i);
   do vs <- arr_set vs i x;
   do vs <- arr_set vs (S i) (zero_value t);
   Ok (set_keyCount (keyCount n - 1) (set_values vs (set_keys ks n))))%res.

(** The part of [__borrowRight] and its likes that moves an entry: the new
    contents of the node, its parent [prev] and its sibling [node]. *)
Definition borrowRight (t : btree) (n prev node : btree_node) (div : nat) :
  res (btree_node * btree_node * btree_node) :=
  (do sep <- res_nth (keys prev) div;
   do ks <- arr_set (keys n) (keyCount n) sep;
   do k0 <- res_nth (keys node) 0;
   do pks <- arr_set (keys prev) div k0;
   do c0 <- res_nth (children node) 0;
   do cs <- arr_set (children n) (S (keyCount n)) c0;
   do node <- removeKey2 t node 0;
   Ok (set_keyCount (S (keyCount n)) (set_children cs (set_keys ks n)), set_keys pks prev, node))%res.

Definition borrowRightLeaf (t : btree) (n prev node : btree_node) (div : nat) :
  res (btree_node * btree_node * btree_node) :=
  (do nx <- res_nth (values n) (keyCount n);
   do vs <- arr_set (values n) (S (keyCount n)) nx;
   do k0 <- res_nth (keys node) 0;
   do ks <- arr_set (keys n) (keyCount n) k0;
   do v0 <- res_nth (values node) 0;
   do vs <- arr_set vs (keyCount n) v0;
   do pks <- arr_set (keys prev) div k0;
   do node <- removeKeyLeaf2 t node 0;
   Ok (set_keyCount (S (keyCount n)) (set_values vs (set_keys ks n)), set_keys pks prev, node))%res.

Definition borrowLeft (t : btree) (n prev node : btree_node) (div : nat) :
  res (btree_node * btree_node * btree_node) :=
  (do ks <- shift_right (keys n) (keyCount n);
   do cs <- shift_right (children n) (S (keyCount n));
   do sep <- res_nth (keys prev) (div - 1);
   do ks <- arr_set ks 0 sep;
   do c <- res_nth (children node) (keyCount node);
   do cs <- arr_set cs 0 c;
   do k <- res_nth (keys node) (keyCount node - 1);
   do pks <- arr_set (keys prev) (div - 1) k;
   do ncs <- arr_set (children node) (keyCount node) 0;
   do nks <- arr_set (keys node) (keyCount node - 1) (zero_key t);
   Ok (set_keyCount (S (keyCount n)) (set_children cs (set_keys ks n)), set_keys pks prev,
       set_keyCount (keyCount node - 1) (set_children ncs (set_keys nks node))))%res.

Definition borrowLeftLeaf (t : btree) (n prev node : btree_node) (div : nat) :
  res (btree_node * btree_node * btree_node) :=
  (do ks <- shift_right (keys n) (keyCount n);
   do vs <- shift_right (values n) (S (keyCount n));
   do k <- res_nth (keys node) (keyCount node - 1);
   do ks <- arr_set ks 0 k;
   do v <- res_nth (values node) (keyCount node - 1);
   do vs <- arr_set vs 0 v;
   do sep <- res_nth (keys node) (keyCount node - 2);
   do pks <- arr_set (keys prev) (div - 1) sep;
   do nx <- res_nth (values node) (keyCount node);
   do nvs <- arr_set (values node) (keyCount node - 1) nx;
   do nvs <- arr_set nvs (keyCount node) (zero_value t);
   do nks <- arr_set (keys node) (keyCount node - 1) (zero_key t);
   Ok (set_keyCount (S (keyCount n)) (set_values vs (set_keys ks n)), set_keys pks prev,
       set_keyCount (keyCount node - 1) (set_values nvs (set_keys nks node))))%res.

(** [left] takes over [right]: the loops of [__mergeNode] and [__mergeLeaf]. *)
Definition absorbNode (left right : btree_node) (sep : key) : res btree_node :=
  (let i := keyCount left in
   do ks <- arr_set (keys left) i sep;
   do ks <- copy_in ks (keys right) (S i) 0 (keyCount right);
   do cs <- copy_in (children left) (children right) (S i) 0 (keyCount right);
   do x <- res_nth (children right) (keyCount right);
   do cs <- arr_set cs (S i + keyCount right) x;
   Ok (set_keyCount (S i + keyCount right) (set_children cs (set_keys ks left))))%res.

Definition absorbLeaf (left right : btree_node) : res btree_node :=
  (let i := keyCount left in
   do ks <- copy_in (keys left) (keys right) i 0 (keyCount right);
   do vs <- copy_in (values left) (values right) i 0 (keyCount right);
   do x <- res_nth (values right) (keyCount right);
   do vs <- arr_set vs (i + keyCount right) x;
   Ok (set_keyCount (i + keyCount right) (set_values vs (set_keys ks left))))%res.

Definition absorb (left right : btree_node) (sep : key) : res btree_node :=
  if is_leaf left then absorbLeaf left right else absorbNode left right sep.

(** [__mergeLeaf] and [__mergeNode]: with the left sibling if there is one. *)
Definition merge (off prev_off : Z) (div : nat) : BM unit :=
  t ← get_tree;
  n ← btree_read_node off;
  prev ← btree_read_node prev_off;
  if (0 <? div)%nat then
    node_off ← blift (res_nth (children prev) (div - 1));
    node ← btree_read_node node_off;
    sep ← blift (res_nth (keys prev) (div - 1));
    node ← blift (absorb node n sep);
    btree_write_node node_off node;;
    cs ← blift (arr_set (children prev) div node_off);
    btree_erase_node off;;
    prev ← blift (removeKey2 t (set_children cs prev) (div - 1));
    btree_write_node prev_off prev
  else
    node_off ← blift (res_nth (children prev) (S div));
    node ← btree_read_node node_off;
    sep ← blift (res_nth (keys prev) div);
    n ← blift (absorb n node sep);
    cs ← blift (arr_set (children prev) (S div) off);
    btree_erase_node node_off;;
    prev ← blift (removeKey2 t (set_children cs prev) div);
    btree_write_node prev_off prev;;
    btree_write_node off n.

(** [__borrowRight] or [__borrowRightLeaf], then the same on the left: whether
    a sibling could spare an entry. *)
Definition borrow_from (min : nat) (off prev_off : Z) (div : nat) (sib : nat)
    (move : btree -> btree_node -> btree_node -> btree_node -> nat -> res (btree_node * btree_node * btree_node)) :
  BM bool :=
  t ← get_tree;
  n ← btree_read_node off;
  prev ← btree_read_node prev_off;
  node_off ← blift (res_nth (children prev) sib);
  node ← btree_read_node node_off;
  if (min <? keyCount node)%nat then
    '(n, prev, node) ← blift (move t n prev node div);
    btree_write_node node_off node;;
    btree_write_node off n;;
    btree_write_node prev_off prev;;
    mret true
  else mret false.

Definition borrow (off prev_off : Z) (div : nat) : BM bool :=
  t ← get_tree;
  n ← btree_read_node off;
  prev ← btree_read_node prev_off;
  let min := if is_leaf n then min_leaf t else min_intrn t in
  r ← (if (keyCount prev <=? div)%nat then mret false
       else borrow_from min off prev_off div (S div) (if is_leaf n then borrowRightLeaf else borrowRight));
  if (r : bool) then mret true
  else if (div =? 0)%nat then mret false
  else borrow_from min off prev_off div (div - 1) (if is_leaf n then borrowLeftLeaf else borrowLeft).

(** The end of [__delete]: a node that is less than half full takes an entry from
    a sibling or is merged with it; the result is [merged]. *)
Definition delete_fix (off : Z) (prev : option Z) (index : nat) (merged : bool) : BM bool :=
  t ← get_tree;
  n ← btree_read_node off;
  if (off =? root t) || (is_leaf n && (min_leaf t <=? keyCount n)%nat)
     || (negb (is_leaf n) && (min_intrn t <=? keyCount n)%nat)
  then mret merged
  else
    match prev with
    | None => bpanic
    | Some prev_off =>
        b ← borrow off prev_off index;
        if (b : bool) then mret false
        else merge off prev_off index;; mret true
    end.

(** [__delete]: no result when the key is absent; otherwise [merged]. *)
Fixpoint delete_from (fuel : nat) (off : Z) (prev : option Z) (k : key) (index : nat) (merged : bool) :
  BM (option bool) :=
  match fuel with
  | O => bpanic
  | S fuel =>
      t ← get_tree;
      n ← btree_read_node off;
      r ← (if is_leaf n then
             r ← blift (removeKey t n k);
             match r with
             | None => mret None
             | Some n => btree_write_node off n;; mret (Some merged)
             end
           else
             let i := search_idx (keys n) (keyCount n) k in
             c ← blift (res_nth (children n) i);
             delete_from fuel c (Some off) k i merged);
      match r with
      | None => mret None
      | Some merged => m ← delete_fix off prev index merged; mret (Some m)
      end
  end.

Definition btree_delete_impl (k : key) : BM unit :=
  t ← get_tree;
  if root t =? 0 then bfail E_NOT_FOUND
  else
    n ← btree_read_node (root t);
    r ← delete_from (height t) (root t) None k (search_idx (keys n) (keyCount n) k) false;
    match r with
    | None => bfail E_NOT_FOUND
    | Some merged =>
        let t := set_tree (height t) (u64 (bt_size t - 1)) (root t) (left_leaf t) t in
        put_tree t;;
        n ← btree_read_node (root t);
        if is_leaf n && (keyCount n =? 0)%nat then
          put_tree (set_tree 0 (bt_size t) 0 0 t);;
          btree_erase_node (root t)
        else if merged && (keyCount n =? 0)%nat then
          c ← blift (res_nth (children n) 0);
          put_tree (set_tree (height t - 1) (bt_size t) c (left_leaf t) t);;
          btree_read_node c;;
          btree_erase_node (root t)
        else mret tt
    end.

(** ** Traversal *)

(** [struct btree_traversal]: the leaf, if any, and the next index in it. *)
Record btree_traversal := mkTrav { tr_node : option Z; tr_pos : nat }.

Definition btree_init_traversal_impl : btree_traversal := mkTrav None 0.

Definition btree_first_offset : BM (option (btree_traversal * (key * value))) :=
  t ← get_tree;
  if bt_size t =? 0 then mret None
  else
    n ← btree_read_node (left_leaf t);
    e ← blift (leaf_entry n 0);
    mret (Some (mkTrav (Some (left_leaf t)) 1, e)).

Definition btree_next_entry (tr : btree_traversal) : BM (option (btree_traversal * (key * value))) :=
  match tr_node tr with
  | None => btree_first_offset
  | Some off =>
      n ← btree_read_node off;
      if (tr_pos tr =? keyCount n)%nat then
        nx ← blift (res_nth (values n) (tr_pos tr));
        if value_ptr nx =? 0 then mret None
        else
          n ← btree_read_node (value_ptr nx);
          e ← blift (leaf_entry n 0);
          mret (Some (mkTrav (Some (value_ptr nx)) 1, e))
      else
        e ← blift (leaf_entry n (tr_pos tr));
        mret (Some (mkTrav (Some off) (S (tr_pos tr)), e))
  end.
