(* ===== verification/BTreeRep.v ===== *)
(** * What a B+-tree in the store stands for

    The order of keys, the arrays of a node, and the predicate that a subtree of
    some height represents a sorted list of keys and values. *)

From stdpp Require Import sorting.
From S2P Require Import Prelude BTree.
From stdpp Require Import options.

Set Default Goal Selector "!".

(** ** The order of keys *)

Definition klt (k1 k2 : key) : Prop := btree_keycmp k1 k2 < 0.
Definition kle (k1 k2 : key) : Prop := btree_keycmp k1 k2 <= 0.

Lemma keycmp_antisym k1 k2 : btree_keycmp k2 k1 = - btree_keycmp k1 k2.
Proof.
  revert k2. induction k1 as [|x k1 IH]; intros [|y k2]; simpl; [done..|].
  rewrite !Z.gtb_ltb. destruct (Z.ltb_spec y x), (Z.ltb_spec x y); [lia|done|done|apply IH].
Qed.

Lemma keycmp_refl k : btree_keycmp k k = 0.
Proof. pose proof (keycmp_antisym k k). lia. Qed.

Lemma keycmp_eq k1 k2 : length k1 = length k2 -> btree_keycmp k1 k2 = 0 -> k1 = k2.
Proof.
  revert k2. induction k1 as [|x k1 IH]; intros [|y k2]; simpl; [done..|]. intros [= Hl].
  rewrite Z.gtb_ltb. destruct (Z.ltb_spec y x), (Z.ltb_spec x y); [done..|]. intros Hk.
  f_equal; [lia|by apply IH].
Qed.

Lemma klt_trans k1 k2 k3 : length k1 = length k2 -> length k2 = length k3 -> klt k1 k2 -> klt k2 k3 -> klt k1 k3.
Proof.
  unfold klt. revert k2 k3. induction k1 as [|x k1 IH]; intros [|y k2] [|z k3]; simpl; [done..|].
  intros [= L1] [= L2]. rewrite !Z.gtb_ltb.
  destruct (Z.ltb_spec y x), (Z.ltb_spec x y), (Z.ltb_spec z y), (Z.ltb_spec y z), (Z.ltb_spec z x), (Z.ltb_spec x z);
    try lia. apply IH; done.
Qed.

Lemma kle_klt_or_eq k1 k2 : length k1 = length k2 -> kle k1 k2 <-> klt k1 k2 \/ k1 = k2.
Proof.
  intros Hl. unfold kle, klt. split.
  - intros H. destruct (decide (btree_keycmp k1 k2 = 0)) as [E|]; [right; by apply keycmp_eq|left; lia].
  - intros [H| ->]; [lia|]. rewrite keycmp_refl. lia.
Qed.

Lemma klt_irrefl k : ~ klt k k.
Proof. unfold klt. rewrite keycmp_refl. lia. Qed.

Lemma not_klt k1 k2 : ~ klt k1 k2 <-> kle k2 k1.
Proof. unfold klt, kle. rewrite (keycmp_antisym k1 k2). lia. Qed.

Section order.
Context (n : nat).

Definition vkey (k : key) : Prop := length k = n.

Lemma klt_kle_trans k1 k2 k3 : vkey k1 -> vkey k2 -> vkey k3 -> klt k1 k2 -> kle k2 k3 -> klt k1 k3.
Proof. unfold vkey. intros H1 H2 H3 Ha [Hb| ->]%kle_klt_or_eq; [|done|lia]. eapply (klt_trans _ k2); [lia..|done|done]. Qed.
Lemma kle_klt_trans k1 k2 k3 : vkey k1 -> vkey k2 -> vkey k3 -> kle k1 k2 -> klt k2 k3 -> klt k1 k3.
Proof. unfold vkey. intros H1 H2 H3 [Ha| ->]%kle_klt_or_eq Hb; [|done|lia]. eapply (klt_trans _ k2); [lia..|done|done]. Qed.
Lemma kle_trans k1 k2 k3 : vkey k1 -> vkey k2 -> vkey k3 -> kle k1 k2 -> kle k2 k3 -> kle k1 k3.
Proof.
  unfold vkey. intros H1 H2 H3 [Ha| ->]%kle_klt_or_eq Hb; [|done|lia].
  apply kle_klt_or_eq; [lia|]. left. by eapply (klt_kle_trans k1 k2 k3).
Qed.
Lemma klt_kle k1 k2 : klt k1 k2 -> kle k1 k2.
Proof. unfold klt, kle. lia. Qed.
Lemma kle_refl k : kle k k.
Proof. unfold kle. rewrite keycmp_refl. lia. Qed.
End order.

(** ** The loops over the keys *)

Lemma insert_idx_search_idx ks n k : insert_idx ks n k = search_idx ks n k.
Proof.
  revert n. induction ks as [|x ks IH]; intros [|n]; simpl; [done..|]. rewrite IH, (keycmp_antisym x k), Z.gtb_ltb.
  destruct (Z.ltb_spec 0 (- btree_keycmp x k)), (Z.ltb_spec (btree_keycmp x k) 0); lia || done.
Qed.

Lemma search_idx_take ks n k : search_idx ks n k = search_idx (take n ks) (length (take n ks)) k.
Proof.
  revert n. induction ks as [|x ks IH]; intros [|n]; simpl; [done..|]. destruct (btree_keycmp x k <? 0); [|done].
  by rewrite IH.
Qed.

(** The index of [k] in a list of keys: those before it are smaller. *)
Definition kidx (k : key) (ks : list key) : nat := search_idx ks (length ks) k.

Lemma kidx_le k ks : (kidx k ks <= length ks)%nat.
Proof. unfold kidx. induction ks as [|x ks IH]; simpl; [lia|]. destruct (btree_keycmp x k <? 0); lia. Qed.

Lemma kidx_before k ks j x : (j < kidx k ks)%nat -> ks !! j = Some x -> klt x k.
Proof.
  unfold kidx, klt. revert j. induction ks as [|y ks IH]; intros j Hj Hx; [done|]. simpl in Hj.
  destruct (Z.ltb_spec (btree_keycmp y k) 0); [|lia]. destruct j as [|j]; [by injection Hx as <-|].
  apply (IH j); [lia|done].
Qed.

Lemma kidx_at k ks x : ks !! kidx k ks = Some x -> kle k x.
Proof.
  unfold kidx, kle. induction ks as [|y ks IH]; [done|]. simpl.
  destruct (Z.ltb_spec (btree_keycmp y k) 0) as [H|H]; [by apply IH|]. intros [= <-]. rewrite (keycmp_antisym y k). lia.
Qed.

(** ** Arrays by index *)

(** Resolves the range tests of the goal that arithmetic decides. *)
Ltac decide_lia :=
  repeat match goal with
  | |- context [decide ?P] => first [rewrite (decide_True (P := P)) by lia | rewrite (decide_False (P := P)) by lia]
  end.

Lemma arr_set_ok {A} (l : list A) i x : (i < length l)%nat -> arr_set l i x = Ok (<[i := x]> l).
Proof. intros H. unfold arr_set. by rewrite (proj2 (Nat.ltb_lt _ _) H). Qed.

(** [x] at index [i], the entries from there on pushed up. *)
Definition ins_at {A} (i : nat) (x : A) (l : list A) : list A := take i l ++ x :: drop i l.

Lemma length_ins_at {A} i (x : A) l : length (ins_at i x l) = S (length l).
Proof. unfold ins_at. rewrite length_app. simpl. rewrite length_take, length_drop. lia. Qed.

Lemma lookup_ins_at {A} i (x : A) l j :
  (i <= length l)%nat ->
  ins_at i x l !! j = if decide (j < i)%nat then l !! j else if decide (j = i) then Some x else l !! (j - 1)%nat.
Proof.
  intros Hi. unfold ins_at. assert (Hl : length (take i l) = i) by (rewrite length_take; lia).
  destruct (decide (j < i)%nat).
  - rewrite lookup_app_l by lia. by rewrite lookup_take_lt.
  - rewrite lookup_app_r by lia. rewrite Hl. destruct (decide (j = i)) as [->|].
    + by rewrite Nat.sub_diag.
    + destruct (j - i)%nat as [|m] eqn:E; [lia|]. simpl. rewrite lookup_drop. f_equal. lia.
Qed.

Lemma fmap_ins_at {A B} (f : A -> B) i x l : f <$> ins_at i x l = ins_at i (f x) (f <$> l).
Proof. unfold ins_at. by rewrite fmap_app, fmap_cons, fmap_take, fmap_drop. Qed.

Lemma arr_move_up {A} (l : list A) i n :
  (i + n < length l)%nat ->
  exists l', arr_move l (S i) i n = Ok l' /\ length l' = length l /\
    forall j, l' !! j = if decide (i < j <= i + n)%nat then l !! (j - 1)%nat else l !! j.
Proof.
  intros Hl. unfold arr_move. destruct (n =? 0)%nat eqn:E; bool_hyps.
  - exists l. split_and!; [done..|]. intros j. by rewrite decide_False by lia.
  - rewrite (proj2 (Nat.leb_le (S i + n) (length l))), (proj2 (Nat.leb_le (i + n) (length l))) by lia. simpl.
    eexists. split; [done|]. split.
    + rewrite !length_app, !length_take, !length_drop. lia.
    + intros j. change (match l with [] => [] | a :: l0 => a :: take i l0 end) with (take (S i) l).
      change (match l with [] => [] | _ :: l0 => drop (i + n) l0 end) with (drop (S i + n) l).
      destruct (decide (j <= i)%nat).
      { rewrite lookup_app_l by (rewrite length_take; lia). rewrite lookup_take_lt by lia. by rewrite decide_False by lia. }
      rewrite lookup_app_r by (rewrite length_take; lia). rewrite length_take, Nat.min_l by lia.
      destruct (decide (j <= i + n)%nat).
      { rewrite lookup_app_l by (rewrite length_take, length_drop; lia). rewrite lookup_take_lt, lookup_drop by lia.
        rewrite decide_True by lia. f_equal. lia. }
      rewrite lookup_app_r by (rewrite length_take, length_drop; lia). rewrite length_take, length_drop, Nat.min_l by lia.
      rewrite lookup_drop, decide_False by lia. f_equal. lia.
Qed.

Lemma rotate_in_spec {A} (l : list A) i n x :
  (i + n <= length l)%nat ->
  exists l' y, rotate_in l i n x = Ok (l', y) /\ length l' = length l /\
    (forall j, l' !! j = if decide (i <= j < i + n)%nat then (if decide (j = i) then Some x else l !! (j - 1)%nat) else l !! j) /\
    Some y = if decide (n = 0)%nat then Some x else l !! (i + n - 1)%nat.
Proof.
  revert l i x. induction n as [|n IH]; intros l i x Hl; cbn [rotate_in].
  - exists l, x. split_and!; [done..| |done]. intros j. by rewrite decide_False by lia.
  - destruct (lookup_lt_is_Some_2 l i) as [y Hy]; [lia|]. rewrite (res_nth_lookup _ _ _ Hy). cbn [res_bind].
    rewrite arr_set_ok by lia. cbn [res_bind].
    destruct (IH (<[i:=x]> l) (S i) y) as (l' & z & -> & Hlen & Hl' & Hz); [rewrite length_insert; lia|].
    rewrite length_insert in Hlen. exists l', z. split_and!; [done..| |].
    + intros j. rewrite Hl'. destruct (decide (S i <= j < S i + n)%nat).
      * destruct (decide (j = S i)) as [->|]; decide_lia; [by simpl; rewrite Nat.sub_0_r|].
        rewrite list_lookup_insert_ne by lia. done.
      * destruct (decide (j = i)) as [->|].
        { decide_lia. by rewrite list_lookup_insert_eq by lia. }
        rewrite list_lookup_insert_ne by lia. by decide_lia.
    + rewrite Hz. rewrite (decide_False (P := S n = 0%nat)) by lia. destruct (decide (n = 0)%nat) as [->|].
      * rewrite <- Hy. f_equal. lia.
      * rewrite list_lookup_insert_ne by lia. f_equal. lia.
Qed.

Lemma move_out_spec {A} (src dst : list A) i j n z :
  (i + n <= length src)%nat -> (j + n <= length dst)%nat ->
  exists src' dst', move_out src dst i j n z = Ok (src', dst') /\
    length src' = length src /\ length dst' = length dst /\
    (forall m, src' !! m = if decide (i <= m < i + n)%nat then Some z else src !! m) /\
    (forall m, dst' !! m = if decide (j <= m < j + n)%nat then src !! (m - j + i)%nat else dst !! m).
Proof.
  revert src dst i j. induction n as [|n IH]; intros src dst i j H1 H2; cbn [move_out].
  - exists src, dst. split_and!; [done..| |]; intros m; by rewrite decide_False by lia.
  - destruct (lookup_lt_is_Some_2 src i) as [x Hx]; [lia|]. rewrite (res_nth_lookup _ _ _ Hx). cbn [res_bind].
    rewrite !arr_set_ok by lia. cbn [res_bind].
    destruct (IH (<[i:=z]> src) (<[j:=x]> dst) (S i) (S j)) as (src' & dst' & -> & L1 & L2 & E1 & E2);
      [rewrite length_insert; lia..|].
    rewrite length_insert in L1, L2. exists src', dst'. split_and!; [done..| |].
    + intros m. rewrite E1. destruct (decide (S i <= m < S i + n)%nat); [by rewrite decide_True by lia|].
      destruct (decide (m = i)) as [->|]; [rewrite list_lookup_insert_eq by lia; by rewrite decide_True by lia|].
      rewrite list_lookup_insert_ne by lia. by rewrite decide_False by lia.
    + intros m. rewrite E2. destruct (decide (S j <= m < S j + n)%nat).
      * rewrite decide_True by lia. rewrite list_lookup_insert_ne by lia. f_equal. lia.
      * destruct (decide (m = j)) as [->|].
        { rewrite list_lookup_insert_eq by lia. rewrite decide_True by lia. rewrite <- Hx. f_equal. lia. }
        rewrite list_lookup_insert_ne by lia. by rewrite decide_False by lia.
Qed.

(** ** Nodes *)

Abbreviation kv := (key * value)%type.

(** The parameters of a tree, as [btree_init_impl] sets them. *)
Record params_ok (t : btree) : Prop := {
  po_order : (3 <= order t)%nat;
  po_value : (1 <= s_value t)%nat;
  po_leaf : (2 <= LEAF_ORDER t)%nat;
  po_min_leaf : min_leaf t = (LEAF_ORDER t / 2)%nat;
  po_min_intrn : min_intrn t = ((order t + 1) / 2 - 1)%nat;
}.

Lemma LEAF_ORDER_le t : params_ok t -> (LEAF_ORDER t <= order t)%nat.
Proof. intros [_ Hv _ _ _]. unfold LEAF_ORDER. apply Nat.Div0.div_le_upper_bound. nia. Qed.

Definition sorted (kvs : list kv) : Prop := StronglySorted klt kvs.*1.

Section node.
Context (t : btree).

Definition vkv (e : kv) : Prop := length e.1 = s_key t /\ length e.2 = s_value t.

(** A leaf that holds [kvs] and is followed by the leaf at [nx]. *)
Record leaf_node (n : btree_node) (kvs : list kv) (nx : Z) : Prop := {
  lf_leaf : is_leaf n = true;
  lf_count : keyCount n = length kvs;
  lf_max : (length kvs <= LEAF_ORDER t - 1)%nat;
  lf_keys : length (keys n) = (order t - 1)%nat;
  lf_values : length (values n) = LEAF_ORDER t;
  lf_key : forall i, (i < length kvs)%nat -> keys n !! i = fst <$> kvs !! i;
  lf_value : forall i, (i < length kvs)%nat -> values n !! i = snd <$> kvs !! i;
  lf_next : value_ptr <$> values n !! length kvs = Some nx;
  lf_sorted : sorted kvs;
  lf_valid : Forall vkv kvs;
}.

(** An inner node with the given separators and children. *)
Record inner_node (n : btree_node) (seps : list key) (cs : list Z) : Prop := {
  in_leaf : is_leaf n = false;
  in_count : keyCount n = length seps;
  in_max : (length seps <= order t - 1)%nat;
  in_children : length cs = S (length seps);
  in_keys : length (keys n) = (order t - 1)%nat;
  in_array : length (children n) = order t;
  in_key : forall i, (i < length seps)%nat -> keys n !! i = seps !! i;
  in_child : forall i, (i < length cs)%nat -> children n !! i = cs !! i;
  in_valid : Forall (vkey (s_key t)) seps;
}.

(** A node that is not the root is at least half full. *)
Definition filled (nd : gmap Z btree_node) (off : Z) : Prop :=
  exists n, nd !! off = Some n /\ (if is_leaf n then min_leaf t <= keyCount n else min_intrn t <= keyCount n)%nat.

(** ** Subtrees *)

(** Keys above [lo] and up to [hi], where there are such bounds. *)
Definition above (lo : option key) (k : key) : Prop := match lo with Some l => klt l k | None => True end.
Definition below (hi : option key) (k : key) : Prop := match hi with Some h => kle k h | None => True end.
Definition within (lo hi : option key) (kvs : list kv) : Prop := Forall (fun e => above lo e.1 /\ below hi e.1) kvs.

(** Subtrees side by side, with all keys within bounds: their offsets [cs], the
    separators, all the nodes, the keys and values, the first leaf and the leaf
    that follows. *)
Inductive reps (R : Z -> gset Z -> list kv -> Z -> Z -> Prop) :
  option key -> option key -> list Z -> list key -> gset Z -> list kv -> Z -> Z -> Prop :=
| reps_one lo hi c D kvs f nx : R c D kvs f nx -> within lo hi kvs -> reps R lo hi [c] [] D kvs f nx
| reps_cons lo hi c cs k ks D1 D2 kvs1 kvs2 f m nx :
    R c D1 kvs1 f m -> within lo (Some k) kvs1 -> above lo k -> below hi k ->
    reps R (Some k) hi cs ks D2 kvs2 m nx -> D1 ## D2 ->
    reps R lo hi (c :: cs) (k :: ks) (D1 ∪ D2) (kvs1 ++ kvs2) f nx.

(** The first of them, each followed by its separator, up to the bound [lo']. *)
Inductive lseg (R : Z -> gset Z -> list kv -> Z -> Z -> Prop) (hi : option key) :
  option key -> list Z -> list key -> gset Z -> list kv -> Z -> Z -> option key -> Prop :=
| lseg_nil lo f : lseg R hi lo [] [] ∅ [] f f lo
| lseg_cons lo c cs k ks D1 D2 kvs1 kvs2 f m m' lo' :
    R c D1 kvs1 f m -> within lo (Some k) kvs1 -> above lo k -> below hi k ->
    lseg R hi (Some k) cs ks D2 kvs2 m m' lo' -> D1 ## D2 ->
    lseg R hi lo (c :: cs) (k :: ks) (D1 ∪ D2) (kvs1 ++ kvs2) f m' lo'.

(** The subtree of [h] levels above the leaves at [off]. *)
Fixpoint rep (nd : gmap Z btree_node) (h : nat) (off : Z) (D : gset Z) (kvs : list kv) (f nx : Z) : Prop :=
  match h with
  | O => exists n, nd !! off = Some n /\ leaf_node n kvs nx /\ D = {[off]} /\ f = off
  | S h => exists n seps cs D', nd !! off = Some n /\ inner_node n seps cs /\ D = {[off]} ∪ D' /\ (off ∉ D') /\
      reps (fun c D kvs f nx => rep nd h c D kvs f nx /\ filled nd c) None None cs seps D' kvs f nx
  end.

Definition child (nd : gmap Z btree_node) (h : nat) (c : Z) (D : gset Z) (kvs : list kv) (f nx : Z) : Prop :=
  rep nd h c D kvs f nx /\ filled nd c.

Lemma reps_impl (R R' : Z -> gset Z -> list kv -> Z -> Z -> Prop) lo hi cs ks D kvs f nx :
  (forall c D0 kvs f nx, D0 ⊆ D -> R c D0 kvs f nx -> R' c D0 kvs f nx) ->
  reps R lo hi cs ks D kvs f nx -> reps R' lo hi cs ks D kvs f nx.
Proof using.
  intros HR H. induction H.
  - constructor; [by apply HR|done].
  - eapply reps_cons; [apply HR; [set_solver|done]|done..| |done].
    apply IHreps. intros. apply HR; [set_solver|done].
Qed.

Lemma lseg_impl (R R' : Z -> gset Z -> list kv -> Z -> Z -> Prop) hi lo cs ks D kvs f m lo' :
  (forall c D0 kvs f nx, D0 ⊆ D -> R c D0 kvs f nx -> R' c D0 kvs f nx) ->
  lseg R hi lo cs ks D kvs f m lo' -> lseg R' hi lo cs ks D kvs f m lo'.
Proof using.
  intros HR H. induction H.
  - constructor.
  - eapply lseg_cons; [apply HR; [set_solver|done]|done..| |done].
    apply IHlseg. intros. apply HR; [set_solver|done].
Qed.

Lemma reps_inv R lo hi cs ks D kvs f nx :
  reps R lo hi cs ks D kvs f nx ->
  (exists c, cs = [c] /\ ks = [] /\ R c D kvs f nx /\ within lo hi kvs) \/
  (exists c cs' k ks' D1 D2 kvs1 kvs2 m, cs = c :: cs' /\ ks = k :: ks' /\ D = D1 ∪ D2 /\ kvs = kvs1 ++ kvs2 /\
     R c D1 kvs1 f m /\ within lo (Some k) kvs1 /\ above lo k /\ below hi k /\
     reps R (Some k) hi cs' ks' D2 kvs2 m nx /\ D1 ## D2).
Proof using. destruct 1; [left|right]; naive_solver. Qed.

Lemma reps_app R lo hi cs1 ks1 D1 kvs1 f m lo' cs2 ks2 D2 kvs2 nx :
  lseg R hi lo cs1 ks1 D1 kvs1 f m lo' -> reps R lo' hi cs2 ks2 D2 kvs2 m nx -> D1 ## D2 ->
  reps R lo hi (cs1 ++ cs2) (ks1 ++ ks2) (D1 ∪ D2) (kvs1 ++ kvs2) f nx.
Proof using.
  intros H. revert D2 kvs2. induction H as [|lo c cs k ks D1 D1' kvs1 kvs1' f m m' lo' HR Hw Ha Hb Hl IH Hd]; intros D2 kvs2 Hr HD.
  - by rewrite union_empty_l_L.
  - simpl. rewrite <- !(assoc_L _). eapply reps_cons; [done..| |set_solver]. apply IH; [done|set_solver].
Qed.

Lemma reps_split R lo hi cs ks D kvs f nx i :
  reps R lo hi cs ks D kvs f nx -> (i <= length ks)%nat ->
  exists D1 D2 kvs1 kvs2 m lo', lseg R hi lo (take i cs) (take i ks) D1 kvs1 f m lo' /\
    reps R lo' hi (drop i cs) (drop i ks) D2 kvs2 m nx /\ D = D1 ∪ D2 /\ D1 ## D2 /\ kvs = kvs1 ++ kvs2.
Proof using.
  intros H. revert i. induction H as [|lo hi c cs k ks D1 D2 kvs1 kvs2 f m nx HR Hw Ha Hb Hr IH Hd]; intros i Hi.
  - simpl in Hi. assert (i = 0%nat) as -> by lia. eexists ∅, _, [], _, _, _. split_and!; [apply lseg_nil| |by rewrite union_empty_l_L|set_solver|done].
    by constructor.
  - destruct i as [|i].
    + eexists ∅, _, [], _, _, _. split_and!; [apply lseg_nil| |by rewrite union_empty_l_L|set_solver|done].
      by eapply reps_cons.
    + destruct (IH i) as (E1 & E2 & l1 & l2 & m' & lo' & Hl & Hr' & -> & Hd' & ->); [simpl in Hi; lia|].
      exists (D1 ∪ E1), E2, (kvs1 ++ l1), l2, m', lo'. split_and!; [|done|set_solver|set_solver|by rewrite (assoc_L _)].
      simpl. eapply lseg_cons; [done..|set_solver].
Qed.

Lemma rep_root nd h off D kvs f nx : rep nd h off D kvs f nx -> off ∈ D.
Proof using. destruct h; simpl; intros; naive_solver set_solver. Qed.

(** Only the nodes of the subtree matter. *)
Lemma rep_frame nd nd' h off D kvs f nx :
  (forall o, o ∈ D -> nd' !! o = nd !! o) -> rep nd h off D kvs f nx -> rep nd' h off D kvs f nx.
Proof using.
  revert off D kvs f nx. induction h as [|h IH]; intros off D kvs f nx Hnd; simpl.
  - intros (n & Hn & Hl & -> & ->). exists n. rewrite Hnd by set_solver. done.
  - intros (n & seps & cs & D' & Hn & Hi & -> & Hno & Hr). exists n, seps, cs, D'.
    rewrite Hnd by set_solver. split_and!; [done..|]. eapply reps_impl; [|exact Hr].
    intros c D0 kvs0 f0 nx0 Hsub [Hc Hf]. split.
    + apply IH; [|done]. intros o Ho. apply Hnd. set_solver.
    + destruct Hf as (m & Hm & Hk). exists m. rewrite Hnd; [done|]. apply rep_root in Hc. set_solver.
Qed.

Lemma child_frame nd nd' h off D kvs f nx :
  (forall o, o ∈ D -> nd' !! o = nd !! o) -> child nd h off D kvs f nx -> child nd' h off D kvs f nx.
Proof using.
  intros Hnd [Hr Hf]. split; [by eapply rep_frame|]. destruct Hf as (m & Hm & Hk). exists m.
  rewrite Hnd; [done|]. by eapply rep_root.
Qed.

Lemma reps_lengths R lo hi cs ks D kvs f nx : reps R lo hi cs ks D kvs f nx -> length cs = S (length ks).
Proof using. induction 1; simpl; congruence. Qed.

(** What every child has, all have. *)
Lemma reps_ind_all (R : Z -> gset Z -> list kv -> Z -> Z -> Prop) (P : gset Z -> list kv -> Prop) lo hi cs ks D kvs f nx :
  (forall c D kvs f nx, R c D kvs f nx -> P D kvs) ->
  (forall D1 D2 kvs1 kvs2, P D1 kvs1 -> P D2 kvs2 -> P (D1 ∪ D2) (kvs1 ++ kvs2)) ->
  reps R lo hi cs ks D kvs f nx -> P D kvs.
Proof using. intros H1 H2 H. induction H; eauto. Qed.

(** All nodes are in the store. *)
Lemma rep_dom nd h off D kvs f nx : rep nd h off D kvs f nx -> D ⊆ dom nd.
Proof using.
  revert off D kvs f nx. induction h as [|h IH]; intros off D kvs f nx; simpl.
  - intros (n & Hn & _ & -> & _). apply singleton_subseteq_l, elem_of_dom. by exists n.
  - intros (n & seps & cs & D' & Hn & _ & -> & _ & Hr). apply union_subseteq. split.
    { apply singleton_subseteq_l, elem_of_dom. by exists n. }
    revert Hr. apply (reps_ind_all _ (fun D _ => D ⊆ dom nd)); [|set_solver].
    intros c D0 kvs0 f0 nx0 [Hc _]. by eapply IH.
Qed.

(** ** Sorted lists *)

Lemma sorted_app kvs1 kvs2 :
  sorted (kvs1 ++ kvs2) <-> sorted kvs1 /\ sorted kvs2 /\ forall e1 e2, e1 ∈ kvs1 -> e2 ∈ kvs2 -> klt e1.1 e2.1.
Proof using.
  unfold sorted. rewrite fmap_app. induction kvs1 as [|e kvs1 IH]; simpl.
  - split; [intros H; split_and!; [constructor|done|set_solver]|tauto].
  - split.
    + intros [H1 H2]%StronglySorted_inv. apply IH in H1 as (Ha & Hb & Hc). apply list.Forall_app in H2 as [H2 H3].
      split_and!; [by constructor|done|]. intros e1 e2 [->|He1]%elem_of_cons He2; [|by apply Hc].
      rewrite list.Forall_forall in H3. apply H3. by apply list_elem_of_fmap_2.
    + intros ([Ha Hb]%StronglySorted_inv & Hc & Hd). constructor.
      * apply IH. split_and!; [done..|]. intros. apply Hd; [by right|done].
      * apply list.Forall_app. split; [done|]. apply list.Forall_forall. intros k Hk.
        apply list_elem_of_fmap in Hk as (e2 & -> & He2). apply Hd; [by left|done].
Qed.

Lemma rep_valid nd h off D kvs f nx : rep nd h off D kvs f nx -> Forall vkv kvs.
Proof using.
  revert off D kvs f nx. induction h as [|h IH]; intros off D kvs f nx; simpl.
  - intros (n & _ & Hl & _). apply Hl.
  - intros (n & seps & cs & D' & _ & _ & _ & _ & Hr). revert Hr.
    apply (reps_ind_all _ (fun _ kvs => Forall vkv kvs)).
    + intros c D0 kvs0 f0 nx0 [Hc _]. by eapply IH.
    + intros _ _ kvs1 kvs2. by apply Forall_app_2.
Qed.

Lemma within_app lo hi kvs1 kvs2 : within lo hi (kvs1 ++ kvs2) <-> within lo hi kvs1 /\ within lo hi kvs2.
Proof using. apply list.Forall_app. Qed.

(** Wider bounds. *)
Lemma within_below lo hi k kvs :
  Forall vkv kvs -> vkey (s_key t) k -> from_option (vkey (s_key t)) True hi -> below hi k ->
  within lo (Some k) kvs -> within lo hi kvs.
Proof using.
  intros Hv Hk Hh Hb. unfold within. rewrite !list.Forall_forall. intros H e He. destruct (H e He) as [Ha Hbk]. split; [done|].
  rewrite list.Forall_forall in Hv. destruct hi as [hi|]; [|done]. simpl in *.
  eapply (kle_trans (s_key t) _ k); [by apply Hv|done..].
Qed.

Lemma within_above lo hi k kvs :
  Forall vkv kvs -> vkey (s_key t) k -> from_option (vkey (s_key t)) True lo -> above lo k ->
  within (Some k) hi kvs -> within lo hi kvs.
Proof using.
  intros Hv Hk Hh Hb. unfold within. rewrite !list.Forall_forall. intros H e He. destruct (H e He) as [Ha Hbk]. split; [|done].
  rewrite list.Forall_forall in Hv. destruct lo as [lo|]; [|done]. simpl in *.
  eapply (klt_kle_trans (s_key t) _ k); [done..|by apply Hv|done|by apply klt_kle].
Qed.

Section reps.
Context (R : Z -> gset Z -> list kv -> Z -> Z -> Prop).
Context (HR : forall c D kvs f nx, R c D kvs f nx -> Forall vkv kvs /\ sorted kvs).

Lemma reps_valid lo hi cs ks D kvs f nx : reps R lo hi cs ks D kvs f nx -> Forall vkv kvs.
Proof using HR.
  apply (reps_ind_all _ (fun _ kvs => Forall vkv kvs)).
  - intros. by eapply HR.
  - intros _ _ kvs1 kvs2. by apply Forall_app_2.
Qed.

Lemma reps_within lo hi cs ks D kvs f nx :
  reps R lo hi cs ks D kvs f nx -> Forall (vkey (s_key t)) ks ->
  from_option (vkey (s_key t)) True lo -> from_option (vkey (s_key t)) True hi -> within lo hi kvs.
Proof using HR.
  induction 1 as [|lo hi c cs k ks D1 D2 kvs1 kvs2 f m nx Hc Hw Ha Hb Hr IH Hd]; intros Hks Hlo Hhi; [done|].
  apply list.Forall_cons in Hks as [Hk Hks]. apply within_app. split.
  - eapply (within_below _ _ k); [by eapply HR|done..].
  - eapply (within_above _ _ k); [by eapply reps_valid|done..|]. by apply IH.
Qed.

Lemma within_klt lo k hi kvs1 kvs2 :
  Forall vkv kvs1 -> Forall vkv kvs2 -> vkey (s_key t) k -> within lo (Some k) kvs1 -> within (Some k) hi kvs2 ->
  forall e1 e2, e1 ∈ kvs1 -> e2 ∈ kvs2 -> klt e1.1 e2.1.
Proof using.
  unfold within. rewrite !list.Forall_forall. intros Hv1 Hv2 Hk H1 H2 e1 e2 He1 He2.
  eapply (kle_klt_trans (s_key t) _ k); [by apply Hv1|done|by apply Hv2|by apply H1|by apply H2].
Qed.

Lemma reps_sorted lo hi cs ks D kvs f nx :
  reps R lo hi cs ks D kvs f nx -> Forall (vkey (s_key t)) ks -> from_option (vkey (s_key t)) True hi -> sorted kvs.
Proof using HR.
  induction 1 as [|lo hi c cs k ks D1 D2 kvs1 kvs2 f m nx Hc Hw Ha Hb Hr IH Hd]; intros Hks Hhi; [by eapply HR|].
  apply list.Forall_cons in Hks as [Hk Hks]. apply sorted_app. split_and!; [by eapply HR|by apply IH|].
  eapply (within_klt _ k hi); [by eapply HR|by eapply reps_valid|done|done|]. by eapply reps_within.
Qed.

(** The first part is up to its bound. *)
Lemma lseg_valid hi lo cs ks D kvs f m lo' : lseg R hi lo cs ks D kvs f m lo' -> Forall vkv kvs.
Proof using HR. induction 1; [constructor|]. apply list.Forall_app. split; [by eapply HR|done]. Qed.

Lemma lseg_end hi lo cs ks D kvs f m lo' :
  lseg R hi lo cs ks D kvs f m lo' -> Forall (vkey (s_key t)) ks -> from_option (vkey (s_key t)) True lo ->
  (cs = [] /\ ks = [] /\ D = ∅ /\ kvs = [] /\ lo' = lo /\ m = f) \/
  (exists k, lo' = Some k /\ ks !! (length ks - 1)%nat = Some k /\ vkey (s_key t) k /\
     Forall (fun e => kle e.1 k) kvs /\ below hi k /\ above lo k).
Proof using HR.
  induction 1 as [|lo c cs k ks D1 D2 kvs1 kvs2 f m m' lo' Hc Hw Ha Hb Hl IH Hd]; intros Hks Hlo; [by left|right].
  apply list.Forall_cons in Hks as [Hk Hks].
  assert (H1 : Forall (fun e => kle e.1 k) kvs1) by (eapply list.Forall_impl; [exact Hw|]; by intros e [_ ?]).
  destruct (IH Hks Hk) as [(-> & -> & -> & -> & -> & ->)|(k' & -> & Hlast & Hk' & Hall & Hb' & Ha')].
  - exists k. rewrite app_nil_r. done.
  - exists k'. simpl in Ha'. split_and!; [done| |done| |done|].
    + destruct ks as [|k0 ks]; [done|]. simpl in *. by rewrite Nat.sub_0_r in Hlast.
    + apply Forall_app_2; [|done]. destruct (HR _ _ _ _ _ Hc) as [Hv _]. rewrite list.Forall_forall in *.
      intros e He. eapply (kle_trans (s_key t) _ k); [by apply Hv|done..|by apply H1|by apply klt_kle].
    + destruct lo as [l|]; [|done]. simpl in *. eapply (klt_kle_trans (s_key t) _ k); [done..|by apply klt_kle].
Qed.
End reps.

Lemma rep_sorted nd h off D kvs f nx : rep nd h off D kvs f nx -> sorted kvs.
Proof using.
  revert off D kvs f nx. induction h as [|h IH]; intros off D kvs f nx; simpl.
  - intros (n & _ & Hl & _). apply Hl.
  - intros (n & seps & cs & D' & _ & Hn & _ & _ & Hr). eapply reps_sorted; [|exact Hr|apply Hn|done].
    intros c D0 kvs0 f0 nx0 [Hc _]. split; [by eapply rep_valid|by eapply IH].
Qed.

Lemma child_ok nd h c D kvs f nx : child nd h c D kvs f nx -> Forall vkv kvs /\ sorted kvs.
Proof using. intros [Hc _]. split; [by eapply rep_valid|by eapply rep_sorted]. Qed.

End node.
