(* ===== verification/BTreeSearch.v ===== *)
(** * Searching a B+-tree

    [btree_search], [btree_ltet] and [btree_gtet] find the entry with the key,
    the last one up to it and the first one from it on, in the list that the
    tree represents. *)

From stdpp Require Import sorting.
From S2P Require Import Prelude BTree BTreeRep.
From stdpp Require Import options.

Set Default Goal Selector "!".

(** ** What is looked for *)

Definition matches (m : match_t) (k k' : key) : Prop :=
  match m with match_eq => k' = k | match_ltet => kle k' k | match_gtet => kle k k' end.

(** The entry that a search in [kvs] has to find: among the matching ones the
    nearest to the key. *)
Definition answer (m : match_t) (k : key) (kvs : list kv) (r : option kv) : Prop :=
  match r with
  | None => forall e, e ∈ kvs -> ~ matches m k e.1
  | Some e => (e ∈ kvs) /\ matches m k e.1 /\
      forall e', e' ∈ kvs -> matches m k e'.1 ->
        match m with match_eq => e' = e | match_ltet => kle e'.1 e.1 | match_gtet => kle e.1 e'.1 end
  end.

(** A run of the monad that only reads. *)
Lemma bbind_ok {A B} (m : BM A) (f : A -> BM B) s a s1 : m s = (Ok a, s1) -> (m ≫= f) s = f a s1.
Proof. intros H. unfold mbind, BM_bind. by rewrite H. Qed.

Lemma read_node_ok off n s : bs_nodes s !! off = Some n -> btree_read_node off s = (Ok n, s).
Proof. intros H. unfold btree_read_node. by rewrite H. Qed.

Lemma blift_nth {A} (l : list A) i x s : l !! i = Some x -> blift (res_nth l i) s = (Ok x, s).
Proof. intros H. unfold blift. by rewrite (res_nth_lookup _ _ _ H). Qed.

(** ** Where a key divides a list *)

(** All of [l1] is below the key, all of [l2] above. *)
Definition divides (k : key) (l1 l2 : list kv) : Prop :=
  Forall (fun e => klt e.1 k) l1 /\ Forall (fun e => klt k e.1) l2.

Lemma divides_no_eq k l1 l2 : divides k l1 l2 -> answer match_eq k (l1 ++ l2) None.
Proof.
  intros [H1 H2] e He Hk. simpl in Hk. subst k. rewrite list.Forall_forall in H1, H2.
  apply elem_of_app in He as [He|He]; [apply H1 in He|apply H2 in He]; by apply klt_irrefl in He.
Qed.

Lemma divides_no_le k l2 : divides k [] l2 -> answer match_ltet k l2 None.
Proof.
  intros [_ H2] e He Hk. simpl in Hk. rewrite list.Forall_forall in H2. apply H2 in He. by apply not_klt in Hk.
Qed.

Lemma divides_no_ge k l1 : divides k l1 [] -> answer match_gtet k l1 None.
Proof.
  intros [H1 _] e He Hk. simpl in Hk. rewrite list.Forall_forall in H1. apply H1 in He. by apply not_klt in Hk.
Qed.

Lemma divides_le k l1 e l2 : sorted (l1 ++ [e]) -> divides k (l1 ++ [e]) l2 -> answer match_ltet k ((l1 ++ [e]) ++ l2) (Some e).
Proof.
  intros Hs [H1 H2]. rewrite list.Forall_forall in H1, H2. split_and!; [set_solver|apply klt_kle, H1; set_solver|].
  intros e' [He'|He']%elem_of_app Hm; simpl in Hm.
  - apply elem_of_app in He' as [He'| ->%list_elem_of_singleton]; [|apply kle_refl].
    apply sorted_app in Hs as (_ & _ & Hs). apply klt_kle, Hs; [done|set_solver].
  - apply H2 in He'. by apply not_klt in Hm.
Qed.

Lemma divides_ge k l1 e l2 : sorted (e :: l2) -> divides k l1 (e :: l2) -> answer match_gtet k (l1 ++ e :: l2) (Some e).
Proof.
  intros Hs [H1 H2]. rewrite list.Forall_forall in H1, H2. split_and!; [set_solver|apply klt_kle, H2; set_solver|].
  intros e' [He'|He']%elem_of_app Hm; simpl in Hm.
  - apply H1 in He'. by apply not_klt in Hm.
  - apply elem_of_cons in He' as [->|He']; [apply kle_refl|].
    apply (sorted_app [e] l2) in Hs as (_ & _ & Hs). apply klt_kle, Hs; [set_solver|done].
Qed.

Lemma sorted_unique kvs e e' : sorted kvs -> e ∈ kvs -> e' ∈ kvs -> e.1 = e'.1 -> e = e'.
Proof.
  induction kvs as [|x kvs IH]; intros Hs He He' Hk; [set_solver|].
  apply (sorted_app [x] kvs) in Hs as (_ & Hs & Hlt).
  apply elem_of_cons in He as [->|He], He' as [->|He']; [done| | |by apply IH].
  - specialize (Hlt x e' ltac:(set_solver) He'). rewrite Hk in Hlt. by apply klt_irrefl in Hlt.
  - specialize (Hlt x e ltac:(set_solver) He). rewrite Hk in Hlt. by apply klt_irrefl in Hlt.
Qed.

(** An entry with the key itself is the answer to every search. *)
Lemma answer_found m k kvs e : sorted kvs -> e ∈ kvs -> e.1 = k -> answer m k kvs (Some e).
Proof.
  intros Hs He <-. split_and!; [done|destruct m; simpl; [done|apply kle_refl..]|].
  intros e' He' Hm. destruct m; simpl in *; [by eapply sorted_unique|done..].
Qed.

Lemma divides_app k l1 l2 l1' l2' :
  divides k l1 l2 -> Forall (fun e => klt e.1 k) l1' -> Forall (fun e => klt k e.1) l2' -> divides k (l1' ++ l1) (l2 ++ l2').
Proof. intros [H1 H2] H3 H4. split; by apply Forall_app_2. Qed.

(** The index of a key in a sorted list divides it, if the key is not there. *)
Lemma kidx_divides t k kvs :
  length k = s_key t -> Forall (vkv t) kvs -> sorted kvs ->
  (match kvs.*1 !! kidx k kvs.*1 with Some x => btree_keycmp x k =? 0 | None => false end) = false ->
  divides k (take (kidx k kvs.*1) kvs) (drop (kidx k kvs.*1) kvs).
Proof.
  intros Hk Hv Hs Hne. set (i := kidx k kvs.*1) in *. rewrite list.Forall_forall in Hv. split; rewrite list.Forall_forall; intros e He.
  - apply list_elem_of_lookup in He as [j [Hj Hlt]%lookup_take_Some].
    apply (kidx_before k kvs.*1 j); [done|]. by rewrite list_lookup_fmap, Hj.
  - apply list_elem_of_lookup in He as [j Hj]. rewrite lookup_drop in Hj.
    rewrite list_lookup_fmap in Hne. destruct (kvs !! i) as [x|] eqn:Ex; simpl in Hne.
    2:{ apply lookup_ge_None in Ex. apply lookup_lt_Some in Hj. lia. }
    assert (Hkx : klt k x.1).
    { assert (Hle : kle k x.1) by (apply (kidx_at k kvs.*1); by rewrite list_lookup_fmap; fold i; rewrite Ex).
      unfold klt, kle in *. bool_hyps. rewrite (keycmp_antisym x.1 k) in Hle |- *. lia. }
    destruct j as [|j]; [rewrite Nat.add_0_r in Hj; congruence|].
    rewrite <- (take_drop_middle kvs i x Ex) in Hs. apply sorted_app in Hs as (_ & Hs & _).
    apply (sorted_app [x]) in Hs as (_ & _ & Hs).
    assert (He : e ∈ drop (S i) kvs) by (apply list_elem_of_lookup; exists j; rewrite lookup_drop; rewrite <- Hj; f_equal; lia).
    specialize (Hs x e ltac:(set_solver) He).
    eapply (klt_trans _ x.1); [| |done|done].
    + rewrite Hk. symmetry. apply Hv. apply list_elem_of_lookup. by exists i.
    + transitivity (s_key t); [apply Hv; apply list_elem_of_lookup; by exists i|symmetry; apply Hv; apply list_elem_of_lookup; eauto].
Qed.

Section search.
Context (t : btree) (Ht : params_ok t).

Lemma min_leaf_pos : (0 < min_leaf t)%nat.
Proof using Ht.
  rewrite (po_min_leaf _ Ht). pose proof (po_leaf _ Ht). pose proof (Nat.Div0.div_le_mono 2 (LEAF_ORDER t) 2). simpl in *. lia.
Qed.

(** ** Leaves *)

Lemma leaf_entry_ok n kvs nx i e : leaf_node t n kvs nx -> kvs !! i = Some e -> leaf_entry n i = Ok e.
Proof using.
  intros Hl He. pose proof (lookup_lt_Some _ _ _ He) as Hi. unfold leaf_entry.
  rewrite (res_nth_lookup _ _ e.1) by (rewrite (lf_key _ _ _ _ Hl), He by done; done). cbn [res_bind].
  rewrite (res_nth_lookup _ _ e.2) by (rewrite (lf_value _ _ _ _ Hl), He by done; done). by destruct e.
Qed.

Lemma leaf_idx n kvs nx k : leaf_node t n kvs nx -> search_idx (keys n) (keyCount n) k = kidx k kvs.*1.
Proof using.
  intros Hl. rewrite search_idx_take. unfold kidx. do 2 f_equal; [|f_equal];
    (apply list_eq; intros i; rewrite (lf_count _ _ _ _ Hl), list_lookup_fmap;
     destruct (decide (i < length kvs)%nat);
     [rewrite lookup_take_lt by lia; by apply Hl
     |rewrite lookup_take_ge by lia; by rewrite lookup_ge_None_2 by lia]).
Qed.

Lemma inner_idx n seps cs k : inner_node t n seps cs -> search_idx (keys n) (keyCount n) k = kidx k seps.
Proof using.
  intros Hl. rewrite search_idx_take. unfold kidx. do 2 f_equal; [|f_equal];
    (apply list_eq; intros i; rewrite (in_count _ _ _ _ Hl);
     destruct (decide (i < length seps)%nat);
     [rewrite lookup_take_lt by lia; by apply Hl
     |rewrite lookup_take_ge by lia; by rewrite lookup_ge_None_2 by lia]).
Qed.

(** Nodes below the root are not empty. *)
Lemma child_nonempty nd h c D kvs f nx : child t nd h c D kvs f nx -> kvs <> [].
Proof using Ht.
  revert c D kvs f nx. induction h as [|h IH]; intros c D kvs f nx [Hr Hf]; simpl in Hr.
  - destruct Hr as (n & Hn & Hl & _). destruct Hf as (n' & Hn' & Hc). simplify_eq.
    rewrite (lf_leaf _ _ _ _ Hl), (lf_count _ _ _ _ Hl) in Hc. pose proof min_leaf_pos. intros ->. simpl in Hc. lia.
  - destruct Hr as (n & seps & cs & D' & _ & _ & _ & _ & Hr). inversion Hr as [? ? ? ? ? ? ? Hc|? ? ? ? ? ? ? ? ? ? ? ? ? Hc]; subst.
    + by eapply IH.
    + apply IH in Hc. by destruct kvs1.
Qed.

(** The first and the last leaf of a subtree. *)
Lemma first_leaf nd h c D kvs f nx :
  child t nd h c D kvs f nx ->
  exists n kvs' nx' rest, nd !! f = Some n /\ leaf_node t n kvs' nx' /\ kvs' <> [] /\ kvs = kvs' ++ rest.
Proof using Ht.
  revert c D kvs f nx. induction h as [|h IH]; intros c D kvs f nx Hc; pose proof (child_nonempty _ _ _ _ _ _ _ Hc) as Hne;
    destruct Hc as [Hr Hf]; simpl in Hr.
  - destruct Hr as (n & Hn & Hl & -> & ->). exists n, kvs, nx, []. by rewrite app_nil_r.
  - destruct Hr as (n & seps & cs & D' & _ & _ & _ & _ & Hr). inversion Hr as [? ? ? ? ? ? ? Hc|? ? ? ? ? ? ? ? ? ? ? ? ? Hc]; subst.
    + by eapply IH.
    + apply IH in Hc as (n' & kvs' & nx' & rest & ? & ? & ? & ->). exists n', kvs', nx', (rest ++ kvs2).
      by rewrite app_assoc.
Qed.

Lemma reps_last R lo hi cs ks D kvs f nx :
  reps R lo hi cs ks D kvs f nx ->
  exists c D' kvs' f' pre, cs !! length ks = Some c /\ R c D' kvs' f' nx /\ kvs = pre ++ kvs'.
Proof using.
  induction 1 as [lo hi c D kvs f nx Hc|lo hi c cs k ks D1 D2 kvs1 kvs2 f m nx Hc _ _ _ _ IH _].
  - by exists c, D, kvs, f, [].
  - destruct IH as (c' & D' & kvs' & f' & pre & Hl & Hc' & ->). exists c', D', kvs', f', (kvs1 ++ pre).
    by rewrite <- app_assoc.
Qed.

Lemma last_leaf_ok s h fuel c D kvs f nx n :
  child t (bs_nodes s) h c D kvs f nx -> (h <= fuel)%nat -> bs_nodes s !! c = Some n ->
  exists n' e pre, last_leaf fuel n s = (Ok n', s) /\ leaf_entry n' (keyCount n' - 1) = Ok e /\ kvs = pre ++ [e].
Proof using Ht.
  revert fuel c D kvs f nx n. induction h as [|h IH]; intros fuel c D kvs f nx n Hc Hf Hn;
    pose proof (child_nonempty _ _ _ _ _ _ _ Hc) as Hne; destruct Hc as [Hr _]; simpl in Hr.
  - destruct Hr as (n' & Hn' & Hl & _). simplify_eq. destruct kvs as [|e pre _] using rev_ind; [done|]. clear Hne.
    exists n', e, pre. split_and!; [| |done].
    + destruct fuel; cbn [last_leaf]; by rewrite (lf_leaf _ _ _ _ Hl).
    + eapply leaf_entry_ok; [done|]. rewrite (lf_count _ _ _ _ Hl), length_app. simpl.
      rewrite lookup_app_r by lia. by replace (length pre + 1 - 1 - length pre)%nat with 0%nat by lia.
  - destruct Hr as (n' & seps & cs & D' & Hn' & Hi & _ & _ & Hr). simplify_eq. destruct fuel as [|fuel]; [lia|].
    destruct (reps_last _ _ _ _ _ _ _ _ _ Hr) as (c' & D'' & kvs' & f' & pre & Hl & Hc' & ->).
    assert (exists m, bs_nodes s !! c' = Some m) as [m Hm] by (destruct Hc' as [_ (m & Hm & _)]; by exists m).
    destruct (IH fuel c' D'' kvs' f' nx m Hc' ltac:(lia) Hm) as (x & e & p & Hx & He & ->).
    exists x, e, (pre ++ p). split_and!; [|done|by rewrite app_assoc].
    cbn [last_leaf]. rewrite (in_leaf _ _ _ _ Hi). erewrite bbind_ok.
    2:{ apply blift_nth. rewrite (in_count _ _ _ _ Hi), (in_child _ _ _ _ Hi), Hl; [done|]. rewrite (in_children _ _ _ _ Hi). lia. }
    by erewrite bbind_ok; [|apply read_node_ok].
Qed.

(** ** The neighbours of a subtree *)

(** What lies left: nothing, or the last child before the way down. *)
Definition left_ok (nd : gmap Z btree_node) (H : nat) (lr : option btree_node) (div : nat) (pre : list kv) : Prop :=
  (div = 0%nat /\ pre = []) \/
  ((0 < div)%nat /\ exists r c h D kvs f nx pre', lr = Some r /\ children r !! (div - 1)%nat = Some c /\ (h <= H)%nat /\
     child t nd h c D kvs f nx /\ pre = pre' ++ kvs).

(** What lies right: nothing, or the next leaf. *)
Definition right_ok (nd : gmap Z btree_node) (nx : Z) (suf : list kv) : Prop :=
  (nx = 0 /\ suf = []) \/
  (nx <> 0 /\ exists n kvs nx' suf', nd !! nx = Some n /\ leaf_node t n kvs nx' /\ kvs <> [] /\ suf = kvs ++ suf').

(** ** The search in a leaf *)

Section leaf.
Context (s : bstate) (H : nat) (k : key) (Hk : length k = s_key t).
Context (n : btree_node) (kvs : list kv) (nx : Z) (Hn : leaf_node t n kvs nx).
Context (lr : option btree_node) (div : nat) (pre suf : list kv).
Context (Hleft : left_ok (bs_nodes s) H lr div pre) (Hright : right_ok (bs_nodes s) nx suf).
Context (Hs : sorted (pre ++ kvs ++ suf)).
Context (Hpre : Forall (fun e => klt e.1 k) pre) (Hsuf : Forall (fun e => klt k e.1) suf).

Let i := kidx k kvs.*1.

Lemma search_left :
  (i = 0)%nat -> divides k pre (kvs ++ suf) ->
  exists r, (if (0 <? div)%nat then
               match lr with
               | None => bpanic
               | Some r =>
                   c ← blift (res_nth (children r) (div - 1)); n ← btree_read_node c;
                   n ← last_leaf H n; e ← blift (leaf_entry n (keyCount n - 1)); mret (Some e)
               end
             else mret None) s = (Ok r, s) /\ answer match_ltet k (pre ++ kvs ++ suf) r.
Proof using Type*.
  intros Hi Hd. destruct Hleft as [[-> ->]|(Hpos & r & c & h & D & l & f & nx' & p & -> & Hc & Hh & Hch & ->)].
  - exists None. split; [done|]. by apply divides_no_le.
  - rewrite (proj2 (Nat.ltb_lt _ _) Hpos). erewrite bbind_ok by (by apply blift_nth).
    assert (exists m, bs_nodes s !! c = Some m) as [m Hm] by (destruct Hch as [_ (m & Hm & _)]; by exists m).
    erewrite bbind_ok by (by apply read_node_ok).
    destruct (last_leaf_ok s h H c D l f nx' m Hch Hh Hm) as (n' & e & p' & Hll & He & ->).
    erewrite bbind_ok by exact Hll. unfold blift. rewrite He. eexists. split; [reflexivity|].
    rewrite (app_assoc p) in Hs, Hd |- *. apply divides_le; [|exact Hd]. by apply sorted_app in Hs as [? _].
Qed.

Lemma search_right :
  (i = length kvs)%nat -> divides k (pre ++ kvs) suf ->
  exists r, (nxv ← blift (res_nth (values n) (keyCount n));
             if value_ptr nxv =? 0 then mret None
             else n ← btree_read_node (value_ptr nxv); e ← blift (leaf_entry n 0); mret (Some e)) s = (Ok r, s) /\
    answer match_gtet k (pre ++ kvs ++ suf) r.
Proof using Type*.
  intros Hi Hd. pose proof (lf_next _ _ _ _ Hn) as Hnx. apply fmap_Some in Hnx as (v & Hv & ->).
  erewrite bbind_ok by (apply blift_nth; by rewrite (lf_count _ _ _ _ Hn)).
  rewrite app_assoc in Hs |- *. destruct Hright as [[-> ->]|(Hne & n' & l & nx' & suf' & Hn' & Hl & Hne' & ->)].
  - exists None. rewrite app_nil_r. split; [done|]. by apply divides_no_ge.
  - rewrite (proj2 (Z.eqb_neq _ _) Hne). erewrite bbind_ok by (by apply read_node_ok).
    destruct l as [|e l]; [done|]. unfold blift. erewrite bbind_ok by (by rewrite (leaf_entry_ok _ _ _ 0 e Hl)).
    eexists. split; [reflexivity|]. apply divides_ge; [|exact Hd]. by apply sorted_app in Hs as (_ & ? & _).
Qed.

Lemma search_leaf_ok m :
  exists r, search_leaf H n k m lr div s = (Ok r, s) /\ answer m k (pre ++ kvs ++ suf) r.
Proof using Type*.
  unfold search_leaf. rewrite (leaf_idx n kvs nx k Hn). fold i. rewrite (lf_count _ _ _ _ Hn).
  assert (Hsk : sorted kvs) by (apply sorted_app in Hs as (_ & Hs' & _); by apply sorted_app in Hs' as [? _]).
  assert (Hkeys : forall j, (j < length kvs)%nat -> keys n !! j = kvs.*1 !! j).
  { intros j Hj. by rewrite (lf_key _ _ _ _ Hn), list_lookup_fmap. }
  pose proof (kidx_le k kvs.*1) as Hi. rewrite length_fmap in Hi. fold i in Hi.
  destruct (_ && _) eqn:E.
  - apply andb_true_iff in E as [Hlt E]. bool_hyps. rewrite Hkeys, list_lookup_fmap in E by done.
    destruct (kvs !! i) as [e|] eqn:Ee; [|done]. simpl in E. bool_hyps.
    unfold blift. rewrite (leaf_entry_ok _ _ _ _ _ Hn Ee). eexists. split; [reflexivity|].
    apply answer_found; [done| |].
    + apply elem_of_app. right. apply elem_of_app. left. apply list_elem_of_lookup. by exists i.
    + apply keycmp_eq; [|done]. rewrite Hk. pose proof (lf_valid _ _ _ _ Hn) as Hv. rewrite list.Forall_forall in Hv.
      apply Hv, list_elem_of_lookup. by exists i.
  - assert (Hdiv : divides k (take i kvs) (drop i kvs)).
    { apply (kidx_divides t); [done|apply Hn|done|]. fold i. destruct (i <? length kvs)%nat eqn:El; simpl in E; bool_hyps.
      - by rewrite Hkeys in E by done.
      - rewrite list_lookup_fmap, lookup_ge_None_2 by lia. done. }
    assert (Hall : divides k (pre ++ take i kvs) (drop i kvs ++ suf)) by (by apply divides_app).
    assert (Eall : pre ++ kvs ++ suf = (pre ++ take i kvs) ++ drop i kvs ++ suf).
    { rewrite <- app_assoc. f_equal. rewrite app_assoc. by rewrite take_drop. }
    destruct m.
    + exists None. split; [done|]. rewrite Eall. by apply divides_no_eq.
    + destruct (0 <? i)%nat eqn:Ei; bool_hyps.
      * destruct (lookup_lt_is_Some_2 kvs (i - 1)) as [e He]; [lia|].
        unfold blift. rewrite (leaf_entry_ok _ _ _ _ _ Hn He). eexists. split; [reflexivity|].
        assert (Et : take i kvs = take (i - 1) kvs ++ [e]).
        { replace i with (S (i - 1)) at 1 by lia. by apply take_S_r. }
        rewrite Eall in Hs |- *. rewrite Et in Hs, Hall |- *. rewrite (app_assoc pre) in Hs, Hall |- *. apply divides_le; [|done].
        by apply sorted_app in Hs as [? _].
      * assert (i = 0)%nat as Ei' by lia. rewrite Ei' in Hall. simpl in Hall. rewrite app_nil_r in Hall. by apply search_left.
    + destruct (i <? length kvs)%nat eqn:Ei; bool_hyps.
      * destruct (lookup_lt_is_Some_2 kvs i) as [e He]; [lia|].
        unfold blift. rewrite (leaf_entry_ok _ _ _ _ _ Hn He). eexists. split; [reflexivity|].
        rewrite Eall in Hs |- *. rewrite (drop_S _ _ _ He) in Hs, Hall |- *. simpl in *. apply divides_ge; [|done].
        by apply sorted_app in Hs as (_ & ? & _).
      * assert (i = length kvs)%nat as Ei' by lia. rewrite Ei' in Hall. rewrite take_ge, drop_ge in Hall by lia.
        simpl in Hall. rewrite <- (lf_count _ _ _ _ Hn). by apply search_right.
Qed.

End leaf.

(** ** The way down *)

Lemma lseg_last R hi lo cs ks D kvs f m lo' :
  lseg R hi lo cs ks D kvs f m lo' -> cs <> [] ->
  exists c D' kvs' f' pre, cs !! (length cs - 1)%nat = Some c /\ R c D' kvs' f' m /\ kvs = pre ++ kvs'.
Proof using.
  induction 1 as [|lo c cs k ks D1 D2 kvs1 kvs2 f m m' lo' Hc _ _ _ Hl IH _]; intros Hne; [done|].
  destruct cs as [|c' cs].
  - inversion Hl; subst. exists c, D1, kvs1, f, []. split_and!; [done..|]. by rewrite app_nil_r.
  - destruct IH as (x & D' & kvs' & f' & pre & Hx & Hr & ->); [done|]. exists x, D', kvs', f', (kvs1 ++ pre).
    split_and!; [|done|by rewrite app_assoc]. simpl in *. by rewrite Nat.sub_0_r in Hx.
Qed.

Lemma reps_first R lo hi cs ks D kvs f nx :
  reps R lo hi cs ks D kvs f nx -> exists c D' kvs' m rest, R c D' kvs' f m /\ kvs = kvs' ++ rest.
Proof using.
  destruct 1 as [? ? c D' kvs' f' nx' Hc|? ? c ? ? ? D' ? kvs' rest ? ? ? Hc].
  - exists c, D', kvs', nx', []. by rewrite app_nil_r.
  - by exists c, D', kvs', m, rest.
Qed.

(** The child in which a key is, the separators before and after it, and what
    lies right of it. *)
Lemma reps_child nd h cs ks D kvs f nx k :
  nd !! 0 = None ->
  reps (child t nd h) None None cs ks D kvs f nx -> Forall (vkey (s_key t)) ks -> length k = s_key t ->
  let i := kidx k ks in
  exists c Dc D1 pre kc rest fc nc lo,
    cs !! i = Some c /\ child t nd h c Dc kc fc nc /\ kvs = pre ++ kc ++ rest /\
    lseg (child t nd h) None None (take i cs) (take i ks) D1 pre f fc lo /\
    Forall (fun e => klt e.1 k) pre /\ Forall (fun e => klt k e.1) rest /\
    ((rest = [] /\ nc = nx) \/
     (nc <> 0 /\ exists n l nx' r, nd !! nc = Some n /\ leaf_node t n l nx' /\ l <> [] /\ rest = l ++ r)).
Proof using Ht.
  intros Hnz Hr Hks Hk i. pose proof (kidx_le k ks) as Hi. fold i in Hi.
  destruct (reps_split _ _ _ _ _ _ _ _ _ i Hr Hi) as (D1 & D2 & pre & l2 & m & lo & Hl & Hr2 & -> & Hd & ->).
  assert (Hok : forall c D kvs f nx, child t nd h c D kvs f nx -> Forall (vkv t) kvs /\ sorted kvs) by (intros; by eapply child_ok).
  assert (Hkt : Forall (vkey (s_key t)) (take i ks)) by (by apply Forall_take).
  assert (Hkd : Forall (vkey (s_key t)) (drop i ks)) by (by apply Forall_drop).
  assert (Hpre : Forall (fun e => klt e.1 k) pre).
  { destruct (lseg_end t _ Hok _ _ _ _ _ _ _ _ _ Hl Hkt I) as [(_ & _ & _ & -> & _)|(x & _ & Hx & Hvx & Hall & _)]; [constructor|].
    assert (i <> 0%nat) by (intros E; by rewrite E in Hx). rewrite length_take, Nat.min_l in Hx by lia.
    pose proof Hx as [Hx' Hlt]%lookup_take_Some.
    assert (Hxk : klt x k) by (eapply (kidx_before k ks (i - 1)); [fold i; lia|exact Hx']).
    pose proof (lseg_valid t _ Hok _ _ _ _ _ _ _ _ _ Hl) as Hv. rewrite list.Forall_forall in *. intros e He.
    eapply (kle_klt_trans (s_key t) _ x); [by apply Hv|done..|by apply Hall|done]. }
  destruct (reps_inv _ _ _ _ _ _ _ _ _ Hr2) as [(c & Ec & Ek & Hc & Hw)|
    (c & cs' & x & ks' & Dc & Dr & kc & rest & nc & Ec & Ek & -> & -> & Hc & Hw & Ha & Hb & Hr3 & Hd3)].
  - exists c, D2, D1, pre, l2, [], m, nx, lo. rewrite app_nil_r. split_and!; [|done..|constructor|by left].
    rewrite <- (Nat.add_0_r i), <- lookup_drop, Ec. done.
  - exists c, Dc, D1, pre, kc, rest, m, nc, lo.
    assert (Hx : ks !! i = Some x) by (rewrite <- (Nat.add_0_r i), <- lookup_drop, Ek; done).
    rewrite Ek in Hkd. apply list.Forall_cons in Hkd as [Hvx Hks'].
    split_and!; [|done..| |].
    + rewrite <- (Nat.add_0_r i), <- lookup_drop, Ec. done.
    + pose proof (reps_within t _ Hok _ _ _ _ _ _ _ _ Hr3 Hks' Hvx I) as Hwr.
      pose proof (reps_valid t _ Hok _ _ _ _ _ _ _ _ Hr3) as Hv.
      rewrite list.Forall_forall in Hv. unfold within in Hwr. rewrite list.Forall_forall in Hwr. apply list.Forall_forall.
      intros e He. eapply (kle_klt_trans (s_key t) _ x); [done|done|by apply Hv|by apply (kidx_at k ks)|by apply Hwr].
    + right. destruct (reps_first _ _ _ _ _ _ _ _ _ Hr3) as (c' & D' & l' & m' & r' & Hc' & ->).
      destruct (first_leaf _ _ _ _ _ _ _ Hc') as (n' & l & nx' & r2 & Hn' & Hl' & Hne & ->).
      split; [intros ->; congruence|]. exists n', l, nx', (r2 ++ r'). by rewrite <- app_assoc.
Qed.

Lemma search_from_ok s H k m fuel h off D kvs f nx lr div pre suf :
  bs_nodes s !! 0 = None -> length k = s_key t ->
  rep t (bs_nodes s) h off D kvs f nx -> (h < fuel)%nat -> (h <= H)%nat ->
  left_ok (bs_nodes s) H lr div pre -> right_ok (bs_nodes s) nx suf -> sorted (pre ++ kvs ++ suf) ->
  Forall (fun e => klt e.1 k) pre -> Forall (fun e => klt k e.1) suf ->
  exists r, search_from H fuel off k m lr div s = (Ok r, s) /\ answer m k (pre ++ kvs ++ suf) r.
Proof using Ht.
  intros Hnz Hk. revert fuel off D kvs f nx lr div pre suf.
  induction h as [|h IH]; intros fuel off D kvs f nx lr div pre suf Hr Hf HH Hleft Hright Hs Hpre Hsuf;
    (destruct fuel as [|fuel]; [lia|]); simpl in Hr; cbn [search_from].
  - destruct Hr as (n & Hn & Hl & _). erewrite bbind_ok by (by apply read_node_ok). rewrite (lf_leaf _ _ _ _ Hl).
    by eapply search_leaf_ok.
  - destruct Hr as (n & seps & cs & D' & Hn & Hi & _ & _ & Hr). erewrite bbind_ok by (by apply read_node_ok).
    rewrite (in_leaf _ _ _ _ Hi), (inner_idx _ _ _ k Hi). set (i := kidx k seps).
    destruct (reps_child _ _ _ _ _ _ _ _ k Hnz Hr (in_valid _ _ _ _ Hi) Hk)
      as (c & Dc & D1 & pre' & kc & rest & fc & nc & lo & Hc & Hch & -> & Hl & Hp' & Hr' & Hnext). fold i in Hc, Hl.
    assert (Hci : (i < length cs)%nat) by (by eapply lookup_lt_Some).
    erewrite bbind_ok by (apply blift_nth; by rewrite (in_child _ _ _ _ Hi)).
    assert (Hright' : right_ok (bs_nodes s) nc (rest ++ suf)).
    { destruct Hnext as [[-> ->]|Hnext]; [done|]. right.
      destruct Hnext as (Hne & n' & l & nx' & s' & Hn' & Hl' & Hne' & ->).
      split; [done|]. exists n', l, nx', (s' ++ suf). by rewrite app_assoc. }
    assert (Eall : pre ++ (pre' ++ kc ++ rest) ++ suf = (pre ++ pre') ++ kc ++ rest ++ suf) by (by rewrite <- !app_assoc).
    rewrite Eall in Hs |- *. destruct Hch as [Hch Hfill].
    destruct (0 <? i)%nat eqn:Ei; bool_hyps.
    + eapply IH; [exact Hch|lia|lia| |exact Hright'|exact Hs|by apply Forall_app_2|by apply Forall_app_2].
      right. split; [lia|]. destruct (lseg_last _ _ _ _ _ _ _ _ _ _ Hl) as (c' & D2 & kvs' & f' & p2 & Hc' & Hch' & ->).
      { intros E. apply (f_equal length) in E. rewrite length_take in E. simpl in E. lia. }
      rewrite length_take, Nat.min_l in Hc' by lia. apply lookup_take_Some in Hc' as [Hc' _].
      exists n, c', h, D2, kvs', f', fc, (pre ++ p2). split_and!; [done| |lia|done|by rewrite app_assoc].
      rewrite (in_child _ _ _ _ Hi); [done|lia].
    + assert (i = 0%nat) as Ei' by lia. rewrite Ei' in Hl. simpl in Hl. inversion Hl; subst.
      rewrite app_nil_r in Hs |- *. eapply IH; [exact Hch|lia|lia|exact Hleft|exact Hright'|exact Hs|done|by apply Forall_app_2].
Qed.
End search.

(** ** Trees *)

(** The tree stands for the list [kvs]: sorted, with the root at the top of a
    subtree that has all the nodes of the store, and new nodes to come. *)
Record btree_ok (s : bstate) (kvs : list kv) : Prop := {
  bo_params : params_ok (bs_tree s);
  bo_zero : bs_nodes s !! 0 = None;
  bo_size : bt_size (bs_tree s) = Z.of_nat (length kvs) /\ Z.of_nat (length kvs) < 2 ^ 64;
  bo_tree :
    (root (bs_tree s) = 0 /\ kvs = [] /\ height (bs_tree s) = 0%nat /\ bs_nodes s = ∅) \/
    (kvs <> [] /\ exists h n, height (bs_tree s) = S h /\
       rep (bs_tree s) (bs_nodes s) h (root (bs_tree s)) (dom (bs_nodes s)) kvs (left_leaf (bs_tree s)) 0 /\
       bs_nodes s !! root (bs_tree s) = Some n /\ (0 < keyCount n)%nat);
  bo_pool : NoDup (bs_pool s) /\ forall p, p ∈ bs_pool s -> p <> 0 /\ bs_nodes s !! p = None;
}.

Lemma btree_ok_sorted s kvs : btree_ok s kvs -> sorted kvs /\ Forall (vkv (bs_tree s)) kvs.
Proof.
  intros HI. destruct (bo_tree _ _ HI) as [(_ & -> & _)|(_ & h & n & _ & Hr & _)].
  - split; [constructor|constructor].
  - split; [by eapply rep_sorted|by eapply rep_valid].
Qed.

Lemma search_ok s kvs k m :
  btree_ok s kvs -> length k = s_key (bs_tree s) ->
  exists r, search k m s = (match r with Some e => Ok e | None => Err E_NOT_FOUND end, s) /\ answer m k kvs r.
Proof.
  intros HI Hk. unfold search. erewrite bbind_ok by reflexivity.
  destruct (bo_tree _ _ HI) as [(Hroot & -> & _)|(Hne & h & n & Hh & Hr & Hn & _)].
  - rewrite Hroot. simpl. exists None. split; [done|]. intros e He. by apply not_elem_of_nil in He.
  - destruct (Z.eqb_spec (root (bs_tree s)) 0) as [E|_]; [rewrite E, (bo_zero _ _ HI) in Hn; done|].
    destruct (bo_size _ _ HI) as [Hsz _].
    destruct (Z.eqb_spec (bt_size (bs_tree s)) 0) as [E|_]; [destruct kvs; [done|simpl in *; lia]|].
    destruct (search_from_ok (bs_tree s) (bo_params _ _ HI) s (height (bs_tree s)) k m (height (bs_tree s)) h (root (bs_tree s)) (dom (bs_nodes s)) kvs
      (left_leaf (bs_tree s)) 0 None 0 [] [] (bo_zero _ _ HI) Hk Hr) as (r & Hs & Ha).
    + lia.
    + lia.
    + by left.
    + by left.
    + simpl. rewrite app_nil_r. by eapply rep_sorted.
    + constructor.
    + constructor.
    + simpl in Ha. rewrite app_nil_r in Ha. exists r. split; [|done].
      rewrite (bbind_ok _ _ _ _ _ Hs). by destruct r.
Qed.

(** C24: searching.  [btree_search] finds the entry with the key, [btree_ltet] the
    last one that is not above it and [btree_gtet] the first one that is not
    below it, in the list that the tree stands for; they report that there is
    none exactly when there is none, and they leave the tree alone. *)
Theorem btree_search_correct s kvs k m :
  btree_ok s kvs -> length k = s_key (bs_tree s) ->
  exists r, search k m s = (match r with Some e => Ok e | None => Err E_NOT_FOUND end, s) /\ answer m k kvs r.
Proof. apply search_ok. Qed.
