(* ===== verification/BTreeNodes.v ===== *)
(** * Insertion into the nodes of a B+-tree

    What the operations of [btree_insert.c] do to one leaf or inner node, and how
    a row of subtrees is taken apart and put together. *)

From stdpp Require Import sorting.
From S2P Require Import Prelude BTree BTreeRep BTreeSearch.
From stdpp Require Import options.

Set Default Goal Selector "!".

Lemma half (n : nat) : exists q r, n = (2 * q + r)%nat /\ (r < 2)%nat /\ (n / 2 = q)%nat /\ ((n + 1) / 2 = q + r)%nat.
Proof.
  exists (n / 2)%nat, (n mod 2)%nat. pose proof (Nat.div_mod n 2 ltac:(lia)). pose proof (Nat.mod_upper_bound n 2 ltac:(lia)).
  split_and!; [lia|lia|done|]. symmetry. apply (Nat.div_unique _ _ _ (1 - n mod 2)); lia.
Qed.

(** ** The list with a new entry *)

Definition kv_ins (k : key) (v : value) (kvs : list kv) : list kv := ins_at (kidx k kvs.*1) (k, v) kvs.

Lemma kv_ins_elem k v kvs e : e ∈ kv_ins k v kvs <-> e = (k, v) \/ (e ∈ kvs).
Proof.
  assert (E : e ∈ kvs <-> (e ∈ take (kidx k kvs.*1) kvs) \/ (e ∈ drop (kidx k kvs.*1) kvs))
    by (by rewrite <- elem_of_app, take_drop).
  unfold kv_ins, ins_at. rewrite elem_of_app, elem_of_cons, E. tauto.
Qed.

Lemma length_kv_ins k v kvs : length (kv_ins k v kvs) = S (length kvs).
Proof. apply length_ins_at. Qed.

(** The place of the key between smaller and greater ones. *)
Lemma kidx_app k (p ks s : list key) :
  Forall (fun x => klt x k) p -> Forall (fun x => klt k x) s -> kidx k (p ++ ks ++ s) = (length p + kidx k ks)%nat.
Proof.
  intros Hp Hs. unfold kidx. induction Hp as [|x p Hx _ IH]; simpl.
  - induction ks as [|x ks IH]; simpl.
    + destruct Hs as [|x s Hx _]; [done|]. simpl. unfold klt in Hx. rewrite (keycmp_antisym k x).
      by rewrite (proj2 (Z.ltb_ge _ _)) by lia.
    + destruct (btree_keycmp x k <? 0); [|done]. by rewrite IH.
  - unfold klt in Hx. rewrite (proj2 (Z.ltb_lt _ _)) by lia. by rewrite IH.
Qed.

Lemma kidx_between k pre kvs suf :
  Forall (fun e : kv => klt e.1 k) pre -> Forall (fun e : kv => klt k e.1) suf ->
  kidx k (pre ++ kvs ++ suf).*1 = (length pre + kidx k kvs.*1)%nat.
Proof. intros Hp Hs. rewrite !fmap_app, kidx_app; [by rewrite length_fmap|by apply Forall_fmap..]. Qed.

Lemma kv_ins_between k v pre kvs suf :
  Forall (fun e : kv => klt e.1 k) pre -> Forall (fun e : kv => klt k e.1) suf ->
  kv_ins k v (pre ++ kvs ++ suf) = pre ++ kv_ins k v kvs ++ suf.
Proof.
  intros Hp Hs. unfold kv_ins. rewrite kidx_between by done. unfold ins_at.
  pose proof (kidx_le k kvs.*1) as Hi. rewrite length_fmap in Hi.
  rewrite take_app_add, drop_app_add. rewrite take_app_le, drop_app_le by done.
  by rewrite <- !app_assoc.
Qed.

Section new_key.
Context (t : btree) (k : key) (Hk : length k = s_key t).

(** The test for the key at its index. *)
Lemma key_at_spec (ks : list key) (kvs : list kv) n :
  n = length kvs -> (forall i, (i < n)%nat -> ks !! i = fst <$> kvs !! i) -> sorted kvs -> Forall (vkv t) kvs ->
  key_at ks (kidx k kvs.*1) n k = bool_decide (k ∈ kvs.*1).
Proof using Type*.
  intros -> Hks Hs Hvv. unfold key_at. set (i := kidx k kvs.*1).
  pose proof (kidx_le k kvs.*1) as Hi. rewrite length_fmap in Hi. fold i in Hi.
  destruct (i <? length kvs)%nat eqn:E; simpl; bool_hyps.
  - rewrite Hks by done. destruct (lookup_lt_is_Some_2 kvs i) as [e He]; [done|]. rewrite He. simpl.
    destruct (Z.eqb_spec (btree_keycmp k e.1) 0) as [Ek|Ek].
    + rewrite bool_decide_true; [done|]. rewrite list.Forall_forall in Hvv.
      assert (k = e.1) as ->; [|apply list_elem_of_fmap_2, list_elem_of_lookup; by exists i].
      apply keycmp_eq; [|done]. rewrite Hk. symmetry. apply Hvv, list_elem_of_lookup. by exists i.
    + rewrite bool_decide_false; [done|]. intros (e' & -> & He')%list_elem_of_fmap.
      assert (Hd : divides e'.1 (take i kvs) (drop i kvs)).
      { apply (kidx_divides t); [done..|]. fold i. rewrite list_lookup_fmap, He. simpl. apply Z.eqb_neq.
        rewrite keycmp_antisym. lia. }
      rewrite <- (take_drop i kvs) in He'. pose proof (divides_no_eq _ _ _ Hd e' He') as Hno. by destruct Hno.
  - rewrite bool_decide_false; [done|]. intros (e' & E' & He')%list_elem_of_fmap.
    assert (Hd : divides k (take i kvs) (drop i kvs)).
    { apply (kidx_divides t); [done..|]. fold i. by rewrite list_lookup_fmap, lookup_ge_None_2 by lia. }
    rewrite <- (take_drop i kvs) in He'. by destruct (divides_no_eq _ _ _ Hd e' He').
Qed.

Lemma new_key_divides kvs :
  sorted kvs -> Forall (vkv t) kvs -> k ∉ kvs.*1 -> divides k (take (kidx k kvs.*1) kvs) (drop (kidx k kvs.*1) kvs).
Proof using Type*.
  intros Hs Hvv Hn. apply (kidx_divides t); [done..|]. destruct (kvs.*1 !! kidx k kvs.*1) as [x|] eqn:E; [|done].
  apply Z.eqb_neq. intros Ex. apply Hn. apply list_elem_of_lookup. exists (kidx k kvs.*1). rewrite E. f_equal.
  apply keycmp_eq; [|done]. rewrite Hk. rewrite list_lookup_fmap in E. apply fmap_Some in E as (e & He & ->).
  rewrite list.Forall_forall in Hvv. apply Hvv, list_elem_of_lookup. eauto.
Qed.

Lemma kv_ins_sorted v kvs : sorted kvs -> Forall (vkv t) kvs -> k ∉ kvs.*1 -> sorted (kv_ins k v kvs).
Proof using Type*.
  intros Hs Hvv Hn. destruct (new_key_divides kvs Hs Hvv Hn) as [H1 H2].
  rewrite <- (take_drop (kidx k kvs.*1) kvs) in Hs. apply sorted_app in Hs as (Hs1 & Hs2 & H12).
  rewrite list.Forall_forall in H1, H2. apply sorted_app. split_and!; [done| |].
  - apply (sorted_app [(k, v)]). split_and!; [by repeat constructor|done|].
    intros e1 e2 ->%list_elem_of_singleton He2. by apply H2.
  - intros e1 e2 He1 [->|He2]%elem_of_cons; [by apply H1|by apply H12].
Qed.

Lemma kv_ins_valid v kvs : length v = s_value t -> Forall (vkv t) kvs -> Forall (vkv t) (kv_ins k v kvs).
Proof using Type*.
  intros Hv. rewrite !list.Forall_forall. intros H e [->|He]%kv_ins_elem; [done|by apply H].
Qed.

Lemma leaf_insert_idx n kvs nx : leaf_node t n kvs nx -> insert_idx (keys n) (keyCount n) k = kidx k kvs.*1.
Proof using Type*. intros Hl. rewrite insert_idx_search_idx. by eapply leaf_idx. Qed.

Lemma leaf_key_at n kvs nx : leaf_node t n kvs nx -> key_at (keys n) (kidx k kvs.*1) (keyCount n) k = bool_decide (k ∈ kvs.*1).
Proof using Type*. intros Hl. eapply key_at_spec; [apply Hl|rewrite (lf_count _ _ _ _ Hl)|..]; apply Hl. Qed.

End new_key.

Section insert.
Context (t : btree) (Ht : params_ok t).
Context (k : key) (v : value) (Hk : length k = s_key t) (Hv : length v = s_value t).

(** ** Leaves *)

(** [__addKeyToLeaf]. *)
Lemma addKeyToLeaf_ok n kvs nx :
  leaf_node t n kvs nx -> k ∉ kvs.*1 -> (length kvs < LEAF_ORDER t - 1)%nat ->
  exists n', addKeyToLeaf n k v = Ok (Some n') /\ leaf_node t n' (kv_ins k v kvs) nx.
Proof using Type*.
  intros Hl Hno Hlen. unfold addKeyToLeaf. rewrite (leaf_insert_idx t k Hk _ _ _ Hl), (leaf_key_at t k Hk _ _ _ Hl).
  rewrite bool_decide_false by done. rewrite (lf_count _ _ _ _ Hl). set (i := kidx k kvs.*1).
  pose proof (kidx_le k kvs.*1) as Hi. rewrite length_fmap in Hi. fold i in Hi.
  pose proof (LEAF_ORDER_le t Ht) as HLO. pose proof (lf_keys _ _ _ _ Hl) as Lk. pose proof (lf_values _ _ _ _ Hl) as Lv.
  destruct (arr_move_up (keys n) i (length kvs - i)) as (ks & -> & Lks & Eks); [lia|]. cbn [res_bind].
  destruct (arr_move_up (values n) i (length kvs - i + 1)) as (vs & -> & Lvs & Evs); [lia|]. cbn [res_bind].
  rewrite !arr_set_ok by lia. cbn [res_bind]. eexists. split; [done|].
  split; simpl; rewrite ?length_insert, ?length_kv_ins; [apply Hl|lia|lia|lia|lia| | | | |].
  - intros j Hj. unfold kv_ins. fold i. rewrite lookup_ins_at by lia. rewrite list_lookup_insert, Eks.
    repeat case_decide; try lia; try done; [rewrite (lf_key _ _ _ _ Hl) by lia; f_equal; f_equal; lia..].
  - intros j Hj. unfold kv_ins. fold i. rewrite lookup_ins_at by lia. rewrite list_lookup_insert, Evs.
    repeat case_decide; try lia; try done; [rewrite (lf_value _ _ _ _ Hl) by lia; f_equal; f_equal; lia..].
  - rewrite list_lookup_insert, Evs. repeat case_decide; try lia.
    rewrite <- (lf_next _ _ _ _ Hl). f_equal. f_equal. lia.
  - eapply kv_ins_sorted; [exact Hk|apply Hl..|done].
  - eapply kv_ins_valid; [exact Hk|exact Hv|apply Hl].
Qed.

(** [__splitLeaf]: the entries with the new one, in two halves. *)
Lemma split_arrays n kvs nx :
  leaf_node t n kvs nx -> length kvs = (LEAF_ORDER t - 1)%nat ->
  let L := LEAF_ORDER t in let i := kidx k kvs.*1 in let all := kv_ins k v kvs in
  exists ks temp1 vs offset1,
    (if (i <? L - 1)%nat then
        do (ks, temp1) <- rotate_in (keys n) i (L - 1 - i) k;
        do (vs, offset1) <- rotate_in (values n) i (L - i) v;
        Ok (ks, temp1, vs, offset1)
      else
        do offset1 <- res_nth (values n) (L - 1);
        do vs <- arr_set (values n) (L - 1) v;
        Ok (keys n, k, vs, offset1))%res = Ok (ks, temp1, vs, offset1) /\
    length ks = (order t - 1)%nat /\ length vs = L /\
    (forall j, (j < L - 1)%nat -> ks !! j = fst <$> all !! j) /\ Some temp1 = fst <$> all !! (L - 1)%nat /\
    (forall j, (j < L)%nat -> vs !! j = snd <$> all !! j) /\ value_ptr offset1 = nx.
Proof using Type*.
  intros Hl Hlen L i all. pose proof (kidx_le k kvs.*1) as Hi. rewrite length_fmap in Hi. fold i in Hi.
  pose proof (LEAF_ORDER_le t Ht) as HLO. pose proof (po_leaf _ Ht) as HL. fold L in HLO, HL, Hlen.
  pose proof (lf_keys _ _ _ _ Hl) as Lk. pose proof (lf_values _ _ _ _ Hl) as Lv. fold L in Lv.
  pose proof (lf_next _ _ _ _ Hl) as Hnx. rewrite Hlen in Hnx.
  assert (Eall : forall j, all !! j = if decide (j < i)%nat then kvs !! j else if decide (j = i) then Some (k, v) else kvs !! (j - 1)%nat).
  { intros j. unfold all, kv_ins. fold i. by rewrite lookup_ins_at by lia. }
  destruct (i <? L - 1)%nat eqn:Ei; bool_hyps.
  - destruct (rotate_in_spec (keys n) i (L - 1 - i) k) as (ks & temp1 & -> & Lks & Eks & Et); [lia|]. cbn [res_bind].
    destruct (rotate_in_spec (values n) i (L - i) v) as (vs & off1 & -> & Lvs & Evs & Eo); [lia|]. cbn [res_bind].
    exists ks, temp1, vs, off1. split_and!; [done|lia|lia| | | |].
    + intros j Hj. rewrite Eks, Eall. repeat case_decide; try lia; try done; rewrite (lf_key _ _ _ _ Hl) by lia; done.
    + rewrite Et, Eall. repeat case_decide; try lia. rewrite (lf_key _ _ _ _ Hl) by lia. do 2 f_equal. lia.
    + intros j Hj. rewrite Evs, Eall. repeat case_decide; try lia; try done; rewrite (lf_value _ _ _ _ Hl) by lia; done.
    + rewrite decide_False in Eo by lia. replace (i + (L - i) - 1)%nat with (L - 1)%nat in Eo by lia.
      rewrite <- Eo in Hnx. by injection Hnx.
  - assert (i = L - 1)%nat as Ei' by lia. apply fmap_Some in Hnx as (off1 & Hoff & ->).
    rewrite (res_nth_lookup _ _ _ Hoff). cbn [res_bind]. rewrite arr_set_ok by lia. cbn [res_bind].
    exists (keys n), k, (<[(L - 1)%nat:=v]> (values n)), off1. split_and!; [done|lia|rewrite length_insert; lia| | | |done].
    + intros j Hj. rewrite Eall. repeat case_decide; try lia. by rewrite (lf_key _ _ _ _ Hl) by lia.
    + rewrite Eall. repeat case_decide; try lia; done.
    + intros j Hj. rewrite list_lookup_insert, Eall. repeat case_decide; try lia; try done.
      by rewrite (lf_value _ _ _ _ Hl) by lia.
Qed.

Lemma splitLeaf_ok n kvs nx filePos :
  leaf_node t n kvs nx -> length kvs = (LEAF_ORDER t - 1)%nat -> k ∉ kvs.*1 ->
  let all := kv_ins k v kvs in let d := ((LEAF_ORDER t + 1) / 2)%nat in
  exists sep n' temp', splitLeaf t n (btree_init_node t) filePos k v = Ok (sep, n', temp') /\
    leaf_node t n' (take d all) filePos /\ leaf_node t temp' (drop d all) nx /\ fst <$> all !! (d - 1)%nat = Some sep.
Proof using Type*.
  intros Hl Hlen Hno all d. unfold splitLeaf.
  pose proof (leaf_insert_idx t k Hk _ _ _ Hl) as Ei. rewrite (lf_count _ _ _ _ Hl), Hlen in Ei. rewrite Ei. clear Ei.
  destruct (split_arrays n kvs nx Hl Hlen) as (ks & temp1 & vs & off1 & -> & Lks & Lvs & Eks & Et & Evs & Eo).
  cbn [res_bind]. fold all in Eks, Et, Evs. set (L := LEAF_ORDER t) in *.
  pose proof (LEAF_ORDER_le t Ht) as HLO. pose proof (po_leaf _ Ht) as HL. fold L in HLO, HL, Hlen.
  assert (Hall : length all = L) by (unfold all; rewrite length_kv_ins; lia).
  assert (Hd : (1 <= d /\ d <= L - 1 /\ (L + 1) / 2 = d)%nat).
  { unfold d. pose proof (Nat.div_mod (L + 1) 2 ltac:(lia)). pose proof (Nat.mod_upper_bound (L + 1) 2 ltac:(lia)). lia. }
  destruct Hd as (Hd1 & Hd2 & ->). set (cnt := (L - 1 - (d - 1))%nat). assert (Hcnt : cnt = (L - d)%nat) by lia.
  destruct (lookup_lt_is_Some_2 all (d - 1)) as [e He]; [lia|].
  rewrite (res_nth_lookup ks (d - 1) e.1) by (rewrite Eks, He by lia; done). cbn [res_bind].
  destruct (move_out_spec ks (keys (btree_init_node t)) (S (d - 1)) 0 (cnt - 1) (zero_key t))
    as (ks' & tks & -> & Lks' & Ltks & Eks' & Etks); [lia|simpl; rewrite length_replicate; lia|]. cbn [res_bind].
  destruct (move_out_spec vs (values (btree_init_node t)) (S (d - 1)) 0 (cnt - 1) (zero_value t))
    as (vs' & tvs & -> & Lvs' & Ltvs & Evs' & Etvs); [lia|simpl; rewrite length_replicate; fold L; lia|]. cbn [res_bind].
  simpl in Ltks, Ltvs. rewrite length_replicate in Ltks, Ltvs. fold L in Ltvs.
  rewrite arr_set_ok by lia. cbn [res_bind].
  destruct (lookup_lt_is_Some_2 all (L - 1)) as [el Hel]; [lia|].
  rewrite (res_nth_lookup vs' _ el.2) by (rewrite Evs'; decide_lia; rewrite Evs by lia; replace (S (d - 1) + (cnt - 1))%nat with (L - 1)%nat by lia; by rewrite Hel).
  cbn [res_bind]. rewrite !arr_set_ok by (rewrite ?length_insert; lia). cbn [res_bind].
  rewrite arr_set_ok by (rewrite ?length_insert; lia). cbn [res_bind].
  rewrite arr_set_ok by (rewrite ?length_insert; lia). cbn [res_bind].
  eexists _, _, _. split; [done|]. split; [|split].
  - assert (Ltake : length (take d all) = d) by (rewrite length_take; lia).
    split; simpl; rewrite ?length_insert, ?Ltake; [apply Hl|lia|fold L; lia|lia|fold L; lia| | | | |].
    + intros j Hj. rewrite Eks', lookup_take_lt by lia. decide_lia. by rewrite Eks by lia.
    + intros j Hj. rewrite !list_lookup_insert, !length_insert, lookup_take_lt, Evs' by lia. decide_lia. by rewrite Evs by lia.
    + rewrite list_lookup_insert, length_insert. decide_lia. done.
    + eapply (proj1 (sorted_app _ (drop d all))). rewrite take_drop. eapply kv_ins_sorted; [exact Hk|apply Hl..|done].
    + apply Forall_take. eapply kv_ins_valid; [exact Hk|exact Hv|apply Hl].
  - assert (Ldrop : length (drop d all) = cnt) by (rewrite length_drop; lia).
    split; simpl; rewrite ?length_insert, ?Ldrop; [done|done|fold L; lia|lia|fold L; lia| | | | |].
    + intros j Hj. rewrite list_lookup_insert, Etks, lookup_drop. repeat case_decide; try lia.
      * rewrite Et. do 2 f_equal. lia.
      * rewrite Eks by lia. do 2 f_equal. lia.
    + intros j Hj. rewrite !list_lookup_insert, !length_insert, Etvs, lookup_drop. repeat case_decide; try lia.
      * replace (d + j)%nat with (L - 1)%nat by lia. by rewrite Hel.
      * rewrite Evs by lia. do 2 f_equal. lia.
    + rewrite list_lookup_insert, length_insert. decide_lia. simpl. by rewrite Eo.
    + assert (Hs : sorted all) by (eapply kv_ins_sorted; [exact Hk|apply Hl..|done]).
      rewrite <- (take_drop d all) in Hs. by apply sorted_app in Hs as (_ & ? & _).
    + apply Forall_drop. eapply kv_ins_valid; [exact Hk|exact Hv|apply Hl].
  - by rewrite He.
Qed.

End insert.

(** ** Inner nodes *)

Section inner.
Context (t : btree) (Ht : params_ok t) (k : key) (Hk : length k = s_key t) (filePos : Z).

Section node.
Context (n : btree_node) (seps : list key) (cs : list Z) (Hn : inner_node t n seps cs).
Context (Hnew : forall x, seps !! kidx k seps = Some x -> klt k x).

Lemma inner_insert_idx : insert_idx (keys n) (keyCount n) k = kidx k seps.
Proof using Type*. rewrite insert_idx_search_idx. by eapply inner_idx. Qed.

Lemma inner_key_at : key_at (keys n) (kidx k seps) (keyCount n) k = false.
Proof using Type*.
  unfold key_at. rewrite (in_count _ _ _ _ Hn). destruct (kidx k seps <? length seps)%nat eqn:E; [|done]. bool_hyps.
  rewrite (in_key _ _ _ _ Hn) by done. destruct (seps !! kidx k seps) as [x|] eqn:Ex; [|done].
  specialize (Hnew x eq_refl). unfold klt in Hnew. simpl. apply Z.eqb_neq. lia.
Qed.

(** The arrays with the new separator and child. *)
Let i := kidx k seps.
Let ss := ins_at i k seps.
Let cc := ins_at (S i) filePos cs.

Lemma seps_lookup j : ss !! j = if decide (j < i)%nat then seps !! j else if decide (j = i) then Some k else seps !! (j - 1)%nat.
Proof using Type. unfold ss. by rewrite lookup_ins_at by apply kidx_le. Qed.
Lemma cs_lookup j :
  cc !! j = if decide (j < S i)%nat then cs !! j else if decide (j = S i) then Some filePos else cs !! (j - 1)%nat.
Proof using Type*.
  unfold cc. rewrite lookup_ins_at; [done|]. rewrite (in_children _ _ _ _ Hn). pose proof (kidx_le k seps). unfold i. lia.
Qed.

Lemma ss_valid : Forall (vkey (s_key t)) ss.
Proof using Type*.
  unfold ss, ins_at. pose proof (in_valid _ _ _ _ Hn) as Hv. apply Forall_app_2; [by apply Forall_take|].
  constructor; [done|by apply Forall_drop].
Qed.

(** [__addKey]. *)
Lemma addKey_ok :
  (length seps < order t - 1)%nat -> exists n', addKey n k filePos = Ok (Some n') /\ inner_node t n' ss cc.
Proof using Type*.
  intros Hlen. unfold addKey. rewrite inner_insert_idx, inner_key_at. fold i. rewrite (in_count _ _ _ _ Hn).
  pose proof (kidx_le k seps) as Hi. fold i in Hi. pose proof (in_keys _ _ _ _ Hn) as Lk. pose proof (in_array _ _ _ _ Hn) as Lc.
  pose proof (in_children _ _ _ _ Hn) as Lcs. pose proof ss_valid as Hval.
  rewrite (proj2 (Nat.ltb_lt i (S (length seps)))) by lia.
  destruct (rotate_in_spec (keys n) i (S (length seps) - i) k) as (ks & z & -> & Lks & Eks & _); [lia|]. cbn [res_bind].
  destruct (rotate_in_spec (children n) (S i) (S (length seps) - i) filePos) as (ch & z' & -> & Lch & Ech & _); [lia|].
  cbn [res_bind]. eexists. split; [done|].
  assert (Lss : length ss = S (length seps)) by apply length_ins_at.
  assert (Lcc : length cc = S (length cs)) by apply length_ins_at.
  split; simpl; rewrite ?Lss, ?Lcc; [apply Hn|lia|lia|lia|lia|lia| | |done].
  - intros j Hj. rewrite Eks, seps_lookup. repeat case_decide; try lia; try done; apply (in_key _ _ _ _ Hn); lia.
  - intros j Hj. rewrite Ech, cs_lookup. repeat case_decide; try lia; try done; apply (in_child _ _ _ _ Hn); lia.
Qed.

(** [__splitNode]. *)
Lemma splitNode_arrays :
  length seps = (order t - 1)%nat ->
  let O := order t in
  exists ks temp1 ch offset1,
    (if (i <? O - 1)%nat then
        do (ks, temp1) <- rotate_in (keys n) i (O - 1 - i) k;
        do (cs, offset1) <- rotate_in (children n) (S i) (O - 1 - i) filePos;
        Ok (ks, temp1, cs, offset1)
      else Ok (keys n, k, children n, filePos))%res = Ok (ks, temp1, ch, offset1) /\
    length ks = (O - 1)%nat /\ length ch = O /\
    (forall j, (j < O - 1)%nat -> ks !! j = ss !! j) /\ Some temp1 = ss !! (O - 1)%nat /\
    (forall j, (j < O)%nat -> ch !! j = cc !! j) /\ Some offset1 = cc !! O.
Proof using Type*.
  intros Hlen O. pose proof (kidx_le k seps) as Hi. fold i in Hi.
  pose proof (in_keys _ _ _ _ Hn) as Lk. pose proof (in_array _ _ _ _ Hn) as Lc. pose proof (po_order _ Ht) as HO.
  pose proof (in_children _ _ _ _ Hn) as Lcs. fold O in Hlen, Lk, Lc, HO.
  destruct (i <? O - 1)%nat eqn:Ei; bool_hyps.
  - destruct (rotate_in_spec (keys n) i (O - 1 - i) k) as (ks & temp1 & -> & Lks & Eks & Et); [lia|]. cbn [res_bind].
    destruct (rotate_in_spec (children n) (S i) (O - 1 - i) filePos) as (ch & off1 & -> & Lch & Ech & Eo); [lia|]. cbn [res_bind].
    exists ks, temp1, ch, off1. split_and!; [done|lia|lia| | | |].
    + intros j Hj. rewrite Eks, seps_lookup. repeat case_decide; try lia; try done; apply (in_key _ _ _ _ Hn); lia.
    + rewrite Et, seps_lookup. repeat case_decide; try lia. rewrite (in_key _ _ _ _ Hn) by lia. f_equal. lia.
    + intros j Hj. rewrite Ech, cs_lookup. repeat case_decide; try lia; try done; apply (in_child _ _ _ _ Hn); lia.
    + rewrite Eo, cs_lookup. repeat case_decide; try lia. rewrite (in_child _ _ _ _ Hn) by lia. f_equal. lia.
  - exists (keys n), k, (children n), filePos. split_and!; [done|lia|lia| | | |].
    + intros j Hj. rewrite seps_lookup. repeat case_decide; try lia. apply (in_key _ _ _ _ Hn); lia.
    + rewrite seps_lookup. repeat case_decide; try lia; done.
    + intros j Hj. rewrite cs_lookup. repeat case_decide; try lia. apply (in_child _ _ _ _ Hn); lia.
    + rewrite cs_lookup. repeat case_decide; try lia; done.
Qed.

Lemma splitNode_ok :
  length seps = (order t - 1)%nat ->
  let d := (order t / 2)%nat in
  exists sep n' temp', splitNode t n (btree_init_node t) k filePos = Ok (sep, n', temp') /\
    inner_node t n' (take d ss) (take (S d) cc) /\ inner_node t temp' (drop (S d) ss) (drop (S d) cc) /\ ss !! d = Some sep.
Proof using Type*.
  intros Hlen d. unfold splitNode. pose proof inner_insert_idx as Ei. rewrite (in_count _ _ _ _ Hn), Hlen in Ei.
  rewrite Ei. clear Ei. fold i.
  destruct (splitNode_arrays Hlen) as (ks & temp1 & ch & off1 & -> & Lks & Lch & Eks & Et & Ech & Eo). cbn [res_bind].
  set (O := order t) in *. pose proof (po_order _ Ht) as HO. fold O in HO.
  pose proof (in_children _ _ _ _ Hn) as Lcs. pose proof ss_valid as Hval.
  assert (Lss : length ss = O) by (unfold ss; rewrite length_ins_at; lia).
  assert (Lcc : length cc = S O) by (unfold cc; rewrite length_ins_at; lia).
  assert (Hd : (1 <= d /\ d <= O - 2 /\ O / 2 = d)%nat).
  { unfold d. pose proof (Nat.div_mod O 2 ltac:(lia)). pose proof (Nat.mod_upper_bound O 2 ltac:(lia)). lia. }
  destruct Hd as (Hd1 & Hd2 & ->). set (cnt := (O - 1 - d)%nat).
  destruct (lookup_lt_is_Some_2 ss d) as [sep Hsep]; [lia|].
  rewrite (res_nth_lookup ks d sep) by (by rewrite Eks by lia). cbn [res_bind].
  destruct (move_out_spec ks (keys (btree_init_node t)) (S d) 0 (cnt - 1) (zero_key t))
    as (ks' & tks & -> & Lks' & Ltks & Eks' & Etks); [lia|simpl; rewrite length_replicate; fold O; lia|]. cbn [res_bind].
  destruct (move_out_spec ch (children (btree_init_node t)) (S d) 0 (cnt - 1) 0)
    as (ch' & tch & -> & Lch' & Ltch & Ech' & Etch); [lia|simpl; rewrite length_replicate; fold O; lia|]. cbn [res_bind].
  cbn [btree_init_node keys children] in Ltks, Ltch. rewrite length_replicate in Ltks. rewrite length_replicate in Ltch. fold O in Ltks, Ltch.
  rewrite arr_set_ok by lia. cbn [res_bind].
  destruct (lookup_lt_is_Some_2 cc (O - 1)) as [x Hx]; [lia|].
  rewrite (res_nth_lookup ch' _ x) by (rewrite Ech'; decide_lia; rewrite Ech by lia; rewrite <- Hx; f_equal; lia).
  cbn [res_bind]. rewrite arr_set_ok by lia. cbn [res_bind]. rewrite arr_set_ok by lia. cbn [res_bind].
  rewrite arr_set_ok by (rewrite ?length_insert; lia). cbn [res_bind].
  rewrite arr_set_ok by (rewrite ?length_insert; lia). cbn [res_bind].
  eexists _, _, _. split; [done|]. split; [|split; [|done]].
  - assert (L1 : length (take d ss) = d) by (rewrite length_take; lia).
    assert (L2 : length (take (S d) cc) = S d) by (rewrite length_take; lia).
    split; simpl; rewrite ?length_insert, ?L1, ?L2; [apply Hn|lia|fold O; lia|lia|fold O; lia|fold O; lia| | |by apply Forall_take].
    + intros j Hj. rewrite list_lookup_insert, Eks', lookup_take_lt by lia. decide_lia. by rewrite Eks by lia.
    + intros j Hj. change (match cc with [] => [] | y :: l => y :: take d l end) with (take (S d) cc).
      rewrite list_lookup_insert, Ech', lookup_take_lt by lia. decide_lia. by rewrite Ech by lia.
  - assert (L1 : length (drop (S d) ss) = cnt) by (rewrite length_drop; lia).
    assert (L2 : length (drop (S d) cc) = S cnt) by (rewrite length_drop; lia).
    split; cbn [is_leaf keyCount children keys set_keyCount set_children set_keys btree_init_node];
      rewrite ?length_insert, ?L1, ?L2; [done|lia|fold O; lia|lia|fold O; lia|fold O; lia| | |by apply Forall_drop].
    + intros j Hj. rewrite list_lookup_insert, Etks, lookup_drop. repeat case_decide; try lia.
      * rewrite Et. f_equal. lia.
      * rewrite Eks by lia. f_equal. lia.
    + intros j Hj. rewrite !list_lookup_insert, !length_insert, Etch, lookup_drop. repeat case_decide; try lia.
      * rewrite Eo. f_equal. lia.
      * rewrite <- Hx. f_equal. lia.
      * rewrite Ech by lia. f_equal. lia.
Qed.

End node.
End inner.


(** ** Subtrees side by side, taken apart and put together *)

Section parts.
Context (t : btree).

Abbreviation vopt := (from_option (vkey (s_key t)) True).

Lemma kidx_unique k (ks : list key) i :
  (i <= length ks)%nat -> (forall j x, (j < i)%nat -> ks !! j = Some x -> klt x k) ->
  (forall x, ks !! i = Some x -> klt k x) -> kidx k ks = i.
Proof using Type.
  intros Hi Hb Ha. pose proof (kidx_le k ks) as Hk.
  destruct (Nat.lt_trichotomy (kidx k ks) i) as [Hlt|[->|Hlt]]; [|done|].
  - destruct (lookup_lt_is_Some_2 ks (kidx k ks)) as [x Hx]; [lia|].
    pose proof (kidx_at _ _ _ Hx) as Hle. apply not_klt in Hle. by destruct Hle; eapply Hb.
  - destruct (lookup_lt_is_Some_2 ks i) as [x Hx]; [lia|].
    pose proof (kidx_before _ _ _ _ Hlt Hx) as H1. specialize (Ha x Hx). unfold klt in *.
    rewrite (keycmp_antisym k x) in H1. lia.
Qed.

(** Bounds around a list that is not empty are in order. *)
Lemma within_bounds lo x kvs :
  within lo (Some x) kvs -> kvs <> [] -> Forall (vkv t) kvs -> vkey (s_key t) x -> vopt lo -> above lo x.
Proof using Type.
  destruct kvs as [|e kvs]; [done|]. intros Hw _ Hv Hx Hlo. apply list.Forall_cons in Hw as [[Ha Hb] _].
  apply list.Forall_cons in Hv as [[Hve _] _]. destruct lo as [l|]; [|done]. simpl in *.
  by eapply (klt_kle_trans (s_key t) _ e.1).
Qed.

Section family.
Context (R : Z -> gset Z -> list kv -> Z -> Z -> Prop).
Context (HR : forall c D kvs f nx, R c D kvs f nx -> Forall (vkv t) kvs /\ sorted kvs).
Context (HN : forall c D kvs f nx, R c D kvs f nx -> kvs <> []).

Lemma reps_nonempty lo hi cs ks D kvs f nx : reps R lo hi cs ks D kvs f nx -> kvs <> [].
Proof using HN.
  destruct 1 as [? ? ? ? ? ? ? Hc|? ? ? ? ? ? ? ? ? ? ? ? ? Hc]; [by eapply HN|]. apply HN in Hc. by destruct kvs1.
Qed.

Lemma reps_bounds lo x cs ks D kvs f nx :
  reps R lo (Some x) cs ks D kvs f nx -> Forall (vkey (s_key t)) ks -> vkey (s_key t) x -> vopt lo -> above lo x.
Proof using Type*.
  intros Hr Hks Hx Hlo. eapply within_bounds; [|by eapply reps_nonempty|by eapply (reps_valid t)|done..].
  by eapply (reps_within t).
Qed.

(** The bounds are not part of what is represented. *)
Lemma reps_free lo hi cs ks D kvs f nx : reps R lo hi cs ks D kvs f nx -> reps R None None cs ks D kvs f nx.
Proof using Type.
  assert (Hup : forall lo hi cs ks D kvs f nx, reps R lo hi cs ks D kvs f nx -> reps R lo None cs ks D kvs f nx).
  { intros *. induction 1 as [? ? ? ? ? ? ? Hc Hw|]; [|by eapply reps_cons]. apply reps_one; [done|].
    eapply list.Forall_impl; [exact Hw|]. by intros ? [? _]. }
  assert (Hlow : forall lo hi kvs, within lo hi kvs -> within None hi kvs).
  { intros *. intros Hw. eapply list.Forall_impl; [exact Hw|]. by intros ? [_ ?]. }
  intros Hr%Hup. inversion Hr; subst; [apply reps_one|eapply reps_cons]; eauto; done.
Qed.

(** Two rows with a separator between them. *)
Lemma reps_join lo x cs1 ks1 D1 kvs1 f m cs2 ks2 D2 kvs2 nx :
  reps R lo (Some x) cs1 ks1 D1 kvs1 f m -> reps R (Some x) None cs2 ks2 D2 kvs2 m nx -> D1 ## D2 ->
  Forall (vkey (s_key t)) ks1 -> vkey (s_key t) x -> vopt lo ->
  reps R lo None (cs1 ++ cs2) (ks1 ++ x :: ks2) (D1 ∪ D2) (kvs1 ++ kvs2) f nx.
Proof using Type*.
  intros Hr1 Hr2. remember (Some x) as hi eqn:Ehi.
  induction Hr1 as [lo ? c D1 kvs1 f m Hc Hw|lo ? c cs k ks D1 D1' kvs1 kvs1' f m' m Hc Hw Ha Hb Hr IH Hd];
    subst; intros HD Hks Hx Hlo.
  - eapply reps_cons; [done..| |done|done|done]. eapply within_bounds; [done|by eapply HN|by eapply HR|done..].
  - apply list.Forall_cons in Hks as [Hk Hks]. simpl. rewrite <- (assoc_L (∪)), <- app_assoc.
    eapply reps_cons; [done..| |set_solver]. apply IH; [done..|set_solver|done|done|done].
Qed.

(** A row cut at a separator. *)
Lemma reps_cut lo hi cs ks D kvs f nx d x :
  reps R lo hi cs ks D kvs f nx -> ks !! d = Some x -> Forall (vkey (s_key t)) ks -> vopt lo ->
  exists D1 D2 kvs1 kvs2 m,
    reps R lo (Some x) (take (S d) cs) (take d ks) D1 kvs1 f m /\
    reps R (Some x) hi (drop (S d) cs) (drop (S d) ks) D2 kvs2 m nx /\ D = D1 ∪ D2 /\ D1 ## D2 /\ kvs = kvs1 ++ kvs2.
Proof using Type*.
  intros Hr. revert d. induction Hr as [|lo hi c cs k ks D1 D2 kvs1 kvs2 f m nx Hc Hw Ha Hb Hr IH Hd];
    intros d Hx Hks Hlo; [done|]. apply list.Forall_cons in Hks as [Hk Hks]. destruct d as [|d].
  - injection Hx as <-. exists D1, D2, kvs1, kvs2, m. split_and!; [by constructor|by simpl; rewrite !drop_0|done..].
  - destruct (IH d Hx Hks Hk) as (E1 & E2 & l1 & l2 & m' & Hr1 & Hr2 & -> & HE & ->).
    exists (D1 ∪ E1), E2, (kvs1 ++ l1), l2, m'. split_and!; [|done|set_solver|set_solver|by rewrite app_assoc].
    change (take (S (S d)) (c :: cs)) with (c :: take (S d) cs). change (take (S d) (k :: ks)) with (k :: take d ks).
    eapply reps_cons; [done..| |done|set_solver]. simpl. apply klt_kle. eapply (reps_bounds (Some k)); [exact Hr1| | |done].
    + by apply Forall_take.
    + rewrite list.Forall_forall in Hks. apply Hks, list_elem_of_lookup. by exists d.
Qed.

Lemma lseg_seps hi lo cs ks D kvs f m lo' :
  lseg R hi lo cs ks D kvs f m lo' -> Forall (vkey (s_key t)) ks -> vopt lo ->
  vopt lo' /\ forall x y, x ∈ ks -> vkey (s_key t) y -> above lo' y -> klt x y.
Proof using Type*.
  induction 1 as [|lo c cs k ks D1 D2 kvs1 kvs2 f m m' lo' Hc Hw Ha Hb Hl IH Hd]; intros Hks Hlo; [set_solver|].
  apply list.Forall_cons in Hks as [Hk Hks]. destruct (IH Hks Hk) as [Hv' Hs]. split; [done|].
  intros x y [->|Hx]%elem_of_cons Hy Hay; [|by apply Hs].
  destruct (lseg_end t _ HR _ _ _ _ _ _ _ _ _ Hl Hks Hk) as [(_ & _ & _ & _ & -> & _)|(z & -> & _ & Hz & _ & _ & Haz)]; [done|].
  simpl in *. eapply (klt_trans _ z); [unfold vkey in *; congruence..|done|done].
Qed.

End family.

(** A row under a node, in another store that agrees on the row. *)
Lemma rep_row nd nd' h off n seps cs D kvs f nx lo hi :
  nd' !! off = Some n -> inner_node t n seps cs -> reps (child t nd h) lo hi cs seps D kvs f nx -> off ∉ D ->
  (forall o, o ∈ D -> nd' !! o = nd !! o) -> rep t nd' (S h) off ({[off]} ∪ D) kvs f nx.
Proof using Type.
  intros Hn Hi Hr Hoff Hnd. exists n, seps, cs, D. split_and!; [done..|]. eapply reps_free, reps_impl; [|exact Hr].
  intros c D0 kvs0 f0 nx0 Hsub. apply child_frame. set_solver.
Qed.

Lemma inner_filled nd off n seps cs :
  nd !! off = Some n -> inner_node t n seps cs -> (min_intrn t <= length seps)%nat -> filled t nd off.
Proof using Type. intros Hn Hi Hl. exists n. split; [done|]. by rewrite (in_leaf _ _ _ _ Hi), (in_count _ _ _ _ Hi). Qed.

(** The child where a key belongs: what is around it, and that anything with the
    same bounds can take its place. *)
Record focus (nd : gmap Z btree_node) (h : nat) (cs : list Z) (ks : list key) (D : gset Z) (kvs : list kv) (f nx : Z)
    (k : key) (c : Z) (Dc Do : gset Z) (pre kc suf : list kv) (fc nc : Z) (lo hi : option key) : Prop := {
  fo_at : cs !! kidx k ks = Some c;
  fo_child : child t nd h c Dc kc fc nc;
  fo_dom : D = Dc ∪ Do /\ Dc ## Do;
  fo_kvs : kvs = pre ++ kc ++ suf;
  fo_pre : Forall (fun e => klt e.1 k) pre;
  fo_suf : Forall (fun e => klt k e.1) suf;
  fo_within : within lo hi kc;
  fo_k : above lo k /\ below hi k;
  fo_opt : vopt lo /\ vopt hi;
  fo_before : forall j x y, (j < kidx k ks)%nat -> ks !! j = Some x -> vkey (s_key t) y -> above lo y -> klt x y;
  fo_hi : hi = ks !! kidx k ks;
  fo_replace : forall nd' cs' ks' D' kc',
    (forall o, o ∈ Do -> nd' !! o = nd !! o) ->
    reps (child t nd' h) lo hi cs' ks' D' kc' fc nc -> Forall (vkey (s_key t)) ks' -> D' ## Do ->
    reps (child t nd' h) None None (take (kidx k ks) cs ++ cs' ++ drop (S (kidx k ks)) cs)
      (take (kidx k ks) ks ++ ks' ++ drop (kidx k ks) ks) (D' ∪ Do) (pre ++ kc' ++ suf) f nx;
}.

Context (Ht : params_ok t).

Lemma child_family nd h c D kvs f nx : child t nd h c D kvs f nx -> (Forall (vkv t) kvs /\ sorted kvs) /\ kvs <> [].
Proof using Type*. intros Hc. split; [by eapply child_ok|by eapply child_nonempty]. Qed.

Lemma reps_focus nd h cs ks D kvs f nx k :
  reps (child t nd h) None None cs ks D kvs f nx -> Forall (vkey (s_key t)) ks -> vkey (s_key t) k ->
  exists c Dc Do pre kc suf fc nc lo hi, focus nd h cs ks D kvs f nx k c Dc Do pre kc suf fc nc lo hi.
Proof using Type*.
  intros Hr Hks Hk. set (i := kidx k ks). pose proof (kidx_le k ks) as Hi. fold i in Hi.
  assert (HR : forall nd c D kvs f nx, child t nd h c D kvs f nx -> Forall (vkv t) kvs /\ sorted kvs) by (intros; by eapply child_family).
  assert (HN : forall nd c D kvs f nx, child t nd h c D kvs f nx -> kvs <> []) by (intros; by eapply child_family).
  destruct (reps_split _ _ _ _ _ _ _ _ _ i Hr Hi) as (D1 & D2 & pre & l2 & m & lo & Hl & Hr2 & -> & Hd & ->).
  assert (Hkt : Forall (vkey (s_key t)) (take i ks)) by (by apply Forall_take).
  assert (Hkd : Forall (vkey (s_key t)) (drop i ks)) by (by apply Forall_drop).
  destruct (lseg_seps _ (HR nd) (HN nd) _ _ _ _ _ _ _ _ _ Hl Hkt I) as [Hlo Hsep].
  assert (Hak : above lo k /\ Forall (fun e => klt e.1 k) pre).
  { destruct (lseg_end t _ (HR nd) _ _ _ _ _ _ _ _ _ Hl Hkt I) as [(_ & _ & _ & -> & -> & _)|(x & -> & Hx & Hvx & Hall & _)]; [done|].
    assert (i <> 0%nat) by (intros E; by rewrite E in Hx). rewrite length_take, Nat.min_l in Hx by lia.
    pose proof Hx as [Hx' Hlt]%lookup_take_Some.
    assert (Hxk : klt x k) by (eapply (kidx_before k ks (i - 1)); [fold i; lia|exact Hx']). split; [done|].
    pose proof (lseg_valid t _ (HR nd) _ _ _ _ _ _ _ _ _ Hl) as Hv. rewrite list.Forall_forall in *. intros e He.
    eapply (kle_klt_trans (s_key t) _ x); [by apply Hv|done..|by apply Hall|done]. }
  assert (Hbefore : forall j x y, (j < i)%nat -> ks !! j = Some x -> vkey (s_key t) y -> above lo y -> klt x y).
  { intros j x y Hj Hx Hy Ha. apply Hsep; [|done..]. apply list_elem_of_lookup. exists j. by apply lookup_take_Some. }
  destruct Hak as [Hak Hpre].
  assert (Hdrop : forall {A} (l : list A), l !! i = drop i l !! 0%nat) by (intros; rewrite lookup_drop; f_equal; lia).
  destruct (reps_inv _ _ _ _ _ _ _ _ _ Hr2) as [(c & Ec & Ek & Hc & Hw)|
    (c & cs' & x & ks' & Dc & Dr & kc & rest & nc & Ec & Ek & -> & -> & Hc & Hw & Ha & Hb & Hr3 & Hd3)].
  - exists c, D2, D1, pre, l2, [], m, nx, lo, None. split; fold i; try done.
    + by rewrite Hdrop, Ec.
    + set_solver.
    + by rewrite app_nil_r.
    + by rewrite Hdrop, Ek.
    + intros nd' cs' ks' D' kc' Hnd Hr' Hks' HD. rewrite Ek, !app_nil_r.
      replace (drop (S i) cs) with (@nil Z) by (rewrite <- Nat.add_1_r, <- drop_drop, Ec; done). rewrite app_nil_r.
      rewrite (comm_L (∪)). eapply reps_app; [|exact Hr'|set_solver]. eapply lseg_impl; [|exact Hl].
      intros c0 D0 kvs0 f0 nx0 Hsub. apply child_frame. intros o Ho. apply Hnd. set_solver.
  - rewrite Ek in Hkd. apply list.Forall_cons in Hkd as [Hvx Hks'].
    assert (Hx : ks !! i = Some x) by (by rewrite Hdrop, Ek).
    exists c, Dc, (D1 ∪ Dr), pre, kc, rest, m, nc, lo, (Some x). split; fold i; try done.
    + by rewrite Hdrop, Ec.
    + set_solver.
    + pose proof (reps_within t _ (HR nd) _ _ _ _ _ _ _ _ Hr3 Hks' Hvx I) as Hwr.
      pose proof (reps_valid t _ (HR nd) _ _ _ _ _ _ _ _ Hr3) as Hv.
      rewrite list.Forall_forall in Hv. unfold within in Hwr. rewrite list.Forall_forall in Hwr. apply list.Forall_forall.
      intros e He. eapply (kle_klt_trans (s_key t) _ x); [done|done|by apply Hv|by apply (kidx_at k ks)|by apply Hwr].
    + split; [done|]. by apply (kidx_at k ks).
    + intros nd' cs2 ks2 D' kc' Hnd Hr' Hks2 HD. rewrite Ek.
      replace (drop (S i) cs) with cs' by (rewrite <- Nat.add_1_r, <- drop_drop, Ec; done).
      replace (D' ∪ (D1 ∪ Dr)) with (D1 ∪ (D' ∪ Dr)) by set_solver. eapply reps_app.
      * eapply lseg_impl; [|exact Hl]. intros c0 D0 kvs0 f0 nx0 Hsub. apply child_frame. intros o Ho. apply Hnd. set_solver.
      * eapply (reps_join _ (HR nd') (HN nd')); [exact Hr'| |set_solver|done..]. eapply reps_impl; [|exact Hr3].
        intros c0 D0 kvs0 f0 nx0 Hsub. apply child_frame. intros o Ho. apply Hnd. set_solver.
      * set_solver.
Qed.
End parts.
