(* ===== verification/BTreeInsert.v ===== *)
(** * Insertion into a B+-tree

    [btree_insert] of a new key adds it to the list that the tree represents,
    splitting nodes on the way up as needed; a key that is present is refused
    and the tree is left alone. *)

From stdpp Require Import sorting.
From S2P Require Import Prelude BTree BTreeRep BTreeSearch BTreeNodes.
From stdpp Require Import options.

Set Default Goal Selector "!".

(** What allocation takes from the pool was not in the store. *)
Lemma used_new s s1 (used : list Z) D :
  NoDup (bs_pool s) -> (forall p, p ∈ bs_pool s -> bs_nodes s !! p = None) -> D ⊆ dom (bs_nodes s) ->
  bs_pool s = used ++ bs_pool s1 -> dom (bs_nodes s1) = dom (bs_nodes s) ∪ list_to_set used ->
  (forall o, o ∈ used -> o ∉ D) /\ NoDup (bs_pool s1) /\
  forall p, p ∈ bs_pool s1 -> bs_nodes s1 !! p = None /\ (p ∉ D) /\ (p ∉ used).
Proof.
  intros Hnd Hnew HD Ep Ed. rewrite Ep in Hnd, Hnew. apply list.NoDup_app in Hnd as (_ & Hnot & Hnd1).
  assert (Hn : forall p, p ∈ used ++ bs_pool s1 -> p ∉ dom (bs_nodes s)).
  { intros p Hp. apply not_elem_of_dom. by apply Hnew. }
  split_and!; [set_solver|done|]. intros p Hp.
  assert (Hpn : p ∉ used) by (intros Hu; by apply (Hnot p)). split_and!; [|set_solver|done].
  apply not_elem_of_dom. rewrite Ed. set_solver.
Qed.

(** A node that did not shrink. *)
Definition kept (nd nd' : gmap Z btree_node) (off : Z) : Prop :=
  forall n, nd !! off = Some n -> exists n', nd' !! off = Some n' /\ is_leaf n' = is_leaf n /\ (keyCount n <= keyCount n')%nat.

Lemma kept_filled t nd nd' off : kept nd nd' off -> filled t nd off -> filled t nd' off.
Proof.
  intros Hk (n & Hn & Hf). destruct (Hk n Hn) as (n' & Hn' & El & Hc). exists n'. split; [done|]. rewrite El.
  destruct (is_leaf n); lia.
Qed.

Lemma kept_same nd nd' off n : nd !! off = Some n -> nd' !! off = Some n -> kept nd nd' off.
Proof. intros Hn Hn' m Hm. rewrite Hm in Hn. injection Hn as ->. by exists n. Qed.

Section insert.
Context (t : btree) (Ht : params_ok t).
Context (k : key) (v : value) (Hk : length k = s_key t) (Hv : length v = s_value t).

(** Whether an insertion below [off] had to split the node, and then the
    separator and the new node: what the two stand for. *)
Definition grown (nd : gmap Z btree_node) (h : nat) (off : Z) (D : gset Z) (kvs : list kv) (f nx : Z)
    (sp : option (key * Z)) : Prop :=
  match sp with
  | None => rep t nd h off D kvs f nx
  | Some (sep, noff) => exists D1 D2 l1 l2 m,
      D = D1 ∪ D2 /\ D1 ## D2 /\ kvs = l1 ++ l2 /\ vkey (s_key t) sep /\
      child t nd h off D1 l1 f m /\ child t nd h noff D2 l2 m nx /\
      Forall (fun e => kle e.1 sep) l1 /\ Forall (fun e => klt sep e.1) l2
  end.

(** The offsets that allocation took are new, and nothing else changed. *)
Record ins_post (s s' : bstate) (h : nat) (off : Z) (D : gset Z) (kvs : list kv) (f nx : Z) (sp : option (key * Z))
    (used : list Z) : Prop := {
  ip_tree : bs_tree s' = bs_tree s;
  ip_pool : bs_pool s = used ++ bs_pool s';
  ip_used : (length used <= match sp with Some _ => S h | None => h end)%nat;
  ip_frame : forall o, o ∉ D -> o ∉ used -> bs_nodes s' !! o = bs_nodes s !! o;
  ip_dom : dom (bs_nodes s') = dom (bs_nodes s) ∪ list_to_set used;
  ip_kept : sp = None -> kept (bs_nodes s) (bs_nodes s') off;
  ip_grown : grown (bs_nodes s') h off (D ∪ list_to_set used) (kv_ins k v kvs) f nx sp;
}.

(** The state that [__insertKey] starts from. *)
Record ins_pre (s : bstate) (h : nat) : Prop := {
  ir_tree : bs_tree s = t;
  ir_pool : NoDup (bs_pool s);
  ir_new : forall p, p ∈ bs_pool s -> bs_nodes s !! p = None;
  ir_enough : (h < length (bs_pool s))%nat;
}.

(** *** Leaves *)

Lemma insert_leaf s fuel off n kvs nx :
  ins_pre s 0 -> bs_nodes s !! off = Some n -> leaf_node t n kvs nx ->
  if bool_decide (k ∈ kvs.*1) then insertKey (S fuel) off k v s = (Ok None, s)
  else exists sp s' used, insertKey (S fuel) off k v s = (Ok (Some sp), s') /\ ins_post s s' 0 off {[off]} kvs off nx sp used.
Proof using Type*.
  intros [Et Hnd Hnew Hpool] Hn Hl. cbn [insertKey]. erewrite bbind_ok by reflexivity. rewrite Et.
  erewrite bbind_ok by (by apply read_node_ok). rewrite (lf_leaf _ _ _ _ Hl), (lf_count _ _ _ _ Hl).
  pose proof (lf_max _ _ _ _ Hl) as Hmax. pose proof (leaf_key_at t k Hk _ _ _ Hl) as Hka.
  rewrite (lf_count _ _ _ _ Hl) in Hka.
  pose proof (leaf_insert_idx t k Hk _ _ _ Hl) as Hidx. rewrite (lf_count _ _ _ _ Hl) in Hidx.
  destruct (length kvs <? LEAF_ORDER t - 1)%nat eqn:El; bool_hyps.
  - case_bool_decide as Hin.
    + unfold blift, addKeyToLeaf. rewrite (lf_count _ _ _ _ Hl), Hidx, Hka. reflexivity.
    + destruct (addKeyToLeaf_ok t Ht k v Hk Hv n kvs nx Hl Hin El) as (n' & Ha & Hl').
      erewrite bbind_ok by (unfold blift; by rewrite Ha). eexists None, _, []. split; [reflexivity|].
      split; simpl; [done|done|lia| | | |].
      * intros o Ho _. rewrite lookup_insert_ne; [done|set_solver].
      * rewrite dom_insert_L. assert (off ∈ dom (bs_nodes s)) by (apply elem_of_dom; by exists n). set_solver.
      * intros _ m Hm. rewrite Hm in Hn. injection Hn as ->. exists n'. rewrite lookup_insert_eq. split; [done|].
        rewrite (lf_leaf _ _ _ _ Hl'), (lf_count _ _ _ _ Hl'), length_kv_ins, (lf_leaf _ _ _ _ Hl), (lf_count _ _ _ _ Hl).
        split; [done|lia].
      * exists n'. rewrite lookup_insert_eq. split_and!; [done|done|set_solver|done].
  - assert (Hfull : length kvs = (LEAF_ORDER t - 1)%nat) by lia. rewrite <- Hfull, Hidx, Hka.
    case_bool_decide as Hin; [done|].
    destruct (bs_pool s) as [|noff pool] eqn:Ep; [simpl in Hpool; lia|].
    assert (Hnoff : bs_nodes s !! noff = None) by (apply Hnew; left).
    unfold btree_new_node. erewrite bbind_ok by (rewrite Ep; reflexivity). rewrite Et.
    destruct (splitLeaf_ok t Ht k v Hk Hv n kvs nx noff Hl Hfull Hin) as (sep & n' & temp' & Hsp & Hl1 & Hl2 & Hsep).
    erewrite bbind_ok by (unfold blift; by rewrite Hsp). eexists (Some (sep, noff)), _, [noff]. split; [reflexivity|].
    assert (off <> noff) by congruence. set (all := kv_ins k v kvs) in *. set (d := ((LEAF_ORDER t + 1) / 2)%nat) in *.
    destruct (half (LEAF_ORDER t)) as (q & r & Hq & Hr & Hq1 & Hq2). fold d in Hq2.
    pose proof (po_leaf _ Ht) as HL. pose proof (po_min_leaf _ Ht) as HML.
    assert (Hall : length all = LEAF_ORDER t) by (unfold all; rewrite length_kv_ins; lia).
    split; simpl; [done|done|done| | |done|].
    + intros o Ho1 Ho2. rewrite !lookup_insert_ne; [done|set_solver..].
    + rewrite !dom_insert_L. assert (off ∈ dom (bs_nodes s)) by (apply elem_of_dom; by exists n). set_solver.
    + exists {[off]}, {[noff]}, (take d all), (drop d all), noff.
      assert (Hvall : Forall (vkv t) all) by (eapply kv_ins_valid; [exact Hk|exact Hv|apply Hl]).
      assert (Hsall : sorted all) by (eapply kv_ins_sorted; [exact Hk|apply Hl|apply Hl|done]).
      apply fmap_Some in Hsep as (e & He & ->).
      pose proof (take_drop_middle _ _ _ He) as Emid. replace (S (d - 1)) with d in Emid by lia.
      pose proof Hsall as Hs2. rewrite <- Emid in Hs2. apply sorted_app in Hs2 as (_ & Hs2 & Hlt1).
      apply (sorted_app [e]) in Hs2 as (_ & _ & Hlt2).
      split_and!; [set_solver|set_solver|by rewrite take_drop| | | | |].
      * rewrite list.Forall_forall in Hvall. apply Hvall, list_elem_of_lookup. eauto.
      * split; [exists n'; by rewrite lookup_insert_eq|]. exists n'. rewrite lookup_insert_eq. split; [done|].
        rewrite (lf_leaf _ _ _ _ Hl1), (lf_count _ _ _ _ Hl1), length_take. lia.
      * split; [exists temp'|exists temp']; (rewrite lookup_insert_ne, lookup_insert_eq by done); [done|]. split; [done|].
        rewrite (lf_leaf _ _ _ _ Hl2), (lf_count _ _ _ _ Hl2), length_drop. lia.
      * apply list.Forall_forall. intros x Hx. replace d with (S (d - 1)) in Hx by lia. rewrite (take_S_r _ _ _ He) in Hx.
        apply elem_of_app in Hx as [Hx| ->%list_elem_of_singleton]; [|apply kle_refl]. apply klt_kle, Hlt1; [done|set_solver].
      * apply list.Forall_forall. intros x Hx. apply Hlt2; [set_solver|done].
Qed.

(** *** Inner nodes *)

Lemma kv_ins_within lo hi kvs : above lo k -> below hi k -> within lo hi kvs -> within lo hi (kv_ins k v kvs).
Proof using Type.
  unfold within. rewrite !list.Forall_forall. intros Ha Hb Hw e [->|He]%kv_ins_elem; [done|by apply Hw].
Qed.

(** The row of children after an insertion below one of them. *)
Lemma focus_grown nd nd' h cs ks D kvs f nx c Dc Do pre kc suf fc nc lo hi Dc' sp :
  focus t nd h cs ks D kvs f nx k c Dc Do pre kc suf fc nc lo hi -> Forall (vkey (s_key t)) ks ->
  grown nd' h c Dc' (kv_ins k v kc) fc nc sp -> (sp = None -> filled t nd' c) -> Dc' ## Do ->
  (forall o, o ∈ Do -> nd' !! o = nd !! o) ->
  let i := kidx k ks in
  match sp with
  | None => reps (child t nd' h) None None cs ks (Dc' ∪ Do) (kv_ins k v kvs) f nx
  | Some (sep, noff) =>
      kidx sep ks = i /\ (forall x, ks !! i = Some x -> klt sep x) /\ vkey (s_key t) sep /\
      reps (child t nd' h) None None (ins_at (S i) noff cs) (ins_at i sep ks) (Dc' ∪ Do) (kv_ins k v kvs) f nx
  end.
Proof using Type*.
  intros F Hks Hg Hfill HD Hnd i. pose proof (fo_at _ _ _ _ _ _ _ _ _ _ _ _ _ _ _ _ _ _ _ _ F) as Hc. fold i in Hc.
  destruct F as [_ Hch _ -> Hpre Hsuf Hw [Hak Hbk] [Hlo Hhi] Hbefore Ehi Hrep]. fold i in Hbefore, Ehi, Hrep.
  pose proof (kv_ins_within lo hi kc Hak Hbk Hw) as Hw'. rewrite kv_ins_between by done.
  destruct sp as [[sep noff]|]; simpl in Hg.
  - destruct Hg as (D1 & D2 & l1 & l2 & m & -> & HDD & El & Hsep & Hc1 & Hc2 & Hle & Hlt). rewrite El in Hw' |- *.
    apply within_app in Hw' as [Hw1 Hw2].
    destruct (child_family t Ht _ _ _ _ _ _ _ Hc1) as [[Hv1 _] Hn1], (child_family t Ht _ _ _ _ _ _ _ Hc2) as [[Hv2 _] Hn2].
    assert (Hw1' : within lo (Some sep) l1).
    { unfold within in *. rewrite list.Forall_forall in *. intros e He. split; [by apply Hw1|by apply Hle]. }
    assert (Hw2' : within (Some sep) hi l2).
    { unfold within in *. rewrite list.Forall_forall in *. intros e He. split; [by apply Hlt|by apply Hw2]. }
    pose proof (within_bounds t lo sep l1 Hw1' Hn1 Hv1 Hsep Hlo) as Has.
    assert (Hsx : forall x, hi = Some x -> klt sep x).
    { intros x ->. by apply (within_bounds t (Some sep) x l2 Hw2' Hn2 Hv2). }
    split_and!; [| |done|].
    + apply kidx_unique; [apply kidx_le|intros; by eapply Hbefore|]. intros x Hx. apply Hsx. by rewrite Ehi.
    + intros x Hx. apply Hsx. by rewrite Ehi.
    + replace (ins_at (S i) noff cs) with (take i cs ++ [c; noff] ++ drop (S i) cs).
      2:{ unfold ins_at. rewrite (take_S_r _ _ _ Hc). by rewrite <- app_assoc. }
      change (ins_at i sep ks) with (take i ks ++ [sep] ++ drop i ks).
      apply Hrep; [done| |by constructor|set_solver]. eapply reps_cons; [exact Hc1|done|done| | |done].
      * destruct hi as [x|]; [|done]. apply klt_kle. by apply Hsx.
      * by apply reps_one.
  - assert (Hr : reps (child t nd' h) lo hi [c] [] Dc' (kv_ins k v kc) fc nc) by (apply reps_one; [split; [done|by apply Hfill]|done]).
    apply (Hrep nd' [c] []) in Hr; [|done|constructor|done]. simpl in Hr. by rewrite (take_drop_middle cs i c Hc), take_drop in Hr.
Qed.

(** The new separator and child go into the inner node. *)
Lemma insert_split_ok s h off n seps cs sep filePos D kvs f nx :
  bs_tree s = t -> bs_nodes s !! off = Some n -> inner_node t n seps cs -> off ∉ D -> vkey (s_key t) sep ->
  let i := kidx sep seps in
  (forall x, seps !! i = Some x -> klt sep x) ->
  reps (child t (bs_nodes s) h) None None (ins_at (S i) filePos cs) (ins_at i sep seps) D kvs f nx ->
  (exists noff pool, bs_pool s = noff :: pool /\ bs_nodes s !! noff = None /\ (noff ∉ D)) ->
  exists sp s' used, insert_split off sep filePos s = (Ok (Some sp), s') /\ bs_tree s' = t /\
    bs_pool s = used ++ bs_pool s' /\ length used = (match sp with Some _ => 1 | None => 0 end)%nat /\
    (forall o, o <> off -> o ∉ used -> bs_nodes s' !! o = bs_nodes s !! o) /\
    dom (bs_nodes s') = dom (bs_nodes s) ∪ list_to_set used /\
    (sp = None -> kept (bs_nodes s) (bs_nodes s') off) /\
    grown (bs_nodes s') (S h) off ({[off]} ∪ D ∪ list_to_set used) kvs f nx sp.
Proof using Type*.
  intros Et Hn Hi Hoff Hsep i Hnew Hr (noff & pool & Ep & Hnoff & HnD). unfold insert_split.
  erewrite bbind_ok by reflexivity. rewrite Et. erewrite bbind_ok by (by apply read_node_ok).
  pose proof (in_max _ _ _ _ Hi) as Hmax. rewrite (in_count _ _ _ _ Hi).
  assert (Hod : off ∈ dom (bs_nodes s)) by (apply elem_of_dom; by exists n).
  assert (Hss : length (ins_at i sep seps) = S (length seps)) by apply length_ins_at.
  destruct (length seps <? order t - 1)%nat eqn:El; bool_hyps.
  - destruct (addKey_ok t Ht sep Hsep filePos n seps cs Hi Hnew El) as (n' & Ha & Hi'). fold i in Hi'.
    erewrite bbind_ok by (unfold blift; by rewrite Ha). eexists None, _, []. split; [reflexivity|]. simpl.
    assert (Hn' : <[off:=n']> (bs_nodes s) !! off = Some n') by (by rewrite lookup_insert_eq).
    split_and!; [done|done|done| |rewrite dom_insert_L; set_solver| |].
    + intros o Ho _. by rewrite lookup_insert_ne.
    + intros _ m Hm. rewrite Hm in Hn. injection Hn as ->. exists n'. split; [done|].
      rewrite (in_leaf _ _ _ _ Hi'), (in_count _ _ _ _ Hi'), (in_leaf _ _ _ _ Hi), (in_count _ _ _ _ Hi), Hss. split; [done|lia].
    + rewrite union_empty_r_L. eapply rep_row; [done..|]. intros o Ho. apply lookup_insert_ne. set_solver.
  - assert (Hfull : length seps = (order t - 1)%nat) by lia.
    pose proof (inner_key_at t Ht sep Hsep n seps cs Hi Hnew) as Hka.
    pose proof (inner_insert_idx t Ht sep Hsep n seps cs Hi Hnew) as Hidx.
    rewrite (in_count _ _ _ _ Hi) in Hka, Hidx. rewrite <- Hfull, Hidx, Hka.
    unfold btree_new_node. erewrite bbind_ok by (rewrite Ep; reflexivity). rewrite Et.
    destruct (splitNode_ok t Ht sep Hsep filePos n seps cs Hi Hnew Hfull) as (x & n' & temp' & Hsp & Hi1 & Hi2 & Hx).
    fold i in Hi1, Hi2, Hx. set (d := (order t / 2)%nat) in *.
    erewrite bbind_ok by (unfold blift; by rewrite Hsp). eexists (Some (x, noff)), _, [noff]. split; [reflexivity|].
    assert (Hne : off <> noff) by congruence.
    cbn [bs_nodes bs_tree bs_pool fst snd]. set (nd' := <[off:=n']> _).
    assert (Hn1 : nd' !! off = Some n') by (unfold nd'; by rewrite lookup_insert_eq).
    assert (Hn2 : nd' !! noff = Some temp') by (unfold nd'; by rewrite lookup_insert_ne, lookup_insert_eq by done).
    assert (Hnd : forall o, o <> off -> o <> noff -> nd' !! o = bs_nodes s !! o).
    { intros o Ho1 Ho2. unfold nd'. by rewrite !lookup_insert_ne by done. }
    split_and!; [done|done|done|set_solver|unfold nd'; rewrite !dom_insert_L; set_solver|done|].
    assert (Hfam : forall c D kvs f nx, child t (bs_nodes s) h c D kvs f nx -> (Forall (vkv t) kvs /\ sorted kvs) /\ kvs <> [])
      by (intros; by eapply child_family).
    assert (Hvs : Forall (vkey (s_key t)) (ins_at i sep seps)) by exact (ss_valid t Ht sep Hsep filePos n seps cs Hi Hnew).
    destruct (reps_cut t _ (fun _ _ _ _ _ H => proj1 (Hfam _ _ _ _ _ H)) (fun _ _ _ _ _ H => proj2 (Hfam _ _ _ _ _ H))
      _ _ _ _ _ _ _ _ d x Hr Hx Hvs I) as (D1 & D2 & l1 & l2 & m & Hr1 & Hr2 & -> & HDD & ->).
    assert (Hvx : vkey (s_key t) x) by (rewrite list.Forall_forall in Hvs; apply Hvs, list_elem_of_lookup; eauto).
    pose proof (reps_within t _ (fun _ _ _ _ _ H => proj1 (Hfam _ _ _ _ _ H)) _ _ _ _ _ _ _ _ Hr1 (in_valid _ _ _ _ Hi1) I Hvx) as Hw1.
    pose proof (reps_within t _ (fun _ _ _ _ _ H => proj1 (Hfam _ _ _ _ _ H)) _ _ _ _ _ _ _ _ Hr2 (in_valid _ _ _ _ Hi2) Hvx I) as Hw2.
    destruct (half (order t)) as (q & r & Hq & Hrr & Hq1 & Hq2). fold d in Hq1. pose proof (po_order _ Ht) as HO.
    pose proof (po_min_intrn _ Ht) as HM.
    exists ({[off]} ∪ D1), ({[noff]} ∪ D2), l1, l2, m. split_and!; [set_solver|set_solver|done|done| | | |].
    + split; [eapply rep_row; [exact Hn1|exact Hi1|exact Hr1|set_solver|]; intros; apply Hnd; set_solver|].
      eapply inner_filled; [done|exact Hi1|]. rewrite length_take. lia.
    + split; [eapply rep_row; [exact Hn2|exact Hi2|exact Hr2|set_solver|]; intros; apply Hnd; set_solver|].
      eapply inner_filled; [done|exact Hi2|]. rewrite length_drop. lia.
    + eapply list.Forall_impl; [exact Hw1|]. by intros e [_ ?].
    + eapply list.Forall_impl; [exact Hw2|]. by intros e [? _].
Qed.

(** *** The whole subtree *)

Lemma insertKey_ok s h fuel off D kvs f nx :
  ins_pre s h -> rep t (bs_nodes s) h off D kvs f nx -> (h < fuel)%nat ->
  if bool_decide (k ∈ kvs.*1) then insertKey fuel off k v s = (Ok None, s)
  else exists sp s' used, insertKey fuel off k v s = (Ok (Some sp), s') /\ ins_post s s' h off D kvs f nx sp used.
Proof using Type*.
  revert fuel off D kvs f nx. induction h as [|h IH]; intros fuel off D kvs f nx Hpre Hr Hf; (destruct fuel as [|fuel]; [lia|]).
  - destruct Hr as (n & Hn & Hl & -> & ->). by apply (insert_leaf _ _ _ n).
  - pose proof (rep_dom _ _ _ _ _ _ _ _ Hr) as Hdom.
    destruct Hr as (n & seps & cs & D' & Hn & Hi & -> & Hoff & Hr).
    destruct (reps_focus t Ht _ _ _ _ _ _ _ _ k Hr (in_valid _ _ _ _ Hi) Hk)
      as (c & Dc & Do & pre & kc & suf & fc & nc & lo & hi & F).
    pose proof (fo_at _ _ _ _ _ _ _ _ _ _ _ _ _ _ _ _ _ _ _ _ F) as Hc.
    pose proof (fo_child _ _ _ _ _ _ _ _ _ _ _ _ _ _ _ _ _ _ _ _ F) as [Hrc Hfc].
    destruct (fo_dom _ _ _ _ _ _ _ _ _ _ _ _ _ _ _ _ _ _ _ _ F) as [-> HD].
    assert (Ein : bool_decide (k ∈ kvs.*1) = bool_decide (k ∈ kc.*1)).
    { apply bool_decide_ext. rewrite (fo_kvs _ _ _ _ _ _ _ _ _ _ _ _ _ _ _ _ _ _ _ _ F), !fmap_app, !elem_of_app.
      pose proof (fo_pre _ _ _ _ _ _ _ _ _ _ _ _ _ _ _ _ _ _ _ _ F) as Hp. pose proof (fo_suf _ _ _ _ _ _ _ _ _ _ _ _ _ _ _ _ _ _ _ _ F) as Hs.
      rewrite list.Forall_forall in Hp, Hs. split; [|tauto]. intros [(e & -> & He)%list_elem_of_fmap|[?|(e & -> & He)%list_elem_of_fmap]]; [|done|].
      - by apply Hp, klt_irrefl in He.
      - by apply Hs, klt_irrefl in He. }
    assert (Hpre' : ins_pre s h) by (destruct Hpre; split; [done..|lia]). rewrite Ein.
    specialize (IH fuel c Dc kc fc nc Hpre' Hrc ltac:(lia)). cbn [insertKey]. erewrite bbind_ok by reflexivity.
    erewrite bbind_ok by (by apply read_node_ok). rewrite (in_leaf _ _ _ _ Hi).
    rewrite insert_idx_search_idx, (inner_idx t _ _ _ k Hi).
    assert (Hci : (kidx k seps < length cs)%nat) by (by eapply lookup_lt_Some).
    erewrite bbind_ok by (apply blift_nth; by rewrite (in_child _ _ _ _ Hi)).
    destruct (bool_decide (k ∈ kc.*1)); [by erewrite bbind_ok by exact IH|].
    destruct IH as (sp & s1 & used & Hins & [P1 P2 P3 P4 P5 P6 P7]). erewrite bbind_ok by exact Hins.
    destruct Hpre as [Et Hnd Hnew Hen].
    destruct (used_new s s1 used _ Hnd Hnew Hdom P2 P5) as (U1 & U2 & U3).
    assert (Hn1 : bs_nodes s1 !! off = Some n) by (rewrite P4; [done|set_solver|]; intros Hu; apply (U1 off Hu); set_solver).
    assert (HDo : forall o, o ∈ Do -> bs_nodes s1 !! o = bs_nodes s !! o).
    { intros o Ho. apply P4; [set_solver|]. intros Hu. apply (U1 o Hu). set_solver. }
    assert (Hdis : Dc ∪ list_to_set used ## Do) by set_solver.
    pose proof (focus_grown _ _ _ _ _ _ _ _ _ _ _ _ _ _ _ _ _ _ _ _ sp F (in_valid _ _ _ _ Hi) P7 (fun E => kept_filled t _ _ _ (P6 E) Hfc) Hdis HDo) as Hg.
    assert (HoffD : off ∉ Dc ∪ list_to_set used ∪ Do) by (pose proof (U1 off); set_solver).
    destruct sp as [[sep noff]|]; cbv zeta in Hg.
    + destruct Hg as (Ei & Hsx & Hsep & Hrow). rewrite <- Ei in Hsx, Hrow.
      assert (Hpool : exists noff pool, bs_pool s1 = noff :: pool /\ bs_nodes s1 !! noff = None /\ (noff ∉ Dc ∪ list_to_set used ∪ Do)).
      { assert (Hlen : (length (bs_pool s) = length used + length (bs_pool s1))%nat) by (by rewrite P2, length_app).
        destruct (bs_pool s1) as [|p pool]; [simpl in Hlen; lia|].
        exists p, pool. destruct (U3 p) as (? & ? & ?); [left|]. set_solver. }
      destruct (insert_split_ok s1 h off n seps cs sep noff _ _ _ _ ltac:(congruence) Hn1 Hi HoffD Hsep Hsx Hrow Hpool)
        as (sp & s2 & used2 & Hs2 & Q1 & Q2 & Q3 & Q4 & Q5 & Q6 & Q7).
      exists sp, s2, (used ++ used2). split; [exact Hs2|]. split.
      * congruence.
      * by rewrite P2, Q2, app_assoc.
      * rewrite length_app. destruct sp; lia.
      * intros o Ho Hu. rewrite elem_of_app in Hu. rewrite Q4, P4; set_solver.
      * rewrite Q5, P5, list_to_set_app_L. set_solver.
      * intros -> m Hm. apply Q6; [done|]. by rewrite Hn1, <- Hm, Hn.
      * rewrite list_to_set_app_L.
        replace ({[off]} ∪ (Dc ∪ Do) ∪ (list_to_set used ∪ list_to_set used2))
          with ({[off]} ∪ (Dc ∪ list_to_set used ∪ Do) ∪ list_to_set used2 : gset Z) by set_solver. exact Q7.
    + exists None, s1, used. split; [done|]. split; [done|done|lia| |done| |].
      * intros o Ho Hu. apply P4; set_solver.
      * intros _. by apply (kept_same _ _ _ n).
      * replace ({[off]} ∪ (Dc ∪ Do) ∪ list_to_set used) with ({[off]} ∪ (Dc ∪ list_to_set used ∪ Do) : gset Z) by set_solver.
        by eapply rep_row.
Qed.

End insert.

(** ** The whole tree *)

(** Size, root and height are not part of what a subtree stands for. *)
Lemma rep_set_tree t hh sz rt ll nd h off D kvs f nx :
  rep t nd h off D kvs f nx -> rep (set_tree hh sz rt ll t) nd h off D kvs f nx.
Proof.
  revert off D kvs f nx. induction h as [|h IH]; intros off D kvs f nx; simpl.
  - intros (n & Hn & [] & -> & ->). exists n. split_and!; [done|by split|done..].
  - intros (n & seps & cs & D' & Hn & [] & -> & Hoff & Hr). exists n, seps, cs, D'. split_and!; [done|by split|done|done|].
    eapply reps_impl; [|exact Hr]. intros c D0 kvs0 f0 nx0 _ [Hc Hf]. split; [by apply IH|done].
Qed.

Lemma params_set_tree t hh sz rt ll : params_ok t -> params_ok (set_tree hh sz rt ll t).
Proof. by intros []. Qed.

Lemma kv_ins_Permutation k v kvs : kv_ins k v kvs ≡ₚ (k, v) :: kvs.
Proof. unfold kv_ins, ins_at. rewrite <- Permutation_middle. by rewrite take_drop. Qed.

(** The first leaf of a tree. *)
Lemma root_leaf t k v :
  params_ok t -> length k = s_key t -> length v = s_value t ->
  leaf_node t (set_keyCount 1 (set_values (<[0%nat:=v]> (values (btree_init_node t)))
    (set_keys (<[0%nat:=k]> (keys (btree_init_node t))) (BTREE_SET_LEAF (btree_init_node t))))) [(k, v)] 0.
Proof.
  intros Ht Hk Hv. pose proof (LEAF_ORDER_le t Ht). pose proof (po_leaf _ Ht). pose proof (po_value _ Ht).
  split; simpl; rewrite ?length_insert, ?length_replicate; try done; try lia.
  - intros i Hi. assert (i = 0%nat) as -> by lia. rewrite list_lookup_insert_eq; [done|rewrite length_replicate; lia].
  - intros i Hi. assert (i = 0%nat) as -> by lia. rewrite list_lookup_insert_eq; [done|rewrite length_replicate; lia].
  - rewrite list_lookup_insert_ne, lookup_replicate_2 by lia. simpl. by destruct (s_value t).
  - repeat constructor.
  - by repeat constructor.
Qed.

(** A new root above two nodes. *)
Lemma root_inner t sep c1 c2 :
  params_ok t -> vkey (s_key t) sep ->
  inner_node t (set_keyCount 1 (set_children (<[1%nat:=c2]> (<[0%nat:=c1]> (children (btree_init_node t))))
    (set_keys (<[0%nat:=sep]> (keys (btree_init_node t))) (btree_init_node t)))) [sep] [c1; c2].
Proof.
  intros Ht Hs. pose proof (po_order _ Ht).
  split; simpl; rewrite ?length_insert, ?length_replicate; try done; try lia.
  - intros i Hi. assert (i = 0%nat) as -> by lia. rewrite list_lookup_insert_eq; [done|rewrite length_replicate; lia].
  - intros [|[|i]] Hi; [..|lia].
    + rewrite list_lookup_insert_ne, list_lookup_insert_eq by (rewrite ?length_replicate; lia). done.
    + rewrite list_lookup_insert_eq; [done|rewrite length_insert, length_replicate; lia].
  - by repeat constructor.
Qed.

(** The nodes that were added come from the pool. *)
Definition took (s s' : bstate) : Prop :=
  exists used, bs_pool s = used ++ bs_pool s' /\ dom (bs_nodes s') = dom (bs_nodes s) ∪ list_to_set used.

Section top.
Context (s : bstate) (kvs : list kv) (HI : btree_ok s kvs).
Context (k : key) (v : value) (Hk : length k = s_key (bs_tree s)) (Hv : length v = s_value (bs_tree s)).
Context (Hpool : (height (bs_tree s) < length (bs_pool s))%nat) (Hsize : Z.of_nat (length kvs) + 1 < 2 ^ 64).

Let t := bs_tree s.

Lemma size_next : u64 (bt_size t + 1) = Z.of_nat (length (kv_ins k v kvs)).
Proof using Type*.
  rewrite length_kv_ins. destruct (bo_size _ _ HI) as [E _]. fold t in E. rewrite E. unfold u64. rewrite Z.mod_small; lia.
Qed.

Lemma size_bound : Z.of_nat (length (kv_ins k v kvs)) < 2 ^ 64.
Proof using Type*. rewrite length_kv_ins. lia. Qed.

Lemma insert_empty :
  root t = 0 -> kvs = [] -> height t = 0%nat -> bs_nodes s = ∅ ->
  exists s', btree_insert_impl k v s = (Ok tt, s') /\ btree_ok s' (kv_ins k v kvs) /\ took s s'.
Proof using Type*.
  intros Hroot Hkvs Hh Hnd. pose proof (bo_params _ _ HI) as Ht. fold t in Ht. destruct (bo_pool _ _ HI) as [Hnodup Hnew].
  pose proof size_next as Hsz. pose proof size_bound as Hszb. subst kvs.
  destruct (bs_pool s) as [|p pool] eqn:Ep; [simpl in Hpool; lia|]. apply list.NoDup_cons in Hnodup as [Hp Hnodup].
  unfold btree_insert_impl. erewrite bbind_ok by reflexivity. fold t. rewrite Hroot. simpl (0 =? 0).
  erewrite bbind_ok by reflexivity. cbv beta iota zeta. erewrite bbind_ok by reflexivity. cbv beta iota zeta. erewrite bbind_ok by reflexivity. fold t.
  cbn [root set_tree]. rewrite Hroot. simpl (0 =? 0). unfold btree_new_node.
  erewrite bbind_ok by (cbn [bs_pool]; rewrite Ep; reflexivity). cbn [bs_tree bs_nodes].
  pose proof (LEAF_ORDER_le t Ht). pose proof (po_leaf _ Ht).
  unfold blift. rewrite !arr_set_ok by (simpl; rewrite length_replicate; unfold LEAF_ORDER in *; simpl; lia).
  eexists. split; [reflexivity|]. destruct (Hnew p) as [Hp0 _]; [left|].
  split; [|exists [p]; cbn [bs_pool bs_nodes]; split; [by rewrite Ep|rewrite !dom_insert_L; set_solver]].
  split; cbn [bs_tree bs_nodes bs_pool height bt_size root left_leaf set_tree].
  - by apply params_set_tree, params_set_tree.
  - rewrite Hnd, !lookup_insert_ne by done. done.
  - done.
  - right. split; [done|]. exists 0%nat. eexists. split; [by rewrite Hh|]. rewrite lookup_insert_eq. split; [|split; [done|simpl; lia]].
    apply rep_set_tree, rep_set_tree. eexists. rewrite lookup_insert_eq. split; [done|]. split; [by apply (root_leaf t)|].
    split; [|done]. rewrite Hnd, !dom_insert_L, dom_empty_L. set_solver.
  - split; [done|]. intros q Hq. split; [by apply Hnew; right|]. rewrite Hnd, !lookup_insert_ne by (intros ->; done). done.
Qed.

Lemma insert_nonempty h n :
  height t = S h -> rep t (bs_nodes s) h (root t) (dom (bs_nodes s)) kvs (left_leaf t) 0 ->
  bs_nodes s !! root t = Some n -> (0 < keyCount n)%nat -> k ∉ kvs.*1 ->
  exists s', btree_insert_impl k v s = (Ok tt, s') /\ btree_ok s' (kv_ins k v kvs) /\ took s s'.
Proof using Type*.
  intros Hh Hr Hn Hcnt Hno. pose proof (bo_params _ _ HI) as Ht. fold t in Ht. destruct (bo_pool _ _ HI) as [Hnodup Hnew].
  pose proof size_next as Hsz. pose proof size_bound as Hszb. fold t in Hpool. rewrite Hh in Hpool.
  assert (Hpre : ins_pre t s h) by (split; [done|done|by intros; apply Hnew|lia]).
  pose proof (insertKey_ok t Ht k v Hk Hv s h (S h) _ _ _ _ _ Hpre Hr ltac:(lia)) as H.
  rewrite bool_decide_false in H by done. destruct H as (sp & s1 & used & Hins & [P1 P2 P3 P4 P5 P6 P7]).
  destruct (used_new s s1 used _ Hnodup (fun p Hp => proj2 (Hnew p Hp)) (reflexivity _) P2 P5) as (U1 & U2 & U3).
  assert (Hr0 : root t <> 0) by (intros E; rewrite E, (bo_zero _ _ HI) in Hn; done).
  assert (Hz : bs_nodes s1 !! 0 = None).
  { apply not_elem_of_dom. rewrite P5, elem_of_union, elem_of_list_to_set. intros [H|H].
    - apply elem_of_dom in H as [x Hx]. by rewrite (bo_zero _ _ HI) in Hx.
    - by destruct (Hnew 0) as [[] _]; [rewrite P2, elem_of_app; left|]. }
  unfold btree_insert_impl. erewrite bbind_ok by reflexivity. fold t. rewrite (proj2 (Z.eqb_neq _ _) Hr0), Hh.
  erewrite bbind_ok by exact Hins. cbv beta iota zeta. erewrite bbind_ok by reflexivity. cbv beta iota zeta. erewrite bbind_ok by reflexivity.
  cbn [root set_tree]. rewrite P1. fold t. rewrite (proj2 (Z.eqb_neq _ _) Hr0).
  assert (Hne : kv_ins k v kvs <> []) by (intros E; apply (f_equal length) in E; by rewrite length_kv_ins in E).
  assert (Hdn : dom (bs_nodes s) ∪ list_to_set used = dom (bs_nodes s1)) by done. rewrite Hdn in P7.
  assert (Hnew1 : forall q, q ∈ bs_pool s1 -> q <> 0 /\ bs_nodes s1 !! q = None).
  { intros q Hq. split; [|by apply U3]. by apply Hnew; rewrite P2, elem_of_app; right. }
  destruct sp as [[sep noff]|]; simpl in P7.
  - destruct P7 as (D1 & D2 & l1 & l2 & m & HD & HDD & El & Hsep & Hc1 & Hc2 & Hle & Hlt).
    assert (Hlen : (length (bs_pool s) = length used + length (bs_pool s1))%nat) by (by rewrite P2, length_app).
    destruct (bs_pool s1) as [|p pool] eqn:Ep; [simpl in Hlen; lia|]. destruct (Hnew1 p) as [Hp0 Hpn]; [left|].
    apply list.NoDup_cons in U2 as [Hp U2].
    unfold btree_new_node. erewrite bbind_ok by reflexivity. cbn [bs_tree bs_nodes].
    pose proof (po_order _ Ht). unfold blift.
    rewrite !arr_set_ok by (simpl; rewrite length_replicate; simpl; lia). erewrite bbind_ok by reflexivity.
    erewrite bbind_ok by reflexivity. rewrite !arr_set_ok by (simpl; rewrite length_insert, length_replicate; simpl; lia).
    eexists. split; [reflexivity|].
    assert (Hpd : p ∉ dom (bs_nodes s1)) by (by apply not_elem_of_dom).
    split; [|exists (used ++ [p]); cbn [bs_pool bs_nodes]; split; [by rewrite <- app_assoc|rewrite !dom_insert_L, <- Hdn, list_to_set_app_L; set_solver]].
    split; cbn [bs_tree bs_nodes bs_pool height bt_size root left_leaf set_tree].
    + by apply params_set_tree, params_set_tree.
    + by rewrite !lookup_insert_ne by done.
    + done.
    + right. split; [done|]. exists (S h). eexists. split; [by rewrite Hh|]. rewrite lookup_insert_eq. split; [|split; [done|simpl; lia]].
      rewrite insert_insert_eq, dom_insert_L, El. apply rep_set_tree, rep_set_tree.
      eapply (rep_row t (bs_nodes s1)); [by rewrite lookup_insert_eq|by apply (root_inner t)| |done|].
      * rewrite HD. eapply (reps_cons _ None None); [exact Hc1| |done|done| |done].
        -- eapply list.Forall_impl; [exact Hle|]. done.
        -- apply reps_one; [exact Hc2|]. eapply list.Forall_impl; [exact Hlt|]. done.
      * intros o Ho. apply lookup_insert_ne. set_solver.
    + split; [done|]. intros q Hq. destruct (Hnew1 q) as [Hq0 Hqn]; [by right|]. split; [done|].
      by rewrite !lookup_insert_ne by (intros ->; done).
  - eexists. split; [reflexivity|]. split; [|by exists used]. split; cbn [bs_tree bs_nodes bs_pool height bt_size root left_leaf set_tree].
    + by apply params_set_tree.
    + done.
    + done.
    + right. split; [done|].
      destruct (P6 eq_refl n Hn) as (n1 & Hn1 & _ & Hc1).
      exists h, n1. split_and!; [done|by apply rep_set_tree|done|lia].
    + done.
Qed.

Lemma insert_present : k ∈ kvs.*1 -> btree_insert_impl k v s = (Err E_INVAL, s).
Proof using Type*.
  intros Hin. destruct (bo_tree _ _ HI) as [(_ & -> & _)|(_ & h & n & Hh & Hr & Hn & _)]; [set_solver|]. fold t in Hh, Hr, Hn.
  pose proof (bo_params _ _ HI) as Ht. destruct (bo_pool _ _ HI) as [Hnodup Hnew].
  assert (Hpre : ins_pre t s h) by (split; [done|done|by intros; apply Hnew|unfold t in Hh; lia]).
  pose proof (insertKey_ok t Ht k v Hk Hv s h (S h) _ _ _ _ _ Hpre Hr ltac:(lia)) as H.
  rewrite bool_decide_true in H by done.
  assert (Hr0 : root t <> 0) by (intros E; rewrite E, (bo_zero _ _ HI) in Hn; done).
  unfold btree_insert_impl. erewrite bbind_ok by reflexivity. fold t. rewrite (proj2 (Z.eqb_neq _ _) Hr0), Hh.
  by erewrite bbind_ok by exact H.
Qed.

End top.

Lemma btree_insert_new s kvs k v :
  btree_ok s kvs -> length k = s_key (bs_tree s) -> length v = s_value (bs_tree s) ->
  (height (bs_tree s) < length (bs_pool s))%nat -> Z.of_nat (length kvs) + 1 < 2 ^ 64 -> k ∉ kvs.*1 ->
  exists s', btree_insert_impl k v s = (Ok tt, s') /\ btree_ok s' (kv_ins k v kvs) /\ took s s'.
Proof.
  intros HI Hk Hv Hp Hs Hno.
  destruct (bo_tree _ _ HI) as [(? & ? & ? & ?)|(_ & h & n & ? & ? & ? & ?)]; [by apply insert_empty|by eapply insert_nonempty].
Qed.

(** ** New trees and an example *)

Lemma btree_init_ok ord ks vs t pool :
  btree_init_impl ord ks vs = Ok t -> (3 <= ord)%nat -> (2 <= ord / vs)%nat -> NoDup pool -> 0 ∉ pool ->
  btree_ok (mkBstate t ∅ pool []) [].
Proof.
  unfold btree_init_impl. destruct (_ && _) eqn:E; [|done]. intros [= <-] Ho Hl Hnd H0. bool_hyps.
  split; simpl; [|done|done|by left|].
  - split; simpl; [done|lia|exact Hl|done|done].
  - split; [done|]. intros p Hp. split; [by intros ->|done].
Qed.

(** The four trees of the kernel start empty and well-formed. *)
Lemma btree_manager_init_ok pool objmap iobj fchunk foffset :
  btree_manager_init = Ok (objmap, iobj, fchunk, foffset) -> NoDup pool -> 0 ∉ pool ->
  Forall (fun t => btree_ok (mkBstate t ∅ pool []) []) [objmap; iobj; fchunk; foffset].
Proof.
  unfold btree_manager_init. intros H Hnd H0.
  repeat match type of H with
  | context [btree_init_impl ?a ?b ?c] =>
      let t := fresh "t" in let E := fresh "E" in destruct (btree_init_impl a b c) as [t| |] eqn:E; cbn [res_bind] in H; [|done|done]
  end.
  injection H as <- <- <- <-. repeat (apply list.Forall_cons; split); [..|constructor];
    (eapply btree_init_ok; [eassumption|apply Nat.leb_le; by vm_compute|apply Nat.leb_le; by vm_compute|done|done]).
Qed.

Definition example_tree : bstate := mkBstate (mkBtree 4 1 1 2 1 0 0 0 0) ∅ [10; 20; 30; 40; 50; 60] [].
Definition example_insert (x : Z) (s : bstate) : bstate := snd (btree_insert_impl [x] [x + 100] s).

Lemma example_step s kvs x :
  btree_ok s kvs -> s_key (bs_tree s) = 1%nat -> s_value (bs_tree s) = 1%nat ->
  (height (bs_tree s) < length (bs_pool s))%nat -> Z.of_nat (length kvs) + 1 < 2 ^ 64 -> [x] ∉ kvs.*1 ->
  btree_ok (example_insert x s) (kv_ins [x] [x + 100] kvs).
Proof.
  intros HI Hk Hv Hp Hs Hno. unfold example_insert.
  by destruct (btree_insert_new s kvs [x] [x + 100] HI) as (s' & -> & ? & _); [rewrite Hk|rewrite Hv|..].
Qed.

(** Five keys in two leaves under a root. *)
Definition example_state : bstate := example_insert 3 (example_insert 7 (example_insert 9 (example_insert 1 (example_insert 5 example_tree)))).
Definition example_kvs : list kv := [([1], [101]); ([3], [103]); ([5], [105]); ([7], [107]); ([9], [109])].

Ltac add x H :=
  apply (example_step _ _ x) in H;
    [|by vm_compute|by vm_compute|apply Nat.ltb_lt; by vm_compute|by vm_compute|apply (bool_decide_unpack _); by vm_compute].

Lemma example_ok : btree_ok example_state example_kvs.
Proof.
  assert (H0 : btree_ok example_tree []).
  { apply (btree_init_ok 4 1 1); [done|lia|by apply Nat.leb_le|apply (bool_decide_unpack _); by vm_compute|set_solver]. }
  add 5 H0. add 1 H0. add 9 H0. add 7 H0. add 3 H0.
  exact H0.
Qed.

(** C22: insertion.  Inserting a key that is not there succeeds, and the tree then
    stands for the sorted list with the new entry, whatever nodes were split on
    the way; inserting one that is there fails with [E_INVAL] and changes
    nothing.  All that it needs is room for one node per level and a new root. *)
Theorem btree_insert_correct s kvs k v :
  btree_ok s kvs -> length k = s_key (bs_tree s) -> length v = s_value (bs_tree s) ->
  (height (bs_tree s) < length (bs_pool s))%nat -> Z.of_nat (length kvs) + 1 < 2 ^ 64 ->
  if bool_decide (k ∈ kvs.*1) then btree_insert_impl k v s = (Err E_INVAL, s)
  else exists s' kvs', btree_insert_impl k v s = (Ok tt, s') /\ btree_ok s' kvs' /\ sorted kvs' /\ kvs' ≡ₚ (k, v) :: kvs.
Proof.
  intros HI Hk Hv Hp Hs. case_bool_decide as Hin; [by eapply insert_present|].
  destruct (btree_insert_new s kvs k v HI Hk Hv Hp Hs Hin) as (s' & Hins & HI' & _).
  exists s', (kv_ins k v kvs). split_and!; [done|done|by eapply btree_ok_sorted|apply kv_ins_Permutation].
Qed.

Lemma btree_insert_correct_witness :
  height (bs_tree example_state) = 2%nat /\
  exists s' kvs', btree_insert_impl [4] [104] example_state = (Ok tt, s') /\ btree_ok s' kvs' /\ sorted kvs' /\
    kvs' ≡ₚ ([4], [104]) :: example_kvs.
Proof.
  split; [by vm_compute|].
  pose proof (btree_insert_correct example_state example_kvs [4] [104] example_ok eq_refl eq_refl
    ltac:(apply Nat.ltb_lt; by vm_compute) ltac:(by vm_compute)) as H.
  exact H.
Defined.

Lemma btree_search_correct_witness :
  exists r, search [4] match_gtet example_state = (match r with Some e => Ok e | None => Err E_NOT_FOUND end, example_state) /\
    answer match_gtet [4] example_kvs r.
Proof. exact (btree_search_correct example_state example_kvs [4] match_gtet example_ok eq_refl). Defined.
