(* ===== verification/BTreeRemove.v ===== *)
(** * Deletion from the nodes of a B+-tree

    What the operations of [btree_delete.c] do to a leaf, to an inner node and to
    two siblings with their parent. *)

From stdpp Require Import sorting.
From S2P Require Import Prelude BTree BTreeRep BTreeSearch BTreeNodes.
From stdpp Require Import options.

Set Default Goal Selector "!".

(** ** Arrays *)

Lemma arr_move_down {A} (l : list A) i n :
  (S i + n <= length l)%nat ->
  exists l', arr_move l i (S i) n = Ok l' /\ length l' = length l /\
    forall j, l' !! j = if decide (i <= j < i + n)%nat then l !! S j else l !! j.
Proof.
  intros Hl. unfold arr_move. destruct (n =? 0)%nat eqn:E; bool_hyps.
  - exists l. split_and!; [done..|]. intros j. by rewrite decide_False by lia.
  - rewrite (proj2 (Nat.leb_le (i + n) (length l))), (proj2 (Nat.leb_le (S i + n) (length l))) by lia. cbn [andb].
    eexists. split; [done|]. split.
    + rewrite !length_app, !length_take, !length_drop. lia.
    + intros j. destruct (decide (j < i)%nat).
      { rewrite lookup_app_l by (rewrite length_take; lia). rewrite lookup_take_lt by lia. by rewrite decide_False by lia. }
      rewrite lookup_app_r by (rewrite length_take; lia). rewrite length_take, Nat.min_l by lia.
      destruct (decide (j < i + n)%nat).
      { rewrite lookup_app_l by (rewrite length_take, length_drop; lia). rewrite lookup_take_lt, lookup_drop by lia.
        rewrite decide_True by lia. f_equal. lia. }
      rewrite lookup_app_r by (rewrite length_take, length_drop; lia). rewrite length_take, length_drop, Nat.min_l by lia.
      rewrite lookup_drop, decide_False by lia. f_equal. lia.
Qed.

Lemma shift_left_spec {A} (l : list A) i n :
  (i + n < length l)%nat ->
  exists l', shift_left l i n = Ok l' /\ length l' = length l /\
    forall j, l' !! j = if decide (i <= j < i + n)%nat then l !! S j else l !! j.
Proof.
  revert l i. induction n as [|n IH]; intros l i Hl; cbn [shift_left].
  - exists l. split_and!; [done..|]. intros j. by rewrite decide_False by lia.
  - destruct (lookup_lt_is_Some_2 l (S i)) as [x Hx]; [lia|]. rewrite (res_nth_lookup _ _ _ Hx). cbn [res_bind].
    rewrite arr_set_ok by lia. cbn [res_bind].
    destruct (IH (<[i:=x]> l) (S i)) as (l' & -> & L & E); [rewrite length_insert; lia|]. rewrite length_insert in L.
    exists l'. split_and!; [done..|]. intros j. rewrite E. destruct (decide (j = i)) as [->|].
    + decide_lia. by rewrite list_lookup_insert_eq by lia.
    + destruct (decide (S i <= j < S i + n)%nat); decide_lia; by rewrite list_lookup_insert_ne by lia.
Qed.

Lemma shift_right_spec {A} (l : list A) n :
  (n < length l)%nat ->
  exists l', shift_right l n = Ok l' /\ length l' = length l /\
    forall j, l' !! j = if decide (1 <= j <= n)%nat then l !! (j - 1)%nat else l !! j.
Proof.
  revert l. induction n as [|n IH]; intros l Hl; cbn [shift_right].
  - exists l. split_and!; [done..|]. intros j. by rewrite decide_False by lia.
  - destruct (lookup_lt_is_Some_2 l n) as [x Hx]; [lia|]. rewrite (res_nth_lookup _ _ _ Hx). cbn [res_bind].
    rewrite arr_set_ok by lia. cbn [res_bind].
    destruct (IH (<[S n:=x]> l)) as (l' & -> & L & E); [rewrite length_insert; lia|]. rewrite length_insert in L.
    exists l'. split_and!; [done..|]. intros j. rewrite E. destruct (decide (j = S n)) as [->|].
    + decide_lia. rewrite list_lookup_insert_eq by lia. rewrite <- Hx. f_equal. lia.
    + destruct (decide (1 <= j <= n)%nat); decide_lia; by rewrite list_lookup_insert_ne by lia.
Qed.

Lemma copy_in_spec {A} (dst src : list A) i j n :
  (i + n <= length dst)%nat -> (j + n <= length src)%nat ->
  exists dst', copy_in dst src i j n = Ok dst' /\ length dst' = length dst /\
    forall m, dst' !! m = if decide (i <= m < i + n)%nat then src !! (m - i + j)%nat else dst !! m.
Proof.
  revert dst i j. induction n as [|n IH]; intros dst i j H1 H2; cbn [copy_in].
  - exists dst. split_and!; [done..|]. intros m. by rewrite decide_False by lia.
  - destruct (lookup_lt_is_Some_2 src j) as [x Hx]; [lia|]. rewrite (res_nth_lookup _ _ _ Hx). cbn [res_bind].
    rewrite arr_set_ok by lia. cbn [res_bind].
    destruct (IH (<[i:=x]> dst) (S i) (S j)) as (d' & -> & L & E); [rewrite length_insert; lia|lia|]. rewrite length_insert in L.
    exists d'. split_and!; [done..|]. intros m. rewrite E. destruct (decide (m = i)) as [->|].
    + decide_lia. rewrite list_lookup_insert_eq by lia. rewrite <- Hx. f_equal. lia.
    + destruct (decide (S i <= m < S i + n)%nat); decide_lia; [f_equal; lia|]. by rewrite list_lookup_insert_ne by lia.
Qed.

Lemma lookup_delete_list {A} (l : list A) i j :
  delete i l !! j = if decide (j < i)%nat then l !! j else l !! S j.
Proof. case_decide; [by apply list_lookup_delete_lt|apply list_lookup_delete_ge; lia]. Qed.

(** ** The list without an entry *)

Definition kv_del (k : key) (kvs : list kv) : list kv := delete (kidx k kvs.*1) kvs.

Lemma kv_del_between k pre kvs suf :
  Forall (fun e : kv => klt e.1 k) pre -> Forall (fun e : kv => klt k e.1) suf -> (kidx k kvs.*1 < length kvs)%nat ->
  kv_del k (pre ++ kvs ++ suf) = pre ++ kv_del k kvs ++ suf.
Proof.
  intros Hp Hs Hi. unfold kv_del. rewrite kidx_between by done. rewrite !delete_take_drop.
  rewrite <- Nat.add_succ_r, take_app_add, drop_app_add, take_app_le, drop_app_le by lia. by rewrite <- !app_assoc.
Qed.

Lemma sorted_delete i kvs : sorted kvs -> sorted (delete i kvs).
Proof.
  intros Hs. rewrite delete_take_drop. rewrite <- (take_drop i kvs) in Hs. apply sorted_app in Hs as (H1 & H2 & H3).
  destruct (drop i kvs) as [|e l] eqn:E.
  - replace (drop (S i) kvs) with (@nil kv); [by rewrite app_nil_r|]. rewrite <- Nat.add_1_r, <- drop_drop, E. done.
  - replace (drop (S i) kvs) with l by (by rewrite <- Nat.add_1_r, <- drop_drop, E).
    apply (sorted_app [e]) in H2 as (_ & H2 & _). apply sorted_app. split_and!; [done..|]. intros e1 e2 He1 He2. apply H3; [done|by right].
Qed.

Section remove.
Context (t : btree) (Ht : params_ok t).

(** The key of an entry is at its index. *)
Lemma found_key k kvs :
  length k = s_key t -> sorted kvs -> Forall (vkv t) kvs -> k ∈ kvs.*1 -> (kvs.*1 : list key) !! kidx k kvs.*1 = @Some key k.
Proof using Type.
  intros Hk Hs Hv Hin. destruct (@lookup nat key (list key) _ (kidx k kvs.*1) kvs.*1) as [x|] eqn:E.
  - destruct (Z.eqb_spec (btree_keycmp x k) 0) as [Ex|Ex].
    + f_equal. apply keycmp_eq; [|done]. rewrite Hk. rewrite list_lookup_fmap in E. apply fmap_Some in E as (e & He & ->).
      rewrite list.Forall_forall in Hv. apply Hv, list_elem_of_lookup. eauto.
    + exfalso. assert (Hd : divides k (take (kidx k kvs.*1) kvs) (drop (kidx k kvs.*1) kvs)).
      { apply (kidx_divides t); [done..|]. rewrite E. by apply Z.eqb_neq. }
      apply list_elem_of_fmap in Hin as (e & -> & He). rewrite <- (take_drop (kidx e.1 kvs.*1) kvs) in He.
      by apply (divides_no_eq _ _ _ Hd e He).
  - exfalso. assert (Hd : divides k (take (kidx k kvs.*1) kvs) (drop (kidx k kvs.*1) kvs)).
    { apply (kidx_divides t); [done..|]. by rewrite E. }
    apply list_elem_of_fmap in Hin as (e & -> & He). rewrite <- (take_drop (kidx e.1 kvs.*1) kvs) in He.
    by apply (divides_no_eq _ _ _ Hd e He).
Qed.

(** [__removeKey]. *)
Lemma removeKey_absent n kvs nx k : length k = s_key t -> leaf_node t n kvs nx -> k ∉ kvs.*1 -> removeKey t n k = Ok None.
Proof using Type.
  intros Hk Hl Hno. unfold removeKey. rewrite (leaf_idx t _ _ _ k Hl), (lf_count _ _ _ _ Hl).
  destruct (kidx k kvs.*1 <? length kvs)%nat eqn:E; [|done]. bool_hyps. rewrite (lf_key _ _ _ _ Hl) by done. cbn [andb].
  destruct (kvs !! kidx k kvs.*1) as [e|] eqn:He; [|done]. simpl. destruct (Z.eqb_spec (btree_keycmp e.1 k) 0) as [Ex|]; [|done].
  destruct Hno. assert (k = e.1) as ->.
  { symmetry. apply keycmp_eq; [|done]. rewrite Hk. pose proof (lf_valid _ _ _ _ Hl) as Hv. rewrite list.Forall_forall in Hv.
    apply Hv, list_elem_of_lookup. eauto. }
  apply list_elem_of_fmap_2, list_elem_of_lookup. eauto.
Qed.

Lemma removeKey_ok n kvs nx k :
  length k = s_key t -> leaf_node t n kvs nx -> k ∈ kvs.*1 ->
  exists n', removeKey t n k = Ok (Some n') /\ leaf_node t n' (kv_del k kvs) nx /\ (kidx k kvs.*1 < length kvs)%nat.
Proof using Type*.
  intros Hk Hl Hin. pose proof (found_key k kvs Hk (lf_sorted _ _ _ _ Hl) (lf_valid _ _ _ _ Hl) Hin) as Hf.
  pose proof (lookup_lt_Some _ _ _ Hf) as Hi. rewrite length_fmap in Hi.
  unfold removeKey. rewrite (leaf_idx t _ _ _ k Hl), (lf_count _ _ _ _ Hl).
  unfold kv_del. set (i := kidx k kvs.*1) in *. rewrite (proj2 (Nat.ltb_lt _ _) Hi). cbn [andb].
  rewrite (lf_key _ _ _ _ Hl) by done. rewrite list_lookup_fmap in Hf. rewrite Hf, keycmp_refl. cbn [Z.eqb].
  pose proof (LEAF_ORDER_le t Ht) as HLO. pose proof (lf_keys _ _ _ _ Hl) as Lk. pose proof (lf_values _ _ _ _ Hl) as Lv.
  pose proof (lf_max _ _ _ _ Hl) as Hmax. pose proof (po_leaf _ Ht).
  destruct (arr_move_down (keys n) i (length kvs - i - 1)) as (ks & -> & Lks & Eks); [lia|]. cbn [res_bind].
  destruct (arr_move_down (values n) i (length kvs - i)) as (vs & -> & Lvs & Evs); [lia|]. cbn [res_bind].
  rewrite !arr_set_ok by lia. cbn [res_bind]. eexists. split; [done|]. split; [|done].
  assert (Ld : length (delete i kvs) = (length kvs - 1)%nat) by (rewrite length_delete; [lia|by apply lookup_lt_is_Some_2]).
  split; simpl; rewrite ?length_insert, ?Ld; [apply Hl|lia|lia|lia|lia| | | | |].
  - intros j Hj. rewrite list_lookup_insert, Eks, lookup_delete_list. repeat case_decide; try lia; apply Hl; lia.
  - intros j Hj. rewrite list_lookup_insert, Evs, lookup_delete_list. repeat case_decide; try lia; apply Hl; lia.
  - rewrite list_lookup_insert, Evs. repeat case_decide; try lia. rewrite <- (lf_next _ _ _ _ Hl). do 2 f_equal. lia.
  - apply sorted_delete, Hl.
  - apply Forall_delete, Hl.
Qed.

(** ** One entry less *)

(** [__removeKey2]: a separator and the child to its left. *)
Lemma removeKey2_ok n seps cs i :
  inner_node t n seps cs -> (i < length seps)%nat ->
  exists n', removeKey2 t n i = Ok n' /\ inner_node t n' (delete i seps) (delete i cs).
Proof using Type*.
  intros Hn Hi. unfold removeKey2. rewrite (in_count _ _ _ _ Hn).
  pose proof (in_keys _ _ _ _ Hn) as Lk. pose proof (in_array _ _ _ _ Hn) as Lc. pose proof (in_max _ _ _ _ Hn) as Hmax.
  pose proof (in_children _ _ _ _ Hn) as Lcs. pose proof (po_order _ Ht) as HO.
  destruct (shift_left_spec (keys n) i (length seps - 1 - i)) as (ks & -> & Lks & Eks); [lia|]. cbn [res_bind].
  destruct (shift_left_spec (children n) i (length seps - 1 - i)) as (ch & -> & Lch & Ech); [lia|]. cbn [res_bind].
  rewrite arr_set_ok by lia. cbn [res_bind].
  replace (i + (length seps - 1 - i))%nat with (length seps - 1)%nat in * by lia.
  destruct (lookup_lt_is_Some_2 cs (length seps)) as [x Hx]; [lia|].
  rewrite (res_nth_lookup ch _ x).
  2:{ rewrite Ech. decide_lia. rewrite (in_child _ _ _ _ Hn) by lia. rewrite <- Hx. f_equal. lia. }
  cbn [res_bind]. rewrite arr_set_ok by lia. cbn [res_bind]. rewrite arr_set_ok by (rewrite length_insert; lia). cbn [res_bind].
  eexists. split; [done|].
  assert (L1 : length (delete i seps) = (length seps - 1)%nat) by (rewrite length_delete; [lia|by apply lookup_lt_is_Some_2]).
  assert (L2 : length (delete i cs) = length seps) by (rewrite length_delete; [lia|apply lookup_lt_is_Some_2; lia]).
  split; simpl; rewrite ?length_insert, ?L1, ?L2; [apply Hn|lia|lia|lia|lia|lia| | |].
  - intros j Hj. rewrite list_lookup_insert, Eks, lookup_delete_list. repeat case_decide; try lia; apply Hn; lia.
  - intros j Hj. rewrite !list_lookup_insert, length_insert, Ech, lookup_delete_list. repeat case_decide; try lia; try (apply Hn; lia).
    all: rewrite <- Hx; f_equal; lia.
  - apply Forall_delete, Hn.
Qed.

(** [__removeKeyLeaf2] of the first entry. *)
Lemma removeKeyLeaf2_ok n e kvs nx :
  leaf_node t n (e :: kvs) nx -> exists n', removeKeyLeaf2 t n 0 = Ok n' /\ leaf_node t n' kvs nx.
Proof using Type*.
  intros Hl. unfold removeKeyLeaf2. rewrite (lf_count _ _ _ _ Hl).
  pose proof (LEAF_ORDER_le t Ht) as HLO. pose proof (lf_keys _ _ _ _ Hl) as Lk. pose proof (lf_values _ _ _ _ Hl) as Lv.
  pose proof (lf_max _ _ _ _ Hl) as Hmax. pose proof (lf_next _ _ _ _ Hl) as Hnx. pose proof (po_leaf _ Ht).
  cbn [length] in *. replace (S (length kvs) - 1 - 0)%nat with (length kvs) by lia.
  destruct (shift_left_spec (keys n) 0 (length kvs)) as (ks & -> & Lks & Eks); [lia|]. cbn [res_bind].
  destruct (shift_left_spec (values n) 0 (length kvs)) as (vs & -> & Lvs & Evs); [lia|]. cbn [res_bind].
  rewrite arr_set_ok by lia. cbn [res_bind]. apply fmap_Some in Hnx as (x & Hx & ->).
  rewrite (res_nth_lookup vs _ x) by (rewrite Evs; decide_lia; done). cbn [res_bind].
  rewrite arr_set_ok by lia. cbn [res_bind]. rewrite arr_set_ok by (rewrite length_insert; lia). cbn [res_bind].
  eexists. split; [done|].
  split; simpl; rewrite ?length_insert; [apply Hl|lia|lia|lia|lia| | | | |].
  - intros j Hj. rewrite list_lookup_insert, Eks. decide_lia. by rewrite (lf_key _ _ _ _ Hl) by (simpl; lia).
  - intros j Hj. rewrite !list_lookup_insert, length_insert, Evs. decide_lia. by rewrite (lf_value _ _ _ _ Hl) by (simpl; lia).
  - rewrite !list_lookup_insert, length_insert. decide_lia. done.
  - exact (proj1 (proj2 (proj1 (sorted_app [e] kvs) (lf_sorted _ _ _ _ Hl)))).
  - by pose proof (lf_valid _ _ _ _ Hl) as [_ ?]%list.Forall_cons.
Qed.

(** A separator of the parent is replaced. *)
Lemma set_sep_ok prev seps cs i x :
  inner_node t prev seps cs -> (i < length seps)%nat -> vkey (s_key t) x ->
  exists ks, arr_set (keys prev) i x = Ok ks /\ inner_node t (set_keys ks prev) (<[i := x]> seps) cs.
Proof using Type*.
  intros Hp Hi Hx. pose proof (in_keys _ _ _ _ Hp) as Lk. pose proof (in_max _ _ _ _ Hp) as Hmax.
  rewrite arr_set_ok by lia. eexists. split; [done|].
  split; simpl; rewrite ?length_insert; try apply Hp.
  - intros j Hj. rewrite !list_lookup_insert. repeat case_decide; try done; try lia. by apply Hp.
  - apply Forall_insert; [apply Hp|done].
Qed.

(** ** Leaves *)

Lemma borrowRightLeaf_ok n prev node l1 e l2 seps cs nx1 nx2 div :
  leaf_node t n l1 nx1 -> leaf_node t node (e :: l2) nx2 -> inner_node t prev seps cs ->
  (div < length seps)%nat -> (length l1 < LEAF_ORDER t - 1)%nat -> sorted (l1 ++ e :: l2) ->
  exists n' prev' node', borrowRightLeaf t n prev node div = Ok (n', prev', node') /\
    leaf_node t n' (l1 ++ [e]) nx1 /\ inner_node t prev' (<[div := e.1]> seps) cs /\ leaf_node t node' l2 nx2.
Proof using Type*.
  intros H1 H2 Hp Hdiv Hlen Hs. unfold borrowRightLeaf. rewrite (lf_count _ _ _ _ H1).
  pose proof (LEAF_ORDER_le t Ht) as HLO. pose proof (lf_keys _ _ _ _ H1) as Lk. pose proof (lf_values _ _ _ _ H1) as Lv.
  pose proof (lf_next _ _ _ _ H1) as Hnx. pose proof (po_leaf _ Ht). apply fmap_Some in Hnx as (nxv & Hnxv & Enx).
  rewrite (res_nth_lookup _ _ _ Hnxv). cbn [res_bind]. rewrite arr_set_ok by lia. cbn [res_bind].
  rewrite (res_nth_lookup (keys node) 0 e.1) by (by rewrite (lf_key _ _ _ _ H2) by (simpl; lia)). cbn [res_bind].
  rewrite arr_set_ok by lia. cbn [res_bind].
  rewrite (res_nth_lookup (values node) 0 e.2) by (by rewrite (lf_value _ _ _ _ H2) by (simpl; lia)). cbn [res_bind].
  rewrite arr_set_ok by (rewrite length_insert; lia). cbn [res_bind].
  assert (He : vkv t e) by (by pose proof (lf_valid _ _ _ _ H2) as [? _]%list.Forall_cons).
  destruct (set_sep_ok prev seps cs div e.1 Hp Hdiv (proj1 He)) as (pks & -> & Hp'). cbn [res_bind].
  destruct (removeKeyLeaf2_ok node e l2 nx2 H2) as (node' & -> & H2'). cbn [res_bind].
  eexists _, _, _. split; [done|]. split; [|done].
  assert (L : length (l1 ++ [e]) = S (length l1)) by (rewrite length_app; simpl; lia).
  split; simpl; rewrite ?length_insert, ?L; [apply H1|done|lia|lia|lia| | | | |].
  - intros j Hj. rewrite list_lookup_insert. case_decide as E.
    + destruct E as [<- _]. by rewrite lookup_app_r, Nat.sub_diag by lia.
    + rewrite lookup_app_l by lia. apply H1. lia.
  - intros j Hj. rewrite !list_lookup_insert, length_insert. case_decide as E.
    + destruct E as [<- _]. by rewrite lookup_app_r, Nat.sub_diag by lia.
    + decide_lia. rewrite lookup_app_l by lia. apply H1. lia.
  - rewrite !list_lookup_insert, length_insert. decide_lia. simpl. by rewrite Enx.
  - apply (sorted_app _ l2). by rewrite <- app_assoc.
  - apply Forall_app_2; [apply H1|by apply list.Forall_singleton].
Qed.

Lemma borrowLeftLeaf_ok n prev node l1 y e l2 seps cs nx1 nx2 div :
  leaf_node t node (l1 ++ [y; e]) nx1 -> leaf_node t n l2 nx2 -> inner_node t prev seps cs ->
  (0 < div <= length seps)%nat -> (length l2 < LEAF_ORDER t - 1)%nat -> sorted ((l1 ++ [y; e]) ++ l2) ->
  exists n' prev' node', borrowLeftLeaf t n prev node div = Ok (n', prev', node') /\
    leaf_node t n' (e :: l2) nx2 /\ inner_node t prev' (<[(div - 1)%nat := y.1]> seps) cs /\ leaf_node t node' (l1 ++ [y]) nx1.
Proof using Type*.
  intros H1 H2 Hp Hdiv Hlen Hs. unfold borrowLeftLeaf. rewrite (lf_count _ _ _ _ H1), (lf_count _ _ _ _ H2).
  pose proof (LEAF_ORDER_le t Ht) as HLO. pose proof (lf_keys _ _ _ _ H1) as Lk1. pose proof (lf_values _ _ _ _ H1) as Lv1.
  pose proof (lf_keys _ _ _ _ H2) as Lk2. pose proof (lf_values _ _ _ _ H2) as Lv2.
  pose proof (lf_next _ _ _ _ H1) as Hnx. pose proof (lf_max _ _ _ _ H1) as Hmax. pose proof (po_leaf _ Ht).
  assert (L : length (l1 ++ [y; e]) = S (S (length l1))) by (rewrite length_app; simpl; lia). rewrite L in *.
  assert (Ee : (l1 ++ [y; e]) !! S (length l1) = Some e) by (rewrite lookup_app_r by lia; by replace (S (length l1) - length l1)%nat with 1%nat by lia).
  assert (Ey : (l1 ++ [y; e]) !! length l1 = Some y) by (rewrite lookup_app_r by lia; by rewrite Nat.sub_diag).
  replace (S (S (length l1)) - 1)%nat with (S (length l1)) by lia. replace (S (S (length l1)) - 2)%nat with (length l1) by lia.
  destruct (shift_right_spec (keys n) (length l2)) as (ks & -> & Lks & Eks); [lia|]. cbn [res_bind].
  destruct (shift_right_spec (values n) (S (length l2))) as (vs & -> & Lvs & Evs); [lia|]. cbn [res_bind].
  rewrite (res_nth_lookup (keys node) _ e.1) by (by rewrite (lf_key _ _ _ _ H1), Ee by lia). cbn [res_bind].
  rewrite arr_set_ok by lia. cbn [res_bind].
  rewrite (res_nth_lookup (values node) _ e.2) by (by rewrite (lf_value _ _ _ _ H1), Ee by lia). cbn [res_bind].
  rewrite arr_set_ok by lia. cbn [res_bind].
  rewrite (res_nth_lookup (keys node) _ y.1) by (by rewrite (lf_key _ _ _ _ H1), Ey by lia). cbn [res_bind].
  pose proof (lf_valid _ _ _ _ H1) as [Hv1 Hv2]%list.Forall_app. apply list.Forall_cons in Hv2 as [Hy [Hv2 _]%list.Forall_cons].
  destruct (set_sep_ok prev seps cs (div - 1) y.1 Hp ltac:(lia) (proj1 Hy)) as (pks & -> & Hp'). cbn [res_bind].
  apply fmap_Some in Hnx as (nxv & Hnxv & Enx). rewrite (res_nth_lookup _ _ _ Hnxv). cbn [res_bind].
  rewrite arr_set_ok by lia. cbn [res_bind]. rewrite arr_set_ok by (rewrite length_insert; lia). cbn [res_bind].
  rewrite arr_set_ok by lia. cbn [res_bind]. eexists _, _, _. split; [done|]. split; [|split; [done|]].
  - split; simpl; rewrite ?length_insert; [apply H2|done|lia|lia|lia| | | | |].
    + intros j Hj. rewrite list_lookup_insert, Eks. destruct j as [|j]; [by decide_lia|]. decide_lia. simpl. rewrite Nat.sub_0_r. apply H2. lia.
    + intros j Hj. rewrite list_lookup_insert, Evs. destruct j as [|j]; [by decide_lia|]. decide_lia. simpl. rewrite Nat.sub_0_r. apply H2. lia.
    + rewrite list_lookup_insert, Evs. decide_lia. simpl. rewrite Nat.sub_0_r. apply H2.
    + replace ((l1 ++ [y; e]) ++ l2) with ((l1 ++ [y]) ++ e :: l2) in Hs by (by rewrite <- !app_assoc). by apply sorted_app in Hs as (_ & ? & _).
    + constructor; [exact Hv2|apply H2].
  - assert (L' : length (l1 ++ [y]) = S (length l1)) by (rewrite length_app; simpl; lia).
    assert (Hsame : forall j, (j < S (length l1))%nat -> (l1 ++ [y]) !! j = (l1 ++ [y; e]) !! j).
    { intros j Hj. change [y; e] with ([y] ++ [e]). rewrite (app_assoc l1), (lookup_app_l (l1 ++ [y])) by lia. done. }
    split; simpl; rewrite ?length_insert, ?L'; [apply H1|lia|lia|lia|lia| | | | |].
    + intros j Hj. rewrite list_lookup_insert. decide_lia. rewrite Hsame by lia. apply H1. lia.
    + intros j Hj. rewrite !list_lookup_insert, length_insert. decide_lia. rewrite Hsame by lia. apply H1. lia.
    + rewrite !list_lookup_insert, length_insert. decide_lia. simpl. by rewrite Enx.
    + replace ((l1 ++ [y; e]) ++ l2) with ((l1 ++ [y]) ++ e :: l2) in Hs by (by rewrite <- !app_assoc). by apply sorted_app in Hs as (? & _).
    + apply Forall_app_2; [done|by apply list.Forall_singleton].
Qed.

Lemma absorbLeaf_ok n node l1 l2 nx1 nx2 :
  leaf_node t n l1 nx1 -> leaf_node t node l2 nx2 -> (length l1 + length l2 <= LEAF_ORDER t - 1)%nat -> sorted (l1 ++ l2) ->
  exists n', absorbLeaf n node = Ok n' /\ leaf_node t n' (l1 ++ l2) nx2.
Proof using Type*.
  intros H1 H2 Hlen Hs. unfold absorbLeaf. rewrite (lf_count _ _ _ _ H1), (lf_count _ _ _ _ H2).
  pose proof (LEAF_ORDER_le t Ht) as HLO. pose proof (lf_keys _ _ _ _ H1) as Lk1. pose proof (lf_values _ _ _ _ H1) as Lv1.
  pose proof (lf_keys _ _ _ _ H2) as Lk2. pose proof (lf_values _ _ _ _ H2) as Lv2. pose proof (po_leaf _ Ht).
  destruct (copy_in_spec (keys n) (keys node) (length l1) 0 (length l2)) as (ks & -> & Lks & Eks); [lia..|]. cbn [res_bind].
  destruct (copy_in_spec (values n) (values node) (length l1) 0 (length l2)) as (vs & -> & Lvs & Evs); [lia..|]. cbn [res_bind].
  pose proof (lf_next _ _ _ _ H2) as Hnx. apply fmap_Some in Hnx as (nxv & Hnxv & Enx). rewrite (res_nth_lookup _ _ _ Hnxv).
  cbn [res_bind]. rewrite arr_set_ok by lia. cbn [res_bind]. eexists. split; [done|].
  split; simpl; rewrite ?length_insert, ?length_app; [apply H1|done|lia|lia|lia| | | |done|apply Forall_app_2; [apply H1|apply H2]].
  - intros j Hj. rewrite Eks. destruct (decide (j < length l1)%nat); decide_lia.
    + rewrite lookup_app_l by lia. by apply H1.
    + rewrite lookup_app_r by lia. rewrite Nat.add_0_r. apply H2. lia.
  - intros j Hj. rewrite list_lookup_insert, Evs. decide_lia. destruct (decide (j < length l1)%nat); decide_lia.
    + rewrite lookup_app_l by lia. by apply H1.
    + rewrite lookup_app_r by lia. rewrite Nat.add_0_r. apply H2. lia.
  - rewrite list_lookup_insert. decide_lia. simpl. by rewrite Enx.
Qed.

(** ** Inner nodes *)

Lemma borrowRight_ok n prev node ss1 cs1 y ss2 c0 cs2 seps cs x div :
  inner_node t n ss1 cs1 -> inner_node t node (y :: ss2) (c0 :: cs2) -> inner_node t prev seps cs ->
  seps !! div = Some x -> (length ss1 < order t - 1)%nat ->
  exists n' prev' node', borrowRight t n prev node div = Ok (n', prev', node') /\
    inner_node t n' (ss1 ++ [x]) (cs1 ++ [c0]) /\ inner_node t prev' (<[div := y]> seps) cs /\ inner_node t node' ss2 cs2.
Proof using Type*.
  intros H1 H2 Hp Hx Hlen. unfold borrowRight. rewrite (in_count _ _ _ _ H1).
  pose proof (in_keys _ _ _ _ H1) as Lk. pose proof (in_array _ _ _ _ H1) as Lc. pose proof (in_children _ _ _ _ H1) as Lcs.
  pose proof (po_order _ Ht) as HO. pose proof (lookup_lt_Some _ _ _ Hx) as Hdiv.
  rewrite (res_nth_lookup (keys prev) div x) by (by rewrite (in_key _ _ _ _ Hp)). cbn [res_bind].
  rewrite arr_set_ok by lia. cbn [res_bind].
  rewrite (res_nth_lookup (keys node) 0 y) by (by rewrite (in_key _ _ _ _ H2) by (simpl; lia)). cbn [res_bind].
  pose proof (in_valid _ _ _ _ H2) as [Hy _]%list.Forall_cons.
  destruct (set_sep_ok prev seps cs div y Hp Hdiv Hy) as (pks & -> & Hp'). cbn [res_bind].
  rewrite (res_nth_lookup (children node) 0 c0) by (by rewrite (in_child _ _ _ _ H2) by (simpl; lia)). cbn [res_bind].
  rewrite arr_set_ok by lia. cbn [res_bind].
  destruct (removeKey2_ok node _ _ 0 H2) as (node' & -> & H2'); [simpl; lia|]. cbn [res_bind].
  eexists _, _, _. split; [done|]. split; [|done].
  assert (Hvx : vkey (s_key t) x) by (pose proof (in_valid _ _ _ _ Hp) as Hv; rewrite list.Forall_forall in Hv; apply Hv, list_elem_of_lookup; eauto).
  split; simpl; rewrite ?length_insert, ?length_app; simpl; [apply H1|lia|lia|lia|lia|lia| | |].
  - intros j Hj. rewrite list_lookup_insert. case_decide as E.
    + destruct E as [<- _]. by rewrite lookup_app_r, Nat.sub_diag by lia.
    + rewrite lookup_app_l by lia. apply H1. lia.
  - intros j Hj. rewrite list_lookup_insert. case_decide as E.
    + destruct E as [<- _]. by rewrite lookup_app_r, Lcs, Nat.sub_diag by lia.
    + rewrite lookup_app_l by lia. apply H1. lia.
  - apply Forall_app_2; [apply H1|by apply list.Forall_singleton].
Qed.

Lemma borrowLeft_ok n prev node ss1 y cs1 c ss2 cs2 seps cs x div :
  inner_node t node (ss1 ++ [y]) (cs1 ++ [c]) -> inner_node t n ss2 cs2 -> inner_node t prev seps cs ->
  seps !! (div - 1)%nat = Some x -> (0 < div)%nat -> (length ss2 < order t - 1)%nat ->
  exists n' prev' node', borrowLeft t n prev node div = Ok (n', prev', node') /\
    inner_node t n' (x :: ss2) (c :: cs2) /\ inner_node t prev' (<[(div - 1)%nat := y]> seps) cs /\ inner_node t node' ss1 cs1.
Proof using Type*.
  intros H1 H2 Hp Hx Hdiv Hlen. unfold borrowLeft. rewrite (in_count _ _ _ _ H1), (in_count _ _ _ _ H2).
  pose proof (in_keys _ _ _ _ H1) as Lk1. pose proof (in_array _ _ _ _ H1) as Lc1. pose proof (in_children _ _ _ _ H1) as Lcs1.
  pose proof (in_keys _ _ _ _ H2) as Lk2. pose proof (in_array _ _ _ _ H2) as Lc2. pose proof (in_children _ _ _ _ H2) as Lcs2.
  pose proof (in_max _ _ _ _ H1) as Hmax. pose proof (po_order _ Ht) as HO. pose proof (lookup_lt_Some _ _ _ Hx) as Hlt.
  rewrite !length_app in *. cbn [length] in *.
  destruct (shift_right_spec (keys n) (length ss2)) as (ks & -> & Lks & Eks); [lia|]. cbn [res_bind].
  destruct (shift_right_spec (children n) (S (length ss2))) as (ch & -> & Lch & Ech); [lia|]. cbn [res_bind].
  rewrite (res_nth_lookup (keys prev) _ x) by (by rewrite (in_key _ _ _ _ Hp)). cbn [res_bind].
  rewrite arr_set_ok by lia. cbn [res_bind].
  rewrite (res_nth_lookup (children node) _ c).
  2:{ rewrite (in_child _ _ _ _ H1) by (rewrite length_app; simpl; lia). rewrite lookup_app_r by lia.
      by replace (length ss1 + 1 - length cs1)%nat with 0%nat by lia. }
  cbn [res_bind]. rewrite arr_set_ok by lia. cbn [res_bind].
  rewrite (res_nth_lookup (keys node) _ y).
  2:{ rewrite (in_key _ _ _ _ H1) by (rewrite length_app; simpl; lia). rewrite lookup_app_r by lia.
      by replace (length ss1 + 1 - 1 - length ss1)%nat with 0%nat by lia. }
  cbn [res_bind]. pose proof (in_valid _ _ _ _ H1) as [Hv1 [Hy _]%list.Forall_cons]%list.Forall_app.
  destruct (set_sep_ok prev seps cs (div - 1) y Hp Hlt Hy) as (pks & -> & Hp'). cbn [res_bind].
  rewrite arr_set_ok by lia. cbn [res_bind]. rewrite arr_set_ok by lia. cbn [res_bind].
  assert (Hvx : vkey (s_key t) x) by (pose proof (in_valid _ _ _ _ Hp) as Hv; rewrite list.Forall_forall in Hv; apply Hv, list_elem_of_lookup; eauto).
  eexists _, _, _. split; [done|]. split; [|split; [done|]].
  - split; simpl; rewrite ?length_insert; [apply H2|lia|lia|lia|lia|lia| | |].
    + intros j Hj. rewrite list_lookup_insert, Eks. destruct j as [|j]; [by decide_lia|]. decide_lia. simpl. rewrite Nat.sub_0_r. apply H2. lia.
    + intros j Hj. rewrite list_lookup_insert, Ech. destruct j as [|j]; [by decide_lia|]. decide_lia. simpl. rewrite Nat.sub_0_r. apply H2. lia.
    + constructor; [done|apply H2].
  - split; simpl; rewrite ?length_insert; [apply H1|lia|lia|lia|lia|lia| | |done].
    + intros j Hj. rewrite list_lookup_insert. decide_lia. rewrite (in_key _ _ _ _ H1) by (rewrite length_app; lia). by rewrite lookup_app_l.
    + intros j Hj. rewrite list_lookup_insert. decide_lia. rewrite (in_child _ _ _ _ H1) by (rewrite length_app; lia). by rewrite lookup_app_l.
Qed.

Lemma absorbNode_ok n node ss1 cs1 ss2 cs2 x :
  inner_node t n ss1 cs1 -> inner_node t node ss2 cs2 -> vkey (s_key t) x -> (length ss1 + length ss2 < order t - 1)%nat ->
  exists n', absorbNode n node x = Ok n' /\ inner_node t n' (ss1 ++ x :: ss2) (cs1 ++ cs2).
Proof using Type*.
  intros H1 H2 Hx Hlen. unfold absorbNode. rewrite (in_count _ _ _ _ H1), (in_count _ _ _ _ H2).
  pose proof (in_keys _ _ _ _ H1) as Lk1. pose proof (in_array _ _ _ _ H1) as Lc1. pose proof (in_children _ _ _ _ H1) as Lcs1.
  pose proof (in_keys _ _ _ _ H2) as Lk2. pose proof (in_array _ _ _ _ H2) as Lc2. pose proof (in_children _ _ _ _ H2) as Lcs2.
  pose proof (po_order _ Ht) as HO. rewrite arr_set_ok by lia. cbn [res_bind].
  destruct (copy_in_spec (<[length ss1:=x]> (keys n)) (keys node) (S (length ss1)) 0 (length ss2)) as (ks & -> & Lks & Eks);
    [rewrite length_insert; lia|lia|]. cbn [res_bind]. rewrite length_insert in Lks.
  destruct (copy_in_spec (children n) (children node) (S (length ss1)) 0 (length ss2)) as (ch & -> & Lch & Ech); [lia..|]. cbn [res_bind].
  destruct (lookup_lt_is_Some_2 cs2 (length ss2)) as [z Hz]; [lia|].
  rewrite (res_nth_lookup (children node) _ z) by (by rewrite (in_child _ _ _ _ H2) by lia). cbn [res_bind].
  rewrite arr_set_ok by lia. cbn [res_bind]. eexists. split; [done|].
  split; simpl; rewrite ?length_insert, ?length_app; simpl; [apply H1|lia|lia|lia|lia|lia| | |].
  - intros j Hj. rewrite Eks, list_lookup_insert. destruct (decide (j < length ss1)%nat); [|destruct (decide (j = length ss1)) as [->|]]; decide_lia.
    + rewrite lookup_app_l by lia. apply H1. lia.
    + by rewrite lookup_app_r, Nat.sub_diag by lia.
    + rewrite lookup_app_r by lia. replace (j - length ss1)%nat with (S (j - S (length ss1))) by lia. rewrite Nat.add_0_r. simpl. apply H2. lia.
  - intros j Hj. rewrite list_lookup_insert, Ech. destruct (decide (j < length cs1)%nat); [|destruct (decide (j < length cs1 + length ss2)%nat)]; decide_lia.
    + rewrite lookup_app_l by lia. apply H1. lia.
    + rewrite lookup_app_r by lia. rewrite Lcs1, Nat.add_0_r. apply H2. lia.
    + rewrite lookup_app_r by lia. rewrite <- Hz. f_equal. lia.
  - apply Forall_app_2; [apply H1|]. constructor; [done|apply H2].
Qed.

End remove.
