(* ===== verification/BTreeRows.v ===== *)
(** * Neighbouring subtrees of a B+-tree

    Deletion moves entries between a subtree and its neighbour, or makes one of
    two.  A pair of neighbours is taken out of a row and replaced by what
    covers the same keys; and what a subtree represents is unique. *)

From stdpp Require Import sorting.
From S2P Require Import Prelude BTree BTreeRep BTreeSearch BTreeNodes BTreeRemove.
From stdpp Require Import options.

Set Default Goal Selector "!".

Section rows.
Context (t : btree) (Ht : params_ok t).

Abbreviation vopt := (from_option (vkey (s_key t)) True).

(** ** What a subtree represents *)

Lemma leaf_node_unique n l1 nx1 l2 nx2 : leaf_node t n l1 nx1 -> leaf_node t n l2 nx2 -> l1 = l2 /\ nx1 = nx2.
Proof using Type.
  intros H1 H2. pose proof (lf_count _ _ _ _ H1) as C1. pose proof (lf_count _ _ _ _ H2) as C2.
  assert (El : l1 = l2).
  { apply list_eq. intros i. destruct (decide (i < length l1)%nat) as [Hi|Hi].
    - pose proof (lf_key _ _ _ _ H1 i Hi) as K1. pose proof (lf_key _ _ _ _ H2 i ltac:(lia)) as K2.
      pose proof (lf_value _ _ _ _ H1 i Hi) as V1. pose proof (lf_value _ _ _ _ H2 i ltac:(lia)) as V2.
      destruct (lookup_lt_is_Some_2 l1 i Hi) as [[k1 v1] E1]. destruct (lookup_lt_is_Some_2 l2 i ltac:(lia)) as [[k2 v2] E2].
      rewrite E1 in K1, V1 |- *. rewrite E2 in K2, V2 |- *. simpl in *. congruence.
    - rewrite !lookup_ge_None_2 by lia. done. }
  split; [done|]. subst l2. pose proof (lf_next _ _ _ _ H1) as N1. pose proof (lf_next _ _ _ _ H2) as N2. congruence.
Qed.

Lemma inner_node_unique n s1 c1 s2 c2 : inner_node t n s1 c1 -> inner_node t n s2 c2 -> s1 = s2 /\ c1 = c2.
Proof using Type.
  intros H1 H2. pose proof (in_count _ _ _ _ H1) as C1. pose proof (in_count _ _ _ _ H2) as C2.
  pose proof (in_children _ _ _ _ H1) as D1. pose proof (in_children _ _ _ _ H2) as D2. split; apply list_eq; intros i.
  - destruct (decide (i < length s1)%nat) as [Hi|Hi]; [|rewrite !lookup_ge_None_2 by lia; done].
    by rewrite <- (in_key _ _ _ _ H1 i), <- (in_key _ _ _ _ H2 i) by lia.
  - destruct (decide (i < length c1)%nat) as [Hi|Hi]; [|rewrite !lookup_ge_None_2 by lia; done].
    by rewrite <- (in_child _ _ _ _ H1 i), <- (in_child _ _ _ _ H2 i) by lia.
Qed.

Lemma reps_unique (R R' : Z -> gset Z -> list kv -> Z -> Z -> Prop) :
  (forall c D kvs f nx D' kvs' f' nx', R c D kvs f nx -> R' c D' kvs' f' nx' -> D = D' /\ kvs = kvs' /\ f = f' /\ nx = nx') ->
  forall lo hi lo' hi' cs ks D kvs f nx D' kvs' f' nx',
  reps R lo hi cs ks D kvs f nx -> reps R' lo' hi' cs ks D' kvs' f' nx' -> D = D' /\ kvs = kvs' /\ f = f' /\ nx = nx'.
Proof using Type.
  intros HR lo hi lo' hi' cs ks D kvs f nx D' kvs' f' nx' H. revert lo' hi' D' kvs' f' nx'.
  induction H as [lo hi c D kvs f nx Hc Hw|lo hi c cs k ks D1 D2 kvs1 kvs2 f m nx Hc Hw Ha Hb Hr IH Hd]; intros lo' hi' D' kvs' f' nx' H'.
  - apply reps_inv in H' as [(c' & [= <-] & _ & Hc' & _)|(? & ? & ? & ? & ? & ? & ? & ? & ? & _ & ? & _)]; [by eapply HR|done].
  - apply reps_inv in H' as [(c' & _ & ? & _)|(c' & cs' & k' & ks' & E1 & E2 & l1 & l2 & m' & [= <- <-] & [= <- <-] & -> & -> & Hc' & _ & _ & _ & Hr' & _)]; [done|].
    destruct (HR _ _ _ _ _ _ _ _ _ Hc Hc') as (-> & -> & -> & ->). destruct (IH _ _ _ _ _ _ Hr') as (-> & -> & _ & ->). done.
Qed.

Lemma rep_unique nd h c D kvs f nx D' kvs' f' nx' :
  rep t nd h c D kvs f nx -> rep t nd h c D' kvs' f' nx' -> D = D' /\ kvs = kvs' /\ f = f' /\ nx = nx'.
Proof using Type.
  revert c D kvs f nx D' kvs' f' nx'. induction h as [|h IH]; intros c D kvs f nx D' kvs' f' nx'; simpl.
  - intros (n & Hn & Hl & -> & ->) (n' & Hn' & Hl' & -> & ->). rewrite Hn in Hn'. injection Hn' as <-.
    destruct (leaf_node_unique _ _ _ _ _ Hl Hl') as [-> ->]. done.
  - intros (n & ss & cs & E & Hn & Hi & -> & _ & Hr) (n' & ss' & cs' & E' & Hn' & Hi' & -> & _ & Hr'). rewrite Hn in Hn'. injection Hn' as <-.
    destruct (inner_node_unique _ _ _ _ _ Hi Hi') as [<- <-].
    assert (H : E = E' /\ kvs = kvs' /\ f = f' /\ nx = nx') by
      (revert Hr Hr'; apply reps_unique; intros c0 D0 l0 f0 n0 D1 l1 f1 n1 [H0 _] [H1 _]; by eapply IH).
    destruct H as (-> & -> & -> & ->). done.
Qed.

(** ** Rows *)

Lemma child_sorted nd h c D kvs f nx : child t nd h c D kvs f nx -> Forall (vkv t) kvs /\ sorted kvs.
Proof using Type. apply child_ok. Qed.

Lemma child_ne nd h c D kvs f nx : child t nd h c D kvs f nx -> kvs <> [].
Proof using Type*. by apply child_nonempty. Qed.

(** A row has the bounds that its keys have. *)
Lemma reps_up R lo hi cs ks D kvs f nx : reps R lo hi cs ks D kvs f nx -> reps R lo None cs ks D kvs f nx.
Proof using Type.
  induction 1 as [? ? ? ? ? ? ? Hc Hw|]; [|by eapply reps_cons]. apply reps_one; [done|].
  eapply list.Forall_impl; [exact Hw|]. by intros ? [? _].
Qed.

Lemma reps_narrow nd h lo hi lo0 hi0 cs ks D kvs f nx :
  reps (child t nd h) lo0 hi0 cs ks D kvs f nx -> Forall (vkey (s_key t)) ks -> vopt lo -> vopt hi -> within lo hi kvs ->
  reps (child t nd h) lo hi cs ks D kvs f nx.
Proof using Type*.
  intros H. revert lo hi. induction H as [lo0 hi0 c D kvs f nx Hc Hw|lo0 hi0 c cs k ks D1 D2 kvs1 kvs2 f m nx Hc Hw Ha Hb Hr IH Hd];
    intros lo hi Hks Hlo Hhi Hwi; [by constructor|].
  apply list.Forall_cons in Hks as [Hk Hks]. apply within_app in Hwi as [Hw1 Hw2].
  assert (Hr' : reps (child t nd h) (Some k) None cs ks D2 kvs2 m nx).
  { by eapply reps_up. }
  assert (Hw2' : within (Some k) hi kvs2).
  { pose proof (reps_within t _ (child_sorted nd h) _ _ _ _ _ _ _ _ Hr' Hks Hk I) as H. unfold within in *. rewrite list.Forall_forall in *.
    intros e He. split; [by apply H|by apply Hw2]. }
  assert (Hw1' : within lo (Some k) kvs1).
  { unfold within in *. rewrite list.Forall_forall in *. intros e He. split; [by apply Hw1|by apply Hw]. }
  eapply reps_cons; [exact Hc|exact Hw1'| | |by apply (IH (Some k) hi)|done].
  - eapply (within_bounds t); [exact Hw1'|by eapply child_ne|by eapply child_sorted|done..].
  - destruct hi as [y|]; [|done]. simpl. apply klt_kle. eapply (within_bounds t (Some k) y kvs2); [exact Hw2'| | |exact Hhi|exact Hk].
    + exact (reps_nonempty _ (child_ne nd h) _ _ _ _ _ _ _ _ Hr').
    + exact (reps_valid t _ (child_sorted nd h) _ _ _ _ _ _ _ _ Hr').
Qed.

(** Two rows next to each other make one. *)
Lemma rows_join nd h lo hi x cs1 ks1 D1 kvs1 f m cs2 ks2 D2 kvs2 nx :
  reps (child t nd h) None None cs1 ks1 D1 kvs1 f m -> reps (child t nd h) None None cs2 ks2 D2 kvs2 m nx -> D1 ## D2 ->
  Forall (vkey (s_key t)) ks1 -> Forall (vkey (s_key t)) ks2 -> vkey (s_key t) x -> vopt lo -> vopt hi ->
  within lo (Some x) kvs1 -> within (Some x) hi kvs2 ->
  reps (child t nd h) lo hi (cs1 ++ cs2) (ks1 ++ x :: ks2) (D1 ∪ D2) (kvs1 ++ kvs2) f nx.
Proof using Type*.
  intros H1 H2 HD Hk1 Hk2 Hx Hlo Hhi Hw1 Hw2.
  pose proof (reps_narrow _ _ lo (Some x) _ _ _ _ _ _ _ _ H1 Hk1 Hlo Hx Hw1) as R1.
  assert (Hw2' : within (Some x) None kvs2) by (eapply list.Forall_impl; [exact Hw2|]; by intros e [? _]).
  pose proof (reps_narrow _ _ (Some x) None _ _ _ _ _ _ _ _ H2 Hk2 Hx I Hw2') as R2.
  pose proof (reps_join t _ (child_sorted nd h) (child_ne nd h) _ _ _ _ _ _ _ _ _ _ _ _ _ R1 R2 HD Hk1 Hx Hlo) as J.
  eapply reps_narrow; [exact J| |done|done|].
  - apply Forall_app_2; [done|by constructor].
  - assert (Hne1 : kvs1 <> []) by exact (reps_nonempty _ (child_ne nd h) _ _ _ _ _ _ _ _ H1).
    assert (Hne2 : kvs2 <> []) by exact (reps_nonempty _ (child_ne nd h) _ _ _ _ _ _ _ _ H2).
    pose proof (reps_valid t _ (child_sorted nd h) _ _ _ _ _ _ _ _ H1) as V1. pose proof (reps_valid t _ (child_sorted nd h) _ _ _ _ _ _ _ _ H2) as V2.
    pose proof (within_bounds t lo x kvs1 Hw1 Hne1 V1 Hx Hlo) as Hlox.
    apply within_app. split.
    + eapply (within_below t _ _ x); [done..| |exact Hw1]. destruct hi as [y|]; [|done]. apply klt_kle. by apply (within_bounds t (Some x) y kvs2 Hw2).
    + by eapply (within_above t _ _ x).
Qed.

(** ** Part of a row *)

(** The children from the [a]-th on with the [w] separators between them, the
    rest of the row, and that anything with the same bounds can take their
    place. *)
Lemma reps_segment nd h cs ks D kvs f nx a w :
  reps (child t nd h) None None cs ks D kvs f nx -> Forall (vkey (s_key t)) ks -> (a + w <= length ks)%nat ->
  exists Ds Do pre ls suf fs ns lo hi,
    reps (child t nd h) lo hi (take (S w) (drop a cs)) (take w (drop a ks)) Ds ls fs ns /\
    D = Ds ∪ Do /\ Ds ## Do /\ kvs = pre ++ ls ++ suf /\ vopt lo /\ vopt hi /\
    forall nd' cs' ks' D' ls', (forall o, o ∈ Do -> nd' !! o = nd !! o) ->
      reps (child t nd' h) lo hi cs' ks' D' ls' fs ns -> Forall (vkey (s_key t)) ks' -> D' ## Do ->
      reps (child t nd' h) None None (take a cs ++ cs' ++ drop (S w) (drop a cs)) (take a ks ++ ks' ++ drop w (drop a ks))
        (D' ∪ Do) (pre ++ ls' ++ suf) f nx.
Proof using Type*.
  intros Hr Hks Hle. pose proof (reps_lengths _ _ _ _ _ _ _ _ _ Hr) as Hlen.
  destruct (reps_split _ _ _ _ _ _ _ _ _ a Hr ltac:(lia)) as (D1 & D2 & pre & l2 & m & lo & Hl & Hr2 & -> & Hd & ->).
  assert (Hkt : Forall (vkey (s_key t)) (take a ks)) by (by apply Forall_take).
  assert (Hkd : Forall (vkey (s_key t)) (drop a ks)) by (by apply Forall_drop).
  destruct (lseg_seps t _ (child_sorted nd h) (child_ne nd h) _ _ _ _ _ _ _ _ _ Hl Hkt I) as [Hlo _].
  destruct (drop a ks !! w) as [x|] eqn:Ex.
  - destruct (reps_cut t _ (child_sorted nd h) (child_ne nd h) _ _ _ _ _ _ _ _ w x Hr2 Ex Hkd Hlo)
      as (E1 & E2 & l1 & l3 & m' & Hs & Hrest & -> & HE & ->).
    assert (Hvx : vkey (s_key t) x) by (rewrite list.Forall_forall in Hkd; apply Hkd, list_elem_of_lookup; eauto).
    exists E1, (D1 ∪ E2), pre, l1, l3, m, m', lo, (Some x). split_and!; [done|set_solver|set_solver|done|done|done|].
    intros nd' cs' ks' D' ls' Hnd Hr' Hks' HD'. replace (D' ∪ (D1 ∪ E2)) with (D1 ∪ (D' ∪ E2)) by set_solver.
    rewrite (drop_S _ _ _ Ex). eapply reps_app.
    + eapply lseg_impl; [|exact Hl]. intros c0 D0 kvs0 f0 nx0 Hsub. apply child_frame. intros o Ho. apply Hnd. set_solver.
    + eapply (reps_join t _ (child_sorted nd' h) (child_ne nd' h)); [exact Hr'| |set_solver|done..]. eapply reps_impl; [|exact Hrest].
      intros c0 D0 kvs0 f0 nx0 Hsub. apply child_frame. intros o Ho. apply Hnd. set_solver.
    + set_solver.
  - apply lookup_ge_None in Ex. rewrite length_drop in Ex. assert (Ew : w = (length ks - a)%nat) by lia.
    assert (T1 : take (S w) (drop a cs) = drop a cs) by (apply take_ge; rewrite length_drop; lia).
    assert (T2 : take w (drop a ks) = drop a ks) by (apply take_ge; rewrite length_drop; lia).
    exists D2, D1, pre, l2, [], m, nx, lo, None. rewrite T1, T2, app_nil_r. split_and!; [done|set_solver|set_solver|done|done|done|].
    intros nd' cs' ks' D' ls' Hnd Hr' Hks' HD'. rewrite (drop_ge (drop a cs)), (drop_ge (drop a ks)) by (rewrite length_drop; lia).
    rewrite !app_nil_r. rewrite (comm_L (∪)). eapply reps_app; [|exact Hr'|set_solver].
    eapply lseg_impl; [|exact Hl]. intros c0 D0 kvs0 f0 nx0 Hsub. apply child_frame. intros o Ho. apply Hnd. set_solver.
Qed.

(** ** Two neighbours *)

Definition min_of (n : btree_node) : nat := if is_leaf n then min_leaf t else min_intrn t.

Lemma min_leaf_half : (2 * min_leaf t <= LEAF_ORDER t /\ 1 <= min_leaf t)%nat.
Proof using Type*.
  pose proof (min_leaf_pos t Ht). rewrite (po_min_leaf _ Ht) in *. split; [|lia].
  destruct (half (LEAF_ORDER t)) as (q & r & Hq & Hr & Hq1 & _). rewrite Hq1. lia.
Qed.

Lemma min_intrn_half : (2 * min_intrn t <= order t - 1 /\ 1 <= min_intrn t)%nat.
Proof using Type*.
  rewrite (po_min_intrn _ Ht). pose proof (po_order _ Ht). destruct (half (order t)) as (q & r & Hq & Hr & _ & Hq2). rewrite Hq2. lia.
Qed.

Section pair.
Context (nd : gmap Z btree_node) (c1 c2 : Z) (n1 n2 : btree_node) (Hn1 : nd !! c1 = Some n1) (Hn2 : nd !! c2 = Some n2).
Context (prev : btree_node) (seps : list key) (cs : list Z) (Hprev : inner_node t prev seps cs).
Context (a : nat) (x : key) (Hx : seps !! a = Some x).
Context (lo hi : option key) (Hlo : vopt lo) (Hhi : vopt hi) (Hax : above lo x) (Hbx : below hi x).

Lemma sep_valid : vkey (s_key t) x.
Proof using Hprev Hx. pose proof (in_valid _ _ _ _ Hprev) as Hv. rewrite list.Forall_forall in Hv. apply Hv, list_elem_of_lookup. eauto. Qed.

Lemma pair_within l1 l2 :
  Forall (vkv t) l1 -> Forall (vkv t) l2 -> within lo (Some x) l1 -> within (Some x) hi l2 -> within lo hi (l1 ++ l2).
Proof using Hprev Hx Hlo Hhi Hax Hbx.
  intros V1 V2 W1 W2. pose proof sep_valid as Hvx. apply within_app. split; [by eapply (within_below t _ _ x)|by eapply (within_above t _ _ x)].
Qed.

Lemma pair_sorted l1 l2 :
  Forall (vkv t) l1 -> Forall (vkv t) l2 -> sorted l1 -> sorted l2 -> within lo (Some x) l1 -> within (Some x) hi l2 -> sorted (l1 ++ l2).
Proof using Hprev Hx.
  intros V1 V2 S1 S2 W1 W2. apply sorted_app. split_and!; [done..|]. eapply (within_klt t); [done|done|exact sep_valid|exact W1|exact W2].
Qed.

(** *** Leaves *)

Section leaves.
Context (l1 l2 : list kv) (nx : Z) (H1 : leaf_node t n1 l1 c2) (H2 : leaf_node t n2 l2 nx).
Context (Hw1 : within lo (Some x) l1) (Hw2 : within (Some x) hi l2) (Hne : c1 <> c2).

(** The two leaves with other halves of their entries. *)
Lemma leaf_pair nd2 n1' n2' k1 k2 e :
  nd2 !! c1 = Some n1' -> nd2 !! c2 = Some n2' -> leaf_node t n1' k1 c2 -> leaf_node t n2' k2 nx ->
  l1 ++ l2 = k1 ++ k2 -> (min_leaf t <= length k1)%nat -> (min_leaf t <= length k2)%nat ->
  e ∈ k1 ++ k2 -> Forall (fun e' => kle e'.1 e.1) k1 -> Forall (fun e' => klt e.1 e'.1) k2 ->
  reps (child t nd2 0) lo hi [c1; c2] [e.1] ({[c1]} ∪ {[c2]}) (l1 ++ l2) c1 nx.
Proof using Type*.
  intros E1 E2 L1 L2 E M1 M2 He F1 F2.
  pose proof (pair_within l1 l2 (lf_valid _ _ _ _ H1) (lf_valid _ _ _ _ H2) Hw1 Hw2) as Hw. rewrite E in Hw |- *.
  assert (Hbe : above lo e.1 /\ below hi e.1) by (unfold within in Hw; rewrite list.Forall_forall in Hw; by apply Hw).
  apply within_app in Hw as [Hk1 Hk2]. unfold within in Hk1, Hk2. rewrite list.Forall_forall in F1, F2, Hk1, Hk2.
  eapply reps_cons; [|apply list.Forall_forall|apply Hbe|apply Hbe|apply reps_one; [|apply list.Forall_forall]|set_solver].
  - split; [exists n1'; by split_and!|]. exists n1'. split; [done|]. by rewrite (lf_leaf _ _ _ _ L1), (lf_count _ _ _ _ L1).
  - intros e' He'. split; [by apply Hk1|by apply F1].
  - split; [exists n2'; by split_and!|]. exists n2'. split; [done|]. by rewrite (lf_leaf _ _ _ _ L2), (lf_count _ _ _ _ L2).
  - intros e' He'. split; [by apply F2|by apply Hk2].
Qed.

Lemma leaves_sorted : sorted (l1 ++ l2).
Proof using Type*. apply pair_sorted; [apply H1|apply H2|apply H1|apply H2|done|done]. Qed.

Lemma leaf_right :
  (S (length l1) = min_leaf t)%nat -> (min_leaf t < length l2)%nat ->
  exists n1' prev' n2' y, borrowRightLeaf t n1 prev n2 a = Ok (n1', prev', n2') /\ inner_node t prev' (<[a := y]> seps) cs /\ vkey (s_key t) y /\
    forall nd2, nd2 !! c1 = Some n1' -> nd2 !! c2 = Some n2' ->
      reps (child t nd2 0) lo hi [c1; c2] [y] ({[c1]} ∪ {[c2]}) (l1 ++ l2) c1 nx.
Proof using Type*.
  intros M1 M2. destruct min_leaf_half as [Mh Mp]. assert (Hl2 : exists e l, l2 = e :: l) by (clear -M2; destruct l2 as [|e l]; [simpl in M2; lia|by exists e, l]).
  destruct Hl2 as (e & l2' & El2). pose proof leaves_sorted as Hs'. pose proof H2 as H2'. rewrite El2 in M2, Hs', H2'. simpl in M2.
  destruct (borrowRightLeaf_ok t Ht n1 prev n2 l1 e l2' seps cs c2 nx a H1 H2' Hprev (lookup_lt_Some _ _ _ Hx) ltac:(lia) Hs')
    as (n1' & prev' & n2' & E & L1 & Hp & L2).
  exists n1', prev', n2', e.1. split_and!; [done..| |].
  - by pose proof (lf_valid _ _ _ _ H2') as [[? _] _]%list.Forall_cons.
  - intros nd2 E1 E2. apply sorted_app in Hs' as (_ & S2 & S12). apply (sorted_app [e]) in S2 as (_ & _ & S2).
    eapply (leaf_pair nd2 n1' n2' (l1 ++ [e]) l2'); [done..| | | | | |].
    + rewrite El2. by rewrite <- app_assoc.
    + rewrite length_app. simpl. lia.
    + lia.
    + set_solver.
    + apply list.Forall_forall. intros e' [He'|He'%list_elem_of_singleton]%elem_of_app; [apply klt_kle, S12; [done|set_solver]|]. subst e'. apply kle_refl.
    + apply list.Forall_forall. intros e' He'. apply S2; [set_solver|done].
Qed.

Lemma leaf_left :
  (min_leaf t < length l1)%nat -> (S (length l2) = min_leaf t)%nat ->
  exists n2' prev' n1' y, borrowLeftLeaf t n2 prev n1 (S a) = Ok (n2', prev', n1') /\ inner_node t prev' (<[a := y]> seps) cs /\ vkey (s_key t) y /\
    forall nd2, nd2 !! c1 = Some n1' -> nd2 !! c2 = Some n2' ->
      reps (child t nd2 0) lo hi [c1; c2] [y] ({[c1]} ∪ {[c2]}) (l1 ++ l2) c1 nx.
Proof using Type*.
  intros M1 M2. destruct min_leaf_half as [Mh Mp]. pose proof (lookup_lt_Some _ _ _ Hx) as Hlt.
  assert (Hl1 : exists l y e, l1 = l ++ [y; e]).
  { clear -M1 Mp. destruct l1 as [|e l _] using rev_ind; [simpl in M1; lia|]. destruct l as [|y l _] using rev_ind; [simpl in M1; lia|].
    exists l, y, e. by rewrite <- app_assoc. }
  destruct Hl1 as (l & y & e & El1). pose proof leaves_sorted as Hs'. pose proof H1 as H1'. rewrite El1 in H1', Hs'.
  destruct (borrowLeftLeaf_ok t Ht n2 prev n1 l y e l2 seps cs c2 nx (S a) H1' H2 Hprev ltac:(lia) ltac:(lia) Hs')
    as (n2' & prev' & n1' & E & L2 & Hp & L1). simpl in Hp. rewrite Nat.sub_0_r in Hp.
  replace ((l ++ [y; e]) ++ l2) with ((l ++ [y]) ++ e :: l2) in Hs' by (by rewrite <- !app_assoc).
  apply sorted_app in Hs' as (S1 & S2 & S12). apply sorted_app in S1 as (_ & _ & S1).
  exists n2', prev', n1', y.1. split_and!; [done..| |].
  - pose proof (lf_valid _ _ _ _ H1') as [_ [[? _] _]%list.Forall_cons]%list.Forall_app. done.
  - intros nd2 E1 E2. eapply (leaf_pair nd2 n1' n2' (l ++ [y]) (e :: l2)); [done..| | | | | |].
    + rewrite El1. by rewrite <- !app_assoc.
    + rewrite El1, length_app in M1. simpl in M1. rewrite length_app. simpl. lia.
    + simpl. lia.
    + set_solver.
    + apply list.Forall_forall. intros e' [He'|He'%list_elem_of_singleton]%elem_of_app; [apply klt_kle, S1; [done|set_solver]|]. subst e'. apply kle_refl.
    + apply list.Forall_forall. intros e' He'. apply S12; [set_solver|done].
Qed.

Lemma leaf_merge :
  (length l1 + length l2 < 2 * min_leaf t)%nat -> (min_leaf t <= length l1 + length l2)%nat ->
  exists n1', absorbLeaf n1 n2 = Ok n1' /\ forall nd2, nd2 !! c1 = Some n1' -> reps (child t nd2 0) lo hi [c1] [] {[c1]} (l1 ++ l2) c1 nx.
Proof using Type*.
  intros M1 M2. destruct min_leaf_half as [Mh Mp].
  destruct (absorbLeaf_ok t Ht n1 n2 l1 l2 c2 nx H1 H2 ltac:(lia) leaves_sorted) as (n1' & E & L). exists n1'. split; [done|].
  intros nd2 E1. apply reps_one; [|apply pair_within; [apply H1|apply H2|done|done]].
  split; [exists n1'; by split_and!|]. exists n1'. split; [done|]. by rewrite (lf_leaf _ _ _ _ L), (lf_count _ _ _ _ L), length_app.
Qed.
End leaves.

(** *** Inner nodes *)

Section inners.
Context (h : nat) (ss1 ss2 : list key) (cs1 cs2 : list Z) (E1 E2 : gset Z) (l1 l2 : list kv) (f m nx : Z).
Context (H1 : inner_node t n1 ss1 cs1) (R1 : reps (child t nd h) None None cs1 ss1 E1 l1 f m).
Context (H2 : inner_node t n2 ss2 cs2) (R2 : reps (child t nd h) None None cs2 ss2 E2 l2 m nx).
Context (Hd : E1 ## E2) (Hc1 : c1 ∉ E1 ∪ E2) (Hc2 : c2 ∉ E1 ∪ E2) (Hne : c1 <> c2).
Context (Hw1 : within lo (Some x) l1) (Hw2 : within (Some x) hi l2).

Lemma inner_joined : reps (child t nd h) lo hi (cs1 ++ cs2) (ss1 ++ x :: ss2) (E1 ∪ E2) (l1 ++ l2) f nx.
Proof using Type*. eapply rows_join; [exact R1|exact R2|done|apply H1|apply H2|exact sep_valid|done..]. Qed.

Lemma joined_valid : Forall (vkey (s_key t)) (ss1 ++ x :: ss2).
Proof using Type*. apply Forall_app_2; [apply H1|]. constructor; [exact sep_valid|apply H2]. Qed.

(** The two nodes with other halves of the row. *)
Lemma inner_pair nd2 n1' n2' d y :
  nd2 !! c1 = Some n1' -> nd2 !! c2 = Some n2' -> (forall o, o ∈ E1 ∪ E2 -> nd2 !! o = nd !! o) ->
  inner_node t n1' (take d (ss1 ++ x :: ss2)) (take (S d) (cs1 ++ cs2)) ->
  inner_node t n2' (drop (S d) (ss1 ++ x :: ss2)) (drop (S d) (cs1 ++ cs2)) -> (ss1 ++ x :: ss2) !! d = Some y ->
  (min_intrn t <= length (take d (ss1 ++ x :: ss2)))%nat -> (min_intrn t <= length (drop (S d) (ss1 ++ x :: ss2)))%nat ->
  reps (child t nd2 (S h)) lo hi [c1; c2] [y] (({[c1]} ∪ E1) ∪ ({[c2]} ∪ E2)) (l1 ++ l2) f nx.
Proof using Type*.
  intros N1 N2 Hnd I1 I2 Hy M1 M2. pose proof inner_joined as J. pose proof joined_valid as HV.
  assert (Hvy : vkey (s_key t) y) by (rewrite list.Forall_forall in HV; apply HV, list_elem_of_lookup; eauto).
  destruct (reps_cut t _ (child_sorted nd h) (child_ne nd h) _ _ _ _ _ _ _ _ d y J Hy HV Hlo)
    as (F1 & F2 & k1 & k2 & m' & Q1 & Q2 & EF & HF & Ek). rewrite Ek.
  replace (({[c1]} ∪ E1) ∪ ({[c2]} ∪ E2)) with (({[c1]} ∪ F1) ∪ ({[c2]} ∪ F2) : gset Z) by set_solver.
  pose proof (reps_within t _ (child_sorted nd h) _ _ _ _ _ _ _ _ Q1 (in_valid _ _ _ _ I1) Hlo Hvy) as W1.
  pose proof (reps_within t _ (child_sorted nd h) _ _ _ _ _ _ _ _ Q2 (in_valid _ _ _ _ I2) Hvy Hhi) as W2.
  pose proof (reps_valid t _ (child_sorted nd h) _ _ _ _ _ _ _ _ Q1) as V1. pose proof (reps_valid t _ (child_sorted nd h) _ _ _ _ _ _ _ _ Q2) as V2.
  eapply reps_cons; [|exact W1| | |apply reps_one; [|exact W2]|set_solver].
  - split; [|eapply inner_filled; [exact N1|exact I1|done]].
    eapply rep_row; [exact N1|exact I1|exact Q1|set_solver|]. intros o Ho. apply Hnd. set_solver.
  - eapply (within_bounds t); [exact W1|exact (reps_nonempty _ (child_ne nd h) _ _ _ _ _ _ _ _ Q1)|done..].
  - destruct hi as [z|]; [|done]. apply klt_kle.
    eapply (within_bounds t (Some y) z); [exact W2|exact (reps_nonempty _ (child_ne nd h) _ _ _ _ _ _ _ _ Q2)|done..].
  - split; [|eapply inner_filled; [exact N2|exact I2|done]].
    eapply rep_row; [exact N2|exact I2|exact Q2|set_solver|]. intros o Ho. apply Hnd. set_solver.
Qed.

Lemma inner_right :
  (S (length ss1) = min_intrn t)%nat -> (min_intrn t < length ss2)%nat ->
  exists n1' prev' n2' y, borrowRight t n1 prev n2 a = Ok (n1', prev', n2') /\ inner_node t prev' (<[a := y]> seps) cs /\ vkey (s_key t) y /\
    forall nd2, nd2 !! c1 = Some n1' -> nd2 !! c2 = Some n2' -> (forall o, o ∈ E1 ∪ E2 -> nd2 !! o = nd !! o) ->
      reps (child t nd2 (S h)) lo hi [c1; c2] [y] (({[c1]} ∪ E1) ∪ ({[c2]} ∪ E2)) (l1 ++ l2) f nx.
Proof using Type*.
  intros M1 M2. destruct min_intrn_half as [Mh Mp]. pose proof (in_children _ _ _ _ H1) as L1. pose proof (in_children _ _ _ _ H2) as L2.
  assert (Hl2 : exists y s c0 cs', ss2 = y :: s /\ cs2 = c0 :: cs').
  { clear -M2 L2. destruct ss2 as [|y s]; [simpl in M2; lia|]. destruct cs2 as [|c0 cs']; [done|]. eauto 10. }
  destruct Hl2 as (y & s2 & c0 & cs2' & Es & Ec). pose proof H2 as H2'. rewrite Es, Ec in H2'. rewrite Es in M2. simpl in M2.
  destruct (borrowRight_ok t Ht n1 prev n2 ss1 cs1 y s2 c0 cs2' seps cs x a H1 H2' Hprev Hx ltac:(lia)) as (n1' & prev' & n2' & E & I1 & Hp & I2).
  exists n1', prev', n2', y. split_and!; [done..| |].
  - by pose proof (in_valid _ _ _ _ H2') as [? _]%list.Forall_cons.
  - intros nd2 N1 N2 Hnd.
    assert (T1 : take (S (length ss1)) (ss1 ++ x :: ss2) = ss1 ++ [x]) by (rewrite <- Nat.add_1_r, take_app_add; done).
    assert (T2 : take (S (S (length ss1))) (cs1 ++ cs2) = cs1 ++ [c0]) by (rewrite <- L1, <- Nat.add_1_r, take_app_add, Ec; done).
    assert (T3 : drop (S (S (length ss1))) (ss1 ++ x :: ss2) = s2) by (rewrite <- (Nat.add_1_r (length ss1)), <- Nat.add_succ_r, drop_app_add, Es; done).
    assert (T4 : drop (S (S (length ss1))) (cs1 ++ cs2) = cs2') by (rewrite <- L1, <- Nat.add_1_r, drop_app_add, Ec; done).
    apply (inner_pair nd2 n1' n2' (S (length ss1)) y); rewrite ?T1, ?T2, ?T3, ?T4; try done.
    + rewrite lookup_app_r by lia. replace (S (length ss1) - length ss1)%nat with 1%nat by lia. by rewrite Es.
    + rewrite length_app. simpl. lia.
    + lia.
Qed.

Lemma inner_left :
  (min_intrn t < length ss1)%nat -> (S (length ss2) = min_intrn t)%nat ->
  exists n2' prev' n1' y, borrowLeft t n2 prev n1 (S a) = Ok (n2', prev', n1') /\ inner_node t prev' (<[a := y]> seps) cs /\ vkey (s_key t) y /\
    forall nd2, nd2 !! c1 = Some n1' -> nd2 !! c2 = Some n2' -> (forall o, o ∈ E1 ∪ E2 -> nd2 !! o = nd !! o) ->
      reps (child t nd2 (S h)) lo hi [c1; c2] [y] (({[c1]} ∪ E1) ∪ ({[c2]} ∪ E2)) (l1 ++ l2) f nx.
Proof using Type*.
  intros M1 M2. destruct min_intrn_half as [Mh Mp]. pose proof (in_children _ _ _ _ H1) as L1. pose proof (in_children _ _ _ _ H2) as L2.
  assert (Hl1 : exists y s c cs', ss1 = s ++ [y] /\ cs1 = cs' ++ [c]).
  { clear -M1 L1. destruct ss1 as [|y s _] using rev_ind; [simpl in M1; lia|]. destruct cs1 as [|c cs' _] using rev_ind; [done|]. eauto 10. }
  destruct Hl1 as (y & s1 & c & cs1' & Es & Ec). pose proof H1 as H1'. rewrite Es, Ec in H1'. rewrite Es, Ec, !length_app in L1. simpl in L1.
  destruct (borrowLeft_ok t Ht n2 prev n1 s1 y cs1' c ss2 cs2 seps cs x (S a) H1' H2 Hprev) as (n2' & prev' & n1' & E & I2 & Hp & I1);
    [simpl; by rewrite Nat.sub_0_r|lia|lia|]. simpl in Hp. rewrite Nat.sub_0_r in Hp.
  exists n2', prev', n1', y. split_and!; [done..| |].
  - by pose proof (in_valid _ _ _ _ H1') as [_ [? _]%list.Forall_cons]%list.Forall_app.
  - intros nd2 N1 N2 Hnd.
    assert (ES : ss1 ++ x :: ss2 = s1 ++ y :: x :: ss2) by (rewrite Es; by rewrite <- app_assoc).
    assert (EC : cs1 ++ cs2 = cs1' ++ c :: cs2) by (rewrite Ec; by rewrite <- app_assoc).
    assert (T1 : take (length s1) (ss1 ++ x :: ss2) = s1) by (rewrite ES; apply take_app_length).
    assert (T2 : take (S (length s1)) (cs1 ++ cs2) = cs1') by (rewrite EC; replace (S (length s1)) with (length cs1') by lia; apply take_app_length).
    assert (T3 : drop (S (length s1)) (ss1 ++ x :: ss2) = x :: ss2) by (rewrite ES, <- Nat.add_1_r, drop_app_add; done).
    assert (T4 : drop (S (length s1)) (cs1 ++ cs2) = c :: cs2) by (rewrite EC; replace (S (length s1)) with (length cs1') by lia; apply drop_app_length).
    apply (inner_pair nd2 n1' n2' (length s1) y); rewrite ?T1, ?T2, ?T3, ?T4; try done.
    + rewrite ES. rewrite lookup_app_r, Nat.sub_diag by lia. done.
    + rewrite Es, length_app in M1. simpl in M1. lia.
    + simpl. lia.
Qed.

Lemma inner_merge :
  (length ss1 + length ss2 < 2 * min_intrn t)%nat -> (min_intrn t <= S (length ss1 + length ss2))%nat ->
  exists n1', absorbNode n1 n2 x = Ok n1' /\
    forall nd2, nd2 !! c1 = Some n1' -> (forall o, o ∈ E1 ∪ E2 -> nd2 !! o = nd !! o) ->
      reps (child t nd2 (S h)) lo hi [c1] [] ({[c1]} ∪ (E1 ∪ E2)) (l1 ++ l2) f nx.
Proof using Type*.
  intros M1 M2. destruct min_intrn_half as [Mh Mp].
  destruct (absorbNode_ok t Ht n1 n2 ss1 cs1 ss2 cs2 x H1 H2 sep_valid ltac:(lia)) as (n1' & E & I1). exists n1'. split; [done|].
  intros nd2 N1 Hnd. pose proof inner_joined as J. apply reps_one.
  - split; [eapply rep_row; [exact N1|exact I1|exact J|set_solver|done]|]. eapply inner_filled; [exact N1|exact I1|]. rewrite length_app. simpl. lia.
  - exact (reps_within t _ (child_sorted nd h) _ _ _ _ _ _ _ _ J joined_valid Hlo Hhi).
Qed.
End inners.
End pair.
End rows.
