(* ===== verification/BTreeDelete.v ===== *)
(** * Deletion from a B+-tree

    [btree_delete] of a key that is present takes it out of the list that the
    tree represents; nodes that become less than half full take an entry from a
    sibling or are merged with it, and the tree stays well formed.  An absent
    key is refused and the tree is left alone. *)

From stdpp Require Import sorting.
From S2P Require Import Prelude BTree BTreeRep BTreeSearch BTreeNodes BTreeInsert BTreeRemove BTreeRows.
From stdpp Require Import options.

Set Default Goal Selector "!".

(** The nodes of [X] were given back, each once. *)
Definition freed (s s' : bstate) (X : gset Z) : Prop :=
  exists fr, bs_freed s' = fr ++ bs_freed s /\ NoDup fr /\ list_to_set fr = X.

Lemma freed_none s s' X : bs_freed s' = bs_freed s -> X = ∅ -> freed s s' X.
Proof. intros E ->. exists []. split_and!; [done|constructor|done]. Qed.

Lemma freed_trans s s1 s2 X Y Z : freed s s1 X -> freed s1 s2 Y -> X ## Y -> Z = X ∪ Y -> freed s s2 Z.
Proof.
  intros (f1 & E1 & N1 & L1) (f2 & E2 & N2 & L2) Hd ->. exists (f2 ++ f1). split_and!.
  - by rewrite E2, E1, app_assoc.
  - apply list.NoDup_app. split_and!; [done| |done]. intros o H2 H1. apply (Hd o); [rewrite <- L1|rewrite <- L2]; by apply elem_of_list_to_set.
  - rewrite list_to_set_app_L. set_solver.
Qed.

Section delete.
Context (t : btree) (Ht : params_ok t).

Abbreviation vopt := (from_option (vkey (s_key t)) True).

Lemma rep_is_leaf nd h c D l f nx n : rep t nd h c D l f nx -> nd !! c = Some n -> is_leaf n = (h =? 0)%nat.
Proof using Type.
  destruct h; simpl.
  - intros (n' & Hn' & Hl & _) Hn. rewrite Hn in Hn'. injection Hn' as <-. apply Hl.
  - intros (n' & ss & cs & E & Hn' & Hi & _) Hn. rewrite Hn in Hn'. injection Hn' as <-. apply Hi.
Qed.

(** ** Two neighbours, of any height *)

Section pair.
Context (nd : gmap Z btree_node) (h : nat) (c1 c2 : Z) (D1 D2 : gset Z) (l1 l2 : list kv) (f m nx : Z) (n1 n2 : btree_node).
Context (R1 : rep t nd h c1 D1 l1 f m) (R2 : rep t nd h c2 D2 l2 m nx) (Hd : D1 ## D2).
Context (Hn1 : nd !! c1 = Some n1) (Hn2 : nd !! c2 = Some n2).
Context (prev : btree_node) (seps : list key) (cs : list Z) (Hprev : inner_node t prev seps cs).
Context (a : nat) (x : key) (Hx : seps !! a = Some x).
Context (lo hi : option key) (Hlo : vopt lo) (Hhi : vopt hi) (Hax : above lo x) (Hbx : below hi x).
Context (Hw1 : within lo (Some x) l1) (Hw2 : within (Some x) hi l2).

(** The rest of the two subtrees is in place. *)
Definition same_below (nd2 : gmap Z btree_node) : Prop := forall o, o ∈ D1 ∪ D2 -> o <> c1 -> o <> c2 -> nd2 !! o = nd !! o.

Lemma pair_ne : c1 <> c2.
Proof using R1 R2 Hd. intros E. pose proof (rep_root t _ _ _ _ _ _ _ R1) as Ha. pose proof (rep_root t _ _ _ _ _ _ _ R2) as Hb. rewrite <- E in Hb. exact (Hd _ Ha Hb). Qed.

Lemma pair_right :
  (S (keyCount n1) = min_of t n1)%nat -> (min_of t n1 < keyCount n2)%nat ->
  exists n1' prev' n2' y, (if is_leaf n1 then borrowRightLeaf else borrowRight) t n1 prev n2 a = Ok (n1', prev', n2') /\
    inner_node t prev' (<[a := y]> seps) cs /\ vkey (s_key t) y /\
    forall nd2, nd2 !! c1 = Some n1' -> nd2 !! c2 = Some n2' -> same_below nd2 ->
      reps (child t nd2 h) lo hi [c1; c2] [y] (D1 ∪ D2) (l1 ++ l2) f nx.
Proof using Type*.
  pose proof pair_ne as Hne. pose proof R1 as Q1. pose proof R2 as Q2. unfold min_of, same_below. destruct h as [|h'].
  - destruct Q1 as (n & E & L1 & -> & ->). rewrite Hn1 in E. injection E as <-.
    destruct Q2 as (n & E & L2 & -> & ->). rewrite Hn2 in E. injection E as <-.
    rewrite (lf_leaf _ _ _ _ L1), (lf_count _ _ _ _ L1), (lf_count _ _ _ _ L2). intros M1 M2.
    destruct (leaf_right t Ht nd c1 c2 n1 n2 Hn1 Hn2 prev seps cs Hprev a x Hx lo hi Hlo Hhi Hax Hbx l1 l2 nx L1 L2 Hw1 Hw2 Hne M1 M2)
      as (n1' & prev' & n2' & y & E & Hp & Hy & HR). exists n1', prev', n2', y. split_and!; [done..|]. intros nd2 N1 N2 _. by apply HR.
  - destruct Q1 as (n & s1 & q1 & E1 & E & I1 & -> & Ho1 & P1). rewrite Hn1 in E. injection E as <-.
    destruct Q2 as (n & s2 & q2 & E2 & E & I2 & -> & Ho2 & P2). rewrite Hn2 in E. injection E as <-.
    rewrite (in_leaf _ _ _ _ I1), (in_count _ _ _ _ I1), (in_count _ _ _ _ I2). intros M1 M2.
    destruct (inner_right t Ht nd c1 c2 n1 n2 Hn1 Hn2 prev seps cs Hprev a x Hx lo hi Hlo Hhi Hax Hbx h' s1 s2 q1 q2 E1 E2 l1 l2 f m nx
      I1 P1 I2 P2 ltac:(set_solver) ltac:(set_solver) ltac:(set_solver) Hne Hw1 Hw2 M1 M2) as (n1' & prev' & n2' & y & E & Hp & Hy & HR).
    exists n1', prev', n2', y. split_and!; [done..|]. intros nd2 N1 N2 Hs. apply HR; [done..|]. intros o Ho. apply Hs; set_solver.
Qed.

Lemma pair_left :
  (min_of t n1 < keyCount n1)%nat -> (S (keyCount n2) = min_of t n1)%nat ->
  exists n2' prev' n1' y, (if is_leaf n1 then borrowLeftLeaf else borrowLeft) t n2 prev n1 (S a) = Ok (n2', prev', n1') /\
    inner_node t prev' (<[a := y]> seps) cs /\ vkey (s_key t) y /\
    forall nd2, nd2 !! c1 = Some n1' -> nd2 !! c2 = Some n2' -> same_below nd2 ->
      reps (child t nd2 h) lo hi [c1; c2] [y] (D1 ∪ D2) (l1 ++ l2) f nx.
Proof using Type*.
  pose proof pair_ne as Hne. pose proof R1 as Q1. pose proof R2 as Q2. unfold min_of, same_below. destruct h as [|h'].
  - destruct Q1 as (n & E & L1 & -> & ->). rewrite Hn1 in E. injection E as <-.
    destruct Q2 as (n & E & L2 & -> & ->). rewrite Hn2 in E. injection E as <-.
    rewrite (lf_leaf _ _ _ _ L1), (lf_count _ _ _ _ L1), (lf_count _ _ _ _ L2). intros M1 M2.
    destruct (leaf_left t Ht nd c1 c2 n1 n2 Hn1 Hn2 prev seps cs Hprev a x Hx lo hi Hlo Hhi Hax Hbx l1 l2 nx L1 L2 Hw1 Hw2 Hne M1 M2)
      as (n2' & prev' & n1' & y & E & Hp & Hy & HR). exists n2', prev', n1', y. split_and!; [done..|]. intros nd2 N1 N2 _. by apply HR.
  - destruct Q1 as (n & s1 & q1 & E1 & E & I1 & -> & Ho1 & P1). rewrite Hn1 in E. injection E as <-.
    destruct Q2 as (n & s2 & q2 & E2 & E & I2 & -> & Ho2 & P2). rewrite Hn2 in E. injection E as <-.
    rewrite (in_leaf _ _ _ _ I1), (in_count _ _ _ _ I1), (in_count _ _ _ _ I2). intros M1 M2.
    destruct (inner_left t Ht nd c1 c2 n1 n2 Hn1 Hn2 prev seps cs Hprev a x Hx lo hi Hlo Hhi Hax Hbx h' s1 s2 q1 q2 E1 E2 l1 l2 f m nx
      I1 P1 I2 P2 ltac:(set_solver) ltac:(set_solver) ltac:(set_solver) Hne Hw1 Hw2 M1 M2) as (n2' & prev' & n1' & y & E & Hp & Hy & HR).
    exists n2', prev', n1', y. split_and!; [done..|]. intros nd2 N1 N2 Hs. apply HR; [done..|]. intros o Ho. apply Hs; set_solver.
Qed.

Lemma pair_merge :
  (keyCount n1 + keyCount n2 < 2 * min_of t n1)%nat -> (min_of t n1 <= S (keyCount n1 + keyCount n2))%nat ->
  (min_of t n1 <= keyCount n1 + keyCount n2 \/ is_leaf n1 = false)%nat ->
  exists n1', absorb n1 n2 x = Ok n1' /\
    forall nd2, nd2 !! c1 = Some n1' -> same_below nd2 -> reps (child t nd2 h) lo hi [c1] [] ((D1 ∪ D2) ∖ {[c2]}) (l1 ++ l2) f nx.
Proof using Type*.
  pose proof pair_ne as Hne. pose proof R1 as Q1. pose proof R2 as Q2. unfold min_of, same_below, absorb. destruct h as [|h'].
  - destruct Q1 as (n & E & L1 & -> & ->). rewrite Hn1 in E. injection E as <-.
    destruct Q2 as (n & E & L2 & -> & ->). rewrite Hn2 in E. injection E as <-.
    rewrite (lf_leaf _ _ _ _ L1), (lf_count _ _ _ _ L1), (lf_count _ _ _ _ L2). intros M1 _ [M2|]; [|done].
    destruct (leaf_merge t Ht nd c1 c2 n1 n2 Hn1 Hn2 prev seps cs Hprev a x Hx lo hi Hlo Hhi Hax Hbx l1 l2 nx L1 L2 Hw1 Hw2 Hne M1 M2)
      as (n1' & E & HR). exists n1'. split; [done|]. intros nd2 N1 _.
    replace (({[c1]} ∪ {[c2]}) ∖ {[c2]}) with ({[c1]} : gset Z) by set_solver. by apply HR.
  - destruct Q1 as (n & s1 & q1 & E1 & E & I1 & -> & Ho1 & P1). rewrite Hn1 in E. injection E as <-.
    destruct Q2 as (n & s2 & q2 & E2 & E & I2 & -> & Ho2 & P2). rewrite Hn2 in E. injection E as <-.
    rewrite (in_leaf _ _ _ _ I1), (in_count _ _ _ _ I1), (in_count _ _ _ _ I2). intros M1 M2 _.
    destruct (inner_merge t Ht nd c1 c2 n1 n2 Hn1 Hn2 prev seps cs Hprev a x Hx lo hi Hlo Hhi Hax Hbx h' s1 s2 q1 q2 E1 E2 l1 l2 f m nx
      I1 P1 I2 P2 ltac:(set_solver) ltac:(set_solver) ltac:(set_solver) Hne Hw1 Hw2 M1 M2) as (n1' & E & HR).
    exists n1'. split; [done|]. intros nd2 N1 Hs.
    replace (({[c1]} ∪ E1 ∪ ({[c2]} ∪ E2)) ∖ {[c2]}) with ({[c1]} ∪ (E1 ∪ E2) : gset Z) by set_solver.
    apply HR; [done|]. intros o Ho. apply Hs; set_solver.
Qed.
End pair.

(** ** Two neighbours in a row *)

Record pair_in (nd : gmap Z btree_node) (h : nat) (cs : list Z) (ks : list key) (f nx : Z) (a : nat) (x : key) (c1 c2 : Z)
    (D1 D2 Do : gset Z) (pre l1 l2 suf : list kv) (f1 m nc : Z) (lo hi : option key) : Prop := {
  pi_c1 : cs !! a = Some c1;
  pi_c2 : cs !! S a = Some c2;
  pi_x : ks !! a = Some x;
  pi_r1 : rep t nd h c1 D1 l1 f1 m;
  pi_r2 : rep t nd h c2 D2 l2 m nc;
  pi_disj : D1 ## D2;
  pi_rest : D1 ∪ D2 ## Do;
  pi_w1 : within lo (Some x) l1;
  pi_w2 : within (Some x) hi l2;
  pi_opt : vopt lo /\ vopt hi;
  pi_between : above lo x /\ below hi x;
  pi_replace : forall nd' cs' ks' D' l', (forall o, o ∈ Do -> nd' !! o = nd !! o) ->
    reps (child t nd' h) lo hi cs' ks' D' l' f1 nc -> Forall (vkey (s_key t)) ks' -> D' ## Do ->
    reps (child t nd' h) None None (take a cs ++ cs' ++ drop (S (S a)) cs) (take a ks ++ ks' ++ drop (S a) ks)
      (D' ∪ Do) (pre ++ l' ++ suf) f nx;
}.

Lemma kv_del_app k A l B :
  length k = s_key t -> sorted (A ++ l ++ B) -> Forall (vkv t) l -> k ∈ l.*1 -> kv_del k (A ++ l ++ B) = A ++ kv_del k l ++ B.
Proof using Type*.
  intros Hk Hs Hv Hin. apply sorted_app in Hs as (_ & Hs & HA). apply sorted_app in Hs as (Hsl & _ & HB).
  pose proof (found_key t k l Hk Hsl Hv Hin) as Hf. apply lookup_lt_Some in Hf. rewrite length_fmap in Hf.
  apply list_elem_of_fmap in Hin as (e & -> & He).
  apply kv_del_between; [apply list.Forall_forall..|done]; intros e' He'; [apply HA|apply HB]; set_solver.
Qed.

Lemma kv_del_within lo hi k l : within lo hi l -> within lo hi (kv_del k l).
Proof using Type. apply Forall_delete. Qed.

Lemma two_children {A} (cs : list A) a c1 c2 : cs !! a = Some c1 -> cs !! S a = Some c2 -> take 2 (drop a cs) = [c1; c2].
Proof using Type. intros H1 H2. by rewrite (drop_S _ _ _ H1), (drop_S _ _ _ H2). Qed.

Lemma cut_two {A} (cs : list A) a c1 c2 : cs !! a = Some c1 -> cs !! S a = Some c2 -> take a cs ++ [c1; c2] ++ drop (S (S a)) cs = cs.
Proof using Type. intros H1 H2. simpl. rewrite <- (drop_S _ _ _ H2), <- (drop_S _ _ _ H1). apply take_drop. Qed.

Lemma row_pair nd nd1 h cs ks D kvs f nx k a x (left : bool) c Dc kc fc nc Dc' :
  reps (child t nd h) None None cs ks D kvs f nx -> Forall (vkey (s_key t)) ks -> ks !! a = Some x ->
  cs !! (if left then a else S a) = Some c ->
  rep t nd h c Dc kc fc nc -> length k = s_key t -> k ∈ kc.*1 ->
  (forall o, o ∈ D -> o ∉ Dc -> nd1 !! o = nd !! o) -> rep t nd1 h c Dc' (kv_del k kc) fc nc -> Dc' ⊆ Dc ->
  exists c1 c2 D1 D2 Do pre l1 l2 suf f1 m n2 lo hi,
    pair_in nd1 h cs ks f nx a x c1 c2 D1 D2 Do pre l1 l2 suf f1 m n2 lo hi /\
    kv_del k kvs = pre ++ (l1 ++ l2) ++ suf /\ D1 ∪ D2 ∪ Do = Dc' ∪ (D ∖ Dc) /\
    (if left then c1 = c /\ filled t nd1 c2 else c2 = c /\ filled t nd1 c1).
Proof using Type*.
  intros Hr Hks Hx Hc Hrc Hk Hin Hnd Hrc' Hsub. pose proof (reps_lengths _ _ _ _ _ _ _ _ _ Hr) as Hlen.
  pose proof (lookup_lt_Some _ _ _ Hx) as Ha.
  pose proof (reps_sorted t _ (child_sorted t nd h) _ _ _ _ _ _ _ _ Hr Hks I) as Hsorted.
  destruct (reps_segment t Ht _ _ _ _ _ _ _ _ a 1 Hr Hks ltac:(lia)) as (Ds & Do & pre & ls & suf & fs & ns & lo & hi & Hs & -> & Hdo & -> & Hlo & Hhi & Hrep).
  destruct (lookup_lt_is_Some_2 cs a) as [c1 E1]; [lia|]. destruct (lookup_lt_is_Some_2 cs (S a)) as [c2 E2]; [lia|].
  rewrite (two_children cs a c1 c2 E1 E2), (drop_S _ _ _ Hx) in Hs. simpl in Hs.
  apply reps_inv in Hs as [(? & ? & ? & _)|(q & ? & ? & ? & F1 & F2 & k1 & k2 & m & [= <- <-] & [= <- <-] & -> & -> & Hc1 & W1 & Ba & Bb & Hs & HF)]; [done|].
  apply reps_inv in Hs as [(? & [= <-] & _ & Hc2 & W2)|(? & ? & ? & ? & ? & ? & ? & ? & ? & ? & ? & _)]; [|done].
  destruct Hc1 as [Q1 Fl1], Hc2 as [Q2 Fl2]. pose proof (rep_valid t _ _ _ _ _ _ _ Hrc) as Vc.
  assert (Hdrop : forall A (l : list A), drop 2 (drop a l) = drop (S (S a)) l) by (intros; rewrite drop_drop; f_equal; lia).
  assert (Hdrop1 : drop 1 (drop a ks) = drop (S a) ks) by (rewrite drop_drop; f_equal; lia).
  destruct left.
  - assert (c1 = c) as -> by congruence. destruct (rep_unique t _ _ _ _ _ _ _ _ _ _ _ Q1 Hrc) as (-> & -> & -> & ->).
    assert (Hf2 : forall o, o ∈ F2 -> nd1 !! o = nd !! o) by (intros; apply Hnd; set_solver).
    exists c, c2, Dc', F2, Do, pre, (kv_del k kc), k2, suf, fc, nc, ns, lo, hi. split_and!; [split|..]; try done.
    + by eapply rep_frame.
    + set_solver.
    + set_solver.
    + by apply kv_del_within.
    + intros nd' cs' ks' D' l' Hnd' Hr' Hks' HD'. rewrite <- Hdrop, <- Hdrop1. apply Hrep; [|done..]. intros o Ho. rewrite Hnd' by done. apply Hnd; set_solver.
    + replace (pre ++ (kc ++ k2) ++ suf) with (pre ++ kc ++ (k2 ++ suf)) in * by (by rewrite <- app_assoc).
      rewrite kv_del_app by done. by rewrite <- app_assoc.
    + set_solver.
    + destruct Fl2 as (n2 & Hn2 & Hf). exists n2. split; [|done]. rewrite Hf2; [done|]. by eapply rep_root.
  - assert (c2 = c) as -> by congruence. destruct (rep_unique t _ _ _ _ _ _ _ _ _ _ _ Q2 Hrc) as (-> & -> & -> & ->).
    assert (Hf1 : forall o, o ∈ F1 -> nd1 !! o = nd !! o) by (intros; apply Hnd; set_solver).
    exists c1, c, F1, Dc', Do, pre, k1, (kv_del k kc), suf, fs, fc, nc, lo, hi. split_and!; [split|..]; try done.
    + by eapply rep_frame.
    + set_solver.
    + set_solver.
    + by apply kv_del_within.
    + intros nd' cs' ks' D' l' Hnd' Hr' Hks' HD'. rewrite <- Hdrop, <- Hdrop1. apply Hrep; [|done..]. intros o Ho. rewrite Hnd' by done. apply Hnd; set_solver.
    + replace (pre ++ (k1 ++ kc) ++ suf) with ((pre ++ k1) ++ kc ++ suf) in * by (by rewrite <- !app_assoc).
      rewrite kv_del_app by done. by rewrite <- !app_assoc.
    + set_solver.
    + destruct Fl1 as (n1 & Hn1 & Hf). exists n1. split; [|done]. rewrite Hf1; [done|]. by eapply rep_root.
Qed.

(** ** The parent after the change *)

(** From [s] to [s'] the node [off], which was [n], and the nodes of [U] below it
    may change; it then stands for [kvs], has lost a separator at most, and only
    by a merge, and the nodes that are gone are no longer in the store. *)
Definition fix_post (s s' : bstate) (h : nat) (off : Z) (n : btree_node) (U : gset Z) (kvs : list kv) (f nx : Z) (merged : bool) : Prop :=
  bs_tree s' = bs_tree s /\ bs_pool s' = bs_pool s /\ (forall o, o <> off -> o ∉ U -> bs_nodes s' !! o = bs_nodes s !! o) /\
  (exists D', D' ⊆ U /\ dom (bs_nodes s') = dom (bs_nodes s) ∖ (U ∖ D') /\ freed s s' (U ∖ D') /\ rep t (bs_nodes s') (S h) off ({[off]} ∪ D') kvs f nx) /\
  exists n', bs_nodes s' !! off = Some n' /\ is_leaf n' = false /\ (keyCount n' = keyCount n \/ (merged = true /\ S (keyCount n') = keyCount n)).

Section parent.
Context (s : bstate) (h : nat) (off : Z) (n : btree_node) (seps : list key) (cs : list Z) (f nx : Z).
Context (Hs : bs_tree s = t) (Hn : bs_nodes s !! off = Some n) (Hi : inner_node t n seps cs).
Context (a : nat) (x : key) (c1 c2 : Z) (D1 D2 Do : gset Z) (pre l1 l2 suf : list kv) (f1 m nc : Z) (lo hi : option key).
Context (HP : pair_in (bs_nodes s) h cs seps f nx a x c1 c2 D1 D2 Do pre l1 l2 suf f1 m nc lo hi).
Context (Hoff : off ∉ D1 ∪ D2 ∪ Do).

Lemma pair_facts : c1 ∈ D1 /\ c2 ∈ D2 /\ c1 <> c2 /\ off <> c1 /\ off <> c2 /\ (a < length seps)%nat.
Proof using Type*.
  pose proof (rep_root t _ _ _ _ _ _ _ (pi_r1 _ _ _ _ _ _ _ _ _ _ _ _ _ _ _ _ _ _ _ _ _ _ HP)) as H1.
  pose proof (rep_root t _ _ _ _ _ _ _ (pi_r2 _ _ _ _ _ _ _ _ _ _ _ _ _ _ _ _ _ _ _ _ _ _ HP)) as H2.
  pose proof (pi_disj _ _ _ _ _ _ _ _ _ _ _ _ _ _ _ _ _ _ _ _ _ _ HP) as Hd.
  pose proof (lookup_lt_Some _ _ _ (pi_x _ _ _ _ _ _ _ _ _ _ _ _ _ _ _ _ _ _ _ _ _ _ HP)).
  split_and!; [done|done|set_solver|set_solver|set_solver|done].
Qed.

(** An entry was moved from one to the other. *)
Lemma pair_moved s' n1' n2' prev' y merged :
  bs_tree s' = t -> bs_pool s' = bs_pool s -> bs_freed s' = bs_freed s -> bs_nodes s' !! off = Some prev' -> bs_nodes s' !! c1 = Some n1' -> bs_nodes s' !! c2 = Some n2' ->
  (forall o, o <> off -> o <> c1 -> o <> c2 -> bs_nodes s' !! o = bs_nodes s !! o) -> dom (bs_nodes s') = dom (bs_nodes s) ->
  inner_node t prev' (<[a := y]> seps) cs -> vkey (s_key t) y ->
  reps (child t (bs_nodes s') h) lo hi [c1; c2] [y] (D1 ∪ D2) (l1 ++ l2) f1 nc ->
  fix_post s s' h off n (D1 ∪ D2 ∪ Do) (pre ++ (l1 ++ l2) ++ suf) f nx merged.
Proof using Type*.
  intros Et Ep Ef No N1 N2 Hsame Hdom Hp Hy Hrow. destruct pair_facts as (F1 & F2 & F3 & F4 & F5 & F6).
  pose proof (pi_rest _ _ _ _ _ _ _ _ _ _ _ _ _ _ _ _ _ _ _ _ _ _ HP) as Hrest.
  split_and!; [congruence|done|intros; apply Hsame; set_solver| |].
  - exists (D1 ∪ D2 ∪ Do). split_and!; [done|rewrite Hdom; set_solver|apply freed_none; [done|apply difference_diag_L]|].
    eapply rep_row; [exact No|exact Hp| |exact Hoff|done].
    pose proof (pi_replace _ _ _ _ _ _ _ _ _ _ _ _ _ _ _ _ _ _ _ _ _ _ HP (bs_nodes s') [c1; c2] [y] (D1 ∪ D2) (l1 ++ l2)) as Hrep.
    rewrite (cut_two cs a c1 c2) in Hrep by apply HP. rewrite insert_take_drop by done. apply Hrep; [|done|by apply list.Forall_singleton|done]. intros o Ho. apply Hsame; set_solver.
  - exists prev'. split_and!; [done|apply Hp|]. left. by rewrite (in_count _ _ _ _ Hp), (in_count _ _ _ _ Hi), length_insert.
Qed.

(** The right one was merged into the left one. *)
Lemma pair_merged s' n1' prev' :
  bs_tree s' = t -> bs_pool s' = bs_pool s -> bs_freed s' = c2 :: bs_freed s -> bs_nodes s' !! off = Some prev' -> bs_nodes s' !! c1 = Some n1' ->
  (forall o, o <> off -> o <> c1 -> o <> c2 -> bs_nodes s' !! o = bs_nodes s !! o) -> dom (bs_nodes s') = dom (bs_nodes s) ∖ {[c2]} ->
  inner_node t prev' (delete a seps) (delete (S a) cs) ->
  reps (child t (bs_nodes s') h) lo hi [c1] [] ((D1 ∪ D2) ∖ {[c2]}) (l1 ++ l2) f1 nc ->
  fix_post s s' h off n (D1 ∪ D2 ∪ Do) (pre ++ (l1 ++ l2) ++ suf) f nx true.
Proof using Type*.
  intros Et Ep Ef No N1 Hsame Hdom Hp Hrow. destruct pair_facts as (F1 & F2 & F3 & F4 & F5 & F6).
  pose proof (pi_rest _ _ _ _ _ _ _ _ _ _ _ _ _ _ _ _ _ _ _ _ _ _ HP) as Hrest.
  split_and!; [congruence|done|intros; apply Hsame; set_solver| |].
  - exists ((D1 ∪ D2) ∖ {[c2]} ∪ Do). split_and!; [set_solver|rewrite Hdom; set_solver| |].
    { exists [c2]. split_and!; [done|apply NoDup_singleton|]. simpl. clear -F2 Hrest. apply set_eq. intros o. destruct (decide (o = c2)) as [->|]; set_solver. }
    eapply rep_row; [exact No|exact Hp| |set_solver|done].
    pose proof (pi_replace _ _ _ _ _ _ _ _ _ _ _ _ _ _ _ _ _ _ _ _ _ _ HP (bs_nodes s') [c1] [] ((D1 ∪ D2) ∖ {[c2]}) (l1 ++ l2)) as Hrep.
    rewrite (app_assoc (take a cs)) in Hrep. rewrite <- (take_S_r _ _ _ (pi_c1 _ _ _ _ _ _ _ _ _ _ _ _ _ _ _ _ _ _ _ _ _ _ HP)) in Hrep.
    rewrite !delete_take_drop. apply Hrep; [|done|constructor|set_solver]. intros o Ho. apply Hsame; set_solver.
  - exists prev'. split_and!; [done|apply Hp|]. right. split; [done|]. rewrite (in_count _ _ _ _ Hp), (in_count _ _ _ _ Hi).
    rewrite length_delete; [lia|]. by apply lookup_lt_is_Some_2.
Qed.

(** *** Running the code *)

Context (n1 n2 : btree_node) (Hn1 : bs_nodes s !! c1 = Some n1) (Hn2 : bs_nodes s !! c2 = Some n2).

Lemma same_leaf : is_leaf n2 = is_leaf n1.
Proof using Type*.
  by rewrite (rep_is_leaf _ _ _ _ _ _ _ _ (pi_r1 _ _ _ _ _ _ _ _ _ _ _ _ _ _ _ _ _ _ _ _ _ _ HP) Hn1), (rep_is_leaf _ _ _ _ _ _ _ _ (pi_r2 _ _ _ _ _ _ _ _ _ _ _ _ _ _ _ _ _ _ _ _ _ _ HP) Hn2).
Qed.

Lemma read_c1 : children n !! a = Some c1.
Proof using Type*. destruct pair_facts as (_ & _ & _ & _ & _ & Ha). rewrite (in_child _ _ _ _ Hi) by (rewrite (in_children _ _ _ _ Hi); lia). apply HP. Qed.
Lemma read_c2 : children n !! S a = Some c2.
Proof using Type*. destruct pair_facts as (_ & _ & _ & _ & _ & Ha). rewrite (in_child _ _ _ _ Hi) by (rewrite (in_children _ _ _ _ Hi); lia). apply HP. Qed.

Lemma try_right :
  (S (keyCount n1) = min_of t n1)%nat ->
  ((keyCount n2 <= min_of t n1)%nat /\
     borrow_from (min_of t n1) c1 off a (S a) (if is_leaf n1 then borrowRightLeaf else borrowRight) s = (Ok false, s)) \/
  (exists s', borrow_from (min_of t n1) c1 off a (S a) (if is_leaf n1 then borrowRightLeaf else borrowRight) s = (Ok true, s') /\
     fix_post s s' h off n (D1 ∪ D2 ∪ Do) (pre ++ (l1 ++ l2) ++ suf) f nx false).
Proof using Type*.
  intros M1. destruct pair_facts as (F1 & F2 & F3 & F4 & F5 & F6). unfold borrow_from. erewrite bbind_ok by reflexivity. rewrite Hs.
  erewrite bbind_ok by (by apply read_node_ok). erewrite bbind_ok by (by apply read_node_ok).
  erewrite bbind_ok by (apply blift_nth, read_c2). erewrite bbind_ok by (by apply read_node_ok).
  destruct (min_of t n1 <? keyCount n2)%nat eqn:E; bool_hyps; [right|by left].
  pose proof HP as HP'. destruct HP' as [P1 P2 P3 P4 P5 P6 P7 P8 P9 [P10 P10'] [P11 P11'] P12].
  destruct (pair_right (bs_nodes s) h c1 c2 D1 D2 l1 l2 f1 m nc n1 n2 P4 P5 P6 Hn1 Hn2 n seps cs Hi a x P3 lo hi P10 P10' P11 P11' P8 P9 M1 E)
    as (n1' & prev' & n2' & y & Em & Hp & Hy & HR).
  erewrite bbind_ok by (unfold blift; by rewrite Em). eexists. split; [reflexivity|].
  apply (pair_moved _ n1' n2' prev' y); cbn [bs_nodes bs_tree bs_pool bs_freed fst snd]; try done.
  - by rewrite lookup_insert_eq.
  - by rewrite lookup_insert_ne, lookup_insert_eq by done.
  - by rewrite !lookup_insert_ne, lookup_insert_eq by done.
  - intros o O1 O2 O3. by rewrite !lookup_insert_ne by done.
  - rewrite !dom_insert_L. apply (elem_of_dom_2 (D := gset Z)) in Hn, Hn1, Hn2. set_solver.
  - apply HR; [by rewrite lookup_insert_ne, lookup_insert_eq by done|by rewrite !lookup_insert_ne, lookup_insert_eq by done|].
    intros o Ho O1 O2. rewrite !lookup_insert_ne; [done|done|done|set_solver].
Qed.

Lemma try_left :
  (S (keyCount n2) = min_of t n2)%nat ->
  ((keyCount n1 <= min_of t n2)%nat /\
     borrow_from (min_of t n2) c2 off (S a) (S a - 1) (if is_leaf n2 then borrowLeftLeaf else borrowLeft) s = (Ok false, s)) \/
  (exists s', borrow_from (min_of t n2) c2 off (S a) (S a - 1) (if is_leaf n2 then borrowLeftLeaf else borrowLeft) s = (Ok true, s') /\
     fix_post s s' h off n (D1 ∪ D2 ∪ Do) (pre ++ (l1 ++ l2) ++ suf) f nx false).
Proof using Type*.
  assert (Emin : min_of t n2 = min_of t n1) by (unfold min_of; by rewrite same_leaf). rewrite Emin, same_leaf.
  intros M1. destruct pair_facts as (F1 & F2 & F3 & F4 & F5 & F6). unfold borrow_from. erewrite bbind_ok by reflexivity. rewrite Hs.
  erewrite bbind_ok by (by apply read_node_ok). erewrite bbind_ok by (by apply read_node_ok). replace (S a - 1)%nat with a by lia.
  erewrite bbind_ok by (apply blift_nth, read_c1). erewrite bbind_ok by (by apply read_node_ok).
  destruct (min_of t n1 <? keyCount n1)%nat eqn:E; bool_hyps; [right|by left].
  pose proof HP as HP'. destruct HP' as [P1 P2 P3 P4 P5 P6 P7 P8 P9 [P10 P10'] [P11 P11'] P12].
  destruct (pair_left (bs_nodes s) h c1 c2 D1 D2 l1 l2 f1 m nc n1 n2 P4 P5 P6 Hn1 Hn2 n seps cs Hi a x P3 lo hi P10 P10' P11 P11' P8 P9 E M1)
    as (n2' & prev' & n1' & y & Em & Hp & Hy & HR).
  erewrite bbind_ok by (unfold blift; by rewrite Em). eexists. split; [reflexivity|].
  apply (pair_moved _ n1' n2' prev' y); cbn [bs_nodes bs_tree bs_pool bs_freed fst snd]; try done.
  - by rewrite lookup_insert_eq.
  - by rewrite !lookup_insert_ne, lookup_insert_eq by done.
  - by rewrite lookup_insert_ne, lookup_insert_eq by done.
  - intros o O1 O2 O3. by rewrite !lookup_insert_ne by done.
  - rewrite !dom_insert_L. apply (elem_of_dom_2 (D := gset Z)) in Hn, Hn1, Hn2. set_solver.
  - apply HR; [by rewrite !lookup_insert_ne, lookup_insert_eq by done|by rewrite lookup_insert_ne, lookup_insert_eq by done|].
    intros o Ho O1 O2. rewrite !lookup_insert_ne; [done|done|done|set_solver].
Qed.

(** The parent loses the separator and the right child. *)
Lemma merge_parent :
  exists chs prev', arr_set (children n) (S a) c1 = Ok chs /\ removeKey2 t (set_children chs n) a = Ok prev' /\
    inner_node t prev' (delete a seps) (delete (S a) cs).
Proof using Type*.
  destruct pair_facts as (_ & _ & _ & _ & _ & Ha). pose proof (in_array _ _ _ _ Hi) as La. pose proof (in_children _ _ _ _ Hi) as Lc.
  pose proof (in_max _ _ _ _ Hi) as Hmax. pose proof (po_order _ Ht).
  rewrite arr_set_ok by lia. assert (Hi' : inner_node t (set_children (<[S a:=c1]> (children n)) n) seps (<[S a:=c1]> cs)).
  { split; simpl; rewrite ?length_insert; try apply Hi. intros j Hj. rewrite !list_lookup_insert. repeat case_decide; try done; try lia. by apply Hi. }
  destruct (removeKey2_ok t Ht _ _ _ a Hi' Ha) as (prev' & E & Hp). eexists _, prev'. split_and!; [done|done|].
  replace (delete (S a) cs) with (delete a (<[S a:=c1]> cs)); [done|]. apply list_eq. intros j.
  rewrite !lookup_delete_list, !list_lookup_insert. pose proof (pi_c1 _ _ _ _ _ _ _ _ _ _ _ _ _ _ _ _ _ _ _ _ _ _ HP) as E1.
  repeat case_decide; try lia; try done. assert (j = a) as -> by lia. done.
Qed.

Lemma merge_pre :
  (S (keyCount n1) = min_of t n1 /\ keyCount n2 = min_of t n1)%nat \/ (keyCount n1 = min_of t n1 /\ S (keyCount n2) = min_of t n1)%nat ->
  exists n1', absorb n1 n2 x = Ok n1' /\
    forall nd2, nd2 !! c1 = Some n1' -> same_below (bs_nodes s) c1 c2 D1 D2 nd2 -> reps (child t nd2 h) lo hi [c1] [] ((D1 ∪ D2) ∖ {[c2]}) (l1 ++ l2) f1 nc.
Proof using Type*.
  intros M. pose proof HP as HP'. destruct HP' as [P1 P2 P3 P4 P5 P6 P7 P8 P9 [P10 P10'] [P11 P11'] P12].
  pose proof (min_leaf_half t Ht). pose proof (min_intrn_half t Ht).
  eapply (pair_merge (bs_nodes s) h c1 c2 D1 D2 l1 l2 f1 m nc n1 n2 P4 P5 P6 Hn1 Hn2 n seps cs Hi a x P3 lo hi P10 P10' P11 P11' P8 P9);
    unfold min_of in *; destruct (is_leaf n1); lia.
Qed.

Lemma do_merge_left :
  (keyCount n1 = min_of t n1 /\ S (keyCount n2) = min_of t n1)%nat ->
  exists s', merge c2 off (S a) s = (Ok tt, s') /\ fix_post s s' h off n (D1 ∪ D2 ∪ Do) (pre ++ (l1 ++ l2) ++ suf) f nx true.
Proof using Type*.
  intros M. destruct pair_facts as (F1 & F2 & F3 & F4 & F5 & F6). destruct (merge_pre (or_intror M)) as (n1' & Ea & HR).
  destruct merge_parent as (chs & prev' & E1 & E2 & Hp). pose proof (pi_x _ _ _ _ _ _ _ _ _ _ _ _ _ _ _ _ _ _ _ _ _ _ HP) as Hx.
  unfold merge. erewrite bbind_ok by reflexivity. rewrite Hs.
  erewrite bbind_ok by (by apply read_node_ok). erewrite bbind_ok by (by apply read_node_ok). replace (S a - 1)%nat with a by lia. cbn [Nat.ltb Nat.leb].
  erewrite bbind_ok by (apply blift_nth, read_c1). erewrite bbind_ok by (by apply read_node_ok).
  erewrite bbind_ok by (apply blift_nth; rewrite (in_key _ _ _ _ Hi) by done; exact Hx).
  erewrite bbind_ok by (unfold blift; by rewrite Ea). erewrite bbind_ok by reflexivity.
  erewrite bbind_ok by (unfold blift; by rewrite E1). erewrite bbind_ok by reflexivity.
  erewrite bbind_ok by (unfold blift; by rewrite E2). eexists. split; [reflexivity|].
  apply (pair_merged _ n1' prev'); cbn [bs_nodes bs_tree bs_pool bs_freed fst snd]; try done.
  - by rewrite lookup_insert_eq.
  - by rewrite lookup_insert_ne, lookup_delete_ne, lookup_insert_eq by done.
  - intros o O1 O2 O3. by rewrite lookup_insert_ne, lookup_delete_ne, lookup_insert_ne by done.
  - rewrite dom_insert_L, dom_delete_L, dom_insert_L. apply (elem_of_dom_2 (D := gset Z)) in Hn, Hn1, Hn2. set_solver.
  - apply HR; [by rewrite lookup_insert_ne, lookup_delete_ne, lookup_insert_eq by done|].
    intros o Ho O1 O2. rewrite lookup_insert_ne, lookup_delete_ne, lookup_insert_ne; [done|done|done|set_solver].
Qed.

Lemma do_merge_right :
  a = 0%nat -> (S (keyCount n1) = min_of t n1 /\ keyCount n2 = min_of t n1)%nat ->
  exists s', merge c1 off 0 s = (Ok tt, s') /\ fix_post s s' h off n (D1 ∪ D2 ∪ Do) (pre ++ (l1 ++ l2) ++ suf) f nx true.
Proof using Type*.
  intros Ea0 M. destruct pair_facts as (F1 & F2 & F3 & F4 & F5 & F6). destruct (merge_pre (or_introl M)) as (n1' & Ea & HR).
  destruct merge_parent as (chs & prev' & E1 & E2 & Hp). pose proof (pi_x _ _ _ _ _ _ _ _ _ _ _ _ _ _ _ _ _ _ _ _ _ _ HP) as Hx.
  pose proof read_c2 as Hc2. rewrite Ea0 in Hx, E1, E2, Hc2.
  unfold merge. erewrite bbind_ok by reflexivity. rewrite Hs.
  erewrite bbind_ok by (by apply read_node_ok). erewrite bbind_ok by (by apply read_node_ok). cbn [Nat.ltb Nat.leb].
  erewrite bbind_ok by (apply blift_nth, Hc2). erewrite bbind_ok by (by apply read_node_ok).
  erewrite bbind_ok by (apply blift_nth; rewrite (in_key _ _ _ _ Hi) by lia; exact Hx).
  erewrite bbind_ok by (unfold blift; by rewrite Ea).
  erewrite bbind_ok by (unfold blift; by rewrite E1). erewrite bbind_ok by reflexivity.
  erewrite bbind_ok by (unfold blift; by rewrite E2). eexists. split; [reflexivity|].
  apply (pair_merged _ n1' prev'); cbn [bs_nodes bs_tree bs_pool bs_freed fst snd]; try done.
  - by rewrite lookup_insert_ne, lookup_insert_eq by done.
  - by rewrite lookup_insert_eq.
  - intros o O1 O2 O3. by rewrite !lookup_insert_ne, lookup_delete_ne by done.
  - rewrite !dom_insert_L, dom_delete_L. apply (elem_of_dom_2 (D := gset Z)) in Hn, Hn1, Hn2. set_solver.
  - apply HR; [by rewrite lookup_insert_eq|].
    intros o Ho O1 O2. rewrite !lookup_insert_ne, lookup_delete_ne; [done|done|set_solver|done].
Qed.
End parent.

(** ** The end of [__delete] *)

(** The child is still full enough: only what it stands for changed. *)
Lemma row_same nd nd1 h cs ks D kvs f nx k i c Dc kc fc nc Dc' :
  reps (child t nd h) None None cs ks D kvs f nx -> Forall (vkey (s_key t)) ks -> cs !! i = Some c ->
  rep t nd h c Dc kc fc nc -> length k = s_key t -> k ∈ kc.*1 ->
  (forall o, o ∈ D -> o ∉ Dc -> nd1 !! o = nd !! o) -> rep t nd1 h c Dc' (kv_del k kc) fc nc -> Dc' ⊆ Dc -> filled t nd1 c ->
  reps (child t nd1 h) None None cs ks (Dc' ∪ (D ∖ Dc)) (kv_del k kvs) f nx.
Proof using Type*.
  intros Hr Hks Hc Hrc Hk Hin Hnd Hrc' Hsub Hfill. pose proof (reps_lengths _ _ _ _ _ _ _ _ _ Hr) as Hlen.
  pose proof (lookup_lt_Some _ _ _ Hc) as Ha. pose proof (reps_sorted t _ (child_sorted t nd h) _ _ _ _ _ _ _ _ Hr Hks I) as Hsorted.
  destruct (reps_segment t Ht _ _ _ _ _ _ _ _ i 0 Hr Hks ltac:(lia)) as (Ds & Do & pre & ls & suf & fs & ns & lo & hi & Hs & -> & Hdo & -> & Hlo & Hhi & Hrep).
  rewrite (drop_S _ _ _ Hc) in Hs. simpl in Hs.
  apply reps_inv in Hs as [(q & [= <-] & _ & [Hq _] & Hw)|(? & ? & ? & ? & ? & ? & ? & ? & ? & ? & ? & _)]; [|done].
  destruct (rep_unique t _ _ _ _ _ _ _ _ _ _ _ Hq Hrc) as (-> & -> & -> & ->).
  specialize (Hrep nd1 [c] [] Dc' (kv_del k kc)). rewrite !drop_0 in Hrep. rewrite drop_drop in Hrep. simpl in Hrep.
  rewrite Nat.add_1_r in Hrep. rewrite (take_drop_middle _ _ _ Hc), take_drop in Hrep.
  rewrite kv_del_app by (done || by eapply rep_valid). replace (Dc' ∪ ((Dc ∪ Do) ∖ Dc)) with (Dc' ∪ Do) by set_solver.
  apply Hrep; [intros o Ho; apply Hnd; set_solver| |constructor|set_solver].
  apply reps_one; [done|by apply kv_del_within].
Qed.

Section fix_one.
Context (s : bstate) (nd : gmap Z btree_node) (h : nat) (off : Z) (n : btree_node) (seps : list key) (cs : list Z).
Context (D : gset Z) (kvs : list kv) (f nx : Z) (k : key) (i : nat) (c : Z) (Dc Dc' : gset Z) (kc : list kv) (fc nc : Z) (n' : btree_node).
Context (Hs : bs_tree s = t) (Hn : bs_nodes s !! off = Some n) (Hi : inner_node t n seps cs) (Hpos : (0 < length seps)%nat) (Hoff : off ∉ D).
Context (Hr : reps (child t nd h) None None cs seps D kvs f nx) (Hc : cs !! i = Some c) (Hrc : rep t nd h c Dc kc fc nc) (HDc : Dc ⊆ D).
Context (Hk : length k = s_key t) (Hin : k ∈ kc.*1).
Context (Hnd : forall o, o ∈ D -> o ∉ Dc -> bs_nodes s !! o = nd !! o).
Context (Hrc' : rep t (bs_nodes s) h c Dc' (kv_del k kc) fc nc) (Hsub : Dc' ⊆ Dc).
Context (Hn' : bs_nodes s !! c = Some n') (Hmin : (min_of t n' <= S (keyCount n'))%nat).

Lemma filled_node x m : bs_nodes s !! x = Some m -> (min_of t m <= keyCount m)%nat -> filled t (bs_nodes s) x.
Proof using Type. intros Hx Hm. exists m. split; [done|]. unfold min_of in Hm. by destruct (is_leaf m). Qed.

Lemma fix_filled merged :
  (min_of t n' <= keyCount n')%nat -> fix_post s s h off n (Dc' ∪ (D ∖ Dc)) (kv_del k kvs) f nx merged.
Proof using Type*.
  intros Hm. split_and!; [done|done|done| |].
  - exists (Dc' ∪ (D ∖ Dc)). split_and!; [done|set_solver|apply freed_none; [done|apply difference_diag_L]|]. eapply rep_row; [exact Hn|exact Hi| |set_solver|done].
    eapply row_same; [exact Hr|apply Hi|exact Hc|exact Hrc|done|done|exact Hnd|exact Hrc'|done|by eapply filled_node].
  - exists n. split_and!; [done|apply Hi|by left].
Qed.

Lemma sibling (left : bool) a :
  (a < length seps)%nat -> i = (if left then a else S a) ->
  exists x c1 c2 D1 D2 Do pre l1 l2 suf f1 m n2 lo hi,
    pair_in (bs_nodes s) h cs seps f nx a x c1 c2 D1 D2 Do pre l1 l2 suf f1 m n2 lo hi /\
    kv_del k kvs = pre ++ (l1 ++ l2) ++ suf /\ D1 ∪ D2 ∪ Do = Dc' ∪ (D ∖ Dc) /\ (off ∉ D1 ∪ D2 ∪ Do) /\
    exists m1 m2, bs_nodes s !! c1 = Some m1 /\ bs_nodes s !! c2 = Some m2 /\
      (if left then c1 = c /\ m1 = n' /\ (min_of t m1 <= keyCount m2)%nat else c2 = c /\ m2 = n' /\ (min_of t m1 <= keyCount m1)%nat) /\
      min_of t m1 = min_of t m2 /\ is_leaf m2 = is_leaf m1.
Proof using Type*.
  intros Ha Ei. destruct (lookup_lt_is_Some_2 seps a Ha) as [x Hx].
  destruct (row_pair nd (bs_nodes s) h cs seps D kvs f nx k a x left c Dc kc fc nc Dc' Hr (in_valid _ _ _ _ Hi) Hx ltac:(by rewrite <- Ei) Hrc Hk Hin Hnd Hrc' Hsub)
    as (c1 & c2 & D1 & D2 & Do & pre & l1 & l2 & suf & f1 & m & n2 & lo & hi & HP & Ek & ED & Hlr).
  exists x, c1, c2, D1, D2, Do, pre, l1, l2, suf, f1, m, n2, lo, hi.
  assert (HoU : off ∉ D1 ∪ D2 ∪ Do) by (rewrite ED; set_solver). split_and!; [done..|].
  assert (Hm : exists m1 m2, bs_nodes s !! c1 = Some m1 /\ bs_nodes s !! c2 = Some m2).
  { pose proof (rep_dom t _ _ _ _ _ _ _ (pi_r1 _ _ _ _ _ _ _ _ _ _ _ _ _ _ _ _ _ _ _ _ _ _ HP)) as Q1.
    pose proof (rep_dom t _ _ _ _ _ _ _ (pi_r2 _ _ _ _ _ _ _ _ _ _ _ _ _ _ _ _ _ _ _ _ _ _ HP)) as Q2.
    destruct (pair_facts s h off n seps cs f nx Hs Hn Hi a x c1 c2 D1 D2 Do pre l1 l2 suf f1 m n2 lo hi HP HoU) as (I1 & I2 & _).
    assert (K1 : c1 ∈ dom (bs_nodes s)) by (by apply Q1). assert (K2 : c2 ∈ dom (bs_nodes s)) by (by apply Q2).
    apply elem_of_dom in K1 as [m1 ?], K2 as [m2 ?]. by exists m1, m2. }
  destruct Hm as (m1 & m2 & M1 & M2). exists m1, m2. split_and!; [done..| | |].
  - destruct left; destruct Hlr as [-> (q & Hq & Hf)]; (split_and!; [done|congruence|]); unfold min_of.
    + rewrite M2 in Hq. injection Hq as <-. rewrite (rep_is_leaf _ _ _ _ _ _ _ _ (pi_r1 _ _ _ _ _ _ _ _ _ _ _ _ _ _ _ _ _ _ _ _ _ _ HP) M1),
        <- (rep_is_leaf _ _ _ _ _ _ _ _ (pi_r2 _ _ _ _ _ _ _ _ _ _ _ _ _ _ _ _ _ _ _ _ _ _ HP) M2). by destruct (is_leaf m2).
    + rewrite M1 in Hq. injection Hq as <-. by destruct (is_leaf m1).
  - unfold min_of. by rewrite (rep_is_leaf _ _ _ _ _ _ _ _ (pi_r1 _ _ _ _ _ _ _ _ _ _ _ _ _ _ _ _ _ _ _ _ _ _ HP) M1), (rep_is_leaf _ _ _ _ _ _ _ _ (pi_r2 _ _ _ _ _ _ _ _ _ _ _ _ _ _ _ _ _ _ _ _ _ _ HP) M2).
  - by rewrite (rep_is_leaf _ _ _ _ _ _ _ _ (pi_r1 _ _ _ _ _ _ _ _ _ _ _ _ _ _ _ _ _ _ _ _ _ _ HP) M1), (rep_is_leaf _ _ _ _ _ _ _ _ (pi_r2 _ _ _ _ _ _ _ _ _ _ _ _ _ _ _ _ _ _ _ _ _ _ HP) M2).
Qed.

Lemma borrow_ok :
  (S (keyCount n') = min_of t n')%nat ->
  (exists s', borrow c off i s = (Ok true, s') /\ fix_post s s' h off n (Dc' ∪ (D ∖ Dc)) (kv_del k kvs) f nx false) \/
  (borrow c off i s = (Ok false, s) /\ exists s', merge c off i s = (Ok tt, s') /\ fix_post s s' h off n (Dc' ∪ (D ∖ Dc)) (kv_del k kvs) f nx true).
Proof using Type*.
  intros Hu. pose proof (reps_lengths _ _ _ _ _ _ _ _ _ Hr) as Hlen. pose proof (lookup_lt_Some _ _ _ Hc) as Hic.
  unfold borrow. erewrite bbind_ok by reflexivity. erewrite bbind_ok by (by apply read_node_ok). erewrite bbind_ok by (by apply read_node_ok).
  rewrite Hs, (in_count _ _ _ _ Hi). fold (min_of t n').
  assert (Hright : (length seps <= i)%nat \/ ((i < length seps)%nat /\
    ((exists s', borrow_from (min_of t n') c off i (S i) (if is_leaf n' then borrowRightLeaf else borrowRight) s = (Ok true, s') /\
        fix_post s s' h off n (Dc' ∪ (D ∖ Dc)) (kv_del k kvs) f nx false) \/
     (borrow_from (min_of t n') c off i (S i) (if is_leaf n' then borrowRightLeaf else borrowRight) s = (Ok false, s) /\
      (i = 0%nat -> exists s', merge c off i s = (Ok tt, s') /\ fix_post s s' h off n (Dc' ∪ (D ∖ Dc)) (kv_del k kvs) f nx true))))).
  { destruct (decide (length seps <= i)%nat) as [|Hlt]; [by left|right; split; [lia|]].
    destruct (sibling true i ltac:(lia) eq_refl) as (x & c1 & c2 & D1 & D2 & Do & pre & l1 & l2 & suf & f1 & m & n2 & lo & hi & HP & -> & <- & HoU & m1 & m2 & M1 & M2 & (-> & -> & Hm) & Em & _).
    destruct (try_right s h off n seps cs f nx Hs Hn Hi i x c c2 D1 D2 Do pre l1 l2 suf f1 m n2 lo hi HP HoU n' m2 M1 M2 Hu) as [[Hle E]|(s' & E & Hf)].
    - right. split; [done|]. intros Ei.
      destruct (do_merge_right s h off n seps cs f nx Hs Hn Hi i x c c2 D1 D2 Do pre l1 l2 suf f1 m n2 lo hi HP HoU n' m2 M1 M2 Ei ltac:(lia)) as (s' & E' & Hf).
      exists s'. by rewrite Ei.
    - left. by exists s'. }
  assert (Hleft : i = 0%nat \/ ((i =? 0)%nat = false /\
    ((exists s', borrow_from (min_of t n') c off i (i - 1) (if is_leaf n' then borrowLeftLeaf else borrowLeft) s = (Ok true, s') /\
        fix_post s s' h off n (Dc' ∪ (D ∖ Dc)) (kv_del k kvs) f nx false) \/
     (borrow_from (min_of t n') c off i (i - 1) (if is_leaf n' then borrowLeftLeaf else borrowLeft) s = (Ok false, s) /\
      exists s', merge c off i s = (Ok tt, s') /\ fix_post s s' h off n (Dc' ∪ (D ∖ Dc)) (kv_del k kvs) f nx true)))).
  { destruct (decide (i = 0%nat)) as [|Hlt]; [by left|right; split; [by apply Nat.eqb_neq|]].
    destruct (sibling false (i - 1) ltac:(lia) ltac:(cbn; lia)) as (x & c1 & c2 & D1 & D2 & Do & pre & l1 & l2 & suf & f1 & m & n2 & lo & hi & HP & -> & <- & HoU & m1 & m2 & M1 & M2 & (-> & -> & Hm) & Em & El).
    assert (Ei : i = S (i - 1)) by lia.
    destruct (try_left s h off n seps cs f nx Hs Hn Hi (i - 1) x c1 c D1 D2 Do pre l1 l2 suf f1 m n2 lo hi HP HoU m1 n' M1 M2 Hu) as [[Hle E]|(s' & E & Hf)]; rewrite <- Ei in E.
    - right. split; [done|].
      destruct (do_merge_left s h off n seps cs f nx Hs Hn Hi (i - 1) x c1 c D1 D2 Do pre l1 l2 suf f1 m n2 lo hi HP HoU m1 n' M1 M2 ltac:(lia)) as (s' & E' & Hf).
      rewrite <- Ei in E'. by exists s'.
    - left. by exists s'. }
  assert (Hr2 : (length seps <= i)%nat \/ borrow_from (min_of t n') c off i (S i) (if is_leaf n' then borrowRightLeaf else borrowRight) s = (Ok false, s) ->
     (exists s', (if (i =? 0)%nat then mret false else borrow_from (min_of t n') c off i (i - 1) (if is_leaf n' then borrowLeftLeaf else borrowLeft)) s = (Ok true, s') /\ fix_post s s' h off n (Dc' ∪ (D ∖ Dc)) (kv_del k kvs) f nx false) \/
     ((if (i =? 0)%nat then mret false else borrow_from (min_of t n') c off i (i - 1) (if is_leaf n' then borrowLeftLeaf else borrowLeft)) s = (Ok false, s) /\ exists s', merge c off i s = (Ok tt, s') /\ fix_post s s' h off n (Dc' ∪ (D ∖ Dc)) (kv_del k kvs) f nx true)).
  { intros Hno. destruct Hleft as [E0|(E0 & Hl)]; [|by rewrite E0]. right. rewrite E0. split; [done|]. rewrite <- E0.
    destruct Hright as [|(Hlt & [(s' & E' & _)|[_ H]])]; [lia| |by apply H]. destruct Hno as [|E]; [lia|]. rewrite E' in E. done. }
  destruct (length seps <=? i)%nat eqn:El; bool_hyps.
  - erewrite bbind_ok by reflexivity. apply Hr2. by left.
  - destruct Hright as [|(_ & [(s' & E & Hf)|[E _]])]; [lia| |].
    + left. exists s'. erewrite bbind_ok by exact E. done.
    + erewrite bbind_ok by exact E. apply Hr2. by right.
Qed.

Lemma fix_ok merged :
  c <> root t ->
  exists m' s', delete_fix c (Some off) i merged s = (Ok m', s') /\ fix_post s s' h off n (Dc' ∪ (D ∖ Dc)) (kv_del k kvs) f nx m'.
Proof using Type*.
  intros Hroot. unfold delete_fix. erewrite bbind_ok by reflexivity. erewrite bbind_ok by (by apply read_node_ok). rewrite Hs, (proj2 (Z.eqb_neq _ _) Hroot).
  destruct (decide (min_of t n' <= keyCount n')%nat) as [Hm|Hm].
  - replace (_ || _) with true; [exists merged, s; split; [done|by apply fix_filled]|].
    unfold min_of in Hm. destruct (is_leaf n'); simpl; by rewrite (proj2 (Nat.leb_le _ _) Hm).
  - replace (_ || _) with false by (unfold min_of in Hm; destruct (is_leaf n'); simpl; symmetry; rewrite ?orb_false_r; apply Nat.leb_gt; lia).
    destruct borrow_ok as [(s' & E & Hf)|(E & s' & E' & Hf)]; [lia| |]; cbv beta iota; erewrite bbind_ok by exact E; cbv beta iota.
    + by exists false, s'.
    + erewrite bbind_ok by exact E'. by exists true, s'.
Qed.
End fix_one.

(** ** [__delete] *)

(** Removing a key below [off], before the node itself is looked after. *)
Definition del_post (s s' : bstate) (h : nat) (off : Z) (n : btree_node) (D : gset Z) (kvs : list kv) (f nx : Z) (merged : bool) : Prop :=
  bs_tree s' = bs_tree s /\ bs_pool s' = bs_pool s /\ (forall o, o ∉ D -> bs_nodes s' !! o = bs_nodes s !! o) /\
  (exists D', D' ⊆ D /\ dom (bs_nodes s') = dom (bs_nodes s) ∖ (D ∖ D') /\ freed s s' (D ∖ D') /\ rep t (bs_nodes s') h off D' kvs f nx) /\
  exists n', bs_nodes s' !! off = Some n' /\ is_leaf n' = is_leaf n /\ (keyCount n <= S (keyCount n'))%nat /\
    (is_leaf n = false -> keyCount n' = keyCount n \/ (merged = true /\ S (keyCount n') = keyCount n)).

Lemma gone_union (off : Z) (D' Dc Dc' D2 : gset Z) :
  off ∉ D' -> Dc ⊆ D' -> Dc' ⊆ Dc -> D2 ⊆ Dc' ∪ (D' ∖ Dc) ->
  ({[off]} ∪ D') ∖ ({[off]} ∪ D2) = (Dc ∖ Dc') ∪ ((Dc' ∪ (D' ∖ Dc)) ∖ D2).
Proof using Type.
  clear. intros Hoff Hsub Hsub' HD2. apply set_eq. intros o. specialize (Hsub o). specialize (Hsub' o). specialize (HD2 o).
  rewrite ?elem_of_union, ?elem_of_difference, ?elem_of_union, ?elem_of_difference, ?elem_of_singleton in *.
  assert (o = off -> o ∉ D') by (intros ->; done).
  destruct (decide (o ∈ Dc)), (decide (o ∈ Dc')), (decide (o ∈ D2)), (decide (o = off)); tauto.
Qed.

Lemma del_fix_post s s1 s2 h off n D D' Dc Dc' kvs f nx merged :
  D = {[off]} ∪ D' -> off ∉ D' -> Dc ⊆ D' -> Dc' ⊆ Dc -> bs_nodes s !! off = Some n -> is_leaf n = false ->
  bs_tree s1 = bs_tree s -> bs_pool s1 = bs_pool s -> (forall o, o ∉ Dc -> bs_nodes s1 !! o = bs_nodes s !! o) ->
  dom (bs_nodes s1) = dom (bs_nodes s) ∖ (Dc ∖ Dc') -> freed s s1 (Dc ∖ Dc') ->
  fix_post s1 s2 h off n (Dc' ∪ (D' ∖ Dc)) kvs f nx merged -> del_post s s2 (S h) off n D kvs f nx merged.
Proof using Type.
  clear. intros -> Hoff Hsub Hsub' Hn Hl Et Ep Hfr Hdom Hfd (Et2 & Ep2 & Hfr2 & (D2 & HD2 & Hdom2 & Hfd2 & Hrep) & n' & Hn' & Hl' & Hcnt).
  split_and!; [congruence|congruence| | |].
  - intros o Ho. rewrite Hfr2, Hfr; [done|set_solver|set_solver|set_solver].
  - exists ({[off]} ∪ D2). split_and!; [clear -HD2 Hsub Hsub'; set_solver| | |done].
    + rewrite Hdom2, Hdom, (gone_union off D' Dc Dc' D2) by done. by rewrite difference_difference_l_L.
    + eapply freed_trans; [exact Hfd|exact Hfd2| |by apply gone_union]. clear -Hsub'. set_solver.
  - exists n'. split_and!; [done|congruence| |by intros _]. destruct Hcnt as [->|[_ <-]]; lia.
Qed.

Lemma filled_count nd off n : filled t nd off -> nd !! off = Some n -> (min_of t n <= keyCount n)%nat /\ (0 < keyCount n)%nat.
Proof using Type*.
  intros (m & Hm & Hf) Hn. rewrite Hn in Hm. injection Hm as <-. pose proof (min_leaf_half t Ht). pose proof (min_intrn_half t Ht).
  unfold min_of. destruct (is_leaf n); lia.
Qed.

Section key.
Context (k : key) (Hk : length k = s_key t).

Lemma in_focus nd h cs ks D kvs f nx c Dc Do pre kc suf fc nc lo hi :
  focus t nd h cs ks D kvs f nx k c Dc Do pre kc suf fc nc lo hi -> bool_decide (k ∈ kvs.*1) = bool_decide (k ∈ kc.*1).
Proof using Type*.
  intros F. apply bool_decide_ext. rewrite (fo_kvs _ _ _ _ _ _ _ _ _ _ _ _ _ _ _ _ _ _ _ _ F), !fmap_app, !elem_of_app.
  pose proof (fo_pre _ _ _ _ _ _ _ _ _ _ _ _ _ _ _ _ _ _ _ _ F) as Hp. pose proof (fo_suf _ _ _ _ _ _ _ _ _ _ _ _ _ _ _ _ _ _ _ _ F) as Hs.
  rewrite list.Forall_forall in Hp, Hs. split; [|tauto]. intros [(e & -> & He)%list_elem_of_fmap|[?|(e & -> & He)%list_elem_of_fmap]]; [|done|].
  - by apply Hp, klt_irrefl in He.
  - by apply Hs, klt_irrefl in He.
Qed.

Lemma delete_leaf s fuel off prev index merged D kvs f nx n :
  bs_tree s = t -> rep t (bs_nodes s) 0 off D kvs f nx -> bs_nodes s !! off = Some n ->
  if bool_decide (k ∈ kvs.*1)
  then exists s1, delete_from (S fuel) off prev k index merged s = (m ← delete_fix off prev index merged; mret (Some m)) s1 /\
    del_post s s1 0 off n D (kv_del k kvs) f nx merged
  else delete_from (S fuel) off prev k index merged s = (Ok None, s).
Proof using Type*.
  intros Hs (n0 & Hn0 & Hl & -> & ->) Hn. rewrite Hn in Hn0. injection Hn0 as <-. cbn [delete_from].
  erewrite bbind_ok by reflexivity. erewrite bbind_ok by (by apply read_node_ok). rewrite (lf_leaf _ _ _ _ Hl), Hs.
  case_bool_decide as Hin.
  - destruct (removeKey_ok t Ht n kvs nx k Hk Hl Hin) as (n' & E & Hl' & Hidx). eexists. split.
    + erewrite bbind_ok; [|erewrite bbind_ok by (unfold blift; by rewrite E); cbv beta iota; erewrite bbind_ok by reflexivity; reflexivity].
      cbv beta iota. reflexivity.
    + split_and!; cbn [bs_tree bs_nodes bs_pool]; [done|done| | |].
      * intros o Ho. rewrite lookup_insert_ne; [done|set_solver].
      * exists {[off]}. split_and!; [done| |apply freed_none; [done|apply difference_diag_L]|exists n'; by rewrite lookup_insert_eq].
        rewrite dom_insert_L. apply (elem_of_dom_2 (D := gset Z)) in Hn. set_solver.
      * exists n'. rewrite lookup_insert_eq. split_and!; [done|by rewrite (lf_leaf _ _ _ _ Hl'), (lf_leaf _ _ _ _ Hl)| |by rewrite (lf_leaf _ _ _ _ Hl)].
        rewrite (lf_count _ _ _ _ Hl), (lf_count _ _ _ _ Hl'). unfold kv_del. rewrite length_delete; [lia|by apply lookup_lt_is_Some_2].
  - erewrite bbind_ok; [|erewrite bbind_ok by (unfold blift; by rewrite (removeKey_absent t n kvs nx k Hk Hl Hin)); cbv beta iota; reflexivity].
    reflexivity.
Qed.

Lemma delete_from_ok h : forall s fuel off prev index merged D kvs f nx n,
  bs_tree s = t -> rep t (bs_nodes s) h off D kvs f nx -> (h < fuel)%nat -> bs_nodes s !! off = Some n -> (0 < keyCount n)%nat ->
  root t ∉ D ∖ {[off]} ->
  if bool_decide (k ∈ kvs.*1)
  then exists m1 s1, delete_from fuel off prev k index merged s = (m ← delete_fix off prev index m1; mret (Some m)) s1 /\
    del_post s s1 h off n D (kv_del k kvs) f nx m1
  else delete_from fuel off prev k index merged s = (Ok None, s).
Proof using Type*.
  induction h as [|h IH]; intros s fuel off prev index merged D kvs f nx n Hs Hr Hf Hn Hpos Hroot; (destruct fuel as [|fuel]; [lia|]).
  - pose proof (delete_leaf s fuel off prev index merged D kvs f nx n Hs Hr Hn) as H. case_bool_decide; [|done]. destruct H as (s1 & H). by exists merged, s1.
  - destruct Hr as (n0 & seps & cs & D' & Hn0 & Hi & ED & Hoff & Hrow). rewrite Hn in Hn0. injection Hn0 as <-.
    destruct (reps_focus t Ht _ _ _ _ _ _ _ _ k Hrow (in_valid _ _ _ _ Hi) Hk) as (c & Dc & Do & pre & kc & suf & fc & nc & lo & hi & F).
    pose proof (fo_at _ _ _ _ _ _ _ _ _ _ _ _ _ _ _ _ _ _ _ _ F) as Hc. pose proof (fo_child _ _ _ _ _ _ _ _ _ _ _ _ _ _ _ _ _ _ _ _ F) as [Hrc Hfc].
    destruct (fo_dom _ _ _ _ _ _ _ _ _ _ _ _ _ _ _ _ _ _ _ _ F) as [ED' HDD]. rewrite (in_focus _ _ _ _ _ _ _ _ _ _ _ _ _ _ _ _ _ _ F).
    assert (Hcd : exists mc, bs_nodes s !! c = Some mc) by (destruct Hfc as (mc & Hmc & _); by exists mc). destruct Hcd as [mc Hmc].
    destruct (filled_count _ _ _ Hfc Hmc) as [Hfull Hcpos]. pose proof (rep_root t _ _ _ _ _ _ _ Hrc) as Hcin.
    assert (Hcoff : c <> off) by set_solver. assert (Hcroot : c <> root t) by set_solver.
    specialize (IH s fuel c (Some off) (kidx k seps) merged Dc kc fc nc mc Hs Hrc ltac:(lia) Hmc Hcpos ltac:(set_solver)).
    cbn [delete_from]. erewrite bbind_ok by reflexivity. erewrite bbind_ok by (by apply read_node_ok).
    rewrite (in_leaf _ _ _ _ Hi), (inner_idx t _ _ _ k Hi). cbv zeta.
    assert (Ech : blift (res_nth (children n) (kidx k seps)) s = (Ok c, s)).
    { apply blift_nth. rewrite (in_child _ _ _ _ Hi); [done|]. by eapply lookup_lt_Some. }
    case_bool_decide as Hin.
    + destruct IH as (m1 & s1 & E & (Et & Ep & Hfr & (Dc' & Hsub & Hdom & Hfd & Hrc') & n' & Hn' & Hl' & Hcnt & _)).
      assert (Hmin : (min_of t n' <= S (keyCount n'))%nat) by (unfold min_of in *; rewrite Hl'; lia).
      destruct (fix_ok s1 (bs_nodes s) h off n seps cs D' kvs f nx k (kidx k seps) c Dc Dc' kc fc nc n') with (merged := m1) as (m2 & s2 & E2 & Hfix);
        [congruence|rewrite Hfr; [done|set_solver]|done|by rewrite <- (in_count _ _ _ _ Hi)|done|done|done|done|set_solver|done|done|intros; by apply Hfr|done|done|done|done|done|].
      exists m2, s2. split.
      * erewrite bbind_ok; [|erewrite bbind_ok by exact Ech; rewrite E; erewrite bbind_ok by exact E2; reflexivity]. reflexivity.
      * eapply (del_fix_post s s1 s2 h off n D D' Dc Dc'); try done; [set_solver|apply Hi].
    + erewrite bbind_ok; [|erewrite bbind_ok by exact Ech; exact IH]. reflexivity.
Qed.
End key.
End delete.

(** ** The whole tree *)

Lemma rep_nonempty_inner t nd h off D kvs f nx : params_ok t -> rep t nd (S h) off D kvs f nx -> kvs <> [].
Proof.
  intros Ht (n & ss & cs & D' & _ & _ & _ & _ & Hr). exact (reps_nonempty _ (child_ne t Ht nd h) _ _ _ _ _ _ _ _ Hr).
Qed.

Section top.
Context (s : bstate) (kvs : list kv) (HI : btree_ok s kvs) (k : key) (Hk : length k = s_key (bs_tree s)).

Let t := bs_tree s.

Lemma delete_run h n :
  height t = S h -> rep t (bs_nodes s) h (root t) (dom (bs_nodes s)) kvs (left_leaf t) 0 -> bs_nodes s !! root t = Some n -> (0 < keyCount n)%nat ->
  if bool_decide (k ∈ kvs.*1)
  then exists m1 s1, delete_from (height t) (root t) None k (search_idx (keys n) (keyCount n) k) false s = (Ok (Some m1), s1) /\
    del_post t s s1 h (root t) n (dom (bs_nodes s)) (kv_del k kvs) (left_leaf t) 0 m1
  else delete_from (height t) (root t) None k (search_idx (keys n) (keyCount n) k) false s = (Ok None, s).
Proof using Type*.
  intros Hh Hr Hn Hpos. pose proof (bo_params _ _ HI) as Ht. fold t in Ht.
  pose proof (delete_from_ok t Ht k Hk h s (height t) (root t) None (search_idx (keys n) (keyCount n) k) false _ _ _ _ n eq_refl Hr ltac:(lia) Hn Hpos ltac:(set_solver)) as H.
  case_bool_decide; [|done]. destruct H as (m1 & s1 & E & Hp). exists m1, s1. split; [|done]. rewrite E.
  destruct Hp as (Et & _ & _ & _ & n' & Hn' & _). unfold delete_fix. erewrite bbind_ok; [reflexivity|].
  erewrite bbind_ok by reflexivity. erewrite bbind_ok by (by apply read_node_ok). rewrite Et. fold t. rewrite Z.eqb_refl. reflexivity.
Qed.

Lemma delete_absent : k ∉ kvs.*1 -> btree_delete_impl k s = (Err E_NOT_FOUND, s).
Proof using Type*.
  intros Hno. unfold btree_delete_impl. erewrite bbind_ok by reflexivity. fold t.
  destruct (bo_tree _ _ HI) as [(Hroot & _)|(_ & h & n & Hh & Hr & Hn & Hpos)]; [fold t in Hroot; by rewrite Hroot|]. fold t in Hh, Hr, Hn.
  assert (Hr0 : root t <> 0) by (intros E; rewrite E, (bo_zero _ _ HI) in Hn; done). rewrite (proj2 (Z.eqb_neq _ _) Hr0).
  erewrite bbind_ok by (by apply read_node_ok). pose proof (delete_run h n Hh Hr Hn Hpos) as H. rewrite bool_decide_false in H by done.
  by erewrite bbind_ok by exact H.
Qed.

Lemma kv_del_length : k ∈ kvs.*1 -> S (length (kv_del k kvs)) = length kvs.
Proof using Type*.
  intros Hin. destruct (btree_ok_sorted _ _ HI) as [Hso Hv]. pose proof (found_key t k kvs Hk Hso Hv Hin) as Hf.
  apply lookup_lt_Some in Hf. rewrite length_fmap in Hf. unfold kv_del. rewrite length_delete; [lia|by apply lookup_lt_is_Some_2].
Qed.

(** What is left of the tree is well-formed. *)
Lemma delete_state s' h n :
  bs_pool s' = bs_pool s -> dom (bs_nodes s') ⊆ dom (bs_nodes s) -> k ∈ kvs.*1 -> params_ok (bs_tree s') ->
  bt_size (bs_tree s') = u64 (bt_size t - 1) -> height (bs_tree s') = S h -> kv_del k kvs <> [] ->
  rep (bs_tree s') (bs_nodes s') h (root (bs_tree s')) (dom (bs_nodes s')) (kv_del k kvs) (left_leaf (bs_tree s')) 0 ->
  bs_nodes s' !! root (bs_tree s') = Some n -> (0 < keyCount n)%nat -> btree_ok s' (kv_del k kvs).
Proof using Type*.
  intros Ep Hsub Hin Ht' Hsz Hh Hne Hr Hn Hpos. destruct (bo_size _ _ HI) as [Es Hb]. destruct (bo_pool _ _ HI) as [Hnd Hnew].
  pose proof (kv_del_length Hin) as Hlen. fold t in Es. split.
  - done.
  - apply not_elem_of_dom. intros Hz. apply Hsub, elem_of_dom in Hz as [? Hz]. by rewrite (bo_zero _ _ HI) in Hz.
  - rewrite Hsz, Es. unfold u64. rewrite Z.mod_small by lia. lia.
  - right. split; [done|]. by exists h, n.
  - rewrite Ep. split; [done|]. intros p Hp. destruct (Hnew p Hp) as [H0 H1]. split; [done|].
    apply not_elem_of_dom. intros Hz. apply Hsub, elem_of_dom in Hz as [? Hz]. by rewrite H1 in Hz.
Qed.

Lemma delete_present :
  k ∈ kvs.*1 -> exists s', btree_delete_impl k s = (Ok tt, s') /\ btree_ok s' (kv_del k kvs) /\ bs_pool s' = bs_pool s /\
    dom (bs_nodes s') ⊆ dom (bs_nodes s) /\ freed s s' (dom (bs_nodes s) ∖ dom (bs_nodes s')).
Proof using Type*.
  intros Hin. pose proof (bo_params _ _ HI) as Ht. fold t in Ht. pose proof (kv_del_length Hin) as Hlen.
  destruct (bo_tree _ _ HI) as [(_ & Hnil & _)|(_ & h & n & Hh & Hr & Hn & Hpos)]; [rewrite Hnil in Hin; set_solver|]. fold t in Hh, Hr, Hn.
  assert (Hr0 : root t <> 0) by (intros E; rewrite E, (bo_zero _ _ HI) in Hn; done).
  pose proof (delete_run h n Hh Hr Hn Hpos) as H. rewrite bool_decide_true in H by done.
  destruct H as (m1 & s1 & E & (Et & Ep & _ & (D' & HD' & Hdom & Hfd & Hrep) & n' & Hn' & Hl' & Hcnt & Hm)).
  assert (Hdom1 : dom (bs_nodes s1) = D') by (rewrite Hdom; apply set_eq; intros o; destruct (decide (o ∈ D')); set_solver). clear Hdom.
  unfold btree_delete_impl. erewrite bbind_ok by reflexivity. fold t. rewrite (proj2 (Z.eqb_neq _ _) Hr0).
  erewrite bbind_ok by (by apply read_node_ok). erewrite bbind_ok by exact E. cbv beta iota zeta. erewrite bbind_ok by reflexivity.
  set (t1 := set_tree (height t) (u64 (bt_size t - 1)) (root t) (left_leaf t) t). cbn [root set_tree].
  erewrite bbind_ok by (by apply read_node_ok). pose proof (rep_is_leaf t _ _ _ _ _ _ _ _ Hrep Hn') as Hleaf.
  assert (Hone : forall s', bs_freed s' = root t :: bs_freed s1 -> dom (bs_nodes s') = D' ∖ {[root t]} -> root t ∈ D' ->
    freed s s' (dom (bs_nodes s) ∖ dom (bs_nodes s'))).
  { intros s' Ef Ed Hin'. apply (freed_trans s s1 s' (dom (bs_nodes s) ∖ D') {[root t]}); [exact Hfd| |set_solver|].
    - exists [root t]. split_and!; [done|apply NoDup_singleton|]. simpl. by rewrite union_empty_r_L.
    - rewrite Ed. clear -Hin' HD'. apply set_eq. intros o. destruct (decide (o = root t)), (decide (o ∈ D')); set_solver. }
  assert (Hrd : root t ∈ D') by (by eapply rep_root). assert (HDs : D' ∖ {[root t]} ⊆ dom (bs_nodes s)) by (clear -HD'; set_solver).
  destruct h as [|h]; cbn [Nat.eqb] in Hleaf; rewrite Hleaf.
  - pose proof Hrep as (n'' & Hn'' & Hlf & ED & Hll). rewrite Hn' in Hn''. injection Hn'' as <-.
    destruct (keyCount n' =? 0)%nat eqn:Ec; bool_hyps; cbn [andb].
    + erewrite bbind_ok by reflexivity. eexists. split; [reflexivity|]. rewrite (lf_count _ _ _ _ Hlf) in Ec.
      destruct (kv_del k kvs) as [|] eqn:Ekv; [|done]. destruct (bo_size _ _ HI) as [Es Hb]. fold t in Es. destruct (bo_pool _ _ HI) as [Hnd Hnew].
      assert (Hd : dom (delete (root t) (bs_nodes s1)) = D' ∖ {[root t]}) by (by rewrite dom_delete_L, Hdom1).
      assert (Hemp : delete (root t) (bs_nodes s1) = ∅) by (apply dom_empty_inv_L; rewrite Hd, ED; apply difference_diag_L).
      change (root t1) with (root t). split_and!; cbn [bs_tree bs_nodes bs_pool]; [|done|by rewrite Hd|by apply Hone].
      split; cbn [bs_tree bs_nodes bs_pool]; rewrite ?Hemp.
      * by apply params_set_tree, params_set_tree.
      * apply lookup_empty.
      * cbn [bt_size set_tree t1]. rewrite Es. simpl in Hlen. rewrite <- Hlen. done.
      * left. done.
      * rewrite Ep. split; [done|]. intros p Hp. split; [by apply Hnew|done].
    + rewrite andb_false_r. eexists. split; [reflexivity|]. cbn [bs_tree bs_nodes bs_pool]. rewrite Hdom1. split_and!; [|done|done|done].
      eapply (delete_state _ 0 n'); cbn [bs_tree bs_nodes bs_pool]; try done.
      * by rewrite Hdom1.
      * by apply params_set_tree.
      * rewrite (lf_count _ _ _ _ Hlf) in Ec. by destruct (kv_del k kvs).
      * rewrite Hdom1. apply rep_set_tree. exact Hrep.
      * lia.
  - cbn [andb]. assert (Hne : kv_del k kvs <> []) by (by eapply rep_nonempty_inner).
    destruct (m1 && (keyCount n' =? 0)%nat) eqn:Ec; bool_hyps.
    + pose proof Hrep as (n'' & ss & cs & E1 & Hn'' & Hi & HD1 & Hoff & Hrow). rewrite Hn' in Hn''. injection Hn'' as <-.
      assert (Hss : ss = []) by (apply nil_length_inv; rewrite <- (in_count _ _ _ _ Hi); lia). subst ss.
      apply reps_inv in Hrow as [(c & -> & _ & [Hc Hfc] & _)|(? & ? & ? & ? & ? & ? & ? & ? & ? & ? & ? & _)]; [|done].
      erewrite bbind_ok by (apply blift_nth; rewrite (in_child _ _ _ _ Hi) by (simpl; lia); reflexivity). erewrite bbind_ok by reflexivity.
      assert (Hmc : exists mc, bs_nodes s1 !! c = Some mc) by (destruct Hfc as (mc & Hmc & _); by exists mc). destruct Hmc as [mc Hmc].
      pose proof (rep_root t _ _ _ _ _ _ _ Hc) as Hcin. assert (Hcr : c <> root t) by (intros ->; done).
      assert (Hd : dom (delete (root t) (bs_nodes s1)) = D' ∖ {[root t]}) by (by rewrite dom_delete_L, Hdom1).
      erewrite bbind_ok by (by apply read_node_ok). eexists. split; [reflexivity|]. change (root t1) with (root t).
      split_and!; cbn [bs_tree bs_nodes bs_pool]; [|done|by rewrite Hd|by apply Hone].
      destruct (filled_count t Ht _ _ _ Hfc Hmc) as [_ Hcpos].
      eapply (delete_state _ h mc); cbn [bs_tree bs_nodes bs_pool root height left_leaf bt_size set_tree t1]; try done.
      * by rewrite Hd.
      * by apply params_set_tree, params_set_tree.
      * rewrite Hh. lia.
      * rewrite Hd, HD1. replace (({[root t]} ∪ E1) ∖ {[root t]}) with E1 by (clear -Hoff; set_solver).
        apply rep_set_tree, rep_set_tree. eapply rep_frame; [|exact Hc]. intros o Ho. apply lookup_delete_ne. intros <-. done.
      * by rewrite lookup_delete_ne.
    + eexists. split; [reflexivity|]. cbn [bs_tree bs_nodes bs_pool]. rewrite Hdom1. split_and!; [|done|done|done].
      eapply (delete_state _ (S h) n'); cbn [bs_tree bs_nodes bs_pool]; try done.
      * by rewrite Hdom1.
      * by apply params_set_tree.
      * rewrite Hdom1. by apply rep_set_tree.
      * rewrite Hleaf in Hl'. destruct (Hm (eq_sym Hl')) as [->|[-> Hc]]; [done|]. simpl in Ec. apply Nat.eqb_neq in Ec. lia.
Qed.
End top.

Lemma kv_del_Permutation t k kvs :
  length k = s_key t -> sorted kvs -> Forall (vkv t) kvs -> k ∈ kvs.*1 -> exists v, kvs ≡ₚ (k, v) :: kv_del k kvs.
Proof.
  intros Hk Hs Hv Hin. pose proof (found_key t k kvs Hk Hs Hv Hin) as Hf. rewrite list_lookup_fmap in Hf.
  apply fmap_Some in Hf as ([k' v] & He & ->). exists v. by apply delete_Permutation.
Qed.

(** C23: deletion.  Deleting a key that is there succeeds, and the tree then stands
    for the sorted list without its entry, whatever entries moved between
    siblings and whatever nodes were merged on the way; deleting a key that is
    not there fails with [E_NOT_FOUND] and changes nothing. *)
Theorem btree_delete_correct s kvs k :
  btree_ok s kvs -> length k = s_key (bs_tree s) ->
  if bool_decide (k ∈ kvs.*1)
  then exists s' kvs' v, btree_delete_impl k s = (Ok tt, s') /\ btree_ok s' kvs' /\ sorted kvs' /\ kvs ≡ₚ (k, v) :: kvs'
  else btree_delete_impl k s = (Err E_NOT_FOUND, s).
Proof.
  intros HI Hk. case_bool_decide as Hin; [|by eapply delete_absent].
  destruct (delete_present s kvs HI k Hk Hin) as (s' & E & HI' & _). destruct (btree_ok_sorted _ _ HI) as [Hs Hv].
  destruct (kv_del_Permutation _ k kvs Hk Hs Hv Hin) as [v Hp]. exists s', (kv_del k kvs), v.
  split_and!; [done|done|by eapply btree_ok_sorted|done].
Qed.

(** The leaf that loses the key is merged with its sibling, and so is the root. *)
Lemma btree_delete_correct_witness :
  (exists s' kvs' v, btree_delete_impl [9] example_state = (Ok tt, s') /\ btree_ok s' kvs' /\ sorted kvs' /\ example_kvs ≡ₚ ([9], v) :: kvs') /\
  height (bs_tree example_state) = 2%nat /\
  height (bs_tree (snd (btree_delete_impl [1] (snd (btree_delete_impl [9] example_state))))) = 1%nat.
Proof.
  split; [exact (btree_delete_correct example_state example_kvs [9] example_ok eq_refl)|]. split; by vm_compute.
Defined.
