(* ===== verification/Log.v ===== *)
(** * The write-ahead log of kern/kern/log.c

    Nodes of the B+-trees that were written since the last flush are in memory;
    [log_flush] appends the dirty ones to a region of the disk, [log_apply_mem]
    and [log_apply_disk] copy nodes to their places.  The last section has the
    commit and the recovery of [pstate.c] around it.

    Every access to the disk takes the next outcome of an oracle (an empty list
    means that all accesses succeed); every disk that a write leaves behind is
    recorded, since the machine may stop there. *)

From S2P Require Import Prelude Hashtable.
From stdpp Require Import options.

Set Default Goal Selector "!".

Definition BTREE_BLOCK_SIZE : Z := 4096.
Definition LOG_OFFSET : Z := 1.
Definition MAX_LOG_PAGES : Z := 131072.
Definition LOG_MEMORY : Z := 1024.
(** [PGSIZE / sizeof(struct hashentry)] and the size of [map_back]. *)
Definition MAP_ENTRIES : Z := 256.
Definition MAP_BACK : Z := MAX_LOG_PAGES / MAP_ENTRIES + 1.

(** ** State *)

(** A node of a tree, in memory or on disk: where it belongs, [is_dirty], and
    the rest of its page. *)
Record lnode := LNode { ln_offset : Z; ln_dirty : bool; ln_data : list Z }.

Definition zero_node : lnode := LNode 0 false [].

(** The part of the header of the disk that concerns the log. *)
Record pstate_header := mkHdr { ph_log_blocks : Z; ph_log_max : Z }.

Record disk_t := Disk { d_hdr : pstate_header; d_blocks : gmap Z lnode }.

Record the_log := mkLog {
  byteoff : Z;
  npages : Z;
  max_mem : Z;
  in_mem : Z;
  tailq_inited : bool;
  must_apply : bool;
  nodes : list lnode;
  free_nodes : nat;
  on_disk : Z;
  disk_map : hashtable;
  map_back : nat
}.

Definition set_nodes (x : list lnode) (l : the_log) : the_log :=
  mkLog (byteoff l) (npages l) (max_mem l) (in_mem l) (tailq_inited l) (must_apply l) x (free_nodes l) (on_disk l) (disk_map l) (map_back l).
Definition set_free_nodes (x : nat) (l : the_log) : the_log :=
  mkLog (byteoff l) (npages l) (max_mem l) (in_mem l) (tailq_inited l) (must_apply l) (nodes l) x (on_disk l) (disk_map l) (map_back l).
Definition set_in_mem (x : Z) (l : the_log) : the_log :=
  mkLog (byteoff l) (npages l) (max_mem l) x (tailq_inited l) (must_apply l) (nodes l) (free_nodes l) (on_disk l) (disk_map l) (map_back l).
Definition set_on_disk (x : Z) (l : the_log) : the_log :=
  mkLog (byteoff l) (npages l) (max_mem l) (in_mem l) (tailq_inited l) (must_apply l) (nodes l) (free_nodes l) x (disk_map l) (map_back l).
Definition set_disk_map (x : hashtable) (l : the_log) : the_log :=
  mkLog (byteoff l) (npages l) (max_mem l) (in_mem l) (tailq_inited l) (must_apply l) (nodes l) (free_nodes l) (on_disk l) x (map_back l).
Definition set_must_apply (x : bool) (l : the_log) : the_log :=
  mkLog (byteoff l) (npages l) (max_mem l) (in_mem l) (tailq_inited l) x (nodes l) (free_nodes l) (on_disk l) (disk_map l) (map_back l).

(** An access that fails may leave something else in the block. *)
Inductive io_outcome := io_success | io_failure (left : option lnode).

(** [ram] is the number of free pages of memory. *)
Record lstate := mkL { lg : the_log; dk : disk_t; io : list io_outcome; writes : list disk_t; ram : nat }.

(** ** The monad of the log operations *)

Definition LM (A : Type) : Type := lstate -> res A * lstate.

#[export] Instance LM_ret : MRet LM := fun A a s => (Ok a, s).
#[export] Instance LM_bind : MBind LM := fun A B f m s =>
  match m s with
  | (Ok a, s') => f a s'
  | (Err e, s') => (Err e, s')
  | (Panic, s') => (Panic, s')
  end.

Definition lfail {A} (e : Z) : LM A := fun s => (Err e, s).
Definition lpanic {A} : LM A := fun s => (Panic, s).
Definition lassert (b : bool) : LM unit := if b then mret tt else lpanic.
(** A call whose error code is looked at. *)
Definition ltry {A B} (m : LM A) (f : res A -> LM B) : LM B := fun s =>
  match m s with
  | (Panic, s') => (Panic, s')
  | (r, s') => f r s'
  end.
Definition lift_res {A} (r : res A) : LM A := fun s => (r, s).
Definition get_log : LM the_log := fun s => (Ok (lg s), s).
Definition upd_log (f : the_log -> the_log) : LM unit := fun s => (Ok tt, mkL (f (lg s)) (dk s) (io s) (writes s) (ram s)).

(** [stackwrap_disk_io]. *)
Definition next_io : LM io_outcome := fun s =>
  (Ok (hd io_success (io s)), mkL (lg s) (dk s) (tail (io s)) (writes s) (ram s)).

Definition put_disk (d : disk_t) : LM unit := fun s => (Ok tt, mkL (lg s) d (io s) (d :: writes s) (ram s)).
Definition get_disk : LM disk_t := fun s => (Ok (dk s), s).

Definition disk_write (n : lnode) (off : Z) : LM unit :=
  o ← next_io;
  d ← get_disk;
  match o with
  | io_success => put_disk (Disk (d_hdr d) (<[off := n]> (d_blocks d)))
  | io_failure None => lfail E_IO
  | io_failure (Some n') => put_disk (Disk (d_hdr d) (<[off := n']> (d_blocks d)));; lfail E_IO
  end.

Definition dread (bl : gmap Z lnode) (off : Z) : lnode := default zero_node (bl !! off).

Definition disk_read (off : Z) : LM lnode :=
  o ← next_io;
  d ← get_disk;
  match o with
  | io_success => mret (dread (d_blocks d) off)
  | io_failure _ => lfail E_IO
  end.

(** A change of the map whose return code is ignored. *)
Definition map_upd (f : hashtable -> res hashtable) : LM unit :=
  l ← get_log;
  match f (disk_map l) with
  | Ok t => upd_log (set_disk_map t)
  | Err _ => mret tt
  | Panic => lpanic
  end.

(** ** The lists of nodes *)

Fixpoint log_write_to_disk (ns : list lnode) : LM unit :=
  match ns with
  | [] => mret tt
  | n :: ns =>
      l ← get_log;
      lassert ((ln_offset n <? byteoff l) || (byteoff l + npages l * BTREE_BLOCK_SIZE <=? ln_offset n));;
      disk_write n (ln_offset n);;
      log_write_to_disk ns
  end.

Definition clean (n : lnode) : lnode := LNode (ln_offset n) false (ln_data n).

(** The loop over [the_log.nodes], of which [done] are behind it; the result is
    how many were written. *)
Fixpoint log_write_loop (done todo : list lnode) (off n : Z) : LM Z :=
  match todo with
  | [] => mret n
  | x :: todo =>
      if negb (ln_dirty x) then log_write_loop (done ++ [x]) todo off n
      else
        l ← get_log;
        lassert (off + n * BTREE_BLOCK_SIZE <? npages l * BTREE_BLOCK_SIZE + byteoff l);;
        disk_write x (off + n * BTREE_BLOCK_SIZE);;
        map_upd (fun t => hash_put t (ln_offset x) (off + n * BTREE_BLOCK_SIZE));;
        upd_log (set_nodes (done ++ clean x :: todo));;
        log_write_loop (done ++ [clean x]) todo off (n + 1)
  end.

Definition log_write_to_log (off : Z) : LM Z :=
  l ← get_log;
  lassert (byteoff l <=? off);;
  log_write_loop [] (nodes l) off 0.

(** [log_free_list] of a list that is not [the_log.nodes], and of that one. *)
Definition log_free_list (ns : list lnode) : LM Z :=
  upd_log (fun l => set_free_nodes (length ns + free_nodes l) l);;
  mret (Z.of_nat (length ns)).
Definition log_free_nodes : LM Z :=
  l ← get_log;
  upd_log (set_nodes []);;
  log_free_list (nodes l).

(** The first node of the free list. *)
Definition take_free : LM unit :=
  l ← get_log;
  match free_nodes l with
  | O => lpanic
  | S k => upd_log (set_free_nodes k)
  end.

(** A failed read is reported with the nodes read before. *)
Fixpoint log_read_log (off : Z) (n : nat) (acc : list lnode) : LM (bool * list lnode) :=
  match n with
  | O => mret (true, acc)
  | S n =>
      take_free;;
      ltry (disk_read off) (fun r =>
        match r with
        | Ok x => log_read_log (off + BTREE_BLOCK_SIZE) n (acc ++ [x])
        | _ => mret (false, acc)
        end)
  end.

Fixpoint log_read_map (fuel : nat) (it : hashiter) (max_nodes : Z) (acc : list lnode) : LM (list lnode) :=
  match fuel with
  | O => lpanic
  | S fuel =>
      l ← get_log;
      it' ← lift_res (hashiter_next (disk_map l) it);
      match it' with
      | None => mret acc
      | Some it =>
          take_free;;
          x ← disk_read (hi_val it);
          lassert (ln_offset x =? hi_key it);;
          let acc := x :: acc in
          if max_nodes <=? Z.of_nat (length acc) then mret acc
          else log_read_map fuel it max_nodes acc
      end
  end.

(** ** Operations *)

Definition find_node (b : Z) (ns : list lnode) : option (nat * lnode) := list_find (fun x => ln_offset x = b) ns.

Definition log_try_read (b : Z) : LM lnode :=
  l ← get_log;
  match find_node b (nodes l) with
  | Some (_, x) => mret x
  | None =>
      match hash_get (disk_map l) b with
      | Ok log_off => disk_read log_off
      | Err _ => lfail E_NOT_FOUND
      | Panic => lpanic
      end
  end.

Definition log_flush : LM Z :=
  l ← get_log;
  if npages l <=? in_mem l + on_disk l + 1 then lpanic
  else
    count ← log_write_to_log (byteoff l + on_disk l * BTREE_BLOCK_SIZE);
    lassert (count <=? in_mem l);;
    upd_log (set_on_disk (on_disk l + count));;
    mret (on_disk l + count).

Definition log_write (node : lnode) : LM unit :=
  l ← get_log;
  match find_node (ln_offset node) (nodes l) with
  | Some (i, _) => upd_log (set_nodes (delete i (nodes l)))
  | None =>
      (if in_mem l =? max_mem l then
         log_flush;;
         count ← log_free_nodes;
         l ← get_log;
         upd_log (set_in_mem (in_mem l - count));;
         lassert (in_mem l - count =? 0)
       else mret tt);;
      take_free;;
      upd_log (fun l => set_in_mem (in_mem l + 1) l)
  end;;
  upd_log (fun l => set_nodes (nodes l ++ [LNode (ln_offset node) true (ln_data node)]) l).

Definition log_free (b : Z) : LM unit :=
  l ← get_log;
  match find_node b (nodes l) with
  | Some (i, _) =>
      upd_log (fun l => set_in_mem (in_mem l - 1) (set_free_nodes (S (free_nodes l)) (set_nodes (delete i (nodes l)) l)))
  | None => mret tt
  end;;
  l ← get_log;
  match hash_get (disk_map l) b with
  | Ok _ => upd_log (set_must_apply true);; map_upd (fun t => hash_del t b)
  | Err _ => mret tt
  | Panic => lpanic
  end.

(** [page_alloc], [n] times; a failure is a panic here. *)
Definition take_ram (n : nat) : LM unit := fun s =>
  if (n <=? ram s)%nat then (Ok tt, mkL (lg s) (dk s) (io s) (writes s) (ram s - n)) else (Panic, s).

Definition log_init (log_pages : Z) : LM unit :=
  l ← get_log;
  (if tailq_inited l then mret tt
   else
     take_ram (Z.to_nat LOG_MEMORY);;
     upd_log (fun l => mkLog (byteoff l) (npages l) (max_mem l) (in_mem l) true (must_apply l) [] (Z.to_nat LOG_MEMORY)
                         (on_disk l) (disk_map l) (map_back l)));;
  let need := log_pages / MAP_ENTRIES + 1 in
  lassert (need <=? MAP_BACK);;
  take_ram (Z.to_nat need - map_back l);;
  log_free_nodes;;
  match hash_init2 (replicate (Z.to_nat need) (replicate (Z.to_nat MAP_ENTRIES) zero_entry)) (Z.to_nat log_pages)
          (Z.to_nat BTREE_BLOCK_SIZE) with
  | Ok t =>
      upd_log (fun l => mkLog (LOG_OFFSET * BTREE_BLOCK_SIZE) log_pages LOG_MEMORY 0 true false (nodes l) (free_nodes l) 0 t
                          (max (map_back l) (Z.to_nat need)))
  | _ => lpanic
  end.

(** The loop takes at least one node per round. *)
Fixpoint apply_disk_loop (fuel : nat) (off n_nodes : Z) : LM unit :=
  if n_nodes =? 0 then mret tt
  else
    match fuel with
    | O => lpanic
    | S fuel =>
        l ← get_log;
        let n := Z.min n_nodes (max_mem l) in
        '(ok, ns) ← log_read_log off (Z.to_nat n) [];
        if (ok : bool) then
          ltry (log_write_to_disk ns) (fun r =>
            log_free_list ns;;
            match r with
            | Ok _ => apply_disk_loop fuel (off + n * BTREE_BLOCK_SIZE) (n_nodes - n)
            | _ => lift_res r
            end)
        else log_free_list ns;; lfail E_IO
    end.

Definition log_apply_disk (n_nodes : Z) : LM unit :=
  l ← get_log;
  log_init (npages l);;
  apply_disk_loop (Z.to_nat n_nodes) (byteoff l) n_nodes;;
  l ← get_log;
  log_init (npages l).

Fixpoint map_del_all (ns : list lnode) : LM unit :=
  match ns with
  | [] => mret tt
  | n :: ns => map_upd (fun t => hash_del t (ln_offset n));; map_del_all ns
  end.

Fixpoint apply_mem_loop (fuel : nat) : LM unit :=
  l ← get_log;
  if ht_size (disk_map l) =? 0 then mret tt
  else
    match fuel with
    | O => lpanic
    | S fuel =>
        in_log ← log_read_map (S (capacity (disk_map l))) hashiter_init (max_mem l) [];
        lassert (negb (length in_log =? 0)%nat);;
        log_write_to_disk in_log;;
        map_del_all in_log;;
        log_free_list in_log;;
        apply_mem_loop fuel
    end.

Definition log_apply_mem : LM unit :=
  l ← get_log;
  log_write_to_disk (nodes l);;
  map_del_all (nodes l);;
  count ← log_free_nodes;
  upd_log (fun l => set_in_mem (in_mem l - count) l);;
  l ← get_log;
  lassert (in_mem l =? 0);;
  apply_mem_loop (Z.to_nat (ht_size (disk_map l)));;
  l ← get_log;
  log_init (npages l).

Definition log_must_apply : LM bool := l ← get_log; mret (must_apply l).

(** ** Commit and recovery in kern/kern/pstate.c *)

(** A transfer with [op_flush]. *)
Definition disk_flush : LM unit :=
  o ← next_io;
  match o with io_success => mret tt | io_failure _ => lfail E_IO end.

(** The header is one sector: a failed write leaves the old one, or has put the new
    one on the disk all the same. *)
Definition write_header (h : pstate_header) : LM unit :=
  o ← next_io;
  d ← get_disk;
  match o with
  | io_success => put_disk (Disk h (d_blocks d))
  | io_failure None => lfail E_IO
  | io_failure (Some _) => put_disk (Disk h (d_blocks d));; lfail E_IO
  end.

(** [do { r = f(); } while (r < 0)]: a failure takes an outcome of the oracle. *)
Fixpoint retry (fuel : nat) (m : LM unit) : LM unit :=
  match fuel with
  | O => lpanic
  | S fuel => ltry m (fun r => match r with Ok _ => mret tt | _ => retry fuel m end)
  end.

Definition retry_io (m : LM unit) : LM unit := fun s => retry (S (length (io s))) m s.

Definition lassert_ok (m : LM unit) : LM unit := ltry m (fun r => lassert (is_ok r)).

(** The part of [pstate_sync_loop] from [log_flush] on; the result is the header
    that is then stable. *)
Definition pstate_sync_commit (hdr : pstate_header) : LM pstate_header :=
  flush_blocks ← log_flush;
  disk_flush;;
  let hdr := mkHdr flush_blocks (ph_log_max hdr) in
  write_header hdr;;
  lassert_ok disk_flush;;
  ma ← log_must_apply;
  if (ph_log_max hdr / 2 <? ph_log_blocks hdr) || ma then
    retry_io log_apply_mem;;
    let hdr := mkHdr 0 (ph_log_max hdr) in
    retry_io (write_header hdr);;
    lassert_ok disk_flush;;
    mret hdr
  else mret hdr.

Definition pstate_apply_disk_log (stable_hdr : pstate_header) : LM pstate_header :=
  log_init (ph_log_max stable_hdr);;
  log_apply_disk (ph_log_blocks stable_hdr);;
  disk_flush;;
  let stable_hdr := mkHdr 0 (ph_log_max stable_hdr) in
  write_header stable_hdr;;
  lassert_ok disk_flush;;
  mret stable_hdr.

(** [pstate_sync_stackwrap] from [log_flush] on: a sync that fails is rolled back to the
    last commit.  The result is the header that is then stable, and whether the sync
    was committed. *)
Definition pstate_sync_finish (stable_hdr hdr : pstate_header) : LM (pstate_header * bool) :=
  ltry (pstate_sync_commit hdr) (fun r =>
    match r with
    | Ok hdr => mret (hdr, true)
    | _ =>
        ltry (pstate_apply_disk_log stable_hdr) (fun r =>
          match r with Ok stable_hdr => mret (stable_hdr, false) | _ => lpanic end)
    end).

(** Memory after a restart. *)
Definition zero_log : the_log := mkLog 0 0 0 0 false false [] 0 0 (mkHashtable [] [] 0 0 0) 0.
Definition reboot (d : disk_t) (io : list io_outcome) (ram : nat) : lstate := mkL zero_log d io [] ram.

(** [pstate_load2] reads the header and applies the log. *)
Definition recover (d : disk_t) (io : list io_outcome) (ram : nat) : res pstate_header * lstate :=
  pstate_apply_disk_log (d_hdr d) (reboot d io ram).
