(* ===== verification/LogProofs.v ===== *)
(** * The log keeps what was written

    What the log stands for: the contents of every block, taken from memory, the
    region of the log or the block itself.  A flush keeps it and makes it
    recoverable; applying the log moves it to the blocks. *)

From S2P Require Import Prelude Hashtable HashtableProofs Log.
From stdpp Require Import options.

Set Default Goal Selector "!".

(** ** Replaying the log *)

Definition LOG_START : Z := LOG_OFFSET * BTREE_BLOCK_SIZE.

(** Where the record with index [i] is, and the first [n] records. *)
Definition log_pos (i : nat) : Z := LOG_START + Z.of_nat i * BTREE_BLOCK_SIZE.
Definition entries (bl : gmap Z lnode) (n : nat) : list lnode := (fun i => dread bl (log_pos i)) <$> seq 0 n.

Definition replay (bl : gmap Z lnode) (es : list lnode) : gmap Z lnode :=
  foldl (fun bl p => <[ln_offset p := p]> bl) bl es.

(** The last record of a block. *)
Fixpoint last_idx (b : Z) (es : list lnode) : option nat :=
  match es with
  | [] => None
  | p :: es =>
      match last_idx b es with
      | Some i => Some (S i)
      | None => if decide (ln_offset p = b) then Some 0%nat else None
      end
  end.

Lemma last_idx_snoc b es p :
  last_idx b (es ++ [p]) = if decide (ln_offset p = b) then Some (length es) else last_idx b es.
Proof.
  induction es as [|q es IH]; simpl; [done|]. rewrite IH. by destruct (decide (ln_offset p = b)).
Qed.

Lemma last_idx_None b es : last_idx b es = None <-> b ∉ ln_offset <$> es.
Proof.
  induction es as [|q es IH]; simpl; [set_solver|]. rewrite not_elem_of_cons, <- IH.
  destruct (last_idx b es); [naive_solver|]. case_decide; naive_solver.
Qed.

Lemma last_idx_Some b es i : last_idx b es = Some i -> exists p, es !! i = Some p /\ ln_offset p = b.
Proof.
  revert i. induction es as [|q es IH]; simpl; intros i Hi; [done|].
  destruct (last_idx b es) as [j|]; [injection Hi as <-; by apply IH|]. case_decide; [|done]. injection Hi as <-. by exists q.
Qed.

Lemma replay_lookup bl es b :
  replay bl es !! b = match last_idx b es with Some i => es !! i | None => bl !! b end.
Proof.
  induction es as [|p es IH] using rev_ind; [done|]. unfold replay. rewrite foldl_snoc, last_idx_snoc. fold (replay bl es).
  rewrite lookup_insert. case_decide.
  - by rewrite list_lookup_middle by done.
  - rewrite IH. destruct (last_idx b es) as [i|] eqn:E; [|done]. apply last_idx_Some in E as (q & Hq & _).
    rewrite lookup_app_l; [done|by eapply lookup_lt_Some].
Qed.

(** The contents of a node, without the flag. *)
Definition cont (x : lnode) : Z * list Z := (ln_offset x, ln_data x).

(** What is in a block after the first [c] records were applied. *)
Definition dview (bl : gmap Z lnode) (c : nat) (b : Z) : Z * list Z := cont (dread (replay bl (entries bl c)) b).

Lemma length_entries bl n : length (entries bl n) = n.
Proof. unfold entries. by rewrite length_fmap, length_seq. Qed.

Lemma entries_lookup bl n i : (i < n)%nat -> entries bl n !! i = Some (dread bl (log_pos i)).
Proof. intros Hi. unfold entries. rewrite list_lookup_fmap, lookup_seq_lt by done. done. Qed.

Lemma entries_S bl n : entries bl (S n) = entries bl n ++ [dread bl (log_pos n)].
Proof. unfold entries. by rewrite seq_S, fmap_app. Qed.

Lemma entries_ext bl bl' n : (forall i, (i < n)%nat -> bl' !! log_pos i = bl !! log_pos i) -> entries bl' n = entries bl n.
Proof.
  intros H. unfold entries. apply list_fmap_ext. intros j i [-> Hi]%lookup_seq. unfold dread. by rewrite H by lia.
Qed.

Lemma log_pos_inj i j : log_pos i = log_pos j -> i = j.
Proof. unfold log_pos, BTREE_BLOCK_SIZE. lia. Qed.

Lemma list_to_set_size (l : list Z) : (size (list_to_set l : gset Z) <= length l)%nat.
Proof.
  induction l as [|x l IH]; [done|]. cbn [list_to_set length].
  destruct (decide (x ∈ (list_to_set l : gset Z))).
  - rewrite subseteq_union_1_L by set_solver. lia.
  - rewrite size_union by set_solver. rewrite size_singleton. lia.
Qed.

(** ** Blocks *)

Section log.
Context (np : Z).

(** The offset of a block outside the region of the log, whose hash value does
    not wrap around while it is looked up. *)
Definition outside (b : Z) : Prop := b < LOG_START \/ LOG_START + np * BTREE_BLOCK_SIZE <= b.
Definition blk (b : Z) : Prop := bad_key b = false /\ outside b /\ hash2 [b] 0xDEADBEEF + np <= 2 ^ 64.

Lemma outside_pos b i : outside b -> Z.of_nat i < np -> b <> log_pos i.
Proof. unfold outside, log_pos, BTREE_BLOCK_SIZE. lia. Qed.

(** Disks that agree on the blocks and on the first [c] records. *)
Definition agree (c : nat) (bl bl' : gmap Z lnode) : Prop :=
  forall o, outside o \/ (exists i, (i < c)%nat /\ o = log_pos i) -> bl' !! o = bl !! o.

Lemma agree_refl c bl : agree c bl bl.
Proof. done. Qed.
Lemma agree_trans c c' bl1 bl2 bl3 : (c <= c')%nat -> agree c bl1 bl2 -> agree c' bl2 bl3 -> agree c bl1 bl3.
Proof.
  intros Hc H1 H2 o Ho. rewrite H2, H1; [done|done|]. destruct Ho as [?|(i & Hi & ->)]; [by left|right].
  exists i. split; [lia|done].
Qed.
Lemma agree_le c c' bl bl' : (c <= c')%nat -> agree c' bl bl' -> agree c bl bl'.
Proof. intros Hc H o [Ho|(i & Hi & ->)]; apply H; [by left|right]. exists i. split; [lia|done]. Qed.

Lemma agree_write c bl x : Z.of_nat c < np -> agree c bl (<[log_pos c := x]> bl).
Proof.
  intros Hc o Ho. rewrite lookup_insert_ne; [done|]. destruct Ho as [Ho|(i & Hi & ->)].
  - intros E. by apply (outside_pos o c Ho Hc).
  - intros E%log_pos_inj. lia.
Qed.

Lemma agree_entries c bl bl' : agree c bl bl' -> entries bl' c = entries bl c.
Proof. intros H. apply entries_ext. intros i Hi. apply H. right. by exists i. Qed.

Lemma agree_dview c bl bl' b : agree c bl bl' -> outside b -> dview bl' c b = dview bl c b.
Proof.
  intros H Hb. unfold dview, dread. rewrite !replay_lookup, (agree_entries c bl bl' H). f_equal. f_equal.
  destruct (last_idx b _); [done|]. apply H. by left.
Qed.

(** One more record. *)
Lemma dview_write c bl x b :
  Z.of_nat c < np -> outside b ->
  dview (<[log_pos c := x]> bl) (S c) b = if decide (ln_offset x = b) then cont x else dview bl c b.
Proof.
  intros Hc Hb. unfold dview, dread. rewrite !replay_lookup, entries_S, last_idx_snoc.
  rewrite (agree_entries c bl) by (by apply agree_write). unfold dread. rewrite lookup_insert_eq. simpl.
  rewrite length_entries. destruct (decide (ln_offset x = b)).
  - rewrite lookup_app_r by (by rewrite length_entries). rewrite length_entries, Nat.sub_diag. done.
  - destruct (last_idx b (entries bl c)) as [i|] eqn:E.
    + apply last_idx_Some in E as (p & Hp & _). rewrite lookup_app_l; [done|by eapply lookup_lt_Some].
    + rewrite lookup_insert_ne; [done|]. intros E2. by apply (outside_pos b c Hb Hc).
Qed.

(** ** The invariant *)

(** With [c] records in the log, for which the table stands for [m]. *)
Record linv (l : the_log) (bl : gmap Z lnode) (m : gmap Z Z) (c : nat) : Prop := {
  li_geom : byteoff l = LOG_START /\ npages l = np /\ max_mem l = LOG_MEMORY /\ tailq_inited l = true /\ 0 < np;
  li_map : hinv (disk_map l) m /\ no_tomb (disk_map l) /\ Z.of_nat (capacity (disk_map l)) = np;
  li_pos : forall b, m !! b = log_pos <$> last_idx b (entries bl c);
  li_room : Z.of_nat c < np;
  li_ent : Forall (fun p => blk (ln_offset p)) (entries bl c);
  li_nodes : NoDup (ln_offset <$> nodes l) /\ Forall (fun x => blk (ln_offset x)) (nodes l);
  li_mem : in_mem l = Z.of_nat (length (nodes l)) /\ (length (nodes l) + free_nodes l <= Z.to_nat LOG_MEMORY)%nat;
  li_clean : forall x, x ∈ nodes l -> ln_dirty x = false ->
    (ln_offset x ∈ ln_offset <$> entries bl c) /\ dview bl c (ln_offset x) = cont x;
}.

(** No buffer was lost to a failed access. *)
Definition whole (l : the_log) : Prop := (length (nodes l) + free_nodes l)%nat = Z.to_nat LOG_MEMORY.

(** What the log and the disk together hold in a block. *)
Definition nview (ns : list lnode) (b : Z) : option (Z * list Z) := snd <$> list_find (fun p => p.1 = b) (cont <$> ns).
Definition lview (l : the_log) (bl : gmap Z lnode) (c : nat) (b : Z) : Z * list Z := default (dview bl c b) (nview (nodes l) b).

Lemma nview_Some ns b x : NoDup (ln_offset <$> ns) -> x ∈ ns -> ln_offset x = b -> nview ns b = Some (cont x).
Proof.
  intros Hnd Hx <-. unfold nview. apply list_elem_of_lookup in Hx as [i Hi].
  assert (E : list_find (fun p => p.1 = ln_offset x) (cont <$> ns) = Some (i, cont x)); [|by rewrite E].
  apply list_find_Some. rewrite list_lookup_fmap, Hi. split_and!; [done..|]. intros j y Hj Hlt Hy.
  rewrite list_lookup_fmap in Hj. apply fmap_Some in Hj as (z & Hz & ->). simpl in Hy.
  assert (j = i); [|lia]. eapply (NoDup_lookup (ln_offset <$> ns)); [done|by rewrite list_lookup_fmap, Hz|].
  rewrite list_lookup_fmap, Hi. simpl. by rewrite Hy.
Qed.

Lemma nview_None ns b : b ∉ ln_offset <$> ns -> nview ns b = None.
Proof.
  intros Hb. unfold nview. assert (E : list_find (fun p => p.1 = b) (cont <$> ns) = None); [|by rewrite E].
  apply list_find_None, list.Forall_forall. intros p Hp <-. apply list_elem_of_fmap in Hp as (x & -> & Hx). apply Hb.
  apply list_elem_of_fmap. by exists x.
Qed.

Lemma nview_find ns b : nview ns b = cont ∘ snd <$> find_node b ns.
Proof.
  unfold nview, find_node. rewrite list_find_fmap. unfold compose. simpl.
  by destruct (list_find (fun x => ln_offset x = b) ns) as [[i x]|].
Qed.

Lemma offsets_clean done x todo : ln_offset <$> done ++ clean x :: todo = ln_offset <$> done ++ x :: todo.
Proof. by rewrite !fmap_app. Qed.
Lemma conts_clean done x todo : cont <$> done ++ clean x :: todo = cont <$> done ++ x :: todo.
Proof. by rewrite !fmap_app. Qed.

Lemma li_size l bl m c : linv l bl m c -> (size m <= c)%nat.
Proof.
  intros HI. rewrite <- size_dom, <- (length_entries bl c), <- (length_fmap ln_offset).
  etransitivity; [|apply list_to_set_size]. apply subseteq_size. intros b [v Hv]%elem_of_dom.
  rewrite (li_pos _ _ _ _ HI) in Hv. apply fmap_Some in Hv as (i & Hi & _). apply last_idx_Some in Hi as (p & Hp & <-).
  apply elem_of_list_to_set, list_elem_of_fmap. exists p. split; [done|]. apply list_elem_of_lookup. by exists i.
Qed.

(** One record is written. *)
Lemma linv_write l bl m c done x todo :
  linv l bl m c -> nodes l = done ++ x :: todo -> Z.of_nat c + 1 < np ->
  exists t', hash_put (disk_map l) (ln_offset x) (log_pos c) = Ok t' /\
    let l' := set_nodes (done ++ clean x :: todo) (set_disk_map t' l) in
    let bl' := <[log_pos c := x]> bl in
    linv l' bl' (<[ln_offset x := log_pos c]> m) (S c) /\
    forall b, blk b -> lview l' bl' (S c) b = lview l bl c b.
Proof.
  intros HI Hn Hc. pose proof (li_size _ _ _ _ HI) as Hsz.
  destruct HI as [Hgeom (Hh & Hnt & Hcap) Hpos Hroom Hent [Hnd Hblk] Hmem Hclean].
  assert (Hxin : x ∈ nodes l) by (rewrite Hn; set_solver).
  assert (Hbx : blk (ln_offset x)) by (rewrite list.Forall_forall in Hblk; by apply Hblk).
  destruct Hbx as (Hbad & Hout & Hhash).
  destruct (hash_put_clean (disk_map l) m (ln_offset x) (log_pos c) Hh Hnt Hbad) as (t' & Hput & Hh' & Hc' & Hnt'); [lia|lia|].
  exists t'. split; [done|]. cbv zeta.
  assert (Hag : entries (<[log_pos c:=x]> bl) c = entries bl c) by (apply agree_entries, agree_write; lia).
  assert (Hes : entries (<[log_pos c:=x]> bl) (S c) = entries bl c ++ [x]).
  { rewrite entries_S, Hag. unfold dread. by rewrite lookup_insert_eq. }
  assert (Hnew : forall y, y ∈ nodes l -> ln_offset y = ln_offset x -> y = x).
  { intros y Hy E. apply list_elem_of_lookup in Hy as [i Hi], Hxin as [j Hj].
    assert (i = j) as ->; [|congruence]. eapply (NoDup_lookup (ln_offset <$> nodes l)); [done|by rewrite list_lookup_fmap, Hi|].
    rewrite list_lookup_fmap, Hj. simpl. by rewrite E. }
  split.
  - split; cbn [set_nodes set_disk_map byteoff npages max_mem tailq_inited disk_map nodes in_mem free_nodes];
      [done|rewrite Hc'; done| | | | | |].
    + intros b. rewrite Hes, last_idx_snoc, length_entries, lookup_insert. repeat case_decide; naive_solver.
    + lia.
    + rewrite Hes. apply Forall_app_2; [done|]. by apply list.Forall_singleton.
    + rewrite offsets_clean, <- Hn. split; [done|]. rewrite Hn in Hblk. apply list.Forall_app in Hblk as [H1 H2].
      apply list.Forall_cons in H2 as [H2 H3]. apply Forall_app_2; [done|]. by constructor.
    + rewrite Hn in Hmem. rewrite length_app in *. done.
    + intros y Hy Hdirty. assert (Hy' : y = clean x \/ (y ∈ nodes l)) by (rewrite Hn; set_solver).
      rewrite Hes, fmap_app, elem_of_app, dview_write; [|lia|].
      2:{ rewrite list.Forall_forall in Hblk. destruct Hy' as [->|Hy']; [done|by apply Hblk]. }
      destruct Hy' as [->|Hy']; [split; [right; by left|by rewrite decide_True]|]. destruct (Hclean y Hy' Hdirty) as [Hy1 Hy2].
      split; [by left|]. case_decide as E; [|done]. by rewrite (Hnew y Hy').
  - intros b (_ & Hob & _). unfold lview, nview. cbn [set_nodes set_disk_map nodes]. rewrite conts_clean, <- Hn. fold (nview (nodes l) b).
    destruct (decide (ln_offset x = b)) as [E|E].
    + by rewrite (nview_Some _ b x).
    + rewrite dview_write by (done || lia). by rewrite decide_False.
Qed.

(** ** Flushing *)

Lemma lbind_ok {A B} (f : LM A) (g : A -> LM B) s a s1 : f s = (Ok a, s1) -> (f ≫= g) s = g a s1.
Proof. intros H. unfold mbind, LM_bind. by rewrite H. Qed.

Lemma lassert_true b s : b = true -> lassert b s = (Ok tt, s).
Proof. by intros ->. Qed.

Abbreviation bls s := (d_blocks (dk s)).

(** What a write does: the block has the new contents, or an error is reported and
    the block has the old contents or something else. *)
Lemma disk_write_cases n off s :
  exists r s', disk_write n off s = (r, s') /\ lg s' = lg s /\ ram s' = ram s /\ d_hdr (dk s') = d_hdr (dk s) /\
    (length (io s') <= length (io s))%nat /\
    (dk s' = dk s /\ writes s' = writes s \/ (exists y, bls s' = <[off := y]> (bls s)) /\ writes s' = dk s' :: writes s) /\
    (r = Ok tt /\ bls s' = <[off := n]> (bls s) \/ r = Err E_IO /\ (length (io s') < length (io s))%nat).
Proof.
  destruct s as [l d i w r]. unfold disk_write, next_io, get_disk, put_disk, lfail, mbind, LM_bind. simpl.
  destruct i as [|[|[y|]] i]; simpl; (eexists _, _; split; [reflexivity|]); simpl; split_and!; try done; try lia;
    first [by left; split; [done|lia]|right; split; [done|lia]|right; split; [by eexists|done]|by left].
Qed.

Lemma disk_read_cases off s :
  exists r s', disk_read off s = (r, s') /\ lg s' = lg s /\ dk s' = dk s /\ writes s' = writes s /\ ram s' = ram s /\
    (length (io s') <= length (io s))%nat /\
    (r = Ok (dread (bls s) off) \/ r = Err E_IO /\ (length (io s') < length (io s))%nat).
Proof.
  destruct s as [l d i w r]. unfold disk_read, next_io, get_disk, lfail, mbind, LM_bind. simpl.
  destruct i as [|[|y] i]; simpl; (eexists _, _; split; [reflexivity|]); simpl; split_and!; try done; try lia; eauto.
Qed.

(** Steps that keep what [c] records hold, and what was seen of the disk on the way. *)
Record keeps_log (s s' : lstate) (c : nat) : Prop := {
  kl_io : (length (io s') <= length (io s))%nat;
  kl_ram : ram s' = ram s;
  kl_hdr : d_hdr (dk s') = d_hdr (dk s);
  kl_agree : agree c (bls s) (bls s');
  kl_writes : exists ws, writes s' = ws ++ writes s /\ Forall (fun d => d_hdr d = d_hdr (dk s) /\ agree c (bls s) (d_blocks d)) ws;
}.

Lemma keeps_log_same s l : forall c, keeps_log s (mkL l (dk s) (io s) (writes s) (ram s)) c.
Proof. intros c. split; simpl; [done..|]. by exists []. Qed.

Lemma keeps_log_trans s1 s2 s3 c c' : (c <= c')%nat -> keeps_log s1 s2 c -> keeps_log s2 s3 c' -> keeps_log s1 s3 c.
Proof.
  intros Hc [I1 R1 H1 A1 (w1 & W1 & F1)] [I2 R2 H2 A2 (w2 & W2 & F2)]. split; [lia|congruence|congruence|by eapply agree_trans|].
  exists (w2 ++ w1). rewrite W2, W1, app_assoc. split; [done|]. apply Forall_app_2; [|done].
  eapply list.Forall_impl; [exact F2|]. intros d [Hd Ha]. split; [congruence|by eapply agree_trans].
Qed.

Lemma keeps_log_write s s' c :
  Z.of_nat c < np -> ram s' = ram s -> d_hdr (dk s') = d_hdr (dk s) -> (length (io s') <= length (io s))%nat ->
  dk s' = dk s /\ writes s' = writes s \/ (exists y, bls s' = <[log_pos c := y]> (bls s)) /\ writes s' = dk s' :: writes s ->
  keeps_log s s' c.
Proof.
  intros Hc Hr Hh Hio [[Hd Hw]|[[y Hy] Hw]]; (split; [done..| |]).
  - by rewrite Hd.
  - exists []. by rewrite Hw.
  - rewrite Hy. by apply agree_write.
  - exists [dk s']. rewrite Hw. split; [done|]. apply list.Forall_singleton. rewrite Hy. split; [done|]. by apply agree_write.
Qed.

(** What a flush leaves alone of the log, also when it fails. *)
Definition same_shape (l l' : the_log) : Prop :=
  length (nodes l') = length (nodes l) /\ free_nodes l' = free_nodes l /\ in_mem l' = in_mem l /\ must_apply l' = must_apply l /\
  map_back l' = map_back l /\ tailq_inited l' = tailq_inited l.

(** The result of a flush of the nodes in memory: [c'] records instead of [c]. *)
Record flushed (s s' : lstate) (m' : gmap Z Z) (c c' : nat) : Prop := {
  fl_inv : linv (lg s') (bls s') m' c';
  fl_view : forall b, blk b -> lview (lg s') (bls s') c' b = lview (lg s) (bls s) c b;
  fl_clean : Forall (fun x => ln_dirty x = false) (nodes (lg s'));
}.

(** With any outcomes of the disk accesses: the flush may stop with an error,
    but what was recorded before stays. *)
Lemma log_write_loop_any od todo : forall s done m n,
  nodes (lg s) = done ++ todo -> Forall (fun x => ln_dirty x = false) done ->
  linv (lg s) (bls s) m (od + n) -> Z.of_nat (od + n + length todo) < np ->
  exists r s', log_write_loop done todo (log_pos od) (Z.of_nat n) s = (r, s') /\ keeps_log s s' (od + n) /\ same_shape (lg s) (lg s') /\
    match r with
    | Ok z => on_disk (lg s') = on_disk (lg s) /\
        exists m' n', z = Z.of_nat n' /\ (n <= n' <= n + length todo)%nat /\ flushed s s' m' (od + n) (od + n')
    | Err e => e = E_IO /\ (length (io s') < length (io s))%nat
    | Panic => False
    end.
Proof.
  induction todo as [|x todo IH]; intros s done m n Hn Hcl HI Hroom; cbn [log_write_loop].
  - exists (Ok (Z.of_nat n)), s. split; [done|]. split; [pose proof (keeps_log_same s (lg s) (od + n)) as H; by destruct s|]. split; [done|].
    split; [done|]. exists m, n. split; [done|]. split; [lia|]. rewrite app_nil_r in Hn. split; [done..|by rewrite Hn].
  - cbn [length] in Hroom. destruct (ln_dirty x) eqn:Ex; cbn [negb].
    + erewrite lbind_ok by reflexivity. destruct (li_geom _ _ _ _ HI) as (Hb & Hnp & _).
      assert (Epos : log_pos od + Z.of_nat n * BTREE_BLOCK_SIZE = log_pos (od + n)) by (unfold log_pos; lia). rewrite !Epos.
      erewrite lbind_ok by (apply lassert_true, Z.ltb_lt; rewrite Hb, Hnp; unfold log_pos, BTREE_BLOCK_SIZE; lia).
      destruct (disk_write_cases x (log_pos (od + n)) s) as (r & s1 & Hw & Hl1 & Hram1 & Hh1 & Hio1 & Hd1 & Hr).
      assert (Hk1 : keeps_log s s1 (od + n)) by (apply keeps_log_write; [lia|done..]).
      destruct Hr as [[-> Hb1]|[-> Hlt]].
      2:{ exists (Err E_IO), s1. split; [unfold mbind, LM_bind; by rewrite Hw|]. by rewrite Hl1. }
      erewrite lbind_ok by exact Hw.
      destruct (linv_write _ _ _ _ done x todo HI Hn ltac:(lia)) as (t' & Hput & HI' & Hview).
      unfold map_upd. erewrite lbind_ok.
      2:{ erewrite lbind_ok by reflexivity. rewrite Hl1, Hput. reflexivity. }
      erewrite lbind_ok by reflexivity. cbn [lg dk io writes ram]. rewrite Hl1.
      set (s2 := mkL _ _ _ _ _). replace (Z.of_nat n + 1) with (Z.of_nat (S n)) by lia.
      destruct (IH s2 (done ++ [clean x]) (<[ln_offset x := log_pos (od + n)]> m) (S n)) as (r & s' & Hr & Hk & Hsh & Hok).
      * simpl. by rewrite <- app_assoc.
      * apply Forall_app_2; [done|]. by apply list.Forall_singleton.
      * replace (od + S n)%nat with (S (od + n)) by lia. unfold s2. cbn [lg dk]. rewrite Hb1. exact HI'.
      * lia.
      * exists r, s'. split; [exact Hr|]. split; [|split].
        -- eapply (keeps_log_trans _ s1 _ _ (od + n)); [lia|exact Hk1|].
           eapply (keeps_log_trans _ s2 _ _ (od + S n)); [lia|apply (keeps_log_same s1)|exact Hk].
        -- destruct Hsh as (S1 & S2). split; [|exact S2]. rewrite S1. unfold s2. cbn [lg set_nodes set_disk_map nodes]. by rewrite Hn, !length_app.
        -- destruct r as [z|e|]; [|destruct Hok as [-> Hlt]; split; [done|simpl in Hlt; lia]|done].
           destruct Hok as (Ho & m' & n' & -> & Hn' & [F1 F2 F3]). split; [exact Ho|]. exists m', n'. split; [done|]. cbn [length]. split; [lia|].
           split; [done| |done]. intros b Hbk. rewrite F2 by done. replace (od + S n)%nat with (S (od + n)) by lia.
           unfold s2. cbn [lg dk]. rewrite Hb1. by apply Hview.
    + destruct (IH s (done ++ [x]) m n) as (r & s' & Hr & Hk & Hsh & Hok);
        [by rewrite <- app_assoc|apply Forall_app_2; [done|by apply list.Forall_singleton]|done|lia|].
      exists r, s'. split_and!; [done..|]. destruct r as [z|e|]; [|done..]. destruct Hok as (Ho & m' & n' & -> & Hn' & HF). split; [done|].
      exists m', n'. split_and!; [done|lia|cbn [length]; lia|done].
Qed.

Lemma linv_on_disk l bl m c n : linv l bl m c -> linv (set_on_disk n l) bl m c.
Proof. by intros []. Qed.

Lemma log_flush_any s m c :
  linv (lg s) (bls s) m c -> on_disk (lg s) = Z.of_nat c -> in_mem (lg s) + on_disk (lg s) + 1 < np ->
  exists r s', log_flush s = (r, s') /\ keeps_log s s' c /\ same_shape (lg s) (lg s') /\
    match r with
    | Ok z => exists m' c', z = Z.of_nat c' /\ (c <= c')%nat /\ on_disk (lg s') = Z.of_nat c' /\ flushed s s' m' c c'
    | Err e => e = E_IO /\ (length (io s') < length (io s))%nat
    | Panic => False
    end.
Proof.
  intros HI Hod Hroom. unfold log_flush. erewrite lbind_ok by reflexivity.
  destruct (li_geom _ _ _ _ HI) as (Hb & Hnp & _). destruct (li_mem _ _ _ _ HI) as [Hmem _].
  rewrite (proj2 (Z.leb_gt _ _)) by lia.
  assert (Eoff : byteoff (lg s) + on_disk (lg s) * BTREE_BLOCK_SIZE = log_pos c) by (rewrite Hb, Hod; done). rewrite Eoff.
  destruct (log_write_loop_any c (nodes (lg s)) s [] m 0) as (r & s1 & Hr & Hk & Hsh & Hok); [done|constructor|by rewrite Nat.add_0_r|lia|].
  rewrite Nat.add_0_r in Hk, Hok.
  assert (Hlog : log_write_to_log (log_pos c) s = (r, s1)).
  { unfold log_write_to_log. erewrite lbind_ok by reflexivity.
    erewrite lbind_ok by (apply lassert_true, Z.leb_le; rewrite Hb; unfold log_pos, BTREE_BLOCK_SIZE; lia). exact Hr. }
  destruct r as [z|e|]; [|by exists (Err e), s1; split; [unfold mbind, LM_bind; by rewrite Hlog|]|done].
  destruct Hok as (_ & m' & n & -> & Hn & [F1 F2 F3]).
  erewrite lbind_ok by exact Hlog. erewrite lbind_ok by (apply lassert_true, Z.leb_le; lia). erewrite lbind_ok by reflexivity.
  eexists _, _. split; [reflexivity|]. split; [eapply (keeps_log_trans _ s1 _ c c); [lia|exact Hk|apply (keeps_log_same s1)]|]. split; [exact Hsh|].
  exists m', (c + n)%nat. split; [lia|]. split; [lia|]. cbn [lg set_on_disk on_disk]. split; [lia|]. split; [by apply linv_on_disk|exact F2|exact F3].
Qed.

(** With all nodes written, the records hold everything. *)
Lemma lview_clean l bl m c b :
  linv l bl m c -> Forall (fun x => ln_dirty x = false) (nodes l) -> lview l bl c b = dview bl c b.
Proof.
  intros HI Hcl. destruct (li_nodes _ _ _ _ HI) as [Hnd _]. unfold lview.
  destruct (decide (b ∈ ln_offset <$> nodes l)) as [Hb|Hb]; [|by rewrite nview_None].
  apply list_elem_of_fmap in Hb as (x & -> & Hx). rewrite (nview_Some _ _ x) by done. simpl. symmetry.
  apply (li_clean _ _ _ _ HI x Hx). rewrite list.Forall_forall in Hcl. by apply Hcl.
Qed.

(** ** Writing and reading *)

Lemma log_try_read_any s m c b :
  linv (lg s) (bls s) m c -> blk b ->
  exists r s', log_try_read b s = (r, s') /\ lg s' = lg s /\ dk s' = dk s /\ writes s' = writes s /\ ram s' = ram s /\
    (length (io s') <= length (io s))%nat /\
    match r with
    | Ok x => cont x = lview (lg s) (bls s) c b
    | Err e => e = E_NOT_FOUND /\ cont (dread (bls s) b) = lview (lg s) (bls s) c b \/ e = E_IO /\ (length (io s') < length (io s))%nat
    | Panic => False
    end.
Proof.
  intros HI (Hbad & _). unfold log_try_read. erewrite lbind_ok by reflexivity. unfold lview. rewrite nview_find.
  destruct (find_node b (nodes (lg s))) as [[i x]|] eqn:E; simpl; [by exists (Ok x), s|].
  destruct (li_map _ _ _ _ HI) as (Hh & _ & _). rewrite (hash_get_spec _ _ Hh b Hbad), (li_pos _ _ _ _ HI).
  unfold dview, dread. rewrite replay_lookup. destruct (last_idx b (entries (bls s) c)) as [i|] eqn:Ei; simpl.
  - destruct (disk_read_cases (log_pos i) s) as (r & s' & Hr & ? & ? & ? & ? & ? & Hok). exists r, s'. split_and!; [done..|].
    destruct Hok as [->|[-> ?]]; [|by right]. apply last_idx_Some in Ei as (p & Hp & _).
    pose proof (lookup_lt_Some _ _ _ Hp) as Hlt. rewrite length_entries in Hlt. rewrite entries_lookup in Hp by done.
    rewrite entries_lookup by done. done.
  - exists (Err E_NOT_FOUND), s. split_and!; [done..|]. by left.
Qed.

Lemma nview_ext ns ns' b :
  NoDup (ln_offset <$> ns) -> NoDup (ln_offset <$> ns') -> (forall x, ln_offset x = b -> (x ∈ ns) <-> (x ∈ ns')) ->
  nview ns b = nview ns' b.
Proof.
  intros H1 H2 H. destruct (decide (b ∈ ln_offset <$> ns)) as [Hb|Hb].
  - apply list_elem_of_fmap in Hb as (x & -> & Hx). rewrite (nview_Some ns _ x) by done. symmetry.
    apply nview_Some; [done|by apply H|done].
  - rewrite !nview_None; [done| |done]. intros (x & -> & Hx)%list_elem_of_fmap. apply Hb, list_elem_of_fmap.
    exists x. split; [done|]. by apply H.
Qed.

(** The nodes in memory with another one at the end. *)
Lemma linv_add l bl m c ns x f :
  linv l bl m c -> blk (ln_offset x) -> ln_dirty x = true ->
  NoDup (ln_offset <$> ns) -> ln_offset x ∉ ln_offset <$> ns -> (forall y, y ∈ ns -> y ∈ nodes l) ->
  (length ns + 1 + f <= Z.to_nat LOG_MEMORY)%nat ->
  linv (set_nodes (ns ++ [x]) (set_in_mem (Z.of_nat (length ns) + 1) (set_free_nodes f l))) bl m c.
Proof.
  intros [Hgeom Hmap Hpos Hroom Hent [Hnd Hblk] Hmem Hclean] Hbx Hdx Hns Hx Hsub Hlen.
  split; cbn [set_nodes set_in_mem set_free_nodes byteoff npages max_mem tailq_inited disk_map nodes in_mem free_nodes]; try done.
  - rewrite fmap_app. split.
    + apply list.NoDup_app. split_and!; [done| |apply NoDup_singleton]. intros b Hb ->%list_elem_of_singleton. done.
    + apply Forall_app_2; [|by apply list.Forall_singleton]. rewrite list.Forall_forall in Hblk |- *. auto.
  - rewrite length_app. simpl. lia.
  - intros y [Hy| ->%list_elem_of_singleton]%elem_of_app Hd; [|congruence]. apply Hclean; auto.
Qed.

Lemma lview_add l l' bl c ns x b :
  nodes l' = ns ++ [x] -> NoDup (ln_offset <$> nodes l) -> NoDup (ln_offset <$> ns ++ [x]) ->
  (forall y, ln_offset y <> ln_offset x -> (y ∈ ns) <-> (y ∈ nodes l)) ->
  lview l' bl c b = if decide (b = ln_offset x) then cont x else lview l bl c b.
Proof.
  intros Hl Hnd Hnd' Hns. unfold lview. rewrite Hl. case_decide as E.
  - rewrite (nview_Some _ b x); [done|done|set_solver|done].
  - f_equal. apply nview_ext; [done..|]. intros y <-. rewrite elem_of_app, list_elem_of_singleton, Hns by done.
    split; [intros [?| ->]; done|by left].
Qed.

Lemma linv_drop_nodes l bl m c :
  linv l bl m c -> linv (set_in_mem 0 (set_nodes [] (set_free_nodes (length (nodes l) + free_nodes l) l))) bl m c.
Proof.
  intros [Hgeom Hmap Hpos Hroom Hent [Hnd Hblk] [Hm1 Hm2] Hclean].
  split; cbn [set_nodes set_in_mem set_free_nodes byteoff npages max_mem tailq_inited disk_map nodes in_mem free_nodes]; try done.
  - split; [apply NoDup_nil_2|constructor].
  - intros x Hx. by apply not_elem_of_nil in Hx.
Qed.

Record wrote (s s' : lstate) (m' : gmap Z Z) (c c' : nat) (n : lnode) : Prop := {
  wr_le : (c <= c')%nat;
  wr_on : on_disk (lg s') = Z.of_nat c';
  wr_inv : linv (lg s') (bls s') m' c';
  wr_view : forall b, blk b -> lview (lg s') (bls s') c' b = if decide (b = ln_offset n) then cont n else lview (lg s) (bls s) c b;
  wr_apply : must_apply (lg s') = must_apply (lg s) /\ map_back (lg s') = map_back (lg s);
  wr_whole : whole (lg s) -> whole (lg s');
}.

Abbreviation dirty n := (LNode (ln_offset n) true (ln_data n)).

(** A node that is not in memory, with a free place for it. *)
Lemma log_write_new s m c n l f :
  linv l (bls s) m c -> lg s = l -> free_nodes l = S f -> ln_offset n ∉ ln_offset <$> nodes l -> blk (ln_offset n) ->
  on_disk l = Z.of_nat c ->
  exists s', (take_free;; upd_log (fun l => set_in_mem (in_mem l + 1) l);;
      upd_log (fun l => set_nodes (nodes l ++ [dirty n]) l)) s = (Ok tt, s') /\ keeps_log s s' c /\ wrote s s' m c c n.
Proof.
  intros HI Hl Hf Hno Hb Hod. unfold take_free. eexists. split.
  { erewrite lbind_ok; [|erewrite lbind_ok by reflexivity; rewrite Hl, Hf; reflexivity]. reflexivity. }
  destruct (li_mem _ _ _ _ HI) as [Hm1 Hm2]. destruct (li_nodes _ _ _ _ HI) as [Hnd _].
  assert (HI' : linv (set_nodes (nodes l ++ [dirty n]) (set_in_mem (Z.of_nat (length (nodes l)) + 1) (set_free_nodes f l))) (bls s) m c)
    by (apply linv_add; [done|done|done|done|done|done|lia]).
  split; [apply (keeps_log_same s)|]. split; cbn [lg dk io writes ram]; rewrite ?Hl.
  - done.
  - done.
  - rewrite <- Hm1 in HI'. exact HI'.
  - intros b _. rewrite (lview_add l _ _ _ (nodes l) (dirty n)); [done|done|done|by destruct (li_nodes _ _ _ _ HI')|done].
  - done.
  - unfold whole. cbn [set_nodes set_in_mem set_free_nodes nodes free_nodes]. rewrite Hf, length_app. simpl. lia.
Qed.

Lemma lbind_assoc {A B C} (f : LM A) (g : A -> LM B) (h : B -> LM C) s : ((f ≫= g) ≫= h) s = (f ≫= (fun a => g a ≫= h)) s.
Proof. unfold mbind, LM_bind. by destruct (f s) as [[a| |] s1]. Qed.

(** A node that is in memory. *)
Lemma log_write_old s m c n i x :
  linv (lg s) (bls s) m c -> on_disk (lg s) = Z.of_nat c -> blk (ln_offset n) -> find_node (ln_offset n) (nodes (lg s)) = Some (i, x) ->
  let l' := set_nodes (delete i (nodes (lg s)) ++ [dirty n]) (lg s) in
  wrote s (mkL l' (dk s) (io s) (writes s) (ram s)) m c c n.
Proof.
  intros HI Hod Hb (Hi & Hx & _)%list_find_Some l'. destruct (li_nodes _ _ _ _ HI) as [Hnd _]. destruct (li_mem _ _ _ _ HI) as [Hm1 Hm2].
  set (ns := delete i (nodes (lg s))) in *.
  assert (Hperm : nodes (lg s) ≡ₚ x :: ns) by (by apply delete_Permutation).
  assert (Hnd' : NoDup (ln_offset x :: (ln_offset <$> ns))) by (rewrite <- fmap_cons, <- Hperm; done).
  apply list.NoDup_cons in Hnd' as [Hxn Hnd']. rewrite Hx in Hxn.
  assert (Hlen : length (nodes (lg s)) = S (length ns)) by (by rewrite Hperm).
  assert (HI' : linv (set_nodes (ns ++ [dirty n]) (set_in_mem (Z.of_nat (length ns) + 1) (set_free_nodes (free_nodes (lg s)) (lg s)))) (bls s) m c).
  { apply linv_add; [done|done|done|done|done| |lia]. intros y Hy. rewrite Hperm. by right. }
  replace (Z.of_nat (length ns) + 1) with (in_mem (lg s)) in HI' by lia.
  split; cbn [lg dk io writes ram]; [done|done| | |done|].
  - unfold l'. by destruct (lg s).
  - intros b _. rewrite (lview_add (lg s) _ _ _ ns (dirty n)); [done|done|done|by destruct (li_nodes _ _ _ _ HI')|].
    intros y Hy. simpl in Hy. rewrite Hperm, elem_of_cons. split; [by right|]. intros [->|?]; [congruence|done].
  - unfold whole, l'. cbn [set_nodes nodes free_nodes]. rewrite length_app. simpl. lia.
Qed.

(** Making room in memory. *)
Definition make_room : LM unit :=
  log_flush;;
  count ← log_free_nodes;
  l ← get_log;
  upd_log (set_in_mem (in_mem l - count));;
  lassert (in_mem l - count =? 0).

Lemma make_room_any s m c :
  linv (lg s) (bls s) m c -> on_disk (lg s) = Z.of_nat c -> in_mem (lg s) + on_disk (lg s) + 1 < np ->
  exists r s', make_room s = (r, s') /\ keeps_log s s' c /\
    match r with
    | Ok _ => exists m' c', linv (lg s') (bls s') m' c' /\ (c <= c')%nat /\ on_disk (lg s') = Z.of_nat c' /\ nodes (lg s') = [] /\
        free_nodes (lg s') = (length (nodes (lg s)) + free_nodes (lg s))%nat /\
        must_apply (lg s') = must_apply (lg s) /\ map_back (lg s') = map_back (lg s) /\
        forall b, blk b -> dview (bls s') c' b = lview (lg s) (bls s) c b
    | Err e => e = E_IO /\ (length (io s') < length (io s))%nat /\ same_shape (lg s) (lg s')
    | Panic => False
    end.
Proof.
  intros HI Hod Hroom. destruct (log_flush_any s m c HI Hod Hroom) as (r & s1 & Hfl & Hk1 & Hsh & Hok). unfold make_room.
  destruct r as [z|e|]; [|by exists (Err e), s1; unfold mbind, LM_bind; rewrite Hfl; naive_solver|done].
  destruct Hok as (m1 & c1 & -> & Hc1 & Hod1 & [HI1 Hv1 Hcl1]). erewrite lbind_ok by exact Hfl. destruct Hsh as (S1 & S2 & _ & S4 & S5 & _).
  destruct (li_mem _ _ _ _ HI1) as [Hn1 Hn2].
  unfold log_free_nodes, log_free_list. rewrite lbind_assoc. erewrite lbind_ok by reflexivity.
  rewrite lbind_assoc. erewrite lbind_ok by reflexivity. rewrite lbind_assoc. erewrite lbind_ok by reflexivity.
  erewrite lbind_ok by reflexivity. erewrite lbind_ok by reflexivity. erewrite lbind_ok by reflexivity.
  cbn [lg set_free_nodes set_nodes in_mem]. rewrite Hn1, Z.sub_diag. eexists (Ok tt), _. split; [by apply lassert_true|].
  split; [eapply (keeps_log_trans _ s1 _ c c); [done|exact Hk1|apply (keeps_log_same s1)]|]. exists m1, c1. cbn [lg dk].
  split; [by apply linv_drop_nodes|]. split_and!; [done..|cbn; congruence|done|done|]. intros b Hb. rewrite <- Hv1 by done.
  symmetry. by apply (lview_clean _ _ m1).
Qed.

(** Writing a node: the block has the new contents, the others keep theirs.  When the
    buffer is full it is flushed, which may fail. *)
Lemma log_write_any s m c n :
  linv (lg s) (bls s) m c -> on_disk (lg s) = Z.of_nat c -> blk (ln_offset n) ->
  in_mem (lg s) + on_disk (lg s) + 1 < np ->
  exists r s', log_write n s = (r, s') /\ keeps_log s s' c /\
    match r with
    | Ok _ => exists m' c', wrote s s' m' c c' n
    | Err e => e = E_IO /\ (length (io s') < length (io s))%nat /\ same_shape (lg s) (lg s')
    | Panic => ~ whole (lg s)
    end.
Proof.
  intros HI Hod Hb Hroom. unfold log_write. erewrite lbind_ok by reflexivity.
  destruct (li_geom _ _ _ _ HI) as (_ & _ & Hmax & _). destruct (li_mem _ _ _ _ HI) as [Hm1 Hm2].
  destruct (find_node (ln_offset n) (nodes (lg s))) as [[i x]|] eqn:E.
  - erewrite lbind_ok by reflexivity. eexists (Ok tt), _. split; [reflexivity|]. split; [apply (keeps_log_same s)|]. exists m, c.
    by apply (log_write_old s m c n i x).
  - assert (Hno : ln_offset n ∉ ln_offset <$> nodes (lg s)).
    { intros (x & Hx & Hin)%list_elem_of_fmap. apply list_find_None in E. rewrite list.Forall_forall in E. by apply (E x Hin). }
    rewrite Hmax, lbind_assoc. destruct (Z.eqb_spec (in_mem (lg s)) LOG_MEMORY) as [Ef|Ef].
    + fold make_room. destruct (make_room_any s m c HI Hod Hroom) as (r & s1 & Hr & Hk1 & Hok).
      destruct r as [[]|e|]; [|by exists (Err e), s1; unfold mbind, LM_bind; rewrite Hr|done].
      destruct Hok as (m1 & c1 & HI1 & Hc1 & Hod1 & Hn1 & Hf1 & Ha1 & Hb1 & Hv1). erewrite lbind_ok by exact Hr. rewrite lbind_assoc.
      destruct (free_nodes (lg s1)) as [|f] eqn:Ef1; [unfold LOG_MEMORY in *; lia|].
      destruct (log_write_new s1 m1 c1 n (lg s1) f HI1 eq_refl Ef1) as (s' & Hr' & Hk & [W1 W2 W3 W4 [W5 W6] W7]); [by rewrite Hn1; set_solver|done|done|].
      exists (Ok tt), s'. split; [exact Hr'|]. split; [by eapply (keeps_log_trans _ s1 _ c c1)|]. exists m1, c1. split; [done|done|done| |by rewrite W5, W6|].
      * intros b Hbk. rewrite W4 by done. case_decide; [done|]. unfold lview. rewrite Hn1, nview_None by set_solver. simpl. by apply Hv1.
      * intros Hw. apply W7. unfold whole in *. rewrite Hn1, Ef1. simpl. lia.
    + erewrite lbind_ok by reflexivity. rewrite lbind_assoc. destruct (free_nodes (lg s)) as [|f] eqn:Ef2.
      * exists Panic, s. split; [|split; [pose proof (keeps_log_same s (lg s) c) as H; by destruct s|]].
        -- unfold take_free, mbind at 1, LM_bind at 1. erewrite lbind_ok by reflexivity. by rewrite Ef2.
        -- unfold whole, LOG_MEMORY in *. lia.
      * destruct (log_write_new s m c n (lg s) f HI eq_refl Ef2 Hno Hb Hod) as (s' & Hr & Hk & HW). exists (Ok tt), s'. split; [exact Hr|]. split; [done|].
        by exists m, c.
Qed.

End log.
