(* ===== verification/LogApply.v ===== *)
(** * Applying and recovering the log

    [log_apply_disk] copies the records of the log to their blocks, so that the
    contents that were committed last are there after a restart, whatever write
    the machine stopped at; [log_apply_mem] does the same from memory. *)

From S2P Require Import Prelude Hashtable HashtableProofs Log LogProofs.
From stdpp Require Import options.

Set Default Goal Selector "!".

Section apply.
Context (np : Z).

Abbreviation bls s := (d_blocks (dk s)).

(** ** Copying nodes to their blocks *)

Definition geom (l : the_log) : Prop := byteoff l = LOG_START /\ npages l = np.

Definition seen_only (P : disk_t -> Prop) (s s' : lstate) : Prop :=
  exists ws, writes s' = ws ++ writes s /\ Forall P ws.

Lemma seen_refl P s s' : writes s' = writes s -> seen_only P s s'.
Proof using Type. intros H. by exists []. Qed.
Lemma seen_trans P s1 s2 s3 : seen_only P s1 s2 -> seen_only P s2 s3 -> seen_only P s1 s3.
Proof using Type.
  intros (w1 & W1 & F1) (w2 & W2 & F2). exists (w2 ++ w1). rewrite W2, W1, app_assoc. split; [done|by apply Forall_app_2].
Qed.
Lemma seen_impl (P Q : disk_t -> Prop) s s' : (forall d, P d -> Q d) -> seen_only P s s' -> seen_only Q s s'.
Proof using Type. intros H (w & W & F). exists w. split; [done|]. by eapply list.Forall_impl. Qed.

(** Steps that write nothing but the blocks of the nodes [es], with any outcomes of the
    disk accesses. *)
Definition homed (es : list lnode) (bl bl' : gmap Z lnode) : Prop := forall o, o ∉ ln_offset <$> es -> bl' !! o = bl !! o.

Record homing (es : list lnode) (s s' : lstate) : Prop := {
  hg_io : (length (io s') <= length (io s))%nat;
  hg_hdr : d_hdr (dk s') = d_hdr (dk s);
  hg_homed : homed es (bls s) (bls s');
  hg_seen : seen_only (fun d => d_hdr d = d_hdr (dk s) /\ homed es (bls s) (d_blocks d)) s s';
}.

Lemma homing_log es s l : homing es s (mkL l (dk s) (io s) (writes s) (ram s)).
Proof using Type. split; [done..|]. by apply seen_refl. Qed.

Lemma homing_refl es s : homing es s s.
Proof using Type. pose proof (homing_log es s (lg s)) as H. by destruct s. Qed.

Lemma homing_trans es s1 s2 s3 : homing es s1 s2 -> homing es s2 s3 -> homing es s1 s3.
Proof using Type.
  intros [I1 H1 A1 S1] [I2 H2 A2 S2].
  assert (Ht : forall bl, homed es (bls s2) bl -> homed es (bls s1) bl) by (intros bl H o Ho; by rewrite H, A1).
  split; [lia|congruence|by apply Ht|]. eapply seen_trans; [exact S1|]. eapply seen_impl; [|exact S2].
  intros d [Hd Ha]. split; [congruence|by apply Ht].
Qed.

Lemma homing_mono es es' s s' : (forall o, o ∈ ln_offset <$> es -> o ∈ ln_offset <$> es') -> homing es s s' -> homing es' s s'.
Proof using Type.
  intros Hsub [I1 H1 A1 S1]. assert (Ht : forall bl bl', homed es bl bl' -> homed es' bl bl') by (intros bl bl' H o Ho; apply H; auto).
  split; [done..|by apply Ht|]. eapply seen_impl; [|exact S1]. intros d [Hd Ha]. split; [done|by apply Ht].
Qed.

(** Reading changes neither the disk nor what was seen of it. *)
Lemma homing_read es s s' :
  dk s' = dk s -> writes s' = writes s -> (length (io s') <= length (io s))%nat -> homing es s s'.
Proof using Type. intros Hd Hw Hi. split; [done..|by rewrite Hd|by rewrite Hd|by apply seen_refl]. Qed.

Lemma log_write_to_disk_any ns : forall s,
  geom (lg s) -> Forall (fun x => outside np (ln_offset x)) ns ->
  exists r s', log_write_to_disk ns s = (r, s') /\ lg s' = lg s /\ homing ns s s' /\
    match r with
    | Ok _ => bls s' = replay (bls s) ns
    | Err e => e = E_IO /\ (length (io s') < length (io s))%nat
    | Panic => False
    end.
Proof using Type.
  induction ns as [|x ns IH]; intros s Hg Hout; cbn [log_write_to_disk].
  - exists (Ok tt), s. split_and!; [done..|apply homing_refl|done].
  - apply list.Forall_cons in Hout as [Hx Hout]. erewrite lbind_ok by reflexivity.
    erewrite lbind_ok.
    2:{ apply lassert_true. destruct Hg as [-> ->]. apply orb_true_iff. unfold outside in Hx.
        destruct Hx; [left; by apply Z.ltb_lt|right; by apply Z.leb_le]. }
    destruct (disk_write_cases x (ln_offset x) s) as (r & s1 & Hw & Hl1 & Hram1 & Hh1 & Hio1 & Hd1 & Hr).
    assert (H1 : homing (x :: ns) s s1).
    { assert (Ho : forall y, homed (x :: ns) (bls s) (<[ln_offset x := y]> (bls s))) by (intros y o Ho; apply lookup_insert_ne; set_solver).
      destruct Hd1 as [[Hd Hws]|[[y Hy] Hws]]; [by apply homing_read|]. split; [done..|by rewrite Hy|].
      exists [dk s1]. rewrite Hws. split; [done|]. apply list.Forall_singleton. by rewrite Hy. }
    destruct Hr as [[-> Hb1]|[-> Hlt]]; [|exists (Err E_IO), s1; split; [unfold mbind, LM_bind; by rewrite Hw|done]].
    erewrite lbind_ok by exact Hw. destruct (IH s1) as (r & s' & Hr & Hl & H2 & Hok); [by rewrite Hl1|done|].
    exists r, s'. split_and!; [done|congruence| |].
    + eapply homing_trans; [exact H1|]. eapply homing_mono; [|exact H2]. set_solver.
    + destruct r as [[]|e|]; [|destruct Hok; split; [done|lia]|done]. by rewrite Hok, Hb1.
Qed.

(** Of the [n] buffers, those that were read are in the list of the result. *)
Lemma log_read_log_any n : forall s i acc,
  exists r s' f, log_read_log (log_pos i) n acc s = (r, s') /\ lg s' = set_free_nodes f (lg s) /\ homing [] s s' /\ dk s' = dk s /\
    match r with
    | Ok (true, l) => l = acc ++ ((fun j => dread (bls s) (log_pos j)) <$> seq i n) /\ (n <= free_nodes (lg s))%nat /\ f = (free_nodes (lg s) - n)%nat
    | Ok (false, l) => (length l + f <= length acc + free_nodes (lg s))%nat /\ (length (io s') < length (io s))%nat
    | Err _ => False
    | Panic => (free_nodes (lg s) < n)%nat
    end.
Proof using Type.
  induction n as [|n IH]; intros s i acc; cbn [log_read_log].
  - exists (Ok (true, acc)), s, (free_nodes (lg s)). rewrite app_nil_r. split_and!; [done|by destruct (lg s)|apply homing_refl|done|done|lia|lia].
  - unfold take_free. destruct (free_nodes (lg s)) as [|k] eqn:Ef.
    { exists Panic, s, 0%nat. split_and!; [|destruct (lg s); simpl in *; by subst|apply homing_refl|done|lia].
      unfold mbind at 1, LM_bind at 1. erewrite lbind_ok by reflexivity. by rewrite Ef. }
    erewrite lbind_ok by (erewrite lbind_ok by reflexivity; rewrite Ef; reflexivity).
    set (s0 := mkL _ _ _ _ _). unfold ltry.
    destruct (disk_read_cases (log_pos i) s0) as (r & s1 & Hr & Hl1 & Hd1 & Hw1 & Hram1 & Hio1 & Hok). rewrite Hr.
    assert (H1 : homing [] s s1) by (by apply homing_read).
    destruct Hok as [->|[-> Hlt]].
    + replace (log_pos i + BTREE_BLOCK_SIZE) with (log_pos (S i)) by (unfold log_pos; lia).
      destruct (IH s1 (S i) (acc ++ [dread (bls s) (log_pos i)])) as (r & s' & f & Hr' & Hl' & H2 & Hd' & Hok). exists r, s', f.
      rewrite Hl1 in Hl', Hok. cbn [s0 lg set_free_nodes free_nodes] in Hl', Hok. rewrite Hd1 in Hok.
      split_and!; [exact Hr'|exact Hl'|by eapply homing_trans|by rewrite Hd', Hd1|].
      destruct r as [[[] l]|e|]; [|..|done|lia].
      * destruct Hok as (-> & Hle & ->). cbn [seq fmap list_fmap]. rewrite <- app_assoc. split_and!; [done|lia|lia].
      * destruct Hok as [Hle Hlt]. rewrite length_app in Hle. simpl in Hle. split; [lia|]. simpl in Hio1. lia.
    + exists (Ok (false, acc)), s1, k. split_and!; [done|by rewrite Hl1|done|done|lia|exact Hlt].
Qed.

(** Records written home again do not change what the records hold. *)
Lemma replay_again bl es1 es :
  (forall p, p ∈ es1 -> ln_offset p ∈ ln_offset <$> es) -> forall b, replay (replay bl es1) es !! b = replay bl es !! b.
Proof using Type.
  intros H b. rewrite !replay_lookup. destruct (last_idx b es) as [i|] eqn:E; [done|].
  destruct (last_idx b es1) as [i|] eqn:E1; [|done]. apply last_idx_Some in E1 as (p & Hp & <-).
  apply last_idx_None in E. destruct E. apply H, list_elem_of_lookup. by exists i.
Qed.

Lemma replay_app bl es1 es2 : replay bl (es1 ++ es2) = replay (replay bl es1) es2.
Proof using Type. unfold replay. by rewrite foldl_app. Qed.

Lemma replay_pos bl es i :
  Forall (fun x => outside np (ln_offset x)) es -> Z.of_nat i < np -> replay bl es !! log_pos i = bl !! log_pos i.
Proof using Type.
  intros H Hi. rewrite replay_lookup. destruct (last_idx _ es) as [j|] eqn:E; [|done].
  apply last_idx_Some in E as (p & Hp & E). exfalso. rewrite list.Forall_forall in H.
  eapply (outside_pos np (ln_offset p) i); [|done|done]. apply H, list_elem_of_lookup. by exists j.
Qed.

(** Writing records home keeps all records, and what they hold. *)
Lemma homed_entries es bl bl' c :
  homed es bl bl' -> Forall (fun x => outside np (ln_offset x)) es -> Z.of_nat c <= np -> entries bl' c = entries bl c.
Proof using Type.
  intros H Hout Hc. apply entries_ext. intros i Hi. apply H. intros (x & Hx & Hin)%list_elem_of_fmap. rewrite list.Forall_forall in Hout.
  apply (outside_pos np (ln_offset x) i (Hout x Hin)); [lia|done].
Qed.

Lemma homed_dview es bl bl' c b :
  homed es bl bl' -> Forall (fun x => outside np (ln_offset x)) es -> Z.of_nat c <= np ->
  (forall o, o ∈ ln_offset <$> es -> o ∈ ln_offset <$> entries bl c) -> dview bl' c b = dview bl c b.
Proof using Type.
  intros H Hout Hc Hsub. unfold dview, dread. rewrite !replay_lookup, (homed_entries es bl bl') by done.
  destruct (last_idx b (entries bl c)) as [i|] eqn:E; [done|]. f_equal. f_equal. apply H. intros Hin. apply last_idx_None in E. auto.
Qed.

(** The loop of [log_apply_disk] over the records from [i] to [c]. *)
Lemma apply_disk_loop_any fuel : forall s i c,
  geom (lg s) -> max_mem (lg s) = LOG_MEMORY -> (i <= c)%nat -> (c - i <= fuel)%nat -> Z.of_nat c < np ->
  Forall (fun x => outside np (ln_offset x)) (entries (bls s) c) ->
  exists r s', apply_disk_loop fuel (log_pos i) (Z.of_nat c - Z.of_nat i) s = (r, s') /\ homing (entries (bls s) c) s s' /\
    match r with
    | Ok _ => lg s' = lg s /\ bls s' = replay (bls s) (drop i (entries (bls s) c))
    | Err e => e = E_IO /\ (length (io s') < length (io s))%nat
    | Panic => (free_nodes (lg s) < Z.to_nat LOG_MEMORY)%nat
    end.
Proof using Type.
  induction fuel as [|fuel IH]; intros s i c Hg Hmax Hic Hfuel Hcnp Hout; cbn [apply_disk_loop].
  - assert (i = c) as -> by lia. rewrite Z.sub_diag. simpl (0 =? 0). exists (Ok tt), s. rewrite drop_ge by (rewrite length_entries; lia).
    split_and!; [done|apply homing_refl|done..].
  - destruct (Z.eqb_spec (Z.of_nat c - Z.of_nat i) 0) as [E|E].
    { assert (i = c) as -> by lia. exists (Ok tt), s. rewrite drop_ge by (rewrite length_entries; lia). split_and!; [done|apply homing_refl|done..]. }
    erewrite lbind_ok by reflexivity. rewrite Hmax. cbv zeta.
    set (n := Z.to_nat (Z.min (Z.of_nat c - Z.of_nat i) LOG_MEMORY)).
    assert (Hn : (1 <= n <= c - i)%nat /\ (n <= Z.to_nat LOG_MEMORY)%nat) by (unfold n, LOG_MEMORY; lia).
    destruct (log_read_log_any n s i []) as (r & s1 & f & Hr & Hl1 & H1 & Hd1 & Hok).
    assert (H1' : homing (entries (bls s) c) s s1) by (eapply homing_mono; [|exact H1]; set_solver).
    unfold mbind at 1, LM_bind at 1. rewrite Hr. destruct r as [[[] ns]|e|]; [| |done|].
    2:{ eexists (Err E_IO), _. split; [reflexivity|]. split; [eapply homing_trans; [exact H1'|apply homing_log]|]. split; [done|]. cbn [io]. lia. }
    2:{ exists Panic, s1. split_and!; [done..|lia]. }
    destruct Hok as (-> & Hle & ->). rewrite app_nil_l. set (ns := (fun j => dread (bls s) (log_pos j)) <$> seq i n).
    assert (Hns : ns = take n (drop i (entries (bls s) c))).
    { unfold ns, entries. rewrite <- fmap_drop, <- fmap_take, drop_seq, take_seq. f_equal. f_equal. lia. }
    assert (Hnsout : Forall (fun x => outside np (ln_offset x)) ns) by (rewrite Hns; by apply Forall_take, Forall_drop).
    assert (Hsub : forall o, o ∈ ln_offset <$> ns -> o ∈ ln_offset <$> entries (bls s) c).
    { intros o (x & -> & (j & Hj)%list_elem_of_lookup)%list_elem_of_fmap. apply list_elem_of_fmap_2, list_elem_of_lookup. exists (i + j)%nat.
      rewrite Hns in Hj. apply lookup_take_Some in Hj as [Hj _]. by rewrite lookup_drop in Hj. }
    unfold ltry. destruct (log_write_to_disk_any ns s1) as (r & s2 & Hw & Hl2 & H2 & Hok); [by rewrite Hl1|done|]. rewrite Hw.
    assert (H2' : homing (entries (bls s) c) s s2) by (eapply homing_trans; [exact H1'|by eapply homing_mono]).
    destruct r as [[]|e|]; [|by eexists (Err e), _; split; [reflexivity|]; split; [eapply homing_trans; [exact H2'|apply homing_log]|]; destruct Hok, H1; simpl; split; [|lia]|done].
    unfold log_free_list. rewrite lbind_assoc. erewrite lbind_ok by reflexivity. erewrite lbind_ok by reflexivity.
    set (s3 := mkL _ _ _ _ _).
    assert (Hl3 : lg s3 = lg s).
    { unfold s3. simpl. rewrite Hl2, Hl1. unfold ns. rewrite length_fmap, length_seq. destruct (lg s). simpl in *. unfold set_free_nodes. simpl. f_equal. lia. }
    assert (H3 : homing (entries (bls s) c) s s3) by (eapply homing_trans; [exact H2'|apply (homing_log _ s2)]).
    assert (Hent : entries (bls s3) c = entries (bls s) c) by (eapply homed_entries; [apply (hg_homed _ _ _ H3)|done|lia]).
    destruct (IH s3 (i + n)%nat c) as (r & s' & Hr' & H4 & Hok'); [by rewrite Hl3..|lia|lia|done|by rewrite Hent|]. rewrite Hent in H4, Hok'.
    exists r, s'. split_and!; [|by eapply homing_trans|].
    + replace (Z.min (Z.of_nat c - Z.of_nat i) LOG_MEMORY) with (Z.of_nat n) by (unfold n, LOG_MEMORY; lia).
      replace (log_pos i + Z.of_nat n * BTREE_BLOCK_SIZE) with (log_pos (i + n)) by (unfold log_pos; lia).
      replace (Z.of_nat c - Z.of_nat i - Z.of_nat n) with (Z.of_nat c - Z.of_nat (i + n)) by lia. exact Hr'.
    + rewrite Hl3 in Hok'. destruct r as [[]|e|]; [|destruct Hok' as [-> ?], H3; split; [done|lia]|done]. destruct Hok' as [-> ->]. split; [done|].
      unfold s3. cbn [dk]. rewrite Hok, Hd1, <- replay_app, Hns, <- drop_drop. by rewrite take_drop.
Qed.

(** ** Starting an empty log *)

Context (Hnp : 0 < np <= MAX_LOG_PAGES).

Definition map_need : nat := Z.to_nat (np / MAP_ENTRIES + 1).

(** Pages of memory that starting the log takes. *)
Definition ready (s : lstate) : Prop :=
  if tailq_inited (lg s)
  then (length (nodes (lg s)) + free_nodes (lg s) <= Z.to_nat LOG_MEMORY /\ map_need <= map_back (lg s) + ram s)%nat
  else (Z.to_nat LOG_MEMORY + map_need <= map_back (lg s) + ram s /\ Z.to_nat LOG_MEMORY <= ram s)%nat.

Definition all_buffers (s : lstate) : Prop := tailq_inited (lg s) = true -> whole (lg s).

Record fresh (s s' : lstate) : Prop := {
  fr_inv : linv np (lg s') (bls s') ∅ 0;
  fr_dk : dk s' = dk s;
  fr_io : io s' = io s;
  fr_writes : writes s' = writes s;
  fr_log : nodes (lg s') = [] /\ on_disk (lg s') = 0 /\ must_apply (lg s') = false /\ in_mem (lg s') = 0;
  fr_ready : (map_need <= map_back (lg s'))%nat;
  fr_whole : all_buffers s -> whole (lg s');
}.

Lemma map_init :
  exists t, hash_init2 (replicate map_need (replicate (Z.to_nat MAP_ENTRIES) zero_entry)) (Z.to_nat np) (Z.to_nat BTREE_BLOCK_SIZE) = Ok t /\
    hinv t ∅ /\ no_tomb t /\ Z.of_nat (capacity t) = np.
Proof using Hnp.
  destruct (hash_init2_empty (replicate map_need (replicate (Z.to_nat MAP_ENTRIES) zero_entry)) (Z.to_nat np) (Z.to_nat BTREE_BLOCK_SIZE))
    as (t & H1 & H2 & H3 & H4).
  - lia.
  - by vm_compute.
  - apply Forall_replicate. rewrite length_replicate. by vm_compute.
  - assert (Hlen : forall n (l : list hashentry), length (concat (replicate n l)) = (n * length l)%nat).
    { induction n as [|n IH]; intros l; simpl; [done|]. rewrite length_app, IH. done. }
    rewrite Hlen, length_replicate. unfold map_need, MAP_ENTRIES. pose proof (Z.div_mod np 256 ltac:(lia)).
    pose proof (Z.mod_pos_bound np 256 ltac:(lia)). pose proof (Z.div_pos np 256 ltac:(lia) ltac:(lia)). nia.
  - exists t. split_and!; [done..|lia].
Qed.

Lemma log_init_ok s : ready s -> exists s', log_init np s = (Ok tt, s') /\ fresh s s'.
Proof using Hnp.
  intros Hready. unfold log_init. erewrite lbind_ok by reflexivity.
  destruct map_init as (t & Ht & Hh & Hnt & Hcap).
  assert (Hneed : (np / MAP_ENTRIES + 1 <=? MAP_BACK) = true).
  { apply Z.leb_le. unfold MAP_BACK, MAP_ENTRIES, MAX_LOG_PAGES in *. pose proof (Z.div_le_mono np 131072 256). lia. }
  set (s1 := if tailq_inited (lg s) then s else
    mkL (mkLog (byteoff (lg s)) (npages (lg s)) (max_mem (lg s)) (in_mem (lg s)) true (must_apply (lg s)) [] (Z.to_nat LOG_MEMORY)
                         (on_disk (lg s)) (disk_map (lg s)) (map_back (lg s))) (dk s) (io s) (writes s) (ram s - Z.to_nat LOG_MEMORY)).
  assert (Hs1 : (length (nodes (lg s1)) + free_nodes (lg s1) <= Z.to_nat LOG_MEMORY)%nat /\ (map_need - map_back (lg s) <= ram s1)%nat /\
    dk s1 = dk s /\ io s1 = io s /\ writes s1 = writes s /\ map_back (lg s1) = map_back (lg s) /\ (all_buffers s -> whole (lg s1))).
  { unfold s1, ready, all_buffers, whole in *. destruct (tailq_inited (lg s)); simpl; split_and!; lia || auto. }
  destruct Hs1 as (H1 & H2 & H3 & H4 & H5 & H6 & H7). erewrite lbind_ok.
  2:{ instantiate (1 := s1). instantiate (1 := tt). unfold s1, ready in *. destruct (tailq_inited (lg s)); [done|].
      erewrite lbind_ok by (unfold take_ram; rewrite (proj2 (Nat.leb_le _ _)) by lia; reflexivity). reflexivity. }
  cbv zeta. erewrite lbind_ok by (by apply lassert_true). fold map_need.
  erewrite lbind_ok by (unfold take_ram; rewrite (proj2 (Nat.leb_le _ _) H2); reflexivity).
  unfold log_free_nodes, log_free_list. rewrite lbind_assoc. erewrite lbind_ok by reflexivity. rewrite lbind_assoc.
  erewrite lbind_ok by reflexivity. rewrite lbind_assoc. erewrite lbind_ok by reflexivity. erewrite lbind_ok by reflexivity.
  rewrite Ht. eexists. split; [reflexivity|]. simpl. split; simpl; [|done..|lia|exact H7].
  split; simpl; try done.
  - split_and!; [done..|lia].
  - lia.
  - split; [apply NoDup_nil_2|constructor].
  - intros x Hx. by apply not_elem_of_nil in Hx.
Qed.

Lemma fresh_ready s s' : fresh s s' -> ready s'.
Proof using Hnp.
  intros [HI _ _ _ _ Hm _]. unfold ready. destruct (li_geom _ _ _ _ _ HI) as (_ & _ & _ & -> & _).
  destruct (li_mem _ _ _ _ _ HI) as [_ ?]. lia.
Qed.

Lemma fresh_self s s' : fresh s s' -> fresh s' s'.
Proof using Type.
  intros [HI _ _ _ Hl Hm _]. split; [done..|]. intros H. apply H. by destruct (li_geom _ _ _ _ _ HI) as (_ & _ & _ & ? & _).
Qed.

(** ** Recovery *)

(** A restart from this disk finds the contents [V]. *)
Definition recoverable (d : disk_t) (V : Z -> Z * list Z) : Prop :=
  exists c, d_hdr d = mkHdr (Z.of_nat c) np /\ Z.of_nat c < np /\
    Forall (fun p => blk np (ln_offset p)) (entries (d_blocks d) c) /\
    forall b, blk np b -> dview (d_blocks d) c b = V b.

Lemma blk_outside es : Forall (fun p => blk np (ln_offset p)) es -> Forall (fun p => outside np (ln_offset p)) es.
Proof using Type. intros H. eapply list.Forall_impl; [exact H|]. by intros x (_ & ? & _). Qed.

(** Writing to blocks that have records keeps what is recovered. *)
Lemma homed_recoverable es bl c V d :
  Forall (fun p => blk np (ln_offset p)) (entries bl c) -> Z.of_nat c < np -> (forall b, blk np b -> dview bl c b = V b) ->
  (forall o, o ∈ ln_offset <$> es -> o ∈ ln_offset <$> entries bl c) ->
  d_hdr d = mkHdr (Z.of_nat c) np -> homed es bl (d_blocks d) -> recoverable d V.
Proof using Type.
  intros Hent Hc HV Hsub Hh Hd.
  assert (Hout : Forall (fun x => outside np (ln_offset x)) es).
  { apply list.Forall_forall. intros x Hx. apply blk_outside in Hent. rewrite list.Forall_forall in Hent.
    destruct (proj1 (list_elem_of_fmap _ _ _) (Hsub (ln_offset x) (list_elem_of_fmap_2 _ _ _ Hx))) as (y & -> & Hy). auto. }
  exists c. rewrite (homed_entries es bl) by (done || lia). split_and!; [done..|]. intros b Hb. rewrite (homed_dview es bl) by (done || lia). auto.
Qed.

Lemma log_apply_disk_any s s0 c :
  fresh s0 s -> Z.of_nat c < np -> Forall (fun p => outside np (ln_offset p)) (entries (bls s) c) ->
  exists r s', log_apply_disk (Z.of_nat c) s = (r, s') /\ homing (entries (bls s) c) s s' /\
    match r with
    | Ok _ => bls s' = replay (bls s) (entries (bls s) c) /\ fresh s' s' /\ (whole (lg s) -> whole (lg s'))
    | Err e => e = E_IO /\ (length (io s') < length (io s))%nat
    | Panic => ~ whole (lg s)
    end.
Proof using Hnp.
  intros HF Hc Hent. unfold log_apply_disk. erewrite lbind_ok by reflexivity.
  destruct (li_geom _ _ _ _ _ (fr_inv _ _ HF)) as (Hb & Hn & _ & Hin & _). rewrite Hb, Hn.
  destruct (log_init_ok s (fresh_ready _ _ HF)) as (s1 & H1 & F1). erewrite lbind_ok by exact H1.
  destruct F1 as [I1 D1 IO1 W1 (L1 & _) R1 Wh1]. destruct (li_geom _ _ _ _ _ I1) as (Hb1 & Hn1 & Hm1 & Hin1 & _).
  assert (Hg1 : forall es, homing es s s1) by (intros es; apply homing_read; [done..|by rewrite IO1]).
  destruct (apply_disk_loop_any (Z.to_nat (Z.of_nat c)) s1 0 c) as (r & s2 & Hr & H2 & Hok); [done|done|lia|lia|done|by rewrite D1|].
  rewrite D1 in H2, Hok. replace (Z.of_nat c - Z.of_nat 0) with (Z.of_nat c) in Hr by lia.
  change (log_pos 0) with LOG_START in Hr. unfold mbind at 1, LM_bind at 1. rewrite Hr. destruct r as [[]|e|].
  - destruct Hok as [Hl2 Hb2]. erewrite lbind_ok by reflexivity. rewrite Hl2, Hn1. destruct (li_mem _ _ _ _ _ I1) as [_ Hmem].
    destruct (log_init_ok s2) as (s' & H3 & F3); [unfold ready; rewrite Hl2, Hin1; lia|]. pose proof F3 as [I3 D3 IO3 W3 L3 R3 Wh3].
    exists (Ok tt), s'. rewrite D3. split_and!; [done| |done|by eapply fresh_self|].
    + eapply homing_trans; [apply Hg1|]. eapply homing_trans; [exact H2|]. apply homing_read; [done..|by rewrite IO3].
    + intros Hw. apply Wh3. unfold all_buffers. rewrite Hl2. intros _. apply Wh1. by intros _.
  - destruct Hok as [-> Hlt]. exists (Err E_IO), s2. split_and!; [done|by eapply homing_trans|done|by rewrite <- IO1].
  - exists Panic, s2. split_and!; [done|by eapply homing_trans|]. intros Hw. specialize (Wh1 (fun _ => Hw)). unfold whole in Wh1. rewrite L1 in Wh1. simpl in Wh1. lia.
Qed.

(** What the other accesses do. *)
Lemma disk_flush_cases s :
  exists r s', disk_flush s = (r, s') /\ lg s' = lg s /\ dk s' = dk s /\ writes s' = writes s /\ (length (io s') <= length (io s))%nat /\
    (r = Ok tt \/ r = Err E_IO /\ (length (io s') < length (io s))%nat).
Proof using Type.
  destruct s as [l d i w r]. unfold disk_flush, next_io, lfail, mbind, LM_bind, mret, LM_ret. simpl.
  destruct i as [|[|y] i]; simpl; (eexists _, _; split; [reflexivity|]); simpl; split_and!; try done; try lia; eauto.
Qed.

Lemma lassert_flush_cases s :
  exists r s', lassert_ok disk_flush s = (r, s') /\ lg s' = lg s /\ dk s' = dk s /\ writes s' = writes s /\ (length (io s') <= length (io s))%nat /\
    (r = Ok tt \/ r = Panic /\ (length (io s') < length (io s))%nat).
Proof using Type.
  destruct (disk_flush_cases s) as (r & s' & Hr & H1 & H2 & H3 & H4 & H5). unfold lassert_ok, ltry. rewrite Hr.
  destruct H5 as [->|[-> ?]]; simpl; eexists _, _; (split; [reflexivity|]); split_and!; try done; eauto.
Qed.

Lemma write_header_cases h s :
  exists r s', write_header h s = (r, s') /\ lg s' = lg s /\ (length (io s') <= length (io s))%nat /\
    (dk s' = dk s /\ writes s' = writes s /\ r <> Ok tt \/ dk s' = Disk h (bls s) /\ writes s' = dk s' :: writes s) /\
    (r = Ok tt \/ r = Err E_IO /\ (length (io s') < length (io s))%nat).
Proof using Type.
  destruct s as [l d i w r]. unfold write_header, next_io, get_disk, put_disk, lfail, mbind, LM_bind. simpl.
  destruct i as [|[|[y|]] i]; simpl; (eexists _, _; split; [reflexivity|]); simpl; split_and!; try done; try lia;
    first [by left|by right; split; [|lia]|by left; split_and!|by right].
Qed.

(** The header [h] of the last commit has the contents [V0]; that of the disk may be
    the same, or one of more records, with the contents [V]. *)
Definition fallback (s : lstate) (h : pstate_header) (V0 V : Z -> Z * list Z) : Prop :=
  ready s /\ exists c0 c, h = mkHdr (Z.of_nat c0) np /\ d_hdr (dk s) = mkHdr (Z.of_nat c) np /\ (c0 <= c)%nat /\ Z.of_nat c < np /\
    Forall (fun p => blk np (ln_offset p)) (entries (bls s) c) /\
    (forall b, blk np b -> dview (bls s) c0 b = V0 b) /\ (forall b, blk np b -> dview (bls s) c b = V b).

Lemma entries_take bl c0 c : (c0 <= c)%nat -> entries bl c0 = take c0 (entries bl c).
Proof using Type. intros H. unfold entries. rewrite <- fmap_take, take_seq. do 2 f_equal. lia. Qed.

(** The disk and the log after [pstate_apply_disk_log]. *)
Record restored (s : lstate) (V : Z -> Z * list Z) : Prop := {
  rs_fresh : fresh s s;
  rs_hdr : d_hdr (dk s) = mkHdr 0 np;
  rs_view : forall b, blk np b -> cont (dread (bls s) b) = V b;
}.

(** Bringing the blocks up to the last commit, with any outcomes of the disk accesses. *)
Lemma apply_disk_log_any s h V0 V :
  fallback s h V0 V ->
  let safe d := recoverable d V \/ recoverable d V0 in
  exists r s', pstate_apply_disk_log h s = (r, s') /\ (length (io s') <= length (io s))%nat /\ seen_only safe s s' /\ safe (dk s') /\
    match r with
    | Ok h' => h' = mkHdr 0 np /\ restored s' V0 /\ (all_buffers s -> whole (lg s'))
    | Err e => e = E_IO /\ io s <> []
    | Panic => io s <> [] \/ ~ all_buffers s
    end.
Proof using Hnp.
  intros [Hready (c0 & c & -> & Hh & Hle & Hc & Hent & HV0 & HV)] safe. unfold pstate_apply_disk_log. cbn [ph_log_max ph_log_blocks].
  destruct (log_init_ok s Hready) as (s1 & H1 & F1). erewrite lbind_ok by exact H1. pose proof F1 as [I1 D1 IO1 W1 L1 R1 Wh1].
  pose proof (entries_take (bls s) c0 c Hle) as Etake.
  assert (Hent0 : Forall (fun p => blk np (ln_offset p)) (entries (bls s) c0)) by (rewrite Etake; by apply Forall_take).
  assert (Hsub : forall o, o ∈ ln_offset <$> entries (bls s) c0 -> o ∈ ln_offset <$> entries (bls s) c).
  { intros o (x & -> & (i & Hi)%list_elem_of_lookup)%list_elem_of_fmap. rewrite Etake in Hi. apply lookup_take_Some in Hi as [Hi _].
    apply list_elem_of_fmap_2, list_elem_of_lookup. by exists i. }
  destruct (log_apply_disk_any s1 _ c0 F1) as (r & s2 & H2 & G2 & Hok); [lia|rewrite D1; by apply blk_outside|]. rewrite D1 in G2, Hok.
  pose proof G2 as [Hio2 Hh2 Hd2 Hseen2]. rewrite D1 in Hh2, Hd2, Hseen2. rewrite IO1 in Hio2.
  assert (Hs2 : seen_only safe s s2 /\ safe (dk s2)).
  { split; [|left; eapply homed_recoverable; [exact Hent|done|exact HV|exact Hsub|congruence|exact Hd2]].
    destruct Hseen2 as (ws & Hws & HP). exists ws. rewrite Hws, W1. split; [done|]. eapply list.Forall_impl; [exact HP|].
    intros d [Hd Hdd]. left. eapply homed_recoverable; [exact Hent|done|exact HV|exact Hsub|congruence|exact Hdd]. }
  destruct Hs2 as [Hseen Hsafe]. unfold mbind at 1, LM_bind at 1. rewrite H2. destruct r as [[]|e|].
  2:{ exists (Err e), s2. destruct Hok as [-> Hlt]. split_and!; [done..|]. rewrite IO1 in Hlt. by destruct (io s); [simpl in Hlt; lia|]. }
  2:{ exists Panic, s2. split_and!; [done..|]. right. intros Hw. apply Hok, Wh1, Hw. }
  destruct Hok as (Hb2 & F2 & Wh2). destruct (disk_flush_cases s2) as (r & s3 & H3 & Hl3 & Hd3 & Hw3 & Hio3 & Hr3).
  assert (Hseen3 : seen_only safe s s3) by (eapply seen_trans; [exact Hseen|by apply seen_refl]).
  unfold mbind at 1, LM_bind at 1. rewrite H3. destruct Hr3 as [->|[-> Hlt]].
  2:{ exists (Err E_IO), s3. rewrite Hd3. split_and!; [done|lia|done..|]. intros E. rewrite E in Hio2. simpl in Hio2. lia. }
  cbv zeta. destruct (write_header_cases (mkHdr 0 np) s3) as (r & s4 & H4 & Hl4 & Hio4 & Hd4 & Hr4).
  assert (HV2 : forall b, blk np b -> cont (dread (bls s2) b) = V0 b) by (intros b Hb; rewrite <- HV0, Hb2 by done; done).
  assert (Hnew : recoverable (Disk (mkHdr 0 np) (bls s2)) V0) by (exists 0%nat; simpl; split_and!; [done|lia|constructor|exact HV2]).
  assert (Hs4 : seen_only safe s s4 /\ safe (dk s4)).
  { destruct Hd4 as [(Hd & Hw & _)|[Hd Hw]]; rewrite Hd, ?Hd3.
    - split; [|done]. eapply seen_trans; [exact Hseen3|by apply seen_refl].
    - split; [|by right]. eapply seen_trans; [exact Hseen3|]. exists [dk s4]. rewrite Hw. split; [done|]. apply list.Forall_singleton. rewrite Hd, Hd3. by right. }
  destruct Hs4 as [Hseen4 Hsafe4]. unfold mbind at 1, LM_bind at 1. rewrite H4. destruct Hr4 as [->|[-> Hlt]].
  2:{ exists (Err E_IO), s4. split_and!; [done|lia|done..|]. intros E. rewrite E in Hio2. simpl in Hio2. lia. }
  destruct Hd4 as [(_ & _ & ?)|[Hd4 Hw4]]; [done|].
  destruct (lassert_flush_cases s4) as (r & s5 & H5 & Hl5 & Hd5 & Hw5 & Hio5 & Hr5). unfold mbind at 1, LM_bind at 1. rewrite H5.
  assert (Hseen5 : seen_only safe s s5) by (eapply seen_trans; [exact Hseen4|by apply seen_refl]).
  destruct Hr5 as [->|[-> Hlt]].
  - exists (Ok (mkHdr 0 np)), s5. rewrite Hd5. split_and!; [done|lia|done|done|done| |].
    + split; rewrite ?Hd5, ?Hd4, ?Hd3; [|done|exact HV2]. destruct F2 as [I2 _ _ _ L2 R2 Wh]. unfold all_buffers in *.
      split; rewrite ?Hd5, ?Hd4, ?Hd3, ?Hl5, ?Hl4, ?Hl3; try done. unfold all_buffers. by rewrite Hl5, Hl4, Hl3.
    + intros Hw. rewrite Hl5, Hl4, Hl3. by apply Wh2, Wh1.
  - exists Panic, s5. rewrite Hd5. split_and!; [done|lia|done..|]. left. intros E. rewrite E in Hio2. simpl in Hio2. lia.
Qed.

End apply.
