(* ===== verification/LogCommit.v ===== *)
(** * Committing through the log

    [log_apply_mem] brings every block up to date; the commit of [pstate.c] goes
    from the old contents to the new ones without anything in between, at
    whatever write the machine stops and whatever accesses to the disk fail. *)

From S2P Require Import Prelude Hashtable HashtableProofs Log LogProofs LogApply.
From stdpp Require Import options.

Set Default Goal Selector "!".

(** ** Iterating over a table *)

Lemma iter_loop_spec t n : forall i,
  table_ok t -> (i + n = capacity t)%nat ->
  match iter_loop t i n with
  | Ok None => forall j e, (i <= j < capacity t)%nat -> slots t !! j = Some e -> ~ live e
  | Ok (Some it) => exists j, (i <= j < capacity t)%nat /\ hi_index it = S j /\
      slots t !! j = Some (HashEntry (hi_key it) (hi_val it)) /\ bad_key (hi_key it) = false
  | _ => False
  end.
Proof.
  induction n as [|n IH]; intros i Hok Hn; cbn [iter_loop].
  - lia.
  - destruct (lookup_lt_is_Some_2 (slots t) i) as [e He]; [pose proof (ok_room _ Hok); lia|].
    rewrite (hash_ent_ok t i e Hok He). cbn [res_bind]. destruct (bad_key (he_key e)) eqn:Eb; cbn [negb].
    + specialize (IH (S i) Hok ltac:(lia)). destruct (iter_loop t (S i) n) as [[it|]| |]; [|..|done|done].
      * destruct IH as (j & Hj & ?). exists j. split; [lia|done].
      * intros j e' Hj Hs. destruct (decide (j = i)) as [->|]; [|apply (IH j e'); [lia|done]].
        rewrite He in Hs. injection Hs as <-. unfold live. congruence.
    + exists i. split; [lia|]. simpl. split_and!; [done| |done]. by destruct e.
Qed.

Local Abbreviation bls s := (d_blocks (dk s)).

(** ** Dropping nodes from the map *)

Definition del_all (m : gmap Z Z) (ns : list lnode) : gmap Z Z := foldl (fun m x => delete (ln_offset x) m) m ns.

Lemma del_all_lookup ns : forall m b, del_all m ns !! b = if decide (b ∈ ln_offset <$> ns) then None else m !! b.
Proof.
  induction ns as [|x ns IH]; intros m b; [rewrite decide_False; [done|apply not_elem_of_nil]|].
  cbn [del_all foldl fmap list_fmap].
  unfold del_all in IH. rewrite IH. destruct (decide (b = ln_offset x)) as [->|Hne].
  - rewrite (decide_True (P := ln_offset x ∈ _ :: _)) by set_solver. case_decide; [done|]. apply lookup_delete_eq.
  - rewrite lookup_delete_ne by done. repeat case_decide; set_solver.
Qed.

Lemma map_del_all_ok ns : forall s m,
  hinv (disk_map (lg s)) m -> Forall (fun x => bad_key (ln_offset x) = false) ns ->
  exists t, map_del_all ns s = (Ok tt, mkL (set_disk_map t (lg s)) (dk s) (io s) (writes s) (ram s)) /\ hinv t (del_all m ns).
Proof.
  induction ns as [|x ns IH]; intros s m HI Hb; cbn [map_del_all].
  - exists (disk_map (lg s)). split; [|done]. by destruct s as [[] ? ? ? ?].
  - apply list.Forall_cons in Hb as [Hx Hb]. pose proof (hash_del_spec _ m HI _ Hx) as Hd.
    assert (exists t, map_upd (fun t => hash_del t (ln_offset x)) s = (Ok tt, mkL (set_disk_map t (lg s)) (dk s) (io s) (writes s) (ram s)) /\
      hinv t (delete (ln_offset x) m)) as (t & Hu & Ht).
    { unfold map_upd. destruct (m !! ln_offset x) as [v|] eqn:E.
      - destruct Hd as (t & Hd & Ht & _). exists t. split; [|done]. erewrite lbind_ok by reflexivity. by rewrite Hd.
      - exists (disk_map (lg s)). split; [|by rewrite delete_id]. erewrite lbind_ok by reflexivity. rewrite Hd.
        by destruct s as [[] ? ? ? ?]. }
    erewrite lbind_ok by exact Hu.
    destruct (IH (mkL (set_disk_map t (lg s)) (dk s) (io s) (writes s) (ram s)) _ Ht Hb) as (t' & -> & Ht').
    exists t'. split; [|exact Ht']. done.
Qed.

Lemma del_all_size m ns x : x ∈ ns -> is_Some (m !! ln_offset x) -> (size (del_all m ns) < size m)%nat.
Proof.
  intros Hx Hm. rewrite <- !size_dom. apply subset_size. split.
  - intros b [v Hv]%elem_of_dom. rewrite del_all_lookup in Hv. case_decide; [done|]. apply elem_of_dom. by exists v.
  - intros H. apply elem_of_dom in Hm. apply H in Hm. apply elem_of_dom in Hm as [v Hv]. rewrite del_all_lookup in Hv.
    rewrite decide_True in Hv; [done|]. apply list_elem_of_fmap. by exists x.
Qed.

(** ** Reading the records that the map still has *)

Lemma log_read_map_any fuel : forall s m it acc,
  hinv (disk_map (lg s)) m -> (forall b v, m !! b = Some v -> ln_offset (dread (bls s) v) = b) ->
  (hi_index it <= capacity (disk_map (lg s)) /\ capacity (disk_map (lg s)) - hi_index it < fuel)%nat -> Z.of_nat (length acc) < LOG_MEMORY ->
  exists r s' f, log_read_map fuel it LOG_MEMORY acc s = (r, s') /\ lg s' = set_free_nodes f (lg s) /\ (f <= free_nodes (lg s))%nat /\
    dk s' = dk s /\ writes s' = writes s /\ (length (io s') <= length (io s))%nat /\
    match r with
    | Ok l => exists new, l = new ++ acc /\ (length l + f)%nat = (length acc + free_nodes (lg s))%nat /\
        Forall (fun x => exists v, m !! ln_offset x = Some v /\ x = dread (bls s) v) new /\
        ((exists j e, (hi_index it <= j < capacity (disk_map (lg s)))%nat /\ slots (disk_map (lg s)) !! j = Some e /\ live e) -> new <> [])
    | Err e => e = E_IO /\ (length (io s') < length (io s))%nat
    | Panic => (length acc + free_nodes (lg s) < Z.to_nat LOG_MEMORY)%nat
    end.
Proof.
  induction fuel as [|fuel IH]; intros s m it acc HI Hrec Hf Hacc; [lia|]. cbn [log_read_map].
  erewrite lbind_ok by reflexivity.
  pose proof (iter_loop_spec (disk_map (lg s)) (capacity (disk_map (lg s)) - hi_index it) (hi_index it) (hi_ok _ _ HI) ltac:(lia)) as Hit.
  unfold lift_res, hashiter_next. destruct (iter_loop _ _ _) as [[it'|]| |]; [|..|done|done].
  - destruct Hit as (j & Hj & Hidx & Hs & Hk). erewrite lbind_ok by reflexivity.
    assert (Hm : m !! hi_key it' = Some (hi_val it')) by (apply (hi_map _ _ HI); split; [done|]; exists j; split; [lia|done]).
    unfold take_free. destruct (free_nodes (lg s)) as [|f] eqn:Ef.
    { exists Panic, s, 0%nat. split_and!; [|destruct (lg s); simpl in *; by subst|lia|done..|unfold LOG_MEMORY in *; lia].
      unfold mbind at 1, LM_bind at 1. erewrite lbind_ok by reflexivity. by rewrite Ef. }
    erewrite lbind_ok by (erewrite lbind_ok by reflexivity; rewrite Ef; reflexivity).
    set (s0 := mkL _ _ _ _ _). destruct (disk_read_cases (hi_val it') s0) as (r & s1 & Hr & Hl1 & Hd1 & Hw1 & _ & Hio1 & Hok).
    destruct Hok as [->|[-> Hlt]].
    2:{ exists (Err E_IO), s1, f. split_and!; [unfold mbind, LM_bind; by rewrite Hr|by rewrite Hl1|lia|done..]. }
    erewrite lbind_ok by exact Hr. cbn [s0 dk]. erewrite lbind_ok by (apply lassert_true, Z.eqb_eq; by apply Hrec). cbv zeta.
    set (x := dread (bls s) (hi_val it')).
    assert (Hx : exists v, m !! ln_offset x = Some v /\ x = dread (bls s) v) by (exists (hi_val it'); unfold x; by rewrite (Hrec _ _ Hm)).
    destruct (Z.leb_spec LOG_MEMORY (Z.of_nat (length (x :: acc)))) as [Hle|Hlt].
    + exists (Ok (x :: acc)), s1, f. split_and!; [done|by rewrite Hl1|lia|done..|]. exists [x]. split_and!; [done|simpl; lia|by apply list.Forall_singleton|done].
    + destruct (IH s1 m it' (x :: acc)) as (r & s' & f' & Hr' & Hl' & Hle' & Hd' & Hw' & Hio' & Hok);
        [by rewrite Hl1|by rewrite Hd1|rewrite Hl1; simpl; lia|done|]. rewrite Hl1 in Hl', Hle', Hok. simpl in Hle', Hok, Hio1. rewrite Hd1 in Hok.
      exists r, s', f'. split_and!; [exact Hr'|exact Hl'|lia|by rewrite Hd', Hd1|by rewrite Hw', Hw1|lia|].
      destruct r as [l|e|]; [|destruct Hok; split; [done|lia]|lia]. destruct Hok as (new & -> & Hlen & Hall & _).
      exists (new ++ [x]). rewrite <- app_assoc. split_and!; [done|change ([x] ++ acc) with (x :: acc); lia| |by destruct new].
      apply Forall_app_2; [exact Hall|by apply list.Forall_singleton].
  - erewrite lbind_ok by reflexivity. exists (Ok acc), s, (free_nodes (lg s)). split_and!; [done|by destruct (lg s)|lia|done..|].
    exists []. split_and!; [done|lia|constructor|]. intros (j & e & Hj & Hs & Hl). by destruct (Hit j e Hj Hs).
Qed.

Section commit.
Context (np : Z).

(** ** [log_apply_mem] *)

(** A node whose block has a record, and which has the contents of the block. *)
Definition current (bl : gmap Z lnode) (c : nat) (x : lnode) : Prop :=
  blk np (ln_offset x) /\ (ln_offset x ∈ ln_offset <$> entries bl c) /\ cont x = dview bl c (ln_offset x).

(** The blocks that neither the map nor the nodes in memory have are up to date. *)
Record applying (s : lstate) (m : gmap Z Z) (c : nat) : Prop := {
  ap_geom : geom np (lg s) /\ max_mem (lg s) = LOG_MEMORY /\ tailq_inited (lg s) = true /\ (map_need np <= map_back (lg s))%nat;
  ap_mem : in_mem (lg s) = Z.of_nat (length (nodes (lg s))) /\ (length (nodes (lg s)) + free_nodes (lg s) <= Z.to_nat LOG_MEMORY)%nat;
  ap_nodes : Forall (current (bls s) c) (nodes (lg s));
  ap_map : hinv (disk_map (lg s)) m;
  ap_rec : forall b v, m !! b = Some v -> log_pos <$> last_idx b (entries (bls s) c) = Some v;
  ap_room : Z.of_nat c < np;
  ap_ent : Forall (fun p => blk np (ln_offset p)) (entries (bls s) c);
  ap_home : forall b, blk np b -> m !! b = None -> b ∉ ln_offset <$> nodes (lg s) -> cont (dread (bls s) b) = dview (bls s) c b;
}.

(** A record of the map: what it holds is current. *)
Lemma record_current bl c b v :
  Forall (fun p => blk np (ln_offset p)) (entries bl c) -> log_pos <$> last_idx b (entries bl c) = Some v ->
  ln_offset (dread bl v) = b /\ current bl c (dread bl v).
Proof using Type.
  intros Hent Hv. apply fmap_Some in Hv as (i & Hi & ->). pose proof Hi as (p & Hp & Hpb)%last_idx_Some.
  pose proof (list_elem_of_lookup_2 _ _ _ Hp) as Hin. pose proof (lookup_lt_Some _ _ _ Hp) as Hlt. rewrite length_entries in Hlt.
  rewrite entries_lookup in Hp by done. injection Hp as Hp. rewrite Hp. split; [done|]. rewrite list.Forall_forall in Hent. split_and!.
  - by apply Hent.
  - by apply list_elem_of_fmap_2.
  - rewrite Hpb. unfold dview, dread. rewrite replay_lookup, Hi, entries_lookup by done. simpl. by rewrite <- Hp.
Qed.

Lemma applying_recorded s m c o :
  applying s m c -> (o ∈ ln_offset <$> nodes (lg s)) \/ is_Some (m !! o) -> o ∈ ln_offset <$> entries (bls s) c.
Proof using Type.
  intros HA [(x & -> & Hx)%list_elem_of_fmap|[v Hv]].
  - pose proof (ap_nodes _ _ _ HA) as Hn. rewrite list.Forall_forall in Hn. by destruct (Hn x Hx) as (_ & ? & _).
  - apply (ap_rec _ _ _ HA) in Hv. destruct (record_current _ _ _ _ (ap_ent _ _ _ HA) Hv) as [<- (_ & ? & _)]. done.
Qed.

Lemma current_homed bl bl' c x es :
  homed es bl bl' -> Forall (fun p => outside np (ln_offset p)) es -> Z.of_nat c < np ->
  (forall o, o ∈ ln_offset <$> es -> o ∈ ln_offset <$> entries bl c) -> current bl c x -> current bl' c x.
Proof using Type.
  intros Hh Hout Hc Hsub (H1 & H2 & H3). split_and!; [done|by rewrite (homed_entries np es bl) by (done || lia)|].
  by rewrite (homed_dview np es bl) by (done || lia).
Qed.

(** Writes, whole or torn, to blocks that are still in the map or in memory. *)
Lemma applying_homed s s' m c es f :
  applying s m c -> homing es s s' -> lg s' = set_free_nodes f (lg s) -> (f <= free_nodes (lg s))%nat ->
  Forall (fun p => outside np (ln_offset p)) es ->
  (forall o, o ∈ ln_offset <$> es -> (o ∈ ln_offset <$> nodes (lg s)) \/ is_Some (m !! o)) -> applying s' m c.
Proof using Type.
  intros HA Hg Hl Hf Hout Hes. pose proof (fun o Ho => applying_recorded _ _ _ o HA (Hes o Ho)) as Hsub.
  pose proof HA as [G1 [G2 G2'] G3 G4 G5 G6 G7 G8]. pose proof (hg_homed _ _ _ Hg) as Hh.
  assert (Ee : entries (bls s') c = entries (bls s) c) by (apply (homed_entries np es); [done..|lia]).
  split; rewrite ?Hl; cbn [set_free_nodes byteoff npages max_mem tailq_inited nodes in_mem free_nodes disk_map map_back]; try done.
  - split; [done|lia].
  - eapply list.Forall_impl; [exact G3|]. intros x. by apply (current_homed _ _ _ _ es).
  - by rewrite Ee.
  - by rewrite Ee.
  - intros b Hb Hm Hn. rewrite (homed_dview np es (bls s)) by (done || lia). rewrite <- G8 by done. unfold dread. rewrite Hh; [done|].
    intros Ho. destruct (Hes b Ho) as [?|Hs]; [done|]. rewrite Hm in Hs. by destruct Hs.
Qed.

(** Writing current nodes home makes their blocks current. *)
Lemma replay_current bl c ns b : Forall (current bl c) ns -> b ∈ ln_offset <$> ns -> cont (dread (replay bl ns) b) = dview bl c b.
Proof using Type.
  intros H Hb. unfold dread. rewrite replay_lookup. destruct (last_idx b ns) as [i|] eqn:E.
  - apply last_idx_Some in E as (x & Hx & <-). rewrite Hx. simpl. rewrite list.Forall_forall in H. apply H, list_elem_of_lookup. by exists i.
  - by apply last_idx_None in E.
Qed.

Lemma current_outside bl c ns : Forall (current bl c) ns -> Forall (fun p => outside np (ln_offset p)) ns.
Proof using Type. intros H. eapply list.Forall_impl; [exact H|]. by intros x ((_ & ? & _) & _). Qed.

(** Current nodes, which the map or the memory has, are written home and dropped from both. *)
Lemma write_home_any s m c ns :
  applying s m c -> Forall (current (bls s) c) ns -> (forall o, o ∈ ln_offset <$> ns -> (o ∈ ln_offset <$> nodes (lg s)) \/ is_Some (m !! o)) ->
  exists r s', (log_write_to_disk ns;; map_del_all ns) s = (r, s') /\ homing (entries (bls s) c) s s' /\
    match r with
    | Ok _ => exists t, lg s' = set_disk_map t (lg s) /\ hinv t (del_all m ns) /\ entries (bls s') c = entries (bls s) c /\
        (forall b, dview (bls s') c b = dview (bls s) c b) /\
        forall b, blk np b -> (b ∈ ln_offset <$> ns) \/ (m !! b = None /\ b ∉ ln_offset <$> nodes (lg s)) -> cont (dread (bls s') b) = dview (bls s) c b
    | Err e => e = E_IO /\ (length (io s') < length (io s))%nat /\ lg s' = lg s /\ applying s' m c
    | Panic => False
    end.
Proof using Type.
  intros HA Hcur Hns. pose proof HA as [(Hg & _) _ _ Hm _ Hc _ Hhome]. pose proof (current_outside _ _ _ Hcur) as Hout.
  destruct (log_write_to_disk_any np ns s Hg Hout) as (r & s1 & Hw & Hl1 & H1 & Hok).
  pose proof (fun o Ho => applying_recorded _ _ _ o HA (Hns o Ho)) as Hsub. pose proof (hg_homed _ _ _ H1) as Hh.
  assert (H1' : homing (entries (bls s) c) s s1) by (by eapply homing_mono).
  unfold mbind at 1, LM_bind at 1. rewrite Hw. destruct r as [[]|e|]; [| |done].
  2:{ destruct Hok as [-> Hlt]. exists (Err E_IO), s1. split_and!; [done..|]. apply (applying_homed s s1 m c ns (free_nodes (lg s))); [done..| |lia|done|done].
      rewrite Hl1. by destruct (lg s). }
  destruct (map_del_all_ok ns s1 m) as (t & Hdel & Ht); [by rewrite Hl1| |].
  { eapply list.Forall_impl; [exact Hcur|]. by intros x ((? & _) & _). }
  rewrite Hdel. eexists (Ok tt), _. split; [reflexivity|]. split; [eapply homing_trans; [exact H1'|apply homing_log]|].
  exists t. cbn [lg dk]. rewrite Hl1. split; [done|]. split; [exact Ht|]. split; [apply (homed_entries np ns); [done..|lia]|].
  split; [intros b; apply (homed_dview np ns); [done..|lia|done]|]. intros b Hb Hor. rewrite Hok.
  destruct (decide (b ∈ ln_offset <$> ns)) as [Hin|Hin]; [by apply replay_current|]. destruct Hor as [?|[Hmb Hnb]]; [done|].
  rewrite <- Hhome by done. unfold dread. rewrite replay_lookup, (proj2 (last_idx_None b ns)) by done. done.
Qed.

(** A round of the loop, with what follows it. *)
Definition mem_round (again : LM unit) (cap : nat) (max : Z) : LM unit :=
  in_log ← log_read_map (S cap) hashiter_init max [];
  lassert (negb (length in_log =? 0)%nat);;
  (log_write_to_disk in_log;; map_del_all in_log);;
  log_free_list in_log;;
  again.

Lemma apply_mem_round fuel s :
  ht_size (disk_map (lg s)) <> 0 -> apply_mem_loop (S fuel) s = mem_round (apply_mem_loop fuel) (capacity (disk_map (lg s))) (max_mem (lg s)) s.
Proof using Type.
  intros Hs. cbn [apply_mem_loop]. erewrite lbind_ok by reflexivity. rewrite (proj2 (Z.eqb_neq _ _) Hs). unfold mem_round, mbind, LM_bind.
  destruct (log_read_map _ _ _ _ s) as [[l| |] s1]; [|done..]. destruct (lassert _ s1) as [[[]| |] s2]; [|done..].
  by destruct (log_write_to_disk l s2) as [[[]| |] s3].
Qed.

Lemma free_list_back n f t l :
  (n + f)%nat = free_nodes l -> set_free_nodes (n + free_nodes (set_disk_map t (set_free_nodes f l))) (set_disk_map t (set_free_nodes f l)) = set_disk_map t l.
Proof using Type. destruct l. simpl. by intros <-. Qed.

Lemma apply_mem_loop_any fuel : forall s m c,
  applying s m c -> nodes (lg s) = [] -> (size m <= fuel)%nat ->
  exists r s', apply_mem_loop fuel s = (r, s') /\ homing (entries (bls s) c) s s' /\
    match r with
    | Ok _ => applying s' ∅ c /\ nodes (lg s') = [] /\ (whole (lg s) -> whole (lg s'))
    | Err e => e = E_IO /\ (length (io s') < length (io s))%nat /\ exists m', applying s' m' c
    | Panic => ~ whole (lg s)
    end.
Proof using Type.
  induction fuel as [|fuel IH]; intros s m c HA Hno Hsz; pose proof HA as [(Hg & Hmax & Hin & Hmb) [Hm1 Hm2] _ Hm Hrec Hc Hent Hhome].
  - assert (size m = 0%nat) as Hz by lia. apply map_size_empty_inv in Hz. subst m. exists (Ok tt), s. cbn [apply_mem_loop].
    erewrite lbind_ok by reflexivity. rewrite (hi_size _ _ Hm). split_and!; [done|apply homing_refl|done..].
  - destruct (decide (size m = 0%nat)) as [Hz|Hz].
    { apply map_size_empty_inv in Hz. subst m. exists (Ok tt), s. cbn [apply_mem_loop]. erewrite lbind_ok by reflexivity.
      rewrite (hi_size _ _ Hm). split_and!; [done|apply homing_refl|done..]. }
    rewrite apply_mem_round by (rewrite (hi_size _ _ Hm); lia). rewrite Hmax. unfold mem_round.
    destruct (log_read_map_any (S (capacity (disk_map (lg s)))) s m hashiter_init []) as (r & s1 & f & Hr & Hl1 & Hf & Hd1 & Hw1 & Hio1 & Hok);
      [done| |simpl; lia|done|].
    { intros b v Hv. by eapply record_current; [|apply Hrec]. }
    assert (H1 : forall es, homing es s s1) by (intros es; by apply homing_read).
    assert (HA1 : applying s1 m c) by (eapply (applying_homed s s1 m c [] f); [done|done|done|lia|constructor|set_solver]).
    unfold mbind at 1, LM_bind at 1. rewrite Hr. destruct r as [new|e|].
    2:{ destruct Hok as [-> Hlt]. exists (Err E_IO), s1. split_and!; [done..|by exists m]. }
    2:{ exists Panic, s1. split_and!; [done..|]. unfold whole. rewrite Hno. simpl in *. lia. }
    destruct Hok as (new' & -> & Hlen & Hall & Hne). rewrite app_nil_r in Hlen |- *. rename new' into new.
    assert (Hnew : new <> []).
    { apply Hne. destruct (map_choose m) as (b & v & Hv); [intros ->; by rewrite map_size_empty in Hz|].
      apply (hi_map _ _ Hm) in Hv as [Hb (j & Hj & Hs)]. exists j, (HashEntry b v). split; [simpl; lia|]. by split. }
    erewrite lbind_ok by (apply lassert_true; by destruct new).
    assert (Hin_log : forall x, x ∈ new -> current (bls s) c x /\ is_Some (m !! ln_offset x)).
    { intros x Hx. rewrite list.Forall_forall in Hall. destruct (Hall x Hx) as (v & Hv & Ex).
      destruct (record_current _ _ _ _ Hent (Hrec _ _ Hv)) as [_ Hcur]. rewrite <- Ex in Hcur. split; [done|by eexists]. }
    destruct (write_home_any s1 m c new HA1) as (r & s2 & Hw & H2 & Hok).
    { rewrite Hd1. apply list.Forall_forall. intros x Hx. by apply Hin_log. }
    { intros o (x & -> & Hx)%list_elem_of_fmap. right. by apply Hin_log. }
    rewrite Hd1 in H2, Hok. pose proof (homing_trans _ _ _ _ (H1 _) H2) as H12. unfold mbind at 1, LM_bind at 1. rewrite Hw. destruct r as [[]|e|]; [| |done].
    2:{ destruct Hok as (-> & Hlt & Hl2 & HA2). exists (Err E_IO), s2. split_and!; [done..|lia|by exists m]. }
    destruct Hok as (t & Hl2 & Ht & He2 & Hv2 & Hh2). rewrite Hl1 in Hl2, Hh2. unfold log_free_list. rewrite lbind_assoc. erewrite lbind_ok by reflexivity.
    erewrite lbind_ok by reflexivity. set (s3 := mkL _ _ _ _ _).
    assert (Hl3 : lg s3 = set_disk_map t (lg s)).
    { unfold s3. cbn [lg]. rewrite Hl2. by apply free_list_back. }
    assert (HA3 : applying s3 (del_all m new) c).
    { split; rewrite ?Hl3; cbn [set_disk_map byteoff npages max_mem tailq_inited nodes in_mem free_nodes disk_map map_back]; try done.
      - by rewrite Hno.
      - unfold s3. cbn [dk]. rewrite He2. intros b v. rewrite del_all_lookup. case_decide; [done|]. apply Hrec.
      - unfold s3. cbn [dk]. by rewrite He2.
      - unfold s3. cbn [dk]. intros b Hb Hd _. rewrite Hv2. apply Hh2; [done|]. rewrite del_all_lookup in Hd. case_decide; [by left|].
        right. split; [done|]. cbn [set_free_nodes nodes]. rewrite Hno. apply not_elem_of_nil. }
    destruct (IH s3 _ c HA3) as (r & s' & Hr' & H4 & Hok); [by rewrite Hl3| |].
    { destruct new as [|x new]; [done|]. pose proof (del_all_size m (x :: new) x ltac:(left) ltac:(apply Hin_log; left)). lia. }
    unfold s3 in H4. cbn [dk] in H4. rewrite He2 in H4.
    exists r, s'. split; [exact Hr'|]. split; [eapply homing_trans; [exact H12|]; eapply homing_trans; [apply (homing_log _ s2)|exact H4]|].
    rewrite Hl3 in Hok. destruct H12 as [Hio12 _ _ _]. destruct r as [[]|e|]; [done| |done]. destruct Hok as (-> & Hlt & Hex). split_and!; [done| |done]. unfold s3 in Hlt. simpl in Hlt. lia.
Qed.

Context (Hnp : 0 < np <= MAX_LOG_PAGES).

Lemma log_apply_mem_any s m c :
  applying s m c ->
  exists r s', log_apply_mem s = (r, s') /\ homing (entries (bls s) c) s s' /\
    match r with
    | Ok _ => fresh np s' s' /\ (forall b, blk np b -> cont (dread (bls s') b) = dview (bls s) c b) /\ (whole (lg s) -> whole (lg s'))
    | Err e => e = E_IO /\ (length (io s') < length (io s))%nat /\ exists m', applying s' m' c
    | Panic => ~ whole (lg s)
    end.
Proof using Hnp.
  intros HA. pose proof HA as [(Hg & Hmax & Hin & Hmb) [Hm1 Hm2] Hcur Hm Hrec Hc Hent Hhome].
  assert (E0 : log_apply_mem s = ((log_write_to_disk (nodes (lg s));; map_del_all (nodes (lg s)));;
    count ← log_free_nodes; upd_log (fun l => set_in_mem (in_mem l - count) l);; l ← get_log; lassert (in_mem l =? 0);;
    apply_mem_loop (Z.to_nat (ht_size (disk_map l)));; l ← get_log; log_init (npages l)) s).
  { unfold log_apply_mem, get_log, mbind, LM_bind. by destruct (log_write_to_disk _ s) as [[[]| |] s1]. }
  rewrite E0. clear E0. destruct (write_home_any s m c (nodes (lg s)) HA Hcur ltac:(auto)) as (r & s1 & Hw & H1 & Hok).
  unfold mbind at 1, LM_bind at 1. rewrite Hw. destruct r as [[]|e|]; [| |done].
  2:{ destruct Hok as (-> & Hlt & Hl & HA1). exists (Err E_IO), s1. split_and!; [done..|by exists m]. }
  destruct Hok as (t & Hl1 & Ht & He1 & Hv1 & Hh1).
  unfold log_free_nodes, log_free_list. rewrite lbind_assoc. erewrite lbind_ok by reflexivity.
  rewrite lbind_assoc. erewrite lbind_ok by reflexivity. rewrite lbind_assoc. erewrite lbind_ok by reflexivity.
  erewrite lbind_ok by reflexivity. erewrite lbind_ok by reflexivity. erewrite lbind_ok by reflexivity.
  set (s2 := mkL (set_in_mem _ _) _ _ _ _).
  assert (Hin2 : in_mem (lg s2) = 0) by (unfold s2; cbn; rewrite Hl1; cbn; rewrite Hm1; lia).
  erewrite lbind_ok by (apply lassert_true; by rewrite Hin2).
  assert (Hn2 : nodes (lg s2) = [] /\ free_nodes (lg s2) = (length (nodes (lg s)) + free_nodes (lg s))%nat) by (unfold s2; cbn; by rewrite Hl1).
  destruct Hn2 as [Hn2 Hf2]. assert (HA2 : applying s2 (del_all m (nodes (lg s))) c).
  { split; rewrite ?Hn2, ?Hf2, ?Hin2; unfold s2; cbn [lg dk set_in_mem set_nodes set_free_nodes byteoff npages max_mem tailq_inited disk_map map_back];
      rewrite ?Hl1; cbn [set_disk_map byteoff npages max_mem tailq_inited disk_map map_back]; try done.
    - rewrite He1. intros b v. rewrite del_all_lookup. case_decide; [done|]. apply Hrec.
    - by rewrite He1.
    - intros b Hb Hd _. rewrite Hv1. apply Hh1; [done|]. rewrite del_all_lookup in Hd. case_decide; [by left|by right]. }
  assert (Esz : Z.to_nat (ht_size (disk_map (lg s2))) = size (del_all m (nodes (lg s)))) by (rewrite (hi_size _ _ (ap_map _ _ _ HA2)); lia).
  destruct (apply_mem_loop_any _ s2 _ c HA2 Hn2 (Nat.eq_le_incl _ _ (eq_sym Esz))) as (r & s3 & Hr3 & H3 & Hok).
  unfold s2 in H3. cbn [dk] in H3. rewrite He1 in H3. fold s2 in H3.
  assert (H13 : homing (entries (bls s) c) s s3) by (eapply homing_trans; [exact H1|]; eapply homing_trans; [apply (homing_log _ s1)|exact H3]).
  assert (Hwh : whole (lg s) -> whole (lg s2)) by (unfold whole; rewrite Hn2, Hf2; done).
  unfold mbind at 1, LM_bind at 1. rewrite Hr3. destruct r as [[]|e|].
  2:{ destruct Hok as (-> & Hlt & Hex). exists (Err E_IO), s3. split_and!; [done..| |done]. destruct H1 as [Hio1 _ _ _]. unfold s2 in Hlt. simpl in Hlt. lia. }
  2:{ exists Panic, s3. split_and!; [done..|]. auto. }
  destruct Hok as (HA3 & Hn3 & Hwh3). erewrite lbind_ok by reflexivity. pose proof HA3 as [((_ & Hnp3) & _ & Hin3 & Hmb3) [_ Hm3] _ _ _ _ _ Hh3]. rewrite Hnp3.
  destruct (log_init_ok np Hnp s3) as (s' & Hr' & F'); [unfold ready; rewrite Hin3; lia|]. pose proof F' as [I' D' IO' W' L' R' Wh'].
  exists (Ok tt), s'. split; [exact Hr'|]. split; [eapply homing_trans; [exact H13|]; apply homing_read; [done..|by rewrite IO']|].
  split; [by eapply fresh_self|]. rewrite D'. split.
  - intros b Hb. rewrite Hh3; [|done|apply lookup_empty|rewrite Hn3; apply not_elem_of_nil].
    assert (Hsub : forall o, o ∈ ln_offset <$> entries (bls s) c -> o ∈ ln_offset <$> entries (bls s) c) by done.
    rewrite (homed_dview np _ _ _ _ _ (hg_homed _ _ _ H13)); [done|by apply blk_outside|lia|done].
  - intros Hw0. apply Wh'. unfold all_buffers. auto.
Qed.

(** The loop around it ends: a failure takes one of the outcomes that are left. *)
Lemma retry_apply_any fuel : forall s m c,
  applying s m c -> (length (io s) < fuel)%nat ->
  exists r s', retry fuel log_apply_mem s = (r, s') /\ homing (entries (bls s) c) s s' /\
    match r with
    | Ok _ => fresh np s' s' /\ (forall b, blk np b -> cont (dread (bls s') b) = dview (bls s) c b) /\ (io s = [] -> whole (lg s) -> whole (lg s'))
    | Err _ => False
    | Panic => io s <> [] \/ ~ whole (lg s)
    end.
Proof using Hnp.
  induction fuel as [|fuel IH]; intros s m c HA Hf; [lia|]. cbn [retry]. unfold ltry.
  destruct (log_apply_mem_any s m c HA) as (r & s1 & Hr & H1 & Hok). rewrite Hr. destruct r as [[]|e|].
  - exists (Ok tt), s1. destruct Hok as (F1 & F2 & F3). by split_and!.
  - destruct Hok as (-> & Hlt & m' & HA1). destruct (IH s1 m' c HA1) as (r & s' & Hr' & H2 & Hok); [lia|].
    assert (Hio : io s <> []) by (destruct (io s); [simpl in Hlt; lia|done]). pose proof (ap_ent _ _ _ HA) as Hent. pose proof (ap_room _ _ _ HA) as Hroom.
    assert (He : entries (bls s1) c = entries (bls s) c) by (apply (homed_entries np (entries (bls s) c)); [apply H1|by apply blk_outside|lia]).
    rewrite He in H2. exists r, s'. split_and!; [done|by eapply homing_trans|]. destruct r as [[]|e|]; [|done|by left]. destruct Hok as (F1 & F2 & _).
    split_and!; [done| |done]. intros b Hb. rewrite F2 by done. apply (homed_dview np (entries (bls s) c)); [apply H1|by apply blk_outside|lia|done].
  - exists Panic, s1. split_and!; [done..|by right].
Qed.

Lemma retry_header_any (P : disk_t -> Prop) h fuel : forall s,
  (length (io s) < fuel)%nat -> P (Disk h (bls s)) ->
  exists s', retry fuel (write_header h) s = (Ok tt, s') /\ lg s' = lg s /\ dk s' = Disk h (bls s) /\ seen_only P s s' /\ (length (io s') <= length (io s))%nat.
Proof using Type.
  induction fuel as [|fuel IH]; intros s Hf HP; [lia|]. cbn [retry]. unfold ltry.
  destruct (write_header_cases h s) as (r & s1 & Hr & Hl & Hio & Hd & Hok). rewrite Hr.
  assert (Hs : seen_only P s s1).
  { destruct Hd as [(_ & Hw & _)|[Hd Hw]]; [by apply seen_refl|]. exists [dk s1]. rewrite Hw. split; [done|]. apply list.Forall_singleton. by rewrite Hd. }
  destruct Hok as [->|[-> Hlt]].
  - destruct Hd as [(_ & _ & ?)|[Hd _]]; [done|]. exists s1. by split_and!.
  - assert (Hb : bls s1 = bls s) by (destruct Hd as [(-> & _)|[-> _]]; done).
    destruct (IH s1) as (s' & Hr' & Hl' & Hd' & Hs' & Hio'); [lia|by rewrite Hb|]. exists s'. rewrite <- Hb.
    split_and!; [done|congruence|done|by eapply seen_trans|lia].
Qed.

(** ** The commit *)

Lemma agree_recoverable d bl c V :
  d_hdr d = mkHdr (Z.of_nat c) np -> agree np c bl (d_blocks d) -> Z.of_nat c < np ->
  Forall (fun p => blk np (ln_offset p)) (entries bl c) -> (forall b, blk np b -> dview bl c b = V b) -> recoverable np d V.
Proof using Type.
  intros Hh Ha Hc Hent HV. exists c. rewrite (agree_entries np c bl) by done. split_and!; [done..|]. intros b Hb.
  rewrite (agree_dview np c bl); [by apply HV|done|]. by destruct Hb as (_ & ? & _).
Qed.

(** The log with what is committed, [V0], and what is there now, [V1]. *)
Record log_state (s : lstate) (V0 V1 : Z -> Z * list Z) (m : gmap Z Z) (c c0 : nat) : Prop := {
  lo_inv : linv np (lg s) (bls s) m c;
  lo_on : on_disk (lg s) = Z.of_nat c;
  lo_map : (map_need np <= map_back (lg s))%nat;
  lo_hdr : d_hdr (dk s) = mkHdr (Z.of_nat c0) np;
  lo_le : (c0 <= c)%nat;
  lo_old : forall b, blk np b -> dview (bls s) c0 b = V0 b;
  lo_new : forall b, blk np b -> lview (lg s) (bls s) c b = V1 b;
}.
Definition log_ok (s : lstate) (V0 V1 : Z -> Z * list Z) : Prop := exists m c c0, log_state s V0 V1 m c c0.

Lemma lo_entries s V0 V1 m c c0 : log_state s V0 V1 m c c0 -> Forall (fun p => blk np (ln_offset p)) (entries (bls s) c0) /\ Z.of_nat c0 < np.
Proof using Type.
  intros H. pose proof (lo_inv _ _ _ _ _ _ H) as HI. pose proof (lo_le _ _ _ _ _ _ H) as Hle. split.
  - rewrite (entries_take _ c0 c Hle). apply Forall_take, HI.
  - pose proof (li_room _ _ _ _ _ HI). lia.
Qed.

Lemma restored_log_ok s V : restored np s V -> log_ok s V V.
Proof using Type.
  intros [[HI _ _ _ (Hn & Ho & _) Hm _] Hh HV]. exists ∅, 0%nat, 0%nat. split; [done..|]. intros b Hb. unfold lview.
  rewrite Hn. by apply HV.
Qed.

(** A restart from the disk comes up with the contents [V], or reports an error of the
    disk; the disk that it leaves, and those that it goes through, give [V] again. *)
Definition recovers (d : disk_t) (V : Z -> Z * list Z) : Prop :=
  forall o ram, (Z.to_nat LOG_MEMORY + map_need np <= ram)%nat ->
  exists r s, recover d o ram = (r, s) /\ recoverable np (dk s) V /\ Forall (fun d => recoverable np d V) (writes s) /\
    match r with
    | Ok h => h = d_hdr (dk s) /\ log_ok s V V /\ whole (lg s)
    | Err e => e = E_IO /\ o <> []
    | Panic => o <> []
    end.

Lemma recoverable_recovers d V : recoverable np d V -> recovers d V.
Proof using Hnp.
  intros H o ram Hram. pose proof H as (c & Hh & Hc & Hent & HV). unfold recover.
  assert (HF : fallback np (reboot d o ram) (d_hdr d) V V).
  { split; [unfold ready; cbn [tailq_inited lg reboot zero_log map_back Log.ram]; lia|]. by exists c, c. }
  destruct (apply_disk_log_any np Hnp _ _ _ _ HF) as (r & s & Hr & _ & Hseen & Hsafe & Hok). exists r, s. split; [done|]. split; [naive_solver|]. split.
  - destruct Hseen as (ws & -> & HP). rewrite app_nil_r. eapply list.Forall_impl; [exact HP|]. naive_solver.
  - assert (Hall : all_buffers (reboot d o ram)) by done. destruct r as [h|e|]; [|done|naive_solver]. destruct Hok as (-> & Hrs & Hw).
    split_and!; [symmetry; apply Hrs|by apply restored_log_ok|by apply Hw].
Qed.

(** What a step leaves on the disk, when it keeps the [c0] records of the header. *)
Lemma keeps_recoverable s s' V0 V1 m c c0 :
  log_state s V0 V1 m c c0 -> keeps_log np s s' c -> seen_only (fun d => recoverable np d V0) s s' /\ recoverable np (dk s') V0.
Proof using Type.
  intros H Hk. destruct (lo_entries _ _ _ _ _ _ H) as [Hent Hc0]. pose proof (lo_hdr _ _ _ _ _ _ H) as Hh. pose proof (lo_le _ _ _ _ _ _ H) as Hle.
  assert (Hd : forall d, d_hdr d = d_hdr (dk s) -> agree np c (bls s) (d_blocks d) -> recoverable np d V0).
  { intros d Hd Ha. eapply (agree_recoverable d (bls s) c0); [congruence|by eapply agree_le|done|done|apply H]. }
  split; [|apply Hd; apply Hk]. destruct (kl_writes _ _ _ _ Hk) as (ws & Hws & HF). exists ws. split; [done|].
  eapply list.Forall_impl; [exact HF|]. intros d [H1 H2]. by apply Hd.
Qed.

(** After a flush, complete or not, the last commit can be gone back to. *)
Lemma keeps_fallback s s' V0 V1 m c c0 :
  log_state s V0 V1 m c c0 -> keeps_log np s s' c -> same_shape (lg s) (lg s') -> fallback np s' (d_hdr (dk s)) V0 V0.
Proof using Type.
  intros H Hk (S1 & S2 & _ & _ & S5 & S6). destruct (lo_entries _ _ _ _ _ _ H) as [Hent Hc0]. pose proof H as [HI _ Hmb Hh Hle HV0 _].
  destruct (li_geom _ _ _ _ _ HI) as (_ & _ & _ & Hin & _). destruct (li_mem _ _ _ _ _ HI) as [_ Hmem].
  pose proof (agree_le _ c0 _ _ _ Hle (kl_agree _ _ _ _ Hk)) as Ha.
  assert (HV : forall b, blk np b -> dview (bls s') c0 b = V0 b).
  { intros b Hb. rewrite (agree_dview np c0 (bls s)); [by apply HV0|done|by destruct Hb as (_ & ? & _)]. }
  split; [unfold ready; rewrite S6, Hin; lia|]. exists c0, c0. rewrite Hh, (kl_hdr _ _ _ _ Hk), Hh, (agree_entries np c0 (bls s)) by done. by split_and!.
Qed.

Lemma flushed_applying s m c :
  linv np (lg s) (bls s) m c -> Forall (fun x => ln_dirty x = false) (nodes (lg s)) -> (map_need np <= map_back (lg s))%nat -> applying s m c.
Proof using Type.
  intros [(G1 & G2 & G3 & G4 & _) (Hh & _) Hpos Hroom Hent [Hnd Hblk] Hmem Hclean] Hcl Hmb. rewrite list.Forall_forall in Hblk, Hcl.
  split; try done.
  - apply list.Forall_forall. intros x Hx. destruct (Hclean x Hx (Hcl x Hx)) as [H1 H2]. split_and!; [by apply Hblk|done|done].
  - intros b v Hv. by rewrite <- Hpos.
  - intros b Hb Hm _. rewrite Hpos in Hm. unfold dview, dread. rewrite replay_lookup. by destruct (last_idx b (entries (bls s) c)).
Qed.

(** Applying the log after the header was written, as often as it takes. *)
Lemma apply_commit_any s m c V :
  applying s m c -> d_hdr (dk s) = mkHdr (Z.of_nat c) np -> (forall b, blk np b -> dview (bls s) c b = V b) ->
  exists r s', (retry_io log_apply_mem;; retry_io (write_header (mkHdr 0 np));; lassert_ok disk_flush;; mret (mkHdr 0 np)) s = (r, s') /\
    (length (io s') <= length (io s))%nat /\ seen_only (fun d => recoverable np d V) s s' /\ recoverable np (dk s') V /\
    match r with
    | Ok h => h = d_hdr (dk s') /\ restored np s' V /\ (io s = [] -> whole (lg s) -> whole (lg s'))
    | Err _ => False
    | Panic => io s <> [] \/ ~ whole (lg s)
    end.
Proof using Hnp.
  intros HA Hh HV. pose proof (ap_ent _ _ _ HA) as Hent. pose proof (ap_room _ _ _ HA) as Hc.
  destruct (retry_apply_any (S (length (io s))) s m c HA) as (r & s1 & Hr & [Hio1 Hh1 Hd1 Hs1] & Hok); [lia|].
  assert (Hrec : forall d, d_hdr d = d_hdr (dk s) -> homed (entries (bls s) c) (bls s) (d_blocks d) -> recoverable np d V).
  { intros d H1 H2. by eapply (homed_recoverable np (entries (bls s) c) (bls s) c); [..|congruence|exact H2]. }
  assert (Hseen1 : seen_only (fun d => recoverable np d V) s s1) by (eapply seen_impl; [|exact Hs1]; intros d [? ?]; by apply Hrec).
  unfold mbind at 1, LM_bind at 1. unfold retry_io at 1. rewrite Hr. destruct r as [[]|e|]; [|done|].
  2:{ exists Panic, s1. split_and!; [done..|by apply Hrec|done]. }
  destruct Hok as (F1 & HV1 & Hw1).
  assert (HVs : forall b, blk np b -> cont (dread (bls s1) b) = V b) by (intros b Hb; rewrite HV1 by done; by apply HV).
  assert (Hnew : recoverable np (Disk (mkHdr 0 np) (bls s1)) V) by (exists 0%nat; simpl; split_and!; [done|lia|constructor|exact HVs]).
  destruct (retry_header_any (fun d => recoverable np d V) (mkHdr 0 np) (S (length (io s1))) s1) as (s2 & Hr2 & Hl2 & Hd2 & Hs2 & Hio2); [lia|done|].
  unfold mbind at 1, LM_bind at 1. unfold retry_io at 1. rewrite Hr2. pose proof (seen_trans _ _ _ _ Hseen1 Hs2) as Hseen2.
  destruct (lassert_flush_cases s2) as (r & s3 & Hr3 & Hl3 & Hd3 & Hw3 & Hio3 & Hok3). unfold mbind at 1, LM_bind at 1. rewrite Hr3.
  assert (Hseen3 : seen_only (fun d => recoverable np d V) s s3) by (eapply seen_trans; [exact Hseen2|by apply seen_refl]).
  destruct Hok3 as [->|[-> Hlt]].
  - exists (Ok (mkHdr 0 np)), s3. rewrite Hd3, Hd2. split_and!; [done|lia|done|done|done| |rewrite Hl3, Hl2; auto].
    split; rewrite ?Hd3, ?Hd2; [|done|exact HVs]. destruct F1 as [I1 _ _ _ L1 R1 W1].
    split; rewrite ?Hl3, ?Hl2, ?Hd3, ?Hd2; try done. unfold all_buffers in *. by rewrite Hl3, Hl2.
  - exists Panic, s3. rewrite Hd3, Hd2. split_and!; [done|lia|done..|]. left. intros E. rewrite E in Hio1. simpl in Hio1. lia.
Qed.

Lemma commit_any s V0 V1 h :
  log_ok s V0 V1 -> in_mem (lg s) + on_disk (lg s) + 1 < np -> ph_log_max h = np ->
  let safe d := recoverable np d V0 \/ recoverable np d V1 in
  exists r s', pstate_sync_commit h s = (r, s') /\ (length (io s') <= length (io s))%nat /\ seen_only safe s s' /\ safe (dk s') /\
    match r with
    | Ok h' => h' = d_hdr (dk s') /\ log_ok s' V1 V1 /\ (io s = [] -> whole (lg s) -> whole (lg s'))
    | Err e => e = E_IO /\ io s <> [] /\ (whole (lg s) -> whole (lg s')) /\ exists V, (V = V0 \/ V = V1) /\ fallback np s' (d_hdr (dk s)) V0 V
    | Panic => io s <> [] \/ ~ whole (lg s)
    end.
Proof using Hnp.
  intros (m & c & c0 & HL) Hroom Hmax safe. pose proof HL as [HI Hod Hmb Hh0 Hc0 HV0 HV1]. unfold pstate_sync_commit.
  destruct (log_flush_any np s m c HI Hod Hroom) as (r & s1 & Hfl & Hk1 & Hsh1 & Hok1).
  destruct (keeps_recoverable _ _ _ _ _ _ _ HL Hk1) as [Hseen1 Hrec1]. pose proof (keeps_fallback _ _ _ _ _ _ _ HL Hk1 Hsh1) as Hfb1.
  pose proof (kl_io _ _ _ _ Hk1) as Hio1. assert (Hne : forall n, (n < length (io s))%nat -> io s <> []) by (intros n; destruct (io s); [simpl; lia|done]).
  assert (Hwh1 : whole (lg s) -> whole (lg s1)) by (destruct Hsh1 as (S1 & S2 & _); unfold whole; by rewrite S1, S2).
  assert (Hs1 : seen_only safe s s1) by (eapply seen_impl; [|exact Hseen1]; by left).
  unfold mbind at 1, LM_bind at 1. rewrite Hfl. destruct r as [z|e|]; [| |done].
  2:{ destruct Hok1 as [-> Hlt]. exists (Err E_IO), s1. split_and!; [done|done|done|by left|done|by eapply Hne|done|]. exists V0. split; [by left|done]. }
  destruct Hok1 as (m1 & c1 & -> & Hc1 & Hod1 & [HI1 Hv1 Hcl1]).
  destruct (disk_flush_cases s1) as (r & s2 & Hr2 & Hl2 & Hd2 & Hw2 & Hio2 & Hok2). unfold mbind at 1, LM_bind at 1. rewrite Hr2.
  assert (Hs2 : seen_only safe s s2) by (eapply seen_trans; [exact Hs1|by apply seen_refl]).
  assert (Hfb2 : fallback np s2 (d_hdr (dk s)) V0 V0).
  { destruct Hfb1 as [R1 Hex]. split; [|by rewrite Hd2]. unfold ready in *. rewrite Hl2. destruct (li_geom _ _ _ _ _ HI1) as (_ & _ & _ & -> & _).
    destruct Hsh1 as (_ & _ & _ & _ & S5 & _). destruct (li_mem _ _ _ _ _ HI1). lia. }
  destruct Hok2 as [->|[-> Hlt]].
  2:{ exists (Err E_IO), s2. rewrite Hd2, Hl2. split_and!; [done|lia|done|by left|done|apply (Hne (length (io s2))); lia|done|]. exists V0. split; [by left|done]. }
  cbv zeta. destruct (write_header_cases (mkHdr (Z.of_nat c1) (ph_log_max h)) s2) as (r & s3 & Hr3 & Hl3 & Hio3 & Hd3 & Hok3).
  rewrite Hmax in *. cbn [ph_log_max ph_log_blocks].
  assert (HV : forall b, blk np b -> dview (bls s1) c1 b = V1 b).
  { intros b Hb. rewrite <- HV1, <- Hv1 by done. symmetry. by apply (lview_clean np _ _ m1). }
  pose proof (li_room _ _ _ _ _ HI1) as Hr1. pose proof (li_ent _ _ _ _ _ HI1) as He1.
  assert (Hnew : recoverable np (Disk (mkHdr (Z.of_nat c1) np) (bls s1)) V1) by (by exists c1).
  assert (Hs3 : seen_only safe s s3 /\ safe (dk s3)).
  { destruct Hd3 as [(Hd & Hw & _)|[Hd Hw]]; rewrite Hd, ?Hd2.
    - split; [|by left]. eapply seen_trans; [exact Hs2|by apply seen_refl].
    - split; [|by right]. eapply seen_trans; [exact Hs2|]. exists [dk s3]. rewrite Hw. split; [done|]. apply list.Forall_singleton. rewrite Hd, Hd2. by right. }
  destruct Hs3 as [Hs3 Hsafe3]. unfold mbind at 1, LM_bind at 1. rewrite Hr3. destruct Hok3 as [->|[-> Hlt]].
  2:{ exists (Err E_IO), s3. rewrite Hl3, Hl2. split_and!; [done|lia|done|done|done|apply (Hne (length (io s3))); lia|done|].
      assert (Hrd : ready np s3).
      { destruct Hfb1 as [R1 _]. unfold ready in *. rewrite Hl3, Hl2. destruct (li_geom _ _ _ _ _ HI1) as (_ & _ & _ & -> & _).
        destruct Hsh1 as (_ & _ & _ & _ & S5 & _). destruct (li_mem _ _ _ _ _ HI1). lia. }
      destruct Hd3 as [(Hd & _)|[Hd _]].
      - exists V0. split; [by left|]. split; [done|]. rewrite Hd. by destruct Hfb2 as [_ ?].
      - exists V1. split; [by right|]. split; [done|]. exists c0, c1. rewrite Hd, Hd2, Hh0. cbn [d_hdr d_blocks]. split_and!; [done|done|lia|done|done| |done].
        intros b Hb. rewrite <- HV0 by done. apply (agree_dview np); [|by destruct Hb as (_ & ? & _)]. eapply agree_le; [exact Hc0|apply Hk1]. }
  destruct Hd3 as [(_ & _ & ?)|[Hd3 _]]; [done|]. rewrite Hd2 in Hd3.
  destruct (lassert_flush_cases s3) as (r & s4 & Hr4 & Hl4 & Hd4 & Hw4 & Hio4 & Hok4). unfold mbind at 1, LM_bind at 1. rewrite Hr4.
  assert (Hs4 : seen_only safe s s4) by (eapply seen_trans; [exact Hs3|by apply seen_refl]). rewrite Hd3 in Hd4.
  destruct Hok4 as [->|[-> Hlt]].
  2:{ exists Panic, s4. rewrite Hd4. split_and!; [done|lia|done|by right|]. left. apply (Hne (length (io s4))). lia. }
  assert (Hl : lg s4 = lg s1) by congruence. erewrite lbind_ok by reflexivity. rewrite Hl.
  assert (Hmb1 : (map_need np <= map_back (lg s1))%nat) by (destruct Hsh1 as (_ & _ & _ & _ & -> & _); done).
  destruct (_ || _).
  - destruct (apply_commit_any s4 m1 c1 V1) as (r & s5 & Hr5 & Hio5 & Hs5 & Hd5 & Hok5).
    { apply flushed_applying; rewrite ?Hl, ?Hd4; done. }
    { by rewrite Hd4. }
    { by rewrite Hd4. }
    exists r, s5. split_and!; [exact Hr5|lia| |by right|].
    { eapply seen_trans; [exact Hs4|]. eapply seen_impl; [|exact Hs5]. by right. }
    rewrite Hl in Hok5. assert (Hq : io s = [] -> io s4 = []) by (intros E; rewrite E in *; simpl in *; destruct (io s4); [done|simpl in *; lia]).
    destruct r as [h'|e|]; [|done|].
    + destruct Hok5 as (-> & Hrs & Hw). split_and!; [done|by apply restored_log_ok|auto].
    + destruct Hok5 as [H4|H4]; [left; auto|right; auto].
  - exists (Ok (mkHdr (Z.of_nat c1) np)), s4. rewrite Hd4. split_and!; [done|lia|done|by right|done| |intros _; rewrite Hl; done].
    exists m1, c1, c1. split; rewrite ?Hl, ?Hd4; try done. intros b Hb. cbn [d_blocks]. rewrite <- HV1 by done. by apply Hv1.
Qed.

Lemma finish_any s V0 V1 h :
  log_ok s V0 V1 -> in_mem (lg s) + on_disk (lg s) + 1 < np -> ph_log_max h = np ->
  let safe d := recoverable np d V0 \/ recoverable np d V1 in
  exists r s', pstate_sync_finish (d_hdr (dk s)) h s = (r, s') /\ seen_only safe s s' /\ safe (dk s') /\
    match r with
    | Ok (h', committed) => h' = d_hdr (dk s') /\ (if committed then log_ok s' V1 V1 else log_ok s' V0 V0 /\ io s <> []) /\
        (io s = [] -> whole (lg s) -> whole (lg s'))
    | Err _ => False
    | Panic => io s <> [] \/ ~ whole (lg s)
    end.
Proof using Hnp.
  intros HL Hroom Hmax safe. destruct (commit_any s V0 V1 h HL Hroom Hmax) as (r & s1 & Hr & Hio & Hs & Hd & Hok). unfold pstate_sync_finish, ltry. rewrite Hr.
  destruct r as [h'|e|]; [| |by exists Panic, s1].
  - exists (Ok (h', true)), s1. destruct Hok as (-> & HL1 & Hw). by split_and!.
  - destruct Hok as (_ & Hne & Hwh & V & HV & HF). destruct (apply_disk_log_any np Hnp _ _ _ _ HF) as (r & s2 & Hr2 & Hio2 & Hs2 & Hd2 & Hok). rewrite Hr2.
    assert (Hsafe : forall d, recoverable np d V \/ recoverable np d V0 -> safe d) by (intros d; unfold safe; destruct HV; subst V; tauto).
    assert (Hseen : seen_only safe s s2) by (eapply seen_trans; [exact Hs|eapply seen_impl; [|exact Hs2]; exact Hsafe]).
    destruct r as [h'|e'|]; [|exists Panic, s2; auto..].
    destruct Hok as (-> & Hrs & Hw). exists (Ok (mkHdr 0 np, false)), s2. split_and!; [done|done|auto|symmetry; apply Hrs|by apply restored_log_ok|done|done].
Qed.

Lemma write_any s V0 V1 n :
  log_ok s V0 V1 -> blk np (ln_offset n) -> in_mem (lg s) + on_disk (lg s) + 1 < np ->
  exists r s', log_write n s = (r, s') /\ seen_only (fun d => recoverable np d V0) s s' /\ recoverable np (dk s') V0 /\
    match r with
    | Ok _ => log_ok s' V0 (fun b => if decide (b = ln_offset n) then cont n else V1 b) /\ (whole (lg s) -> whole (lg s'))
    | Err e => e = E_IO /\ io s <> [] /\ fallback np s' (d_hdr (dk s)) V0 V0 /\ (whole (lg s) -> whole (lg s'))
    | Panic => ~ whole (lg s)
    end.
Proof using Type.
  intros (m & c & c0 & HL) Hb Hroom. pose proof HL as [HI Hod Hmb Hh0 Hc0 HV0 HV1].
  destruct (log_write_any np s m c n HI Hod Hb Hroom) as (r & s' & Hw & Hk & Hok). destruct (keeps_recoverable _ _ _ _ _ _ _ HL Hk) as [Hseen Hrec].
  exists r, s'. split_and!; [done..|]. destruct r as [[]|e|]; [| |done].
  - destruct Hok as (m' & c' & [W1 W2 W3 W4 [_ W5] W6]). split; [|done]. exists m', c', c0. destruct Hk as [_ _ K3 K4 _].
    split; [done|done|lia|congruence|lia| |].
    + intros b Hbk. rewrite <- HV0 by done. apply (agree_dview np); [by eapply agree_le|]. by destruct Hbk as (_ & ? & _).
    + intros b Hbk. rewrite W4 by done. case_decide; [done|]. by apply HV1.
  - destruct Hok as (-> & Hlt & Hsh). split_and!; [done|destruct (io s); [simpl in Hlt; lia|done]|by eapply keeps_fallback|].
    destruct Hsh as (S1 & S2 & _). unfold whole. by rewrite S1, S2.
Qed.

Lemma read_any s V0 V1 b :
  log_ok s V0 V1 -> blk np b ->
  exists r s', log_try_read b s = (r, s') /\ lg s' = lg s /\ dk s' = dk s /\ writes s' = writes s /\
    match r with
    | Ok x => cont x = V1 b
    | Err e => e = E_NOT_FOUND /\ cont (dread (bls s) b) = V1 b \/ e = E_IO /\ io s <> []
    | Panic => False
    end.
Proof using Type.
  intros (m & c & c0 & HL) Hb. pose proof HL as [HI _ _ _ _ _ HV1]. rewrite <- HV1 by done.
  destruct (log_try_read_any np s m c b HI Hb) as (r & s' & Hr & H1 & H2 & H3 & _ & H4 & Hok). exists r, s'. split_and!; [done..|].
  destruct r as [x|e|]; [done| |done]. destruct Hok as [?|[-> Hlt]]; [by left|right]. split; [done|]. destruct (io s); [simpl in Hlt; lia|done].
Qed.

End commit.

(** ** Claims *)

(** C16: a commit is atomic, with any outcomes of the disk accesses.  From a state whose
    committed contents are [V0] and whose current contents are [V1], in which no block
    was freed since the log was last applied and the log has room for the nodes in
    memory, [pstate_sync_stackwrap] flushes the log, writes the header and applies the
    log when it has grown, trying again when that fails; when the flush or the header
    fails it rolls back.  If it ends, then either the commit is reported and [V1] is
    committed, or its failure is reported and [V0] is, in memory and on disk.  It
    fails or panics only after an error of the disk, or when buffers of the log were
    lost to such an error before.  A restart from the disk that it leaves, also by a panic, or from any
    disk that a write on the way leaves behind, whole or torn, comes up with all of
    [V0] or all of [V1]. *)
Theorem pstate_commit_atomic np s V0 V1 h :
  0 < np <= MAX_LOG_PAGES -> log_ok np s V0 V1 -> in_mem (lg s) + on_disk (lg s) + 1 < np -> ph_log_max h = np ->
  let safe d := recovers np d V0 \/ recovers np d V1 in
  exists r s', pstate_sync_finish (d_hdr (dk s)) h s = (r, s') /\ seen_only safe s s' /\ safe (dk s') /\
    match r with
    | Ok (h', committed) => h' = d_hdr (dk s') /\ (if committed then log_ok np s' V1 V1 else log_ok np s' V0 V0 /\ io s <> []) /\
        (io s = [] -> whole (lg s) -> whole (lg s'))
    | Err _ => False
    | Panic => io s <> [] \/ ~ whole (lg s)
    end.
Proof.
  intros Hnp HL Hroom Hmax safe. destruct (finish_any np Hnp s V0 V1 h HL Hroom Hmax) as (r & s' & Hr & Hs & Hd & Hok). exists r, s'.
  assert (Hsafe : forall d, recoverable np d V0 \/ recoverable np d V1 -> safe d) by (intros d [?|?]; [left|right]; by apply recoverable_recovers).
  split_and!; [done|eapply seen_impl; [exact Hsafe|exact Hs]|by apply Hsafe|done].
Qed.

(** C21: the log with the disk is a store of blocks, with any outcomes of the disk
    accesses.  In a state whose committed contents are [V0] and whose current contents
    are [V1], in which no block was freed since the log was last applied and the log
    has room for the nodes in memory, writing a node gives its block the new contents
    and leaves all others alone, even when the buffer is full and has to be flushed on
    the way; it can only fail by an error of the disk, after which the last commit can
    be gone back to, and panic only if buffers were lost before.  Reading finds the
    current contents in the log, or reports that the block itself has them, or an
    error of the disk.  A restart from the disk that the write leaves, or from any that it
    passes through, comes up with [V0]. *)
Theorem log_is_block_store np s V0 V1 n b :
  0 < np <= MAX_LOG_PAGES -> log_ok np s V0 V1 -> blk np (ln_offset n) -> in_mem (lg s) + on_disk (lg s) + 1 < np -> blk np b ->
  (exists r s', log_write n s = (r, s') /\ seen_only (fun d => recovers np d V0) s s' /\ recovers np (dk s') V0 /\
     match r with
     | Ok _ => log_ok np s' V0 (fun b => if decide (b = ln_offset n) then cont n else V1 b) /\ (whole (lg s) -> whole (lg s'))
     | Err e => e = E_IO /\ io s <> [] /\ fallback np s' (d_hdr (dk s)) V0 V0 /\ (whole (lg s) -> whole (lg s'))
     | Panic => ~ whole (lg s)
     end) /\
  (exists r s', log_try_read b s = (r, s') /\ lg s' = lg s /\ dk s' = dk s /\ writes s' = writes s /\
     match r with
     | Ok x => cont x = V1 b
     | Err e => e = E_NOT_FOUND /\ cont (dread (bls s) b) = V1 b \/ e = E_IO /\ io s <> []
     | Panic => False
     end).
Proof.
  intros Hnp HL Hn Hroom Hb. split; [|by eapply read_any].
  destruct (write_any np s V0 V1 n HL Hn Hroom) as (r & s' & Hw & Hs & Hd & Hok). exists r, s'.
  split_and!; [done|eapply seen_impl; [|exact Hs]; intros d|..|done]; by apply recoverable_recovers.
Qed.

(** C34: going back to the last commit.  When the header [h] of the last commit has the
    contents [V0], and the disk has that header or one that counts more records, with
    the contents [V] (as a header that was written although an error was reported),
    [pstate_apply_disk_log] copies the records of [h] home and writes a header without
    records.  With any outcomes of the disk accesses, a restart from the disk that it leaves
    or passes through comes up with [V] or [V0]; if it succeeds the log is empty and
    [V0] is committed; it fails or panics only after an error of the disk, or when
    buffers of the log were lost before. *)
Theorem log_roll_back np s h V0 V :
  0 < np <= MAX_LOG_PAGES -> fallback np s h V0 V ->
  let safe d := recovers np d V \/ recovers np d V0 in
  exists r s', pstate_apply_disk_log h s = (r, s') /\ seen_only safe s s' /\ safe (dk s') /\
    match r with
    | Ok h' => h' = mkHdr 0 np /\ h' = d_hdr (dk s') /\ log_ok np s' V0 V0 /\ nodes (lg s') = [] /\ (all_buffers s -> whole (lg s'))
    | Err e => e = E_IO /\ io s <> []
    | Panic => io s <> [] \/ ~ all_buffers s
    end.
Proof.
  intros Hnp HF safe. destruct (apply_disk_log_any np Hnp s h V0 V HF) as (r & s' & Hr & _ & Hs & Hd & Hok). exists r, s'.
  assert (Hsafe : forall d, recoverable np d V \/ recoverable np d V0 -> safe d) by (intros d [?|?]; [left|right]; by apply recoverable_recovers).
  split_and!; [done|eapply seen_impl; [exact Hsafe|exact Hs]|by apply Hsafe|]. destruct r as [h'|e|]; [|done..]. destruct Hok as (-> & Hrs & Hw).
  split_and!; [done|symmetry; apply Hrs|by apply restored_log_ok|apply Hrs|done].
Qed.

(** ** Runs *)

(** An empty log of 20 pages, and the same with a node in memory. *)
Definition ex_disk : disk_t := Disk (mkHdr 0 20) ∅.
Definition ex_log : lstate := (recover ex_disk [] 2000).2.
Definition ex_node : lnode := LNode 409600 false [1].
Definition ex_log1 : lstate := (log_write ex_node ex_log).2.
Definition ex_V (b : Z) : Z * list Z := (0, []).
Definition ex_V1 (b : Z) : Z * list Z := if decide (b = 409600) then (409600, [1]) else ex_V b.

(** The outcome of a run is what it evaluates to. *)
Ltac outcome_is Hrun v :=
  match type of Hrun with
  | ?m = (?r, _) => let E := fresh in assert (E : m.1 = v) by (vm_compute; reflexivity); rewrite Hrun in E; cbn [fst] in E; subst r
  end.

(** The disk does as [o] says. *)
Definition with_io (o : list io_outcome) (s : lstate) : lstate := mkL (lg s) (dk s) o (writes s) (ram s).

Lemma with_io_ok np o s V0 V1 : log_ok np s V0 V1 -> log_ok np (with_io o s) V0 V1.
Proof. intros (m & c & c0 & []). by exists m, c, c0. Qed.

Lemma ex_log_ok : log_ok 20 ex_log ex_V ex_V.
Proof.
  destruct (recoverable_recovers 20 ltac:(unfold MAX_LOG_PAGES; lia) ex_disk ex_V) with (o := @nil io_outcome) (ram := 2000%nat) as (r & s & Hr & _ & _ & Hs).
  - exists 0%nat. split_and!; [done|lia|constructor|done].
  - apply Nat.leb_le. by vm_compute.
  - unfold ex_log. rewrite Hr. cbn [snd]. destruct r as [h| |]; [apply Hs|destruct Hs as [_ Hs]|]; by destruct Hs.
Qed.

Lemma ex_node_blk : blk 20 (ln_offset ex_node).
Proof. split_and!; [done|right; by vm_compute|by vm_compute]. Qed.

Lemma ex_log1_ok : log_ok 20 ex_log1 ex_V ex_V1.
Proof.
  destruct (write_any 20 ex_log ex_V ex_V ex_node ex_log_ok ex_node_blk) as (r & s' & Hw & _ & _ & Hs); [by vm_compute|].
  unfold ex_log1. outcome_is Hw (@Ok unit tt). rewrite Hw. apply Hs.
Qed.

Lemma log_is_block_store_witness :
  (exists s', log_write ex_node ex_log = (Ok tt, s') /\
     log_ok 20 s' ex_V (fun b => if decide (b = ln_offset ex_node) then cont ex_node else ex_V b)) /\
  log_try_read 409600 ex_log1 = (Ok (LNode 409600 true [1]), ex_log1).
Proof.
  split; [|by vm_compute].
  destruct (log_is_block_store 20 ex_log ex_V ex_V ex_node 409600) as [(r & s' & Hw & _ & _ & Hs) _];
    [unfold MAX_LOG_PAGES; lia|exact ex_log_ok|exact ex_node_blk|by vm_compute|exact ex_node_blk|].
  outcome_is Hw (@Ok unit tt). exists s'. split; [exact Hw|apply Hs].
Defined.

(** A commit without errors, one whose first record is torn, and one whose header is
    written although an error is reported: the last two are rolled back. *)
Lemma pstate_commit_atomic_witness :
  (exists s', pstate_sync_finish (mkHdr 0 20) (mkHdr 0 20) (with_io [] ex_log1) = (Ok (mkHdr 1 20, true), s') /\ log_ok 20 s' ex_V1 ex_V1) /\
  (exists s', pstate_sync_finish (mkHdr 0 20) (mkHdr 0 20) (with_io [io_failure (Some zero_node)] ex_log1) = (Ok (mkHdr 0 20, false), s') /\ log_ok 20 s' ex_V ex_V) /\
  (exists s', pstate_sync_finish (mkHdr 0 20) (mkHdr 0 20) (with_io [io_success; io_success; io_failure (Some zero_node)] ex_log1) = (Ok (mkHdr 0 20, false), s') /\
     log_ok 20 s' ex_V ex_V).
Proof.
  assert (H : forall o, exists r s', pstate_sync_finish (mkHdr 0 20) (mkHdr 0 20) (with_io o ex_log1) = (r, s') /\
    match r with Ok (_, true) => log_ok 20 s' ex_V1 ex_V1 | Ok (_, false) => log_ok 20 s' ex_V ex_V | _ => True end).
  { intros o. destruct (pstate_commit_atomic 20 (with_io o ex_log1) ex_V ex_V1 (mkHdr 0 20)) as (r & s' & Hc & _ & _ & Hs);
      [unfold MAX_LOG_PAGES; lia|apply with_io_ok, ex_log1_ok|by vm_compute|done|].
    exists r, s'. split; [exact Hc|]. destruct r as [[h []]|e|]; [apply Hs|apply Hs|exact I|exact I]. }
  split; [|split].
  - destruct (H []) as (r & s' & Hc & Hs).
    outcome_is Hc (Ok (mkHdr 1 20, true)). exists s'. split; [exact Hc|exact Hs].
  - destruct (H [io_failure (Some zero_node)]) as (r & s' & Hc & Hs).
    outcome_is Hc (Ok (mkHdr 0 20, false)). exists s'. split; [exact Hc|exact Hs].
  - destruct (H [io_success; io_success; io_failure (Some zero_node)]) as (r & s' & Hc & Hs).
    outcome_is Hc (Ok (mkHdr 0 20, false)). exists s'. split; [exact Hc|exact Hs].
Defined.

(** The state after the failed header write of that commit: the header on disk counts a
    record, the last commit had none. *)
Definition ex_torn : lstate := (pstate_sync_commit (mkHdr 0 20) (with_io [io_success; io_success; io_failure (Some zero_node)] ex_log1)).2.

Lemma ex_torn_fallback : exists V, (V = ex_V \/ V = ex_V1) /\ fallback 20 ex_torn (mkHdr 0 20) ex_V V.
Proof.
  destruct (commit_any 20 ltac:(unfold MAX_LOG_PAGES; lia) (with_io [io_success; io_success; io_failure (Some zero_node)] ex_log1) ex_V ex_V1 (mkHdr 0 20)) as (r & s' & Hc & _ & _ & _ & Hs);
    [apply with_io_ok, ex_log1_ok|by vm_compute|done|].
  outcome_is Hc (@Err pstate_header E_IO).
  unfold ex_torn. rewrite Hc. by destruct Hs as (_ & _ & _ & Hex).
Qed.

Lemma log_roll_back_witness :
  d_hdr (dk ex_torn) = mkHdr 1 20 /\ exists s', pstate_apply_disk_log (mkHdr 0 20) ex_torn = (Ok (mkHdr 0 20), s') /\ log_ok 20 s' ex_V ex_V.
Proof.
  split; [by vm_compute|]. destruct ex_torn_fallback as (V & _ & HF).
  destruct (log_roll_back 20 ex_torn (mkHdr 0 20) ex_V V ltac:(unfold MAX_LOG_PAGES; lia) HF) as (r & s' & Hr & _ & _ & Hs). exists s'.
  outcome_is Hr (Ok (mkHdr 0 20)). split; [exact Hr|apply Hs].
Defined.

(** An update can be lost when a block of the log is freed.  The nodes of
    blocks 100 and 111 are committed; then block 100 is freed, block 111 is
    written again and committed.  Deleting block 100 from the table of the log
    leaves a mark that [hash_put] takes for block 111 without removing its old
    entry, and [log_apply_mem] then copies the old record over the new contents:
    the commit succeeds, and block 111 has the contents of before. *)
Example log_free_loses_update :
  let wr b x := log_write (LNode (b * 4096) false [x]) in
  let r := (wr 100 1;; wr 111 2;; h ← pstate_sync_commit (mkHdr 0 20); log_free (100 * 4096);; wr 111 7;; pstate_sync_commit h) ex_log in
  r.1 = Ok (mkHdr 0 20) /\ ln_data (dread (bls r.2) (111 * 4096)) = [2] /\ nodes (lg r.2) = [] /\ ht_size (disk_map (lg r.2)) = 0.
Proof. vm_compute. split_and!; reflexivity. Qed.

(** Buffers are lost when a record cannot be read: of the 1024, one is on no list after
    [log_apply_mem] has failed to read a record that a flush has written before. *)
Example log_apply_mem_loses_buffer :
  let s := mkL (set_nodes [] (set_in_mem 0 (set_free_nodes 1024 (lg (log_flush ex_log1).2)))) (dk (log_flush ex_log1).2) [io_failure None] [] 0 in
  (log_apply_mem s).1 = Err E_IO /\ nodes (lg (log_apply_mem s).2) = [] /\ free_nodes (lg (log_apply_mem s).2) = 1023%nat.
Proof. vm_compute. split_and!; reflexivity. Qed.
