(* ===== verification/Cache.v ===== *)
(** * The cache of nodes in kern/btree/cache.c

    A fixed number of entries with reference counts, replaced in the order in
    which they were last used.  The theorem says what a client may rely on: an
    entry that somebody holds a reference to is never taken away, and a new one
    takes a free place or that of the entry that was not used for longest. *)

From S2P Require Import Prelude.
From stdpp Require Import options.

Set Default Goal Selector "!".

(** ** State *)

(** [struct cmeta]; the index of an entry is its place in [meta]. *)
Record cmeta := mkMeta { inuse : bool; cm_ref : Z; cm_tag : Z }.

(** [buf] holds the contents of the entries, of [s_ent] bytes each, and
    [lru_stack] their indices, the least recently used one first. *)
Record cache := mkCache { s_ent : nat; cmetas : list cmeta; cbuf : list (list Z); lru_stack : list nat }.

Definition u16 (z : Z) : Z := z mod 2 ^ 16.

Definition zero_meta : cmeta := mkMeta false 0 0.
Definition zero_buf (c : cache) : list Z := replicate (s_ent c) 0.

Definition set_meta (i : nat) (m : cmeta) (c : cache) : cache := mkCache (s_ent c) (<[i := m]> (cmetas c)) (cbuf c) (lru_stack c).
Definition set_buf (i : nat) (b : list Z) (c : cache) : cache := mkCache (s_ent c) (cmetas c) (<[i := b]> (cbuf c)) (lru_stack c).

(** [TAILQ_REMOVE] and [TAILQ_INSERT_TAIL] or [TAILQ_INSERT_HEAD]. *)
Definition lru_remove (i : nat) (l : list nat) : list nat := filter (fun j => j <> i) l.
Definition lru_to_tail (i : nat) (c : cache) : cache := mkCache (s_ent c) (cmetas c) (cbuf c) (lru_remove i (lru_stack c) ++ [i]).
Definition lru_to_head (i : nat) (c : cache) : cache := mkCache (s_ent c) (cmetas c) (cbuf c) (i :: lru_remove i (lru_stack c)).

(** ** Operations *)

Definition cache_init (n s : nat) : cache := mkCache s (replicate n zero_meta) (replicate n (replicate s 0)) (rev (seq 0 n)).

Definition cache_num_ent (c : cache) : nat := length (filter (fun m => inuse m = true) (cmetas c)).
Definition cache_num_pinned (c : cache) : nat := length (filter (fun m => inuse m = true /\ cm_ref m <> 0) (cmetas c)).

(** The loop [while (cm->ref)] from the given place of the list on. *)
Fixpoint lru_unpinned (c : cache) (l : list nat) : res nat :=
  match l with
  | [] => Err E_NO_SPACE
  | i :: l =>
      (do m <- res_nth (cmetas c) i;
       if cm_ref m =? 0 then Ok i else lru_unpinned c l)%res
  end.

(** The result is the index of the entry, which is what [*store] points to. *)
Definition cache_alloc (tag : Z) (c : cache) : res nat * cache :=
  if tag =? 0 then (Err E_INVAL, c)
  else
    match lru_stack c with
    | [] => (Panic, c)
    | i :: _ =>
        let r :=
          (do m <- res_nth (cmetas c) i;
           if inuse m then do j <- lru_unpinned c (lru_stack c); Ok (j, true) else Ok (i, false))%res in
        match r with
        | Ok (j, evict) =>
            let c := if (evict : bool) then set_buf j (zero_buf c) c else c in
            (Ok j, set_meta j (mkMeta true 1 tag) (lru_to_tail j c))
        | Err e => (Err e, c)
        | Panic => (Panic, c)
        end
    end.

(** The loop over [meta]. *)
Definition cache_find (t : Z) (c : cache) : option (nat * cmeta) :=
  list_find (fun m => inuse m = true /\ cm_tag m = t) (cmetas c).

Definition cache_ent (t : Z) (c : cache) : res nat * cache :=
  if t =? 0 then (Err E_INVAL, c)
  else
    match cache_find t c with
    | Some (i, m) => (Ok i, set_meta i (mkMeta (inuse m) (u16 (cm_ref m + 1)) (cm_tag m)) (lru_to_tail i c))
    | None => (Err E_NOT_FOUND, c)
    end.

Definition cache_try_insert (t : Z) (src : list Z) (c : cache) : res nat * cache :=
  if t =? 0 then (Err E_INVAL, c)
  else
    match cache_ent t c with
    | (Err e, c') =>
        if e =? E_NOT_FOUND then
          match cache_alloc t c' with
          | (Ok i, c') => (Ok i, set_buf i (take (s_ent c') src) c')
          | (r, c') => (r, c')
          end
        else (Err e, c')
    | (r, c') => (r, c')
    end.

Definition cache_rem (t : Z) (c : cache) : res unit * cache :=
  if t =? 0 then (Err E_INVAL, c)
  else
    match cache_find t c with
    | Some (i, m) =>
        if u16 (cm_ref m - 1) =? 0
        then (Ok tt, lru_to_head i (set_meta i zero_meta (set_buf i (zero_buf c) c)))
        else (Panic, set_meta i (mkMeta false (u16 (cm_ref m - 1)) (cm_tag m)) (set_buf i (zero_buf c) c))
    | None => (Err E_NOT_FOUND, c)
    end.

Definition cache_dec_ref (t : Z) (c : cache) : res unit * cache :=
  if t =? 0 then (Err E_INVAL, c)
  else
    match cache_find t c with
    | Some (i, m) =>
        if cm_ref m =? 0 then (Panic, c)
        else (Ok tt, set_meta i (mkMeta (inuse m) (u16 (cm_ref m - 1)) (cm_tag m)) c)
    | None => (Err E_NOT_FOUND, c)
    end.

Definition cache_refs (t : Z) (c : cache) : res Z :=
  match cache_find t c with
  | Some (_, m) => Ok (cm_ref m)
  | None => Panic
  end.

(** The entries before the first referenced one are dropped. *)
Fixpoint cache_flush_loop (l : list cmeta) : res unit * list cmeta :=
  match l with
  | [] => (Ok tt, [])
  | m :: l =>
      if cm_ref m =? 0 then let '(r, l) := cache_flush_loop l in (r, mkMeta false (cm_ref m) 0 :: l)
      else (Panic, m :: l)
  end.

Definition cache_flush (c : cache) : res unit * cache :=
  let '(r, l) := cache_flush_loop (cmetas c) in (r, mkCache (s_ent c) l (cbuf c) (lru_stack c)).

(** The debugging check that no tag occurs twice. *)
Fixpoint cache_sanity_loop (l : list cmeta) : bool :=
  match l with
  | [] => true
  | m :: l =>
      (if inuse m then forallb (fun m' => negb (inuse m' && (cm_tag m' =? cm_tag m))) l else true) && cache_sanity_loop l
  end.
Definition cache_sanity_check (c : cache) : bool := cache_sanity_loop (cmetas c).

(** ** Invariant *)

Definition unused (c : cache) (i : nat) : Prop := exists t, cmetas c !! i = Some (mkMeta false 0 t).
Definition used (c : cache) (i : nat) : Prop := exists m, cmetas c !! i = Some m /\ inuse m = true.

(** The entry [i] holds the block [t] with contents [b] and [r] references. *)
Definition holds (c : cache) (i : nat) (t r : Z) (b : list Z) : Prop :=
  cmetas c !! i = Some (mkMeta true r t) /\ cbuf c !! i = Some b.

(** Every entry is once in the list, the unused ones first; used ones have
    different tags, none of them zero. *)
Record cache_inv (c : cache) : Prop := {
  ci_len : length (cbuf c) = length (cmetas c);
  ci_lru : lru_stack c ≡ₚ seq 0 (length (cmetas c));
  ci_order : exists l1 l2, lru_stack c = l1 ++ l2 /\ Forall (unused c) l1 /\ Forall (used c) l2;
  ci_tag : forall i m, cmetas c !! i = Some m -> inuse m = true -> cm_tag m <> 0 /\ 0 <= cm_ref m < 2 ^ 16;
  ci_distinct : forall i j m m', cmetas c !! i = Some m -> cmetas c !! j = Some m' ->
    inuse m = true -> inuse m' = true -> cm_tag m = cm_tag m' -> i = j
}.

Lemma lru_nodup c : cache_inv c -> NoDup (lru_stack c).
Proof. intros H. rewrite (ci_lru _ H). apply NoDup_seq. Qed.

Lemma lru_elem c i : cache_inv c -> i ∈ lru_stack c <-> (i < length (cmetas c))%nat.
Proof. intros H. rewrite (ci_lru _ H), elem_of_seq. lia. Qed.

Lemma lru_remove_elem i j l : j ∈ lru_remove i l <-> j <> i /\ j ∈ l.
Proof. unfold lru_remove. by rewrite list_elem_of_filter. Qed.

Lemma lru_remove_notin i l : i ∉ l -> lru_remove i l = l.
Proof.
  unfold lru_remove. induction l as [|j l IH]; [done|]. intros [Hj Hl]%not_elem_of_cons.
  rewrite filter_cons_True by congruence. by rewrite IH.
Qed.

Lemma lru_remove_Forall (P : nat -> Prop) i l : Forall P l -> Forall P (lru_remove i l).
Proof. rewrite !list.Forall_forall. intros H j [_ Hj]%lru_remove_elem. auto. Qed.

Lemma lru_remove_perm i l : i ∈ l -> NoDup l -> i :: lru_remove i l ≡ₚ l.
Proof.
  induction l as [|j l IH]; [by intros ?%elem_of_nil|]. intros Hi [Hj Hl]%list.NoDup_cons.
  destruct (decide (j = i)) as [->|Hne].
  - unfold lru_remove. rewrite filter_cons_False by (intros H; by apply H). fold (lru_remove i l).
    by rewrite (lru_remove_notin i l).
  - unfold lru_remove. rewrite filter_cons_True by done. fold (lru_remove i l).
    apply elem_of_cons in Hi as [->|Hi]; [done|]. rewrite Permutation_swap. by rewrite IH.
Qed.

Lemma unused_not_used c i : unused c i -> used c i -> False.
Proof. intros (t & H) (m & H' & Hm). rewrite H in H'. injection H' as <-. discriminate. Qed.

Lemma cache_find_Some c t i m :
  cache_find t c = Some (i, m) -> cmetas c !! i = Some m /\ inuse m = true /\ cm_tag m = t.
Proof. unfold cache_find. intros (H1 & [H2 H3] & _)%list_find_Some. auto. Qed.

Lemma cache_find_None c t i m :
  cache_find t c = None -> cmetas c !! i = Some m -> inuse m = true -> cm_tag m <> t.
Proof.
  unfold cache_find. rewrite list_find_None, list.Forall_lookup. intros H Hi Hm Ht. by apply (H i m Hi).
Qed.

Lemma holds_find c i t r b : cache_inv c -> holds c i t r b -> cache_find t c = Some (i, mkMeta true r t).
Proof.
  intros HI [Hi _]. destruct (cache_find t c) as [[j m]|] eqn:E.
  - apply cache_find_Some in E as (Hj & Hm & Ht). assert (j = i) as -> by (eapply (ci_distinct _ HI); eauto).
    congruence.
  - exfalso. exact (cache_find_None _ _ _ _ E Hi eq_refl eq_refl).
Qed.

Section moves.
Context (c : cache) (j : nat) (m : cmeta) (bs : list (list Z)).
Hypothesis (HI : cache_inv c) (Hj : (j < length (cmetas c))%nat) (Hbs : length bs = length (cbuf c)).
Hypothesis Hm : inuse m = true -> cm_tag m <> 0 /\ 0 <= cm_ref m < 2 ^ 16 /\
  forall i m', i <> j -> cmetas c !! i = Some m' -> inuse m' = true -> cm_tag m' <> cm_tag m.

Lemma inv_upd l :
  l ≡ₚ lru_stack c -> (exists l1 l2, l = l1 ++ l2 /\
    Forall (unused (set_meta j m c)) l1 /\ Forall (used (set_meta j m c)) l2) ->
  cache_inv (mkCache (s_ent c) (<[j := m]> (cmetas c)) bs l).
Proof using Type*.
  intros Hl Ho. split; simpl.
  - rewrite length_insert, Hbs. apply HI.
  - rewrite length_insert, Hl. apply HI.
  - exact Ho.
  - intros i m'. destruct (decide (i = j)) as [->|Hne].
    + rewrite list_lookup_insert_eq by done. intros [= <-] ?. split; apply Hm; done.
    + rewrite list_lookup_insert_ne by done. apply HI.
  - intros i i' m1 m2. destruct (decide (i = j)) as [->|Hi], (decide (i' = j)) as [->|Hi'];
      rewrite ?list_lookup_insert_eq, ?list_lookup_insert_ne by done; [done|..].
    + intros [= <-] H2 Hu Hu' Ht. destruct (Hm Hu) as (_ & _ & H). by destruct (H _ _ Hi' H2).
    + intros H2 [= <-] Hu Hu' Ht. destruct (Hm Hu') as (_ & _ & H). by destruct (H _ _ Hi H2).
    + apply HI.
Qed.

Lemma unused_upd l : Forall (unused c) l -> j ∉ l -> Forall (unused (set_meta j m c)) l.
Proof using Type*.
  rewrite !list.Forall_forall. intros H Hn i Hi. destruct (H _ Hi) as (t & Ht). exists t. simpl.
  rewrite list_lookup_insert_ne; [done|]. intros ->. done.
Qed.

Lemma used_upd l : Forall (used c) l -> j ∉ l \/ inuse m = true -> Forall (used (set_meta j m c)) l.
Proof using Type*.
  rewrite !list.Forall_forall. intros H Hn i Hi. unfold used. simpl. destruct (decide (i = j)) as [->|Hne].
  - exists m. rewrite list_lookup_insert_eq by done. destruct Hn as [Hn|Hn]; done.
  - rewrite list_lookup_insert_ne by done. exact (H _ Hi).
Qed.

Lemma lru_tail_perm : lru_remove j (lru_stack c) ++ [j] ≡ₚ lru_stack c.
Proof using Type*. rewrite Permutation_app_comm. apply lru_remove_perm; [by apply lru_elem|by apply lru_nodup]. Qed.

Lemma split_remove : exists l1 l2, lru_remove j (lru_stack c) = l1 ++ l2 /\ Forall (unused c) l1 /\ Forall (used c) l2 /\ (j ∉ l1) /\ (j ∉ l2).
Proof using Type*.
  destruct (ci_order _ HI) as (l1 & l2 & E & H1 & H2). exists (lru_remove j l1), (lru_remove j l2).
  split_and!.
  - rewrite E. apply list.filter_app.
  - by apply lru_remove_Forall.
  - by apply lru_remove_Forall.
  - rewrite lru_remove_elem. tauto.
  - rewrite lru_remove_elem. tauto.
Qed.

(** An entry that is in use after the change goes to the end of the list. *)
Lemma inv_tail : inuse m = true -> cache_inv (mkCache (s_ent c) (<[j := m]> (cmetas c)) bs (lru_remove j (lru_stack c) ++ [j])).
Proof using Type*.
  intros Hu. apply inv_upd; [exact lru_tail_perm|]. destruct split_remove as (l1 & l2 & -> & H1 & H2 & Hj1 & Hj2).
  exists l1, (l2 ++ [j]). rewrite <-app_assoc. split_and!; [done|by apply unused_upd|].
  apply list.Forall_app. split; [apply used_upd; auto|]. apply list.Forall_singleton. exists m. simpl.
  by rewrite list_lookup_insert_eq.
Qed.

(** An entry that is no longer in use goes to its front. *)
Lemma inv_head : (exists t, m = mkMeta false 0 t) -> cache_inv (mkCache (s_ent c) (<[j := m]> (cmetas c)) bs (j :: lru_remove j (lru_stack c))).
Proof using Type*.
  intros (t & Hu). apply inv_upd; [rewrite <-lru_tail_perm at 2; apply Permutation_cons_append|].
  destruct split_remove as (l1 & l2 & -> & H1 & H2 & Hj1 & Hj2).
  exists (j :: l1), l2. split_and!; [done| |apply used_upd; auto]. constructor; [|by apply unused_upd].
  exists t. simpl. rewrite list_lookup_insert_eq by done. by rewrite Hu.
Qed.

(** The references of an entry change where it is. *)
Lemma inv_same : used c j -> inuse m = true -> cache_inv (mkCache (s_ent c) (<[j := m]> (cmetas c)) bs (lru_stack c)).
Proof using Type*.
  intros Hj' Hu. apply inv_upd; [done|]. destruct (ci_order _ HI) as (l1 & l2 & E & H1 & H2).
  exists l1, l2. split_and!; [done|apply unused_upd; [done|]|apply used_upd; auto].
  intros Hin. rewrite list.Forall_forall in H1. exact (unused_not_used c j (H1 _ Hin) Hj').
Qed.
End moves.

(** ** The operations *)

Lemma lru_unpinned_spec c l :
  Forall (fun i => (i < length (cmetas c))%nat) l ->
  (lru_unpinned c l = Err E_NO_SPACE /\ Forall (fun i => exists m, cmetas c !! i = Some m /\ cm_ref m <> 0) l) \/
  (exists l1 j l2 m, lru_unpinned c l = Ok j /\ l = l1 ++ j :: l2 /\ cmetas c !! j = Some m /\ cm_ref m = 0 /\
     Forall (fun i => exists m, cmetas c !! i = Some m /\ cm_ref m <> 0) l1).
Proof.
  induction l as [|i l IH]; [by left|]. intros [Hi Hl]%list.Forall_cons. simpl. unfold res_nth.
  destruct (lookup_lt_is_Some_2 _ _ Hi) as [m Hm]. rewrite Hm. simpl. destruct (Z.eqb_spec (cm_ref m) 0) as [E|E].
  - right. exists [], i, l, m. done.
  - destruct (IH Hl) as [[H1 H2]|(l1 & j & l2 & m' & H1 & H2 & H3 & H4 & H5)].
    + left. split; [done|]. constructor; eauto.
    + right. exists (i :: l1), j, l2, m'. split_and!; [done|by rewrite H2|done|done|]. constructor; eauto.
Qed.

(** [cache_alloc] takes the entry [j]: an unused one, or the least recently
    used of those without references. *)
Definition victim (c : cache) (j : nat) : Prop :=
  unused c j \/
  (exists l1 l2 m, lru_stack c = l1 ++ j :: l2 /\ cmetas c !! j = Some m /\ inuse m = true /\ cm_ref m = 0 /\
     Forall (fun i => exists m, cmetas c !! i = Some m /\ cm_ref m <> 0) l1).

Definition all_pinned (c : cache) : Prop := Forall (fun m => inuse m = true /\ cm_ref m <> 0) (cmetas c).

Lemma head_used c i l : cache_inv c -> lru_stack c = i :: l -> used c i -> forall k, (k < length (cmetas c))%nat -> used c k.
Proof.
  intros HI E Hu k Hk. destruct (ci_order _ HI) as (l1 & l2 & E' & H1 & H2). rewrite E in E'.
  destruct l1 as [|i' l1]; simpl in E'.
  - apply (lru_elem c k HI) in Hk. rewrite E, E' in Hk. rewrite list.Forall_forall in H2. auto.
  - injection E' as -> _. apply list.Forall_cons in H1 as [H1 _]. by destruct (unused_not_used c i').
Qed.

Lemma cache_alloc_spec c t :
  cache_inv c -> cmetas c <> [] -> t <> 0 -> cache_find t c = None ->
  (cache_alloc t c = (Err E_NO_SPACE, c) /\ all_pinned c) \/
  (exists j b, victim c j /\ length b = length (cbuf c) /\ (forall k, k <> j -> b !! k = cbuf c !! k) /\
     let c' := mkCache (s_ent c) (<[j := mkMeta true 1 t]> (cmetas c)) b (lru_remove j (lru_stack c) ++ [j]) in
     cache_alloc t c = (Ok j, c') /\ cache_inv c' /\ (j < length (cmetas c))%nat).
Proof.
  intros HI Hne Ht Hf. unfold cache_alloc. destruct (Z.eqb_spec t 0) as [|_]; [done|].
  destruct (lru_stack c) as [|i l] eqn:E.
  { destruct Hne. apply length_zero_iff_nil. pose proof (ci_lru _ HI) as H. rewrite E in H. apply Permutation_length in H.
    rewrite length_seq in H. done. }
  assert (i < length (cmetas c))%nat as Hi by (apply (lru_elem c i HI); rewrite E; left).
  destruct (lookup_lt_is_Some_2 _ _ Hi) as [m Hm]. unfold res_nth. rewrite Hm. cbn [res_bind].
  assert (Hnew : forall j bs, (j < length (cmetas c))%nat -> length bs = length (cbuf c) ->
    cache_inv (mkCache (s_ent c) (<[j := mkMeta true 1 t]> (cmetas c)) bs (lru_remove j (lru_stack c) ++ [j]))).
  { intros j bs Hj Hbs. apply inv_tail; [done..| |done]. intros _. simpl. split_and!; [done|lia..|].
    intros k m' _ Hk Hu. by eapply cache_find_None. }
  destruct (inuse m) eqn:Em.
  - assert (Hv : Forall (fun i => (i < length (cmetas c))%nat) (i :: l)).
    { rewrite <-E. apply list.Forall_forall. intros k. apply lru_elem, HI. }
    destruct (lru_unpinned_spec c _ Hv) as [[-> H]|(l1 & j & l2 & m' & -> & H1 & H2 & H3 & H4)]; cbn [res_bind].
    + left. split; [done|]. apply list.Forall_lookup. intros k mk Hk.
      pose proof (lookup_lt_Some _ _ _ Hk) as Hlt.
      destruct (head_used c i l HI E (ex_intro _ m (conj Hm Em)) k Hlt) as (mk' & Hk' & Hu). rewrite Hk in Hk'. injection Hk' as <-.
      split; [done|]. apply (lru_elem c k HI) in Hlt. rewrite E in Hlt. rewrite list.Forall_forall in H.
      destruct (H _ Hlt) as (mk' & Hk' & Hr). congruence.
    + right. pose proof (lookup_lt_Some _ _ _ H2) as Hlt. exists j, (<[j := zero_buf c]> (cbuf c)).
      destruct (head_used c i l HI E (ex_intro _ m (conj Hm Em)) j Hlt) as (mk' & Hk' & Hu).
      split_and!; [|apply length_insert|intros k Hk; by rewrite list_lookup_insert_ne| | |done].
      * right. exists l1, l2, m'. rewrite E. split_and!; [done..|congruence|done|done].
      * rewrite <-E. reflexivity.
      * rewrite <-E. apply Hnew; [done|apply length_insert].
  - right. exists i, (cbuf c). split_and!; [|done..|rewrite <-E; reflexivity|by rewrite <-E; apply Hnew|done].
    left. destruct (ci_order _ HI) as (l1 & l2 & E' & H1 & H2). rewrite E in E'. destruct l1 as [|i' l1]; simpl in E'.
    + rewrite <-E' in H2. apply list.Forall_cons in H2 as [(m' & H2 & H2') _]. congruence.
    + injection E' as -> _. by apply list.Forall_cons in H1 as [H1 _].
Qed.

(** Nothing but the entry [i] changes. *)
Definition only_entry (i : nat) (c c' : cache) : Prop :=
  s_ent c' = s_ent c /\ length (cmetas c') = length (cmetas c) /\
  forall k, k <> i -> cmetas c' !! k = cmetas c !! k /\ cbuf c' !! k = cbuf c !! k.

Lemma holds_other c c' i j t r b : only_entry i c c' -> j <> i -> holds c j t r b -> holds c' j t r b.
Proof. intros (_ & _ & H) Hj [H1 H2]. destruct (H j Hj) as [E1 E2]. split; congruence. Qed.

Lemma u16_range z : 0 <= u16 z < 2 ^ 16.
Proof. apply Z.mod_pos_bound. done. Qed.

Lemma meta_eta m i c : cache_inv c -> cmetas c !! i = Some m -> inuse m = true -> exists b, holds c i (cm_tag m) (cm_ref m) b.
Proof.
  intros HI Hi Hu. assert (i < length (cbuf c))%nat as Hlt by (rewrite (ci_len _ HI); by eapply lookup_lt_Some).
  destruct (lookup_lt_is_Some_2 _ _ Hlt) as [b Hb]. exists b. split; [|done]. rewrite Hi. destruct m; simpl in *. congruence.
Qed.

Section entry.
Context (c : cache) (i : nat) (t r : Z) (b : list Z).
Hypothesis (HI : cache_inv c) (Ht : t <> 0) (Hh : holds c i t r b).

Local Lemma entry_lt : (i < length (cmetas c))%nat /\ (i < length (cbuf c))%nat.
Proof using Type*. destruct Hh as [H1 H2]. split; by eapply lookup_lt_Some. Qed.

Local Lemma entry_keeps (r' : Z) :
  0 <= r' < 2 ^ 16 -> inuse (mkMeta true r' t) = true -> t <> 0 /\ 0 <= r' < 2 ^ 16 /\
  forall k m', k <> i -> cmetas c !! k = Some m' -> inuse m' = true -> cm_tag m' <> t.
Proof using Type*.
  intros Hr _. split_and!; [done|apply Hr|apply Hr|]. intros k m' Hk Hm Hu E. apply Hk.
  destruct Hh as [H1 _]. by eapply (ci_distinct _ HI); [exact Hm|exact H1|..].
Qed.

Lemma cache_ent_hit : exists c', cache_ent t c = (Ok i, c') /\ cache_inv c' /\ only_entry i c c' /\ holds c' i t (u16 (r + 1)) b.
Proof using Type*.
  unfold cache_ent. destruct (Z.eqb_spec t 0) as [|_]; [done|]. rewrite (holds_find c i t r b HI Hh). simpl.
  destruct entry_lt as [L1 L2]. eexists. split; [reflexivity|]. split_and!.
  - apply (inv_tail c i (mkMeta true (u16 (r + 1)) t) (cbuf c)); [done..| |done]. apply entry_keeps, u16_range.
  - split_and!; [done|apply length_insert|]. intros k Hk. simpl. by rewrite list_lookup_insert_ne.
  - split; simpl; [by rewrite list_lookup_insert_eq|apply Hh].
Qed.

Lemma cache_dec_ref_hit : r <> 0 -> exists c', cache_dec_ref t c = (Ok tt, c') /\ cache_inv c' /\ only_entry i c c' /\ holds c' i t (r - 1) b.
Proof using Type*.
  intros Hr. unfold cache_dec_ref. destruct (Z.eqb_spec t 0) as [|_]; [done|]. rewrite (holds_find c i t r b HI Hh). simpl.
  destruct (Z.eqb_spec r 0) as [|_]; [done|]. destruct entry_lt as [L1 L2].
  destruct (ci_tag _ HI i _ (proj1 Hh) eq_refl) as [_ Hb]. simpl in Hb. unfold u16. rewrite Z.mod_small by lia.
  eexists. split; [reflexivity|]. split_and!.
  - apply (inv_same c i (mkMeta true (r - 1) t) (cbuf c)); [done..| |exists (mkMeta true r t); split; [apply Hh|done]|done]. apply (entry_keeps (r - 1)). lia.
  - split_and!; [done|apply length_insert|]. intros k Hk. simpl. by rewrite list_lookup_insert_ne.
  - split; simpl; [by rewrite list_lookup_insert_eq|apply Hh].
Qed.

Lemma cache_rem_hit : r = 1 -> exists c', cache_rem t c = (Ok tt, c') /\ cache_inv c' /\ only_entry i c c' /\ unused c' i.
Proof using Type*.
  intros Hr. unfold cache_rem. destruct (Z.eqb_spec t 0) as [|_]; [done|]. rewrite (holds_find c i t r b HI Hh). simpl.
  rewrite Hr. replace (u16 (1 - 1) =? 0) with true by reflexivity. destruct entry_lt as [L1 L2].
  eexists. split; [reflexivity|]. split_and!.
  - apply (inv_head c i zero_meta (<[i := zero_buf c]> (cbuf c))); [done|done|apply length_insert|done|by exists 0].
  - split_and!; [done|apply length_insert|]. intros k Hk. simpl. by rewrite !list_lookup_insert_ne.
  - exists 0. simpl. by rewrite list_lookup_insert_eq.
Qed.
End entry.

Lemma cache_try_insert_miss c t src :
  cache_inv c -> cmetas c <> [] -> t <> 0 -> cache_find t c = None ->
  (cache_try_insert t src c = (Err E_NO_SPACE, c) /\ all_pinned c) \/
  (exists j c', victim c j /\ cache_try_insert t src c = (Ok j, c') /\ cache_inv c' /\ only_entry j c c' /\
     holds c' j t 1 (take (s_ent c) src)).
Proof.
  intros HI Hne Ht Hf. unfold cache_try_insert, cache_ent. destruct (Z.eqb_spec t 0) as [|_]; [done|]. rewrite Hf. simpl.
  destruct (cache_alloc_spec c t HI Hne Ht Hf) as [[-> H]|(j & b & Hv & Hb & Hk & -> & HI' & Hj)]; [by left|].
  right. exists j. eexists. split; [done|]. split; [reflexivity|]. split_and!.
  - destruct HI'. split; simpl in *; [rewrite length_insert|..]; done.
  - split_and!; [done|apply length_insert|]. intros k Hne'. simpl. rewrite !list_lookup_insert_ne by done. auto.
  - split; simpl; apply list_lookup_insert_eq; [done|]. by rewrite Hb, (ci_len _ HI).
Qed.

Lemma cache_init_inv n s : cache_inv (cache_init n s).
Proof.
  split; simpl.
  - by rewrite !length_replicate.
  - rewrite length_replicate. symmetry. apply Permutation_rev.
  - exists (rev (seq 0 n)), []. rewrite app_nil_r. split_and!; [done| |done]. apply list.Forall_forall.
    intros i Hi. rewrite <-Permutation_rev in Hi. apply elem_of_seq in Hi. exists 0. apply lookup_replicate. split; [done|lia].
  - intros i m [-> _]%lookup_replicate. done.
  - intros i j m m' [-> _]%lookup_replicate. done.
Qed.

Lemma cache_flush_inv c c' : cache_inv c -> cache_flush c = (Ok tt, c') -> cache_inv c' /\ forall t, cache_find t c' = None.
Proof.
  intros HI. unfold cache_flush. destruct (cache_flush_loop (cmetas c)) as [r l] eqn:E. intros [= -> <-].
  assert (H : length l = length (cmetas c) /\ Forall (fun m => m = zero_meta) l).
  { revert l E. clear. induction (cmetas c) as [|m ms IH]; simpl; intros l.
    - intros [= <-]. done.
    - destruct (Z.eqb_spec (cm_ref m) 0) as [Hr|]; [|done]. destruct (cache_flush_loop ms) as [r' l'] eqn:E.
      intros [= -> <-]. destruct (IH _ eq_refl) as [H1 H2]. split; [simpl; congruence|]. constructor; [|done]. by rewrite Hr. }
  destruct H as [Hl Hz]. rewrite list.Forall_lookup in Hz.
  split; [split; simpl|]; rewrite ?Hl.
  - apply HI.
  - apply HI.
  - exists (lru_stack c), []. rewrite app_nil_r. split_and!; [done| |done]. apply list.Forall_forall. intros i Hi.
    apply (lru_elem c i HI) in Hi. rewrite <-Hl in Hi. destruct (lookup_lt_is_Some_2 _ _ Hi) as [m Hm]. exists 0.
    simpl. rewrite Hm. by rewrite (Hz _ _ Hm).
  - intros i m Hm. rewrite (Hz _ _ Hm). done.
  - intros i j m m' Hm. rewrite (Hz _ _ Hm). done.
  - intros t. unfold cache_find. apply list_find_None, list.Forall_lookup. simpl. intros i m Hm [Hu _]. rewrite (Hz _ _ Hm) in Hu. done.
Qed.

Lemma cache_sanity c : cache_inv c -> cache_sanity_check c = true.
Proof.
  intros HI. unfold cache_sanity_check. pose proof (ci_distinct _ HI) as H. revert H. generalize (cmetas c). clear.
  induction l as [|m l IH]; [done|]. intros H. simpl. apply andb_true_intro. split.
  - destruct (inuse m) eqn:Em; [|done]. apply forallb_forall. intros m' Hm'. apply list_elem_of_In, list_elem_of_lookup in Hm' as [k Hk].
    destruct (inuse m') eqn:Em'; [|done]. destruct (Z.eqb_spec (cm_tag m') (cm_tag m)) as [E|]; [|done].
    specialize (H O (S k) m m' eq_refl Hk Em Em' (eq_sym E)). discriminate.
  - apply IH. intros i j m1 m2 H1 H2 U1 U2 E. specialize (H (S i) (S j) m1 m2 H1 H2 U1 U2 E). congruence.
Qed.

(** ** What a client may rely on *)

(** A call of the cache by anybody that gives back no reference to the block
    [t].  A tag is allocated when it is not in the cache. *)
Inductive client_call (t : Z) (c : cache) : cache -> Prop :=
| call_insert t' src r c' : cache_try_insert t' src c = (r, c') -> r <> Panic -> client_call t c c'
| call_alloc t' r c' : cache_find t' c = None -> cache_alloc t' c = (r, c') -> r <> Panic -> client_call t c c'
| call_ent t' r c' : cache_ent t' c = (r, c') -> r <> Panic -> client_call t c c'
| call_dec t' r c' : t' <> t -> cache_dec_ref t' c = (r, c') -> r <> Panic -> client_call t c c'
| call_rem t' r c' : t' <> t -> cache_rem t' c = (r, c') -> r <> Panic -> client_call t c c'.

Lemma victim_unpinned c j t r b : victim c j -> holds c j t r b -> r = 0.
Proof.
  intros [(t' & H)|(l1 & l2 & m & _ & H & _ & Hr & _)] [Hj _]; rewrite H in Hj; injection Hj as Hj; [done|]. by rewrite Hj in Hr.
Qed.

(** An operation found the entry [j] and left all the others alone. *)
Lemma step_other c c' i j t t' r b r' b' :
  cache_inv c -> holds c i t r b -> holds c j t' r' b' -> only_entry j c c' -> t' <> t -> holds c' i t r b.
Proof.
  intros HI Hi Hj Ho Hne. eapply holds_other; [exact Ho| |done]. intros ->.
  destruct Hi as [Hi _], Hj as [Hj _]. rewrite Hi in Hj. by injection Hj.
Qed.

Lemma cache_find_holds c t i m : cache_inv c -> cache_find t c = Some (i, m) -> exists b, holds c i t (cm_ref m) b.
Proof. intros HI (H1 & H2 & <-)%cache_find_Some. by apply meta_eta. Qed.

Definition stays (i : nat) (t r : Z) (b : list Z) (c' : cache) : Prop := cache_inv c' /\ (holds c' i t r b \/ holds c' i t (u16 (r + 1)) b).

Section client.
Context (c : cache) (i : nat) (t r : Z) (b : list Z).
Hypothesis (HI : cache_inv c) (Hh : holds c i t r b) (Hr : r <> 0).

Lemma stay_refl : stays i t r b c.
Proof using Type*. split; auto. Qed.

Lemma stay_ent t' j m : t' <> 0 -> cache_find t' c = Some (j, m) -> exists c', cache_ent t' c = (Ok j, c') /\ stays i t r b c'.
Proof using Type*.
  intros Ht' Hf. destruct (cache_find_holds _ _ _ _ HI Hf) as (b' & Hj).
  destruct (cache_ent_hit c j t' (cm_ref m) b' HI Ht' Hj) as (c' & E & HI' & Ho & Hj'). exists c'. split; [done|]. split; [done|].
  destruct (decide (t' = t)) as [->|Hne].
  - right. rewrite (holds_find _ _ _ _ _ HI Hh) in Hf. injection Hf as <- <-. destruct Hh as [_ Hb], Hj as [_ Hb'].
    rewrite Hb in Hb'. injection Hb' as <-. exact Hj'.
  - left. exact (step_other c c' i j t t' _ _ _ _ HI Hh Hj Ho Hne).
Qed.

Lemma stay_new t' r' c' : cache_find t' c = None -> cache_alloc t' c = (r', c') -> r' <> Panic -> stays i t r b c'.
Proof using Type*.
  intros Hf Ha Hp. destruct (decide (t' = 0)) as [->|Hz].
  { unfold cache_alloc in Ha. simpl in Ha. injection Ha as _ <-. exact stay_refl. }
  assert (Hne : cmetas c <> []) by (intros E; destruct Hh as [H _]; by rewrite E in H).
  destruct (cache_alloc_spec c t' HI Hne Hz Hf) as [[E _]|(j & bs & Hv & _ & Hk & E & HI' & _)]; rewrite E in Ha; injection Ha as _ <-; [exact stay_refl|].
  split; [done|]. left. assert (i <> j) as Hij by (intros ->; by apply Hr, (victim_unpinned c j t r b)).
  destruct Hh as [H1 H2]. split; simpl; [by rewrite list_lookup_insert_ne|by rewrite Hk].
Qed.

Lemma stay_insert t' src r' c' : cache_try_insert t' src c = (r', c') -> r' <> Panic -> stays i t r b c'.
Proof using Type*.
  intros Ha Hp. destruct (decide (t' = 0)) as [->|Hz].
  { unfold cache_try_insert in Ha. simpl in Ha. injection Ha as _ <-. exact stay_refl. }
  destruct (cache_find t' c) as [[j m]|] eqn:Hf.
  - destruct (stay_ent t' j m Hz Hf) as (c1 & E & Hs). unfold cache_try_insert in Ha. rewrite E in Ha.
    destruct (Z.eqb_spec t' 0) as [|_]; [done|]. by injection Ha as _ <-.
  - assert (Hne : cmetas c <> []) by (intros E; destruct Hh as [H _]; by rewrite E in H).
    destruct (cache_try_insert_miss c t' src HI Hne Hz Hf) as [[E _]|(j & c1 & Hv & E & HI' & Ho & _)]; rewrite E in Ha; injection Ha as _ <-; [exact stay_refl|].
    split; [done|]. left. eapply holds_other; [exact Ho| |done]. intros ->. by apply Hr, (victim_unpinned c j t r b).
Qed.

Lemma stay_dec t' r' c' : t' <> t -> cache_dec_ref t' c = (r', c') -> r' <> Panic -> stays i t r b c'.
Proof using Type*.
  intros Hne Ha Hp. assert (Hd := Ha). unfold cache_dec_ref in Ha. destruct (Z.eqb_spec t' 0) as [|Hz]; [injection Ha as _ <-; exact stay_refl|].
  destruct (cache_find t' c) as [[j m]|] eqn:Hf; [|injection Ha as _ <-; exact stay_refl].
  destruct (Z.eqb_spec (cm_ref m) 0) as [|Hm]; [by injection Ha as <- _|].
  destruct (cache_find_holds _ _ _ _ HI Hf) as (b' & Hj).
  destruct (cache_dec_ref_hit c j t' (cm_ref m) b' HI Hz Hj Hm) as (c1 & E & HI' & Ho & _). rewrite E in Hd. injection Hd as _ <-.
  split; [done|]. left. exact (step_other c c1 i j t t' _ _ _ _ HI Hh Hj Ho Hne).
Qed.

Lemma stay_rem t' r' c' : t' <> t -> cache_rem t' c = (r', c') -> r' <> Panic -> stays i t r b c'.
Proof using Type*.
  intros Hne Ha Hp. assert (Hd := Ha). unfold cache_rem in Ha. destruct (Z.eqb_spec t' 0) as [|Hz]; [injection Ha as _ <-; exact stay_refl|].
  destruct (cache_find t' c) as [[j m]|] eqn:Hf; [|injection Ha as _ <-; exact stay_refl].
  destruct (cache_find_holds _ _ _ _ HI Hf) as (b' & Hj). destruct (ci_tag _ HI j _ (proj1 Hj) eq_refl) as [_ Hb].
  assert (Hm : cm_ref m = 1).
  { simpl in Hb. destruct (Z.eqb_spec (u16 (cm_ref m - 1)) 0) as [E|]; [|by injection Ha as <- _].
    unfold u16 in E. destruct (decide (cm_ref m = 0)) as [E0|]; [by rewrite E0 in E|]. rewrite Z.mod_small in E by lia. lia. }
  destruct (cache_rem_hit c j t' (cm_ref m) b' HI Hz Hj Hm) as (c1 & E & HI' & Ho & _). rewrite E in Hd. injection Hd as _ <-.
  split; [done|]. left. exact (step_other c c1 i j t t' _ _ _ _ HI Hh Hj Ho Hne).
Qed.

Lemma client_call_stays c' : client_call t c c' -> stays i t r b c'.
Proof using Type*.
  intros [t' src r' c1 H Hp|t' r' c1 Hf H Hp|t' r' c1 H Hp|t' r' c1 Hn H Hp|t' r' c1 Hn H Hp];
    [by eapply stay_insert|by eapply stay_new| |by eapply stay_dec|by eapply stay_rem].
  assert (He := H). unfold cache_ent in H. destruct (Z.eqb_spec t' 0) as [|Hz]; [injection H as _ <-; exact stay_refl|].
  destruct (cache_find t' c) as [[j m]|] eqn:Hf; [|injection H as _ <-; exact stay_refl].
  destruct (stay_ent t' j m Hz Hf) as (c2 & E & Hs). rewrite E in He. by injection He as _ <-.
Qed.
End client.

(** C31: a block that is referenced stays in the cache, in the same place and with
    the same contents, whatever blocks are looked up, inserted, allocated or
    given back by others meanwhile: entries are only taken from blocks without
    references.  The count of references is 16 bits wide, which bounds the
    number of calls. *)
Theorem cache_pinned_stable n c c' i t r b :
  cache_inv c -> holds c i t r b -> 0 < r -> r + Z.of_nat n < 2 ^ 16 -> nsteps (client_call t) n c c' ->
  cache_inv c' /\ (exists r', r <= r' <= r + Z.of_nat n /\ holds c' i t r' b) /\ exists c'', cache_ent t c' = (Ok i, c'').
Proof.
  intros HI Hh Hr Hn Hs. revert r HI Hh Hr Hn. induction Hs as [c|n c c1 c' Hc Hs IH]; intros r HI Hh Hr Hn.
  - split; [done|]. split; [exists r; split; [lia|done]|].
    assert (t <> 0) as Ht by (destruct (ci_tag _ HI i _ (proj1 Hh) eq_refl); done).
    destruct (cache_ent_hit c i t r b HI Ht Hh) as (c'' & E & _). by exists c''.
  - destruct (client_call_stays c i t r b HI Hh ltac:(lia) c1 Hc) as [HI1 [H1|H1]].
    + destruct (IH r HI1 H1 Hr ltac:(lia)) as (H2 & (r' & Hr' & H3) & H4). split; [done|]. split; [exists r'; split; [lia|done]|done].
    + unfold u16 in H1. rewrite Z.mod_small in H1 by lia.
      destruct (IH (r + 1) HI1 H1 ltac:(lia) ltac:(lia)) as (H2 & (r' & Hr' & H3) & H4).
      split; [done|]. split; [exists r'; split; [lia|done]|done].
Qed.

(** [cache_try_insert] finds the block or makes a place for it.  A block that
    is in the cache keeps its contents and gets one more reference; otherwise
    the contents are stored with one reference in an entry that is unused or is
    the least recently used of those without references, unless every entry is
    referenced, when [E_NO_SPACE] is returned and nothing changes.  No other
    entry is touched, and no block is ever in the cache twice. *)
Theorem cache_insert_correct c t src :
  cache_inv c -> cmetas c <> [] -> t <> 0 ->
  cache_sanity_check c = true /\
  ((exists i r b c', holds c i t r b /\ cache_try_insert t src c = (Ok i, c') /\ cache_inv c' /\ only_entry i c c' /\ holds c' i t (u16 (r + 1)) b) \/
   (cache_try_insert t src c = (Err E_NO_SPACE, c) /\ all_pinned c) \/
   (exists j c', victim c j /\ cache_try_insert t src c = (Ok j, c') /\ cache_inv c' /\ only_entry j c c' /\ holds c' j t 1 (take (s_ent c) src))).
Proof.
  intros HI Hne Ht. split; [by apply cache_sanity|]. destruct (cache_find t c) as [[i m]|] eqn:Hf.
  - left. destruct (cache_find_holds _ _ _ _ HI Hf) as (b & Hb).
    destruct (cache_ent_hit c i t (cm_ref m) b HI Ht Hb) as (c' & E & HI' & Ho & Hh). exists i, (cm_ref m), b, c'.
    split_and!; [done| |done..]. unfold cache_try_insert. rewrite E. by destruct (Z.eqb_spec t 0).
  - right. by apply cache_try_insert_miss.
Qed.

(** A cache of two entries with block 5 in it. *)
Definition example_cache : cache := (cache_try_insert 5 [1; 2] (cache_init 2 2)).2.

Lemma example_cache_inv : cache_inv example_cache.
Proof.
  destruct (cache_try_insert_miss (cache_init 2 2) 5 [1; 2] (cache_init_inv 2 2)) as [[E _]|(j & c' & _ & E & HI & _)]; [done|done|done| |].
  - discriminate.
  - unfold example_cache. rewrite E. exact HI.
Qed.

(** Two more blocks are inserted and the first of them is given up for the
    second; block 5 is still there. *)
Lemma cache_pinned_stable_witness :
  let c1 := (cache_try_insert 6 [3; 4] example_cache).2 in
  let c2 := (cache_dec_ref 6 c1).2 in
  let c3 := (cache_try_insert 7 [8; 9] c2).2 in
  cache_inv c3 /\ (exists r', 1 <= r' <= 1 + Z.of_nat 3 /\ holds c3 1 5 r' [1; 2]) /\ exists c'', cache_ent 5 c3 = (Ok 1%nat, c'').
Proof.
  intros c1 c2 c3. apply (cache_pinned_stable 3 example_cache c3 1 5 1 [1; 2]);
    [exact example_cache_inv|split; reflexivity|reflexivity|reflexivity|].
  apply (nsteps_l _ 2 _ c1). { by eapply (call_insert _ _ 6 [3; 4]). }
  apply (nsteps_l _ 1 _ c2). { by eapply (call_dec _ _ 6). }
  apply nsteps_once. by eapply (call_insert _ _ 7 [8; 9]).
Defined.

Lemma cache_insert_correct_witness :
  exists j c', victim example_cache j /\ cache_try_insert 6 [3; 4] example_cache = (Ok j, c') /\ holds c' j 6 1 [3; 4].
Proof.
  destruct (cache_insert_correct example_cache 6 [3; 4] example_cache_inv) as [_ [(i & r & b & c' & H & _)|[[H _]|(j & c' & H1 & H2 & _ & _ & H3)]]];
    [discriminate|discriminate| | |].
  - exfalso. destruct H as [H _]. destruct i as [|[|i]]; discriminate.
  - discriminate.
  - exists j, c'. split; [exact H1|]. split; [exact H2|exact H3].
Defined.
