(* ===== verification/Index.v ===== *)
(** * Ordered indices on disk

    What the free list relies on in a B+-tree: a finite map from keys to values
    in the order of the keys, whose nodes are taken from a pool of blocks and
    given back.  The trees of [BTree] implement the interface. *)

From stdpp Require Import sorting.
From S2P Require Import Prelude BTree BTreeRep BTreeSearch BTreeNodes BTreeInsert BTreeRemove BTreeRows BTreeDelete.
From stdpp Require Import options.

Set Default Goal Selector "!".

(** ** The interface *)

(** [ix_insert] gets the blocks that allocation may take, in order, and returns
    those that are left, and never needs more than one above [ix_room];
    [ix_delete] returns the blocks it gave back, in order. *)
Class IndexOps (T : Type) := {
  ix_insert : key -> value -> T -> list Z -> res unit * T * list Z;
  ix_delete : key -> T -> res unit * T * list Z;
  ix_gtet : key -> T -> res (key * value);
  ix_ltet : key -> T -> res (key * value);
  ix_search : key -> T -> res (key * value);
  ix_room : T -> nat;
}.

(** [ix_rep sk sv x m N]: the index [x], with keys and values of [sk] and [sv]
    words, holds the entries [m], in whatever order they are listed, and has its
    nodes in the blocks [N].  An insertion may run out of blocks, and then
    panics; it does not when it gets more than [ix_room].  With fewer than
    [ix_cap] entries everything is in one node. *)
Class Index (T : Type) `{IndexOps T} := {
  ix_rep : nat -> nat -> T -> list kv -> gset Z -> Prop;
  ix_cap : T -> nat;
  ix_perm sk sv x N :: Proper ((≡ₚ) ==> impl) (fun m => ix_rep sk sv x m N);
  ix_keys sk sv x m N :
    ix_rep sk sv x m N -> NoDup m.*1 /\ Forall (fun e => length e.1 = sk /\ length e.2 = sv) m;
  ix_zero sk sv x m N : ix_rep sk sv x m N -> 0 ∉ N;
  ix_small sk sv x m N :
    ix_rep sk sv x m N -> (length m < ix_cap x)%nat -> (ix_room x <= 1)%nat /\ size N = (if decide (m = []) then 0 else 1)%nat;
  ix_height sk sv x m N : ix_rep sk sv x m N -> (2 ^ ix_room x <= 2 * S (length m))%nat;
  ix_insert_new sk sv x m N k v pool :
    ix_rep sk sv x m N -> length k = sk -> length v = sv -> k ∉ m.*1 -> Z.of_nat (length m) + 1 < 2 ^ 64 ->
    NoDup pool -> (forall p, p ∈ pool -> p <> 0 /\ (p ∉ N)) ->
    (exists x' used pool', ix_insert k v x pool = (Ok tt, x', pool') /\ pool = used ++ pool' /\
       ix_rep sk sv x' ((k, v) :: m) (N ∪ list_to_set used) /\ ix_cap x' = ix_cap x) \/
    ((length pool <= ix_room x)%nat /\ exists x' pool', ix_insert k v x pool = (Panic, x', pool'));
  ix_delete_old sk sv x m N k v :
    ix_rep sk sv x ((k, v) :: m) N ->
    exists x' back N', ix_delete k x = (Ok tt, x', back) /\ ix_rep sk sv x' m N' /\ ix_cap x' = ix_cap x /\
      N = N' ∪ list_to_set back /\ N' ## list_to_set back /\ NoDup back;
  ix_delete_new sk sv x m N k :
    ix_rep sk sv x m N -> length k = sk -> k ∉ m.*1 -> ix_delete k x = (Err E_NOT_FOUND, x, []);
  ix_gtet_ok sk sv x m N k :
    ix_rep sk sv x m N -> length k = sk ->
    exists r, ix_gtet k x = match r with Some e => Ok e | None => Err E_NOT_FOUND end /\ answer match_gtet k m r;
  ix_ltet_ok sk sv x m N k :
    ix_rep sk sv x m N -> length k = sk ->
    exists r, ix_ltet k x = match r with Some e => Ok e | None => Err E_NOT_FOUND end /\ answer match_ltet k m r;
  ix_search_ok sk sv x m N k :
    ix_rep sk sv x m N -> length k = sk ->
    exists r, ix_search k x = match r with Some e => Ok e | None => Err E_NOT_FOUND end /\ answer match_eq k m r;
}.

(** ** More blocks than needed change nothing *)

Definition more (e : list Z) (s : bstate) : bstate := mkBstate (bs_tree s) (bs_nodes s) (bs_pool s ++ e) (bs_freed s).

Definition pool_mono {A} (m : BM A) : Prop :=
  forall s e r s', m s = (r, s') -> r <> Panic -> m (more e s) = (r, more e s').

Lemma pm_ret {A} (a : A) : pool_mono (mret a).
Proof. intros s e r s' [= <- <-] _. done. Qed.

Lemma pm_blift {A} (r : res A) : pool_mono (blift r).
Proof. intros s e r' s' [= <- <-] _. done. Qed.

Lemma pm_get : pool_mono get_tree.
Proof. intros s e r s' [= <- <-] _. done. Qed.

Lemma pm_put t : pool_mono (put_tree t).
Proof. intros s e r s' [= <- <-] _. done. Qed.

Lemma pm_fail {A} e : pool_mono (@bfail A e).
Proof. intros s e' r s' [= <- <-] _. done. Qed.

Lemma pm_panic {A} : pool_mono (@bpanic A).
Proof. intros s e r s' [= <- <-]. done. Qed.

Lemma pm_read o : pool_mono (btree_read_node o).
Proof. intros s e r s'. unfold btree_read_node. simpl. destruct (bs_nodes s !! o); intros [= <- <-]; done. Qed.

Lemma pm_write o n : pool_mono (btree_write_node o n).
Proof. intros s e r s' [= <- <-] _. done. Qed.

Lemma pm_new : pool_mono btree_new_node.
Proof. intros s e r s'. unfold btree_new_node. simpl. destruct (bs_pool s) as [|p pool]; simpl; intros [= <- <-]; done. Qed.

Lemma pm_bind {A B} (m : BM A) (f : A -> BM B) : pool_mono m -> (forall a, pool_mono (f a)) -> pool_mono (m ≫= f).
Proof.
  intros Hm Hf s e r s'. unfold mbind, BM_bind. destruct (m s) as [r1 s1] eqn:E. intros H Hr.
  assert (r1 <> Panic) by (intros ->; by injection H as <- _). rewrite (Hm s e r1 s1 E) by done.
  destruct r1 as [a| |]; [by apply Hf|by injection H as <- <-|done].
Qed.

Create HintDb pool.
#[export] Hint Resolve pm_ret pm_blift pm_get pm_put pm_fail pm_panic pm_read pm_write pm_new : pool.

(** Walks through the code of an operation. *)
Ltac pool_mono :=
  repeat first
    [ progress auto with pool
    | apply pm_bind; [|intros ?]
    | match goal with |- pool_mono (match ?x with _ => _ end) => destruct x end
    | match goal with |- pool_mono (let _ := _ in _) => cbv zeta end ].

Lemma pm_insertKey fuel o k v : pool_mono (insertKey fuel o k v).
Proof.
  revert o. induction fuel as [|fuel IH]; intros o; cbn [insertKey]; pool_mono.
Qed.

Lemma pm_insert k v : pool_mono (btree_insert_impl k v).
Proof. pose proof pm_insertKey. unfold btree_insert_impl. pool_mono. Qed.

(** ** What the operations keep of the descriptor of a tree *)

Definition keeps {A} (P : btree -> Prop) (m : BM A) : Prop :=
  forall s r s', m s = (r, s') -> P (bs_tree s) -> P (bs_tree s').

Section keeps.
Context (P : btree -> Prop).

Lemma ke_pure {A} (f : bstate -> res A) : keeps P (fun s => (f s, s)).
Proof. by intros s r s' [= _ <-]. Qed.

Lemma ke_read o : keeps P (btree_read_node o).
Proof. intros s r s'. unfold btree_read_node. destruct (bs_nodes s !! o); by intros [= _ <-]. Qed.

Lemma ke_write o n : keeps P (btree_write_node o n).
Proof. by intros s r s' [= _ <-]. Qed.

Lemma ke_erase o : keeps P (btree_erase_node o).
Proof. by intros s r s' [= _ <-]. Qed.

Lemma ke_new : keeps P btree_new_node.
Proof. intros s r s'. unfold btree_new_node. destruct (bs_pool s); by intros [= _ <-]. Qed.

Lemma ke_put t : P t -> keeps P (put_tree t).
Proof. by intros ? s r s' [= _ <-]. Qed.

Lemma ke_get {B} (f : btree -> BM B) : (forall t, P t -> keeps P (f t)) -> keeps P (get_tree ≫= f).
Proof. intros Hf s r s' E H. by apply (Hf (bs_tree s) H s r s'). Qed.

Lemma ke_bind {A B} (m : BM A) (f : A -> BM B) : keeps P m -> (forall a, keeps P (f a)) -> keeps P (m ≫= f).
Proof.
  intros Hm Hf s r s'. unfold mbind, BM_bind. destruct (m s) as [r1 s1] eqn:E. intros H H1.
  pose proof (Hm _ _ _ E H1). destruct r1 as [a| |]; [by eapply Hf|injection H as _ <-; done..].
Qed.
End keeps.

Create HintDb sizes.
#[export] Hint Resolve ke_pure ke_read ke_write ke_erase ke_new : sizes.
#[export] Hint Extern 0 (keeps _ (mret _)) => apply ke_pure : sizes.
#[export] Hint Extern 0 (keeps _ (blift _)) => apply ke_pure : sizes.
#[export] Hint Extern 0 (keeps _ (bfail _)) => apply ke_pure : sizes.
#[export] Hint Extern 0 (keeps _ bpanic) => apply ke_pure : sizes.
#[export] Hint Extern 1 (keeps _ (put_tree _)) => apply ke_put; simpl; tauto : sizes.

Ltac keeps :=
  repeat first
    [ progress auto with sizes
    | apply ke_get; intros ? ?
    | apply ke_bind; [|intros ?]
    | match goal with |- keeps _ (match ?x with _ => _ end) => destruct x end
    | match goal with |- keeps _ (let _ := _ in _) => cbv zeta end ].

(** The sizes and the order are set when a tree is made. *)
Definition sizes (sk sv ml : nat) (t : btree) : Prop := s_key t = sk /\ s_value t = sv /\ min_leaf t = ml.

Lemma ke_insertKey P fuel o k v : keeps P (insertKey fuel o k v).
Proof. revert o. induction fuel as [|fuel IH]; intros o; cbn [insertKey]; unfold insert_split; keeps. Qed.

Lemma ke_insert sk sv ml k v : keeps (sizes sk sv ml) (btree_insert_impl k v).
Proof. pose proof ke_insertKey. unfold btree_insert_impl, sizes. keeps. Qed.

Lemma ke_delete_fix P o prev i b : keeps P (delete_fix o prev i b).
Proof. unfold delete_fix, borrow, borrow_from, merge. keeps. Qed.

Lemma ke_delete_from P fuel o prev k i b : keeps P (delete_from fuel o prev k i b).
Proof. pose proof ke_delete_fix. revert o prev i b. induction fuel as [|fuel IH]; intros; cbn [delete_from]; keeps. Qed.

Lemma ke_delete sk sv ml k : keeps (sizes sk sv ml) (btree_delete_impl k).
Proof. pose proof ke_delete_from. unfold btree_delete_impl, sizes. keeps. Qed.

(** ** Small trees are one leaf *)

Lemma reps_length (R : Z -> gset Z -> list kv -> Z -> Z -> Prop) m lo hi cs ks D kvs f nx :
  (forall c D kvs f nx, R c D kvs f nx -> (m <= length kvs)%nat) ->
  reps R lo hi cs ks D kvs f nx -> (length cs * m <= length kvs)%nat.
Proof.
  intros HR. induction 1 as [lo hi c D kvs f nx H1 _|lo hi c cs k ks D1 D2 kvs1 kvs2 f m' nx H1 _ _ _ _ IH _]; apply HR in H1; simpl.
  - lia.
  - rewrite length_app. lia.
Qed.

Lemma rep_length t nd h off D kvs f nx :
  params_ok t -> child t nd h off D kvs f nx -> (2 ^ h * min_leaf t <= length kvs)%nat.
Proof.
  intros Hpo. revert off D kvs f nx. induction h as [|h IH]; intros off D kvs f nx [Hr (m & Hm & Hf)]; simpl in Hr.
  - destruct Hr as (n & Hn & Hl & _). rewrite Hn in Hm. injection Hm as ->.
    rewrite (lf_leaf _ _ _ _ Hl), (lf_count _ _ _ _ Hl) in Hf. simpl. lia.
  - destruct Hr as (n & seps & cs & D' & Hn & Hi & _ & _ & Hr). rewrite Hn in Hm. injection Hm as ->.
    eapply (reps_length _ (2 ^ h * min_leaf t)) in Hr; [|exact IH].
    rewrite (in_leaf _ _ _ _ Hi), (in_count _ _ _ _ Hi), (po_min_intrn _ Hpo) in Hf. rewrite (in_children _ _ _ _ Hi) in Hr.
    pose proof (po_order _ Hpo). assert (2 <= (order t + 1) / 2)%nat by (apply Nat.div_le_lower_bound; lia). simpl. nia.
Qed.

Lemma small_leaf s kvs :
  btree_ok s kvs -> (length kvs < 2 * min_leaf (bs_tree s))%nat ->
  (height (bs_tree s) <= 1)%nat /\ size (dom (bs_nodes s)) = (if decide (kvs = []) then 0 else 1)%nat.
Proof.
  intros HI Hs. destruct (bo_tree _ _ HI) as [(_ & -> & Hh & ->)|(Hne & h & n & Hh & Hr & Hn & Hpos)].
  - split; [lia|]. by rewrite dom_empty_L, size_empty.
  - rewrite decide_False by done. destruct h as [|h]; simpl in Hr.
    + destruct Hr as (m & _ & _ & -> & _). split; [lia|]. by rewrite size_singleton.
    + destruct Hr as (m & seps & cs & D' & Hm & Hi & _ & _ & Hr). exfalso. rewrite Hn in Hm. injection Hm as <-.
      eapply (reps_length _ (2 ^ h * min_leaf (bs_tree s))) in Hr; [|intros *; by apply rep_length, (bo_params _ _ HI)].
      rewrite (in_children _ _ _ _ Hi) in Hr. rewrite (in_count _ _ _ _ Hi) in Hpos. pose proof (Nat.pow_nonzero 2 h). nia.
Qed.

(** The height is logarithmic. *)
Lemma height_log s kvs : btree_ok s kvs -> (2 ^ height (bs_tree s) <= 2 * S (length kvs))%nat.
Proof.
  intros HI. destruct (bo_tree _ _ HI) as [(_ & -> & Hh & _)|(Hne & h & n & Hh & Hr & Hn & Hpos)]; [destruct (height (bs_tree s)) as [|[|]]; simpl in *; lia|].
  pose proof (bo_params _ _ HI) as Hpo. assert (Hml : (1 <= min_leaf (bs_tree s))%nat).
  { rewrite (po_min_leaf _ Hpo). pose proof (po_leaf _ Hpo). apply Nat.div_le_lower_bound; lia. }
  rewrite Hh. simpl. destruct h as [|h]; [simpl; lia|]. simpl in Hr. destruct Hr as (m & seps & cs & D' & Hm & Hi & _ & _ & Hr).
  rewrite Hn in Hm. injection Hm as <-.
  eapply (reps_length _ (2 ^ h * min_leaf (bs_tree s))) in Hr; [|intros *; by apply rep_length].
  rewrite (in_children _ _ _ _ Hi) in Hr. rewrite (in_count _ _ _ _ Hi) in Hpos. simpl. nia.
Qed.

(** ** B+-trees are such indices *)

Record ftree := mkFtree { ft_tree : btree; ft_nodes : gmap Z btree_node }.

Definition ft_state (x : ftree) (pool : list Z) : bstate := mkBstate (ft_tree x) (ft_nodes x) pool [].

#[export] Instance ftree_ops : IndexOps ftree := {
  ix_insert k v x pool :=
    let '(r, s) := btree_insert_impl k v (ft_state x pool) in (r, mkFtree (bs_tree s) (bs_nodes s), bs_pool s);
  ix_delete k x :=
    let '(r, s) := btree_delete_impl k (ft_state x []) in (r, mkFtree (bs_tree s) (bs_nodes s), rev (bs_freed s));
  ix_gtet k x := (btree_gtet_impl k (ft_state x [])).1;
  ix_ltet k x := (btree_ltet_impl k (ft_state x [])).1;
  ix_search k x := (btree_search_impl k (ft_state x [])).1;
  ix_room x := height (ft_tree x);
}.

Definition ft_cap (x : ftree) : nat := 2 * min_leaf (ft_tree x).

Definition ft_rep (sk sv : nat) (x : ftree) (m : list kv) (N : gset Z) : Prop :=
  exists kvs, kvs ≡ₚ m /\ btree_ok (ft_state x []) kvs /\ dom (ft_nodes x) = N /\ s_key (ft_tree x) = sk /\ s_value (ft_tree x) = sv.

(** The pool is no part of what the tree stands for. *)
Lemma btree_ok_pool t nd pool fr pool' fr' kvs :
  btree_ok (mkBstate t nd pool fr) kvs -> NoDup pool' -> (forall p, p ∈ pool' -> p <> 0 /\ (p ∉ dom nd)) -> btree_ok (mkBstate t nd pool' fr') kvs.
Proof.
  intros [H1 H2 H3 H4 _] Hnd Hp. split; [done..|]. split; [done|]. intros p Hin. destruct (Hp p Hin). split; [done|]. by apply not_elem_of_dom.
Qed.

Lemma sorted_NoDup kvs : sorted kvs -> NoDup kvs.*1.
Proof.
  unfold sorted. generalize kvs.*1 as ks. induction 1 as [|k ks _ IH Hk]; constructor; [|done].
  intros Hin. rewrite list.Forall_forall in Hk. by eapply klt_irrefl, Hk.
Qed.

Lemma ft_perm sk sv x N : Proper ((≡ₚ) ==> impl) (fun m => ft_rep sk sv x m N).
Proof. intros m m' Hm (kvs & Hp & H). exists kvs. split; [by etrans|done]. Qed.

Lemma ft_keys sk sv x m N :
  ft_rep sk sv x m N -> NoDup m.*1 /\ Forall (fun e => length e.1 = sk /\ length e.2 = sv) m.
Proof.
  intros (kvs & Hp & HI & _ & <- & <-). destruct (btree_ok_sorted _ _ HI) as [Hs Hv]. rewrite <- Hp.
  split; [by apply sorted_NoDup|exact Hv].
Qed.

Lemma ft_zero sk sv x m N : ft_rep sk sv x m N -> 0 ∉ N.
Proof. intros (kvs & _ & HI & <- & _). apply not_elem_of_dom, (bo_zero _ _ HI). Qed.

Lemma ft_small sk sv x m N :
  ft_rep sk sv x m N -> (length m < ft_cap x)%nat ->
  (height (ft_tree x) <= 1)%nat /\ size N = (if decide (m = []) then 0 else 1)%nat.
Proof.
  intros (kvs & Hp & HI & <- & _) Hl. rewrite <- Hp in Hl. destruct (small_leaf (ft_state x []) kvs HI Hl) as [Hh Hs].
  split; [done|]. simpl in Hs. rewrite Hs. destruct kvs; [apply Permutation_nil_l in Hp; by subst|].
  rewrite !decide_False; [done| |done]. intros ->. by apply Permutation_nil_r in Hp.
Qed.

Lemma ft_height sk sv x m N : ft_rep sk sv x m N -> (2 ^ height (ft_tree x) <= 2 * S (length m))%nat.
Proof. intros (kvs & Hp & HI & _). rewrite <- Hp. apply (height_log _ _ HI). Qed.

Lemma ft_insert_new sk sv x m N k v pool :
  ft_rep sk sv x m N -> length k = sk -> length v = sv -> k ∉ m.*1 -> Z.of_nat (length m) + 1 < 2 ^ 64 ->
  NoDup pool -> (forall p, p ∈ pool -> p <> 0 /\ (p ∉ N)) ->
  (exists x' used pool', ix_insert k v x pool = (Ok tt, x', pool') /\ pool = used ++ pool' /\
     ft_rep sk sv x' ((k, v) :: m) (N ∪ list_to_set used) /\ ft_cap x' = ft_cap x) \/
  ((length pool <= height (ft_tree x))%nat /\ exists x' pool', ix_insert k v x pool = (Panic, x', pool')).
Proof.
  intros (kvs & Hpm & HI & <- & <- & <-) Hk Hv Hno Hsz Hnd Hp. rewrite <- Hpm in Hno, Hsz. simpl.
  set (X := list_to_set pool ∪ dom (ft_nodes x) ∪ {[0]} : gset Z). set (e := fresh_list (S (height (ft_tree x))) X).
  assert (He : forall p, p ∈ e -> p ∉ X) by (intros p; apply fresh_list_is_fresh).
  assert (HI' : btree_ok (more e (ft_state x pool)) kvs).
  { eapply btree_ok_pool; [exact HI| |].
    - apply list.NoDup_app. split_and!; [done| |apply NoDup_fresh_list]. intros p Hin Hin'. apply (He p Hin'). unfold X. set_solver.
    - intros p [Hin|Hin]%elem_of_app; [by apply Hp|]. specialize (He p Hin). unfold X in He. set_solver. }
  destruct (btree_insert_impl k v (ft_state x pool)) as [r s1] eqn:E. assert (Hr : r = Panic \/ r <> Panic) by (destruct r; auto). destruct Hr as [->|Hr].
  - right. split; [|by eauto]. apply Nat.le_ngt. intros Hlt.
    edestruct (btree_insert_new (ft_state x pool) kvs k v) as (s2 & E2 & _); try done; [by eapply btree_ok_pool|]. by rewrite E in E2.
  - left. pose proof (pm_insert k v _ e _ _ E Hr) as E'.
    destruct (btree_insert_new _ kvs k v HI') as (s2 & E2 & Hok & used & Hu & Hd); try done.
    { simpl. rewrite length_app. unfold e. rewrite length_fresh_list. lia. }
    rewrite E' in E2. injection E2 as -> <-. simpl in Hu, Hd. rewrite app_assoc in Hu. apply app_inv_tail in Hu.
    destruct (ke_insert _ _ _ k v _ _ _ E (conj eq_refl (conj eq_refl eq_refl))) as (Ek & Ev & Em).
    eexists _, used, _. split; [done|]. split; [done|]. split; [|by unfold ft_cap; simpl; rewrite Em].
    exists (kv_ins k v kvs). split_and!; [by rewrite kv_ins_Permutation, Hpm| |done..].
    eapply btree_ok_pool; [exact Hok|constructor|]. clear. set_solver.
Qed.

Lemma ft_delete_old sk sv x m N k v :
  ft_rep sk sv x ((k, v) :: m) N ->
  exists x' back N', ix_delete k x = (Ok tt, x', back) /\ ft_rep sk sv x' m N' /\ ft_cap x' = ft_cap x /\
    N = N' ∪ list_to_set back /\ N' ## list_to_set back /\ NoDup back.
Proof.
  intros Hrep. pose proof (ft_keys _ _ _ _ _ Hrep) as [Hkd Hkl]. apply list.Forall_cons in Hkl as [[Hk _] _].
  destruct Hrep as (kvs & Hp & HI & <- & <- & <-). simpl in Hk.
  assert (Hin : k ∈ kvs.*1) by (rewrite Hp; left).
  destruct (delete_present _ _ HI k Hk Hin) as (s' & E & Hok & _ & Hsub & fr & Hf & Hnd & Hset).
  destruct (btree_ok_sorted _ _ HI) as [Hs Hv]. destruct (kv_del_Permutation _ k kvs Hk Hs Hv Hin) as [v' Hp'].
  apply (Permutation_trans (Permutation_sym Hp)) in Hp'. assert (v' = v) as ->.
  { assert (Hv' : (k, v') ∈ (k, v) :: m) by (rewrite Hp'; left). apply elem_of_cons in Hv' as [[= ->]|Hv']; [done|].
    simpl in Hkd. apply list.NoDup_cons in Hkd as [Hkd _]. destruct Hkd. by apply (list_elem_of_fmap_2 fst _ (k, v')). }
  apply Permutation_cons_inv in Hp'.
  simpl in Hsub, Hset, Hf. rewrite app_nil_r in Hf. simpl. rewrite E, Hf.
  destruct (ke_delete _ _ _ k _ _ _ E (conj eq_refl (conj eq_refl eq_refl))) as (Ek & Ev & Em).
  assert (Hl : list_to_set (rev fr) = dom (ft_nodes x) ∖ dom (bs_nodes s') :> gset Z).
  { rewrite <- Hset. apply set_eq. intros o. by rewrite !elem_of_list_to_set, !list_elem_of_In, <- in_rev. }
  eexists _, _, (dom (bs_nodes s')). rewrite Hl. split_and!; [done| |by unfold ft_cap; simpl; rewrite Em| | |].
  - exists (kv_del k kvs). split_and!; [done| |done..]. destruct s'. eapply btree_ok_pool; [exact Hok|constructor|]. clear. set_solver.
  - clear -Hsub. apply set_eq. intros o. destruct (decide (o ∈ dom (bs_nodes s'))); set_solver.
  - clear. set_solver.
  - by apply NoDup_ListNoDup, NoDup_rev, NoDup_ListNoDup.
Qed.

Lemma ft_delete_new sk sv x m N k :
  ft_rep sk sv x m N -> length k = sk -> k ∉ m.*1 -> ix_delete k x = (Err E_NOT_FOUND, x, []).
Proof.
  intros (kvs & Hp & HI & <- & <- & <-) Hk Hno. rewrite <- Hp in Hno. simpl. rewrite (delete_absent _ _ HI k Hk Hno). by destruct x.
Qed.

Lemma answer_perm m k kvs kvs' r : kvs ≡ₚ kvs' -> answer m k kvs r -> answer m k kvs' r.
Proof.
  intros Hp. destruct r as [e|]; simpl; [intros (H1 & H2 & H3)|intros H3]; setoid_rewrite <- Hp; auto.
Qed.

Lemma ft_search mt sk sv x m N k :
  ft_rep sk sv x m N -> length k = sk ->
  exists r, (search k mt (ft_state x [])).1 = match r with Some e => Ok e | None => Err E_NOT_FOUND end /\ answer mt k m r.
Proof.
  intros (kvs & Hp & HI & _ & <- & _) Hk. destruct (search_ok _ _ k mt HI Hk) as (r & E & Ha). exists r. rewrite E.
  split; [done|by eapply answer_perm].
Qed.

#[export] Instance ftree_index : Index ftree := {
  ix_rep := ft_rep;
  ix_cap := ft_cap;
  ix_perm := ft_perm;
  ix_keys := ft_keys;
  ix_zero := ft_zero;
  ix_small := ft_small;
  ix_height := ft_height;
  ix_insert_new := ft_insert_new;
  ix_delete_old := ft_delete_old;
  ix_delete_new := ft_delete_new;
  ix_gtet_ok := ft_search match_gtet;
  ix_ltet_ok := ft_search match_ltet;
  ix_search_ok := ft_search match_eq;
}.
