(* ===== verification/Freelist.v ===== *)
(** * The free list of the disk: kern/kern/freelist.c and kern/btree/pbtree_frm.c

    The free extents of the disk are kept in two B+-trees, one ordered by size
    and one by offset.  The trees need disk blocks for their own nodes: these
    come from a small buffer, the node manager [frm], which is refilled from the
    free list itself once the operation that drained it is over. *)

From S2P Require Import Prelude Dstack Log BTree Index.
From stdpp Require Import options.

Set Default Goal Selector "!".

(** ** The node manager *)

Definition FRM_BUF_SIZE : nat := 10.

Record frm := mkFrm {
  to_use : list Z;
  to_free : list Z;
  n_use : nat;
  n_free : nat;
  service : bool;
  servicing : bool
}.

(** Assignments to the arrays of [frm]: outside of them the behaviour is
    undefined. *)
Definition put_use (o : Z) (f : frm) : res frm :=
  (do u <- arr_set (to_use f) (n_use f) o;
   Ok (mkFrm u (to_free f) (S (n_use f)) (n_free f) (service f) (servicing f)))%res.

Definition frm_free (offset : Z) (f : frm) : res frm :=
  if (FRM_BUF_SIZE <? n_free f)%nat then Panic
  else if (n_use f <? FRM_BUF_SIZE)%nat then put_use offset f
  else
    (do fr <- arr_set (to_free f) (n_free f) offset;
     let n := S (n_free f) in
     Ok (mkFrm (to_use f) fr (n_use f) n (service f || (FRM_BUF_SIZE / 2 <? n)%nat) (servicing f)))%res.

Definition frm_new (f : frm) : res (Z * frm) :=
  match n_use f with
  | O => Panic
  | S n =>
      (do offset <- res_nth (to_use f) n;
       do u <- arr_set (to_use f) n 0;
       Ok (offset, mkFrm u (to_free f) n (n_free f) (service f || (n <? FRM_BUF_SIZE / 2)%nat) (servicing f)))%res
  end.

Definition frm_init (base : Z) : frm * Z :=
  (mkFrm ((fun i => u64 (base + Z.of_nat i * BTREE_BLOCK_SIZE)) <$> seq 0 FRM_BUF_SIZE) (replicate FRM_BUF_SIZE 0)
     FRM_BUF_SIZE 0 false false,
   u32 (Z.of_nat FRM_BUF_SIZE * BTREE_BLOCK_SIZE)).

(** The blocks that [frm_new] will return, in order; a run of calls of
    [frm_new] and of [frm_free]. *)
Definition frm_pool (f : frm) : list Z := rev (take (n_use f) (to_use f)).

Fixpoint frm_news (n : nat) (f : frm) : res frm :=
  match n with
  | O => Ok f
  | S n => (do r <- frm_new f; frm_news n r.2)%res
  end.

Fixpoint frm_frees (l : list Z) (f : frm) : res frm :=
  match l with
  | [] => Ok f
  | o :: l => (do f <- frm_free o f; frm_frees l f)%res
  end.

(** ** The state and its monad *)

Inductive btree_id := BTREE_FCHUNK | BTREE_FOFFSET.

Section freelist.
Context {T : Type} `{IndexOps T}.

(** The node manager, the two trees, the extents to be freed at the next commit,
    and the pages that [page_alloc] will return for that stack. *)
Record fstate := mkFstate {
  fs_frm : frm;
  fs_chunk : T;
  fs_offset : T;
  free_later : dstack;
  fs_pages : list (list Z)
}.

Definition FM (A : Type) : Type := fstate -> res A * fstate.

#[export] Instance FM_ret : MRet FM := fun A a s => (Ok a, s).
#[export] Instance FM_bind : MBind FM := fun A B f m s =>
  match m s with
  | (Ok a, s') => f a s'
  | (Err e, s') => (Err e, s')
  | (Panic, s') => (Panic, s')
  end.

Definition ffail {A} (e : Z) : FM A := fun s => (Err e, s).
Definition fpanic {A} : FM A := fun s => (Panic, s).
Definition flift {A} (r : res A) : FM A := fun s => (r, s).
Definition fassert (b : bool) : FM unit := if b then mret tt else fpanic.
Definition get_frm : FM frm := fun s => (Ok (fs_frm s), s).
Definition put_frm (f : frm) : FM unit := fun s => (Ok tt, mkFstate f (fs_chunk s) (fs_offset s) (free_later s) (fs_pages s)).

(** The return code of a call as a value. *)
Definition fcode {A} (m : FM A) : FM (res A) := fun s =>
  match m s with
  | (Panic, s') => (Panic, s')
  | (r, s') => (Ok r, s')
  end.

Definition get_ix (id : btree_id) (s : fstate) : T :=
  match id with BTREE_FCHUNK => fs_chunk s | BTREE_FOFFSET => fs_offset s end.

Definition set_ix (id : btree_id) (x : T) (f : frm) (s : fstate) : fstate :=
  match id with
  | BTREE_FCHUNK => mkFstate f x (fs_offset s) (free_later s) (fs_pages s)
  | BTREE_FOFFSET => mkFstate f (fs_chunk s) x (free_later s) (fs_pages s)
  end.

(** The operations of the trees, whose [new] and [free] are [frm_new] and
    [frm_free]: an insertion takes the blocks it needs from the node manager, a
    deletion gives back those of the nodes it drops. *)
Definition btree_insert (id : btree_id) (k : key) (v : value) : FM unit := fun s =>
  let pool := frm_pool (fs_frm s) in
  let '(r, x, pool') := ix_insert k v (get_ix id s) pool in
  match frm_news (length pool - length pool') (fs_frm s) with
  | Ok f => (r, set_ix id x f s)
  | Err e => (Err e, s)
  | Panic => (Panic, s)
  end.

Definition btree_delete (id : btree_id) (k : key) : FM unit := fun s =>
  let '(r, x, back) := ix_delete k (get_ix id s) in
  match frm_frees back (fs_frm s) with
  | Ok f => (r, set_ix id x f s)
  | Err e => (Err e, s)
  | Panic => (Panic, s)
  end.

Definition btree_gtet (id : btree_id) (k : key) : FM (key * value) := fun s => (ix_gtet k (get_ix id s), s).
Definition btree_ltet (id : btree_id) (k : key) : FM (key * value) := fun s => (ix_ltet k (get_ix id s), s).

(** The words of a key or a value, as the code reads them. *)
Definition word (i : nat) (l : list Z) : FM Z := flift (res_nth l i).

(** ** Allocation *)

Definition freelist_insert (offset nbytes : Z) : FM unit :=
  btree_insert BTREE_FCHUNK [nbytes; offset] [offset];;
  btree_insert BTREE_FOFFSET [offset] [nbytes].

(** [return] of an offset as an [int64_t]. *)
Definition ret_i64 (z : Z) : res Z := if i64 z <? 0 then Err (- i64 z) else Ok (i64 z).

(** [freelist_alloc], given what [frm_service] does. *)
Definition freelist_alloc_svc (frm_service : FM unit) (nbytes : Z) : FM Z :=
  r ← fcode (btree_gtet BTREE_FCHUNK [nbytes; 0]);
  match r with
  | Ok (k, _) =>
      k_nbytes ← word 0 k;
      k_offset ← word 1 k;
      btree_delete BTREE_FOFFSET [k_offset];;
      btree_delete BTREE_FCHUNK [k_nbytes; k_offset];;
      let n := u64 (k_nbytes - nbytes) in
      let o := u64 (k_offset + nbytes) in
      (if n =? 0 then mret tt
       else
         btree_insert BTREE_FOFFSET [o] [n];;
         btree_insert BTREE_FCHUNK [n; o] [o]);;
      frm_service;;
      flift (ret_i64 k_offset)
  | _ => ffail E_NO_SPACE
  end.

(** ** Deferred frees *)

(** [dstack_push] on [free_later], with the page that [page_alloc] returns if it
    is called; the assertions of [freelist_free_later] fail when there is none. *)
Definition later_push (n : Z) : FM unit := fun s =>
  let fresh := match fs_pages s with [] => Err E_NO_MEM | p :: _ => Ok p end in
  match dstack_push fresh (free_later s) n with
  | Ok d => (Ok tt, mkFstate (fs_frm s) (fs_chunk s) (fs_offset s) d
                      (if (sp (free_later s) =? 0)%nat then tail (fs_pages s) else fs_pages s))
  | _ => (Panic, s)
  end.

Definition later_pop : FM Z := fun s =>
  match dstack_pop (free_later s) with
  | Ok (n, d) => (Ok n, mkFstate (fs_frm s) (fs_chunk s) (fs_offset s) d (fs_pages s))
  | Err e => (Err e, s)
  | Panic => (Panic, s)
  end.

Definition freelist_free_later (base nbytes : Z) : FM unit :=
  later_push base;;
  later_push nbytes.

(** ** Refilling the node manager *)

(** The loop that hands [to_free] to [free_later]. *)
Fixpoint frm_drain (n : nat) : FM unit :=
  match n with
  | O => mret tt
  | S n =>
      f ← get_frm;
      let f := mkFrm (to_use f) (to_free f) (n_use f) n (service f) (servicing f) in
      put_frm f;;
      o ← flift (res_nth (to_free f) n);
      freelist_free_later o BTREE_BLOCK_SIZE;;
      frm_drain n
  end.

(** The loop that fills [to_use]; the [int64_t] that [freelist_alloc] returns is
    assigned to a [uint64_t] before it is compared with 0. *)
Fixpoint frm_refill (freelist_alloc : Z -> FM Z) (nblocks : nat) : FM unit :=
  match nblocks with
  | O => mret tt
  | S nblocks =>
      r ← fcode (freelist_alloc BTREE_BLOCK_SIZE);
      let base := match r with Ok o => u64 o | Err e => u64 (- e) | Panic => 0 end in
      fassert (0 <? base);;
      f ← get_frm;
      f ← flift (put_use base f);
      put_frm f;;
      frm_refill freelist_alloc nblocks
  end.

Definition frm_service_one (freelist_alloc : Z -> FM Z) : FM unit :=
  f ← get_frm;
  put_frm (mkFrm (to_use f) (to_free f) (n_use f) (n_free f) false (servicing f));;
  frm_drain (n_free f);;
  f ← get_frm;
  if (FRM_BUF_SIZE / 2 <=? n_use f)%nat then mret tt
  else
    frm_refill freelist_alloc (FRM_BUF_SIZE - (n_use f + 3));;
    f ← get_frm;
    fassert (n_use f <=? FRM_BUF_SIZE)%nat.

Definition set_servicing (b : bool) : FM unit :=
  f ← get_frm;
  put_frm (mkFrm (to_use f) (to_free f) (n_use f) (n_free f) (service f) b).

(** The loop of [frm_service], at most [fuel] rounds of it; the allocations of a
    round call [frm_service] again, which returns at once. *)
Fixpoint frm_service (fuel : nat) : FM unit :=
  f ← get_frm;
  if service f && negb (servicing f) then
    match fuel with
    | O => fpanic
    | S fuel =>
        set_servicing true;;
        frm_service_one (freelist_alloc_svc (frm_service fuel));;
        set_servicing false;;
        frm_service fuel
    end
  else mret tt.

Definition freelist_alloc (fuel : nat) (nbytes : Z) : FM Z := freelist_alloc_svc (frm_service fuel) nbytes.

(** ** Freeing *)

(** The neighbour of an extent, if the search found one: its offset and size. *)
Definition neighbour (r : res (key * value)) : FM (option (Z * Z)) :=
  match r with
  | Ok (k, v) => o ← word 0 k; n ← word 0 v; mret (Some (o, n))
  | _ => mret None
  end.

(** A neighbour that is merged leaves both trees. *)
Definition remove_chunk (c : Z * Z) : FM unit :=
  btree_delete BTREE_FOFFSET [c.1];;
  btree_delete BTREE_FCHUNK [c.2; c.1].

Definition freelist_free (fuel : nat) (base nbytes : Z) : FM unit :=
  rl ← fcode (btree_ltet BTREE_FOFFSET [u64 (base - 1)]);
  l ← neighbour rl;
  rg ← fcode (btree_gtet BTREE_FOFFSET [u64 (base + 1)]);
  g ← neighbour rg;
  let l_merge := match l with Some (o, n) => if u64 (o + n) =? base then Some (o, n) else None | None => None end in
  let g_merge := match g with Some (o, n) => if u64 (base + nbytes) =? o then Some (o, n) else None | None => None end in
  m ← match l_merge with
      | Some c => remove_chunk c;; mret (c.1, u64 (nbytes + c.2))
      | None => mret (base, nbytes)
      end;
  m ← match g_merge with
      | Some c => remove_chunk c;; mret (m.1, u64 (m.2 + c.2))
      | None => mret m
      end;
  btree_insert BTREE_FOFFSET [m.1] [m.2];;
  btree_insert BTREE_FCHUNK [m.2; m.1] [m.1];;
  frm_service fuel.

(** The loop of [freelist_commit], at most [rounds] of them. *)
Fixpoint freelist_commit (fuel rounds : nat) : FM unit := fun s =>
  if dstack_empty (free_later s) then (Ok tt, s)
  else
    match rounds with
    | O => (Panic, s)
    | S rounds =>
        (nbytes ← later_pop;
         base ← later_pop;
         freelist_free fuel base nbytes;;
         freelist_commit fuel rounds) s
    end.

(** ** Set-up, and the image in the header of the disk *)

Definition freelist_init (base nbytes : Z) : FM unit := fun s =>
  let '(f, frm_bytes) := frm_init base in
  match freelist_insert (u64 (base + frm_bytes)) (u64 (nbytes - frm_bytes)) (mkFstate f (fs_chunk s) (fs_offset s) (free_later s) (fs_pages s)) with
  | (Ok _, s') => (Ok tt, mkFstate (fs_frm s') (fs_chunk s') (fs_offset s') dstack_init (fs_pages s'))
  | (_, s') => (Panic, s')
  end.

Definition freelist_serialize (s : fstate) : frm := fs_frm s.
Definition freelist_deserialize (buf : frm) : FM unit := fun s =>
  (Ok tt, mkFstate buf (fs_chunk s) (fs_offset s) dstack_init (fs_pages s)).

End freelist.

Arguments fstate : clear implicits.
Arguments mkFstate {T}.
