(* ===== verification/FreelistSpace.v ===== *)
(** * Extents of the disk

    How often a byte is covered by a list of extents, and what cutting a piece
    off a chunk and merging a freed extent with its neighbours do to that. *)

From stdpp Require Import sorting list_numbers.
From S2P Require Import Prelude Log.
From stdpp Require Import options.

Set Default Goal Selector "!".

(** ** Extents and the space they cover *)

Definition covers (z : Z) (e : Z * Z) : bool := (e.1 <=? z) && (z <? e.1 + e.2).

(** How many of the extents a byte belongs to. *)
Definition occ (z : Z) (l : list (Z * Z)) : nat := sum_list_with (fun e => Nat.b2n (covers z e)) l.

Definition valid (e : Z * Z) : Prop := 0 < e.1 /\ 0 < e.2 /\ e.1 + e.2 <= 2 ^ 63.

(** Extents that do not overlap. *)
Definition space (l : list (Z * Z)) : Prop := Forall valid l /\ forall z, (occ z l <= 1)%nat.

Definition blocks (l : list Z) : list (Z * Z) := (fun o => (o, BTREE_BLOCK_SIZE)) <$> l.

#[export] Instance occ_perm z : Proper ((≡ₚ) ==> (=)) (occ z).
Proof. intros l l' Hl. unfold occ. by rewrite Hl. Qed.

#[export] Instance space_perm : Proper ((≡ₚ) ==> iff) space.
Proof. intros l l' Hl. unfold space. setoid_rewrite Hl. done. Qed.

#[export] Instance blocks_perm : Proper ((≡ₚ) ==> (≡ₚ)) blocks.
Proof. intros l l' Hl. unfold blocks. by rewrite Hl. Qed.

Lemma occ_cons z e l : occ z (e :: l) = (Nat.b2n (covers z e) + occ z l)%nat.
Proof. done. Qed.

Lemma occ_app z l l' : occ z (l ++ l') = (occ z l + occ z l')%nat.
Proof. unfold occ. apply sum_list_with_app. Qed.

Lemma occ_nil z : occ z [] = 0%nat.
Proof. done. Qed.

Lemma covers_spec z e : Nat.b2n (covers z e) = if decide (e.1 <= z < e.1 + e.2) then 1%nat else 0%nat.
Proof.
  unfold covers. destruct (Z.leb_spec e.1 z), (Z.ltb_spec z (e.1 + e.2)); simpl; case_decide; lia.
Qed.

Lemma space_app l l' : space (l ++ l') -> space l /\ space l'.
Proof.
  intros [Hv Ho]. apply list.Forall_app in Hv as [H1 H2]. split; (split; [done|intros z; specialize (Ho z); rewrite occ_app in Ho; lia]).
Qed.

(** Space that covers the same bytes does not overlap either. *)
Lemma space_same l l' : space l -> Forall valid l' -> (forall z, occ z l' = occ z l) -> space l'.
Proof. intros [_ H] Hv Ho. split; [done|]. intros z. by rewrite Ho. Qed.

Definition disjoint_ext (a b : Z * Z) : Prop := a.1 + a.2 <= b.1 \/ b.1 + b.2 <= a.1.

Lemma space_disjoint a b l : space (a :: b :: l) -> disjoint_ext a b.
Proof.
  intros [Hv Ho]. inversion_clear Hv as [|? ? (Ha1 & Ha2 & Ha3) Hv']. inversion_clear Hv' as [|? ? (Hb1 & Hb2 & Hb3) _]. unfold disjoint_ext.
  specialize (Ho (Z.max a.1 b.1)). rewrite !occ_cons, !covers_spec in Ho. repeat case_decide; lia.
Qed.

(** An extent of the space is disjoint from any other one. *)
Lemma space_disjoint_elem a b l : space (a :: l) -> b ∈ l -> disjoint_ext a b.
Proof. intros Hs Hb. apply elem_of_Permutation in Hb as [l' Hl]. rewrite Hl in Hs. by eapply space_disjoint. Qed.

Lemma space_elem a l : space l -> a ∈ l -> valid a.
Proof. intros [Hv _]. by apply list.Forall_forall. Qed.

Lemma space_NoDup l : space l -> NoDup l.*1.
Proof.
  induction l as [|a l IH]; intros Hs; simpl; constructor.
  - intros (b & Hb & Hin)%list_elem_of_fmap. destruct (space_elem a _ Hs (list_elem_of_here _ _)) as (? & ? & ?).
    destruct (space_elem b _ Hs (list_elem_of_further _ _ _ Hin)) as (? & ? & ?). destruct (space_disjoint_elem a b l Hs Hin); lia.
  - apply IH. by apply (space_app [a] l).
Qed.

Lemma blocks_fst l : (blocks l).*1 = l.
Proof. unfold blocks. rewrite <- list_fmap_compose. apply list_fmap_id. Qed.

(** There are fewer extents than bytes. *)
Lemma space_length l : space l -> Z.of_nat (length l) < 2 ^ 63.
Proof.
  intros Hs. pose proof (space_NoDup l Hs) as Hn. apply NoDup_ListNoDup in Hn.
  assert (Hi : incl l.*1 (seqZ 1 (2 ^ 63 - 1))).
  { intros o Ho. apply list_elem_of_In in Ho. apply list_elem_of_In. apply elem_of_seqZ.
    apply list_elem_of_fmap in Ho as (e & -> & He). destruct (space_elem e l Hs He) as (? & ? & ?). lia. }
  pose proof (NoDup_incl_length Hn Hi) as Hl. rewrite length_fmap, length_seqZ in Hl. lia.
Qed.

(** ** Chunks *)

(** No two chunks are adjacent. *)
Definition coalesced (F : list (Z * Z)) : Prop := forall a b, a ∈ F -> b ∈ F -> a.1 + a.2 <> b.1.

#[export] Instance coalesced_perm : Proper ((≡ₚ) ==> iff) coalesced.
Proof. intros F F' HF. unfold coalesced. by setoid_rewrite HF. Qed.

(** A chunk of at least [n] bytes. *)
Definition big (F : list (Z * Z)) (n : Z) : Prop := exists c, (c ∈ F) /\ n <= c.2.

(** [n] bytes at [o] are cut off the smallest chunk that has them. *)
Definition carve (F : list (Z * Z)) (n o : Z) (F' : list (Z * Z)) : Prop :=
  exists l R, F ≡ₚ (o, l) :: R /\ n <= l /\ (forall c, c ∈ F -> n <= c.2 -> l <= c.2) /\
    F' = if decide (l = n) then R else (o + n, l - n) :: R.

Section carve.
Context (F X : list (Z * Z)) (n o : Z) (F' : list (Z * Z)) (Hn : 0 < n) (HC : carve F n o F') (HS : space (F ++ X)).

Lemma carve_occ z : occ z (F ++ X) = (Nat.b2n (covers z (o, n)) + occ z (F' ++ X))%nat.
Proof using Type*.
  destruct HC as (l & R & HF & Hl & _ & ->). rewrite HF, !occ_app. case_decide as E; rewrite !occ_cons, !covers_spec; simpl; repeat case_decide; lia.
Qed.

Lemma carve_valid : 0 < o /\ o + n <= 2 ^ 63.
Proof using Type*.
  destruct HC as (l & R & HF & Hl & _ & _). destruct (space_elem (o, l) _ HS) as (? & ? & ?); simpl in *; [|lia].
  rewrite HF. simpl. apply list_elem_of_here.
Qed.

Lemma carve_space : space ((o, n) :: F' ++ X).
Proof using Type*.
  eapply space_same; [exact HS| |intros z; by rewrite occ_cons, carve_occ]. destruct carve_valid. destruct HS as [Hv _].
  destruct HC as (l & R & HF & Hl & _ & ->). rewrite HF in Hv. inversion_clear Hv as [|? ? (? & ? & ?) Hv']. simpl in *.
  constructor; [split_and!; done|]. case_decide as E; [done|]. simpl. constructor; [|done]. split_and!; simpl; lia.
Qed.

Lemma carve_coalesced : coalesced F -> coalesced F'.
Proof using Type*.
  intros Hc. destruct HC as (l & R & HF & Hl & _ & ->). pose proof HS as HS'. rewrite HF in Hc, HS'.
  assert (HR : coalesced R) by (intros a b Ha Hb; apply Hc; by right). case_decide as E; [done|].
  assert (Hd : forall a, a ∈ R -> disjoint_ext (o, l) a /\ valid a).
  { intros a Ha. split; [eapply space_disjoint_elem; [exact HS'|rewrite elem_of_app; auto]|].
    eapply space_elem; [exact HS'|]. simpl. right. rewrite elem_of_app. auto. }
  intros a b Ha Hb. apply elem_of_cons in Ha as [->|Ha]; apply elem_of_cons in Hb as [->|Hb]; simpl.
  - lia.
  - pose proof (Hc (o, l) b ltac:(left) ltac:(by right)) as Hx. simpl in Hx. lia.
  - destruct (Hd a Ha) as [Hx (? & ? & ?)]. unfold disjoint_ext in Hx. simpl in Hx. lia.
  - by apply HR.
Qed.

Lemma carve_big k : big F (n + k) -> 0 < k -> big F' k.
Proof using Type*.
  intros (c & Hc & Hk) H0. destruct HC as (l & R & HF & Hl & Hmin & ->). rewrite HF in Hc. apply elem_of_cons in Hc as [->|Hc].
  - simpl in Hk. rewrite decide_False by lia. exists (o + n, l - n). split; [left|simpl; lia].
  - exists c. split; [|lia]. case_decide; [done|by right].
Qed.

Lemma carve_length : (length F' <= length F)%nat.
Proof using Type*. destruct HC as (l & R & HF & _ & _ & ->). rewrite HF. case_decide; simpl; lia. Qed.
End carve.

(** ** Merging a freed extent with its neighbours *)

Definition olist {A} (x : option A) : list A := match x with Some a => [a] | None => [] end.

Lemma space_two l a b : space l -> a ∈ l -> b ∈ l -> a = b \/ disjoint_ext a b.
Proof.
  intros Hs Ha Hb. apply elem_of_Permutation in Ha as [l' Hl]. rewrite Hl in Hs, Hb. apply elem_of_cons in Hb as [->|Hb]; [by left|right].
  by eapply space_disjoint_elem.
Qed.

(** [lm] is the chunk that ends where [e] starts, [gm] the one that starts where
    it ends, if there are such chunks. *)
Definition left_of (F : list (Z * Z)) (e : Z * Z) (lm : option (Z * Z)) : Prop :=
  match lm with Some c => (c ∈ F) /\ c.1 + c.2 = e.1 | None => forall c, c ∈ F -> c.1 + c.2 <> e.1 end.
Definition right_of (F : list (Z * Z)) (e : Z * Z) (gm : option (Z * Z)) : Prop :=
  match gm with Some c => (c ∈ F) /\ c.1 = e.1 + e.2 | None => forall c, c ∈ F -> c.1 <> e.1 + e.2 end.

Definition join (e : Z * Z) (lm gm : option (Z * Z)) : Z * Z :=
  (match lm with Some c => c.1 | None => e.1 end,
   match lm with Some c => e.2 + c.2 | None => e.2 end + match gm with Some c => c.2 | None => 0 end).

Section join.
Context (F X : list (Z * Z)) (e : Z * Z) (lm gm : option (Z * Z)) (HS : space (e :: F ++ X)) (HL : left_of F e lm) (HG : right_of F e gm).

Lemma join_split : exists R, F ≡ₚ olist lm ++ olist gm ++ R.
Proof using Type*.
  destruct (space_elem e _ HS (list_elem_of_here _ _)) as (? & ? & ?).
  destruct lm as [c|]; simpl in *; [|destruct gm as [d|]; simpl in *; [|by exists F]; destruct HG as [Hd _]; by apply elem_of_Permutation in Hd].
  destruct HL as [Hc He]. apply elem_of_Permutation in Hc as [R HR]. destruct gm as [d|]; simpl in *; [|by exists R].
  destruct HG as [Hd Hde]. rewrite HR in Hd. apply elem_of_cons in Hd as [->|Hd].
  - destruct (space_elem c _ HS) as (? & ? & ?); [rewrite HR; simpl; right; left|lia].
  - apply elem_of_Permutation in Hd as [R' HR']. exists R'. by rewrite HR, HR'.
Qed.

Context (R : list (Z * Z)) (HR : F ≡ₚ olist lm ++ olist gm ++ R).
Let F' := join e lm gm :: R.

Lemma join_occ z : occ z (F' ++ X) = occ z (e :: F ++ X).
Proof using Type*.
  unfold F'. pose proof HS as [Hv _]. rewrite HR in Hv |- *. rewrite !app_comm_cons, !occ_app, !occ_cons.
  destruct lm as [c|], gm as [d|]; simpl in *; rewrite ?occ_cons, !covers_spec; simpl;
    repeat match goal with H : Forall valid (_ :: _) |- _ => inversion_clear H end; unfold valid in *; repeat case_decide; lia.
Qed.

Lemma join_space : space (F' ++ X).
Proof using Type*.
  eapply space_same; [exact HS| |apply join_occ]. unfold F'. pose proof HS as [Hv _]. rewrite HR in Hv.
  destruct lm as [c|], gm as [d|]; simpl in *; repeat match goal with H : Forall valid (_ :: _) |- _ => inversion_clear H end;
    (constructor; [|done]); unfold valid in *; simpl in *; lia.
Qed.

Lemma join_coalesced : coalesced F -> coalesced F'.
Proof using Type*.
  intros Hc. assert (HRF : forall a, a ∈ R -> a ∈ F) by (intros a Ha; rewrite HR, !elem_of_app; auto).
  pose proof (space_elem e _ HS (list_elem_of_here _ _)) as (? & ? & ?).
  assert (Hv : valid (join e lm gm)) by (pose proof join_space as [Hv _]; by inversion_clear Hv). destruct Hv as (? & ? & ?).
  intros a b Ha Hb. apply elem_of_cons in Ha as [->|Ha]; apply elem_of_cons in Hb as [->|Hb]; [lia| | |by apply Hc; auto].
  - destruct gm as [d|]; simpl in HG.
    + destruct HG as [Hd Hde]. specialize (Hc d b Hd (HRF b Hb)). destruct lm as [c|]; simpl in *; lia.
    + specialize (HG b (HRF b Hb)). destruct lm as [c|]; simpl in *; lia.
  - destruct lm as [c|]; simpl in HL |- *; [|by apply HL, HRF]. apply Hc; [auto|apply HL].
Qed.

Lemma join_big k : big F k -> big F' k.
Proof using Type*.
  intros (c & Hc & Hk). pose proof HS as [Hv _]. rewrite HR in Hc, Hv. unfold F', big.
  destruct lm as [a|], gm as [d|]; simpl in *; repeat match goal with H : Forall valid (_ :: _) |- _ => inversion_clear H end; unfold valid in *;
    repeat (apply elem_of_cons in Hc as [->|Hc]); first [by exists c; split; [right|] | eexists; split; [left|simpl; lia]].
Qed.

Lemma join_length : (length F' <= S (length F))%nat.
Proof using Type*. unfold F'. rewrite HR, !length_app. simpl. lia. Qed.
End join.

(** ** What the free list owns *)

(** Chunks, blocks and pending extents. *)
Definition owned (F : list (Z * Z)) (M : list Z) (P : list (Z * Z)) : list (Z * Z) := F ++ blocks M ++ P.
