(* ===== verification/FreelistInv.v ===== *)
(** * The invariant of the free list

    The extents that the free list owns are the free chunks, the blocks of the
    nodes of its two trees, the blocks buffered by the node manager, and the
    extents that are to be freed at the next commit.  Each operation keeps them
    apart, and what it covers before and after is what the caller gets or gives.
    As long as there are few chunks no operation panics. *)

From stdpp Require Import sorting list_numbers.
From S2P Require Import Prelude Dstack Log BTree BTreeRep BTreeSearch Index Freelist FreelistSpace.
From stdpp Require Import options.

Set Default Goal Selector "!".

(** ** The node manager *)

Record frm_ok (f : frm) : Prop := {
  fk_use : length (to_use f) = FRM_BUF_SIZE;
  fk_free : length (to_free f) = FRM_BUF_SIZE;
  fk_n_use : (n_use f <= FRM_BUF_SIZE)%nat;
  fk_n_free : (n_free f <= FRM_BUF_SIZE)%nat;
}.

(** The blocks it holds. *)
Definition frm_blocks (f : frm) : list Z := take (n_use f) (to_use f) ++ take (n_free f) (to_free f).

Lemma length_frm_blocks f : frm_ok f -> length (frm_blocks f) = (n_use f + n_free f)%nat.
Proof. intros [H1 H2 H3 H4]. unfold frm_blocks. rewrite length_app, !length_take. lia. Qed.

Lemma take_insert_end (l : list Z) i x : (i < length l)%nat -> take (S i) (<[i := x]> l) = take i l ++ [x].
Proof.
  intros Hi. rewrite (take_S_r _ _ x) by (by apply list_lookup_insert_eq). by rewrite take_insert_ge.
Qed.

Lemma put_use_ok o f :
  frm_ok f -> (n_use f < FRM_BUF_SIZE)%nat ->
  exists f', put_use o f = Ok f' /\ frm_ok f' /\ frm_blocks f' ≡ₚ o :: frm_blocks f /\ n_use f' = S (n_use f) /\ n_free f' = n_free f /\
    service f' = service f /\ servicing f' = servicing f.
Proof.
  intros [H1 H2 H3 H4] Hn. unfold put_use. rewrite arr_set_ok by lia. simpl. eexists. split; [done|]. split_and!; [| |done..].
  - split; simpl; [by rewrite length_insert|done|lia|done].
  - unfold frm_blocks. simpl. rewrite take_insert_end by lia. rewrite <- (assoc_L app). simpl. by rewrite Permutation_middle.
Qed.

Lemma put_use_full o f : frm_ok f -> (FRM_BUF_SIZE <= n_use f)%nat -> put_use o f = Panic.
Proof.
  intros [H1 _ _ _] Hn. unfold put_use, arr_set. by rewrite (proj2 (Nat.ltb_ge _ _)) by lia.
Qed.

Lemma frm_new_ok f n :
  frm_ok f -> n_use f = S n ->
  exists o f', frm_new f = Ok (o, f') /\ frm_pool f = o :: frm_pool f' /\ frm_ok f' /\ n_use f' = n /\ n_free f' = n_free f /\
    take (n_free f) (to_free f') = take (n_free f) (to_free f) /\ servicing f' = servicing f /\
    ((FRM_BUF_SIZE / 2 <= n)%nat -> service f' = service f).
Proof.
  intros [H1 H2 H3 H4] Hn. unfold frm_new. rewrite Hn. destruct (lookup_lt_is_Some_2 (to_use f) n) as [o Ho]; [lia|].
  rewrite (res_nth_lookup _ _ _ Ho). cbn [res_bind]. rewrite arr_set_ok by lia. simpl. eexists o, _. split; [done|].
  split_and!; [| |done..|].
  - unfold frm_pool. simpl. rewrite Hn, take_insert_ge by lia. by rewrite (take_S_r _ _ o), rev_app_distr.
  - split; simpl; [by rewrite length_insert|done|lia|done].
  - simpl. intros Hle. rewrite (proj2 (Nat.ltb_ge _ _)) by done. by rewrite orb_false_r.
Qed.

(** [n] calls of [frm_new]. *)
Lemma frm_news_ok n f :
  frm_ok f -> (n <= n_use f)%nat ->
  exists f', frm_news n f = Ok f' /\ frm_ok f' /\ frm_pool f' = drop n (frm_pool f) /\ (n_use f' + n = n_use f)%nat /\
    n_free f' = n_free f /\ take (n_free f) (to_free f') = take (n_free f) (to_free f) /\ servicing f' = servicing f /\
    ((FRM_BUF_SIZE / 2 <= n_use f')%nat -> service f' = service f).
Proof.
  revert f. induction n as [|n IH]; intros f Hf Hn; [exists f; split_and!; first [done|lia]|].
  assert (exists m, n_use f = S m) as [m Em] by (exists (n_use f - 1)%nat; lia).
  destruct (frm_new_ok f m Hf Em) as (o & f1 & E1 & Hp & Hf1 & Hu & Hfr & Ht & Hs & Hsv).
  destruct (IH f1 Hf1) as (f' & E & Hok & Hp' & Hu' & Hfr' & Ht' & Hs' & Hsv'); [lia|].
  exists f'. simpl. rewrite E1. cbn [res_bind snd]. rewrite Hp. split_and!; [done|done|done|lia|congruence| |congruence|].
  - rewrite <- Hfr, Ht', Hfr. exact Ht.
  - intros Hle. rewrite Hsv' by done. apply Hsv. etrans; [exact Hle|lia].
Qed.

(** A run of calls of [frm_free]: it panics only when the buffers overflow. *)
Lemma frm_frees_ok l f :
  frm_ok f ->
  match frm_frees l f with
  | Ok f' => frm_ok f' /\ frm_blocks f' ≡ₚ l ++ frm_blocks f /\ servicing f' = servicing f /\
      ((n_use f + length l <= FRM_BUF_SIZE)%nat -> n_use f' = (n_use f + length l)%nat /\ n_free f' = n_free f /\ service f' = service f)
  | Err _ => False
  | Panic => (FRM_BUF_SIZE < n_use f + length l)%nat
  end.
Proof.
  revert f. induction l as [|o l IH]; intros f Hf; simpl; [split_and!; [done..|intros; split_and!; [lia|done..]]|].
  unfold frm_free. pose proof (fk_n_free _ Hf). rewrite (proj2 (Nat.ltb_ge _ _)) by done. destruct (Nat.ltb_spec (n_use f) FRM_BUF_SIZE) as [Hlt|Hge].
  - destruct (put_use_ok o f Hf Hlt) as (f1 & -> & Hf1 & Hb1 & Hu1 & Hn1 & Hs1 & Hg1). cbn [res_bind]. specialize (IH f1 Hf1).
    destruct (frm_frees l f1) as [f'| |]; [|done|lia]. destruct IH as (Hok & Hb & Hg & Hsm). split_and!; [done| |by rewrite Hg|].
    + rewrite Hb, Hb1. by rewrite <- Permutation_middle.
    + intros Hle. destruct Hsm as (? & ? & ?); [lia|]. split_and!; [lia|congruence..].
  - destruct (arr_set (to_free f) (n_free f) o) as [fr| |] eqn:E; cbn [res_bind]; unfold arr_set in E; [|destr; done|lia].
    destruct (Nat.ltb_spec (n_free f) (length (to_free f))); [|done]. injection E as <-. destruct Hf as [H1 H2 H3 H4].
    set (f1 := mkFrm _ _ _ _ _ _). assert (Hf1 : frm_ok f1) by (split; simpl; [done|by rewrite length_insert|done|lia]).
    specialize (IH f1 Hf1). destruct (frm_frees l f1) as [f'| |]; [|done|simpl in IH; lia]. destruct IH as (Hok & Hb & Hg & Hsm).
    split_and!; [done| |done|lia]. rewrite Hb. unfold frm_blocks. subst f1. simpl. rewrite take_insert_end by lia.
    by rewrite !app_assoc, <- Permutation_cons_append.
Qed.

Lemma frm_blocks_pool f : frm_blocks f ≡ₚ frm_pool f ++ take (n_free f) (to_free f).
Proof. unfold frm_blocks, frm_pool. by rewrite <- (Permutation_rev (take (n_use f) (to_use f))). Qed.

Lemma length_frm_pool f : frm_ok f -> length (frm_pool f) = n_use f.
Proof. intros [H1 _ H3 _]. unfold frm_pool. rewrite length_rev, length_take. lia. Qed.

(** ** One operation of one of the trees

    The blocks of its nodes, those of the other tree ([R]) and those of the node
    manager stay the same together ([M]). *)

Section tree.
Context {T : Type} `{Index T}.
Context (sk : nat) (x : T) (m : list kv) (N : gset Z) (R M : list Z) (f : frm) (k : key) (v : value).
Context (HM : elements N ++ R ++ frm_blocks f ≡ₚ M) (Hnd : NoDup M) (Hz : 0 ∉ M) (Hf : frm_ok f).

Lemma pool_fresh : NoDup (frm_pool f) /\ forall p, p ∈ frm_pool f -> p <> 0 /\ (p ∉ N).
Proof using Type*.
  rewrite frm_blocks_pool in HM. rewrite <- HM in Hnd, Hz. apply list.NoDup_app in Hnd as (_ & Hd & Hr).
  apply list.NoDup_app in Hr as (_ & _ & Hr). apply list.NoDup_app in Hr as (Hp & _ & _). split; [done|]. intros p Hin. split.
  - intros ->. apply Hz. rewrite !elem_of_app. auto.
  - intros HN. apply (Hd p); [by apply elem_of_elements|]. rewrite !elem_of_app. auto.
Qed.

Lemma tree_insert :
  ix_rep sk 1 x m N -> length k = sk -> length v = 1%nat -> k ∉ m.*1 -> Z.of_nat (length m) + 1 < 2 ^ 64 ->
  (exists x' pool' f' N', ix_insert k v x (frm_pool f) = (Ok tt, x', pool') /\
     frm_news (length (frm_pool f) - length pool') f = Ok f' /\ ix_rep sk 1 x' ((k, v) :: m) N' /\ ix_cap x' = ix_cap x /\
     elements N' ++ R ++ frm_blocks f' ≡ₚ M /\ frm_ok f' /\ n_free f' = n_free f /\ servicing f' = servicing f /\
     ((FRM_BUF_SIZE / 2 <= n_use f')%nat -> service f' = service f)) \/
  ((n_use f <= ix_room x)%nat /\ exists x' pool' f', ix_insert k v x (frm_pool f) = (Panic, x', pool') /\
     frm_news (length (frm_pool f) - length pool') f = Ok f').
Proof using Type*.
  intros Hr Hk Hv Hno Hl. destruct pool_fresh as [Hpn Hpf]. pose proof (length_frm_pool f Hf) as Hlp.
  destruct (ix_insert_new sk 1 x m N k v (frm_pool f)) as [(x' & used & pool' & E & Hp & Hr' & Hc)|(Hle & x' & pool' & E)]; try done.
  - left. destruct (frm_news_ok (length (frm_pool f) - length pool') f Hf) as (f' & En & Hf' & Hp' & Hu & Hn & Ht & Hs & Hsv).
    { lia. }
    exists x', pool', f', (N ∪ list_to_set used). split_and!; [done..| |done|done|done|done].
    assert (Hd : drop (length (frm_pool f) - length pool') (frm_pool f) = pool').
    { rewrite Hp, length_app. replace (length used + length pool' - length pool')%nat with (length used) by lia. by rewrite drop_app_length. }
    rewrite frm_blocks_pool, Hp', Hd, Hn, Ht. rewrite <- HM, frm_blocks_pool, Hp.
    rewrite Hp in Hpn, Hpf. apply list.NoDup_app in Hpn as (Hun & _ & _).
    rewrite elements_disj_union by (intros p Hin Hin'%elem_of_list_to_set; by apply (Hpf p); [rewrite elem_of_app; left|]).
    rewrite elements_list_to_set by done. solve_Permutation.
  - right. rewrite Hlp in Hle. split; [done|]. destruct (frm_news_ok (length (frm_pool f) - length pool') f Hf) as (f' & En & _); [lia|]. eauto 6.
Qed.

Lemma tree_delete :
  ix_rep sk 1 x ((k, v) :: m) N ->
  exists x' back, ix_delete k x = (Ok tt, x', back) /\
  match frm_frees back f with
  | Ok f' => exists N', ix_rep sk 1 x' m N' /\ ix_cap x' = ix_cap x /\ elements N' ++ R ++ frm_blocks f' ≡ₚ M /\ frm_ok f' /\
      servicing f' = servicing f /\ ((length M <= FRM_BUF_SIZE)%nat -> n_free f' = n_free f /\ service f' = service f)
  | Err _ => False
  | Panic => (FRM_BUF_SIZE < length M)%nat
  end.
Proof using Type*.
  intros Hr. destruct (ix_delete_old sk 1 x m N k v Hr) as (x' & back & N' & E & Hr' & Hc & -> & Hd & Hbn). exists x', back. split; [done|].
  rewrite elements_disj_union, (elements_list_to_set back) in HM by done.
  assert (Hlm : (n_use f + length back <= length M)%nat).
  { rewrite <- HM, !length_app, length_frm_blocks by done. lia. }
  pose proof (frm_frees_ok back f Hf) as Hff. destruct (frm_frees back f) as [f'| |]; [|done|lia].
  destruct Hff as (Hok & Hb & Hs & Hsm). exists N'. split_and!; [done..| |done|done|].
  - rewrite Hb, <- HM. solve_Permutation.
  - intros Hle. destruct Hsm as (_ & ? & ?); [lia|done].
Qed.
End tree.

(** ** The state between the steps of an operation *)

(** The entry of a chunk in each tree. *)
Definition entry (id : btree_id) (c : Z * Z) : kv :=
  match id with BTREE_FCHUNK => ([c.2; c.1], [c.1]) | BTREE_FOFFSET => ([c.1], [c.2]) end.
Definition ksize (id : btree_id) : nat := match id with BTREE_FCHUNK => 2 | BTREE_FOFFSET => 1 end.

(** The words of the pending extents on their stack. *)
Fixpoint later_words (P : list (Z * Z)) : list Z :=
  match P with [] => [] | e :: P => e.2 :: e.1 :: later_words P end.

Lemma entry_inj id c c' : (entry id c).1 = (entry id c').1 -> c.1 = c'.1.
Proof. destruct id; simpl; congruence. Qed.

Lemma entry_keys id c F : c.1 ∉ F.*1 -> (entry id c).1 ∉ (entry id <$> F).*1.
Proof.
  intros Hno Hin. apply Hno. rewrite <- list_fmap_compose in Hin. apply list_elem_of_fmap in Hin as (c' & Hc & Hin).
  rewrite (entry_inj id c c' Hc). by apply list_elem_of_fmap_2.
Qed.

Section proofs.
Context {T : Type} `{Index T}.

(** [calm] is the case in which no operation panics: ten blocks in all and fewer
    chunks than [cap]. *)
Context (calm : Prop) (cap : nat).

(** [mid s F1 F2 M P b]: the trees hold the chunks [F1] and [F2], their nodes and
    the node manager use the blocks [M], [P] is pending, and [b] tells whether a
    round of service is on. *)
Record mid (s : fstate T) (F1 F2 : list (Z * Z)) (M : list Z) (P : list (Z * Z)) (b : bool) : Prop := {
  md_trees : exists N1 N2,
    ix_rep 2 1 (fs_chunk s) (entry BTREE_FCHUNK <$> F1) N1 /\ ix_rep 1 1 (fs_offset s) (entry BTREE_FOFFSET <$> F2) N2 /\
    elements N1 ++ elements N2 ++ frm_blocks (fs_frm s) ≡ₚ M;
  md_nodup : NoDup M;
  md_zero : 0 ∉ M;
  md_frm : frm_ok (fs_frm s);
  md_servicing : servicing (fs_frm s) = b;
  md_cap : (cap <= ix_cap (fs_chunk s))%nat /\ (cap <= ix_cap (fs_offset s))%nat;
  md_later : dstack_ok (free_later s) /\ contents (free_later s) = later_words P;
  md_pages : Forall (fun p => length p = DSTACK_BUF_SIZE) (fs_pages s);
  md_calm : calm -> service (fs_frm s) = false /\ n_free (fs_frm s) = 0%nat /\ length M = FRM_BUF_SIZE /\
    (length F1 < cap)%nat /\ (length F2 < cap)%nat;
}.

(** An outcome: [Q] of a result, [E] of an error code; no panic in the calm case. *)
Definition wp {A} (m : FM A) (Q : A -> fstate T -> Prop) (E : Z -> fstate T -> Prop) (s : fstate T) : Prop :=
  match m s with
  | (Ok a, s') => Q a s'
  | (Err e, s') => E e s'
  | (Panic, _) => ~ calm
  end.

Lemma wp_bind {A B} (m : FM A) (f : A -> FM B) Q E s : wp m (fun a s' => wp (f a) Q E s') E s -> wp (m ≫= f) Q E s.
Proof. unfold wp, mbind, FM_bind. by destruct (m s) as [[]]. Qed.

Lemma wp_mono {A} (m : FM A) (Q Q' : A -> fstate T -> Prop) E s : wp m Q E s -> (forall a s', Q a s' -> Q' a s') -> wp m Q' E s.
Proof. unfold wp. destruct (m s) as [[] ?]; auto. Qed.

(** Rearranges a sequence. *)
Lemma wp_assoc {A} (m1 m2 : FM unit) (m : FM A) Q E s : wp ((m1;; m2);; m) Q E s -> wp (m1;; m2;; m) Q E s.
Proof. unfold wp, mbind, FM_bind. by destruct (m1 s) as [[]]. Qed.

Lemma wp_ret {A} (a : A) (Q : A -> fstate T -> Prop) E s : Q a s -> wp (mret a) Q E s.
Proof. done. Qed.

Lemma wp_run {A} (m : FM A) (a : A) (Q : A -> fstate T -> Prop) E s s' : m s = (Ok a, s') -> Q a s' -> wp m Q E s.
Proof. unfold wp. by intros ->. Qed.

Definition ins_at_id (id id' : btree_id) (c : Z * Z) (F : list (Z * Z)) : list (Z * Z) :=
  match id, id' with BTREE_FCHUNK, BTREE_FCHUNK | BTREE_FOFFSET, BTREE_FOFFSET => c :: F | _, _ => F end.

Abbreviation at1 id c F := (ins_at_id id BTREE_FCHUNK c F).
Abbreviation at2 id c F := (ins_at_id id BTREE_FOFFSET c F).

(** With few chunks each tree is at most one node. *)
Lemma calm_sizes x1 x2 F1 F2 N1 N2 :
  ix_rep 2 1 x1 (entry BTREE_FCHUNK <$> F1) N1 -> ix_rep 1 1 x2 (entry BTREE_FOFFSET <$> F2) N2 ->
  (length F1 < ix_cap x1)%nat -> (length F2 < ix_cap x2)%nat ->
  (size N1 <= 1)%nat /\ (size N2 <= 1)%nat /\ (ix_room x1 <= 1)%nat /\ (ix_room x2 <= 1)%nat.
Proof.
  intros H1 H2 L1 L2. destruct (ix_small _ _ _ _ _ H1) as [R1 S1]; [by rewrite length_fmap|].
  destruct (ix_small _ _ _ _ _ H2) as [R2 S2]; [by rewrite length_fmap|]. repeat case_decide; lia.
Qed.

Lemma calm_n_use x1 x2 F1 F2 N1 N2 f M :
  ix_rep 2 1 x1 (entry BTREE_FCHUNK <$> F1) N1 -> ix_rep 1 1 x2 (entry BTREE_FOFFSET <$> F2) N2 ->
  (length F1 < ix_cap x1)%nat -> (length F2 < ix_cap x2)%nat ->
  elements N1 ++ elements N2 ++ frm_blocks f ≡ₚ M -> frm_ok f -> n_free f = 0%nat -> length M = FRM_BUF_SIZE ->
  (8 <= n_use f)%nat /\ (ix_room x1 <= 1)%nat /\ (ix_room x2 <= 1)%nat.
Proof.
  intros H1 H2 L1 L2 HM Hf Hn Hl. destruct (calm_sizes _ _ _ _ _ _ H1 H2 L1 L2) as (S1 & S2 & R1 & R2). split; [|done].
  apply Permutation_length in HM. rewrite !length_app, length_frm_blocks, Hn, Hl in HM by done.
  unfold size, set_size in S1, S2. simpl in S1, S2. unfold FRM_BUF_SIZE in HM. lia.
Qed.

(** The state after an operation of a tree. *)
Lemma mid_set id x' f' s F1 F2 F1' F2' M P b N1 N2 :
  mid s F1 F2 M P b -> let s' := set_ix id x' f' s in
  ix_rep 2 1 (fs_chunk s') (entry BTREE_FCHUNK <$> F1') N1 -> ix_rep 1 1 (fs_offset s') (entry BTREE_FOFFSET <$> F2') N2 ->
  elements N1 ++ elements N2 ++ frm_blocks f' ≡ₚ M -> frm_ok f' -> servicing f' = servicing (fs_frm s) -> ix_cap x' = ix_cap (get_ix id s) ->
  (calm -> (length F1' < cap)%nat /\ (length F2' < cap)%nat) ->
  (calm -> n_free f' = n_free (fs_frm s) /\ ((FRM_BUF_SIZE / 2 <= n_use f')%nat -> service f' = service (fs_frm s))) ->
  mid s' F1' F2' M P b.
Proof.
  intros [HT Hnd Hz Hf Hs [C1 C2] Hl Hp Hc] s' H1 H2 HM Hf' Hs' Hx HL Hcalm. assert (fs_frm s' = f') as Ef by (by destruct id).
  assert (HC : (cap <= ix_cap (fs_chunk s'))%nat /\ (cap <= ix_cap (fs_offset s'))%nat) by (destruct id; simpl in *; lia).
  split; rewrite ?Ef; [by exists N1, N2|done..|by rewrite Hs'|done|by destruct id|by destruct id|].
  intros Hk. destruct (Hcalm Hk) as [Hn Hsv]. destruct (Hc Hk) as (Ev & En & Hlen & _). destruct (HL Hk) as [L1 L2]. rewrite Hn.
  destruct (calm_n_use _ _ _ _ _ _ f' M H1 H2) as (Hu & _); [lia|lia|done|done|by rewrite Hn|done|]. split_and!; [|done..].
  rewrite Hsv; [done|]. unfold FRM_BUF_SIZE. simpl. lia.
Qed.

(** The nodes of the tree of an operation come first. *)
Definition other (id : btree_id) (N1 N2 : gset Z) : gset Z := match id with BTREE_FCHUNK => N2 | BTREE_FOFFSET => N1 end.
Definition own (id : btree_id) (N1 N2 : gset Z) : gset Z := match id with BTREE_FCHUNK => N1 | BTREE_FOFFSET => N2 end.

Lemma own_other id (N1 N2 : gset Z) f : elements (own id N1 N2) ++ elements (other id N1 N2) ++ frm_blocks f ≡ₚ elements N1 ++ elements N2 ++ frm_blocks f.
Proof. destruct id; simpl; [done|solve_Permutation]. Qed.

Definition chunks_of (id : btree_id) (F1 F2 : list (Z * Z)) : list (Z * Z) := match id with BTREE_FCHUNK => F1 | BTREE_FOFFSET => F2 end.

Lemma mid_tree id s F1 F2 M P b N1 N2 :
  mid s F1 F2 M P b -> ix_rep 2 1 (fs_chunk s) (entry BTREE_FCHUNK <$> F1) N1 -> ix_rep 1 1 (fs_offset s) (entry BTREE_FOFFSET <$> F2) N2 ->
  ix_rep (ksize id) 1 (get_ix id s) (entry id <$> chunks_of id F1 F2) (own id N1 N2).
Proof. by destruct id. Qed.

Lemma btree_insert_ok id c s F1 F2 M P b E :
  mid s F1 F2 M P b -> c.1 ∉ (chunks_of id F1 F2).*1 -> Z.of_nat (length (chunks_of id F1 F2)) + 1 < 2 ^ 64 ->
  (calm -> (length (at1 id c F1) < cap)%nat /\ (length (at2 id c F2) < cap)%nat) ->
  wp (btree_insert id (entry id c).1 (entry id c).2) (fun _ s' => mid s' (at1 id c F1) (at2 id c F2) M P b) E s.
Proof.
  intros HI Hno HL Hcap. destruct (md_trees _ _ _ _ _ _ HI) as (N1 & N2 & H1 & H2 & HM).
  pose proof (mid_tree id _ _ _ _ _ _ _ _ HI H1 H2) as Hr. pose proof HM as HM0. rewrite <- (own_other id) in HM0.
  destruct (tree_insert (ksize id) (get_ix id s) (entry id <$> chunks_of id F1 F2) (own id N1 N2) (elements (other id N1 N2)) M (fs_frm s)
      (entry id c).1 (entry id c).2 HM0 (md_nodup _ _ _ _ _ _ HI) (md_zero _ _ _ _ _ _ HI) (md_frm _ _ _ _ _ _ HI) Hr)
      as [(x' & pool' & f' & N' & Ei & En & Hr' & Hc & HM' & Hf' & Hn & Hs & Hsv)|(Hle & x' & pool' & f' & Ei & En)];
    [by destruct id|by destruct id|by apply entry_keys|by rewrite length_fmap| |]; unfold wp, btree_insert; rewrite Ei, En.
  - destruct id; simpl in *.
    + by apply (mid_set BTREE_FCHUNK x' f' s F1 F2 (c :: F1) F2 M P b N' N2).
    + rewrite (Permutation_app_swap_app (elements N')) in HM'. by apply (mid_set BTREE_FOFFSET x' f' s F1 F2 F1 (c :: F2) M P b N1 N').
  - intros Hk. destruct (md_calm _ _ _ _ _ _ HI Hk) as (_ & Hn & Hm & L1 & L2). destruct (md_cap _ _ _ _ _ _ HI) as [C1 C2].
    destruct (calm_n_use _ _ _ _ _ _ (fs_frm s) M H1 H2) as (Hu & R1 & R2); [lia|lia|done|by apply HI|done|done|]. destruct id; simpl in *; lia.
Qed.

Lemma btree_delete_ok id c s F1 F2 M P b E :
  mid s (at1 id c F1) (at2 id c F2) M P b ->
  wp (btree_delete id (entry id c).1) (fun _ s' => mid s' F1 F2 M P b) E s.
Proof.
  intros HI. destruct (md_trees _ _ _ _ _ _ HI) as (N1 & N2 & H1 & H2 & HM).
  pose proof (mid_tree id _ _ _ _ _ _ _ _ HI H1 H2) as Hr. pose proof HM as HM0. rewrite <- (own_other id) in HM0.
  destruct (tree_delete (ksize id) (get_ix id s) (entry id <$> chunks_of id F1 F2) (own id N1 N2) (elements (other id N1 N2)) M (fs_frm s)
      (entry id c).1 (entry id c).2 HM0 (md_nodup _ _ _ _ _ _ HI) (md_zero _ _ _ _ _ _ HI) (md_frm _ _ _ _ _ _ HI)) as (x' & back & Ei & Hb); [by destruct id|].
  unfold wp, btree_delete. rewrite Ei. pose proof (md_calm _ _ _ _ _ _ HI) as Hcalm.
  destruct (frm_frees back (fs_frm s)) as [f'| |]; [|done|intros Hk; destruct (Hcalm Hk) as (_ & _ & ? & _); lia].
  destruct Hb as (N' & Hr' & Hc & HM' & Hf' & Hs & Hsm).
  assert (Hk : calm -> n_free f' = n_free (fs_frm s) /\ ((FRM_BUF_SIZE / 2 <= n_use f')%nat -> service f' = service (fs_frm s))).
  { intros Hk. destruct (Hcalm Hk) as (_ & _ & Hl & _). destruct Hsm; [lia|done]. }
  assert (HL : calm -> (length F1 < cap)%nat /\ (length F2 < cap)%nat).
  { intros Hk'. destruct (Hcalm Hk') as (_ & _ & _ & L1 & L2). destruct id; simpl in *; lia. }
  destruct id; simpl in *.
  - by apply (mid_set BTREE_FCHUNK x' f' s (c :: F1) F2 F1 F2 M P b N' N2).
  - rewrite (Permutation_app_swap_app (elements N')) in HM'. by apply (mid_set BTREE_FOFFSET x' f' s F1 (c :: F2) F1 F2 M P b N1 N').
Qed.

(** ** Allocation *)

(** The state at rest, [b] as in [mid]. *)
Definition rest (s : fstate T) (F : list (Z * Z)) (M : list Z) (P : list (Z * Z)) (b : bool) : Prop :=
  mid s F F M P b /\ space (F ++ blocks M ++ P) /\ coalesced F.

Lemma mid_perm s F1 F2 F1' F2' M P b : F1 ≡ₚ F1' -> F2 ≡ₚ F2' -> mid s F1 F2 M P b -> mid s F1' F2' M P b.
Proof.
  intros HP1 HP2 [(N1 & N2 & H1 & H2 & HM) Hnd Hz Hf Hs HC Hl Hp Hc]. split; try done.
  - exists N1, N2. split_and!; [| |done].
    + eapply (ix_perm 2 1); [|exact H1]. by rewrite HP1.
    + eapply (ix_perm 1 1); [|exact H2]. by rewrite HP2.
  - by rewrite <- HP1, <- HP2.
Qed.

Lemma wp_code {A} (m : FM A) r (Q : res A -> fstate T -> Prop) E s :
  m s = (r, s) -> r <> Panic -> Q r s -> wp (fcode m) Q E s.
Proof. intros Hm Hr HQ. unfold wp, fcode. rewrite Hm. by destruct r. Qed.

(** A chunk that is in the trees has left them. *)
Lemma remove_chunk_ok c s F M P b E :
  mid s (c :: F) (c :: F) M P b -> wp (remove_chunk c) (fun _ s' => mid s' F F M P b) E s.
Proof.
  intros HI. unfold remove_chunk. apply wp_bind. eapply wp_mono; [apply (btree_delete_ok BTREE_FOFFSET c s (c :: F) F); exact HI|].
  intros [] s1 H1. apply (btree_delete_ok BTREE_FCHUNK c s1 F F). exact H1.
Qed.

(** A new chunk enters both trees. *)
Lemma add_chunk_ok c s F M P b E :
  mid s F F M P b -> c.1 ∉ F.*1 -> Z.of_nat (length F) + 1 < 2 ^ 64 -> (calm -> (S (length F) < cap)%nat) ->
  wp (btree_insert BTREE_FOFFSET [c.1] [c.2];; btree_insert BTREE_FCHUNK [c.2; c.1] [c.1]) (fun _ s' => mid s' (c :: F) (c :: F) M P b) E s.
Proof.
  intros HI Hno HL Hcap. apply wp_bind. eapply wp_mono; [apply (btree_insert_ok BTREE_FOFFSET c s F F M P b); try done|].
  { intros Hk. simpl. split; [|by apply Hcap]. specialize (Hcap Hk). lia. }
  intros [] s1 H1. simpl in H1. eapply wp_mono; [apply (btree_insert_ok BTREE_FCHUNK c s1 F (c :: F) M P b); try done|done].
  intros Hk. simpl. split; by apply Hcap.
Qed.

Lemma ret_i64_ok o : 0 < o -> o < 2 ^ 63 -> ret_i64 o = Ok o.
Proof.
  intros H1 H2. assert (i64 o = o) as Ei.
  { unfold i64, u64. rewrite Z.mod_small by lia. by rewrite (proj2 (Z.ltb_lt _ _)). }
  unfold ret_i64. rewrite Ei. by rewrite (proj2 (Z.ltb_ge _ _)) by lia.
Qed.

(** The search for a chunk. *)
Lemma chunk_answer n F r :
  answer match_gtet [n; 0] (entry BTREE_FCHUNK <$> F) r -> Forall valid F ->
  match r with
  | Some e => exists o l, e = ([l; o], [o]) /\ ((o, l) ∈ F) /\ n <= l /\ forall c, c ∈ F -> n <= c.2 -> l <= c.2
  | None => forall c, c ∈ F -> c.2 < n
  end.
Proof.
  intros Ha Hv. assert (Hk : forall c, c ∈ F -> kle [n; 0] [c.2; c.1] <-> n <= c.2).
  { intros c Hc. rewrite list.Forall_forall in Hv. destruct (Hv c Hc) as (? & _ & _). unfold kle. simpl. rewrite !Z.gtb_ltb.
    destruct (Z.ltb_spec c.2 n), (Z.ltb_spec n c.2), (Z.ltb_spec c.1 0), (Z.ltb_spec 0 c.1); lia. }
  destruct r as [e|]; simpl in Ha.
  - destruct Ha as (He & Hm & Hmin). apply list_elem_of_fmap in He as ([o l] & -> & Hin). exists o, l. split_and!; [done|done|by apply (Hk (o, l))|].
    intros c Hc Hn. specialize (Hmin (entry BTREE_FCHUNK c)). simpl in Hmin. assert (Hle : kle [l; o] [c.2; c.1]).
    { apply Hmin; [by apply (list_elem_of_fmap_2 (entry BTREE_FCHUNK))|by apply Hk]. }
    unfold kle in Hle. simpl in Hle. rewrite Z.gtb_ltb in Hle. destruct (Z.ltb_spec c.2 l); lia.
  - intros c Hc. specialize (Ha _ (list_elem_of_fmap_2 (entry BTREE_FCHUNK) _ _ Hc)). simpl in Ha. rewrite (Hk c Hc) in Ha. lia.
Qed.

Lemma rest_carve s' F M P b n o F' :
  0 < n -> carve F n o F' -> space (F ++ blocks M ++ P) -> coalesced F -> mid s' F' F' M P b -> rest s' F' M P b.
Proof.
  intros Hn HC HS Hc HI. split; [done|]. split; [|by eapply (carve_coalesced F (blocks M ++ P) n o F')].
  destruct (space_app [(o, n)] (F' ++ blocks M ++ P)) as [_ ?]; [|done]. by apply (carve_space F _ n o F').
Qed.

Lemma alloc_ok svc n s F M P b (Q : Z -> fstate T -> Prop) :
  rest s F M P b -> 0 < n -> n < 2 ^ 64 ->
  (forall s' F' o, carve F n o F' -> rest s' F' M P b -> wp svc (fun _ s'' => Q o s'') (fun _ _ => False) s') ->
  wp (freelist_alloc_svc svc n) Q (fun e s' => e = E_NO_SPACE /\ s' = s /\ forall c, c ∈ F -> c.2 < n) s.
Proof.
  intros (HI & HS & Hco) Hn Hn' HQ. destruct (md_trees _ _ _ _ _ _ HI) as (N1 & N2 & H1 & H2 & HM).
  destruct (space_app _ _ HS) as [HF _]. destruct (ix_gtet_ok _ _ _ _ _ [n; 0] H1 eq_refl) as (r & Er & Ha).
  apply chunk_answer in Ha; [|apply HF]. unfold freelist_alloc_svc. apply wp_bind. eapply wp_code.
  { unfold btree_gtet. simpl. by rewrite Er. }
  { by destruct r. }
  destruct r as [e|]; [|done]. destruct Ha as (o & l & -> & Hin & Hle & Hmin).
  apply elem_of_Permutation in Hin as [R HR]. pose proof (mid_perm _ _ _ _ _ _ _ _ HR HR HI) as HI1.
  pose proof HS as HS1. rewrite HR in HS1. destruct (space_elem (o, l) _ HS1 (list_elem_of_here _ _)) as (Ho & Hl & Hol). simpl in *.
  pose proof (space_length _ HF) as HlF. pose proof (Permutation_length HR) as HlR. simpl in HlR.
  apply wp_bind. eapply wp_run; [done|]. apply wp_bind. eapply wp_run; [done|]. cbv beta zeta.
  apply wp_bind. eapply wp_mono; [apply (btree_delete_ok BTREE_FOFFSET (o, l) s ((o, l) :: R) R); exact HI1|]. intros [] s1 HI2.
  apply wp_bind. eapply wp_mono; [apply (btree_delete_ok BTREE_FCHUNK (o, l) s1 R R); exact HI2|]. intros [] s2 HI3.
  assert (u64 (l - n) = l - n) as -> by (apply Z.mod_small; lia). assert (u64 (o + n) = o + n) as -> by (apply Z.mod_small; lia).
  assert (Hend : forall s', (forall F', carve F n o F' -> mid s' F' F' M P b -> rest s' F' M P b)) by (intros s' F' ? ?; by apply (rest_carve s' F M P b n o F')).
  assert (Hsvc : forall s' F', carve F n o F' -> mid s' F' F' M P b -> wp (svc;; flift (ret_i64 o)) Q (fun e s' => e = E_NO_SPACE /\ s' = s /\ forall c, c ∈ F -> c.2 < n) s').
  { intros s' F' HC Hm. apply wp_bind. specialize (HQ s' F' o HC (Hend s' F' HC Hm)). unfold wp in HQ |- *.
    destruct (svc s') as [[[]| |] s'']; [|done|done]. unfold flift. rewrite ret_i64_ok by lia. done. }
  apply wp_bind. destruct (Z.eqb_spec (l - n) 0) as [E|E].
  - apply wp_ret, (Hsvc s2 R); [|done]. exists l, R. split_and!; [done..|]. by rewrite decide_True by lia.
  - assert (HC : carve F n o ((o + n, l - n) :: R)) by (exists l, R; split_and!; [done..|]; by rewrite decide_False by lia).
    eapply wp_mono; [apply (add_chunk_ok (o + n, l - n) s2 R M P b); try done|].
    + pose proof (carve_space F _ n o _ Hn HC HS) as Hs. apply (space_app [(o, n)]) in Hs as [_ Hs]. apply space_app, proj1, space_NoDup in Hs.
      by inversion_clear Hs.
    + lia.
    + intros Hk. destruct (md_calm _ _ _ _ _ _ HI Hk) as (_ & _ & _ & ? & _). lia.
    + intros [] s3 HI4. by apply (Hsvc s3 ((o + n, l - n) :: R)).
Qed.

(** ** Freeing *)

Lemma kle1 x y : kle [x] [y] <-> x <= y.
Proof. unfold kle. simpl. rewrite Z.gtb_ltb. destruct (Z.ltb_spec y x), (Z.ltb_spec x y); lia. Qed.

(** The two searches find the neighbours to merge with. *)
Lemma left_answer F X e r :
  space (e :: F ++ X) -> answer match_ltet [e.1 - 1] (entry BTREE_FOFFSET <$> F) r ->
  match r with
  | Some k => exists c, k = entry BTREE_FOFFSET c /\ (c ∈ F) /\ left_of F e (if decide (c.1 + c.2 = e.1) then Some c else None)
  | None => left_of F e None
  end.
Proof.
  intros HS Ha. destruct (space_app [e] (F ++ X) HS) as [_ HS']. destruct (space_app _ _ HS') as [HF _].
  destruct r as [k|]; simpl in Ha.
  - destruct Ha as (Hin & Hm & Hmax). apply list_elem_of_fmap in Hin as (c & -> & Hc). exists c. split_and!; [done..|].
    simpl in Hm. rewrite kle1 in Hm. case_decide as E; simpl; [done|]. intros c' Hc' Ec'.
    destruct (space_elem c' _ HF Hc') as (? & ? & ?). specialize (Hmax _ (list_elem_of_fmap_2 (entry BTREE_FOFFSET) _ _ Hc')). simpl in Hmax.
    rewrite !kle1 in Hmax. destruct (space_elem c _ HF Hc) as (? & ? & ?). assert (c'.1 <= c.1) by (apply Hmax; lia). destruct (space_two F c c' HF Hc Hc') as [->|[]]; [done|lia..].
  - intros c Hc Ec. destruct (space_elem c _ HF Hc) as (? & ? & ?).
    specialize (Ha _ (list_elem_of_fmap_2 (entry BTREE_FOFFSET) _ _ Hc)). simpl in Ha. rewrite kle1 in Ha. lia.
Qed.

Lemma right_answer F X e r :
  space (e :: F ++ X) -> answer match_gtet [e.1 + 1] (entry BTREE_FOFFSET <$> F) r ->
  match r with
  | Some k => exists c, k = entry BTREE_FOFFSET c /\ (c ∈ F) /\ right_of F e (if decide (e.1 + e.2 = c.1) then Some c else None)
  | None => right_of F e None
  end.
Proof.
  intros HS Ha. destruct (space_elem e _ HS (list_elem_of_here _ _)) as (? & ? & ?). destruct r as [k|]; simpl in Ha.
  - destruct Ha as (Hin & Hm & Hmin). apply list_elem_of_fmap in Hin as (c & -> & Hc). exists c. split_and!; [done..|].
    simpl in Hm. rewrite kle1 in Hm. case_decide as E; simpl; [done|]. intros c' Hc' Ec'.
    specialize (Hmin _ (list_elem_of_fmap_2 (entry BTREE_FOFFSET) _ _ Hc')). simpl in Hmin. rewrite !kle1 in Hmin.
    assert (Hd : disjoint_ext e c) by (eapply space_disjoint_elem; [exact HS|rewrite elem_of_app; auto]). unfold disjoint_ext in Hd.
    assert (Hv : valid c) by (eapply space_elem; [exact HS|right; rewrite elem_of_app; auto]). destruct Hv as (? & ? & ?). assert (c.1 <= c'.1) by (apply Hmin; lia). lia.
  - intros c Hc Ec. specialize (Ha _ (list_elem_of_fmap_2 (entry BTREE_FOFFSET) _ _ Hc)). simpl in Ha. rewrite kle1 in Ha. lia.
Qed.

Lemma wp_found {A} (m : FM (key * value)) oc (k : option (Z * Z) -> FM A) Q E s :
  m s = (match oc with Some c => Ok (entry BTREE_FOFFSET c) | None => Err E_NOT_FOUND end, s) -> wp (k oc) Q E s ->
  wp (r ← fcode m; l ← neighbour r; k l) Q E s.
Proof.
  intros Hm HQ. apply wp_bind. eapply wp_code; [exact Hm|by destruct oc|]. apply wp_bind. destruct oc as [[o n]|]; exact HQ.
Qed.

(** A chunk found next to the freed extent, and whether it is merged. *)
Lemma merge_test (oc : option (Z * Z)) (f y : Z -> Z -> Z) :
  (forall c, oc = Some c -> u64 (f c.1 c.2) = f c.1 c.2) ->
  match oc with Some (o, n) => if u64 (f o n) =? y o n then Some (o, n) else None | None => None end =
  match oc with Some c => if decide (f c.1 c.2 = y c.1 c.2) then Some c else None | None => None end.
Proof.
  intros Hoc. destruct oc as [[o n]|]; [|done]. specialize (Hoc (o, n) eq_refl). simpl in Hoc. rewrite Hoc. simpl.
  destruct (Z.eqb_spec (f o n) (y o n)); by case_decide.
Qed.

(** The neighbours leave the trees and the merged chunk enters them. *)
Lemma merge_ok fuel e lm gm s F M P b (Q : fstate T -> Prop) E :
  mid s F F M P b -> space (e :: F ++ blocks M ++ P) -> coalesced F -> (calm -> (S (length F) < cap)%nat) ->
  (forall s' F', rest s' F' M P b -> (forall z, occ z (F' ++ blocks M ++ P) = occ z (e :: F ++ blocks M ++ P)) ->
     (forall k, big F k -> big F' k) -> (length F' <= S (length F))%nat -> wp (frm_service fuel) (fun _ => Q) E s') ->
  left_of F e lm -> right_of F e gm ->
  wp (m ← match lm with Some c => remove_chunk c;; mret (c.1, u64 (e.2 + c.2)) | None => mret (e.1, e.2) end;
      m ← match gm with Some c => remove_chunk c;; mret (m.1, u64 (m.2 + c.2)) | None => mret m end;
      btree_insert BTREE_FOFFSET [m.1] [m.2];; btree_insert BTREE_FCHUNK [m.2; m.1] [m.1];; frm_service fuel) (fun _ => Q) E s.
Proof.
  intros HI HS Hco Hcap HQ HL HG. destruct (join_split F _ e lm gm HS HL HG) as [R HR].
  pose proof (join_space F _ e lm gm HS HL HG R HR) as HS'. pose proof (Permutation_length HR) as Hlen. rewrite !length_app in Hlen.
  destruct (space_app [e] _ HS) as [_ HF]. apply space_app, proj1, space_length in HF.
  destruct (space_elem e _ HS (list_elem_of_here _ _)) as (? & ? & ?).
  assert (Hvs : Forall valid (olist lm ++ olist gm)).
  { destruct HS as [Hv _]. rewrite HR in Hv. inversion_clear Hv as [|? ? _ Hv']. rewrite <- app_assoc, list.Forall_app in Hv'. destruct Hv' as [Hv1 Hv2].
    rewrite <- app_assoc, list.Forall_app in Hv2. apply list.Forall_app. split; [done|apply Hv2]. }
  assert (Hjv : valid (join e lm gm)) by (destruct HS' as [Hv _]; by inversion_clear Hv).
  apply wp_bind. apply (wp_mono _ (fun m s' => mid s' (olist gm ++ R) (olist gm ++ R) M P b /\
    m = (match lm with Some c => c.1 | None => e.1 end, match lm with Some c => u64 (e.2 + c.2) | None => e.2 end))).
  { destruct lm as [c|]; simpl in *; [apply wp_bind; eapply wp_mono; [apply (remove_chunk_ok c _ (olist gm ++ R)); by eapply mid_perm|]; by intros [] s1 ?|].
    apply wp_ret. split; [by eapply mid_perm|]. by destruct e. }
  intros m s1 [HI1 ->]. apply wp_bind. apply (wp_mono _ (fun m s' => mid s' R R M P b /\ m = join e lm gm)).
  { assert (Hx : (match lm with Some c => c.1 | None => e.1 end, match lm with Some c => u64 (e.2 + c.2) | None => e.2 end) = join e lm None).
    { unfold join. f_equal. destruct lm as [c|]; [|lia]. rewrite Z.add_0_r. apply Z.mod_small. unfold valid, join in *.
      destruct gm; simpl in *; repeat match goal with H : Forall _ (_ :: _) |- _ => inversion_clear H end; lia. }
    rewrite Hx. destruct gm as [d|]; simpl in HI1; [|by apply wp_ret].
    apply wp_bind. eapply wp_mono; [by apply remove_chunk_ok|]. intros [] s2 HI2. apply wp_ret. split; [done|]. unfold join in *. simpl in *. f_equal.
    rewrite Z.add_0_r. apply Z.mod_small. unfold valid in *.
    destruct lm; simpl in *; repeat match goal with H : Forall _ (_ :: _) |- _ => inversion_clear H end; lia. }
  intros m2 s2 [HI2 ->]. eapply wp_assoc, wp_bind, wp_mono; [apply (add_chunk_ok (join e lm gm) s2 R M P b); [done|..]|].
  - apply space_app, proj1, space_NoDup in HS'. by inversion_clear HS'.
  - lia.
  - intros Hk. specialize (Hcap Hk). lia.
  - intros [] s3 HI3. apply (HQ s3 (join e lm gm :: R)).
    + split; [done|]. split; [done|by eapply join_coalesced].
    + by apply (join_occ F _ e lm gm).
    + by eapply join_big.
    + by eapply join_length.
Qed.

Lemma free_ok fuel e s F M P b (Q : fstate T -> Prop) E :
  mid s F F M P b -> space (e :: F ++ blocks M ++ P) -> coalesced F -> (calm -> (S (length F) < cap)%nat) ->
  (forall s' F', rest s' F' M P b -> (forall z, occ z (F' ++ blocks M ++ P) = occ z (e :: F ++ blocks M ++ P)) ->
     (forall k, big F k -> big F' k) -> (length F' <= S (length F))%nat -> wp (frm_service fuel) (fun _ => Q) E s') ->
  wp (freelist_free fuel e.1 e.2) (fun _ => Q) E s.
Proof.
  intros HI HS Hco Hcap HQ. destruct (md_trees _ _ _ _ _ _ HI) as (N1 & N2 & H1 & H2 & HM).
  destruct (space_elem e _ HS (list_elem_of_here _ _)) as (He1 & He2 & He3). unfold freelist_free.
  assert (HvF : forall c, c ∈ F -> valid c) by (intros c Hc; eapply space_elem; [exact HS|]; right; rewrite elem_of_app; auto).
  assert (u64 (e.1 - 1) = e.1 - 1) as -> by (apply Z.mod_small; lia). assert (u64 (e.1 + 1) = e.1 + 1) as -> by (apply Z.mod_small; lia).
  destruct (ix_ltet_ok _ _ _ _ _ [e.1 - 1] H2 eq_refl) as (rl & El & Hl). apply (left_answer F (blocks M ++ P) e rl HS) in Hl.
  destruct (ix_gtet_ok _ _ _ _ _ [e.1 + 1] H2 eq_refl) as (rg & Eg & Hg). apply (right_answer F (blocks M ++ P) e rg HS) in Hg.
  assert (exists l, rl = entry BTREE_FOFFSET <$> l /\ (forall c, l = Some c -> c ∈ F) /\
    left_of F e (match l with Some c => if decide (c.1 + c.2 = e.1) then Some c else None | None => None end)) as (l & -> & HlF & Hlm).
  { destruct rl; [destruct Hl as (c & -> & ? & ?); exists (Some c); naive_solver|by exists None]. }
  assert (exists g, rg = entry BTREE_FOFFSET <$> g /\ (forall c, g = Some c -> c ∈ F) /\
    right_of F e (match g with Some c => if decide (e.1 + e.2 = c.1) then Some c else None | None => None end)) as (g & -> & HgF & Hgm).
  { destruct rg; [destruct Hg as (c & -> & ? & ?); exists (Some c); naive_solver|by exists None]. }
  apply (wp_found _ l); [unfold btree_ltet; simpl; rewrite El; by destruct l|].
  apply (wp_found _ g); [unfold btree_gtet; simpl; rewrite Eg; by destruct g|]. cbv zeta.
  rewrite (merge_test l Z.add (fun _ _ => e.1)).
  2:{ intros c Hc. destruct (HvF c (HlF c Hc)) as (? & ? & ?). apply Z.mod_small. lia. }
  rewrite (merge_test g (fun _ _ => e.1 + e.2) (fun o _ => o)).
  2:{ intros c Hc. apply Z.mod_small. lia. }
  revert Hlm Hgm. generalize (match l with Some c => if decide (c.1 + c.2 = e.1) then Some c else None | None => None end) as lm.
  generalize (match g with Some c => if decide (e.1 + e.2 = c.1) then Some c else None | None => None end) as gm.
  clear l g El Eg Hl Hg HlF HgF. intros gm lm Hlm Hgm.
  by apply (merge_ok fuel e lm gm s F M P b).
Qed.

(** ** Deferred frees *)

Lemma later_push_ok n s E :
  dstack_ok (free_later s) -> Forall (fun p => length p = DSTACK_BUF_SIZE) (fs_pages s) -> (calm -> fs_pages s <> []) ->
  wp (later_push n) (fun _ s' => exists d, s' = mkFstate (fs_frm s) (fs_chunk s) (fs_offset s) d (fs_pages s') /\ dstack_ok d /\
    contents d = n :: contents (free_later s) /\ Forall (fun p => length p = DSTACK_BUF_SIZE) (fs_pages s') /\
    (length (fs_pages s) <= S (length (fs_pages s')))%nat) E s.
Proof.
  intros Hd Hp Hc. unfold wp, later_push. destruct (fs_pages s) as [|p ps] eqn:Ep.
  - unfold dstack_push. destruct (sp (free_later s) =? 0)%nat eqn:Esp; simpl; [by intros Hk; destruct (Hc Hk)|].
    destruct (dstack_push_ok (Ok (replicate DSTACK_BUF_SIZE 0)) _ (free_later s) n Hd eq_refl) as (d & E1 & Hd' & Hcd); [by rewrite length_replicate|].
    unfold dstack_push in E1. rewrite Esp in E1. cbn [res_bind] in E1. rewrite E1. simpl. exists d. split_and!; [done..|lia].
  - inversion_clear Hp as [|? ? Hlp Hps]. destruct (dstack_push_ok (Ok p) p (free_later s) n Hd eq_refl Hlp) as (d & -> & Hd' & Hcd).
    exists d. simpl. split_and!; [done..| |].
    + destruct (sp (free_later s) =? 0)%nat; [done|by constructor].
    + destruct (sp (free_later s) =? 0)%nat; simpl; lia.
Qed.

Lemma free_later_ok o n s F1 F2 M P b E :
  mid s F1 F2 M P b -> (calm -> (2 <= length (fs_pages s))%nat) ->
  wp (freelist_free_later o n) (fun _ s' => mid s' F1 F2 M ((o, n) :: P) b /\ fs_frm s' = fs_frm s /\
    (length (fs_pages s) <= 2 + length (fs_pages s'))%nat) E s.
Proof.
  intros [HT Hnd Hz Hf Hs HC [Hd Hl] Hp Hc] Hpg. unfold freelist_free_later. apply wp_bind.
  eapply wp_mono; [apply later_push_ok; [done..|]|].
  { intros Hk E0. specialize (Hpg Hk). rewrite E0 in Hpg. simpl in Hpg. lia. }
  intros [] s1 (d & -> & Hd1 & Hc1 & Hp1 & Hl1). eapply wp_mono; [apply later_push_ok; [done..|]|].
  { simpl. intros Hk E0. specialize (Hpg Hk). rewrite E0 in Hl1. simpl in Hl1. lia. }
  intros [] s2 (d2 & -> & Hd2 & Hc2 & Hp2 & Hl2). split; [|split; [done|simpl in *; lia]]. split; try done. simpl in *. by rewrite Hc2, Hc1, Hl.
Qed.

(** ** Rounds of service *)

(** Changes of the flags. *)
Lemma mid_flags s F1 F2 M P b sv b' :
  mid s F1 F2 M P b -> (calm -> sv = false) ->
  let f := fs_frm s in
  mid (mkFstate (mkFrm (to_use f) (to_free f) (n_use f) (n_free f) sv b') (fs_chunk s) (fs_offset s) (free_later s) (fs_pages s)) F1 F2 M P b'.
Proof.
  intros [HT Hnd Hz Hf Hs HC Hl Hp Hc] Hsv f. split; try done.
  - by destruct Hf.
  - intros Hk. destruct (Hc Hk) as (_ & ? & ? & ?). simpl. split_and!; [by apply Hsv|naive_solver..].
Qed.

Lemma drain_ok n s F M P E :
  ~ calm -> rest s F M P true -> n_free (fs_frm s) = n ->
  wp (frm_drain n) (fun _ s' => exists M' P', rest s' F M' P' true /\ blocks M' ++ P' ≡ₚ blocks M ++ P /\ P `suffix_of` P') E s.
Proof.
  intros Hnc. revert s M P. induction n as [|n IH]; intros s M P HR Hn; [by apply wp_ret; exists M, P|].
  destruct HR as (HI & HS & Hco). cbn [frm_drain]. apply wp_bind. eapply wp_run; [done|]. cbv zeta. apply wp_bind. eapply wp_run; [done|].
  destruct HI as [(N1 & N2 & H1 & H2 & HM) Hnd Hz Hf Hs HC Hl Hp Hc]. pose proof Hf as [K1 K2 K3 K4].
  destruct (lookup_lt_is_Some_2 (to_free (fs_frm s)) n) as [o Ho]; [lia|]. apply wp_bind. eapply wp_run.
  { unfold flift. cbn [to_free]. by rewrite (res_nth_lookup _ _ _ Ho). }
  set (f1 := mkFrm _ _ _ _ _ _). set (M1 := elements N1 ++ elements N2 ++ frm_blocks f1).
  assert (HM1 : M ≡ₚ o :: M1).
  { rewrite <- HM. unfold M1, frm_blocks, f1. simpl. rewrite Hn, (take_S_r _ _ o) by done. solve_Permutation. }
  rewrite HM1 in Hnd, Hz. apply list.NoDup_cons in Hnd as [_ Hnd]. apply not_elem_of_cons in Hz as [_ Hz].
  apply wp_bind. eapply wp_mono; [apply (free_later_ok o BTREE_BLOCK_SIZE _ F F M1 P true); [|done]|].
  { split; try done.
    - by exists N1, N2.
    - split; simpl; [done..|lia]. }
  intros [] s2 (HI2 & Ef & _). assert (Hperm : blocks M1 ++ (o, BTREE_BLOCK_SIZE) :: P ≡ₚ blocks M ++ P).
  { rewrite HM1. simpl. by rewrite <- Permutation_middle. }
  eapply wp_mono; [apply (IH s2 M1 ((o, BTREE_BLOCK_SIZE) :: P)); [split; [done|split; [by rewrite Hperm|done]]|by rewrite Ef]|].
  intros [] s3 (M' & P' & HR' & Hp' & Hsx). exists M', P'. rewrite Hp', Hperm. split_and!; [done..|]. etrans; [|exact Hsx]. by apply suffix_cons_r.
Qed.

Lemma wp_fcode {A} (m : FM A) (Q : A -> fstate T -> Prop) (E E' : Z -> fstate T -> Prop) s :
  wp m Q E s -> wp (fcode m) (fun r s' => match r with Ok a => Q a s' | Err e => E e s' | Panic => False end) E' s.
Proof. unfold wp, fcode. by destruct (m s) as [[]]. Qed.

Lemma space_blocks F M P o : space (F ++ blocks (o :: M) ++ P) -> o ∉ M.
Proof.
  intros HS. apply space_app, proj2, space_app, proj1, space_NoDup in HS. rewrite blocks_fst in HS. by inversion_clear HS.
Qed.

Lemma refill_ok svc n s F M P X E :
  ~ calm -> (forall s, servicing (fs_frm s) = true -> svc s = (Ok tt, s)) ->
  rest s F M P true -> big F (BTREE_BLOCK_SIZE * Z.of_nat n + X) -> 0 < X ->
  wp (frm_refill (freelist_alloc_svc svc) n) (fun _ s' => exists F' M', rest s' F' M' P true /\ big F' X /\
    forall z, occ z (F' ++ blocks M' ++ P) = occ z (F ++ blocks M ++ P)) E s.
Proof.
  intros Hnc Hsvc. revert s F M. induction n as [|n IH]; intros s F M HR Hb HX.
  { apply wp_ret. exists F, M. split_and!; [done| |done]. destruct Hb as (c & ? & ?). exists c. split; [done|lia]. }
  cbn [frm_refill]. apply wp_bind. eapply wp_mono; [apply wp_fcode, (alloc_ok svc _ s F M P true
    (fun o s' => exists F', carve F BTREE_BLOCK_SIZE o F' /\ rest s' F' M P true)); [done..|]|].
  { intros s' F' o HC HR'. eapply wp_run; [apply Hsvc; apply HR'|by exists F']. }
  intros r s1 Hr. destruct HR as (HI & HS & Hco). destruct r as [o|e|]; [|exfalso|done].
  2:{ destruct Hr as (_ & _ & Hr). destruct Hb as (c & Hc & Hle). specialize (Hr c Hc). unfold BTREE_BLOCK_SIZE in *. lia. }
  destruct Hr as (F1 & HC & HI1 & HS1 & Hco1). assert (HB : 0 < BTREE_BLOCK_SIZE) by done.
  pose proof (carve_valid F (blocks M ++ P) _ o F1 HB HC HS) as [Ho Ho'].
  assert (u64 o = o) as -> by (apply Z.mod_small; lia). rewrite (proj2 (Z.ltb_lt 0 o)) by done. apply wp_bind, wp_ret.
  apply wp_bind. eapply wp_run; [done|]. pose proof (carve_space F _ _ o F1 HB HC HS) as HS2.
  assert (Hperm : (o, BTREE_BLOCK_SIZE) :: F1 ++ blocks M ++ P ≡ₚ F1 ++ blocks (o :: M) ++ P) by (simpl; by rewrite Permutation_middle).
  rewrite Hperm in HS2. destruct HI1 as [(N1 & N2 & H1 & H2 & HM) Hnd Hz Hf Hs HCa Hl Hp Hc].
  destruct (decide (n_use (fs_frm s1) < FRM_BUF_SIZE)%nat) as [Hlt|Hge].
  2:{ apply wp_bind. unfold wp, flift. by rewrite put_use_full by (done || lia). }
  destruct (put_use_ok o (fs_frm s1) Hf Hlt) as (f' & Ef & Hf' & Hb' & _ & _ & _ & Hsv).
  apply wp_bind. eapply wp_run; [unfold flift; by rewrite Ef|]. apply wp_bind. eapply wp_run; [done|].
  assert (Hb1 : big F1 (BTREE_BLOCK_SIZE * Z.of_nat n + X)).
  { apply (carve_big F (blocks M ++ P) BTREE_BLOCK_SIZE o F1); [done..| |unfold BTREE_BLOCK_SIZE; lia].
    destruct Hb as (c & ? & ?). exists c. split; [done|lia]. }
  eapply wp_mono; [apply (IH _ F1 (o :: M)); [|done|done]|].
  { split; [|done]. split; try done.
    - exists N1, N2. split_and!; [done..|]. simpl. rewrite Hb', <- HM. solve_Permutation.
    - constructor; [by eapply space_blocks|done].
    - apply not_elem_of_cons. split; [lia|done].
    - simpl. by rewrite Hsv. }
  intros [] s3 (F' & M' & HR' & Hb3 & Hocc). exists F', M'. split_and!; [done..|]. intros z. rewrite Hocc, <- Hperm, occ_cons.
  by rewrite (carve_occ F _ _ o F1 HB HC HS).
Qed.

Lemma service_idle fuel s : service (fs_frm s) && negb (servicing (fs_frm s)) = false -> frm_service fuel s = (Ok tt, s).
Proof. intros E. destruct fuel; simpl; unfold mbind, FM_bind, get_frm; by rewrite E. Qed.

Lemma service_one_ok svc s F M P X E :
  ~ calm -> (forall s, servicing (fs_frm s) = true -> svc s = (Ok tt, s)) ->
  rest s F M P true -> big F (BTREE_BLOCK_SIZE * 7 + X) -> 0 < X ->
  wp (frm_service_one (freelist_alloc_svc svc)) (fun _ s' => exists F' M' P', rest s' F' M' P' true /\ big F' X /\
    (forall z, occ z (F' ++ blocks M' ++ P') = occ z (F ++ blocks M ++ P)) /\ P `suffix_of` P') E s.
Proof.
  intros Hnc Hsvc (HI & HS & Hco) Hb HX. unfold frm_service_one. apply wp_bind. eapply wp_run; [done|]. apply wp_bind. eapply wp_run; [done|].
  rewrite (md_servicing _ _ _ _ _ _ HI).
  apply wp_bind. eapply wp_mono; [apply (drain_ok _ _ F M P); [done|split; [by apply (mid_flags s F F M P true)|done]|done]|].
  intros [] s1 (M1 & P1 & HR1 & Hp1 & Hx1). apply wp_bind. eapply wp_run; [done|].
  assert (Hocc : forall z, occ z (F ++ blocks M1 ++ P1) = occ z (F ++ blocks M ++ P)) by (intros z; by rewrite Hp1).
  destruct (FRM_BUF_SIZE / 2 <=? n_use (fs_frm s1))%nat.
  { apply wp_ret. exists F, M1, P1. split_and!; [done| |done|done]. destruct Hb as (c & ? & ?). exists c. split; [done|unfold BTREE_BLOCK_SIZE in *; lia]. }
  apply wp_bind. eapply wp_mono; [apply (refill_ok svc _ s1 F M1 P1 X); [done..| |done]|].
  { destruct Hb as (c & ? & Hc). exists c. split; [done|]. unfold BTREE_BLOCK_SIZE, FRM_BUF_SIZE in *. lia. }
  intros [] s2 (F2 & M2 & HR2 & Hb2 & Ho2). apply wp_bind. eapply wp_run; [done|].
  destruct (n_use (fs_frm s2) <=? FRM_BUF_SIZE)%nat; simpl; [|done]. apply wp_ret. exists F2, M2, P1.
  split_and!; [done..| |done]. intros z. by rewrite Ho2.
Qed.

(** The whole loop, with enough space for [fuel] rounds. *)
Lemma service_ok fuel s F M P X E :
  rest s F M P false -> calm \/ big F (BTREE_BLOCK_SIZE * 7 * Z.of_nat fuel + X) -> 0 < X ->
  wp (frm_service fuel) (fun _ s' => exists F' M' P', rest s' F' M' P' false /\ (big F (BTREE_BLOCK_SIZE * 7 * Z.of_nat fuel + X) -> big F' X) /\
    (forall z, occ z (F' ++ blocks M' ++ P') = occ z (F ++ blocks M ++ P)) /\ P `suffix_of` P' /\ (calm -> F' = F /\ P' = P)) E s.
Proof.
  revert s F M P. induction fuel as [|fuel IH]; intros s F M P HR Hb HX.
  all: destruct (service (fs_frm s)) eqn:Esv; [|eapply wp_run; [by apply service_idle; rewrite Esv|]; exists F, M, P; split_and!; [done| |done..];
    intros (c & ? & ?); exists c; split; [done|unfold BTREE_BLOCK_SIZE in *; lia]].
  all: pose proof HR as (HI & HS & Hco); assert (Hnc : ~ calm) by (intros Hk; destruct (md_calm _ _ _ _ _ _ HI Hk) as (E1 & _); congruence).
  all: pose proof (md_servicing _ _ _ _ _ _ HI) as Hsg.
  - unfold wp. simpl. unfold mbind, FM_bind, get_frm. by rewrite Esv, Hsg.
  - cbn [frm_service]. apply wp_bind. eapply wp_run; [done|]. rewrite Esv, Hsg. cbn [andb negb]. destruct Hb as [|Hb]; [done|].
    apply wp_bind. eapply wp_run; [done|]. apply wp_bind.
    eapply wp_mono; [apply (service_one_ok _ _ F M P (BTREE_BLOCK_SIZE * 7 * Z.of_nat fuel + X)); [done| | | |]|].
    + intros s' Hs'. apply service_idle. by rewrite Hs', andb_false_r.
    + split; [|done]. by apply (mid_flags s F F M P false).
    + destruct Hb as (c & ? & ?). exists c. split; [done|unfold BTREE_BLOCK_SIZE in *; lia].
    + unfold BTREE_BLOCK_SIZE. lia.
    + intros [] s1 (F1 & M1 & P1 & (HI1 & HS1 & Hco1) & Hb1 & Ho1 & Hx1). apply wp_bind. eapply wp_run; [done|].
      eapply wp_mono; [apply (IH _ F1 M1 P1); [split; [|done]|by right|done]|].
      * apply (mid_flags s1 F1 F1 M1 P1 true); [done|]. by intros Hk.
      * intros [] s2 (F2 & M2 & P2 & HR2 & Hb2 & Ho2 & Hx2 & Hc2). exists F2, M2, P2.
        split_and!; [done|by intros _; apply Hb2| |by etrans|done]. intros z. by rewrite Ho2.
Qed.

(** ** The operations *)

Lemma freelist_alloc_ok fuel n s F M P X :
  rest s F M P false -> 0 < n -> n < 2 ^ 64 -> calm \/ big F (n + (BTREE_BLOCK_SIZE * 7 * Z.of_nat fuel + X)) -> 0 < X ->
  wp (freelist_alloc fuel n) (fun o s' => exists F1 F' M' P', carve F n o F1 /\ rest s' F' M' P' false /\
    (big F (n + (BTREE_BLOCK_SIZE * 7 * Z.of_nat fuel + X)) -> big F' X) /\
    (forall z, occ z (F ++ blocks M ++ P) = (Nat.b2n (covers z (o, n)) + occ z (F' ++ blocks M' ++ P'))%nat) /\
    P `suffix_of` P' /\ (calm -> F' = F1 /\ P' = P))
    (fun e s' => e = E_NO_SPACE /\ s' = s /\ forall c, c ∈ F -> c.2 < n) s.
Proof.
  intros HR Hn Hn' Hb HX. pose proof HR as (_ & HS & _). apply (alloc_ok _ n s F M P false); [done..|]. intros s1 F1 o HC HR1.
  assert (Hb1 : big F (n + (BTREE_BLOCK_SIZE * 7 * Z.of_nat fuel + X)) -> big F1 (BTREE_BLOCK_SIZE * 7 * Z.of_nat fuel + X)).
  { intros Hb'. apply (carve_big F (blocks M ++ P) n o F1); [done..|]. unfold BTREE_BLOCK_SIZE. lia. }
  eapply wp_mono; [apply (service_ok fuel s1 F1 M P X); [done| |done]|].
  - destruct Hb as [|Hb]; [by left|right; auto].
  - intros [] s2 (F2 & M2 & P2 & HR2 & Hb2 & Ho2 & Hx2 & Hc2). exists F1, F2, M2, P2. split_and!; [done|done|auto| |done|done].
    intros z. rewrite (carve_occ F _ n o F1 Hn HC HS), Ho2. done.
Qed.

(** Popping a pending extent. *)
Lemma later_pop2_ok e s F M P b (Q : fstate T -> Prop) E (k : Z -> Z -> FM unit) :
  mid s F F M (e :: P) b -> (forall s', mid s' F F M P b -> wp (k e.2 e.1) (fun _ => Q) E s') ->
  wp (nbytes ← later_pop; base ← later_pop; k nbytes base) (fun _ => Q) E s.
Proof.
  intros [HT Hnd Hz Hf Hs HC [Hd Hl] Hp Hc] HQ. simpl in Hl.
  destruct (dstack_pop_ok _ _ _ Hd Hl) as (d1 & E1 & Hd1 & Hl1). destruct (dstack_pop_ok _ _ _ Hd1 Hl1) as (d2 & E2 & Hd2 & Hl2).
  apply wp_bind. eapply wp_run; [unfold later_pop; by rewrite E1|]. apply wp_bind. eapply wp_run; [unfold later_pop; simpl; by rewrite E2|].
  apply HQ. by split.
Qed.

Lemma later_empty s F M P b : mid s F F M P b -> dstack_empty (free_later s) = bool_decide (P = []).
Proof.
  intros HI. destruct (md_later _ _ _ _ _ _ HI) as [[Hps Hsp] Hl]. unfold dstack_empty, contents in *. destruct (pages (free_later s)) as [|q ps].
  - destruct P as [|e P]; [done|]. by simpl in Hl.
  - apply list.Forall_cons in Hps as [Hq _]. destruct (lookup_lt_is_Some_2 q (sp (free_later s))) as [x Hx]; [lia|].
    rewrite (drop_S _ x) in Hl by done. by destruct P.
Qed.

Lemma freelist_commit_ok fuel rounds s F M P X :
  rest s F M P false -> calm \/ big F (BTREE_BLOCK_SIZE * 7 * Z.of_nat fuel * Z.of_nat rounds + X) -> 0 < X ->
  (calm -> (length P <= rounds)%nat /\ (length F + length P < cap)%nat) ->
  wp (freelist_commit fuel rounds) (fun _ s' => exists F' M', rest s' F' M' [] false /\
    forall z, occ z (F' ++ blocks M') = occ z (F ++ blocks M ++ P)) (fun _ _ => False) s.
Proof.
  revert s F M P. induction rounds as [|rounds IH]; intros s F M P HR Hb HX Hcap; pose proof HR as (HI & HS & Hco).
  all: pose proof (later_empty s F M P false HI) as He; unfold wp; cbn [freelist_commit]; rewrite He; case_bool_decide as HP.
  1, 3: subst P; exists F, M; split; [done|by intros z; rewrite app_nil_r].
  { intros Hk. destruct (Hcap Hk) as [Hl _]. destruct P; [done|simpl in Hl; lia]. }
  destruct P as [|e P]; [done|].
  enough (Hgoal : wp (nbytes ← later_pop; base ← later_pop; freelist_free fuel base nbytes;; freelist_commit fuel rounds)
    (fun _ s' => exists F' M', rest s' F' M' [] false /\
      forall z, occ z (F' ++ blocks M') = occ z (F ++ blocks M ++ e :: P)) (fun _ _ => False) s) by exact Hgoal.
  assert (Hperm : F ++ blocks M ++ e :: P ≡ₚ e :: F ++ blocks M ++ P) by (rewrite !Permutation_middle; done).
  apply (later_pop2_ok e s F M P false _ _ (fun nbytes base => freelist_free fuel base nbytes;; freelist_commit fuel rounds)); [done|].
  intros s1 HI1. apply wp_bind.
  apply (free_ok fuel e s1 F M P false (fun s' => wp (freelist_commit fuel rounds) _ _ s')); [done|by rewrite <- Hperm|done| |].
  { intros Hk. destruct (Hcap Hk) as [_ ?]. simpl in *. lia. }
  intros s2 F2 HR2 Ho2 Hb2 Hl2. eapply wp_mono; [apply (service_ok fuel s2 F2 M P (BTREE_BLOCK_SIZE * 7 * Z.of_nat fuel * Z.of_nat rounds + X)); [done| |]|].
  - destruct Hb as [|Hb]; [by left|right]. apply Hb2. destruct Hb as (c & ? & ?). exists c. split; [done|]. unfold BTREE_BLOCK_SIZE in *. lia.
  - unfold BTREE_BLOCK_SIZE. nia.
  - intros [] s3 (F3 & M3 & P3 & HR3 & Hb3 & Ho3 & _ & Hc3). eapply wp_mono; [apply (IH s3 F3 M3 P3); [done| |done|]|].
    + destruct Hb as [|Hb]; [by left|right]. apply Hb3, Hb2. destruct Hb as (c & ? & ?). exists c. split; [done|]. unfold BTREE_BLOCK_SIZE in *. lia.
    + intros Hk. destruct (Hc3 Hk) as [-> ->]. destruct (Hcap Hk) as [? ?]. simpl in *. lia.
    + intros [] s4 (F4 & M4 & HR4 & Ho4). exists F4, M4. split; [done|]. intros z. by rewrite Ho4, Ho3, Ho2, Hperm.
Qed.

(** ** Set-up *)

(** The blocks at the start of the area. *)
Definition first_blocks (base : Z) (k : nat) : list Z := (fun i => base + Z.of_nat i * BTREE_BLOCK_SIZE) <$> seq 0 k.

Lemma occ_first_blocks z base k : occ z (blocks (first_blocks base k)) = Nat.b2n (covers z (base, Z.of_nat k * BTREE_BLOCK_SIZE)).
Proof.
  unfold BTREE_BLOCK_SIZE. induction k as [|k IH]; [by rewrite covers_spec, decide_False by (simpl; lia)|].
  unfold first_blocks, blocks in *. rewrite seq_S, !fmap_app, occ_app, IH. cbn [fmap list_fmap]. rewrite occ_cons, occ_nil, !covers_spec. simpl fst. simpl snd.
  unfold BTREE_BLOCK_SIZE. repeat case_decide; lia.
Qed.

Lemma first_blocks_frm base nbytes :
  0 < base -> 0 <= nbytes -> base + nbytes <= 2 ^ 63 -> Z.of_nat FRM_BUF_SIZE * BTREE_BLOCK_SIZE < nbytes ->
  (frm_init base).1 = mkFrm (first_blocks base FRM_BUF_SIZE) (replicate FRM_BUF_SIZE 0) FRM_BUF_SIZE 0 false false.
Proof.
  intros H1 H2 H3 H4. unfold frm_init, first_blocks. cbn [fst]. f_equal. apply list_fmap_ext. intros i x Hx. apply Z.mod_small.
  apply lookup_seq in Hx as [-> Hx]. unfold FRM_BUF_SIZE, BTREE_BLOCK_SIZE in *. lia.
Qed.

Lemma freelist_init_ok base nbytes s :
  0 < base -> base + nbytes <= 2 ^ 63 -> Z.of_nat FRM_BUF_SIZE * BTREE_BLOCK_SIZE < nbytes ->
  ix_rep 2 1 (fs_chunk s) [] ∅ -> ix_rep 1 1 (fs_offset s) [] ∅ -> (cap <= ix_cap (fs_chunk s))%nat -> (cap <= ix_cap (fs_offset s))%nat -> (1 < cap)%nat ->
  free_later s = dstack_init -> Forall (fun p => length p = DSTACK_BUF_SIZE) (fs_pages s) ->
  wp (freelist_init base nbytes) (fun _ s' => let F := [(base + 40960, nbytes - 40960)] in exists M, rest s' F M [] false /\
    forall z, occ z (F ++ blocks M) = Nat.b2n (covers z (base, nbytes))) (fun _ _ => False) s.
Proof.
  intros Hb Hn Hs H1 H2 C1 C2 Hcap Hl Hp. change (Z.of_nat FRM_BUF_SIZE * BTREE_BLOCK_SIZE) with 40960 in *.
  set (M := first_blocks base FRM_BUF_SIZE). set (c := (base + 40960, nbytes - 40960)).
  assert (Hocc : forall z, occ z ([c] ++ blocks M) = Nat.b2n (covers z (base, nbytes))).
  { intros z. unfold M, c. rewrite occ_app, occ_first_blocks, occ_cons, occ_nil, !covers_spec. cbn [fst snd].
    change (Z.of_nat FRM_BUF_SIZE * BTREE_BLOCK_SIZE) with 40960. repeat case_decide; lia. }
  assert (HvM : forall o, o ∈ M -> 0 < o /\ o + BTREE_BLOCK_SIZE <= 2 ^ 63).
  { intros o (i & -> & Hi)%list_elem_of_fmap. apply elem_of_seq in Hi. unfold FRM_BUF_SIZE, BTREE_BLOCK_SIZE in *. lia. }
  assert (HS : space ([c] ++ blocks M)).
  { split; [|intros z; rewrite Hocc, covers_spec; case_decide; lia]. constructor; [split_and!; simpl; lia|].
    apply list.Forall_forall. intros e (o & -> & Ho)%list_elem_of_fmap. destruct (HvM o Ho). by split_and!. }
  assert (HI : mid (mkFstate (frm_init base).1 (fs_chunk s) (fs_offset s) (free_later s) (fs_pages s)) [] [] M [] false).
  { rewrite (first_blocks_frm base nbytes) by (unfold FRM_BUF_SIZE, BTREE_BLOCK_SIZE; lia). split; cbn [fs_chunk fs_offset fs_frm free_later fs_pages].
    - exists ∅, ∅. split_and!; [done..|]. by rewrite !elements_empty.
    - apply space_app, proj2, space_NoDup in HS. by rewrite blocks_fst in HS.
    - intros H0'. apply HvM in H0'. lia.
    - by split; apply Nat.leb_le || reflexivity.
    - done.
    - done.
    - rewrite Hl. split; [|done]. split; [constructor|done].
    - done.
    - intros _. simpl. split_and!; [done..|lia|lia]. }
  unfold wp, freelist_init. destruct (frm_init base) as [f bytes] eqn:Ef. assert (bytes = 40960) as -> by (unfold frm_init in Ef; by injection Ef).
  assert (u64 (base + 40960) = base + 40960) as -> by (apply Z.mod_small; lia). assert (u64 (nbytes - 40960) = nbytes - 40960) as -> by (apply Z.mod_small; lia).
  cbn [fst] in HI. set (s0 := mkFstate f _ _ _ _) in *.
  enough (Hw : wp (freelist_insert (base + 40960) (nbytes - 40960)) (fun _ s' => mid s' [c] [c] M [] false) (fun _ _ => False) s0).
  { unfold wp in Hw. destruct (freelist_insert _ _ s0) as [[[]| |] s1]; [|done|done]. exists M. split; [|done]. split; [|split].
    - destruct Hw as [HT Hnd Hz Hf Hsg HC Hla Hpg Hca]. by split.
    - by rewrite app_nil_r.
    - intros a b ->%list_elem_of_singleton ->%list_elem_of_singleton. simpl. lia. }
  unfold freelist_insert. apply wp_bind. eapply wp_mono; [apply (btree_insert_ok BTREE_FCHUNK c s0 [] [] M [] false); try done|].
  { set_solver. }
  { intros _. simpl. lia. }
  intros [] s1 HI1. simpl in HI1. eapply wp_mono; [apply (btree_insert_ok BTREE_FOFFSET c s1 [c] [] M [] false); try done|done].
  set_solver.
Qed.
End proofs.
