(* ===== verification/FreelistProofs.v ===== *)
(** * The free list keeps account of every byte

    What allocation, commit and set-up promise to the rest of the store, over
    any index that satisfies [Index]; what a client sees over a run; and the
    instance with the B+-trees of the kernel. *)

From stdpp Require Import sorting list_numbers.
From S2P Require Import Prelude Dstack Log BTree BTreeRep BTreeSearch BTreeInsert Index Freelist FreelistSpace FreelistInv.
From stdpp Require Import options.

Set Default Goal Selector "!".

(** The space that [fuel] rounds of service may take. *)
Definition service_bytes (fuel : nat) : Z := BTREE_BLOCK_SIZE * 7 * Z.of_nat fuel.

Section claims.
Context {T : Type} `{Index T}.

(** [freelist_alloc] from a consistent free list.  On success it returns the
    start of the smallest chunk that is big enough; the bytes handed out are owned
    no longer, and every other byte is owned exactly as before, whatever moved
    between chunks, tree nodes, buffers and pending extents while the node manager
    was refilled.  It fails only with [E_NO_SPACE], when no chunk is big enough,
    and then changes nothing.  It does not panic as long as the trees are small
    ([calm]); when they are not, the refill has to find space. *)
Theorem freelist_alloc_correct (calm : Prop) cap fuel n s F M P :
  rest calm cap s F M P false -> 0 < n < 2 ^ 64 -> calm \/ big F (n + (service_bytes fuel + 1)) ->
  match freelist_alloc fuel n s with
  | (Ok o, s') =>
      (exists l, ((o, l) ∈ F) /\ n <= l /\ forall c, c ∈ F -> n <= c.2 -> l <= c.2) /\
      exists F' M' P', rest calm cap s' F' M' P' false /\
        forall z, occ z (owned F M P) = (Nat.b2n (covers z (o, n)) + occ z (owned F' M' P'))%nat
  | (Err e, s') => e = E_NO_SPACE /\ s' = s /\ forall c, c ∈ F -> c.2 < n
  | (Panic, _) => ~ calm
  end.
Proof.
  intros HR [Hn Hn'] Hb. pose proof (freelist_alloc_ok calm cap fuel n s F M P 1 HR Hn Hn' Hb ltac:(lia)) as Hw. unfold wp in Hw.
  destruct (freelist_alloc fuel n s) as [[o| |] s']; [|done..]. destruct Hw as (F1 & F' & M' & P' & HC & HR' & _ & Ho & _ & _). split.
  - destruct HC as (l & R & HF & Hl & Hmin & _). exists l. split; [rewrite HF; left|done].
  - by exists F', M', P'.
Qed.

(** [freelist_commit] turns all pending extents into free space: nothing is
    pending afterwards, the chunks are coalesced and do not overlap, and the bytes
    owned are those owned before.  With small trees it returns after as many rounds
    as there are pending extents. *)
Theorem freelist_commit_correct (calm : Prop) cap fuel rounds s F M P :
  rest calm cap s F M P false -> calm \/ big F (service_bytes fuel * Z.of_nat rounds + 1) ->
  (calm -> (length P <= rounds)%nat /\ (length F + length P < cap)%nat) ->
  match freelist_commit fuel rounds s with
  | (Ok _, s') => exists F' M', rest calm cap s' F' M' [] false /\ forall z, occ z (owned F' M' []) = occ z (owned F M P)
  | (Err _, _) => False
  | (Panic, _) => ~ calm
  end.
Proof.
  intros HR Hb Hc. pose proof (freelist_commit_ok calm cap fuel rounds s F M P 1 HR Hb ltac:(lia) Hc) as Hw. unfold wp in Hw.
  destruct (freelist_commit fuel rounds s) as [[[]| |] s']; [|done..]. destruct Hw as (F' & M' & HR' & Ho). exists F', M'.
  split; [done|]. intros z. unfold owned. by rewrite app_nil_r, Ho.
Qed.

(** ** Runs of a client *)

Section client.
Context (base nbytes : Z) (fuel rounds : nat).
Context (Hbase : 0 < base) (Htop : base + nbytes <= 2 ^ 63) (Hsize : Z.of_nat FRM_BUF_SIZE * BTREE_BLOCK_SIZE < nbytes).

(** There is a chunk of at least [n] bytes. *)
Definition roomy (n : Z) (s : fstate T) : bool := is_ok (ix_gtet [n; 0] (fs_chunk s)).

(** The states that set-up, allocations, deferred frees of extents that were
    handed out, and commits lead to, with the extents that are handed out. *)
Inductive client : fstate T -> list (Z * Z) -> Prop :=
| cl_init s s' :
    ix_rep 2 1 (fs_chunk s) [] ∅ -> ix_rep 1 1 (fs_offset s) [] ∅ -> (1 < ix_cap (fs_chunk s))%nat -> (1 < ix_cap (fs_offset s))%nat ->
    free_later s = dstack_init -> Forall (fun p => length p = DSTACK_BUF_SIZE) (fs_pages s) ->
    freelist_init base nbytes s = (Ok tt, s') -> client s' []
| cl_alloc s G n o s' :
    client s G -> 0 < n < 2 ^ 64 -> roomy (n + (service_bytes fuel + 1)) s = true ->
    freelist_alloc fuel n s = (Ok o, s') -> client s' ((o, n) :: G)
| cl_free s G G' e s' :
    client s G -> G ≡ₚ e :: G' -> freelist_free_later e.1 e.2 s = (Ok tt, s') -> client s' G'
| cl_commit s G s' :
    client s G -> roomy (service_bytes fuel * Z.of_nat rounds + 1) s = true ->
    freelist_commit fuel rounds s = (Ok tt, s') -> client s' G.

Lemma roomy_big (calm : Prop) cap n s F M P : rest calm cap s F M P false -> roomy n s = true -> big F n.
Proof using Type.
  intros (HI & HS & _) Hr. destruct (md_trees _ _ _ _ _ _ _ _ HI) as (N1 & N2 & H1 & _). unfold roomy in Hr.
  destruct (ix_gtet_ok _ _ _ _ _ [n; 0] H1 eq_refl) as (r & Er & Ha). rewrite Er in Hr. destruct r as [e|]; [|done].
  apply chunk_answer in Ha; [|by apply space_app, proj1 in HS as [? _]]. destruct Ha as (o & l & _ & Hin & Hle & _). by exists (o, l).
Qed.

Definition client_inv (s : fstate T) (G : list (Z * Z)) : Prop :=
  exists F M P, rest False 2 s F M P false /\ space (G ++ owned F M P) /\
    forall z, occ z (G ++ owned F M P) = Nat.b2n (covers z (base, nbytes)).

Lemma client_ok s G : client s G -> client_inv s G.
Proof using Hbase Htop Hsize.
  induction 1 as [s s' H1 H2 C1 C2 Hl Hp E|s G n o s' _ (F & M & P & HR & HS & Ho) [Hn Hn'] Hr E
    |s G G' e s' _ (F & M & P & HR & HS & Ho) HG E|s G s' _ (F & M & P & HR & HS & Ho) Hr E].
  - pose proof (freelist_init_ok False 2 base nbytes s Hbase Htop Hsize H1 H2 C1 C2 ltac:(lia) Hl Hp) as Hw. unfold wp in Hw. rewrite E in Hw.
    destruct Hw as (M & HR & Ho). eexists _, M, []. split; [done|]. unfold owned. rewrite app_nil_r. split; [|done].
    destruct HR as (_ & HS & _). by rewrite app_nil_r in HS.
  - pose proof (freelist_alloc_ok False 2 fuel n s F M P 1 HR Hn Hn' (or_intror (roomy_big _ _ _ _ _ _ _ HR Hr)) ltac:(lia)) as Hw.
    unfold wp in Hw. rewrite E in Hw. destruct Hw as (F1 & F' & M' & P' & HC & HR' & _ & Ho' & _ & _).
    assert (Hocc : forall z, occ z (((o, n) :: G) ++ owned F' M' P') = occ z (G ++ owned F M P)).
    { intros z. rewrite !occ_app, occ_cons. unfold owned at 2. rewrite Ho'. fold (owned F' M' P'). lia. }
    exists F', M', P'. split; [done|]. split; [|intros z; by rewrite Hocc].
    eapply space_same; [exact HS| |exact Hocc]. destruct HS as [Hv _]. apply list.Forall_app in Hv as [HvG _]. destruct HR as (_ & HS0 & _).
    destruct (carve_valid F (blocks M ++ P) n o F1 Hn HC HS0). simpl. constructor; [by split_and!|]. apply list.Forall_app. split; [done|apply HR'].
  - pose proof (free_later_ok False 2 e.1 e.2 s F F M P false (fun _ _ => False) (proj1 HR) ltac:(done)) as Hw. unfold wp in Hw. rewrite E in Hw.
    destruct Hw as [HI' _]. assert (Hperm : G' ++ owned F M (e :: P) ≡ₚ G ++ owned F M P).
    { rewrite HG. unfold owned. simpl. rewrite !Permutation_middle. done. }
    rewrite <- Hperm in HS. exists F, M, (e :: P). split_and!; [|done|intros z; by rewrite Hperm].
    split; [by destruct e|]. split; [by apply space_app, proj2 in HS|apply HR].
  - pose proof (freelist_commit_ok False 2 fuel rounds s F M P 1 HR (or_intror (roomy_big _ _ _ _ _ _ _ HR Hr)) ltac:(lia) ltac:(done)) as Hw.
    unfold wp in Hw. rewrite E in Hw. destruct Hw as (F' & M' & HR' & Ho').
    assert (Hocc : forall z, occ z (G ++ owned F' M' []) = occ z (G ++ owned F M P)).
    { intros z. rewrite !occ_app. unfold owned. by rewrite app_nil_r, Ho'. }
    exists F', M', []. split; [done|]. split; [|intros z; by rewrite Hocc].
    eapply space_same; [exact HS| |exact Hocc]. destruct HS as [Hv _]. apply list.Forall_app in Hv as [HvG _]. apply list.Forall_app. split; [done|apply HR'].
Qed.
End client.

(** C25: whatever sequence of allocations, frees and commits a client runs, as long as
    a free chunk is left, before each allocation and each commit, that is large enough
    for it and for the blocks the node manager may take meanwhile ([roomy]), every
    byte of the area that the free list was given is in exactly one place: an
    extent handed out, a free chunk, a block of the trees or of the node manager,
    or a pending extent.  In particular no two extents handed out overlap, and
    none of them overlaps the free list's own nodes. *)
Theorem freelist_no_overlap base nbytes fuel rounds s G :
  0 < base -> base + nbytes <= 2 ^ 63 -> Z.of_nat FRM_BUF_SIZE * BTREE_BLOCK_SIZE < nbytes ->
  client base nbytes fuel rounds s G ->
  exists F M P, rest False 2 s F M P false /\ forall z, occ z (G ++ owned F M P) = Nat.b2n (covers z (base, nbytes)).
Proof.
  intros Hb Ht Hs Hc. destruct (client_ok base nbytes fuel rounds Hb Ht Hs s G Hc) as (F & M & P & HR & _ & Ho). by exists F, M, P.
Qed.

(** When no chunk has a block left, refilling the node manager takes the error
    code of the allocation for a block: the [int64_t] result is stored in a
    [uint64_t] before it is compared with 0, so the assertion passes, and the next
    tree node is placed at offset [2 ^ 64 - 8]. *)
Theorem frm_refill_takes_error calm cap svc s F M P b :
  rest calm cap s F M P b -> (forall c, c ∈ F -> c.2 < BTREE_BLOCK_SIZE) -> (n_use (fs_frm s) < FRM_BUF_SIZE)%nat ->
  exists s', frm_refill (freelist_alloc_svc svc) 1 s = (Ok tt, s') /\ head (frm_pool (fs_frm s')) = Some (2 ^ 64 - E_NO_SPACE).
Proof.
  intros (HI & HS & _) HF Hn. destruct (md_trees _ _ _ _ _ _ _ _ HI) as (N1 & N2 & H1 & _).
  destruct (ix_gtet_ok _ _ _ _ _ [BTREE_BLOCK_SIZE; 0] H1 eq_refl) as (r & Er & Ha).
  apply chunk_answer in Ha; [|by apply space_app, proj1 in HS as [? _]]. destruct r as [e|].
  { destruct Ha as (o & l & _ & Hin & Hle & _). specialize (HF _ Hin). simpl in HF. lia. }
  assert (Ea : freelist_alloc_svc svc BTREE_BLOCK_SIZE s = (Err E_NO_SPACE, s)).
  { unfold freelist_alloc_svc, mbind, FM_bind, fcode, btree_gtet. simpl. by rewrite Er. }
  pose proof (md_frm _ _ _ _ _ _ _ _ HI) as Hf. cbn [frm_refill]. unfold mbind at 1, FM_bind at 1, fcode. rewrite Ea. cbv beta iota zeta.
  change (u64 (- E_NO_SPACE)) with (2 ^ 64 - E_NO_SPACE). unfold mbind, FM_bind, fassert, get_frm, flift, put_use. simpl.
  rewrite arr_set_ok by (rewrite (fk_use _ Hf); done). simpl. eexists. split; [done|].
  unfold frm_pool. simpl. rewrite take_insert_end by (rewrite (fk_use _ Hf); done). by rewrite rev_app_distr.
Qed.

End claims.

(** ** The trees of the kernel *)

Lemma ft_empty ord ks vs t : btree_init_impl ord ks vs = Ok t -> (3 <= ord)%nat -> (2 <= ord / vs)%nat -> ft_rep ks vs (mkFtree t ∅) [] ∅.
Proof.
  intros E H1 H2. exists []. split_and!; [done| |done|..].
  - eapply btree_init_ok; [done..|constructor|set_solver].
  - unfold btree_init_impl in E. destr; [|done]. by injection E as <-.
  - unfold btree_init_impl in E. destr; [|done]. by injection E as <-.
Qed.

Definition fchunk0 : ftree := mkFtree (mkBtree BTREE_MAX_ORDER2 2 1 84 83 0 0 0 0) ∅.
Definition foffset0 : ftree := mkFtree (mkBtree BTREE_MAX_ORDER1 1 1 126 125 0 0 0 0) ∅.

(** A new disk of 2000 blocks after the first 100. *)
Definition boot : fstate ftree :=
  mkFstate (mkFrm [] [] 0 0 false false) fchunk0 foffset0 dstack_init (replicate 2 (replicate DSTACK_BUF_SIZE 0)).
Definition disk1 : fstate ftree := (freelist_init 409600 8192000 boot).2.
Definition disk2 : fstate ftree := (freelist_alloc 1 4096 disk1).2.
Definition disk3 : fstate ftree := (freelist_free_later 450560 4096 disk2).2.

Lemma fchunk0_ok : ft_rep 2 1 fchunk0 [] ∅.
Proof. by apply (ft_empty BTREE_MAX_ORDER2); [|apply Nat.leb_le..]. Qed.

Lemma foffset0_ok : ft_rep 1 1 foffset0 [] ∅.
Proof. by apply (ft_empty BTREE_MAX_ORDER1); [|apply Nat.leb_le..]. Qed.

Lemma boot_pages : Forall (fun p => length p = DSTACK_BUF_SIZE) (fs_pages boot).
Proof. by repeat constructor; rewrite length_replicate. Qed.

Lemma disk1_rest : exists M, rest True 168 disk1 [(450560, 8151040)] M [] false.
Proof.
  assert (Hw : wp True (freelist_init 409600 8192000) (fun _ s' => exists M, rest True 168 s' [(450560, 8151040)] M [] false) (fun _ _ => False) boot).
  { eapply wp_mono; [apply (freelist_init_ok True 168 409600 8192000 boot); try done|].
    - apply fchunk0_ok.
    - apply foffset0_ok.
    - by apply Nat.leb_le.
    - lia.
    - apply boot_pages.
    - intros [] s' (M & HR & _). by exists M. }
  unfold wp in Hw. assert (E : freelist_init 409600 8192000 boot = (Ok tt, disk1)) by (vm_compute; reflexivity). by rewrite E in Hw.
Qed.

Lemma freelist_alloc_correct_witness :
  match freelist_alloc 1 4096 disk1 with (Ok o, _) => exists l, ((o, l) ∈ [(450560, 8151040)]) /\ 4096 <= l | _ => False end.
Proof.
  destruct disk1_rest as [M HR]. pose proof (freelist_alloc_correct True 168 1 4096 disk1 _ M [] HR ltac:(lia) (or_introl I)) as Hw.
  destruct (freelist_alloc 1 4096 disk1) as [[o|e|] s'].
  - destruct Hw as [(l & Hin & Hl & _) _]. by exists l.
  - destruct Hw as (_ & _ & Hw). specialize (Hw (450560, 8151040) ltac:(left)). simpl in Hw. lia.
  - by destruct Hw.
Defined.

Lemma disk3_rest : exists F M, rest True 168 disk3 F M [(450560, 4096)] false /\ (length F <= 1)%nat.
Proof.
  destruct disk1_rest as [M HR]. pose proof (freelist_alloc_ok True 168 1 4096 disk1 _ M [] 1 HR ltac:(lia) ltac:(lia) (or_introl I) ltac:(lia)) as Hw.
  unfold wp in Hw. assert (E : freelist_alloc 1 4096 disk1 = (Ok 450560, disk2)) by (vm_compute; reflexivity). rewrite E in Hw.
  destruct Hw as (F1 & F' & M' & P' & HC & HR' & _ & Ho & _ & Hk). destruct (Hk I) as [-> ->]. pose proof HR' as (HI & HS & Hco).
  pose proof (free_later_ok True 168 450560 4096 disk2 F1 F1 M' [] false (fun _ _ => False) HI) as Hf. unfold wp in Hf.
  assert (E' : freelist_free_later 450560 4096 disk2 = (Ok tt, disk3)) by (vm_compute; reflexivity). rewrite E' in Hf.
  assert (Hpg : (2 <=? length (fs_pages disk2))%nat = true) by (vm_compute; reflexivity). apply Nat.leb_le in Hpg.
  destruct Hf as [HI' _]; [by intros _|]. exists F1, M'. split.
  - split; [done|]. split; [|done]. destruct HR as (_ & HS0 & _). eapply space_same; [exact HS0| |].
    + rewrite app_nil_r in HS. rewrite app_assoc. apply list.Forall_app. split; [apply HS|]. by repeat constructor.
    + intros z. rewrite Ho, !occ_app, occ_cons, occ_nil. lia.
  - destruct HR as (_ & HS0 & _). exact (carve_length _ _ 4096 450560 F1 ltac:(lia) HC HS0).
Qed.

Lemma freelist_commit_correct_witness : exists s' F' M', freelist_commit 1 1 disk3 = (Ok tt, s') /\ rest True 168 s' F' M' [] false.
Proof.
  destruct disk3_rest as (F & M & HR & HF). assert (Hc : (length [(450560, 4096)%Z] <= 1)%nat /\ (length F + 1 < 168)%nat) by (simpl; lia).
  pose proof (freelist_commit_correct True 168 1 1 disk3 F M _ HR (or_introl I) (fun _ => Hc)) as Hw.
  destruct (freelist_commit 1 1 disk3) as [[[]| |] s']; [|done|by destruct Hw]. destruct Hw as (F' & M' & HR' & _). by exists s', F', M'.
Defined.

Lemma freelist_no_overlap_witness :
  exists F M P, forall z, occ z ([(450560, 4096)] ++ owned F M P) = Nat.b2n (covers z (409600, 8192000)).
Proof.
  destruct (freelist_no_overlap 409600 8192000 1 1 disk2 [(450560, 4096)]) as (F & M & P & _ & Ho); [done|done|done| |by exists F, M, P].
  eapply cl_alloc; [|done|..].
  - eapply (cl_init _ _ _ _ boot disk1); [apply fchunk0_ok|apply foffset0_ok|by apply Nat.leb_le|by apply Nat.leb_le|done|apply boot_pages|].
    vm_compute. reflexivity.
  - vm_compute. reflexivity.
  - vm_compute. reflexivity.
Defined.

(** A disk with nothing free. *)
Definition full_disk : fstate ftree :=
  mkFstate (mkFrm (replicate FRM_BUF_SIZE 0) (replicate FRM_BUF_SIZE 0) 0 0 true false) fchunk0 foffset0 dstack_init [].

Lemma full_disk_rest : rest False 2 full_disk [] [] [] false.
Proof.
  split; [split|split]; try done.
  - exists ∅, ∅. split_and!; [apply fchunk0_ok|apply foffset0_ok|by rewrite elements_empty].
  - constructor.
  - set_solver.
  - by split; apply Nat.leb_le || reflexivity.
  - split; by apply Nat.leb_le.
  - split; [constructor|]. simpl. lia.
  - intros a b Ha. by apply not_elem_of_nil in Ha.
Qed.

Lemma frm_refill_takes_error_witness :
  exists s', frm_refill (freelist_alloc_svc (mret tt)) 1 full_disk = (Ok tt, s') /\ head (frm_pool (fs_frm s')) = Some (2 ^ 64 - E_NO_SPACE).
Proof.
  apply (frm_refill_takes_error False 2 (mret tt) full_disk [] [] [] false full_disk_rest).
  - intros c Hc. by apply not_elem_of_nil in Hc.
  - by apply Nat.ltb_lt.
Defined.

(** With trees of order 4 (at the orders of the kernel it takes more extents) a
    commit of three blocks makes the node manager run over: the refill was sized
    before its own allocations gave nodes back. *)
Fixpoint every_other (n : nat) : FM unit :=
  match n with
  | O => mret tt
  | S n => a ← freelist_alloc 3 4096; freelist_alloc 3 4096;; freelist_free_later a 4096;; every_other n
  end.

Definition small_trees : fstate ftree :=
  mkFstate (mkFrm [] [] 0 0 false false) (mkFtree (mkBtree 4 2 1 2 1 0 0 0 0) ∅) (mkFtree (mkBtree 4 1 1 2 1 0 0 0 0) ∅) dstack_init
    (replicate 2 (replicate DSTACK_BUF_SIZE 0)).

Example frm_refill_overflow :
  exists s, (freelist_init 409600 8192000;; every_other 3;; freelist_commit 3 100) small_trees = (Panic, s) /\
    n_use (fs_frm s) = FRM_BUF_SIZE /\ servicing (fs_frm s) = true.
Proof. eexists. split; [vm_compute; reflexivity|]. by split. Qed.
