(* ===== verification/Pstate.v ===== *)
(** * Objects on disk: the swap-out and swap-in code of kern/kern/pstate.c

    Every object has a record in the object map, a B+-tree from its id to the
    extent of the disk that holds it: a sector with its header and then its pages.
    Swapping out allocates a new extent, moves the old one to the list of deferred
    frees and writes header and pages in batches; swapping in reads them back.

    The disk is a function from offsets to bytes.  A transfer takes its outcome
    from a list: success, or a failure after a number of bytes.  The pages that
    [page_alloc] returns, with what they hold, are a list too. *)

From S2P Require Import Prelude KState KObj KAs Dstack Log BTree Index Freelist.
From stdpp Require Import options.

Set Default Goal Selector "!".

(** ** Bytes *)

Definition bytes_at (d : Z -> Z) (off : Z) (n : nat) : list Z := (fun i => d (off + Z.of_nat i)) <$> seq 0 n.

Definition put_bytes (d : Z -> Z) (off : Z) (l : list Z) : Z -> Z := fun z =>
  if (off <=? z) && (z <? off + Z.of_nat (length l)) then nth (Z.to_nat (z - off)) l 0 else d z.

(** A little-endian field of a header. *)
Definition le_decode (l : list Z) : Z := foldr (fun b acc => b + 256 * acc) 0 l.
Definition le_encode (n : nat) (v : Z) : list Z := (fun i => (v / 256 ^ Z.of_nat i) mod 256) <$> seq 0 n.
Definition hdr_get (off n : nat) (buf : list Z) : Z := le_decode (take n (drop off buf)).
Definition hdr_put (off n : nat) (v : Z) (buf : list Z) : list Z := take off buf ++ le_encode n v ++ drop (off + n) buf.

(** The offsets in [struct kobject_hdr]. *)
Definition off_ko_id : nat := 0.
Definition off_ko_nbytes : nat := 72.
Definition off_ko_flags : nat := 176.
Definition off_ko_type : nat := 180.
Definition off_ko_sync_ts : nat := 184.

(** An object as it is stored: the persistent part of its header, its pages, and
    what [kobject_initial] says of it. *)
Record snapshot := mkSnap { sn_buf : list Z; sn_pages : list (list Z); sn_initial : bool }.

Inductive disk_op := op_read | op_write.

(** [struct pstate_iov_collector]; a buffer is named by its index: the header is
    buffer 0 and page [i] is buffer [i + 1]. *)
Record iov_collector := mkIov { iov_buf : list (nat * Z); iov_bytes : Z; flush_off : Z; flush_op : disk_op }.

Definition iov_cnt (x : iov_collector) : nat := length (iov_buf x).
Definition iov_max : nat := 16.

Inductive obj_tree := BTREE_OBJMAP | BTREE_IOBJ.

Section pstate.
Context {T : Type} `{IndexOps T}.

(** Bounds on the rounds of the loops of the free list; the size of the partition;
    the outcome of [pagetree_put_page] for a page of a new object; whether the
    header of the disk is valid. *)
Context (fuel rounds : nat) (pd_size : Z) (put_page : nat -> res unit) (magic_ok : bool).

Record pst := mkPst {
  ps_free : fstate T;
  ps_objmap : T;
  ps_iobj : T;
  ps_disk : Z -> Z;
  ps_io : list (option nat);
  ps_mem : list (list Z);
  ps_bufs : list (list Z)
}.

Definition PM (A : Type) : Type := pst -> res A * pst.

#[export] Instance PM_ret : MRet PM := fun A a s => (Ok a, s).
#[export] Instance PM_bind : MBind PM := fun A B f m s =>
  match m s with
  | (Ok a, s') => f a s'
  | (Err e, s') => (Err e, s')
  | (Panic, s') => (Panic, s')
  end.

Definition pfail {A} (e : Z) : PM A := fun s => (Err e, s).
Definition ppanic {A} : PM A := fun s => (Panic, s).
Definition plift {A} (r : res A) : PM A := fun s => (r, s).
Definition passert (b : bool) : PM unit := if b then mret tt else ppanic.

(** The return code of a call as a value. *)
Definition pcode {A} (m : PM A) : PM (res A) := fun s =>
  match m s with
  | (Panic, s') => (Panic, s')
  | (r, s') => (Ok r, s')
  end.

Definition set_free (f : fstate T) (s : pst) : pst := mkPst f (ps_objmap s) (ps_iobj s) (ps_disk s) (ps_io s) (ps_mem s) (ps_bufs s).
Definition set_disk (d : Z -> Z) (s : pst) : pst := mkPst (ps_free s) (ps_objmap s) (ps_iobj s) d (ps_io s) (ps_mem s) (ps_bufs s).
Definition set_bufs (b : list (list Z)) (s : pst) : pst := mkPst (ps_free s) (ps_objmap s) (ps_iobj s) (ps_disk s) (ps_io s) (ps_mem s) b.

(** An operation of the free list. *)
Definition on_free {A} (m : FM A) : PM A := fun s => let '(r, f) := m (ps_free s) in (r, set_free f s).

(** ** The trees of objects: their nodes come from the free list and go back to it *)

Definition get_obj (id : obj_tree) (s : pst) : T := match id with BTREE_OBJMAP => ps_objmap s | BTREE_IOBJ => ps_iobj s end.
Definition set_obj (id : obj_tree) (x : T) (s : pst) : pst :=
  match id with
  | BTREE_OBJMAP => mkPst (ps_free s) x (ps_iobj s) (ps_disk s) (ps_io s) (ps_mem s) (ps_bufs s)
  | BTREE_IOBJ => mkPst (ps_free s) (ps_objmap s) x (ps_disk s) (ps_io s) (ps_mem s) (ps_bufs s)
  end.

(** The blocks that successive calls of [pbtree_new_node] get from the free list,
    with the state of the free list after each. *)
Fixpoint pbtree_pool (n : nat) (f : fstate T) : list (Z * fstate T) :=
  match n with
  | O => []
  | S n =>
      match freelist_alloc fuel BTREE_BLOCK_SIZE f with
      | (Ok o, f') => (o, f') :: pbtree_pool n f'
      | _ => []
      end
  end.

Definition pbtree_insert (id : obj_tree) (k : key) (v : value) : PM unit := fun s =>
  let x := get_obj id s in
  let steps := pbtree_pool (S (ix_room x)) (ps_free s) in
  let '(r, x', pool') := ix_insert k v x steps.*1 in
  let f := List.last (take (length steps - length pool') steps.*2) (ps_free s) in
  (r, set_free f (set_obj id x' s)).

(** [pbtree_free_node] of the nodes that a deletion drops. *)
Fixpoint pbtree_free_nodes (l : list Z) : PM unit :=
  match l with
  | [] => mret tt
  | o :: l => on_free (freelist_free_later o BTREE_BLOCK_SIZE);; pbtree_free_nodes l
  end.

Definition pbtree_delete (id : obj_tree) (k : key) : PM unit := fun s =>
  let '(r, x', back) := ix_delete k (get_obj id s) in
  match pbtree_free_nodes back (set_obj id x' s) with
  | (Ok _, s') => (r, s')
  | (Err e, s') => (Err e, s')
  | (Panic, s') => (Panic, s')
  end.

Definition pbtree_search (id : obj_tree) (k : key) : PM (key * value) := fun s => (ix_search k (get_obj id s), s).

(** ** Object map *)

Definition pstate_kobj_free (ko_id : Z) : PM unit :=
  r ← pcode (pbtree_search BTREE_OBJMAP [ko_id]);
  match r with
  | Ok (k, mobj) =>
      k0 ← plift (res_nth k 0);
      passert (k0 =? ko_id);;
      off ← plift (res_nth mobj 0);
      nbytes ← plift (res_nth mobj 1);
      on_free (freelist_free_later off nbytes);;
      r ← pcode (pbtree_delete BTREE_OBJMAP [ko_id]);
      passert (is_ok r);;
      r ← pcode (pbtree_delete BTREE_IOBJ [ko_id]);
      passert (match r with Ok _ => true | Err e => e =? E_NOT_FOUND | Panic => false end)
  | _ => mret tt
  end.

Definition pstate_kobj_alloc (ko_id : Z) (initial : bool) (objbytes : Z) : PM Z :=
  pstate_kobj_free ko_id;;
  let nbytes := u64 (KOBJ_DISK_SIZE + ROUNDUP objbytes PGSIZE) in
  offset ← on_free (freelist_alloc fuel nbytes);
  pbtree_insert BTREE_OBJMAP [ko_id] [offset; nbytes];;
  (if initial then pbtree_insert BTREE_IOBJ [ko_id] [0] else mret tt);;
  mret offset.

(** ** Scatter-gather transfers *)

Definition iov_data (bufs : list (list Z)) (iov : list (nat * Z)) : list Z :=
  concat ((fun e => take (Z.to_nat e.2) (nth e.1 bufs [])) <$> iov).

(** The bytes that arrive fill the buffers in order. *)
Fixpoint iov_fill (bufs : list (list Z)) (iov : list (nat * Z)) (data : list Z) : list (list Z) :=
  match iov with
  | [] => bufs
  | (b, len) :: iov =>
      let n := Z.to_nat len in
      iov_fill (<[b := take n data ++ drop n (nth b bufs [])]> bufs) iov (drop n data)
  end.

Definition iov_size (iov : list (nat * Z)) : Z := foldr (fun e acc => e.2 + acc) 0 iov.

Definition stackwrap_disk_iov (op : disk_op) (iov : list (nat * Z)) (offset : Z) : PM unit := fun s =>
  let size := u64 (iov_size iov) in
  if pd_size <? offset then (Err E_IO, s)
  else if pd_size <? u64 (offset + size) then (Err E_IO, s)
  else
    let s' := mkPst (ps_free s) (ps_objmap s) (ps_iobj s) (ps_disk s) (tail (ps_io s)) (ps_mem s) (ps_bufs s) in
    match op, hd None (ps_io s) with
    | op_write, None => (Ok tt, set_disk (put_bytes (ps_disk s) offset (iov_data (ps_bufs s) iov)) s')
    | op_write, Some k => (Err E_IO, set_disk (put_bytes (ps_disk s) offset (take k (iov_data (ps_bufs s) iov))) s')
    | op_read, None => (Ok tt, set_bufs (iov_fill (ps_bufs s) iov (bytes_at (ps_disk s) offset (Z.to_nat (iov_size iov)))) s')
    | op_read, Some _ => (Err E_IO, s')
    end.

Definition pstate_iov_flush (x : iov_collector) : PM iov_collector :=
  (if 0 <? iov_bytes x then stackwrap_disk_iov (flush_op x) (iov_buf x) (flush_off x) else mret tt);;
  mret (mkIov [] 0 (u64 (flush_off x + iov_bytes x)) (flush_op x)).

Definition pstate_iov_append (x : iov_collector) (buf : nat) (size : Z) : PM iov_collector :=
  x ← (if (iov_cnt x =? iov_max)%nat then pstate_iov_flush x else mret x);
  mret (mkIov (iov_buf x ++ [(buf, size)]) (u32 (iov_bytes x + size)) (flush_off x) (flush_op x)).

(** The bytes of a page that are transferred. *)
Definition page_bytes (objbytes : Z) (page : nat) : Z := Z.min (ROUNDUP (u64 (objbytes - Z.of_nat page * PGSIZE)) 512) PGSIZE.

(** ** Swapping in *)

Definition alloc_page : PM (list Z) := fun s =>
  match ps_mem s with
  | [] => (Err E_RESTART, s)
  | p :: mem => (Ok p, mkPst (ps_free s) (ps_objmap s) (ps_iobj s) (ps_disk s) (ps_io s) mem (ps_bufs s))
  end.

Definition add_buf (b : list Z) : PM unit := fun s => (Ok tt, set_bufs (ps_bufs s ++ [b]) s).

(** The loop over the pages, [n] of them from [page] on. *)
Fixpoint swapin_pages (ko_bytes : Z) (x : iov_collector) (page n : nat) : PM iov_collector :=
  match n with
  | O => mret x
  | S n =>
      p ← alloc_page;
      plift (put_page page);;
      let pagebytes := page_bytes ko_bytes page in
      add_buf (if pagebytes =? PGSIZE then p else replicate (Z.to_nat PGSIZE) 0);;
      x ← pstate_iov_append x (S page) pagebytes;
      swapin_pages ko_bytes x (S page) n
  end.

Definition pstate_swapin_mobj (off nbytes ko_id : Z) : PM snapshot :=
  p ← alloc_page;
  (fun s => (Ok tt, set_bufs [replicate 1024 0 ++ drop 1024 p] s));;
  x ← pstate_iov_append (mkIov [] 0 off op_read) 0 KOBJ_DISK_SIZE;
  let ko_bytes := u64 (nbytes - KOBJ_DISK_SIZE) in
  x ← swapin_pages ko_bytes x 0 (Z.to_nat (ROUNDUP ko_bytes PGSIZE / PGSIZE));
  pstate_iov_flush x;;
  bufs ← (fun s => (Ok (ps_bufs s), s));
  let buf := take (Z.to_nat KOBJ_DISK_SIZE) (nth 0 bufs []) in
  passert (hdr_get off_ko_id 8 buf =? ko_id);;
  mret (mkSnap buf (tail bufs) false).

(** [pstate_swapin_id] up to the entry in the cache of missing objects; the object
    that [kobject_swapin] gets is returned. *)
Definition pstate_swapin_id (ko_id : Z) : PM snapshot :=
  if negb magic_ok then pfail E_NOT_FOUND
  else
    m ← pbtree_search BTREE_OBJMAP [ko_id];
    off ← plift (res_nth m.2 0);
    nbytes ← plift (res_nth m.2 1);
    pstate_swapin_mobj off nbytes ko_id.

(** ** Swapping out *)

Fixpoint sync_pages (objbytes : Z) (x : iov_collector) (page n : nat) : PM iov_collector :=
  match n with
  | O => mret x
  | S n =>
      x ← pstate_iov_append x (S page) (page_bytes objbytes page);
      sync_pages objbytes x (S page) n
  end.

(** The size that is written: the whole last page when its tail is not clear. *)
Definition sync_bytes (nbytes : Z) (pages : list (list Z)) : res Z :=
  let pgoff := PGOFF nbytes in
  if pgoff =? 0 then Ok nbytes
  else
    (do p <- res_nth pages (Z.to_nat (ROUNDDOWN nbytes PGSIZE / PGSIZE));
     Ok (if forallb (Z.eqb 0) (drop (Z.to_nat pgoff) p) then nbytes else u64 (nbytes + (PGSIZE - pgoff))))%res.

(** The header as it is written. *)
Definition sync_header (sync_ts : Z) (buf : list Z) : list Z :=
  let buf := hdr_put off_ko_sync_ts 8 sync_ts buf in
  hdr_put off_ko_flags 4 (Z.lor (hdr_get off_ko_flags 4 buf) KOBJ_ON_DISK) buf.

Definition pstate_sync_kobj (sync_ts : Z) (snap : snapshot) : PM unit :=
  let buf := sync_header sync_ts (sn_buf snap) in
  let nbytes := hdr_get off_ko_nbytes 8 buf in
  objbytes ← plift (sync_bytes nbytes (sn_pages snap));
  off ← pstate_kobj_alloc (hdr_get off_ko_id 8 buf) (sn_initial snap) objbytes;
  (fun s => (Ok tt, set_bufs (buf :: sn_pages snap) s));;
  x ← pstate_iov_append (mkIov [] 0 off op_write) 0 KOBJ_DISK_SIZE;
  x ← sync_pages objbytes x 0 (Z.to_nat (ROUNDUP nbytes PGSIZE / PGSIZE));
  pstate_iov_flush x;;
  mret tt.

(** The loop of [pstate_sync_loop] over the objects that have a snapshot. *)
Definition sync_one (sync_ts : Z) (snap : snapshot) : PM unit :=
  if (hdr_get off_ko_type 4 (sn_buf snap) =? kobject_type_num kobj_dead) && negb (Z.land (hdr_get off_ko_flags 4 (sn_buf snap)) KOBJ_ON_DISK =? 0)
  then pstate_kobj_free (hdr_get off_ko_id 8 (sn_buf snap))
  else pstate_sync_kobj sync_ts snap.

Fixpoint pstate_sync_objects (sync_ts : Z) (l : list snapshot) : PM unit :=
  match l with
  | [] => mret tt
  | snap :: l => sync_one sync_ts snap;; pstate_sync_objects sync_ts l
  end.

(** [pstate_sync_loop]; [commit] is what follows [freelist_commit], the commit of
    the log. *)
Definition pstate_sync_loop (commit : PM unit) (sync_ts : Z) (l : list snapshot) : PM unit :=
  pstate_sync_objects sync_ts l;;
  on_free (freelist_commit fuel rounds);;
  commit.

End pstate.

Arguments pst : clear implicits.
Arguments mkPst {T}.
