(* ===== verification/PstateIO.v ===== *)
(** * Transfers of objects

    The batches in which [pstate_iov_append] and [pstate_iov_flush] split a
    transfer do not matter: a swap-out writes the header and the pages one after
    the other, a failure leaves everything outside of the extent alone, and a
    swap-in fills the buffers from there. *)

From S2P Require Import Prelude KState KObj KAs Dstack Log BTree Index Freelist Pstate.
From stdpp Require Import options.

Set Default Goal Selector "!".

(** ** Bytes on the disk *)

Lemma length_bytes_at d off n : length (bytes_at d off n) = n.
Proof. unfold bytes_at. by rewrite length_fmap, length_seq. Qed.

Lemma bytes_at_app d off n m : bytes_at d off (n + m) = bytes_at d off n ++ bytes_at d (off + Z.of_nat n) m.
Proof.
  unfold bytes_at. rewrite seq_app, fmap_app. f_equal. simpl. rewrite <- (Nat.add_0_r n) at 1. rewrite <- fmap_add_seq, <- list_fmap_compose.
  apply list_fmap_ext. intros i x _. simpl. f_equal. lia.
Qed.

Lemma bytes_at_ext d d' off n : (forall z, off <= z < off + Z.of_nat n -> d z = d' z) -> bytes_at d off n = bytes_at d' off n.
Proof.
  intros Hd. unfold bytes_at. apply list_fmap_ext. intros i x Hx. apply lookup_seq in Hx as [-> Hx]. apply Hd. lia.
Qed.

Lemma put_bytes_out d off l z : ~ (off <= z < off + Z.of_nat (length l)) -> put_bytes d off l z = d z.
Proof.
  intros Hz. unfold put_bytes. destruct (Z.leb_spec off z), (Z.ltb_spec z (off + Z.of_nat (length l))); simpl; [lia|done..].
Qed.

Lemma put_bytes_in d off l z : off <= z < off + Z.of_nat (length l) -> put_bytes d off l z = nth (Z.to_nat (z - off)) l 0.
Proof.
  intros Hz. unfold put_bytes. by rewrite (proj2 (Z.leb_le _ _)), (proj2 (Z.ltb_lt _ _)) by lia.
Qed.

Lemma put_bytes_app d d' off l l' z :
  (forall z, d' z = put_bytes d off l z) -> put_bytes d' (off + Z.of_nat (length l)) l' z = put_bytes d off (l ++ l') z.
Proof.
  intros Hd. unfold put_bytes at 1. rewrite Hd. unfold put_bytes. rewrite length_app.
  destruct (Z.leb_spec (off + Z.of_nat (length l)) z), (Z.ltb_spec z (off + Z.of_nat (length l) + Z.of_nat (length l'))),
    (Z.leb_spec off z), (Z.ltb_spec z (off + Z.of_nat (length l))), (Z.ltb_spec z (off + Z.of_nat (length l + length l'))); simpl; try lia; try done.
  - rewrite app_nth2 by lia. f_equal. lia.
  - by rewrite app_nth1 by lia.
Qed.

Lemma bytes_at_put d d' off l : (forall z, d' z = put_bytes d off l z) -> bytes_at d' off (length l) = l.
Proof.
  intros Hd. apply list_eq. intros i. unfold bytes_at. rewrite list_lookup_fmap.
  destruct (decide (i < length l)%nat) as [Hi|Hi].
  - rewrite lookup_seq_lt by done. simpl. rewrite Hd, put_bytes_in by lia. replace (Z.to_nat (off + Z.of_nat i - off)) with i by lia.
    destruct (lookup_lt_is_Some_2 l i Hi) as [x Hx]. rewrite Hx. f_equal. by apply nth_lookup_Some.
  - rewrite lookup_seq_ge by lia. by rewrite lookup_ge_None_2 by lia.
Qed.

(** The disk changed at most within [n] bytes from [off] on. *)
Definition only_in (d d' : Z -> Z) (off n : Z) : Prop := forall z, ~ (off <= z < off + n) -> d' z = d z.

(** ** Sizes *)

Definition fits (bufs : list (list Z)) (e : nat * Z) : Prop := 0 < e.2 <= PGSIZE /\ e.2 <= Z.of_nat (length (nth e.1 bufs [])).

Lemma iov_size_app l l' : iov_size (l ++ l') = iov_size l + iov_size l'.
Proof. induction l as [|e l IH]; simpl; [done|]. rewrite IH. lia. Qed.

Lemma iov_size_bounds bufs l : Forall (fits bufs) l -> 0 <= iov_size l <= PGSIZE * Z.of_nat (length l).
Proof. induction 1 as [|e l [[H1 H2] _] _ IH]; [simpl; lia|]. change (iov_size (e :: l)) with (e.2 + iov_size l). simpl length. unfold PGSIZE in *. lia. Qed.

Lemma iov_data_cons bufs e l : iov_data bufs (e :: l) = take (Z.to_nat e.2) (nth e.1 bufs []) ++ iov_data bufs l.
Proof. done. Qed.

Lemma length_iov_data bufs l : Forall (fits bufs) l -> Z.of_nat (length (iov_data bufs l)) = iov_size l.
Proof.
  induction 1 as [|e l [[H1 H2] H3] _ IH]; [done|]. change (iov_size (e :: l)) with (e.2 + iov_size l).
  rewrite iov_data_cons, length_app, length_take. lia.
Qed.

Lemma iov_data_app bufs l l' : iov_data bufs (l ++ l') = iov_data bufs l ++ iov_data bufs l'.
Proof. unfold iov_data. by rewrite fmap_app, concat_app. Qed.

Section io.
Context {T : Type} `{IndexOps T} (pd_size : Z) (Hpd : 0 <= pd_size < 2 ^ 63).

(** What a transfer leaves alone. *)
Definition same (s s' : pst T) : Prop :=
  ps_free s' = ps_free s /\ ps_objmap s' = ps_objmap s /\ ps_iobj s' = ps_iobj s.

Lemma same_trans s1 s2 s3 : same s1 s2 -> same s2 s3 -> same s1 s3.
Proof. unfold same. intros (? & ? & ?) (? & ? & ?). split_and!; congruence. Qed.

(** ** Writing *)

(** The entries [L] were written at [off] of the disk [d]; those of the collector
    are to come. *)
Record writing (d : Z -> Z) (off : Z) (bufs : list (list Z)) (L : list (nat * Z)) (x : iov_collector) (s : pst T) : Prop := {
  wr_bufs : ps_bufs s = bufs;
  wr_disk : forall z, ps_disk s z = put_bytes d off (iov_data bufs L) z;
  wr_off : flush_off x = off + iov_size L;
  wr_bytes : iov_bytes x = iov_size (iov_buf x);
  wr_op : flush_op x = op_write;
  wr_cnt : (length (iov_buf x) <= iov_max)%nat;
  wr_fits : Forall (fits bufs) (L ++ iov_buf x);
  wr_pos : 0 <= off;
}.

(** A failed transfer. *)
Definition failed (d : Z -> Z) (off n : Z) (s0 : pst T) (e : Z) (s' : pst T) : Prop :=
  e = E_IO /\ only_in d (ps_disk s') off n /\ same s0 s'.

Lemma put_bytes_only d off l n : Z.of_nat (length l) <= n -> only_in d (put_bytes d off l) off n.
Proof. intros Hl z Hz. apply put_bytes_out. lia. Qed.

Lemma flush_write_ok d off bufs L x s n :
  writing d off bufs L x s -> iov_size (L ++ iov_buf x) <= n -> off + n <= pd_size ->
  match pstate_iov_flush pd_size x s with
  | (Ok x', s') => writing d off bufs (L ++ iov_buf x) x' s' /\ iov_buf x' = [] /\ same s s'
  | (Err e, s') => failed d off n s e s'
  | (Panic, _) => False
  end.
Proof using Type*.
  intros [Hb Hd Ho Hby Hop Hcnt Hf Hp] Hn Hpn. rewrite iov_size_app in Hn. pose proof Hf as [HfL Hfx]%list.Forall_app.
  pose proof (iov_size_bounds _ _ HfL) as HL. pose proof (iov_size_bounds _ _ Hfx) as HX. pose proof (length_iov_data _ _ HfL) as HdL.
  pose proof (length_iov_data _ _ Hfx) as HdX. unfold pstate_iov_flush, mbind, PM_bind.
  assert (Hend : u64 (flush_off x + iov_bytes x) = off + iov_size (L ++ iov_buf x)).
  { rewrite Ho, Hby, iov_size_app. rewrite Z.add_assoc. apply Z.mod_small. lia. }
  destruct (Z.ltb_spec 0 (iov_bytes x)) as [Hpos|Hz].
  - unfold stackwrap_disk_iov. assert (u64 (iov_size (iov_buf x)) = iov_size (iov_buf x)) as -> by (apply Z.mod_small; lia).
    assert (u64 (flush_off x + iov_size (iov_buf x)) = flush_off x + iov_size (iov_buf x)) as -> by (apply Z.mod_small; lia).
    rewrite (proj2 (Z.ltb_ge pd_size (flush_off x))) by lia. rewrite (proj2 (Z.ltb_ge pd_size (flush_off x + _))) by lia. rewrite Hop, Hb.
    assert (Hput : forall l z, put_bytes (ps_disk s) (flush_off x) l z = put_bytes d off (iov_data bufs L ++ l) z).
    { intros l z. rewrite Ho, <- HdL. by apply put_bytes_app. }
    destruct (hd None (ps_io s)) as [k|].
    + split; [done|]. split; [|done]. cbn [ps_disk set_disk]. intros z Hz. rewrite Hput, put_bytes_out; [done|].
      rewrite length_app, length_take. lia.
    + split; [|done]. split; cbn [ps_bufs ps_disk set_disk iov_buf iov_bytes flush_off flush_op]; try done.
      * intros z. by rewrite Hput, iov_data_app.
      * simpl. lia.
      * by rewrite app_nil_r.
  - assert (iov_buf x = []) as E.
    { destruct (iov_buf x) as [|e l]; [done|]. exfalso. apply list.Forall_cons in Hfx as [[[? _] _] Hfl].
      pose proof (iov_size_bounds _ _ Hfl). simpl in Hby. lia. }
    rewrite E in *. rewrite app_nil_r in *. split; [|done]. split; cbn [iov_buf iov_bytes flush_off flush_op]; try done. by rewrite app_nil_r.
Qed.

Lemma append_write_ok d off bufs L x s n b size :
  writing d off bufs L x s -> fits bufs (b, size) -> iov_size (L ++ iov_buf x) + size <= n -> off + n <= pd_size ->
  match pstate_iov_append pd_size x b size s with
  | (Ok x', s') => exists L', writing d off bufs L' x' s' /\ L' ++ iov_buf x' = (L ++ iov_buf x) ++ [(b, size)] /\ same s s'
  | (Err e, s') => failed d off n s e s'
  | (Panic, _) => False
  end.
Proof using Type*.
  intros Hw Hfit Hn Hpn. destruct (Hfit) as [[Hs1 Hs2] _]. simpl in Hs1, Hs2.
  assert (Hadd : forall L x s, writing d off bufs L x s -> (length (iov_buf x) < iov_max)%nat ->
    writing d off bufs L (mkIov (iov_buf x ++ [(b, size)]) (u32 (iov_bytes x + size)) (flush_off x) (flush_op x)) s).
  { intros L1 x1 s1 [Hb Hd Ho Hby Hop Hcnt Hf Hp] Hlt. pose proof Hf as [_ Hfx]%list.Forall_app. pose proof (iov_size_bounds _ _ Hfx) as HX.
    split; cbn [iov_buf iov_bytes flush_off flush_op]; try done.
    - rewrite iov_size_app, Hby. simpl. rewrite Z.add_0_r. apply Z.mod_small. unfold iov_max, PGSIZE in *. lia.
    - rewrite length_app. simpl. lia.
    - rewrite app_assoc. apply list.Forall_app. by split; [|constructor]. }
  unfold pstate_iov_append, mbind at 1, PM_bind at 1. unfold iov_cnt. destruct (Nat.eqb_spec (length (iov_buf x)) iov_max) as [E|E].
  - pose proof (flush_write_ok d off bufs L x s n Hw ltac:(lia) Hpn) as Hfl. destruct (pstate_iov_flush pd_size x s) as [[x1| |] s1]; [|done..].
    destruct Hfl as (Hw1 & Hx1 & Hs). exists (L ++ iov_buf x). split; [|by cbn [iov_buf]; rewrite Hx1].
    apply Hadd; [done|]. rewrite Hx1. unfold iov_max. simpl. lia.
  - exists L. split; [apply Hadd; [done|]|split; [cbn [iov_buf]; by rewrite app_assoc|done]]. pose proof (wr_cnt _ _ _ _ _ _ Hw). lia.
Qed.

(** The pages of an object, [n] of them from [page] on. *)
Definition page_entries (objbytes : Z) (page n : nat) : list (nat * Z) := (fun i => (S i, page_bytes objbytes i)) <$> seq page n.

Lemma sync_pages_ok d off bufs objbytes n page L x s m :
  writing d off bufs L x s -> Forall (fits bufs) (page_entries objbytes page n) ->
  iov_size (L ++ iov_buf x) + iov_size (page_entries objbytes page n) <= m -> off + m <= pd_size ->
  match sync_pages pd_size objbytes x page n s with
  | (Ok x', s') => exists L', writing d off bufs L' x' s' /\ L' ++ iov_buf x' = (L ++ iov_buf x) ++ page_entries objbytes page n /\ same s s'
  | (Err e, s') => failed d off m s e s'
  | (Panic, _) => False
  end.
Proof using Type*.
  revert page L x s. induction n as [|n IH]; intros page L x s Hw Hf Hn Hpn.
  { exists L. split_and!; [done|by rewrite app_nil_r|done..]. }
  change (page_entries objbytes page (S n)) with ((S page, page_bytes objbytes page) :: page_entries objbytes (S page) n) in *.
  apply list.Forall_cons in Hf as [Hfit Hf]. change (iov_size (?e :: ?l)) with (e.2 + iov_size l) in Hn. cbn [snd] in Hn.
  pose proof (iov_size_bounds _ _ Hf) as Hb. cbn [sync_pages]. unfold mbind at 1, PM_bind at 1.
  pose proof (append_write_ok d off bufs L x s m _ _ Hw Hfit ltac:(lia) Hpn) as Ha.
  destruct (pstate_iov_append pd_size x (S page) (page_bytes objbytes page) s) as [[x1| |] s1]; [|done..].
  destruct Ha as (L1 & Hw1 & HL1 & Hs1). specialize (IH (S page) L1 x1 s1 Hw1 Hf).
  rewrite HL1, iov_size_app in IH. cbn [iov_size foldr snd] in IH. specialize (IH ltac:(lia) Hpn).
  destruct (sync_pages pd_size objbytes x1 (S page) n s1) as [[x2|e|] s2]; [| |done].
  - destruct IH as (L2 & Hw2 & HL2 & Hs2). exists L2. split_and!; [done| |by eapply same_trans..]. by rewrite HL2, <- app_assoc.
  - destruct IH as (-> & Hd & Hs2). split_and!; [done..|by eapply same_trans].
Qed.

(** ** Reading *)

(** The buffers [inits] filled one after the other from [off] on. *)
Fixpoint filled (d : Z -> Z) (off : Z) (sizes : list Z) (inits : list (list Z)) : list (list Z) :=
  match sizes, inits with
  | n :: sizes, b :: inits => (bytes_at d off (Z.to_nat n) ++ drop (Z.to_nat n) b) :: filled d (off + n) sizes inits
  | _, _ => []
  end.

Definition sum (l : list Z) : Z := foldr Z.add 0 l.

(** Transfers into the buffers from [i] on. *)
Definition reads (i : nat) (sizes : list Z) : list (nat * Z) := zip (seq i (length sizes)) sizes.

Lemma iov_size_reads i sizes : iov_size (reads i sizes) = sum sizes.
Proof using. revert i. induction sizes as [|n sizes IH]; intros i; [done|]. change (n + iov_size (reads (S i) sizes) = n + sum sizes). by rewrite IH. Qed.

Lemma iov_fill_reads d off i B inits sizes rest :
  i = length B -> (length sizes <= length inits)%nat -> Forall (fun n => 0 < n <= PGSIZE) sizes ->
  iov_fill (B ++ inits) (reads i sizes) (bytes_at d off (Z.to_nat (sum sizes)) ++ rest) = B ++ filled d off sizes inits ++ drop (length sizes) inits.
Proof using.
  intros ->. revert B off inits. induction sizes as [|n sizes IH]; intros B off inits Hl Hs; [done|]. destruct inits as [|b inits]; [simpl in Hl; lia|]. simpl in Hl.
  apply list.Forall_cons in Hs as [[Hn _] Hs]. assert (Hsum : 0 <= sum sizes) by (clear -Hs; induction Hs; simpl; lia).
  change (reads (length B) (n :: sizes)) with ((length B, n) :: reads (S (length B)) sizes). cbn [iov_fill].
  assert (E : bytes_at d off (Z.to_nat (sum (n :: sizes))) = bytes_at d off (Z.to_nat n) ++ bytes_at d (off + n) (Z.to_nat (sum sizes))).
  { change (sum (n :: sizes)) with (n + sum sizes). rewrite Z2Nat.inj_add, bytes_at_app by lia. by rewrite Z2Nat.id by lia. }
  rewrite E, <- app_assoc. rewrite take_app_length' by (by rewrite length_bytes_at). rewrite drop_app_length' by (by rewrite length_bytes_at).
  rewrite app_nth2, Nat.sub_diag by lia. cbn [nth]. rewrite insert_app_r_alt, Nat.sub_diag by lia. cbn [filled].
  set (b' := bytes_at d off (Z.to_nat n) ++ drop (Z.to_nat n) b).
  change (<[0%nat := b']> (b :: inits)) with ([b'] ++ inits). rewrite app_assoc.
  replace (S (length B)) with (length (B ++ [b'])) by (rewrite length_app; simpl; lia). rewrite IH by (done || lia). by rewrite <- app_assoc.
Qed.

(** Of the transfers [sizes] into the buffers [inits], the first [k] are done. *)
Record reading (d : Z -> Z) (off : Z) (sizes : list Z) (inits : list (list Z)) (k : nat) (x : iov_collector) (s : pst T) : Prop := {
  rd_bufs : ps_bufs s = filled d off (take k sizes) inits ++ drop k inits;
  rd_disk : ps_disk s = d;
  rd_k : (k <= length sizes)%nat;
  rd_len : (length sizes <= length inits)%nat;
  rd_buf : iov_buf x = reads k (drop k sizes);
  rd_off : flush_off x = off + sum (take k sizes);
  rd_bytes : iov_bytes x = sum (drop k sizes);
  rd_op : flush_op x = op_read;
  rd_cnt : (length (iov_buf x) <= iov_max)%nat;
  rd_sizes : Forall (fun n => 0 < n <= PGSIZE) sizes;
  rd_pos : 0 <= off;
}.

Lemma sum_app l l' : sum (l ++ l') = sum l + sum l'.
Proof using. induction l as [|n l IH]; simpl; [done|]. lia. Qed.

Lemma sum_take_drop k l : sum (take k l) + sum (drop k l) = sum l.
Proof using. by rewrite <- sum_app, take_drop. Qed.

Lemma sum_bounds l : Forall (fun n => 0 < n <= PGSIZE) l -> 0 <= sum l <= PGSIZE * Z.of_nat (length l).
Proof using. induction 1 as [|n l [H1 H2] _ IH]; [simpl; lia|]. change (sum (n :: l)) with (n + sum l). simpl length. unfold PGSIZE in *. lia. Qed.

Lemma length_filled d off sizes inits : (length sizes <= length inits)%nat -> length (filled d off sizes inits) = length sizes.
Proof using. revert off inits. induction sizes as [|n sizes IH]; intros off [|b inits] Hl; try done; simpl in *; [lia|]. by rewrite IH by lia. Qed.

Lemma filled_app d off s1 s2 b :
  (length s1 + length s2 <= length b)%nat -> filled d off (s1 ++ s2) b = filled d off s1 b ++ filled d (off + sum s1) s2 (drop (length s1) b).
Proof using.
  revert off b. induction s1 as [|n s1 IH]; intros off b Hl; [simpl; by rewrite Z.add_0_r|]. destruct b as [|b bs]; [simpl in Hl; lia|].
  simpl. f_equal. rewrite IH by (simpl in Hl; lia). by rewrite Z.add_assoc.
Qed.

(** What comes after the buffers that are filled does not matter. *)
Lemma filled_more d off sizes b b' : (length sizes <= length b)%nat -> filled d off sizes (b ++ b') = filled d off sizes b.
Proof using.
  revert off b. induction sizes as [|n sizes IH]; intros off b Hl; [done|]. destruct b as [|x b]; [simpl in Hl; lia|]. simpl in *.
  by rewrite IH by lia.
Qed.

Lemma length_reads i sizes : length (reads i sizes) = length sizes.
Proof using. unfold reads. rewrite length_zip_with, length_seq. lia. Qed.

Lemma reads_snoc i sizes n : reads i (sizes ++ [n]) = reads i sizes ++ [((i + length sizes)%nat, n)].
Proof using.
  unfold reads. rewrite length_app, seq_app. simpl. rewrite zip_with_app by (by rewrite length_seq). done.
Qed.

Lemma flush_read_ok d off sizes inits k x s :
  reading d off sizes inits k x s -> off + sum sizes <= pd_size ->
  match pstate_iov_flush pd_size x s with
  | (Ok x', s') => reading d off sizes inits (length sizes) x' s' /\ same s s' /\ ps_mem s' = ps_mem s /\ (ps_io s = [] -> ps_io s' = [])
  | (Err e, s') => e = E_IO /\ ps_io s <> [] /\ same s s'
  | (Panic, _) => False
  end.
Proof using Type*.
  intros [Hb Hd Hk Hl Hbuf Ho Hby Hop Hcnt Hsz Hp] Hpn. pose proof (sum_bounds _ Hsz) as Hsum. pose proof (sum_take_drop k sizes) as Hst.
  assert (Hd0 : 0 <= sum (drop k sizes)) by (apply sum_bounds, list.Forall_drop, Hsz).
  assert (Ht0 : 0 <= sum (take k sizes)) by (apply sum_bounds, list.Forall_take, Hsz).
  assert (Hdone : forall s', ps_disk s' = d -> ps_bufs s' = filled d off sizes inits ++ drop (length sizes) inits ->
    reading d off sizes inits (length sizes) (mkIov [] 0 (u64 (flush_off x + iov_bytes x)) (flush_op x)) s').
  { intros s' E1 E2. split; cbn [iov_buf iov_bytes flush_off flush_op]; try done.
    - by rewrite E2, take_ge by lia.
    - by rewrite drop_ge by lia.
    - rewrite Ho, Hby, (take_ge sizes (length sizes)) by lia.
      replace (off + sum (take k sizes) + sum (drop k sizes)) with (off + sum sizes) by lia. apply Z.mod_small. lia.
    - by rewrite drop_ge by lia.
    - simpl. lia. }
  assert (Hlt : length (take k sizes) = k) by (rewrite length_take; lia). assert (Hld : length (drop k sizes) = (length sizes - k)%nat) by apply length_drop.
  assert (Hfull : filled d off sizes inits = filled d off (take k sizes) inits ++ filled d (off + sum (take k sizes)) (drop k sizes) (drop k inits)).
  { rewrite <- (take_drop k sizes) at 1. rewrite filled_app by lia. by rewrite Hlt. }
  unfold pstate_iov_flush, mbind, PM_bind. destruct (Z.ltb_spec 0 (iov_bytes x)) as [Hpos|Hz].
  - unfold stackwrap_disk_iov. assert (His : iov_size (iov_buf x) = sum (drop k sizes)) by (rewrite Hbuf; apply iov_size_reads). rewrite His.
    assert (u64 (sum (drop k sizes)) = sum (drop k sizes)) as -> by (apply Z.mod_small; lia).
    assert (u64 (flush_off x + sum (drop k sizes)) = flush_off x + sum (drop k sizes)) as -> by (apply Z.mod_small; lia).
    rewrite (proj2 (Z.ltb_ge pd_size (flush_off x))) by lia. rewrite (proj2 (Z.ltb_ge pd_size (flush_off x + _))) by lia. rewrite Hop in *.
    assert (Hfill : iov_fill (ps_bufs s) (iov_buf x) (bytes_at (ps_disk s) (flush_off x) (Z.to_nat (sum (drop k sizes)))) =
      filled d off sizes inits ++ drop (length sizes) inits).
    { rewrite Hfull, Hb, Hbuf, Hd, Ho. rewrite <- (app_nil_r (bytes_at _ _ _)).
      rewrite (iov_fill_reads d (off + sum (take k sizes)) k (filled d off (take k sizes) inits) (drop k inits) (drop k sizes) []).
      - rewrite <- app_assoc. do 2 f_equal. rewrite drop_drop. f_equal. lia.
      - rewrite length_filled; lia.
      - rewrite !length_drop. lia.
      - by apply list.Forall_drop. }
    destruct (ps_io s) as [|[j|] io] eqn:Eio; cbn [hd tail]; [|done|]; (split; [apply Hdone; cbn [ps_disk ps_bufs set_bufs]; done|done]).
  - split; [apply Hdone; [done|]|done]. assert (E : drop k sizes = []).
    { destruct (drop k sizes) as [|n l] eqn:E; [done|]. exfalso. pose proof (list.Forall_drop _ k _ Hsz) as Hf. rewrite E in Hf.
      apply list.Forall_cons in Hf as [? Hf]. pose proof (sum_bounds _ Hf). simpl in Hby. lia. }
    rewrite E in Hld, Hfull. simpl in Hld. assert (k = length sizes) as -> by lia. rewrite Hfull. simpl. by rewrite app_nil_r.
Qed.

Lemma append_read_ok d off sizes inits k x s n b :
  reading d off sizes inits k x s -> (length sizes < length inits)%nat -> 0 < n <= PGSIZE -> off + sum sizes + n <= pd_size -> b = length sizes ->
  match pstate_iov_append pd_size x b n s with
  | (Ok x', s') => exists k', reading d off (sizes ++ [n]) inits k' x' s' /\ same s s' /\ ps_mem s' = ps_mem s /\ (ps_io s = [] -> ps_io s' = [])
  | (Err e, s') => e = E_IO /\ ps_io s <> [] /\ same s s'
  | (Panic, _) => False
  end.
Proof using Type*.
  intros Hr Hlen Hn Hpn ->.
  assert (Hadd : forall k x s, reading d off sizes inits k x s -> (length (iov_buf x) < iov_max)%nat ->
    reading d off (sizes ++ [n]) inits k (mkIov (iov_buf x ++ [(length sizes, n)]) (u32 (iov_bytes x + n)) (flush_off x) (flush_op x)) s).
  { intros k1 x1 s1 [Hb Hd Hk Hl Hbuf Ho Hby Hop Hcnt Hsz Hp] Hlt. assert (Hds : Forall (fun n => 0 < n <= PGSIZE) (drop k1 sizes)) by by apply list.Forall_drop.
    pose proof (sum_bounds _ Hds) as Hb1. rewrite Hbuf, length_reads in Hlt.
    split; cbn [iov_buf iov_bytes flush_off flush_op]; try done.
    - by rewrite take_app_le by lia.
    - rewrite length_app. lia.
    - rewrite length_app. simpl. lia.
    - rewrite drop_app_le, reads_snoc by lia. rewrite Hbuf, length_drop. do 3 f_equal. lia.
    - by rewrite take_app_le by lia.
    - rewrite drop_app_le, sum_app, Hby by lia. simpl. rewrite Z.add_0_r. apply Z.mod_small. unfold iov_max, PGSIZE in *. lia.
    - rewrite length_app, Hbuf, length_reads. simpl. lia.
    - apply list.Forall_app. by split; [|constructor]. }
  unfold pstate_iov_append, mbind at 1, PM_bind at 1. unfold iov_cnt. destruct (Nat.eqb_spec (length (iov_buf x)) iov_max) as [E|E].
  - pose proof (flush_read_ok d off sizes inits k x s Hr ltac:(lia)) as Hfl. destruct (pstate_iov_flush pd_size x s) as [[x1| |] s1]; [|done..].
    destruct Hfl as (Hr1 & Hs). exists (length sizes). split; [|done]. apply Hadd; [done|].
    rewrite (rd_buf _ _ _ _ _ _ _ Hr1), length_reads, length_drop. unfold iov_max. lia.
  - exists k. split; [apply Hadd; [done|]|done]. pose proof (rd_cnt _ _ _ _ _ _ _ Hr). lia.
Qed.

(** A page read or to be read. *)
Lemma reading_add_buf d off sizes inits k x s b :
  reading d off sizes inits k x s -> reading d off sizes (inits ++ [b]) k x (set_bufs (ps_bufs s ++ [b]) s).
Proof using.
  intros [Hb Hd Hk Hl Hbuf Ho Hby Hop Hcnt Hsz Hp]. split; try done.
  - cbn [ps_bufs set_bufs]. rewrite Hb, drop_app_le, filled_more by (rewrite ?length_take; lia). by rewrite <- app_assoc.
  - rewrite length_app. lia.
Qed.

(** ** Swapping in *)

Context (put_page : nat -> res unit).

(** Nothing stands in the way of reading [n] more pages of an object of [N]. *)
Definition supplied (N n : nat) (s : pst T) : Prop :=
  ps_io s = [] /\ (n <= length (ps_mem s))%nat /\ forall i, (i < N)%nat -> put_page i = Ok tt.

Lemma page_bytes_full N page : (page < N)%nat -> Z.of_nat N * PGSIZE < 2 ^ 63 -> page_bytes (Z.of_nat N * PGSIZE) page = PGSIZE.
Proof using.
  intros Hp HN. unfold page_bytes, PGSIZE in *. assert (E : u64 (Z.of_nat N * 4096 - Z.of_nat page * 4096) = Z.of_nat (N - page) * 4096).
  { unfold u64. rewrite Z.mod_small; lia. }
  rewrite E. apply Z.min_r. unfold ROUNDUP, u64. rewrite (Z.mod_small _ (2 ^ 64)) by lia.
  pose proof (Z.mod_pos_bound (Z.of_nat (N - page) * 4096 + 512 - 1) 512 ltac:(lia)). lia.
Qed.

Definition whole_pages (N : nat) : list Z := KOBJ_DISK_SIZE :: replicate N PGSIZE.

Lemma sum_whole_pages N : sum (whole_pages N) = KOBJ_DISK_SIZE + Z.of_nat N * PGSIZE.
Proof using.
  change (sum (whole_pages N)) with (KOBJ_DISK_SIZE + sum (replicate N PGSIZE)). f_equal.
  induction N as [|N IH]; [done|]. change (sum (replicate (S N) PGSIZE)) with (PGSIZE + sum (replicate N PGSIZE)). rewrite IH. unfold PGSIZE. lia.
Qed.

Lemma swapin_pages_ok d off N page n inits k x s :
  reading d off (whole_pages page) inits k x s -> length inits = S page -> (page + n = N)%nat -> off + KOBJ_DISK_SIZE + Z.of_nat N * PGSIZE <= pd_size ->
  Forall (fun p => length p = Z.to_nat PGSIZE) (ps_mem s) ->
  match swapin_pages pd_size put_page (Z.of_nat N * PGSIZE) x page n s with
  | (Ok x', s') => exists new k', reading d off (whole_pages N) (inits ++ new) k' x' s' /\ length new = n /\
      Forall (fun p => length p = Z.to_nat PGSIZE) new /\ same s s' /\ (ps_io s = [] -> ps_io s' = [])
  | (Err _, s') => ~ supplied N n s /\ same s s'
  | (Panic, _) => ~ supplied N n s
  end.
Proof using Type*.
  revert page inits k x s. induction n as [|n IH]; intros page inits k x s Hr Hlen Hpn Hpd' Hmem.
  { exists [], k. rewrite app_nil_r. assert (page = N) as -> by lia. split_and!; try done. }
  cbn [swapin_pages]. unfold mbind at 1, PM_bind at 1, alloc_page. destruct (ps_mem s) as [|p mem] eqn:Em.
  { split; [intros (_ & Hm & _); rewrite Em in Hm; simpl in Hm; lia|done]. }
  apply list.Forall_cons in Hmem as [Hp Hmem]. set (s1 := mkPst _ _ _ _ _ mem _). unfold mbind at 1, PM_bind at 1, plift.
  destruct (put_page page) as [[]|e|] eqn:Ep.
  2:{ split; [|done]. intros (_ & _ & Hput). by rewrite Hput in Ep by lia. }
  2:{ intros (_ & _ & Hput). by rewrite Hput in Ep by lia. }
  rewrite page_bytes_full, Z.eqb_refl by (unfold KOBJ_DISK_SIZE, PGSIZE in *; lia || destruct Hr; lia).
  unfold mbind at 1, PM_bind at 1, add_buf. pose proof (reading_add_buf _ _ _ _ _ _ _ p Hr) as Hr1.
  set (s2 := set_bufs (ps_bufs s1 ++ [p]) s1). assert (Hr2 : reading d off (whole_pages page) (inits ++ [p]) k x s2) by (by destruct Hr1).
  unfold mbind at 1, PM_bind at 1.
  assert (Hsz : length (whole_pages page) = S page) by (simpl; by rewrite length_replicate).
  pose proof (append_read_ok d off (whole_pages page) (inits ++ [p]) k x s2 PGSIZE (S page) Hr2) as Ha.
  rewrite length_app, Hsz, sum_whole_pages in Ha. simpl length in Ha.
  specialize (Ha ltac:(lia) ltac:(unfold PGSIZE; lia) ltac:(unfold PGSIZE, KOBJ_DISK_SIZE in *; lia) eq_refl).
  assert (Hsup : supplied N (S n) s -> ps_io s2 = [] /\ (n <= length mem)%nat /\ forall i, (i < N)%nat -> put_page i = Ok tt).
  { intros (H1 & H2 & H3). rewrite Em in H2. simpl in H2. split_and!; [done|lia|done]. }
  destruct (pstate_iov_append pd_size x (S page) PGSIZE s2) as [[x1|e|] s3]; [| |done].
  2:{ destruct Ha as (_ & Hio & Hs). split; [|done]. intros (Hc & _)%Hsup. done. }
  destruct Ha as (k1 & Hr3 & Hs3 & Hm3 & Hio3).
  assert (Hw : whole_pages page ++ [PGSIZE] = whole_pages (S page)) by (unfold whole_pages; rewrite replicate_S_end; done). rewrite Hw in Hr3.
  specialize (IH (S page) (inits ++ [p]) k1 x1 s3 Hr3 ltac:(rewrite length_app; simpl; lia) ltac:(lia) Hpd').
  rewrite Hm3 in IH. specialize (IH Hmem).
  assert (Hsup' : supplied N (S n) s -> supplied N n s3).
  { intros (H1 & H2 & H3)%Hsup. split_and!; [by apply Hio3|by rewrite Hm3|done]. }
  destruct (swapin_pages pd_size put_page (Z.of_nat N * PGSIZE) x1 (S page) n s3) as [[x2|e|] s4].
  - destruct IH as (new & k2 & Hr4 & Hl4 & Hf4 & Hs4 & Hio4). exists (p :: new), k2. rewrite <- app_assoc in Hr4. assert (Hss : same s s4) by (apply (same_trans s s3); done). split_and!; [done|simpl; lia|by constructor|apply Hss..|].
    intros E. by apply Hio4, Hio3.
  - destruct IH as [Hns Hs4]. split; [by intros Hc%Hsup'|by eapply same_trans].
  - by intros Hc%Hsup'.
Qed.

(** The pages on the disk from [off] on. *)
Definition pages_at (d : Z -> Z) (off : Z) (N : nat) : list (list Z) :=
  (fun i => bytes_at d (off + Z.of_nat i * PGSIZE) (Z.to_nat PGSIZE)) <$> seq 0 N.

Lemma pages_at_S d off N : pages_at d off (S N) = bytes_at d off (Z.to_nat PGSIZE) :: pages_at d (off + PGSIZE) N.
Proof using.
  unfold pages_at. rewrite <- cons_seq, <- fmap_S_seq, fmap_cons, <- list_fmap_compose. f_equal; [f_equal; lia|].
  apply list_fmap_ext. intros i x _. simpl. f_equal. unfold PGSIZE. lia.
Qed.

Lemma filled_pages d off N inits :
  length inits = N -> Forall (fun p => length p = Z.to_nat PGSIZE) inits -> filled d off (replicate N PGSIZE) inits = pages_at d off N.
Proof using.
  revert off inits. induction N as [|N IH]; intros off [|p inits] Hl Hf; try done. apply list.Forall_cons in Hf as [Hp Hf].
  rewrite pages_at_S. cbn [replicate filled]. rewrite drop_ge, app_nil_r by lia. f_equal. apply IH; [by injection Hl|done].
Qed.

Lemma swapin_mobj_ok off N ko_id s :
  0 <= off -> off + KOBJ_DISK_SIZE + Z.of_nat N * PGSIZE <= pd_size -> Forall (fun p => length p = Z.to_nat PGSIZE) (ps_mem s) ->
  match pstate_swapin_mobj pd_size put_page off (KOBJ_DISK_SIZE + Z.of_nat N * PGSIZE) ko_id s with
  | (Ok sn, s') => sn_buf sn = bytes_at (ps_disk s) off (Z.to_nat KOBJ_DISK_SIZE) /\ sn_pages sn = pages_at (ps_disk s) (off + KOBJ_DISK_SIZE) N /\
      hdr_get off_ko_id 8 (sn_buf sn) = ko_id /\ ps_disk s' = ps_disk s /\ same s s'
  | (Err _, s') => ~ supplied N (S N) s /\ same s s'
  | (Panic, _) => supplied N (S N) s -> hdr_get off_ko_id 8 (bytes_at (ps_disk s) off (Z.to_nat KOBJ_DISK_SIZE)) <> ko_id
  end.
Proof using Type*.
  intros Ho Hn Hmem. unfold pstate_swapin_mobj. unfold mbind at 1, PM_bind at 1, alloc_page. destruct (ps_mem s) as [|p mem] eqn:Em.
  { split; [intros (_ & Hm & _); rewrite Em in Hm; simpl in Hm; lia|done]. }
  apply list.Forall_cons in Hmem as [Hp Hmem]. set (s1 := mkPst _ _ _ _ _ mem _). unfold mbind at 1, PM_bind at 1.
  set (b0 := replicate 1024 0 ++ drop 1024 p). set (s2 := set_bufs [b0] s1). set (d := ps_disk s).
  assert (Hr0 : reading d off [] [b0] 0 (mkIov [] 0 off op_read) s2) by (split; simpl; done || lia).
  unfold mbind at 1, PM_bind at 1.
  pose proof (append_read_ok d off [] [b0] 0 (mkIov [] 0 off op_read) s2 KOBJ_DISK_SIZE 0 Hr0 ltac:(simpl; lia) ltac:(unfold KOBJ_DISK_SIZE, PGSIZE; lia)) as Ha.
  specialize (Ha ltac:(simpl; unfold KOBJ_DISK_SIZE, PGSIZE in *; lia) eq_refl).
  assert (Hsup : supplied N (S N) s -> ps_io s2 = [] /\ (N <= length mem)%nat /\ forall i, (i < N)%nat -> put_page i = Ok tt).
  { intros (H1 & H2 & H3). rewrite Em in H2. simpl in H2. split_and!; [done|lia|done]. }
  destruct (pstate_iov_append pd_size (mkIov [] 0 off op_read) 0 KOBJ_DISK_SIZE s2) as [[x1|e|] s3]; [| |done].
  2:{ destruct Ha as (_ & Hio & Hs). split; [|done]. intros (Hc & _)%Hsup. done. }
  destruct Ha as (k1 & Hr1 & Hs3 & Hm3 & Hio3).
  assert (Hkb : u64 (KOBJ_DISK_SIZE + Z.of_nat N * PGSIZE - KOBJ_DISK_SIZE) = Z.of_nat N * PGSIZE) by (unfold u64, KOBJ_DISK_SIZE, PGSIZE in *; rewrite Z.mod_small; lia).
  assert (Hnp : Z.to_nat (ROUNDUP (Z.of_nat N * PGSIZE) PGSIZE / PGSIZE) = N).
  { unfold ROUNDUP, u64, KOBJ_DISK_SIZE, PGSIZE in *. rewrite (Z.mod_small _ (2 ^ 64)) by lia.
    pose proof (Z.mod_add (4096 - 1) (Z.of_nat N) 4096 ltac:(lia)) as E1. replace (Z.of_nat N * 4096 + 4096 - 1) with (4096 - 1 + Z.of_nat N * 4096) by lia. rewrite E1.
    change ((4096 - 1) mod 4096) with 4095. replace (4096 - 1 + Z.of_nat N * 4096 - 4095) with (Z.of_nat N * 4096) by lia. rewrite Z.div_mul by lia. lia. }
  cbv zeta. rewrite Hkb, Hnp. unfold mbind at 1, PM_bind at 1.
  pose proof (swapin_pages_ok d off N 0 N [b0] k1 x1 s3 Hr1 eq_refl ltac:(lia) Hn) as Hpg. rewrite Hm3 in Hpg. specialize (Hpg Hmem).
  assert (Hsup' : supplied N (S N) s -> supplied N N s3) by (intros (H1 & H2 & H3)%Hsup; split_and!; [by apply Hio3|by rewrite Hm3|done]).
  destruct (swapin_pages pd_size put_page (Z.of_nat N * PGSIZE) x1 0 N s3) as [[x2|e|] s4].
  2:{ destruct Hpg as [Hns Hs4]. split; [by intros Hc%Hsup'|by eapply same_trans]. }
  2:{ by intros Hc%Hsup'. }
  destruct Hpg as (new & k2 & Hr2 & Hl2 & Hf2 & Hs4 & Hio4). unfold mbind at 1, PM_bind at 1.
  pose proof (flush_read_ok d off (whole_pages N) ([b0] ++ new) k2 x2 s4 Hr2) as Hfl. rewrite sum_whole_pages in Hfl. specialize (Hfl ltac:(lia)).
  destruct (pstate_iov_flush pd_size x2 s4) as [[x3|e|] s5]; [| |done].
  2:{ destruct Hfl as (_ & Hio & Hs). split; [|by eapply same_trans; [|eapply same_trans]]. intros (Hc & _)%Hsup'. by apply Hio, Hio4. }
  destruct Hfl as (Hr3 & Hs5 & _). unfold mbind, PM_bind.
  assert (Hb : ps_bufs s5 = (bytes_at d off (Z.to_nat KOBJ_DISK_SIZE) ++ drop (Z.to_nat KOBJ_DISK_SIZE) b0) :: pages_at d (off + KOBJ_DISK_SIZE) N).
  { rewrite (rd_bufs _ _ _ _ _ _ _ Hr3). rewrite take_ge, drop_ge, app_nil_r by (simpl; rewrite ?length_replicate; lia).
    unfold whole_pages. cbn [app filled]. by rewrite filled_pages. }
  rewrite Hb. cbn [nth tail]. rewrite take_app_length' by (by rewrite length_bytes_at).
  destruct (Z.eqb_spec (hdr_get off_ko_id 8 (bytes_at d off (Z.to_nat KOBJ_DISK_SIZE))) ko_id) as [E|E]; simpl; [|done].
  assert (Hss : same s s5) by (apply (same_trans s s2); [done|]; apply (same_trans s2 s3); [done|]; by apply (same_trans s3 s4)).
  split_and!; [done|done|done|by rewrite (rd_disk _ _ _ _ _ _ _ Hr3)|apply Hss..].
Qed.

(** ** Swapping out *)

(** What is written at the end of the part [A] of a transfer. *)
Lemma bytes_at_mid d d' off A B C n :
  (forall z, d' z = put_bytes d off (A ++ B ++ C) z) -> (length B <= n)%nat -> C = [] \/ length B = n ->
  bytes_at d' (off + Z.of_nat (length A)) n = B ++ drop (length B) (bytes_at d (off + Z.of_nat (length A)) n).
Proof using.
  intros Hd Hn HC. replace n with (length B + (n - length B))%nat by lia. rewrite !bytes_at_app. rewrite drop_app_length' by (by rewrite length_bytes_at).
  f_equal.
  - apply list_eq. intros i. unfold bytes_at. rewrite list_lookup_fmap. destruct (decide (i < length B)%nat) as [Hi|Hi].
    + rewrite lookup_seq_lt by done. simpl. rewrite Hd, put_bytes_in by (rewrite !length_app; lia).
      replace (Z.to_nat (off + Z.of_nat (length A) + Z.of_nat i - off)) with (length A + i)%nat by lia.
      rewrite app_nth2_plus, app_nth1 by done. destruct (lookup_lt_is_Some_2 B i Hi) as [x Hx]. rewrite Hx. f_equal. by apply nth_lookup_Some.
    + rewrite lookup_seq_ge by lia. by rewrite lookup_ge_None_2 by lia.
  - destruct HC as [->|E]; [|by rewrite E, Nat.sub_diag]. apply bytes_at_ext. intros z Hz. rewrite Hd. apply put_bytes_out. rewrite app_nil_r, length_app. lia.
Qed.

Section out.
Context (d : Z -> Z) (off : Z) (buf : list Z) (pages : list (list Z)) (objbytes : Z) (N : nat).
Context (Hbuf : length buf = Z.to_nat KOBJ_DISK_SIZE) (Hlen : length pages = N) (Hpages : Forall (fun p => length p = Z.to_nat PGSIZE) pages).
Context (Hobj : 0 <= objbytes) (HN : Z.of_nat N * PGSIZE - PGSIZE < objbytes <= Z.of_nat N * PGSIZE) (Hmax : Z.of_nat N * PGSIZE < 2 ^ 62).

Let bufs := buf :: pages.
Let L := (0%nat, KOBJ_DISK_SIZE) :: page_entries objbytes 0 N.

Lemma page_bytes_range i : (i < N)%nat -> 0 < page_bytes objbytes i <= PGSIZE /\ ((S i < N)%nat -> page_bytes objbytes i = PGSIZE) /\
  Z.min (objbytes - Z.of_nat i * PGSIZE) PGSIZE <= page_bytes objbytes i.
Proof using Hbuf Hlen Hpages Hobj HN Hmax.
  intros Hi. unfold page_bytes, PGSIZE in *. assert (E : u64 (objbytes - Z.of_nat i * 4096) = objbytes - Z.of_nat i * 4096) by (apply Z.mod_small; lia).
  rewrite E. unfold ROUNDUP, u64. rewrite (Z.mod_small _ (2 ^ 64)) by lia.
  pose proof (Z.mod_pos_bound (objbytes - Z.of_nat i * 4096 + 512 - 1) 512 ltac:(lia)). lia.
Qed.

Lemma entries_fit i n : (i + n <= N)%nat -> Forall (fits bufs) (page_entries objbytes i n).
Proof using Hbuf Hlen Hpages Hobj HN Hmax.
  intros Hin. apply list.Forall_forall. intros e (j & -> & Hj)%list_elem_of_fmap. apply elem_of_seq in Hj. destruct (page_bytes_range j) as (Hp & _ & _); [lia|].
  split; [done|]. cbn [fst snd]. unfold bufs. cbn [nth]. destruct (lookup_lt_is_Some_2 pages j) as [p Hp']; [lia|].
  rewrite (nth_lookup_Some _ _ _ _ Hp'). rewrite list.Forall_lookup in Hpages. rewrite (Hpages _ _ Hp'). lia.
Qed.

Lemma all_fit : Forall (fits bufs) L.
Proof using Hbuf Hlen Hpages Hobj HN Hmax.
  constructor; [|by apply entries_fit]. split; cbn [fst snd]; [unfold KOBJ_DISK_SIZE, PGSIZE; lia|]. unfold bufs. cbn [nth]. rewrite Hbuf. done.
Qed.

Lemma entries_size i n : (i + n <= N)%nat -> iov_size (page_entries objbytes i n) <= Z.of_nat n * PGSIZE.
Proof using Hbuf Hlen Hpages Hobj HN Hmax.
  revert i. induction n as [|n IH]; intros i Hin; [done|].
  change (page_bytes objbytes i + iov_size (page_entries objbytes (S i) n) <= Z.of_nat (S n) * PGSIZE).
  specialize (IH (S i) ltac:(lia)). destruct (page_bytes_range i) as ([_ ?] & _ & _); [lia|]. unfold PGSIZE in *. lia.
Qed.

Lemma entries_full n : (n < N)%nat -> iov_size (page_entries objbytes 0 n) = Z.of_nat n * PGSIZE.
Proof using Hbuf Hlen Hpages Hobj HN Hmax.
  intros Hn. assert (Hg : forall m i, (i + m < N)%nat -> iov_size (page_entries objbytes i m) = Z.of_nat m * PGSIZE); [|by apply (Hg n 0%nat)].
  induction m as [|m IH]; intros i Him; [done|]. change (page_bytes objbytes i + iov_size (page_entries objbytes (S i) m) = Z.of_nat (S m) * PGSIZE).
  rewrite IH by lia. destruct (page_bytes_range i) as (_ & E & _); [lia|]. rewrite E by lia. unfold PGSIZE. lia.
Qed.

(** Where the header and page [i] end up. *)
Lemma header_written d' :
  (forall z, d' z = put_bytes d off (iov_data bufs L) z) -> bytes_at d' off (Z.to_nat KOBJ_DISK_SIZE) = buf.
Proof using Hbuf Hlen Hpages Hobj HN Hmax.
  intros Hd. unfold L in Hd. assert (E : iov_data bufs ((0%nat, KOBJ_DISK_SIZE) :: page_entries objbytes 0 N) = [] ++ buf ++ iov_data bufs (page_entries objbytes 0 N)).
  { rewrite iov_data_cons. unfold bufs at 1. cbn [fst snd nth]. rewrite take_ge; [done|]. by rewrite Hbuf. }
  rewrite E in Hd. pose proof (bytes_at_mid d d' off [] buf _ (Z.to_nat KOBJ_DISK_SIZE) Hd ltac:(lia) (or_intror Hbuf)) as H1.
  simpl length in H1. rewrite Z.add_0_r in H1. rewrite H1, drop_ge; [by rewrite app_nil_r|]. rewrite length_bytes_at. lia.
Qed.

Lemma page_written d' i p :
  (forall z, d' z = put_bytes d off (iov_data bufs L) z) -> pages !! i = Some p ->
  let n := Z.to_nat (page_bytes objbytes i) in
  let o := off + KOBJ_DISK_SIZE + Z.of_nat i * PGSIZE in
  bytes_at d' o (Z.to_nat PGSIZE) = take n p ++ drop n (bytes_at d o (Z.to_nat PGSIZE)).
Proof using Hbuf Hlen Hpages Hobj HN Hmax.
  intros Hd Hp n o. pose proof (lookup_lt_Some _ _ _ Hp) as Hi. rewrite Hlen in Hi.
  destruct (page_bytes_range i Hi) as ([Hn1 Hn2] & Hfull & _). pose proof Hpages as Hl. rewrite list.Forall_lookup in Hl. specialize (Hl _ _ Hp).
  set (A := iov_data bufs ((0%nat, KOBJ_DISK_SIZE) :: page_entries objbytes 0 i)). set (C := iov_data bufs (page_entries objbytes (S i) (N - S i))).
  assert (HE : L = ((0%nat, KOBJ_DISK_SIZE) :: page_entries objbytes 0 i) ++ [(S i, page_bytes objbytes i)] ++ page_entries objbytes (S i) (N - S i)).
  { unfold L, page_entries. replace N with (i + (1 + (N - S i)))%nat at 1 by lia. rewrite !seq_app, !fmap_app. simpl. by rewrite Nat.add_1_r. }
  assert (HB : iov_data bufs [(S i, page_bytes objbytes i)] = take n p).
  { rewrite iov_data_cons. unfold bufs. cbn [fst snd nth]. rewrite (nth_lookup_Some _ _ _ _ Hp). unfold iov_data. simpl. by rewrite app_nil_r. }
  rewrite HE, !iov_data_app, HB in Hd. fold A C in Hd.
  assert (HA : off + Z.of_nat (length A) = o).
  { unfold A. rewrite length_iov_data.
    - change (iov_size ((0%nat, KOBJ_DISK_SIZE) :: page_entries objbytes 0 i)) with (KOBJ_DISK_SIZE + iov_size (page_entries objbytes 0 i)).
      rewrite entries_full by done. unfold o. lia.
    - pose proof all_fit as Hf. unfold L in Hf. apply list.Forall_cons in Hf as [Hf _]. constructor; [done|]. apply entries_fit. lia. }
  assert (Hln : length (take n p) = n) by (rewrite length_take; unfold n; lia).
  pose proof (bytes_at_mid d d' off A (take n p) C (Z.to_nat PGSIZE) Hd) as Hm. rewrite HA, Hln in Hm. apply Hm.
  - unfold n. lia.
  - destruct (decide (S i < N)%nat) as [Hlt|Hge]; [right; unfold n; by rewrite Hfull|left]. unfold C. by replace (N - S i)%nat with 0%nat by lia.
Qed.

Lemma sync_write_ok s :
  0 <= off -> off + KOBJ_DISK_SIZE + Z.of_nat N * PGSIZE <= pd_size -> ps_bufs s = bufs -> ps_disk s = d ->
  match (x ← pstate_iov_append pd_size (mkIov [] 0 off op_write) 0 KOBJ_DISK_SIZE;
         x ← sync_pages pd_size objbytes x 0 N; pstate_iov_flush pd_size x;; mret tt) s with
  | (Ok _, s') => (forall z, ps_disk s' z = put_bytes d off (iov_data bufs L) z) /\ same s s'
  | (Err e, s') => failed d off (KOBJ_DISK_SIZE + Z.of_nat N * PGSIZE) s e s'
  | (Panic, _) => False
  end.
Proof using H Hpd Hbuf Hlen Hpages Hobj HN Hmax.
  intros Ho Hn Hb Hd. set (m := KOBJ_DISK_SIZE + Z.of_nat N * PGSIZE). pose proof all_fit as HfL. unfold L in HfL. apply list.Forall_cons in HfL as [Hf0 Hf1].
  assert (Hw0 : writing d off bufs [] (mkIov [] 0 off op_write) s).
  { split; simpl; try done; [|lia|lia]. intros z. rewrite Hd. rewrite put_bytes_out; [done|]. simpl. lia. }
  pose proof (entries_size 0 N ltac:(lia)) as Hes. unfold mbind at 1, PM_bind at 1.
  pose proof (append_write_ok d off bufs [] _ s m 0 KOBJ_DISK_SIZE Hw0 Hf0 ltac:(simpl; unfold m, PGSIZE; lia) ltac:(unfold m; lia)) as Ha.
  destruct (pstate_iov_append pd_size (mkIov [] 0 off op_write) 0 KOBJ_DISK_SIZE s) as [[x1|e|] s1]; [|done..].
  destruct Ha as (L1 & Hw1 & HL1 & Hs1). unfold mbind at 1, PM_bind at 1.
  pose proof (sync_pages_ok d off bufs objbytes N 0 L1 x1 s1 m Hw1 Hf1) as Hp. rewrite HL1 in Hp. simpl app in Hp.
  specialize (Hp ltac:(change (KOBJ_DISK_SIZE + 0 + iov_size (page_entries objbytes 0 N) <= m); unfold m; lia) ltac:(unfold m; lia)).
  destruct (sync_pages pd_size objbytes x1 0 N s1) as [[x2|e|] s2]; [| |done].
  2:{ destruct Hp as (-> & Hd2 & Hs2). split_and!; [done..|by eapply same_trans]. }
  destruct Hp as (L2 & Hw2 & HL2 & Hs2). unfold mbind, PM_bind.
  pose proof (flush_write_ok d off bufs L2 x2 s2 m Hw2) as Hfl. rewrite HL2 in Hfl.
  specialize (Hfl ltac:(change (KOBJ_DISK_SIZE + iov_size (page_entries objbytes 0 N) <= m); unfold m; lia) ltac:(unfold m; lia)).
  assert (Hss : same s s2) by (by eapply same_trans).
  destruct (pstate_iov_flush pd_size x2 s2) as [[x3|e|] s3]; [| |done].
  - destruct Hfl as (Hw3 & _ & Hs3). split; [apply (wr_disk _ _ _ _ _ _ Hw3)|by eapply same_trans].
  - destruct Hfl as (-> & Hd3 & Hs3). split_and!; [done..|by eapply same_trans].
Qed.
End out.
End io.
