(* ===== verification/PstateInv.v ===== *)
(** * The object map and the space of the disk

    The extents of the objects, the nodes of the two trees of objects and what the
    free list owns never overlap; freeing and allocating the space of an object
    keep it so, and an extent that the map named stays out of the free space until
    the next commit. *)

From stdpp Require Import sorting list_numbers.
From S2P Require Import Prelude KState KObj KAs Dstack Log BTree BTreeRep BTreeSearch Index Freelist FreelistSpace FreelistInv Pstate.
From stdpp Require Import options.

Set Default Goal Selector "!".

Section pstate.
Context {T : Type} `{Index T} (calm : Prop) (cap fuel : nat) (pd_size : Z).

(** The space that one allocation may need, rounds of service included. *)
Definition alloc_bytes (n : Z) : Z := n + BTREE_BLOCK_SIZE * 7 * Z.of_nat fuel.

Definition pwp {A} (m : PM A) (Q : A -> pst T -> Prop) (E : Z -> pst T -> Prop) (s : pst T) : Prop :=
  match m s with
  | (Ok a, s') => Q a s'
  | (Err e, s') => E e s'
  | (Panic, _) => ~ calm
  end.

Lemma pwp_bind {A B} (m : PM A) (f : A -> PM B) Q E s : pwp m (fun a s' => pwp (f a) Q E s') E s -> pwp (m ≫= f) Q E s.
Proof. unfold pwp, mbind, PM_bind. by destruct (m s) as [[]]. Qed.

Lemma pwp_mono {A} (m : PM A) (Q Q' : A -> pst T -> Prop) (E E' : Z -> pst T -> Prop) s :
  pwp m Q E s -> (forall a s', Q a s' -> Q' a s') -> (forall e s', E e s' -> E' e s') -> pwp m Q' E' s.
Proof. unfold pwp. destruct (m s) as [[] ?]; auto. Qed.

Lemma pwp_run {A} (m : PM A) (a : A) (Q : A -> pst T -> Prop) E s s' : m s = (Ok a, s') -> Q a s' -> pwp m Q E s.
Proof. unfold pwp. by intros ->. Qed.

Lemma pwp_on_free {A} (m : FM A) (Q : A -> pst T -> Prop) E s :
  wp calm m (fun a f => Q a (set_free f s)) (fun e f => E e (set_free f s)) (ps_free s) -> pwp (on_free m) Q E s.
Proof. unfold pwp, wp, on_free. by destruct (m (ps_free s)) as [[]]. Qed.

Lemma pwp_pcode {A} (m : PM A) (Q : A -> pst T -> Prop) (E E' : Z -> pst T -> Prop) s :
  pwp m Q E s -> pwp (pcode m) (fun r s' => match r with Ok a => Q a s' | Err e => E e s' | Panic => False end) E' s.
Proof. unfold pwp, pcode. by destruct (m s) as [[]]. Qed.

(** ** Blocks from the free list *)

Lemma last_cons {A} (x d : A) l : List.last (x :: l) d = List.last l x.
Proof. revert x d. induction l as [|y l IH]; intros x d; [done|]. change (List.last (x :: y :: l) d) with (List.last (y :: l) d). by rewrite !IH. Qed.

Lemma occ_block z o l : occ z (blocks (o :: l)) = (Nat.b2n (covers z (o, BTREE_BLOCK_SIZE)) + occ z (blocks l))%nat.
Proof. done. Qed.

Lemma big_le F n m : big F n -> m <= n -> big F m.
Proof. intros (c & ? & ?) ?. exists c. split; [done|lia]. Qed.

Lemma pool_ok n f F M P X :
  rest calm cap f F M P false -> big F (Z.of_nat n * alloc_bytes BTREE_BLOCK_SIZE + X) -> 0 < X ->
  let steps := pbtree_pool fuel n f in
  (calm -> length steps = n) /\
  forall j, (j <= length steps)%nat -> exists F' M' P', rest calm cap (List.last (take j steps.*2) f) F' M' P' false /\ big F' X /\
    (forall z, occ z (owned F M P) = (occ z (blocks (take j steps.*1)) + occ z (owned F' M' P'))%nat) /\
    P `suffix_of` P' /\ Forall valid (blocks (take j steps.*1)).
Proof.
  revert f F M P. induction n as [|n IH]; intros f F M P HR Hb HX; cbn [pbtree_pool].
  - split; [done|]. intros j Hj. simpl in Hj. assert (j = 0%nat) as -> by lia. exists F, M, P. split_and!; [done|by eapply big_le; [exact Hb|lia]|done|done|constructor].
  - assert (HB : 0 < BTREE_BLOCK_SIZE) by done.
    assert (Hb' : big F (BTREE_BLOCK_SIZE + (BTREE_BLOCK_SIZE * 7 * Z.of_nat fuel + (Z.of_nat n * alloc_bytes BTREE_BLOCK_SIZE + X)))).
    { eapply big_le; [exact Hb|]. unfold alloc_bytes. lia. }
    assert (HX' : 0 < Z.of_nat n * alloc_bytes BTREE_BLOCK_SIZE + X) by (unfold alloc_bytes, BTREE_BLOCK_SIZE; nia).
    pose proof (freelist_alloc_ok calm cap fuel BTREE_BLOCK_SIZE f F M P _ HR HB ltac:(done) (or_intror Hb') HX') as Hw. unfold wp in Hw.
    destruct (freelist_alloc fuel BTREE_BLOCK_SIZE f) as [[o|e|] f1].
    2:{ exfalso. destruct Hw as (_ & _ & Hs). destruct Hb' as (c & Hc & Hle). specialize (Hs c Hc). unfold BTREE_BLOCK_SIZE in *. lia. }
    2:{ split; [by intros Hk|]. intros j Hj. simpl in Hj. assert (j = 0%nat) as -> by lia. exists F, M, P.
        split_and!; [done| |done|done|constructor]. eapply big_le; [exact Hb|]. unfold alloc_bytes, BTREE_BLOCK_SIZE. nia. }
    destruct Hw as (F1 & F' & M' & P' & HC & HR' & Hb1 & Ho & Hsx & _). pose proof HR as (_ & HS & _).
    assert (Hv : valid (o, BTREE_BLOCK_SIZE)) by (destruct (carve_valid F _ _ o F1 HB HC HS); by split_and!).
    destruct (IH f1 F' M' P' HR' (Hb1 Hb') HX) as [Hl Hj]. split; [intros Hk; simpl; by rewrite Hl|].
    intros [|j] Hle.
    + exists F, M, P. split_and!; [done| |done|done|constructor]. eapply big_le; [exact Hb|]. unfold alloc_bytes, BTREE_BLOCK_SIZE. nia.
    + simpl in Hle. destruct (Hj j ltac:(lia)) as (F2 & M2 & P2 & HR2 & Hb2 & Ho2 & Hx2 & Hv2). exists F2, M2, P2.
      cbn [fmap list_fmap take]. rewrite last_cons. split_and!; [done|done| |by etrans|by constructor].
      intros z. rewrite Ho, Ho2. rewrite occ_block. cbn [fst]. lia.
Qed.

(** ** Insertion into one of the trees of objects *)

(** The space that one insertion may need. *)
Definition insert_bytes : Z := 65 * alloc_bytes BTREE_BLOCK_SIZE.

Lemma room_bound sk sv x m N : ix_rep sk sv x m N -> Z.of_nat (length m) < 2 ^ 63 -> (ix_room x <= 64)%nat.
Proof using Type*.
  intros Hr%ix_height Hm. apply Nat2Z.inj_le. apply (Z.pow_le_mono_r_iff 2); [lia..|]. apply inj_le in Hr. rewrite Nat2Z.inj_pow in Hr.
  simpl in *. lia.
Qed.

Lemma occ_elements_union z (N : gset Z) l :
  NoDup l -> (forall p, p ∈ l -> p ∉ N) -> occ z (blocks (elements (N ∪ list_to_set l))) = (occ z (blocks (elements N)) + occ z (blocks l))%nat.
Proof using Type.
  intros Hl Hd. rewrite <- occ_app. unfold blocks. rewrite <- fmap_app. fold (blocks (elements (N ∪ list_to_set l))). apply occ_perm, fmap_Permutation.
  rewrite elements_disj_union by set_solver. by rewrite elements_list_to_set.
Qed.

Lemma space_fresh F M P R (N : gset Z) l :
  space (owned F M P ++ R ++ blocks (elements N)) -> Forall valid (blocks l) ->
  (forall z, (occ z (blocks l) <= occ z (owned F M P))%nat) -> NoDup l /\ forall p, p ∈ l -> p <> 0 /\ (p ∉ N).
Proof using Type.
  intros HS Hv Ho. assert (HS' : space (blocks l ++ blocks (elements N))).
  { destruct HS as [Hv' Ho']. apply list.Forall_app in Hv' as [_ [_ Hv']%list.Forall_app]. split; [by apply list.Forall_app|].
    intros z. specialize (Ho' z). specialize (Ho z). rewrite !occ_app in *. lia. }
  pose proof (space_NoDup _ HS') as Hn. rewrite fmap_app, !blocks_fst in Hn. apply list.NoDup_app in Hn as (H1 & H2 & _). split; [done|].
  intros p Hp. split; [|intros Hq; by apply (H2 p Hp), elem_of_elements].
  rewrite list.Forall_forall in Hv. destruct (Hv (p, BTREE_BLOCK_SIZE)) as (? & _); [|simpl in *; lia]. by apply (list_elem_of_fmap_2 (fun o => (o, BTREE_BLOCK_SIZE))).
Qed.

Lemma obj_insert_ok sk sv x m N k v f F M P R X :
  ix_rep sk sv x m N -> length k = sk -> length v = sv -> k ∉ m.*1 -> Z.of_nat (length m) < 2 ^ 63 ->
  rest calm cap f F M P false -> space (owned F M P ++ R ++ blocks (elements N)) -> big F (insert_bytes + X) -> 0 < X ->
  let steps := pbtree_pool fuel (S (ix_room x)) f in
  let '(r, x', pool') := ix_insert k v x steps.*1 in
  match r with
  | Ok _ => exists N' F' M' P', ix_rep sk sv x' ((k, v) :: m) N' /\
      rest calm cap (List.last (take (length steps - length pool') steps.*2) f) F' M' P' false /\ big F' X /\
      (forall z, occ z (owned F M P ++ blocks (elements N)) = occ z (owned F' M' P' ++ blocks (elements N'))) /\ P `suffix_of` P' /\
      Forall valid (blocks (elements N'))
  | Err _ => False
  | Panic => ~ calm
  end.
Proof using Type*.
  intros Hrep Hk Hv Hno Hm HR HS Hb HX steps. pose proof (room_bound _ _ _ _ _ Hrep Hm) as Hroom.
  assert (Hb' : big F (Z.of_nat (S (ix_room x)) * alloc_bytes BTREE_BLOCK_SIZE + X)).
  { eapply big_le; [exact Hb|]. unfold insert_bytes, alloc_bytes, BTREE_BLOCK_SIZE. nia. }
  destruct (pool_ok (S (ix_room x)) f F M P X HR Hb' HX) as [Hlen Hj]. fold steps in Hlen, Hj.
  assert (Hall : take (length steps) steps.*1 = steps.*1) by (apply take_ge; by rewrite length_fmap).
  assert (Hfresh : NoDup steps.*1 /\ forall p, p ∈ steps.*1 -> p <> 0 /\ (p ∉ N)).
  { destruct (Hj (length steps) ltac:(lia)) as (F' & M' & P' & _ & _ & Ho & _ & Hvl). rewrite Hall in *.
    eapply space_fresh; [exact HS|done|]. intros z. rewrite Ho. lia. }
  destruct Hfresh as [Hnd Hfr].
  destruct (ix_insert_new sk sv x m N k v steps.*1 Hrep Hk Hv Hno ltac:(lia) Hnd Hfr) as [(x' & used & pool' & E & Ep & Hrep' & _)|(Hle & x' & pool' & E)].
  2:{ rewrite E. intros Hcalm. rewrite length_fmap, (Hlen Hcalm) in Hle. lia. }
  rewrite E. assert (Hlu : (length steps - length pool')%nat = length used).
  { rewrite <- (length_fmap fst steps), Ep, length_app. lia. }
  rewrite Hlu. assert (Hle : (length used <= length steps)%nat) by lia. destruct (Hj _ Hle) as (F' & M' & P' & HR' & HbX & Ho & Hsx & Hvl).
  rewrite Ep, take_app_length in Ho, Hvl. rewrite Ep in Hnd, Hfr. apply list.NoDup_app in Hnd as (Hnu & _ & _).
  assert (Hun : forall p, p ∈ used -> p ∉ N) by (intros p Hp; apply Hfr, elem_of_app; by left).
  exists (N ∪ list_to_set used), F', M', P'. split_and!; [done..| |done|].
  - intros z. rewrite !occ_app, Ho, occ_elements_union by done. lia.
  - apply list.Forall_forall. intros e (p & -> & Hp)%list_elem_of_fmap. apply elem_of_elements, elem_of_union in Hp as [Hp|Hp%elem_of_list_to_set].
    + destruct HS as [Hv' _]. rewrite !list.Forall_app in Hv'. destruct Hv' as (_ & _ & Hv'). rewrite list.Forall_forall in Hv'. apply Hv'.
      by apply (list_elem_of_fmap_2 (fun o => (o, BTREE_BLOCK_SIZE))), elem_of_elements.
    + rewrite list.Forall_forall in Hvl. apply Hvl. by apply (list_elem_of_fmap_2 (fun o => (o, BTREE_BLOCK_SIZE))).
Qed.

(** ** Deletion from one of the trees of objects *)

Lemma set_free_id (s : pst T) : set_free (ps_free s) s = s.
Proof using Type. by destruct s. Qed.

Lemma set_obj_id id (s : pst T) : set_obj id (get_obj id s) s = s.
Proof using Type. by destruct id, s. Qed.

Definition pages_left (s : pst T) : nat := length (fs_pages (ps_free s)).

Lemma free_nodes_ok l s F M P E :
  mid calm cap (ps_free s) F F M P false -> (calm -> (2 * length l <= pages_left s)%nat) ->
  pwp (pbtree_free_nodes l) (fun _ s' => exists f, s' = set_free f s /\ mid calm cap f F F M (rev (blocks l) ++ P) false /\
    (pages_left s <= 2 * length l + length (fs_pages f))%nat) E s.
Proof using Type*.
  revert s P. induction l as [|o l IH]; intros s P Hm Hp; cbn [pbtree_free_nodes].
  - eapply pwp_run; [done|]. exists (ps_free s). split_and!; [by rewrite set_free_id|done|unfold pages_left; lia].
  - apply pwp_bind, pwp_on_free. eapply wp_mono; [apply (free_later_ok calm cap o BTREE_BLOCK_SIZE _ F F M P false); [done|]|].
    { intros Hk. specialize (Hp Hk). simpl in Hp. unfold pages_left in Hp. lia. }
    intros [] f (Hm1 & _ & Hl1). eapply pwp_mono; [apply (IH (set_free f s) ((o, BTREE_BLOCK_SIZE) :: P)); [done|]| |done].
    { intros Hk. specialize (Hp Hk). unfold pages_left in *. simpl in *. lia. }
    intros [] s2 (f2 & -> & Hm2 & Hl2). exists f2. split_and!; [done| |unfold pages_left in *; simpl in *; lia].
    change (blocks (o :: l)) with ((o, BTREE_BLOCK_SIZE) :: blocks l). simpl rev. by rewrite <- app_assoc.
Qed.

Lemma pb_delete_old id sk sv k v m N s F M P E :
  ix_rep sk sv (get_obj id s) ((k, v) :: m) N -> mid calm cap (ps_free s) F F M P false -> (calm -> (2 * size N <= pages_left s)%nat) ->
  pwp (pbtree_delete id k) (fun _ s' => exists x f N' Q, s' = set_free f (set_obj id x s) /\ ix_rep sk sv x m N' /\
    mid calm cap f F F M (Q ++ P) false /\ Q ++ blocks (elements N') ≡ₚ blocks (elements N) /\
    (pages_left s <= 2 * (size N - size N') + length (fs_pages f))%nat) E s.
Proof using Type*.
  intros Hrep Hm Hp. destruct (ix_delete_old _ _ _ _ _ _ _ Hrep) as (x & back & N' & Ed & Hrep' & _ & HN & Hdj & Hnd).
  assert (Hel : elements N ≡ₚ elements N' ++ back) by (rewrite HN, elements_disj_union, elements_list_to_set; done).
  assert (Hsz : size N = (size N' + length back)%nat) by (unfold size, set_size; simpl; by rewrite Hel, length_app).
  assert (Hfr : ps_free (set_obj id x s) = ps_free s) by (by destruct id).
  pose proof (free_nodes_ok back (set_obj id x s) F M P (fun _ _ => False)) as Hw. unfold pages_left in *. rewrite Hfr in Hw.
  specialize (Hw Hm ltac:(intros Hk; specialize (Hp Hk); lia)). unfold pwp, pbtree_delete in *. rewrite Ed.
  destruct (pbtree_free_nodes back (set_obj id x s)) as [[[]| |] s1]; [|done|done]. destruct Hw as (f & -> & Hm1 & Hl1).
  exists x, f, N', (rev (blocks back)). split_and!; [done..| |lia].
  rewrite <- Permutation_rev, Hel. unfold blocks. rewrite fmap_app. apply Permutation_app_comm.
Qed.

Lemma pb_delete_new id sk sv k m N s :
  ix_rep sk sv (get_obj id s) m N -> length k = sk -> k ∉ m.*1 -> pbtree_delete id k s = (Err E_NOT_FOUND, s).
Proof using Type*. intros Hrep Hk Hno. unfold pbtree_delete. rewrite (ix_delete_new _ _ _ _ _ _ Hrep Hk Hno). simpl. by rewrite set_obj_id. Qed.

(** ** The invariant *)

Definition objkv (e : Z * (Z * Z)) : kv := ([e.1], [e.2.1; e.2.2]).
Definition iobjkv (i : Z) : kv := ([i], [0]).

(** The extents of the objects and the blocks of the nodes of the trees of objects. *)
Definition held (O : list (Z * (Z * Z))) (N3 N4 : gset Z) : list (Z * Z) := O.*2 ++ blocks (elements N3) ++ blocks (elements N4).

(** [O]: the objects on disk, with their extents; [I]: those that are loaded when
    the system starts; [F], [M], [P]: what the free list owns; [N3], [N4]: the
    nodes of the trees of objects. *)
Record pinv (s : pst T) (O : list (Z * (Z * Z))) (I : list Z) (F : list (Z * Z)) (M : list Z) (P : list (Z * Z)) (N3 N4 : gset Z) : Prop := {
  pi_rest : rest calm cap (ps_free s) F M P false;
  pi_objmap : ix_rep 1 2 (ps_objmap s) (objkv <$> O) N3;
  pi_iobj : ix_rep 1 1 (ps_iobj s) (iobjkv <$> I) N4;
  pi_initial : I ⊆ O.*1;
  pi_space : space (owned F M P ++ held O N3 N4);
  pi_disk : forall z, pd_size <= z -> occ z (owned F M P ++ held O N3 N4) = 0%nat;
  pi_sizes : Forall (fun e => exists N, e.2.2 = KOBJ_DISK_SIZE + Z.of_nat N * PGSIZE) O;
}.

Definition not_id {A} (id : Z) (l : list (Z * A)) : list (Z * A) := filter (fun e => e.1 ≠ id) l.

Lemma not_id_absent {A} id (l : list (Z * A)) : id ∉ l.*1 -> not_id id l = l.
Proof using Type.
  induction l as [|e l IH]; [done|]. intros Hno. simpl in Hno. apply not_elem_of_cons in Hno as [He Hno].
  unfold not_id in *. rewrite filter_cons_True by congruence. by rewrite IH.
Qed.

Lemma not_id_perm {A} id (a : A) l : NoDup l.*1 -> (id, a) ∈ l -> l ≡ₚ (id, a) :: not_id id l.
Proof using Type.
  intros Hnd Hin. apply elem_of_Permutation in Hin as [l' Hl]. pose proof Hnd as Hnd'. rewrite Hl in Hnd'. simpl in Hnd'.
  apply list.NoDup_cons in Hnd' as [Hno _]. rewrite Hl at 1. constructor. unfold not_id. rewrite Hl, filter_cons_False by (simpl; tauto).
  pose proof (not_id_absent id l' Hno) as E. unfold not_id in E. by rewrite E.
Qed.

Lemma not_id_elem {A} id (e : Z * A) l : (e ∈ not_id id l) <-> e.1 <> id /\ (e ∈ l).
Proof using Type. unfold not_id. by rewrite list_elem_of_filter. Qed.

Definition without (id : Z) (I : list Z) : list Z := filter (.≠ id) I.

Lemma without_absent id I : id ∉ I -> without id I = I.
Proof using Type.
  induction I as [|i I IH]; [done|]. intros [? ?]%not_elem_of_cons. unfold without in *. rewrite filter_cons_True by done. f_equal. by apply IH.
Qed.

Lemma without_perm id I : NoDup I -> id ∈ I -> I ≡ₚ id :: without id I.
Proof using Type.
  intros Hnd Hin. apply elem_of_Permutation in Hin as [l Hl]. pose proof Hnd as Hnd'. rewrite Hl in Hnd'. apply list.NoDup_cons in Hnd' as [Hno _].
  pose proof (without_absent id l Hno) as E. unfold without in *. rewrite Hl, filter_cons_False by tauto. by rewrite E.
Qed.

(** The part of the state that only transfers use. *)
Definition frame (s s' : pst T) : Prop := ps_disk s' = ps_disk s /\ ps_io s' = ps_io s /\ ps_mem s' = ps_mem s.

Lemma objmap_search id s O N r :
  ix_rep 1 2 (ps_objmap s) (objkv <$> O) N -> pbtree_search BTREE_OBJMAP [id] s = (r, s) ->
  (exists e, ((id, e) ∈ O) /\ r = Ok (objkv (id, e))) \/ ((id ∉ O.*1) /\ r = Err E_NOT_FOUND).
Proof using Type*.
  intros Hrep [= Hr]. simpl in Hr. destruct (ix_search_ok _ _ _ _ _ [id] Hrep eq_refl) as (a & Ea & Ha). rewrite Ea in Hr. destruct a as [a|]; simpl in Ha.
  - left. destruct Ha as (Hin & Hk & _). apply list_elem_of_fmap in Hin as ([i e] & -> & Hin). injection Hk as ->. exists e. by split.
  - right. split; [|done]. intros (e & -> & Hin)%list_elem_of_fmap. by apply (Ha (objkv e)); [apply list_elem_of_fmap_2|].
Qed.

Lemma objmap_NoDup x O N : ix_rep 1 2 x (objkv <$> O) N -> NoDup O.*1.
Proof using Type*.
  intros [Hnd _]%ix_keys. rewrite <- list_fmap_compose in Hnd. apply (NoDup_fmap_1 (fun i : Z => [i])). by rewrite <- list_fmap_compose.
Qed.

(** ** Freeing the space of an object *)

Lemma pwp_assert (b : bool) (Q : unit -> pst T -> Prop) E s : b = true -> Q tt s -> pwp (passert b) Q E s.
Proof using Type. by intros ->. Qed.

(** The entry of the object leaves the second tree, if it was there. *)
Lemma free_iobj_ok id s I N F M P E :
  ix_rep 1 1 (ps_iobj s) (iobjkv <$> I) N -> mid calm cap (ps_free s) F F M P false -> (calm -> (2 * size N <= pages_left s)%nat) ->
  pwp (r ← pcode (pbtree_delete BTREE_IOBJ [id]);
       passert (match r with Ok _ => true | Err e => e =? E_NOT_FOUND | Panic => false end))
    (fun _ s' => exists x f N' Q, s' = set_free f (set_obj BTREE_IOBJ x s) /\ ix_rep 1 1 x (iobjkv <$> without id I) N' /\
      mid calm cap f F F M (Q ++ P) false /\ Q ++ blocks (elements N') ≡ₚ blocks (elements N)) E s.
Proof using Type*.
  intros Hrep Hm Hp. apply pwp_bind. destruct (ix_keys _ _ _ _ _ Hrep) as [Hnd _]. rewrite <- list_fmap_compose in Hnd.
  destruct (decide (id ∈ I)) as [Hin|Hno].
  - assert (HI : I ≡ₚ id :: without id I).
    { apply without_perm; [|done]. by apply NoDup_fmap_1 in Hnd. }
    assert (Hrep' : ix_rep 1 1 (ps_iobj s) (([id], [0]) :: (iobjkv <$> without id I)) N).
    { eapply ix_perm; [|exact Hrep]. rewrite HI at 1. done. }
    eapply pwp_mono; [apply pwp_pcode, (pb_delete_old BTREE_IOBJ 1 1 [id] [0] (iobjkv <$> without id I) N s F M P (fun _ _ => False)); done| |done].
    intros [r| |] s1; [|done|done]. intros (x & f & N' & Q & -> & Hx & Hf & HQ & _). apply pwp_assert; [done|]. by exists x, f, N', Q.
  - eapply pwp_run.
    { unfold pcode. rewrite (pb_delete_new BTREE_IOBJ 1 1 [id] _ N s Hrep); [done|done|]. rewrite <- list_fmap_compose.
      intros (i & [= ->] & Hi)%list_elem_of_fmap. done. }
    apply pwp_assert; [done|]. exists (ps_iobj s), (ps_free s), N, []. split_and!; [by destruct s| |done|done].
    by rewrite without_absent.
Qed.

Lemma kobj_free_ok id s O I F M P N3 N4 E :
  pinv s O I F M P N3 N4 -> (calm -> (2 * (1 + size N3 + size N4) <= pages_left s)%nat) ->
  pwp (pstate_kobj_free id) (fun _ s' => exists P' N3' N4', pinv s' (not_id id O) (without id I) F M P' N3' N4' /\
    owned F M P' ++ held (not_id id O) N3' N4' ≡ₚ owned F M P ++ held O N3 N4 /\
    P `suffix_of` P' /\ (forall e, (id, e) ∈ O -> e ∈ P') /\ frame s s') E s.
Proof using Type*.
  intros [HR H3 H4 HI HS HD HZ] Hp. unfold pstate_kobj_free. apply pwp_bind. pose proof (objmap_NoDup _ _ _ H3) as HndO.
  destruct (objmap_search id s O N3 _ H3 eq_refl) as [(e & Hin & Er)|[Hno Er]].
  2:{ eapply pwp_run; [unfold pcode, pbtree_search in *; simpl in Er; simpl; by rewrite Er|]. eapply pwp_run; [done|]. exists P, N3, N4.
      rewrite not_id_absent, without_absent by set_solver.
      split_and!; try done. intros e He. destruct Hno. by apply (list_elem_of_fmap_2 fst _ (id, e)). }
  eapply pwp_run; [unfold pcode, pbtree_search in *; simpl in Er; simpl; by rewrite Er|]. cbn [objkv fst snd].
  apply pwp_bind. eapply pwp_run; [done|]. apply pwp_bind, pwp_assert; [apply Z.eqb_refl|]. do 2 (apply pwp_bind; eapply pwp_run; [done|]).
  destruct HR as (Hm & HSo & Hco). pose proof (not_id_perm id e O HndO Hin) as HO.
  apply pwp_bind, pwp_on_free. eapply wp_mono; [apply (free_later_ok calm cap e.1 e.2 _ F F M P false); [done|]|].
  { intros Hk. specialize (Hp Hk). unfold pages_left in Hp. lia. }
  intros [] f1 (Hm1 & _ & Hl1). apply pwp_bind. set (s1 := set_free f1 s).
  assert (H3' : ix_rep 1 2 (ps_objmap s1) (([id], [e.1; e.2]) :: (objkv <$> not_id id O)) N3) by (eapply ix_perm; [|exact H3]; by rewrite HO at 1).
  eapply pwp_mono; [apply pwp_pcode, (pb_delete_old BTREE_OBJMAP 1 2 [id] [e.1; e.2] (objkv <$> not_id id O) N3 s1 F M ((e.1, e.2) :: P) (fun _ _ => False)); [done..|]| |done].
  { intros Hk. specialize (Hp Hk). unfold pages_left in *. simpl in *. lia. }
  intros [r| |] s2; [|done|done]. intros (x3 & f2 & N3' & Q3 & -> & H3'' & Hm2 & HQ3 & Hl2). apply pwp_bind, pwp_assert; [done|].
  eapply pwp_mono; [apply (free_iobj_ok id _ I N4 F M (Q3 ++ (e.1, e.2) :: P)); [done..|]| |done].
  { intros Hk. specialize (Hp Hk). unfold pages_left in *. simpl in *. lia. }
  intros [] s3 (x4 & f3 & N4' & Q4 & -> & H4' & Hm3 & HQ4). rewrite <- surjective_pairing in Hm3. exists (Q4 ++ Q3 ++ e :: P), N3', N4'.
  assert (Hperm : owned F M (Q4 ++ Q3 ++ e :: P) ++ held (not_id id O) N3' N4' ≡ₚ owned F M P ++ held O N3 N4).
  { unfold owned, held. rewrite (fmap_Permutation snd _ _ HO), <- HQ3, <- HQ4. simpl. solve_Permutation. }
  split_and!; [|done|by exists (Q4 ++ Q3 ++ [e]); rewrite <- !app_assoc| |done].
  - rewrite <- Hperm in HS. split; try done.
    + split; [done|]. split; [by apply space_app in HS as [HS _]|done].
    + intros i [Hi1 Hi2]%list_elem_of_filter. apply HI in Hi2. apply list_elem_of_fmap in Hi2 as (a & -> & Ha).
      apply list_elem_of_fmap_2, not_id_elem. by split.
    + intros z Hz. rewrite Hperm. by apply HD.
    + rewrite list.Forall_forall in HZ |- *. intros a [_ Ha]%not_id_elem. by apply HZ.
  - intros e' He'. assert (e' = e) as -> by (rewrite HO in He'; apply elem_of_cons in He' as [[= ->]|[Hc _]%not_id_elem]; done).
    rewrite !elem_of_app. right. right. left.
Qed.

(** ** Allocating the space of an object *)

(** The space that an allocation for an object of [n] bytes on disk may need. *)
Definition kobj_bytes (n : Z) : Z := alloc_bytes n + 2 * insert_bytes.

Lemma space_member F M P (O : list (Z * (Z * Z))) N3 N4 : space (owned F M P ++ held O N3 N4) -> Z.of_nat (length O) < 2 ^ 63.
Proof using Type.
  intros [_ HS]%space_app. apply space_app in HS as [HS _]. apply space_length in HS. by rewrite length_fmap in HS.
Qed.

Lemma space_middle a e l : space (a ++ e :: l) -> space (a ++ l).
Proof using Type. rewrite <- Permutation_middle. intros HS. by apply (space_app [e]) in HS as [_ HS]. Qed.

(** One more object: its record in the first tree. *)
Lemma insert_objmap_ok id e s O F M P N3 N4 X E :
  rest calm cap (ps_free s) F M P false -> ix_rep 1 2 (ps_objmap s) (objkv <$> O) N3 -> id ∉ O.*1 ->
  space (owned F M P ++ e :: held O N3 N4) -> big F (insert_bytes + X) -> 0 < X ->
  pwp (pbtree_insert fuel BTREE_OBJMAP [id] [e.1; e.2]) (fun _ s' => exists x f F' M' P' N3', s' = set_free f (set_obj BTREE_OBJMAP x s) /\
    rest calm cap f F' M' P' false /\ ix_rep 1 2 x (objkv <$> (id, e) :: O) N3' /\ big F' X /\
    space (owned F' M' P' ++ held ((id, e) :: O) N3' N4) /\
    (forall z, occ z (owned F' M' P' ++ held ((id, e) :: O) N3' N4) = occ z (owned F M P ++ e :: held O N3 N4)) /\ P `suffix_of` P') E s.
Proof using Type*.
  clear pd_size. intros HR H3 Hno HS Hb HX. pose proof (space_member _ _ _ _ _ _ (space_middle _ _ _ HS)) as Hl.
  assert (Hp : owned F M P ++ e :: held O N3 N4 ≡ₚ owned F M P ++ (e :: O.*2 ++ blocks (elements N4)) ++ blocks (elements N3)) by (unfold held; solve_Permutation).
  pose proof (obj_insert_ok 1 2 (ps_objmap s) (objkv <$> O) N3 [id] [e.1; e.2] (ps_free s) F M P (e :: O.*2 ++ blocks (elements N4)) X H3 eq_refl eq_refl) as Hw.
  assert (Hk : [id] ∉ (objkv <$> O).*1).
  { rewrite <- list_fmap_compose. intros (a & Ea & Ha)%list_elem_of_fmap. injection Ea as ->. by apply Hno, list_elem_of_fmap_2. }
  rewrite length_fmap, <- Hp in Hw. specialize (Hw Hk Hl HR HS Hb HX). cbv zeta in Hw. unfold pwp, pbtree_insert. cbn [get_obj].
  destruct (ix_insert [id] [e.1; e.2] (ps_objmap s) _) as [[r x] pool']. destruct r as [[]| |]; [|done|done].
  destruct Hw as (N3' & F' & M' & P' & H3' & HR' & Hb' & Ho & Hsx & Hv). exists x, (List.last (take (length (pbtree_pool fuel (S (ix_room (ps_objmap s))) (ps_free s)) - length pool')
    (pbtree_pool fuel (S (ix_room (ps_objmap s))) (ps_free s)).*2) (ps_free s)), F', M', P', N3'.
  assert (Hocc : forall z, occ z (owned F' M' P' ++ held ((id, e) :: O) N3' N4) = occ z (owned F M P ++ e :: held O N3 N4)).
  { intros z. specialize (Ho z). unfold held. rewrite fmap_cons. cbn [snd]. rewrite !occ_app, !occ_cons, !occ_app in *. lia. }
  split_and!; [done..| |done|done]. eapply space_same; [exact HS| |exact Hocc]. destruct HS as [HvS _]. destruct HR' as (_ & [HvF _] & _).
  unfold held in *. simpl. rewrite !list.Forall_app, list.Forall_cons, !list.Forall_app in HvS |- *. tauto.
Qed.

(** Its entry in the second one. *)
Lemma insert_iobj_ok id s O I F M P N3 N4 X E :
  rest calm cap (ps_free s) F M P false -> ix_rep 1 1 (ps_iobj s) (iobjkv <$> I) N4 -> id ∉ I -> Z.of_nat (length I) < 2 ^ 63 ->
  space (owned F M P ++ held O N3 N4) -> big F (insert_bytes + X) -> 0 < X ->
  pwp (pbtree_insert fuel BTREE_IOBJ [id] [0]) (fun _ s' => exists x f F' M' P' N4', s' = set_free f (set_obj BTREE_IOBJ x s) /\
    rest calm cap f F' M' P' false /\ ix_rep 1 1 x (iobjkv <$> id :: I) N4' /\ big F' X /\
    space (owned F' M' P' ++ held O N3 N4') /\
    (forall z, occ z (owned F' M' P' ++ held O N3 N4') = occ z (owned F M P ++ held O N3 N4)) /\ P `suffix_of` P') E s.
Proof using Type*.
  clear pd_size. intros HR H4 Hno Hl HS Hb HX.
  assert (Hp : owned F M P ++ held O N3 N4 ≡ₚ owned F M P ++ (O.*2 ++ blocks (elements N3)) ++ blocks (elements N4)) by (unfold held; solve_Permutation).
  pose proof (obj_insert_ok 1 1 (ps_iobj s) (iobjkv <$> I) N4 [id] [0] (ps_free s) F M P (O.*2 ++ blocks (elements N3)) X H4 eq_refl eq_refl) as Hw.
  assert (Hk : [id] ∉ (iobjkv <$> I).*1).
  { rewrite <- list_fmap_compose. intros (a & Ea & Ha)%list_elem_of_fmap. by injection Ea as ->. }
  rewrite length_fmap, <- Hp in Hw. specialize (Hw Hk Hl HR HS Hb HX). cbv zeta in Hw. unfold pwp, pbtree_insert. cbn [get_obj].
  destruct (ix_insert [id] [0] (ps_iobj s) _) as [[r x] pool']. destruct r as [[]| |]; [|done|done].
  destruct Hw as (N4' & F' & M' & P' & H4' & HR' & Hb' & Ho & Hsx & Hv). exists x, (List.last (take (length (pbtree_pool fuel (S (ix_room (ps_iobj s))) (ps_free s)) - length pool')
    (pbtree_pool fuel (S (ix_room (ps_iobj s))) (ps_free s)).*2) (ps_free s)), F', M', P', N4'.
  assert (Hocc : forall z, occ z (owned F' M' P' ++ held O N3 N4') = occ z (owned F M P ++ held O N3 N4)).
  { intros z. specialize (Ho z). unfold held. simpl. rewrite !occ_app in *. lia. }
  split_and!; [done..| |done|done]. eapply space_same; [exact HS| |exact Hocc]. destruct HS as [HvS _]. destruct HR' as (_ & [HvF _] & _).
  unfold held in *. simpl. rewrite !list.Forall_app in HvS |- *. unfold owned in *. rewrite !list.Forall_app in *. tauto.
Qed.

Lemma roundup_pages b N : 0 <= b -> Z.of_nat N * PGSIZE - PGSIZE < b <= Z.of_nat N * PGSIZE -> Z.of_nat N * PGSIZE < 2 ^ 62 ->
  ROUNDUP b PGSIZE = Z.of_nat N * PGSIZE.
Proof using Type.
  intros H1 H2 H3. unfold ROUNDUP, u64, PGSIZE in *. rewrite (Z.mod_small _ (2 ^ 64)) by lia.
  pose proof (Z.div_mod (b + 4096 - 1) 4096 ltac:(lia)). pose proof (Z.mod_pos_bound (b + 4096 - 1) 4096 ltac:(lia)). lia.
Qed.

Lemma initial_length s O I F M P N3 N4 : pinv s O I F M P N3 N4 -> Z.of_nat (length I) < 2 ^ 63.
Proof using Type*.
  intros HI. pose proof (space_member _ _ _ _ _ _ (pi_space _ _ _ _ _ _ _ _ HI)) as Hl. destruct (ix_keys _ _ _ _ _ (pi_iobj _ _ _ _ _ _ _ _ HI)) as [Hnd _].
  rewrite <- list_fmap_compose in Hnd. apply NoDup_fmap_1 in Hnd. pose proof (NoDup_submseteq _ _ Hnd (pi_initial _ _ _ _ _ _ _ _ HI)) as Hs.
  apply submseteq_length in Hs. rewrite length_fmap in Hs. lia.
Qed.

Lemma kobj_alloc_ok id initial objbytes N s O I F M P N3 N4 X E :
  let nb := KOBJ_DISK_SIZE + Z.of_nat N * PGSIZE in
  pinv s O I F M P N3 N4 -> (calm -> (2 * (1 + size N3 + size N4) <= pages_left s)%nat) ->
  0 <= objbytes -> Z.of_nat N * PGSIZE - PGSIZE < objbytes <= Z.of_nat N * PGSIZE -> Z.of_nat N * PGSIZE < 2 ^ 62 ->
  big F (kobj_bytes nb + X) -> 0 < X ->
  pwp (pstate_kobj_alloc fuel id initial objbytes) (fun off s' => exists F1 F' M' P' N3' N4', carve F nb off F1 /\
    pinv s' ((id, (off, nb)) :: not_id id O) (if initial then id :: without id I else without id I) F' M' P' N3' N4' /\
    P `suffix_of` P' /\ (forall e, (id, e) ∈ O -> e ∈ P') /\ frame s s' /\ big F' X) E s.
Proof using Type*.
  intros nb HI Hp Ho HN Hmax Hb HX. unfold pstate_kobj_alloc. apply pwp_bind. eapply pwp_mono; [by apply kobj_free_ok| |done].
  intros [] s1 (P1 & N31 & N41 & HI1 & Hperm1 & Hsx1 & Hold1 & Hf1). rewrite (roundup_pages objbytes N) by done. fold nb.
  assert (Hnb : 0 < nb < 2 ^ 63) by (unfold nb, KOBJ_DISK_SIZE; lia). assert (u64 nb = nb) as -> by (apply Z.mod_small; lia).
  assert (Hb1 : big F (nb + (BTREE_BLOCK_SIZE * 7 * Z.of_nat fuel + (2 * insert_bytes + X)))).
  { eapply big_le; [exact Hb|]. unfold kobj_bytes, alloc_bytes. lia. }
  assert (Hib : 0 < insert_bytes) by (unfold insert_bytes, alloc_bytes, BTREE_BLOCK_SIZE; lia).
  pose proof (pi_rest _ _ _ _ _ _ _ _ HI1) as HR1. apply pwp_bind, pwp_on_free.
  pose proof (freelist_alloc_ok calm cap fuel nb (ps_free s1) F M P1 (2 * insert_bytes + X) HR1 ltac:(lia) ltac:(lia) (or_intror Hb1) ltac:(lia)) as Hw.
  unfold wp in *. destruct (freelist_alloc fuel nb (ps_free s1)) as [[off|e|] f2]; [| |done].
  2:{ exfalso. destruct Hw as (_ & _ & Hs). destruct Hb1 as (c & Hc & Hle). specialize (Hs c Hc). unfold BTREE_BLOCK_SIZE in *. lia. }
  destruct Hw as (F1 & F2 & M2 & P2 & HC & HR2 & Hb2 & Ho2 & Hsx2 & _). specialize (Hb2 Hb1). set (e := (off, nb)).
  destruct HI1 as [_ H3 H4 Hin HS HD HZ]. assert (HS2 : space (owned F2 M2 P2 ++ e :: held (not_id id O) N31 N41)).
  { eapply space_same; [exact HS| |]. 
    - destruct HS as [Hv _]. destruct HR2 as (_ & [Hv2 _] & _). destruct HR1 as (_ & HS1 & _).
      destruct (carve_valid F (blocks M ++ P1) nb off F1 ltac:(lia) HC HS1) as [? ?].
      apply list.Forall_app in Hv as [_ Hv]. apply list.Forall_app. split; [done|]. constructor; [|done]. unfold valid, e. simpl. lia.
    - intros z. specialize (Ho2 z). unfold owned in *. rewrite !occ_app, occ_cons in *. unfold e. lia. }
  assert (HO2 : forall z, occ z (owned F2 M2 P2 ++ e :: held (not_id id O) N31 N41) = occ z (owned F M P1 ++ held (not_id id O) N31 N41)).
  { intros z. specialize (Ho2 z). unfold owned in *. rewrite !occ_app, occ_cons in *. unfold e. lia. }
  apply pwp_bind. eapply pwp_mono; [apply (insert_objmap_ok id e _ (not_id id O) F2 M2 P2 N31 N41 (insert_bytes + X)); [done|done| |done| |]| |done].
  { intros (a & Ea & [Ha _]%not_id_elem)%list_elem_of_fmap. by rewrite <- Ea in Ha. }
  { eapply big_le; [exact Hb2|]. lia. }
  { lia. }
  intros [] s3 (x3 & f3 & F3 & M3 & P3 & N33 & -> & HR3 & H33 & Hb3 & HS3 & Ho3 & Hsx3). apply pwp_bind.
  assert (HZ3 : Forall (fun e => exists N, e.2.2 = KOBJ_DISK_SIZE + Z.of_nat N * PGSIZE) ((id, e) :: not_id id O)) by (constructor; [by exists N|done]).
  assert (HI3 : pinv (set_free f3 (set_obj BTREE_OBJMAP x3 (set_free f2 s1))) ((id, e) :: not_id id O) (without id I) F3 M3 P3 N33 N41).
  { split; try done; [set_solver|]. intros z Hz. rewrite Ho3, HO2. by apply HD. }
  assert (Hsx : P `suffix_of` P3) by (etrans; [exact Hsx1|]; by etrans).
  assert (Hold : forall e, (id, e) ∈ O -> e ∈ P3).
  { intros e' He. apply Hold1 in He. destruct Hsx3 as [Q3 ->]. destruct Hsx2 as [Q2 ->]. rewrite !elem_of_app. auto. }
  destruct initial.
  2:{ eapply pwp_run; [done|]. eapply pwp_run; [done|]. exists F1, F3, M3, P3, N33, N41. split_and!; [done..|]. eapply big_le; [exact Hb3|lia]. }
  eapply pwp_mono; [apply (insert_iobj_ok id _ ((id, e) :: not_id id O) (without id I) F3 M3 P3 N33 N41 X); try done| |done].
  { unfold without. by intros [? _]%list_elem_of_filter. }
  { by eapply initial_length. }
  intros [] s4 (x4 & f4 & F4 & M4 & P4 & N44 & -> & HR4 & H44 & Hb4 & HS4 & Ho4 & Hsx4). eapply pwp_run; [done|].
  exists F1, F4, M4, P4, N33, N44. split_and!; [done| |by etrans| |done|done].
  - split; try done; [set_solver|]. intros z Hz. rewrite Ho4. by apply (pi_disk _ _ _ _ _ _ _ _ HI3).
  - intros e' He. apply Hold in He. destruct Hsx4 as [Q4 ->]. rewrite elem_of_app. auto.
Qed.
End pstate.
