(* ===== verification/PstateProofs.v ===== *)
(** * Objects on disk: what swapping out and in promise

    A swap-out never writes to an extent that the object map of the last commit
    names, whatever fails; what it wrote is what a swap-in returns, but for the
    tail of the last page. *)

From stdpp Require Import sorting list_numbers.
From S2P Require Import Prelude KState KObj KAs Dstack Log BTree BTreeRep BTreeSearch Index Freelist FreelistSpace FreelistInv FreelistProofs Pstate PstateIO PstateInv.
From stdpp Require Import options.

Set Default Goal Selector "!".

(** ** Fields of headers *)

Lemma length_le_encode n v : length (le_encode n v) = n.
Proof. unfold le_encode. by rewrite length_fmap, length_seq. Qed.

Lemma length_hdr_put off n v buf : (off + n <= length buf)%nat -> length (hdr_put off n v buf) = length buf.
Proof. intros Hl. unfold hdr_put. rewrite !length_app, length_take, length_le_encode, length_drop. lia. Qed.

(** A field before the one that is written. *)
Lemma hdr_get_put o m off n v buf : (o + m <= off)%nat -> (off + n <= length buf)%nat -> hdr_get o m (hdr_put off n v buf) = hdr_get o m buf.
Proof.
  intros Ho Hl. unfold hdr_get, hdr_put. f_equal. rewrite drop_app_le by (rewrite length_take; lia).
  rewrite take_app_le by (rewrite length_drop, length_take; lia). rewrite skipn_firstn_comm, take_take. f_equal. lia.
Qed.

Lemma length_sync_header ts buf : length buf = Z.to_nat KOBJ_DISK_SIZE -> length (sync_header ts buf) = Z.to_nat KOBJ_DISK_SIZE.
Proof.
  change (Z.to_nat KOBJ_DISK_SIZE) with 512%nat. intros Hl. unfold sync_header.
  rewrite !length_hdr_put; rewrite ?length_hdr_put; unfold off_ko_sync_ts, off_ko_flags; lia.
Qed.

Lemma sync_header_get ts buf o m : length buf = Z.to_nat KOBJ_DISK_SIZE -> (o + m <= off_ko_flags)%nat -> hdr_get o m (sync_header ts buf) = hdr_get o m buf.
Proof.
  change (Z.to_nat KOBJ_DISK_SIZE) with 512%nat. intros Hl Ho. unfold sync_header, off_ko_flags, off_ko_sync_ts in *.
  rewrite !hdr_get_put; rewrite ?length_hdr_put; lia.
Qed.

(** ** Snapshots *)

Definition snap_id (snap : snapshot) : Z := hdr_get off_ko_id 8 (sn_buf snap).
Definition snap_nbytes (snap : snapshot) : Z := hdr_get off_ko_nbytes 8 (sn_buf snap).

(** A header of 512 bytes, and as many pages as its size needs. *)
Record snap_ok (snap : snapshot) : Prop := {
  so_buf : length (sn_buf snap) = Z.to_nat KOBJ_DISK_SIZE;
  so_pages : Forall (fun p => length p = Z.to_nat PGSIZE) (sn_pages snap);
  so_nbytes : 0 <= snap_nbytes snap;
  so_size : Z.of_nat (length (sn_pages snap)) * PGSIZE - PGSIZE < snap_nbytes snap <= Z.of_nat (length (sn_pages snap)) * PGSIZE;
  so_max : Z.of_nat (length (sn_pages snap)) * PGSIZE < 2 ^ 62;
}.

(** The space of an object on disk. *)
Definition disk_bytes (snap : snapshot) : Z := KOBJ_DISK_SIZE + Z.of_nat (length (sn_pages snap)) * PGSIZE.

Lemma sync_bytes_ok snap :
  snap_ok snap -> exists b, sync_bytes (snap_nbytes snap) (sn_pages snap) = Ok b /\ snap_nbytes snap <= b /\
    Z.of_nat (length (sn_pages snap)) * PGSIZE - PGSIZE < b <= Z.of_nat (length (sn_pages snap)) * PGSIZE.
Proof.
  intros [Hb Hp Hn Hs Hm]. unfold sync_bytes. set (n := snap_nbytes snap) in *. set (N := length (sn_pages snap)) in *. destruct (Z.eqb_spec (PGOFF n) 0) as [E|E].
  { exists n. split_and!; [done|lia..]. }
  unfold PGOFF, PGSIZE in *. pose proof (Z.mod_pos_bound n 4096 ltac:(lia)) as Hmod. pose proof (Z.div_mod n 4096 ltac:(lia)) as Hdiv.
  assert (Hidx : Z.to_nat (ROUNDDOWN n 4096 / 4096) = (N - 1)%nat).
  { unfold ROUNDDOWN. replace (n - n mod 4096) with (n / 4096 * 4096) by lia. rewrite Z.div_mul by lia. lia. }
  rewrite Hidx. destruct (lookup_lt_is_Some_2 (sn_pages snap) (N - 1)) as [p Ep]; [unfold N in *; lia|]. rewrite (res_nth_lookup _ _ _ Ep). cbn [res_bind].
  eexists. split; [done|]. assert (u64 (n + (4096 - n mod 4096)) = n + (4096 - n mod 4096)) as -> by (apply Z.mod_small; lia).
  destruct (forallb _ _); split_and!; lia.
Qed.

(** ** What does not touch the disk *)

Section disk.
Context {T : Type} `{IndexOps T}.

Definition keeps_disk {A} (m : PM A) : Prop := forall (s : pst T) r s', m s = (r, s') -> ps_disk s' = ps_disk s.

Lemma kd_pure {A} (f : pst T -> res A) : keeps_disk (fun s => (f s, s)).
Proof using Type. by intros s r s' [= _ <-]. Qed.

Lemma kd_bind {A B} (m : PM A) (f : A -> PM B) : keeps_disk m -> (forall a, keeps_disk (f a)) -> keeps_disk (m ≫= f).
Proof using Type.
  intros Hm Hf s r s'. unfold mbind, PM_bind. destruct (m s) as [r1 s1] eqn:E. apply Hm in E. destruct r1 as [a| |]; [|by intros [= _ <-]..].
  intros E2%Hf. congruence.
Qed.

Lemma kd_pcode {A} (m : PM A) : keeps_disk m -> keeps_disk (pcode m).
Proof using Type. intros Hm s r s'. unfold pcode. destruct (m s) as [r1 s1] eqn:E. apply Hm in E. destruct r1; by intros [= _ <-]. Qed.

Lemma kd_assert b : keeps_disk (passert b).
Proof using Type. destruct b; apply kd_pure. Qed.

Lemma kd_on_free {A} (m : FM A) : keeps_disk (on_free m).
Proof using Type. intros s r s'. unfold on_free. destruct (m (ps_free s)). by intros [= _ <-]. Qed.

Lemma kd_insert fuel id k v : keeps_disk (pbtree_insert fuel id k v).
Proof using Type.
  intros s r s'. unfold pbtree_insert. destruct (ix_insert _ _ _ _) as [[r1 x] pool]. intros [= _ <-]. by destruct id.
Qed.

Lemma kd_free_nodes l : keeps_disk (pbtree_free_nodes l).
Proof using Type. induction l as [|o l IH]; [apply kd_pure|]. apply kd_bind; [apply kd_on_free|done]. Qed.

Lemma kd_delete id k : keeps_disk (pbtree_delete id k).
Proof using Type.
  intros s r s'. unfold pbtree_delete. destruct (ix_delete _ _) as [[r1 x] back]. destruct (pbtree_free_nodes back _) as [r2 s2] eqn:E.
  apply kd_free_nodes in E. assert (ps_disk s2 = ps_disk s) by (by destruct id). destruct r2; by intros [= _ <-].
Qed.

Lemma kobj_free_disk id : keeps_disk (pstate_kobj_free id).
Proof using Type.
  unfold pstate_kobj_free. apply kd_bind; [apply kd_pcode, kd_pure|]. intros [[k v]| |]; [|apply kd_pure..].
  repeat first [apply kd_on_free|apply kd_assert|apply kd_pcode, kd_delete|apply kd_pure|apply kd_bind; [|intros ?]].
Qed.

Lemma kobj_alloc_disk fuel id initial n : keeps_disk (pstate_kobj_alloc fuel id initial n).
Proof using Type.
  unfold pstate_kobj_alloc. apply kd_bind; [apply kobj_free_disk|]. intros [].
  repeat first [apply kd_on_free|apply kd_insert|apply kd_pure|destruct initial|apply kd_bind; [|intros ?]].
Qed.
End disk.

(** ** Swapping out one object *)

Section out.
Context {T : Type} `{Index T} (calm : Prop) (cap fuel : nat) (pd_size : Z) (Hpd : 0 <= pd_size < 2 ^ 63).
Abbreviation pinv := (PstateInv.pinv calm cap pd_size).

Lemma pinv_same s s' O I F M P N3 N4 : same s s' -> pinv s O I F M P N3 N4 -> pinv s' O I F M P N3 N4.
Proof using Type. intros (E1 & E2 & E3) [HR H3 H4 HI HS HD HZ]. split; rewrite ?E1, ?E2, ?E3; done. Qed.

Lemma extent_fits s O I F M P N3 N4 e : pinv s O I F M P N3 N4 -> e ∈ owned F M P ++ held O N3 N4 -> 0 < e.1 /\ 0 < e.2 /\ e.1 + e.2 <= pd_size.
Proof using Type.
  intros HI He. destruct (space_elem e _ (pi_space _ _ _ _ _ _ _ _ _ _ _ HI) He) as (H1 & H2 & H3). split_and!; [done..|].
  destruct (Z.le_gt_cases (e.1 + e.2) pd_size) as [|Hgt]; [done|]. exfalso.
  pose proof (pi_disk _ _ _ _ _ _ _ _ _ _ _ HI (e.1 + e.2 - 1) ltac:(lia)) as Ho. apply elem_of_Permutation in He as [l Hl].
  rewrite Hl, occ_cons, covers_spec in Ho. case_decide; lia.
Qed.

(** The object is in a new extent at [off], which was free; only that was written. *)
Definition moved (snap : snapshot) (s : pst T) O I F P X (off : Z) (s' : pst T) : Prop :=
  let id := snap_id snap in
  exists F1 F' M' P' N3' N4', carve F (disk_bytes snap) off F1 /\
    pinv s' ((id, (off, disk_bytes snap)) :: not_id id O) (if sn_initial snap then id :: without id I else without id I) F' M' P' N3' N4' /\
    P `suffix_of` P' /\ (forall e, (id, e) ∈ O -> e ∈ P') /\ only_in (ps_disk s) (ps_disk s') off (disk_bytes snap) /\ big F' X.

(** Header and pages were written at [off]. *)
Definition stored (ts : Z) (snap : snapshot) (d : Z -> Z) (off : Z) (d' : Z -> Z) : Prop :=
  exists b, sync_bytes (snap_nbytes snap) (sn_pages snap) = Ok b /\
    forall z, d' z = put_bytes d off (iov_data (sync_header ts (sn_buf snap) :: sn_pages snap)
      ((0%nat, KOBJ_DISK_SIZE) :: page_entries b 0 (length (sn_pages snap)))) z.

Lemma sync_kobj_ok ts snap s O I F M P N3 N4 X :
  pinv s O I F M P N3 N4 -> (calm -> (2 * (1 + size N3 + size N4) <= pages_left s)%nat) -> snap_ok snap ->
  big F (kobj_bytes fuel (disk_bytes snap) + X) -> 0 < X ->
  match pstate_sync_kobj fuel pd_size ts snap s with
  | (Ok _, s') => exists off, moved snap s O I F P X off s' /\ stored ts snap (ps_disk s) off (ps_disk s')
  | (Err e, s') => e = E_IO /\ exists off, moved snap s O I F P X off s'
  | (Panic, s') => ~ calm /\ ps_disk s' = ps_disk s
  end.
Proof using Type*.
  intros HI Hp Hso Hb HX. pose proof Hso as [Hbuf Hpg Hn0 Hsz Hmax]. set (N := length (sn_pages snap)) in *.
  destruct (sync_bytes_ok snap Hso) as (b & Eb & Hnb & Hb1). fold N in Hb1.
  assert (E1 : hdr_get off_ko_nbytes 8 (sync_header ts (sn_buf snap)) = snap_nbytes snap) by (apply sync_header_get; [done|by apply Nat.leb_le]).
  assert (E2 : hdr_get off_ko_id 8 (sync_header ts (sn_buf snap)) = snap_id snap) by (apply sync_header_get; [done|by apply Nat.leb_le]).
  unfold pstate_sync_kobj. rewrite E1, E2. unfold mbind at 1, PM_bind at 1, plift. rewrite Eb. unfold mbind at 1, PM_bind at 1.
  pose proof (kobj_alloc_ok calm cap fuel pd_size (snap_id snap) (sn_initial snap) b N s O I F M P N3 N4 X (fun _ _ => False) HI Hp ltac:(lia) Hb1 Hmax Hb HX) as Hw.
  unfold pwp in Hw. destruct (pstate_kobj_alloc fuel (snap_id snap) (sn_initial snap) b s) as [[off| |] s1] eqn:Ea; [|done|split; [done|by eapply kobj_alloc_disk]].
  destruct Hw as (F1 & F' & M' & P' & N3' & N4' & HC & HI1 & Hsx & Hold & (Hd1 & _ & _) & HbX). fold (disk_bytes snap) in HC, HI1.
  destruct (extent_fits _ _ _ _ _ _ _ _ (off, disk_bytes snap) HI1) as (Ho1 & _ & Ho2); [rewrite elem_of_app; right; left|]. simpl in Ho1, Ho2.
  unfold mbind at 1, PM_bind at 1. set (s2 := set_bufs _ s1).
  assert (Hnp : Z.to_nat (ROUNDUP (snap_nbytes snap) PGSIZE / PGSIZE) = N).
  { rewrite (roundup_pages (snap_nbytes snap) N) by done. rewrite Z.div_mul by done. lia. }
  rewrite Hnp.
  pose proof (sync_write_ok pd_size Hpd (ps_disk s) off (sync_header ts (sn_buf snap)) (sn_pages snap) b N (length_sync_header ts _ Hbuf) eq_refl Hpg
    ltac:(lia) Hb1 Hmax s2 ltac:(lia) ltac:(unfold disk_bytes in Ho2; fold N in Ho2; lia) eq_refl Hd1) as Hw.
  assert (Hmv : forall s3, same s2 s3 -> only_in (ps_disk s) (ps_disk s3) off (disk_bytes snap) -> moved snap s O I F P X off s3).
  { intros s3 Hs Hd. exists F1, F', M', P', N3', N4'. split_and!; [done| |done..]. apply (pinv_same s1); [by apply (same_trans s1 s2)|done]. }
  match type of Hw with match ?m with _ => _ end => destruct m as [[[]|e|] s3] end; [| |done].
  - destruct Hw as [Hd3 Hs3]. exists off. split; [|by exists b]. apply Hmv; [done|]. intros z Hz. rewrite Hd3. apply put_bytes_out. intros Hin. apply Hz.
    pose proof (all_fit (sync_header ts (sn_buf snap)) (sn_pages snap) b N (length_sync_header ts _ Hbuf) eq_refl Hpg ltac:(lia) Hb1 Hmax) as Hfit.
    rewrite (length_iov_data _ _ Hfit) in Hin.
    pose proof (entries_size (sync_header ts (sn_buf snap)) (sn_pages snap) b N (length_sync_header ts _ Hbuf) eq_refl Hpg ltac:(lia) Hb1 Hmax 0 N ltac:(lia)) as Hes.
    change (iov_size ((0%nat, KOBJ_DISK_SIZE) :: page_entries b 0 N)) with (KOBJ_DISK_SIZE + iov_size (page_entries b 0 N)) in Hin.
    unfold disk_bytes. fold N. lia.
  - destruct Hw as (-> & Hd3 & Hs3). split; [done|]. exists off. by apply Hmv.
Qed.
End out.

(** ** Swapping out many objects *)

(** The object is dead and its space is to be freed. *)
Definition gone (snap : snapshot) : bool :=
  (hdr_get off_ko_type 4 (sn_buf snap) =? kobject_type_num kobj_dead) && negb (Z.land (hdr_get off_ko_flags 4 (sn_buf snap)) KOBJ_ON_DISK =? 0).

(** The space that swapping out may need. *)
Definition sync_need (fuel : nat) (l : list snapshot) : Z := foldr (fun snap acc => kobj_bytes fuel (disk_bytes snap) + acc) 0 l.

(** The objects on disk after swapping out one more; [off] is where it went. *)
Definition relocate (snap : snapshot) (off : Z) (O : list (Z * (Z * Z))) : list (Z * (Z * Z)) :=
  let O' := not_id (snap_id snap) O in
  if gone snap then O' else (snap_id snap, (off, disk_bytes snap)) :: O'.

Lemma kobj_bytes_pos fuel snap : 0 < kobj_bytes fuel (disk_bytes snap).
Proof.
  assert (0 <= disk_bytes snap) by (unfold disk_bytes, KOBJ_DISK_SIZE, PGSIZE; lia).
  unfold kobj_bytes, insert_bytes, alloc_bytes, BTREE_BLOCK_SIZE in *. lia.
Qed.

Lemma sync_need_pos fuel l : 0 <= sync_need fuel l.
Proof. induction l as [|snap l IH]; [done|]. pose proof (kobj_bytes_pos fuel snap). change (0 <= kobj_bytes fuel (disk_bytes snap) + sync_need fuel l). lia. Qed.

Section many.
Context {T : Type} `{Index T} (fuel : nat) (pd_size : Z) (Hpd : 0 <= pd_size < 2 ^ 63).

(** The store is consistent. *)
Definition store_ok : pst T -> list (Z * (Z * Z)) -> list Z -> list (Z * Z) -> list Z -> list (Z * Z) -> gset Z -> gset Z -> Prop := pinv False 0 pd_size.

Definition kept (O : list (Z * (Z * Z))) (P : list (Z * Z)) (d d' : Z -> Z) : Prop :=
  forall e z, e ∈ O.*2 ++ P -> e.1 <= z < e.1 + e.2 -> d' z = d z.

(** The pages for the stack of deferred frees. *)
Definition pages_ok (s : pst T) : Prop := Forall (fun p => length p = DSTACK_BUF_SIZE) (fs_pages (ps_free s)).

Lemma pinv_pages calm cap s O I F M P N3 N4 : pinv calm cap pd_size s O I F M P N3 N4 -> pages_ok s.
Proof using Type. intros HI. destruct (pi_rest _ _ _ _ _ _ _ _ _ _ _ HI) as (Hm & _). apply (md_pages _ _ _ _ _ _ _ _ Hm). Qed.

(** A piece cut off a free chunk holds no object and nothing that is pending. *)
Lemma carve_kept F M P O N3 N4 n off F1 d d' :
  carve F n off F1 -> space (owned F M P ++ held O N3 N4) -> only_in d d' off n -> kept O P d d'.
Proof using Type.
  clear Hpd pd_size. intros (l & R & HF & Hl & _) HS Hd e z He Hz. apply Hd. intros Hin. unfold owned in HS. rewrite HF in HS. simpl in HS.
  assert (Hdj : disjoint_ext (off, l) e).
  { eapply space_disjoint_elem; [exact HS|]. unfold held. rewrite !elem_of_app in *. tauto. }
  unfold disjoint_ext in Hdj. simpl in Hdj. lia.
Qed.

Lemma sync_one_ok ts snap s O I F M P N3 N4 X :
  store_ok s O I F M P N3 N4 -> snap_ok snap -> big F (kobj_bytes fuel (disk_bytes snap) + X) -> 0 < X ->
  let '(r, s') := sync_one fuel pd_size ts snap s in
  kept O P (ps_disk s) (ps_disk s') /\
  match r with
  | Ok _ => exists off I' F' M' P' N3' N4', store_ok s' (relocate snap off O) I' F' M' P' N3' N4' /\ big F' X /\
      (forall e, e ∈ O.*2 ++ P -> e ∈ (relocate snap off O).*2 ++ P') /\
      (gone snap = true \/ stored ts snap (ps_disk s) off (ps_disk s'))
  | Err e => e = E_IO /\ pages_ok s'
  | Panic => True
  end.
Proof using Type*.
  intros HI Hso Hb HX. unfold sync_one. fold (gone snap) (snap_id snap). unfold relocate.
  assert (Hmv : forall P', (forall e, (snap_id snap, e) ∈ O -> e ∈ P') -> P `suffix_of` P' -> forall e, e ∈ O.*2 ++ P -> e ∈ (not_id (snap_id snap) O).*2 ++ P').
  { intros P' Hold Hsx e [([i a] & -> & Ha)%list_elem_of_fmap|He]%elem_of_app; rewrite elem_of_app.
    - destruct (decide (i = snap_id snap)) as [->|Hne]; [right; by apply Hold|left]. apply (list_elem_of_fmap_2 snd _ (i, a)), not_id_elem. by split.
    - right. destruct Hsx as [Q ->]. rewrite elem_of_app. by right. }
  destruct (gone snap).
  - destruct (pstate_kobj_free (snap_id snap) s) as [r s'] eqn:E. pose proof (kobj_free_disk _ _ _ _ E) as Hd. split; [by intros e z _ _; rewrite Hd|].
    pose proof (kobj_free_ok False 0 pd_size (snap_id snap) s O I F M P N3 N4 (fun _ _ => False) HI ltac:(done)) as Hw. unfold pwp in Hw. rewrite E in Hw.
    destruct r as [[]| |]; [|done|done]. destruct Hw as (P' & N3' & N4' & HI' & _ & Hsx & Hold & _).
    eexists 0, _, F, M, P', N3', N4'. split_and!; [exact HI'| |by apply Hmv|by left].
    eapply big_le; [exact Hb|]. pose proof (kobj_bytes_pos fuel snap). lia.
  - pose proof (sync_kobj_ok False 0 fuel pd_size Hpd ts snap s O I F M P N3 N4 X HI ltac:(done) Hso Hb HX) as Hw.
    pose proof (pi_space _ _ _ _ _ _ _ _ _ _ _ HI) as HS. destruct (pstate_sync_kobj fuel pd_size ts snap s) as [[[]|e|] s'].
    + destruct Hw as (off & (F1 & F' & M' & P' & N3' & N4' & HC & HI' & Hsx & Hold & Hd & HbX) & Hst). split; [by eapply carve_kept|].
      eexists off, _, F', M', P', N3', N4'. split_and!; [exact HI'|done| |by right].
      intros e He. apply (Hmv P' Hold Hsx) in He. simpl. rewrite elem_of_cons, !elem_of_app in *. tauto.
    + destruct Hw as (-> & off & (F1 & F' & M' & P' & N3' & N4' & HC & HI' & Hsx & Hold & Hd & HbX)).
      split; [by eapply carve_kept|]. split; [done|by eapply pinv_pages].
    + destruct Hw as [_ Hd]. split; [by intros e z _ _; rewrite Hd|done].
Qed.
End many.
