(* ===== verification/PstateMap.v ===== *)
(** * The store of objects as a map

    What the disk holds is a map from identifiers to objects: swapping out updates
    it, and never touches what the map of the last commit needs; swapping in looks
    it up. *)

From stdpp Require Import sorting list_numbers.
From S2P Require Import Prelude KState KObj KAs Dstack Log BTree BTreeRep BTreeSearch Index Freelist FreelistSpace FreelistInv FreelistProofs Pstate PstateIO PstateInv PstateProofs.
From stdpp Require Import options.

Set Default Goal Selector "!".

(** ** Objects on the disk *)

(** The bytes of an object on page [i]. *)
Definition page_part (snap : snapshot) (i : nat) : nat := Z.to_nat (Z.min (snap_nbytes snap - Z.of_nat i * PGSIZE) PGSIZE).

(** The extent [e] holds the object: its header, with some time stamp, and all its
    bytes. *)
Definition content_at (d : Z -> Z) (e : Z * Z) (snap : snapshot) : Prop :=
  e.2 = disk_bytes snap /\ (exists ts, bytes_at d e.1 (Z.to_nat KOBJ_DISK_SIZE) = sync_header ts (sn_buf snap)) /\
  forall i p, sn_pages snap !! i = Some p ->
    take (page_part snap i) (bytes_at d (e.1 + KOBJ_DISK_SIZE + Z.of_nat i * PGSIZE) (Z.to_nat PGSIZE)) = take (page_part snap i) p.

Lemma content_ext d d' e snap : (forall z, e.1 <= z < e.1 + e.2 -> d' z = d z) -> content_at d e snap -> content_at d' e snap.
Proof.
  intros Hd (E & (ts & Hh) & Hp). unfold disk_bytes, KOBJ_DISK_SIZE, PGSIZE in *. split_and!; [done| |].
  - exists ts. rewrite <- Hh. apply bytes_at_ext. intros z Hz. apply Hd. lia.
  - intros i p Hi. rewrite <- (Hp i p Hi). f_equal. apply lookup_lt_Some in Hi. apply bytes_at_ext. intros z Hz. apply Hd. lia.
Qed.

Lemma stored_content ts snap d off d' : snap_ok snap -> stored ts snap d off d' -> content_at d' (off, disk_bytes snap) snap.
Proof.
  intros Hso (b & Eb & Hd). pose proof Hso as [Hbuf Hpg Hn0 Hsz Hmax]. destruct (sync_bytes_ok snap Hso) as (b' & Eb' & Hle & Hb1).
  rewrite Eb in Eb'. injection Eb' as <-. pose proof (length_sync_header ts _ Hbuf) as Hlh. split_and!; [done| |].
  - exists ts. exact (header_written d off _ _ b _ Hlh eq_refl Hpg ltac:(lia) Hb1 Hmax _ Hd).
  - intros i p Hp. cbn [fst]. rewrite (page_written d off _ _ b _ Hlh eq_refl Hpg ltac:(lia) Hb1 Hmax _ i p Hd Hp).
    destruct (page_bytes_range _ _ b _ Hlh eq_refl Hpg ltac:(lia) Hb1 Hmax i (lookup_lt_Some _ _ _ Hp)) as ([Hr1 Hr2] & _ & Hr3).
    rewrite list.Forall_lookup in Hpg. pose proof (Hpg i p Hp) as Hlp. unfold page_part.
    rewrite take_app_le, take_take by (rewrite length_take; lia). f_equal. lia.
Qed.

(** The disk holds the objects of [C] in the extents of [O]. *)
Definition holds (d : Z -> Z) (O : list (Z * (Z * Z))) (C : gmap Z snapshot) : Prop :=
  NoDup O.*1 /\ (forall id e, (id, e) ∈ O -> exists snap, C !! id = Some snap /\ snap_ok snap /\ snap_id snap = id /\ content_at d e snap) /\
  (forall id, is_Some (C !! id) -> id ∈ O.*1).

Lemma holds_ext d d' O C : (forall e z, e ∈ O.*2 -> e.1 <= z < e.1 + e.2 -> d' z = d z) -> holds d O C -> holds d' O C.
Proof.
  intros Hd (Hnd & HO & HC). split_and!; [done| |done]. intros id e He. destruct (HO id e He) as (snap & E & Hs & Hi & Hc). exists snap. split_and!; [done..|].
  eapply content_ext; [|exact Hc]. intros z Hz. apply (Hd e z); [|done]. by apply (list_elem_of_fmap_2 snd _ (id, e)).
Qed.

Lemma holds_nil d : holds d [] ∅.
Proof. split_and!; [constructor| |]; [intros id e He; by apply not_elem_of_nil in He|]. intros id [sn Hs]. by rewrite lookup_empty in Hs. Qed.

(** Swapping out one object. *)
Definition put_object (C : gmap Z snapshot) (snap : snapshot) : gmap Z snapshot :=
  if gone snap then delete (snap_id snap) C else <[snap_id snap := snap]> C.

Lemma not_id_NoDup {A} id (O : list (Z * A)) : NoDup O.*1 -> NoDup (not_id id O).*1 /\ (id ∉ (not_id id O).*1).
Proof.
  intros Hnd. split.
  - induction O as [|[i a] O IH]; [constructor|]. simpl in Hnd. apply list.NoDup_cons in Hnd as [Hno Hnd]. unfold not_id in *.
    destruct (decide (i = id)) as [->|Hne]; [rewrite filter_cons_False by (simpl; tauto); by apply IH|].
    rewrite filter_cons_True by done. simpl. constructor; [|by apply IH]. intros (b & Eb & [_ Hb]%list_elem_of_filter)%list_elem_of_fmap.
    apply Hno. simpl in Eb. rewrite Eb. by apply list_elem_of_fmap_2.
  - intros (a & Ea & [Ha _]%not_id_elem)%list_elem_of_fmap. by rewrite Ea in Ha.
Qed.

Lemma holds_put ts snap off d d' O C :
  snap_ok snap -> holds d O C -> (forall e z, e ∈ O.*2 -> e.1 <= z < e.1 + e.2 -> d' z = d z) -> (gone snap = true \/ stored ts snap d off d') ->
  holds d' (relocate snap off O) (put_object C snap).
Proof.
  intros Hso HH Hd Hst. apply (holds_ext d d') in HH as (Hnd & HO & HC); [|done]. destruct (not_id_NoDup (snap_id snap) O Hnd) as [Hnd' Hno].
  unfold relocate, put_object. destruct (gone snap) eqn:Eg.
  - split_and!; [done| |].
    + intros id e [Hne He]%not_id_elem. simpl in Hne. destruct (HO id e He) as (sn & E & ?). exists sn. by rewrite lookup_delete_ne.
    + intros id [sn Hs]. apply lookup_delete_Some in Hs as [Hne Hs]. pose proof (HC id ltac:(by eexists)) as (a & -> & Ha)%list_elem_of_fmap.
      apply list_elem_of_fmap_2, not_id_elem. by split.
  - destruct Hst as [|Hst]; [done|]. split_and!; [by constructor| |].
    + intros id e [[= -> ->]|[Hne He]%not_id_elem]%elem_of_cons.
      * exists snap. rewrite lookup_insert_eq. split_and!; [done..|]. by eapply stored_content.
      * simpl in Hne. destruct (HO id e He) as (sn & E & ?). exists sn. by rewrite lookup_insert_ne.
    + intros id [sn Hs]. apply lookup_insert_Some in Hs as [[<- _]|[Hne Hs]]; simpl; [left|right]. pose proof (HC id ltac:(by eexists)) as (a & -> & Ha)%list_elem_of_fmap.
      apply list_elem_of_fmap_2, not_id_elem. by split.
Qed.

(** ** Swapping out many objects *)

Section many.
Context {T : Type} `{Index T} (fuel : nat) (pd_size : Z) (Hpd : 0 <= pd_size < 2 ^ 63).

Lemma sync_objects_ok ts l (s : pst T) O I F M P N3 N4 C X :
  store_ok pd_size s O I F M P N3 N4 -> holds (ps_disk s) O C -> Forall snap_ok l -> big F (sync_need fuel l + X) -> 0 < X ->
  let '(r, s') := pstate_sync_objects fuel pd_size ts l s in
  kept O P (ps_disk s) (ps_disk s') /\
  match r with
  | Ok _ => exists O' I' F' M' P' N3' N4', store_ok pd_size s' O' I' F' M' P' N3' N4' /\ big F' X /\
      holds (ps_disk s') O' (foldl put_object C l)
  | Err e => e = E_IO
  | Panic => True
  end.
Proof using Type*.
  intros HI HC Hl. revert s O I F M P N3 N4 C HI HC. induction Hl as [|snap l Hso _ IH]; intros s O I F M P N3 N4 C HI HC Hb HX; cbn [pstate_sync_objects].
  { split; [done|]. by exists O, I, F, M, P, N3, N4. }
  pose proof (sync_need_pos fuel l) as Hpos. change (sync_need fuel (snap :: l)) with (kobj_bytes fuel (disk_bytes snap) + sync_need fuel l) in Hb.
  pose proof (sync_one_ok fuel pd_size Hpd ts snap s O I F M P N3 N4 (sync_need fuel l + X) HI Hso ltac:(eapply big_le; [exact Hb|lia]) ltac:(lia)) as H1.
  unfold mbind, PM_bind. destruct (sync_one fuel pd_size ts snap s) as [[[]|e|] s1]; [|by destruct H1 as (? & ? & _)|done].
  destruct H1 as [Hk1 (off & I1 & F1 & M1 & P1 & N31 & N41 & HI1 & Hb1 & Hmv & Hst)].
  assert (HC1 : holds (ps_disk s1) (relocate snap off O) (put_object C snap)).
  { eapply holds_put; [done|exact HC| |exact Hst]. intros e z He Hz. apply (Hk1 e z); [|done]. rewrite elem_of_app. by left. }
  specialize (IH s1 _ I1 F1 M1 P1 N31 N41 _ HI1 HC1 Hb1 HX).
  destruct (pstate_sync_objects fuel pd_size ts l s1) as [r s2]. destruct IH as [Hk2 IH]. split.
  { intros e z He Hz. rewrite (Hk2 e z (Hmv e He) Hz). by apply (Hk1 e z). }
  destruct r as [[]| |]; [|done|done]. destruct IH as (O2 & I2 & F2 & M2 & P2 & N32 & N42 & HI2 & Hb2 & HC2). by exists O2, I2, F2, M2, P2, N32, N42.
Qed.
End many.

(** ** The claims *)

(** [freelist_commit] turns what is pending into free space. *)
Lemma sync_commit_ok {T} `{Index T} fuel rounds pd_size s O I F M P N3 N4 :
  store_ok pd_size s O I F M P N3 N4 -> big F (service_bytes fuel * Z.of_nat rounds + 1) ->
  match on_free (freelist_commit fuel rounds) s with
  | (Ok _, s') => exists F' M', store_ok pd_size s' O I F' M' [] N3 N4
  | (Err _, _) => False
  | (Panic, _) => True
  end.
Proof.
  intros [HR H3 H4 HI HS HD HZ] Hb. pose proof (freelist_commit_ok False 0 fuel rounds (ps_free s) F M P 1 HR (or_intror Hb) ltac:(lia) ltac:(done)) as Hw.
  unfold wp, on_free in *. destruct (freelist_commit fuel rounds (ps_free s)) as [[[]| |] f]; [|done|done]. destruct Hw as (F' & M' & HR' & Ho).
  assert (Hocc : forall z, occ z (owned F' M' [] ++ held O N3 N4) = occ z (owned F M P ++ held O N3 N4)).
  { intros z. specialize (Ho z). unfold owned. rewrite app_nil_r, occ_app, Ho, <- occ_app. done. }
  exists F', M'. split; try done.
  - eapply space_same; [exact HS| |exact Hocc]. destruct HS as [Hv _]. destruct HR' as (_ & [Hv' _] & _). rewrite list.Forall_app in Hv |- *. by destruct Hv.
  - intros z Hz. rewrite Hocc. by apply HD.
Qed.

Lemma sync_loop_ok {T} `{Index T} fuel rounds pd_size (Hpd : 0 <= pd_size < 2 ^ 63) ts l (s : pst T) O I F M P N3 N4 C :
  store_ok pd_size s O I F M P N3 N4 -> holds (ps_disk s) O C -> Forall snap_ok l ->
  big F (sync_need fuel l + (service_bytes fuel * Z.of_nat rounds + 1)) ->
  let '(r, s') := pstate_sync_loop fuel rounds pd_size (mret tt) ts l s in
  kept O P (ps_disk s) (ps_disk s') /\
  match r with
  | Ok _ => exists O' I' F' M' N3' N4', store_ok pd_size s' O' I' F' M' [] N3' N4' /\ holds (ps_disk s') O' (foldl put_object C l)
  | Err e => e = E_IO
  | Panic => True
  end.
Proof.
  intros HI HC Hl Hb. assert (Hpos : 0 < service_bytes fuel * Z.of_nat rounds + 1) by (unfold service_bytes, BTREE_BLOCK_SIZE; lia).
  pose proof (sync_objects_ok fuel pd_size Hpd ts l s O I F M P N3 N4 C _ HI HC Hl Hb Hpos) as H1. unfold pstate_sync_loop, mbind, PM_bind.
  destruct (pstate_sync_objects fuel pd_size ts l s) as [[[]|e|] s1]; [|by destruct H1..].
  destruct H1 as [Hk (O1 & I1 & F1 & M1 & P1 & N31 & N41 & HI1 & Hb1 & HC1)].
  pose proof (sync_commit_ok fuel rounds pd_size s1 O1 I1 F1 M1 P1 N31 N41 HI1 Hb1) as H2.
  destruct (on_free (freelist_commit fuel rounds) s1) as [r s2] eqn:E2. apply kd_on_free in E2.
  destruct r as [[]|e|]; [|done|by split; [intros e z He Hz; rewrite E2; apply (Hk e z)|]]. destruct H2 as (F2 & M2 & HI2). simpl.
  split; [intros e z He Hz; rewrite E2; by apply (Hk e z)|]. exists O1, I1, F2, M2, N31, N41. by rewrite E2.
Qed.

Section claims.
Context {T : Type} `{Index T}.

(** C26: swapping out updates the map of objects and keeps the old one.  From a
    consistent store with enough free space that holds the objects of [C],
    [pstate_sync_loop] up to the commit of the log leaves every byte of the extents
    that the object map named at the start, and of those that were pending, as it
    was, whichever transfers fail, also half-way, and whether it succeeds, fails or
    panics: the disk still holds [C] for the object map of the last commit.  When it
    succeeds the store is consistent again, nothing is pending, and it holds the
    objects of [C] updated with those swapped out, in order; it fails only with
    [E_IO]. *)
Theorem pstate_sync_refines fuel rounds pd_size ts l (s : pst T) O I F M P N3 N4 C :
  0 <= pd_size < 2 ^ 63 -> store_ok pd_size s O I F M P N3 N4 -> holds (ps_disk s) O C -> Forall snap_ok l ->
  big F (sync_need fuel l + (service_bytes fuel * Z.of_nat rounds + 1)) ->
  let '(r, s') := pstate_sync_loop fuel rounds pd_size (mret tt) ts l s in
  (forall e z, e ∈ O.*2 ++ P -> e.1 <= z < e.1 + e.2 -> ps_disk s' z = ps_disk s z) /\ holds (ps_disk s') O C /\
  match r with
  | Ok _ => exists O' I' F' M' N3' N4', store_ok pd_size s' O' I' F' M' [] N3' N4' /\ holds (ps_disk s') O' (foldl put_object C l)
  | Err e => e = E_IO
  | Panic => True
  end.
Proof.
  intros Hpd HI HC Hl Hb. pose proof (sync_loop_ok fuel rounds pd_size Hpd ts l s O I F M P N3 N4 C HI HC Hl Hb) as Hw.
  destruct (pstate_sync_loop fuel rounds pd_size (mret tt) ts l s) as [r s']. destruct Hw as [Hk Hr]. split_and!; [done| |done].
  eapply holds_ext; [|exact HC]. intros e z He. apply Hk. rewrite elem_of_app. by left.
Qed.

(** A swap-in that succeeds returns the bytes of the extent that the object map
    names, and it succeeds when nothing is in short supply. *)
Lemma swapin_raw (calm : Prop) cap pd_size put_page id O I F M P N3 N4 (s : pst T) :
  0 <= pd_size < 2 ^ 63 -> pinv calm cap pd_size s O I F M P N3 N4 -> Forall (fun p => length p = Z.to_nat PGSIZE) (ps_mem s) ->
  match pstate_swapin_id pd_size put_page true id s with
  | (Ok sn, s') => exists off N, ((id, (off, KOBJ_DISK_SIZE + Z.of_nat N * PGSIZE)) ∈ O) /\
      sn_buf sn = bytes_at (ps_disk s) off (Z.to_nat KOBJ_DISK_SIZE) /\ sn_pages sn = pages_at (ps_disk s) (off + KOBJ_DISK_SIZE) N /\
      same s s' /\ ps_disk s' = ps_disk s
  | (Err _, s') => ((id ∉ O.*1) /\ s' = s) \/ (exists off N, ((id, (off, KOBJ_DISK_SIZE + Z.of_nat N * PGSIZE)) ∈ O) /\ ~ supplied put_page N (S N) s)
  | (Panic, _) => exists off N, ((id, (off, KOBJ_DISK_SIZE + Z.of_nat N * PGSIZE)) ∈ O) /\
      (supplied put_page N (S N) s -> hdr_get off_ko_id 8 (bytes_at (ps_disk s) off (Z.to_nat KOBJ_DISK_SIZE)) <> id)
  end.
Proof.
  intros Hpd HI Hmem. pose proof (pi_objmap _ _ _ _ _ _ _ _ _ _ _ HI) as H3. unfold pstate_swapin_id. cbn [negb]. unfold mbind at 1, PM_bind at 1.
  destruct (objmap_search id s _ _ _ H3 eq_refl) as [([off n] & Hin & Er)|[Hno Er]]; unfold pbtree_search in *; rewrite Er; [|by left].
  destruct (extent_fits calm cap pd_size _ _ _ _ _ _ _ _ (off, n) HI) as (Ho1 & _ & Ho2).
  { unfold held. rewrite !elem_of_app. right. left. by apply (list_elem_of_fmap_2 snd _ (id, (off, n))). }
  pose proof (pi_sizes _ _ _ _ _ _ _ _ _ _ _ HI) as HZ. rewrite list.Forall_forall in HZ. destruct (HZ _ Hin) as [N EN]. simpl in Ho1, Ho2, EN. subst n.
  unfold mbind, PM_bind, plift. cbn [objkv snd fst]. set (n := KOBJ_DISK_SIZE + Z.of_nat N * PGSIZE) in *.
  pose proof (swapin_mobj_ok pd_size Hpd put_page off N id s ltac:(lia) ltac:(unfold n in *; lia) Hmem) as Hw. fold n in Hw.
  change (res_nth [off; n] 0) with (Ok off : res Z). change (res_nth [off; n] 1) with (Ok n : res Z). cbv beta iota.
  destruct (pstate_swapin_mobj pd_size put_page off n id s) as [[sn|err|] s'].
  - destruct Hw as (E1 & E2 & _ & Hd & Hs). by exists off, N.
  - destruct Hw as [Hw _]. right. by exists off, N.
  - by exists off, N.
Qed.

(** The object [sn] that was read is [snap]: its header, with some time stamp, and
    all its bytes. *)
Definition fetched (sn snap : snapshot) : Prop :=
  (exists ts, sn_buf sn = sync_header ts (sn_buf snap)) /\ length (sn_pages sn) = length (sn_pages snap) /\
  forall i p q, sn_pages snap !! i = Some p -> sn_pages sn !! i = Some q -> take (page_part snap i) q = take (page_part snap i) p.

Lemma pages_at_content d e snap i p q :
  content_at d e snap -> sn_pages snap !! i = Some p -> pages_at d (e.1 + KOBJ_DISK_SIZE) (length (sn_pages snap)) !! i = Some q ->
  take (page_part snap i) q = take (page_part snap i) p.
Proof.
  intros (_ & _ & Hp) Hi Hq. unfold pages_at in Hq. rewrite list_lookup_fmap, lookup_seq_lt in Hq by (by eapply lookup_lt_Some). injection Hq as <-.
  by apply Hp.
Qed.

Lemma length_pages_at d off N : length (pages_at d off N) = N.
Proof. unfold pages_at. by rewrite length_fmap, length_seq. Qed.

(** What a swap-in returns is an object that the disk holds. *)
Lemma fetched_content d off N snap sn :
  content_at d (off, KOBJ_DISK_SIZE + Z.of_nat N * PGSIZE) snap -> sn_buf sn = bytes_at d off (Z.to_nat KOBJ_DISK_SIZE) ->
  sn_pages sn = pages_at d (off + KOBJ_DISK_SIZE) N -> fetched sn snap.
Proof.
  intros Hc E2 E3. pose proof Hc as (E & (ts & Hh) & _). simpl in E, Hh. assert (N = length (sn_pages snap)) as -> by (unfold disk_bytes, PGSIZE in E; lia).
  split_and!; [exists ts; by rewrite E2|by rewrite E3, length_pages_at|]. intros i p q Hp Hq. rewrite E3 in Hq. exact (pages_at_content _ (off, _) _ _ _ _ Hc Hp Hq).
Qed.

Lemma elem_of_unique {A} (id : Z) (a b : A) l : NoDup l.*1 -> (id, a) ∈ l -> (id, b) ∈ l -> a = b.
Proof.
  intros Hnd Ha Hb. apply elem_of_Permutation in Ha as [l' Hl]. rewrite Hl in Hnd, Hb. simpl in Hnd. apply list.NoDup_cons in Hnd as [Hno _].
  apply elem_of_cons in Hb as [[= ->]|Hb]; [done|]. destruct Hno. by apply (list_elem_of_fmap_2 fst _ (id, b)).
Qed.

(** Swapping in an object that the disk holds. *)
Lemma swapin_content (calm : Prop) cap pd_size put_page id e snap O I F M P N3 N4 (s : pst T) :
  0 <= pd_size < 2 ^ 63 -> pinv calm cap pd_size s O I F M P N3 N4 -> NoDup O.*1 -> (id, e) ∈ O -> content_at (ps_disk s) e snap -> snap_ok snap -> snap_id snap = id ->
  Forall (fun p => length p = Z.to_nat PGSIZE) (ps_mem s) -> supplied put_page (length (sn_pages snap)) (S (length (sn_pages snap))) s ->
  exists sn s', pstate_swapin_id pd_size put_page true id s = (Ok sn, s') /\ fetched sn snap /\
    sn_buf sn = bytes_at (ps_disk s) e.1 (Z.to_nat KOBJ_DISK_SIZE).
Proof.
  intros Hpd HI Hnd Hin Hc Hso Hid Hmem Hsup. pose proof (swapin_raw calm cap pd_size put_page id O I F M P N3 N4 s Hpd HI Hmem) as Hw.
  pose proof Hc as (E & (ts & Hh) & _). assert (Hun : forall off N, (id, (off, KOBJ_DISK_SIZE + Z.of_nat N * PGSIZE)) ∈ O -> e = (off, KOBJ_DISK_SIZE + Z.of_nat N * PGSIZE) /\ N = length (sn_pages snap)).
  { intros off N Hin'. assert (e = (off, KOBJ_DISK_SIZE + Z.of_nat N * PGSIZE)) as -> by (by eapply elem_of_unique). split; [done|]. simpl in E. unfold disk_bytes, PGSIZE in E. lia. }
  destruct (pstate_swapin_id pd_size put_page true id s) as [[sn|err|] s'].
  - destruct Hw as (off & N & Hin' & E1 & E2 & _). destruct (Hun off N Hin') as [-> _]. exists sn, s'. split_and!; [done|by eapply fetched_content|done].
  - exfalso. destruct Hw as [[Hno _]|(off & N & Hin' & Hns)]; [by apply Hno, (list_elem_of_fmap_2 fst _ (id, e))|]. destruct (Hun off N Hin') as [_ ->]. done.
  - exfalso. destruct Hw as (off & N & Hin' & Hns). destruct (Hun off N Hin') as [-> ->]. simpl in Hh. apply Hns; [done|]. rewrite Hh, <- Hid.
    apply sync_header_get; [apply (so_buf _ Hso)|by apply Nat.leb_le].
Qed.

(** The state with pages for the next allocations, and transfers that succeed. *)
Definition with_mem (mem : list (list Z)) (s : pst T) : pst T :=
  mkPst (ps_free s) (ps_objmap s) (ps_iobj s) (ps_disk s) [] mem (ps_bufs s).

(** C27: what was swapped out is what is swapped in.  From a consistent store with
    enough space, [pstate_sync_kobj] of a well-formed object succeeds or fails with
    [E_IO], and does not panic while the trees are small and there is memory for
    the deferred frees.  After it succeeded, [pstate_swapin_id] of that object, given
    pages and transfers that work, succeeds and returns the header that was written
    and as many pages, which agree with those of the object on all its bytes. *)
Theorem sync_swapin_roundtrip (calm : Prop) cap fuel pd_size put_page ts snap (s : pst T) O I F M P N3 N4 :
  0 <= pd_size < 2 ^ 63 -> pinv calm cap pd_size s O I F M P N3 N4 -> (calm -> (2 * (1 + size N3 + size N4) <= pages_left s)%nat) ->
  snap_ok snap -> big F (kobj_bytes fuel (disk_bytes snap) + 1) -> (forall i, (i < length (sn_pages snap))%nat -> put_page i = Ok tt) ->
  match pstate_sync_kobj fuel pd_size ts snap s with
  | (Ok _, s') => forall mem, Forall (fun p => length p = Z.to_nat PGSIZE) mem -> (length (sn_pages snap) < length mem)%nat ->
      exists sn s'', pstate_swapin_id pd_size put_page true (snap_id snap) (with_mem mem s') = (Ok sn, s'') /\
        sn_buf sn = sync_header ts (sn_buf snap) /\ length (sn_pages sn) = length (sn_pages snap) /\
        forall i p q, sn_pages snap !! i = Some p -> sn_pages sn !! i = Some q -> take (page_part snap i) q = take (page_part snap i) p
  | (Err e, _) => e = E_IO
  | (Panic, _) => ~ calm
  end.
Proof.
  intros Hpd HI Hp Hso Hb Hput. pose proof (sync_kobj_ok calm cap fuel pd_size Hpd ts snap s O I F M P N3 N4 1 HI Hp Hso Hb ltac:(lia)) as Hw.
  destruct (pstate_sync_kobj fuel pd_size ts snap s) as [[[]|e|] s']; [|by destruct Hw..].
  destruct Hw as (off & Hmv & Hst). destruct Hmv as (F1 & F' & M' & P' & N3' & N4' & _ & HI' & _). intros mem Hmem Hlen.
  assert (HI1 : pinv calm cap pd_size (with_mem mem s') _ _ F' M' P' N3' N4') by (eapply (pinv_same calm cap pd_size s'); [done|exact HI']).
  pose proof (stored_content _ _ _ _ _ Hso Hst) as Hc.
  destruct (swapin_content calm cap pd_size put_page (snap_id snap) (off, disk_bytes snap) snap _ _ _ _ _ _ _ (with_mem mem s') Hpd HI1) as
    (sn & s'' & E & (_ & El & Hpg) & Eb); [by eapply objmap_NoDup, pi_objmap|left|done..|split_and!; [done|simpl; lia|done]|].
  exists sn, s''. split_and!; [done| |done|done]. rewrite Eb. destruct Hst as (b & Eb' & Hd). pose proof Hso as [Hbuf Hpgs Hn0 Hsz Hmax].
  destruct (sync_bytes_ok snap Hso) as (b' & Eb'' & Hle & Hb1). rewrite Eb' in Eb''. injection Eb'' as <-.
  exact (header_written (ps_disk s) off _ _ b _ (length_sync_header ts _ Hbuf) eq_refl Hpgs ltac:(lia) Hb1 Hmax _ Hd).
Qed.
End claims.

(** ** A store *)

(** The object map of the kernel. *)
Definition objmap0 : ftree := mkFtree (mkBtree BTREE_MAX_ORDER1 1 2 63 125 0 0 0 0) ∅.

(** The new disk of before, with old bytes everywhere. *)
Definition store0 : pst ftree := mkPst disk1 objmap0 foffset0 (fun _ => 222) [] [] [].

Definition ex_page (b : Z) : list Z := replicate (Z.to_nat PGSIZE) b.

(** An object of 5000 bytes; the rest of its last page is clear. *)
Definition ex_snap : snapshot :=
  mkSnap (hdr_put off_ko_nbytes 8 5000 (hdr_put off_ko_id 8 77 (replicate 512 1))) [ex_page 5; replicate 904 6 ++ replicate 3192 0] true.

Lemma ex_snap_ok : snap_ok ex_snap.
Proof. split; [vm_compute; reflexivity|repeat constructor; vm_compute; reflexivity|by vm_compute|split; by vm_compute|by vm_compute]. Qed.

Lemma objmap0_ok : ft_rep 1 2 objmap0 [] ∅.
Proof. by apply (ft_empty BTREE_MAX_ORDER1); [|apply Nat.leb_le..]. Qed.

Lemma rest_weaken {T} `{Index T} (calm : Prop) cap (s : fstate T) F M P b : rest calm cap s F M P b -> rest False 0 s F M P b.
Proof. intros ([HT Hnd Hz Hf Hs HC Hl Hp Hc] & HS & Hco). split; [|done]. split; try done. split; lia. Qed.

Lemma store0_ok : exists M, pinv True 168 (2 ^ 30) store0 [] [] [(450560, 8151040)] M [] ∅ ∅ /\ store_ok (2 ^ 30) store0 [] [] [(450560, 8151040)] M [] ∅ ∅.
Proof.
  assert (Hw : wp True (freelist_init 409600 8192000) (fun _ s' => exists M, rest True 168 s' [(450560, 8151040)] M [] false /\
    forall z, occ z ([(450560, 8151040)] ++ blocks M) = Nat.b2n (covers z (409600, 8192000))) (fun _ _ => False) boot).
  { eapply wp_mono; [apply (freelist_init_ok True 168 409600 8192000 boot); try done|done].
    - apply fchunk0_ok.
    - apply foffset0_ok.
    - by apply Nat.leb_le.
    - lia.
    - apply boot_pages. }
  unfold wp in Hw. assert (E : freelist_init 409600 8192000 boot = (Ok tt, disk1)) by (vm_compute; reflexivity). rewrite E in Hw.
  destruct Hw as (M & HR & Ho). exists M.
  assert (Hh : forall z, occ z (owned [(450560, 8151040)] M [] ++ held [] ∅ ∅) = Nat.b2n (covers z (409600, 8192000))).
  { intros z. rewrite <- Ho. unfold owned, held. rewrite !elements_empty. simpl. by rewrite !app_nil_r. }
  assert (HS : space (owned [(450560, 8151040)] M [] ++ held [] ∅ ∅)).
  { destruct HR as (_ & HS & _). unfold owned, held. rewrite !elements_empty. simpl in *. by rewrite !app_nil_r in *. }
  assert (HD : forall z, 2 ^ 30 <= z -> occ z (owned [(450560, 8151040)] M [] ++ held [] ∅ ∅) = 0%nat).
  { intros z Hz. rewrite Hh, covers_spec, decide_False; [done|]. simpl. lia. }
  split; (split; [|apply objmap0_ok|apply foffset0_ok|done|done|done|constructor]); [done|by eapply rest_weaken].
Qed.

Lemma pstate_sync_refines_witness :
  let '(r, s') := pstate_sync_loop 1 2 (2 ^ 30) (mret tt) 9 [ex_snap] store0 in
  r <> Err E_NO_SPACE /\ holds (ps_disk s') [] ∅.
Proof.
  destruct store0_ok as (M & _ & HI).
  pose proof (pstate_sync_refines 1 2 (2 ^ 30) 9 [ex_snap] store0 [] [] _ M [] ∅ ∅ ∅ ltac:(lia) HI) as Hw.
  destruct (pstate_sync_loop 1 2 (2 ^ 30) (mret tt) 9 [ex_snap] store0) as [r s']. destruct Hw as (Hk & Hh & Hr).
  - apply holds_nil.
  - constructor; [apply ex_snap_ok|constructor].
  - exists (450560, 8151040). split; [left|by vm_compute].
  - split; [|done]. intros ->. done.
Defined.

Lemma sync_swapin_roundtrip_witness :
  exists s', pstate_sync_kobj 1 (2 ^ 30) 9 ex_snap store0 = (Ok tt, s') /\
    exists sn s'', pstate_swapin_id (2 ^ 30) (fun _ => Ok tt) true 77 (with_mem (replicate 3 (ex_page 0)) s') = (Ok sn, s'') /\
      length (sn_pages sn) = 2%nat.
Proof.
  destruct store0_ok as (M & HI & _).
  pose proof (sync_swapin_roundtrip True 168 1 (2 ^ 30) (fun _ => Ok tt) 9 ex_snap store0 [] [] _ M [] ∅ ∅ ltac:(lia) HI) as Hw.
  assert (Hp : (2 <=? pages_left store0)%nat = true) by (vm_compute; reflexivity). apply Nat.leb_le in Hp.
  destruct (pstate_sync_kobj 1 (2 ^ 30) 9 ex_snap store0) as [r s'] eqn:E. assert (Er : r = Ok tt).
  { assert (Er : (pstate_sync_kobj 1 (2 ^ 30) 9 ex_snap store0).1 = Ok tt) by (vm_compute; reflexivity). by rewrite E in Er. }
  subst r. exists s'. split; [done|]. destruct (Hw ltac:(intros _; rewrite !size_empty; lia) ex_snap_ok) with (mem := replicate 3 (ex_page 0)) as (sn & s'' & E2 & _ & El & _).
  - exists (450560, 8151040). split; [left|by vm_compute].
  - done.
  - repeat constructor; vm_compute; reflexivity.
  - simpl. lia.
  - exists sn, s''. assert (Ei : snap_id ex_snap = 77) by (vm_compute; reflexivity). rewrite Ei in E2. split; [exact E2|exact El].
Defined.
