(* ===== verification/PstateSync.v ===== *)
(** * Global syncs: [pstate_sync_stackwrap] of kern/kern/pstate.c

    Objects live in memory, are written to disk by a sync and are dropped from
    memory when they are clean.  A sync takes a snapshot of every dirty object,
    writes the snapshots, commits, and on an error goes back to the state of the
    last commit.  It waits for the disk, so that threads run and modify objects in
    between: its parts are the operations below, and the step relation of
    [PstateSpec] interleaves them with what the rest of the kernel does.

    Checksums of objects, which the source disables, the statistics, and pages that
    are pinned for devices, which a snapshot shares with the object, are left out. *)

From S2P Require Import Prelude KState KObj KAs Dstack Log Blowfish BTree Index Freelist Pstate PstateProofs.
From stdpp Require Import options.

Set Default Goal Selector "!".

(** ** Objects in memory *)

(** The flags and the time stamp of the header are kept beside it.  [ke_maps]: the
    mappings of a segment, and whether they are writable; [ke_pg_dirty]: some page
    has its dirty bit set. *)
Record kent := mkKent {
  ke_flags : Z;
  ke_cur : snapshot;
  ke_snap : snapshot;
  ke_pin : Z;
  ke_sync_ts : Z;
  ke_maps : list bool;
  ke_pg_dirty : bool
}.

Definition ke_id (e : kent) : Z := snap_id (ke_cur e).
Definition snap_type (snap : snapshot) : Z := hdr_get off_ko_type 4 (sn_buf snap).
Definition has (e : kent) (f : Z) : bool := flag_in (ke_flags e) f.

Definition set_flags (fl : Z) (e : kent) : kent :=
  mkKent fl (ke_cur e) (ke_snap e) (ke_pin e) (ke_sync_ts e) (ke_maps e) (ke_pg_dirty e).
Definition raise (f : Z) (e : kent) : kent := set_flags (Z.lor (ke_flags e) f) e.
Definition lower (f : Z) (e : kent) : kent := set_flags (Z.ldiff (ke_flags e) f) e.

(** [kobject_dirty], and then a write to the object. *)
Definition dirty_write (cur : snapshot) (e : kent) : kent :=
  mkKent (Z.lor (ke_flags e) KOBJ_DIRTY) cur (ke_snap e) (ke_pin e) (ke_sync_ts e) (ke_maps e) (ke_pg_dirty e).

(** [kobject_dirty_eval]. *)
Definition dirty_eval (e : kent) : res kent :=
  if negb (has e KOBJ_DIRTY_LATER) then Ok e
  else if negb (snap_type (ke_cur e) =? kobject_type_num kobj_segment) then Panic
  else
    let e := lower KOBJ_DIRTY_LATER e in
    Ok (if ke_pg_dirty e then raise KOBJ_DIRTY e else e).

(** A write fault on a mapping of a segment ([as_pmap_fill_segment]), a write
    through a mapping, the end of a mapping ([as_invalidate_sm]). *)
Definition fill_segment (rw : bool) (e : kent) : kent :=
  let fl := if rw then Z.lor (ke_flags e) KOBJ_DIRTY_LATER else ke_flags e in
  mkKent (Z.lor fl KOBJ_DIRTY) (ke_cur e) (ke_snap e) (ke_pin e + 1) (ke_sync_ts e) (rw :: ke_maps e) (ke_pg_dirty e).
Definition write_mapped (cur : snapshot) (e : kent) : kent :=
  mkKent (ke_flags e) cur (ke_snap e) (ke_pin e) (ke_sync_ts e) (ke_maps e) true.
Definition invalidate_sm (i : nat) (e : kent) : kent :=
  mkKent (ke_flags e) (ke_cur e) (ke_snap e) (ke_pin e - 1) (ke_sync_ts e) (delete i (ke_maps e)) (ke_pg_dirty e).

(** [kobject_snapshot]: mappings become read-only, and the header and the pages are
    copied. *)
Definition snap_take (e : kent) : res kent :=
  if has e KOBJ_SNAPSHOTING then Panic
  else
    let fl := Z.ldiff (ke_flags e) (Z.lor KOBJ_DIRTY KOBJ_SNAP_SHARE_PIN) in
    let cur := ke_cur e in
    let snap := mkSnap (hdr_put off_ko_flags 4 fl (sn_buf cur)) (sn_pages cur) (sn_initial cur) in
    Ok (mkKent (Z.lor fl KOBJ_SNAPSHOTING) cur snap (ke_pin e + 1) (ke_sync_ts e) ((fun _ => false) <$> ke_maps e) (ke_pg_dirty e)).

Definition snap_release (e : kent) : res kent :=
  if has e KOBJ_SNAPSHOTING then
    Ok (mkKent (Z.ldiff (ke_flags e) KOBJ_SNAPSHOTING) (ke_cur e) (ke_snap e) (ke_pin e - 1) (ke_sync_ts e) (ke_maps e) (ke_pg_dirty e))
  else Panic.

(** The test of [kobject_reclaim], and of [kobject_gc_scan] for dead objects. *)
Definition reclaimable (e : kent) : bool :=
  (ke_pin e =? 0) && negb (sn_initial (ke_cur e)) && negb (has e (Z.lor KOBJ_DIRTY KOBJ_SNAPSHOT_DIRTY)).
Definition buried (e : kent) : bool :=
  (ke_pin e =? 0) && (snap_type (ke_cur e) =? kobject_type_num kobj_dead) && negb (has e KOBJ_ON_DISK).

(** [kobject_swapin] of what was read from disk; [initial] is [kobject_initial]. *)
Definition swapped_in (initial : bool) (sn : snapshot) : kent :=
  let fl := Z.ldiff (hdr_get off_ko_flags 4 (sn_buf sn)) (Z.lor (Z.lor (Z.lor KOBJ_SNAPSHOTING KOBJ_DIRTY) KOBJ_SHARED_MAPPINGS) KOBJ_SNAPSHOT_DIRTY) in
  let cur := mkSnap (sn_buf sn) (sn_pages sn) initial in
  mkKent fl cur cur 0 (hdr_get off_ko_sync_ts 8 (sn_buf sn)) [] false.

(** The first loop of [pstate_sync_stackwrap], for one object. *)
Definition sync_mark (e : kent) : res kent :=
  (do e <- (if has e KOBJ_DIRTY_LATER then dirty_eval e else Ok e);
   if has e KOBJ_DIRTY then
     do e <- snap_take e;
     Ok (raise KOBJ_SNAPSHOT_DIRTY e)
   else Ok e)%res.

(** The last loop, for one object, when the sync ended with [r]. *)
Definition sync_unmark (r : res unit) (ts : Z) (e : kent) : res kent :=
  let e :=
    if has e KOBJ_SNAPSHOT_DIRTY then
      let e := lower KOBJ_SNAPSHOT_DIRTY e in
      if is_ok r then mkKent (ke_flags e) (ke_cur e) (ke_snap e) (ke_pin e) ts (ke_maps e) (ke_pg_dirty e)
      else raise KOBJ_DIRTY e
    else e in
  if has e KOBJ_SNAPSHOTING then
    (do e <- snap_release e;
     Ok (if is_ok r && (snap_type (ke_snap e) =? kobject_type_num kobj_dead) then lower KOBJ_ON_DISK e else e))%res
  else Ok e.

Fixpoint res_map {A B} (f : A -> res B) (l : list A) : res (list B) :=
  match l with
  | [] => Ok []
  | a :: l => (do b <- f a; do l <- res_map f l; Ok (b :: l))%res
  end.

(** The object with an identifier, and its update. *)
Definition find_obj (id : Z) (l : list kent) : option kent := List.find (fun e => ke_id e =? id) l.
Definition set_obj_ent (id : Z) (e' : kent) (l : list kent) : list kent := (fun e => if ke_id e =? id then e' else e) <$> l.

(** ** The sync *)

Definition HEADER_PAGES : Z := 1.

Inductive phase :=
| idle
| syncing (ts : Z) (todo : list Z)
| ending (ts : Z) (r : res unit).

Section sync.
Context {T : Type} `{IndexOps T}.
Context (fuel rounds : nat) (pd_size : Z) (ctx : bf_ctx).

(** The trees that [btree_manager_init] makes. *)
Context (chunk0 offset0 objmap0 iobj0 : T).

(** What a commit makes stable: the node manager and the trees. *)
Record image := mkImage { im_frm : frm; im_chunk : T; im_offset : T; im_objmap : T; im_iobj : T }.

(** The structures that a header of zeros describes. *)
Context (zero_image : image).

(** [freelist_serialize] and [btree_manager_serialize]; the way back, with the nodes
    that the log has. *)
Definition serialize (s : pst T) : image :=
  mkImage (fs_frm (ps_free s)) (fs_chunk (ps_free s)) (fs_offset (ps_free s)) (ps_objmap s) (ps_iobj s).
Definition deserialize (im : image) (s : pst T) : pst T :=
  mkPst (mkFstate (im_frm im) (im_chunk im) (im_offset im) dstack_init (fs_pages (ps_free s))) (im_objmap im) (im_iobj im)
    (ps_disk s) (ps_io s) (ps_mem s) (ps_bufs s).

Record sstate := mkSs {
  ss_store : pst T;
  ss_stable : option (Z * image);
  ss_objs : list kent;
  ss_counter : Z;
  ss_lock : bool;
  ss_waiting : list Z;
  ss_phase : phase
}.

Definition set_store (st : pst T) (s : sstate) : sstate :=
  mkSs st (ss_stable s) (ss_objs s) (ss_counter s) (ss_lock s) (ss_waiting s) (ss_phase s).
Definition set_objs (l : list kent) (s : sstate) : sstate :=
  mkSs (ss_store s) (ss_stable s) l (ss_counter s) (ss_lock s) (ss_waiting s) (ss_phase s).
Definition set_phase (p : phase) (s : sstate) : sstate :=
  mkSs (ss_store s) (ss_stable s) (ss_objs s) (ss_counter s) (ss_lock s) (ss_waiting s) p.

Definition part_pages : Z := pd_size / PGSIZE.
Definition reserved_pages : Z := HEADER_PAGES + Z.min (pd_size / 65536) MAX_LOG_PAGES.

(** A new free list and new trees. *)
Definition store_init (s : pst T) : res (pst T) :=
  let f := ps_free s in
  match freelist_init (u64 (reserved_pages * PGSIZE)) (u64 ((part_pages - reserved_pages) * PGSIZE))
          (mkFstate (fs_frm f) chunk0 offset0 (free_later f) (fs_pages f)) with
  | (Ok _, f) => Ok (mkPst f objmap0 iobj0 (ps_disk s) (ps_io s) (ps_mem s) (ps_bufs s))
  | _ => Panic
  end.

(** The start of [pstate_sync_stackwrap], up to the snapshots; the lock is held. *)
Definition sync_begin (s : sstate) : res sstate :=
  if match ss_stable s with Some _ => false | None => part_pages <=? reserved_pages end then Ok s
  else
    (do st <- (match ss_stable s with Some _ => Ok (ss_store s) | None => store_init (ss_store s) end);
     let '(ts, counter) := pstate_ts_alloc ctx (ss_counter s) in
     do objs <- res_map sync_mark (ss_objs s);
     Ok (mkSs st (ss_stable s) objs counter (ss_lock s) (ss_waiting s) (syncing ts (ke_id <$> objs))))%res.

(** One round of the loop of [pstate_sync_loop]. *)
Definition sync_object (ts id : Z) (todo : list Z) (s : sstate) : res sstate :=
  let next := set_phase (syncing ts todo) in
  match find_obj id (ss_objs s) with
  | None => Ok (next s)
  | Some e =>
      if negb (has e KOBJ_SNAPSHOTING) then Ok (next s)
      else
        match sync_one fuel pd_size ts (ke_snap e) (ss_store s) with
        | (Ok _, st) =>
            if gone (ke_snap e) then Ok (next (set_store st s))
            else
              (do e <- snap_release (raise KOBJ_ON_DISK e);
               Ok (next (set_store st (set_objs (set_obj_ent id e (ss_objs s)) s))))%res
        | (Err r, st) => Ok (set_phase (ending ts (Err r)) (set_store st s))
        | (Panic, _) => Panic
        end
  end.

(** The rest of [pstate_sync_loop]; [log] is the outcome of the commit of the log. *)
Definition sync_commit (ts : Z) (log : res unit) (s : sstate) : res sstate :=
  match on_free (freelist_commit fuel rounds) (ss_store s) with
  | (Ok _, st) =>
      match log with
      | Ok _ => Ok (mkSs st (Some (ts, serialize st)) (ss_objs s) (ss_counter s) (ss_lock s) (ss_waiting s) (ending ts (Ok tt)))
      | Err e => Ok (set_phase (ending ts (Err e)) (set_store st s))
      | Panic => Panic
      end
  | (Err e, st) => Ok (set_phase (ending ts (Err e)) (set_store st s))
  | (Panic, _) => Panic
  end.

(** The end of [pstate_sync_stackwrap]; [applied]: [pstate_apply_disk_log] worked. *)
Definition sync_end (ts : Z) (r : res unit) (applied : bool) (s : sstate) : res sstate :=
  if negb (is_ok r) && negb applied then Panic
  else
    let st :=
      if is_ok r then ss_store s
      else deserialize (match ss_stable s with Some (_, im) => im | None => zero_image end) (ss_store s) in
    (do objs <- res_map (sync_unmark r ts) (ss_objs s);
     Ok (mkSs st (ss_stable s) objs (ss_counter s) false [] idle))%res.

(** A restart: [pstate_load2]; the swap-ins of its loop are steps of their own. *)
Definition restart (s : sstate) : sstate :=
  match ss_stable s with
  | Some (ts, im) => mkSs (deserialize im (ss_store s)) (ss_stable s) [] (pstate_ts_decrypt ctx ts) false [] idle
  | None => mkSs (deserialize zero_image (ss_store s)) None [] 0 false [] idle
  end.

(** A sync that nothing comes in between of. *)
Fixpoint sync_objects (ts : Z) (todo : list Z) (s : sstate) : res sstate :=
  match todo with
  | [] => Ok s
  | id :: todo =>
      (do s <- sync_object ts id todo s;
       match ss_phase s with
       | syncing ts todo' => sync_objects ts todo s
       | _ => Ok s
       end)%res
  end.

Definition pstate_sync_stackwrap (log : res unit) (applied : bool) (s : sstate) : res sstate :=
  (do s <- sync_begin s;
   match ss_phase s with
   | syncing ts todo =>
       do s <- sync_objects ts todo s;
       do s <- (match ss_phase s with syncing ts _ => sync_commit ts log s | _ => Ok s end);
       match ss_phase s with
       | ending ts r => sync_end ts r applied s
       | _ => Ok s
       end
   | _ => Ok s
   end)%res.

(** [pstate_sync_user], for the thread [th]; [scheduled] tells whether it asked for a
    sync. *)
Definition pstate_sync_user (th timestamp : Z) (s : sstate) : res unit * bool * sstate :=
  let durable :=
    match ss_stable s with
    | Some (ts, _) => pstate_ts_decrypt ctx timestamp <? pstate_ts_decrypt ctx ts
    | None => false
    end in
  if durable then (Ok tt, false, s)
  else (Err E_RESTART, true, mkSs (ss_store s) (ss_stable s) (ss_objs s) (ss_counter s) (ss_lock s) (th :: ss_waiting s) (ss_phase s)).

End sync.

Arguments image : clear implicits.
Arguments sstate : clear implicits.
