(* ===== verification/PstateSpec.v ===== *)
(** * Objects, whatever is in memory or on disk

    The store behaves like a map of objects with checkpoints: objects are read as
    they were last written, whether they stayed in memory or were dropped and read
    back; a sync that commits makes a checkpoint of the moment when it began; a
    restart goes back to the last checkpoint.  This file has that specification,
    the steps of the system and the invariant. *)

From stdpp Require Import sorting list_numbers.
From S2P Require Import Prelude KState KObj KAs Dstack Log Blowfish BTree Index Freelist FreelistSpace FreelistInv FreelistProofs Pstate PstateIO PstateInv PstateProofs PstateMap PstateSync.
From stdpp Require Import options.

Set Default Goal Selector "!".

(** ** Equal objects *)

(** Headers that differ at most in the flags, the time stamp of the last sync. *)
Definition hdr_eq (a b : list Z) : Prop :=
  length a = length b /\ forall i, (i < 176 \/ 180 <= i < 184 \/ 192 <= i)%nat -> a !! i = b !! i.

Definition obj_eq (a b : snapshot) : Prop :=
  hdr_eq (sn_buf a) (sn_buf b) /\ length (sn_pages a) = length (sn_pages b) /\
  forall i p q, sn_pages a !! i = Some p -> sn_pages b !! i = Some q -> take (page_part a i) p = take (page_part a i) q.

#[export] Instance hdr_eq_equiv : Equivalence hdr_eq.
Proof.
  split; [done|..].
  - intros a b [Hl He]. split; [done|]. intros i Hi. by rewrite He.
  - intros a b c [Hl He] [Hl' He']. split; [congruence|]. intros i Hi. by rewrite He, He'.
Qed.

(** A field that the headers agree on. *)
Lemma hdr_eq_get a b o n : hdr_eq a b -> (o + n <= 176)%nat \/ (180 <= o /\ o + n <= 184)%nat -> hdr_get o n a = hdr_get o n b.
Proof.
  intros [_ He] Ho. unfold hdr_get. f_equal. apply list_eq. intros i. destruct (decide (i < n)%nat) as [Hi|Hi].
  - rewrite !lookup_take_lt, !lookup_drop by lia. apply He. lia.
  - by rewrite !lookup_take_ge by lia.
Qed.

Lemma hdr_eq_fields a b : hdr_eq (sn_buf a) (sn_buf b) -> snap_id a = snap_id b /\ snap_nbytes a = snap_nbytes b /\ snap_type a = snap_type b.
Proof.
  intros He. unfold snap_id, snap_nbytes, snap_type, off_ko_id, off_ko_nbytes, off_ko_type.
  split_and!; apply hdr_eq_get; first [done|left; lia|right; lia].
Qed.

Lemma page_part_eq a b i : obj_eq a b -> page_part a i = page_part b i.
Proof. intros [He _]. unfold page_part. by destruct (hdr_eq_fields _ _ He) as (_ & -> & _). Qed.

#[export] Instance obj_eq_equiv : Equivalence obj_eq.
Proof.
  split.
  - intros a. split_and!; [done..|]. intros i p q Hp Hq. congruence.
  - intros a b Hab. pose proof Hab as (He & Hl & Hp). split_and!; [by symmetry|done|]. intros i p q Hpi Hqi. rewrite <- (page_part_eq _ _ i Hab). by rewrite (Hp i q p).
  - intros a b c Hab Hbc. pose proof Hab as (He & Hl & Hp). pose proof Hbc as (He' & Hl' & Hp'). split_and!; [by etrans|congruence|].
    intros i p q Hpi Hqi. destruct (lookup_lt_is_Some_2 (sn_pages b) i) as [m Hm]; [rewrite <- Hl; by eapply lookup_lt_Some|].
    rewrite (Hp i p m) by done. rewrite (page_part_eq _ _ i Hab). by apply Hp'.
Qed.

Lemma hdr_put_eq off n v a : (off + n <= length a)%nat -> (176 <= off /\ off + n <= 180)%nat \/ (184 <= off /\ off + n <= 192)%nat -> hdr_eq (hdr_put off n v a) a.
Proof.
  intros Hl Ho. split; [by apply length_hdr_put|]. intros i Hi. unfold hdr_put.
  destruct (decide (i < off)%nat) as [Hlt|Hge].
  - rewrite lookup_app_l by (rewrite length_take; lia). by rewrite lookup_take_lt.
  - rewrite lookup_app_r by (rewrite length_take; lia). rewrite length_take, Nat.min_l by lia.
    rewrite lookup_app_r by (rewrite length_le_encode; lia). rewrite length_le_encode, lookup_drop. f_equal. lia.
Qed.

Lemma sync_header_eq ts a : length a = Z.to_nat KOBJ_DISK_SIZE -> hdr_eq (sync_header ts a) a.
Proof.
  change (Z.to_nat KOBJ_DISK_SIZE) with 512%nat. intros Hl. unfold sync_header.
  assert (E : hdr_eq (hdr_put off_ko_sync_ts 8 ts a) a) by (apply hdr_put_eq; unfold off_ko_sync_ts; lia).
  etrans; [|exact E]. apply hdr_put_eq; unfold off_ko_flags; [destruct E as [-> _]|]; lia.
Qed.

(** What is read from disk is what was written. *)
Lemma fetched_eq sn snap : length (sn_buf snap) = Z.to_nat KOBJ_DISK_SIZE -> fetched sn snap -> obj_eq sn snap.
Proof.
  intros Hl ((ts & Hb) & Hn & Hp). assert (He : hdr_eq (sn_buf sn) (sn_buf snap)) by (rewrite Hb; by apply sync_header_eq).
  split_and!; [done..|]. intros i p q Hpi Hqi. unfold page_part. destruct (hdr_eq_fields _ _ He) as (_ & -> & _). symmetry.
  symmetry. by apply Hp.
Qed.

Definition live (snap : snapshot) : Prop := snap_type snap <> kobject_type_num kobj_dead.

Lemma gone_dead snap : gone snap = true -> ~ live snap.
Proof. unfold gone. intros [H%Z.eqb_eq _]%andb_true_iff Hl. by apply Hl. Qed.

#[export] Instance live_proper : Proper (obj_eq ==> iff) live.
Proof. intros a b [He _]. unfold live. by destruct (hdr_eq_fields _ _ He) as (_ & _ & ->). Qed.

(** ** Flags *)

Lemma flag_or x y : negb (Z.lor x y =? 0) = negb (x =? 0) || negb (y =? 0).
Proof.
  destruct (Z.eqb_spec (Z.lor x y) 0) as [E|E]; rewrite Z.lor_eq_0_iff in E; destruct (Z.eqb_spec x 0), (Z.eqb_spec y 0); simpl; tauto || done.
Qed.

Lemma flag_lor a b f : flag_in (Z.lor a b) f = flag_in a f || flag_in b f.
Proof.
  unfold flag_in. rewrite Z.land_lor_distr_l. apply flag_or.
Qed.

(** Clearing other flags, and clearing the flag itself. *)
Lemma flag_ldiff_other a b f : Z.land b f = 0 -> flag_in (Z.ldiff a b) f = flag_in a f.
Proof.
  intros E. unfold flag_in. do 2 f_equal. apply Z.bits_inj'. intros i Hi. rewrite !Z.land_spec, Z.ldiff_spec.
  assert (Eb : Z.testbit (Z.land b f) i = false) by (rewrite E; apply Z.bits_0). rewrite Z.land_spec in Eb.
  destruct (Z.testbit a i), (Z.testbit b i), (Z.testbit f i); done.
Qed.

Lemma flag_ldiff_same a b f : Z.land b f = f -> flag_in (Z.ldiff a b) f = false.
Proof.
  intros E. unfold flag_in. apply negb_false_iff, Z.eqb_eq, Z.bits_inj'. intros i Hi. rewrite Z.land_spec, Z.ldiff_spec, Z.bits_0.
  assert (Eb : Z.testbit (Z.land b f) i = Z.testbit f i) by (by rewrite E). rewrite Z.land_spec in Eb.
  destruct (Z.testbit a i), (Z.testbit b i), (Z.testbit f i); done.
Qed.

(** A test of two flags at once. *)
Lemma flag_lor_r a f g : flag_in a (Z.lor f g) = flag_in a f || flag_in a g.
Proof.
  unfold flag_in. rewrite Z.land_lor_distr_r. apply flag_or.
Qed.

(** Decides a flag of an object whose flags were changed. *)
Ltac flags :=
  unfold has in *; cbn [ke_flags raise lower set_flags dirty_write fill_segment write_mapped invalidate_sm] in *;
  repeat first
    [ rewrite flag_lor
    | rewrite flag_ldiff_other by reflexivity
    | rewrite flag_ldiff_same by reflexivity
    | match goal with
      | |- context [flag_in KOBJ_DIRTY ?f] => change (flag_in KOBJ_DIRTY f) with (ltac:(let v := eval vm_compute in (flag_in KOBJ_DIRTY f) in exact v))
      | |- context [flag_in KOBJ_ON_DISK ?f] => change (flag_in KOBJ_ON_DISK f) with (ltac:(let v := eval vm_compute in (flag_in KOBJ_ON_DISK f) in exact v))
      | |- context [flag_in KOBJ_DIRTY_LATER ?f] => change (flag_in KOBJ_DIRTY_LATER f) with (ltac:(let v := eval vm_compute in (flag_in KOBJ_DIRTY_LATER f) in exact v))
      | |- context [flag_in KOBJ_SNAPSHOTING ?f] => change (flag_in KOBJ_SNAPSHOTING f) with (ltac:(let v := eval vm_compute in (flag_in KOBJ_SNAPSHOTING f) in exact v))
      | |- context [flag_in KOBJ_SNAPSHOT_DIRTY ?f] => change (flag_in KOBJ_SNAPSHOT_DIRTY f) with (ltac:(let v := eval vm_compute in (flag_in KOBJ_SNAPSHOT_DIRTY f) in exact v))
      end ];
  rewrite ?orb_true_r, ?orb_false_r.

(** ** The specification *)

(** The objects as they are now, as of the last checkpoint, and as of the beginning
    of the sync under way. *)
Record ckpt := mkCkpt { cV : gmap Z snapshot; cD : gmap Z snapshot; cW : gmap Z snapshot }.

Inductive event :=
| ev_write (id : Z) (x : snapshot)
| ev_read (id : Z) (x : snapshot)
| ev_absent (id : Z)
| ev_begin
| ev_commit
| ev_crash
| ev_tau.

(** What a step makes of the objects. *)
Definition ck_apply (ev : event) (a : ckpt) : ckpt :=
  match ev with
  | ev_write id x => mkCkpt (<[id := x]> (cV a)) (cD a) (cW a)
  | ev_begin => mkCkpt (cV a) (cD a) (cV a)
  | ev_commit => mkCkpt (cV a) (cW a) (cW a)
  | ev_crash => mkCkpt (cD a) (cD a) (cW a)
  | ev_read _ _ | ev_absent _ | ev_tau => a
  end.

Definition ck_run (tr : list event) (a : ckpt) : ckpt := foldl (flip ck_apply) a tr.

(** Reads return what the objects are, and report none missing that is alive. *)
Definition read_ok (ev : event) (a : ckpt) : Prop :=
  match ev with
  | ev_read id x => exists y, cV a !! id = Some y /\ obj_eq x y
  | ev_absent id => forall y, cV a !! id = Some y -> ~ live y
  | _ => True
  end.

(** ** The steps of the system *)

Section system.
Context {T : Type} `{Index T}.
Context (fuel rounds : nat) (pd_size : Z) (ctx : bf_ctx) (chunk0 offset0 objmap0 iobj0 : T) (zero_image : image T) (put_page : nat -> res unit).

Abbreviation sstate := (sstate T).

(** An object of the list changes. *)
Definition upd_obj (id : Z) (e : kent) (s : sstate) : sstate := set_objs (set_obj_ent id e (ss_objs s)) s.

(** What the next transfers and allocations of pages return. *)
Definition supply (io : list (option nat)) (mem : list (list Z)) (st : pst T) : pst T :=
  mkPst (ps_free st) (ps_objmap st) (ps_iobj st) (ps_disk st) io mem (ps_bufs st).

(** Identifiers are not used twice. *)
Definition unused (id : Z) (s : sstate) : Prop :=
  find_obj id (ss_objs s) = None /\ is_ok (ix_search [id] (ps_objmap (ss_store s))) = false /\
  forall ts im, ss_stable s = Some (ts, im) -> is_ok (ix_search [id] (im_objmap im)) = false.

Definition need (e : kent) : Z := kobj_bytes fuel (disk_bytes (ke_snap e)) + 1.

Inductive step : event -> sstate -> sstate -> Prop :=
| step_write s id e cur :
    find_obj id (ss_objs s) = Some e -> snap_ok cur -> snap_id cur = id ->
    step (ev_write id cur) s (upd_obj id (dirty_write cur e) s)
| step_new s e :
    unused (ke_id e) s -> snap_ok (ke_cur e) -> ke_flags e = KOBJ_DIRTY -> ke_maps e = [] -> 0 <= ke_pin e ->
    step (ev_write (ke_id e) (ke_cur e)) s (set_objs (e :: ss_objs s) s)
| step_fill s id e rw :
    find_obj id (ss_objs s) = Some e -> step ev_tau s (upd_obj id (fill_segment rw e) s)
| step_store s id e cur :
    find_obj id (ss_objs s) = Some e -> true ∈ ke_maps e -> snap_ok cur -> snap_id cur = id ->
    step (ev_write id cur) s (upd_obj id (write_mapped cur e) s)
| step_unmap s id e i b :
    find_obj id (ss_objs s) = Some e -> ke_maps e !! i = Some b -> step ev_tau s (upd_obj id (invalidate_sm i e) s)
| step_reclaim s :
    step ev_tau s (set_objs (filter (fun e => reclaimable e = false) (ss_objs s)) s)
| step_bury s :
    step ev_tau s (set_objs (filter (fun e => buried e = false) (ss_objs s)) s)
| step_supply s io mem :
    step ev_tau s (set_store (supply io mem (ss_store s)) s)
| step_stamp s :
    step ev_tau s (mkSs (ss_store s) (ss_stable s) (ss_objs s) (pstate_ts_alloc ctx (ss_counter s)).2 (ss_lock s) (ss_waiting s) (ss_phase s))
| step_sync_user s th ts r b s' :
    pstate_sync_user ctx th ts s = (r, b, s') -> step ev_tau s s'
| step_swapin s id sn st initial :
    ss_phase s = idle -> ss_lock s = false -> find_obj id (ss_objs s) = None -> Forall (fun p => length p = Z.to_nat PGSIZE) (ps_mem (ss_store s)) ->
    pstate_swapin_id pd_size put_page (match ss_stable s with Some _ => true | None => false end) id (ss_store s) = (Ok sn, st) ->
    step (ev_read id (ke_cur (swapped_in initial sn))) s (set_objs (swapped_in initial sn :: ss_objs s) (set_store st s))
| step_swapin_fails s id e st :
    ss_phase s = idle -> ss_lock s = false -> find_obj id (ss_objs s) = None -> Forall (fun p => length p = Z.to_nat PGSIZE) (ps_mem (ss_store s)) ->
    (forall i, put_page i <> Err E_NOT_FOUND) ->
    pstate_swapin_id pd_size put_page (match ss_stable s with Some _ => true | None => false end) id (ss_store s) = (Err e, st) ->
    step (if e =? E_NOT_FOUND then ev_absent id else ev_tau) s (set_store st s)
| step_begin s s' :
    ss_phase s = idle -> ss_lock s = false ->
    sync_begin pd_size ctx chunk0 offset0 objmap0 iobj0 (mkSs (ss_store s) (ss_stable s) (ss_objs s) (ss_counter s) true (ss_waiting s) idle) = Ok s' ->
    step (match ss_phase s' with syncing _ _ => ev_begin | _ => ev_tau end) s s'
| step_object s ts id todo s' :
    ss_phase s = syncing ts (id :: todo) -> (forall e, find_obj id (ss_objs s) = Some e -> roomy (need e) (ps_free (ss_store s)) = true) ->
    sync_object fuel pd_size ts id todo s = Ok s' -> step ev_tau s s'
| step_commit s ts log s' :
    ss_phase s = syncing ts [] -> roomy (service_bytes fuel * Z.of_nat rounds + 1) (ps_free (ss_store s)) = true ->
    sync_commit fuel rounds ts log s = Ok s' ->
    step (match ss_phase s' with ending _ (Ok _) => ev_commit | _ => ev_tau end) s s'
| step_end s ts r applied s' :
    ss_phase s = ending ts r -> sync_end zero_image ts r applied s = Ok s' -> step ev_tau s s'
| step_crash s :
    step ev_crash s (restart ctx zero_image s).

(** ** The invariant *)

(** The map [C] of the disk has the object [id] of [X], if that is alive, and nothing
    else under that name. *)
Definition agree (C X : gmap Z snapshot) (id : Z) : Prop :=
  (forall snap, C !! id = Some snap -> exists x, X !! id = Some x /\ obj_eq snap x) /\
  (forall x, X !! id = Some x -> live x -> is_Some (C !! id)).

(** Objects whose contents the disk need not have. *)
Definition dirty (e : kent) : bool := has e KOBJ_DIRTY || has e KOBJ_SNAPSHOT_DIRTY.
Definition busy (l : list kent) (id : Z) : Prop := exists e, (e ∈ l) /\ ke_id e = id /\ dirty e = true.

(** [C]: the objects of the last commit; [Cw]: those on disk now. *)
Record ent_ok (a : ckpt) (C Cw : gmap Z snapshot) (e : kent) : Prop := {
  eo_cur : snap_ok (ke_cur e);
  eo_V : exists x, cV a !! ke_id e = Some x /\ obj_eq (ke_cur e) x;
  eo_rw : true ∈ ke_maps e -> has e KOBJ_DIRTY = true;
  eo_pin : Z.of_nat (length (ke_maps e)) + (if has e KOBJ_SNAPSHOTING then 1 else 0) <= ke_pin e;
  eo_snap : has e KOBJ_SNAPSHOTING = true -> has e KOBJ_SNAPSHOT_DIRTY = true;
  eo_sd : has e KOBJ_SNAPSHOT_DIRTY = true ->
    snap_ok (ke_snap e) /\ snap_id (ke_snap e) = ke_id e /\ (has e KOBJ_DIRTY = false -> obj_eq (ke_snap e) (ke_cur e)) /\
    exists x, cW a !! ke_id e = Some x /\ obj_eq (ke_snap e) x;
  eo_disk : is_Some (C !! ke_id e) \/ is_Some (Cw !! ke_id e) -> has e KOBJ_ON_DISK = true;
}.

(** The structures of the last commit describe the extents [O0]. *)
Definition img_ok (im : image T) (O0 : list (Z * (Z * Z))) : Prop :=
  exists I F M N3 N4, forall st, pages_ok st -> store_ok pd_size (deserialize im st) O0 I F M [] N3 N4.

Definition stable_ok (s : sstate) (C : gmap Z snapshot) (O0 : list (Z * (Z * Z))) : Prop :=
  match ss_stable s with Some (_, im) => img_ok im O0 | None => O0 = [] end /\ holds (ps_disk (ss_store s)) O0 C.

(** The snapshot of the object is still to be written. *)
Definition pending (l : list kent) (todo : list Z) (id : Z) : Prop := (id ∈ todo) /\ exists e, (e ∈ l) /\ ke_id e = id /\ has e KOBJ_SNAPSHOTING = true.

Definition phase_ok (s : sstate) (a : ckpt) (C Cw : gmap Z snapshot) (O0 : list (Z * (Z * Z))) : Prop :=
  match ss_phase s with
  | idle => Cw = C /\ (forall e, e ∈ ss_objs s -> has e KOBJ_SNAPSHOT_DIRTY = false) /\
      match ss_stable s with
      | Some _ => exists I F M N3 N4, store_ok pd_size (ss_store s) O0 I F M [] N3 N4
      | None => free_later (ps_free (ss_store s)) = dstack_init /\ pages_ok (ss_store s)
      end
  | syncing ts todo => exists O I F M P N3 N4, store_ok pd_size (ss_store s) O I F M P N3 N4 /\ holds (ps_disk (ss_store s)) O Cw /\
      (forall e, e ∈ O0.*2 -> e ∈ O.*2 ++ P) /\ NoDup todo /\ (forall id, pending (ss_objs s) todo id \/ agree Cw (cW a) id) /\
      (forall e, e ∈ ss_objs s -> has e KOBJ_SNAPSHOTING = true -> ke_id e ∈ todo \/ Cw !! ke_id e = None)
  | ending ts r => Cw = C /\ pages_ok (ss_store s) /\
      (is_ok r = true -> (forall id, agree C (cW a) id) /\ (exists I F M N3 N4, store_ok pd_size (ss_store s) O0 I F M [] N3 N4) /\
        ss_stable s <> None /\ forall e, e ∈ ss_objs s -> has e KOBJ_SNAPSHOTING = true -> C !! ke_id e = None)
  end.

Definition inv (s : sstate) (a : ckpt) : Prop :=
  exists C Cw O0, NoDup (ke_id <$> ss_objs s) /\ (forall e, e ∈ ss_objs s -> ent_ok a C Cw e) /\
    (forall id, ~ busy (ss_objs s) id -> agree C (cV a) id /\ agree Cw (cV a) id) /\ (forall id, agree C (cD a) id) /\
    stable_ok s C O0 /\ phase_ok s a C Cw O0.

End system.
