(* ===== verification/PstateSim.v ===== *)
(** * The store implements checkpointed objects

    Every step of the system is a step of the specification of [PstateSpec]. *)

From stdpp Require Import sorting list_numbers.
From S2P Require Import Prelude KState KObj KAs Dstack Log Blowfish BTree Index Freelist FreelistSpace FreelistInv FreelistProofs Pstate PstateIO PstateInv PstateProofs PstateMap PstateSync PstateSpec.
From stdpp Require Import options.

Set Default Goal Selector "!".

(** ** The list of objects *)

Lemma find_obj_Some id l e : find_obj id l = Some e -> e ∈ l /\ ke_id e = id.
Proof. intros Hf. apply find_some in Hf as [Hin He]. split; [by apply list_elem_of_In|by apply Z.eqb_eq]. Qed.

Lemma find_obj_None id l : find_obj id l = None -> forall e, e ∈ l -> ke_id e <> id.
Proof. intros Hf e Hin E. apply list_elem_of_In in Hin. pose proof (find_none _ _ Hf e Hin) as Hn. simpl in Hn. by apply Z.eqb_neq in Hn. Qed.

Lemma find_obj_unique l e : NoDup (ke_id <$> l) -> e ∈ l -> find_obj (ke_id e) l = Some e.
Proof.
  intros Hnd Hin. destruct (find_obj (ke_id e) l) as [e'|] eqn:E.
  - apply find_obj_Some in E as [Hin' Hid]. f_equal. apply elem_of_Permutation in Hin as [l' Hl]. rewrite Hl in Hnd, Hin'. simpl in Hnd.
    apply list.NoDup_cons in Hnd as [Hno _]. apply elem_of_cons in Hin' as [->|Hin']; [done|]. destruct Hno. rewrite <- Hid. by apply list_elem_of_fmap_2.
  - by destruct (find_obj_None _ _ E e Hin).
Qed.

Lemma set_obj_ids id e' l : ke_id e' = id -> ke_id <$> set_obj_ent id e' l = ke_id <$> l.
Proof.
  intros Hid. unfold set_obj_ent. rewrite <- list_fmap_compose. apply list_fmap_ext. intros i e _. simpl. destruct (Z.eqb_spec (ke_id e) id); congruence.
Qed.

Lemma elem_of_set_obj id e' l x : ke_id e' = id -> id ∈ ke_id <$> l -> x ∈ set_obj_ent id e' l <-> x = e' \/ (x ∈ l /\ ke_id x <> id).
Proof.
  intros Hid (e0 & E0 & Hin0)%list_elem_of_fmap. unfold set_obj_ent. rewrite list_elem_of_fmap. split.
  - intros (e & -> & Hin). destruct (Z.eqb_spec (ke_id e) id); auto.
  - intros [->|[Hin Hne]].
    + exists e0. split; [|done]. by rewrite E0, Z.eqb_refl.
    + exists x. split; [|done]. by rewrite (proj2 (Z.eqb_neq _ _)).
Qed.

(** ** Equal objects *)

Lemma snap_ok_eq a b : hdr_eq (sn_buf a) (sn_buf b) -> sn_pages a = sn_pages b -> snap_ok b -> snap_ok a.
Proof.
  intros He Hp [H1 H2 H3 H4 H5]. destruct (hdr_eq_fields _ _ He) as (_ & Hn & _). split; rewrite ?Hp, ?Hn; try done. by rewrite (proj1 He).
Qed.

Lemma agree_eq C X Y id : X !! id = Y !! id -> agree C X id -> agree C Y id.
Proof. intros E [H1 H2]. split; rewrite <- E; done. Qed.

(** Objects that are equal. *)
Lemma agree_obj C X Y id x y : X !! id = Some x -> Y !! id = Some y -> obj_eq x y -> agree C X id -> agree C Y id.
Proof.
  intros Ex Ey Exy [H1 H2]. split.
  - intros snap Hs. destruct (H1 snap Hs) as (x' & Ex' & He). exists y. split; [done|]. rewrite Ex in Ex'. injection Ex' as <-. by etrans.
  - intros y' Ey' Hl. rewrite Ey in Ey'. injection Ey' as <-. apply (H2 x Ex). by rewrite Exy.
Qed.

(** ** What the rest of the kernel does to an object *)

(** The sync does not notice. *)
Definition ent_sim (e e' : kent) : Prop :=
  ke_id e' = ke_id e /\ has e' KOBJ_SNAPSHOT_DIRTY = has e KOBJ_SNAPSHOT_DIRTY /\ has e' KOBJ_SNAPSHOTING = has e KOBJ_SNAPSHOTING /\ ke_snap e' = ke_snap e.

Lemma pending_sim l l' todo id :
  (forall e, e ∈ l -> has e KOBJ_SNAPSHOTING = true -> exists e', e' ∈ l' /\ ent_sim e e') -> pending l todo id -> pending l' todo id.
Proof.
  intros Hl (Hin & e & He & Hid & Hs). split; [done|]. destruct (Hl e He Hs) as (e' & He' & Hi & _ & Hsn & _). exists e'. by rewrite Hi, Hsn.
Qed.

Lemma filter_NoDup_fmap {A B} (f : A -> B) (P : A -> Prop) `{!forall x, Decision (P x)} (l : list A) : NoDup (f <$> l) -> NoDup (f <$> filter P l).
Proof.
  induction l as [|x l IH]; [done|]. intros [Hno Hnd]%list.NoDup_cons. destruct (decide (P x)) as [HP|HP].
  - rewrite filter_cons_True by done. apply list.NoDup_cons. split; [|by apply IH]. intros (y & E & [_ Hy]%list_elem_of_filter)%list_elem_of_fmap.
    apply Hno. rewrite E. by apply list_elem_of_fmap_2.
  - rewrite filter_cons_False by done. by apply IH.
Qed.

Lemma ckpt_eta a : mkCkpt (cV a) (cD a) (cW a) = a.
Proof. by destruct a. Qed.

(** Writes to an object, with or without a mapping. *)
Lemma modify_sim cur e : snap_id cur = ke_id e -> ent_sim e (dirty_write cur e).
Proof. intros Hid. split_and!; [done|by flags..|done]. Qed.

Lemma modify_ok a C Cw cur e :
  snap_ok cur -> snap_id cur = ke_id e -> ent_ok a C Cw e -> ent_ok (mkCkpt (<[ke_id e := cur]> (cV a)) (cD a) (cW a)) C Cw (dirty_write cur e).
Proof.
  intros Hs Hid [E1 E2 E3 E4 E5 E6 E7]. assert (Hi : ke_id (dirty_write cur e) = ke_id e) by done.
  assert (Hd : has (dirty_write cur e) KOBJ_DIRTY = true) by (by flags).
  assert (H1 : has (dirty_write cur e) KOBJ_SNAPSHOTING = has e KOBJ_SNAPSHOTING) by (by flags).
  assert (H2 : has (dirty_write cur e) KOBJ_SNAPSHOT_DIRTY = has e KOBJ_SNAPSHOT_DIRTY) by (by flags).
  assert (H3 : has (dirty_write cur e) KOBJ_ON_DISK = has e KOBJ_ON_DISK) by (by flags).
  split; rewrite ?Hi, ?H1, ?H2, ?H3; try done.
  - exists cur. split; [apply lookup_insert_eq|done].
  - intros Hsd. destruct (E6 Hsd) as (A1 & A2 & A3 & A4). split_and!; [done..|by rewrite Hd|done].
Qed.

Lemma write_mapped_ok a C Cw cur e :
  true ∈ ke_maps e -> snap_ok cur -> snap_id cur = ke_id e -> ent_ok a C Cw e ->
  ent_ok (mkCkpt (<[ke_id e := cur]> (cV a)) (cD a) (cW a)) C Cw (write_mapped cur e).
Proof.
  intros Hm Hs Hid [E1 E2 E3 E4 E5 E6 E7]. assert (Hi : ke_id (write_mapped cur e) = ke_id e) by done. specialize (E3 Hm).
  split; rewrite ?Hi; try done.
  - exists cur. split; [apply lookup_insert_eq|done].
  - intros Hsd. destruct (E6 Hsd) as (A1 & A2 & A3 & A4). split_and!; [done..| |done]. intros Hdf. unfold has in *. simpl in Hdf. congruence.
Qed.

(** Mappings come and go. *)
Lemma fill_sim rw e : ent_sim e (fill_segment rw e).
Proof. split_and!; [done|by destruct rw; flags..|done]. Qed.

Lemma fill_ok a C Cw rw e : ent_ok a C Cw e -> ent_ok a C Cw (fill_segment rw e).
Proof.
  intros [E1 E2 E3 E4 E5 E6 E7]. assert (Hi : ke_id (fill_segment rw e) = ke_id e) by done.
  assert (Hd : has (fill_segment rw e) KOBJ_DIRTY = true) by (by destruct rw; flags).
  assert (H1 : has (fill_segment rw e) KOBJ_SNAPSHOTING = has e KOBJ_SNAPSHOTING) by (by destruct rw; flags).
  assert (H2 : has (fill_segment rw e) KOBJ_SNAPSHOT_DIRTY = has e KOBJ_SNAPSHOT_DIRTY) by (by destruct rw; flags).
  assert (H3 : has (fill_segment rw e) KOBJ_ON_DISK = has e KOBJ_ON_DISK) by (by destruct rw; flags).
  split; rewrite ?Hi, ?H1, ?H2, ?H3; try done.
  - simpl. lia.
  - intros Hsd. destruct (E6 Hsd) as (A1 & A2 & A3 & A4). split_and!; [done..|by rewrite Hd|done].
Qed.

Lemma invalidate_ok a C Cw i b e : ke_maps e !! i = Some b -> ent_ok a C Cw e -> ent_ok a C Cw (invalidate_sm i e).
Proof.
  intros Hi [E1 E2 E3 E4 E5 E6 E7]. split; try done.
  - intros Hin. apply E3. simpl in Hin. apply list_elem_of_lookup in Hin as [j Hj].
    destruct (decide (j < i)%nat); [rewrite list_lookup_delete_lt in Hj by done|rewrite list_lookup_delete_ge in Hj by lia]; by eapply list_elem_of_lookup_2.
  - change (has (invalidate_sm i e) KOBJ_SNAPSHOTING) with (has e KOBJ_SNAPSHOTING). simpl. pose proof (lookup_lt_Some _ _ _ Hi) as Hl.
    rewrite length_delete by (by eexists). lia.
Qed.

(** ** Objects leave memory *)

Lemma reclaim_ok a C Cw e :
  ~ (reclaimable e = false) -> ent_ok a C Cw e -> has e KOBJ_SNAPSHOTING = false /\ dirty e = false.
Proof.
  intros Hr%not_false_is_true [_ _ _ Hp _ _ _]. unfold reclaimable in Hr. rewrite !andb_true_iff, Z.eqb_eq, !negb_true_iff in Hr.
  destruct Hr as [[Hp0 _] Hf]. unfold has in Hf. rewrite flag_lor_r in Hf. split; [|done]. destruct (has e KOBJ_SNAPSHOTING); [lia|done].
Qed.

(** A dead object that the disk does not have. *)
Lemma agree_absent C V id x : C !! id = None -> V !! id = Some x -> ~ live x -> agree C V id.
Proof. intros Hn Hv Hl. split; [intros snap Hs; congruence|]. intros y Hy Hly. rewrite Hv in Hy. by injection Hy as <-. Qed.

Lemma bury_ok a C Cw e :
  ~ (buried e = false) -> ent_ok a C Cw e -> has e KOBJ_SNAPSHOTING = false /\ agree C (cV a) (ke_id e) /\ agree Cw (cV a) (ke_id e).
Proof.
  intros Hr%not_false_is_true [_ (x & Hx & Exy) _ Hp _ _ Hd]. unfold buried in Hr. rewrite !andb_true_iff, !Z.eqb_eq, negb_true_iff in Hr.
  destruct Hr as [[Hp0 Ht] Hf]. split; [destruct (has e KOBJ_SNAPSHOTING); [lia|done]|].
  assert (Hl : ~ live x) by (rewrite <- Exy; unfold live; tauto). rewrite Hf in Hd.
  split; eapply agree_absent; [|done..| |done|done]; apply eq_None_not_Some; intros Hs; specialize (Hd ltac:(tauto)); done.
Qed.

Section sim.
Context {T : Type} `{Index T}.
Context (fuel rounds : nat) (pd_size : Z) (ctx : bf_ctx) (chunk0 offset0 objmap0 iobj0 : T) (zero_image : image T) (put_page : nat -> res unit).

Abbreviation sstate := (PstateSync.sstate T).
Abbreviation inv := (PstateSpec.inv pd_size).

Lemma phase_objs (s s' : sstate) a a' C Cw O0 :
  phase_ok pd_size s a C Cw O0 -> ss_phase s' = ss_phase s -> ss_store s' = ss_store s -> ss_stable s' = ss_stable s -> cW a' = cW a ->
  (forall e', e' ∈ ss_objs s' -> (has e' KOBJ_SNAPSHOT_DIRTY = false /\ has e' KOBJ_SNAPSHOTING = false) \/ exists e, e ∈ ss_objs s /\ ent_sim e e') ->
  (forall e, e ∈ ss_objs s -> has e KOBJ_SNAPSHOTING = true -> exists e', e' ∈ ss_objs s' /\ ent_sim e e') ->
  phase_ok pd_size s' a' C Cw O0.
Proof using Type.
  unfold phase_ok. intros Hp -> -> -> -> Hin Hout. destruct (ss_phase s) as [|ts todo|ts r].
  - destruct Hp as (-> & Hsd & Hst). split_and!; [done| |done]. intros e' He'. destruct (Hin e' He') as [[Hs _]|(e & He & _ & -> & _)]; auto.
  - destruct Hp as (O & I & F & M & P & N3 & N4 & HI & HC & HO & Hnd & Hpe & Hsn). exists O, I, F, M, P, N3, N4. split_and!; try done.
    + intros id. destruct (Hpe id) as [Hp|Ha]; [left|by right]. by eapply pending_sim.
    + intros e' He' Hs. destruct (Hin e' He') as [[_ Hs']|(e & He & -> & _ & Hs' & _)]; [congruence|]. apply Hsn; congruence.
  - destruct Hp as (-> & Hpg & Hr). split_and!; [done..|]. intros Hk. destruct (Hr Hk) as (H1 & H2 & H3 & H4). split_and!; try done.
    intros e' He' Hs. destruct (Hin e' He') as [[_ Hs']|(e & He & -> & _ & Hs' & _)]; [congruence|]. apply H4; congruence.
Qed.

(** One object changes, and what it stands for as well. *)
Lemma inv_obj_upd (s : sstate) a id e e' V' :
  inv s a -> find_obj id (ss_objs s) = Some e -> ent_sim e e' -> (forall j, j <> id -> V' !! j = cV a !! j) ->
  (dirty e' = true \/ (dirty e' = dirty e /\ V' = cV a)) ->
  (forall C Cw, ent_ok a C Cw e -> ent_ok (mkCkpt V' (cD a) (cW a)) C Cw e') ->
  inv (upd_obj id e' s) (mkCkpt V' (cD a) (cW a)).
Proof using Type.
  intros (C & Cw & O0 & Hnd & He & Hb & HD & HS & HP) Hf Hsim HV Hdirty Hok. destruct (find_obj_Some _ _ _ Hf) as [Hin Hid].
  assert (Hid' : ke_id e' = id) by (by rewrite (proj1 Hsim)). assert (Hidl : id ∈ ke_id <$> ss_objs s) by (rewrite <- Hid; by apply list_elem_of_fmap_2).
  assert (Hel : forall x, x ∈ ss_objs (upd_obj id e' s) <-> x = e' \/ (x ∈ ss_objs s /\ ke_id x <> id)) by (intros x; by apply elem_of_set_obj).
  exists C, Cw, O0. split_and!; [by simpl; rewrite set_obj_ids| | |done|done|].
  - intros x [->|[Hx Hne]]%Hel; [by apply Hok, He|]. destruct (He x Hx) as [H1 H2 H3 H4 H5 H6 H7]. split; try done. simpl. by rewrite HV.
  - intros j Hj. assert (Hj' : j <> id -> ~ busy (ss_objs s) j).
    { intros Hne (x & Hx & Ex & Dx). apply Hj. exists x. split; [|done]. apply Hel. right. split; [done|congruence]. }
    destruct (decide (j = id)) as [->|Hne].
    + destruct Hdirty as [Hd|[Hd ->]]; [exfalso; apply Hj; exists e'; split; [apply Hel; by left|done]|].
      apply Hb. intros (x & Hx & Ex & Dx). apply Hj. exists e'. split_and!; [apply Hel; by left|done|].
      assert (x = e) as -> by (pose proof (find_obj_unique _ x Hnd Hx) as Hu; rewrite Ex, Hf in Hu; by injection Hu). by rewrite Hd.
    + destruct (Hb j (Hj' Hne)) as [A1 A2]. simpl. split; (eapply agree_eq; [|eassumption]); by rewrite HV.
  - eapply (phase_objs s); [exact HP|done..| |].
    + intros x [->|[Hx Hne]]%Hel; right; [by exists e|]. exists x. by split.
    + intros x Hx Hs. destruct (decide (ke_id x = id)) as [Ex|Hne].
      * exists e'. split; [apply Hel; by left|]. pose proof (find_obj_unique _ x Hnd Hx) as Hu. rewrite Ex, Hf in Hu. by injection Hu as ->.
      * exists x. split; [apply Hel; by right|done].
Qed.

(** Objects leave memory. *)
Lemma inv_filter (s : sstate) a (P : kent -> Prop) `{!forall e, Decision (P e)} :
  inv s a ->
  (forall C Cw e, ~ P e -> ent_ok a C Cw e -> has e KOBJ_SNAPSHOTING = false /\
     (dirty e = false \/ (agree C (cV a) (ke_id e) /\ agree Cw (cV a) (ke_id e)))) ->
  inv (set_objs (filter P (ss_objs s)) s) a.
Proof using Type.
  intros (C & Cw & O0 & Hnd & He & Hb & HD & HS & HP) Hout. exists C, Cw, O0. simpl.
  assert (Hel : forall x, x ∈ filter P (ss_objs s) <-> P x /\ x ∈ ss_objs s) by (intros x; apply list_elem_of_filter).
  split_and!; [by apply filter_NoDup_fmap| | |done|done|].
  - intros e [_ Hin]%Hel. by apply He.
  - intros j Hj. destruct (find_obj j (ss_objs s)) as [e|] eqn:Ef.
    + destruct (find_obj_Some _ _ _ Ef) as [Hin Hid]. assert (Hu : forall x, x ∈ ss_objs s -> ke_id x = j -> x = e).
      { intros x Hx Ex. pose proof (find_obj_unique _ x Hnd Hx) as Hu. rewrite Ex, Ef in Hu. by injection Hu. }
      destruct (decide (P e)) as [HPe|HPe].
      * apply Hb. intros (x & Hx & Ex & Dx). apply Hj. exists x. split; [|done]. apply Hel. split; [|done]. by rewrite (Hu x Hx Ex).
      * destruct (Hout C Cw e HPe (He e Hin)) as [_ [Hdt|Hag]]; [|by rewrite <- Hid]. apply Hb. intros (x & Hx & Ex & Dx). rewrite (Hu x Hx Ex) in Dx. congruence.
    + apply Hb. intros (x & Hx & Ex & _). by apply (find_obj_None _ _ Ef x Hx).
  - eapply (phase_objs s); [exact HP|done..| |]; simpl.
    + intros x [_ Hx]%Hel. right. by exists x.
    + intros x Hx Hs. exists x. split; [|done]. apply Hel. split; [|done]. destruct (decide (P x)) as [|HPx]; [done|].
      destruct (Hout C Cw x HPx (He x Hx)) as [Hs' _]. congruence.
Qed.

(** An object appears in memory, with nothing of it under way. *)
Lemma inv_cons (s : sstate) a e V' :
  inv s a -> find_obj (ke_id e) (ss_objs s) = None -> (forall j, j <> ke_id e -> V' !! j = cV a !! j) ->
  has e KOBJ_SNAPSHOT_DIRTY = false -> has e KOBJ_SNAPSHOTING = false -> (dirty e = true \/ V' = cV a) ->
  (forall C Cw O0, stable_ok pd_size s C O0 -> phase_ok pd_size s a C Cw O0 -> ent_ok (mkCkpt V' (cD a) (cW a)) C Cw e) ->
  inv (set_objs (e :: ss_objs s) s) (mkCkpt V' (cD a) (cW a)).
Proof using Type.
  intros (C & Cw & O0 & Hnd & He & Hb & HD & HS & HP) Hf HV H1 H2 Hd Hok. pose proof (find_obj_None _ _ Hf) as Hno.
  exists C, Cw, O0. simpl. split_and!; [| | |done|done|].
  - apply list.NoDup_cons. split; [|done]. intros (x & E & Hx)%list_elem_of_fmap. by destruct (Hno x Hx).
  - intros x [->|Hx]%elem_of_cons; [by eapply Hok|]. destruct (He x Hx) as [E1 E2 E3 E4 E5 E6 E7]. split; try done. simpl. rewrite HV; [done|by apply Hno].
  - intros j Hj. assert (Hj' : ~ busy (ss_objs s) j) by (intros (x & Hx & ?); apply Hj; exists x; split; [by right|done]).
    destruct (decide (j = ke_id e)) as [->|Hne].
    + destruct Hd as [Hd| ->]; [|by apply Hb]. destruct Hj. exists e. by split_and!; [left|..].
    + destruct (Hb j Hj') as [A1 A2]. split; (eapply agree_eq; [|eassumption]); by rewrite HV.
  - eapply (phase_objs s); [exact HP|done..| |]; simpl.
    + intros x [->|Hx]%elem_of_cons; [by left|]. right. by exists x.
    + intros x Hx Hs. exists x. by split; [right|].
Qed.

End sim.
