(* ===== verification/PstateSnap.v ===== *)
(** * Snapshots

    What the first and the last loop of a sync do to the objects in memory. *)

From stdpp Require Import sorting list_numbers.
From S2P Require Import Prelude KState KObj KAs Dstack Log Blowfish BTree Index Freelist FreelistSpace FreelistInv FreelistProofs Pstate PstateIO PstateInv PstateProofs PstateMap PstateSync PstateSpec PstateSim.
From stdpp Require Import options.

Set Default Goal Selector "!".

Lemma res_map_Forall2 {A B} (f : A -> res B) l l' : res_map f l = Ok l' -> Forall2 (fun a b => f a = Ok b) l l'.
Proof.
  revert l'. induction l as [|a l IH]; intros l' E; simpl in E; [by injection E as <-|].
  destruct (f a) as [b| |] eqn:Ea; [|done..]. destruct (res_map f l) as [l1| |]; [|done..]. injection E as <-. constructor; auto.
Qed.

(** Loops that keep the identifiers. *)
Lemma res_map_ids (f : kent -> res kent) l l' : (forall e e', e ∈ l -> f e = Ok e' -> ke_id e' = ke_id e) -> res_map f l = Ok l' -> ke_id <$> l' = ke_id <$> l.
Proof.
  intros Hf Hm%res_map_Forall2. induction Hm as [|e e' l l' E Hm IH]; [done|]. simpl. f_equal; [apply (Hf e); [left|done]|]. apply IH. intros x x' Hx. apply Hf. by right.
Qed.

Lemma res_map_elem {A B} (f : A -> res B) l l' : res_map f l = Ok l' ->
  (forall b, b ∈ l' -> exists a, (a ∈ l) /\ f a = Ok b) /\ (forall a, a ∈ l -> exists b, (b ∈ l') /\ f a = Ok b).
Proof.
  intros Hm%res_map_Forall2. split.
  - intros b [i Hi]%list_elem_of_lookup. destruct (list.Forall2_lookup_r _ _ _ _ _ Hm Hi) as (a & Ha & E). exists a. split; [by eapply list_elem_of_lookup_2|done].
  - intros a [i Hi]%list_elem_of_lookup. destruct (list.Forall2_lookup_l _ _ _ _ _ Hm Hi) as (b & Hb & E). exists b. split; [by eapply list_elem_of_lookup_2|done].
Qed.

(** ** The beginning of a sync *)

(** Objects that are evaluated: only [KOBJ_DIRTY] may change. *)
Lemma dirty_eval_flags e e' : dirty_eval e = Ok e' ->
  ke_cur e' = ke_cur e /\ ke_snap e' = ke_snap e /\ ke_pin e' = ke_pin e /\ ke_maps e' = ke_maps e /\
  (has e KOBJ_DIRTY = true -> has e' KOBJ_DIRTY = true) /\
  forall f, f ∈ [KOBJ_SNAPSHOTING; KOBJ_SNAPSHOT_DIRTY; KOBJ_ON_DISK] -> has e' f = has e f.
Proof.
  unfold dirty_eval. destruct (has e KOBJ_DIRTY_LATER); simpl; [|intros [= <-]; by split_and!]. destruct (_ =? _); simpl; [|done].
  intros [= <-]. destruct (ke_pg_dirty e); (split_and!; [done..| |]).
  - intros _. by flags.
  - intros f Hf. repeat (apply elem_of_cons in Hf as [->|Hf]; [by flags|]). by apply not_elem_of_nil in Hf.
  - intros Hd. by flags.
  - intros f Hf. repeat (apply elem_of_cons in Hf as [->|Hf]; [by flags|]). by apply not_elem_of_nil in Hf.
Qed.

(** The snapshot is the object. *)
Lemma snap_take_eq e e' : snap_ok (ke_cur e) -> snap_take e = Ok e' ->
  ke_cur e' = ke_cur e /\ obj_eq (ke_snap e') (ke_cur e) /\ snap_ok (ke_snap e') /\ has e KOBJ_SNAPSHOTING = false /\
  ke_pin e' = ke_pin e + 1 /\ length (ke_maps e') = length (ke_maps e) /\ (true ∉ ke_maps e') /\
  has e' KOBJ_DIRTY = false /\ has e' KOBJ_SNAPSHOTING = true /\ has e' KOBJ_SNAPSHOT_DIRTY = has e KOBJ_SNAPSHOT_DIRTY /\ has e' KOBJ_ON_DISK = has e KOBJ_ON_DISK.
Proof.
  intros Hs. unfold snap_take. destruct (has e KOBJ_SNAPSHOTING) eqn:Es; [done|]. intros [= <-]. cbn [ke_cur ke_snap ke_pin ke_maps].
  match goal with |- context [hdr_put off_ko_flags 4 ?v ?b] => assert (Hh : hdr_eq (hdr_put off_ko_flags 4 v b) b) end.
  { apply hdr_put_eq; rewrite ?(so_buf _ Hs); unfold off_ko_flags; [apply Nat.leb_le; reflexivity|lia]. }
  split_and!; [done| | |done|done|by rewrite length_fmap| |by flags..].
  - split_and!; [done..|]. simpl. intros i p q Hp Hq. congruence.
  - by apply (snap_ok_eq _ (ke_cur e)).
  - intros (x & E & _)%list_elem_of_fmap. done.
Qed.

(** What [sync_mark] leaves: clean objects, and snapshots of those that were not. *)
Lemma mark_ok a C Cw e e' :
  ent_ok a C Cw e -> has e KOBJ_SNAPSHOT_DIRTY = false -> sync_mark e = Ok e' ->
  ent_ok (mkCkpt (cV a) (cD a) (cV a)) C Cw e' /\ ke_id e' = ke_id e /\ has e' KOBJ_DIRTY = false /\
  has e' KOBJ_SNAPSHOTING = has e' KOBJ_SNAPSHOT_DIRTY /\ (has e' KOBJ_SNAPSHOT_DIRTY = false -> dirty e = false).
Proof.
  intros [E1 E2 E3 E4 E5 E6 E7] Hsd Hm. assert (Hsn : has e KOBJ_SNAPSHOTING = false) by (destruct (has e KOBJ_SNAPSHOTING); [by rewrite E5 in Hsd|done]).
  unfold sync_mark in Hm.
  assert (exists e1, (if has e KOBJ_DIRTY_LATER then dirty_eval e else Ok e) = Ok e1 /\ ke_cur e1 = ke_cur e /\ ke_snap e1 = ke_snap e /\ ke_pin e1 = ke_pin e /\ ke_maps e1 = ke_maps e /\
    (has e KOBJ_DIRTY = true -> has e1 KOBJ_DIRTY = true) /\ forall f, f ∈ [KOBJ_SNAPSHOTING; KOBJ_SNAPSHOT_DIRTY; KOBJ_ON_DISK] -> has e1 f = has e f)
    as (e1 & Ee & H1 & H2 & H3 & H4 & H5 & H6).
  { destruct (has e KOBJ_DIRTY_LATER); [|by exists e]. destruct (dirty_eval e) as [e1| |] eqn:Ee; [|done..]. exists e1. split; [done|]. by apply dirty_eval_flags. }
  rewrite Ee in Hm. cbn [res_bind] in Hm.
  assert (F1 : has e1 KOBJ_SNAPSHOTING = false) by (rewrite H6; [done|set_solver]).
  assert (F2 : has e1 KOBJ_SNAPSHOT_DIRTY = false) by (rewrite H6; [done|set_solver]).
  assert (F3 : has e1 KOBJ_ON_DISK = has e KOBJ_ON_DISK) by (apply H6; set_solver). assert (Hid1 : ke_id e1 = ke_id e) by (unfold ke_id; by rewrite H1).
  destruct (has e1 KOBJ_DIRTY) eqn:Hd1.
  - destruct (snap_take e1) as [e2| |] eqn:Es; [|done..]. simpl in Hm. injection Hm as <-. rewrite <- H1 in E1.
    destruct (snap_take_eq _ _ E1 Es) as (G1 & G2 & G3 & _ & G4 & G5 & G6 & G7 & G8 & G9 & G10). set (e3 := raise KOBJ_SNAPSHOT_DIRTY e2).
    assert (Hid : ke_id e3 = ke_id e) by (unfold e3, ke_id in *; simpl; congruence).
    assert (R1 : has e3 KOBJ_SNAPSHOT_DIRTY = true) by (unfold e3; by flags). assert (R2 : has e3 KOBJ_SNAPSHOTING = true) by (unfold e3; flags; by rewrite G8).
    assert (R3 : has e3 KOBJ_DIRTY = false) by (unfold e3; flags; by rewrite G7). assert (R4 : has e3 KOBJ_ON_DISK = has e KOBJ_ON_DISK) by (unfold e3 in *; flags; by rewrite G10, F3).
    split_and!; [|done..|congruence|congruence]. assert (Ec : ke_cur e3 = ke_cur e) by (unfold e3; simpl; congruence). destruct E2 as (x & Hx & Ex).
    split; rewrite ?Hid, ?R1, ?R2, ?R3, ?R4, ?Ec, ?H1 in *; try done.
    + by exists x.
    + unfold e3. simpl. rewrite Hsn in E4. rewrite G5, G4, H3, H4. lia.
    + intros _. split_and!; [done| |done|exists x; split; [done|]; by rewrite <- Ex].
      destruct G2 as [Gh _]. apply hdr_eq_fields in Gh as [Gh _]. exact Gh.
  - injection Hm as <-. assert (Hd : has e KOBJ_DIRTY = false) by (destruct (has e KOBJ_DIRTY); [specialize (H5 eq_refl); congruence|done]).
    split_and!; [|done|done|congruence|intros _; unfold dirty; by rewrite Hd, Hsd].
    split; rewrite ?Hid1, ?Hsn, ?F1, ?F2, ?F3, ?H1, ?H3, ?H4, ?Hd1 in *; try done. intros Hin. specialize (E3 Hin). congruence.
Qed.

(** ** The end of a sync *)

Definition end_mark (r : res unit) (ts : Z) (e : kent) : kent :=
  let e := lower KOBJ_SNAPSHOT_DIRTY e in
  if is_ok r then mkKent (ke_flags e) (ke_cur e) (ke_snap e) (ke_pin e) ts (ke_maps e) (ke_pg_dirty e) else raise KOBJ_DIRTY e.

Lemma end_mark_flags r ts e :
  ke_cur (end_mark r ts e) = ke_cur e /\ ke_snap (end_mark r ts e) = ke_snap e /\ ke_pin (end_mark r ts e) = ke_pin e /\ ke_maps (end_mark r ts e) = ke_maps e /\
  has (end_mark r ts e) KOBJ_SNAPSHOT_DIRTY = false /\ has (end_mark r ts e) KOBJ_DIRTY = (has e KOBJ_DIRTY || negb (is_ok r)) /\
  has (end_mark r ts e) KOBJ_SNAPSHOTING = has e KOBJ_SNAPSHOTING /\ has (end_mark r ts e) KOBJ_ON_DISK = has e KOBJ_ON_DISK.
Proof.
  unfold end_mark. destruct (is_ok r); (split_and!; [done..| | | |]); flags; cbn [ke_flags negb]; rewrite ?orb_true_r, ?orb_false_r; flags; done.
Qed.

Lemma snap_release_flags e e' : snap_release e = Ok e' ->
  has e KOBJ_SNAPSHOTING = true /\ ke_cur e' = ke_cur e /\ ke_snap e' = ke_snap e /\ ke_pin e' = ke_pin e - 1 /\ ke_maps e' = ke_maps e /\ has e' KOBJ_SNAPSHOTING = false /\
  forall f, f ∈ [KOBJ_DIRTY; KOBJ_SNAPSHOT_DIRTY; KOBJ_ON_DISK] -> has e' f = has e f.
Proof.
  unfold snap_release. destruct (has e KOBJ_SNAPSHOTING) eqn:Es; [|done]. intros [= <-]. split_and!; [done..|by flags|].
  intros f Hf. repeat (apply elem_of_cons in Hf as [->|Hf]; [by flags|]). by apply not_elem_of_nil in Hf.
Qed.

(** Objects are no longer part of the sync; when it failed, those that were are
    dirty. *)
Lemma unmark_ok a C e e' r ts :
  ent_ok a C C e -> (is_ok r = true -> has e KOBJ_SNAPSHOTING = true -> C !! ke_id e = None) -> sync_unmark r ts e = Ok e' ->
  ent_ok a C C e' /\ ke_id e' = ke_id e /\ has e' KOBJ_SNAPSHOT_DIRTY = false /\
  has e' KOBJ_DIRTY = (has e KOBJ_DIRTY || (has e KOBJ_SNAPSHOT_DIRTY && negb (is_ok r))).
Proof.
  intros [E1 E2 E3 E4 E5 E6 E7] Hg Hu. unfold sync_unmark in Hu. fold (end_mark r ts e) in Hu. destruct (has e KOBJ_SNAPSHOT_DIRTY) eqn:Hsd; cbn [negb] in *.
  2:{ destruct (has e KOBJ_SNAPSHOTING) eqn:Hsn; [specialize (E5 eq_refl); congruence|]. injection Hu as <-. rewrite orb_false_r. split_and!; [|done..].
      split; rewrite ?Hsn, ?Hsd; done. }
  destruct (end_mark_flags r ts e) as (H1 & H2 & H3 & H4 & F1 & F2 & F3 & F4). set (e1 := end_mark r ts e) in *. rewrite F3 in Hu.
  assert (Hid1 : ke_id e1 = ke_id e) by (unfold ke_id; by rewrite H1).
  assert (Hrw : true ∈ ke_maps e -> has e KOBJ_DIRTY || negb (is_ok r) = true) by (intros Hin; by rewrite E3).
  destruct (has e KOBJ_SNAPSHOTING) eqn:Hsn.
  - destruct (snap_release e1) as [e2| |] eqn:Er; [|done..]. simpl in Hu. destruct (snap_release_flags _ _ Er) as (_ & G1 & G2 & G3 & G4 & G5 & G6).
    assert (K1 : has e2 KOBJ_DIRTY = has e1 KOBJ_DIRTY) by (apply G6; set_solver). assert (K2 : has e2 KOBJ_SNAPSHOT_DIRTY = false) by (rewrite G6; [done|set_solver]).
    assert (K3 : has e2 KOBJ_ON_DISK = has e KOBJ_ON_DISK) by (rewrite G6; [done|set_solver]).
    assert (Hid2 : ke_id e2 = ke_id e) by (unfold ke_id in *; congruence).
    destruct (is_ok r && _) eqn:Eb; injection Hu as <-.
    + apply andb_true_iff in Eb as [Hr _]. set (e3 := lower KOBJ_ON_DISK e2). assert (L1 : has e3 KOBJ_DIRTY = has e1 KOBJ_DIRTY) by (unfold e3; flags; exact K1).
      assert (L2 : has e3 KOBJ_SNAPSHOT_DIRTY = false) by (unfold e3; flags; exact K2). assert (L3 : has e3 KOBJ_SNAPSHOTING = false) by (unfold e3; flags; exact G5).
      assert (Hid3 : ke_id e3 = ke_id e) by done. split_and!; [|done|done|by rewrite L1, F2]. specialize (Hg Hr eq_refl).
      assert (Q1 : ke_cur e3 = ke_cur e) by (unfold e3; simpl; congruence). assert (Q2 : ke_maps e3 = ke_maps e) by (unfold e3; simpl; congruence).
      assert (Q3 : ke_pin e3 = ke_pin e - 1) by (unfold e3; simpl; congruence).
      split; rewrite ?Hid3, ?Q1, ?Q2, ?Q3, ?L1, ?L2, ?L3, ?F2; try done; [lia|]. intros [[? Hs]|[? Hs]]; congruence.
    + split_and!; [|done|done|by rewrite K1, F2].
      split; rewrite ?Hid2, ?G1, ?G4, ?G3, ?H1, ?H3, ?H4, ?K1, ?K2, ?K3, ?G5, ?F2; try done. lia.
  - injection Hu as <-. split_and!; [|done|done|done]. split; rewrite ?Hid1, ?H1, ?H3, ?H4, ?F1, ?F2, ?F3, ?F4; try done.
Qed.
