(* ===== verification/PstateSteps.v ===== *)
(** * The steps of a sync, a restart and a swap-in

    Each keeps the invariant of [PstateSpec], and is a step of the specification. *)

From stdpp Require Import sorting list_numbers.
From S2P Require Import Prelude KState KObj KAs Dstack Log Blowfish BTree Index Freelist FreelistSpace FreelistInv FreelistProofs Pstate PstateIO PstateInv PstateProofs PstateMap PstateSync PstateSpec PstateSim PstateSnap.
From stdpp Require Import options.

Set Default Goal Selector "!".

Lemma agree_lookup C C' X id : C' !! id = C !! id -> agree C X id -> agree C' X id.
Proof. unfold agree. by intros ->. Qed.

Lemma ent_ok_C a C C' Cw Cw' e :
  (is_Some (C' !! ke_id e) \/ is_Some (Cw' !! ke_id e) -> is_Some (C !! ke_id e) \/ is_Some (Cw !! ke_id e)) -> ent_ok a C Cw e -> ent_ok a C' Cw' e.
Proof. intros Hi [E1 E2 E3 E4 E5 E6 E7]. split; auto. Qed.

Lemma NoDup_unique l e e' : NoDup (ke_id <$> l) -> e ∈ l -> e' ∈ l -> ke_id e = ke_id e' -> e = e'.
Proof.
  intros Hnd He He' Hid. pose proof (find_obj_unique _ _ Hnd He) as H1. pose proof (find_obj_unique _ _ Hnd He') as H2. rewrite Hid, H2 in H1. by injection H1.
Qed.

Lemma NoDup_not_busy l e : NoDup (ke_id <$> l) -> e ∈ l -> dirty e = false -> ~ busy l (ke_id e).
Proof. intros Hnd He Hd (x & Hx & Ex & Dx). assert (x = e) as -> by (by eapply NoDup_unique). congruence. Qed.

Section steps.
Context {T : Type} `{Index T}.
Context (fuel rounds : nat) (pd_size : Z) (Hpd : 0 <= pd_size < 2 ^ 63).

Abbreviation sstate := (PstateSync.sstate T).
Abbreviation inv := (PstateSpec.inv pd_size).

(** Only the store, the objects and the phase matter. *)
Lemma inv_unaffected (s s' : sstate) a :
  ss_stable s' = ss_stable s -> ss_objs s' = ss_objs s -> ss_phase s' = ss_phase s -> same (ss_store s) (ss_store s') -> ps_disk (ss_store s') = ps_disk (ss_store s) ->
  inv s a -> inv s' a.
Proof using Type.
  clear Hpd. intros E1 E2 E3 Hs Ed (C & Cw & O0 & Hnd & He & Hb & HD & HS & HP). exists C, Cw, O0. rewrite E2. split_and!; [done..| |].
  - unfold stable_ok in *. by rewrite E1, Ed.
  - assert (Hok : forall O I F M P N3 N4, store_ok pd_size (ss_store s) O I F M P N3 N4 -> store_ok pd_size (ss_store s') O I F M P N3 N4) by (intros *; by apply pinv_same).
    assert (Hpg : pages_ok (ss_store s) -> pages_ok (ss_store s')) by (unfold pages_ok; by rewrite (proj1 Hs)).
    unfold phase_ok in *. rewrite E3, E1, E2, Ed. destruct (ss_phase s).
    + destruct HP as (-> & Hsd & Hst). split_and!; [done..|]. destruct (ss_stable s).
      * destruct Hst as (I & F & M & N3 & N4 & Hst). exists I, F, M, N3, N4. auto.
      * destruct Hst as [Hl Hp]. split; [|auto]. by rewrite (proj1 Hs).
    + destruct HP as (O & I & F & M & P & N3 & N4 & HI & HP). exists O, I, F, M, P, N3, N4. split; [auto|exact HP].
    + destruct HP as (-> & Hp & Hr). split_and!; [done|auto|]. intros Hk. destruct (Hr Hk) as (A1 & (I & F & M & N3 & N4 & A2) & A3 & A4). split_and!; try done.
      exists I, F, M, N3, N4. auto.
Qed.

(** What is made stable is what is read back. *)
Lemma serialize_ok (st : pst T) O I F M N3 N4 : store_ok pd_size st O I F M [] N3 N4 -> img_ok pd_size (serialize st) O.
Proof using Type.
  intros [([HT Hn Hz Hf Hs HC Hl Hp Hc] & HS & Hco) H3 H4 HI HS2 HD HZ]. exists I, F, M, N3, N4. intros st' Hp'. split; try done.
Qed.

(** The pages for the stack of deferred frees, in any phase. *)
Lemma phase_pages (s : sstate) a C Cw O0 : phase_ok pd_size s a C Cw O0 -> stable_ok pd_size s C O0 -> pages_ok (ss_store s).
Proof using Type.
  unfold phase_ok. destruct (ss_phase s).
  - intros (_ & _ & Hst) _. destruct (ss_stable s); [|by destruct Hst]. destruct Hst as (I & F & M & N3 & N4 & HI). by eapply pinv_pages.
  - intros (O & I & F & M & P & N3 & N4 & HI & _) _. by eapply pinv_pages.
  - by intros (_ & Hp & _) _.
Qed.

(** ** A restart *)

Lemma restart_ok ctx zero_image (s : sstate) a : inv s a -> inv (restart ctx zero_image s) (mkCkpt (cD a) (cD a) (cW a)).
Proof using Type.
  intros (C & Cw & O0 & Hnd & He & Hb & HD & HS & HP). exists C, C, O0. pose proof (phase_pages _ _ _ _ _ HP HS) as Hpg.
  assert (E1 : ss_objs (restart ctx zero_image s) = []) by (unfold restart; by destruct (ss_stable s) as [[]|]).
  rewrite E1. split_and!; [constructor|by intros e He'%not_elem_of_nil|done|done| |].
  - destruct HS as [HS Hh]. unfold stable_ok, restart. destruct (ss_stable s) as [[ts im]|]; done.
  - destruct HS as [HS Hh]. unfold phase_ok, restart. destruct (ss_stable s) as [[ts im]|]; simpl.
    + split_and!; [done|by intros e He'%not_elem_of_nil|]. destruct HS as (I & F & M & N3 & N4 & Hi). exists I, F, M, N3, N4. by apply Hi.
    + split_and!; [done|by intros e He'%not_elem_of_nil|done|done].
Qed.

(** ** The end of a sync *)

(** What the store is after a sync. *)
Lemma end_store (s : sstate) a C Cw O0 ts r zero_image :
  ss_phase s = ending ts r -> stable_ok pd_size s C O0 -> phase_ok pd_size s a C Cw O0 ->
  let st := if is_ok r then ss_store s else deserialize (match ss_stable s with Some (_, im) => im | None => zero_image end) (ss_store s) in
  ps_disk st = ps_disk (ss_store s) /\
  match ss_stable s with
  | Some _ => exists I F M N3 N4, store_ok pd_size st O0 I F M [] N3 N4
  | None => free_later (ps_free st) = dstack_init /\ pages_ok st
  end.
Proof using Type.
  intros Hph [HS _]. unfold phase_ok. rewrite Hph. intros (_ & Hp & Hr). destruct (is_ok r) eqn:Er; simpl.
  - split; [done|]. destruct (Hr eq_refl) as (_ & Hst & Hne & _). by destruct (ss_stable s).
  - split; [done|]. destruct (ss_stable s) as [[ts' im]|]; [|done]. destruct HS as (I & F & M & N3 & N4 & Hi). exists I, F, M, N3, N4. by apply Hi.
Qed.

Lemma end_ok zero_image ts r applied (s s' : sstate) a :
  inv s a -> ss_phase s = ending ts r -> sync_end zero_image ts r applied s = Ok s' -> inv s' a.
Proof using Type.
  intros (C & Cw & O0 & Hnd & He & Hb & HD & HS & HP) Hph E. unfold sync_end in E. destruct (_ && _); [done|].
  destruct (end_store _ _ _ _ _ _ _ zero_image Hph HS HP) as [Hdk Hst]. set (st := if is_ok r then _ else _) in *.
  destruct (res_map (sync_unmark r ts) (ss_objs s)) as [objs| |] eqn:Em; [|done..]. injection E as <-.
  unfold phase_ok in HP. rewrite Hph in HP. destruct HP as (-> & _ & Hr).
  assert (Hu : forall e e', e ∈ ss_objs s -> sync_unmark r ts e = Ok e' -> ent_ok a C C e' /\ ke_id e' = ke_id e /\ has e' KOBJ_SNAPSHOT_DIRTY = false /\
    has e' KOBJ_DIRTY = (has e KOBJ_DIRTY || (has e KOBJ_SNAPSHOT_DIRTY && negb (is_ok r)))).
  { intros e e' Hin Hue. eapply unmark_ok; [by apply He| |exact Hue]. intros Hk Hsn. by apply (Hr Hk). }
  assert (Hids : ke_id <$> objs = ke_id <$> ss_objs s) by (eapply res_map_ids; [|exact Em]; intros e e' Hin Hue; by apply (Hu e e')).
  destruct (res_map_elem _ _ _ Em) as [Hin1 Hin2]. exists C, C, O0. simpl. rewrite Hids. split_and!; [done| | |done| |].
  - intros e' He'. destruct (Hin1 e' He') as (e & Hin & Hue). by apply (Hu e e').
  - intros j Hj. assert (Hag : agree C (cV a) j); [|done]. destruct (find_obj j (ss_objs s)) as [e|] eqn:Ef.
    2:{ apply Hb. intros (x & Hx & Ex & _). by apply (find_obj_None _ _ Ef x Hx). }
    apply find_obj_Some in Ef as [Hin <-]. destruct (Hin2 e Hin) as (e' & He' & Hue). destruct (Hu e e' Hin Hue) as (_ & Hid & Hsd & Hd).
    assert (Hd' : has e' KOBJ_DIRTY = false).
    { destruct (has e' KOBJ_DIRTY) eqn:Ed; [|done]. destruct Hj. exists e'. split_and!; [done..|]. unfold dirty. by rewrite Ed. }
    rewrite Hd' in Hd. symmetry in Hd. apply orb_false_iff in Hd as [Hd1 Hd2]. destruct (has e KOBJ_SNAPSHOT_DIRTY) eqn:Hs.
    + simpl in Hd2. apply negb_false_iff in Hd2. destruct (Hr Hd2) as (HW & _). destruct (He e Hin) as [_ (y & Hy & Ey) _ _ _ E6 _].
      destruct (E6 Hs) as (_ & _ & Hc & x & Hx & Ex). eapply agree_obj; [exact Hx|exact Hy| |apply HW]. by rewrite <- Ex, <- Ey, (Hc Hd1).
    + apply Hb. apply NoDup_not_busy; [done..|]. unfold dirty. by rewrite Hd1, Hs.
  - unfold stable_ok in *. simpl. rewrite Hdk. done.
  - unfold phase_ok. simpl. split_and!; [done| |done]. intros e' He'. destruct (Hin1 e' He') as (e & Hin & Hue). by apply (Hu e e').
Qed.

(** ** The commit *)

Lemma commit_step_ok ts log (s s' : sstate) a :
  inv s a -> ss_phase s = syncing ts [] -> roomy (service_bytes fuel * Z.of_nat rounds + 1) (ps_free (ss_store s)) = true ->
  sync_commit fuel rounds ts log s = Ok s' ->
  match ss_phase s' with ending _ (Ok _) => inv s' (mkCkpt (cV a) (cW a) (cW a)) | _ => inv s' a end.
Proof using Type*.
  intros (C & Cw & O0 & Hnd & He & Hb & HD & HS & HP) Hph Hroom E. unfold phase_ok in HP. rewrite Hph in HP.
  destruct HP as (O & I & F & M & P & N3 & N4 & HI & HC & HO & _ & Hpe & Hsn).
  assert (HW : forall id, agree Cw (cW a) id) by (intros id; destruct (Hpe id) as [[Hin _]|Ha]; [by apply not_elem_of_nil in Hin|done]).
  pose proof (sync_commit_ok fuel rounds pd_size _ _ _ _ _ _ _ _ HI (roomy_big _ _ _ _ _ _ _ (pi_rest _ _ _ _ _ _ _ _ _ _ _ HI) Hroom)) as Hc.
  unfold sync_commit in E. destruct (on_free (freelist_commit fuel rounds) (ss_store s)) as [[[]|e|] st] eqn:Ec; [|done|done]. apply kd_on_free in Ec.
  destruct Hc as (F' & M' & HI'). destruct log as [[]|e|]; [| |done]; injection E as <-; simpl.
  - exists Cw, Cw, O. simpl. split_and!; [done| | |done| |].
    + intros e Hin. destruct (He e Hin) as [E1 E2 E3 E4 E5 E6 E7]. split; try done. tauto.
    + intros j Hj. split; by apply Hb.
    + split; [by eapply serialize_ok|]. simpl. by rewrite Ec.
    + split_and!; [done|by eapply pinv_pages|]. intros _. split_and!; [done|by exists I, F', M', N3, N4|done|].
      intros e Hin Hs. destruct (Hsn e Hin Hs) as [Hn|Hn]; [by apply not_elem_of_nil in Hn|done].
  - exists C, C, O0. simpl. split_and!; [done| | |done| |].
    + intros x Hin. eapply ent_ok_C; [|by apply He]. tauto.
    + intros j Hj. split; by apply Hb.
    + unfold stable_ok in *. simpl. by rewrite Ec.
    + by split_and!; [|eapply pinv_pages|].
Qed.

(** ** One object of a sync *)

(** The object has no snapshot: the loop goes on. *)
Lemma skip_ok ts id todo (s : sstate) a :
  inv s a -> ss_phase s = syncing ts (id :: todo) -> (forall e, e ∈ ss_objs s -> ke_id e = id -> has e KOBJ_SNAPSHOTING = false) ->
  inv (set_phase (syncing ts todo) s) a.
Proof using Type.
  intros (C & Cw & O0 & Hnd & He & Hb & HD & HS & HP) Hph Hno. unfold phase_ok in HP. rewrite Hph in HP.
  destruct HP as (O & I & F & M & P & N3 & N4 & HI & HC & HO & Hndt & Hpe & Hsn). exists C, Cw, O0. split_and!; [done..|].
  exists O, I, F, M, P, N3, N4. apply list.NoDup_cons in Hndt as [_ Hndt]. split_and!; try done.
  - intros j. destruct (Hpe j) as [(Hin & e & Hein & Hid & Hs)|Ha]; [|by right]. apply elem_of_cons in Hin as [->|Hin].
    + rewrite (Hno e Hein Hid) in Hs. done.
    + left. split; [done|]. by exists e.
  - intros e Hein Hs. destruct (Hsn e Hein Hs) as [Hin|Hn]; [|by right]. apply elem_of_cons in Hin as [Hid|Hin]; [|by left]. by rewrite (Hno e Hein Hid) in Hs.
Qed.

(** The loop stops: the last commit is what counts. *)
Lemma fail_ok ts r (s : sstate) st C Cw O0 a :
  NoDup (ke_id <$> ss_objs s) -> (forall e, e ∈ ss_objs s -> ent_ok a C Cw e) ->
  (forall id, ~ busy (ss_objs s) id -> agree C (cV a) id /\ agree Cw (cV a) id) -> (forall id, agree C (cD a) id) -> stable_ok pd_size (set_store st s) C O0 ->
  pages_ok st -> inv (set_phase (ending ts (Err r)) (set_store st s)) a.
Proof using Type.
  clear Hpd. intros Hnd He Hb HD HS Hp. exists C, C, O0. split_and!; [done| | |done|done|by split_and!].
  - intros e Hin. eapply ent_ok_C; [|by apply He]. tauto.
  - intros j Hj. split; by apply Hb.
Qed.

(** The snapshot was written, or the space of a dead object freed. *)
Lemma written_ok a C Cw e e' :
  ent_ok a C Cw e -> has e KOBJ_SNAPSHOTING = true -> gone (ke_snap e) = false -> snap_release (raise KOBJ_ON_DISK e) = Ok e' ->
  ent_ok a C (put_object Cw (ke_snap e)) e' /\ ke_id e' = ke_id e /\ has e' KOBJ_SNAPSHOTING = false /\ dirty e' = true.
Proof using Type.
  clear Hpd. intros [E1 E2 E3 E4 E5 E6 E7] Hsn Hg Er. destruct (snap_release_flags _ _ Er) as (_ & G1 & G2 & G3 & G4 & G5 & G6). specialize (E5 Hsn).
  assert (K1 : has e' KOBJ_DIRTY = has e KOBJ_DIRTY) by (rewrite G6 by set_solver; by flags).
  assert (K2 : has e' KOBJ_SNAPSHOT_DIRTY = true) by (rewrite G6 by set_solver; flags; exact E5). assert (K3 : has e' KOBJ_ON_DISK = true) by (rewrite G6 by set_solver; by flags).
  assert (Hid : ke_id e' = ke_id e) by (unfold ke_id; by rewrite G1). split_and!; [|done|done|unfold dirty; rewrite K2; apply orb_true_r].
  rewrite Hsn in E4. split; rewrite ?Hid, ?G1, ?G2, ?G3, ?G4, ?G5, ?K1, ?K2, ?K3; try done; [simpl; lia|]. intros _. by apply E6.
Qed.

Lemma put_other Cw snap j : j <> snap_id snap -> put_object Cw snap !! j = Cw !! j.
Proof using Type. intros Hne. unfold put_object. destruct (gone snap); [by rewrite lookup_delete_ne|by rewrite lookup_insert_ne]. Qed.

Lemma put_agree Cw X snap x : X !! snap_id snap = Some x -> obj_eq snap x -> agree (put_object Cw snap) X (snap_id snap).
Proof using Type.
  intros Hx Ex. unfold put_object. destruct (gone snap) eqn:Eg.
  - eapply agree_absent; [apply lookup_delete_eq|done|]. rewrite <- Ex. by apply gone_dead.
  - split; [|intros y _ _; by rewrite lookup_insert_eq]. intros sn Hs. rewrite lookup_insert_eq in Hs. injection Hs as <-. by exists x.
Qed.

(** The object [id] is done: [Cw'] is what the disk has now. *)
Lemma done_ok ts id todo (s : sstate) st objs a C Cw Cw' O0 O I F M P N3 N4 :
  (forall y, y ∈ ss_objs s -> ent_ok a C Cw y) -> (forall j, ~ busy (ss_objs s) j -> agree C (cV a) j /\ agree Cw (cV a) j) -> (forall j, agree C (cD a) j) ->
  id ∉ todo -> NoDup todo -> (forall j, pending (ss_objs s) (id :: todo) j \/ agree Cw (cW a) j) ->
  (forall y, y ∈ ss_objs s -> has y KOBJ_SNAPSHOTING = true -> ke_id y ∈ id :: todo \/ Cw !! ke_id y = None) ->
  stable_ok pd_size (set_store st s) C O0 -> store_ok pd_size st O I F M P N3 N4 -> holds (ps_disk st) O Cw' -> (forall e, e ∈ O0.*2 -> e ∈ O.*2 ++ P) ->
  agree Cw' (cW a) id -> (forall j, j <> id -> Cw' !! j = Cw !! j) ->
  NoDup (ke_id <$> objs) -> (forall y, ke_id y <> id -> (y ∈ objs) <-> (y ∈ ss_objs s)) ->
  (forall y, y ∈ objs -> ke_id y = id -> ent_ok a C Cw' y /\ (has y KOBJ_SNAPSHOTING = true -> Cw' !! id = None)) -> busy objs id ->
  inv (set_phase (syncing ts todo) (set_store st (set_objs objs s))) a.
Proof using Type.
  intros He Hb HD Hnin Hndt Hpe Hsn HS HI HC HO Hag Hother Hnd Hobjs Hid Hbusy. exists C, Cw', O0. simpl. split_and!; [done| | |done|done|].
  - intros y Hy. destruct (decide (ke_id y = id)) as [Ey|Hne]; [by apply Hid|]. eapply ent_ok_C; [|by apply He, Hobjs]. by rewrite Hother.
  - intros j Hj. assert (j <> id) as Hne by (by intros ->). destruct (Hb j) as [A1 A2]; [|split; [done|]; eapply agree_lookup; [by apply Hother|done]].
    intros (y & Hy & Ey & Dy). apply Hj. exists y. split; [|done]. apply Hobjs; [congruence|done].
  - exists O, I, F, M, P, N3, N4. split_and!; try done; [intros j|].
    + destruct (decide (j = id)) as [->|Hne]; [by right|]. destruct (Hpe j) as [(Hin & y & Hy & Ey & Sy)|Ha]; [|right; eapply agree_lookup; [by apply Hother|done]].
      left. apply elem_of_cons in Hin as [->|Hin]; [done|]. split; [done|]. exists y. split; [|done]. apply Hobjs; [congruence|done].
    + intros y Hy Hsy. destruct (decide (ke_id y = id)) as [Ey|Hne]; [right; rewrite Ey; by apply (Hid y)|]. rewrite Hother by done.
      destruct (Hsn y) as [Hin|Hn]; [by apply Hobjs|done| |by right]. apply elem_of_cons in Hin as [?|?]; [done|by left].
Qed.

Lemma object_ok ts id todo (s s' : sstate) a :
  inv s a -> ss_phase s = syncing ts (id :: todo) -> (forall e, find_obj id (ss_objs s) = Some e -> roomy (need fuel e) (ps_free (ss_store s)) = true) ->
  sync_object fuel pd_size ts id todo s = Ok s' -> inv s' a.
Proof using Type*.
  intros Hinv Hph Hroom E. pose proof Hinv as (C & Cw & O0 & Hnd & He & Hb & HD & HS & HP). unfold sync_object in E.
  destruct (find_obj id (ss_objs s)) as [e|] eqn:Ef.
  2:{ injection E as <-. eapply skip_ok; [done..|]. intros x Hx Ex. by destruct (find_obj_None _ _ Ef x Hx). }
  destruct (find_obj_Some _ _ _ Ef) as [Hein Hid]. assert (Hun : forall x, x ∈ ss_objs s -> ke_id x = id -> x = e) by (intros x Hx Ex; eapply NoDup_unique; [done..|congruence]).
  destruct (has e KOBJ_SNAPSHOTING) eqn:Hs; simpl in E.
  2:{ injection E as <-. eapply skip_ok; [done..|]. intros x Hx Ex. by rewrite (Hun x Hx Ex). }
  unfold phase_ok in HP. rewrite Hph in HP. destruct HP as (O & I & F & M & P & N3 & N4 & HI & HC & HO & Hndt & Hpe & Hsn).
  pose proof (He e Hein) as [_ _ _ _ E5 E6 _]. destruct (E6 (E5 Hs)) as (Hso & Hsid & _ & x & Hx & Ex). set (snap := ke_snap e) in *. rewrite Hid in Hsid.
  pose proof (roomy_big _ _ _ _ _ _ _ (pi_rest _ _ _ _ _ _ _ _ _ _ _ HI) (Hroom e eq_refl)) as Hbig.
  pose proof (sync_one_ok fuel pd_size Hpd ts snap (ss_store s) O I F M P N3 N4 1 HI Hso Hbig ltac:(lia)) as H1.
  assert (HS' : forall st, kept O P (ps_disk (ss_store s)) (ps_disk st) -> stable_ok pd_size (set_store st s) C O0).
  { intros st Hk. destruct HS as [HS Hh]. split; [done|]. eapply holds_ext; [|exact Hh]. intros ex z Hex Hz. apply (Hk ex z); [by apply HO|done]. }
  destruct (sync_one fuel pd_size ts snap (ss_store s)) as [[[]|err|] st]; [| |done].
  2:{ injection E as <-. destruct H1 as [Hk (_ & Hp)]. eapply (fail_ok ts err s st C Cw O0); by auto. }
  destruct H1 as [Hk (off & I' & F' & M' & P' & N3' & N4' & HI' & _ & Hmv & Hst)]. specialize (HS' st Hk).
  assert (HC' : holds (ps_disk st) (relocate snap off O) (put_object Cw snap)).
  { eapply holds_put; [done|exact HC| |exact Hst]. intros ex z Hex Hz. apply (Hk ex z); [|done]. rewrite elem_of_app. by left. }
  apply list.NoDup_cons in Hndt as [Hnin Hndt].
  assert (Hag : agree (put_object Cw snap) (cW a) id) by (rewrite <- Hsid; eapply put_agree; [by rewrite Hsid, <- Hid|done]).
  assert (Hother : forall j, j <> id -> put_object Cw snap !! j = Cw !! j) by (intros j Hj; apply put_other; congruence).
  assert (HO' : forall ex, ex ∈ O0.*2 -> ex ∈ (relocate snap off O).*2 ++ P') by (intros ex Hex; by apply Hmv, HO). destruct (gone snap) eqn:Eg.
  - injection E as <-. assert (Hnone : put_object Cw snap !! id = None) by (unfold put_object; rewrite Eg, Hsid; apply lookup_delete_eq).
    eapply (done_ok ts id todo s st (ss_objs s)); try done.
    + intros y Hy Ey. split; [|done]. eapply ent_ok_C; [|by apply He]. rewrite Ey, Hnone. intros [?|[? ?]]; [by left|done].
    + exists e. split_and!; [done..|]. unfold dirty. rewrite (E5 Hs). apply orb_true_r.
  - destruct (snap_release (raise KOBJ_ON_DISK e)) as [e'| |] eqn:Er; [|done..]. injection E as <-.
    destruct (written_ok a C Cw e e' (He e Hein) Hs Eg Er) as (Hok' & Hid' & Hs' & Hd'). fold snap in Hok'. rewrite Hid in Hid'.
    assert (Hidl : id ∈ ke_id <$> ss_objs s) by (rewrite <- Hid; by apply list_elem_of_fmap_2).
    assert (Hel : forall y, y ∈ set_obj_ent id e' (ss_objs s) <-> y = e' \/ (y ∈ ss_objs s /\ ke_id y <> id)) by (intros y; by apply elem_of_set_obj).
    eapply (done_ok ts id todo s st (set_obj_ent id e' (ss_objs s))); try done; [by rewrite set_obj_ids|intros y Hne; rewrite Hel; split| |].
    + intros [->|[Hy _]]; done.
    + intros Hy. by right.
    + intros y [->|[Hy Hne]]%Hel Ey; [|done]. split; [done|congruence].
    + exists e'. split; [apply Hel; by left|done].
Qed.

(** ** The beginning of a sync *)

(** The snapshots are taken; the store is consistent. *)
Lemma marked_ok (s : sstate) st objs ts counter lock waiting a :
  inv s a -> ss_phase s = idle -> res_map sync_mark (ss_objs s) = Ok objs -> ps_disk st = ps_disk (ss_store s) ->
  (forall C O0, stable_ok pd_size s C O0 -> phase_ok pd_size s a C C O0 -> exists I F M N3 N4, store_ok pd_size st O0 I F M [] N3 N4) ->
  inv (mkSs st (ss_stable s) objs counter lock waiting (syncing ts (ke_id <$> objs))) (mkCkpt (cV a) (cD a) (cV a)).
Proof using Type.
  clear Hpd. intros (C & Cw & O0 & Hnd & He & Hb & HD & HS & HP) Hph Em Hdk Hst. assert (Cw = C /\ forall e, e ∈ ss_objs s -> has e KOBJ_SNAPSHOT_DIRTY = false) as [-> Hsd].
  { unfold phase_ok in HP. rewrite Hph in HP. by destruct HP as (-> & Hsd & _). }
  destruct (Hst C O0 HS HP) as (I & F & M & N3 & N4 & HI).
  assert (Hm : forall e e', e ∈ ss_objs s -> sync_mark e = Ok e' -> ent_ok (mkCkpt (cV a) (cD a) (cV a)) C C e' /\ ke_id e' = ke_id e /\ has e' KOBJ_DIRTY = false /\
    has e' KOBJ_SNAPSHOTING = has e' KOBJ_SNAPSHOT_DIRTY /\ (has e' KOBJ_SNAPSHOT_DIRTY = false -> dirty e = false)).
  { intros e e' Hin Hme. eapply mark_ok; [by apply He|by apply Hsd|done]. }
  assert (Hids : ke_id <$> objs = ke_id <$> ss_objs s) by (eapply res_map_ids; [|exact Em]; intros e e' Hin Hme; by apply (Hm e e')).
  destruct (res_map_elem _ _ _ Em) as [Hin1 Hin2].
  assert (Hag : forall j, pending objs (ke_id <$> objs) j \/ (~ busy objs j /\ agree C (cV a) j)).
  { intros j. destruct (find_obj j (ss_objs s)) as [e|] eqn:Ef.
    - apply find_obj_Some in Ef as [Hin <-]. destruct (Hin2 e Hin) as (e' & He' & Hme). destruct (Hm e e' Hin Hme) as (_ & Hid & Hd & Hsn & Hcl).
      destruct (has e' KOBJ_SNAPSHOT_DIRTY) eqn:Hs.
      + left. split; [rewrite Hids; by apply list_elem_of_fmap_2|]. by exists e'.
      + right. split; [|by apply Hb, NoDup_not_busy; auto]. rewrite <- Hid. apply NoDup_not_busy; [by rewrite Hids|done|]. unfold dirty. by rewrite Hd, Hs.
    - pose proof (find_obj_None _ _ Ef) as Hno. right. split; [|apply Hb; intros (x & Hx & Ex & _); by apply (Hno x Hx)].
      intros (x & Hx & Ex & _). destruct (Hin1 x Hx) as (e & Hin & Hme). apply (Hno e Hin). destruct (Hm e x Hin Hme) as (_ & Hid & _). congruence. }
  exists C, C, O0. split_and!; [by simpl; rewrite Hids| | |done| |].
  - intros e' He'. destruct (Hin1 e' He') as (e & Hin & Hme). by apply (Hm e e').
  - intros j Hj. destruct (Hag j) as [(Hin & e & Hein & Hid & Hs)|[_ Ha]]; [|done]. destruct Hj. exists e. split_and!; [done..|].
    destruct (Hin1 e Hein) as (e0 & Hin0 & Hme). destruct (Hm e0 e Hin0 Hme) as (_ & _ & _ & Hsn & _). unfold dirty. rewrite <- Hsn, Hs. apply orb_true_r.
  - destruct HS as [HS Hh]. split; [done|]. simpl. by rewrite Hdk.
  - exists O0, I, F, M, [], N3, N4. destruct HS as [HS Hh]. split_and!; [done|by simpl; rewrite Hdk|set_solver|by rewrite Hids|..].
    + intros j. destruct (Hag j) as [Hp|[_ Ha]]; [by left|by right].
    + intros e Hin _. left. by apply list_elem_of_fmap_2.
Qed.

(** A new store: the partition has room for the header, the log, and the ten blocks
    of the node manager. *)
Lemma store_init_ok chunk0 offset0 objmap0 iobj0 (s st : pst T) :
  ix_rep 2 1 chunk0 [] ∅ -> ix_rep 1 1 offset0 [] ∅ -> (1 < ix_cap chunk0)%nat -> (1 < ix_cap offset0)%nat -> ix_rep 1 2 objmap0 [] ∅ -> ix_rep 1 1 iobj0 [] ∅ ->
  reserved_pages pd_size + Z.of_nat FRM_BUF_SIZE < part_pages pd_size -> free_later (ps_free s) = dstack_init -> pages_ok s ->
  store_init pd_size chunk0 offset0 objmap0 iobj0 s = Ok st ->
  ps_disk st = ps_disk s /\ exists I F M N3 N4, store_ok pd_size st [] I F M [] N3 N4.
Proof using Type*.
  intros H1 H2 C1 C2 H3 H4 Hroom Hl Hp E. unfold store_init in E. change (Z.of_nat FRM_BUF_SIZE) with 10 in Hroom.
  assert (Hres : 1 <= reserved_pages pd_size) by (unfold reserved_pages, HEADER_PAGES, MAX_LOG_PAGES; pose proof (Z.div_pos pd_size 65536); lia).
  assert (Hpart : part_pages pd_size * PGSIZE <= pd_size) by (unfold part_pages, PGSIZE; pose proof (Z.mul_div_le pd_size 4096 ltac:(lia)); lia).
  set (r := reserved_pages pd_size) in *. set (p := part_pages pd_size) in *. unfold u64 in E. unfold PGSIZE in *. rewrite (Z.mod_small (r * 4096)), (Z.mod_small ((p - r) * 4096)) in E by lia.
  set (f0 := mkFstate _ chunk0 offset0 _ _) in E.
  pose proof (freelist_init_ok False 2 (r * 4096) ((p - r) * 4096) f0 ltac:(lia) ltac:(lia) ltac:(change (Z.of_nat FRM_BUF_SIZE * BTREE_BLOCK_SIZE) with 40960; lia)
    H1 H2 ltac:(simpl; lia) ltac:(simpl; lia) ltac:(lia) Hl Hp) as Hw. unfold wp in Hw.
  destruct (freelist_init (r * 4096) ((p - r) * 4096) f0) as [[[]| |] f]; [|done..]. injection E as <-. split; [done|].
  destruct Hw as (M & HR & Ho). set (F := [_]) in *.
  assert (Hh : forall z, occ z (owned F M [] ++ held [] ∅ ∅) = Nat.b2n (covers z (r * 4096, (p - r) * 4096))).
  { intros z. rewrite <- Ho. unfold owned, held. rewrite !elements_empty. simpl. by rewrite !app_nil_r. }
  exists [], F, M, ∅, ∅. split; try done; [by eapply rest_weaken| |].
  - destruct HR as (_ & HS & _). unfold owned, held. rewrite !elements_empty. simpl in *. by rewrite !app_nil_r in *.
  - intros z Hz. rewrite Hh, covers_spec, decide_False; [done|]. simpl. lia.
Qed.

(** The trees that a new store begins with. *)
Context (ctx : bf_ctx) (chunk0 offset0 objmap0 iobj0 : T).
Context (Hchunk : ix_rep 2 1 chunk0 [] ∅) (Hoffset : ix_rep 1 1 offset0 [] ∅) (Hobjmap : ix_rep 1 2 objmap0 [] ∅) (Hiobj : ix_rep 1 1 iobj0 [] ∅).
Context (Hc1 : (1 < ix_cap chunk0)%nat) (Hc2 : (1 < ix_cap offset0)%nat) (Hroom : reserved_pages pd_size + Z.of_nat FRM_BUF_SIZE < part_pages pd_size).

Lemma begin_ok (s s' : sstate) a :
  inv s a -> ss_phase s = idle -> sync_begin pd_size ctx chunk0 offset0 objmap0 iobj0 s = Ok s' ->
  exists ts todo, ss_phase s' = syncing ts todo /\ inv s' (mkCkpt (cV a) (cD a) (cV a)).
Proof using Type*.
  intros Hinv Hph E. unfold sync_begin in E.
  assert (Hb : match ss_stable s with Some _ => false | None => part_pages pd_size <=? reserved_pages pd_size end = false).
  { destruct (ss_stable s); [done|]. change (Z.of_nat FRM_BUF_SIZE) with 10 in Hroom. apply Z.leb_gt. lia. }
  rewrite Hb in E. destruct (match ss_stable s with Some _ => _ | None => _ end) as [st| |] eqn:Est; [|done..]. cbn [res_bind] in E.
  destruct (pstate_ts_alloc ctx (ss_counter s)) as [ts counter]. destruct (res_map sync_mark (ss_objs s)) as [objs| |] eqn:Em; [|done..]. injection E as <-.
  exists ts, (ke_id <$> objs). split; [done|].
  assert (Hst : ps_disk st = ps_disk (ss_store s) /\ forall C O0, stable_ok pd_size s C O0 -> phase_ok pd_size s a C C O0 ->
    exists I F M N3 N4, store_ok pd_size st O0 I F M [] N3 N4).
  { destruct (ss_stable s) as [im|] eqn:Es.
    - injection Est as <-. split; [done|]. intros C O0 _ HP. unfold phase_ok in HP. rewrite Hph, Es in HP. by destruct HP as (_ & _ & HP).
    - destruct Hinv as (C & Cw & O0 & _ & _ & _ & _ & _ & HP). unfold phase_ok in HP. rewrite Hph, Es in HP. destruct HP as (_ & _ & Hl & Hp).
      destruct (store_init_ok chunk0 offset0 objmap0 iobj0 (ss_store s) st Hchunk Hoffset Hc1 Hc2 Hobjmap Hiobj Hroom Hl Hp Est) as [Hd HI].
      split; [done|]. intros C' O0' [HS _] _. rewrite Es in HS. by subst O0'. }
  destruct Hst as [Hd Hst]. by apply marked_ok.
Qed.
End steps.

(** ** Swapping in *)

Lemma le_encode_S n v : le_encode (S n) v = v mod 256 :: le_encode n (v / 256).
Proof.
  unfold le_encode. cbn [seq fmap list_fmap]. f_equal; [by rewrite Z.pow_0_r, Z.div_1_r|]. rewrite <- fmap_S_seq, <- list_fmap_compose. apply list_fmap_ext.
  intros i x _. simpl. rewrite Z.div_div by lia. do 2 f_equal. rewrite <- Z.pow_succ_r by lia. f_equal. lia.
Qed.

Lemma le_decode_encode n v : le_decode (le_encode n v) = v mod 256 ^ Z.of_nat n.
Proof.
  revert v. induction n as [|n IH]; intros v; [by rewrite Z.mod_1_r|]. rewrite le_encode_S. simpl. fold (le_decode (le_encode n (v / 256))).
  rewrite IH, Nat2Z.inj_succ, Z.pow_succ_r by lia. by rewrite Z.rem_mul_r by lia.
Qed.

(** An object that was written has the flag of objects on disk. *)
Lemma sync_header_on_disk ts buf : length buf = Z.to_nat KOBJ_DISK_SIZE -> flag_in (hdr_get off_ko_flags 4 (sync_header ts buf)) KOBJ_ON_DISK = true.
Proof.
  change (Z.to_nat KOBJ_DISK_SIZE) with 512%nat. intros Hl. unfold sync_header. set (b := hdr_put off_ko_sync_ts 8 ts buf).
  assert (Hb : length b = 512%nat) by (unfold b; rewrite length_hdr_put; unfold off_ko_sync_ts; lia). set (v := Z.lor _ _). unfold hdr_get at 1, hdr_put.
  rewrite drop_app_length' by (by rewrite length_take, Hb). rewrite take_app_length' by (by rewrite length_le_encode).
  rewrite le_decode_encode. unfold flag_in. apply negb_true_iff, Z.eqb_neq. intros E. assert (Hbit : Z.testbit (Z.land (v mod 256 ^ Z.of_nat 4) KOBJ_ON_DISK) 1 = false) by (by rewrite E).
  change (256 ^ Z.of_nat 4) with (2 ^ 32) in Hbit. rewrite Z.land_spec, Z.mod_pow2_bits_low in Hbit by lia. unfold v in Hbit. rewrite Z.lor_spec in Hbit.
  change (Z.testbit KOBJ_ON_DISK 1) with true in Hbit. rewrite orb_true_r in Hbit. done.
Qed.

Section swapin.
Context {T : Type} `{Index T}.
Context (pd_size : Z) (Hpd : 0 <= pd_size < 2 ^ 63) (put_page : nat -> res unit).

Lemma pages_at_length d off N : Forall (fun p => length p = Z.to_nat PGSIZE) (pages_at d off N).
Proof using Type. clear Hpd pd_size. apply list.Forall_forall. intros p (i & -> & _)%list_elem_of_fmap. apply length_bytes_at. Qed.

(** Operations that read: the store stays, and no error says that an object is missing. *)
Definition reads {A} (m : PM (T := T) A) (Q : A -> Prop) : Prop :=
  forall s, same s (m s).2 /\ ps_disk (m s).2 = ps_disk s /\ match (m s).1 with Ok a => Q a | Err e => e <> E_NOT_FOUND | Panic => True end.

Lemma reads_bind {A B} (m : PM A) (f : A -> PM B) Q R : reads m Q -> (forall a, Q a -> reads (f a) R) -> reads (m ≫= f) R.
Proof using Type.
  clear Hpd. intros Hm Hf s. destruct (Hm s) as (H1 & H2 & H3). unfold mbind, PM_bind. destruct (m s) as [[a|e|] s1]; cbn [fst snd] in *; [|done..].
  destruct (Hf a H3 s1) as (H4 & H5 & H6). split_and!; [by eapply same_trans|congruence|done].
Qed.

Lemma reads_ret {A} (a : A) (Q : A -> Prop) : Q a -> reads (mret a) Q.
Proof using Type. done. Qed.

Abbreviation reader x := (flush_op x = op_read).

Lemma reads_flush x : reader x -> reads (pstate_iov_flush pd_size x) (fun x => reader x).
Proof using Type.
  clear Hpd. intros Hx. unfold pstate_iov_flush. apply reads_bind with (Q := fun _ => True); [|intros _ _; by apply reads_ret].
  destruct (0 <? iov_bytes x); [|done]. intros s. rewrite Hx. unfold stackwrap_disk_iov.
  destruct (pd_size <? flush_off x); [done|]. destruct (pd_size <? _); [done|]. by destruct (hd None (ps_io s)).
Qed.

Lemma reads_append x b n : reader x -> reads (pstate_iov_append pd_size x b n) (fun x => reader x).
Proof using Type.
  clear Hpd. intros Hx. unfold pstate_iov_append. apply reads_bind with (Q := fun x => reader x); [|intros y Hy; by apply reads_ret].
  destruct (_ =? _)%nat; [by apply reads_flush|by apply reads_ret].
Qed.

Lemma reads_alloc : reads alloc_page (fun _ => True).
Proof using Type. intros s. unfold alloc_page. by destruct (ps_mem s). Qed.

Lemma reads_pages ko_bytes n : (forall i, put_page i <> Err E_NOT_FOUND) ->
  forall x page, reader x -> reads (swapin_pages pd_size put_page ko_bytes x page n) (fun x => reader x).
Proof using Type.
  clear Hpd. intros Hput. induction n as [|n IH]; intros x page Hx; cbn [swapin_pages]; [by apply reads_ret|].
  eapply reads_bind; [apply reads_alloc|]. intros p _. apply reads_bind with (Q := fun _ => True).
  { intros s. unfold plift. cbn [fst snd]. split_and!; [done..|]. destruct (put_page page) as [[]|e|] eqn:E; [done| |done]. intros ->. by apply (Hput page). }
  intros _ _. apply reads_bind with (Q := fun _ => True); [done|]. intros _ _. eapply reads_bind; [by apply reads_append|]. intros y Hy. by apply IH.
Qed.

Lemma reads_mobj off n id : (forall i, put_page i <> Err E_NOT_FOUND) -> reads (pstate_swapin_mobj pd_size put_page off n id) (fun _ => True).
Proof using Type.
  clear Hpd. intros Hput. unfold pstate_swapin_mobj. eapply reads_bind; [apply reads_alloc|]. intros p _. apply reads_bind with (Q := fun _ => True); [done|].
  intros _ _. eapply reads_bind; [by apply reads_append|]. intros x Hx. eapply reads_bind; [by apply reads_pages|]. intros y Hy.
  eapply reads_bind; [by apply reads_flush|]. intros z _. apply reads_bind with (Q := fun _ => True); [done|]. intros b _.
  apply reads_bind with (Q := fun _ => True); [|intros _ _; by apply reads_ret]. unfold passert. by destruct (_ =? id).
Qed.

(** A swap-in that fails leaves the store alone; one that finds no object is right. *)
Lemma swapin_fails_ok (s : PstateSync.sstate T) id e st a :
  inv pd_size s a -> ss_phase s = idle -> find_obj id (ss_objs s) = None -> (forall i, put_page i <> Err E_NOT_FOUND) ->
  pstate_swapin_id pd_size put_page (match ss_stable s with Some _ => true | None => false end) id (ss_store s) = (Err e, st) ->
  read_ok (if e =? E_NOT_FOUND then ev_absent id else ev_tau) a /\ same (ss_store s) st /\ ps_disk st = ps_disk (ss_store s).
Proof using Type.
  clear Hpd. intros Hinv Hph Hf Hput E. pose proof Hinv as (C & Cw & O0 & Hnd & He & Hb & HD & HS & HP). unfold phase_ok in HP. rewrite Hph in HP. destruct HP as (-> & Hsd & Hst).
  assert (Hnb : ~ busy (ss_objs s) id) by (intros (x & Hx & Ex & _); by apply (find_obj_None _ _ Hf x Hx)). destruct (proj1 (Hb id Hnb)) as [_ Hag].
  assert (Habs : C !! id = None -> read_ok (if e =? E_NOT_FOUND then ev_absent id else ev_tau) a).
  { intros HC. destruct (e =? E_NOT_FOUND); [|done]. intros y Hy Hl. destruct (Hag y Hy Hl) as [x Hx]. congruence. }
  unfold pstate_swapin_id in E. destruct HS as [HS (Hnd0 & HO & HC)]. destruct (ss_stable s) as [[ts im]|] eqn:Es; cbn [negb] in E.
  2:{ unfold pfail in E. injection E as <- <-. subst O0. split_and!; [|done..]. apply Habs, eq_None_not_Some. intros Hs%HC. by apply not_elem_of_nil in Hs. }
  destruct Hst as (I & F & M & N3 & N4 & HI). unfold mbind at 1, PM_bind at 1 in E.
  destruct (objmap_search id (ss_store s) _ _ _ (pi_objmap _ _ _ _ _ _ _ _ _ _ _ HI) eq_refl) as [([off n] & Hin & Er)|[Hno Er]]; unfold pbtree_search in E; cbn [get_obj] in *; rewrite Er in E.
  - unfold mbind, PM_bind, plift in E. cbn [objkv snd fst] in E. change (res_nth [off; n] 0) with (@Ok Z off) in E. change (res_nth [off; n] 1) with (@Ok Z n) in E.
    destruct (reads_mobj off n id Hput (ss_store s)) as (H1 & H2 & H3). rewrite E in H1, H2, H3. cbn [fst snd] in *.
    rewrite (proj2 (Z.eqb_neq _ _) H3). by split_and!.
  - injection E as <- <-. split_and!; [|done..]. apply Habs, eq_None_not_Some. intros Hs%HC. done.
Qed.

Lemma swapin_ok (s : PstateSync.sstate T) id sn st initial a :
  inv pd_size s a -> ss_phase s = idle -> find_obj id (ss_objs s) = None -> Forall (fun p => length p = Z.to_nat PGSIZE) (ps_mem (ss_store s)) ->
  pstate_swapin_id pd_size put_page (match ss_stable s with Some _ => true | None => false end) id (ss_store s) = (Ok sn, st) ->
  (exists x, cV a !! id = Some x /\ obj_eq (ke_cur (swapped_in initial sn)) x) /\ inv pd_size (set_objs (swapped_in initial sn :: ss_objs s) (set_store st s)) a.
Proof using Type*.
  intros Hinv Hph Hf Hmem E. pose proof Hinv as (C & Cw & O0 & Hnd & He & Hb & HD & HS & HP). unfold phase_ok in HP. rewrite Hph in HP. destruct HP as (-> & Hsd & Hst).
  destruct (ss_stable s) as [[ts im]|] eqn:Es; [|by unfold pstate_swapin_id in E]. destruct Hst as (I & F & M & N3 & N4 & HI).
  pose proof (swapin_raw _ _ pd_size put_page id O0 I F M [] N3 N4 (ss_store s) Hpd HI Hmem) as Hw. rewrite E in Hw.
  destruct Hw as (off & N & Hin & Eb & Ep & Hsame & Hdk). destruct HS as [_ (Hnd0 & HO & HC)]. destruct (HO _ _ Hin) as (snap & Hsnap & Hso & Hsid & Hct).
  pose proof (fetched_content _ _ _ _ _ Hct Eb Ep) as Hfe. pose proof (fetched_eq _ _ (so_buf _ Hso) Hfe) as Hoe.
  assert (Hnb : ~ busy (ss_objs s) id) by (intros (x & Hx & Ex & _); by apply (find_obj_None _ _ Hf x Hx)).
  destruct (proj1 (Hb id Hnb)) as [Hag _]. destruct (Hag snap Hsnap) as (x & Hx & Ex). set (e := swapped_in initial sn).
  assert (Hce : obj_eq (ke_cur e) sn) by (split_and!; [done..|]; simpl; intros i p q Hp Hq; congruence).
  assert (Hex : obj_eq (ke_cur e) x) by (by rewrite Hce, Hoe). split; [by exists x|].
  assert (Hid : ke_id e = id) by (rewrite <- Hsid; apply hdr_eq_fields; etrans; [apply Hce|apply Hoe]).
  assert (F1 : has e KOBJ_SNAPSHOT_DIRTY = false) by (unfold e, swapped_in; by flags). assert (F2 : has e KOBJ_SNAPSHOTING = false) by (unfold e, swapped_in; by flags).
  assert (F3 : has e KOBJ_ON_DISK = true).
  { unfold e, swapped_in. flags. destruct Hfe as ((ts' & ->) & _). by apply sync_header_on_disk, so_buf. }
  assert (Hcur : snap_ok (ke_cur e)).
  { destruct Hoe as (Hh & Hl & _). destruct (hdr_eq_fields _ _ Hh) as (_ & Hn & _). destruct Hso as [S1 S2 S3 S4 S5].
    split; change (sn_buf (ke_cur e)) with (sn_buf sn); change (sn_pages (ke_cur e)) with (sn_pages sn); change (snap_nbytes (ke_cur e)) with (snap_nbytes sn);
      rewrite ?Hl, ?Hn, ?(proj1 Hh); try done. rewrite Ep. apply pages_at_length. }
  rewrite <- (ckpt_eta a). apply (inv_cons pd_size (set_store st s)); simpl; rewrite ?Hid; try done; [by eapply inv_unaffected; [..|exact Hinv]|by right|].
  intros C' Cw' O0' _ _. split; rewrite ?Hid, ?F1, ?F2, ?F3; try done; [by exists x|]. intros Hm. by apply not_elem_of_nil in Hm.
Qed.
End swapin.
