(* ===== verification/PstateCkpt.v ===== *)
(** * Checkpoints: the claims

    Whatever the kernel, the disk and the sync do, and in whatever order, an object
    that is read is the object as it was last written; after a restart it is the
    object as of the last checkpoint. *)

From stdpp Require Import sorting list_numbers.
From S2P Require Import Prelude KState KObj KAs Dstack Log Blowfish BlowfishProofs BTree Index Freelist FreelistSpace FreelistInv FreelistProofs Pstate PstateIO PstateInv PstateProofs PstateMap PstateSync PstateSpec PstateSim PstateSnap PstateSteps.
From stdpp Require Import options.

Set Default Goal Selector "!".

(** Stamps of 29 bits are what they were made from. *)
Lemma ts_alloc_decrypt ctx c : 0 <= c < 2 ^ 29 -> pstate_ts_decrypt ctx (pstate_ts_alloc ctx c).1 = c /\ (pstate_ts_alloc ctx c).2 = c + 1.
Proof.
  intros Hc. unfold pstate_ts_decrypt, pstate_ts_alloc. simpl. rewrite bf61_decipher_encipher, mask31_mod, mask30_mod, Z.shiftr_div_pow2 by lia.
  rewrite (Z.div_small c), (Z.mod_small c) by lia. split; [by rewrite Z.mod_0_l, Z.add_0_r by lia|]. apply Z.mod_small. lia.
Qed.

Section ckpt.
Context {T : Type} `{Index T}.
Context (fuel rounds : nat) (pd_size : Z) (Hpd : 0 <= pd_size < 2 ^ 63) (put_page : nat -> res unit) (ctx : bf_ctx) (zero_image : image T).
Context (chunk0 offset0 objmap0 iobj0 : T).
Context (Hchunk : ix_rep 2 1 chunk0 [] ∅) (Hoffset : ix_rep 1 1 offset0 [] ∅) (Hobjmap : ix_rep 1 2 objmap0 [] ∅) (Hiobj : ix_rep 1 1 iobj0 [] ∅).
Context (Hc1 : (1 < ix_cap chunk0)%nat) (Hc2 : (1 < ix_cap offset0)%nat) (Hroom : reserved_pages pd_size + Z.of_nat FRM_BUF_SIZE < part_pages pd_size).

Abbreviation sstate := (PstateSync.sstate T).
Abbreviation inv := (PstateSpec.inv pd_size).
Abbreviation step := (PstateSpec.step fuel rounds pd_size ctx chunk0 offset0 objmap0 iobj0 zero_image put_page).

(** ** New objects *)

Lemma absent_objmap id (st : pst T) O I F M P N3 N4 C :
  store_ok pd_size st O I F M P N3 N4 -> is_ok (ix_search [id] (ps_objmap st)) = false -> holds (ps_disk st) O C -> C !! id = None.
Proof using Type.
  clear Hpd. intros HI Hs (_ & _ & HC). destruct (objmap_search id st _ _ _ (pi_objmap _ _ _ _ _ _ _ _ _ _ _ HI) eq_refl) as [(e & _ & Er)|[Hno _]].
  - unfold pbtree_search in Er. simpl in Er. by rewrite Er in Hs.
  - apply eq_None_not_Some. intros Hsome. by apply Hno, HC.
Qed.

Lemma unused_absent id (s : sstate) a C Cw O0 :
  unused id s -> stable_ok pd_size s C O0 -> phase_ok pd_size s a C Cw O0 -> C !! id = None /\ Cw !! id = None.
Proof using Type.
  clear Hpd. intros (_ & Hnow & Hst) HS HP. pose proof (phase_pages _ _ _ _ _ _ HP HS) as Hpg. destruct HS as [HS Hh].
  assert (HC : C !! id = None).
  { destruct (ss_stable s) as [[ts im]|].
    - destruct HS as (I & F & M & N3 & N4 & Hi). eapply (absent_objmap id (deserialize im (ss_store s))); [by apply Hi|by apply (Hst ts im)|done].
    - subst O0. destruct Hh as (_ & _ & HC). apply eq_None_not_Some. intros Hs%HC. by apply not_elem_of_nil in Hs. }
  split; [done|]. unfold phase_ok in HP. destruct (ss_phase s); [by destruct HP as (-> & _)| |by destruct HP as (-> & _)].
  destruct HP as (O & I & F & M & P & N3 & N4 & HI & HC' & _). by eapply absent_objmap.
Qed.

Lemma new_ok (s : sstate) e a :
  inv s a -> unused (ke_id e) s -> snap_ok (ke_cur e) -> ke_flags e = KOBJ_DIRTY -> ke_maps e = [] -> 0 <= ke_pin e ->
  inv (set_objs (e :: ss_objs s) s) (mkCkpt (<[ke_id e := ke_cur e]> (cV a)) (cD a) (cW a)).
Proof using Type.
  clear Hpd. intros Hinv Hun Hso Hfl Hm Hp. assert (F1 : has e KOBJ_SNAPSHOT_DIRTY = false) by (unfold has; by rewrite Hfl).
  assert (F2 : has e KOBJ_SNAPSHOTING = false) by (unfold has; by rewrite Hfl). assert (F3 : has e KOBJ_DIRTY = true) by (unfold has; by rewrite Hfl).
  apply inv_cons; try done; [apply Hun|intros j Hj; by rewrite lookup_insert_ne|left; unfold dirty; by rewrite F3|].
  intros C Cw O0 HS HP. destruct (unused_absent _ _ _ _ _ _ Hun HS HP) as [N1 N2]. split; rewrite ?F1, ?F2, ?F3, ?Hm; try done.
  - eexists. split; [apply lookup_insert_eq|done].
  - rewrite N1, N2. intros [[? ?]|[? ?]]; done.
Qed.

(** ** Every step is a step of the specification *)

Lemma simulation ev (s s' : sstate) a : inv s a -> step ev s s' -> read_ok ev a /\ inv s' (ck_apply ev a).
Proof using Type*.
  intros Hinv Hstep. destruct Hstep as [s id e cur Hf Hso Hid|s e Hun Hso Hfl Hm Hp|s id e rw Hf|s id e cur Hf Hm Hso Hid|s id e i b Hf Hi|s|s|s io mem|s|s th ts r b s' E
    |s id sn st initial Hph Hl Hf Hmem E|s id e st Hph Hl Hf Hmem Hput E|s s' Hph Hl E|s ts id todo s' Hph Hr E|s ts log s' Hph Hr E|s ts r applied s' Hph E|s].
  - destruct (find_obj_Some _ _ _ Hf) as [_ He]. split; [done|]. simpl. eapply inv_obj_upd; [done..|apply modify_sim; congruence|intros j Hj; by rewrite lookup_insert_ne|left; unfold dirty; by flags|].
    intros C Cw Hok. rewrite <- He. apply modify_ok; [done|congruence|done].
  - split; [done|]. simpl. by apply new_ok.
  - split; [done|]. rewrite <- (ckpt_eta a). eapply inv_obj_upd; [done..|apply fill_sim|done|left; unfold dirty; by destruct rw; flags|]. intros C Cw Hok. rewrite ckpt_eta. by apply fill_ok.
  - destruct (find_obj_Some _ _ _ Hf) as [Hin He]. split; [done|]. simpl.
    assert (Hd : has e KOBJ_DIRTY = true) by (destruct Hinv as (C & Cw & O0 & _ & Hok & _); by apply (Hok e Hin)).
    eapply inv_obj_upd; [done..|by split_and!; [exact (eq_trans Hid (eq_sym He))|..]|intros j Hj; by rewrite lookup_insert_ne|left; unfold dirty, has in *; simpl; by rewrite Hd|].
    intros C Cw Hok. rewrite <- He. apply write_mapped_ok; [done|done|congruence|done].
  - split; [done|]. rewrite <- (ckpt_eta a). eapply inv_obj_upd; [done..|by right|]. intros C Cw Hok. rewrite ckpt_eta. by eapply invalidate_ok.
  - split; [done|]. simpl. apply (inv_filter pd_size s a); [done|]. intros C Cw e Hn Hok. destruct (reclaim_ok _ _ _ _ Hn Hok). auto.
  - split; [done|]. simpl. apply (inv_filter pd_size s a); [done|]. intros C Cw e Hn Hok. destruct (bury_ok _ _ _ _ Hn Hok). auto.
  - split; [done|]. simpl. by eapply inv_unaffected; [..|exact Hinv].
  - split; [done|]. simpl. by eapply inv_unaffected; [..|exact Hinv].
  - split; [done|]. simpl. unfold pstate_sync_user in E. destruct (match ss_stable s with Some _ => _ | None => _ end); injection E as _ _ <-; [done|].
    by eapply inv_unaffected; [..|exact Hinv].
  - destruct (swapin_ok pd_size Hpd put_page s id sn st initial a Hinv Hph Hf Hmem E) as [(x & Hx & Ex) Hinv']. split; [by exists x|done].
  - destruct (swapin_fails_ok pd_size put_page s id e st a Hinv Hph Hf Hput E) as (Hrd & Hsame & Hdk). split; [done|].
    assert (Ha : ck_apply (if e =? E_NOT_FOUND then ev_absent id else ev_tau) a = a) by (by destruct (e =? E_NOT_FOUND)). rewrite Ha.
    by eapply inv_unaffected; [..|exact Hinv].
  - assert (Hinv1 : inv (mkSs (ss_store s) (ss_stable s) (ss_objs s) (ss_counter s) true (ss_waiting s) idle) a) by (by eapply inv_unaffected; [..|exact Hinv]).
    destruct (begin_ok pd_size Hpd ctx chunk0 offset0 objmap0 iobj0 Hchunk Hoffset Hobjmap Hiobj Hc1 Hc2 Hroom _ s' a Hinv1 eq_refl E) as (ts & todo & Hph' & Hinv').
    rewrite Hph'. done.
  - split; [done|]. simpl. by eapply object_ok.
  - pose proof (commit_step_ok fuel rounds pd_size Hpd ts log s s' a Hinv Hph Hr E) as Hc. destruct (ss_phase s') as [|ts' todo|ts' [[]|e|]];
      (split; [done|exact Hc]).
  - split; [done|]. simpl. by eapply end_ok.
  - split; [done|]. simpl. by apply restart_ok.
Qed.
(** ** Runs *)

Inductive run : list event -> sstate -> sstate -> Prop :=
| run_nil s : run [] s s
| run_snoc tr ev s s1 s2 : run tr s s1 -> step ev s1 s2 -> run (tr ++ [ev]) s s2.

(** The kernel with an empty disk. *)
Record fresh (s : sstate) : Prop := {
  fr_stable : ss_stable s = None;
  fr_objs : ss_objs s = [];
  fr_phase : ss_phase s = idle;
  fr_later : free_later (ps_free (ss_store s)) = dstack_init;
  fr_pages : pages_ok (ss_store s);
  fr_counter : ss_counter s = 0;
}.

Definition no_objects : ckpt := mkCkpt ∅ ∅ ∅.

Lemma fresh_inv s : fresh s -> inv s no_objects.
Proof using Type.
  intros [H1 H2 H3 H4 H5 H6]. assert (Ha : forall id, agree ∅ ∅ id) by (intros id; split; intros x Hx; by rewrite lookup_empty in Hx).
  exists ∅, ∅, []. rewrite H2. split_and!; [constructor|by intros e He%not_elem_of_nil|done|done|split; [by rewrite H1|apply holds_nil]|].
  unfold phase_ok. rewrite H3, H2, H1. split_and!; [done|by intros e He%not_elem_of_nil|done|done].
Qed.

Definition reads_ok (tr : list event) (a : ckpt) : Prop := forall tr1 ev tr2, tr = tr1 ++ ev :: tr2 -> read_ok ev (ck_run tr1 a).

Lemma ck_run_snoc tr ev a : ck_run (tr ++ [ev]) a = ck_apply ev (ck_run tr a).
Proof using Type. unfold ck_run. by rewrite foldl_app. Qed.

Lemma run_ok tr s s' a : inv s a -> run tr s s' -> reads_ok tr a /\ inv s' (ck_run tr a).
Proof using Type*.
  intros Hinv. induction 1 as [s|tr ev s s1 s2 Hr IH Hs].
  - split; [|done]. intros tr1 ev tr2 E. by destruct tr1.
  - destruct (IH Hinv) as [Hrd Hinv1]. destruct (simulation _ _ _ _ Hinv1 Hs) as [Hev Hinv2]. rewrite ck_run_snoc. split; [|done].
    intros tr1 ev1 tr2 E. destruct tr2 as [|x tr2 _] using rev_ind.
    + apply app_inj_tail in E as [<- <-]. done.
    + rewrite app_comm_cons, app_assoc in E. apply app_inj_tail in E as [E _]. by apply (Hrd tr1 ev1 tr2).
Qed.

(** C17: the store keeps the objects.  From the start of the kernel with an empty disk,
    in any interleaving of what threads do to objects (create, modify, map, write
    through a mapping, unmap), of reclaiming and burying objects, of swapping in, of
    the parts of syncs, with any outcome of every transfer and of the commit of the
    log, of failed syncs and their roll-back, and of restarts at any moment, every
    swap-in that succeeds returns the object as it is in the specification: as last
    written, and after a restart, as of the moment when the last sync that committed
    began; and one that finds no object is right: there is none that is alive.  Two
    conditions: the free list has room ([roomy]) before each object is written and
    before each commit; and the log is taken as it is specified, bringing back after a
    commit the nodes that were written to it, and after a failed one those of before. *)
Theorem store_keeps_objects tr s s' : fresh s -> run tr s s' -> reads_ok tr no_objects.
Proof using Type*. intros Hf Hr. by apply (run_ok _ _ _ _ (fresh_inv s Hf) Hr). Qed.

(** ** Time stamps *)

#[local] Opaque pstate_ts_alloc pstate_ts_decrypt.

Abbreviation ts_of := (pstate_ts_decrypt ctx).

(** What a step does to the time stamps of the sync and of the last commit. *)
Definition ts_step (ev : event) (s s' : sstate) : Prop :=
  match ev with
  | ev_begin => ss_stable s' = ss_stable s /\ ss_counter s' = (pstate_ts_alloc ctx (ss_counter s)).2 /\ exists todo, ss_phase s' = syncing (pstate_ts_alloc ctx (ss_counter s)).1 todo
  | ev_commit => ss_counter s' = ss_counter s /\ exists ts todo r im, ss_phase s = syncing ts todo /\ ss_phase s' = ending ts r /\ ss_stable s' = Some (ts, im)
  | ev_crash => ss_stable s' = ss_stable s /\ ss_phase s' = idle /\ ss_counter s' = match ss_stable s with Some (ts, _) => ts_of ts | None => 0 end
  | _ => ss_stable s' = ss_stable s /\ (ss_counter s' = ss_counter s \/ ss_counter s' = (pstate_ts_alloc ctx (ss_counter s)).2) /\
      forall ts todo, ss_phase s' = syncing ts todo -> exists todo', ss_phase s = syncing ts todo'
  end.

Lemma step_ts ev (s s' : sstate) : step ev s s' -> ts_step ev s s'.
Proof using Type.
  clear Hpd Hroom Hc1 Hc2.
  destruct 1 as [s id e cur Hf Hso Hid|s e Hun Hso Hfl Hm Hp|s id e rw Hf|s id e cur Hf Hm Hso Hid|s id e i b Hf Hi|s|s|s io mem|s|s th ts r b s' E
    |s id sn st initial Hph Hl Hf Hmem E|s id e st Hph Hl Hf Hmem Hput E|s s' Hph Hl E|s ts id todo s' Hph Hr E|s ts log s' Hph Hr E|s ts r applied s' Hph E|s]; simpl;
    try (split_and!; [done|by auto|intros ts' todo' Hs; exists todo'; exact Hs]).
  - unfold pstate_sync_user in E. destruct (match ss_stable s with Some _ => _ | None => _ end); injection E as _ _ <-; (split_and!; [done|by left|intros ts' todo' Hs; exists todo'; exact Hs]).
  - destruct (e =? E_NOT_FOUND); (split_and!; [done|by left|intros ts' todo' Hs; exists todo'; exact Hs]).
  - unfold sync_begin in E. simpl in E. destruct (match ss_stable s with Some _ => false | None => _ end); [injection E as <-; by split_and!; [|left|]|].
    destruct (match ss_stable s with Some _ => _ | None => _ end) as [st| |]; [|done..]. cbn [res_bind] in E. destruct (pstate_ts_alloc ctx (ss_counter s)) as [ts c] eqn:Et.
    destruct (res_map sync_mark (ss_objs s)) as [objs| |]; [|done..]. injection E as <-. simpl. split_and!; [done|by rewrite ?Et|]. rewrite ?Et. by eexists.
  - assert (Hk : ss_stable s' = ss_stable s /\ ss_counter s' = ss_counter s /\ forall ts' todo', ss_phase s' = syncing ts' todo' -> ts' = ts).
    { unfold sync_object in E. destruct (find_obj id (ss_objs s)) as [e|]; [|by injection E as <-; split_and!; [..|intros ts' todo' [= <- _]]].
      destruct (negb _); [by injection E as <-; split_and!; [..|intros ts' todo' [= <- _]]|]. destruct (sync_one _ _ _ _ _) as [[[]|err|] st]; [| |done].
      - destruct (gone _); [by injection E as <-; split_and!; [..|intros ts' todo' [= <- _]]|]. destruct (snap_release _); [|done..].
        by injection E as <-; split_and!; [..|intros ts' todo' [= <- _]].
      - by injection E as <-. }
    destruct Hk as (H1 & H2 & H3). split_and!; [done|by left|]. intros ts' todo' Hs. rewrite (H3 _ _ Hs). by eexists.
  - unfold sync_commit in E. destruct (on_free _ _) as [[[]|err|] st]; [| |done].
    + destruct log as [[]|err|]; [| |done]; injection E as <-; simpl; [|by split_and!; [|left|]]. split; [done|]. by eexists _, _, _, _.
    + injection E as <-. by split_and!; [|left|].
  - unfold sync_end in E. destruct (_ && _); [done|]. destruct (res_map _ _); [|done..]. injection E as <-. by split_and!; [|left|].
  - unfold restart. destruct (ss_stable s) as [[]|] eqn:Es; by split_and!.
Qed.

(** Stamps are below the counter, which counts steps at most. *)
Record ts_ok (n : Z) (s : sstate) : Prop := {
  tk_counter : 0 <= ss_counter s <= n;
  tk_phase : forall ts todo, ss_phase s = syncing ts todo -> 0 <= ts_of ts < ss_counter s;
  tk_stable : forall ts im, ss_stable s = Some (ts, im) -> 0 <= ts_of ts <= ss_counter s;
}.

Lemma step_ts_ok n ev s s' : ts_ok n s -> n < 2 ^ 29 -> ts_step ev s s' -> ts_ok (n + 1) s' /\ (ev <> ev_crash -> ss_counter s <= ss_counter s').
Proof using Type.
  clear Hpd Hroom Hc1 Hc2. intros [H1 H2 H3] Hn Hs. destruct (ts_alloc_decrypt ctx (ss_counter s)) as [Ha Hb]; [lia|].
  assert (Hsame : ss_stable s' = ss_stable s -> (ss_counter s' = ss_counter s \/ ss_counter s' = ss_counter s + 1) ->
    (forall ts todo, ss_phase s' = syncing ts todo -> 0 <= ts_of ts < ss_counter s') -> ts_ok (n + 1) s' /\ (ev <> ev_crash -> ss_counter s <= ss_counter s')).
  { intros E Hc Hp. split; [|intros; lia]. split; [lia|done|]. rewrite E. intros ts im Hst. specialize (H3 ts im Hst). lia. }
  destruct ev; simpl in Hs; rewrite ?Hb in Hs;
    try (destruct Hs as (E1 & E2 & E3); apply Hsame; [exact E1|exact E2|intros ts todo Hp; destruct (E3 _ _ Hp) as [todo' Hp']; specialize (H2 _ _ Hp'); lia]).
  - destruct Hs as (E1 & E2 & todo & Hp). apply Hsame; [exact E1|right; exact E2|]. intros ts' todo' Hp'. rewrite Hp' in Hp. injection Hp as -> _. rewrite Ha, E2. lia.
  - destruct Hs as (E1 & ts & todo & r & im & Hp & Hp' & Hst). specialize (H2 _ _ Hp). split; [|lia]. split; [lia| |].
    + intros ts' todo'. by rewrite Hp'.
    + intros ts' im'. rewrite Hst. intros [= <- _]. lia.
  - destruct Hs as (E1 & E2 & E3). split; [|intros Hne; by destruct Hne]. destruct (ss_stable s) as [[ts im]|] eqn:Es.
    + specialize (H3 ts im eq_refl). split; [lia|intros ts' todo'; by rewrite E2|]. rewrite E1. intros ts' im' [= <- _]. lia.
    + split; [lia|intros ts' todo'; by rewrite E2|]. by rewrite E1.
Qed.

Lemma run_ts_ok tr n s s' : ts_ok n s -> run tr s s' -> n + Z.of_nat (length tr) <= 2 ^ 29 -> ts_ok (n + Z.of_nat (length tr)) s'.
Proof using Type.
  clear Hpd Hroom Hc1 Hc2. intros H0'. induction 1 as [s|tr ev s s1 s2 Hr IH Hs]; [by rewrite Z.add_0_r|]. rewrite length_app. simpl. intros Hn.
  destruct (step_ts_ok (n + Z.of_nat (length tr)) ev s1 s2) as [Hok _]; [apply IH; [done|lia]|lia|by apply step_ts|]. by replace (n + Z.of_nat (length tr + 1)) with (n + Z.of_nat (length tr) + 1) by lia.
Qed.

Lemma fresh_ts_ok s : fresh s -> ts_ok 0 s.
Proof using Type. clear Hpd Hroom Hc1 Hc2. intros [H1 H2 H3 H4 H5 H6]. split; [lia|intros ts todo; by rewrite H3|by rewrite H1]. Qed.

(** The part [X] of the state after [tr] is what the objects were at a beginning of a
    sync in [tr]. *)
Definition as_of_begin (X : ckpt -> gmap Z snapshot) (tr : list event) : Prop :=
  exists tr1 tr2, tr = tr1 ++ ev_begin :: tr2 /\ forall a, X (ck_run tr a) = cV (ck_run tr1 a).

Lemma as_of_begin_snoc X Y tr ev : as_of_begin X tr -> (forall a, Y (ck_apply ev a) = X a) -> as_of_begin Y (tr ++ [ev]).
Proof using Type. intros (tr1 & tr2 & -> & Ha) HX. exists tr1, (tr2 ++ [ev]). split; [by rewrite <- app_assoc|]. intros a. by rewrite ck_run_snoc, HX. Qed.

(** A stamp that is newer than [n] belongs to a sync that began in [tr]. *)
Lemma run_durable tr n m s s' :
  run tr s s' -> ts_ok m s -> m + Z.of_nat (length tr) <= 2 ^ 29 -> ev_crash ∉ tr -> n < ss_counter s ->
  (forall ts todo, ss_phase s = syncing ts todo -> ts_of ts <= n) -> (forall ts im, ss_stable s = Some (ts, im) -> ts_of ts <= n) ->
  n < ss_counter s' /\ (forall ts todo, ss_phase s' = syncing ts todo -> n < ts_of ts -> as_of_begin cW tr) /\
  (forall ts im, ss_stable s' = Some (ts, im) -> n < ts_of ts -> as_of_begin cD tr).
Proof using Type.
  clear Hpd Hroom Hc1 Hc2. induction 1 as [s|tr ev s s1 s2 Hr IH Hs]; intros Hok Hm Hcr Hn Hp Hst.
  { split_and!; [done|intros ts todo E Ht; specialize (Hp _ _ E); lia|intros ts im E Ht; specialize (Hst _ _ E); lia]. }
  rewrite length_app in Hm. simpl in Hm. apply not_elem_of_app in Hcr as [Hcr1 Hcr2]. assert (Hev : ev <> ev_crash) by (intros ->; apply Hcr2; left).
  destruct IH as (A1 & A2 & A3); [done|lia|done..|]. apply step_ts in Hs. pose proof (run_ts_ok _ _ _ _ Hok Hr ltac:(lia)) as Hok1.
  destruct (step_ts_ok _ _ _ _ Hok1 ltac:(lia) Hs) as [Hok2 Hle]. specialize (Hle Hev). split; [lia|].
  destruct ev; simpl in Hs; try done;
    try (destruct Hs as (E1 & _ & E3); split; [intros ts todo Hp' Ht; destruct (E3 _ _ Hp') as [todo' Hp1]; by eapply as_of_begin_snoc; [eapply A2|]
      |rewrite E1; intros ts im Hst' Ht; by eapply as_of_begin_snoc; [eapply A3|]]).
  - destruct Hs as (E1 & _). split; [|rewrite E1; intros ts im Hst' Ht; by eapply as_of_begin_snoc; [eapply A3|]].
    intros ts todo _ _. exists tr, []. split; [done|]. intros a. by rewrite ck_run_snoc.
  - destruct Hs as (_ & ts & todo & r & im & Hp1 & Hp2 & Hst2). split; [intros ts' todo'; by rewrite Hp2|]. rewrite Hst2. intros ts' im' [= <- _] Ht.
    by eapply as_of_begin_snoc; [eapply A2|].
Qed.

(** C18: what [pstate_sync_user] promises.  A thread takes a time stamp and later asks
    for a sync up to it.  When it is told that there is nothing to wait for, there
    was no restart in between, and fewer than 2^29 steps were made since the disk was
    empty, then the last checkpoint is of a sync that began after the stamp: the
    objects that a restart would bring back are those of that moment, so every write
    made before the stamp is among them. *)
Theorem sync_user_durable tr0 tr s0 s s2 s3 th b :
  let '(t, counter) := pstate_ts_alloc ctx (ss_counter s) in
  fresh s0 -> run tr0 s0 s -> run tr (mkSs (ss_store s) (ss_stable s) (ss_objs s) counter (ss_lock s) (ss_waiting s) (ss_phase s)) s2 ->
  ev_crash ∉ tr -> Z.of_nat (length tr0 + length tr) < 2 ^ 29 ->
  pstate_sync_user ctx th t s2 = (Ok tt, b, s3) -> as_of_begin cD tr.
Proof using Type.
  clear Hpd Hroom Hc1 Hc2. destruct (pstate_ts_alloc ctx (ss_counter s)) as [t c] eqn:Et. intros Hf Hr0 Hr Hcr Hlen E.
  pose proof (run_ts_ok _ _ _ _ (fresh_ts_ok _ Hf) Hr0 ltac:(lia)) as [K1 K2 K3]. destruct (ts_alloc_decrypt ctx (ss_counter s)) as [Ha Hb]; [lia|].
  rewrite Et in Ha, Hb. simpl in Ha, Hb. subst c. destruct (run_durable _ (ss_counter s) (Z.of_nat (length tr0) + 1) _ _ Hr) as (_ & _ & A3); simpl; [|lia|done|lia|..].
  - split; simpl; [lia|intros ts todo Hp; specialize (K2 _ _ Hp); lia|intros ts im Hst; specialize (K3 _ _ Hst); lia].
  - intros ts todo Hp. specialize (K2 _ _ Hp). lia.
  - intros ts im Hst. specialize (K3 _ _ Hst). lia.
  - unfold pstate_sync_user in E. destruct (ss_stable s2) as [[ts im]|]; [|done]. rewrite Ha in E. destruct (Z.ltb_spec (ss_counter s) (ts_of ts)); [|done]. by eapply A3.
Qed.

End ckpt.

(** ** The end of every sync *)

Section wake.
Context {T : Type} (zero_image : image T).



End wake.
