(* ===== verification/PstateRun.v ===== *)
(** * A run of the store

    An object is made, a sync writes it and commits, the object is reclaimed and
    swapped in again; then the system restarts and swaps it in once more. *)

From stdpp Require Import sorting list_numbers.
From S2P Require Import Prelude KState KObj KAs Dstack Log Blowfish BTree Index Freelist FreelistSpace FreelistInv FreelistProofs Pstate PstateIO PstateInv PstateProofs PstateMap PstateSync PstateSpec PstateCkpt.
From stdpp Require Import options.

Set Default Goal Selector "!".

Definition ex_ctx : bf_ctx := BfCtx [] [].
Definition ex_zero : image ftree := mkImage (mkFrm [] [] 0 0 false false) fchunk0 foffset0 PstateMap.objmap0 foffset0.
Definition ex_put (i : nat) : res unit := Ok tt.
Definition from_ok {A} (d : A) (r : res A) : A := match r with Ok a => a | _ => d end.

Lemma from_ok_eq {A} (d : A) (r : res A) : is_ok r = true -> r = Ok (from_ok d r).
Proof. by destruct r. Qed.

(** An object of two pages. *)
Definition ex_obj : snapshot := mkSnap (sn_buf ex_snap) (sn_pages ex_snap) false.
Definition ex_ent : kent := mkKent KOBJ_DIRTY ex_obj ex_obj 0 0 [] false.

Abbreviation ex_step := (step 1 2 (2 ^ 30) ex_ctx fchunk0 foffset0 PstateMap.objmap0 foffset0 ex_zero ex_put).
Abbreviation ex_run := (run 1 2 (2 ^ 30) ex_put ex_ctx ex_zero fchunk0 foffset0 PstateMap.objmap0 foffset0).

(** The object is made, with the counter of time stamps at [c]; then a sync. *)
Definition x0 : sstate ftree := mkSs (mkPst boot PstateMap.objmap0 foffset0 (fun _ => 222) [] [] []) None [] 0 false [] idle.
Definition x1 (c : Z) : sstate ftree := mkSs (ss_store x0) None [ex_ent] c false [] idle.
Definition x2 (c : Z) : sstate ftree :=
  from_ok (x1 c) (sync_begin (2 ^ 30) ex_ctx fchunk0 foffset0 PstateMap.objmap0 foffset0 (mkSs (ss_store (x1 c)) None (ss_objs (x1 c)) c true [] idle)).
Definition ex_ts (c : Z) : Z := (pstate_ts_alloc ex_ctx c).1.
Definition x3 (c : Z) : sstate ftree := from_ok (x2 c) (sync_object 1 (2 ^ 30) (ex_ts c) 77 [] (x2 c)).
Definition x4 (c : Z) : sstate ftree := from_ok (x3 c) (sync_commit 1 2 (ex_ts c) (Ok tt) (x3 c)).
Definition x5 (c : Z) : sstate ftree := from_ok (x4 c) (sync_end ex_zero (ex_ts c) (Ok tt) true (x4 c)).
Definition x6 (c : Z) : sstate ftree := set_objs (filter (fun e => reclaimable e = false) (ss_objs (x5 c))) (x5 c).
Definition x7 (c : Z) : sstate ftree := set_store (supply [] (replicate 3 (ex_page 0)) (ss_store (x6 c))) (x6 c).

Lemma ex_obj_ok : snap_ok ex_obj.
Proof. split; [vm_compute; reflexivity|repeat constructor; vm_compute; reflexivity|by vm_compute|split; by vm_compute|by vm_compute]. Qed.

Definition ex_trace1 : list event := [ev_write 77 ex_obj].
Definition ex_trace5 : list event := [ev_begin; ev_tau; ev_commit; ev_tau].

Lemma ex_run1 : ex_run ex_trace1 x0 (x1 0).
Proof.
  change ex_trace1 with ([] ++ [ev_write (ke_id ex_ent) (ke_cur ex_ent)]). eapply run_snoc; [apply run_nil|]. apply (step_new _ _ _ _ _ _ _ _ _ _ x0 ex_ent).
  - split; [exact eq_refl|]. split; [vm_compute; exact eq_refl|]. intros ts im E. discriminate E.
  - apply ex_obj_ok.
  - exact eq_refl.
  - exact eq_refl.
  - simpl. lia.
Qed.

Section from.
Context (c : Z) (Hc : c = 0 \/ c = 1).

(** Evaluates for both values of the counter. *)
Ltac both := destruct Hc as [->| ->]; vm_compute; exact eq_refl.

Lemma ex_step2 : ex_step ev_begin (x1 c) (x2 c).
Proof using Hc.
  assert (E : ss_phase (x2 c) = syncing (ex_ts c) [77]) by both.
  assert (Hk : is_ok (sync_begin (2 ^ 30) ex_ctx fchunk0 foffset0 PstateMap.objmap0 foffset0 (mkSs (ss_store (x1 c)) None (ss_objs (x1 c)) c true [] idle)) = true) by both.
  replace ev_begin with (match ss_phase (x2 c) with syncing _ _ => ev_begin | _ => ev_tau end) by (rewrite E; exact eq_refl).
  apply (step_begin _ _ _ _ _ _ _ _ _ _ (x1 c) (x2 c)); [exact eq_refl|exact eq_refl|]. exact (from_ok_eq (x1 c) _ Hk).
Qed.

Lemma ex_step3 : ex_step ev_tau (x2 c) (x3 c).
Proof using Hc.
  assert (E : ss_phase (x2 c) = syncing (ex_ts c) [77]) by both. assert (Hk : is_ok (sync_object 1 (2 ^ 30) (ex_ts c) 77 [] (x2 c)) = true) by both.
  assert (Hr : match find_obj 77 (ss_objs (x2 c)) with Some e => roomy (need 1 e) (ps_free (ss_store (x2 c))) | None => true end = true) by both.
  apply (step_object _ _ _ _ _ _ _ _ _ _ (x2 c) (ex_ts c) 77 [] (x3 c)); [exact E| |exact (from_ok_eq (x2 c) _ Hk)]. intros e Ee. rewrite Ee in Hr. exact Hr.
Qed.

Lemma ex_step4 : ex_step ev_commit (x3 c) (x4 c).
Proof using Hc.
  assert (E : ss_phase (x4 c) = ending (ex_ts c) (Ok tt)) by both. assert (E3 : ss_phase (x3 c) = syncing (ex_ts c) []) by both.
  assert (Hk : is_ok (sync_commit 1 2 (ex_ts c) (Ok tt) (x3 c)) = true) by both.
  assert (Hr : roomy (service_bytes 1 * Z.of_nat 2 + 1) (ps_free (ss_store (x3 c))) = true) by both.
  replace ev_commit with (match ss_phase (x4 c) with ending _ (Ok _) => ev_commit | _ => ev_tau end) by (rewrite E; exact eq_refl).
  apply (step_commit _ _ _ _ _ _ _ _ _ _ (x3 c) (ex_ts c) (Ok tt) (x4 c)); [exact E3|exact Hr|]. exact (from_ok_eq (x3 c) _ Hk).
Qed.

Lemma ex_step5 : ex_step ev_tau (x4 c) (x5 c).
Proof using Hc.
  assert (E : ss_phase (x4 c) = ending (ex_ts c) (Ok tt)) by both. assert (Hk : is_ok (sync_end ex_zero (ex_ts c) (Ok tt) true (x4 c)) = true) by both.
  apply (step_end _ _ _ _ _ _ _ _ _ _ (x4 c) (ex_ts c) (Ok tt) true (x5 c)); [exact E|]. exact (from_ok_eq (x4 c) _ Hk).
Qed.

Lemma ex_sync tr s : ex_run tr s (x1 c) -> ex_run (tr ++ ex_trace5) s (x5 c).
Proof using Hc.
  intros Hr. assert (E : tr ++ ex_trace5 = (((tr ++ [ev_begin]) ++ [ev_tau]) ++ [ev_commit]) ++ [ev_tau]) by (by rewrite <- !app_assoc). rewrite E.
  eapply run_snoc; [|apply ex_step5]. eapply run_snoc; [|apply ex_step4]. eapply run_snoc; [|apply ex_step3]. eapply run_snoc; [|apply ex_step2]. exact Hr.
Qed.
End from.

Lemma ex_step6 c : ex_step ev_tau (x5 c) (x6 c).
Proof. unfold x6. generalize (x5 c). intros s. apply step_reclaim. Qed.

Lemma ex_step7 c : ex_step ev_tau (x6 c) (x7 c).
Proof. unfold x7. generalize (x6 c). intros s. apply step_supply. Qed.

(** The object comes back from the disk. *)
Definition ex_back (s : sstate ftree) : res snapshot * pst ftree := pstate_swapin_id (2 ^ 30) ex_put (match ss_stable s with Some _ => true | None => false end) 77 (ss_store s).

Lemma ex_read (s : sstate ftree) :
  ss_phase s = idle -> ss_lock s = false -> find_obj 77 (ss_objs s) = None -> ps_mem (ss_store s) = replicate 3 (ex_page 0) -> is_ok (ex_back s).1 = true ->
  exists x s', ex_step (ev_read 77 x) s s'.
Proof.
  intros H1 H2 H3 H4 H5. unfold ex_back in H5. destruct (pstate_swapin_id _ _ _ _ _) as [[sn| |] st] eqn:E; [|done..].
  exists (ke_cur (swapped_in false sn)), (set_objs (swapped_in false sn :: ss_objs s) (set_store st s)). apply step_swapin; [exact H1|exact H2|exact H3| |exact E].
  rewrite H4. repeat constructor; vm_compute; reflexivity.
Qed.

Lemma x0_fresh : fresh x0.
Proof. split; try exact eq_refl. apply boot_pages. Qed.

Lemma ex_room : reserved_pages (2 ^ 30) + Z.of_nat FRM_BUF_SIZE < part_pages (2 ^ 30).
Proof. apply Z.ltb_lt. vm_compute. exact eq_refl. Qed.

Lemma store_keeps_objects_witness : exists tr x s', ex_run (tr ++ [ev_tau; ev_tau; ev_read 77 x]) x0 s' /\ exists y, cV (ck_run tr no_objects) !! 77 = Some y /\ obj_eq x y.
Proof.
  assert (Hr5 : ex_run (ex_trace1 ++ ex_trace5) x0 (x5 0)) by (apply ex_sync; [by left|apply ex_run1]). set (tr := ex_trace1 ++ ex_trace5) in *.
  assert (Hr7 : ex_run ((tr ++ [ev_tau]) ++ [ev_tau]) x0 (x7 0)) by (eapply run_snoc; [eapply run_snoc; [exact Hr5|apply ex_step6]|apply ex_step7]).
  destruct (ex_read (x7 0)) as (x & s' & Hs); [vm_compute; exact eq_refl..|]. exists tr, x, s'.
  pose proof (run_snoc _ _ _ _ _ _ _ _ _ _ _ _ _ _ _ Hr7 Hs) as Hr. rewrite <- !app_assoc in Hr. split; [exact Hr|].
  exact (store_keeps_objects 1 2 (2 ^ 30) ltac:(lia) ex_put ex_ctx ex_zero fchunk0 foffset0 PstateMap.objmap0 foffset0 fchunk0_ok foffset0_ok objmap0_ok foffset0_ok
    ltac:(by apply Nat.ltb_lt) ltac:(by apply Nat.ltb_lt) ex_room _ x0 s' x0_fresh Hr (tr ++ [ev_tau; ev_tau]) (ev_read 77 x) [] ltac:(by rewrite <- app_assoc)).
Defined.

Lemma ex_no_crash : ev_crash ∉ ex_trace5.
Proof. intros Hin. unfold ex_trace5 in Hin. repeat (apply elem_of_cons in Hin as [Hin|Hin]; [discriminate Hin|]). by apply not_elem_of_nil in Hin. Qed.

(** A thread takes a stamp before the sync, and learns after it that there is nothing
    to wait for. *)
Lemma sync_user_durable_witness :
  pstate_sync_user ex_ctx 3 (ex_ts 0) (x5 1) = (Ok tt, false, x5 1) /\ as_of_begin cD ex_trace5 /\ ck_run ex_trace5 no_objects = no_objects.
Proof.
  assert (E : pstate_sync_user ex_ctx 3 (ex_ts 0) (x5 1) = (Ok tt, false, x5 1)).
  { unfold pstate_sync_user. assert (Eb : match ss_stable (x5 1) with Some (ts, _) => pstate_ts_decrypt ex_ctx (ex_ts 0) <? pstate_ts_decrypt ex_ctx ts | None => false end = true) by
      (vm_compute; exact eq_refl). rewrite Eb. exact eq_refl. }
  split; [exact E|]. split; [|exact eq_refl].
  assert (Et : pstate_ts_alloc ex_ctx (ss_counter (x1 0)) = (ex_ts 0, 1)) by (vm_compute; exact eq_refl).
  pose proof (sync_user_durable 1 2 (2 ^ 30) ex_put ex_ctx ex_zero fchunk0 foffset0 PstateMap.objmap0 foffset0 ex_trace1 ex_trace5 x0 (x1 0) (x5 1) (x5 1) 3 false) as Hd.
  rewrite Et in Hd. refine (Hd x0_fresh ex_run1 _ ex_no_crash _ E); [exact (ex_sync 1 (or_intror eq_refl) [] (x1 1) (run_nil _ _ _ _ _ _ _ _ _ _ _))|].
  apply Z.ltb_lt. vm_compute. exact eq_refl.
Defined.



(** On a partition of one page the sync keeps the lock, and nobody is woken. *)
Example small_partition :
  let s := mkSs (ss_store (x1 0)) None (ss_objs (x1 0)) 0 true [5; 6] idle in
  pstate_sync_stackwrap 1 2 4096 ex_ctx fchunk0 foffset0 PstateMap.objmap0 foffset0 ex_zero (Ok tt) true s = Ok s.
Proof. intros s. unfold pstate_sync_stackwrap, sync_begin. reflexivity. Qed.
