(* ===== verification/PstateObject.v ===== *)
(** * Syncs of a single object: [pstate_sync_object_stackwrap] of kern/kern/pstate.c

    A part of an object that was written to disk before can be written again, in
    place, without a global sync.  The part reaches the disk and nothing else
    changes; but the stamp is that of the whole object, the end of the part wraps
    around, and the header on disk keeps the old size. *)

From stdpp Require Import sorting list_numbers.
From S2P Require Import Prelude KState KObj KAs Dstack Log Blowfish BTree BTreeRep BTreeSearch Index Freelist FreelistSpace FreelistInv FreelistProofs Pstate PstateIO PstateInv PstateProofs PstateMap PstateSync PstateSpec PstateSim PstateSnap PstateCkpt PstateRun.
From stdpp Require Import options.

Set Default Goal Selector "!".

(** ** The code *)

Section model.
Context {T : Type} `{IndexOps T} (pd_size : Z) (ctx : bf_ctx).

(** A flush of the cache of the disk. *)
Definition disk_flush : PM (T := T) unit := fun s =>
  (match hd None (ps_io s) with None => Ok tt | Some _ => Err E_IO end,
   mkPst (ps_free s) (ps_objmap s) (ps_iobj s) (ps_disk s) (tail (ps_io s)) (ps_mem s) (ps_bufs s)).

(** The part of [pstate_sync_object_stackwrap] that uses the disk: whether the part of
    the snapshot from [start] on was written; it is not when the object has outgrown its
    extent.  The pages below the size of the object are there. *)
Definition sync_object_write (snap : snapshot) (start nbytes : Z) : PM (T := T) bool :=
  m ← pbtree_search BTREE_OBJMAP [hdr_get off_ko_id 8 (sn_buf snap)];
  off ← plift (res_nth m.2 0);
  mobj_nbytes ← plift (res_nth m.2 1);
  let sync_end := Z.min (u64 (start + nbytes)) (hdr_get off_ko_nbytes 8 (sn_buf snap)) in
  let req_disk_bytes := u64 (KOBJ_DISK_SIZE + ROUNDUP sync_end 512) in
  if mobj_nbytes <? req_disk_bytes then mret false
  else
    (fun s => (Ok tt, set_bufs (sn_buf snap :: sn_pages snap) s));;
    let x := mkIov [] 0 (u64 (off + KOBJ_DISK_SIZE + ROUNDDOWN start PGSIZE)) op_write in
    x ← sync_pages pd_size sync_end x (Z.to_nat (start / PGSIZE)) (Z.to_nat (ROUNDUP sync_end PGSIZE / PGSIZE - start / PGSIZE));
    pstate_iov_flush pd_size x;;
    disk_flush;;
    mret true.

(** Its start: the snapshot, which leaves the object as dirty as it was. *)
Definition object_begin (e : kent) : res kent :=
  let dirty := Z.land (ke_flags e) KOBJ_DIRTY in
  (do e <- snap_take e; Ok (raise dirty e))%res.

(** Its end: the stamp, when the part was written, and the release of the snapshot. *)
Definition object_end (sync_ts : Z) (ok : bool) (e : kent) : res kent :=
  let e := if ok then mkKent (ke_flags e) (ke_cur e) (ke_snap e) (ke_pin e) sync_ts (ke_maps e) (ke_pg_dirty e) else e in
  snap_release e.

(** The whole, when nothing comes in between: the threads that wait are woken, or a
    global sync is scheduled, which the second component tells.  The lock is held. *)
Definition pstate_sync_object_stackwrap (id start nbytes : Z) (s : sstate T) : res (sstate T * bool) :=
  match find_obj id (ss_objs s) with
  | None => Panic
  | Some e =>
      (do e <- object_begin e;
       let '(sync_ts, counter) := pstate_ts_alloc ctx (ss_counter s) in
       match sync_object_write (ke_snap e) start nbytes (ss_store s) with
       | (Panic, _) => Panic
       | (r, st) =>
           let ok := match r with Ok b => b | _ => false end in
           do e <- object_end sync_ts ok e;
           Ok (mkSs st (ss_stable s) (set_obj_ent id e (ss_objs s)) counter false (if ok then [] else ss_waiting s) (ss_phase s), negb ok)
       end)%res
  end.

Inductive scheduled := sched_none | sched_object (id start nbytes : Z) | sched_global.

(** [pstate_sync_object] for the thread [th], and the operation that it schedules. *)
Definition pstate_sync_object (th timestamp id start nbytes : Z) (s : sstate T) : res unit * scheduled * sstate T :=
  let wait := mkSs (ss_store s) (ss_stable s) (ss_objs s) (ss_counter s) (ss_lock s) (th :: ss_waiting s) (ss_phase s) in
  match ss_stable s, find_obj id (ss_objs s) with
  | None, _ => (Err E_RESTART, sched_global, wait)
  | Some _, None => (Panic, sched_none, s)
  | Some _, Some e =>
      if negb (ke_sync_ts e =? 0) && (pstate_ts_decrypt ctx timestamp <? pstate_ts_decrypt ctx (ke_sync_ts e)) then (Ok tt, sched_none, s)
      else (Err E_RESTART, sched_object id start nbytes, wait)
  end.
End model.

(** ** What is written *)

Definition snap_byte (snap : snapshot) (z : Z) : Z := nth (Z.to_nat (z mod PGSIZE)) (nth (Z.to_nat (z / PGSIZE)) (sn_pages snap) []) 0.

Section range.
Context (pages : list (list Z)) (buf : list Z) (e : Z).
Context (Hpages : Forall (fun p => length p = Z.to_nat PGSIZE) pages) (He : 0 <= e < 2 ^ 62).

Lemma roundup_512 a : 0 <= a < 2 ^ 62 + 2 ^ 61 -> ROUNDUP a 512 = 512 * ((a + 511) / 512).
Proof using Type.
  clear He Hpages. intros Ha. unfold ROUNDUP, u64. rewrite (Z.mod_small _ (2 ^ 64)) by lia. replace (a + 512 - 1) with (a + 511) by lia. pose proof (Z.div_mod (a + 511) 512 ltac:(lia)). lia.
Qed.

(** Page [i] is written whole, or up to the end. *)
Lemma page_bytes_end i : 0 < e - Z.of_nat i * PGSIZE -> page_bytes e i = Z.min (ROUNDUP e 512 - Z.of_nat i * PGSIZE) PGSIZE.
Proof using He.
  clear Hpages. intros Hi. unfold page_bytes, PGSIZE in *. assert (E : u64 (e - Z.of_nat i * 4096) = e - Z.of_nat i * 4096) by (apply Z.mod_small; lia). rewrite E, !roundup_512 by lia. f_equal.
  replace (e - Z.of_nat i * 4096 + 511) with (e + 511 + (- Z.of_nat i * 8) * 512) by lia. rewrite Z.div_add by lia. lia.
Qed.

Lemma range_ok n p :
  (p + n <= length pages)%nat -> Z.of_nat (p + n) * PGSIZE - PGSIZE < e <= Z.of_nat (p + n) * PGSIZE ->
  Forall (fits (buf :: pages)) (page_entries e p n) /\ ((0 < n)%nat -> iov_size (page_entries e p n) = ROUNDUP e 512 - Z.of_nat p * PGSIZE) /\
  forall k, 0 <= k < e - Z.of_nat p * PGSIZE -> nth (Z.to_nat k) (iov_data (buf :: pages) (page_entries e p n)) 0 = nth (Z.to_nat (k mod PGSIZE)) (nth (p + Z.to_nat (k / PGSIZE)) pages []) 0.
Proof using Type*.
  revert p. induction n as [|n IH]; intros p Hlen Hr.
  { split_and!; [constructor|lia|]. intros k Hk. lia. }
  pose proof (roundup_512 e ltac:(lia)) as HR. pose proof (Z.div_mod (e + 511) 512 ltac:(lia)) as Hdm. pose proof (Z.mod_pos_bound (e + 511) 512 ltac:(lia)) as Hmb.
  destruct (lookup_lt_is_Some_2 pages p ltac:(lia)) as [pg Hpg]. assert (Hlp : length pg = Z.to_nat PGSIZE) by (rewrite list.Forall_lookup in Hpages; by apply (Hpages p)).
  pose proof (nth_lookup_Some pages p [] pg Hpg) as Hnth.
  change (page_entries e p (S n)) with ((S p, page_bytes e p) :: page_entries e (S p) n). rewrite page_bytes_end by (unfold PGSIZE in *; lia).
  set (b := Z.min (ROUNDUP e 512 - Z.of_nat p * PGSIZE) PGSIZE) in *. assert (Hb : 0 < b <= PGSIZE) by (unfold b, PGSIZE in *; lia).
  destruct (IH (S p) ltac:(lia) ltac:(unfold PGSIZE in *; lia)) as (IH1 & IH2 & IH3). assert (Hfull : (0 < n)%nat -> b = PGSIZE) by (intros Hn; unfold b, PGSIZE in *; lia). split_and!.
  - constructor; [|done]. split; cbn [fst snd]; [lia|]. cbn [nth]. rewrite Hnth, Hlp. lia.
  - intros _. change (iov_size (?a :: ?l)) with (a.2 + iov_size l). cbn [snd]. destruct n as [|n]; [simpl; unfold b, PGSIZE in *; lia|]. rewrite IH2, Hfull by lia. unfold PGSIZE. lia.
  - intros k Hk. rewrite iov_data_cons. cbn [fst snd nth]. rewrite Hnth. destruct (Z.lt_ge_cases k b) as [Hlt|Hge].
    + rewrite app_nth1 by (rewrite length_take; lia). rewrite (Z.mod_small k), (Z.div_small k) by lia. change (Z.to_nat 0) with 0%nat. rewrite Nat.add_0_r, Hnth.
      rewrite !nth_lookup. f_equal. apply lookup_take_lt. lia.
    + destruct (Nat.eq_dec n 0%nat) as [->|Hn0]; [unfold b, PGSIZE in *; lia|]. rewrite Hfull in * by lia. rewrite app_nth2 by (rewrite length_take; lia). rewrite length_take, Hlp, Nat.min_id.
      replace (Z.to_nat k - Z.to_nat PGSIZE)%nat with (Z.to_nat (k - PGSIZE)) by (unfold PGSIZE; lia). rewrite IH3 by (unfold PGSIZE in *; lia).
      replace k with (k - PGSIZE + 1 * PGSIZE) at 3 4 by lia. rewrite Z.mod_add, Z.div_add by done. f_equal. f_equal. pose proof (Z.div_pos (k - PGSIZE) PGSIZE ltac:(lia) ltac:(done)). lia.
Qed.
End range.

(** ** Writing in place *)

(** ** The tail of an object *)

Section tail.
Context {T : Type} `{Index T}.

(** The tail of the last page is clear when it is not written. *)
Lemma clear_tail snap z :
  snap_ok snap -> sync_bytes (snap_nbytes snap) (sn_pages snap) = Ok (snap_nbytes snap) ->
  snap_nbytes snap <= z < Z.of_nat (length (sn_pages snap)) * PGSIZE -> snap_byte snap z = 0.
Proof.
  intros [_ Hpg Hn0 Hsz Hmax] Hsb Hz. set (n := snap_nbytes snap) in *. pose proof (Z.div_mod n PGSIZE ltac:(done)) as Hd. pose proof (Z.mod_pos_bound n PGSIZE ltac:(done)) as Hm.
  assert (Hg : PGOFF n = n mod PGSIZE) by done.
  unfold sync_bytes in Hsb. rewrite Hg in Hsb. destruct (Z.eqb_spec (n mod PGSIZE) 0) as [E|E].
  { exfalso. unfold PGSIZE in *. lia. }
  assert (Er : ROUNDDOWN n PGSIZE / PGSIZE = n / PGSIZE) by (unfold ROUNDDOWN; replace (n - n mod PGSIZE) with (n / PGSIZE * PGSIZE) by lia; by apply Z.div_mul).
  rewrite Er in Hsb. assert (Hzp : z / PGSIZE = n / PGSIZE) by (symmetry; apply (Z.div_unique z PGSIZE (n / PGSIZE) (z - PGSIZE * (n / PGSIZE))); unfold PGSIZE in *; lia).
  unfold res_nth in Hsb. destruct (sn_pages snap !! Z.to_nat (n / PGSIZE)) as [p|] eqn:Ep; [|done]. cbn [res_bind] in Hsb.
  destruct (forallb (Z.eqb 0) (drop (Z.to_nat (n mod PGSIZE)) p)) eqn:Ef.
  2:{ exfalso. injection Hsb as Hsb. unfold u64 in Hsb. rewrite Z.mod_small in Hsb by (unfold PGSIZE in *; lia). unfold PGSIZE in *. lia. }
  unfold snap_byte. rewrite Hzp, (nth_lookup_Some _ _ [] p Ep), nth_lookup. destruct (p !! Z.to_nat (z mod PGSIZE)) as [b|] eqn:Eb; [|done]. simpl.
  rewrite forallb_forall in Ef. symmetry. apply Z.eqb_eq, Ef, list_elem_of_In, list_elem_of_lookup. exists (Z.to_nat (z mod PGSIZE) - Z.to_nat (n mod PGSIZE))%nat.
  rewrite lookup_drop, <- Eb. f_equal. pose proof (Z.div_mod z PGSIZE ltac:(done)). rewrite Hzp in *. lia.
Qed.

(** What a swap-out writes when the tail is clear. *)
Lemma stored_outside ts snap d off d' z :
  snap_ok snap -> sync_bytes (snap_nbytes snap) (sn_pages snap) = Ok (snap_nbytes snap) -> stored ts snap d off d' ->
  KOBJ_DISK_SIZE + ROUNDUP (snap_nbytes snap) 512 <= z -> d' (off + z) = d (off + z).
Proof.
  intros [Hbuf Hpg Hn0 Hsz Hmax] Hsb (b & Eb & Hd) Hz. rewrite Hsb in Eb. injection Eb as <-. rewrite Hd. apply put_bytes_out.
  set (N := length (sn_pages snap)) in *. set (n := snap_nbytes snap) in *. rewrite iov_data_cons, length_app. cbn [fst snd nth].
  rewrite length_take, length_sync_header by done. destruct (Nat.eq_dec N 0%nat) as [E0|E0].
  - rewrite E0 in *. simpl. pose proof (roundup_512 n ltac:(lia)). pose proof (Z.div_mod (n + 511) 512 ltac:(lia)). pose proof (Z.mod_pos_bound (n + 511) 512 ltac:(lia)).
    unfold KOBJ_DISK_SIZE, PGSIZE in *. simpl. lia.
  - destruct (range_ok (sn_pages snap) (sync_header ts (sn_buf snap)) n Hpg ltac:(lia) N 0 ltac:(lia) ltac:(lia)) as (Hfit & Hsize & _).
    pose proof (length_iov_data _ _ Hfit) as Hl. rewrite Hsize in Hl by lia. unfold KOBJ_DISK_SIZE, PGSIZE in *. lia.
Qed.

(** C28: the tail of the last page is not written when it is clear, and is read back from
    the disk.  The record of an object has its size rounded up to whole pages, so the
    swap-in reads whole pages, and does not clear the part that was not written: for
    every object whose last page is zero beyond its end, after a swap-out of it has
    succeeded, a swap-in returns, from the next multiple of 512 after the end of the
    object on, not the zeros of memory but the bytes that the disk had there before. *)
Theorem swapin_returns_stale_tail (calm : Prop) cap fuel pd_size put_page ts snap (s s' : pst T) O I F M P N3 N4 mem :
  0 <= pd_size < 2 ^ 63 -> pinv calm cap pd_size s O I F M P N3 N4 -> (calm -> (2 * (1 + size N3 + size N4) <= pages_left s)%nat) ->
  snap_ok snap -> big F (kobj_bytes fuel (disk_bytes snap) + 1) -> (forall i, (i < length (sn_pages snap))%nat -> put_page i = Ok tt) ->
  sync_bytes (snap_nbytes snap) (sn_pages snap) = Ok (snap_nbytes snap) -> pstate_sync_kobj fuel pd_size ts snap s = (Ok tt, s') ->
  Forall (fun p => length p = Z.to_nat PGSIZE) mem -> (length (sn_pages snap) < length mem)%nat ->
  exists off sn s'', pstate_swapin_id pd_size put_page true (snap_id snap) (with_mem mem s') = (Ok sn, s'') /\
    sn_buf sn = bytes_at (ps_disk s') off (Z.to_nat KOBJ_DISK_SIZE) /\
    forall z, ROUNDUP (snap_nbytes snap) 512 <= z < Z.of_nat (length (sn_pages snap)) * PGSIZE ->
      snap_byte snap z = 0 /\ snap_byte sn z = ps_disk s (off + KOBJ_DISK_SIZE + z).
Proof.
  intros Hpd HI Hp Hso Hb Hput Hsb E Hmem Hlen. pose proof (sync_kobj_ok calm cap fuel pd_size Hpd ts snap s O I F M P N3 N4 1 HI Hp Hso Hb ltac:(lia)) as Hw. rewrite E in Hw.
  destruct Hw as (off & Hmv & Hst). destruct Hmv as (F1 & F' & M' & P' & N3' & N4' & _ & HI' & _).
  assert (HI1 : pinv calm cap pd_size (with_mem mem s') _ _ F' M' P' N3' N4') by (eapply (pinv_same calm cap pd_size s'); [done|exact HI']).
  pose proof (objmap_NoDup _ _ _ (pi_objmap _ _ _ _ _ _ _ _ _ _ _ HI1)) as Hnd. pose proof (stored_content _ _ _ _ _ Hso Hst) as Hc.
  destruct (swapin_content calm cap pd_size put_page (snap_id snap) (off, disk_bytes snap) snap _ _ _ _ _ _ _ (with_mem mem s') Hpd HI1 Hnd ltac:(left) Hc Hso eq_refl Hmem) as
    (sn & s'' & Es & _ & Eb); [split_and!; [done|simpl; lia|done]|].
  pose proof (swapin_raw calm cap pd_size put_page (snap_id snap) _ _ _ _ _ _ _ (with_mem mem s') Hpd HI1 Hmem) as Hraw. rewrite Es in Hraw.
  destruct Hraw as (off' & N & Hin & _ & Epg & _).
  assert (Eoff : (off, disk_bytes snap) = (off', KOBJ_DISK_SIZE + Z.of_nat N * PGSIZE)) by (eapply elem_of_unique; [exact Hnd|left|exact Hin]).
  injection Eoff as <- EN. assert (N = length (sn_pages snap)) as -> by (unfold disk_bytes, PGSIZE in EN; lia).
  exists off, sn, s''. split; [done|]. split; [exact Eb|]. intros z Hz. pose proof (so_nbytes _ Hso) as Hn0. pose proof (so_size _ Hso) as Hsz. pose proof (so_max _ Hso) as Hmax.
  pose proof (roundup_512 (snap_nbytes snap) ltac:(lia)) as HR. pose proof (Z.div_mod (snap_nbytes snap + 511) 512 ltac:(lia)). pose proof (Z.mod_pos_bound (snap_nbytes snap + 511) 512 ltac:(lia)).
  split; [apply clear_tail; [done|done|lia]|]. replace (off + KOBJ_DISK_SIZE + z) with (off + (KOBJ_DISK_SIZE + z)) by lia.
  rewrite <- (stored_outside ts snap (ps_disk s) off (ps_disk s') (KOBJ_DISK_SIZE + z) Hso Hsb Hst) by lia. unfold snap_byte. rewrite Epg. unfold pages_at.
  pose proof (Z.div_mod z PGSIZE ltac:(done)) as Hdz. pose proof (Z.mod_pos_bound z PGSIZE ltac:(done)) as Hmz. pose proof (Z.div_pos z PGSIZE ltac:(lia) ltac:(done)) as Hpz.
  assert (Hlt : (Z.to_nat (z / PGSIZE) < length (sn_pages snap))%nat) by (assert (z / PGSIZE < Z.of_nat (length (sn_pages snap))); [apply Z.div_lt_upper_bound; [done|lia]|lia]).
  erewrite (nth_lookup_Some _ (Z.to_nat (z / PGSIZE))) by (rewrite list_lookup_fmap, lookup_seq_lt by exact Hlt; reflexivity).
  unfold bytes_at. erewrite nth_lookup_Some by (rewrite list_lookup_fmap, lookup_seq_lt by (unfold PGSIZE in *; lia); reflexivity). f_equal. cbn [with_mem ps_disk]. unfold PGSIZE in *. lia.
Qed.
End tail.

(** Two extents of the object map are those of one object, or apart. *)
Lemma extents_apart {T} `{Index T} pd_size (s : pst T) O I F M P N3 N4 i a j b :
  store_ok pd_size s O I F M P N3 N4 -> ((i, a) ∈ O) -> ((j, b) ∈ O) -> (i = j /\ a = b) \/ (i <> j /\ disjoint_ext a b).
Proof.
  intros HI Ha Hb. pose proof (objmap_NoDup _ _ _ (pi_objmap _ _ _ _ _ _ _ _ _ _ _ HI)) as Hnd. pose proof (pi_space _ _ _ _ _ _ _ _ _ _ _ HI) as HS.
  apply elem_of_Permutation in Ha as [O' HO]. rewrite HO in Hb. apply elem_of_cons in Hb as [[= -> ->]|Hb]; [by left|]. right.
  assert (Hnd' : NoDup (i :: O'.*1)) by (change (i :: O'.*1) with ((i, a) :: O').*1; by rewrite <- HO). apply list.NoDup_cons in Hnd' as [Hni _]. split.
  - intros ->. apply Hni. by apply (list_elem_of_fmap_2 fst _ (j, b)).
  - unfold held in HS. rewrite HO in HS. cbn [fmap list_fmap snd] in HS. rewrite app_assoc, (Permutation_app_comm (owned F M P)) in HS. cbn [app] in HS.
    eapply space_disjoint_elem; [exact HS|]. rewrite !elem_of_app. left. left. by apply (list_elem_of_fmap_2 snd _ (j, b)).
Qed.

Section inplace.
Context {T : Type} `{Index T} (pd_size : Z) (Hpd : 0 <= pd_size < 2 ^ 63).

Lemma object_flush_ok (s : pst T) : match disk_flush s with
  | (Ok _, s') => same s s' /\ ps_disk s' = ps_disk s
  | (Err e, s') => e = E_IO /\ same s s' /\ ps_disk s' = ps_disk s
  | (Panic, _) => False
  end.
Proof using Type. unfold disk_flush. by destruct (hd None (ps_io s)). Qed.

(** The transfer and the flush; [p] is the first page and [n] the number of pages. *)
Lemma range_write_ok buf pages (e off : Z) (p n : nat) (s : pst T) :
  Forall (fun p => length p = Z.to_nat PGSIZE) pages -> 0 <= e < 2 ^ 62 ->
  ((0 < n)%nat -> (p + n <= length pages)%nat /\ Z.of_nat (p + n) * PGSIZE - PGSIZE < e <= Z.of_nat (p + n) * PGSIZE) -> (n = 0%nat -> e <= Z.of_nat p * PGSIZE) ->
  0 <= off -> off + ROUNDUP e 512 <= pd_size -> ps_bufs s = buf :: pages ->
  match (x ← sync_pages pd_size e (mkIov [] 0 (u64 (off + Z.of_nat p * PGSIZE)) op_write) p n; pstate_iov_flush pd_size x;; disk_flush;; mret true) s with
  | (Ok b, s') => b = true /\ same s s' /\ only_in (ps_disk s) (ps_disk s') (off + Z.of_nat p * PGSIZE) (ROUNDUP e 512 - Z.of_nat p * PGSIZE) /\
      forall z, Z.of_nat p * PGSIZE <= z < e -> ps_disk s' (off + z) = nth (Z.to_nat (z mod PGSIZE)) (nth (Z.to_nat (z / PGSIZE)) pages []) 0
  | (Err er, s') => er = E_IO /\ same s s' /\ only_in (ps_disk s) (ps_disk s') (off + Z.of_nat p * PGSIZE) (ROUNDUP e 512 - Z.of_nat p * PGSIZE)
  | (Panic, _) => False
  end.
Proof using Type*.
  intros Hpages He Hr Hr0 Ho Hend Hb. destruct n as [|n].
  { cbn [sync_pages]. unfold mbind, PM_bind, mret, PM_ret, pstate_iov_flush. cbn [iov_bytes]. rewrite Z.ltb_irrefl. unfold mbind, PM_bind, mret, PM_ret.
    pose proof (object_flush_ok s) as Hf. specialize (Hr0 eq_refl). destruct (disk_flush s) as [[[]| |] s']; [| |done].
    - destruct Hf as [Hs Hd]. split_and!; [done..|by intros z Hz; rewrite Hd|intros z Hz; lia].
    - destruct Hf as (-> & Hs & Hd). split_and!; [done..|by intros z Hz; rewrite Hd]. }
  destruct (Hr ltac:(lia)) as [Hpn Hr']. destruct (range_ok pages buf e Hpages He (S n) p Hpn Hr') as (Hfit & Hsize & Hdata). specialize (Hsize ltac:(lia)).
  set (off0 := off + Z.of_nat p * PGSIZE) in *. set (m := ROUNDUP e 512 - Z.of_nat p * PGSIZE) in *.
  assert (Hm : 0 <= m) by (rewrite <- Hsize; apply (iov_size_bounds (buf :: pages)), Hfit).
  assert (Hoff0 : 0 <= off0) by (unfold off0, PGSIZE; lia). assert (E0 : u64 off0 = off0) by (apply Z.mod_small; lia). rewrite E0.
  assert (Hw0 : writing (ps_disk s) off0 (buf :: pages) [] (mkIov [] 0 off0 op_write) s).
  { split; simpl; try done; [|lia|lia]. intros z. rewrite put_bytes_out; [done|]. simpl. lia. }
  unfold mbind at 1, PM_bind at 1.
  pose proof (sync_pages_ok pd_size Hpd (ps_disk s) off0 (buf :: pages) e (S n) p [] _ s m Hw0 Hfit ltac:(simpl iov_buf; simpl app; change (iov_size []) with 0; lia) ltac:(lia)) as Hp.
  destruct (sync_pages pd_size e _ p (S n) s) as [[x2|er|] s2]; [| |done].
  2:{ destruct Hp as (-> & Hd2 & Hs2). done. }
  destruct Hp as (L2 & Hw2 & HL2 & Hs2). simpl app in HL2. unfold mbind at 1, PM_bind at 1.
  pose proof (flush_write_ok pd_size Hpd (ps_disk s) off0 (buf :: pages) L2 x2 s2 m Hw2 ltac:(rewrite HL2; lia) ltac:(lia)) as Hfl. rewrite HL2 in Hfl.
  destruct (pstate_iov_flush pd_size x2 s2) as [[x3|er|] s3]; [| |done].
  2:{ destruct Hfl as (-> & Hd3 & Hs3). split_and!; [done|by eapply same_trans|done]. }
  destruct Hfl as (Hw3 & _ & Hs3). pose proof (wr_disk _ _ _ _ _ _ Hw3) as Hd3. pose proof (length_iov_data _ _ Hfit) as Hlen. rewrite Hsize in Hlen.
  assert (Honly : forall d', d' = ps_disk s3 -> only_in (ps_disk s) d' off0 m) by (intros d' -> z Hz; rewrite Hd3; apply put_bytes_out; lia).
  assert (Hss : same s s3) by (by eapply same_trans). unfold mbind, PM_bind, mret, PM_ret. pose proof (object_flush_ok s3) as Hf. destruct (disk_flush s3) as [[[]| |] s4]; [| |done].
  - destruct Hf as [Hs4 Hd4]. split_and!; [done|by eapply same_trans|by apply Honly|]. intros z Hz. pose proof (roundup_512 e ltac:(lia)) as HR.
    pose proof (Z.div_mod (e + 511) 512 ltac:(lia)). pose proof (Z.mod_pos_bound (e + 511) 512 ltac:(lia)).
    rewrite Hd4, Hd3, put_bytes_in by (rewrite Hlen; unfold off0, m; lia). replace (off + z - off0) with (z - Z.of_nat p * PGSIZE) by (unfold off0; lia).
    rewrite Hdata by lia. replace (z - Z.of_nat p * PGSIZE) with (z + (- Z.of_nat p) * PGSIZE) by lia. rewrite Z.mod_add, Z.div_add by done. f_equal. f_equal.
    pose proof (Z.div_le_lower_bound z PGSIZE (Z.of_nat p) ltac:(done) ltac:(lia)). lia.
  - destruct Hf as (-> & Hs4 & Hd4). split_and!; [done|by eapply same_trans|by apply Honly].
Qed.

(** The end of the part that is written: the sum is one of 64 bits. *)
Definition part_end (snap : snapshot) (start nbytes : Z) : Z := Z.min (u64 (start + nbytes)) (snap_nbytes snap).

Lemma part_end_bounds snap start nbytes : snap_ok snap -> 0 <= part_end snap start nbytes <= snap_nbytes snap.
Proof using Type. intros [_ _ ? _ _]. unfold part_end, u64. pose proof (Z.mod_pos_bound (start + nbytes) (2 ^ 64) ltac:(lia)). lia. Qed.

Lemma sync_object_write_ok snap start nbytes (s : pst T) O I F M P N3 N4 :
  store_ok pd_size s O I F M P N3 N4 -> snap_ok snap -> 0 <= start ->
  match sync_object_write pd_size snap start nbytes s with
  | (Panic, _) => False
  | (r, s') => same s s' /\
      (s' = s /\ r <> Ok true \/
       exists off n, ((snap_id snap, (off, n)) ∈ O) /\ KOBJ_DISK_SIZE + ROUNDUP (part_end snap start nbytes) 512 <= n /\
         only_in (ps_disk s) (ps_disk s') (off + KOBJ_DISK_SIZE + ROUNDDOWN start PGSIZE) (ROUNDUP (part_end snap start nbytes) 512 - ROUNDDOWN start PGSIZE) /\
         (r = Ok true -> forall z, start <= z < part_end snap start nbytes -> ps_disk s' (off + KOBJ_DISK_SIZE + z) = snap_byte snap z))
  end.
Proof using Type*.
  intros HI Hso Hs0. pose proof Hso as [_ Hpg Hnb Hsz Hmax]. unfold sync_object_write. unfold mbind at 1, PM_bind at 1. fold (snap_id snap) (snap_nbytes snap).
  destruct (pbtree_search BTREE_OBJMAP [snap_id snap] s) as [r s1] eqn:Es. assert (s1 = s) as -> by (by injection Es).
  destruct (objmap_search _ s O N3 r (pi_objmap _ _ _ _ _ _ _ _ _ _ _ HI) Es) as [([off n] & Hin & ->)|[_ ->]]; [|split; [done|by left]].
  unfold objkv, mbind at 1 2, PM_bind at 1 2, plift. cbn [snd fst]. change (res_nth [off; n] 0) with (@Ok Z off). change (res_nth [off; n] 1) with (@Ok Z n). cbn [snd fst].
  fold (part_end snap start nbytes). pose proof (part_end_bounds snap start nbytes Hso) as He. set (e := part_end snap start nbytes) in *.
  pose proof (roundup_512 e ltac:(lia)) as HR. pose proof (Z.div_mod (e + 511) 512 ltac:(lia)) as Hdm. pose proof (Z.mod_pos_bound (e + 511) 512 ltac:(lia)) as Hmb.
  assert (E2 : u64 (KOBJ_DISK_SIZE + ROUNDUP e 512) = KOBJ_DISK_SIZE + ROUNDUP e 512) by (apply Z.mod_small; unfold KOBJ_DISK_SIZE; lia). rewrite E2.
  destruct (Z.ltb_spec n (KOBJ_DISK_SIZE + ROUNDUP e 512)) as [Hlt|Hge]; [unfold mret, PM_ret; split; [done|by left]|].
  destruct (extent_fits False 0 pd_size s O I F M P N3 N4 (off, n) HI) as (Ho1 & _ & Ho2).
  { rewrite elem_of_app. right. unfold held. rewrite elem_of_app. left. by apply (list_elem_of_fmap_2 snd _ (snap_id snap, (off, n))). }
  simpl in Ho1, Ho2. unfold mbind at 1, PM_bind at 1. set (s1 := set_bufs _ s). pose proof (Z.div_mod start PGSIZE ltac:(done)) as Hd1.
  pose proof (Z.mod_pos_bound start PGSIZE ltac:(done)) as Hd2. pose proof (Z.div_pos start PGSIZE Hs0 ltac:(done)) as Hd3. set (p := Z.to_nat (start / PGSIZE)).
  assert (Ep : Z.of_nat p = start / PGSIZE) by (unfold p; lia). assert (ERD : ROUNDDOWN start PGSIZE = Z.of_nat p * PGSIZE) by (unfold ROUNDDOWN; lia). rewrite ERD.
  assert (ERU : ROUNDUP e PGSIZE / PGSIZE = (e + (PGSIZE - 1)) / PGSIZE).
  { unfold ROUNDUP, u64. rewrite (Z.mod_small _ (2 ^ 64)) by (unfold PGSIZE; lia). replace (e + PGSIZE - 1) with (e + (PGSIZE - 1)) by lia.
    pose proof (Z.div_mod (e + (PGSIZE - 1)) PGSIZE ltac:(done)). replace (e + (PGSIZE - 1) - (e + (PGSIZE - 1)) mod PGSIZE) with ((e + (PGSIZE - 1)) / PGSIZE * PGSIZE) by lia.
    by apply Z.div_mul. }
  rewrite ERU, <- Ep. pose proof (Z.div_mod (e + (PGSIZE - 1)) PGSIZE ltac:(done)) as Hc1. pose proof (Z.mod_pos_bound (e + (PGSIZE - 1)) PGSIZE ltac:(done)) as Hc2.
  set (c := (e + (PGSIZE - 1)) / PGSIZE) in *. set (k := Z.to_nat (c - Z.of_nat p)).
  pose proof (range_write_ok (sn_buf snap) (sn_pages snap) e (off + KOBJ_DISK_SIZE) p k s1 Hpg ltac:(lia)) as Hw.
  change (ps_disk s1) with (ps_disk s) in Hw.
  specialize (Hw ltac:(intros Hk; unfold k, PGSIZE in *; lia) ltac:(intros Hk; unfold k, PGSIZE in *; lia) ltac:(unfold KOBJ_DISK_SIZE; lia) ltac:(lia) eq_refl).
  match type of Hw with match ?m with _ => _ end => destruct m as [[b|er|] s'] end; [| |done].
  - destruct Hw as (-> & Hs & Hd & Hz). split; [by apply (same_trans s s1)|]. right. exists off, n. split_and!; [done..|]. intros _ z Hz'. apply Hz. unfold PGSIZE in *. lia.
  - destruct Hw as (-> & Hs & Hd). split; [by apply (same_trans s s1)|]. right. exists off, n. by split_and!.
Qed.
(** A part that ends before its first page: only the flush. *)
Lemma empty_part_ok snap start nbytes (s : pst T) O I F M P N3 N4 off n :
  store_ok pd_size s O I F M P N3 N4 -> snap_ok snap -> 0 <= start -> ((snap_id snap, (off, n)) ∈ O) ->
  KOBJ_DISK_SIZE + ROUNDUP (part_end snap start nbytes) 512 <= n -> ps_io s = [] -> u64 (start + nbytes) <= ROUNDDOWN start PGSIZE ->
  exists s', sync_object_write pd_size snap start nbytes s = (Ok true, s') /\ ps_disk s' = ps_disk s.
Proof using Type*.
  intros HI Hso Hs0 Hin Hfit Hio Hwrap. pose proof Hso as [_ _ _ Hsz Hmax]. unfold sync_object_write. unfold mbind at 1, PM_bind at 1. fold (snap_id snap) (snap_nbytes snap).
  destruct (pbtree_search BTREE_OBJMAP [snap_id snap] s) as [r s1] eqn:Es. assert (s1 = s) as -> by (by injection Es).
  destruct (objmap_search _ s O N3 r (pi_objmap _ _ _ _ _ _ _ _ _ _ _ HI) Es) as [([off' n'] & Hin' & ->)|[Hno _]].
  2:{ destruct Hno. by apply (list_elem_of_fmap_2 fst _ (snap_id snap, (off, n))). }
  assert (E : (off', n') = (off, n)).
  { by destruct (extents_apart _ _ _ _ _ _ _ _ _ _ _ _ _ HI Hin' Hin) as [[_ E]|[Hne _]]. }
  injection E as -> ->.
  unfold objkv, mbind at 1 2, PM_bind at 1 2, plift. cbn [snd fst]. change (res_nth [off; n] 0) with (@Ok Z off). change (res_nth [off; n] 1) with (@Ok Z n). cbn [snd fst].
  fold (part_end snap start nbytes). pose proof (part_end_bounds snap start nbytes Hso) as He. assert (Hle : part_end snap start nbytes <= ROUNDDOWN start PGSIZE) by (unfold part_end; lia).
  set (e := part_end snap start nbytes) in *. pose proof (roundup_512 e ltac:(lia)) as HR. pose proof (Z.div_mod (e + 511) 512 ltac:(lia)) as Hdm. pose proof (Z.mod_pos_bound (e + 511) 512 ltac:(lia)) as Hmb.
  assert (E2 : u64 (KOBJ_DISK_SIZE + ROUNDUP e 512) = KOBJ_DISK_SIZE + ROUNDUP e 512) by (apply Z.mod_small; unfold KOBJ_DISK_SIZE; lia). rewrite E2.
  rewrite (proj2 (Z.ltb_ge _ _) Hfit). pose proof (Z.div_mod start PGSIZE ltac:(done)) as Hd1.
  assert (Ek : Z.to_nat (ROUNDUP e PGSIZE / PGSIZE - start / PGSIZE) = 0%nat).
  { assert (ROUNDUP e PGSIZE / PGSIZE <= start / PGSIZE); [|lia]. apply Z.div_le_upper_bound; [done|].
    unfold ROUNDUP, u64, ROUNDDOWN in *. rewrite (Z.mod_small _ (2 ^ 64)) by (unfold PGSIZE; lia). pose proof (Z.div_mod (e + PGSIZE - 1) PGSIZE ltac:(done)).
    assert ((e + PGSIZE - 1) / PGSIZE < start / PGSIZE + 1); [apply Z.div_lt_upper_bound; [done|]|]; unfold PGSIZE in *; lia. }
  rewrite Ek. cbn [sync_pages]. unfold mbind, PM_bind, mret, PM_ret, pstate_iov_flush. cbn [iov_bytes]. rewrite Z.ltb_irrefl. unfold mbind, PM_bind, mret, PM_ret, disk_flush.
  unfold set_bufs. cbn [ps_io]. rewrite Hio. cbn [hd]. by eexists.
Qed.
End inplace.

(** ** The object in memory *)

Lemma object_begin_ok e : snap_ok (ke_cur e) -> has e KOBJ_SNAPSHOTING = false ->
  exists e', object_begin e = Ok e' /\ ke_cur e' = ke_cur e /\ snap_ok (ke_snap e') /\ snap_id (ke_snap e') = ke_id e /\ snap_nbytes (ke_snap e') = snap_nbytes (ke_cur e) /\
    sn_pages (ke_snap e') = sn_pages (ke_cur e) /\ ke_pin e' = ke_pin e + 1 /\ ke_sync_ts e' = ke_sync_ts e /\ has e' KOBJ_DIRTY = has e KOBJ_DIRTY /\ has e' KOBJ_SNAPSHOTING = true.
Proof.
  intros Hs Hn. destruct (snap_take e) as [e1| |] eqn:Et; [|by unfold snap_take in Et; rewrite Hn in Et..].
  destruct (snap_take_eq _ _ Hs Et) as (G1 & [Gh _] & G3 & _ & G4 & _ & _ & G7 & G8 & _). apply hdr_eq_fields in Gh as (H1 & H2 & _).
  assert (Hp : sn_pages (ke_snap e1) = sn_pages (ke_cur e) /\ ke_sync_ts e1 = ke_sync_ts e) by (unfold snap_take in Et; rewrite Hn in Et; by injection Et as <-).
  destruct Hp as [Hp Ht]. eexists. unfold object_begin. rewrite Et. cbn [res_bind]. split; [done|]. split_and!; try done.
  - flags. rewrite G7. simpl. unfold flag_in. by rewrite <- Z.land_assoc.
  - flags. by rewrite G8.
Qed.

Lemma object_end_ok ts ok e : has e KOBJ_SNAPSHOTING = true ->
  exists e', object_end ts ok e = Ok e' /\ ke_cur e' = ke_cur e /\ ke_pin e' = ke_pin e - 1 /\ has e' KOBJ_DIRTY = has e KOBJ_DIRTY /\ has e' KOBJ_SNAPSHOTING = false /\
    ke_sync_ts e' = if ok then ts else ke_sync_ts e.
Proof.
  intros Hs. unfold object_end. set (e1 := if ok then _ else e). assert (Hf : has e1 KOBJ_SNAPSHOTING = true) by (unfold e1; by destruct ok).
  destruct (snap_release e1) as [e2| |] eqn:Er; [|by unfold snap_release in Er; rewrite Hf in Er..].
  destruct (snap_release_flags _ _ Er) as (_ & G1 & _ & G3 & _ & G5 & G6). exists e2. split; [done|]. rewrite G1, G3, G6, G5 by set_solver.
  unfold snap_release in Er. rewrite Hf in Er. injection Er as <-. unfold e1. by destruct ok.
Qed.

Section claims.
Context {T : Type} `{Index T} (pd_size : Z) (Hpd : 0 <= pd_size < 2 ^ 63) (ctx : bf_ctx).

(** The outcome of a sync of a part, [upto] being its end. *)
Record in_place (id start upto : Z) (s s' : sstate T) (e e' : kent) (O : list (Z * (Z * Z))) (global : bool) : Prop := {
  ip_lock : ss_lock s' = false;
  ip_stable : ss_stable s' = ss_stable s;
  ip_objs : ss_objs s' = set_obj_ent id e' (ss_objs s);
  ip_cur : ke_cur e' = ke_cur e /\ ke_pin e' = ke_pin e /\ has e' KOBJ_DIRTY = has e KOBJ_DIRTY /\ has e' KOBJ_SNAPSHOTING = false;
  ip_others : forall i off n z, ((i, (off, n)) ∈ O) -> off <= z < off + n ->
    i <> id \/ ~ (off + KOBJ_DISK_SIZE + ROUNDDOWN start PGSIZE <= z < off + KOBJ_DISK_SIZE + ROUNDUP upto 512) ->
    ps_disk (ss_store s') z = ps_disk (ss_store s) z;
  ip_done :
    if global then ke_sync_ts e' = ke_sync_ts e /\ ss_waiting s' = ss_waiting s
    else ke_sync_ts e' = (pstate_ts_alloc ctx (ss_counter s)).1 /\ ss_waiting s' = [] /\
      exists off n, ((id, (off, n)) ∈ O) /\ forall z, start <= z < upto -> ps_disk (ss_store s') (off + KOBJ_DISK_SIZE + z) = snap_byte (ke_cur e) z;
}.

Lemma in_place_ok id start nbytes (s : sstate T) e O I F M P N3 N4 :
  store_ok pd_size (ss_store s) O I F M P N3 N4 -> find_obj id (ss_objs s) = Some e -> snap_ok (ke_cur e) -> has e KOBJ_SNAPSHOTING = false -> 0 <= start ->
  exists s' global e', pstate_sync_object_stackwrap pd_size ctx id start nbytes s = Ok (s', global) /\
    store_ok pd_size (ss_store s') O I F M P N3 N4 /\ in_place id start (part_end (ke_cur e) start nbytes) s s' e e' O global.
Proof using Type*.
  intros HI Hf Hso Hn Hs0. set (upto := part_end (ke_cur e) start nbytes). destruct (find_obj_Some _ _ _ Hf) as [_ Hid]. destruct (object_begin_ok e Hso Hn) as (e1 & E1 & B1 & B2 & B3 & B4 & B5 & B6 & B7 & B8 & B9).
  unfold pstate_sync_object_stackwrap. rewrite Hf, E1. cbn [res_bind]. destruct (pstate_ts_alloc ctx (ss_counter s)) as [ts counter] eqn:Ets.
  pose proof (sync_object_write_ok pd_size Hpd (ke_snap e1) start nbytes (ss_store s) O I F M P N3 N4 HI B2 Hs0) as Hw.
  assert (Hup : part_end (ke_snap e1) start nbytes = upto) by (unfold part_end, upto; by rewrite B4). rewrite Hup, B3, Hid in Hw.
  assert (Hby : forall z, snap_byte (ke_snap e1) z = snap_byte (ke_cur e) z) by (intros z; unfold snap_byte; by rewrite B5).
  assert (Hkeep : forall r (st : pst T), r <> Panic -> sync_object_write pd_size (ke_snap e1) start nbytes (ss_store s) = (r, st) ->
    store_ok pd_size st O I F M P N3 N4 /\ (forall i off n z, ((i, (off, n)) ∈ O) -> off <= z < off + n ->
      i <> id \/ ~ (off + KOBJ_DISK_SIZE + ROUNDDOWN start PGSIZE <= z < off + KOBJ_DISK_SIZE + ROUNDUP upto 512) -> ps_disk st z = ps_disk (ss_store s) z)).
  { intros r st Hr Ew. rewrite Ew in Hw. assert (Hw' : same (ss_store s) st /\ (st = ss_store s \/ exists off n, ((id, (off, n)) ∈ O) /\ KOBJ_DISK_SIZE + ROUNDUP upto 512 <= n /\
      only_in (ps_disk (ss_store s)) (ps_disk st) (off + KOBJ_DISK_SIZE + ROUNDDOWN start PGSIZE) (ROUNDUP upto 512 - ROUNDDOWN start PGSIZE))).
    { destruct r as [b|er|]; [| |done]; (destruct Hw as [Hs [[-> _]|(off & n & ? & ? & ? & _)]]; split; [done|by left|done|right; by exists off, n]). }
    destruct Hw' as [Hs Hd]. split; [by eapply pinv_same|]. intros i off n z Hin Hz Hout. destruct Hd as [->|(off0 & n0 & Hin0 & Hn' & Hd)]; [done|]. apply Hd.
    assert (0 <= ROUNDDOWN start PGSIZE) by (unfold ROUNDDOWN, PGSIZE; pose proof (Z.mod_le start 4096 Hs0 ltac:(lia)); lia). unfold KOBJ_DISK_SIZE in *.
    destruct (extents_apart _ _ _ _ _ _ _ _ _ _ _ _ _ HI Hin Hin0) as [[-> [= <- <-]]|[_ Hdj]]; [destruct Hout; [done|lia]|]. unfold disjoint_ext in Hdj. simpl in Hdj. lia. }
  destruct (sync_object_write pd_size (ke_snap e1) start nbytes (ss_store s)) as [[b|er|] st]; [| |done].
  - destruct (Hkeep (Ok b) st ltac:(done) eq_refl) as [K1 K2]. destruct (object_end_ok ts b e1 B9) as (e2 & E2 & D1 & D2 & D3 & D4 & D5). rewrite E2. cbn [res_bind].
    eexists _, _, e2. split; [done|]. split; [done|]. split; cbn [ss_store ss_lock ss_objs ss_waiting]; [done..|split_and!; [congruence|lia|congruence|done]|exact K2|]. rewrite D5. destruct b; [|by cbn [negb]].
    cbn [negb]. rewrite Ets. split_and!; [done..|]. destruct Hw as [_ [[_ Hne]|(off & n & Hin & _ & _ & Hz)]]; [done|]. exists off, n. split; [done|]. intros z Hz'. rewrite <- Hby. by apply Hz.
  - destruct (Hkeep (Err er) st ltac:(done) eq_refl) as [K1 K2]. destruct (object_end_ok ts false e1 B9) as (e2 & E2 & D1 & D2 & D3 & D4 & D5). rewrite E2. cbn [res_bind].
    eexists _, _, e2. split; [done|]. split; [done|].
    split; cbn [ss_store ss_lock ss_objs ss_waiting negb]; [done..|split_and!; [congruence|lia|congruence|done]|exact K2|split; [congruence|done]].
Qed.

(** C20: a sync of a part of an object writes in place and nothing else.  Whatever the
    disk does, it ends without a panic and releases the lock, the object map and the
    free space stay as they are, the object in memory keeps its contents and is as
    dirty as before, and on the disk no byte of another object changes, nor one of
    this object outside of the pages of the part.  When it does not ask for a global
    sync instead, the part is on the disk as it was in memory, the object has the
    new stamp and the threads that wait run again.  The part ends at the size of the
    object or at [start + nbytes] modulo 2^64, so for a sum that does not fit in 64 bits
    it may be empty. *)
Theorem sync_object_in_place id start nbytes (s : sstate T) e O I F M P N3 N4 :
  store_ok pd_size (ss_store s) O I F M P N3 N4 -> find_obj id (ss_objs s) = Some e -> snap_ok (ke_cur e) -> has e KOBJ_SNAPSHOTING = false -> 0 <= start ->
  let upto := part_end (ke_cur e) start nbytes in
  exists s' global e', pstate_sync_object_stackwrap pd_size ctx id start nbytes s = Ok (s', global) /\
    store_ok pd_size (ss_store s') O I F M P N3 N4 /\ ss_lock s' = false /\
    ss_objs s' = set_obj_ent id e' (ss_objs s) /\ ke_cur e' = ke_cur e /\ ke_pin e' = ke_pin e /\ has e' KOBJ_DIRTY = has e KOBJ_DIRTY /\ has e' KOBJ_SNAPSHOTING = false /\
    (forall i off n z, ((i, (off, n)) ∈ O) -> off <= z < off + n ->
      i <> id \/ ~ (off + KOBJ_DISK_SIZE + ROUNDDOWN start PGSIZE <= z < off + KOBJ_DISK_SIZE + ROUNDUP upto 512) -> ps_disk (ss_store s') z = ps_disk (ss_store s) z) /\
    if global then ke_sync_ts e' = ke_sync_ts e /\ ss_waiting s' = ss_waiting s
    else ke_sync_ts e' = (pstate_ts_alloc ctx (ss_counter s)).1 /\ ss_waiting s' = [] /\
      exists off n, ((id, (off, n)) ∈ O) /\ forall z, start <= z < upto -> ps_disk (ss_store s') (off + KOBJ_DISK_SIZE + z) = snap_byte (ke_cur e) z.
Proof using Type*.
  intros HI Hf Hso Hn Hs0 upto. destruct (in_place_ok id start nbytes s e O I F M P N3 N4 HI Hf Hso Hn Hs0) as (s' & g & e' & Hr & HI' & [H1 _ H2 (H3 & H4 & H5 & H6) H7 H8]).
  exists s', g, e'. by split_and!.
Qed.
(** The stamp of an object decides. *)
Lemma stamp_decides th timestamp id start nbytes (s : sstate T) e :
  ss_stable s <> None -> find_obj id (ss_objs s) = Some e -> ke_sync_ts e <> 0 -> pstate_ts_decrypt ctx timestamp < pstate_ts_decrypt ctx (ke_sync_ts e) ->
  pstate_sync_object ctx th timestamp id start nbytes s = (Ok tt, sched_none, s).
Proof using Type.
  intros Hst Hf Hz Hlt. unfold pstate_sync_object. destruct (ss_stable s); [|done]. rewrite Hf, (proj2 (Z.eqb_neq _ _) Hz), (proj2 (Z.ltb_lt _ _) Hlt). done.
Qed.

Lemma find_obj_set id e e' l : ke_id e' = id -> find_obj id l = Some e -> find_obj id (set_obj_ent id e' l) = Some e'.
Proof using Type.
  intros Hid. unfold find_obj, set_obj_ent. induction l as [|x l IH]; [done|]. cbn [List.find fmap list_fmap].
  destruct (ke_id x =? id) eqn:Ex; [by rewrite Hid, Z.eqb_refl|]. by rewrite Ex.
Qed.

(** C29: a sync of one part of an object passes for a sync of all of it.  Once a part
    was written, a thread with an older stamp that asks for any part of the object
    is told at once that it is on disk, while all bytes that the disk holds of the
    object outside of the pages of the part that was written are as before. *)
Theorem part_sync_passes_for_whole id start nbytes (s s' : sstate T) e O I F M P N3 N4 timestamp :
  store_ok pd_size (ss_store s) O I F M P N3 N4 -> find_obj id (ss_objs s) = Some e -> snap_ok (ke_cur e) -> has e KOBJ_SNAPSHOTING = false -> 0 <= start ->
  ss_stable s <> None -> 0 <= ss_counter s < 2 ^ 29 -> (pstate_ts_alloc ctx (ss_counter s)).1 <> 0 -> pstate_ts_decrypt ctx timestamp < ss_counter s ->
  pstate_sync_object_stackwrap pd_size ctx id start nbytes s = Ok (s', false) ->
  (forall th start' nbytes', pstate_sync_object ctx th timestamp id start' nbytes' s' = (Ok tt, sched_none, s')) /\
  exists off n, ((id, (off, n)) ∈ O) /\ forall z, off <= z < off + n ->
    z < off + KOBJ_DISK_SIZE + ROUNDDOWN start PGSIZE \/ off + KOBJ_DISK_SIZE + ROUNDUP (part_end (ke_cur e) start nbytes) 512 <= z ->
    ps_disk (ss_store s') z = ps_disk (ss_store s) z.
Proof using Type*.
  intros HI Hf Hso Hn Hs0 Hst Hc Hts Hold Hr. destruct (in_place_ok id start nbytes s e O I F M P N3 N4 HI Hf Hso Hn Hs0) as (s2 & g & e' & Hr2 & _ & [_ H1 H2 (H3 & _) H4 H5]).
  rewrite Hr in Hr2. injection Hr2 as <- <-. destruct H5 as (H5 & _ & off & n & Hin & _). destruct (find_obj_Some _ _ _ Hf) as [_ Hid]. split.
  - intros th a b. destruct (ts_alloc_decrypt ctx (ss_counter s) Hc) as [Hd _]. apply (stamp_decides _ _ _ _ _ _ e'); [by rewrite H1| |congruence|].
    + rewrite H2. eapply find_obj_set; [|exact Hf]. unfold ke_id in *. by rewrite H3.
    + rewrite H5, Hd. done.
  - exists off, n. split; [done|]. intros z Hz Hout. apply (H4 id off n z Hin Hz). right. lia.
Qed.

(** C30: the end of the part is computed modulo 2^64.  When the sum of [start] and [nbytes]
    wraps to a number that is not beyond the start of the first page, a request to
    sync the part writes nothing: if the object has an extent for its first bytes and
    the flush of the disk works, the sync succeeds, the disk is as before, and a
    thread with an older stamp is told that the part is on disk. *)
Theorem part_sync_wraps id start nbytes (s : sstate T) e O I F M P N3 N4 timestamp off n :
  store_ok pd_size (ss_store s) O I F M P N3 N4 -> find_obj id (ss_objs s) = Some e -> snap_ok (ke_cur e) -> has e KOBJ_SNAPSHOTING = false -> 0 <= start ->
  ((id, (off, n)) ∈ O) -> KOBJ_DISK_SIZE + ROUNDUP (part_end (ke_cur e) start nbytes) 512 <= n -> ps_io (ss_store s) = [] ->
  ss_stable s <> None -> 0 <= ss_counter s < 2 ^ 29 -> (pstate_ts_alloc ctx (ss_counter s)).1 <> 0 -> pstate_ts_decrypt ctx timestamp < ss_counter s ->
  u64 (start + nbytes) <= ROUNDDOWN start PGSIZE ->
  exists s', pstate_sync_object_stackwrap pd_size ctx id start nbytes s = Ok (s', false) /\ ps_disk (ss_store s') = ps_disk (ss_store s) /\
    forall th, pstate_sync_object ctx th timestamp id start nbytes s' = (Ok tt, sched_none, s').
Proof using Type*.
  intros HI Hf Hso Hn Hs0 Hin Hfit Hio Hst Hc Hts Hold Hwrap. destruct (find_obj_Some _ _ _ Hf) as [_ Hid].
  destruct (object_begin_ok e Hso Hn) as (e1 & E1 & B1 & B2 & B3 & B4 & _ & _ & _ & _ & B9).
  destruct (empty_part_ok pd_size Hpd (ke_snap e1) start nbytes (ss_store s) O I F M P N3 N4 off n HI B2 Hs0) as (st & Ew & Hd); [by rewrite B3, Hid| |done|done|].
  { unfold part_end in *. by rewrite B4. }
  destruct (object_end_ok (pstate_ts_alloc ctx (ss_counter s)).1 true e1 B9) as (e2 & E2 & D1 & _ & _ & _ & D5).
  unfold pstate_sync_object_stackwrap. rewrite Hf, E1. cbn [res_bind]. destruct (ts_alloc_decrypt ctx (ss_counter s) Hc) as [Hdec _].
  destruct (pstate_ts_alloc ctx (ss_counter s)) as [ts counter]. cbn [fst] in *. rewrite Ew, E2. cbn [res_bind negb]. eexists. split; [done|]. split; [exact Hd|].
  intros th. apply (stamp_decides _ _ _ _ _ _ e2); [done| |congruence|by rewrite D5, Hdec]. cbn [ss_objs].
  eapply find_obj_set; [|exact Hf]. unfold ke_id in *. by rewrite D1, B1.
Qed.
End claims.

(** ** Runs *)

(** The object of two pages that the run of before wrote, all its bytes changed since
    the sync; and a thread that took a stamp after it. *)
Definition ex_new : snapshot := mkSnap (sn_buf ex_snap) [ex_page 8; replicate 904 9 ++ replicate 3192 0] false.
Definition modified (cur : snapshot) (s : sstate ftree) : sstate ftree :=
  mkSs (ss_store s) (ss_stable s) (dirty_write cur <$> ss_objs s) (pstate_ts_alloc ex_ctx (ss_counter s)).2 true [3] (ss_phase s).
Definition ex_stamp : Z := (pstate_ts_alloc ex_ctx (ss_counter (x5 0))).1.
Definition y0 : sstate ftree := modified ex_new (x5 0).

(** The state after the sync of a part, and the object as it is after a restart. *)
Definition part_synced (start nbytes : Z) (s : sstate ftree) : option (sstate ftree) :=
  match pstate_sync_object_stackwrap (2 ^ 30) ex_ctx 77 start nbytes s with Ok (s', false) => Some s' | _ => None end.
Definition after_restart (s : sstate ftree) : res snapshot :=
  let s := restart ex_ctx ex_zero s in (ex_back (set_store (supply [] (replicate 3 (ex_page 0)) (ss_store s)) s)).1.
Definition page_after_restart (i : nat) (s : sstate ftree) : option (list Z) := match after_restart s with Ok sn => sn_pages sn !! i | _ => None end.

(** The thread is told that its data is on disk. *)
Definition told_durable (start nbytes : Z) (s : sstate ftree) : Prop := pstate_sync_object ex_ctx 3 ex_stamp 77 start nbytes s = (Ok tt, sched_none, s).

Definition stamp_newer (s : sstate ftree) : bool :=
  match ss_stable s, find_obj 77 (ss_objs s) with
  | Some _, Some e => negb (ke_sync_ts e =? 0) && (pstate_ts_decrypt ex_ctx ex_stamp <? pstate_ts_decrypt ex_ctx (ke_sync_ts e))
  | _, _ => false
  end.

Lemma stamp_newer_told s start nbytes : stamp_newer s = true -> told_durable start nbytes s.
Proof. unfold stamp_newer, told_durable, pstate_sync_object. destruct (ss_stable s), (find_obj 77 (ss_objs s)); try done. by intros ->. Qed.

(** What follows a sync of a part, from what evaluates. *)
Lemma part_synced_run start nbytes s i p :
  match part_synced start nbytes s with Some s' => stamp_newer s' = true /\ page_after_restart i s' = Some p | None => False end ->
  exists s', pstate_sync_object_stackwrap (2 ^ 30) ex_ctx 77 start nbytes s = Ok (s', false) /\ (forall start nbytes, told_durable start nbytes s') /\ page_after_restart i s' = Some p.
Proof.
  unfold part_synced. destruct (pstate_sync_object_stackwrap _ _ _ _ _ _) as [[s' []]| |]; [done| |done..]. intros [Hs Hp]. exists s'. split; [exact eq_refl|].
  split; [|exact Hp]. intros a b. by apply stamp_newer_told.
Qed.

(** All of the object was written to, its first page was synced; a thread that took its
    stamp before asks for the second one and is told that it is there, and a restart
    brings back the old second page. *)
Example part_sync_run :
  exists s', pstate_sync_object_stackwrap (2 ^ 30) ex_ctx 77 0 4096 y0 = Ok (s', false) /\ told_durable 4096 904 s' /\
    page_after_restart 1 s' = Some (replicate 904 6 ++ replicate 120 0 ++ replicate 3072 222) /\ sn_pages ex_new !! 1%nat = Some (replicate 904 9 ++ replicate 3192 0).
Proof.
  destruct (part_synced_run 0 4096 y0 1 (replicate 904 6 ++ replicate 120 0 ++ replicate 3072 222)) as (s' & E & Ht & Hp); [vm_compute; by split|].
  exists s'. split; [exact E|]. split; [apply Ht|]. split; [exact Hp|exact eq_refl].
Qed.

(** The same after a request for all bytes from 4096 on, as many as a number can hold. *)
Example part_sync_wrap_run :
  exists s', pstate_sync_object_stackwrap (2 ^ 30) ex_ctx 77 4096 (2 ^ 64 - 1) y0 = Ok (s', false) /\ told_durable 4096 (2 ^ 64 - 1) s' /\
    page_after_restart 1 s' = Some (replicate 904 6 ++ replicate 120 0 ++ replicate 3072 222) /\ sn_pages ex_new !! 1%nat = Some (replicate 904 9 ++ replicate 3192 0).
Proof.
  destruct (part_synced_run 4096 (2 ^ 64 - 1) y0 1 (replicate 904 6 ++ replicate 120 0 ++ replicate 3072 222)) as (s' & E & Ht & Hp); [vm_compute; by split|].
  exists s'. split; [exact E|]. split; [apply Ht|]. split; [exact Hp|exact eq_refl].
Qed.

(** The object grows within its last page to 5400 bytes.  Its part from 5000 on is
    written, but the header on disk keeps the old size, and a restart the old object. *)
Definition ex_grown : snapshot := mkSnap (hdr_put off_ko_nbytes 8 5400 (sn_buf ex_snap)) [ex_page 8; replicate 1304 9 ++ replicate 2792 0] false.

Example part_sync_keeps_size :
  match part_synced 5000 400 (modified ex_grown (x5 0)) with
  | Some s' => stamp_newer s' = true /\ match after_restart s' with Ok sn => snap_nbytes sn = 5000 | _ => False end
  | None => False
  end.
Proof. vm_compute. by split. Qed.

(** The store after a swap-out of the object, and the object in memory with new bytes. *)
Definition y1 : sstate ftree :=
  mkSs (sync_one 1 (2 ^ 30) 9 ex_snap store0).2 (Some (9, ex_zero)) [mkKent KOBJ_DIRTY ex_new ex_new 0 0 [] false] 1 true [3] idle.

Lemma ex_new_ok : snap_ok ex_new.
Proof. split; [vm_compute; reflexivity|repeat constructor; vm_compute; reflexivity|by vm_compute|split; by vm_compute|by vm_compute]. Qed.

Lemma y1_ok : exists O I F M P N3 N4, store_ok (2 ^ 30) (ss_store y1) O I F M P N3 N4.
Proof.
  destruct store0_ok as (M & _ & HI). pose proof (sync_one_ok 1 (2 ^ 30) ltac:(lia) 9 ex_snap store0 [] [] _ M [] ∅ ∅ 1 HI ex_snap_ok) as Hw.
  assert (Er : (sync_one 1 (2 ^ 30) 9 ex_snap store0).1 = Ok tt) by (vm_compute; reflexivity). unfold y1. cbn [ss_store].
  destruct (sync_one 1 (2 ^ 30) 9 ex_snap store0) as [r s']. cbn [fst snd] in *. subst r. destruct Hw as (_ & off & I' & F' & M' & P' & N3' & N4' & HI' & _).
  - exists (450560, 8151040). split; [left|by vm_compute].
  - lia.
  - by eexists _, _, _, _, _, _, _.
Qed.

Lemma sync_object_in_place_witness :
  exists s' off, pstate_sync_object_stackwrap (2 ^ 30) ex_ctx 77 0 4096 y1 = Ok (s', false) /\ forall z, 0 <= z < 4096 -> ps_disk (ss_store s') (off + 512 + z) = snap_byte ex_new z.
Proof.
  destruct y1_ok as (O & I & F & M & P & N3 & N4 & HI). set (e := mkKent KOBJ_DIRTY ex_new ex_new 0 0 [] false). assert (Hf : find_obj 77 (ss_objs y1) = Some e) by (vm_compute; reflexivity).
  assert (Hg : match pstate_sync_object_stackwrap (2 ^ 30) ex_ctx 77 0 4096 y1 with Ok (_, global) => global | _ => true end = false) by (vm_compute; reflexivity).
  assert (Hu : part_end (ke_cur e) 0 4096 = 4096) by (vm_compute; reflexivity).
  destruct (sync_object_in_place (2 ^ 30) ltac:(lia) ex_ctx 77 0 4096 y1 e O I F M P N3 N4 HI Hf ex_new_ok eq_refl ltac:(lia)) as (s' & g & e' & E & R).
  rewrite E in Hg. subst g. destruct R as (_ & _ & _ & _ & _ & _ & _ & _ & _ & _ & off & n & _ & Hz). rewrite Hu in Hz. exists s', off. split; [exact E|exact Hz].
Defined.

(** The stamp of counter 0, which is before the sync. *)
Definition old_stamp : Z := (pstate_ts_alloc ex_ctx 0).1.

Lemma part_sync_passes_for_whole_witness :
  exists s', pstate_sync_object_stackwrap (2 ^ 30) ex_ctx 77 0 4096 y1 = Ok (s', false) /\ pstate_sync_object ex_ctx 3 old_stamp 77 4096 904 s' = (Ok tt, sched_none, s').
Proof.
  destruct y1_ok as (O & I & F & M & P & N3 & N4 & HI). set (e := mkKent KOBJ_DIRTY ex_new ex_new 0 0 [] false). assert (Hf : find_obj 77 (ss_objs y1) = Some e) by (vm_compute; reflexivity).
  assert (Hg : match pstate_sync_object_stackwrap (2 ^ 30) ex_ctx 77 0 4096 y1 with Ok (_, global) => negb global | _ => false end = true) by (vm_compute; reflexivity).
  destruct (pstate_sync_object_stackwrap (2 ^ 30) ex_ctx 77 0 4096 y1) as [[s' []]| |] eqn:E; [discriminate| |discriminate..]. exists s'. split; [reflexivity|].
  assert (H1 : 0 <= ss_counter y1 < 2 ^ 29) by (split; [discriminate|reflexivity]).
  assert (H2 : (pstate_ts_alloc ex_ctx (ss_counter y1)).1 <> 0) by (apply Z.eqb_neq; vm_compute; reflexivity).
  assert (H3 : pstate_ts_decrypt ex_ctx old_stamp < ss_counter y1) by (vm_compute; reflexivity).
  destruct (part_sync_passes_for_whole (2 ^ 30) ltac:(lia) ex_ctx 77 0 4096 y1 s' e O I F M P N3 N4 old_stamp HI Hf ex_new_ok eq_refl ltac:(lia) ltac:(discriminate) H1 H2 H3 E) as [Ht _].
  apply Ht.
Defined.

(** Where the object is. *)
Lemma y1_extent O I F M P N3 N4 : store_ok (2 ^ 30) (ss_store y1) O I F M P N3 N4 -> exists off, (77, (off, 8704)) ∈ O.
Proof.
  intros HI. destruct (objmap_search 77 (ss_store y1) O N3 _ (pi_objmap _ _ _ _ _ _ _ _ _ _ _ HI) eq_refl) as [([off n] & Hin & Er)|[_ Er]].
  - assert (En : match ix_search [77] (get_obj BTREE_OBJMAP (ss_store y1)) with Ok kv => nth 1 kv.2 0 | _ => 0 end = 8704) by (vm_compute; reflexivity).
    rewrite Er in En. simpl in En. subst n. by exists off.
  - assert (En : is_ok (ix_search [77] (get_obj BTREE_OBJMAP (ss_store y1))) = true) by (vm_compute; reflexivity). by rewrite Er in En.
Qed.

Lemma part_sync_wraps_witness :
  exists s', pstate_sync_object_stackwrap (2 ^ 30) ex_ctx 77 4096 (2 ^ 64 - 1) y1 = Ok (s', false) /\ ps_disk (ss_store s') = ps_disk (ss_store y1) /\
    pstate_sync_object ex_ctx 3 old_stamp 77 4096 (2 ^ 64 - 1) s' = (Ok tt, sched_none, s').
Proof.
  destruct y1_ok as (O & I & F & M & P & N3 & N4 & HI). set (e := mkKent KOBJ_DIRTY ex_new ex_new 0 0 [] false). assert (Hf : find_obj 77 (ss_objs y1) = Some e) by (vm_compute; reflexivity).
  destruct (y1_extent _ _ _ _ _ _ _ HI) as [off Hin].
  assert (H1 : 0 <= ss_counter y1 < 2 ^ 29) by (split; [discriminate|reflexivity]).
  assert (H2 : (pstate_ts_alloc ex_ctx (ss_counter y1)).1 <> 0) by (apply Z.eqb_neq; vm_compute; reflexivity).
  assert (H3 : pstate_ts_decrypt ex_ctx old_stamp < ss_counter y1) by (vm_compute; reflexivity).
  assert (H4 : KOBJ_DISK_SIZE + ROUNDUP (part_end (ke_cur e) 4096 (2 ^ 64 - 1)) 512 <= 8704) by (apply Z.leb_le; vm_compute; reflexivity).
  assert (H5 : u64 (4096 + (2 ^ 64 - 1)) <= ROUNDDOWN 4096 PGSIZE) by (apply Z.leb_le; vm_compute; reflexivity).
  assert (H6 : ps_io (ss_store y1) = []) by (vm_compute; reflexivity).
  destruct (part_sync_wraps (2 ^ 30) ltac:(lia) ex_ctx 77 4096 (2 ^ 64 - 1) y1 e O I F M P N3 N4 old_stamp off 8704 HI Hf ex_new_ok eq_refl ltac:(lia) Hin H4 H6 ltac:(discriminate) H1 H2 H3 H5)
    as (s' & E & Hd & Ht). exists s'. split; [exact E|]. split; [exact Hd|apply Ht].
Defined.

(** An object of 904 bytes, the rest of its page clear, on a disk full of old bytes: from
    byte 1024 on its page comes back with those. *)
Definition ex_small : snapshot :=
  mkSnap (hdr_put off_ko_nbytes 8 904 (hdr_put off_ko_id 8 77 (replicate 512 1))) [replicate 904 6 ++ replicate 3192 0] true.

Lemma swapin_returns_stale_tail_witness :
  exists s' sn s'', pstate_sync_kobj 1 (2 ^ 30) 9 ex_small store0 = (Ok tt, s') /\
    pstate_swapin_id (2 ^ 30) (fun _ => Ok tt) true 77 (with_mem (replicate 3 (ex_page 0)) s') = (Ok sn, s'') /\
    snap_byte ex_small 2000 = 0 /\ snap_byte sn 2000 = 222.
Proof.
  destruct store0_ok as (M & HI & _). assert (Hp : (2 <=? pages_left store0)%nat = true) by (vm_compute; reflexivity). apply Nat.leb_le in Hp.
  assert (Hso : snap_ok ex_small) by (split; [vm_compute; reflexivity|repeat constructor; vm_compute; reflexivity|by vm_compute|split; by vm_compute|by vm_compute]).
  destruct (pstate_sync_kobj 1 (2 ^ 30) 9 ex_small store0) as [r s'] eqn:E. assert (Er : r = Ok tt).
  { assert (Er : (pstate_sync_kobj 1 (2 ^ 30) 9 ex_small store0).1 = Ok tt) by (vm_compute; reflexivity). by rewrite E in Er. }
  subst r. assert (Hb : big [(450560, 8151040)] (kobj_bytes 1 (disk_bytes ex_small) + 1)) by (exists (450560, 8151040); split; [left|by vm_compute]).
  assert (Hsb : sync_bytes (snap_nbytes ex_small) (sn_pages ex_small) = Ok (snap_nbytes ex_small)) by (vm_compute; reflexivity).
  assert (Hm : Forall (fun p => length p = Z.to_nat PGSIZE) (replicate 3 (ex_page 0))) by (repeat constructor; vm_compute; reflexivity).
  destruct (swapin_returns_stale_tail True 168 1 (2 ^ 30) (fun _ => Ok tt) 9 ex_small store0 s' [] [] _ M [] ∅ ∅ (replicate 3 (ex_page 0)) ltac:(lia) HI
    ltac:(intros _; rewrite !size_empty; lia) Hso Hb ltac:(done) Hsb E Hm ltac:(simpl; lia)) as (off & sn & s'' & E2 & _ & Hz).
  assert (Ei : snap_id ex_small = 77) by (vm_compute; reflexivity). rewrite Ei in E2. exists s', sn, s''. split; [reflexivity|]. split; [exact E2|].
  apply (Hz 2000). split; by vm_compute.
Defined.
