(* ===== verification/Pagetree.v ===== *)
(** * Page trees: kern/kern/pagetree.c and kern/kern/pagealloc.c

    The contents of an object are a tree of pages: four direct pages and four
    trees of indirect pages, of one to four levels.  Copies of objects and snapshots
    share pages, which are counted and copied when they are written to.

    A page is its number; an entry is a slot of a tree or of an indirect page.  What
    segments are told to drop their read-only mappings is recorded in the state. *)

From S2P Require Import Prelude KState KObj.
From stdpp Require Import options.

Set Default Goal Selector "!".

(** ** Pages and trees *)

(** Where an entry is. *)
Inductive node := in_page (p : nat) | in_tree (t : nat).
Definition eloc : Type := node * nat.

#[export] Instance node_eq_dec : EqDecision node.
Proof. solve_decision. Defined.

(** [struct page_info], without the fields that only the code of the page tables uses. *)
Record pinfo := mkPinfo {
  pi_ref : Z;
  pi_write_shared_ref : Z;
  pi_hw_write_pin : Z;
  pi_hw_read_pin : Z;
  pi_indir : bool;
  pi_dirty : bool;
  pi_freepage : bool;
  pi_parent : option nat;
  pi_plist : list eloc
}.

Definition zero_info : pinfo := mkPinfo 0 0 0 0 false false false None [].

(** The memory of a page: data, or the entries of an indirect page. *)
Inductive contents := bytes (d : list Z) | slots (es : list (option nat)).

Record page := mkPage { pg_info : pinfo; pg_mem : contents }.

(** The object of a tree; snapshots have none. *)
Inductive owner := no_owner | segment_owner (ko : Z) | other_owner (ko : Z).

(** [struct pagetree]; [pt_parent] is the parent of its entries. *)
Record pagetree := mkPagetree { pt_direct : list (option nat); pt_indirect : list (option nat); pt_parent : owner }.

Record pheap := mkPheap { ph_pages : list page; ph_trees : list pagetree; ph_free : list nat; ph_invalidated : list Z }.

Definition HM (A : Type) : Type := pheap -> res A * pheap.

#[export] Instance HM_ret : MRet HM := fun A a s => (Ok a, s).
#[export] Instance HM_bind : MBind HM := fun A B f m s =>
  match m s with
  | (Ok a, s') => f a s'
  | (Err e, s') => (Err e, s')
  | (Panic, s') => (Panic, s')
  end.

Definition hpanic {A} : HM A := fun s => (Panic, s).
Definition hassert (b : bool) : HM unit := if b then mret tt else hpanic.

(** The return code of a call as a value. *)
Definition hcode {A} (m : HM A) : HM (res A) := fun s =>
  match m s with
  | (Panic, s') => (Panic, s')
  | (r, s') => (Ok r, s')
  end.

Definition hlift {A} (r : res A) : HM A := fun s => (r, s).

(** A loop over the numbers below [n]. *)
Fixpoint hfor (i n : nat) (f : nat -> HM unit) : HM unit :=
  match n with
  | O => mret tt
  | S n => f i;; hfor (S i) n f
  end.

Definition get_pg (p : nat) : HM page := fun s => (match ph_pages s !! p with Some pg => Ok pg | None => Panic end, s).
Definition set_pg (p : nat) (pg : page) : HM unit := fun s => (Ok tt, mkPheap (<[p := pg]> (ph_pages s)) (ph_trees s) (ph_free s) (ph_invalidated s)).

Definition get_info (p : nat) : HM pinfo := pg ← get_pg p; mret (pg_info pg).
Definition set_info (p : nat) (i : pinfo) : HM unit := pg ← get_pg p; set_pg p (mkPage i (pg_mem pg)).
Definition set_mem (p : nat) (m : contents) : HM unit := pg ← get_pg p; set_pg p (mkPage (pg_info pg) m).

Definition set_ref (r : Z) (i : pinfo) : pinfo :=
  mkPinfo r (pi_write_shared_ref i) (pi_hw_write_pin i) (pi_hw_read_pin i) (pi_indir i) (pi_dirty i) (pi_freepage i) (pi_parent i) (pi_plist i).
Definition set_shared (r : Z) (i : pinfo) : pinfo :=
  mkPinfo (pi_ref i) r (pi_hw_write_pin i) (pi_hw_read_pin i) (pi_indir i) (pi_dirty i) (pi_freepage i) (pi_parent i) (pi_plist i).
Definition set_pins (w r : Z) (i : pinfo) : pinfo :=
  mkPinfo (pi_ref i) (pi_write_shared_ref i) w r (pi_indir i) (pi_dirty i) (pi_freepage i) (pi_parent i) (pi_plist i).
Definition set_indir (i : pinfo) : pinfo :=
  mkPinfo (pi_ref i) (pi_write_shared_ref i) (pi_hw_write_pin i) (pi_hw_read_pin i) true (pi_dirty i) (pi_freepage i) (pi_parent i) (pi_plist i).
Definition set_dirty (b : bool) (i : pinfo) : pinfo :=
  mkPinfo (pi_ref i) (pi_write_shared_ref i) (pi_hw_write_pin i) (pi_hw_read_pin i) (pi_indir i) b (pi_freepage i) (pi_parent i) (pi_plist i).
Definition set_freepage (b : bool) (i : pinfo) : pinfo :=
  mkPinfo (pi_ref i) (pi_write_shared_ref i) (pi_hw_write_pin i) (pi_hw_read_pin i) (pi_indir i) (pi_dirty i) b (pi_parent i) (pi_plist i).
Definition set_parent (q : option nat) (i : pinfo) : pinfo :=
  mkPinfo (pi_ref i) (pi_write_shared_ref i) (pi_hw_write_pin i) (pi_hw_read_pin i) (pi_indir i) (pi_dirty i) (pi_freepage i) q (pi_plist i).
Definition set_plist (l : list eloc) (i : pinfo) : pinfo :=
  mkPinfo (pi_ref i) (pi_write_shared_ref i) (pi_hw_write_pin i) (pi_hw_read_pin i) (pi_indir i) (pi_dirty i) (pi_freepage i) (pi_parent i) l.

Definition upd_info (p : nat) (f : pinfo -> pinfo) : HM unit := i ← get_info p; set_info p (f i).

(** Entries. *)
Definition fetch_tree (t : nat) : HM pagetree := fun s => (match ph_trees s !! t with Some x => Ok x | None => Panic end, s).
Definition put_tree (t : nat) (x : pagetree) : HM unit := fun s => (Ok tt, mkPheap (ph_pages s) (<[t := x]> (ph_trees s)) (ph_free s) (ph_invalidated s)).

Definition n_direct : nat := Z.to_nat PAGETREE_DIRECT_PAGES.
Definition n_entries : nat := Z.to_nat PAGETREE_ENTRIES_PER_PAGE.

(** Slot [i] of a tree: the direct entries, then the indirect ones. *)
Definition tree_slots (x : pagetree) : list (option nat) := pt_direct x ++ pt_indirect x.
Definition tree_set (i : nat) (e : option nat) (x : pagetree) : pagetree :=
  if (i <? n_direct)%nat then mkPagetree (<[i := e]> (pt_direct x)) (pt_indirect x) (pt_parent x)
  else mkPagetree (pt_direct x) (<[(i - n_direct)%nat := e]> (pt_indirect x)) (pt_parent x).

Definition read_ent (l : eloc) : HM (option nat) :=
  match l with
  | (in_page p, i) => pg ← get_pg p; hlift (match pg_mem pg with slots es => res_nth es i | bytes _ => Panic end)
  | (in_tree t, i) => x ← fetch_tree t; hlift (res_nth (tree_slots x) i)
  end.

Definition write_ent (l : eloc) (e : option nat) : HM unit :=
  match l with
  | (in_page p, i) =>
      pg ← get_pg p;
      match pg_mem pg with slots es => set_mem p (slots (<[i := e]> es)) | bytes _ => hpanic end
  | (in_tree t, i) => x ← fetch_tree t; put_tree t (tree_set i e x)
  end.

(** ** The page allocator *)

Definition set_free_list (l : list nat) : HM unit := fun s => (Ok tt, mkPheap (ph_pages s) (ph_trees s) l (ph_invalidated s)).
Definition get_free_list : HM (list nat) := fun s => (Ok (ph_free s), s).

Definition page_free (p : nat) : HM unit :=
  i ← get_info p;
  hassert (negb (pi_freepage i));;
  set_info p (set_freepage true i);;
  l ← get_free_list;
  set_free_list (p :: l).

(** When there is no page, a global sync is asked for and the caller starts over. *)
Definition page_alloc : HM nat :=
  l ← get_free_list;
  match l with
  | [] => hlift (Err E_RESTART)
  | p :: l =>
      set_free_list l;;
      i ← get_info p;
      hassert (pi_freepage i);;
      set_info p (set_freepage false i);;
      mret p
  end.

(** ** Entries and counts *)

Definition pagetree_link_entry (l : eloc) : HM unit :=
  e ← read_ent l;
  match e with
  | Some p => upd_info p (fun i => set_plist (l :: pi_plist i) i)
  | None => hpanic
  end.

Definition pagetree_set_entry (l : eloc) (e' : option nat) : HM unit :=
  e ← read_ent l;
  (match e with Some p => upd_info p (fun i => set_plist (filter (.≠ l) (pi_plist i)) i) | None => mret tt end);;
  (match e' with Some p => upd_info p (fun i => set_plist (l :: pi_plist i) i) | None => mret tt end);;
  write_ent l e'.

Definition pagetree_incref (p : nat) : HM unit := upd_info p (fun i => set_ref (u32 (pi_ref i + 1)) i).

(** [decref] is the call for the entries of an indirect page. *)
Definition pagetree_free_page (decref : nat -> HM unit) (p : nat) : HM unit :=
  i ← get_info p;
  hassert (pi_ref i =? 0);;
  hassert (pi_write_shared_ref i =? 0);;
  hassert (pi_hw_write_pin i =? 0);;
  hassert (pi_hw_read_pin i =? 0);;
  (if pi_indir i then
     hfor 0 n_entries (fun k =>
       e ← read_ent (in_page p, k);
       match e with
       | Some q => decref q;; pagetree_set_entry (in_page p, k) (Some p)
       | None => mret tt
       end)
   else mret tt);;
  set_info p zero_info;;
  page_free p.

(** The trees have at most four levels of indirect pages. *)
Fixpoint pagetree_decref (fuel : nat) (p : nat) : HM unit :=
  upd_info p (fun i => set_ref (u32 (pi_ref i - 1)) i);;
  i ← get_info p;
  if pi_ref i =? 0 then
    match fuel with
    | O => hpanic
    | S fuel => pagetree_free_page (pagetree_decref fuel) p
    end
  else mret tt.

Definition pt_depth : nat := S PAGETREE_INDIRECTS.

(** Read-only mappings of a page, by way of the entries that have it. *)
Definition invalidate_segment (ko : Z) : HM unit := fun s => (Ok tt, mkPheap (ph_pages s) (ph_trees s) (ph_free s) (ko :: ph_invalidated s)).

Fixpoint pagetree_invalidate_ro_segments (fuel : nat) (p : nat) : HM unit :=
  i ← get_info p;
  (fix go l : HM unit :=
     match l with
     | [] => mret tt
     | (in_page q, _) :: l =>
         (match fuel with O => hpanic | S fuel => pagetree_invalidate_ro_segments fuel q end);;
         go l
     | (in_tree t, _) :: l =>
         x ← fetch_tree t;
         (match pt_parent x with
          | no_owner => mret tt
          | segment_owner ko => invalidate_segment ko
          | other_owner _ => hpanic
          end);;
         go l
     end) (pi_plist i).

(** ** Copy on write *)

(** [cow] is the call for entries whose page is pinned. *)
Definition pagetree_indir_copy (cow : eloc -> HM Z) (src dst : nat) : HM unit :=
  hfor 0 n_entries (fun k =>
    e ← read_ent (in_page dst, k);
    match e with
    | Some q => pagetree_incref q;; pagetree_link_entry (in_page dst, k)
    | None => mret tt
    end);;
  hfor 0 n_entries (fun k =>
    e ← read_ent (in_page dst, k);
    match e with
    | Some q =>
        i ← get_info q;
        if pi_hw_write_pin i =? 0 then mret tt else cow (in_page dst, k);; mret tt
    | None => mret tt
    end);;
  i ← get_info src;
  hassert (pi_indir i);;
  upd_info dst set_indir.

Fixpoint pagetree_cow (fuel : nat) (l : eloc) : HM Z :=
  e ← read_ent l;
  match e with
  | None => mret 0
  | Some p =>
      i ← get_info p;
      hassert (0 <? pi_ref i);;
      if pi_ref i <=? u32 (1 + pi_write_shared_ref i) then mret 0
      else
        (if pi_hw_read_pin i =? 0 then mret tt
         else hassert (negb (pi_indir i));; pagetree_invalidate_ro_segments pt_depth p);;
        copy ← page_alloc;
        ci ← get_info copy;
        hassert (pi_ref ci =? 0);;
        hassert (pi_write_shared_ref ci =? 0);;
        hassert (pi_hw_write_pin ci =? 0);;
        hassert (pi_hw_read_pin ci =? 0);;
        pg ← get_pg p;
        set_mem copy (pg_mem pg);;
        pagetree_incref copy;;
        (if pi_indir i then
           match fuel with
           | O => hpanic
           | S fuel =>
               r ← hcode (pagetree_indir_copy (pagetree_cow fuel) p copy);
               match r with
               | Ok _ => mret tt
               | Err e => pagetree_decref pt_depth copy;; hlift (Err e)
               | Panic => hpanic
               end
           end
         else mret tt);;
        i ← get_info p;
        upd_info copy (set_dirty (pi_dirty i));;
        pagetree_decref pt_depth p;;
        pagetree_set_entry l (Some copy);;
        mret 1
  end.

(** ** Trees *)

Definition empty_tree (par : owner) : pagetree := mkPagetree (replicate n_direct None) (replicate PAGETREE_INDIRECTS None) par.

Definition pagetree_init (t : nat) (par : owner) : HM unit := put_tree t (empty_tree par).

Definition n_slots : nat := n_direct + PAGETREE_INDIRECTS.

Definition pagetree_free_ent (l : eloc) : HM unit :=
  e ← read_ent l;
  match e with
  | Some p => pagetree_decref pt_depth p;; pagetree_set_entry l None
  | None => mret tt
  end.

(** Something is done to the info of the page of every slot of a tree. *)
Definition each_page (t : nat) (f : nat -> HM unit) : HM unit :=
  hfor 0 n_slots (fun k =>
    e ← read_ent (in_tree t, k);
    match e with Some p => f p | None => mret tt end).

Definition pagetree_free (t : nat) (was_share_pinned : bool) : HM unit :=
  (if was_share_pinned then each_page t (fun p => upd_info p (fun i => set_shared (u32 (pi_write_shared_ref i - 1)) i)) else mret tt);;
  hfor 0 n_slots (fun k => pagetree_free_ent (in_tree t, k));;
  pagetree_init t no_owner.

(** The loops that copy pinned pages, or find that the pages are to be shared with the
    pins: [share] tells whether the caller allows that.  The result tells whether it was done. *)
Fixpoint copy_pinned (share : bool) (dst k n : nat) : HM bool :=
  match n with
  | O => mret false
  | S n =>
      e ← read_ent (in_tree dst, k);
      match e with
      | Some p =>
          i ← get_info p;
          if pi_hw_write_pin i =? 0 then copy_pinned share dst (S k) n
          else if share then mret true
          else
            r ← hcode (pagetree_cow pt_depth (in_tree dst, k));
            match r with
            | Ok _ => copy_pinned share dst (S k) n
            | Err e => pagetree_free dst false;; hlift (Err e)
            | Panic => hpanic
            end
      | None => copy_pinned share dst (S k) n
      end
  end.

Definition pagetree_copy (src dst : nat) (par : owner) (share : bool) : HM bool :=
  x ← fetch_tree src;
  put_tree dst (mkPagetree (pt_direct x) (pt_indirect x) par);;
  hfor 0 n_slots (fun k =>
    e ← read_ent (in_tree dst, k);
    match e with
    | Some p => pagetree_incref p;; pagetree_link_entry (in_tree dst, k)
    | None => mret tt
    end);;
  share_pinned ← copy_pinned share dst 0 n_slots;
  (if (share_pinned : bool) then each_page dst (fun p => upd_info p (fun i => set_shared (u32 (pi_write_shared_ref i + 1)) i)) else mret tt);;
  mret share_pinned.

(** The entry for a page below an indirect entry, and the indirect page that has it. *)
Fixpoint pagetree_get_entp_indirect (level : nat) (indir : eloc) (npage : Z) (rw : page_sharing_mode) (parent : option nat) : HM (option eloc * option nat) :=
  (if bool_decide (rw = page_shared_ro) then mret 0 else pagetree_cow pt_depth indir);;
  e ← read_ent indir;
  e ← (match e with
       | None =>
           if bool_decide (rw = page_shared_ro) then mret None
           else
             p ← page_alloc;
             set_mem p (slots (replicate n_entries None));;
             pagetree_incref p;;
             pagetree_set_entry indir (Some p);;
             upd_info p set_indir;;
             mret (Some p)
       | Some p => mret (Some p)
       end);
  match e with
  | None => mret (None, None)
  | Some pip =>
      upd_info pip (set_parent parent);;
      match level with
      | O => mret (Some (in_page pip, Z.to_nat npage), Some pip)
      | S level' =>
          let n_pages_per_pip_entry := PAGETREE_ENTRIES_PER_PAGE ^ Z.of_nat level in
          let next_slot := u32 (npage / n_pages_per_pip_entry) in
          let next_page := u32 (npage mod n_pages_per_pip_entry) in
          hassert (next_slot <? PAGETREE_ENTRIES_PER_PAGE);;
          pagetree_get_entp_indirect level' (in_page pip, Z.to_nat next_slot) next_page rw (Some pip)
      end
  end.

(** The loop over the indirect entries, [n] of them from [i] on. *)
Fixpoint get_entp_loop (t : nat) (npage num_indirect_pages : Z) (i n : nat) (rw : page_sharing_mode) : HM (option eloc * option nat) :=
  match n with
  | O => hlift (Err E_NO_SPACE)
  | S n =>
      let num_indirect_pages := num_indirect_pages * PAGETREE_ENTRIES_PER_PAGE in
      if npage <? num_indirect_pages then pagetree_get_entp_indirect i (in_tree t, (n_direct + i)%nat) npage rw None
      else get_entp_loop t (npage - num_indirect_pages) num_indirect_pages (S i) n rw
  end.

Definition pagetree_get_entp (t : nat) (npage : Z) (rw : page_sharing_mode) : HM (option eloc * option nat) :=
  if npage <? PAGETREE_DIRECT_PAGES then mret (Some (in_tree t, Z.to_nat npage), None)
  else get_entp_loop t (npage - PAGETREE_DIRECT_PAGES) 1 0 PAGETREE_INDIRECTS rw.

(** The page, and whether it was copied. *)
Definition pagetree_get_page (t : nat) (npage : Z) (rw : page_sharing_mode) : HM (option nat * Z) :=
  x ← pagetree_get_entp t npage rw;
  let '(ent, parent) := x in
  match ent with
  | None => mret (None, 0)
  | Some l =>
      e ← read_ent l;
      match e with
      | None => mret (None, 0)
      | Some p =>
          if bool_decide (rw = page_shared_ro) then mret (Some p, 0)
          else
            r ← pagetree_cow pt_depth l;
            e ← read_ent l;
            match e with
            | None => hpanic
            | Some p => upd_info p (set_parent parent);; mret (Some p, r)
            end
      end
  end.

Definition pagetree_put_page (t : nat) (npage : Z) (page : option nat) : HM unit :=
  x ← pagetree_get_entp t npage page_excl_dirty;
  let '(ent, parent) := x in
  match ent with
  | None => hpanic
  | Some l =>
      e ← read_ent l;
      (match e with Some p => pagetree_decref pt_depth p | None => mret tt end);;
      (match page with Some p => pagetree_incref p;; upd_info p (set_parent parent) | None => mret tt end);;
      pagetree_set_entry l page
  end.

(** ** Pins *)

(** Pages that are not memory have no info. *)
Definition with_info (p : nat) (f : pinfo -> HM unit) : HM unit := fun s =>
  match ph_pages s !! p with Some pg => f (pg_info pg) s | None => (Ok tt, s) end.

Definition exclusive (i : pinfo) : bool := pi_ref i =? u32 (1 + pi_write_shared_ref i).

Fixpoint pagetree_incpin_write (fuel : nat) (p : nat) : HM unit :=
  with_info p (fun i =>
    hassert (exclusive i);;
    let pin := u32 (pi_hw_write_pin i + 1) in
    set_info p (set_pins pin (pi_hw_read_pin i) i);;
    hassert (negb (pin =? 0));;
    match pi_parent i, fuel with
    | None, _ => mret tt
    | Some q, S fuel => pagetree_incpin_write fuel q
    | Some q, O => hpanic
    end).

Fixpoint pagetree_decpin_write (fuel : nat) (p : nat) : HM unit :=
  with_info p (fun i =>
    hassert (exclusive i);;
    hassert (negb (pi_hw_write_pin i =? 0));;
    set_info p (set_pins (pi_hw_write_pin i - 1) (pi_hw_read_pin i) i);;
    match pi_parent i, fuel with
    | None, _ => mret tt
    | Some q, S fuel => hassert (pi_ref i =? 1);; pagetree_decpin_write fuel q
    | Some q, O => hpanic
    end).

Definition pagetree_incpin_read (p : nat) : HM unit :=
  with_info p (fun i =>
    let pin := u32 (pi_hw_read_pin i + 1) in
    set_info p (set_pins (pi_hw_write_pin i) pin i);;
    hassert (negb (pin =? 0))).

Definition pagetree_decpin_read (p : nat) : HM unit :=
  with_info p (fun i =>
    hassert (negb (pi_hw_read_pin i =? 0));;
    set_info p (set_pins (pi_hw_write_pin i) (pi_hw_read_pin i - 1) i)).

(** ** The pages of an object *)

(** The loops of [kobject_set_nbytes].  The body of the one that adds pages: *)
Definition kobject_add_page (t : nat) (n : Z) (x : contents) : HM unit :=
  p ← page_alloc;
  r ← hcode (pagetree_put_page t n (Some p));
  match r with
  | Ok _ => set_mem p x
  | Err e => page_free p;; hlift (Err e)
  | Panic => hpanic
  end.

(** Pages [i] and on are dropped; the caller panics when that fails. *)
Fixpoint kobject_drop_pages (t : nat) (i : Z) (n : nat) : HM unit :=
  match n with
  | O => mret tt
  | S n =>
      r ← hcode (pagetree_put_page t i None);
      match r with Ok _ => kobject_drop_pages t (i + 1) n | _ => hpanic end
  end.

Definition zero_page : contents := bytes (replicate (Z.to_nat PGSIZE) 0).

(** Pages [i] and on are added; when that fails, those from [curnpg] on are dropped again. *)
Fixpoint kobject_add_pages (t : nat) (curnpg i : Z) (n : nat) : HM unit :=
  match n with
  | O => mret tt
  | S n =>
      r ← hcode (kobject_add_page t i zero_page);
      match r with
      | Ok _ => kobject_add_pages t curnpg (i + 1) n
      | Err e => kobject_drop_pages t curnpg (Z.to_nat (i - curnpg));; hlift (Err e)
      | Panic => hpanic
      end
  end.

Definition kobject_set_pages (t : nat) (curnpg npages : Z) : HM unit :=
  kobject_drop_pages t npages (Z.to_nat (curnpg - npages));;
  kobject_add_pages t curnpg curnpg (Z.to_nat (npages - curnpg)).
