(* ===== verification/PagetreeCore.v ===== *)
(** * Page trees: a program logic

    What the proofs about page trees look at: the counts, the kinds, the memory of the
    pages, the slots of the trees and the free list, as functions ([core]).  A
    triple [tri c m Q E] says that [m], run in a state with the core [c], does not
    panic and ends in a core that satisfies [Q] or [E].  No page is pinned. *)

From S2P Require Import Prelude KState KObj Pagetree.
From stdpp Require Import options.

Set Default Goal Selector "!".

Record core := mkCore {
  c_ref : nat -> Z;
  c_indir : nat -> bool;
  c_mem : nat -> contents;
  c_tree : nat -> list (option nat);
  c_fl : nat -> bool;
  c_free : list nat
}.

(** An update of a function. *)
Definition upd {A} (p : nat) (a : A) (f : nat -> A) : nat -> A := fun q => if decide (q = p) then a else f q.

Lemma upd_same {A} p (a : A) f : upd p a f p = a.
Proof. unfold upd. by rewrite decide_True. Qed.
Lemma upd_other {A} p q (a : A) f : q <> p -> upd p a f q = f q.
Proof. intros Hne. unfold upd. by rewrite decide_False. Qed.

Definition with_ref (p : nat) (r : Z) (c : core) : core := mkCore (upd p r (c_ref c)) (c_indir c) (c_mem c) (c_tree c) (c_fl c) (c_free c).
Definition with_refs (r : nat -> Z) (c : core) : core := mkCore r (c_indir c) (c_mem c) (c_tree c) (c_fl c) (c_free c).
Definition with_indir (p : nat) (b : bool) (c : core) : core := mkCore (c_ref c) (upd p b (c_indir c)) (c_mem c) (c_tree c) (c_fl c) (c_free c).
Definition with_mem (p : nat) (x : contents) (c : core) : core := mkCore (c_ref c) (c_indir c) (upd p x (c_mem c)) (c_tree c) (c_fl c) (c_free c).
Definition with_tree (t : nat) (x : list (option nat)) (c : core) : core := mkCore (c_ref c) (c_indir c) (c_mem c) (upd t x (c_tree c)) (c_fl c) (c_free c).
Definition with_fl (p : nat) (b : bool) (c : core) : core := mkCore (c_ref c) (c_indir c) (c_mem c) (c_tree c) (upd p b (c_fl c)) (c_free c).
Definition with_free (l : list nat) (c : core) : core := mkCore (c_ref c) (c_indir c) (c_mem c) (c_tree c) (c_fl c) l.

Section logic.
Context (N K : nat).

(** The page [pg] is what the core says of [p]. *)
Record page_has (c : core) (p : nat) (pg : page) : Prop := {
  ph_ref : pi_ref (pg_info pg) = c_ref c p;
  ph_indir : pi_indir (pg_info pg) = c_indir c p;
  ph_mem : pg_mem pg = c_mem c p;
  ph_fl : pi_freepage (pg_info pg) = c_fl c p;
  ph_wsr : pi_write_shared_ref (pg_info pg) = 0;
  ph_wpin : pi_hw_write_pin (pg_info pg) = 0;
  ph_rpin : pi_hw_read_pin (pg_info pg) = 0;
}.

Record has (h : pheap) (c : core) : Prop := {
  hs_N : length (ph_pages h) = N;
  hs_K : length (ph_trees h) = K;
  hs_page : forall p pg, ph_pages h !! p = Some pg -> page_has c p pg;
  hs_tree : forall t x, ph_trees h !! t = Some x -> tree_slots x = c_tree c t /\ length (pt_direct x) = n_direct;
  hs_free : ph_free h = c_free c;
}.

Definition tri {A} (c : core) (m : HM A) (Q : A -> core -> Prop) (E : Z -> core -> Prop) : Prop :=
  forall h, has h c ->
    match m h with
    | (Ok a, h') => exists c', has h' c' /\ Q a c'
    | (Err e, h') => exists c', has h' c' /\ E e c'
    | (Panic, _) => False
    end.

Lemma tri_ret {A} c (a : A) Q E : Q a c -> tri c (mret a) Q E.
Proof. intros HQ h Hh. simpl. eauto. Qed.

Lemma tri_bind {A B} c (m : HM A) (f : A -> HM B) Q Q' E : tri c m Q E -> (forall a c', Q a c' -> tri c' (f a) Q' E) -> tri c (m ≫= f) Q' E.
Proof.
  intros Hm Hf h Hh. specialize (Hm h Hh). unfold mbind, HM_bind. destruct (m h) as [[a|e|] h']; [|done..].
  destruct Hm as (c' & Hh' & HQ). exact (Hf a c' HQ h' Hh').
Qed.

Lemma tri_mono {A} c (m : HM A) (Q Q' : A -> core -> Prop) (E E' : Z -> core -> Prop) :
  tri c m Q E -> (forall a c', Q a c' -> Q' a c') -> (forall e c', E e c' -> E' e c') -> tri c m Q' E'.
Proof. intros Hm HQ HE h Hh. specialize (Hm h Hh). destruct (m h) as [[a|e|] h']; [| |done]; destruct Hm as (c' & ? & ?); eauto. Qed.

Lemma tri_code {A} c (m : HM A) Q E E' : tri c m Q E -> tri c (hcode m) (fun r c' => match r with Ok a => Q a c' | Err e => E e c' | Panic => False end) E'.
Proof. intros Hm h Hh. specialize (Hm h Hh). unfold hcode. destruct (m h) as [[a|e|] h']; done. Qed.

Lemma tri_err {A} c e (Q : A -> core -> Prop) (E : Z -> core -> Prop) : E e c -> tri c (hlift (Err e)) Q E.
Proof. intros HE h Hh. simpl. eauto. Qed.

Lemma tri_assert c b (Q : unit -> core -> Prop) E : b = true -> Q tt c -> tri c (hassert b) Q E.
Proof. intros -> HQ. by apply tri_ret. Qed.

(** ** Pages *)

Lemma tri_get_pg c p E : (p < N)%nat -> tri c (get_pg p) (fun pg c' => c' = c /\ page_has c p pg) E.
Proof.
  intros Hp h Hh. unfold get_pg. destruct (ph_pages h !! p) as [pg|] eqn:Ep.
  - exists c. split_and!; [done..|]. by eapply hs_page.
  - apply lookup_ge_None in Ep. rewrite (hs_N _ _ Hh) in Ep. lia.
Qed.

Lemma tri_get_info c p E : (p < N)%nat ->
  tri c (get_info p) (fun i c' => c' = c /\ pi_ref i = c_ref c p /\ pi_indir i = c_indir c p /\ pi_freepage i = c_fl c p /\ pi_write_shared_ref i = 0 /\ pi_hw_write_pin i = 0 /\ pi_hw_read_pin i = 0) E.
Proof. intros Hp. eapply tri_bind; [by apply tri_get_pg|]. intros pg c' [-> Hpg]. apply tri_ret. by destruct Hpg. Qed.

(** A page is replaced. *)
Lemma has_set_pg h c c' p pg :
  has h c -> (p < N)%nat -> page_has c' p pg -> (forall q, q <> p -> c_ref c' q = c_ref c q /\ c_indir c' q = c_indir c q /\ c_mem c' q = c_mem c q /\ c_fl c' q = c_fl c q) ->
  c_tree c' = c_tree c -> c_free c' = c_free c -> has (mkPheap (<[p := pg]> (ph_pages h)) (ph_trees h) (ph_free h) (ph_invalidated h)) c'.
Proof.
  intros [H1 H2 H3 H4 H5] Hp Hpg Ho Ht Hf. split; simpl; [by rewrite length_insert|done| |by rewrite Ht|by rewrite Hf].
  intros q x Hx. apply list_lookup_insert_Some in Hx as [(<- & <- & _)|[Hne Hx]]; [done|]. destruct (Ho q ltac:(done)) as (E1 & E2 & E3 & E4).
  destruct (H3 q x Hx). split; congruence.
Qed.

Lemma tri_upd_info c c' p f E :
  (p < N)%nat ->
  (forall i, pi_ref i = c_ref c p -> pi_indir i = c_indir c p -> pi_freepage i = c_fl c p ->
     pi_ref (f i) = c_ref c' p /\ pi_indir (f i) = c_indir c' p /\ pi_freepage (f i) = c_fl c' p) ->
  (forall i, pi_write_shared_ref (f i) = pi_write_shared_ref i /\ pi_hw_write_pin (f i) = pi_hw_write_pin i /\ pi_hw_read_pin (f i) = pi_hw_read_pin i) ->
  (forall q, q <> p -> c_ref c' q = c_ref c q /\ c_indir c' q = c_indir c q /\ c_mem c' q = c_mem c q /\ c_fl c' q = c_fl c q) ->
  c_mem c' p = c_mem c p -> c_tree c' = c_tree c -> c_free c' = c_free c ->
  tri c (upd_info p f) (fun _ c1 => c1 = c') E.
Proof.
  intros Hp Hf Hq Ho Hm Ht Hfr h Hh. unfold upd_info, get_info, set_info, get_pg, set_pg, mbind, HM_bind, mret, HM_ret. simpl.
  destruct (ph_pages h !! p) as [pg|] eqn:Ep; [|apply lookup_ge_None in Ep; rewrite (hs_N _ _ Hh) in Ep; lia]. rewrite Ep. simpl.
  exists c'. split; [|done]. pose proof (hs_page _ _ Hh p pg Ep) as [P1 P2 P3 P4 P5 P6 P7]. eapply has_set_pg; try done.
  destruct (Hf _ P1 P2 P4) as (E1 & E2 & E3). destruct (Hq (pg_info pg)) as (E4 & E5 & E6). split; simpl; congruence.
Qed.

Ltac info_tac := intros; simpl; repeat first [rewrite upd_same|rewrite upd_other by done]; split_and!; congruence.

Lemma tri_set_ref c p f E : (p < N)%nat -> tri c (upd_info p (fun i => set_ref (f (pi_ref i)) i)) (fun _ c' => c' = with_ref p (f (c_ref c p)) c) E.
Proof. intros Hp. apply tri_upd_info; try done; info_tac. Qed.

Lemma tri_set_indir c p E : (p < N)%nat -> tri c (upd_info p set_indir) (fun _ c' => c' = with_indir p true c) E.
Proof. intros Hp. apply tri_upd_info; try done; info_tac. Qed.

Lemma tri_set_plist c p f E : (p < N)%nat -> tri c (upd_info p (fun i => set_plist (f i) i)) (fun _ c' => c' = c) E.
Proof. intros Hp. apply tri_upd_info; done. Qed.

Lemma tri_set_parent c p q E : (p < N)%nat -> tri c (upd_info p (set_parent q)) (fun _ c' => c' = c) E.
Proof. intros Hp. apply tri_upd_info; done. Qed.

Lemma tri_set_dirty c p b E : (p < N)%nat -> tri c (upd_info p (set_dirty b)) (fun _ c' => c' = c) E.
Proof. intros Hp. apply tri_upd_info; done. Qed.

(** A new info; the pins of a page stay zero. *)
Lemma tri_set_info c p i E :
  (p < N)%nat -> pi_write_shared_ref i = 0 -> pi_hw_write_pin i = 0 -> pi_hw_read_pin i = 0 ->
  tri c (set_info p i) (fun _ c' => c' = with_fl p (pi_freepage i) (with_indir p (pi_indir i) (with_ref p (pi_ref i) c))) E.
Proof.
  intros Hp H1 H2 H3. eapply tri_bind; [by apply tri_get_pg|]. intros pg c' [-> Hpg] h Hh. simpl. eexists. split; [|done].
  destruct Hpg as [P1 P2 P3 P4 P5 P6 P7]. eapply has_set_pg; [done..| | |done|done].
  - split; simpl; rewrite ?upd_same; done.
  - intros q Hq. simpl. by rewrite !upd_other.
Qed.

Lemma tri_set_mem c p x E : (p < N)%nat -> tri c (set_mem p x) (fun _ c' => c' = with_mem p x c) E.
Proof.
  intros Hp. eapply tri_bind; [by apply tri_get_pg|]. intros pg c' [-> Hpg] h Hh. simpl. eexists. split; [|done].
  destruct Hpg as [P1 P2 P3 P4 P5 P6 P7]. eapply has_set_pg; [done..| | |done|done].
  - split; simpl; rewrite ?upd_same; done.
  - intros q Hq. simpl. by rewrite !upd_other.
Qed.

(** ** Entries *)

Definition slots_of (c : core) (n : node) : list (option nat) :=
  match n with
  | in_page p => match c_mem c p with slots es => es | bytes _ => [] end
  | in_tree t => c_tree c t
  end.

(** The entry exists. *)
Definition valid_loc (c : core) (l : eloc) : Prop :=
  match l.1 with in_page p => (p < N)%nat | in_tree t => (t < K)%nat end /\ (l.2 < length (slots_of c l.1))%nat.

Definition slot (c : core) (l : eloc) : option nat := default None (slots_of c l.1 !! l.2).

Lemma tri_read_ent c l E : valid_loc c l -> tri c (read_ent l) (fun e c' => c' = c /\ e = slot c l) E.
Proof.
  destruct l as [[p|t] i]; intros [Hp Hi]; simpl in *.
  - eapply tri_bind; [by apply tri_get_pg|]. intros pg c' [-> Hpg]. rewrite (ph_mem _ _ _ Hpg). unfold slot, slots_of in *. simpl. destruct (c_mem c p) as [d|es]; [simpl in Hi; lia|].
    apply lookup_lt_is_Some_2 in Hi as [e He]. rewrite (res_nth_lookup _ _ _ He), He. by apply tri_ret.
  - intros h Hh. unfold fetch_tree, mbind, HM_bind. destruct (ph_trees h !! t) as [x|] eqn:Ex.
    + destruct (hs_tree _ _ Hh t x Ex) as [-> _]. unfold hlift. apply lookup_lt_is_Some_2 in Hi as [e He]. rewrite (res_nth_lookup _ _ _ He). unfold slot. simpl. rewrite He. eauto.
    + apply lookup_ge_None in Ex. rewrite (hs_K _ _ Hh) in Ex. lia.
Qed.

Definition with_slot (l : eloc) (e : option nat) (c : core) : core :=
  match l.1 with
  | in_page p => with_mem p (slots (<[l.2 := e]> (slots_of c (in_page p)))) c
  | in_tree t => with_tree t (<[l.2 := e]> (c_tree c t)) c
  end.

Lemma tree_set_slots i e x : length (pt_direct x) = n_direct -> tree_slots (tree_set i e x) = <[i := e]> (tree_slots x) /\ length (pt_direct (tree_set i e x)) = n_direct.
Proof.
  intros Hl. unfold tree_set, tree_slots. destruct (Nat.ltb_spec i n_direct) as [Hi|Hi]; simpl; rewrite ?length_insert; (split; [|done]).
  - by rewrite insert_app_l by lia.
  - rewrite <- Hl in Hi |- *. rewrite (insert_app_r_alt _ _ _ _ Hi). done.
Qed.

Lemma tri_write_ent c l e E : valid_loc c l -> tri c (write_ent l e) (fun _ c' => c' = with_slot l e c) E.
Proof.
  destruct l as [[p|t] i]; intros [Hp Hi]; simpl in *.
  - eapply tri_bind; [by apply tri_get_pg|]. intros pg c' [-> Hpg]. rewrite (ph_mem _ _ _ Hpg). unfold with_slot. simpl in *.
    destruct (c_mem c p) as [d|es]; [simpl in Hi; lia|]. by apply tri_set_mem.
  - intros h Hh. unfold fetch_tree, put_tree, mbind, HM_bind. destruct (ph_trees h !! t) as [x|] eqn:Ex; [|apply lookup_ge_None in Ex; rewrite (hs_K _ _ Hh) in Ex; lia].
    eexists. split; [|done]. destruct Hh as [H1 H2 H3 H4 H5]. destruct (H4 t x Ex) as [E1 E2]. destruct (tree_set_slots i e x E2) as [E3 E4].
    split; simpl; [done|by rewrite length_insert| |intros t' y Hy|done].
    + intros q pg Hq. destruct (H3 q pg Hq). by split.
    + apply list_lookup_insert_Some in Hy as [(<- & <- & _)|[Hne Hy]]; [rewrite upd_same, E3, E1; done|]. rewrite upd_other by done. by apply H4.
Qed.

Lemma tri_set_entry c l e' E :
  valid_loc c l -> (forall p, slot c l = Some p -> (p < N)%nat) -> (forall p, e' = Some p -> (p < N)%nat) ->
  tri c (pagetree_set_entry l e') (fun _ c' => c' = with_slot l e' c) E.
Proof.
  intros Hl Hold Hnew. unfold pagetree_set_entry. eapply tri_bind; [by apply tri_read_ent|]. intros e c' [-> ->].
  eapply (tri_bind _ _ _ (fun _ c' => c' = c)); [destruct (slot c l); [apply tri_set_plist; auto|by apply tri_ret]|]. intros [] c' ->.
  eapply (tri_bind _ _ _ (fun _ c' => c' = c)); [destruct e'; [apply tri_set_plist; auto|by apply tri_ret]|]. intros [] c' ->. by apply tri_write_ent.
Qed.

Lemma tri_link_entry c l p E : valid_loc c l -> slot c l = Some p -> (p < N)%nat -> tri c (pagetree_link_entry l) (fun _ c' => c' = c) E.
Proof. intros Hl Hs Hp. unfold pagetree_link_entry. eapply tri_bind; [by apply tri_read_ent|]. intros e c' [-> ->]. rewrite Hs. by apply tri_set_plist. Qed.

(** ** The free list *)

Lemma tri_page_free c p E : (p < N)%nat -> c_fl c p = false -> tri c (page_free p) (fun _ c' => c' = with_free (p :: c_free c) (with_fl p true (with_indir p (c_indir c p) (with_ref p (c_ref c p) c)))) E.
Proof.
  intros Hp Hfl. unfold page_free. eapply tri_bind; [by apply tri_get_info|]. intros i c' (-> & I1 & I2 & I3 & I4 & I5 & I6).
  eapply tri_bind; [apply (tri_assert _ _ (fun _ c' => c' = c)); [by rewrite I3, Hfl|done]|]. intros [] c' ->.
  eapply tri_bind; [by apply tri_set_info|]. intros [] c' ->. simpl. rewrite I1, I2. intros h Hh. unfold get_free_list, set_free_list, mbind, HM_bind. eexists. split; [|done].
  destruct Hh as [H1 H2 H3 H4 H5]. split; simpl; try done; [|by rewrite H5]. intros q pg Hq. destruct (H3 q pg Hq). by split.
Qed.

Lemma tri_page_alloc c :
  Forall (fun p => (p < N)%nat /\ c_fl c p = true) (c_free c) ->
  tri c page_alloc (fun p c' => exists l, c_free c = p :: l /\ c' = with_fl p false (with_indir p (c_indir c p) (with_ref p (c_ref c p) (with_free l c)))) (fun e c' => c' = c /\ e = E_RESTART /\ c_free c = []).
Proof.
  intros Hf. unfold page_alloc. eapply (tri_bind _ _ _ (fun l c' => c' = c /\ l = c_free c)).
  { intros h Hh. simpl. exists c. split_and!; [done..|]. by destruct Hh. }
  intros l c' [-> ->]. destruct (c_free c) as [|p l] eqn:Ef; [by apply tri_err|]. apply list.Forall_cons in Hf as [[Hp Hfl] _].
  eapply (tri_bind _ _ _ (fun _ c' => c' = with_free l c)).
  { intros h [H1 H2 H3 H4 H5]. simpl. eexists. split; [|done]. split; simpl; try done. intros q pg Hq. destruct (H3 q pg Hq). by split. }
  intros [] c' ->. eapply tri_bind; [by apply tri_get_info|]. intros i c' (-> & I1 & I2 & I3 & I4 & I5 & I6). simpl in *.
  eapply tri_bind; [apply (tri_assert _ _ (fun _ c' => c' = with_free l c)); [by rewrite I3|done]|]. intros [] c' ->.
  eapply tri_bind; [by apply tri_set_info|]. intros [] c' ->. apply tri_ret. exists l. split; [done|]. simpl. by rewrite I1, I2.
Qed.
End logic.
