(* ===== verification/PagetreeInv.v ===== *)
(** * Page trees: the count of every page is the number of entries that have it *)

From S2P Require Import Prelude KState KObj Pagetree PagetreeCore.
From stdpp Require Import options.

Set Default Goal Selector "!".

(** ** Counting entries *)

Definition one (e : option nat) (q : nat) : nat := if decide (e = Some q) then 1 else 0.

Definition refs (q : nat) (es : list (option nat)) : nat := sum_list_with (fun e => one e q) es.

(** References that no entry has. *)
Definition pend (q : nat) (D : list nat) : nat := refs q (Some <$> D).

Lemma refs_app q es es' : refs q (es ++ es') = (refs q es + refs q es')%nat.
Proof. apply sum_list_with_app. Qed.

Lemma pend_cons q p D : pend q (p :: D) = (one (Some p) q + pend q D)%nat.
Proof. done. Qed.

Lemma one_same q : one (Some q) q = 1%nat.
Proof. unfold one. by rewrite decide_True. Qed.
Lemma one_other e q : e <> Some q -> one e q = 0%nat.
Proof. intros. unfold one. by rewrite decide_False. Qed.

Lemma refs_insert q es i e e' : es !! i = Some e -> (refs q (<[i := e']> es) + one e q = refs q es + one e' q)%nat.
Proof.
  revert i. induction es as [|x es IH]; intros [|i] Hi; simplify_eq/=; [lia|]. specialize (IH i Hi). unfold refs in *. simpl. lia.
Qed.

Lemma refs_lookup q es i : es !! i = Some (Some q) -> (1 <= refs q es)%nat.
Proof. intros Hi. pose proof (refs_insert q es i _ None Hi) as Hr. rewrite one_same in Hr. unfold one in Hr at 1. simpl in Hr. lia. Qed.

Lemma refs_length q es : (refs q es <= length es)%nat.
Proof. unfold refs. induction es as [|e es IH]; simpl; [lia|]. unfold one at 1. case_decide; lia. Qed.

(** The pages that a list of entries has. *)
Definition somes (es : list (option nat)) : list nat := omap id es.

Lemma pend_somes q es : pend q (somes es) = refs q es.
Proof.
  induction es as [|[p|] es IH]; [done|..].
  - change (pend q (p :: somes es) = one (Some p) q + refs q es)%nat. by rewrite pend_cons, IH.
  - change (pend q (somes es) = one None q + refs q es)%nat. by rewrite IH.
Qed.

Lemma pend_app q D D' : pend q (D ++ D') = (pend q D + pend q D')%nat.
Proof. unfold pend. rewrite fmap_app. apply refs_app. Qed.

Lemma pend_in q D : q ∈ D -> (1 <= pend q D)%nat.
Proof. intros Hq. apply list_elem_of_lookup in Hq as [i Hi]. apply (refs_lookup q _ i). by rewrite list_lookup_fmap, Hi. Qed.

Lemma sum_seq_upd (f g : nat -> nat) j n :
  (forall i, i <> j -> g i = f i) -> (j < n)%nat -> (sum_list_with g (seq 0 n) + f j = sum_list_with f (seq 0 n) + g j)%nat.
Proof.
  intros Hfg. assert (H0 : forall a m, ((a <= j < a + m) -> sum_list_with g (seq a m) + f j = sum_list_with f (seq a m) + g j)%nat /\
    (~ (a <= j < a + m)%nat -> sum_list_with g (seq a m) = sum_list_with f (seq a m))).
  { intros a m. revert a. induction m as [|m IH]; intros a; simpl; [split; [lia|done]|]. destruct (IH (S a)) as [I1 I2]. destruct (decide (a = j)) as [->|Hne].
    - split; [|lia]. intros _. rewrite I2 by lia. lia.
    - rewrite (Hfg a) by done. split; intros Hj; [rewrite <- Nat.add_assoc, I1 by lia; lia|rewrite I2 by lia; done]. }
  intros Hj. apply H0. lia.
Qed.

Lemma sum_seq_ext (f g : nat -> nat) n : (forall i, (i < n)%nat -> g i = f i) -> sum_list_with g (seq 0 n) = sum_list_with f (seq 0 n).
Proof.
  intros Hfg. assert (H0 : forall a m, (forall i, (a <= i < a + m)%nat -> g i = f i) -> sum_list_with g (seq a m) = sum_list_with f (seq a m)).
  { intros a m. revert a. induction m as [|m IH]; intros a H'; simpl; [done|]. rewrite IH, H'; [done|lia|]. intros; apply H'; lia. }
  apply H0. intros; apply Hfg; lia.
Qed.

Lemma sum_seq_le (f : nat -> nat) b n : (forall i, (i < n)%nat -> (f i <= b)%nat) -> (sum_list_with f (seq 0 n) <= b * n)%nat.
Proof.
  intros Hf. assert (H0 : forall a m, (forall i, (a <= i < a + m)%nat -> (f i <= b)%nat) -> (sum_list_with f (seq a m) <= b * m)%nat).
  { intros a m. revert a. induction m as [|m IH]; intros a H'; simpl; [lia|]. pose proof (H' a ltac:(lia)). specialize (IH (S a) ltac:(intros; apply H'; lia)). lia. }
  apply H0. intros; apply Hf; lia.
Qed.

Section inv.
Context (N K : nat).

(** The entries of a page count when it is an indirect page in use. *)
Definition live (c : core) (p : nat) : bool := (0 <? c_ref c p) && c_indir c p.

Definition page_refs (c : core) (q p : nat) : nat := if live c p then refs q (slots_of c (in_page p)) else 0.

Definition count (c : core) (q : nat) : nat :=
  (sum_list_with (page_refs c q) (seq 0 N) + sum_list_with (fun t => refs q (c_tree c t)) (seq 0 K))%nat.

(** An entry that counts. *)
Definition live_loc (c : core) (l : eloc) : Prop :=
  valid_loc N K c l /\ match l.1 with in_page p => live c p = true | in_tree _ => True end.

Lemma count_ext c c' q :
  (forall p, (p < N)%nat -> page_refs c' q p = page_refs c q p) -> (forall t, c_tree c' t = c_tree c t) -> count c' q = count c q.
Proof. intros Hp Ht. unfold count. f_equal; apply sum_seq_ext; [done|]. intros t _. by rewrite Ht. Qed.

(** One page changes. *)
Lemma count_page c c' q p :
  (p < N)%nat -> (forall p', p' <> p -> page_refs c' q p' = page_refs c q p') -> (forall t, c_tree c' t = c_tree c t) ->
  (count c' q + page_refs c q p = count c q + page_refs c' q p)%nat.
Proof.
  intros Hp Ho Ht. unfold count. pose proof (sum_seq_upd (page_refs c q) (page_refs c' q) p N Ho Hp).
  rewrite (sum_seq_ext (fun t => refs q (c_tree c t)) (fun t => refs q (c_tree c' t))); [lia|]. intros t _. by rewrite Ht.
Qed.

Lemma slot_lookup c l : (l.2 < length (slots_of c l.1))%nat -> slots_of c l.1 !! l.2 = Some (slot c l).
Proof. intros Hl. unfold slot. apply lookup_lt_is_Some_2 in Hl as [e ->]. done. Qed.

Lemma slots_with_slot_same c l e : slots_of (with_slot l e c) l.1 = <[l.2 := e]> (slots_of c l.1).
Proof. destruct l as [[p|t] i]; simpl; by rewrite upd_same. Qed.

Lemma slots_with_slot_other c l e n : n <> l.1 -> slots_of (with_slot l e c) n = slots_of c n.
Proof. intros Hn. destruct l as [[p|t] i], n as [p'|t']; simpl in *; rewrite ?upd_other by congruence; done. Qed.

Lemma slot_with_slot c l e l' : (l.2 < length (slots_of c l.1))%nat -> slot (with_slot l e c) l' = if decide (l' = l) then e else slot c l'.
Proof.
  intros Hl. unfold slot. destruct (decide (l'.1 = l.1)) as [E1|E1].
  - rewrite E1, slots_with_slot_same. destruct (decide (l'.2 = l.2)) as [E2|E2].
    + rewrite E2, list_lookup_insert_eq by done. rewrite decide_True; [done|]. destruct l, l'; simpl in *; congruence.
    + rewrite list_lookup_insert_ne by done. rewrite decide_False; [done|]. intros ->. done.
  - rewrite slots_with_slot_other by done. rewrite decide_False; [done|]. by intros ->.
Qed.

(** An entry that counts is replaced. *)
Lemma count_with_slot c l e q : live_loc c l -> (count (with_slot l e c) q + one (slot c l) q = count c q + one e q)%nat.
Proof.
  intros [[Hn Hi] Hl]. pose proof (slot_lookup c l Hi) as Hs. destruct l as [[p|t] i]; simpl in *.
  - pose proof (count_page c (with_slot (in_page p, i) e c) q p Hn) as Hc. unfold page_refs, live in *. simpl in *. rewrite Hl in Hc.
    rewrite upd_same in Hc. pose proof (refs_insert q _ i _ e Hs). rewrite <- (Nat.add_cancel_r _ _ (refs q match c_mem c p with bytes _ => [] | slots es => es end)).
    rewrite <- Nat.add_assoc, (Nat.add_comm (one _ _)), Nat.add_assoc, Hc; [lia| |done]. intros p' Hp'. by rewrite upd_other.
  - unfold count. pose proof (sum_seq_upd (fun t' => refs q (c_tree c t')) (fun t' => refs q (upd t (<[i:=e]> (c_tree c t)) (c_tree c) t')) t K) as Hc. simpl in Hc.
    rewrite upd_same in Hc. pose proof (refs_insert q _ i _ e Hs). specialize (Hc ltac:(intros t' Ht'; by rewrite upd_other) Hn).
    rewrite (sum_seq_ext (page_refs c q) (page_refs (with_slot (in_tree t, i) e c) q)) by done. simpl. lia.
Qed.

(** An entry that does not count is replaced. *)
Lemma count_with_slot_dead c p i e q : live c p = false -> count (with_slot (in_page p, i) e c) q = count c q.
Proof.
  intros Hl. apply count_ext; [|done]. intros p' _. unfold page_refs, live in *. simpl. destruct (decide (p' = p)) as [->|Hne]; [by rewrite Hl|]. by rewrite upd_other.
Qed.

Lemma count_ge1 c l q : live_loc c l -> slot c l = Some q -> (1 <= count c q)%nat.
Proof. intros Hl Hs. pose proof (count_with_slot c l None q Hl) as Hc. rewrite Hs, one_same, one_other in Hc by done. lia. Qed.

Lemma live_loc_with_slot c l l' e : live_loc c l -> live_loc (with_slot l' e c) l <-> live_loc c l.
Proof.
  intros _. unfold live_loc, valid_loc. assert (Hlen : length (slots_of (with_slot l' e c) l.1) = length (slots_of c l.1)).
  { destruct (decide (l.1 = l'.1)) as [->|Hne]; [by rewrite slots_with_slot_same, length_insert|by rewrite slots_with_slot_other]. }
  rewrite Hlen. destruct l' as [[]]; done.
Qed.

Lemma count_ge2 c l l' q : live_loc c l -> live_loc c l' -> l <> l' -> slot c l = Some q -> slot c l' = Some q -> (2 <= count c q)%nat.
Proof.
  intros Hl Hl' Hne Hs Hs'. pose proof (count_with_slot c l None q Hl) as Hc. rewrite Hs, one_same, one_other in Hc by done.
  assert (1 <= count (with_slot l None c) q)%nat; [|lia]. apply (count_ge1 _ l'); [by apply live_loc_with_slot|].
  rewrite slot_with_slot by apply Hl. by rewrite decide_False.
Qed.

(** ** The invariant *)

(** [m]: an entry that is about to be replaced, and its page: its reference is already
    among those of [D]. *)
Definition masked (m : option (eloc * nat)) (q : nat) : nat := match m with Some (_, p) => one (Some p) q | None => 0 end.
Definition is_masked (m : option (eloc * nat)) (l : eloc) : Prop := match m with Some (l', _) => l' = l | None => False end.

(** The level of the page of an entry; data pages have level 0. *)
Definition target (lv : nat -> nat) (l : eloc) : nat :=
  match l.1 with in_page p => pred (lv p) | in_tree _ => if (l.2 <? n_direct)%nat then 0 else S (l.2 - n_direct) end.

Record inv (c : core) (lv : nat -> nat) (m : option (eloc * nat)) (D : list nat) : Prop := {
  iv_cnt : forall q, (q < N)%nat -> c_ref c q + Z.of_nat (masked m q) = Z.of_nat (count c q + pend q D);
  iv_ref : forall q, (q < N)%nat -> 0 <= c_ref c q < 2 ^ 32;
  iv_edge : forall l q, live_loc c l -> ~ is_masked m l -> slot c l = Some q -> (q < N)%nat /\ lv q = target lv l /\ (c_indir c q = true <-> (0 < lv q)%nat);
  iv_page : forall p, (p < N)%nat -> live c p = true -> (0 < lv p)%nat /\ length (slots_of c (in_page p)) = n_entries;
  iv_free : NoDup (c_free c) /\ forall p, p ∈ c_free c -> (p < N)%nat /\ c_ref c p = 0 /\ c_indir c p = false /\ c_fl c p = true;
  iv_used : forall p, (p < N)%nat -> p ∉ c_free c -> c_fl c p = false;
  iv_tree : forall t, (t < K)%nat -> length (c_tree c t) = n_slots;
  iv_mask : forall l p, m = Some (l, p) -> live_loc c l /\ slot c l = Some p /\ (p < N)%nat;
  iv_pend : forall q, q ∈ D -> (q < N)%nat;
  iv_lv : forall q, (lv q <= PAGETREE_INDIRECTS)%nat;
}.

(** The page of an entry is in use. *)
Lemma edge_ref c lv m D l q : inv c lv m D -> live_loc c l -> ~ is_masked m l -> slot c l = Some q -> 0 < c_ref c q.
Proof.
  intros HI Hl Hm Hs. destruct (iv_edge _ _ _ _ HI l q Hl Hm Hs) as [Hq _]. pose proof (iv_cnt _ _ _ _ HI q Hq) as Hc.
  destruct m as [[l' p]|]; simpl in Hc; [|pose proof (count_ge1 c l q Hl Hs); lia]. destruct (iv_mask _ _ _ _ HI l' p eq_refl) as (Hl' & Hs' & _).
  destruct (decide (p = q)) as [->|Hne].
  - pose proof (count_ge2 c l l' q Hl Hl' ltac:(intros ->; by apply Hm) Hs Hs'). rewrite one_same in Hc. lia.
  - rewrite one_other in Hc by congruence. pose proof (count_ge1 c l q Hl Hs). lia.
Qed.

Lemma count_bound c lv m D q : inv c lv m D -> (count c q <= n_entries * N + n_slots * K)%nat.
Proof.
  intros HI. unfold count. apply Nat.add_le_mono; apply sum_seq_le.
  - intros p Hp. unfold page_refs. destruct (live c p) eqn:El; [|lia]. destruct (iv_page _ _ _ _ HI p Hp El) as [_ <-]. apply refs_length.
  - intros t Ht. rewrite <- (iv_tree _ _ _ _ HI t Ht). apply refs_length.
Qed.

Lemma free_not_live c lv m D p : inv c lv m D -> p ∈ c_free c -> live c p = false.
Proof. intros HI Hp. destruct (iv_free _ _ _ _ HI) as [_ Hf]. destruct (Hf p Hp) as (_ & Hr & _). unfold live. by rewrite Hr. Qed.
End inv.
