(* ===== verification/PagetreeFree.v ===== *)
(** * Page trees: dropping a reference

    [pagetree_decref] frees a page when its last reference goes, with everything below
    that nothing else has. *)

From S2P Require Import Prelude KState KObj Pagetree PagetreeCore PagetreeInv.
From stdpp Require Import options.

Set Default Goal Selector "!".

Section free.
Context (N K : nat).
Abbreviation inv := (PagetreeInv.inv N K).
Abbreviation tri := (PagetreeCore.tri N K).
Abbreviation live_loc := (PagetreeInv.live_loc N K).
Abbreviation count := (PagetreeInv.count N K).

(** ** Changes that keep the invariant *)

(** Cores that have the same entries in use. *)
Lemma live_loc_same c c' l :
  (forall p, l.1 = in_page p -> live c' p = live c p /\ c_mem c' p = c_mem c p) -> (forall t, c_tree c' t = c_tree c t) -> (live_loc c' l <-> live_loc c l) /\ slot c' l = slot c l.
Proof.
  intros Hp Ht. assert (Hs : slots_of c' l.1 = slots_of c l.1).
  { destruct l as [[p|t] i]; simpl; [|done]. destruct (Hp p eq_refl) as [_ E]. simpl in E. by rewrite E. }
  unfold PagetreeInv.live_loc, valid_loc, slot. rewrite Hs. split; [|done]. destruct l as [[p|t] i]; simpl; [|done]. by destruct (Hp p eq_refl) as [-> _].
Qed.

(** Counts change, but not which entries are in use. *)
Lemma inv_with_refs c lv m D D' r :
  inv c lv m D -> (forall q, q ∈ c_free c -> r q = 0) -> (forall q, (q < N)%nat -> 0 <= r q < 2 ^ 32) -> (forall q, (0 <? r q) && c_indir c q = live c q) ->
  (forall q, r q + Z.of_nat (pend q D) = c_ref c q + Z.of_nat (pend q D')) -> (forall q, q ∈ D' -> (q < N)%nat) -> inv (with_refs r c) lv m D'.
Proof.
  intros [H1 H2 H3 H4 H5 H6 H7 H8 H9 H10] Hnf Hr Hlive HD HD'. set (c' := with_refs r c) in *. change (forall q, live c' q = live c q) in Hlive.
  assert (Hll : forall l, (live_loc c' l <-> live_loc c l) /\ slot c' l = slot c l) by (intros l; by apply live_loc_same).
  assert (Hcnt : forall q, count c' q = count c q).
  { intros q. apply count_ext; [|done]. intros p' _. unfold page_refs. by rewrite Hlive. }
  split; try done.
  - intros q Hq. rewrite Hcnt. specialize (H1 q Hq). specialize (HD q). simpl. lia.
  - intros l q Hl' Hm Hs. apply (H3 l q); [by apply Hll|done|]. by rewrite <- (proj2 (Hll l)).
  - intros p' Hp' El. rewrite Hlive in El. auto.
  - destruct H5 as [Hnd Hf]. split; [done|]. intros q Hq. destruct (Hf q Hq) as (F1 & F2 & F3 & F4). split_and!; try done. by apply Hnf.
  - intros l p' Em. destruct (H8 l p' Em) as (M1 & M2 & M3). split_and!; [by apply Hll|by rewrite (proj2 (Hll l))|done].
Qed.

(** One count changes. *)
Lemma inv_with_ref c lv m D D' p r :
  inv c lv m D -> (p < N)%nat -> p ∉ c_free c -> 0 <= r < 2 ^ 32 -> (0 <? r) && c_indir c p = live c p ->
  (forall q, c_ref (with_ref p r c) q + Z.of_nat (pend q D) = c_ref c q + Z.of_nat (pend q D')) -> (forall q, q ∈ D' -> (q < N)%nat) ->
  inv (with_ref p r c) lv m D'.
Proof.
  intros HI Hp Hnf Hr Hl HD HD'. change (with_ref p r c) with (with_refs (upd p r (c_ref c)) c) in *. destruct (iv_free _ _ _ _ _ _ HI) as [_ Hf]. eapply inv_with_refs; [exact HI| | | |done..].
  - intros q Hq. rewrite upd_other by (by intros ->). by apply Hf.
  - intros q Hq. unfold upd. case_decide; [done|]. by apply (iv_ref _ _ _ _ _ _ HI).
  - intros q. unfold upd. case_decide; [by subst|done].
Qed.

(** The mask is above a level. *)
Definition above (m : option (eloc * nat)) (lv : nat -> nat) (k : nat) : Prop :=
  match m with Some ((in_page r, _), _) => (k < lv r)%nat | _ => True end.

Definition children (c : core) (p : nat) : list (option nat) := if c_indir c p then slots_of c (in_page p) else [].

(** The last reference goes: the references of the entries are pending. *)
Lemma inv_dead c lv m D p :
  inv c lv m (p :: D) -> c_ref c p = 1 -> (p < N)%nat -> above m lv (lv p) -> inv (with_ref p 0 c) lv m (somes (children c p) ++ D).
Proof.
  intros HI Hr Hp Hab. pose proof HI as [H1 H2 H3 H4 H5 H6 H7 H8 H9 H10]. set (c' := with_ref p 0 c).
  assert (Hlive : forall q, live c' q = if decide (q = p) then false else live c q).
  { intros q. unfold live, c'. simpl. case_decide as Hq; [subst; by rewrite upd_same|by rewrite upd_other]. }
  assert (Hch : children c p = if live c p then slots_of c (in_page p) else []) by (unfold children, live; by rewrite Hr).
  assert (Hcnt : forall q, (count c' q + refs q (children c p) = count c q)%nat).
  { intros q. pose proof (count_page N K c c' q p Hp) as Hc. unfold page_refs in Hc. rewrite Hlive, decide_True in Hc by done. cbv iota in Hc. rewrite Hch.
    assert (Er : (if live c p then refs q (slots_of c (in_page p)) else 0%nat) = refs q (if live c p then slots_of c (in_page p) else [])) by (by destruct (live c p)).
    rewrite Er in Hc. rewrite Hc; [lia| |done]. intros p' Hne. rewrite Hlive, decide_False by done. done. }
  assert (Hll : forall l, l.1 <> in_page p -> (live_loc c' l <-> live_loc c l) /\ slot c' l = slot c l).
  { intros l Hl. apply live_loc_same; [|done]. intros p' E. rewrite Hlive, decide_False by congruence. done. }
  assert (Hln : forall l, live_loc c' l -> l.1 <> in_page p).
  { intros [[p'|t] i] [_ Hl]; simpl in *; [|done]. rewrite Hlive in Hl. intros [= ->]. by rewrite decide_True in Hl. }
  assert (Hdead : masked m p = 0%nat \/ (masked m p = 1%nat)) by (destruct m as [[l q]|]; simpl; unfold one; [case_decide|]; auto).
  split; try done.
  - intros q Hq. specialize (H1 q Hq). specialize (Hcnt q). rewrite pend_app, pend_somes. rewrite pend_cons in H1. change (c_ref c' q) with (upd p 0 (c_ref c) q). destruct (decide (q = p)) as [->|Hne].
    + rewrite upd_same. rewrite one_same in H1. lia.
    + rewrite upd_other by done. rewrite one_other in H1 by congruence. lia.
  - intros q Hq. unfold c'. simpl. destruct (decide (q = p)) as [->|Hne]; [rewrite upd_same; lia|rewrite upd_other by done; auto].
  - intros l q Hl Hm Hs. destruct (Hll l (Hln l Hl)) as [E1 E2]. apply (H3 l q); [by apply E1|done|congruence].
  - intros p' Hp' El. rewrite Hlive in El. case_decide; [done|]. apply (H4 p'); done.
  - destruct H5 as [Hnd Hf]. split; [done|]. intros q Hq. destruct (Hf q Hq) as (F1 & F2 & F3 & F4). split_and!; try done. unfold c'. simpl. unfold upd. by case_decide.
  - intros l p' Em. destruct (H8 l p' Em) as (M1 & M2 & M3). assert (l.1 <> in_page p) as Hne.
    { subst m. destruct l as [[r|t] i]; simpl in *; [|done]. intros [= ->]. lia. }
    destruct (Hll l Hne) as [E1 E2]. split_and!; [by apply E1|by rewrite E2|done].
  - intros q [Hq|Hq]%elem_of_app; [|apply H9; by right]. unfold somes in Hq. apply list_elem_of_omap in Hq as ([q'|] & Hin & E); [|done]. simpl in E. injection E as ->.
    apply list_elem_of_lookup in Hin as [i Hi]. rewrite Hch in Hi. destruct (live c p) eqn:El; [|done].
    assert (Hl : live_loc c (in_page p, i)).
    { split; [split; [done|by eapply lookup_lt_Some]|done]. }
    assert (Hs : slot c (in_page p, i) = Some q) by (unfold slot; simpl in *; by rewrite Hi).
    apply (H3 _ _ Hl); [|done]. unfold is_masked. destruct m as [[l' p']|]; [|by intros []]. intros ->. simpl in Hab. lia.
Qed.

(** An entry of a page that is not in use is replaced. *)
Lemma inv_with_slot_dead c lv m D p i e : inv c lv m D -> live c p = false -> (p < N)%nat -> (forall l q, m = Some (l, q) -> l.1 <> in_page p) -> inv (with_slot (in_page p, i) e c) lv m D.
Proof.
  intros HI Hd Hp Hm. pose proof HI as [H1 H2 H3 H4 H5 H6 H7 H8 H9 H10]. set (c' := with_slot (in_page p, i) e c).
  assert (Hll : forall l, l.1 <> in_page p -> (live_loc c' l <-> live_loc c l) /\ slot c' l = slot c l).
  { intros l Hl. apply live_loc_same; [|done]. intros p' E. split; [done|]. simpl. apply upd_other. congruence. }
  assert (Hln : forall l, live_loc c' l -> l.1 <> in_page p).
  { intros [[p'|t] j] [_ Hl]; simpl in *; [|done]. intros [= ->]. unfold live in *. simpl in Hl. congruence. }
  split; try done.
  - intros q Hq. unfold c'. rewrite count_with_slot_dead by done. by apply H1.
  - intros l q Hl Hmk Hs. destruct (Hll l (Hln l Hl)) as [E1 E2]. apply (H3 l q); [by apply E1|done|congruence].
  - intros p' Hp' El. destruct (H4 p' Hp' El) as [L1 L2]. split; [done|]. unfold c'. rewrite slots_with_slot_other; [done|]. simpl. intros [= ->]. unfold live in *. simpl in El. congruence.
  - intros l p' Em. destruct (H8 l p' Em) as (M1 & M2 & M3). destruct (Hll l (Hm l p' Em)) as [E1 E2]. split_and!; [by apply E1|by rewrite E2|done].
Qed.
(** A page without references goes to the free list. *)
Lemma inv_freed c c' lv m D p :
  inv c lv m D -> (p < N)%nat -> c_ref c p = 0 -> p ∉ c_free c -> (forall l q, m = Some (l, q) -> l.1 <> in_page p) ->
  (forall q, q <> p -> c_ref c' q = c_ref c q /\ c_indir c' q = c_indir c q /\ c_mem c' q = c_mem c q /\ c_fl c' q = c_fl c q) ->
  c_ref c' p = 0 -> c_indir c' p = false -> c_fl c' p = true -> c_free c' = p :: c_free c -> (forall t, c_tree c' t = c_tree c t) -> inv c' lv m D.
Proof.
  intros HI Hp Hr Hnf Hm Ho R1 R2 R3 R4 R5. pose proof HI as [H1 H2 H3 H4 H5 H6 H7 H8 H9 H10].
  assert (Hlive : forall q, live c' q = live c q).
  { intros q. unfold live. destruct (decide (q = p)) as [->|Hne]; [by rewrite R1, Hr|]. by destruct (Ho q Hne) as (-> & -> & _). }
  assert (Hd : live c p = false) by (unfold live; by rewrite Hr).
  assert (Hll : forall l, l.1 <> in_page p -> (live_loc c' l <-> live_loc c l) /\ slot c' l = slot c l).
  { intros l Hl. apply live_loc_same; [|done]. intros p' E. rewrite Hlive. split; [done|]. apply Ho. congruence. }
  assert (Hln : forall l, live_loc c' l -> l.1 <> in_page p).
  { intros [[p'|t] j] [_ Hl]; simpl in *; [|done]. intros [= ->]. rewrite Hlive in Hl. congruence. }
  split; try done.
  - intros q Hq. replace (count c' q) with (count c q); [|symmetry; apply count_ext; [|done]].
    + rewrite <- H1 by done. f_equal. destruct (decide (q = p)) as [->|Hne]; [congruence|]. by apply Ho.
    + intros p' _. unfold page_refs. rewrite Hlive. destruct (live c p') eqn:El; [|done]. simpl. destruct (Ho p') as (_ & _ & -> & _); [intros ->; congruence|done].
  - intros q Hq. destruct (decide (q = p)) as [->|Hne]; [lia|]. destruct (Ho q Hne) as (-> & _). auto.
  - intros l q Hl Hmk Hs. destruct (Hll l (Hln l Hl)) as [E1 E2]. rewrite E2 in Hs. destruct (H3 l q (proj1 E1 Hl) Hmk Hs) as (A1 & A2 & A3). split_and!; [done..|].
    pose proof (edge_ref N K c lv m D l q HI (proj1 E1 Hl) Hmk Hs) as Hrq. destruct (Ho q) as (_ & -> & _); [intros ->; lia|done].
  - intros p' Hp' El. rewrite Hlive in El. destruct (H4 p' Hp' El) as [L1 L2]. split; [done|]. simpl in *. destruct (Ho p') as (_ & _ & -> & _); [intros ->; congruence|done].
  - rewrite R4. destruct H5 as [Hnd Hf]. split; [by constructor|]. intros q [->|Hq]%elem_of_cons; [done|]. destruct (Hf q Hq) as (F1 & F2 & F3 & F4).
    destruct (Ho q) as (-> & -> & _ & ->); [by intros ->|done].
  - intros q Hq Hnq. rewrite R4 in Hnq. apply not_elem_of_cons in Hnq as [Hne Hnq]. destruct (Ho q Hne) as (_ & _ & _ & ->). auto.
  - intros t Ht. rewrite R5. auto.
  - intros l p' Em. destruct (H8 l p' Em) as (M1 & M2 & M3). destruct (Hll l (Hm l p' Em)) as [E1 E2]. split_and!; [by apply E1|by rewrite E2|done].
Qed.

(** What dropping references may do: pages up to level [k] lose references and are freed;
    [x] is a page that is being taken apart. *)
Record shrink (k : nat) (lv : nat -> nat) (x : option nat) (c c' : core) : Prop := {
  sh_tree : forall t, c_tree c' t = c_tree c t;
  sh_mem : forall q, q ∉ c_free c' -> Some q <> x -> c_mem c' q = c_mem c q /\ c_indir c' q = c_indir c q;
  sh_ref : forall q, c_ref c' q <= c_ref c q;
  sh_high : forall q, (k < lv q)%nat -> c_ref c' q = c_ref c q;
  sh_free : forall q, q ∈ c_free c -> q ∈ c_free c';
  sh_freed : forall q, q ∈ c_free c' -> q ∈ c_free c \/ (0 < c_ref c q /\ (lv q <= k)%nat);
  sh_lost : forall q, 0 < c_ref c q -> c_ref c' q <= 0 -> q ∈ c_free c' \/ x = Some q;
}.

Lemma shrink_refl k lv x c : shrink k lv x c c.
Proof. split; try done; [by left|lia]. Qed.

Lemma shrink_trans k k' lv x x' c c1 c2 : shrink k lv x c c1 -> shrink k' lv x' c1 c2 -> (k <= k')%nat -> (forall q, x = Some q -> x' = Some q \/ q ∈ c_free c2) -> shrink k' lv x' c c2.
Proof.
  intros [A1 A2 A3 A4 A5 A6 A7] [B1 B2 B3 B4 B5 B6 B7] Hk Hx. split.
  - intros t. by rewrite B1, A1.
  - intros q Hq Hne. destruct (B2 q Hq Hne) as [-> ->]. apply A2; [by intros ?%B5|]. intros E. symmetry in E. destruct (Hx q E); congruence.
  - intros q. specialize (A3 q). specialize (B3 q). lia.
  - intros q Hq. rewrite B4, A4 by lia. done.
  - auto.
  - intros q Hq. destruct (B6 q Hq) as [Hf|[Hr Hl]].
    + destruct (A6 q Hf) as [?|[? ?]]; [by left|right; split; [done|lia]].
    + right. specialize (A3 q). split; [lia|done].
  - intros q H0 H2. destruct (Z.le_gt_cases (c_ref c1 q) 0) as [H1|H1]; [|by apply B7]. destruct (A7 q H0 H1) as [?|E]; [left; auto|]. destruct (Hx q E); auto.
Qed.

Definition decref_spec (fuel : nat) : Prop :=
  forall c lv m p D, inv c lv m (p :: D) -> (lv p < fuel)%nat -> above m lv (lv p) ->
    tri c (pagetree_decref fuel p) (fun _ c' => inv c' lv m D /\ shrink (lv p) lv None c c') (fun _ _ => False).

(** The page that is being taken apart. *)
Record apart (p : nat) (es : list (option nat)) (k : nat) (c : core) : Prop := {
  ap_ref : c_ref c p = 0;
  ap_indir : c_indir c p = true;
  ap_free : p ∉ c_free c;
  ap_slots : exists es0, c_mem c p = slots es0 /\ length es0 = n_entries /\ drop k es0 = drop k es;
}.

Lemma somes_drop es k e : es !! k = Some e -> somes (drop k es) = match e with Some q => q :: somes (drop (S k) es) | None => somes (drop (S k) es) end.
Proof. intros He. rewrite (drop_S _ _ _ He). by destruct e. Qed.

Lemma apart_slot p es k c : apart p es k c -> (k < n_entries)%nat -> exists e, es !! k = Some e /\ slot c (in_page p, k) = e /\ (k < length (slots_of c (in_page p)))%nat.
Proof.
  intros [_ _ _ (es0 & Em & Hl & Hd)] Hk. destruct (lookup_lt_is_Some_2 es0 k ltac:(lia)) as [e He]. exists e.
  assert (He' : es !! k = Some e) by (rewrite <- (Nat.add_0_r k), <- lookup_drop, <- Hd, lookup_drop, Nat.add_0_r; done).
  unfold slot. simpl. rewrite Em. rewrite He. split_and!; [done..|lia].
Qed.

(** The loop over its entries. *)
Lemma free_loop fuel lv m p es D n k c :
  decref_spec fuel -> inv c lv m (somes (drop k es) ++ D) -> (p < N)%nat -> (lv p < S fuel)%nat -> above m lv (lv p) -> apart p es k c ->
  (forall q, q ∈ somes es -> lv p = S (lv q)) -> (k + n = n_entries)%nat ->
  tri c (hfor k n (fun k =>
       e ← read_ent (in_page p, k);
       match e with
       | Some q => pagetree_decref fuel q;; pagetree_set_entry (in_page p, k) (Some p)
       | None => mret tt
       end)) (fun _ c' => inv c' lv m D /\ apart p es n_entries c' /\ shrink (lv p) lv (Some p) c c') (fun _ _ => False).
Proof.
  intros Hdec. revert k c. induction n as [|n IH]; intros k c HI Hp Hf Hab Hap Hlv Hkn; cbn [hfor].
  { apply tri_ret. assert (k = n_entries) as -> by lia. destruct Hap as [A1 A2 A3 (es0 & Em & Hl & Hd)].
    assert (drop n_entries es = []) as Hnil by (rewrite <- Hd; apply drop_ge; lia). rewrite Hnil in HI. split_and!; [done| |apply shrink_refl]. split; [done..|]. by exists es0. }
  destruct (apart_slot _ _ _ _ Hap ltac:(lia)) as (e & He & Hs & Hks). rewrite (somes_drop _ _ _ He) in HI.
  assert (Hmp : forall l q, m = Some (l, q) -> l.1 <> in_page p) by (intros [[r|t] i] q ->; simpl in *; [intros [= ->]; lia|done]).
  eapply tri_bind.
  - eapply tri_bind; [by apply (tri_read_ent N K)|]. intros e' c' [-> ->]. rewrite Hs. destruct e as [q|].
    + assert (Hq : lv p = S (lv q)) by (apply Hlv; unfold somes; apply list_elem_of_omap; exists (Some q); split; [by eapply list_elem_of_lookup_2|done]).
      assert (HqN : (q < N)%nat) by (apply (iv_pend _ _ _ _ _ _ HI); left).
      eapply tri_bind; [apply (Hdec c lv m q (somes (drop (S k) es) ++ D) HI); [lia|destruct m as [[[[]]]|]; simpl in *; lia]|]. intros [] c1 [HI1 Hsh].
      assert (Hap1 : apart p es k c1).
      { destruct Hap as [A1 A2 A3 A4]. pose proof (sh_high _ _ _ _ _ Hsh p ltac:(lia)) as E1. assert (Hnf : p ∉ c_free c1) by (intros Hin; destruct (sh_freed _ _ _ _ _ Hsh p Hin) as [?|[? _]]; [done|lia]).
        destruct (sh_mem _ _ _ _ _ Hsh p Hnf ltac:(done)) as [E2 E3]. split; [by rewrite E1|by rewrite E3|done|by rewrite E2]. }
      destruct (apart_slot _ _ _ _ Hap1 ltac:(lia)) as (e1 & He1 & Hs1 & Hks1). rewrite He in He1. injection He1 as <-.
      eapply tri_mono; [apply (tri_set_entry N K c1 (in_page p, k) (Some p) (fun _ _ => False)); [by split|intros q' E; congruence|intros q' [= <-]; done]| |done].
      intros [] c2 ->. instantiate (1 := fun _ c2 => inv c2 lv m (somes (drop (S k) es) ++ D) /\ apart p es (S k) c2 /\ shrink (lv p) lv (Some p) c c2).
      destruct Hap1 as [A1 A2 A3 (es1 & Em & Hl & Hd)]. simpl in Hks1. rewrite Em in Hks1. split_and!.
      * apply inv_with_slot_dead; [done|unfold live; by rewrite A1|done|done].
      * split; [done..|]. simpl. rewrite upd_same, Em. eexists. split_and!; [done|by rewrite length_insert|]. rewrite drop_insert_lt by lia.
        rewrite <- (Nat.add_1_r k), <- !drop_drop, Hd. done.
      * eapply (shrink_trans (lv q) (lv p) lv None (Some p)); [exact Hsh| |lia|done]. split; try done; [|by left|simpl; lia].
        intros q' _ Hne. simpl. split; [|done]. apply upd_other. congruence.
    + apply tri_ret. split_and!; [exact HI| |apply shrink_refl]. destruct Hap as [A1 A2 A3 (es0 & Em & Hl & Hd)]. split; [done..|]. exists es0. split_and!; [done..|].
      rewrite <- (Nat.add_1_r k), <- !drop_drop, Hd. done.
  - intros [] c1 (HI1 & Hap1 & Hsh1). eapply tri_mono; [apply (IH (S k) c1); try done; lia| |done]. intros [] c2 (HI2 & Hap2 & Hsh2). split_and!; [done..|].
    eapply shrink_trans; [exact Hsh1|exact Hsh2|lia|by left].
Qed.

Lemma pend_ref c lv m D p : inv c lv m D -> p ∈ D -> 0 < c_ref c p.
Proof.
  intros HI Hp. pose proof (iv_pend _ _ _ _ _ _ HI p Hp) as HpN. pose proof (iv_cnt _ _ _ _ _ _ HI p HpN) as Hc. pose proof (pend_in p D Hp) as Hpd.
  assert (masked m p <= count c p)%nat; [|lia]. destruct m as [[l q]|]; simpl; [|lia]. destruct (iv_mask _ _ _ _ _ _ HI l q eq_refl) as (Hl & Hs & _).
  unfold one. case_decide as E; [|lia]. injection E as ->. by apply (count_ge1 N K c l).
Qed.

Lemma ref_not_free c lv m D p : inv c lv m D -> 0 < c_ref c p -> p ∉ c_free c.
Proof. intros HI Hr Hin. destruct (iv_free _ _ _ _ _ _ HI) as [_ Hf]. destruct (Hf p Hin) as (_ & ? & _). lia. Qed.

(** The page goes, when its entries are done. *)
Lemma free_end lv m p D c c0 E :
  inv c lv m D -> (p < N)%nat -> c_ref c p = 0 -> p ∉ c_free c -> above m lv (lv p) -> shrink (lv p) lv (Some p) c0 c -> 0 < c_ref c0 p ->
  tri c (set_info p zero_info;; page_free p) (fun _ c' => inv c' lv m D /\ shrink (lv p) lv None c0 c') E.
Proof.
  intros HI Hp Hr Hnf Hab Hsh Hr0. assert (Hmp : forall l q, m = Some (l, q) -> l.1 <> in_page p) by (intros [[r|t] i] q ->; simpl in *; [intros [= ->]; lia|done]).
  eapply tri_bind; [by apply (tri_set_info N K)|]. intros [] c1 ->. eapply tri_mono; [apply (tri_page_free N K _ p E); [done|simpl; by rewrite upd_same]| |done].
  intros [] c2 ->. simpl. set (c2 := with_free _ _).
  assert (Ho : forall q, q <> p -> c_ref c2 q = c_ref c q /\ c_indir c2 q = c_indir c q /\ c_mem c2 q = c_mem c q /\ c_fl c2 q = c_fl c q) by (intros q Hq; unfold c2; simpl; by rewrite !upd_other).
  assert (R1 : c_ref c2 p = 0) by (unfold c2; simpl; by rewrite !upd_same).
  split.
  - eapply (inv_freed c c2); try done; unfold c2; simpl; by rewrite ?upd_same.
  - destruct Hsh as [S1 S2 S3 S4 S5 S6 S7]. split.
    + done.
    + intros q Hq _. unfold c2 in Hq. simpl in Hq. apply not_elem_of_cons in Hq as [Hne Hq]. destruct (Ho q Hne) as (_ & -> & -> & _). apply S2; [done|congruence].
    + intros q. destruct (decide (q = p)) as [->|Hne]; [rewrite R1; lia|]. destruct (Ho q Hne) as (-> & _). done.
    + intros q Hq. destruct (decide (q = p)) as [->|Hne]; [lia|]. destruct (Ho q Hne) as (-> & _). auto.
    + intros q Hq. right. auto.
    + intros q Hq. unfold c2 in Hq. simpl in Hq. apply elem_of_cons in Hq as [->|Hq]; [right; split; [done|lia]|auto].
    + intros q H0 H1. left. destruct (decide (q = p)) as [->|Hne]; [left|]. destruct (Ho q Hne) as (E1 & _). rewrite E1 in H1. destruct (S7 q H0 H1) as [?|?]; [by right|congruence].
Qed.

Lemma shrink_dead c lv p : 0 < c_ref c p -> shrink (lv p) lv (Some p) c (with_ref p 0 c).
Proof.
  intros Hr. split; try done; [| |by left|].
  - intros q. simpl. unfold upd. case_decide; subst; lia.
  - intros q Hq. simpl. rewrite upd_other; [done|]. intros ->. lia.
  - intros q H0. simpl. unfold upd. case_decide; subst; [by right|lia].
Qed.

Lemma shrink_dec c lv p r : 0 < r <= c_ref c p -> shrink (lv p) lv None c (with_ref p r c).
Proof.
  intros Hr. split; try done; [| |by left|].
  - intros q. simpl. unfold upd. case_decide; subst; lia.
  - intros q Hq. simpl. rewrite upd_other; [done|]. intros ->. lia.
  - intros q H0. simpl. unfold upd. case_decide; subst; lia.
Qed.

Lemma decref_ok fuel : decref_spec fuel.
Proof.
  induction fuel as [|fuel IH]; intros c lv m p D HI Hf Hab; [lia|]. cbn [pagetree_decref].
  assert (Hp : (p < N)%nat) by (apply (iv_pend _ _ _ _ _ _ HI); left). pose proof (pend_ref _ _ _ _ p HI ltac:(left)) as Hr. pose proof (iv_ref _ _ _ _ _ _ HI p Hp) as Hb.
  pose proof (ref_not_free _ _ _ _ _ HI Hr) as Hnf.
  eapply tri_bind; [by apply (tri_set_ref N K c p (fun r => u32 (r - 1)))|]. intros [] c1 ->. unfold u32. rewrite Z.mod_small by lia. set (c1 := with_ref p _ c).
  eapply tri_bind; [by apply (tri_get_info N K)|]. intros i c' (-> & I1 & I2 & I3 & I4 & I5 & I6). rewrite I1. unfold c1. simpl. rewrite upd_same.
  destruct (Z.eqb_spec (c_ref c p - 1) 0) as [E0|E0].
  - assert (E1 : c_ref c p = 1) by lia. unfold c1. rewrite E0. pose proof (inv_dead c lv m D p HI E1 Hp Hab) as HI1. set (c2 := with_ref p 0 c) in *.
    assert (R2 : c_ref c2 p = 0) by (unfold c2; simpl; by rewrite upd_same). unfold pagetree_free_page.
    eapply tri_bind; [by apply (tri_get_info N K)|]. intros j c' (-> & J1 & J2 & J3 & J4 & J5 & J6).
    do 4 (eapply tri_bind; [apply (tri_assert N K c2 _ (fun _ c' => c' = c2)); [rewrite ?J1, ?J4, ?J5, ?J6, ?R2; done|done]|]; intros [] c' ->).
    eapply (tri_bind N K _ _ _ (fun _ c3 => inv c3 lv m D /\ c_ref c3 p = 0 /\ (p ∉ c_free c3) /\ shrink (lv p) lv (Some p) c c3)).
    + rewrite J2. change (c_indir c2 p) with (c_indir c p). unfold children in HI1. destruct (c_indir c p) eqn:Ei.
      * assert (El : live c p = true) by (unfold live; rewrite Ei, andb_true_r; by apply Z.ltb_lt). destruct (iv_page _ _ _ _ _ _ HI p Hp El) as [L1 L2].
        set (es := slots_of c (in_page p)) in *.
        eapply tri_mono; [apply (free_loop fuel lv m p es D n_entries 0 c2 IH); [by rewrite drop_0|done|lia|done| | |lia]| |by intros ? ? []].
        -- split; [done|done|done|]. unfold es, slots_of in *. change (c_mem c2 p) with (c_mem c p). destruct (c_mem c p) as [d|es0]; [done|]. by exists es0.
        -- intros q Hq. unfold somes in Hq. apply list_elem_of_omap in Hq as ([q'|] & Hin & E); [|done]. injection E as ->. apply list_elem_of_lookup in Hin as [k Hk].
           assert (Hl : live_loc c (in_page p, k)) by (split; [split; [done|by eapply lookup_lt_Some]|done]).
           assert (Hnm : ~ is_masked m (in_page p, k)) by (unfold is_masked; destruct m as [[l' p']|]; [intros ->; simpl in Hab; lia|by intros []]).
           destruct (iv_edge _ _ _ _ _ _ HI (in_page p, k) q Hl Hnm) as (_ & Ht & _); [unfold slot; cbn [fst snd]; fold es; rewrite Hk; done|]. unfold target in Ht. simpl in Ht. lia.
        -- intros [] c3 (HI3 & [A1 A2 A3 A4] & Hsh). split_and!; [done..|]. eapply shrink_trans; [apply (shrink_dead c lv p Hr)|exact Hsh|lia|by left].
      * apply tri_ret. split_and!; [exact HI1|done|done|by apply shrink_dead].
    + intros [] c3 (HI3 & R3 & F3 & Hsh). by eapply free_end.
  - apply tri_ret. assert (Hpos : 0 < c_ref c p - 1) by lia. split; [|apply shrink_dec; lia].
    eapply (inv_with_ref c lv m (p :: D) D p); try done; [lia| | |intros q Hq; apply (iv_pend _ _ _ _ _ _ HI); by right].
    + unfold live. by rewrite !(proj2 (Z.ltb_lt _ _)).
    + intros q. rewrite pend_cons. simpl. destruct (decide (q = p)) as [->|Hne]; [rewrite upd_same, one_same; lia|rewrite upd_other, one_other by congruence; lia].
Qed.
End free.
