(* ===== verification/PagetreeView.v ===== *)
(** * Page trees: what a tree holds *)

From S2P Require Import Prelude KState KObj Pagetree PagetreeCore PagetreeInv PagetreeFree.
From stdpp Require Import options.

Set Default Goal Selector "!".

Abbreviation E128 := PAGETREE_ENTRIES_PER_PAGE.

(** The entry number [i] of the page of an entry. *)
Definition sub (c : core) (e : option nat) (i : nat) : option nat :=
  match e with Some p => slot c (in_page p, i) | None => None end.

(** What is at offset [n] below an entry whose page has level [L]. *)
Fixpoint val (c : core) (L : nat) (e : option nat) (n : Z) : option contents :=
  match L with
  | O => c_mem c <$> e
  | S L => val c L (sub c e (Z.to_nat (n / E128 ^ Z.of_nat L))) (n mod E128 ^ Z.of_nat L)
  end.

(** The slot of a tree for page [n], the level of its page, and the offset below it. *)
Fixpoint indir_pos (n num : Z) (i k : nat) : option (nat * nat * Z) :=
  match k with
  | O => None
  | S k =>
      let num := num * E128 in
      if n <? num then Some ((n_direct + i)%nat, S i, n) else indir_pos (n - num) num (S i) k
  end.

Definition pos (n : Z) : option (nat * nat * Z) :=
  if n <? PAGETREE_DIRECT_PAGES then Some (Z.to_nat n, 0%nat, 0) else indir_pos (n - PAGETREE_DIRECT_PAGES) 1 0 PAGETREE_INDIRECTS.

Definition view (c : core) (t : nat) (n : Z) : option contents :=
  match pos n with
  | Some (s, L, off) => val c L (slot c (in_tree t, s)) off
  | None => None
  end.

(** ** Trees that hold the same *)

Lemma val_bisim (R : nat -> option nat -> option nat -> Prop) c c' :
  (forall e e', R 0%nat e e' -> c_mem c' <$> e' = c_mem c <$> e) -> (forall L e e' i, R (S L) e e' -> R L (sub c e i) (sub c' e' i)) ->
  forall L e e' n, R L e e' -> val c' L e' n = val c L e n.
Proof. intros H0 HS L. induction L as [|L IH]; intros e e' n HR; simpl; [by apply H0|]. by apply IH, HS. Qed.

Lemma view_bisim (R : nat -> option nat -> option nat -> Prop) c c' t n :
  (forall e e', R 0%nat e e' -> c_mem c' <$> e' = c_mem c <$> e) -> (forall L e e' i, R (S L) e e' -> R L (sub c e i) (sub c' e' i)) ->
  (forall s L off, pos n = Some (s, L, off) -> R L (slot c (in_tree t, s)) (slot c' (in_tree t, s))) -> view c' t n = view c t n.
Proof. intros H0 HS Ht. unfold view. destruct (pos n) as [[[s L] off]|] eqn:E; [|done]. eapply val_bisim; [done..|]. by eapply Ht. Qed.

(** ** Positions *)

Lemma E128_pos L : 0 < E128 ^ Z.of_nat L.
Proof. apply Z.pow_pos_nonneg; [done|lia]. Qed.

Lemma indir_pos_ok n num i k s L off :
  indir_pos n num i k = Some (s, L, off) -> 0 <= n -> num = E128 ^ Z.of_nat i ->
  (s = n_direct + pred L /\ i < L <= i + k)%nat /\ 0 <= off < E128 ^ Z.of_nat L.
Proof.
  revert n num i. induction k as [|k IH]; intros n num i E Hn ->; simpl in E; [done|]. assert (Ep : E128 ^ Z.of_nat i * E128 = E128 ^ Z.of_nat (S i)) by (rewrite Nat2Z.inj_succ, Z.pow_succ_r by lia; lia).
  rewrite Ep in E. destruct (Z.ltb_spec n (E128 ^ Z.of_nat (S i))) as [Hlt|Hge].
  - injection E as <- <- <-. split; [|lia]. simpl. lia.
  - apply IH in E as [[E1 E2] E3]; [|lia|done]. split; [|done]. lia.
Qed.

Lemma pos_ok n s L off : pos n = Some (s, L, off) -> 0 <= n -> (s < n_slots)%nat /\ target (fun _ => 0%nat) (in_tree 0, s) = L /\ 0 <= off < E128 ^ Z.of_nat L.
Proof.
  unfold pos. intros E Hn. destruct (Z.ltb_spec n PAGETREE_DIRECT_PAGES) as [Hlt|Hge].
  - injection E as <- <- <-. unfold n_slots, n_direct, PAGETREE_DIRECT_PAGES, PAGETREE_INDIRECTS in *. split_and!; [lia| |simpl; lia..].
    unfold target. cbn [fst snd]. by rewrite (proj2 (Nat.ltb_lt _ _)) by (unfold n_direct, PAGETREE_DIRECT_PAGES; lia).
  - apply indir_pos_ok in E as [[-> HL] Ho]; [|unfold PAGETREE_DIRECT_PAGES in *; lia|done]. unfold n_slots. split_and!; [lia|unfold target; cbn [fst snd]; rewrite (proj2 (Nat.ltb_ge _ _)) by lia; lia|lia..].
Qed.

(** Different pages have different positions. *)
Lemma indir_pos_next n num i j k s L off : indir_pos n num j k = Some (s, L, off) -> (i < j)%nat -> s <> (n_direct + i)%nat.
Proof.
  revert n num j. induction k as [|k IH]; intros n num j E Hj; cbn [indir_pos] in E; [done|]. case_match; [injection E as E _ _; unfold n_direct, PAGETREE_DIRECT_PAGES in *; simpl in *; lia|]. apply (IH _ _ _ E). lia.
Qed.

Lemma indir_pos_inj n n' num i k s L off : indir_pos n num i k = Some (s, L, off) -> indir_pos n' num i k = Some (s, L, off) -> n = n'.
Proof.
  revert n n' num i. induction k as [|k IH]; intros n n' num i E E'; cbn [indir_pos] in *; [done|]. destruct (n <? _), (n' <? _).
  - congruence.
  - injection E as <- <- <-. by apply (indir_pos_next _ _ i) in E'; [|lia].
  - injection E' as <- <- <-. by apply (indir_pos_next _ _ i) in E; [|lia].
  - pose proof (IH _ _ _ _ E E'). lia.
Qed.

Lemma pos_inj n n' s L off : pos n = Some (s, L, off) -> pos n' = Some (s, L, off) -> 0 <= n -> 0 <= n' -> n = n'.
Proof.
  unfold pos. intros E E' Hn Hn'. destruct (Z.ltb_spec n PAGETREE_DIRECT_PAGES), (Z.ltb_spec n' PAGETREE_DIRECT_PAGES).
  - injection E as <- <- <-. injection E' as E'. lia.
  - injection E as _ <- <-. apply indir_pos_ok in E' as [[_ HL] _]; [lia|lia|done].
  - injection E' as _ <- <-. apply indir_pos_ok in E as [[_ HL] _]; [lia|lia|done].
  - pose proof (indir_pos_inj _ _ _ _ _ _ _ _ E E'). lia.
Qed.

Section own.
Context (N K : nat).
Abbreviation inv := (PagetreeInv.inv N K).
Abbreviation live_loc := (PagetreeInv.live_loc N K).

(** ** The way from a tree to an entry *)

(** [way x c t n l L off]: the way to page [n] of the tree [t] comes to the entry [l],
    whose page has level [L], with [off] to go; with [x], nothing else has the pages
    that it passes. *)
Inductive way (x : bool) (c : core) (t : nat) (n : Z) : eloc -> nat -> Z -> Prop :=
| way_root s L off : pos n = Some (s, L, off) -> way x c t n (in_tree t, s) L off
| way_step l L off p :
    way x c t n l (S L) off -> slot c l = Some p -> (x = true -> c_ref c p = 1) ->
    way x c t n (in_page p, Z.to_nat (off / E128 ^ Z.of_nat L)) L (off mod E128 ^ Z.of_nat L).

(** A way begins in its own tree. *)
Lemma way_tree x c t n l L off t' i : way x c t n l L off -> l = (in_tree t', i) -> t' = t.
Proof. intros [s L' off' E|l' L' off' p Hw Hs Hx]; [by intros [= <- _]|done]. Qed.

(** The entries on the way are in use, and have their levels. *)
Lemma way_ok x c lv t n l L off D :
  inv c lv None D -> (t < K)%nat -> 0 <= n -> way x c t n l L off -> live_loc c l /\ target lv l = L /\ 0 <= off < E128 ^ Z.of_nat L.
Proof.
  intros HI Ht Hn. induction 1 as [s L off E|l L off p Hw (Hl & HL & Hoff) Hs Hx].
  - destruct (pos_ok _ _ _ _ E Hn) as (Hs & HL & Hoff). split_and!; try lia; [|exact HL]. split; [|done]. split; [done|]. simpl. by rewrite (iv_tree _ _ _ _ _ _ HI t Ht).
  - destruct (iv_edge _ _ _ _ _ _ HI l p Hl ltac:(by intros []) Hs) as (Hp & Elv & Hi). rewrite HL in Elv. pose proof (edge_ref _ _ _ _ _ _ _ _ HI Hl ltac:(by intros []) Hs) as Hr.
    assert (El : live c p = true) by (unfold live; rewrite (proj2 (Z.ltb_lt _ _)) by done; apply Hi; lia). destruct (iv_page _ _ _ _ _ _ HI p Hp El) as [_ Hlen].
    pose proof (E128_pos L) as Hpos. rewrite Nat2Z.inj_succ, Z.pow_succ_r in Hoff by lia. split_and!; [|unfold target; simpl; lia|apply Z.mod_pos_bound; lia..].
    split; [|done]. split; [done|]. change (Z.to_nat (off / E128 ^ Z.of_nat L) < length (slots_of c (in_page p)))%nat. rewrite Hlen. unfold n_entries.
    apply Z2Nat.inj_lt; [apply Z.div_pos; lia|done|]. apply Z.div_lt_upper_bound; lia.
Qed.

(** Nothing else comes to an entry on an exclusive way. *)
Lemma way_unique c lv t t' n n' l L L' off off' D :
  inv c lv None D -> (t < K)%nat -> (t' < K)%nat -> 0 <= n -> 0 <= n' ->
  way true c t n l L off -> way false c t' n' l L' off' -> t = t' /\ L = L' /\ (off = off' -> n = n').
Proof.
  intros HI Ht Ht' Hn Hn' Hw. revert L' off'. induction Hw as [s L off E|l L off p Hw IH Hs Hr]; intros L' off' Hw'.
  - remember (in_tree t, s) as l. destruct Hw' as [s' L' off' E'|]; [|done]. injection Heql as -> ->. split; [done|]. destruct (pos_ok _ _ _ _ E Hn) as (_ & E1 & _). destruct (pos_ok _ _ _ _ E' Hn') as (_ & E2 & _).
    assert (L = L') as -> by (by rewrite <- E1, <- E2). split; [done|]. intros ->. by eapply pos_inj.
  - remember (in_page p, Z.to_nat (off / E128 ^ Z.of_nat L)) as l1. destruct Hw' as [|l' L' off' p' Hw' Hs' _]; [done|]. injection Heql1 as -> Ei.
    destruct (way_ok _ _ _ _ _ _ _ _ _ HI Ht Hn Hw) as (Hl & HL & Hoff). destruct (way_ok _ _ _ _ _ _ _ _ _ HI Ht' Hn' Hw') as (Hl' & HL' & Hoff').
    assert (l' = l) as ->.
    { destruct (decide (l' = l)) as [|Hne]; [done|]. destruct (iv_edge _ _ _ _ _ _ HI l p Hl ltac:(by intros []) Hs) as [Hp _].
      pose proof (count_ge2 N K c l l' p Hl Hl' ltac:(congruence) Hs Hs') as H2. pose proof (iv_cnt _ _ _ _ _ _ HI p Hp) as Hc. rewrite Hr in Hc by done. simpl in Hc. lia. }
    destruct (IH _ _ Hw') as (-> & [= ->] & Hoff2). split_and!; [done..|]. intros Em. apply Hoff2. pose proof (E128_pos L') as Hpos.
    rewrite (Z.div_mod off (E128 ^ Z.of_nat L')), (Z.div_mod off' (E128 ^ Z.of_nat L')) by lia. rewrite Em.
    assert (Ed : off / E128 ^ Z.of_nat L' = off' / E128 ^ Z.of_nat L') by (apply Z2Nat.inj; [apply Z.div_pos; lia..|done]). by rewrite Ed.
Qed.

(** The way as far as an entry gives what the tree holds. *)
Lemma way_view x c t n l L off : way x c t n l L off -> view c t n = val c L (slot c l) off.
Proof.
  induction 1 as [s L off E|l L off p Hw IH Hs Hx]; [unfold view; by rewrite E|]. rewrite IH. simpl. by rewrite Hs.
Qed.
(** The way to an entry stays, when the entries above it and the counts of their pages do. *)
Lemma way_frame c c' lv D t n l L off :
  inv c lv None D -> (t < K)%nat -> 0 <= n -> way true c t n l L off ->
  (forall l' q, live_loc c l' -> (L < target lv l')%nat -> slot c l' = Some q -> slot c' l' = Some q /\ c_ref c' q = c_ref c q) -> way true c' t n l L off.
Proof.
  intros HI Ht Hn Hw. induction Hw as [s L off E|l L off p Hw IH Hs Hr]; intros Hf; [by constructor|].
  destruct (way_ok _ _ _ _ _ _ _ _ _ HI Ht Hn Hw) as (Hl & HL & _). destruct (Hf l p Hl ltac:(lia) Hs) as [E1 E2].
  econstructor; [|exact E1|by rewrite E2]. apply IH. intros l' q Hl' Hlt. apply Hf; [done|lia].
Qed.

Lemma way_frame_sole c c' t n l L off :
  way true c t n l L off -> (forall l' L' off' q, way true c t n l' (S L') off' -> slot c l' = Some q -> c_ref c q = 1 -> slot c' l' = Some q /\ c_ref c' q = 1) -> way true c' t n l L off.
Proof.
  intros Hw Hf. induction Hw as [s L off E|l L off p Hw IH Hs Hr]; [by constructor|]. destruct (Hf l L off p Hw Hs (Hr eq_refl)) as [E1 E2]. by econstructor.
Qed.

(** Nothing else has the pages on the way to page [n] of [t]. *)
Definition sole (c : core) (t : nat) (n : Z) : Prop := exists l, way true c t n l 0 0.

Lemma val_none c L off : val c L None off = None.
Proof. revert off. induction L as [|L IH]; intros off; simpl; [done|apply IH]. Qed.

(** A page of a tree stays, when the entries on the way to it do. *)
Lemma view_way c c' t n :
  (forall l L off, way false c t n l L off -> slot c' l = slot c l) -> (forall l off p, way false c t n l 0 off -> slot c l = Some p -> c_mem c' p = c_mem c p) -> view c' t n = view c t n.
Proof.
  intros Hs Hm. assert (H0 : forall L l off, way false c t n l L off -> val c' L (slot c' l) off = val c L (slot c l) off).
  { induction L as [|L IH]; intros l off Hw; rewrite (Hs _ _ _ Hw); destruct (slot c l) as [p|] eqn:E; simpl; rewrite ?val_none; try done.
    - f_equal. by eapply Hm.
    - apply IH. by econstructor. }
  unfold view. destruct (pos n) as [[[s L] off]|] eqn:E; [|done]. apply H0. by constructor.
Qed.
End own.
