(* ===== verification/PagetreeStep.v ===== *)
(** * Page trees: steps that keep the counts

    Each change that the code makes to pages and entries, with what becomes of the
    invariant and of the references that no entry has yet. *)

From S2P Require Import Prelude KState KObj Pagetree PagetreeCore PagetreeInv PagetreeFree.
From stdpp Require Import options.

Set Default Goal Selector "!".

Lemma pend_perm q D D' : D ≡ₚ D' -> pend q D = pend q D'.
Proof. induction 1 as [|p D D' _ IH|p p' D|D1 D2 D3 _ IH1 _ IH2]; rewrite ?pend_cons; [done|by rewrite IH|lia|congruence]. Qed.

Lemma pend_length q D : (pend q D <= length D)%nat.
Proof. unfold pend. rewrite <- (length_fmap Some D). apply refs_length. Qed.

Lemma elem_of_somes q es : q ∈ somes es <-> exists i, es !! i = Some (Some q).
Proof.
  unfold somes. rewrite list_elem_of_omap. split.
  - intros ([q'|] & Hin & E); [|done]. injection E as ->. apply list_elem_of_lookup in Hin as [i Hi]. by exists i.
  - intros [i Hi]. exists (Some q). split; [by eapply list_elem_of_lookup_2|done].
Qed.

Section step.
Context (N K : nat).
Abbreviation inv := (PagetreeInv.inv N K).
Abbreviation live_loc := (PagetreeInv.live_loc N K).
Abbreviation count := (PagetreeInv.count N K).

(** A page without references may get any level. *)
Lemma inv_relevel c lv m D p k : inv c lv m D -> c_ref c p = 0 -> (k <= PAGETREE_INDIRECTS)%nat -> inv c (upd p k lv) m D.
Proof.
  intros HI Hr Hk. pose proof HI as [H1 H2 H3 H4 H5 H6 H7 H8 H9 H10].
  assert (Hn : forall q, live c q = true -> q <> p) by (intros q Hl ->; unfold live in Hl; by rewrite Hr in Hl).
  split; try done.
  - intros l q Hl Hm Hs. pose proof (edge_ref N K c lv m D l q HI Hl Hm Hs) as Hq. rewrite (upd_other p q) by (intros ->; lia). destruct (H3 l q Hl Hm Hs) as (A1 & A2 & A3). split_and!; [done| |done].
    rewrite A2. unfold target. destruct l as [[p'|t] i]; [|done]. simpl. rewrite upd_other; [done|]. by apply Hn, Hl.
  - intros q Hq Hl. rewrite upd_other by auto. auto.
  - intros q. unfold upd. case_decide; auto.
Qed.

(** Only memory that is not in use changes, and the free list. *)
Lemma inv_ext c c' lv m D :
  inv c lv m D -> (forall q, c_ref c' q = c_ref c q) -> (forall q, c_indir c' q = c_indir c q) -> (forall q, live c q = true -> c_mem c' q = c_mem c q) -> (forall t, c_tree c' t = c_tree c t) ->
  NoDup (c_free c') -> (forall p, p ∈ c_free c' -> p ∈ c_free c /\ c_fl c' p = true) -> (forall p, (p < N)%nat -> p ∉ c_free c' -> c_fl c' p = false) -> inv c' lv m D.
Proof.
  intros [H1 H2 H3 H4 [_ H5] H6 H7 H8 H9 H10] Er Ei Em Et Hnd Hf Hu.
  assert (Hlive : forall q, live c' q = live c q) by (intros q; unfold live; by rewrite Er, Ei).
  assert (Hsl : forall p, live c p = true -> slots_of c' (in_page p) = slots_of c (in_page p)) by (intros p Hp; simpl; by rewrite Em).
  assert (Hll : forall l, (live_loc c' l <-> live_loc c l) /\ (live_loc c l -> slot c' l = slot c l)).
  { intros [[p|t] i]; unfold PagetreeInv.live_loc, valid_loc, slot; cbn [fst snd]; [|simpl; by rewrite Et]. rewrite Hlive. destruct (live c p) eqn:El; [by rewrite Hsl|]. split; [|by intros [_ ?]]. by split; intros [_ ?]. }
  split; try done.
  - intros q Hq. rewrite Er, H1 by done. f_equal. f_equal. symmetry. apply count_ext; [|done]. intros p _. unfold page_refs. rewrite Hlive. destruct (live c p) eqn:El; [by rewrite Hsl|done].
  - intros q Hq. rewrite Er. auto.
  - intros l q Hl Hm Hs. apply Hll in Hl. rewrite Ei. apply (H3 l q); [done..|]. by rewrite <- (proj2 (Hll l) Hl).
  - intros p Hp El. rewrite Hlive in El. rewrite Hsl by done. auto.
  - split; [done|]. intros p Hp. destruct (Hf p Hp) as [Hp' Hfl]. destruct (H5 p Hp') as (F1 & F2 & F3 & F4). by rewrite Er, Ei.
  - intros t Ht. rewrite Et. auto.
  - intros l p E. destruct (H8 l p E) as (M1 & M2 & M3). split_and!; [by apply Hll|by rewrite (proj2 (Hll l) M1)|done].
Qed.

(** A page that was just allocated. *)
Record fresh (c : core) (p : nat) : Prop := { fr_N : (p < N)%nat; fr_ref : c_ref c p = 0; fr_indir : c_indir c p = false; fr_free : p ∉ c_free c }.

Definition taken (p : nat) (l : list nat) (c : core) : core := with_fl p false (with_indir p (c_indir c p) (with_ref p (c_ref c p) (with_free l c))).

Lemma taken_same p l c : (forall q, c_ref (taken p l c) q = c_ref c q) /\ (forall q, c_indir (taken p l c) q = c_indir c q).
Proof. split; intros q; simpl; unfold upd; case_decide; congruence. Qed.

Lemma inv_alloc c lv m D p l : inv c lv m D -> c_free c = p :: l -> inv (taken p l c) lv m D /\ fresh (taken p l c) p.
Proof.
  intros HI Ef. pose proof HI as [H1 H2 H3 H4 [H5 H5'] H6 H7 H8 H9 H10]. destruct (taken_same p l c) as [Er Ei]. rewrite Ef in *. apply list.NoDup_cons in H5 as [Hnp Hnd]. destruct (H5' p) as (F1 & F2 & F3 & F4); [left|]. split.
  - eapply (inv_ext c); try done.
    + intros q Hq. simpl in *. rewrite upd_other by (by intros ->). rewrite Ef. split; [by right|]. apply H5'. by right.
    + intros q Hq Hn. simpl in *. unfold upd. case_decide as E; [done|]. apply H6; [done|]. by apply not_elem_of_cons.
  - split; [done|by rewrite Er|by rewrite Ei|done].
Qed.

Lemma inv_set_mem c lv m D p x : inv c lv m D -> live c p = false -> inv (with_mem p x c) lv m D.
Proof.
  intros HI Hl. pose proof HI as [H1 H2 H3 H4 [H5 H5'] H6 H7 H8 H9 H10]. eapply (inv_ext c); try done.
  - intros q Hq. simpl. apply upd_other. intros ->. congruence.
  - intros q Hq. split; [done|]. by apply H5'.
Qed.

(** ** Counting up *)

Section up.
Context (Hbound : Z.of_nat (n_entries * N + n_slots * K) + 1000 < 2 ^ 32).

Lemma inv_incref c lv m D p :
  inv c lv m D -> (p < N)%nat -> p ∉ c_free c -> (0 < c_ref c p \/ c_indir c p = false) -> (length D <= 200)%nat ->
  u32 (c_ref c p + 1) = c_ref c p + 1 /\ inv (with_ref p (c_ref c p + 1) c) lv m (p :: D).
Proof using Type*.
  intros HI Hp Hf Hl HD. pose proof (iv_cnt _ _ _ _ _ _ HI p Hp) as Hc. pose proof (iv_ref _ _ _ _ _ _ HI p Hp) as Hr. pose proof (count_bound _ _ _ _ _ _ p HI) as Hcb. pose proof (pend_length p D) as Hpd.
  assert (Hlt : c_ref c p + 1 < 2 ^ 32) by lia. split; [unfold u32; apply Z.mod_small; lia|].
  eapply inv_with_ref; [exact HI|done|done|lia| | |].
  - unfold live. destruct Hl as [Hl| ->]; [|by rewrite !andb_false_r]. by rewrite !(proj2 (Z.ltb_lt _ _)) by lia.
  - intros q. rewrite pend_cons. simpl. destruct (decide (q = p)) as [->|Hne]; [rewrite upd_same, one_same; lia|rewrite upd_other, one_other by congruence; lia].
  - intros q [->|Hq]%elem_of_cons; [done|]. by apply (iv_pend _ _ _ _ _ _ HI).
Qed.

End up.

(** ** Entries *)

(** A page becomes an indirect page: its entries get the references that were made for them. *)
Lemma inv_make_live c lv D p es :
  inv c lv None (somes es ++ D) -> 0 < c_ref c p -> c_indir c p = false -> (p < N)%nat -> slots_of c (in_page p) = es -> length es = n_entries -> (0 < lv p)%nat ->
  (forall q, q ∈ somes es -> lv p = S (lv q) /\ (c_indir c q = true <-> (0 < lv q)%nat)) -> inv (with_indir p true c) lv None D.
Proof.
  intros HI Hr Hi Hp Hes Hlen Hlv Hch. pose proof HI as [H1 H2 H3 H4 H5 H6 H7 H8 H9 H10]. set (c' := with_indir p true c).
  assert (Hd : live c p = false) by (unfold live; by rewrite Hi, andb_false_r).
  assert (Hlp : live c' p = true) by (unfold live, c'; simpl; rewrite upd_same, (proj2 (Z.ltb_lt _ _)) by done; done).
  assert (Hlo : forall q, q <> p -> live c' q = live c q) by (intros q Hq; unfold live, c'; simpl; by rewrite upd_other).
  assert (Hcnt : forall q, count c' q = (count c q + refs q es)%nat).
  { intros q. pose proof (count_page N K c c' q p Hp) as Hc. unfold page_refs in Hc. rewrite Hlp, Hd in Hc. change (slots_of c' (in_page p)) with (slots_of c (in_page p)) in Hc. rewrite Hes in Hc.
    rewrite <- Hc; [lia| |done]. intros p' Hne. rewrite Hlo by done. done. }
  split; try done.
  - intros q Hq. rewrite Hcnt. specialize (H1 q Hq). rewrite pend_app, pend_somes in H1. simpl in *. lia.
  - intros l q Hl _ Hs. assert (Hl0 : l.1 = in_page p \/ live_loc c l).
    { destruct Hl as [Hv Hl]. destruct l as [[p'|t] i]; [|right; done]. destruct (decide (p' = p)) as [->|Hne]; [by left|]. simpl in Hl. rewrite Hlo in Hl by done. by right. }
    destruct Hl0 as [E|Hl0].
    + destruct l as [n i]. simpl in E. subst n. assert (Hq : q ∈ somes es).
      { apply elem_of_somes. exists i. destruct Hl as [[_ Hi'] _]. apply slot_lookup in Hi'. rewrite Hs in Hi'. rewrite <- Hi', <- Hes. done. }
      destruct (Hch q Hq) as [A1 A2]. split_and!; [apply H9, elem_of_app; by left|unfold target; simpl; lia|]. unfold c'. simpl. rewrite upd_other; [done|]. intros ->. lia.
    + destruct (H3 l q Hl0 ltac:(by intros []) Hs) as (A1 & A2 & A3). split_and!; [done..|]. unfold c'. simpl. rewrite upd_other; [done|]. intros ->. rewrite Hi in A3. apply A3 in Hlv. done.
  - intros q Hq El. destruct (decide (q = p)) as [->|Hne]; [split; [done|]; by rewrite <- Hlen, <- Hes|]. rewrite Hlo in El by done. by apply (H4 q).
  - destruct H5 as [Hnd Hf]. split; [done|]. intros q Hq. destruct (Hf q Hq) as (F1 & F2 & F3 & F4). split_and!; try done. unfold c'. simpl. rewrite upd_other; [done|]. intros ->. lia.
  - intros q Hq. apply H9, elem_of_app. by right.
Qed.

(** The entries of an empty tree get the references that were made for them. *)
Lemma inv_set_tree c lv D t es :
  inv c lv None (somes es ++ D) -> (t < K)%nat -> somes (c_tree c t) = [] -> length es = n_slots ->
  (forall i q, es !! i = Some (Some q) -> lv q = target lv (in_tree t, i) /\ (c_indir c q = true <-> (0 < lv q)%nat)) -> inv (with_tree t es c) lv None D.
Proof.
  intros HI Ht He Hlen Hch. pose proof HI as [H1 H2 H3 H4 H5 H6 H7 H8 H9 H10]. set (c' := with_tree t es c).
  assert (Hcnt : forall q, count c' q = (count c q + refs q es)%nat).
  { intros q. unfold PagetreeInv.count. rewrite (sum_seq_ext (page_refs c q) (page_refs c' q)) by done.
    pose proof (sum_seq_upd (fun t' => refs q (c_tree c t')) (fun t' => refs q (c_tree c' t')) t K) as Hs. cbv beta in Hs.
    assert (E0 : refs q (c_tree c t) = 0%nat) by (rewrite <- pend_somes, He; done). rewrite E0 in Hs. unfold c' at 2 in Hs. simpl in Hs. rewrite upd_same in Hs. rewrite <- Nat.add_assoc, <- Hs; [unfold c'; simpl; lia| |done].
    intros t' Hne. unfold c'. simpl. by rewrite upd_other. }
  split; try done.
  - intros q Hq. rewrite Hcnt. specialize (H1 q Hq). rewrite pend_app, pend_somes in H1. simpl in *. lia.
  - intros l q Hl _ Hs. destruct (decide (l.1 = in_tree t)) as [E|Hne].
    + destruct l as [n i]. simpl in E. subst n. assert (Hi : es !! i = Some (Some q)) by (destruct Hl as [[_ Hi'] _]; apply slot_lookup in Hi'; rewrite Hs in Hi'; rewrite <- Hi'; unfold c'; simpl; by rewrite upd_same).
      destruct (Hch i q Hi) as [A1 A2]. split_and!; [|done..]. apply H9, elem_of_app. left. apply elem_of_somes. by exists i.
    + assert (E : slots_of c' l.1 = slots_of c l.1) by (destruct l as [[p|t'] i]; simpl in *; [done|]; rewrite upd_other by congruence; done). unfold PagetreeInv.live_loc, valid_loc, slot in Hl, Hs. rewrite E in Hl, Hs.
      apply (H3 l q); [exact Hl|by intros []|exact Hs].
  - intros t' Ht'. unfold c'. simpl. unfold upd. case_decide; auto.
  - intros q Hq. apply H9, elem_of_app. by right.
Qed.

(** The reference of an entry is taken from it. *)
Lemma inv_mask c lv D l p : inv c lv None D -> live_loc c l -> slot c l = Some p -> inv c lv (Some (l, p)) (p :: D) /\ above (Some (l, p)) lv (lv p).
Proof.
  intros HI Hl Hs. pose proof HI as [H1 H2 H3 H4 H5 H6 H7 H8 H9 H10]. destruct (H3 l p Hl ltac:(by intros []) Hs) as (Hp & Ht & _). split.
  - split; try done.
    + intros q Hq. rewrite pend_cons. specialize (H1 q Hq). simpl in *. lia.
    + intros l' q Hl' _. apply H3; [done|by intros []].
    + intros l' p' [= <- <-]. done.
    + intros q [->|Hq]%elem_of_cons; auto.
  - destruct l as [[r|t] i]; simpl; [|done]. destruct Hl as [[Hr _] Hl]. destruct (H4 r Hr Hl) as [Hlv _]. unfold target in Ht. simpl in Ht. lia.
Qed.

(** An entry that has no reference gets one. *)
Definition given (e : option nat) (D : list nat) : list nat := match e with Some q => q :: D | None => D end.

Lemma inv_set_slot c lv m l e D :
  inv c lv m (given e D) -> live_loc c l -> (m = None /\ slot c l = None \/ exists p, m = Some (l, p)) ->
  (forall q, e = Some q -> lv q = target lv l /\ (c_indir c q = true <-> (0 < lv q)%nat)) -> inv (with_slot l e c) lv None D.
Proof.
  intros HI Hl Hm Hch. pose proof HI as [H1 H2 H3 H4 H5 H6 H7 H8 H9 H10]. set (c' := with_slot l e c).
  assert (Er : c_ref c' = c_ref c /\ c_indir c' = c_indir c /\ c_fl c' = c_fl c /\ c_free c' = c_free c) by (unfold c', with_slot; by destruct (l.1)). destruct Er as (Er & Ei & Efl & Ef).
  assert (Hpn : forall q, pend q (given e D) = (one e q + pend q D)%nat) by (intros q; destruct e; [by rewrite <- pend_cons|done]).
  assert (Hmk : forall q, masked m q = one (slot c l) q).
  { intros q. destruct Hm as [[-> ->]|[p ->]]; [done|]. destruct (H8 l p eq_refl) as (_ & -> & _). done. }
  assert (Hlive : forall q, live c' q = live c q) by (intros q; unfold live; by rewrite Er, Ei).
  split.
  - intros q Hq. specialize (H1 q Hq). pose proof (count_with_slot N K c l e q Hl) as Hc. fold c' in Hc. rewrite Er. rewrite Hpn, Hmk in H1. simpl. lia.
  - intros q Hq. rewrite Er. auto.
  - intros l' q Hl' _ Hs. unfold c' in Hl', Hs. rewrite slot_with_slot in Hs by apply Hl. rewrite Ei. destruct (decide (l' = l)) as [->|Hne].
    + subst e. split; [|by apply Hch]. apply H9. left.
    + assert (Hl0 : live_loc c l').
      { destruct Hl' as [[Hv1 Hv2] Hv3]. fold c' in Hv2, Hv3. split; [split; [done|]|destruct l' as [[p|t] i]; cbn [fst] in *; [by rewrite <- Hlive|done]].
        destruct (decide (l'.1 = l.1)) as [E|E]; [rewrite E in *; unfold c' in Hv2; by rewrite slots_with_slot_same, length_insert in Hv2|unfold c' in Hv2; by rewrite slots_with_slot_other in Hv2]. }
      apply (H3 l' q); [done| |done]. destruct Hm as [[-> _]|[p ->]]; [by intros []|]. simpl. congruence.
  - intros q Hq El. rewrite Hlive in El. destruct (H4 q Hq El) as [A1 A2]. split; [done|]. rewrite <- A2. unfold c'.
    destruct (decide (in_page q = l.1)) as [->|Hne]; [by rewrite slots_with_slot_same, length_insert|by rewrite slots_with_slot_other].
  - rewrite Ef, Er, Ei, Efl. done.
  - rewrite Ef, Efl. done.
  - intros t Ht. rewrite <- (H7 t Ht). change (c_tree c' t) with (slots_of c' (in_tree t)). change (c_tree c t) with (slots_of c (in_tree t)). unfold c'.
    destruct (decide (in_tree t = l.1)) as [->|Hne]; [by rewrite slots_with_slot_same, length_insert|by rewrite slots_with_slot_other].
  - done.
  - intros q Hq. apply H9. destruct e; [by right|done].
  - done.
Qed.
End step.
