(* ===== verification/PagetreeCow.v ===== *)
(** * Page trees: copy on write

    [pagetree_cow] gives an entry a page that nothing else has, and no tree can tell
    the difference. *)

From S2P Require Import Prelude KState KObj Pagetree PagetreeCore PagetreeInv PagetreeFree PagetreeView PagetreeStep.
From stdpp Require Import options.

Set Default Goal Selector "!".

Section cow.
Context (N K : nat).
Abbreviation inv := (PagetreeInv.inv N K).
Abbreviation tri := (PagetreeCore.tri N K).
Abbreviation live_loc := (PagetreeInv.live_loc N K).
Abbreviation count := (PagetreeInv.count N K).
Abbreviation fresh := (PagetreeStep.fresh N).

(** ** Loops over entries *)

(** References for the entries of [es]. *)
Definition grown (es : list (option nat)) (c c' : core) : Prop :=
  exists r, c' = with_refs r c /\ forall q, r q = c_ref c q + Z.of_nat (refs q es).

Lemma refs_nil q : refs q [] = 0%nat.
Proof. done. Qed.

Lemma refs_drop q es k e : es !! k = Some e -> refs q (drop k es) = (one e q + refs q (drop (S k) es))%nat.
Proof. intros He. by rewrite (drop_S _ _ _ He). Qed.

Lemma incref_loop nd es n k c :
  slots_of c nd = es -> match nd with in_page p => (p < N)%nat | in_tree t => (t < K)%nat end -> (k + n = length es)%nat ->
  (forall q, q ∈ somes es -> (q < N)%nat /\ 0 <= c_ref c q /\ c_ref c q + Z.of_nat (refs q (drop k es)) < 2 ^ 32) ->
  tri c (hfor k n (fun k =>
    e ← read_ent (nd, k);
    match e with
    | Some q => pagetree_incref q;; pagetree_link_entry (nd, k)
    | None => mret tt
    end)) (fun _ c' => grown (drop k es) c c') (fun _ _ => False).
Proof.
  intros Hes Hnd. revert k c Hes. induction n as [|n IH]; intros k c Hes Hkn Hb; cbn [hfor].
  { apply tri_ret. exists (c_ref c). split; [by destruct c|]. intros q. rewrite drop_ge by lia. rewrite refs_nil. lia. }
  destruct (lookup_lt_is_Some_2 es k ltac:(lia)) as [e He]. assert (Hv : valid_loc N K c (nd, k)) by (split; [exact Hnd|cbn [fst snd]; rewrite Hes; lia]).
  assert (Hs : slot c (nd, k) = e) by (unfold slot; cbn [fst snd]; by rewrite Hes, He).
  eapply (tri_bind N K _ _ _ (fun _ c1 => exists r, c1 = with_refs r c /\ forall q, r q = c_ref c q + Z.of_nat (one e q))).
  - eapply tri_bind; [by apply (tri_read_ent N K)|]. intros e' c' [-> ->]. rewrite Hs. destruct e as [q|].
    + assert (Hq : q ∈ somes es) by (apply elem_of_somes; by exists k). destruct (Hb q Hq) as (Hq1 & Hq2 & Hq3). rewrite (refs_drop _ _ _ _ He), one_same in Hq3.
      eapply tri_bind; [by apply (tri_set_ref N K c q (fun r => u32 (r + 1)))|]. intros [] c' ->. eapply tri_mono; [apply (tri_link_entry N K _ _ q (fun _ _ => False)); [exact Hv|exact Hs|done]| |done]. intros [] c' ->.
      unfold u32. rewrite Z.mod_small by lia. exists (upd q (c_ref c q + 1) (c_ref c)). split; [done|]. intros q'. destruct (decide (q' = q)) as [->|Hne]; [rewrite upd_same, one_same; lia|rewrite upd_other, one_other by congruence; lia].
    + apply tri_ret. exists (c_ref c). split; [by destruct c|]. intros q. rewrite one_other by done. lia.
  - intros [] c1 (r & -> & Hr). eapply tri_mono; [apply (IH (S k) (with_refs r c)); [by destruct nd|lia|]| |done].
    + intros q Hq. destruct (Hb q Hq) as (Hq1 & Hq2 & Hq3). rewrite (refs_drop _ _ _ _ He) in Hq3. simpl. rewrite Hr. split_and!; [done|lia..].
    + intros [] c2 (r2 & -> & Hr2). exists r2. split; [done|]. intros q. rewrite Hr2, (refs_drop _ _ _ _ He). simpl. rewrite Hr. lia.
Qed.

(** No page is pinned, so no entry has to be copied at once. *)
Lemma unpinned_loop nd es n k c (cow : eloc -> HM Z) :
  slots_of c nd = es -> match nd with in_page p => (p < N)%nat | in_tree t => (t < K)%nat end -> (k + n = length es)%nat -> (forall q, q ∈ somes es -> (q < N)%nat) ->
  tri c (hfor k n (fun k =>
    e ← read_ent (nd, k);
    match e with
    | Some q =>
        i ← get_info q;
        if pi_hw_write_pin i =? 0 then mret tt else cow (nd, k);; mret tt
    | None => mret tt
    end)) (fun _ c' => c' = c) (fun _ _ => False).
Proof.
  intros Hes Hnd. revert k. induction n as [|n IH]; intros k Hkn Hb; cbn [hfor]; [by apply tri_ret|].
  destruct (lookup_lt_is_Some_2 es k ltac:(lia)) as [e He]. assert (Hv : valid_loc N K c (nd, k)) by (split; [exact Hnd|cbn [fst snd]; rewrite Hes; lia]).
  assert (Hs : slot c (nd, k) = e) by (unfold slot; cbn [fst snd]; by rewrite Hes, He).
  eapply (tri_bind N K _ _ _ (fun _ c1 => c1 = c)).
  - eapply tri_bind; [by apply (tri_read_ent N K)|]. intros e' c' [-> ->]. rewrite Hs. destruct e as [q|]; [|by apply tri_ret].
    eapply tri_bind; [apply (tri_get_info N K); apply Hb, elem_of_somes; by exists k|]. intros i c' (-> & _ & _ & _ & _ & I5 & _). rewrite I5. by apply tri_ret.
  - intros [] c1 ->. apply IH; [lia|done].
Qed.

(** References for entries of pages that are in use. *)
Lemma inv_grown c c' lv m D es :
  inv c lv m D -> grown es c c' -> (forall q, q ∈ somes es -> (q < N)%nat /\ 0 < c_ref c q) -> (forall q, (q < N)%nat -> c_ref c q + Z.of_nat (refs q es) < 2 ^ 32) ->
  inv c' lv m (somes es ++ D).
Proof.
  intros HI (r & -> & Hr) Hes Hb. assert (H0 : forall q, c_ref c q <= 0 -> refs q es = 0%nat).
  { intros q Hq. destruct (refs q es) eqn:E; [done|]. destruct (decide (q ∈ somes es)) as [Hin|Hn]; [apply Hes in Hin; lia|]. rewrite <- pend_somes in E.
    exfalso. clear - E Hn. induction (somes es) as [|x xs IH]; [done|]. apply not_elem_of_cons in Hn as [H1 H2]. rewrite pend_cons, one_other in E by congruence. by apply IH. }
  eapply inv_with_refs; [exact HI| | | | |].
  - intros q Hq. destruct (iv_free _ _ _ _ _ _ HI) as [_ Hf]. destruct (Hf q Hq) as (_ & Hq' & _). rewrite Hr, H0 by lia. lia.
  - intros q Hq. rewrite Hr. specialize (Hb q Hq). pose proof (iv_ref _ _ _ _ _ _ HI q Hq). lia.
  - intros q. unfold live. f_equal. rewrite Hr. destruct (Z.ltb_spec 0 (c_ref c q)); [apply Z.ltb_lt; lia|]. rewrite H0 by done. apply Z.ltb_ge. lia.
  - intros q. rewrite pend_app, pend_somes, Hr. lia.
  - intros q [Hq|Hq]%elem_of_app; [by apply Hes|by apply (iv_pend _ _ _ _ _ _ HI)].
Qed.

Lemma indir_copy_ok c src dst es cow :
  slots_of c (in_page dst) = es -> (dst < N)%nat -> (src < N)%nat -> length es = n_entries -> c_indir c src = true ->
  (forall q, q ∈ somes es -> (q < N)%nat /\ 0 <= c_ref c q /\ c_ref c q + Z.of_nat (refs q es) < 2 ^ 32) ->
  tri c (pagetree_indir_copy cow src dst) (fun _ c' => exists c1, grown es c c1 /\ c' = with_indir dst true c1) (fun _ _ => False).
Proof.
  intros Hes Hd Hs Hlen Hi Hb. unfold pagetree_indir_copy. eapply tri_bind; [apply (incref_loop (in_page dst) es n_entries 0 c); [done|done|lia|by rewrite drop_0]|]. rewrite drop_0. intros [] c1 Hg.
  assert (Hes1 : slots_of c1 (in_page dst) = es /\ c_indir c1 src = true) by (destruct Hg as (r & -> & _); done). destruct Hes1 as [Hes1 Hi1].
  eapply tri_bind; [apply (unpinned_loop (in_page dst) es n_entries 0 c1 cow); [done|done|lia|intros q Hq; by apply Hb]|]. intros [] c' ->.
  eapply tri_bind; [by apply (tri_get_info N K)|]. intros i c' (-> & _ & I2 & _). eapply tri_bind; [apply (tri_assert N K c1 _ (fun _ c' => c' = c1)); [by rewrite I2|done]|]. intros [] c' ->.
  eapply tri_mono; [by apply (tri_set_indir N K _ _ (fun _ _ => False))| |done]. intros [] c' ->. by exists c1.
Qed.

Lemma tri_decref_shared c p fuel E : (p < N)%nat -> 1 < c_ref c p < 2 ^ 32 -> tri c (pagetree_decref fuel p) (fun _ c' => c' = with_ref p (c_ref c p - 1) c) E.
Proof.
  intros Hp Hr. assert (E1 : u32 (c_ref c p - 1) = c_ref c p - 1) by (unfold u32; apply Z.mod_small; lia).
  destruct fuel as [|fuel]; cbn [pagetree_decref]; (eapply tri_bind; [by apply (tri_set_ref N K c p (fun r => u32 (r - 1)))|]; intros [] c1 ->; rewrite E1;
    eapply tri_bind; [by apply (tri_get_info N K)|]; intros i c' (-> & I1 & _); rewrite I1; simpl; rewrite upd_same, (proj2 (Z.eqb_neq _ _)) by lia; by apply tri_ret).
Qed.

(** ** What no tree can tell *)

(** A page that is neither free nor in an entry. *)
Definition loose (c : core) (q : nat) : Prop := (q < N)%nat /\ (q ∉ c_free c) /\ c_ref c q = 0.

(** Only the tree [t] gets other pages. *)
Record keeps (t : nat) (c c' : core) : Prop := {
  kp_view : forall t' n, (t' < K)%nat -> 0 <= n -> view c' t' n = view c t' n;
  kp_tree : forall t', t' <> t -> c_tree c' t' = c_tree c t';
  kp_fresh : forall q, fresh c q -> fresh c' q /\ c_mem c' q = c_mem c q;
  kp_loose : forall q, loose c' q -> loose c q;
  kp_sole : forall t' n, (t' < K)%nat -> 0 <= n -> sole c t' n -> sole c' t' n;
}.

Lemma keeps_refl t c : keeps t c c.
Proof. by split. Qed.

Lemma keeps_trans t c c1 c2 : keeps t c c1 -> keeps t c1 c2 -> keeps t c c2.
Proof.
  intros [A1 A4 A2 A3 A5] [B1 B4 B2 B3 B5]. split.
  - intros t' n Ht Hn. by rewrite B1, A1.
  - intros t' Ht. by rewrite B4, A4.
  - intros q Hq. destruct (A2 q Hq) as [Hq1 E1]. destruct (B2 q Hq1) as [Hq2 E2]. split; congruence.
  - auto.
  - auto.
Qed.

(** ** A copy *)

(** The entry [l] of the page [p] has got the copy [x]. *)
Record copied (c c' : core) (lv : nat -> nat) (l : eloc) (p x : nat) : Prop := {
  cd_slot : forall l', l' <> l -> l'.1 <> in_page x -> slot c' l' = slot c l';
  cd_new : slot c' l = Some x;
  cd_copy : c_mem c' x = c_mem c p;
  cd_mem : forall q, q <> x -> in_page q <> l.1 -> c_mem c' q = c_mem c q;
  cd_tree : forall t, in_tree t <> l.1 -> c_tree c' t = c_tree c t;
  cd_ref : forall q, q <> x -> q <> p -> c_ref c q <= c_ref c' q /\ ((lv p <= lv q)%nat \/ c_ref c q = 0 \/ q ∉ somes (children c p) -> c_ref c' q = c_ref c q);
  cd_refp : 0 < c_ref c' p;
  cd_refx : c_ref c' x = 1;
  cd_indir : forall q, q <> x -> c_indir c' q = c_indir c q;
  cd_free : c_free c = x :: c_free c';
}.

Section facts.
Context (c c' : core) (lv : nat -> nat) (D : list nat) (l : eloc) (p x : nat).
Context (HI : inv c lv None D) (Hl : live_loc c l) (Hs : slot c l = Some p) (Hc : copied c c' lv l p x).

Lemma copied_free : x ∈ c_free c /\ c_ref c x = 0.
Proof using Type*.
  assert (Hx : x ∈ c_free c) by (rewrite (cd_free _ _ _ _ _ _ Hc); left). split; [done|]. destruct (iv_free _ _ _ _ _ _ HI) as [_ Hf]. by apply Hf.
Qed.

Lemma copied_page q : live c q = true -> q <> x.
Proof using Type*. intros El ->. unfold live in El. by rewrite (proj2 copied_free) in El. Qed.

Lemma copied_loc l' : live_loc c l' -> l'.1 <> in_page x.
Proof using Type*. intros [_ Hl'] E. rewrite E in Hl'. by apply (copied_page x). Qed.

(** The pages at the same place before and after. *)
Definition twin (L : nat) (e e' : option nat) : Prop :=
  match e, e' with
  | Some q, Some q' => (q < N)%nat /\ lv q = L /\ 0 < c_ref c q /\ (c_indir c q = true <-> (0 < lv q)%nat) /\ (q' = q \/ q = p /\ q' = x)
  | None, None => True
  | _, _ => False
  end.

Lemma twin_loc l1 l2 L : live_loc c l1 \/ slot c l1 = None -> target lv l1 = L -> (slot c' l2 = slot c l1 \/ l1 = l /\ slot c' l2 = Some x) -> twin L (slot c l1) (slot c' l2).
Proof using HI Hs.
  intros Hl1 HL H12. destruct (slot c l1) as [q|] eqn:E.
  - destruct Hl1 as [Hl1|]; [|done]. destruct (iv_edge _ _ _ _ _ _ HI l1 q Hl1 ltac:(by intros []) E) as (A1 & A2 & A3). pose proof (edge_ref _ _ _ _ _ _ _ _ HI Hl1 ltac:(by intros []) E) as Hr.
    destruct H12 as [-> | [-> ->]]; simpl; (split_and!; [done|congruence|done|apply A3..|]); [by left|right]. split; congruence.
  - destruct H12 as [-> | [-> _]]; [done|congruence].
Qed.

Lemma copied_view t n : (t < K)%nat -> 0 <= n -> view c' t n = view c t n.
Proof using Type*.
  intros Ht Hn. apply (view_bisim twin).
  - intros [q|] [q'|]; simpl; try done. intros (Hq & HL & Hr & Hi & [->|[-> ->]]); f_equal; [|by rewrite (cd_copy _ _ _ _ _ _ Hc)].
    apply (cd_mem _ _ _ _ _ _ Hc); [intros ->; rewrite (proj2 copied_free) in Hr; lia|]. intros E. destruct Hl as [[Hv _] El]. rewrite <- E in Hv, El. destruct (iv_page _ _ _ _ _ _ HI q Hv El). lia.
  - intros L [q|] [q'|] i; simpl; try done. intros (Hq & HL & Hr & Hi & Hq'). assert (El : live c q = true) by (unfold live; rewrite (proj2 (Z.ltb_lt _ _)) by done; apply Hi; lia).
    pose proof (copied_page q El) as Hqx. apply twin_loc; [|unfold target; simpl; lia|].
    + destruct (slots_of c (in_page q) !! i) as [e|] eqn:Ee; [left|right; unfold slot; cbn [fst snd]; by rewrite Ee]. split; [split; [done|by eapply lookup_lt_Some]|done].
    + destruct Hq' as [->|[-> ->]].
      * destruct (decide ((in_page q, i) = l)) as [E|E]; [right; split; [done|]; rewrite E; apply (cd_new _ _ _ _ _ _ Hc)|left]. apply (cd_slot _ _ _ _ _ _ Hc); [done|]. simpl. congruence.
      * left. unfold slot. simpl. by rewrite (cd_copy _ _ _ _ _ _ Hc).
  - intros s L off E. destruct (pos_ok _ _ _ _ E Hn) as (E1 & E2 & _). apply twin_loc; [left; split; [|done]; split; [done|]; simpl; by rewrite (iv_tree _ _ _ _ _ _ HI t Ht)|exact E2|].
    destruct (decide ((in_tree t, s) = l)) as [El|El]; [right; split; [done|]; rewrite El; apply (cd_new _ _ _ _ _ _ Hc)|left]. by apply (cd_slot _ _ _ _ _ _ Hc).
Qed.

(** Pages that nothing else has are not copied, and nothing else gets them. *)
Lemma copied_sole t n : 1 < c_ref c p -> (t < K)%nat -> 0 <= n -> sole c t n -> sole c' t n.
Proof using Type*.
  intros Hp Ht Hn [l0 Hw0]. exists l0. apply (way_frame_sole _ _ _ _ _ _ _ Hw0). intros l' L' off' q Hw Hs' Hr. destruct (way_ok _ _ _ _ _ _ _ _ _ _ _ HI Ht Hn Hw) as (Hl' & _).
  destruct (iv_edge _ _ _ _ _ _ HI l' q Hl' ltac:(by intros []) Hs') as (Hq & _). assert (Hqx : q <> x) by (intros ->; rewrite (proj2 copied_free) in Hr; lia). assert (Hqp : q <> p) by (intros ->; lia).
  rewrite (cd_slot _ _ _ _ _ _ Hc); [|intros ->; congruence|by apply copied_loc]. split; [done|]. destruct (cd_ref _ _ _ _ _ _ Hc q Hqx Hqp) as [_ E]. rewrite E; [done|]. right. right. intros Hin.
  unfold children in Hin. destruct (c_indir c p) eqn:Ei; [|by apply elem_of_nil in Hin]. apply elem_of_somes in Hin as [i Hi].
  destruct (iv_edge _ _ _ _ _ _ HI l p Hl ltac:(by intros []) Hs) as (HpN & _). assert (Hlp : live_loc c (in_page p, i)) by (split; [split; [done|by eapply lookup_lt_Some]|unfold live; cbn [fst]; rewrite Ei, (proj2 (Z.ltb_lt _ _)) by lia; done]).
  assert (Hsp : slot c (in_page p, i) = Some q) by (unfold slot; cbn [fst snd]; by rewrite Hi). destruct (decide (l' = (in_page p, i))) as [El|Hne].
  - remember (S L') as L0. destruct Hw as [|l1 L1 off1 p1 Hw Hs1 Hr1]; [done|]. injection El as <- _. specialize (Hr1 eq_refl). lia.
  - pose proof (count_ge2 N K c l' (in_page p, i) q Hl' Hlp Hne Hs' Hsp) as H2. pose proof (iv_cnt _ _ _ _ _ _ HI q Hq) as Hcn. simpl in Hcn. lia.
Qed.

Lemma copied_keeps t : 1 < c_ref c p -> (forall t', l.1 = in_tree t' -> t' = t) -> keeps t c c'.
Proof using Type*.
  intros Hp1 Hlt. pose proof copied_free as [Hx1 Hx2]. destruct (iv_free _ _ _ _ _ _ HI) as [Hnd Hf]. rewrite (cd_free _ _ _ _ _ _ Hc) in Hnd. apply list.NoDup_cons in Hnd as [Hxf _].
  assert (Hp : 0 < c_ref c p) by (apply (edge_ref _ _ _ _ _ _ l p HI Hl); [by intros []|done]). split; [by apply copied_view|..].
  - intros t' Hne. apply (cd_tree _ _ _ _ _ _ Hc). intros E. by apply Hne, Hlt.
  - intros q [F1 F2 F3 F4]. assert (Hqx : q <> x) by (by intros ->). assert (Hqp : q <> p) by (intros ->; lia). destruct (cd_ref _ _ _ _ _ _ Hc q Hqx Hqp) as [_ E]. split; [split|].
    + done.
    + rewrite E by (right; by left). done.
    + by rewrite (cd_indir _ _ _ _ _ _ Hc).
    + intros Hin. apply F4. rewrite (cd_free _ _ _ _ _ _ Hc). by right.
    + apply (cd_mem _ _ _ _ _ _ Hc); [done|]. intros E1. destruct Hl as [_ El]. rewrite <- E1 in El. unfold live in El. by rewrite F2 in El.
  - intros q (Q1 & Q2 & Q3). assert (Hqx : q <> x) by (intros ->; pose proof (cd_refx _ _ _ _ _ _ Hc); lia). assert (Hqp : q <> p) by (intros ->; pose proof (cd_refp _ _ _ _ _ _ Hc); lia).
    destruct (cd_ref _ _ _ _ _ _ Hc q Hqx Hqp) as [E _]. pose proof (iv_ref _ _ _ _ _ _ HI q Q1). split_and!; [done| |lia]. rewrite (cd_free _ _ _ _ _ _ Hc). by apply not_elem_of_cons.
  - intros t' n. by apply copied_sole.
Qed.

Lemma copied_way t n L off : (t < K)%nat -> 0 <= n -> way true c t n l L off -> way true c' t n l L off.
Proof using Type*.
  intros Ht Hn Hw. destruct (way_ok _ _ _ _ _ _ _ _ _ _ _ HI Ht Hn Hw) as (_ & HL & _). eapply (way_frame _ _ _ _ _ _ _ _ _ _ _ HI Ht Hn Hw). intros l' q Hl' Hlt Hs'.
  destruct (iv_edge _ _ _ _ _ _ HI l' q Hl' ltac:(by intros []) Hs') as (_ & Eq & _). destruct (iv_edge _ _ _ _ _ _ HI l p Hl ltac:(by intros []) Hs) as (_ & Ep & _).
  pose proof (edge_ref _ _ _ _ _ _ _ _ HI Hl' ltac:(by intros []) Hs') as Hr. split.
  - rewrite (cd_slot _ _ _ _ _ _ Hc); [done|intros ->; lia|by apply copied_loc].
  - apply (cd_ref _ _ _ _ _ _ Hc); [intros ->; rewrite (proj2 copied_free) in Hr; lia|intros ->; lia|left; lia].
Qed.
End facts.

(** The copy [x] of [p] before an entry has it. *)
Record doubled (c c' : core) (lv : nat -> nat) (p x : nat) : Prop := {
  db_tree : c_tree c' = c_tree c;
  db_copy : c_mem c' x = c_mem c p;
  db_mem : forall q, q <> x -> c_mem c' q = c_mem c q;
  db_ref : forall q, q <> x -> c_ref c q <= c_ref c' q /\ ((lv p <= lv q)%nat \/ c_ref c q = 0 \/ q ∉ somes (children c p) -> c_ref c' q = c_ref c q);
  db_refx : c_ref c' x = 1;
  db_indir : forall q, q <> x -> c_indir c' q = c_indir c q;
  db_indirx : c_indir c' x = c_indir c p;
  db_free : c_free c = x :: c_free c';
}.

Lemma doubled_slot c c' lv p x (l : eloc) : doubled c c' lv p x -> l.1 <> in_page x -> slots_of c' l.1 = slots_of c l.1.
Proof. intros [B1 B2 B3 _ _ _ _ _] Hl. destruct l as [[q|t] i]; simpl in *; [rewrite B3 by congruence|rewrite B1]; done. Qed.

(** The entry gets the copy. *)
Lemma doubled_copied c c' lv D l p x :
  inv c lv None D -> live_loc c l -> slot c l = Some p -> 1 < c_ref c p -> doubled c c' lv p x -> inv c' (upd x (lv p) lv) None (x :: D) ->
  let c2 := with_slot l (Some x) (with_ref p (c_ref c' p - 1) c') in copied c c2 lv l p x /\ inv c2 (upd x (lv p) lv) None D /\ valid_loc N K c' l /\ slot c' l = Some p /\ 1 < c_ref c' p < 2 ^ 32.
Proof.
  intros HI Hl Hs Hr Hd HI' c2. set (lv' := upd x (lv p) lv) in *. pose proof HI as [H1 H2 H3 H4 H5 H6 H7 H8 H9 H10].
  assert (Hx : c_ref c x = 0) by (apply H5; rewrite (db_free _ _ _ _ _ Hd); left). assert (Hpx : p <> x) by (intros ->; lia).
  assert (Hlx : l.1 <> in_page x) by (intros E; destruct Hl as [_ Hl]; rewrite E in Hl; unfold live in Hl; by rewrite Hx in Hl).
  destruct (H3 l p Hl ltac:(by intros []) Hs) as (Hp & Et & Hi). destruct (db_ref _ _ _ _ _ Hd p Hpx) as [_ Erp]. specialize (Erp ltac:(by left)).
  pose proof (doubled_slot c c' lv p x l Hd Hlx) as Esl. assert (Hs' : slot c' l = Some p) by (unfold slot in *; by rewrite Esl).
  assert (Hv' : valid_loc N K c' l) by (unfold valid_loc; rewrite Esl; apply Hl). assert (Hrp : 1 < c_ref c' p < 2 ^ 32) by (rewrite Erp; split; [done|]; by apply H2).
  assert (Hl' : live_loc c' l).
  { split; [done|]. destruct l as [[q|t] i]; [|done]. simpl in Hlx. assert (q <> x) by congruence. destruct Hl as [[Hq _] Hl]. cbn [fst] in *. unfold live in *. rewrite (db_indir _ _ _ _ _ Hd) by done.
    apply andb_true_iff in Hl as [E1 ->]. apply Z.ltb_lt in E1. destruct (db_ref _ _ _ _ _ Hd q ltac:(done)) as [E2 _]. rewrite (proj2 (Z.ltb_lt _ _)) by lia. done. }
  assert (Hl2 : live_loc (with_ref p (c_ref c' p - 1) c') l).
  { destruct Hl' as [Hv Hlv]. split; [by destruct l as [[]]|]. destruct l as [[q|t] i]; [|done]. cbn [fst] in *. unfold live in *. simpl. unfold upd. case_decide as E; [rewrite E in Hlv|done]. apply andb_true_iff in Hlv as [_ Hlv]. rewrite E, Hlv, (proj2 (Z.ltb_lt _ _)) by lia. done. }
  split_and!; try done; try lia.
  - assert (Hlen : (l.2 < length (slots_of (with_ref p (c_ref c' p - 1) c') l.1))%nat) by (destruct Hv' as [_ Hv']; destruct l as [[]]; exact Hv').
    assert (Er : c_ref c2 = upd p (c_ref c' p - 1) (c_ref c') /\ c_indir c2 = c_indir c' /\ c_free c2 = c_free c') by (unfold c2, with_slot; by destruct (l.1)). destruct Er as (Er & Ei & Ef).
    assert (Em : forall q, in_page q <> l.1 -> c_mem c2 q = c_mem c' q) by (intros q Hq; unfold c2, with_slot; destruct l as [[r|t] i]; simpl in *; [apply upd_other; congruence|done]).
    split.
    + intros l' Hne Hne'. unfold c2. rewrite slot_with_slot by exact Hlen. rewrite decide_False by done. unfold slot. rewrite <- (doubled_slot c c' lv p x l' Hd Hne'). by destruct l' as [[]].
    + unfold c2. rewrite slot_with_slot by exact Hlen. by rewrite decide_True.
    + rewrite Em by congruence. apply Hd.
    + intros q Hq Hq'. rewrite Em by done. by apply Hd.
    + intros t Hne. rewrite <- (db_tree _ _ _ _ _ Hd). unfold c2, with_slot. destruct l as [[r|t'] i]; simpl in *; [done|]. apply upd_other. congruence.
    + intros q Hq Hq'. rewrite Er, upd_other by done. by apply Hd.
    + rewrite Er, upd_same. lia.
    + rewrite Er, upd_other by done. apply Hd.
    + intros q Hq. rewrite Ei. by apply Hd.
    + rewrite Ef. apply Hd.
  - assert (Hnf : p ∉ c_free c') by (intros Hin; destruct (iv_free _ _ _ _ _ _ HI') as [_ Hf]; destruct (Hf p Hin) as (_ & ? & _); lia).
    destruct (inv_mask N K c' lv' (x :: D) l p HI' Hl' Hs') as [HIm _].
    eapply (inv_set_slot N K _ lv' (Some (l, p)) l (Some x)); [|exact Hl2|right; by exists p|].
    + eapply inv_with_ref; [exact HIm|done|done|lia| | |intros q Hq; by apply (iv_pend _ _ _ _ _ _ HI')].
      * unfold live. by rewrite !(proj2 (Z.ltb_lt _ _)) by lia.
      * intros q. rewrite !pend_cons. simpl. destruct (decide (q = p)) as [->|Hne]; [rewrite upd_same, one_same; unfold given; rewrite pend_cons; lia|rewrite upd_other, (one_other (Some p)) by congruence; unfold given; rewrite pend_cons; lia].
    + intros q [= <-]. unfold lv'. rewrite upd_same. split; [|simpl; rewrite (db_indirx _ _ _ _ _ Hd); done]. rewrite Et. unfold target. destruct l as [[r|t] i]; [|done]. simpl in *. rewrite upd_other by congruence. done.
Qed.

Lemma ref_bound c lv m D q : inv c lv m D -> (q < N)%nat -> c_ref c q <= Z.of_nat (n_entries * N + n_slots * K) + Z.of_nat (length D).
Proof. intros HI Hq. pose proof (iv_cnt _ _ _ _ _ _ HI q Hq) as Hc. pose proof (count_bound _ _ _ _ _ _ q HI) as Hcb. pose proof (pend_length q D) as Hpd. lia. Qed.

Lemma refs_zero q es : q ∉ somes es -> refs q es = 0%nat.
Proof.
  rewrite <- pend_somes. induction (somes es) as [|x xs IH]; intros Hn; [done|]. apply not_elem_of_cons in Hn as [H1 H2]. rewrite pend_cons, one_other by congruence. by apply IH.
Qed.

Definition start (c : core) (p x : nat) (lf : list nat) : core := with_ref x 1 (with_mem x (c_mem c p) (taken x lf c)).

(** The pages of the entries of an indirect page. *)
Lemma pt_child_ok c lv D p q : inv c lv None D -> (p < N)%nat -> live c p = true -> q ∈ somes (slots_of c (in_page p)) -> (q < N)%nat /\ 0 < c_ref c q /\ lv p = S (lv q) /\ (c_indir c q = true <-> (0 < lv q)%nat).
Proof.
  intros HI Hp El Hq. apply elem_of_somes in Hq as [i Hi]. assert (Hl : live_loc c (in_page p, i)) by (split; [split; [done|by eapply lookup_lt_Some]|done]).
  assert (Hs : slot c (in_page p, i) = Some q) by (unfold slot; cbn [fst snd]; by rewrite Hi). destruct (iv_edge _ _ _ _ _ _ HI _ q Hl ltac:(by intros []) Hs) as (A1 & A2 & A3).
  destruct (iv_page _ _ _ _ _ _ HI p Hp El) as [A4 _]. split_and!; [done| |unfold target in A2; simpl in A2; lia|apply A3..]. apply (edge_ref _ _ _ _ _ _ _ _ HI Hl); [by intros []|done].
Qed.

Section ok.
Context (Hbound : Z.of_nat (n_entries * N + n_slots * K) + 1000 < 2 ^ 32).

Section double.
Context (c : core) (lv : nat -> nat) (D : list nat) (p x : nat) (lf : list nat).
Context (HI : inv c lv None D) (HD : (length D <= 100)%nat) (Hp : (p < N)%nat) (Hr : 0 < c_ref c p) (Hf : c_free c = x :: lf).
Context (Hi : c_indir c p = true <-> (0 < lv p)%nat).

Lemma start_inv : inv (start c p x lf) (upd x (lv p) lv) None (x :: D).
Proof using Type*.
  destruct (inv_alloc N K c lv None D x lf HI Hf) as [HI1 [F1 F2 F3 F4]]. set (c1 := taken x lf c) in *.
  assert (HI2 : inv (with_mem x (c_mem c p) c1) (upd x (lv p) lv) None D).
  { apply inv_set_mem; [|unfold live; by rewrite F2]. apply inv_relevel; [done..|]. apply (iv_lv _ _ _ _ _ _ HI). }
  destruct (inv_incref N K Hbound _ _ None D x HI2 F1 F4) as [_ HI3]; [by right|lia|]. replace (c_ref (with_mem x (c_mem c p) c1) x + 1) with 1 in HI3 by (simpl in *; lia). exact HI3.
Qed.

Lemma start_facts :
  (x < N)%nat /\ c_ref c x = 0 /\ p <> x /\ (forall q, q <> x -> c_ref (start c p x lf) q = c_ref c q) /\ (forall q, c_indir (start c p x lf) q = c_indir c q) /\ c_indir c x = false /\ (x ∉ lf).
Proof using HI Hr Hf.
  clear Hbound HD Hp Hi.
  destruct (iv_free _ _ _ _ _ _ HI) as [Hnd Hfr]. rewrite Hf in *. apply list.NoDup_cons in Hnd as [Hxf _]. destruct (Hfr x ltac:(left)) as (F1 & F2 & F3 & F4). destruct (taken_same x lf c) as [E1 E2].
  split_and!; [done|done|intros ->; lia| |exact E2|done|done]. intros q Hq. unfold start. simpl. by rewrite !upd_other.
Qed.

Lemma doubled_data : c_indir c p = false -> doubled c (start c p x lf) lv p x.
Proof using Type*.
  intros Hd. destruct start_facts as (F1 & F2 & F3 & F4 & F5 & F6 & _). split; try done.
  - simpl. apply upd_same.
  - intros q Hq. simpl. by apply upd_other.
  - intros q Hq. rewrite F4 by done. split; [lia|done].
  - simpl. apply upd_same.
  - rewrite F5. congruence.
Qed.

Lemma doubled_indir c2 (es := slots_of c (in_page p)) :
  c_indir c p = true -> grown es (start c p x lf) c2 -> doubled c (with_indir x true c2) lv p x /\ inv (with_indir x true c2) (upd x (lv p) lv) None (x :: D).
Proof using Type*.
  intros Hd Hg. destruct start_facts as (F1 & F2 & F3 & F4 & F5 & F6 & _). pose proof start_inv as HIs. set (c1 := start c p x lf) in *. set (lv' := upd x (lv p) lv) in *.
  assert (El : live c p = true) by (unfold live; rewrite Hd, (proj2 (Z.ltb_lt _ _)) by done; done). destruct (iv_page _ _ _ _ _ _ HI p Hp El) as [Hlv Hlen]. fold es in Hlen.
  assert (Hch : forall q, q ∈ somes es -> (q < N)%nat /\ 0 < c_ref c q /\ lv p = S (lv q) /\ (c_indir c q = true <-> (0 < lv q)%nat)) by (intros q Hq; by eapply pt_child_ok).
  assert (Hcx : forall q, q ∈ somes es -> q <> x) by (intros q (_ & Hq & _)%Hch ->; lia).
  pose proof Hg as (r & -> & Hgr). assert (Erx : refs x es = 0%nat) by (apply refs_zero; intros Hin; by apply (Hcx x)). split.
  - split; try done.
    + simpl. apply upd_same.
    + intros q Hq. simpl. by apply upd_other.
    + intros q Hq. simpl. rewrite Hgr. rewrite (F4 q) by done. split; [lia|]. intros Hor. rewrite (refs_zero q es); [lia|]. intros Hin. destruct (Hch q Hin) as (_ & Hq1 & Hq2 & _). destruct Hor as [?|[?|Hn]]; [lia..|]. apply Hn. unfold children. by rewrite Hd.
    + simpl. rewrite Hgr, Erx. unfold c1. simpl. rewrite upd_same. lia.
    + intros q Hq. simpl. rewrite upd_other by done. exact (F5 q).
    + simpl. by rewrite upd_same, Hd.
  - assert (Ex : c_ref c1 x = 1) by (simpl; apply upd_same). apply (inv_make_live N K _ lv' (x :: D) x es).
    + eapply inv_grown; [exact HIs|exact Hg| |].
      * intros q Hq. rewrite F4 by auto. destruct (Hch q Hq) as (? & ? & _). done.
      * intros q Hq. pose proof (ref_bound _ _ _ _ q HIs Hq) as Hb. pose proof (refs_length q es) as Hl. rewrite Hlen in Hl. change n_entries with 128%nat in Hl. cbn [length] in Hb. clear - Hb Hl HD Hbound. lia.
    + simpl. rewrite Hgr. lia.
    + change (c_indir c1 x = false). by rewrite F5.
    + done.
    + unfold es. simpl. by rewrite upd_same.
    + done.
    + unfold lv'. by rewrite upd_same.
    + intros q Hq. unfold lv'. rewrite upd_same, upd_other by auto. change (c_indir (with_refs r c1) q) with (c_indir c1 q). rewrite F5. by apply Hch.
Qed.
End double.

(** ** [pagetree_cow] *)

Definition owned (c : core) (l : eloc) : Prop := forall p, slot c l = Some p -> c_ref c p = 1.

Lemma cow_ok fuel c lv D t n l L off :
  inv c lv None D -> (length D <= 100)%nat -> (t < K)%nat -> 0 <= n -> way true c t n l L off ->
  tri c (pagetree_cow (S fuel) l) (fun _ c' => exists lv', inv c' lv' None D /\ keeps t c c' /\ way true c' t n l L off /\ owned c' l /\ (slot c l = None <-> slot c' l = None) /\
      (slot c l = None -> c' = c) /\ (length (c_free c) <= S (length (c_free c')))%nat) (fun e c' => c' = c /\ e = E_RESTART /\ c_free c = []).
Proof using Hbound.
  intros HI HD Ht Hn Hw. destruct (way_ok _ _ _ _ _ _ _ _ _ _ _ HI Ht Hn Hw) as (Hl & HL & _). cbn [pagetree_cow].
  eapply tri_bind; [apply (tri_read_ent N K); apply Hl|]. intros e c' [-> ->]. destruct (slot c l) as [p|] eqn:Hs.
  2:{ apply tri_ret. exists lv. split_and!; first [done|apply keeps_refl|congruence|lia]. }
  destruct (iv_edge _ _ _ _ _ _ HI l p Hl ltac:(by intros []) Hs) as (Hp & Elv & Hi). pose proof (edge_ref _ _ _ _ _ _ _ _ HI Hl ltac:(by intros []) Hs) as Hr.
  eapply tri_bind; [by apply (tri_get_info N K)|]. intros i c' (-> & I1 & I2 & _ & I4 & _ & I6). eapply tri_bind; [apply (tri_assert N K c _ (fun _ c' => c' = c)); [rewrite I1; by apply Z.ltb_lt|done]|]. intros [] c' ->.
  rewrite I4, I1, I6. change (u32 (1 + 0)) with 1. destruct (Z.leb_spec (c_ref c p) 1) as [Hle|Hgt].
  { apply tri_ret. exists lv. split_and!; [done|apply keeps_refl|done| |by rewrite Hs|done|lia]. intros p' E. assert (p' = p) as -> by congruence. lia. }
  eapply (tri_bind N K _ _ _ (fun _ c' => c' = c)); [by apply tri_ret|]. intros [] c' ->.
  eapply tri_bind; [apply (tri_page_alloc N K); apply list.Forall_forall; intros q Hq; destruct (iv_free _ _ _ _ _ _ HI) as [_ Hf]; by destruct (Hf q Hq) as (? & _ & _ & ?)|].
  intros x c' (lf & Hf & ->). fold (taken x lf c). destruct (start_facts c lv D p x lf HI Hr Hf) as (F1 & F2 & F3 & F4 & F5 & F6 & _). destruct (taken_same x lf c) as [T1 T2].
  eapply tri_bind; [by apply (tri_get_info N K)|]. intros ci c' (-> & C1 & _ & _ & C4 & C5 & C6). rewrite T1, F2 in C1.
  do 4 (eapply tri_bind; [apply (tri_assert N K (taken x lf c) _ (fun _ c' => c' = taken x lf c)); [rewrite ?C1, ?C4, ?C5, ?C6; done|done]|]; intros [] c' ->).
  eapply tri_bind; [by apply (tri_get_pg N K)|]. intros pg c' [-> Hpg]. rewrite (ph_mem _ _ _ Hpg). change (c_mem (taken x lf c) p) with (c_mem c p).
  eapply tri_bind; [by apply (tri_set_mem N K)|]. intros [] c' ->. eapply tri_bind; [by apply (tri_set_ref N K _ x (fun r => u32 (r + 1)))|]. intros [] c' ->.
  change (c_ref (with_mem x (c_mem c p) (taken x lf c)) x) with (c_ref (taken x lf c) x). rewrite T1, F2. change (u32 (0 + 1)) with 1. fold (start c p x lf).
  eapply (tri_bind N K _ _ _ (fun _ c' => doubled c c' lv p x /\ inv c' (upd x (lv p) lv) None (x :: D))).
  - rewrite I2. destruct (c_indir c p) eqn:Ed in |- *.
    + set (es := slots_of c (in_page p)). assert (El : live c p = true) by (unfold live; rewrite Ed, (proj2 (Z.ltb_lt _ _)) by done; done). destruct (iv_page _ _ _ _ _ _ HI p Hp El) as [_ Hlen].
      eapply (tri_bind N K _ _ _ (fun r c' => match r with Ok _ => exists c1, grown es (start c p x lf) c1 /\ c' = with_indir x true c1 | _ => False end)).
      * eapply tri_mono; [apply (tri_code N K _ _ (fun _ c' => exists c1, grown es (start c p x lf) c1 /\ c' = with_indir x true c1) (fun _ _ => False) (fun _ _ => False)); apply (indir_copy_ok (start c p x lf) p x es); try done|by intros [] ?|done].
        -- unfold es. simpl. by rewrite upd_same.
        -- by rewrite F5.
        -- intros q Hq. destruct (pt_child_ok c lv D p q HI Hp El Hq) as (Q1 & Q2 & _). rewrite F4 by (intros ->; lia). pose proof (ref_bound _ _ _ _ q HI Q1) as Hb. pose proof (refs_length q es) as Hl'. unfold es in Hl' at 2. rewrite Hlen in Hl'. change n_entries with 128%nat in Hl'.
           split_and!; [done|lia|]. clear - Hb Hl' HD Hbound. lia.
      * intros r c' Hr'. destruct r as [[]|e|]; [|done..]. destruct Hr' as (c1 & Hg & ->). apply tri_ret. by eapply doubled_indir.
    + apply tri_ret. split; [by eapply doubled_data|by apply start_inv].
  - intros [] c1 [Hdb HI1]. destruct (doubled_copied c c1 lv D l p x HI Hl Hs Hgt Hdb HI1) as (Hcp & HI2 & Hv1 & Hs1 & Hr1).
    eapply tri_bind; [by apply (tri_get_info N K)|]. intros i1 c' [-> _]. eapply tri_bind; [by apply (tri_set_dirty N K)|]. intros [] c' ->.
    eapply tri_bind; [by apply tri_decref_shared|]. intros [] c' ->.
    eapply tri_bind; [apply (tri_set_entry N K (with_ref p (c_ref c1 p - 1) c1) l (Some x)); [by destruct l as [[]]|intros q E; replace q with p; [done|]; apply Some_inj; rewrite <- E, <- Hs1; by destruct l as [[]]|intros q [= <-]; done]|]. intros [] c' ->.
    apply tri_ret. exists (upd x (lv p) lv). split_and!; [done|apply (copied_keeps c _ lv D l p x HI Hl Hs Hcp); [done|]; intros t' E; destruct l as [nd k]; simpl in E; subst nd; by eapply way_tree|exact (copied_way c _ lv D l p x HI Hl Hs Hcp t n L off Ht Hn Hw)| |by rewrite (cd_new _ _ _ _ _ _ Hcp)|done|rewrite (cd_free _ _ _ _ _ _ Hcp); simpl; lia].
    intros q E. rewrite (cd_new _ _ _ _ _ _ Hcp) in E. injection E as <-. apply Hcp.
Qed.
End ok.
End cow.
