(* ===== verification/PagetreeOps.v ===== *)
(** * Page trees: getting to an entry, for reading and for writing *)

From S2P Require Import Prelude KState KObj Pagetree PagetreeCore PagetreeInv PagetreeFree PagetreeView PagetreeStep PagetreeCow.
From stdpp Require Import options.

Set Default Goal Selector "!".

Section ops.
Context (N K : nat).
Abbreviation inv := (PagetreeInv.inv N K).
Abbreviation tri := (PagetreeCore.tri N K).
Abbreviation live_loc := (PagetreeInv.live_loc N K).
Abbreviation fresh := (PagetreeStep.fresh N).
Abbreviation keeps := (PagetreeCow.keeps N K).
Abbreviation loose := (PagetreeCow.loose N).

(** ** A new indirect page *)

Definition planted (c : core) (l : eloc) (x : nat) (lf : list nat) : core :=
  with_slot l (Some x) (with_indir x true (with_ref x 1 (with_mem x (slots (replicate n_entries None)) (taken x lf c)))).

Section plant.
Context (c : core) (lv : nat -> nat) (D : list nat) (l : eloc) (x : nat) (lf : list nat).
Context (HI : inv c lv None D) (Hl : live_loc c l) (Hs : slot c l = None) (Hf : c_free c = x :: lf) (Hlv : (0 < target lv l <= PAGETREE_INDIRECTS)%nat).

Lemma plant_x : (x < N)%nat /\ c_ref c x = 0 /\ c_indir c x = false /\ (x ∉ lf) /\ l.1 <> in_page x.
Proof using Type*.
  destruct (iv_free _ _ _ _ _ _ HI) as [Hnd Hfr]. rewrite Hf in *. apply list.NoDup_cons in Hnd as [Hxf _]. destruct (Hfr x ltac:(left)) as (F1 & F2 & F3 & F4). split_and!; try done.
  intros E. destruct Hl as [_ El]. rewrite E in El. unfold live in El. by rewrite F2 in El.
Qed.

Let c1 := with_ref x 1 (with_mem x (slots (replicate n_entries None)) (taken x lf c)).
Let lv' := upd x (target lv l) lv.

Lemma somes_none k : somes (replicate k None) = [].
Proof. by induction k. Qed.

Lemma plant_slots : forall l' : eloc, l'.1 <> in_page x -> slots_of (with_indir x true c1) l'.1 = slots_of c l'.1.
Proof using Type. intros [[q|t] i] Hne; simpl in *; [|done]. by rewrite upd_other by congruence. Qed.

Lemma plant_live l' : live_loc c l' -> live_loc (with_indir x true c1) l'.
Proof using Type*.
  intros [Hv El]. destruct plant_x as (F1 & F2 & F3 & _). assert (Hne : l'.1 <> in_page x) by (intros E; rewrite E in El; unfold live in El; by rewrite F2 in El).
  split; [unfold valid_loc; by rewrite plant_slots|]. destruct l' as [[q|t] i]; [|done]. simpl in *. unfold live in *. simpl. by rewrite !upd_other by congruence.
Qed.

Lemma plant_inv : (length D <= 100)%nat -> Z.of_nat (n_entries * N + n_slots * K) + 1000 < 2 ^ 32 -> inv (planted c l x lf) lv' None D.
Proof using Type*.
  intros HD Hbound. destruct plant_x as (F1 & F2 & F3 & F4 & F5). destruct (inv_alloc N K c lv None D x lf HI Hf) as [HI1 [G1 G2 G3 G4]].
  assert (HI2 : inv (with_mem x (slots (replicate n_entries None)) (taken x lf c)) lv' None D).
  { apply inv_set_mem; [|unfold live; by rewrite G2]. apply inv_relevel; [done..|apply Hlv]. }
  destruct (inv_incref N K Hbound _ _ None D x HI2 G1 G4) as [_ HI3]; [by right|lia|]. replace (c_ref _ x + 1) with 1 in HI3 by (simpl in *; lia). fold c1 in HI3.
  assert (HI4 : inv (with_indir x true c1) lv' None (x :: D)).
  { apply (inv_make_live N K c1 lv' (x :: D) x (replicate n_entries None)); rewrite ?somes_none; try done.
    - unfold c1. simpl. by rewrite upd_same.
    - unfold c1. simpl. by rewrite upd_same.
    - unfold lv'. rewrite upd_same. lia.
    - intros q Hq. by apply elem_of_nil in Hq. }
  eapply (inv_set_slot N K _ lv' None l (Some x)); [exact HI4|by apply plant_live|left; split; [done|]; unfold slot in *; by rewrite plant_slots|].
  intros q [= <-]. unfold lv'. rewrite upd_same. simpl. rewrite upd_same. split; [|split; [lia|done]]. unfold target. destruct l as [[r|t] i]; [|done]. simpl in *. rewrite upd_other by congruence. done.
Qed.

Lemma plant_slot l' : slot (planted c l x lf) l' = if decide (l' = l) then Some x else if decide (l'.1 = in_page x) then None else slot c l'.
Proof using Type*.
  destruct plant_x as (F1 & F2 & F3 & F4 & F5). unfold planted. fold c1. rewrite slot_with_slot by (rewrite plant_slots by done; apply Hl). case_decide as E; [done|]. case_decide as E'.
  - destruct l' as [n i]. simpl in E'. subst n. assert (Em : c_mem (with_indir x true c1) x = slots (replicate n_entries None)) by (unfold c1; apply upd_same). unfold slot, slots_of. cbn [fst snd]. rewrite Em. destruct (replicate n_entries (@None nat) !! i) as [e|] eqn:Ee; [|done]. by apply lookup_replicate in Ee as [-> _].
  - unfold slot. by rewrite plant_slots.
Qed.

Lemma plant_fields : (forall q, q <> x -> c_ref (planted c l x lf) q = c_ref c q /\ c_indir (planted c l x lf) q = c_indir c q) /\ c_ref (planted c l x lf) x = 1 /\ c_free (planted c l x lf) = lf /\
  (forall q, q <> x -> in_page q <> l.1 -> c_mem (planted c l x lf) q = c_mem c q).
Proof using Type.
  clear Hl Hs Hlv lv'.
  assert (E : c_ref (planted c l x lf) = c_ref c1 /\ c_indir (planted c l x lf) = upd x true (c_indir c1) /\ c_free (planted c l x lf) = lf) by (unfold planted, with_slot; by destruct (l.1)). destruct E as (E1 & E2 & E3).
  rewrite E1, E2, E3. unfold c1. simpl. split_and!; [|by rewrite upd_same|done|].
  - intros q Hq. by rewrite !upd_other.
  - intros q Hq Hq'. unfold planted, with_slot. destruct l as [[r|t] i]; simpl in *; rewrite !upd_other by congruence; done.
Qed.

Definition sprout (L : nat) (e e' : option nat) : Prop :=
  match e, e' with
  | Some q, Some q' => q' = q /\ (q < N)%nat /\ lv q = L /\ 0 < c_ref c q /\ (c_indir c q = true <-> (0 < lv q)%nat)
  | None, None => True
  | None, Some q' => q' = x /\ (0 < L)%nat
  | _, _ => False
  end.

Lemma sprout_loc l' : live_loc c l' \/ slot c l' = None /\ l' <> l -> l'.1 <> in_page x -> sprout (target lv l') (slot c l') (slot (planted c l x lf) l').
Proof using Type*.
  intros Hl' Hne. rewrite plant_slot. case_decide as E; [subst l'; rewrite Hs; simpl; split; [done|]; lia|]. rewrite decide_False by done. destruct (slot c l') as [q|] eqn:Es; [|done]. destruct Hl' as [Hl'|[? _]]; [|done].
  destruct (iv_edge _ _ _ _ _ _ HI l' q Hl' ltac:(by intros []) Es) as (A1 & A2 & A3). simpl. split_and!; [done..| |apply A3]. apply (edge_ref _ _ _ _ _ _ _ _ HI Hl'); [by intros []|done].
Qed.

Lemma plant_view t n : (t < K)%nat -> 0 <= n -> view (planted c l x lf) t n = view c t n.
Proof using Type*.
  intros Ht Hn. destruct plant_x as (F1 & F2 & F3 & F4 & F5). destruct plant_fields as (P1 & P2 & P3 & P4). apply (view_bisim sprout).
  - intros [q|] [q'|]; simpl; try done; [|intros [_ ?]; lia]. intros (-> & Hq & HL & Hr & Hi). f_equal. apply P4; [intros ->; lia|].
    intros E. destruct Hl as [[Hv _] El]. rewrite <- E in Hv, El. destruct (iv_page _ _ _ _ _ _ HI q Hv El). lia.
  - intros L [q|] [q'|] i; simpl; try done.
    + intros (-> & Hq & HL & Hr & Hi). assert (El : live c q = true) by (unfold live; rewrite (proj2 (Z.ltb_lt _ _)) by done; apply Hi; lia). assert (Hqx : q <> x) by (intros ->; lia).
      assert (HT : target lv (in_page q, i) = L) by (unfold target; simpl; lia). rewrite <- HT. apply sprout_loc; [|simpl; congruence].
      destruct (slots_of c (in_page q) !! i) as [e|] eqn:Ee; [left; split; [split; [done|by eapply lookup_lt_Some]|done]|right]. split; [unfold slot; cbn [fst snd]; by rewrite Ee|].
      intros <-. destruct Hl as [[_ Hv] _]. apply lookup_ge_None in Ee. cbn [fst snd] in Hv. lia.
    + intros [-> _]. rewrite plant_slot. rewrite decide_False by (intros <-; done). by rewrite decide_True.
  - intros s L off E. destruct (pos_ok _ _ _ _ E Hn) as (E1 & E2 & _). change (target lv (in_tree t, s) = L) in E2. rewrite <- E2. apply sprout_loc; [|done]. left; split; [|done]; split; [done|]; simpl; by rewrite (iv_tree _ _ _ _ _ _ HI t Ht).
Qed.

Lemma plant_keeps t : (forall t', l.1 = in_tree t' -> t' = t) -> keeps t c (planted c l x lf).
Proof using Type*.
  intros Hlt. destruct plant_x as (F1 & F2 & F3 & F4 & F5). destruct plant_fields as (P1 & P2 & P3 & P4). split; [by apply plant_view|..].
  - intros t' Hne. unfold planted, with_slot. destruct l as [[r|t0] i]; simpl in *; [done|]. apply upd_other. intros ->. by apply Hne, Hlt.
  - intros q [G1 G2 G3 G4]. assert (Hqx : q <> x) by (intros ->; apply G4; rewrite Hf; left). destruct (P1 q Hqx) as [E1 E2]. split; [split|].
    + done.
    + by rewrite E1.
    + by rewrite E2.
    + rewrite P3. rewrite Hf in G4. by apply not_elem_of_cons in G4 as [_ ?].
    + apply P4; [done|]. intros E. destruct Hl as [_ El]. rewrite <- E in El. unfold live in El. by rewrite G2 in El.
  - intros q (Q1 & Q2 & Q3). assert (Hqx : q <> x) by (intros ->; congruence). destruct (P1 q Hqx) as [E1 E2]. split_and!; [done| |congruence]. rewrite Hf. rewrite P3 in Q2. by apply not_elem_of_cons.
  - intros t' n Ht Hn [l0 Hw0]. exists l0. apply (way_frame_sole _ _ _ _ _ _ _ Hw0). intros l' L' off' q Hw Hs' Hr. destruct (way_ok _ _ _ _ _ _ _ _ _ _ _ HI Ht Hn Hw) as ([_ El] & _). split.
    + rewrite plant_slot, !decide_False; [done| |intros ->; congruence]. intros E. rewrite E in El. unfold live in El. by rewrite F2 in El.
    + rewrite <- Hr. apply P1. intros ->. lia.
Qed.

Lemma plant_way t n L off : (t < K)%nat -> 0 <= n -> way true c t n l L off -> way true (planted c l x lf) t n l L off.
Proof using Type*.
  intros Ht Hn Hw. destruct plant_x as (F1 & F2 & F3 & F4 & F5). destruct plant_fields as (P1 & P2 & P3 & P4). destruct (way_ok _ _ _ _ _ _ _ _ _ _ _ HI Ht Hn Hw) as (_ & HL & _).
  eapply (way_frame _ _ _ _ _ _ _ _ _ _ _ HI Ht Hn Hw). intros l' q Hl' Hlt Hs'. pose proof (edge_ref _ _ _ _ _ _ _ _ HI Hl' ltac:(by intros []) Hs') as Hr. split.
  - rewrite plant_slot, !decide_False; [done| |intros ->; lia]. intros E. destruct Hl' as [_ El]. rewrite E in El. unfold live in El. by rewrite F2 in El.
  - apply P1. intros ->. lia.
Qed.
End plant.

(** ** The way to an entry *)

Section entp.
Context (Hbound : Z.of_nat (n_entries * N + n_slots * K) + 1000 < 2 ^ 32).

(** The state may have changed, but no tree can tell. *)
Definition stays (t : nat) (D : list nat) (c c' : core) : Prop := exists lv', inv c' lv' None D /\ keeps t c c'.

Lemma stays_refl t D c lv : inv c lv None D -> stays t D c c.
Proof using Type. intros HI. exists lv. split; [done|apply keeps_refl]. Qed.

Lemma stays_trans t D c c1 c2 : keeps t c c1 -> stays t D c1 c2 -> stays t D c c2.
Proof using Type. intros Hk (lv & HI & Hk'). exists lv. split; [done|]. by eapply keeps_trans. Qed.

(** The arithmetic of the next level. *)
Lemma next_ok level off :
  (S level <= 3)%nat -> 0 <= off < E128 ^ Z.of_nat (S (S level)) ->
  u32 (off / E128 ^ Z.of_nat (S level)) = off / E128 ^ Z.of_nat (S level) /\ u32 (off mod E128 ^ Z.of_nat (S level)) = off mod E128 ^ Z.of_nat (S level) /\ off / E128 ^ Z.of_nat (S level) < E128.
Proof using Type.
  clear Hbound. intros HL Hoff. pose proof (E128_pos (S level)) as Hpos. rewrite (Nat2Z.inj_succ (S level)), Z.pow_succ_r in Hoff by lia. assert (Hb : E128 ^ Z.of_nat (S level) <= 2 ^ 21).
  { change (2 ^ 21) with (E128 ^ 3). apply Z.pow_le_mono_r; [done|lia]. }
  set (P := E128 ^ Z.of_nat (S level)) in *. assert (Hd : 0 <= off / P < E128) by (split; [apply Z.div_pos; lia|apply Z.div_lt_upper_bound; lia]). pose proof (Z.mod_pos_bound off P Hpos) as Hm.
  unfold u32. split_and!; [apply Z.mod_small; unfold PAGETREE_ENTRIES_PER_PAGE in Hd; lia|apply Z.mod_small; lia|lia].
Qed.

Lemma plant_ok c lv D t n l L off :
  inv c lv None D -> (length D <= 100)%nat -> (t < K)%nat -> 0 <= n -> way true c t n l (S L) off -> (L <= 3)%nat -> slot c l = None ->
  tri c (p ← page_alloc;
         set_mem p (slots (replicate n_entries None));;
         pagetree_incref p;;
         pagetree_set_entry l (Some p);;
         upd_info p set_indir;;
         mret (Some p))
    (fun e c' => exists lv' p, e = Some p /\ inv c' lv' None D /\ keeps t c c' /\ way true c' t n l (S L) off /\ slot c' l = Some p /\ c_ref c' p = 1 /\ length (c_free c) = S (length (c_free c')))
    (fun e c' => e = E_RESTART /\ stays t D c c' /\ c_free c = []).
Proof using Hbound.
  intros HI HD Ht Hn Hw HL Hs. destruct (way_ok _ _ _ _ _ _ _ _ _ _ _ HI Ht Hn Hw) as (Hl & Htl & _).
  eapply tri_bind; [eapply tri_mono; [apply (tri_page_alloc N K); apply list.Forall_forall; intros q Hq; destruct (iv_free _ _ _ _ _ _ HI) as [_ Hf]; by destruct (Hf q Hq) as (? & _ & _ & ?)|by intros q c' Hq; exact Hq|]|].
  { intros e c' (-> & -> & ?). split_and!; [done|by eapply stays_refl|done]. }
  intros x c' (lf & Hf & ->). fold (taken x lf c). assert (Hlv : (0 < target lv l <= PAGETREE_INDIRECTS)%nat) by (unfold PAGETREE_INDIRECTS; lia).
  destruct (plant_x c lv D l x lf HI Hl Hs Hf Hlv) as (F1 & F2 & F3 & F4 & F5). destruct (taken_same x lf c) as [T1 _].
  eapply tri_bind; [by apply (tri_set_mem N K)|]. intros [] c' ->. eapply tri_bind; [by apply (tri_set_ref N K _ x (fun r => u32 (r + 1)))|]. intros [] c' ->.
  change (c_ref (with_mem x _ (taken x lf c)) x) with (c_ref (taken x lf c) x). rewrite T1, F2. change (u32 (0 + 1)) with 1. set (c3 := with_ref x 1 _).
  assert (Hsl : slots_of c3 l.1 = slots_of c l.1) by exact (plant_slots c x lf l F5).
  eapply tri_bind; [apply (tri_set_entry N K c3 l (Some x)); [unfold valid_loc; rewrite Hsl; apply Hl|unfold slot; rewrite Hsl; intros q E; unfold slot in Hs; congruence|by intros q [= <-]]|]. intros [] c' ->.
  eapply tri_bind; [by apply (tri_set_indir N K)|]. intros [] c' ->. apply tri_ret. replace (with_indir x true (with_slot l (Some x) c3)) with (planted c l x lf) by (by destruct l as [[]]).
  exists (upd x (target lv l) lv), x. split_and!; [done|by apply plant_inv|eapply plant_keeps; try done; intros t' E; destruct l as [nd k]; simpl in E; subst nd; by eapply way_tree|by eapply plant_way| | |].
  - rewrite (plant_slot c lv D) by done. by rewrite decide_True.
  - by apply plant_fields.
  - destruct (plant_fields c l x lf) as (_ & _ & -> & _). by rewrite Hf.
Qed.

Lemma entp_indirect_excl level c lv D t n l off rw par :
  rw <> page_shared_ro -> inv c lv None D -> (length D <= 100)%nat -> (t < K)%nat -> 0 <= n -> way true c t n l (S level) off -> (level <= 3)%nat ->
  tri c (pagetree_get_entp_indirect level l off rw par)
    (fun r c' => exists lv' l', r.1 = Some l' /\ inv c' lv' None D /\ keeps t c c' /\ way true c' t n l' 0 0 /\ (length (c_free c) <= S level + length (c_free c'))%nat)
    (fun e c' => e = E_RESTART /\ stays t D c c' /\ (length (c_free c) <= level)%nat).
Proof using Hbound.
  intros Hrw. revert c lv l off par. induction level as [|level IH]; intros c lv l off par HI HD Ht Hn Hw HL; cbn [pagetree_get_entp_indirect]; rewrite bool_decide_eq_false_2 by done;
    (eapply tri_bind; [eapply tri_mono; [by apply (cow_ok N K Hbound 4 c lv D t n l)|by intros ? ? H; exact H|intros e c' (-> & -> & Hnil); split_and!; [done|by eapply stays_refl|rewrite Hnil; simpl; lia]]|]);
    intros _ c1 (lv1 & HI1 & Hk1 & Hw1 & Hown & Hiff & Hsame & Hfr1); destruct (way_ok _ _ _ _ _ _ _ _ _ _ _ HI1 Ht Hn Hw1) as (Hl1 & Htl1 & Hoff);
    (eapply tri_bind; [apply (tri_read_ent N K); apply Hl1|]); intros e c' [-> ->];
    (eapply (tri_bind N K _ _ _ (fun e c' => exists lv' p, e = Some p /\ inv c' lv' None D /\ keeps t c1 c' /\ way true c' t n l _ off /\ slot c' l = Some p /\ c_ref c' p = 1 /\ (length (c_free c) <= S (length (c_free c')))%nat));
      [destruct (slot c1 l) as [p|] eqn:Hs; [apply tri_ret; exists lv1, p; split_and!; [done|done|apply keeps_refl|exact Hw1|done|by apply Hown|exact Hfr1]|];
        specialize (Hsame (proj2 Hiff eq_refl)); rewrite Hsame in *; eapply tri_mono; [by eapply plant_ok|intros e c' (lv' & p & H1 & H2 & H3 & H4 & H5 & H6 & H7); exists lv', p; split_and!; [done..|lia]|intros e c' (-> & Hst & Hnil); split_and!; [done|done|rewrite Hnil; simpl; lia]]|]);
    intros e c2 (lv2 & p & -> & HI2 & Hk2 & Hw2 & Hs2 & Hr2 & Hfr2); pose proof (keeps_trans _ _ _ _ _ _ Hk1 Hk2) as Hk; destruct (way_ok _ _ _ _ _ _ _ _ _ _ _ HI2 Ht Hn Hw2) as (Hl2 & _);
    (assert (Hp : (p < N)%nat) by (by apply (iv_edge _ _ _ _ _ _ HI2 l p Hl2 ltac:(by intros []) Hs2)));
    (eapply tri_bind; [by apply (tri_set_parent N K)|]); intros [] c' ->.
  - apply tri_ret. exists lv2, (in_page p, Z.to_nat off). split_and!; [done..| |simpl; lia]. pose proof (way_step true c2 t n l 0 off p Hw2 Hs2 ltac:(done)) as Hw3. change (E128 ^ Z.of_nat 0) with 1 in Hw3. by rewrite Z.div_1_r, Z.mod_1_r in Hw3.
  - destruct (next_ok level off HL Hoff) as (E1 & E2 & Hd). rewrite E1, E2.
    eapply tri_bind; [apply (tri_assert N K c2 _ (fun _ c' => c' = c2)); [apply Z.ltb_lt, Hd|done]|]. intros [] c' ->.
    eapply tri_mono; [apply (IH c2 lv2); [done..|exact (way_step true c2 t n l (S level) off p Hw2 Hs2 ltac:(done))|lia]| |].
    + intros r c3 (lv3 & l' & E & HI3 & Hk3 & Hw3 & Hfr3). exists lv3, l'. split_and!; try done; [by eapply keeps_trans|lia].
    + intros e c3 (-> & Hst & Hfr3). split_and!; [done|by eapply stays_trans|lia].
Qed.

(** Which way is taken. *)
Lemma entp_pos t n rw :
  pagetree_get_entp t n rw =
  match pos n with
  | None => hlift (Err E_NO_SPACE)
  | Some (s, O, _) => mret (Some (in_tree t, s), None)
  | Some (s, S i, off) => pagetree_get_entp_indirect i (in_tree t, s) off rw None
  end.
Proof using Type.
  unfold pagetree_get_entp, pos. destruct (n <? PAGETREE_DIRECT_PAGES); [done|]. generalize (n - PAGETREE_DIRECT_PAGES), 1, 0%nat. induction PAGETREE_INDIRECTS as [|k IH]; intros m num i; cbn [get_entp_loop indir_pos]; [done|].
  destruct (m <? num * E128); [done|apply IH].
Qed.

Lemma pos_level n s i off : pos n = Some (s, S i, off) -> 0 <= n -> (i <= 3)%nat.
Proof using Type.
  clear Hbound. intros E Hn. destruct (pos_ok _ _ _ _ E Hn) as (Hs & Ht & _). unfold target in Ht. cbn [fst snd] in Ht. unfold n_slots, n_direct, PAGETREE_INDIRECTS in *. change (Z.to_nat PAGETREE_DIRECT_PAGES) with 4%nat in *.
  destruct (Nat.ltb_spec s 4); lia.
Qed.

(** For writing: nothing else has the pages on the way to the entry. *)
Lemma entp_excl c lv D t n rw :
  rw <> page_shared_ro -> inv c lv None D -> (length D <= 100)%nat -> (t < K)%nat -> 0 <= n ->
  tri c (pagetree_get_entp t n rw)
    (fun r c' => pos n <> None /\ exists lv' l', r.1 = Some l' /\ inv c' lv' None D /\ keeps t c c' /\ way true c' t n l' 0 0 /\ (length (c_free c) <= 4 + length (c_free c'))%nat)
    (fun e c' => e = E_RESTART /\ stays t D c c' /\ (length (c_free c) <= 3)%nat \/ e = E_NO_SPACE /\ pos n = None /\ c' = c).
Proof using Hbound.
  intros Hrw HI HD Ht Hn. rewrite entp_pos. destruct (pos n) as [[[s [|i]] off]|] eqn:E; [| |apply tri_err; by right].
  - apply tri_ret. split; [done|]. exists lv, (in_tree t, s). split_and!; [done|done|apply keeps_refl| |lia]. destruct (pos_ok _ _ _ _ E Hn) as (_ & _ & Ho). assert (off = 0) as -> by (change (E128 ^ Z.of_nat 0) with 1 in Ho; lia). by constructor.
  - eapply tri_mono; [apply (entp_indirect_excl i c lv D t n (in_tree t, s) off rw None); try done; [by constructor|by eapply pos_level]| |].
    + intros r c' (lv' & l' & ? & ? & ? & ? & Hfr). pose proof (pos_level _ _ _ _ E Hn). split; [done|]. exists lv', l'. split_and!; [done..|lia].
    + intros e c' (-> & Hst & Hfr). pose proof (pos_level _ _ _ _ E Hn). left. split_and!; [done..|lia].
Qed.

(** For writing, when nothing else has the pages on the way: nothing changes. *)
Fixpoint down (c : core) (L : nat) (e : option nat) (off : Z) : Prop :=
  match L with
  | O => True
  | S L => exists p, e = Some p /\ c_ref c p = 1 /\ down c L (slot c (in_page p, Z.to_nat (off / E128 ^ Z.of_nat L))) (off mod E128 ^ Z.of_nat L)
  end.

Lemma way_down c t n l L off : way true c t n l L off -> down c L (slot c l) off -> exists s L0 off0, pos n = Some (s, L0, off0) /\ down c L0 (slot c (in_tree t, s)) off0.
Proof using Type.
  induction 1 as [s L off E|l L off p Hw IH Hs Hr]; intros Hd; [by exists s, L, off|]. apply IH. exists p. split_and!; [done|by apply Hr|done].
Qed.

Lemma cow_sole fuel c l p E : valid_loc N K c l -> slot c l = Some p -> (p < N)%nat -> c_ref c p = 1 -> tri c (pagetree_cow fuel l) (fun _ c' => c' = c) E.
Proof using Type.
  intros Hv Hs Hp Hr. destruct fuel as [|fuel]; cbn [pagetree_cow]; (eapply tri_bind; [by apply (tri_read_ent N K)|]); intros e c' [-> ->]; rewrite Hs;
    (eapply tri_bind; [by apply (tri_get_info N K)|]); intros i c' (-> & I1 & _ & _ & I4 & _); rewrite I1, I4, Hr; (eapply tri_bind; [by apply (tri_assert N K c _ (fun _ c' => c' = c))|]); intros [] c' ->; by apply tri_ret.
Qed.

Lemma entp_indirect_sole level c lv D t n l off rw par :
  rw <> page_shared_ro -> inv c lv None D -> (t < K)%nat -> 0 <= n -> way true c t n l (S level) off -> down c (S level) (slot c l) off -> (level <= 3)%nat ->
  tri c (pagetree_get_entp_indirect level l off rw par) (fun r c' => c' = c /\ exists l', r.1 = Some l' /\ way true c t n l' 0 0) (fun _ _ => False).
Proof using Type.
  clear Hbound. intros Hrw HI Ht Hn. revert l off par. induction level as [|level IH]; intros l off par Hw (p & Hs & Hr & Hd) HL; cbn [pagetree_get_entp_indirect]; rewrite bool_decide_eq_false_2 by done;
    destruct (way_ok _ _ _ _ _ _ _ _ _ _ _ HI Ht Hn Hw) as (Hl & Htl & Hoff); (assert (Hp : (p < N)%nat) by (by apply (iv_edge _ _ _ _ _ _ HI l p Hl ltac:(by intros []) Hs)));
    (eapply tri_bind; [apply (cow_sole pt_depth c l p); [apply Hl|done..]|]); intros _ c' ->; (eapply tri_bind; [apply (tri_read_ent N K); apply Hl|]); intros e c' [-> ->]; rewrite Hs;
    (eapply (tri_bind N K _ _ _ (fun e c' => c' = c /\ e = Some p)); [by apply tri_ret|]); intros e c' [-> ->]; (eapply tri_bind; [by apply (tri_set_parent N K)|]); intros [] c' ->.
  - apply tri_ret. split; [done|]. exists (in_page p, Z.to_nat off). split; [done|]. pose proof (way_step true c t n l 0 off p Hw Hs ltac:(done)) as Hw3. change (E128 ^ Z.of_nat 0) with 1 in Hw3. by rewrite Z.div_1_r, Z.mod_1_r in Hw3.
  - destruct (next_ok level off HL Hoff) as (E1 & E2 & Hlt). rewrite E1, E2.
    eapply tri_bind; [apply (tri_assert N K c _ (fun _ c' => c' = c)); [apply Z.ltb_lt, Hlt|done]|]. intros [] c' ->.
    apply IH; [exact (way_step true c t n l (S level) off p Hw Hs ltac:(done))|exact Hd|lia].
Qed.

Lemma entp_sole c lv D t n rw :
  rw <> page_shared_ro -> inv c lv None D -> (t < K)%nat -> 0 <= n -> sole c t n -> tri c (pagetree_get_entp t n rw) (fun r c' => c' = c /\ exists l', r.1 = Some l' /\ way true c t n l' 0 0) (fun _ _ => False).
Proof using Type.
  clear Hbound. intros Hrw HI Ht Hn [l Hw]. destruct (way_down c t n l 0 0 Hw I) as (s & L0 & off & E & Hd). rewrite entp_pos, E. destruct L0 as [|i].
  - apply tri_ret. split; [done|]. exists (in_tree t, s). split; [done|]. destruct (pos_ok _ _ _ _ E Hn) as (_ & _ & Ho). assert (off = 0) as -> by (change (E128 ^ Z.of_nat 0) with 1 in Ho; lia). by constructor.
  - eapply entp_indirect_sole; try done; [by constructor|by eapply pos_level].
Qed.

(** For reading: nothing changes. *)
Lemma entp_indirect_ro level c lv D t n l off par :
  inv c lv None D -> (t < K)%nat -> 0 <= n -> way false c t n l (S level) off -> (level <= 3)%nat ->
  tri c (pagetree_get_entp_indirect level l off page_shared_ro par)
    (fun r c' => c' = c /\ match r.1 with Some l' => way false c t n l' 0 0 | None => view c t n = None end) (fun _ _ => False).
Proof using Type.
  clear Hbound. intros HI Ht Hn. revert l off par. induction level as [|level IH]; intros l off par Hw HL; cbn [pagetree_get_entp_indirect]; rewrite bool_decide_eq_true_2 by done;
    (eapply (tri_bind N K _ _ _ (fun _ c' => c' = c)); [by apply tri_ret|]); intros _ c' ->; destruct (way_ok _ _ _ _ _ _ _ _ _ _ _ HI Ht Hn Hw) as (Hl & Htl & Hoff);
    (eapply tri_bind; [apply (tri_read_ent N K); apply Hl|]); intros e c' [-> ->];
    (destruct (slot c l) as [p|] eqn:Hs; [|eapply (tri_bind N K _ _ _ (fun e c' => c' = c /\ e = None)); [by apply tri_ret|]; intros e c' [-> ->]; apply tri_ret; split; [done|]; rewrite (way_view _ _ _ _ _ _ _ Hw), Hs; apply val_none]);
    (eapply (tri_bind N K _ _ _ (fun e c' => c' = c /\ e = Some p)); [by apply tri_ret|]); intros e c' [-> ->];
    (assert (Hp : (p < N)%nat) by (by apply (iv_edge _ _ _ _ _ _ HI l p Hl ltac:(by intros []) Hs)));
    (eapply tri_bind; [by apply (tri_set_parent N K)|]); intros [] c' ->.
  - apply tri_ret. split; [done|]. simpl. pose proof (way_step false c t n l 0 off p Hw Hs ltac:(done)) as Hw3. change (E128 ^ Z.of_nat 0) with 1 in Hw3. by rewrite Z.div_1_r, Z.mod_1_r in Hw3.
  - destruct (next_ok level off HL Hoff) as (E1 & E2 & Hd). rewrite E1, E2.
    eapply tri_bind; [apply (tri_assert N K c _ (fun _ c' => c' = c)); [apply Z.ltb_lt, Hd|done]|]. intros [] c' ->.
    apply IH; [|lia]. exact (way_step false c t n l (S level) off p Hw Hs ltac:(done)).
Qed.

Lemma entp_ro c lv D t n :
  inv c lv None D -> (t < K)%nat -> 0 <= n ->
  tri c (pagetree_get_entp t n page_shared_ro) (fun r c' => c' = c /\ pos n <> None /\ match r.1 with Some l' => way false c t n l' 0 0 | None => view c t n = None end) (fun e c' => e = E_NO_SPACE /\ pos n = None /\ c' = c).
Proof using Type.
  clear Hbound. intros HI Ht Hn. rewrite entp_pos. destruct (pos n) as [[[s [|i]] off]|] eqn:E; [| |by apply tri_err].
  - apply tri_ret. split; [done|]. split; [done|]. destruct (pos_ok _ _ _ _ E Hn) as (_ & _ & Ho). assert (off = 0) as -> by (change (E128 ^ Z.of_nat 0) with 1 in Ho; lia). by constructor.
  - eapply tri_mono; [apply (entp_indirect_ro i c lv D t n (in_tree t, s) off None); try done; [by constructor|by eapply pos_level]|by intros r c' [-> ?]|done].
Qed.

(** ** Pages *)

Lemma pt_read_ok c lv D t n :
  inv c lv None D -> (t < K)%nat -> 0 <= n ->
  tri c (pagetree_get_page t n page_shared_ro) (fun r c' => c' = c /\ pos n <> None /\ c_mem c <$> r.1 = view c t n /\ r.2 = 0 /\ forall p, r.1 = Some p -> (p < N)%nat) (fun e c' => e = E_NO_SPACE /\ pos n = None /\ c' = c).
Proof using Type.
  clear Hbound. intros HI Ht Hn. unfold pagetree_get_page. eapply tri_bind; [by eapply entp_ro|]. intros [[l|] par] c' (-> & Hp & Hl); cbn [fst] in Hl.
  - destruct (way_ok _ _ _ _ _ _ _ _ _ _ _ HI Ht Hn Hl) as (Hlive & _). rewrite (way_view _ _ _ _ _ _ _ Hl). eapply tri_bind; [apply (tri_read_ent N K); apply Hlive|]. intros e c' [-> ->]. destruct (slot c l) as [p|] eqn:Hs.
    + rewrite bool_decide_eq_true_2 by done. apply tri_ret. split_and!; try done. intros p' [= <-]. by apply (iv_edge _ _ _ _ _ _ HI l p Hlive ltac:(by intros []) Hs).
    + apply tri_ret. by split_and!.
  - apply tri_ret. split_and!; done.
Qed.

Lemma pt_write_ok c lv D t n rw :
  rw <> page_shared_ro -> inv c lv None D -> (length D <= 100)%nat -> (t < K)%nat -> 0 <= n ->
  tri c (pagetree_get_page t n rw)
    (fun r c' => exists lv', inv c' lv' None D /\ keeps t c c' /\ match r.1 with None => view c t n = None | Some p => exists l, way true c' t n l 0 0 /\ slot c' l = Some p /\ c_ref c' p = 1 end)
    (fun e c' => e = E_RESTART /\ stays t D c c' /\ (length (c_free c) <= 4)%nat \/ e = E_NO_SPACE /\ pos n = None /\ c' = c).
Proof using Hbound.
  intros Hrw HI HD Ht Hn. unfold pagetree_get_page. eapply tri_bind; [eapply tri_mono; [by eapply (entp_excl c lv D t n rw)|by intros ? ? H; exact H|]|].
  { intros e c' [(-> & Hst & Hfr)|?]; [left; split_and!; [done..|lia]|by right]. }
  intros [[l|] par] c1 (Hp & lv1 & l' & E & HI1 & Hk1 & Hw1 & Hfr1); [|done]. injection E as <-.
  destruct (way_ok _ _ _ _ _ _ _ _ _ _ _ HI1 Ht Hn Hw1) as (Hl & _). eapply tri_bind; [apply (tri_read_ent N K); apply Hl|]. intros e c' [-> ->]. destruct (slot c1 l) as [p|] eqn:Hs.
  - rewrite bool_decide_eq_false_2 by done. eapply tri_bind; [eapply tri_mono; [by apply (cow_ok N K Hbound 4 c1 lv1 D t n l)|by intros ? ? H; exact H|]|].
    { intros e c' (-> & -> & Hnil). left. split_and!; [done|eapply stays_trans; [exact Hk1|by eapply stays_refl]|rewrite Hnil in Hfr1; simpl in Hfr1; lia]. }
    intros r c2 (lv2 & HI2 & Hk2 & Hw2 & Hown & Hiff & _). destruct (way_ok _ _ _ _ _ _ _ _ _ _ _ HI2 Ht Hn Hw2) as (Hl2 & _). eapply tri_bind; [apply (tri_read_ent N K); apply Hl2|]. intros e c' [-> ->].
    destruct (slot c2 l) as [q|] eqn:Hs2; [|by rewrite (proj2 Hiff) in Hs].
    eapply tri_bind; [apply (tri_set_parent N K); by apply (iv_edge _ _ _ _ _ _ HI2 l q Hl2 ltac:(by intros []) Hs2)|]. intros [] c' ->. apply tri_ret. exists lv2. split_and!; [done|by eapply keeps_trans|]. exists l. split_and!; [done..|by apply Hown].
  - apply tri_ret. exists lv1. split_and!; [done..|]. simpl. rewrite <- (kp_view _ _ _ _ _ Hk1 t n Ht Hn), (way_view _ _ _ _ _ _ _ Hw1), Hs. done.
Qed.
End entp.
End ops.
