(* ===== verification/PagetreeTrees.v ===== *)
(** * Page trees: putting pages, freeing and copying trees *)

From S2P Require Import Prelude KState KObj Pagetree PagetreeCore PagetreeInv PagetreeFree PagetreeView PagetreeStep PagetreeCow PagetreeOps.
From stdpp Require Import options.

Set Default Goal Selector "!".

Section trees.
Context (N K : nat).
Abbreviation inv := (PagetreeInv.inv N K).
Abbreviation tri := (PagetreeCore.tri N K).
Abbreviation live_loc := (PagetreeInv.live_loc N K).
Abbreviation fresh := (PagetreeStep.fresh N).
Abbreviation keeps := (PagetreeCow.keeps N K).
Abbreviation loose := (PagetreeCow.loose N).

(** ** Dropping what an entry has *)

Lemma drop_ok c lv D l :
  inv c lv None D -> live_loc c l ->
  tri c (match slot c l with Some p => pagetree_decref pt_depth p | None => mret tt end)
    (fun _ c' => exists m, inv c' lv m D /\ (m = None /\ slot c' l = None \/ exists p, m = Some (l, p)) /\ shrink (target lv l) lv None c c' /\ live_loc c' l) (fun _ _ => False).
Proof.
  intros HI Hl. destruct (slot c l) as [p|] eqn:Hs.
  - destruct (inv_mask N K c lv D l p HI Hl Hs) as [HIm Hab]. destruct (iv_edge _ _ _ _ _ _ HI l p Hl ltac:(by intros []) Hs) as (_ & Ht & _). pose proof (iv_lv _ _ _ _ _ _ HI p) as Hlv.
    eapply tri_mono; [apply (decref_ok N K pt_depth c lv (Some (l, p)) p D HIm); [unfold pt_depth; lia|done]| |done]. intros [] c' [HI' Hsh]. exists (Some (l, p)). rewrite <- Ht. split_and!; [done|right; by exists p|done|].
    by apply (iv_mask _ _ _ _ _ _ HI' l p eq_refl).
  - apply tri_ret. exists None. split_and!; [done|by left|apply shrink_refl|done].
Qed.

Section drop.
Context (c c' : core) (lv : nat -> nat) (D : list nat) (m : option (eloc * nat)) (k : nat).
Context (HI : inv c lv None D) (HI' : inv c' lv m D) (Hsh : shrink k lv None c c').

Lemma shrink_fresh q : fresh c q -> fresh c' q /\ c_mem c' q = c_mem c q.
Proof using Type*.
  intros [F1 F2 F3 F4]. assert (Hnf : q ∉ c_free c') by (intros Hin; destruct (sh_freed _ _ _ _ _ Hsh q Hin) as [?|[? _]]; [done|lia]). destruct (sh_mem _ _ _ _ _ Hsh q Hnf ltac:(done)) as [E1 E2].
  split; [|done]. split; [done| |by rewrite E2|done]. pose proof (sh_ref _ _ _ _ _ Hsh q). pose proof (iv_ref _ _ _ _ _ _ HI' q F1). lia.
Qed.

Lemma shrink_loose q : loose c' q -> loose c q.
Proof using Type*.
  intros (Q1 & Q2 & Q3). pose proof (iv_ref _ _ _ _ _ _ HI q Q1). split_and!; [done|by intros ?%(sh_free _ _ _ _ _ Hsh)|]. destruct (Z.le_gt_cases (c_ref c q) 0) as [?|Hr]; [lia|].
  destruct (sh_lost _ _ _ _ _ Hsh q ltac:(lia) ltac:(lia)); done.
Qed.

(** What a way comes to is still in use, unless it is by the entry that is dropped. *)
Lemma shrink_way t n l L off :
  (t < K)%nat -> 0 <= n -> (forall l L off, way false c t n l L off -> ~ is_masked m l) -> way false c t n l L off -> live_loc c' l /\ slot c' l = slot c l.
Proof using Type*.
  intros Ht Hn Hm Hw. induction Hw as [s L off E|l L off p Hw [IH1 IH2] Hs Hx].
  - destruct (pos_ok _ _ _ _ E Hn) as (E1 & _). unfold slot. cbn [fst snd slots_of]. rewrite (sh_tree _ _ _ _ _ Hsh). split; [|done]. split; [|done]. split; [done|]. simpl. by rewrite (sh_tree _ _ _ _ _ Hsh), (iv_tree _ _ _ _ _ _ HI t Ht).
  - destruct (way_ok _ _ _ _ _ _ _ _ _ _ _ HI Ht Hn Hw) as (Hl & HL & Hoff). rewrite Hs in IH2. pose proof (edge_ref _ _ _ _ _ _ _ _ HI' IH1 (Hm _ _ _ Hw) IH2) as Hr. pose proof (ref_not_free _ _ _ _ _ _ _ HI' Hr) as Hnf.
    destruct (sh_mem _ _ _ _ _ Hsh p Hnf ltac:(done)) as [E1 E2]. assert (Hs2 : slots_of c' (in_page p) = slots_of c (in_page p)) by (simpl; by rewrite E1).
    pose proof (way_step false c t n l L off p Hw Hs Hx) as Hw2. destruct (way_ok _ _ _ _ _ _ _ _ _ _ _ HI Ht Hn Hw2) as ([[Hp Hi] Hl2] & _ & _).
    split; [|unfold slot; cbn [fst snd]; by rewrite Hs2]. split; [split; [done|]; cbn [fst snd] in *; by rewrite Hs2|]. cbn [fst] in *. unfold live in *. rewrite E2. apply andb_true_iff in Hl2 as [_ ->]. by rewrite (proj2 (Z.ltb_lt _ _)).
Qed.

Lemma shrink_data t n l off p :
  (t < K)%nat -> 0 <= n -> (forall l L off, way false c t n l L off -> ~ is_masked m l) -> way false c t n l 0 off -> slot c l = Some p -> c_mem c' p = c_mem c p /\ lv p = 0%nat /\ 0 < c_ref c' p.
Proof using Type*.
  intros Ht Hn Hm Hw Hs. destruct (shrink_way t n l 0 off Ht Hn Hm Hw) as [Hl E]. rewrite Hs in E. pose proof (edge_ref _ _ _ _ _ _ _ _ HI' Hl (Hm _ _ _ Hw) E) as Hr. pose proof (ref_not_free _ _ _ _ _ _ _ HI' Hr) as Hnf.
  destruct (iv_edge _ _ _ _ _ _ HI' l p Hl (Hm _ _ _ Hw) E) as (_ & Elv & _). destruct (way_ok _ _ _ _ _ _ _ _ _ _ _ HI Ht Hn Hw) as (_ & HL & _). split_and!; [by apply (sh_mem _ _ _ _ _ Hsh)|lia|done].
Qed.
End drop.

(** ** A page is written to *)

Definition other (t : nat) (n : Z) (t' : nat) (n' : Z) : Prop := t' <> t \/ n' <> n.

Section mem.
Context (c : core) (lv : nat -> nat) (D : list nat) (t : nat) (n : Z) (l : eloc) (p : nat) (x : contents).
Context (HI : inv c lv None D) (Ht : (t < K)%nat) (Hn : 0 <= n) (Hw : way true c t n l 0 0) (Hs : slot c l = Some p) (Hr : c_ref c p = 1).

Lemma mem_dead : (p < N)%nat /\ live c p = false.
Proof using Type*.
  destruct (way_ok _ _ _ _ _ _ _ _ _ _ _ HI Ht Hn Hw) as (Hl & HL & _). destruct (iv_edge _ _ _ _ _ _ HI l p Hl ltac:(by intros []) Hs) as (Hp & Elv & Hi). split; [done|].
  unfold live. destruct (c_indir c p); [|apply andb_false_r]. destruct Hi as [Hi _]. specialize (Hi eq_refl). lia.
Qed.

Lemma mem_inv : inv (with_mem p x c) lv None D.
Proof using Type*. apply inv_set_mem; [done|apply mem_dead]. Qed.

Lemma mem_slot l' : live_loc c l' -> slot (with_mem p x c) l' = slot c l'.
Proof using Type*. intros [_ Hl']. destruct mem_dead as [_ Hd]. destruct l' as [[q|t'] i]; [|done]. simpl in Hl'. unfold slot. simpl. rewrite upd_other; [done|]. intros ->. congruence. Qed.

(** Nothing else has the page. *)
Lemma mem_sole t' n' l' L off : (t' < K)%nat -> 0 <= n' -> way false c t' n' l' L off -> slot c l' = Some p -> t' = t /\ n' = n.
Proof using Type*.
  intros Ht' Hn' Hw' Hs'. destruct (way_ok _ _ _ _ _ _ _ _ _ _ _ HI Ht Hn Hw) as (Hl & HL & _). destruct (way_ok _ _ _ _ _ _ _ _ _ _ _ HI Ht' Hn' Hw') as (Hl' & HL' & Hoff).
  assert (l' = l) as ->.
  { destruct (decide (l' = l)) as [|Hne]; [done|]. pose proof (count_ge2 N K c l l' p Hl Hl' ltac:(congruence) Hs Hs') as H2. destruct mem_dead as [Hp _]. pose proof (iv_cnt _ _ _ _ _ _ HI p Hp) as Hc. simpl in Hc. lia. }
  destruct (way_unique N K c lv t t' n n' l 0 L 0 off D HI Ht Ht' Hn Hn' Hw Hw') as (-> & <- & E). split; [done|]. symmetry. apply E. change (E128 ^ Z.of_nat 0) with 1 in Hoff. lia.
Qed.

Lemma mem_view : view (with_mem p x c) t n = Some x /\ forall t' n', (t' < K)%nat -> 0 <= n' -> other t n t' n' -> view (with_mem p x c) t' n' = view c t' n'.
Proof using Type*.
  split.
  - assert (Hw' : way true (with_mem p x c) t n l 0 0).
    { eapply (way_frame _ _ _ _ _ _ _ _ _ _ _ HI Ht Hn Hw). intros l' q Hl' _ Hs'. by rewrite mem_slot. }
    rewrite (way_view _ _ _ _ _ _ _ Hw'), mem_slot by (by apply (way_ok _ _ _ _ _ _ _ _ _ _ _ HI Ht Hn Hw)). rewrite Hs. simpl. by rewrite upd_same.
  - intros t' n' Ht' Hn' Ho. apply view_way.
    + intros l' L off Hw'. apply mem_slot. by apply (way_ok _ _ _ _ _ _ _ _ _ _ _ HI Ht' Hn' Hw').
    + intros l' off q Hw' Hs'. simpl. apply upd_other. intros ->. destruct (mem_sole t' n' l' 0%nat off Ht' Hn' Hw' Hs') as [-> ->]. by destruct Ho.
Qed.

End mem.

(** ** A page is put in an entry *)

Definition filled (page : option nat) (c : core) : core := match page with Some p => with_ref p 1 c | None => c end.

Definition relevel (page : option nat) (lv : nat -> nat) : nat -> nat := match page with Some p => upd p 0%nat lv | None => lv end.

Section put.
Context (c c' : core) (lv : nat -> nat) (D : list nat) (t : nat) (n : Z) (l : eloc) (m : option (eloc * nat)) (page : option nat).
Context (HI : inv c lv None D) (Ht : (t < K)%nat) (Hn : 0 <= n) (Hw : way true c t n l 0 0).
Context (HI' : inv c' lv m D) (Hm : m = None /\ slot c' l = None \/ exists p, m = Some (l, p)) (Hsh : shrink 0 lv None c c') (Hl' : live_loc c' l).
Context (Hpg : forall p, page = Some p -> fresh c p).

Abbreviation c2 := (with_slot l page (filled page c')).

Lemma put_page_fresh p : page = Some p -> fresh c' p /\ c_mem c' p = c_mem c p.
Proof using Type*. intros E. by eapply shrink_fresh, Hpg. Qed.

Lemma put_live q : live (filled page c') q = live c' q.
Proof using Type*.
  pose proof put_page_fresh as Hfr. destruct page as [p|]; [|done]. simpl. destruct (Hfr p eq_refl) as [[_ _ Hi _] _]. unfold live. simpl. unfold upd. case_decide as E; [|done]. rewrite E, Hi. by rewrite !andb_false_r.
Qed.

Lemma put_loc l0 : live_loc (filled page c') l0 <-> live_loc c' l0.
Proof using Type*.
  assert (E : slots_of (filled page c') l0.1 = slots_of c' l0.1) by (by destruct page, l0 as [[]]). unfold PagetreeInv.live_loc, valid_loc. rewrite E. destruct l0 as [[q|t0] i]; [|done]. cbn [fst]. by rewrite put_live.
Qed.

Lemma put_slot l0 : slot c2 l0 = if decide (l0 = l) then page else slot c' l0.
Proof using Type*.
  rewrite slot_with_slot by (apply put_loc; done). case_decide; [done|]. by destruct page, l0 as [[]].
Qed.

Lemma put_fields : c_free c2 = c_free c' /\ c_indir c2 = c_indir c' /\ (forall q, Some q <> page -> c_ref c2 q = c_ref c' q) /\ (forall p, page = Some p -> c_ref c2 p = 1) /\ (forall q, in_page q <> l.1 -> c_mem c2 q = c_mem c' q).
Proof using Type.
  clear HI Ht Hn Hw HI' Hm Hsh Hl' Hpg. unfold with_slot. destruct l as [[r|t0] i], page as [p|]; simpl; split_and!; try done; intros q Hq; rewrite ?upd_same, ?upd_other by congruence; try done; injection Hq as <-; by rewrite upd_same.
Qed.

Lemma put_inv : Z.of_nat (n_entries * N + n_slots * K) + 1000 < 2 ^ 32 -> (length D <= 100)%nat -> inv c2 (relevel page lv) None D.
Proof using Type*.
  intros Hbound HD. pose proof put_page_fresh as Hfr. destruct (way_ok _ _ _ _ _ _ _ _ _ _ _ HI Ht Hn Hw) as (Hl & HL & _). assert (HIf : inv (filled page c') (relevel page lv) m (given page D)).
  { destruct page as [p|]; [|done]. destruct (Hfr p eq_refl) as [[F1 F2 F3 F4] _]. simpl. pose proof (inv_relevel N K c' lv m D p 0 HI' F2 ltac:(lia)) as HIr.
    destruct (inv_incref N K Hbound c' (upd p 0%nat lv) m D p HIr F1 F4) as [_ HI3]; [by right|lia|]. by rewrite F2 in HI3. }
  assert (Hsl : slot (filled page c') l = slot c' l) by (by destruct page, l as [[]]).
  eapply (inv_set_slot N K _ _ m l page D HIf); [by apply put_loc|by rewrite Hsl|]. intros p E. destruct (put_page_fresh p E) as [[F1 F2 F3 F4] _].
  assert (El : relevel page lv p = 0%nat) by (rewrite E; apply upd_same). rewrite El. split; [|rewrite E; simpl; rewrite F3; split; [done|lia]]. rewrite <- HL. unfold target. destruct l as [[r|t0] i]; [|done]. cbn [fst].
  destruct Hl' as [_ Elr]. cbn [fst] in Elr. rewrite E. simpl. rewrite upd_other; [done|]. intros ->. unfold live in Elr. by rewrite F2 in Elr.
Qed.

(** The way to another page does not come to the entry. *)
Lemma put_apart t' n' l0 L off : (t' < K)%nat -> 0 <= n' -> other t n t' n' -> way false c t' n' l0 L off -> l0 <> l /\ ~ is_masked m l0.
Proof using Type*.
  intros Ht' Hn' Ho Hw'. assert (Hne : l0 <> l).
  { intros ->. destruct (way_unique N K c lv t t' n n' l 0 L 0 off D HI Ht Ht' Hn Hn' Hw Hw') as (-> & <- & E). destruct (way_ok _ _ _ _ _ _ _ _ _ _ _ HI Ht' Hn' Hw') as (_ & _ & Hoff). change (E128 ^ Z.of_nat 0) with 1 in Hoff.
    destruct Ho as [?|Ho]; [done|]. apply Ho. symmetry. apply E. lia. }
  split; [done|]. destruct Hm as [[-> _]|[p ->]]; [by intros []|]. simpl. congruence.
Qed.

Lemma pt_put_other t' n' : (t' < K)%nat -> 0 <= n' -> other t n t' n' -> view c2 t' n' = view c t' n'.
Proof using Type*.
  intros Ht' Hn' Ho. destruct put_fields as (_ & _ & _ & _ & P5). assert (Hmk : forall l0 L off, way false c t' n' l0 L off -> ~ is_masked m l0) by (intros l0 L off Hw'; by eapply put_apart).
  apply view_way.
  - intros l0 L off Hw'. rewrite put_slot, decide_False by (by eapply put_apart). by eapply shrink_way.
  - intros l0 off p Hw' Hs. destruct (shrink_data c c' lv D m 0 HI HI' Hsh t' n' l0 off p Ht' Hn' Hmk Hw' Hs) as (E1 & E2 & _). rewrite P5; [done|]. intros E. destruct Hl' as [[Hr _] El]. rewrite <- E in Hr, El.
    destruct (iv_page _ _ _ _ _ _ HI' p Hr El). lia.
Qed.

Lemma put_way t0 n0 l1 : (t0 < K)%nat -> 0 <= n0 -> way true c t0 n0 l1 0 0 -> way true c2 t0 n0 l1 0 0.
Proof using Type*.
  intros Ht0 Hn0 Hw0. destruct put_fields as (_ & _ & P3 & _). destruct (way_ok _ _ _ _ _ _ _ _ _ _ _ HI Ht Hn Hw) as (Hl & HL & _).
  eapply (way_frame _ _ _ _ _ _ _ _ _ _ _ HI Ht0 Hn0 Hw0). intros l0 q Hl0 Hlt Hs. destruct (iv_edge _ _ _ _ _ _ HI l0 q Hl0 ltac:(by intros []) Hs) as (Hq & Elv & _). pose proof (edge_ref _ _ _ _ _ _ _ _ HI Hl0 ltac:(by intros []) Hs) as Hr.
    pose proof (sh_high _ _ _ _ _ Hsh q ltac:(lia)) as Erq. split; [|rewrite P3; [done|]; intros E; destruct (Hpg q (eq_sym E)); lia].
    rewrite put_slot, decide_False by (intros ->; lia). rewrite <- Hs. unfold slot. f_equal. f_equal. destruct l0 as [[r|t1] i]; simpl; [|by rewrite (sh_tree _ _ _ _ _ Hsh)]. destruct Hl0 as [[Hr0 _] El]. cbn [fst] in *. destruct (iv_page _ _ _ _ _ _ HI r Hr0 El) as [Hlv _].
    assert (Hnf : r ∉ c_free c'); [|by destruct (sh_mem _ _ _ _ _ Hsh r Hnf ltac:(done)) as [-> _]]. intros Hin. destruct (sh_freed _ _ _ _ _ Hsh r Hin) as [Hin'|[_ ?]]; [|lia]. by rewrite (free_not_live N K c lv None D r HI Hin') in El.
Qed.

Lemma put_same : view c2 t n = c_mem c <$> page.
Proof using Type*.
  pose proof put_page_fresh as Hfr. destruct put_fields as (_ & _ & _ & _ & P5). rewrite (way_view _ _ _ _ _ _ _ (put_way t n l Ht Hn Hw)), put_slot, decide_True by done. simpl. destruct page as [p|]; [|done]. simpl. f_equal. destruct (Hfr p eq_refl) as [[F1 F2 F3 F4] E]. rewrite P5; [done|].
  intros E1. destruct Hl' as [_ El]. rewrite <- E1 in El. unfold live in El. by rewrite F2 in El.
Qed.

Lemma put_fresh q : fresh c q -> Some q <> page -> fresh c2 q /\ c_mem c2 q = c_mem c q.
Proof using Type*.
  intros Hq Hne. destruct put_fields as (P1 & P2 & P3 & P4 & P5). destruct (shrink_fresh c c' lv D m 0 HI HI' Hsh q Hq) as [[F1 F2 F3 F4] E]. split; [split; [done|by rewrite P3|by rewrite P2|by rewrite P1]|]. rewrite P5; [done|].
  intros E1. destruct Hl' as [_ El]. rewrite <- E1 in El. unfold live in El. by rewrite F2 in El.
Qed.

Lemma put_loose q : loose c2 q -> loose c q /\ Some q <> page.
Proof using Type*.
  intros (Q1 & Q2 & Q3). destruct put_fields as (P1 & P2 & P3 & P4 & P5). assert (Hne : Some q <> page) by (intros E; rewrite (P4 q) in Q3; [lia|done]). split; [|done].
  eapply (shrink_loose c c'); [done..|]. split_and!; [done|by rewrite <- P1|by rewrite <- P3].
Qed.
End put.

(** What a change of page [n] of [t] to [v] does; [used] is a page that was not in a tree before. *)
Record puts (t : nat) (n : Z) (v : option contents) (used : option nat) (c c' : core) : Prop := {
  pu_same : view c' t n = v;
  pu_other : forall t' n', (t' < K)%nat -> 0 <= n' -> other t n t' n' -> view c' t' n' = view c t' n';
  pu_tree : forall t', t' <> t -> c_tree c' t' = c_tree c t';
  pu_fresh : forall q, fresh c q -> Some q <> used -> fresh c' q /\ c_mem c' q = c_mem c q;
  pu_loose : forall q, loose c' q -> loose c q /\ Some q <> used;
  pu_sole : forall t' n', (t' < K)%nat -> 0 <= n' -> sole c t' n' -> sole c' t' n';
}.

Lemma keeps_puts t n v used c c1 c2 : keeps t c c1 -> puts t n v used c1 c2 -> puts t n v used c c2.
Proof.
  intros [A1 A4 A2 A3 A6] [B1 B2 B5 B3 B4 B6]. split; [done|..].
  - intros t' n' Ht' Hn' Ho. rewrite B2, A1 by done. done.
  - intros t' Hne. by rewrite B5, A4.
  - intros q Hq Hne. destruct (A2 q Hq) as [Hq1 E1]. destruct (B3 q Hq1 Hne) as [Hq2 E2]. split; congruence.
  - intros q [Hq Hne]%B4. auto.
  - auto.
Qed.

Section ok.
Context (Hbound : Z.of_nat (n_entries * N + n_slots * K) + 1000 < 2 ^ 32).

(** The end of [pagetree_put_page], when the entry was found. *)
Definition put_entry (l : eloc) (parent page : option nat) : HM unit :=
  e ← read_ent l;
  (match e with Some p => pagetree_decref pt_depth p | None => mret tt end);;
  (match page with Some p => pagetree_incref p;; upd_info p (set_parent parent) | None => mret tt end);;
  pagetree_set_entry l page.

Lemma put_entry_ok c lv D t n l par page :
  inv c lv None D -> (length D <= 100)%nat -> (t < K)%nat -> 0 <= n -> way true c t n l 0 0 -> (forall p, page = Some p -> fresh c p) ->
  tri c (put_entry l par page) (fun _ c' => exists lv', inv c' lv' None D /\ puts t n (c_mem c <$> page) page c c' /\ exists l, way true c' t n l 0 0 /\ slot c' l = page /\ forall p, page = Some p -> c_ref c' p = 1) (fun _ _ => False).
Proof using Hbound.
  intros HI1 HD Ht Hn Hw1 Hpg. rename lv into lv1, c into c1. unfold put_entry.
  destruct (way_ok _ _ _ _ _ _ _ _ _ _ _ HI1 Ht Hn Hw1) as (Hl & HL & _). eapply tri_bind; [apply (tri_read_ent N K); apply Hl|]. intros e c' [-> ->].
  eapply tri_bind; [by apply (drop_ok c1 lv1 D l)|]. intros [] c2 (m & HI2 & Hm & Hsh & Hl2). rewrite HL in Hsh.
  assert (Hfr : forall p, page = Some p -> fresh c2 p) by (intros p E; by eapply (put_page_fresh c1 c2 lv1 D t n l m page)).
  eapply (tri_bind N K _ _ _ (fun _ c3 => c3 = filled page c2)).
  - destruct page as [p|]; [|by apply tri_ret]. destruct (Hfr p eq_refl) as [F1 F2 F3 F4]. eapply tri_bind; [by apply (tri_set_ref N K c2 p (fun r => u32 (r + 1)))|]. intros [] c3 ->. rewrite F2. change (u32 (0 + 1)) with 1. by apply (tri_set_parent N K).
  - intros [] c3 ->. assert (Hsl : slots_of (filled page c2) l.1 = slots_of c2 l.1) by (by destruct page, l as [[]]).
    assert (Hold : forall q, slot c2 l = Some q -> (q < N)%nat).
    { intros q E. destruct Hm as [[_ E']|[p ->]]; [congruence|]. destruct (iv_mask _ _ _ _ _ _ HI2 l p eq_refl) as (_ & E' & ?). congruence. }
    eapply tri_mono; [apply (tri_set_entry N K (filled page c2) l page (fun _ _ => False)); [unfold valid_loc; rewrite Hsl; apply Hl2|unfold slot; rewrite Hsl; exact Hold|intros q E; by apply (Hfr q E)]| |done].
    intros [] c4 ->. exists (relevel page lv1). split; [by eapply (put_inv c1 c2 lv1 D t n l m page)|]. split.
    2:{ exists l. split_and!; [by eapply (put_way c1 c2 lv1 D t n l m page)|rewrite (put_slot c1 c2 lv1 D t n l m page) by done; by rewrite decide_True|]. intros p E. destruct (put_fields c2 l page) as (_ & _ & _ & -> & _); done. }
    split.
    + by apply (put_same c1 c2 lv1 D t n l m page).
    + intros t' n' Ht' Hn' Ho. by apply (pt_put_other c1 c2 lv1 D t n l m page).
    + intros t' Hne. rewrite <- (sh_tree _ _ _ _ _ Hsh). destruct l as [[r|t0] i]; simpl; [by destruct page|]. pose proof (way_tree _ _ _ _ _ _ _ _ _ Hw1 eq_refl). rewrite upd_other by congruence. by destruct page.
    + intros q Hq Hne. by apply (put_fresh c1 c2 lv1 D t n l m page).
    + intros q Hq. by apply (put_loose c1 c2 lv1 D t n l m page).
    + intros t' n' Ht' Hn' [l0 Hw0]. exists l0. by apply (put_way c1 c2 lv1 D t n l m page).
Qed.

Lemma put_ok c lv D t n page :
  inv c lv None D -> (length D <= 100)%nat -> (t < K)%nat -> 0 <= n -> (forall p, page = Some p -> fresh c p) ->
  tri c (pagetree_put_page t n page)
    (fun _ c' => pos n <> None /\ exists lv', inv c' lv' None D /\ puts t n (c_mem c <$> page) page c c' /\ exists l, way true c' t n l 0 0 /\ slot c' l = page /\ forall p, page = Some p -> c_ref c' p = 1)
    (fun e c' => e = E_RESTART /\ stays N K t D c c' /\ (length (c_free c) <= 3)%nat \/ e = E_NO_SPACE /\ pos n = None /\ c' = c).
Proof using Hbound.
  intros HI HD Ht Hn Hpg. unfold pagetree_put_page. eapply tri_bind; [by eapply (entp_excl N K Hbound c lv D t n page_excl_dirty)|]. intros [[l|] par] c1 (Hp & lv1 & l' & E & HI1 & Hk1 & Hw1 & _); [|done]. injection E as <-.
  assert (Hpg1 : forall p, page = Some p -> fresh c1 p /\ c_mem c1 p = c_mem c p) by (intros p E; by apply (kp_fresh _ _ _ _ _ Hk1), Hpg).
  eapply tri_mono; [apply (put_entry_ok c1 lv1 D t n l par page HI1 HD Ht Hn Hw1); intros p E; by apply Hpg1| |done]. intros [] c2 (lv2 & HI2 & Hpu & Hl). split; [done|]. exists lv2. split_and!; [done| |done].
  replace (c_mem c <$> page) with (c_mem c1 <$> page) by (destruct page as [p|]; [|done]; simpl; f_equal; by apply (Hpg1 p eq_refl)). by eapply keeps_puts.
Qed.

(** No memory is needed, when nothing else has the pages on the way. *)
Lemma put_sole c lv D t n :
  inv c lv None D -> (length D <= 100)%nat -> (t < K)%nat -> 0 <= n -> sole c t n -> tri c (pagetree_put_page t n None) (fun _ c' => exists lv', inv c' lv' None D /\ puts t n None None c c') (fun _ _ => False).
Proof using Hbound.
  intros HI HD Ht Hn Hso. unfold pagetree_put_page. eapply tri_bind; [by eapply (entp_sole N K c lv D t n page_excl_dirty)|]. intros [[l|] par] c1 (-> & l' & E & Hw); [|done]. injection E as <-.
  eapply tri_mono; [by apply (put_entry_ok c lv D t n l par None HI HD Ht Hn Hw)| |done]. intros [] c2 (lv2 & HI2 & Hpu & _). by exists lv2.
Qed.
End ok.

(** ** Freeing a tree *)

(** What happens to the other trees when [t] is replaced. *)
Record swaps (t : nat) (c c' : core) : Prop := {
  sw_view : forall t' n', (t' < K)%nat -> 0 <= n' -> t' <> t -> view c' t' n' = view c t' n';
  sw_tree : forall t', t' <> t -> c_tree c' t' = c_tree c t';
  sw_fresh : forall q, fresh c q -> fresh c' q /\ c_mem c' q = c_mem c q;
  sw_loose : forall q, loose c' q -> loose c q;
}.

Lemma swaps_refl t c : swaps t c c.
Proof. by split. Qed.

Lemma swaps_trans t c c1 c2 : swaps t c c1 -> swaps t c1 c2 -> swaps t c c2.
Proof.
  intros [A1 A4 A2 A3] [B1 B4 B2 B3]. split; [|..|auto].
  - intros t' n' Ht' Hn' Hne. by rewrite B1, A1.
  - intros t' Hne. by rewrite B4, A4.
  - intros q Hq. destruct (A2 q Hq) as [Hq1 E1]. destruct (B2 q Hq1) as [Hq2 E2]. split; congruence.
Qed.

Lemma free_ent_ok c lv D t k :
  inv c lv None D -> (t < K)%nat -> (k < n_slots)%nat ->
  tri c (pagetree_free_ent (in_tree t, k)) (fun _ c' => inv c' lv None D /\ swaps t c c' /\ slot c' (in_tree t, k) = None /\ forall i, i <> k -> slot c' (in_tree t, i) = slot c (in_tree t, i)) (fun _ _ => False).
Proof.
  intros HI Ht Hk. set (l := (in_tree t, k)). assert (Hl : live_loc c l) by (split; [split; [done|]; simpl; by rewrite (iv_tree _ _ _ _ _ _ HI t Ht)|done]).
  unfold pagetree_free_ent. eapply tri_bind; [apply (tri_read_ent N K); apply Hl|]. intros e c' [-> ->]. pose proof (drop_ok c lv D l HI Hl) as Hdrop. destruct (slot c l) as [p|] eqn:Hs; [|apply tri_ret; split_and!; [done|apply swaps_refl|done|done]].
  eapply tri_bind; [exact Hdrop|]. intros [] c1 (m & HI1 & Hm & Hsh & Hl1).
  assert (Hmk : forall q, slot c1 l = Some q -> (q < N)%nat) by (intros q E; destruct Hm as [[_ E']|[p' ->]]; [congruence|]; destruct (iv_mask _ _ _ _ _ _ HI1 l p' eq_refl) as (_ & E' & ?); congruence).
  eapply tri_mono; [apply (tri_set_entry N K c1 l None (fun _ _ => False)); [apply Hl1|exact Hmk|done]| |done]. intros [] c2 ->.
  assert (Hms : forall t' n' l0 L off, t' <> t -> way false c t' n' l0 L off -> l0 <> l /\ ~ is_masked m l0).
  { intros t' n' l0 L off Hne Hw. assert (l0 <> l) by (intros E; apply Hne; symmetry; by eapply way_tree). split; [done|]. destruct Hm as [[-> _]|[p' ->]]; [by intros []|]. simpl. congruence. }
  split_and!.
  - by eapply (inv_set_slot N K c1 lv m l None D).
  - split.
    + intros t' n' Ht' Hn' Hne. assert (Hmk' : forall l0 L off, way false c t' n' l0 L off -> ~ is_masked m l0) by (intros l0 L off Hw; by eapply Hms). apply view_way.
      * intros l0 L off Hw. rewrite slot_with_slot by apply Hl1. rewrite decide_False by (by eapply Hms). by eapply (shrink_way c c1 lv D m).
      * intros l0 off q Hw Hs'. destruct (shrink_data c c1 lv D m _ HI HI1 Hsh t' n' l0 off q Ht' Hn' Hmk' Hw Hs') as (E & _). exact E.
    + intros t' Hne. simpl. rewrite upd_other by done. apply (sh_tree _ _ _ _ _ Hsh).
    + intros q Hq. destruct (shrink_fresh c c1 lv D m _ HI HI1 Hsh q Hq) as [[] E]. split; [by split|exact E].
    + intros q (Q1 & Q2 & Q3). by eapply (shrink_loose c c1 lv D m).
  - rewrite slot_with_slot by apply Hl1. by rewrite decide_True.
  - intros i Hi. rewrite slot_with_slot by apply Hl1. rewrite decide_False by (unfold l; congruence). unfold slot. simpl. by rewrite (sh_tree _ _ _ _ _ Hsh).
Qed.

Lemma free_ents_ok lv D t n k c :
  inv c lv None D -> (t < K)%nat -> (k + n = n_slots)%nat -> (forall i, (i < k)%nat -> slot c (in_tree t, i) = None) ->
  tri c (hfor k n (fun k => pagetree_free_ent (in_tree t, k))) (fun _ c' => inv c' lv None D /\ swaps t c c' /\ forall i, (i < n_slots)%nat -> slot c' (in_tree t, i) = None) (fun _ _ => False).
Proof.
  revert k c. induction n as [|n IH]; intros k c HI Ht Hk Hs; cbn [hfor].
  - apply tri_ret. split_and!; [done|apply swaps_refl|]. intros i Hi. apply Hs. lia.
  - eapply tri_bind; [apply (free_ent_ok c lv D t k HI Ht); lia|]. intros [] c1 (HI1 & Hw1 & Hk1 & Ho1). eapply tri_mono; [apply (IH (S k) c1 HI1 Ht); [lia|]| |done].
    + intros i Hi. destruct (decide (i = k)) as [->|Hne]; [done|]. rewrite Ho1 by done. apply Hs. lia.
    + intros [] c2 (HI2 & Hw2 & Hs2). split_and!; [done|by eapply swaps_trans|done].
Qed.

Lemma tri_set_tree c t x E : (t < K)%nat -> length (pt_direct x) = n_direct -> tri c (put_tree t x) (fun _ c' => c' = with_tree t (tree_slots x) c) E.
Proof.
  intros Ht Hx h [H1 H2 H3 H4 H5]. simpl. eexists. split; [|done]. split; simpl; [done|by rewrite length_insert| |intros t' y Hy|done].
  - intros q pg Hq. destruct (H3 q pg Hq). by split.
  - apply list_lookup_insert_Some in Hy as [(<- & <- & _)|[Hne Hy]]; [by rewrite upd_same|]. rewrite upd_other by done. by apply H4.
Qed.

Lemma somes_all_none es : (forall i, (i < length es)%nat -> default None (es !! i) = None) -> somes es = [].
Proof.
  intros Hn. destruct (somes es) as [|q r] eqn:E; [done|]. assert (Hq : q ∈ somes es) by (rewrite E; left). apply elem_of_somes in Hq as [i Hi]. specialize (Hn i ltac:(by eapply lookup_lt_Some)). by rewrite Hi in Hn.
Qed.

Lemma pt_free_ok c lv D t :
  inv c lv None D -> (t < K)%nat ->
  tri c (pagetree_free t false) (fun _ c' => inv c' lv None D /\ swaps t c c' /\ c_tree c' t = replicate n_slots None) (fun _ _ => False).
Proof.
  intros HI Ht. unfold pagetree_free. eapply (tri_bind N K _ _ _ (fun _ c' => c' = c)); [by apply tri_ret|]. intros [] c' ->.
  eapply tri_bind; [apply (free_ents_ok lv D t n_slots 0 c HI Ht); [lia|]; intros i Hi; lia|]. intros [] c1 (HI1 & Hw1 & Hs1).
  eapply tri_mono; [by apply (tri_set_tree c1 t (empty_tree no_owner) (fun _ _ => False))| |done]. intros [] c2 ->. change (tree_slots (empty_tree no_owner)) with (replicate n_slots (@None nat)).
  assert (Hnil : somes (c_tree c1 t) = []) by (apply somes_all_none; intros i Hi; apply Hs1; by rewrite (iv_tree _ _ _ _ _ _ HI1 t Ht) in Hi). split_and!.
  - apply inv_set_tree; try done. intros i q Hi. by apply lookup_replicate in Hi as [? _].
  - eapply swaps_trans; [exact Hw1|]. split.
    + intros t' n' Ht' Hn' Hne. apply view_way; [|done]. intros [[q|t0] i] L off Hw; [done|]. unfold slot. simpl. rewrite upd_other; [done|]. intros ->. apply Hne. symmetry. by eapply way_tree.
    + intros t' Hne. simpl. by apply upd_other.
    + intros q []. by repeat split.
    + intros q Hq. exact Hq.
  - simpl. apply upd_same.
Qed.

(** An empty tree holds nothing. *)
Lemma view_empty c t n : c_tree c t = replicate n_slots None -> view c t n = None.
Proof.
  intros E. unfold view. destruct (pos n) as [[[s L] off]|]; [|done]. replace (slot c (in_tree t, s)) with (@None nat); [apply val_none|]. unfold slot. simpl. rewrite E. destruct (replicate n_slots (@None nat) !! s) as [e|] eqn:Ee; [|done]. by apply lookup_replicate in Ee as [-> _].
Qed.

(** ** Copying a tree *)

Lemma tri_get_tree c t E : (t < K)%nat -> tri c (fetch_tree t) (fun x c' => c' = c /\ tree_slots x = c_tree c t /\ length (pt_direct x) = n_direct) E.
Proof.
  intros Ht h Hh. unfold fetch_tree. destruct (ph_trees h !! t) as [x|] eqn:Ex; [|apply lookup_ge_None in Ex; rewrite (hs_K _ _ _ _ Hh) in Ex; lia]. exists c. split; [done|]. split; [done|]. by apply (hs_tree _ _ _ _ Hh).
Qed.

Lemma copy_pinned_ok share c dst n k :
  (dst < K)%nat -> (k + n = length (c_tree c dst))%nat -> (forall q, q ∈ somes (c_tree c dst) -> (q < N)%nat) -> tri c (copy_pinned share dst k n) (fun b c' => b = false /\ c' = c) (fun _ _ => False).
Proof.
  intros Hd. revert k. induction n as [|n IH]; intros k Hk Hq; cbn [copy_pinned]; [by apply tri_ret|]. assert (Hv : valid_loc N K c (in_tree dst, k)) by (split; [done|simpl; lia]).
  eapply tri_bind; [by apply (tri_read_ent N K)|]. intros e c' [-> ->]. destruct (slot c (in_tree dst, k)) as [p|] eqn:Hs; [|apply IH; [lia|done]].
  destruct Hv as [_ Hv]. apply slot_lookup in Hv. rewrite Hs in Hv. eapply tri_bind; [apply (tri_get_info N K), Hq, elem_of_somes; by exists k|]. intros i c' (-> & _ & _ & _ & _ & I5 & _). rewrite I5. apply IH; [lia|done].
Qed.

(** The pages of the entries of a tree. *)
Lemma root_ok c lv D t i q : inv c lv None D -> (t < K)%nat -> c_tree c t !! i = Some (Some q) -> (q < N)%nat /\ 0 < c_ref c q /\ lv q = target lv (in_tree t, i) /\ (c_indir c q = true <-> (0 < lv q)%nat).
Proof.
  intros HI Ht Hi. assert (Hl : live_loc c (in_tree t, i)) by (split; [split; [done|by eapply lookup_lt_Some]|done]). assert (Hs : slot c (in_tree t, i) = Some q) by (unfold slot; simpl; by rewrite Hi).
  destruct (iv_edge _ _ _ _ _ _ HI _ q Hl ltac:(by intros []) Hs) as (A1 & A2 & A3). split_and!; [done| |done|apply A3]. apply (edge_ref _ _ _ _ _ _ _ _ HI Hl); [by intros []|done].
Qed.

Lemma val_ext c c' L e n : (forall q, c_mem c' q = c_mem c q) -> val c' L e n = val c L e n.
Proof.
  intros Hm. apply (val_bisim (fun _ e e' => e' = e)); [|intros L' e1 e' i ->|done].
  - intros e1 e' ->. destruct e1; simpl; [by rewrite Hm|done].
  - destruct e1; simpl; [|done]. unfold slot. simpl. by rewrite Hm.
Qed.

Lemma copy_ok c lv D src dst par share :
  Z.of_nat (n_entries * N + n_slots * K) + 1000 < 2 ^ 32 -> inv c lv None D -> (length D <= 100)%nat -> (src < K)%nat -> (dst < K)%nat -> c_tree c dst = replicate n_slots None ->
  tri c (pagetree_copy src dst par share) (fun b c' => b = false /\ inv c' lv None D /\ swaps dst c c' /\ forall n, view c' dst n = view c src n) (fun _ _ => False).
Proof.
  intros Hbound HI HD Hsrc Hdst Hemp. unfold pagetree_copy. eapply tri_bind; [by apply tri_get_tree|]. intros x c' (-> & Hx & Hdir). set (es := c_tree c src) in *.
  assert (Hlen : length es = n_slots) by (apply (iv_tree _ _ _ _ _ _ HI src Hsrc)). assert (Hes : forall q, q ∈ somes es -> (q < N)%nat /\ 0 < c_ref c q) by (intros q [i Hi]%elem_of_somes; by destruct (root_ok c lv D src i q HI Hsrc Hi) as (? & ? & _)).
  eapply tri_bind; [by apply (tri_set_tree c dst (mkPagetree (pt_direct x) (pt_indirect x) par))|]. intros [] c' ->. change (tree_slots (mkPagetree (pt_direct x) (pt_indirect x) par)) with (tree_slots x). rewrite Hx. set (c1 := with_tree dst es c).
  assert (Hsl : c_tree c1 dst = es) by (simpl; apply upd_same).
  assert (Hb : forall q, (q < N)%nat -> c_ref c q + Z.of_nat (refs q es) < 2 ^ 32).
  { intros q Hq. pose proof (ref_bound _ _ _ _ _ _ q HI Hq) as Hr. pose proof (refs_length q es) as Hrl. rewrite Hlen in Hrl. change n_slots with 8%nat in Hrl. clear - Hr Hrl HD Hbound. lia. }
  eapply tri_bind; [eapply tri_mono; [apply (incref_loop N K (in_tree dst) es n_slots 0 c1); [exact Hsl|done|lia|]|by intros ? ? H; exact H|done]|].
  { intros q Hq. destruct (Hes q Hq) as [Hq1 Hq2]. split_and!; [done|simpl; lia|]. rewrite drop_0. by apply Hb. }
  rewrite drop_0. intros [] c2 (r & -> & Hr). assert (Hg : grown es c (with_refs r c)) by (by exists r).
  eapply tri_bind; [eapply tri_mono; [apply (copy_pinned_ok share (with_refs r c1) dst n_slots 0 Hdst); [simpl; rewrite upd_same; lia|]|by intros ? ? H; exact H|done]|].
  { change (c_tree (with_refs r c1) dst) with (c_tree c1 dst). rewrite Hsl. intros q Hq. by apply Hes. }
  intros b c' [-> ->]. eapply (tri_bind N K _ _ _ (fun _ c' => c' = with_refs r c1)); [by apply tri_ret|]. intros [] c' ->. apply tri_ret.
  assert (HI2 : inv (with_refs r c1) lv None D).
  { pose proof (inv_grown N K c (with_refs r c) lv None D es HI Hg Hes Hb) as HIg. apply (inv_set_tree N K (with_refs r c) lv D dst es HIg Hdst); [simpl; rewrite Hemp; apply somes_none|done|].
    intros i q Hi. by destruct (root_ok c lv D src i q HI Hsrc Hi) as (_ & _ & ? & ?). }
  split_and!; [done|done| |].
  - split.
    + intros t' n' Ht' Hn' Hne. unfold view. destruct (pos n') as [[[s L] off]|]; [|done]. replace (slot (with_refs r c1) (in_tree t', s)) with (slot c (in_tree t', s)); [by apply val_ext|]. unfold slot. simpl. by rewrite upd_other.
    + intros t' Hne. simpl. by apply upd_other.
    + intros q [F1 F2 F3 F4]. split; [|done]. split; try done. simpl. rewrite Hr. simpl. rewrite (refs_zero q es); [lia|]. intros Hin. destruct (Hes q Hin). lia.
    + intros q (Q1 & Q2 & Q3). split_and!; try done. simpl in Q3. rewrite Hr in Q3. simpl in Q3. pose proof (iv_ref _ _ _ _ _ _ HI q Q1). lia.
  - intros n. unfold view. destruct (pos n) as [[[s L] off]|]; [|done]. replace (slot (with_refs r c1) (in_tree dst, s)) with (slot c (in_tree src, s)); [by apply val_ext|]. unfold slot. simpl. by rewrite upd_same.
Qed.
End trees.
