(* ===== verification/PagetreeSpec.v ===== *)
(** * Page trees are independent maps

    The specification of page trees: a map from pages to contents for every tree.
    Whatever pages the trees share, an operation on one of them changes nothing in the
    others; when there is no memory the maps stay as they are; and no page is lost. *)

From S2P Require Import Prelude KState KObj Pagetree PagetreeCore PagetreeInv PagetreeFree PagetreeView PagetreeStep PagetreeCow PagetreeOps PagetreeTrees.
From stdpp Require Import options.

Set Default Goal Selector "!".

(** ** Operations *)

Inductive pop :=
| p_read (t : nat) (n : Z)
| p_write (t : nat) (n : Z) (x : contents)
| p_add (t : nat) (n : Z) (x : contents)
| p_drop (t : nat) (n : Z)
| p_copy (s t : nat)
| p_free (t : nat).

(** What was there, for reads and writes. *)
Definition run_op (o : pop) : HM (option contents) :=
  match o with
  | p_read t n =>
      r ← pagetree_get_page t n page_shared_ro;
      match r.1 with Some p => pg ← get_pg p; mret (Some (pg_mem pg)) | None => mret None end
  | p_write t n x =>
      r ← pagetree_get_page t n page_excl_dirty;
      match r.1 with Some p => pg ← get_pg p; set_mem p x;; mret (Some (pg_mem pg)) | None => mret None end
  | p_add t n x => kobject_add_page t n x;; mret None
  | p_drop t n => pagetree_put_page t n None;; mret None
  | p_copy s t => pagetree_copy s t no_owner false;; mret None
  | p_free t => pagetree_free t false;; mret None
  end.

(** ** The specification *)

(** What the trees hold, and which of them were freed and not used since. *)
Record store := mkStore { st_view : nat -> Z -> option contents; st_empty : nat -> bool }.

Definition put_view (t : nat) (n : Z) (v : option contents) (V : nat -> Z -> option contents) : nat -> Z -> option contents :=
  fun t' n' => if decide (t' = t /\ n' = n) then v else V t' n'.

(** The tree is not empty any more. *)
Definition touch (t : nat) (S : store) : store := mkStore (st_view S) (upd t false (st_empty S)).

Definition spec_op (o : pop) (S : store) : option contents * store :=
  let V := st_view S in
  match o with
  | p_read t n => (V t n, S)
  | p_write t n x => (V t n, match V t n with Some _ => mkStore (put_view t n (Some x) V) (upd t false (st_empty S)) | None => touch t S end)
  | p_add t n x => (None, mkStore (put_view t n (Some x) V) (upd t false (st_empty S)))
  | p_drop t n => (None, mkStore (put_view t n None V) (upd t false (st_empty S)))
  | p_copy s t => (None, mkStore (upd t (V s) V) (upd t false (st_empty S)))
  | p_free t => (None, mkStore (upd t (fun _ => None) V) (upd t true (st_empty S)))
  end.

(** An operation that fails does nothing that can be seen. *)
Definition spec_fail (o : pop) (S : store) : store :=
  match o with
  | p_write t _ _ | p_add t _ _ | p_drop t _ => touch t S
  | _ => S
  end.

Definition op_page (o : pop) : option Z :=
  match o with p_read _ n | p_write _ n _ | p_add _ n _ | p_drop _ n => Some n | _ => None end.

(** Trees exist, and a tree that is copied to is empty. *)
Definition legal (K : nat) (S : store) (o : pop) : Prop :=
  match o with
  | p_read t n | p_write t n _ | p_add t n _ | p_drop t n => (t < K)%nat /\ 0 <= n
  | p_copy s t => (s < K)%nat /\ (t < K)%nat /\ st_empty S t = true
  | p_free t => (t < K)%nat
  end.

Definition needs_memory (o : pop) : bool := match o with p_write _ _ _ | p_add _ _ _ | p_drop _ _ => true | _ => false end.

(** An operation may fail for want of memory, when fewer than five pages are free, or
    because the page is beyond the end of a tree. *)
Definition may_fail (free : nat) (o : pop) (e : Z) : Prop :=
  needs_memory o = true /\ e = E_RESTART /\ (free < 5)%nat \/ e = E_NO_SPACE /\ exists n, op_page o = Some n /\ pagetree_maxpages <= n.

(** A sequence of operations, each with the number of free pages that it found. *)
Fixpoint run_ops (os : list pop) (h : pheap) : list (nat * res (option contents)) * pheap :=
  match os with
  | [] => ([], h)
  | o :: os => let '(r, h') := run_op o h in let '(rs, h'') := run_ops os h' in ((length (ph_free h), r) :: rs, h'')
  end.

Inductive spec_ops (K : nat) : list pop -> store -> list (nat * res (option contents)) -> store -> Prop :=
| so_nil S : spec_ops K [] S [] S
| so_ok o os S a S' free rs S'' : spec_op o S = (a, S') -> spec_ops K os S' rs S'' -> spec_ops K (o :: os) S ((free, Ok a) :: rs) S''
| so_fail o os S e free rs S'' : may_fail free o e -> spec_ops K os (spec_fail o S) rs S'' -> spec_ops K (o :: os) S ((free, Err e) :: rs) S''.

(** The operations are legal, whatever fails on the way. *)
Fixpoint all_legal (K : nat) (os : list pop) (S : store) : Prop :=
  match os with
  | [] => True
  | o :: os => legal K S o /\ all_legal K os (spec_op o S).2 /\ all_legal K os (spec_fail o S)
  end.

(** ** The positions of pages *)

Lemma indir_pos_none n num i k : 0 <= n -> indir_pos n num i k = None -> indirect_pages k num <= n.
Proof.
  revert n num i. induction k as [|k IH]; intros n num i Hn E; cbn [indir_pos indirect_pages] in *; [done|]. destruct (Z.ltb_spec n (num * E128)) as [Hlt|Hge]; [done|].
  pose proof (IH (n - num * E128) (num * E128) (S i) ltac:(lia) E). lia.
Qed.

Lemma pos_none n : 0 <= n -> pos n = None -> pagetree_maxpages <= n.
Proof.
  unfold pos. intros Hn E. destruct (Z.ltb_spec n PAGETREE_DIRECT_PAGES) as [|Hge]; [done|]. pose proof (indir_pos_none (n - PAGETREE_DIRECT_PAGES) _ _ _ ltac:(lia) E) as Hi. unfold pagetree_maxpages. lia.
Qed.

Section spec.
Context (N K : nat).
Context (Hbound : Z.of_nat (n_entries * N + n_slots * K) + 1000 < 2 ^ 32).
Abbreviation inv := (PagetreeInv.inv N K).
Abbreviation has := (PagetreeCore.has N K).
Abbreviation tri := (PagetreeCore.tri N K).
Abbreviation loose := (PagetreeCow.loose N).
Abbreviation fresh := (PagetreeStep.fresh N).
Abbreviation keeps := (PagetreeCow.keeps N K).

(** ** The heap holds the maps *)

(** [x]: a page that was just allocated. *)
Record holdx (x : option nat) (c : core) (S : store) : Prop := {
  hd_inv : exists lv, inv c lv None [];
  hd_loose : forall q, loose c q -> x = Some q;
  hd_fresh : forall q, x = Some q -> fresh c q;
  hd_view : forall t n, (t < K)%nat -> 0 <= n -> view c t n = st_view S t n;
  hd_empty : forall t, (t < K)%nat -> st_empty S t = true -> c_tree c t = replicate n_slots None;
}.

Abbreviation holds := (holdx None).

Definition rep (h : pheap) (S : store) : Prop := exists c, has h c /\ holds c S.

(** An outcome of an operation. *)
Definition refines (o : pop) (c : core) (S : store) : Prop :=
  tri c (run_op o) (fun a c' => a = (spec_op o S).1 /\ holds c' (spec_op o S).2) (fun e c' => may_fail (length (c_free c)) o e /\ holds c' (spec_fail o S)).

(** ** Each operation *)

Lemma tri_get_mem c p E : (p < N)%nat -> tri c (pg ← get_pg p; mret (Some (pg_mem pg))) (fun a c' => c' = c /\ a = Some (c_mem c p)) E.
Proof using Type. intros Hp. eapply tri_bind; [by apply (tri_get_pg N K)|]. intros pg c' [-> Hpg]. apply tri_ret. by rewrite (ph_mem _ _ _ Hpg). Qed.

Lemma read_refines c S t n : holds c S -> legal K S (p_read t n) -> refines (p_read t n) c S.
Proof using Type.
  intros HS [Ht Hn]. pose proof HS as [[lv HI] Hlo _ Hv He]. unfold refines. cbn [run_op spec_op spec_fail]. eapply tri_bind; [eapply tri_mono; [by eapply (pt_read_ok N K c lv [])|by intros ? ? H; exact H|]|].
  { intros e c' (-> & Hp & ->). split; [|done]. right. split; [done|]. exists n. split; [done|]. by apply pos_none. }
  intros [r z] c' (-> & _ & Er & _ & HN). cbn [fst] in *. rewrite Hv in Er by done. simpl. rewrite <- Er. destruct r as [p|]; [|by apply tri_ret]. eapply tri_mono; [by apply (tri_get_mem c p (fun _ _ => False)), HN| |by intros ? ? []]. by intros a c' [-> ->].
Qed.


(** The maps are the same, but the tree may have got indirect pages. *)
Lemma stays_holds x c c' S t : holdx x c S -> stays N K t [] c c' -> holdx x c' (touch t S).
Proof using Type.
  intros [_ Hlo Hf Hv He] (lv & HI & [K1 K2 K3 K4 _]). split; [by exists lv|by intros q ?%K4%Hlo|intros q Hq; by apply K3, Hf|..].
  - intros t' n Ht Hn. simpl. rewrite K1 by done. by apply Hv.
  - intros t' Ht. simpl. unfold upd. case_decide as E; [done|]. intros Hem. rewrite K2 by done. by apply He.
Qed.

Lemma same_holds x c S t : holdx x c S -> holdx x c (touch t S).
Proof using Type. intros HS. pose proof HS as [[lv HI] _ _ _ _]. eapply stays_holds; [done|by eapply stays_refl]. Qed.

Lemma put_view_other t n v V t' n' : other t n t' n' -> put_view t n v V t' n' = V t' n'.
Proof using Type. intros Ho. unfold put_view. rewrite decide_False; [done|]. intros [-> ->]. by destruct Ho. Qed.

Lemma put_view_same t n v V : put_view t n v V t n = v.
Proof using Type. unfold put_view. by rewrite decide_True. Qed.

Lemma other_dec t n t' n' : (t' = t /\ n' = n) \/ other t n t' n'.
Proof using Type. unfold other. destruct (decide (t' = t)), (decide (n' = n)); auto. Qed.

(** One page has changed, and the new page is in the tree. *)
Lemma puts_holds x c c' S t n v : holdx x c S -> (exists lv', inv c' lv' None []) -> puts N K t n v x c c' -> holds c' (mkStore (put_view t n v (st_view S)) (upd t false (st_empty S))).
Proof using Type.
  intros [_ Hlo Hf Hv He] HI [P1 P2 P3 P4 P5 _]. split; [done| |done|..].
  - intros q [Hq Hne]%P5. apply Hlo in Hq. by destruct Hne.
  - intros t' n' Ht' Hn'. simpl. destruct (other_dec t n t' n') as [[-> ->]|Ho]; [by rewrite put_view_same|]. rewrite put_view_other, P2 by done. by apply Hv.
  - intros t' Ht'. simpl. unfold upd. case_decide as E; [done|]. intros Hem. rewrite P3 by done. by apply He.
Qed.

(** The page that nothing else has is written to. *)
Lemma mem_holds c S t n l p x y :
  holds c (mkStore (put_view t n (Some y) (st_view S)) (upd t false (st_empty S))) -> (t < K)%nat -> 0 <= n -> way true c t n l 0 0 -> slot c l = Some p -> c_ref c p = 1 ->
  holds (with_mem p x c) (mkStore (put_view t n (Some x) (st_view S)) (upd t false (st_empty S))).
Proof using Type.
  intros [[lv HI] Hlo _ Hv He] Ht Hn Hw Hs Hr. destruct (mem_view N K c lv [] t n l p x HI Ht Hn Hw Hs Hr) as [Hv1 Hv2]. split; [exists lv; by eapply mem_inv|exact Hlo|done| |exact He].
  intros t' n' Ht' Hn'. simpl. destruct (other_dec t n t' n') as [[-> ->]|Ho]; [by rewrite put_view_same|]. rewrite Hv2, Hv by done. simpl. by rewrite !put_view_other.
Qed.

Lemma write_refines c S t n x : holds c S -> legal K S (p_write t n x) -> refines (p_write t n x) c S.
Proof using Hbound.
  intros HS [Ht Hn]. pose proof HS as [[lv HI] Hlo _ Hv He]. unfold refines. cbn [run_op spec_op spec_fail].
  eapply tri_bind; [eapply tri_mono; [eapply (pt_write_ok N K Hbound c lv [] t n page_excl_dirty); [done|done|simpl; lia|done|done]|by intros ? ? H; exact H|]|].
  { intros e c' [(-> & Hst & Hfr)|(-> & Hp & ->)].
    - split; [left; split_and!; [done|done|lia]|by eapply stays_holds].
    - split; [right; split; [done|]; exists n; split; [done|]; by apply pos_none|by apply same_holds]. }
  intros [r z] c1 (lv1 & HI1 & Hk1 & Hr). cbn [fst] in *. pose proof (stays_holds None c c1 S t HS (ex_intro _ lv1 (conj HI1 Hk1))) as HS1.
  destruct r as [p|]; [|apply tri_ret; rewrite Hv in Hr by done; rewrite Hr; done]. destruct Hr as (l & Hw & Hs & Hr1).
  destruct (mem_dead N K c1 lv1 [] t n l p HI1 Ht Hn Hw Hs Hr1) as [Hp _]. eapply tri_bind; [by apply (tri_get_pg N K)|]. intros pg c' [-> Hpg]. eapply tri_bind; [by apply (tri_set_mem N K)|]. intros [] c' ->.
  apply tri_ret. rewrite (ph_mem _ _ _ Hpg). assert (Eold : st_view S t n = Some (c_mem c1 p)) by (rewrite <- Hv, <- (kp_view _ _ _ _ _ Hk1 t n Ht Hn), (way_view _ _ _ _ _ _ _ Hw), Hs by done; done). rewrite Eold. split; [done|].
  eapply mem_holds; [|done..]. destruct HS1 as [H1 H2 H3 H4 H5]. split; try done. intros t' n' Ht' Hn'. rewrite H4 by done. simpl. destruct (other_dec t n t' n') as [[-> ->]|Ho]; [by rewrite put_view_same|by rewrite put_view_other].
Qed.

(** ** Adding a page *)

(** What nothing else has stays so. *)
Definition soles (c c' : core) : Prop := forall t n, (t < K)%nat -> 0 <= n -> sole c t n -> sole c' t n.

Lemma soles_trans c c1 c2 : soles c c1 -> soles c1 c2 -> soles c c2.
Proof using Type. unfold soles. auto. Qed.

Lemma soles_frame c c' lv :
  inv c lv None [] -> (forall l, live_loc N K c l -> slot c' l = slot c l) -> (forall q, c_ref c' q = c_ref c q) -> soles c c'.
Proof using Type.
  intros HI Hs Hr t n Ht Hn [l Hw]. exists l. apply (way_frame_sole _ _ _ _ _ _ _ Hw). intros l' L' off' q Hw' Hs' Hr'. rewrite Hr, Hs; [done|]. by apply (way_ok _ _ _ _ _ _ _ _ _ _ _ HI Ht Hn Hw').
Qed.

Lemma pt_alloc_ok c S :
  holds c S -> tri c page_alloc (fun p c' => holdx (Some p) c' S /\ length (c_free c) = Datatypes.S (length (c_free c')) /\ soles c c') (fun e c' => e = E_RESTART /\ c' = c /\ c_free c = []).
Proof using Type.
  intros [[lv HI] Hlo _ Hv He]. destruct (iv_free _ _ _ _ _ _ HI) as [_ Hf]. eapply tri_mono; [apply (tri_page_alloc N K); apply list.Forall_forall; intros q Hq; by destruct (Hf q Hq) as (? & _ & _ & ?)| |by intros e c' (-> & -> & ?)].
  intros x c' (lf & Ef & ->). fold (taken x lf c). destruct (inv_alloc N K c lv None [] x lf HI Ef) as [HI1 Hfr]. destruct (taken_same x lf c) as [T1 T2]. split; [|split; [by rewrite Ef|by eapply soles_frame]]. split.
  - by exists lv.
  - intros q (Q1 & Q2 & Q3). rewrite T1 in Q3. destruct (decide (q = x)) as [->|Hne]; [done|]. cut (None = Some q); [done|]. apply Hlo. split_and!; [done| |done]. rewrite Ef. by apply not_elem_of_cons.
  - by intros q [= <-].
  - intros t n Ht Hn. rewrite <- Hv by done. unfold view. destruct (pos n) as [[[s L] off]|]; [|done]. by apply val_ext.
  - exact He.
Qed.

Lemma unalloc_ok c S x : holdx (Some x) c S -> tri c (page_free x) (fun _ c' => holds c' S /\ soles c c') (fun _ _ => False).
Proof using Type.
  intros [[lv HI] Hlo Hf Hv He]. destruct (Hf x eq_refl) as [F1 F2 F3 F4]. eapply tri_mono; [by apply (tri_page_free N K c x (fun _ _ => False)), (iv_used _ _ _ _ _ _ HI)| |done].
  intros [] c' ->. set (c' := with_free _ _). assert (Er : forall q, c_ref c' q = c_ref c q /\ c_indir c' q = c_indir c q) by (intros q; unfold c'; simpl; unfold upd; split; case_decide; congruence).
  split; [|eapply soles_frame; [done|done|intros q; by destruct (Er q)]]. split.
  - exists lv. eapply (inv_freed N K c c'); try done.
    + intros q Hq. destruct (Er q). split_and!; [done..|]. unfold c'. simpl. by rewrite upd_other.
    + by rewrite (proj1 (Er x)).
    + by rewrite (proj2 (Er x)).
    + unfold c'. simpl. apply upd_same.
  - intros q (Q1 & Q2 & Q3). unfold c' in Q2. simpl in Q2. apply not_elem_of_cons in Q2 as [Hne Q2]. rewrite (proj1 (Er q)) in Q3. exfalso. apply Hne. symmetry. assert (Some x = Some q) by (by apply Hlo). congruence.
  - done.
  - intros t n Ht Hn. rewrite <- Hv by done. unfold view. destruct (pos n) as [[[s L] off]|]; [|done]. by apply val_ext.
  - exact He.
Qed.

Lemma put_refines x c S t n :
  holdx x c S -> (t < K)%nat -> 0 <= n ->
  tri c (pagetree_put_page t n x)
    (fun _ c' => holds c' (mkStore (put_view t n (c_mem c <$> x) (st_view S)) (upd t false (st_empty S))) /\ soles c c' /\
      exists l, way true c' t n l 0 0 /\ slot c' l = x /\ forall p, x = Some p -> c_ref c' p = 1)
    (fun e c' => holdx x c' (touch t S) /\ soles c c' /\ (e = E_RESTART /\ (length (c_free c) <= 3)%nat \/ e = E_NO_SPACE /\ pagetree_maxpages <= n)).
Proof using Hbound.
  intros HS Ht Hn. pose proof HS as [[lv HI] Hlo Hf Hv He]. eapply tri_mono; [apply (put_ok N K Hbound c lv [] t n x HI); [simpl; lia|done..]| |].
  - intros [] c' (_ & lv' & HI' & Hpu & Hl). split; [|split; [exact (pu_sole _ _ _ _ _ _ _ _ Hpu)|done]]. eapply puts_holds; [done|by exists lv'|done].
  - intros e c' [(-> & Hst & Hfr)|(-> & Hp & ->)].
    + split; [by eapply stays_holds|]. split; [destruct Hst as (lv' & _ & [_ _ _ _ Hso]); exact Hso|by left].
    + split; [by apply same_holds|]. split; [by intros ? ?|right]. split; [done|by apply pos_none].
Qed.

Lemma drop_refines c S t n : holds c S -> legal K S (p_drop t n) -> refines (p_drop t n) c S.
Proof using Hbound.
  intros HS [Ht Hn]. unfold refines. cbn [run_op spec_op spec_fail]. eapply tri_bind; [eapply tri_mono; [by apply (put_refines None c S t n)|by intros ? ? H; exact H|]|].
  - intros e c' (Hh & _ & [[-> Hfr]|[-> Hmx]]); (split; [|done]); [left; split_and!; [done|done|lia]|right; split; [done|]; by exists n].
  - intros [] c' [Hh _]. by apply tri_ret.
Qed.

Lemma add_ok c S t n x :
  holds c S -> (t < K)%nat -> 0 <= n ->
  tri c (kobject_add_page t n x)
    (fun _ c' => holds c' (mkStore (put_view t n (Some x) (st_view S)) (upd t false (st_empty S))) /\ soles c c' /\ sole c' t n)
    (fun e c' => holds c' (touch t S) /\ soles c c' /\ (e = E_RESTART /\ (length (c_free c) <= 4)%nat \/ e = E_NO_SPACE /\ pagetree_maxpages <= n)).
Proof using Hbound.
  intros HS Ht Hn. unfold kobject_add_page. eapply tri_bind; [eapply tri_mono; [by apply (pt_alloc_ok c S)|by intros ? ? H; exact H|]|].
  { intros e c' (-> & -> & Hnil). split; [by apply same_holds|]. split; [by intros ? ?|left]. split; [done|rewrite Hnil; simpl; lia]. }
  intros p c1 (HS1 & Hlen & Hso1). eapply (tri_bind N K); [apply (tri_code N K _ _ _ _ _ (put_refines (Some p) c1 S t n HS1 Ht Hn))|]. intros [[]|e|] c2; [| |done].
  - intros (HS2 & Hso2 & l & Hw & Hs & Hr). specialize (Hr p eq_refl). pose proof HS2 as [[lv HI] _ _ _ _]. destruct (mem_dead N K c2 lv [] t n l p HI Ht Hn Hw Hs Hr) as [Hp _].
    eapply tri_mono; [by apply (tri_set_mem N K c2 p x (fun _ _ => False))| |done]. intros [] c3 ->. assert (Hso3 : soles c2 (with_mem p x c2)) by (eapply soles_frame; [done| |done]; intros l' Hl'; by eapply (mem_slot N K c2 lv [] t n l p)).
    split_and!; [by eapply mem_holds|by eapply soles_trans, soles_trans|]. apply Hso3; [done..|by exists l].
  - intros (HS2 & Hso2 & Herr). eapply tri_bind; [eapply tri_mono; [by apply unalloc_ok|by intros ? ? H; exact H|done]|]. intros [] c3 [HS3 Hso3]. apply tri_err. split_and!; [done|by eapply soles_trans, soles_trans|].
    destruct Herr as [[-> Hfr]|[-> Hmx]]; [left; split; [done|lia]|by right].
Qed.

Lemma add_refines c S t n x : holds c S -> legal K S (p_add t n x) -> refines (p_add t n x) c S.
Proof using Hbound.
  intros HS [Ht Hn]. unfold refines. cbn [run_op spec_op spec_fail]. eapply tri_bind; [eapply tri_mono; [by apply (add_ok c S t n x)|by intros ? ? H; exact H|]|].
  - intros e c' (Hh & _ & [[-> Hfr]|[-> Hmx]]); (split; [|done]); [left; split_and!; [done|done|lia]|right; split; [done|]; by exists n].
  - intros [] c' [Hh _]. by apply tri_ret.
Qed.

(** ** Whole trees *)

Lemma swaps_holds c c' S t V b :
  holds c S -> (exists lv', inv c' lv' None []) -> swaps N K t c c' -> (forall n, 0 <= n -> view c' t n = V n) -> (b = true -> c_tree c' t = replicate n_slots None) -> holds c' (mkStore (upd t V (st_view S)) (upd t b (st_empty S))).
Proof using Type.
  intros [_ Hlo _ Hv He] HI [W1 W2 W3 W4] HV Hb. split; [done|by intros q ?%W4%Hlo|done|..].
  - intros t' n Ht Hn. simpl. unfold upd. case_decide as E; [subst t'; by apply HV|]. rewrite W1 by done. by apply Hv.
  - intros t' Ht. simpl. unfold upd. case_decide as E; [by subst t'|]. intros Hem. rewrite W2 by done. by apply He.
Qed.

Lemma free_refines c S t : holds c S -> legal K S (p_free t) -> refines (p_free t) c S.
Proof using Type.
  intros HS Ht. pose proof HS as [[lv HI] _ _ _ _]. unfold refines. cbn [run_op spec_op spec_fail]. eapply tri_bind; [eapply tri_mono; [by eapply (pt_free_ok N K c lv [] t)|by intros ? ? H; exact H|by intros ? ? []]|].
  intros [] c' (HI' & Hsw & Hem). apply tri_ret. split; [done|]. eapply swaps_holds; [done|by exists lv|done| |done]. intros n Hn. by apply view_empty.
Qed.

Lemma copy_refines c S s t : holds c S -> legal K S (p_copy s t) -> refines (p_copy s t) c S.
Proof using Hbound.
  intros HS (Hs & Ht & Hem). pose proof HS as [[lv HI] _ _ Hv He]. unfold refines. cbn [run_op spec_op spec_fail].
  eapply tri_bind; [eapply tri_mono; [apply (copy_ok N K c lv [] s t no_owner false Hbound HI); [simpl; lia|done|done|by apply He]|by intros ? ? H; exact H|by intros ? ? []]|].
  intros b c' (_ & HI' & Hsw & Hvw). apply tri_ret. split; [done|]. eapply swaps_holds; [done|by exists lv|done| |done]. intros n Hn. rewrite Hvw. by apply Hv.
Qed.

Lemma op_refines o c S : holds c S -> legal K S o -> refines o c S.
Proof using Hbound.
  intros HS Hl. destruct o; [by apply read_refines|by apply write_refines|by apply add_refines|by apply drop_refines|by apply copy_refines|by apply free_refines].
Qed.

Lemma step_refines o h S :
  rep h S -> legal K S o ->
  match run_op o h with
  | (Ok a, h') => a = (spec_op o S).1 /\ rep h' (spec_op o S).2
  | (Err e, h') => may_fail (length (ph_free h)) o e /\ rep h' (spec_fail o S)
  | (Panic, _) => False
  end.
Proof using Hbound.
  intros (c & Hh & HS) Hl. pose proof (op_refines o c S HS Hl h Hh) as Ho. destruct (run_op o h) as [[a|e|] h']; [| |done].
  - destruct Ho as (c' & Hh' & -> & HS'). split; [done|]. by exists c'.
  - destruct Ho as (c' & Hh' & Hm & HS'). rewrite (hs_free _ _ _ _ Hh). split; [done|]. by exists c'.
Qed.

(** C13: page trees are independent maps: a sequence of operations on trees (reads, writes,
    pages added and dropped, copies of trees, trees freed) gives what it would on one map per
    tree, however the trees share pages and indirect pages; an operation fails only for want of
    memory when fewer than five pages are free, or beyond the end of a tree, and then no map
    has changed; and nothing panics. *)
Theorem page_trees_refine_maps os h S : rep h S -> all_legal K os S -> exists S', spec_ops K os S (run_ops os h).1 S' /\ rep (run_ops os h).2 S'.
Proof using Hbound.
  revert h S. induction os as [|o os IH]; intros h S Hr Hl; simpl; [exists S; split; [constructor|done]|]. destruct Hl as (Hl & Hok & Her).
  pose proof (step_refines o h S Hr Hl) as Ho. destruct (run_op o h) as [[a|e|] h']; [..|done].
  - destruct Ho as [-> Hr']. destruct (IH h' _ Hr' Hok) as (S' & Hsp & Hr''). destruct (run_ops os h') as [rs h'']. exists S'. split; [|done]. eapply so_ok; [|exact Hsp]. by destruct (spec_op o S).
  - destruct Ho as [Hm Hr']. destruct (IH h' _ Hr' Her) as (S' & Hsp & Hr''). destruct (run_ops os h') as [rs h'']. exists S'. split; [|done]. by eapply so_fail.
Qed.

(** ** No page is lost *)

(** A page in use is in an entry of a page that is in use, or of a tree. *)
Lemma refs_pos q es : (0 < refs q es)%nat -> exists i, es !! i = Some (Some q).
Proof using Type. clear Hbound. intros Hr. apply elem_of_somes. destruct (decide (q ∈ somes es)) as [|Hn]; [done|]. rewrite (refs_zero q es Hn) in Hr. lia. Qed.

Lemma sum_pos (f : nat -> nat) n : (0 < sum_list_with f (seq 0 n))%nat -> exists i, (i < n)%nat /\ (0 < f i)%nat.
Proof using Type.
  clear Hbound. intros Hs. destruct (decide (Exists (fun i => (0 < f i)%nat) (seq 0 n))) as [He|Hn].
  - apply list.Exists_exists in He as (i & Hi & Hf). exists i. split; [|done]. apply elem_of_seq in Hi. lia.
  - apply not_Exists_Forall in Hn; [|solve_decision]. exfalso. assert (Hz : sum_list_with f (seq 0 n) = 0%nat); [|lia]. revert Hn. generalize (seq 0 n). clear. induction l as [|i l IH]; intros Hn; [done|]. apply list.Forall_cons in Hn as [H1 H2]. simpl in *. rewrite IH by done. lia.
Qed.

Lemma used_entry c lv q : inv c lv None [] -> (q < N)%nat -> 0 < c_ref c q -> exists l, live_loc N K c l /\ slot c l = Some q.
Proof using Type.
  clear Hbound. intros HI Hq Hr. pose proof (iv_cnt _ _ _ _ _ _ HI q Hq) as Hc. simpl in Hc. assert (Hp : (0 < count N K c q)%nat) by (change (pend q []) with 0%nat in Hc; lia). unfold count in Hp.
  destruct (decide (0 < sum_list_with (page_refs c q) (seq 0 N))%nat) as [H1|H1].
  - apply sum_pos in H1 as (p & Hpn & H1). unfold page_refs in H1. destruct (live c p) eqn:El; [|lia]. apply refs_pos in H1 as [i Hi]. exists (in_page p, i). split; [split; [split; [done|by eapply lookup_lt_Some]|done]|]. unfold slot. cbn [fst snd]. by rewrite Hi.
  - assert (H2 : (0 < sum_list_with (fun t => refs q (c_tree c t)) (seq 0 K))%nat) by lia. apply sum_pos in H2 as (t & Htn & H2). apply refs_pos in H2 as [i Hi]. exists (in_tree t, i). split; [split; [split; [done|by eapply lookup_lt_Some]|done]|]. unfold slot. cbn [fst snd slots_of]. by rewrite Hi.
Qed.

(** When the trees are empty, no page is in use. *)
Lemma empty_unused c lv k q : inv c lv None [] -> (forall t, (t < K)%nat -> c_tree c t = replicate n_slots None) -> (q < N)%nat -> (PAGETREE_INDIRECTS < lv q + k)%nat -> c_ref c q <= 0.
Proof using Type.
  clear Hbound. intros HI He. revert q. induction k as [|k IH]; intros q Hq Hk; [pose proof (iv_lv _ _ _ _ _ _ HI q); lia|]. destruct (Z.le_gt_cases (c_ref c q) 0) as [|Hr]; [done|]. exfalso.
  destruct (used_entry c lv q HI Hq ltac:(lia)) as (l & Hl & Hs). destruct (iv_edge _ _ _ _ _ _ HI l q Hl ltac:(by intros []) Hs) as (_ & Ht & _). destruct l as [[p|t] i].
  - destruct Hl as [[Hp _] El]. cbn [fst] in *. destruct (iv_page _ _ _ _ _ _ HI p Hp El) as [Hlv _]. unfold target in Ht. simpl in Ht. unfold live in El. apply andb_true_iff in El as [El _]. apply Z.ltb_lt in El. specialize (IH p Hp ltac:(lia)). lia.
  - destruct Hl as [[Htn _] _]. unfold slot in Hs. cbn [fst snd slots_of] in *. rewrite He in Hs by done. destruct (replicate n_slots (@None nat) !! i) as [e|] eqn:Ee; [|done]. apply lookup_replicate in Ee as [-> _]. done.
Qed.

Lemma empty_all_free h S : rep h S -> (forall t, (t < K)%nat -> st_empty S t = true) -> ph_free h ≡ₚ seq 0 N.
Proof using Type.
  clear Hbound. intros (c & Hh & [[lv HI] Hlo _ _ He]) Hem. rewrite (hs_free _ _ _ _ Hh). destruct (iv_free _ _ _ _ _ _ HI) as [Hnd Hf]. apply NoDup_Permutation; [done|apply NoDup_seq|]. intros q. rewrite elem_of_seq. split.
  - intros Hq. destruct (Hf q Hq). lia.
  - intros [_ Hq]. simpl in Hq. destruct (decide (q ∈ c_free c)) as [|Hn]; [done|]. assert (Hr : c_ref c q <= 0) by (eapply (empty_unused c lv (Datatypes.S PAGETREE_INDIRECTS) q HI); [|done|lia]; intros t Ht; by apply He, Hem).
    pose proof (iv_ref _ _ _ _ _ _ HI q Hq). assert (None = Some q); [|done]. apply Hlo. split_and!; [done..|lia].
Qed.

Lemma free_trees m a h S :
  rep h S -> (a + m <= K)%nat -> (forall t, (t < a)%nat -> st_empty S t = true) -> exists S', rep (run_ops (p_free <$> seq a m) h).2 S' /\ forall t, (t < a + m)%nat -> st_empty S' t = true.
Proof using Hbound.
  revert a h S. induction m as [|m IH]; intros a h S Hr Ha He; cbn [seq fmap list_fmap run_ops]; [exists S; split; [done|]; intros t Ht; apply He; lia|].
  pose proof (step_refines (p_free a) h S Hr ltac:(simpl; lia)) as Ho. destruct (run_op (p_free a) h) as [[x|e|] h']; [|by destruct Ho as [[(? & _)|(_ & ? & ? & _)] _]|done]. destruct Ho as [_ Hr'].
  destruct (IH (Datatypes.S a) h' _ Hr' ltac:(lia)) as (S' & HS' & He'); [|destruct (run_ops _ h') as [rs h'']; exists S'; split; [done|]; intros t Ht; apply He'; lia].
  intros t Ht. simpl. unfold upd. case_decide; [done|]. apply He. lia.
Qed.

(** C14: no page is lost, as long as no page is pinned or shared for writing: after any
    of the operations that the specification covers, failed allocations included, when
    every tree is freed, every page of memory is on the free list, once. *)
Theorem no_page_lost h S : rep h S -> ph_free (run_ops (p_free <$> seq 0 K) h).2 ≡ₚ seq 0 N.
Proof using Hbound.
  intros Hr. destruct (free_trees K 0 h S Hr ltac:(lia) ltac:(intros; lia)) as (S' & Hr' & He). by apply (empty_all_free _ S').
Qed.
End spec.
