(* ===== verification/PagetreeKobj.v ===== *)
(** * Page trees: the pages of an object

    Adding pages to an object is all or nothing, and taking back the ones that were
    added, when memory runs out on the way, needs no memory. *)

From S2P Require Import Prelude KState KObj Pagetree PagetreeCore PagetreeInv PagetreeFree PagetreeView PagetreeStep PagetreeCow PagetreeOps PagetreeTrees PagetreeSpec.
From stdpp Require Import options.

Set Default Goal Selector "!".

(** Pages [i] to [i + n] of [t] hold [v]. *)
Definition fill_view (t : nat) (i : Z) (n : nat) (v : option contents) (V : nat -> Z -> option contents) : nat -> Z -> option contents :=
  fun t' n' => if decide (t' = t /\ i <= n' < i + Z.of_nat n) then v else V t' n'.

Section kobj.
Context (N K : nat).
Context (Hbound : Z.of_nat (n_entries * N + n_slots * K) + 1000 < 2 ^ 32).
Abbreviation inv := (PagetreeInv.inv N K).
Abbreviation tri := (PagetreeCore.tri N K).
Abbreviation holds := (PagetreeSpec.holdx N K None).
Abbreviation soles := (PagetreeSpec.soles K).

Lemma pt_holds_ext c S S' : holds c S -> (forall t n, (t < K)%nat -> 0 <= n -> st_view S' t n = st_view S t n) -> (forall t, st_empty S' t = true -> st_empty S t = true) -> holds c S'.
Proof using Type. intros [H1 H2 H3 H4 H5] Hv He. split; try done; [|auto]. intros t n Ht Hn. by rewrite H4, Hv. Qed.

(** Dropping pages that nothing else has. *)
Lemma drop_pages_ok t n i c S :
  holds c S -> (t < K)%nat -> 0 <= i -> st_empty S t = false -> (forall j, i <= j < i + Z.of_nat n -> sole c t j) ->
  tri c (kobject_drop_pages t i n) (fun _ c' => holds c' (mkStore (fill_view t i n None (st_view S)) (st_empty S))) (fun _ _ => False).
Proof using Hbound.
  intros HS Ht Hi Hem. revert i c S HS Hi Hem. induction n as [|n IH]; intros i c S HS Hi Hem Hso; cbn [kobject_drop_pages].
  - apply tri_ret. eapply pt_holds_ext; [exact HS| |done]. intros t' n' _ _. simpl. unfold fill_view. rewrite decide_False; [done|lia].
  - pose proof HS as [[lv HI] _ _ _ _]. eapply (tri_bind N K); [apply (tri_code N K _ _ _ _ _ (put_sole N K Hbound c lv [] t i HI ltac:(simpl; lia) Ht Hi (Hso i ltac:(lia))))|].
    intros [[]|e|] c1; [|done..]. intros (lv1 & HI1 & Hpu). assert (HS1 : holds c1 (mkStore (put_view t i None (st_view S)) (upd t false (st_empty S)))) by (eapply (puts_holds N K None); [done|by exists lv1|done]).
    eapply tri_mono; [apply (IH (i + 1) c1 _ HS1); [lia|simpl; apply upd_same|]| |done].
    + intros j Hj. apply (pu_sole _ _ _ _ _ _ _ _ Hpu); [done|lia|]. apply Hso. lia.
    + intros [] c2 HS2. eapply pt_holds_ext; [exact HS2| |].
      * intros t' n' _ _. simpl. unfold fill_view, put_view. repeat case_decide; try done; exfalso; destruct_and?; subst; lia.
      * intros t' E. simpl in *. rewrite upd_other; [done|]. intros ->. congruence.
Qed.

Lemma add_pages_ok t cur n i c S :
  holds c (mkStore (fill_view t cur (Z.to_nat (i - cur)) (Some zero_page) (st_view S)) (upd t false (st_empty S))) -> (t < K)%nat -> 0 <= cur <= i -> (forall j, cur <= j -> st_view S t j = None) ->
  (forall j, cur <= j < i -> sole c t j) ->
  tri c (kobject_add_pages t cur i n)
    (fun _ c' => holds c' (mkStore (fill_view t cur (Z.to_nat (i - cur) + n) (Some zero_page) (st_view S)) (upd t false (st_empty S))))
    (fun e c' => holds c' (touch t S) /\ (e = E_RESTART \/ e = E_NO_SPACE /\ pagetree_maxpages < i + Z.of_nat n)).
Proof using Hbound.
  intros HS Ht Hi Hnone. revert i c HS Hi. induction n as [|n IH]; intros i c HS Hi Hso; cbn [kobject_add_pages].
  - apply tri_ret. by rewrite Nat.add_0_r.
  - eapply (tri_bind N K); [apply (tri_code N K _ _ _ _ _ (add_ok N K Hbound c _ t i zero_page HS Ht ltac:(lia)))|]. intros [[]|e|] c1; [| |done].
    + intros (HS1 & Hso1 & Hsole). eapply tri_mono; [apply (IH (i + 1) c1)| |].
      * eapply pt_holds_ext; [exact HS1| |]; simpl.
        -- intros t' n' _ _. unfold fill_view, put_view. repeat case_decide; try done; exfalso; destruct_and?; subst; lia.
        -- intros t' E. unfold upd in *. by case_decide.
      * lia.
      * intros j Hj. destruct (decide (j = i)) as [->|Hne]; [done|]. apply Hso1; [done|lia|]. apply Hso. lia.
      * intros [] c2. replace (Z.to_nat (i + 1 - cur) + n)%nat with (Z.to_nat (i - cur) + Datatypes.S n)%nat by lia. done.
      * intros e c2 [HS2 [->|[-> He]]]; (split; [done|]); [by left|right; split; [done|lia]].
    + intros (HS1 & Hso1 & Herr). eapply tri_bind; [eapply tri_mono; [apply (drop_pages_ok t (Z.to_nat (i - cur)) cur c1 _ HS1 Ht)|by intros ? ? H; exact H|done]|].
      * lia.
      * simpl. apply upd_same.
      * intros j Hj. apply Hso1; [done|lia|]. apply Hso. lia.
      * intros [] c2 HS2. apply tri_err. split; [|destruct Herr as [[-> _]|[-> He]]; [by left|right; split; [done|lia]]].
        eapply pt_holds_ext; [exact HS2| |]; simpl.
        -- intros t' n' _ _. unfold fill_view. repeat case_decide; try done. destruct_and?; subst. apply Hnone. lia.
        -- intros t' E. unfold upd in *. by case_decide.
Qed.

(** C15: growing an object is all or nothing: its pages are zeros, or, when memory runs out or the
    object would be too large, every tree is as it was before; the assertion that the pages
    added so far can be dropped again never fails. *)
Theorem set_pages_grow h S t cur n :
  rep N K h S -> (t < K)%nat -> 0 <= cur -> (forall j, cur <= j -> st_view S t j = None) ->
  match kobject_set_pages t cur (cur + Z.of_nat n) h with
  | (Ok _, h') => rep N K h' (mkStore (fill_view t cur n (Some zero_page) (st_view S)) (upd t false (st_empty S)))
  | (Err e, h') => rep N K h' (touch t S) /\ (e = E_RESTART \/ e = E_NO_SPACE /\ pagetree_maxpages < cur + Z.of_nat n)
  | (Panic, _) => False
  end.
Proof using Hbound.
  intros (c & Hh & HS) Ht Hcur Hnone. unfold kobject_set_pages. replace (cur - (cur + Z.of_nat n)) with (- Z.of_nat n) by lia. replace (cur + Z.of_nat n - cur) with (Z.of_nat n) by lia. replace (Z.to_nat (- Z.of_nat n)) with 0%nat by lia. rewrite Nat2Z.id. cbn [kobject_drop_pages].
  assert (HS0 : holds c (mkStore (fill_view t cur (Z.to_nat (cur - cur)) (Some zero_page) (st_view S)) (upd t false (st_empty S)))).
  { eapply pt_holds_ext; [by apply (same_holds N K None c S t)| |done]. intros t' n' _ _. simpl. unfold fill_view. rewrite decide_False; [done|lia]. }
  pose proof (add_pages_ok t cur n cur c S HS0 Ht ltac:(lia) Hnone ltac:(intros; lia) h Hh) as Ho. unfold mbind, HM_bind, mret, HM_ret. destruct (kobject_add_pages t cur cur n h) as [[[]|e|] h']; [| |done].
  - destruct Ho as (c' & Hh' & HS'). exists c'. split; [done|]. by rewrite Z.sub_diag in HS'.
  - destruct Ho as (c' & Hh' & HS' & He). split; [by exists c'|done].
Qed.

End kobj.
