(* ===== verification/PagetreeRun.v ===== *)
(** * Page trees: runs

    Memory after boot, sequences of operations on it, and what goes wrong when pages are
    pinned or memory has run out. *)

From S2P Require Import Prelude KState KObj Pagetree PagetreeCore PagetreeInv PagetreeFree PagetreeView PagetreeStep PagetreeCow PagetreeOps PagetreeTrees PagetreeSpec PagetreeKobj.
From stdpp Require Import options.

Set Default Goal Selector "!".

(** ** After boot *)

Definition init_page : page := mkPage (set_freepage true zero_info) (bytes []).

(** All of memory is free, and the trees are empty. *)
Definition init_heap (N K : nat) : pheap := mkPheap (replicate N init_page) (replicate K (empty_tree no_owner)) (seq 0 N) [].

Definition init_store : store := mkStore (fun _ _ => None) (fun _ => true).

Definition init_core (N : nat) : core :=
  mkCore (fun _ => 0) (fun _ => false) (fun _ => bytes []) (fun _ => replicate n_slots None) (fun p => bool_decide (p < N)%nat) (seq 0 N).

Lemma init_count N K q : count N K (init_core N) q = 0%nat.
Proof.
  unfold count. pose proof (sum_seq_le (page_refs (init_core N) q) 0 N ltac:(done)) as H1. pose proof (sum_seq_le (fun t => refs q (c_tree (init_core N) t)) 0 K) as H2. simpl in *. specialize (H2 ltac:(intros; lia)). lia.
Qed.

Lemma init_inv N K : inv N K (init_core N) (fun _ => 0%nat) None [].
Proof.
  split; try done; simpl.
  - intros q Hq. rewrite init_count. done.
  - intros l q Hl _ Hs. exfalso. destruct l as [[p|t] i]; [by destruct Hl as [_ Hl]|]. unfold slot in Hs. cbn [fst snd slots_of c_tree init_core] in Hs.
    destruct (replicate n_slots (@None nat) !! i) as [e|] eqn:Ee; [|done]. apply lookup_replicate in Ee as [-> _]. done.
  - split; [apply NoDup_seq|]. intros p Hp. apply elem_of_seq in Hp. split_and!; [lia|done|done|]. apply bool_decide_eq_true_2. lia.
  - intros p Hp Hn. destruct Hn. apply elem_of_seq. lia.
  - intros q Hq. by apply elem_of_nil in Hq.
  - intros q. unfold PAGETREE_INDIRECTS. lia.
Qed.

Lemma init_rep N K : rep N K (init_heap N K) init_store.
Proof.
  exists (init_core N). split.
  - split; simpl; [apply length_replicate|apply length_replicate| | |done].
    + intros p pg Hp. apply lookup_replicate in Hp as [-> Hp]. split; try done. simpl. symmetry. by apply bool_decide_eq_true_2.
    + intros t x Hx. apply lookup_replicate in Hx as [-> _]. done.
  - split; [exists (fun _ => 0%nat); apply init_inv| |done| |done].
    + intros q (Q1 & Q2 & _). destruct Q2. apply elem_of_seq. simpl. lia.
    + intros t n _ _. by apply view_empty.
Qed.

(** ** A run *)

Definition ex_bytes (b : Z) : contents := bytes [b].

(** Two trees share a page of the second level, and then one of them changes it. *)
Definition ex_ops : list pop := [p_add 0 1 (ex_bytes 1); p_add 0 200 (ex_bytes 2); p_copy 0 1; p_write 1 200 (ex_bytes 3); p_read 0 200; p_read 1 200].

Example ex_ops_results :
  (run_ops ex_ops (init_heap 12 2)).1 = [(12%nat, Ok None); (11%nat, Ok None); (8%nat, Ok None); (8%nat, Ok (Some (ex_bytes 2))); (5%nat, Ok (Some (ex_bytes 2))); (5%nat, Ok (Some (ex_bytes 3)))].
Proof. vm_compute. reflexivity. Qed.

Lemma ex_legal : all_legal 2 ex_ops init_store.
Proof. simpl. repeat split; try lia. Qed.

Lemma ex_bound : Z.of_nat (n_entries * 12 + n_slots * 2) + 1000 < 2 ^ 32.
Proof. vm_compute. reflexivity. Qed.

Lemma page_trees_refine_maps_witness : exists S', spec_ops 2 ex_ops init_store (run_ops ex_ops (init_heap 12 2)).1 S' /\ rep 12 2 (run_ops ex_ops (init_heap 12 2)).2 S'.
Proof. exact (page_trees_refine_maps 12 2 ex_bound ex_ops (init_heap 12 2) init_store (init_rep 12 2) ex_legal). Defined.

Lemma ex_rep : exists S, rep 12 2 (run_op (p_add 0 200 (ex_bytes 1)) (init_heap 12 2)).2 S.
Proof.
  pose proof (step_refines 12 2 ex_bound (p_add 0 200 (ex_bytes 1)) (init_heap 12 2) init_store (init_rep 12 2) ltac:(simpl; lia)) as Hs.
  destruct (run_op _ _) as [[a|e|] h]; [destruct Hs as [_ Hr]; eauto|destruct Hs as [_ Hr]; eauto|done].
Qed.

Lemma no_page_lost_witness : ph_free (run_ops (p_free <$> seq 0 2) (run_op (p_add 0 200 (ex_bytes 1)) (init_heap 12 2)).2).2 ≡ₚ seq 0 12.
Proof. destruct ex_rep as [S Hr]. exact (no_page_lost 12 2 ex_bound _ S Hr). Defined.

Lemma set_pages_grow_witness :
  match kobject_set_pages 0 0 (0 + Z.of_nat 5) (init_heap 12 2) with
  | (Ok _, h') => rep 12 2 h' (mkStore (fill_view 0 0 5 (Some zero_page) (st_view init_store)) (upd 0%nat false (st_empty init_store)))
  | (Err e, h') => rep 12 2 h' (touch 0 init_store) /\ (e = E_RESTART \/ e = E_NO_SPACE /\ pagetree_maxpages < 0 + Z.of_nat 5)
  | (Panic, _) => False
  end.
Proof. exact (set_pages_grow 12 2 ex_bound (init_heap 12 2) init_store 0 0 5 (init_rep 12 2) ltac:(lia) ltac:(lia) ltac:(done)). Defined.

(** With memory the pages are there, and without it the run ends in an error. *)
Example set_pages_runs :
  (kobject_set_pages 0 0 5 (init_heap 12 2)).1 = Ok tt /\ (kobject_set_pages 0 0 7 (init_heap 7 2)).1 = Err E_RESTART /\ length (ph_free (kobject_set_pages 0 0 7 (init_heap 7 2)).2) = 6%nat.
Proof. vm_compute. auto. Qed.

(** ** What goes wrong *)

(** An object of five pages and a copy of it fill the memory. *)
Definition shared_heap : pheap := (run_ops [p_add 0 0 (ex_bytes 1); p_add 0 1 (ex_bytes 2); p_add 0 2 (ex_bytes 3); p_add 0 3 (ex_bytes 4); p_add 0 4 (ex_bytes 5); p_copy 0 1] (init_heap 6 2)).2.

(** Shrinking an object can panic the kernel: an object shares an indirect page with a copy and
    memory is full; dropping its last page has to copy the indirect page, which fails, and
    [kobject_set_nbytes] takes that for impossible. *)
Example shrink_panics : (kobject_set_pages 0 5 4 shared_heap).1 = Panic.
Proof. vm_compute. reflexivity. Qed.

Definition pin_page (t : nat) (n : Z) : HM unit :=
  r ← pagetree_get_page t n page_excl_dirty;
  match r.1 with Some p => pagetree_incpin_write pt_depth p | None => hpanic end.

Definition unpin_page (t : nat) (n : Z) : HM unit :=
  r ← pagetree_get_page t n page_shared_ro;
  match r.1 with Some p => pagetree_decpin_write pt_depth p | None => hpanic end.

Definition pinned_copy : HM (res bool) :=
  run_op (p_add 0 4 (ex_bytes 1));;
  pin_page 0 4;;
  hcode (pagetree_copy 0 1 no_owner false).

(** A copy that fails leaves references behind: page 4 of an object is pinned for a device, and
    memory runs out while its indirect page is copied.  The copy of the indirect page is freed
    before it is marked as one, so the reference to page 4 stays, and when the device is done
    with the page, [pagetree_decpin_write] panics; without the copy it does not. *)
Example failed_copy_panics :
  (pinned_copy (init_heap 3 2)).1 = Ok (Err E_RESTART) /\ (unpin_page 0 4 (pinned_copy (init_heap 3 2)).2).1 = Panic /\ (unpin_page 0 4 ((run_op (p_add 0 4 (ex_bytes 1));; pin_page 0 4) (init_heap 3 2)).2).1 = Ok tt.
Proof. vm_compute. repeat split; reflexivity. Qed.

Definition snapshot_run : HM (bool * option contents * option contents) :=
  run_op (p_add 0 0 (ex_bytes 1));;
  run_op (p_add 0 1 (ex_bytes 2));;
  pin_page 0 0;;
  shared ← pagetree_copy 0 1 no_owner true;
  run_op (p_copy 0 2);;
  run_op (p_write 0 1 (ex_bytes 3));;
  before ← run_op (p_read 1 1);
  run_op (p_write 2 1 (ex_bytes 4));;
  after ← run_op (p_read 1 1);
  mret (shared, before, after).

(** A copy can write into a snapshot: tree 0 has a pinned page, so its snapshot, tree 1, shares all
    pages for writing.  Tree 2 is a copy of tree 0.  When tree 0 has given page 1 up, the
    reference of the snapshot alone makes tree 2 the owner of the page: the write to tree 2
    changes what the snapshot of tree 0 holds, which goes to the disk as tree 0. *)
Example copy_writes_snapshot : (snapshot_run (init_heap 8 3)).1 = Ok (true, Some (ex_bytes 2), Some (ex_bytes 4)).
Proof. vm_compute. reflexivity. Qed.
